(* ===== verification/_CoqProject ===== *)
-Q . S2P
Prelude.v
GoString.v
Domain.v
Cost.v
PriceResolve.v
Remainder.v
RemainderConc.v
Balances.v
UsageBilling.v
Reprice.v
Flusher.v
Gate.v
GateConc.v
GoTime.v
RuleTypes.v
Windows.v
RuleMatch.v
RuleEngine.v
WeightedSeq.v
SchedTypes.v
AccountState.v
Routes.v
ModelNames.v
Selection.v
UpstreamPool.v
Endpoints.v
Snapshots.v
StoreInv.v
GroupReload.v
Scheduler.v
Pipeline.v
PipelineInv.v
JsonScan.v
JsonText.v
GoJson.v
Decoded.v
UsageExtract.v
UsageDecode.v
StripTools.v
StripExact.v
RequestCheck.v
Recorder.v
RecorderInv.v
RecorderRuns.v
SseRelay.v
SseStream.v
SseText.v
Metering.v
Callers.v
Forwarding.v
StreamMeter.v
Admission.v
ErrLog.v
Invalidate.v
StatsAgg.v
ProtoJson.v
StreamMapper.v
ChatStream.v
RespStream.v
MarshalText.v
Utf8Text.v
MessStream.v
ChatResponses.v
BodyRequest.v
Images.v
BodyResponse.v
Dialogue.v
Documents.v
RespChat.v
Answers.v
