(* ===== verification/Prelude.v ===== *)
(** * C4 gateway: verification library

    C4 is a Go gateway that sells access to language-model providers.  A request
    is admitted, sent to a provider account or upstream, metered, priced and
    charged.  This library models the parts of [src/internal] that decide
    whether a request may run, where it goes and what it costs, and proves them
    correct.

    ** The program and how its parts interact

    - The gate ([internal/proxy/gate.go], [limit.go], [concsync.go]) admits a
      request against the concurrency limits of its user and key, the quota of the
      key and the rate limit of the group; several instances share the limits
      through reports in Redis.
    - The scheduler ([internal/scheduler]) picks the target: an account of the
      group, by model whitelist, format, weight, cooldown and free slots, or a
      member of an upstream pool, by catalogue and priority.  Results flow back:
      into a member's breaker, or for accounts into the rule engine.
    - The rule engine ([internal/rule]) matches results against the operators'
      rules, with sliding windows, and calls the scheduler back to change an
      account's status, cooldown or weight.
    - The forwarding pipeline ([internal/proxy/pipeline.go], [caller.go],
      [retry_after.go]) makes the attempts of a request: selection, price check,
      call, classification of the failure, the next target or the next protocol,
      and the answer.  A call goes through the caller of the client's format, of
      the conversion or of the kind of account ([caller_chat.go],
      [caller_anthropic.go], [caller_responses.go], [caller_images.go],
      [caller_images_codex.go], [caller_images_stream.go], [caller_converted.go],
      [codex_responses_http.go]).
    - Settlement ([internal/proxy/billing.go], [forward.go], [caller.go]) resolves
      prices ([internal/domain/price_resolve.go]), computes costs
      ([internal/billing/cost.go]) and carries the fractions of a unit from one
      request to the next.
    - The cursor consumer ([internal/billing/drain.go], [flusher.go],
      [batch_controller.go]) moves finished rows into the ledger, the repricer
      ([reprice.go]) recovers rows that could not be priced and [balances.go]
      keeps the balance snapshot.
    - Requests and answers are read without decoding them: a byte scanner
      ([internal/proxy/strip_scan.go]) finds the values of keys, and serves the
      check of parameter types ([request_validation.go]), the removal of image
      tools ([strip_image.go]) and the metering of answers ([usage_extract.go]).
    - Streams are relayed frame by frame ([pkg/sserelay/relay.go]), with batched
      flushes by size and by timer; the callers watch the frames for usage and for
      failures ([caller_chat.go], [caller_anthropic.go], [caller_responses.go],
      [protocol_failure.go]).
    - The usage recorder ([internal/usage/usage.go]) persists the finished rows
      and the quota increments of the keys in batches; the error log
      ([internal/usage/errlog.go]) keeps the failed and the refused requests, and
      the statistics ([stats_agg.go]) are rebuilt from both tables by the hour.
    - Administrative changes mark the snapshots they make stale; a debouncer
      ([internal/invalidate/invalidate.go]) reloads them in batches.

    ** Files

    Billing
    - [Prelude]: machine integers with wrap-around, tactics, shared lemmas.
    - [GoString]: the Go string functions the sources use, UTF-8 decoding.
    - [Domain]: constants and records of [internal/domain].
    - [Cost]: [cost.go].  [PriceResolve]: [price_resolve.go], [price_entry.go].
    - [Remainder], [RemainderConc]: the fraction accumulator of [billing.go], one
      call at a time and as interleaved atomic steps.
    - [UsageBilling]: [forward.go] and the settlement part of [caller.go].
    - [Balances], [Reprice], [Flusher]: the files of the same names and
      [drain.go], [batch_controller.go]; the database is the class [LedgerStore],
      and usage rows arrive in it between any two statements.

    Admission
    - [Gate], [GateConc]: the gate one operation at a time, and its acquires and
      releases, user and key layers with shares and borrowing, interleaved with
      each other and with reloads, upserts and deletes.
    - [Admission]: [auth.go], [guardPipeline] of [pipeline.go] and [handleFormat]
      of [caller.go]: key, quota, balance, slots, rate, the body, the forwarding
      and the way out.

    Rules
    - [GoTime]: times, durations, binary64.  [RuleTypes], [Windows], [RuleMatch],
      [RuleEngine]: the files of [internal/rule]; the database is the class
      [RuleStore].

    Scheduler
    - [SchedTypes]: templates, accounts, snapshots.  [WeightedSeq], [Routes]:
      selection sequences and the routes built from them ([state.go],
      [scheduler.go]).  [ModelNames]: [model_alias.go].
    - [AccountState]: the status of an account under concurrent writers, 429
      back-off, write-back merging.
    - [Selection]: [selection.go] in account mode.  [UpstreamPool]:
      [upstream_pool.go].  [Endpoints]: normal forms of endpoints and keys; URL
      parsing is the class [UrlLib].
    - [Snapshots]: the store and its operations: [reload], [InvalidateGroup],
      [SelectExcluding], [release].  [StoreInv], [GroupReload]: the invariant of
      the store, under full reloads, requests and route rebuilds and under the
      reload of one group.  [Scheduler]: the scheduler as a state machine.

    Forwarding
    - [Pipeline]: the failover loop and the selection part of [handleFormat],
      against interfaces for the scheduler ([SlotScheduler]), the attempt
      ([UpstreamAttempt]) and text parsers ([TextLib]); its effects are a trace.
      [PipelineInv]: its correctness against the laws of those interfaces
      ([SlotLaws], [AttemptLaws]), and Retry-After.
    - [Metering]: what the observer of each caller charges a stream for, and which
      streams are taken for failed ([protocol_failure.go], [image_usage.go]).
    - [Callers]: the attempt ([chatAttempt.call]) and the callers of every format,
      conversion and credential type, around the network calls, whose answers are
      the record [Network]; the attempt meets [AttemptLaws].
    - [Forwarding]: the scheduler's store discharges [SlotLaws]; requests end to
      end through the callers.

    Requests and answers as bytes
    - [JsonScan]: the scanner.  [JsonText]: the JSON texts it reads, and what it
      finds in them.
    - [GoJson]: [encoding/json], a parser and its round trip with the texts of
      [JsonText].  [Decoded]: what a library hands to a program: strings and keys
      without escapes, of the members with one key the last.
    - [UsageExtract]: metering, over an interface ([DocView]) that the bytes, the
      syntax trees and the decoded documents implement.  [UsageDecode]: bytes and
      decoded documents agree, when keys are plain, and where they do not.
    - [StripTools], [StripExact]: removal of image tools.  [RequestCheck]: the
      check of parameter types, against the rules on the decoded document.

    Streams
    - [SseRelay]: the relay: reader, frame, buffered writer, flush timer.
      [SseStream]: read loop and timer as interleaved steps.  [SseText]: frames of
      the relay and frames of the text.
    - [StreamMeter]: the observers of [Metering] behind the relay: what the callers
      charge a stream for in terms of its text.

    Protocol conversion ([internal/protoconv])
    - [ProtoJson]: decoded values, their accessors, the JSON writer.
      [MarshalText]: the writer's texts read back.  [Utf8Text]: decoded strings are
      valid UTF-8.
    - [StreamMapper]: the state of a mapper.  [ChatStream]: Chat to Messages
      ([chat_target.go]), and the client of a Messages stream.  [RespStream]:
      Responses to Messages ([mess_resp.go]).  [MessStream]: Messages to Responses
      and to Chat ([resp_mess.go], [chat_mess.go]).  [ChatResponses]: Chat to
      Responses, through Messages events written and read again.
    - [BodyRequest], [Images]: requests between the protocols ([mess_resp.go],
      [resp_mess.go], [chat_target.go], [chat_mess.go], [reasoning.go]).
      [BodyResponse]: answers between the protocols, and failures that arrive as
      successes ([protoconv.go]).
    - [Dialogue]: what a document says, and that the converters keep it.
      [Documents]: documents written and read again.  [RespChat]: Responses
      requests at Chat providers, on the bytes.  [Answers]: Chat answers for
      Responses clients, on the bytes; the failures that are detected.

    Usage rows
    - [Recorder]: the recorder's operations against a database that may answer
      anything.  [RecorderInv]: what each operation does to the rows.
      [RecorderRuns]: the recorder as a step relation, its invariants, shutdown.
    - [ErrLog]: the error log's two queues, its worker and its shutdown.
    - [StatsAgg]: the aggregation cycle with the SQL of [stat_repo.go] and
      [stat_entity_agg.go] by what it computes.

    Administration
    - [Invalidate]: the debouncer as a step relation.

    State is passed explicitly: a record per Go structure, a heap with locations
    where pointers are shared (account instances, upstream cells).  Code that
    runs concurrently without a lock is a step relation on the shared cells
    ([RemainderConc], [GateConc], [AccountState]), and so are workers beside their
    producers ([RecorderRuns], [SseStream], [ErrLog], [Invalidate], [StatsAgg]); elsewhere an operation is one
    atomic update.  Errors and panics are values ([option], [sum]).  Iteration
    orders of Go maps and the random shuffle are arguments.

    ** What the theorems show

    - Money: costs are exact with saturation and never free by overflow; in every
      interleaving the emitted integers plus the retained fractions account for
      every cost; the fallback never under-charges; the price quote is the first
      matching variant; recovery prices rows of every format as the live path does;
      the consumer drains while rows arrive, touches only what it may, and needs
      its budget.
    - Admission: in-flight counts equal the admitted requests and stay within the
      limits, also across reloads that find no acquire or release half done; quota reclaiming stays within the quota; a request is
      admitted exactly when every check passes, and from arrival to end it leaves
      all counters and slots as it found them; what is read of a body is what its
      syntax tree says.
    - Rules: the engine acts on the first matching rule, window counts equal a
      count over the event history, classification agrees with the worker.
    - Scheduling: every reachable store is well formed and every answered request
      goes to a target that may take it; sequences share by weight and a round
      serves everybody; upstream selection follows priorities and is complete;
      account state writers serialise and a permanent failure is final between
      reloads; reloads keep counters and cooldowns, so that slots are given back
      exactly.
    - Forwarding: whatever the upstreams answer, a request terminates, gives back
      every slot it took, is settled at most once and answered at most once, and
      calls no target twice over the same protocol; Retry-After deadlines are in
      the future; a stream is charged for the last measured counters.
    - Bytes: the scanner finds the first member with a key in every JSON text;
      metering by bytes equals metering of the decoded document when its keys are
      plain; stripping never
      slices out of range and removes exactly the image tools and a dangling
      choice, leaving every other byte; a request with plain keys passes the type
      check exactly when its decoded members have the declared kinds.
    - Streams: whatever timer, client and provider do, the client gets a prefix of
      the mapped frames in order, and all of them over a healthy connection; fewer
      bytes than the flush size ever wait, and never without a timer; the frames
      are those of the text; a stream is charged for the frames of its text.
    - Conversion: a client of the Messages protocol accepts whatever the mappers
      make of a Chat stream or of an orderly Responses stream and then holds the
      texts of the source; the final event of a Responses stream lists the texts
      of the source, also through two mappers; a value written as JSON text is
      read back.  A converted request says what the client's said: the same calls
      and results in the same order, the texts of the same roles, the same
      parameters, also through two converters and the bytes between them; a
      converted answer has the same items and counters; the images of a request
      arrive in their places with their bytes; a failure is detected exactly where an inspected object says so.
    - Usage rows: in every interleaving each recorded row is in one place once and
      every quota increment is accounted for; a bad row is dropped alone; shutdown
      ends and, with a healthy database, loses nothing.  The error log accounts for
      every row offered within its bounds, and no storm of refused requests costs a
      row of a failed one.  Statistics of hours that are over equal a count of the
      logs, and cycles catch up by an hour each.
    - Administration: no change is lost between marks and reloads, and the reloads
      come to rest.
    - Theorems that record where the code differs from its comments or from what
      it means to do: [UsageBilling.signedMulDivBP_wraps],
      [Flusher.observe_slow_keeps], [GateConc.reload_loses_count],
      [RuleEngine.default_window_truncated], [RuleEngine.classify_window_shadow],
      [AccountState.contended_action_counts_twice],
      [Selection.empty_model_escapes_whitelist],
      [UpstreamPool.failure_shortens_cooldown], [Scheduler.rebuild_window_refuses],
      [Scheduler.failed_reload_changes_accounts],
      [Scheduler.reload_revives_failed_account], [PipelineInv.retry_after_overflow],
      [PipelineInv.retry_after_zero],
      [Forwarding.unavailable_alternate_ends_request],
      [UsageDecode.anthropic_shape_diverges],
      [UsageDecode.escapes_and_duplicates_misread],
      [RequestCheck.misfits_pass_unread], [StripExact.escaped_tool_passes],
      [RecorderRuns.transient_failure_drops_row], [RecorderRuns.quota_refill_wraps],
      [SseText.long_comment_in_data], [Metering.failure_depends_on_map_order],
      [Admission.escaped_slash_in_model], [ErrLog.truncated_rows_counted_twice],
      [StatsAgg.late_row_never_counted], [RespStream.second_text_part_breaks_stream],
      [RespStream.empty_reasoning_left_open], [MarshalText.line_separator_not_escaped],
      [Dialogue.untyped_message_dropped], [Dialogue.assistant_string_dropped],
      [Answers.truncation_lost], [Answers.null_flag_is_failure].

    ** Bounds and fuel

    Integers are kept at 64 bits; a theorem that excludes wrap-around says so in
    its hypotheses.  Loops that are not structural carry fuel that is proved
    sufficient where they are used: 127 turns for [gcdInt] (the divisor halves
    every second turn), the length of the value for [strip_bearer] (every turn
    shortens it), the ring size for the window loops, for the drain loop the round
    in which its budget ends or the rows pending and arriving, one turn per attempt and per alternate protocol for the
    failover loop, one more than the length of the body for the scanner's loops
    (every turn advances), the length of the batch for the bisection and of the
    shard for a worker (every turn takes rows off it), the deadline for the rounds
    of shutdown, one more than the queued rows for the drain of the error log
    (every turn takes one), twice the length of the text and two for the decoder
    ([GoJson]), one more than the length of the text for the frames of a stream, the
    number of occupied indexes for the search of a free one.
    Round-robin cursors are 64-bit counters; completeness of a
    scan assumes that a cursor has not passed 2^63, soundness assumes nothing.
    ASCII case mapping and white space stand for [strings.ToLower] and
    [strings.TrimSpace].

    ** Not modelled, and why

    The exchange with a provider (network I/O; the callers take its outcome as an
    argument), the attempts of [HandleSearch] and of the websocket relay, the relay
    itself and the SDK bridge; the turn state of codex sessions and the frames
    written for the image stream of the SDK; multipart forms; the
    conversions of [chat_resp.go] between Chat and Responses, which splice bytes
    found by gjson, and the switch over the directions; the generated ORM and handlers; SQL; configuration,
    process wiring and tickers; JWT; retention.  Of the modelled components: log
    output, the Redis pipeline of the concurrency views, the runtime pages of the
    administration, host attribution and client addresses. *)

From Stdlib Require Import ZArith Lia List Bool.
From stdpp Require Import base option list gmap strings.
Import ListNotations.
#[global] Open Scope Z_scope.

(** ** Machine integers

    Go's [int64] and (on the 64-bit targets the gateway is built for) [int] are
    modelled as [Z] kept in range by an explicit wrap-around after every
    operation that the source performs without a guard.  Division truncates
    towards zero ([Z.quot]/[Z.rem]), as the Go specification says. *)

Definition max64 : Z := 9223372036854775807.
Definition min64 : Z := -9223372036854775808.
Definition two64 : Z := 18446744073709551616.

Definition int64 (z : Z) : Prop := min64 <= z <= max64.
Definition uint64 (z : Z) : Prop := 0 <= z < two64.

Definition wrap64 (z : Z) : Z := (z - min64) mod two64 + min64.
Definition wrapu64 (z : Z) : Z := z mod two64.

Definition add64 (a b : Z) : Z := wrap64 (a + b).
Definition sub64 (a b : Z) : Z := wrap64 (a - b).
Definition mul64 (a b : Z) : Z := wrap64 (a * b).
Definition quot64 (a b : Z) : Z := wrap64 (Z.quot a b).
Definition rem64 (a b : Z) : Z := Z.rem a b.
Definition neg64 (a : Z) : Z := wrap64 (- a).

Declare Scope go_scope.
Delimit Scope go_scope with go.
Infix "[+]" := add64 (at level 50, left associativity) : go_scope.
Infix "[-]" := sub64 (at level 50, left associativity) : go_scope.
Infix "[*]" := mul64 (at level 40, left associativity) : go_scope.
Infix "[/]" := quot64 (at level 40, left associativity) : go_scope.
Infix "[%]" := rem64 (at level 40, left associativity) : go_scope.
Infix "==s" := String.eqb (at level 70, no associativity) : go_scope.
(** Early return of Go's [if ... return] chains in the option monad. *)
Notation "'let?' x ':=' e 'in' k" := (match e with Some x => k | None => None end)
  (at level 10, x pattern, k at level 200) : go_scope.
#[global] Open Scope go_scope.

(** [p != nil] for a pointer. *)
Definition isSome {A} (o : option A) : bool := match o with Some _ => true | None => false end.

(** ** Tactics

    [unfold_int] exposes the machine bounds to [lia]; [bcase] splits the first
    boolean or option test of the goal, [bcases] all of them, [bcase_in] and
    [bcases_in] those of a hypothesis. *)

Ltac unfold_int := unfold int64, uint64, max64, min64, two64 in *.

Ltac bcase :=
  match goal with
  | |- context [if ?b then _ else _] => destruct b eqn:?
  | |- context [match ?o with Some _ => _ | None => _ end] => destruct o eqn:?
  end.

Ltac bcase_in H :=
  match type of H with
  | context [if ?b then _ else _] => destruct b eqn:?
  | context [match ?o with Some _ => _ | None => _ end] => destruct o eqn:?
  end.

Ltac bcases := repeat bcase.
Ltac bcases_in H := repeat bcase_in H.

Create HintDb go.
Create HintDb gobound.

(** ** Wrap-around lemmas *)

Lemma wrap64_small (z : Z) : int64 z -> wrap64 z = z.
Proof. unfold_int. intros H. unfold wrap64. unfold_int. rewrite Z.mod_small; lia. Qed.

Lemma wrap64_range (z : Z) : int64 (wrap64 z).
Proof.
  unfold wrap64, int64. pose proof (Z.mod_pos_bound (z - min64) two64) as H.
  unfold_int. lia.
Qed.

Lemma wrapu64_small (z : Z) : uint64 z -> wrapu64 z = z.
Proof. intros H. unfold wrapu64. apply Z.mod_small. exact H. Qed.

Lemma add64_small (a b : Z) : int64 (a + b) -> a [+] b = a + b.
Proof. apply wrap64_small. Qed.

Lemma sub64_small (a b : Z) : int64 (a - b) -> a [-] b = a - b.
Proof. apply wrap64_small. Qed.

Lemma mul64_small (a b : Z) : int64 (a * b) -> a [*] b = a * b.
Proof. apply wrap64_small. Qed.

Lemma quot64_nonneg (a b : Z) : 0 <= a <= max64 -> 0 < b -> a [/] b = a / b.
Proof.
  intros Ha Hb. unfold quot64. rewrite Z.quot_div_nonneg by lia.
  apply wrap64_small. pose proof (Z.div_pos a b). pose proof (Z.div_le_upper_bound a b a).
  unfold_int. nia.
Qed.

Lemma rem64_nonneg (a b : Z) : 0 <= a -> 0 < b -> a [%] b = a mod b.
Proof. intros Ha Hb. unfold rem64. apply Z.rem_mod_nonneg; lia. Qed.

(** Division facts used by every fixed-point routine. *)

Lemma div_mod_split (a b : Z) : 0 < b -> a = b * (a / b) + a mod b /\ 0 <= a mod b < b.
Proof. intros Hb. split; [apply Z.div_mod; lia | apply Z.mod_pos_bound; lia]. Qed.

Lemma div_gt_mul_gt (a b m : Z) : 0 < b -> m / b < a -> m < a * b.
Proof.
  intros Hb H. destruct (div_mod_split m b Hb) as [E [? ?]]. nia.
Qed.

Lemma div_ge_mul_le (a b m : Z) : 0 < b -> a <= m / b -> a * b <= m.
Proof.
  intros Hb H. destruct (div_mod_split m b Hb) as [E [? ?]]. nia.
Qed.

#[export] Hint Resolve wrap64_range : go.
