(* ===== verification/GoString.v ===== *)
(** * Go strings

    The part of Go's [strings], [strconv] and [fmt] packages the modelled code
    uses.  A Go string is a byte sequence, here a [string]; [ToLower] and
    [TrimSpace] follow their ASCII cases (letters [A]-[Z], the six ASCII white
    space bytes): service tiers, model identifiers and billing markers are
    ASCII, and bytes above 127 are left as they are. *)

From Stdlib Require Import ZArith Lia List Bool Ascii String.
From stdpp Require Import base option list strings.
From S2P Require Import Prelude.
Import ListNotations.
Local Open Scope string_scope.
Local Open Scope Z_scope.

Definition byte_val (c : ascii) : Z := Z.of_N (N_of_ascii c).
Definition byte_of (z : Z) : ascii := ascii_of_N (Z.to_N z).

(** ** Character classes *)

Definition is_space (c : ascii) : bool :=
  let b := byte_val c in ((9 <=? b) && (b <=? 13)) || (b =? 32).

Definition is_digit (c : ascii) : bool :=
  let b := byte_val c in (48 <=? b) && (b <=? 57).

Definition is_lower (c : ascii) : bool :=
  let b := byte_val c in (97 <=? b) && (b <=? 122).

Definition is_upper (c : ascii) : bool :=
  let b := byte_val c in (65 <=? b) && (b <=? 90).

Definition lower_ascii (c : ascii) : ascii :=
  if is_upper c then byte_of (byte_val c + 32) else c.

(** ** [strings] *)

Fixpoint ToLower (s : string) : string :=
  match s with
  | EmptyString => EmptyString
  | String c s' => String (lower_ascii c) (ToLower s')
  end.

Fixpoint trim_left (p : ascii -> bool) (s : string) : string :=
  match s with
  | EmptyString => EmptyString
  | String c s' => if p c then trim_left p s' else s
  end.

Fixpoint trim_right (p : ascii -> bool) (s : string) : string :=
  match s with
  | EmptyString => EmptyString
  | String c s' =>
      match trim_right p s' with
      | EmptyString => if p c then EmptyString else String c EmptyString
      | t => String c t
      end
  end.

Definition trim_by (p : ascii -> bool) (s : string) : string := trim_right p (trim_left p s).

Definition TrimSpace (s : string) : string := trim_by is_space s.

(** [strings.HasPrefix], [strings.TrimPrefix]. *)
Fixpoint strip_prefix (p s : string) : option string :=
  match p, s with
  | EmptyString, _ => Some s
  | String a p', String b s' => if Ascii.eqb a b then strip_prefix p' s' else None
  | _, _ => None
  end.

Definition HasPrefix (s p : string) : bool :=
  match strip_prefix p s with Some _ => true | None => false end.

Definition TrimPrefix (s p : string) : string :=
  match strip_prefix p s with Some r => r | None => s end.

(** [strings.Cut]: the text before and after the first occurrence of [sep]. *)
Fixpoint Cut (s sep : string) : option (string * string) :=
  match strip_prefix sep s with
  | Some r => Some (EmptyString, r)
  | None =>
      match s with
      | EmptyString => None
      | String c s' =>
          match Cut s' sep with
          | Some (l, r) => Some (String c l, r)
          | None => None
          end
      end
  end.

(** [s[strings.LastIndex(s, sep)+len(sep):]]: the text after the last
    occurrence, or [None] when [LastIndex] is negative. *)
Fixpoint CutLastAfter (s sep : string) : option string :=
  match s with
  | EmptyString => strip_prefix sep EmptyString
  | String c s' =>
      match CutLastAfter s' sep with
      | Some r => Some r
      | None => strip_prefix sep s
      end
  end.

Definition Contains (s sub : string) : bool :=
  match Cut s sub with Some _ => true | None => false end.

(** ** [fmt.Sscanf] with the [%d] verb

    [scan_d] skips blanks (a newline is an error), accepts an optional sign,
    needs at least one decimal digit, takes the longest digit run and fails
    when the value does not fit an [int64]. *)

Definition digit_val (c : ascii) : Z := byte_val c - 48.

Fixpoint scan_digits (acc : Z) (s : string) : Z * string :=
  match s with
  | EmptyString => (acc, EmptyString)
  | String c s' =>
      if is_digit c then scan_digits (acc * 10 + digit_val c) s' else (acc, s)
  end.

Fixpoint skip_blanks (s : string) : option string :=
  match s with
  | EmptyString => Some EmptyString
  | String c s' =>
      if byte_val c =? 10 then None
      else if is_space c then
        match s' with
        | String c' s'' =>
            if (byte_val c =? 13) && (byte_val c' =? 10) then skip_blanks s'' else skip_blanks s'
        | EmptyString => Some EmptyString
        end
      else Some s
  end.

Definition scan_sign (s : string) : Z * string :=
  match s with
  | String c s' =>
      if byte_val c =? 45 then (-1, s') else if byte_val c =? 43 then (1, s') else (1, s)
  | EmptyString => (1, s)
  end.

Definition scan_d (s : string) : option (Z * string) :=
  match skip_blanks s with
  | None => None
  | Some s1 =>
      let '(sg, s2) := scan_sign s1 in
      match s2 with
      | String c _ =>
          if is_digit c then
            let '(v, rest) := scan_digits 0 s2 in
            let n := sg * v in
            if (min64 <=? n) && (n <=? max64) then Some (n, rest) else None
          else None
      | EmptyString => None
      end
  end.

(** ** [strconv.ParseInt(s, 10, 64)]: the whole string, no blanks. *)
Definition ParseInt (s : string) : option Z :=
  let '(sg, s2) := scan_sign s in
  match s2 with
  | String c _ =>
      if is_digit c then
        let '(v, rest) := scan_digits 0 s2 in
        let n := sg * v in
        match rest with
        | EmptyString => if (min64 <=? n) && (n <=? max64) then Some n else None
        | _ => None
        end
      else None
  | EmptyString => None
  end.

(** ** Decimal printing ([fmt.Sprintf("%d")], [strconv.FormatInt])

    Twenty digits are enough for every [int64]: [max64 < 10^19]. *)

Fixpoint print_digits (fuel : nat) (n : Z) (acc : string) : string :=
  match fuel with
  | O => acc
  | S f =>
      let acc' := String (byte_of (48 + n mod 10)) acc in
      if n / 10 =? 0 then acc' else print_digits f (n / 10) acc'
  end.

Definition FormatInt (n : Z) : string :=
  if n <? 0 then String "-" (print_digits 20 (- n) EmptyString)
  else print_digits 20 n EmptyString.

(** ** UTF-8

    [[]rune(s)] and [string(runes)]: an ill-formed byte decodes to U+FFFD with
    width one; the accepted second bytes exclude overlong forms, surrogates and
    values above U+10FFFF. *)

Definition RuneError : Z := 65533.

Definition in_range (lo hi : Z) (c : ascii) : bool := (lo <=? byte_val c) && (byte_val c <=? hi).
Definition is_cont (c : ascii) : bool := in_range 128 191 c.
Definition low6 (c : ascii) : Z := Z.land (byte_val c) 63.

(** Size of the sequence a leading byte announces and the range of its second
    byte; [None] for a byte that cannot lead a longer sequence. *)
Definition lead (b : Z) : option (nat * Z * Z) :=
  if (194 <=? b) && (b <=? 223) then Some (2%nat, 128, 191)
  else if b =? 224 then Some (3%nat, 160, 191)
  else if b =? 237 then Some (3%nat, 128, 159)
  else if (225 <=? b) && (b <=? 239) then Some (3%nat, 128, 191)
  else if b =? 240 then Some (4%nat, 144, 191)
  else if (241 <=? b) && (b <=? 243) then Some (4%nat, 128, 191)
  else if b =? 244 then Some (4%nat, 128, 143)
  else None.

(** The rune at the head of [String c s] and its width in bytes. *)
Definition DecodeRune (c : ascii) (s : string) : Z * nat :=
  let b := byte_val c in
  if b <? 128 then (b, 1%nat)
  else
    match lead b, s with
    | Some (2%nat, lo, hi), String c1 _ =>
        if in_range lo hi c1 then (Z.land b 31 * 64 + low6 c1, 2%nat) else (RuneError, 1%nat)
    | Some (3%nat, lo, hi), String c1 (String c2 _) =>
        if in_range lo hi c1 && is_cont c2
        then ((Z.land b 15 * 64 + low6 c1) * 64 + low6 c2, 3%nat) else (RuneError, 1%nat)
    | Some (4%nat, lo, hi), String c1 (String c2 (String c3 _)) =>
        if in_range lo hi c1 && is_cont c2 && is_cont c3
        then (((Z.land b 7 * 64 + low6 c1) * 64 + low6 c2) * 64 + low6 c3, 4%nat) else (RuneError, 1%nat)
    | _, _ => (RuneError, 1%nat)
    end.

(** [skip] bytes of the current rune remain to be passed over. *)
Fixpoint runes_from (skip : nat) (s : string) : list Z :=
  match s with
  | EmptyString => []
  | String c s' =>
      match skip with
      | S k => runes_from k s'
      | O => let '(r, w) := DecodeRune c s' in r :: runes_from (w - 1) s'
      end
  end.

Definition runes (s : string) : list Z := runes_from 0 s.

Definition EncodeRune (r : Z) : string :=
  let r := if (r <? 0) || (1114111 <? r) || ((55296 <=? r) && (r <=? 57343)) then RuneError else r in
  if r <? 128 then String (byte_of r) EmptyString
  else if r <? 2048 then String (byte_of (192 + r / 64)) (String (byte_of (128 + r mod 64)) EmptyString)
  else if r <? 65536 then
    String (byte_of (224 + r / 4096)) (String (byte_of (128 + (r / 64) mod 64))
      (String (byte_of (128 + r mod 64)) EmptyString))
  else
    String (byte_of (240 + r / 262144)) (String (byte_of (128 + (r / 4096) mod 64))
      (String (byte_of (128 + (r / 64) mod 64)) (String (byte_of (128 + r mod 64)) EmptyString))).

Definition of_runes (l : list Z) : string := fold_right (fun r s => (EncodeRune r +:+ s)%stdpp) EmptyString l.

Example runes_mixed :
  runes (String (byte_of 228) (String (byte_of 184) (String (byte_of 173) (String "a" (String (byte_of 255) EmptyString)))))
  = [20013; 97; RuneError] /\ of_runes [20013] = String (byte_of 228) (String (byte_of 184) (String (byte_of 173) EmptyString)).
Proof. vm_compute. auto. Qed.

(** ** Lemmas *)

Lemma byte_val_range (c : ascii) : 0 <= byte_val c < 256.
Proof.
  unfold byte_val. pose proof (N_ascii_bounded c). lia.
Qed.

Lemma byte_val_of (z : Z) : 0 <= z < 256 -> byte_val (byte_of z) = z.
Proof.
  intros H. unfold byte_val, byte_of. rewrite N_ascii_embedding by lia. lia.
Qed.

Lemma is_digit_byte_of (d : Z) : 0 <= d < 10 -> is_digit (byte_of (48 + d)) = true.
Proof. intros H. unfold is_digit. rewrite byte_val_of by lia. lia. Qed.

Lemma digit_val_byte_of (d : Z) : 0 <= d < 10 -> digit_val (byte_of (48 + d)) = d.
Proof. intros H. unfold digit_val. rewrite byte_val_of by lia. lia. Qed.

(** Scanning a printed number consumes exactly its digits. *)
Lemma scan_print_digits (fuel : nat) (n : Z) (acc : string) :
  0 <= n < 10 ^ Z.of_nat fuel -> (0 < fuel)%nat ->
  scan_digits 0 (print_digits fuel n acc) = scan_digits n acc.
Proof.
  revert n acc. induction fuel as [|f IH]; intros n acc Hn Hf; [lia|].
  cbn [print_digits]. pose proof (div_mod_split n 10) as [E M]; [lia|].
  assert (D : digit_val (byte_of (48 + n mod 10)) = n mod 10) by (apply digit_val_byte_of; lia).
  destruct (n / 10 =? 0) eqn:Q.
  - cbn [scan_digits]. rewrite is_digit_byte_of by lia. rewrite D. f_equal. lia.
  - assert (B : 0 <= n / 10 < 10 ^ Z.of_nat f).
    { rewrite Nat2Z.inj_succ, Z.pow_succ_r in Hn by lia.
      split; [apply Z.div_pos; lia | apply Z.div_lt_upper_bound; lia]. }
    assert (P : (0 < f)%nat) by (destruct f; [cbn in B; lia | lia]).
    rewrite IH by assumption. cbn [scan_digits].
    rewrite is_digit_byte_of, D by lia. f_equal. lia.
Qed.

(** A printed number starts with a digit. *)
Lemma print_digits_head (fuel : nat) (n : Z) (acc : string) :
  0 <= n -> (0 < fuel)%nat ->
  exists c r, print_digits fuel n acc = String c r /\ is_digit c = true.
Proof.
  revert n acc. induction fuel as [|f IH]; intros n acc Hn Hf; [lia|].
  cbn [print_digits]. pose proof (div_mod_split n 10) as [E M]; [lia|].
  destruct (n / 10 =? 0) eqn:Q.
  - eexists _, _. split; [reflexivity|]. apply is_digit_byte_of. lia.
  - destruct f as [|f'].
    + cbn [print_digits]. eexists _, _. split; [reflexivity|]. apply is_digit_byte_of. lia.
    + apply IH; [apply Z.div_pos; lia | lia].
Qed.

Lemma digit_not_space (c : ascii) : is_digit c = true -> is_space c = false.
Proof. unfold is_digit, is_space. lia. Qed.

Lemma scan_sign_digit (c : ascii) (r : string) :
  is_digit c = true -> scan_sign (String c r) = (1, String c r).
Proof.
  intros H. cbn. unfold is_digit in H.
  destruct (byte_val c =? 45) eqn:E1; [lia|]. destruct (byte_val c =? 43) eqn:E2; [lia|].
  reflexivity.
Qed.

(** Printing then scanning with [%d] gives the number back. *)
Lemma scan_d_FormatInt (n : Z) :
  0 <= n <= max64 -> scan_d (FormatInt n) = Some (n, EmptyString).
Proof.
  intros Hn. unfold FormatInt. replace (n <? 0) with false by lia.
  destruct (print_digits_head 20 n EmptyString) as (c & r & E & D); [lia|lia|].
  assert (S1 : scan_digits 0 (print_digits 20 n EmptyString) = (n, EmptyString)).
  { rewrite scan_print_digits; [reflexivity| |lia]. unfold_int. cbn. lia. }
  unfold scan_d. rewrite E in *. cbn [skip_blanks].
  rewrite (digit_not_space c D).
  replace (byte_val c =? 10) with false by (unfold is_digit in D; lia).
  rewrite scan_sign_digit by assumption. rewrite D, S1. cbn zeta.
  replace ((min64 <=? 1 * n) && (1 * n <=? max64)) with true by (unfold_int; lia).
  do 2 f_equal. lia.
Qed.

Lemma ParseInt_FormatInt (n : Z) : 0 <= n <= max64 -> ParseInt (FormatInt n) = Some n.
Proof.
  intros Hn. unfold FormatInt. replace (n <? 0) with false by lia.
  destruct (print_digits_head 20 n EmptyString) as (c & r & E & D); [lia|lia|].
  assert (S1 : scan_digits 0 (print_digits 20 n EmptyString) = (n, EmptyString)).
  { rewrite scan_print_digits; [reflexivity| |lia]. unfold_int. cbn. lia. }
  unfold ParseInt. rewrite E in *. rewrite scan_sign_digit by assumption.
  rewrite D, S1. cbn zeta.
  replace ((min64 <=? 1 * n) && (1 * n <=? max64)) with true by (unfold_int; lia).
  f_equal. lia.
Qed.

Lemma trim_left_head (p : ascii -> bool) (c : ascii) (s : string) :
  p c = false -> trim_left p (String c s) = String c s.
Proof. intros H. cbn. now rewrite H. Qed.

(** A string all of whose bytes fail [p] is not trimmed. *)
Fixpoint none_of (p : ascii -> bool) (s : string) : bool :=
  match s with
  | EmptyString => true
  | String c s' => negb (p c) && none_of p s'
  end.

Lemma trim_right_none (p : ascii -> bool) (s : string) :
  none_of p s = true -> trim_right p s = s.
Proof.
  induction s as [|c s IH]; cbn; [reflexivity|]. intros H.
  apply andb_true_iff in H as [H1 H2]. rewrite (IH H2).
  apply negb_true_iff in H1. rewrite H1. now destruct s.
Qed.

Lemma trim_by_none (p : ascii -> bool) (s : string) : none_of p s = true -> trim_by p s = s.
Proof.
  intros H. unfold trim_by. destruct s as [|c s]; [reflexivity|].
  assert (p c = false) as Hc by (cbn in H; apply andb_true_iff in H as [H _]; now apply negb_true_iff in H).
  rewrite trim_left_head by assumption. now apply trim_right_none.
Qed.

Lemma none_of_app (p : ascii -> bool) (s t : string) :
  none_of p (s +:+ t) = none_of p s && none_of p t.
Proof.
  induction s as [|c s IH]; [reflexivity|].
  change (String c s +:+ t) with (String c (s +:+ t)). cbn [none_of].
  now rewrite IH, andb_assoc.
Qed.

Lemma print_digits_none_of (p : ascii -> bool) (fuel : nat) (n : Z) (acc : string) :
  (forall c, is_digit c = true -> p c = false) -> 0 <= n ->
  none_of p acc = true -> none_of p (print_digits fuel n acc) = true.
Proof.
  intros Hp. revert n acc. induction fuel as [|f IH]; intros n acc Hn Ha; [exact Ha|].
  cbn [print_digits]. pose proof (Z.mod_pos_bound n 10) as M.
  assert (A : none_of p (String (byte_of (48 + n mod 10)) acc) = true).
  { cbn. rewrite Hp, Ha by (apply is_digit_byte_of; lia). reflexivity. }
  destruct (n / 10 =? 0); [exact A|]. apply IH; [apply Z.div_pos; lia | exact A].
Qed.

Lemma FormatInt_none_of (p : ascii -> bool) (n : Z) :
  (forall c, is_digit c = true -> p c = false) -> 0 <= n -> none_of p (FormatInt n) = true.
Proof.
  intros Hp Hn. unfold FormatInt. replace (n <? 0) with false by lia.
  now apply print_digits_none_of.
Qed.
