(* ===== verification/Domain.v ===== *)
(** * Domain types

    The structs and enumerations of [internal/domain] the modelled components
    exchange.  A Go pointer field is an [option]; a Go [map] is a [gmap]; a
    string-backed enumeration keeps its string representation, as in the
    source, with its constants as definitions; a [time.Time] is the number of
    nanoseconds since Go's zero time.  Fields that only the persistence layer or
    the admin pages read (creation stamps, probe telemetry) are left out. *)

From Stdlib Require Import ZArith Lia List Bool String.
From stdpp Require Import base option list gmap strings.
From S2P Require Import Prelude.
Import ListNotations.
Local Open Scope string_scope.
Local Open Scope Z_scope.

Definition Time : Type := Z.

Definition nanosecond : Z := 1.
Definition millisecond : Z := 1000000.
Definition second : Z := 1000000000.
Definition minute : Z := 60 * second.
Definition hour : Z := 60 * minute.

(** ** Request formats ([RequestFormat]) *)

Definition RequestFormat : Type := string.
Definition FormatOpenAIChat : RequestFormat := "openai-chat".
Definition FormatOpenAIResponses : RequestFormat := "openai-responses".
Definition FormatOpenAIResponsesWS : RequestFormat := "openai-responses-ws".
Definition FormatAnthropic : RequestFormat := "anthropic".
Definition FormatOpenAIImages : RequestFormat := "openai-images".
Definition FormatOpenAISearch : RequestFormat := "openai-search".

Definition RequestFormat_Valid (f : RequestFormat) : bool :=
  existsb (String.eqb f)
    [FormatOpenAIChat; FormatOpenAIResponses; FormatOpenAIResponsesWS; FormatAnthropic;
     FormatOpenAIImages; FormatOpenAISearch].

(** The three formats whose usage totals include the cached input. *)
Definition is_openai_token_format (f : RequestFormat) : bool :=
  (f ==s FormatOpenAIChat) || (f ==s FormatOpenAIResponses) || (f ==s FormatOpenAIResponsesWS).

Definition is_responses_format (f : RequestFormat) : bool :=
  (f ==s FormatOpenAIResponses) || (f ==s FormatOpenAIResponsesWS).

(** ** Account status ([AccountStatus]) *)

Definition AccountStatus : Type := string.
Definition StatusActive : AccountStatus := "active".
Definition StatusUnhealthy : AccountStatus := "unhealthy".
Definition Status429 : AccountStatus := "429".
Definition StatusDisabled : AccountStatus := "disabled".

(** ** Prices ([price_entry.go]) *)

Record PriceEntry := mkPriceEntry {
  pe_Model : string;
  pe_Mode : string;
  pe_InputPerM : option Z;
  pe_OutputPerM : option Z;
  pe_CacheReadPerM : option Z;
  pe_CacheWritePerM : option Z;
  pe_PricePerCall : option Z;
  pe_ImgInTokPerM : option Z;
  pe_ImgOutTokPerM : option Z;
  pe_PricePerImage : option Z;
  pe_Provider : option string
}.

Record PriceVariant := mkPriceVariant {
  pv_Seq : Z;
  pv_ServiceTier : option string;
  pv_CtxMin : option Z;
  pv_CtxMax : option Z;
  pv_TimeStart : option string;
  pv_TimeEnd : option string;
  pv_DowMask : option Z;
  pv_MultBP : option Z;
  pv_SetInputPerM : option Z;
  pv_SetOutputPerM : option Z;
  pv_SetCacheReadPerM : option Z;
  pv_SetCacheCreationPerM : option Z;
  pv_SetPricePerCall : option Z;
  pv_SetImgInTokPerM : option Z;
  pv_SetImgOutTokPerM : option Z;
  pv_SetPricePerImage : option Z
}.

Record ResolvedPrices := mkResolvedPrices {
  rp_Mode : string;
  rp_InputPerM : option Z;
  rp_OutputPerM : option Z;
  rp_CacheReadPerM : option Z;
  rp_CacheWritePerM : option Z;
  rp_PricePerCall : option Z;
  rp_ImgInTokPerM : option Z;
  rp_ImgOutTokPerM : option Z;
  rp_PricePerImage : option Z;
  rp_VariantSeq : option Z;
  rp_Provider : option string
}.

(** Go's zero value [ResolvedPrices{}]. *)
Definition zero_ResolvedPrices : ResolvedPrices :=
  mkResolvedPrices "" None None None None None None None None None None.

#[export] Instance ResolvedPrices_eq_dec : EqDecision ResolvedPrices.
Proof. solve_decision. Defined.

(** The local wall-clock fields a [time.Time] exposes to the price resolver. *)
Record CivilTime := mkCivilTime { ct_Hour : Z; ct_Minute : Z; ct_Weekday : Z }.

Definition CodexSearchModel : string := "codex-search".
Definition DefaultCodexSearchPricePerCall : Z := 1000.

(** ** Billing ledger rows *)

Record LedgerRow := mkLedgerRow {
  lr_ID : Z;
  lr_UserID : Z;
  lr_Cost : Z;
  lr_Model : string;
  lr_BillingTier : string;
  lr_CallCount : Z;
  lr_Format : string
}.

Record UnpricedUsage := mkUnpricedUsage {
  uu_ID : Z;
  uu_UserID : Z;
  uu_GroupID : Z;
  uu_Model : string;
  uu_MappedModel : string;
  uu_Format : RequestFormat;
  uu_BillingTier : string;
  uu_InputTokens : Z;
  uu_OutputTokens : Z;
  uu_TotalTokens : Z;
  uu_CacheReadTokens : Z;
  uu_CacheCreationTokens : Z;
  uu_CallCount : Z;
  uu_CreatedAt : CivilTime;
  uu_UpstreamID : Z;
  uu_UpstreamMultiplierBP : option Z
}.

Record RepricedUsage := mkRepricedUsage {
  ru_ID : Z;
  ru_BillingTier : string;
  ru_PriceInputMillis : option Z;
  ru_PriceOutputMillis : option Z;
  ru_PriceCacheReadMillis : option Z;
  ru_PriceCacheCreationMillis : option Z;
  ru_PricePerCallMillis : option Z;
  ru_RawCost : Z;
  ru_Cost : Z;
  ru_UpstreamCost : option Z;
  ru_GrossProfit : option Z;
  ru_ProfitMarginBP : option Z
}.

Record UserBalance := mkUserBalance { ub_UserID : Z; ub_Balance : Z }.

Record SettlementSummary := mkSettlementSummary {
  ss_BatchRows : Z;
  ss_DebitedUsers : Z;
  ss_ForcedUsers : Z;
  ss_Marked : Z;
  ss_Quarantined : Z;
  ss_Balances : list UserBalance
}.

(** ** Authentication snapshot entry ([KeyMeta]) *)

Record KeyMeta := mkKeyMeta {
  km_KeyID : Z;
  km_UserID : Z;
  km_GroupID : Z;
  km_KeyStatus : string;
  km_KeyMaxConc : Z;
  km_UserStatus : string;
  km_UserMaxConc : Z;
  km_HasQuota : bool;
  km_Quota : Z;
  km_QuotaUsed : Z
}.

Definition KeyStatusActive : string := "active".
Definition UserStatusActive : string := "active".
