(* ===== verification/Cost.v ===== *)
(** * Cost arithmetic ([internal/billing/cost.go])

    Token, image and per-call costs in fixed point: prices are in milli-cents
    per million tokens, a cost is a number of whole ledger units plus a
    remainder over one million.  The theorems give each routine an arithmetic
    specification over unbounded integers and show that the guarded [int64]
    code computes it for every input. *)

From Stdlib Require Import ZArith Lia List Bool String.
From stdpp Require Import base option list strings.
From S2P Require Import Prelude GoString Domain.
Import ListNotations.
Local Open Scope string_scope.
Local Open Scope Z_scope.

(** ** Service tiers *)

Inductive Tier := TierAuto | TierFast | TierPriority | TierFlex.

Definition Tier_String (t : Tier) : string :=
  match t with
  | TierFast => "fast"
  | TierPriority => "priority"
  | TierFlex => "flex"
  | TierAuto => "auto"
  end.

Definition NormalizeTier (raw : string) : Tier :=
  let s := ToLower (TrimSpace raw) in
  if s ==s "fast" then TierFast
  else if s ==s "priority" then TierPriority
  else if s ==s "flex" then TierFlex
  else TierAuto.

(** ** Constants *)

Definition milliPerMillion : Z := 1000000.
Definition CostRemainderScale : Z := milliPerMillion.
Definition segBudget : Z := (max64 - milliPerMillion / 2) / 8.
Definition imageTotalCap : Z := max64 / 100000.

(** ** Saturating primitives *)

Definition saturatingCostMul (a b limit : Z) : Z :=
  if (a <=? 0) || (b <=? 0) || (limit <=? 0) then 0
  else if a >? limit [/] b then limit
  else a [*] b.

Definition saturatingCostAdd (a b : Z) : Z :=
  if a <=? 0 then (if b <=? 0 then 0 else b)
  else if b <=? 0 then a
  else if a >? max64 [-] b then max64
  else a [+] b.

Record CostParts := mkCostParts { Units : Z; Remainder : Z }.

Definition zero_CostParts : CostParts := mkCostParts 0 0.

Definition roundCostParts (parts : CostParts) : Z :=
  let units := if Units parts <? 0 then 0 else Units parts in
  if (Remainder parts >=? milliPerMillion / 2) && (units <? max64) then units [+] 1 else units.

Definition Rounded (p : CostParts) : Z := roundCostParts p.

Definition positiveCostPrice (v : option Z) : Z :=
  match v with
  | None => 0
  | Some p => if p <=? 0 then 0 else p
  end.

Definition splitCostParts (raw : Z) : CostParts :=
  if raw <=? 0 then zero_CostParts
  else mkCostParts (raw [/] milliPerMillion) (raw [%] milliPerMillion).

Definition roundedCost (raw : Z) : Z := Rounded (splitCostParts raw).

Definition clampTokens (t : Z) : Z := if t <? 0 then 0 else t.

(** ** Token costs *)

Definition CostPartsFromResolved (rp : ResolvedPrices) (pt ct cr cc : Z) : CostParts :=
  let pt := clampTokens pt in
  let ct := clampTokens ct in
  let cr := clampTokens cr in
  let cc := clampTokens cc in
  let in_ := positiveCostPrice (rp_InputPerM rp) in
  let out := positiveCostPrice (rp_OutputPerM rp) in
  let cacheRead := positiveCostPrice (rp_CacheReadPerM rp) in
  let cacheWrite := positiveCostPrice (rp_CacheWritePerM rp) in
  let cacheRead := match rp_CacheReadPerM rp with None => in_ | Some _ => cacheRead end in
  let cacheWrite := match rp_CacheWritePerM rp with None => in_ | Some _ => cacheWrite end in
  let raw := saturatingCostAdd (saturatingCostMul pt in_ segBudget) (saturatingCostMul ct out segBudget) in
  let raw := saturatingCostAdd raw (saturatingCostMul cr cacheRead segBudget) in
  let raw := saturatingCostAdd raw (saturatingCostMul cc cacheWrite segBudget) in
  splitCostParts raw.

Definition CostFromResolved (rp : ResolvedPrices) (pt ct cr cc : Z) : Z :=
  Rounded (CostPartsFromResolved rp pt ct cr cc).

(** ** Image and per-call costs *)

Definition ImageCostPartsFromResolved (rp : ResolvedPrices) (inTok outTok count : Z) : CostParts :=
  let inTok := clampTokens inTok in
  let outTok := clampTokens outTok in
  let count := clampTokens count in
  let inP := positiveCostPrice (rp_ImgInTokPerM rp) in
  let outP := positiveCostPrice (rp_ImgOutTokPerM rp) in
  let perP := positiveCostPrice (rp_PricePerImage rp) in
  let raw := saturatingCostAdd (saturatingCostMul inTok inP segBudget) (saturatingCostMul outTok outP segBudget) in
  let parts := splitCostParts raw in
  let units :=
    if (perP >? 0) && (count >? 0)
    then saturatingCostAdd (Units parts) (saturatingCostMul count perP imageTotalCap)
    else Units parts in
  if units >=? imageTotalCap then mkCostParts imageTotalCap 0
  else mkCostParts units (Remainder parts).

Definition ImageCostFromResolved (rp : ResolvedPrices) (inTok outTok count : Z) : Z :=
  Rounded (ImageCostPartsFromResolved rp inTok outTok count).

Definition AddCostParts (a b : CostParts) : CostParts :=
  let units := saturatingCostAdd (Units a) (Units b) in
  if units =? max64 then mkCostParts max64 0
  else
    let remainder := Remainder a [+] Remainder b in
    let carry := remainder [/] milliPerMillion in
    if units >? max64 [-] carry then mkCostParts max64 0
    else mkCostParts (units [+] carry) (remainder [%] milliPerMillion).

Definition CallCostFromResolved (rp : ResolvedPrices) (count : Z) : Z :=
  let count := if count <? 0 then 0 else count in
  match rp_PricePerCall rp with
  | None => 0
  | Some p => if p >? 0 then saturatingCostMul count p imageTotalCap else 0
  end.

(** ** Multipliers (ten-thousandths) *)

Definition multiplierFloorParts (cost multiplier maxMultiplier : Z) : Z * Z :=
  if (cost <=? 0) || (multiplier <=? 0) then (0, 0)
  else
    let m := if multiplier >? maxMultiplier then maxMultiplier else multiplier in
    if m =? 10000 then (cost, 0)
    else
      let q := cost [/] 10000 in
      let rem := cost [%] 10000 in
      if q >? max64 [/] m then (max64, 0)
      else
        let out := q [*] m in
        let scaled := rem [*] m in
        let remCost := scaled [/] 10000 in
        if out >? max64 [-] remCost then (max64, 0)
        else (out [+] remCost, scaled [%] 10000).

Definition round_multiplier (p : Z * Z) : Z :=
  let '(out, remainder) := p in
  if (out =? max64) || (remainder <? 5000) then out else out [+] 1.

Definition ApplyMultiplier (cost multiplier : Z) : Z :=
  round_multiplier (multiplierFloorParts cost multiplier 100000).

Definition ApplyUpstreamMultiplier (cost multiplier : Z) : Z :=
  round_multiplier (multiplierFloorParts cost multiplier 1000000).

(** ** Specification

    [seg t p] is the exact price of [t] tokens at [p], capped at [segBudget];
    [parts_total] is the value of a pair of parts in millionths of a unit. *)

Definition pos (z : Z) : Z := Z.max 0 z.
Definition price_pos (o : option Z) : Z := match o with None => 0 | Some p => pos p end.
Definition cache_rate (o : option Z) (input : option Z) : Z :=
  match o with None => price_pos input | Some p => pos p end.
Definition seg (t p : Z) : Z := Z.min segBudget (pos t * p).

Definition token_cost_spec (rp : ResolvedPrices) (pt ct cr cc : Z) : Z :=
  seg pt (price_pos (rp_InputPerM rp)) + seg ct (price_pos (rp_OutputPerM rp))
  + seg cr (cache_rate (rp_CacheReadPerM rp) (rp_InputPerM rp))
  + seg cc (cache_rate (rp_CacheWritePerM rp) (rp_InputPerM rp)).

Definition parts_total (p : CostParts) : Z := Units p * milliPerMillion + Remainder p.

Definition parts_ok (p : CostParts) : Prop :=
  0 <= Units p <= max64 /\ 0 <= Remainder p < milliPerMillion.

(** The exact scaled cost [cost * m / 10000], saturated at [max64]. *)
Definition mult_spec (cost m : Z) : Z := Z.min max64 ((pos cost * pos m + 5000) / 10000).

(** ** Lemmas *)

Lemma segBudget_val : segBudget = 1152921504606784475.
Proof. reflexivity. Qed.

Lemma imageTotalCap_val : imageTotalCap = 92233720368547.
Proof. reflexivity. Qed.

Ltac consts := rewrite ?segBudget_val, ?imageTotalCap_val in *;
  unfold CostRemainderScale, milliPerMillion in *; unfold_int.

Lemma positiveCostPrice_spec (o : option Z) : positiveCostPrice o = price_pos o.
Proof. destruct o as [p|]; cbn; [|reflexivity]. unfold pos. destruct (p <=? 0) eqn:E; lia. Qed.

Lemma clampTokens_spec (t : Z) : clampTokens t = pos t.
Proof. unfold clampTokens, pos. destruct (t <? 0) eqn:E; lia. Qed.

Lemma price_pos_nonneg (o : option Z) : 0 <= price_pos o.
Proof. destruct o; cbn; unfold pos; lia. Qed.

Lemma cache_rate_nonneg (o i : option Z) : 0 <= cache_rate o i.
Proof. destruct o; cbn; unfold pos; [lia|apply price_pos_nonneg]. Qed.

(** [saturatingCostMul] is the product capped at [limit]. *)
Lemma saturatingCostMul_spec (a b limit : Z) :
  0 <= a -> 0 <= b -> 0 < limit <= max64 ->
  saturatingCostMul a b limit = Z.min limit (a * b).
Proof.
  intros Ha Hb Hl. unfold saturatingCostMul.
  destruct (Z.eq_dec a 0) as [->|Na]; [change (0 = Z.min limit (0 * b)); lia|].
  destruct (Z.eq_dec b 0) as [->|Nb]; [rewrite Z.mul_0_r; replace (a <=? 0) with false by lia; change (0 = Z.min limit 0); lia|].
  replace ((a <=? 0) || (b <=? 0) || (limit <=? 0)) with false by lia.
  rewrite quot64_nonneg by lia.
  destruct (a >? limit / b) eqn:G.
  - pose proof (div_gt_mul_gt a b limit). lia.
  - pose proof (div_ge_mul_le a b limit). rewrite mul64_small; [lia|].
    assert (0 < a * b) by (apply Z.mul_pos_pos; lia). unfold_int. lia.
Qed.

(** [saturatingCostAdd] is the sum of the positive parts capped at [max64]. *)
Lemma saturatingCostAdd_spec (a b : Z) :
  a <= max64 -> b <= max64 -> saturatingCostAdd a b = Z.min max64 (pos a + pos b).
Proof.
  intros Ha Hb. unfold saturatingCostAdd, pos.
  destruct (a <=? 0) eqn:E1; [destruct (b <=? 0) eqn:E2; unfold_int; lia|].
  destruct (b <=? 0) eqn:E2; [lia|].
  rewrite sub64_small by (unfold_int; lia).
  destruct (a >? max64 - b) eqn:E3; [lia|].
  rewrite add64_small; unfold_int; lia.
Qed.

Lemma splitCostParts_spec (raw : Z) :
  0 <= raw <= max64 ->
  splitCostParts raw = mkCostParts (raw / milliPerMillion) (raw mod milliPerMillion).
Proof.
  intros H. unfold splitCostParts. destruct (raw <=? 0) eqn:E.
  - replace raw with 0 by lia. reflexivity.
  - rewrite quot64_nonneg, rem64_nonneg by (consts; lia). reflexivity.
Qed.

Lemma splitCostParts_total (raw : Z) :
  0 <= raw <= max64 -> parts_total (splitCostParts raw) = raw /\ parts_ok (splitCostParts raw).
Proof.
  intros H. rewrite splitCostParts_spec by assumption. unfold parts_total, parts_ok. cbn.
  pose proof (div_mod_split raw milliPerMillion) as [E M]; [consts; lia|].
  pose proof (Z.div_le_upper_bound raw milliPerMillion raw).
  pose proof (Z.div_pos raw milliPerMillion). consts. lia.
Qed.

Lemma seg_bounds (t p : Z) : 0 <= p -> 0 <= seg t p <= segBudget.
Proof. intros H. unfold seg, pos. consts. nia. Qed.

Lemma saturatingCostMul_seg (t p : Z) : 0 <= p -> saturatingCostMul (pos t) p segBudget = seg t p.
Proof.
  intros H. rewrite saturatingCostMul_spec; [reflexivity|unfold pos; lia|assumption|consts; lia].
Qed.

Lemma saturatingCostAdd_small (a b : Z) :
  0 <= a -> 0 <= b -> a + b <= max64 -> saturatingCostAdd a b = a + b.
Proof. intros. rewrite saturatingCostAdd_spec by lia. unfold pos. lia. Qed.

#[export] Hint Resolve price_pos_nonneg cache_rate_nonneg seg_bounds : gobound.

Lemma rounded_spec (p : CostParts) :
  parts_ok p -> Units p < max64 ->
  Rounded p = (parts_total p + milliPerMillion / 2) / milliPerMillion.
Proof.
  intros [Hu Hr] Hm. unfold Rounded, roundCostParts, parts_total.
  replace (Units p <? 0) with false by lia. replace (Units p <? max64) with true by lia.
  rewrite andb_true_r. change (milliPerMillion / 2) with 500000. consts.
  destruct (Remainder p >=? 500000) eqn:E.
  - rewrite add64_small by (unfold_int; lia).
    apply Z.div_unique with (r := Remainder p - 500000); lia.
  - apply Z.div_unique with (r := Remainder p + 500000); lia.
Qed.

Lemma token_cost_bounds (rp : ResolvedPrices) (pt ct cr cc : Z) :
  0 <= token_cost_spec rp pt ct cr cc <= 4 * segBudget.
Proof.
  unfold token_cost_spec.
  pose proof (seg_bounds pt (price_pos (rp_InputPerM rp))).
  pose proof (seg_bounds ct (price_pos (rp_OutputPerM rp))).
  pose proof (seg_bounds cr (cache_rate (rp_CacheReadPerM rp) (rp_InputPerM rp))).
  pose proof (seg_bounds cc (cache_rate (rp_CacheWritePerM rp) (rp_InputPerM rp))).
  pose proof (price_pos_nonneg (rp_InputPerM rp)). pose proof (price_pos_nonneg (rp_OutputPerM rp)).
  pose proof (cache_rate_nonneg (rp_CacheReadPerM rp) (rp_InputPerM rp)).
  pose proof (cache_rate_nonneg (rp_CacheWritePerM rp) (rp_InputPerM rp)). lia.
Qed.

Lemma CostPartsFromResolved_split (rp : ResolvedPrices) (pt ct cr cc : Z) :
  CostPartsFromResolved rp pt ct cr cc = splitCostParts (token_cost_spec rp pt ct cr cc).
Proof.
  unfold CostPartsFromResolved. rewrite !clampTokens_spec, !positiveCostPrice_spec.
  assert (C1 : match rp_CacheReadPerM rp with None => price_pos (rp_InputPerM rp) | Some _ => price_pos (rp_CacheReadPerM rp) end
               = cache_rate (rp_CacheReadPerM rp) (rp_InputPerM rp)) by (destruct (rp_CacheReadPerM rp); reflexivity).
  assert (C2 : match rp_CacheWritePerM rp with None => price_pos (rp_InputPerM rp) | Some _ => price_pos (rp_CacheWritePerM rp) end
               = cache_rate (rp_CacheWritePerM rp) (rp_InputPerM rp)) by (destruct (rp_CacheWritePerM rp); reflexivity).
  rewrite C1, C2, !saturatingCostMul_seg by auto with gobound.
  pose proof (seg_bounds pt (price_pos (rp_InputPerM rp)) (price_pos_nonneg _)).
  pose proof (seg_bounds ct (price_pos (rp_OutputPerM rp)) (price_pos_nonneg _)).
  pose proof (seg_bounds cr _ (cache_rate_nonneg (rp_CacheReadPerM rp) (rp_InputPerM rp))).
  pose proof (seg_bounds cc _ (cache_rate_nonneg (rp_CacheWritePerM rp) (rp_InputPerM rp))).
  unfold token_cost_spec. consts.
  rewrite (saturatingCostAdd_small (seg pt _)) by (unfold_int; lia).
  rewrite (saturatingCostAdd_small (seg pt _ + _)) by (unfold_int; lia).
  rewrite saturatingCostAdd_small by (unfold_int; lia). reflexivity.
Qed.

Lemma CostPartsFromResolved_total (rp : ResolvedPrices) (pt ct cr cc : Z) :
  parts_total (CostPartsFromResolved rp pt ct cr cc) = token_cost_spec rp pt ct cr cc /\
  parts_ok (CostPartsFromResolved rp pt ct cr cc).
Proof.
  rewrite CostPartsFromResolved_split. apply splitCostParts_total.
  pose proof (token_cost_bounds rp pt ct cr cc). consts. lia.
Qed.

Lemma CostFromResolved_half_up (rp : ResolvedPrices) (pt ct cr cc : Z) :
  CostFromResolved rp pt ct cr cc
  = (token_cost_spec rp pt ct cr cc + milliPerMillion / 2) / milliPerMillion.
Proof.
  unfold CostFromResolved. destruct (CostPartsFromResolved_total rp pt ct cr cc) as [T O].
  rewrite rounded_spec; [now rewrite T|assumption|].
  pose proof (token_cost_bounds rp pt ct cr cc). destruct O as [Hu Hr].
  unfold parts_total in T. consts. lia.
Qed.

(** [AddCostParts] adds exactly while the sum fits the ledger type. *)
Lemma AddCostParts_exact (a b : CostParts) :
  parts_ok a -> parts_ok b ->
  parts_total a + parts_total b < max64 * milliPerMillion ->
  parts_total (AddCostParts a b) = parts_total a + parts_total b /\ parts_ok (AddCostParts a b).
Proof.
  intros [Ua Ra] [Ub Rb] H. unfold AddCostParts, parts_total, parts_ok in *.
  rewrite saturatingCostAdd_small by (consts; lia).
  replace (Units a + Units b =? max64) with false by (consts; lia).
  rewrite (add64_small (Remainder a) (Remainder b)) by (consts; lia).
  rewrite quot64_nonneg, rem64_nonneg by (consts; lia).
  pose proof (div_mod_split (Remainder a + Remainder b) milliPerMillion) as [E M]; [consts; lia|].
  rewrite sub64_small by (consts; lia).
  replace (Units a + Units b >? max64 - _) with false by (consts; lia). cbn [Units Remainder].
  rewrite add64_small by (consts; lia). consts. lia.
Qed.

Lemma AddCostParts_saturates (a b : CostParts) :
  parts_ok a -> parts_ok b ->
  max64 * milliPerMillion <= parts_total a + parts_total b ->
  AddCostParts a b = mkCostParts max64 0 \/
  (Units (AddCostParts a b) = max64 /\ 0 <= Remainder (AddCostParts a b) < milliPerMillion).
Proof.
  intros [Ua Ra] [Ub Rb] H. unfold AddCostParts, parts_total in *.
  rewrite saturatingCostAdd_spec by lia. unfold pos.
  rewrite !Z.max_r by lia.
  destruct (Z.min max64 (Units a + Units b) =? max64) eqn:E1; [now left|].
  rewrite (add64_small (Remainder a) (Remainder b)) by (consts; lia).
  rewrite quot64_nonneg, rem64_nonneg by (consts; lia).
  pose proof (div_mod_split (Remainder a + Remainder b) milliPerMillion) as [E M]; [consts; lia|].
  rewrite sub64_small by (consts; lia).
  destruct (Z.min max64 (Units a + Units b) >? max64 - _) eqn:E2; [now left|right].
  cbn [Units Remainder]. rewrite add64_small by (consts; lia). consts. lia.
Qed.

(** ** The multiplier *)

Definition clamp_mult (m maxm : Z) : Z := Z.min (pos m) maxm.

Definition mult_exact (cost m : Z) (r : Z * Z) : Prop :=
  fst r * 10000 + snd r = cost * m /\ 0 <= snd r < 10000 /\ 0 <= fst r <= max64.

(** Either the floor and the remainder are exact, or the product does not fit
    and the result is saturated. *)
Lemma multiplierFloorParts_spec (cost m maxm : Z) :
  cost <= max64 -> 10000 <= maxm <= 1000000 ->
  let c := pos cost in let k := clamp_mult m maxm in
  (c * k / 10000 <= max64 /\ mult_exact c k (multiplierFloorParts cost m maxm)) \/
  (max64 < c * k / 10000 /\ multiplierFloorParts cost m maxm = (max64, 0)).
Proof.
  intros Hc Hm c k. unfold multiplierFloorParts.
  destruct ((cost <=? 0) || (m <=? 0)) eqn:Z0.
  { left. assert (Z1 : c * k = 0).
    { unfold c, k, clamp_mult, pos. destruct (Z.le_gt_cases cost 0); [rewrite Z.max_l by lia; lia|].
      rewrite (Z.max_l 0 m) by lia. lia. }
    unfold mult_exact. rewrite Z1. cbn [fst snd]. change (0 / 10000) with 0. unfold_int. lia. }
  assert (c = cost) by (unfold c, pos; lia).
  set (k' := if m >? maxm then maxm else m).
  assert (Ek : k' = k) by (unfold k', k, clamp_mult, pos; destruct (m >? maxm) eqn:?; lia).
  assert (Hk : 0 < k <= 1000000) by (unfold k, clamp_mult, pos; lia).
  rewrite Ek. clear k' Ek. replace c with cost by lia.
  destruct (k =? 10000) eqn:K1.
  { left. replace k with 10000 by lia. rewrite Z.div_mul by lia.
    split; [lia|]. unfold mult_exact. cbn [fst snd]. unfold_int. lia. }
  rewrite quot64_nonneg, rem64_nonneg by lia.
  pose proof (div_mod_split cost 10000) as [E M]; [lia|].
  set (q := cost / 10000) in *. set (r := cost mod 10000) in *.
  rewrite (quot64_nonneg max64) by (unfold_int; lia).
  assert (Hq : 0 <= q) by (subst q; apply Z.div_pos; lia).
  assert (S1 : 0 <= r * k <= 10000000000) by nia.
  rewrite (mul64_small r k) by (unfold_int; lia).
  rewrite (quot64_nonneg (r * k)), (rem64_nonneg (r * k)) by (unfold_int; lia).
  pose proof (div_mod_split (r * k) 10000) as [E2 M2]; [lia|].
  assert (F : cost * k / 10000 = q * k + r * k / 10000).
  { symmetry. apply Z.div_unique with (r := (r * k) mod 10000); [lia|nia]. }
  destruct (q >? max64 / k) eqn:G.
  { right. split; [|reflexivity]. pose proof (div_gt_mul_gt q k max64). lia. }
  assert (q * k <= max64) by (apply div_ge_mul_le; lia).
  rewrite (mul64_small q k) by (unfold_int; nia).
  rewrite sub64_small by (unfold_int; lia).
  destruct (q * k >? max64 - r * k / 10000) eqn:G2; [right; split; [lia|reflexivity]|].
  left. split; [lia|]. unfold mult_exact. cbn [fst snd].
  assert (0 <= q * k) by nia.
  rewrite add64_small by (unfold_int; lia). split; [nia|]. unfold_int; lia.
Qed.

Lemma round_multiplier_spec (cost m maxm : Z) :
  cost <= max64 -> 10000 <= maxm <= 1000000 ->
  round_multiplier (multiplierFloorParts cost m maxm) = mult_spec cost (clamp_mult m maxm).
Proof.
  intros Hc Hm. unfold mult_spec.
  assert (P : pos (clamp_mult m maxm) = clamp_mult m maxm) by (unfold clamp_mult, pos; lia).
  rewrite P. set (N := pos cost * clamp_mult m maxm).
  pose proof (div_mod_split N 10000) as [E M]; [lia|].
  pose proof (div_mod_split (N + 5000) 10000) as [E' M']; [lia|].
  destruct (multiplierFloorParts_spec cost m maxm Hc Hm) as [[B X]|[B X]]; cbn zeta in *; fold N in B.
  - destruct (multiplierFloorParts cost m maxm) as [o r]. unfold mult_exact in X. cbn [fst snd] in X.
    fold N in X. unfold round_multiplier.
    destruct ((o =? max64) || (r <? 5000)) eqn:D; [lia|]. rewrite add64_small by (unfold_int; lia). lia.
  - rewrite X. unfold round_multiplier. rewrite Z.eqb_refl. cbn [orb]. lia.
Qed.

(** ** Image and per-call specifications *)

Definition image_token_spec (rp : ResolvedPrices) (inTok outTok : Z) : Z :=
  seg inTok (price_pos (rp_ImgInTokPerM rp)) + seg outTok (price_pos (rp_ImgOutTokPerM rp)).

Definition image_flat_spec (rp : ResolvedPrices) (count : Z) : Z :=
  Z.min imageTotalCap (pos count * price_pos (rp_PricePerImage rp)).

Lemma image_token_bounds (rp : ResolvedPrices) (i o : Z) :
  0 <= image_token_spec rp i o <= 2 * segBudget.
Proof.
  unfold image_token_spec.
  pose proof (seg_bounds i _ (price_pos_nonneg (rp_ImgInTokPerM rp))).
  pose proof (seg_bounds o _ (price_pos_nonneg (rp_ImgOutTokPerM rp))). lia.
Qed.

Lemma image_flat_bounds (rp : ResolvedPrices) (n : Z) :
  0 <= image_flat_spec rp n <= imageTotalCap.
Proof.
  unfold image_flat_spec, pos. pose proof (price_pos_nonneg (rp_PricePerImage rp)).
  assert (0 <= Z.max 0 n * price_pos (rp_PricePerImage rp)) by (apply Z.mul_nonneg_nonneg; lia).
  consts. lia.
Qed.

Lemma image_units_spec (rp : ResolvedPrices) (u count : Z) :
  0 <= u <= max64 / 2 ->
  (if (price_pos (rp_PricePerImage rp) >? 0) && (pos count >? 0)
   then saturatingCostAdd u
          (saturatingCostMul (pos count) (price_pos (rp_PricePerImage rp)) imageTotalCap)
   else u) = u + image_flat_spec rp count.
Proof.
  intros Hu. pose proof (image_flat_bounds rp count) as B.
  pose proof (price_pos_nonneg (rp_PricePerImage rp)).
  change (max64 / 2) with 4611686018427387903 in Hu.
  destruct ((price_pos (rp_PricePerImage rp) >? 0) && (pos count >? 0)) eqn:E.
  - rewrite saturatingCostMul_spec by (unfold pos; consts; lia). fold (image_flat_spec rp count).
    consts. rewrite saturatingCostAdd_small; unfold_int; lia.
  - assert (pos count * price_pos (rp_PricePerImage rp) = 0) as Z0.
    { unfold pos in *. destruct (Z.le_gt_cases count 0); [rewrite Z.max_l by lia; lia|].
      replace (price_pos (rp_PricePerImage rp)) with 0 by lia. lia. }
    unfold image_flat_spec. rewrite Z0. consts. lia.
Qed.

Lemma ImageCostParts_shape (rp : ResolvedPrices) (i o n : Z) :
  let u := image_token_spec rp i o / milliPerMillion + image_flat_spec rp n in
  ImageCostPartsFromResolved rp i o n =
  if u >=? imageTotalCap then mkCostParts imageTotalCap 0
  else mkCostParts u (image_token_spec rp i o mod milliPerMillion).
Proof.
  pose proof (image_token_bounds rp i o) as B.
  unfold ImageCostPartsFromResolved.
  rewrite !clampTokens_spec, !positiveCostPrice_spec, !saturatingCostMul_seg by auto with gobound.
  pose proof (seg_bounds i _ (price_pos_nonneg (rp_ImgInTokPerM rp))).
  pose proof (seg_bounds o _ (price_pos_nonneg (rp_ImgOutTokPerM rp))).
  rewrite (saturatingCostAdd_small (seg i _) (seg o _)) by (unfold image_token_spec in B; consts; lia).
  fold (image_token_spec rp i o).
  rewrite splitCostParts_spec by (consts; lia). cbn [Units Remainder].
  pose proof (div_mod_split (image_token_spec rp i o) milliPerMillion) as [E M]; [consts; lia|].
  rewrite image_units_spec by (change (max64 / 2) with 4611686018427387903; consts; lia).
  reflexivity.
Qed.

Lemma ImageCostParts_capped (rp : ResolvedPrices) (i o n : Z) :
  imageTotalCap <= image_token_spec rp i o / milliPerMillion + image_flat_spec rp n ->
  ImageCostPartsFromResolved rp i o n = mkCostParts imageTotalCap 0.
Proof.
  intros H. rewrite ImageCostParts_shape. cbn zeta.
  replace (_ >=? imageTotalCap) with true by lia. reflexivity.
Qed.

(** Below the cap the image cost is exact: the flat part in whole units plus
    the token part in millionths. *)
Lemma ImageCostParts_exact (rp : ResolvedPrices) (i o n : Z) :
  image_token_spec rp i o / milliPerMillion + image_flat_spec rp n < imageTotalCap ->
  parts_total (ImageCostPartsFromResolved rp i o n)
  = image_token_spec rp i o + image_flat_spec rp n * milliPerMillion /\
  parts_ok (ImageCostPartsFromResolved rp i o n).
Proof.
  intros H. pose proof (image_token_bounds rp i o) as B. pose proof (image_flat_bounds rp n) as BF.
  pose proof (div_mod_split (image_token_spec rp i o) milliPerMillion) as [E M]; [consts; lia|].
  rewrite ImageCostParts_shape. cbn zeta.
  replace (_ >=? imageTotalCap) with false by lia.
  unfold parts_total, parts_ok. cbn [Units Remainder]. consts. lia.
Qed.

(** ** Properties *)

(** C1: for every price quote and every token counts, the guarded [int64]
    arithmetic returns the exact cost (each of the four components capped at
    the segment budget) as whole units plus a remainder over one million, and
    the standalone API is its round-half-up value.  No input wraps around. *)
Theorem token_cost_exact (rp : ResolvedPrices) (pt ct cr cc : Z) :
  parts_total (CostPartsFromResolved rp pt ct cr cc) = token_cost_spec rp pt ct cr cc /\
  parts_ok (CostPartsFromResolved rp pt ct cr cc) /\
  CostFromResolved rp pt ct cr cc = (token_cost_spec rp pt ct cr cc + 500000) / 1000000.
Proof.
  destruct (CostPartsFromResolved_total rp pt ct cr cc) as [T O].
  split; [exact T|split; [exact O|exact (CostFromResolved_half_up rp pt ct cr cc)]].
Qed.

Definition free_segment (t rate : Z) : Prop := t <= 0 \/ rate <= 0.

Lemma seg_zero_iff (t p : Z) : 0 <= p -> seg t p = 0 <-> free_segment t p.
Proof.
  intros Hp. unfold seg, free_segment, pos.
  destruct (Z.le_gt_cases t 0); [rewrite Z.max_l by lia; consts; lia|].
  destruct (Z.eq_dec p 0) as [->|]; [consts; lia|].
  assert (0 < t * p) by (apply Z.mul_pos_pos; lia). rewrite Z.max_r by lia. consts. lia.
Qed.

(** token usage is free exactly when every component is: no combination of
    counts and prices (however large) makes a positively priced component cost
    nothing, and cache tokens without a cache rate are charged at the input
    rate. *)
Theorem token_cost_free_iff (rp : ResolvedPrices) (pt ct cr cc : Z) :
  CostPartsFromResolved rp pt ct cr cc = zero_CostParts <->
  free_segment pt (price_pos (rp_InputPerM rp)) /\
  free_segment ct (price_pos (rp_OutputPerM rp)) /\
  free_segment cr (cache_rate (rp_CacheReadPerM rp) (rp_InputPerM rp)) /\
  free_segment cc (cache_rate (rp_CacheWritePerM rp) (rp_InputPerM rp)).
Proof.
  rewrite <- !seg_zero_iff by auto with gobound.
  assert (Z0 : CostPartsFromResolved rp pt ct cr cc = zero_CostParts <-> token_cost_spec rp pt ct cr cc = 0).
  { destruct (CostPartsFromResolved_total rp pt ct cr cc) as [T O]. split.
    - intros E. rewrite <- T, E. reflexivity.
    - intros E. rewrite CostPartsFromResolved_split, E. reflexivity. }
  rewrite Z0. unfold token_cost_spec.
  pose proof (seg_bounds pt _ (price_pos_nonneg (rp_InputPerM rp))).
  pose proof (seg_bounds ct _ (price_pos_nonneg (rp_OutputPerM rp))).
  pose proof (seg_bounds cr _ (cache_rate_nonneg (rp_CacheReadPerM rp) (rp_InputPerM rp))).
  pose proof (seg_bounds cc _ (cache_rate_nonneg (rp_CacheWritePerM rp) (rp_InputPerM rp))). lia.
Qed.

(** combining token and image parts keeps the exact total while it fits the
    ledger type, and saturates (never wraps to a credit) when it does not. *)
Theorem AddCostParts_spec (a b : CostParts) :
  parts_ok a -> parts_ok b ->
  parts_ok (AddCostParts a b) /\
  (parts_total a + parts_total b < max64 * milliPerMillion ->
   parts_total (AddCostParts a b) = parts_total a + parts_total b) /\
  (max64 * milliPerMillion <= parts_total a + parts_total b -> Units (AddCostParts a b) = max64).
Proof.
  intros Ha Hb.
  destruct (Z.lt_ge_cases (parts_total a + parts_total b) (max64 * milliPerMillion)) as [L|G].
  - destruct (AddCostParts_exact a b Ha Hb L) as [E O]. split; [exact O|]. split; [easy|lia].
  - destruct (AddCostParts_saturates a b Ha Hb G) as [E|[E R]].
    + rewrite E. split; [unfold parts_ok; cbn; consts; lia|]. split; [lia|reflexivity].
    + split; [unfold parts_ok; rewrite E; consts; lia|]. split; [lia|]. intros _. exact E.
Qed.

Lemma AddCostParts_spec_witness :
  parts_total (AddCostParts (mkCostParts 3 600000) (mkCostParts 4 500000)) = 8100000.
Proof.
  apply (proj1 (proj2 (AddCostParts_spec (mkCostParts 3 600000) (mkCostParts 4 500000)
    ltac:(unfold parts_ok; cbn; consts; lia) ltac:(unfold parts_ok; cbn; consts; lia)))).
  vm_compute. reflexivity.
Defined.

(** an image response costs its flat per-image part plus its token part
    exactly while that is below the image cap, and is never above the cap. *)
Theorem image_cost_spec (rp : ResolvedPrices) (i o n : Z) :
  parts_ok (ImageCostPartsFromResolved rp i o n) /\
  Units (ImageCostPartsFromResolved rp i o n) <= imageTotalCap /\
  (image_token_spec rp i o / milliPerMillion + image_flat_spec rp n < imageTotalCap ->
   parts_total (ImageCostPartsFromResolved rp i o n)
   = image_token_spec rp i o + image_flat_spec rp n * milliPerMillion).
Proof.
  destruct (Z.lt_ge_cases (image_token_spec rp i o / milliPerMillion + image_flat_spec rp n) imageTotalCap) as [L|G].
  - destruct (ImageCostParts_exact rp i o n L) as [E O]. split; [exact O|]. split; [|easy].
    pose proof (image_token_bounds rp i o). destruct O as [Hu Hr].
    pose proof (div_mod_split (image_token_spec rp i o) milliPerMillion) as [E1 M]; [consts; lia|].
    unfold parts_total in E. consts. lia.
  - split; [|split; [|lia]];
      rewrite (ImageCostParts_capped rp i o n G); unfold parts_ok; cbn [Units Remainder]; consts; lia.
Qed.

(** both multipliers compute [cost * m / 10000] rounded half up, with the
    multiplier clamped to its ceiling and the result saturated at [MaxInt64]. *)
Theorem ApplyMultiplier_spec (cost m : Z) :
  int64 cost ->
  ApplyMultiplier cost m = mult_spec cost (clamp_mult m 100000) /\
  ApplyUpstreamMultiplier cost m = mult_spec cost (clamp_mult m 1000000).
Proof. intros [_ H]. split; apply round_multiplier_spec; lia. Qed.

Lemma ApplyMultiplier_spec_witness : int64 12345 /\ ApplyMultiplier 12345 15000 = 18518.
Proof.
  assert (H : int64 12345) by (unfold_int; lia). split; [exact H|].
  rewrite (proj1 (ApplyMultiplier_spec 12345 15000 H)). reflexivity.
Defined.
