(* ===== verification/PriceResolve.v ===== *)
(** * Price resolution ([internal/domain/price_resolve.go])

    A price entry gives the base prices of a model; the first variant (in the
    caller's order) whose conditions hold scales or overrides them.  The
    theorems: the loop stops at the first match, every resolved component is
    the exact scaled value, the quote fails closed precisely when a component
    is not representable, the admin-side precision check decides success, and
    the daily time window is a half-open cyclic interval. *)

From Stdlib Require Import ZArith Lia List Bool String.
From stdpp Require Import base option list strings.
From S2P Require Import Prelude GoString Domain.
Import ListNotations.
Local Open Scope string_scope.
Local Open Scope Z_scope.

Definition maxPriceInt64 : Z := max64.

(** ** Exact multiplication *)

Definition priceMultiplierExact (price multiplier : Z) : option Z :=
  if (price <? 0) || (multiplier <? 0) || (multiplier >? 100000) then None
  else if (multiplier =? 0) || (price =? 0) then Some 0
  else
    let base := 10000 in
    let q := price [/] base in
    let rem := price [%] base in
    if q >? maxPriceInt64 [/] multiplier then None
    else
      let out := q [*] multiplier in
      let remProduct := rem [*] multiplier in
      if negb (remProduct [%] base =? 0) then None
      else
        let remValue := remProduct [/] base in
        if out >? maxPriceInt64 [-] remValue then None
        else Some (out [+] remValue).

(** ** Variant conditions *)

(** [fmt.Sscanf(s, "%d:%d", &h, &m)] with the error ignored: what was scanned
    before the first mismatch is kept, the rest stays zero. *)
Definition parse_hhmm (s : string) : Z :=
  match scan_d s with
  | None => 0
  | Some (h, rest) =>
      let m :=
        match strip_prefix ":" rest with
        | None => 0
        | Some rest' => match scan_d rest' with None => 0 | Some (m, _) => m end
        end in
      (h [*] 60) [+] m
  end.

Definition timeMatches (start end_ : option string) (at_ : CivilTime) : bool :=
  let cur := ct_Hour at_ * 60 + ct_Minute at_ in
  match start, end_ with
  | None, None => true
  | Some st, Some en =>
      let s := parse_hhmm st in
      let e := parse_hhmm en in
      if s =? e then true
      else if s <? e then (cur >=? s) && (cur <? e)
      else (cur >=? s) || (cur <? e)
  | Some st, None => cur >=? parse_hhmm st
  | None, Some en => cur <? parse_hhmm en
  end.

Definition variantMatches (v : option PriceVariant) (tier : string) (promptTokens : Z)
    (at_ : CivilTime) : bool :=
  match v with
  | None => false
  | Some v =>
      match pv_ServiceTier v with Some t => t ==s tier | None => true end
      && match pv_CtxMin v with Some lo => negb (promptTokens <? lo) | None => true end
      && match pv_CtxMax v with Some hi => negb (promptTokens >=? hi) | None => true end
      && match pv_TimeStart v, pv_TimeEnd v with
         | None, None => true
         | _, _ => timeMatches (pv_TimeStart v) (pv_TimeEnd v) at_
         end
      && match pv_DowMask v with
         | Some mask => negb (Z.land (Z.shiftr mask (ct_Weekday at_)) 1 =? 0)
         | None => true
         end
  end.

(** ** Applying a variant *)

Definition is_set {A} (o : option A) : bool := match o with Some _ => true | None => false end.

(** The closure [applyMult]: [None] is the [false] result, [Some p] the pointer
    left in the field. *)
Definition applyMult (mult : Z) (p : option Z) (overridden : bool) : option (option Z) :=
  if overridden then Some p
  else
    match p with
    | None => Some None
    | Some x => match priceMultiplierExact x mult with Some v => Some (Some v) | None => None end
    end.

Definition set_price (v : option Z) (p : option Z) : option Z :=
  match v with Some x => Some x | None => p end.

Definition base_prices (entry : PriceEntry) : ResolvedPrices :=
  mkResolvedPrices (pe_Mode entry) (pe_InputPerM entry) (pe_OutputPerM entry)
    (pe_CacheReadPerM entry) (pe_CacheWritePerM entry) (pe_PricePerCall entry)
    (pe_ImgInTokPerM entry) (pe_ImgOutTokPerM entry) (pe_PricePerImage entry) None
    (pe_Provider entry).

(** The multiplier step of a matched variant, [None] when it fails closed. *)
Definition scale_prices (v : PriceVariant) (rp : ResolvedPrices) : option ResolvedPrices :=
  match pv_MultBP v with
  | None => Some rp
  | Some mult =>
      if (mult <? 0) || (mult >? 100000) then None
      else
        let? i := applyMult mult (rp_InputPerM rp) (is_set (pv_SetInputPerM v)) in
        let? o := applyMult mult (rp_OutputPerM rp) (is_set (pv_SetOutputPerM v)) in
        let? cr := applyMult mult (rp_CacheReadPerM rp) (is_set (pv_SetCacheReadPerM v)) in
        let? cw := applyMult mult (rp_CacheWritePerM rp) (is_set (pv_SetCacheCreationPerM v)) in
        let? pc := applyMult mult (rp_PricePerCall rp) (is_set (pv_SetPricePerCall v)) in
        let? ii := applyMult mult (rp_ImgInTokPerM rp) (is_set (pv_SetImgInTokPerM v)) in
        let? io := applyMult mult (rp_ImgOutTokPerM rp) (is_set (pv_SetImgOutTokPerM v)) in
        let? pi := applyMult mult (rp_PricePerImage rp) (is_set (pv_SetPricePerImage v)) in
        Some (mkResolvedPrices (rp_Mode rp) i o cr cw pc ii io pi (rp_VariantSeq rp) (rp_Provider rp))
  end.

Definition override_prices (v : PriceVariant) (rp : ResolvedPrices) : ResolvedPrices :=
  mkResolvedPrices (rp_Mode rp)
    (set_price (pv_SetInputPerM v) (rp_InputPerM rp))
    (set_price (pv_SetOutputPerM v) (rp_OutputPerM rp))
    (set_price (pv_SetCacheReadPerM v) (rp_CacheReadPerM rp))
    (set_price (pv_SetCacheCreationPerM v) (rp_CacheWritePerM rp))
    (set_price (pv_SetPricePerCall v) (rp_PricePerCall rp))
    (set_price (pv_SetImgInTokPerM v) (rp_ImgInTokPerM rp))
    (set_price (pv_SetImgOutTokPerM v) (rp_ImgOutTokPerM rp))
    (set_price (pv_SetPricePerImage v) (rp_PricePerImage rp))
    (rp_VariantSeq rp) (rp_Provider rp).

Definition set_VariantSeq (rp : ResolvedPrices) (seq : Z) : ResolvedPrices :=
  mkResolvedPrices (rp_Mode rp) (rp_InputPerM rp) (rp_OutputPerM rp) (rp_CacheReadPerM rp)
    (rp_CacheWritePerM rp) (rp_PricePerCall rp) (rp_ImgInTokPerM rp) (rp_ImgOutTokPerM rp)
    (rp_PricePerImage rp) (Some seq) (rp_Provider rp).

Definition apply_variant (v : PriceVariant) (rp : ResolvedPrices) : option ResolvedPrices :=
  let? rp' := scale_prices v (set_VariantSeq rp (pv_Seq v)) in Some (override_prices v rp').

(** The [for] loop over the variants, first match wins. *)
Fixpoint resolve_variants (rp : ResolvedPrices) (variants : list (option PriceVariant))
    (tier : string) (promptTokens : Z) (at_ : CivilTime) : ResolvedPrices * bool :=
  match variants with
  | [] => (rp, true)
  | v :: rest =>
      if variantMatches v tier promptTokens at_ then
        match v with
        | Some v' =>
            match apply_variant v' rp with
            | Some rp' => (rp', true)
            | None => (zero_ResolvedPrices, false)
            end
        | None => (rp, true)
        end
      else resolve_variants rp rest tier promptTokens at_
  end.

Definition ResolveEntryPrices (entry : option PriceEntry) (variants : list (option PriceVariant))
    (tier : string) (promptTokens : Z) (at_ : CivilTime) : ResolvedPrices * bool :=
  match entry with
  | None => (zero_ResolvedPrices, false)
  | Some entry => resolve_variants (base_prices entry) variants tier promptTokens at_
  end.

(** ** The admin-side precision check *)

(** [fields] is the literal slice of the loop; the error is the name of the
    first field that cannot be represented. *)
Definition precision_fields (entry : PriceEntry) (v : PriceVariant)
    : list (string * option Z * bool) :=
  [("input_per_m", pe_InputPerM entry, is_set (pv_SetInputPerM v));
   ("output_per_m", pe_OutputPerM entry, is_set (pv_SetOutputPerM v));
   ("cache_read_per_m", pe_CacheReadPerM entry, is_set (pv_SetCacheReadPerM v));
   ("cache_write_per_m", pe_CacheWritePerM entry, is_set (pv_SetCacheCreationPerM v));
   ("price_per_call", pe_PricePerCall entry, is_set (pv_SetPricePerCall v));
   ("img_in_tok_per_m", pe_ImgInTokPerM entry, is_set (pv_SetImgInTokPerM v));
   ("img_out_tok_per_m", pe_ImgOutTokPerM entry, is_set (pv_SetImgOutTokPerM v));
   ("price_per_image", pe_PricePerImage entry, is_set (pv_SetPricePerImage v))].

Fixpoint check_fields (mult : Z) (fields : list (string * option Z * bool)) : option string :=
  match fields with
  | [] => None
  | (name, base, overridden) :: rest =>
      match overridden, base with
      | false, Some p =>
          match priceMultiplierExact p mult with
          | Some _ => check_fields mult rest
          | None => Some name
          end
      | _, _ => check_fields mult rest
      end
  end.

Definition ValidateVariantPricePrecision (entry : option PriceEntry) (v : option PriceVariant)
    : option string :=
  match entry, v with
  | Some entry, Some v =>
      match pv_MultBP v with
      | Some mult => check_fields mult (precision_fields entry v)
      | None => None
      end
  | _, _ => None
  end.

(** ** Lemmas *)

Definition representable (p m : Z) : Prop :=
  0 <= p /\ 0 <= m <= 100000 /\ p * m mod 10000 = 0 /\ p * m / 10000 <= max64.

#[export] Instance representable_dec (p m : Z) : Decision (representable p m).
Proof. unfold representable. exact _. Defined.

(** The overflow-free routine computes [p * m / 10000] exactly when that is a
    non-negative integer of the ledger type. *)
Lemma priceMultiplierExact_spec (p m : Z) :
  p <= max64 ->
  priceMultiplierExact p m = if decide (representable p m) then Some (p * m / 10000) else None.
Proof.
  intros Hp. unfold priceMultiplierExact, maxPriceInt64.
  destruct ((p <? 0) || (m <? 0) || (m >? 100000)) eqn:E0.
  { rewrite decide_False; [reflexivity|]. unfold representable. lia. }
  destruct ((m =? 0) || (p =? 0)) eqn:E1.
  { assert (p * m = 0) as Z0 by (destruct (Z.eq_dec m 0) as [->|]; [lia|]; replace p with 0 by lia; lia).
    rewrite decide_True, Z0; [reflexivity|]. unfold representable. rewrite Z0.
    change (0 mod 10000) with 0. change (0 / 10000) with 0. unfold_int. lia. }
  cbn zeta. rewrite (quot64_nonneg p), (rem64_nonneg p), (quot64_nonneg max64) by (unfold_int; lia).
  pose proof (div_mod_split p 10000) as [E M]; [lia|].
  assert (Q0 : 0 <= p / 10000) by (apply Z.div_pos; lia).
  set (q := p / 10000) in *. set (r := p mod 10000) in *.
  assert (S1 : 0 <= r * m <= 1000000000) by nia.
  rewrite (mul64_small r m) by (unfold_int; lia).
  rewrite (quot64_nonneg (r * m)), (rem64_nonneg (r * m)) by (unfold_int; lia).
  pose proof (div_mod_split (r * m) 10000) as [E2 M2]; [lia|].
  assert (F : p * m / 10000 = q * m + r * m / 10000 /\ p * m mod 10000 = (r * m) mod 10000).
  { assert (p * m = 10000 * (q * m + r * m / 10000) + (r * m) mod 10000) as X by nia.
    split; symmetry; [eapply Z.div_unique|eapply Z.mod_unique]; eauto; lia. }
  destruct F as [F1 F2].
  destruct (q >? max64 / m) eqn:G.
  { pose proof (div_gt_mul_gt q m max64). rewrite decide_False; [reflexivity|].
    unfold representable. lia. }
  assert (q * m <= max64) by (apply div_ge_mul_le; lia).
  destruct ((r * m) mod 10000 =? 0) eqn:G2; cbn [negb].
  2:{ rewrite decide_False; [reflexivity|]. unfold representable. lia. }
  assert (0 <= q * m) by nia.
  rewrite (mul64_small q m), sub64_small by (unfold_int; lia).
  destruct (q * m >? max64 - r * m / 10000) eqn:G3.
  { rewrite decide_False; [reflexivity|]. unfold representable. lia. }
  rewrite add64_small by (unfold_int; lia).
  rewrite decide_True; [now rewrite F1|]. unfold representable. lia.
Qed.

(** What a resolved component must be. *)
Definition exact_component (base set mult r : option Z) : Prop :=
  match set with
  | Some s => r = Some s
  | None =>
      match base, mult with
      | None, _ => r = None
      | Some p, None => r = Some p
      | Some p, Some m => exists q, r = Some q /\ q * 10000 = p * m
      end
  end.

Definition price_fits (o : option Z) : Prop := match o with Some p => p <= max64 | None => True end.

Lemma applyMult_exact (mult : Z) (base set r : option Z) :
  price_fits base -> applyMult mult base (is_set set) = Some r ->
  exact_component base set (Some mult) (set_price set r).
Proof.
  intros Hf H. destruct set as [s|]; cbn in *; [reflexivity|].
  destruct base as [p|]; [|now simplify_eq].
  rewrite priceMultiplierExact_spec in H by assumption.
  destruct (decide (representable p mult)) as [R|]; simplify_eq.
  exists (p * mult / 10000). split; [reflexivity|]. destruct R as (_ & _ & M & _).
  pose proof (div_mod_split (p * mult) 10000). lia.
Qed.

Definition entry_fits (e : PriceEntry) : Prop :=
  price_fits (pe_InputPerM e) /\ price_fits (pe_OutputPerM e) /\ price_fits (pe_CacheReadPerM e) /\
  price_fits (pe_CacheWritePerM e) /\ price_fits (pe_PricePerCall e) /\
  price_fits (pe_ImgInTokPerM e) /\ price_fits (pe_ImgOutTokPerM e) /\ price_fits (pe_PricePerImage e).

(** The eight (base, override) pairs of an entry and a variant. *)
Definition components_rel (P : option Z -> option Z -> option Z -> Prop) (e : PriceEntry)
    (v : PriceVariant) (rp : ResolvedPrices) : Prop :=
  P (pe_InputPerM e) (pv_SetInputPerM v) (rp_InputPerM rp) /\
  P (pe_OutputPerM e) (pv_SetOutputPerM v) (rp_OutputPerM rp) /\
  P (pe_CacheReadPerM e) (pv_SetCacheReadPerM v) (rp_CacheReadPerM rp) /\
  P (pe_CacheWritePerM e) (pv_SetCacheCreationPerM v) (rp_CacheWritePerM rp) /\
  P (pe_PricePerCall e) (pv_SetPricePerCall v) (rp_PricePerCall rp) /\
  P (pe_ImgInTokPerM e) (pv_SetImgInTokPerM v) (rp_ImgInTokPerM rp) /\
  P (pe_ImgOutTokPerM e) (pv_SetImgOutTokPerM v) (rp_ImgOutTokPerM rp) /\
  P (pe_PricePerImage e) (pv_SetPricePerImage v) (rp_PricePerImage rp).

Lemma no_mult_exact (base set : option Z) : exact_component base set None (set_price set base).
Proof. destruct set, base; reflexivity. Qed.

Lemma apply_variant_exact (e : PriceEntry) (v : PriceVariant) (rp : ResolvedPrices) :
  entry_fits e -> apply_variant v (base_prices e) = Some rp ->
  components_rel (fun b s r => exact_component b s (pv_MultBP v) r) e v rp /\
  rp_VariantSeq rp = Some (pv_Seq v) /\ rp_Mode rp = pe_Mode e /\ rp_Provider rp = pe_Provider e.
Proof.
  intros F H. unfold apply_variant, scale_prices in H. cbn [rp_InputPerM rp_OutputPerM rp_CacheReadPerM
    rp_CacheWritePerM rp_PricePerCall rp_ImgInTokPerM rp_ImgOutTokPerM rp_PricePerImage
    set_VariantSeq base_prices rp_Mode rp_Provider rp_VariantSeq] in H.
  unfold components_rel. destruct F as (F1 & F2 & F3 & F4 & F5 & F6 & F7 & F8).
  destruct (pv_MultBP v) as [m|] eqn:Em.
  - destruct ((m <? 0) || (m >? 100000)); [discriminate|].
    repeat match type of H with context [applyMult ?m ?b ?s] =>
      destruct (applyMult m b s) eqn:?; [|discriminate] end.
    simplify_eq. cbn. eauto 20 using applyMult_exact.
  - simplify_eq. cbn. eauto 20 using no_mult_exact.
Qed.

(** Both routines test the same components in the same order. *)
Lemma check_fields_cons (m : Z) (n : string) (b : option Z) (o : bool) rest :
  check_fields m ((n, b, o) :: rest) =
  match applyMult m b o with Some _ => check_fields m rest | None => Some n end.
Proof. destruct o, b as [p|]; cbn; try reflexivity. now destruct (priceMultiplierExact p m). Qed.

Lemma check_fields_ok (e : PriceEntry) (v : PriceVariant) (mult : Z) :
  pv_MultBP v = Some mult -> 0 <= mult <= 100000 ->
  is_set (apply_variant v (base_prices e)) = negb (is_set (check_fields mult (precision_fields e v))).
Proof.
  intros Em Hm. unfold apply_variant, scale_prices, precision_fields. rewrite Em.
  replace ((mult <? 0) || (mult >? 100000)) with false by lia.
  rewrite !check_fields_cons.
  cbn [rp_InputPerM rp_OutputPerM rp_CacheReadPerM rp_CacheWritePerM rp_PricePerCall
    rp_ImgInTokPerM rp_ImgOutTokPerM rp_PricePerImage set_VariantSeq base_prices].
  repeat match goal with |- context [applyMult ?m ?b ?s] =>
    destruct (applyMult m b s); [|reflexivity] end.
  reflexivity.
Qed.

(** The first variant that matches decides. *)
Lemma resolve_variants_first (rp : ResolvedPrices) pre v post tier pt at_ :
  Forall (fun w => variantMatches w tier pt at_ = false) pre ->
  variantMatches (Some v) tier pt at_ = true ->
  resolve_variants rp (pre ++ Some v :: post)%list tier pt at_ =
  match apply_variant v rp with Some rp' => (rp', true) | None => (zero_ResolvedPrices, false) end.
Proof.
  intros Hp Hv. induction Hp as [|w pre Hw _ IH]; cbn -[variantMatches]; [now rewrite Hv|].
  now rewrite Hw.
Qed.

Lemma resolve_variants_none (rp : ResolvedPrices) vs tier pt at_ :
  Forall (fun w => variantMatches w tier pt at_ = false) vs ->
  resolve_variants rp vs tier pt at_ = (rp, true).
Proof.
  induction 1 as [|w vs Hw _ IH]; cbn -[variantMatches]; [reflexivity|]. now rewrite Hw.
Qed.

(** Every list of variants has a first match or none. *)
Lemma first_match_cases (f : option PriceVariant -> bool) vs :
  Forall (fun w => f w = false) vs \/
  exists pre w post, vs = (pre ++ w :: post)%list /\ Forall (fun x => f x = false) pre /\ f w = true.
Proof.
  induction vs as [|w vs IH]; [now left|]. destruct (f w) eqn:E.
  - right. exists [], w, vs. auto.
  - destruct IH as [H|(pre & x & post & -> & Hp & Hx)]; [left; auto|].
    right. exists (w :: pre), x, post. auto.
Qed.

(** ** Time windows *)

Definition two_digits (n : Z) : string :=
  String (byte_of (48 + n / 10)) (String (byte_of (48 + n mod 10)) EmptyString).

(** The "HH:MM" text of a minute of the day. *)
Definition hhmm (t : Z) : string := two_digits (t / 60) +:+ ":" +:+ two_digits (t mod 60).

Definition minutes_of_day : list Z := List.map Z.of_nat (List.seq 0 1440).

Lemma parse_hhmm_all : forallb (fun t => parse_hhmm (hhmm t) =? t) minutes_of_day = true.
Proof. vm_compute. reflexivity. Qed.

Lemma parse_hhmm_hhmm (t : Z) : 0 <= t < 1440 -> parse_hhmm (hhmm t) = t.
Proof.
  intros H. pose proof parse_hhmm_all as A. rewrite forallb_forall in A.
  apply Z.eqb_eq, A. unfold minutes_of_day. apply in_map_iff. exists (Z.to_nat t).
  split; [lia|]. apply in_seq. lia.
Qed.

Definition minute_of (at_ : CivilTime) : Z := ct_Hour at_ * 60 + ct_Minute at_.

Definition civil_ok (at_ : CivilTime) : Prop :=
  0 <= ct_Hour at_ < 24 /\ 0 <= ct_Minute at_ < 60 /\ 0 <= ct_Weekday at_ < 7.

(** Membership in the half-open interval from [s] to [e] on the 24 h circle;
    equal end points mean the whole day. *)
Definition in_daily_window (s e t : Z) : bool :=
  (s =? e) || ((t - s) mod 1440 <? (e - s) mod 1440).

Lemma cyclic_sub (a b : Z) : 0 <= a < 1440 -> 0 <= b < 1440 ->
  (a - b) mod 1440 = if a <? b then a - b + 1440 else a - b.
Proof.
  intros Ha Hb. destruct (a <? b) eqn:E; symmetry;
    [apply Z.mod_unique with (q := -1)|apply Z.mod_unique with (q := 0)]; lia.
Qed.

Lemma timeMatches_window (s e : Z) (at_ : CivilTime) :
  0 <= s < 1440 -> 0 <= e < 1440 -> civil_ok at_ ->
  timeMatches (Some (hhmm s)) (Some (hhmm e)) at_ = in_daily_window s e (minute_of at_).
Proof.
  intros Hs He (Hh & Hm & _). unfold timeMatches, in_daily_window, minute_of.
  rewrite !parse_hhmm_hhmm by assumption.
  rewrite !cyclic_sub by lia.
  set (t := ct_Hour at_ * 60 + ct_Minute at_).
  destruct (t <? s) eqn:A, (e <? s) eqn:B, (s =? e) eqn:C, (s <? e) eqn:D; lia.
Qed.

(** ** Properties *)

(** C29: a quote always answers from the base prices and the first variant (in
    the given order) that matches: without a match the base prices are returned
    unchanged; with one, every component of a successful quote is the override
    if the variant sets one, else the base price times the multiplier with no
    rounding at all. *)
Theorem resolve_first_match_exact (e : PriceEntry) vs tier pt at_ :
  entry_fits e ->
  (Forall (fun w => variantMatches w tier pt at_ = false) vs /\
   ResolveEntryPrices (Some e) vs tier pt at_ = (base_prices e, true)) \/
  (exists pre v post, vs = (pre ++ Some v :: post)%list /\
     Forall (fun w => variantMatches w tier pt at_ = false) pre /\
     variantMatches (Some v) tier pt at_ = true /\
     forall rp, ResolveEntryPrices (Some e) vs tier pt at_ = (rp, true) ->
       components_rel (fun b s r => exact_component b s (pv_MultBP v) r) e v rp /\
       rp_VariantSeq rp = Some (pv_Seq v)).
Proof.
  intros F. cbn -[variantMatches].
  destruct (first_match_cases (fun w => variantMatches w tier pt at_) vs)
    as [H|(pre & w & post & -> & Hp & Hw)].
  - left. split; [exact H|]. now apply resolve_variants_none.
  - right. destruct w as [v|]; [|discriminate]. exists pre, v, post.
    split; [reflexivity|]. split; [exact Hp|]. split; [exact Hw|]. intros rp H.
    rewrite resolve_variants_first in H by assumption.
    destruct (apply_variant v (base_prices e)) as [rp'|] eqn:A; [|discriminate].
    injection H as <-. destruct (apply_variant_exact e v rp' F A) as (X & Y & _). auto.
Qed.

Definition sample_entry : PriceEntry :=
  mkPriceEntry "m" "token" (Some 25000) (Some 100000) (Some 3) None None None None None None.

Definition sample_variant (mult : Z) : PriceVariant :=
  mkPriceVariant 7 (Some "flex") None None None None None (Some mult) None None (Some 9) None None None None None.

Lemma resolve_first_match_exact_witness :
  entry_fits sample_entry /\
  ResolveEntryPrices (Some sample_entry) [Some (sample_variant 5000)] "auto" 10 (mkCivilTime 1 2 3)
  = (base_prices sample_entry, true).
Proof.
  assert (F : entry_fits sample_entry) by (unfold entry_fits; cbn; unfold_int; lia).
  split; [exact F|].
  destruct (resolve_first_match_exact sample_entry [Some (sample_variant 5000)] "auto" 10 (mkCivilTime 1 2 3) F)
    as [[_ H]|(pre & v & post & E & _ & M & _)]; [exact H|].
  destruct pre as [|x pre]; [injection E as <- _; discriminate M|].
  injection E as _ E. destruct pre; discriminate E.
Defined.

(** when a variant is the one that matches, the quote succeeds exactly when
    its multiplier is in range and the admin-side precision check accepts it
    against the entry; a quote that fails returns no prices at all. *)
Theorem resolve_ok_iff_validated (e : PriceEntry) pre v post tier pt at_ :
  Forall (fun w => variantMatches w tier pt at_ = false) pre ->
  variantMatches (Some v) tier pt at_ = true ->
  let out := ResolveEntryPrices (Some e) (pre ++ Some v :: post)%list tier pt at_ in
  (snd out = true <->
   ValidateVariantPricePrecision (Some e) (Some v) = None /\
   match pv_MultBP v with Some m => 0 <= m <= 100000 | None => True end) /\
  (snd out = false -> fst out = zero_ResolvedPrices).
Proof.
  intros Hp Hv. cbn zeta. unfold ResolveEntryPrices, ValidateVariantPricePrecision.
  rewrite resolve_variants_first by assumption.
  split; [|destruct (apply_variant v (base_prices e)); easy].
  assert (S1 : snd (match apply_variant v (base_prices e) with
                    | Some rp' => (rp', true) | None => (zero_ResolvedPrices, false) end)
               = is_set (apply_variant v (base_prices e)))
    by (destruct (apply_variant v (base_prices e)); reflexivity).
  rewrite S1. destruct (pv_MultBP v) as [m|] eqn:Em.
  - destruct (decide (0 <= m <= 100000)) as [R|R].
    + rewrite (check_fields_ok e v m Em R). destruct (check_fields m _); cbn; naive_solver.
    + unfold apply_variant, scale_prices. rewrite Em.
      replace ((m <? 0) || (m >? 100000)) with true by lia. cbn. naive_solver.
  - unfold apply_variant, scale_prices. rewrite Em. cbn. naive_solver.
Qed.

Lemma resolve_ok_iff_validated_witness :
  snd (ResolveEntryPrices (Some sample_entry) [Some (sample_variant 5000)] "flex" 10 (mkCivilTime 1 2 3)) = true.
Proof.
  refine (proj2 (proj1 (resolve_ok_iff_validated sample_entry [] (sample_variant 5000) [] "flex" 10
    (mkCivilTime 1 2 3) _ _)) _); [constructor|reflexivity|].
  split; [vm_compute; reflexivity|cbn; lia].
Defined.

(** for windows written "HH:MM", a variant's time condition is membership
    in the half-open interval on the 24 hour circle, across midnight included;
    so a window and its complement never overlap and never leave a gap. *)
Theorem timeMatches_cyclic (s e : Z) (at_ : CivilTime) :
  0 <= s < 1440 -> 0 <= e < 1440 -> civil_ok at_ ->
  timeMatches (Some (hhmm s)) (Some (hhmm e)) at_ = in_daily_window s e (minute_of at_) /\
  (s <> e -> timeMatches (Some (hhmm e)) (Some (hhmm s)) at_
             = negb (timeMatches (Some (hhmm s)) (Some (hhmm e)) at_)).
Proof.
  intros Hs He Ha. rewrite !timeMatches_window by assumption. split; [reflexivity|].
  intros N. destruct Ha as (Hh & Hm & _). unfold in_daily_window, minute_of.
  rewrite !cyclic_sub by lia.
  set (t := ct_Hour at_ * 60 + ct_Minute at_).
  destruct (t <? s) eqn:A, (e <? s) eqn:B, (t <? e) eqn:C, (s <? e) eqn:D; lia.
Qed.

Lemma timeMatches_cyclic_witness :
  timeMatches (Some "22:30") (Some "06:00") (mkCivilTime 1 15 4) = true.
Proof.
  change "22:30" with (hhmm 1350). change "06:00" with (hhmm 360).
  rewrite (proj1 (timeMatches_cyclic 1350 360 (mkCivilTime 1 15 4)
    ltac:(lia) ltac:(lia) ltac:(unfold civil_ok; cbn; lia))).
  reflexivity.
Defined.
