(* ===== verification/Remainder.v ===== *)
(** * Fraction accumulator of the live billing path ([internal/proxy/billing.go])

    [multiplierRemainderAccumulator] carries the two fractions of a request's
    cost (millionths of a unit from the token price, ten-thousandths from the
    multiplier) from one request to the next, in a cell per exact ledger
    identity.  The cell arithmetic and the sequential operation are executable;
    [RemainderConc] runs them as interleaved atomic steps. *)

From Stdlib Require Import ZArith Lia List Bool String.
From stdpp Require Import base option list gmap strings.
From S2P Require Import Prelude GoString Domain Cost.
Import ListNotations.
Local Open Scope string_scope.
Local Open Scope Z_scope.

Definition maxBillingInt64 : Z := max64.
Definition maxBillingMultiplier : Z := 100000.
Definition maxUpstreamMultiplier : Z := 1000000.
Definition billingMultiplierBase : Z := 10000.
Definition remainderSweepEvery : Z := 4096.
Definition remainderIdleSeconds : Z := 86400.
Definition maxRemainderCells : Z := 65536.

(** ** Price snapshots and keys *)

Record resolvedPriceSnapshot := mkSnapshot {
  sn_mode : string;
  sn_inputPerM : Z; sn_hasInputPerM : bool;
  sn_outputPerM : Z; sn_hasOutputPerM : bool;
  sn_cacheReadPerM : Z; sn_hasCacheRead : bool;
  sn_cacheWritePerM : Z; sn_hasCacheWrite : bool;
  sn_pricePerCall : Z; sn_hasPriceCall : bool;
  sn_imgInTokPerM : Z; sn_hasImgInTok : bool;
  sn_imgOutTokPerM : Z; sn_hasImgOutTok : bool;
  sn_pricePerImage : Z; sn_hasPriceImage : bool;
  sn_variantSeq : Z; sn_hasVariantSeq : bool;
  sn_provider : string; sn_hasProvider : bool
}.

(** [setInt64]: the value and its presence flag, zero values when unset. *)
Definition set_int (v : option Z) : Z * bool := match v with Some x => (x, true) | None => (0, false) end.
Definition set_str (v : option string) : string * bool :=
  match v with Some x => (x, true) | None => ("", false) end.

Definition snapshotResolvedPrices (rp : ResolvedPrices) : resolvedPriceSnapshot :=
  mkSnapshot (rp_Mode rp)
    (fst (set_int (rp_InputPerM rp))) (snd (set_int (rp_InputPerM rp)))
    (fst (set_int (rp_OutputPerM rp))) (snd (set_int (rp_OutputPerM rp)))
    (fst (set_int (rp_CacheReadPerM rp))) (snd (set_int (rp_CacheReadPerM rp)))
    (fst (set_int (rp_CacheWritePerM rp))) (snd (set_int (rp_CacheWritePerM rp)))
    (fst (set_int (rp_PricePerCall rp))) (snd (set_int (rp_PricePerCall rp)))
    (fst (set_int (rp_ImgInTokPerM rp))) (snd (set_int (rp_ImgInTokPerM rp)))
    (fst (set_int (rp_ImgOutTokPerM rp))) (snd (set_int (rp_ImgOutTokPerM rp)))
    (fst (set_int (rp_PricePerImage rp))) (snd (set_int (rp_PricePerImage rp)))
    (fst (set_int (rp_VariantSeq rp))) (snd (set_int (rp_VariantSeq rp)))
    (fst (set_str (rp_Provider rp))) (snd (set_str (rp_Provider rp))).

Record multiplierRemainderKey := mkKey {
  k_scope : string;
  k_upstreamID : Z;
  k_accountID : Z;
  k_keyID : Z;
  k_userID : Z;
  k_groupID : Z;
  k_model : string;
  k_multiplier : Z;
  k_prices : resolvedPriceSnapshot
}.

#[export] Instance snapshot_eq_dec : EqDecision resolvedPriceSnapshot.
Proof. solve_decision. Defined.

#[export] Instance key_eq_dec : EqDecision multiplierRemainderKey.
Proof. solve_decision. Defined.

#[export] Instance snapshot_countable : Countable resolvedPriceSnapshot.
Proof.
  refine (inj_countable'
    (fun s => ((sn_mode s, sn_provider s, sn_hasProvider s),
               [(sn_inputPerM s, sn_hasInputPerM s); (sn_outputPerM s, sn_hasOutputPerM s);
                (sn_cacheReadPerM s, sn_hasCacheRead s); (sn_cacheWritePerM s, sn_hasCacheWrite s);
                (sn_pricePerCall s, sn_hasPriceCall s); (sn_imgInTokPerM s, sn_hasImgInTok s);
                (sn_imgOutTokPerM s, sn_hasImgOutTok s); (sn_pricePerImage s, sn_hasPriceImage s);
                (sn_variantSeq s, sn_hasVariantSeq s)]))
    (fun p => match p with
       | ((m, pr, hp), [(a, ha); (b, hb); (c, hc); (d, hd); (e, he); (f, hf); (g, hg); (h, hh); (i, hi)]) =>
           mkSnapshot m a ha b hb c hc d hd e he f hf g hg h hh i hi pr hp
       | ((m, pr, hp), _) =>
           mkSnapshot m 0 false 0 false 0 false 0 false 0 false 0 false 0 false 0 false 0 false pr hp
       end) _).
  now intros [].
Defined.

#[export] Instance key_countable : Countable multiplierRemainderKey.
Proof.
  refine (inj_countable'
    (fun k => (k_scope k, k_upstreamID k, k_accountID k, k_keyID k, k_userID k, k_groupID k,
               k_model k, k_multiplier k, k_prices k))
    (fun '(a, b, c, d, e, f, g, h, i) => mkKey a b c d e f g h i) _).
  now intros [].
Defined.

(** ** Multiplier arithmetic *)

Definition normalizeBillingMultiplier (m : Z) : Z :=
  if m <? 0 then 0 else if m >? maxBillingMultiplier then maxBillingMultiplier else m.

Definition normalizeUpstreamMultiplier (m : Z) : Z :=
  if m <? 0 then 0 else if m >? maxUpstreamMultiplier then maxUpstreamMultiplier else m.

Definition multiplierFloorPartsWithMax (cost m maxMultiplier : Z) : Z * Z :=
  if (cost <=? 0) || (m <=? 0) then (0, 0)
  else if m =? billingMultiplierBase then (cost, 0)
  else
    let maxMultiplier := if maxMultiplier <? 0 then 0 else maxMultiplier in
    let m := if m >? maxMultiplier then maxMultiplier else m in
    if m <=? 0 then (0, 0)
    else
      let q := cost [/] billingMultiplierBase in
      let rem := cost [%] billingMultiplierBase in
      if q >? maxBillingInt64 [/] m then (maxBillingInt64, 0)
      else
        let out := q [*] m in
        let scaledRemainder := rem [*] m in
        let remCost := scaledRemainder [/] billingMultiplierBase in
        if out >? maxBillingInt64 [-] remCost then (maxBillingInt64, 0)
        else (out [+] remCost, scaledRemainder [%] billingMultiplierBase).

Definition multiplierFloorParts (cost m : Z) : Z * Z :=
  multiplierFloorPartsWithMax cost m maxBillingMultiplier.

Definition half_up (p : Z * Z) : Z :=
  let '(out, remainder) := p in
  if (out =? maxBillingInt64) || (remainder <? billingMultiplierBase [/] 2) then out else out [+] 1.

Definition applyMultiplier (cost m : Z) : Z := half_up (multiplierFloorParts cost m).

Definition applyUpstreamMultiplier (cost m : Z) : Z :=
  half_up (multiplierFloorPartsWithMax cost m maxUpstreamMultiplier).

Definition maxMultiplierForKey (key : multiplierRemainderKey) : Z :=
  if k_scope key ==s "upstream" then maxUpstreamMultiplier else maxBillingMultiplier.

(** ** The conservative fallback *)

Definition normalizedCostParts (parts : CostParts) : Z * Z :=
  (if Units parts <? 0 then 0 else Units parts, if Remainder parts <? 0 then 0 else Remainder parts).

Definition applyConservativeCostWithMax (parts : CostParts) (multiplier maxMultiplier : Z) : Z * Z :=
  let '(units, rem) := normalizedCostParts parts in
  let units :=
    if units <? maxBillingInt64 then
      let carry := rem [/] CostRemainderScale in
      if units >? maxBillingInt64 [-] carry then maxBillingInt64 else units [+] carry
    else units in
  let units :=
    if (units <? maxBillingInt64) && negb (rem [%] CostRemainderScale =? 0) then units [+] 1 else units in
  let maxMultiplier := if maxMultiplier <? 0 then 0 else maxMultiplier in
  let m := if multiplier <? 0 then 0 else multiplier in
  let m := if m >? maxMultiplier then maxMultiplier else m in
  if (m =? 0) || (units <=? 0) then (units, 0)
  else
    let '(billed, fraction) := multiplierFloorPartsWithMax units m maxMultiplier in
    let billed := if (billed <? maxBillingInt64) && (fraction >? 0) then billed [+] 1 else billed in
    (units, billed).

Definition applyConservativeCost (parts : CostParts) (multiplier : Z) : Z * Z :=
  applyConservativeCostWithMax parts multiplier maxBillingMultiplier.

(** ** Cells *)

Record multiplierRemainderCell := mkCell {
  rawRemainder : Z;
  multiplierRemainder : Z;
  lastUsedUnix : Z;
  retired : bool
}.

Definition zero_cell : multiplierRemainderCell := mkCell 0 0 0 false.

(** First half of the critical section of [applyKey]: carry the raw fraction. *)
Definition carry_raw (parts : CostParts) (rawRem : Z) : Z * Z :=
  let raw := if Units parts <? 0 then 0 else Units parts in
  if raw <? maxBillingInt64 then
    let remainder := if Remainder parts <? 0 then 0 else Remainder parts in
    let carry := remainder [/] CostRemainderScale in
    let remainder := remainder [%] CostRemainderScale in
    let total := rawRem [+] remainder in
    let carry := carry [+] (total [/] CostRemainderScale) in
    let rawRem := total [%] CostRemainderScale in
    if raw >? maxBillingInt64 [-] carry then (maxBillingInt64, 0) else (raw [+] carry, rawRem)
  else (raw, 0).

(** Second half: scale and carry the multiplier fraction. *)
Definition carry_mult (raw m maxm multRem : Z) : Z * Z :=
  let '(billed, fraction) := multiplierFloorPartsWithMax raw m maxm in
  if billed =? maxBillingInt64 then (billed, 0)
  else
    let total := multRem [+] fraction in
    let carry := total [/] billingMultiplierBase in
    let multRem := total [%] billingMultiplierBase in
    if billed >? maxBillingInt64 [-] carry then (maxBillingInt64, 0) else (billed [+] carry, multRem).

Definition settle_cell (now : Z) (parts : CostParts) (key : multiplierRemainderKey)
    (cell : multiplierRemainderCell) : Z * Z * multiplierRemainderCell :=
  let '(raw, rr) := carry_raw parts (rawRemainder cell) in
  let '(billed, mr) := carry_mult raw (k_multiplier key) (maxMultiplierForKey key) (multiplierRemainder cell) in
  (raw, billed, mkCell rr mr now (retired cell)).

(** ** The accumulator, one call at a time *)

Record Accumulator := mkAcc {
  values : gmap multiplierRemainderKey multiplierRemainderCell;
  ops : Z;
  cells : Z
}.

Definition empty_acc : Accumulator := mkAcc ∅ 0 0.

Definition reserveCell (a : Accumulator) : Accumulator * bool :=
  if cells a >=? maxRemainderCells then (a, false)
  else (mkAcc (values a) (ops a) (cells a [+] 1), true).

Definition settled (c : multiplierRemainderCell) : bool :=
  negb (retired c) && (rawRemainder c =? 0) && (multiplierRemainder c =? 0).

Definition retire (k : multiplierRemainderKey) (a : Accumulator) : Accumulator :=
  mkAcc (delete k (values a)) (ops a) (cells a [-] 1).

(** [Range] visits the entries in no particular order: [rng] is the order of
    this call. *)
Fixpoint trimSettled (rng : list multiplierRemainderKey) (a : Accumulator) : Accumulator :=
  match rng with
  | [] => a
  | k :: rest =>
      if cells a <? maxRemainderCells then a
      else
        match values a !! k with
        | Some c => if settled c then trimSettled rest (retire k a) else trimSettled rest a
        | None => trimSettled rest a
        end
  end.

Fixpoint sweep (cutoffUnix : Z) (rng : list multiplierRemainderKey) (a : Accumulator) : Accumulator :=
  match rng with
  | [] => a
  | k :: rest =>
      match values a !! k with
      | Some c =>
          if settled c && (lastUsedUnix c <? cutoffUnix) then sweep cutoffUnix rest (retire k a)
          else sweep cutoffUnix rest a
      | None => sweep cutoffUnix rest a
      end
  end.

(** The slot for [key]: its cell, a new one, or none when the bound is reached
    and nothing is settled. *)
Definition find_cell (rng : list multiplierRemainderKey) (key : multiplierRemainderKey)
    (a : Accumulator) : Accumulator * option multiplierRemainderCell :=
  match values a !! key with
  | Some c => (a, Some c)
  | None =>
      match reserveCell a with
      | (a1, true) => (mkAcc (<[key := zero_cell]> (values a1)) (ops a1) (cells a1), Some zero_cell)
      | (a1, false) =>
          match reserveCell (trimSettled rng a1) with
          | (a2, true) => (mkAcc (<[key := zero_cell]> (values a2)) (ops a2) (cells a2), Some zero_cell)
          | (a2, false) => (a2, None)
          end
      end
  end.

Definition applyKey (now : Z) (trimRange sweepRange : list multiplierRemainderKey)
    (parts : CostParts) (key : multiplierRemainderKey) (a : Accumulator) : Accumulator * (Z * Z) :=
  match find_cell trimRange key a with
  | (a1, None) => (a1, applyConservativeCostWithMax parts (k_multiplier key) (maxMultiplierForKey key))
  | (a1, Some c) =>
      let '(raw, billed, c') := settle_cell now parts key c in
      let n := wrapu64 (ops a1 + 1) in
      let a2 := mkAcc (<[key := c']> (values a1)) n (cells a1) in
      let a3 := if n mod remainderSweepEvery =? 0
                then sweep (now [-] remainderIdleSeconds) sweepRange a2 else a2 in
      (a3, (raw, billed))
  end.

Definition applyResolvedIdentity (now : Z) (r1 r2 : list multiplierRemainderKey) (parts : CostParts)
    (m accountID keyID userID groupID : Z) (model : string) (rp : ResolvedPrices)
    (a : Accumulator) : Accumulator * (Z * Z) :=
  applyKey now r1 r2 parts
    (mkKey "" 0 accountID keyID userID groupID model (normalizeBillingMultiplier m)
       (snapshotResolvedPrices rp)) a.

Definition applyResolved (now : Z) (r1 r2 : list multiplierRemainderKey) (parts : CostParts)
    (m userID groupID : Z) (model : string) (rp : ResolvedPrices) (a : Accumulator)
    : Accumulator * (Z * Z) :=
  applyResolvedIdentity now r1 r2 parts m 0 0 userID groupID model rp a.

Definition apply (now : Z) (r1 r2 : list multiplierRemainderKey) (parts : CostParts)
    (m userID groupID : Z) (a : Accumulator) : Accumulator * (Z * Z) :=
  applyResolved now r1 r2 parts m userID groupID "" zero_ResolvedPrices a.

Definition applyUpstream (now : Z) (r1 r2 : list multiplierRemainderKey) (rawCost multiplier upstreamID : Z)
    (model : string) (rp : ResolvedPrices) (a : Accumulator) : Accumulator * Z :=
  if (rawCost <=? 0) || (upstreamID <=? 0) || (multiplier <=? 0)
  then (a, applyUpstreamMultiplier rawCost multiplier)
  else
    let '(a', (_, billed)) :=
      applyKey now r1 r2 (mkCostParts rawCost 0)
        (mkKey "upstream" upstreamID 0 0 0 0 model (normalizeUpstreamMultiplier multiplier)
           (snapshotResolvedPrices rp)) a in
    (a', billed).

(** ** Arithmetic lemmas *)

Ltac rconsts := unfold maxBillingInt64, maxBillingMultiplier, maxUpstreamMultiplier,
  billingMultiplierBase, remainderSweepEvery, remainderIdleSeconds, maxRemainderCells in *; consts.

(** The proxy's copy of the multiplier routine agrees with the one of
    [internal/billing] under both ceilings. *)
Lemma floorParts_agree (cost m maxm : Z) :
  int64 cost -> 10000 < maxm ->
  multiplierFloorPartsWithMax cost m maxm = Cost.multiplierFloorParts cost m maxm.
Proof.
  intros Hc Hm. unfold multiplierFloorPartsWithMax, Cost.multiplierFloorParts.
  destruct ((cost <=? 0) || (m <=? 0)) eqn:E; [reflexivity|].
  unfold billingMultiplierBase, maxBillingInt64.
  replace (maxm <? 0) with false by lia.
  destruct (m >? maxm) eqn:E1.
  - replace (m =? 10000) with false by lia. replace (maxm =? 10000) with false by lia.
    replace (maxm <=? 0) with false by lia. reflexivity.
  - destruct (m =? 10000); [reflexivity|]. replace (m <=? 0) with false by lia. reflexivity.
Qed.

Definition mult_ok (m maxm : Z) : Prop := 0 <= m <= maxm /\ 10000 < maxm <= 1000000.

(** A cell's fractions are proper fractions. *)
Definition cell_ok (c : multiplierRemainderCell) : Prop :=
  0 <= rawRemainder c < 1000000 /\ 0 <= multiplierRemainder c < 10000.

(** Requests far below the range of the ledger type: at most [10^16] units
    (10^11 US dollars), which no multiplier up to 100 can overflow. *)
Definition parts_small (p : CostParts) : Prop :=
  0 <= Units p <= 10 ^ 16 /\ 0 <= Remainder p < 1000000.

Lemma carry_raw_spec (p : CostParts) (rr : Z) :
  parts_small p -> 0 <= rr < 1000000 ->
  let r := carry_raw p rr in
  fst r * 1000000 + snd r = parts_total p + rr /\ 0 <= snd r < 1000000 /\ 0 <= fst r <= 10 ^ 16 + 1.
Proof.
  intros [Hu Hr] H. unfold carry_raw, parts_total. change (10 ^ 16) with 10000000000000000 in *.
  replace (Units p <? 0) with false by lia. replace (Remainder p <? 0) with false by lia.
  replace (Units p <? maxBillingInt64) with true by (rconsts; lia).
  rewrite (quot64_nonneg (Remainder p)), (rem64_nonneg (Remainder p)) by (rconsts; lia).
  unfold CostRemainderScale. rewrite (Z.div_small (Remainder p)), (Z.mod_small (Remainder p)) by (rconsts; lia).
  rewrite (add64_small rr (Remainder p)) by (rconsts; lia).
  rewrite quot64_nonneg, rem64_nonneg by (rconsts; lia).
  pose proof (div_mod_split (rr + Remainder p) milliPerMillion) as [E M]; [rconsts; lia|].
  rewrite (add64_small 0 ((rr + Remainder p) / milliPerMillion)) by (rconsts; lia). rewrite sub64_small by (rconsts; lia).
  replace (Units p >? _) with false by (rconsts; lia). cbn [fst snd].
  rewrite add64_small by (rconsts; lia). rconsts. lia.
Qed.

Lemma carry_mult_spec (raw m maxm mr : Z) :
  0 <= raw <= 10 ^ 16 + 1 -> mult_ok m maxm -> 0 <= mr < 10000 ->
  let r := carry_mult raw m maxm mr in
  fst r * 10000 + snd r = raw * m + mr /\ 0 <= snd r < 10000 /\ 0 <= fst r < max64.
Proof.
  intros Hr [Hm Hx] H. change (10 ^ 16) with 10000000000000000 in *. unfold carry_mult.
  rewrite floorParts_agree by (unfold_int; lia).
  destruct (multiplierFloorParts_spec raw m maxm) as [[B X]|[B X]]; [unfold_int; lia|lia| |]; cbn zeta in *;
    assert (Ec : clamp_mult m maxm = m) by (unfold clamp_mult, pos; lia); rewrite Ec in *;
    assert (Ep : pos raw = raw) by (unfold pos; lia); rewrite Ep in *.
  2:{ assert (raw * m / 10000 <= (10000000000000000 + 1) * 1000000 / 10000)
        by (apply Z.div_le_mono; [lia|nia]).
      change ((10000000000000000 + 1) * 1000000 / 10000) with 1000000000000000100 in *. unfold_int. lia. }
  assert (raw * m <= 10000000000000001000000) by nia.
  destruct (Cost.multiplierFloorParts raw m maxm) as [b f]. destruct X as (X1 & X2 & X3). cbn [fst snd] in *.
  assert (b <= 1000000000000000100) by lia.
  replace (b =? maxBillingInt64) with false by (rconsts; lia).
  rewrite (add64_small mr f) by (rconsts; lia).
  rewrite quot64_nonneg, rem64_nonneg by (rconsts; lia).
  pose proof (div_mod_split (mr + f) billingMultiplierBase) as [E M]; [rconsts; lia|].
  rewrite sub64_small by (rconsts; lia).
  replace (b >? _) with false by (rconsts; lia). cbn [fst snd].
  rewrite add64_small by (rconsts; lia). rconsts. lia.
Qed.

Definition key_ok (k : multiplierRemainderKey) : Prop := mult_ok (k_multiplier k) (maxMultiplierForKey k).

Lemma maxMultiplierForKey_range (k : multiplierRemainderKey) : 10000 < maxMultiplierForKey k <= 1000000.
Proof. unfold maxMultiplierForKey. destruct (k_scope k ==s "upstream"); rconsts; lia. Qed.

(** One settled request: nothing is lost between the parts, the emitted
    integers and the fractions left in the cell. *)
Lemma settle_cell_spec (now : Z) (p : CostParts) (k : multiplierRemainderKey) (c : multiplierRemainderCell) :
  parts_small p -> key_ok k -> cell_ok c ->
  let '(raw, billed, c') := settle_cell now p k c in
  raw * 1000000 + rawRemainder c' = parts_total p + rawRemainder c /\
  billed * 10000 + multiplierRemainder c' = raw * k_multiplier k + multiplierRemainder c /\
  cell_ok c' /\ retired c' = retired c.
Proof.
  intros Hp Hk [H1 H2]. unfold settle_cell.
  pose proof (carry_raw_spec p (rawRemainder c) Hp H1) as (A1 & A2 & A3).
  destruct (carry_raw p (rawRemainder c)) as [raw rr]. cbn [fst snd] in *.
  pose proof (carry_mult_spec raw _ _ (multiplierRemainder c) A3 Hk H2) as (B1 & B2 & B3).
  destruct (carry_mult raw _ _ _) as [billed mr]. cbn [fst snd] in *.
  unfold cell_ok. cbn [rawRemainder multiplierRemainder retired]. auto with lia.
Qed.

Lemma snapshot_inj (a b : ResolvedPrices) :
  snapshotResolvedPrices a = snapshotResolvedPrices b -> a = b.
Proof.
  assert (I : forall x y : option Z, fst (set_int x) = fst (set_int y) -> snd (set_int x) = snd (set_int y) -> x = y)
    by (intros [?|] [?|]; cbn; congruence).
  assert (S1 : forall x y : option string, fst (set_str x) = fst (set_str y) -> snd (set_str x) = snd (set_str y) -> x = y)
    by (intros [?|] [?|]; cbn; congruence).
  intros H. injection H. clear H. intros.
  destruct a as [a1 a2 a3 a4 a5 a6 a7 a8 a9 a10 a11], b as [b1 b2 b3 b4 b5 b6 b7 b8 b9 b10 b11].
  cbn in *. f_equal; auto.
Qed.

(** ** The sequential accumulator *)

(** Every cell of the map is live and holds proper fractions, and the slot
    counter is the number of entries, within the bound. *)
Definition acc_ok (a : Accumulator) : Prop :=
  (forall k c, values a !! k = Some c -> cell_ok c /\ retired c = false) /\
  cells a = Z.of_nat (size (values a)) /\ cells a <= maxRemainderCells /\ 0 <= ops a < two64.

Definition carried_raw (a : Accumulator) (k : multiplierRemainderKey) : Z :=
  match values a !! k with Some c => rawRemainder c | None => 0 end.
Definition carried_mult (a : Accumulator) (k : multiplierRemainderKey) : Z :=
  match values a !! k with Some c => multiplierRemainder c | None => 0 end.

(** Two accumulators with the same unpaid fractions. *)
Definition same_carry (a b : Accumulator) : Prop :=
  forall k, carried_raw a k = carried_raw b k /\ carried_mult a k = carried_mult b k.

Lemma size_bound_64 (a : Accumulator) : acc_ok a -> 0 <= cells a <= 65536.
Proof. intros (_ & E & B & _). rconsts. lia. Qed.

Lemma retire_ok (k : multiplierRemainderKey) (a : Accumulator) (c : multiplierRemainderCell) :
  acc_ok a -> values a !! k = Some c -> settled c = true ->
  acc_ok (retire k a) /\ same_carry (retire k a) a.
Proof.
  intros Ha Hk Hs. pose proof (size_bound_64 a Ha) as B. destruct Ha as (H1 & H2 & H3 & H4).
  unfold settled in Hs. split.
  - assert (D : size (delete k (values a)) = pred (size (values a)))
      by (apply map_size_delete_Some; eauto).
    assert (size (values a) <> 0%nat) by (apply map_size_ne_0_lookup; eauto).
    unfold acc_ok, retire. cbn [values cells ops].
    rewrite D, sub64_small by (unfold_int; lia). split; [|rconsts; lia].
    intros k' c' Hl. rewrite lookup_delete_Some in Hl. destruct Hl as [_ Hl]. exact (H1 k' c' Hl).
  - intros k'. unfold carried_raw, carried_mult, retire. cbn [values].
    destruct (decide (k = k')) as [<-|N].
    + rewrite lookup_delete_eq, Hk. lia.
    + now rewrite lookup_delete_ne.
Qed.

Lemma same_carry_refl (a : Accumulator) : same_carry a a.
Proof. intros k. auto. Qed.

Lemma same_carry_trans (a b c : Accumulator) : same_carry a b -> same_carry b c -> same_carry a c.
Proof. intros H1 H2 k. destruct (H1 k), (H2 k). split; congruence. Qed.

#[export] Instance same_carry_preorder : PreOrder same_carry.
Proof. split; [exact same_carry_refl|exact same_carry_trans]. Qed.

Lemma trimSettled_ok (rng : list multiplierRemainderKey) (a : Accumulator) :
  acc_ok a -> acc_ok (trimSettled rng a) /\ same_carry (trimSettled rng a) a.
Proof.
  revert a. induction rng as [|k rng IH]; intros a Ha; cbn [trimSettled]; [now split|].
  destruct (cells a <? maxRemainderCells); [now split|].
  destruct (values a !! k) as [c|] eqn:E; [|auto]. destruct (settled c) eqn:S; [|auto].
  destruct (retire_ok k a c Ha E S) as [H1 H2]. destruct (IH _ H1) as [H3 H4].
  split; [exact H3|]. etransitivity; [exact H4|exact H2].
Qed.

Lemma trimSettled_None (rng : list multiplierRemainderKey) (a : Accumulator) (k : multiplierRemainderKey) :
  values a !! k = None -> values (trimSettled rng a) !! k = None.
Proof.
  revert a. induction rng as [|k' rng IH]; intros a Ha; cbn [trimSettled]; [exact Ha|].
  destruct (cells a <? maxRemainderCells); [exact Ha|].
  destruct (values a !! k') as [c|]; [|auto]. destruct (settled c); [|auto].
  apply IH. cbn [retire values]. apply lookup_delete_None. auto.
Qed.

Lemma sweep_ok (cut : Z) (rng : list multiplierRemainderKey) (a : Accumulator) :
  acc_ok a -> acc_ok (sweep cut rng a) /\ same_carry (sweep cut rng a) a.
Proof.
  revert a. induction rng as [|k rng IH]; intros a Ha; cbn [sweep]; [now split|].
  destruct (values a !! k) as [c|] eqn:E; [|auto].
  destruct (settled c && (lastUsedUnix c <? cut)) eqn:S; [|auto].
  apply andb_true_iff in S as [S _].
  destruct (retire_ok k a c Ha E S) as [H1 H2]. destruct (IH _ H1) as [H3 H4].
  split; [exact H3|]. etransitivity; [exact H4|exact H2].
Qed.

Lemma insert_zero_ok (k : multiplierRemainderKey) (a : Accumulator) :
  acc_ok a -> values a !! k = None -> cells a < maxRemainderCells ->
  let a' := mkAcc (<[k := zero_cell]> (values a)) (ops a) (cells a [+] 1) in
  acc_ok a' /\ same_carry a' a.
Proof.
  intros Ha Hk Hc. pose proof (size_bound_64 a Ha) as B. destruct Ha as (H1 & H2 & H3 & H4). split.
  - assert (D : size (<[k := zero_cell]> (values a)) = S (size (values a)))
      by (apply map_size_insert_None; exact Hk).
    unfold acc_ok. cbn [values cells ops]. rewrite D, add64_small by (unfold_int; lia).
    split; [|rconsts; lia]. intros k' c' Hl. rewrite lookup_insert_Some in Hl.
    destruct Hl as [[<- <-]|[_ Hl]]; [|eauto]. unfold cell_ok, zero_cell; cbn; lia.
  - intros k'. unfold carried_raw, carried_mult. cbn [values].
    destruct (decide (k = k')) as [<-|N].
    + rewrite lookup_insert_eq, Hk. cbn. lia.
    + now rewrite lookup_insert_ne.
Qed.

Lemma find_cell_ok (rng : list multiplierRemainderKey) (k : multiplierRemainderKey) (a : Accumulator) :
  acc_ok a ->
  let '(a', o) := find_cell rng k a in
  acc_ok a' /\ same_carry a' a /\
  match o with Some c => values a' !! k = Some c | None => values a !! k = None end.
Proof.
  intros Ha. unfold find_cell. destruct (values a !! k) as [c|] eqn:E; [split; [exact Ha|split; [reflexivity|exact E]]|].
  unfold reserveCell. destruct (cells a >=? maxRemainderCells) eqn:F; cbn [fst snd].
  - destruct (trimSettled_ok rng a Ha) as [T1 T2].
    assert (E' : values (trimSettled rng a) !! k = None) by (apply trimSettled_None; exact E).
    destruct (cells (trimSettled rng a) >=? maxRemainderCells) eqn:G.
    + split; [exact T1|split; [exact T2|first [exact E|reflexivity]]].
    + cbn [values ops cells]. destruct (insert_zero_ok k _ T1 E') as [I1 I2]; [lia|].
      split; [exact I1|]. split; [etransitivity; [exact I2|exact T2]|]. apply lookup_insert_eq.
  - cbn [values ops cells]. destruct (insert_zero_ok k a Ha E) as [I1 I2]; [lia|].
    split; [exact I1|]. split; [exact I2|]. apply lookup_insert_eq.
Qed.

Lemma update_cell_ok (k : multiplierRemainderKey) (c c' : multiplierRemainderCell) (n : Z) (a : Accumulator) :
  acc_ok a -> values a !! k = Some c -> cell_ok c' -> retired c' = false -> 0 <= n < two64 ->
  acc_ok (mkAcc (<[k := c']> (values a)) n (cells a)).
Proof.
  intros (H1 & H2 & H3 & H4) Hk Hc Hr Hn. unfold acc_ok. cbn [values cells ops].
  rewrite map_size_insert_Some by (exists c; exact Hk). split; [|auto].
  intros k' x Hl. rewrite lookup_insert_Some in Hl. destruct Hl as [[<- <-]|[_ Hl]]; [auto|eauto].
Qed.

(** The ledger equations of one call on [key]. *)
Definition conserved (a a' : Accumulator) (key : multiplierRemainderKey) (parts : CostParts) (raw billed : Z) : Prop :=
  raw * 1000000 + carried_raw a' key = parts_total parts + carried_raw a key /\
  billed * 10000 + carried_mult a' key = raw * k_multiplier key + carried_mult a key /\
  forall k, k <> key -> carried_raw a' k = carried_raw a k /\ carried_mult a' k = carried_mult a k.

Lemma applyKey_ok (now : Z) (r1 r2 : list multiplierRemainderKey) (parts : CostParts)
    (key : multiplierRemainderKey) (a : Accumulator) :
  acc_ok a -> key_ok key -> parts_small parts ->
  let '(a', (raw, billed)) := applyKey now r1 r2 parts key a in
  acc_ok a' /\
  (conserved a a' key parts raw billed \/
   (values a !! key = None /\ same_carry a' a /\
    (raw, billed) = applyConservativeCostWithMax parts (k_multiplier key) (maxMultiplierForKey key))).
Proof.
  intros Ha Hk Hp. unfold applyKey. pose proof (find_cell_ok r1 key a Ha) as F.
  destruct (find_cell r1 key a) as [a1 [c|]].
  2:{ destruct F as (F1 & F2 & F3).
      destruct (applyConservativeCostWithMax parts _ _) as [raw billed]. auto. }
  destruct F as (F1 & F2 & F3). destruct (proj1 F1 key c F3) as [Hc Hr].
  pose proof (settle_cell_spec now parts key c Hp Hk Hc) as S.
  destruct (settle_cell now parts key c) as [[raw billed] c']. destruct S as (S1 & S2 & S3 & S4).
  set (n := wrapu64 (ops a1 + 1)). set (a2 := mkAcc (<[key := c']> (values a1)) n (cells a1)).
  assert (A2 : acc_ok a2).
  { apply (update_cell_ok key c); try assumption; [congruence|].
    unfold n, wrapu64. apply Z.mod_pos_bound. unfold_int. lia. }
  set (a3 := if n mod remainderSweepEvery =? 0 then sweep (now [-] remainderIdleSeconds) r2 a2 else a2).
  assert (A3 : acc_ok a3 /\ same_carry a3 a2).
  { unfold a3. destruct (n mod remainderSweepEvery =? 0); [now apply sweep_ok|now split]. }
  destruct A3 as [A3 C3]. split; [exact A3|]. left.
  assert (L : carried_raw a key = rawRemainder c /\ carried_mult a key = multiplierRemainder c).
  { destruct (F2 key) as [<- <-]. unfold carried_raw, carried_mult. now rewrite F3. }
  destruct L as [L1 L2]. unfold conserved. destruct (C3 key) as [-> ->].
  unfold carried_raw at 1, carried_mult at 1. unfold a2 at 1 2. cbn [values].
  rewrite lookup_insert_eq, L1, L2. split; [exact S1|]. split; [exact S2|].
  intros k N. destruct (C3 k) as [-> ->]. destruct (F2 k) as [<- <-].
  unfold carried_raw, carried_mult, a2. cbn [values]. now rewrite lookup_insert_ne by congruence.
Qed.

(** ** The conservative fallback *)

(** Rounded up at both stages: never below the exact amounts, never a whole
    unit above them. *)
Lemma conservative_bounds (p : CostParts) (m maxm : Z) :
  parts_small p -> mult_ok m maxm ->
  let '(raw, billed) := applyConservativeCostWithMax p m maxm in
  (parts_total p <= raw * 1000000 < parts_total p + 1000000) /\
  (raw * m <= billed * 10000 < raw * m + 10000).
Proof.
  intros [Hu Hr] [Hm Hx]. unfold applyConservativeCostWithMax, normalizedCostParts, parts_total.
  change (10 ^ 16) with 10000000000000000 in *.
  replace (Units p <? 0) with false by lia. replace (Remainder p <? 0) with false by lia.
  replace (Units p <? maxBillingInt64) with true by (rconsts; lia).
  rewrite quot64_nonneg, rem64_nonneg by (rconsts; lia).
  unfold CostRemainderScale. rewrite Z.div_small, Z.mod_small by (rconsts; lia).
  rewrite sub64_small by (rconsts; lia).
  replace (Units p >? maxBillingInt64 - 0) with false by (rconsts; lia).
  rewrite (add64_small (Units p) 0) by (rconsts; lia). rewrite Z.add_0_r.
  replace (Units p <? maxBillingInt64) with true by (rconsts; lia). cbn [andb].
  set (u := if negb (Remainder p =? 0) then Units p [+] 1 else Units p).
  assert (U : u = if Remainder p =? 0 then Units p else Units p + 1).
  { unfold u. destruct (Remainder p =? 0); [reflexivity|]. cbn [negb]. apply add64_small. rconsts. lia. }
  replace (maxm <? 0) with false by lia. replace (m <? 0) with false by lia.
  replace (m >? maxm) with false by lia.
  assert (Bu : 0 <= u <= 10000000000000001) by (destruct (Remainder p =? 0); lia).
  assert (Tu : Units p * milliPerMillion + Remainder p <= u * 1000000
               < Units p * milliPerMillion + Remainder p + 1000000)
    by (rconsts; destruct (Remainder p =? 0) eqn:?; lia).
  clearbody u. destruct ((m =? 0) || (u <=? 0)) eqn:Z0; [split; [exact Tu|nia]|].
  rewrite floorParts_agree by (unfold_int; lia).
  destruct (multiplierFloorParts_spec u m maxm) as [[B X]|[B X]]; [unfold_int; lia|lia| |]; cbn zeta in *;
    assert (Ec : clamp_mult m maxm = m) by (unfold clamp_mult, pos; lia); rewrite Ec in *;
    assert (Ep : pos u = u) by (unfold pos; lia); rewrite Ep in *.
  2:{ assert (u * m / 10000 <= 10000000000000001 * 1000000 / 10000) by (apply Z.div_le_mono; [lia|nia]).
      change (10000000000000001 * 1000000 / 10000) with 1000000000000000100 in *. unfold_int. lia. }
  assert (u * m <= 10000000000000001000000) by nia.
  destruct (Cost.multiplierFloorParts u m maxm) as [b f]. destruct X as (X1 & X2 & X3). cbn [fst snd] in *.
  split; [exact Tu|]. replace (b <? maxBillingInt64) with true by (rconsts; lia). cbn [andb].
  destruct (f >? 0) eqn:F; [rewrite add64_small by (unfold_int; lia)|]; lia.
Qed.

(** ** Properties *)

(** the two copies of the multiplier routine ([internal/proxy] and
    [internal/billing]) return the same units and remainder for every cost and
    multiplier, under the user ceiling and under the upstream ceiling, so the
    live path and delayed reconciliation never disagree. *)
Theorem multiplier_routines_agree (cost m : Z) :
  int64 cost ->
  multiplierFloorParts cost m = Cost.multiplierFloorParts cost m 100000 /\
  applyMultiplier cost m = ApplyMultiplier cost m /\
  applyUpstreamMultiplier cost m = ApplyUpstreamMultiplier cost m.
Proof.
  intros Hc.
  assert (R : forall p, half_up p = round_multiplier p) by (intros [o r]; reflexivity).
  unfold applyMultiplier, applyUpstreamMultiplier, ApplyMultiplier, ApplyUpstreamMultiplier, multiplierFloorParts.
  rewrite !R, !floorParts_agree by (assumption || reflexivity). auto.
Qed.

Lemma multiplier_routines_agree_witness :
  int64 987654321 /\ applyMultiplier 987654321 12500 = ApplyMultiplier 987654321 12500.
Proof.
  assert (H : int64 987654321) by (unfold_int; lia). split; [exact H|].
  exact (proj1 (proj2 (multiplier_routines_agree 987654321 12500 H))).
Defined.

(** a price snapshot identifies the resolved prices exactly (an unset price
    and an explicit zero are different), so a carry is never consumed under
    other prices. *)
Theorem snapshot_identifies_prices (a b : ResolvedPrices) :
  snapshotResolvedPrices a = snapshotResolvedPrices b <-> a = b.
Proof. split; [apply snapshot_inj|now intros ->]. Qed.

(** one billing call keeps the map within its bound and its counters exact,
    and is exact money-wise: the emitted raw units and the fraction kept in the
    cell add up to the request's cost plus the fraction kept before, likewise
    for the multiplier stage, no other identity's fraction changes (trimming
    and sweeping included), and the only other outcome is the fallback, which
    charges no less than the exact amount and less than one unit more. *)
Theorem applyKey_conserves (now : Z) (r1 r2 : list multiplierRemainderKey) (parts : CostParts)
    (key : multiplierRemainderKey) (a : Accumulator) :
  acc_ok a -> key_ok key -> parts_small parts ->
  let '(a', (raw, billed)) := applyKey now r1 r2 parts key a in
  acc_ok a' /\
  (conserved a a' key parts raw billed \/
   (same_carry a' a /\
    parts_total parts <= raw * 1000000 < parts_total parts + 1000000 /\
    raw * k_multiplier key <= billed * 10000 < raw * k_multiplier key + 10000)).
Proof.
  intros Ha Hk Hp. pose proof (applyKey_ok now r1 r2 parts key a Ha Hk Hp) as H.
  destruct (applyKey now r1 r2 parts key a) as [a' [raw billed]]. destruct H as [H1 [H2|(H2 & H3 & H4)]]; [auto|].
  split; [exact H1|right]. pose proof (conservative_bounds parts _ _ Hp Hk) as B. rewrite <- H4 in B. tauto.
Qed.

Definition sample_key : multiplierRemainderKey :=
  mkKey "" 0 1 2 3 4 "gpt-4o" 15000 (snapshotResolvedPrices zero_ResolvedPrices).

Lemma applyKey_conserves_witness :
  conserved empty_acc (fst (applyKey 7 [] [] (mkCostParts 0 400001) sample_key empty_acc))
    sample_key (mkCostParts 0 400001) 0 0.
Proof.
  pose proof (applyKey_conserves 7 [] [] (mkCostParts 0 400001) sample_key empty_acc) as H.
  assert (A : acc_ok empty_acc).
  { unfold acc_ok, empty_acc. cbn [values cells ops]. rewrite map_size_empty.
    split; [intros k c E; rewrite lookup_empty in E; discriminate|rconsts; lia]. }
  assert (K : key_ok sample_key) by (unfold key_ok, mult_ok; vm_compute; intuition congruence).
  assert (P : parts_small (mkCostParts 0 400001)) by (unfold parts_small; cbn; lia).
  specialize (H A K P).
  destruct (applyKey 7 [] [] (mkCostParts 0 400001) sample_key empty_acc) as [a' [raw billed]] eqn:E.
  assert (R : raw = 0 /\ billed = 0).
  { assert (snd (applyKey 7 [] [] (mkCostParts 0 400001) sample_key empty_acc) = (0, 0)) as S by (vm_compute; reflexivity).
    rewrite E in S. injection S. auto. }
  destruct R as [-> ->]. cbn [fst]. destruct H as [_ [H|(_ & H & _)]]; [exact H|].
  unfold parts_total in H. cbn in H. destruct H as [H _]. exfalso. apply H. reflexivity.
Defined.

(** the capacity fallback never turns a positive cost into a free request
    when the multiplier is positive, and overstates by less than one unit at
    each stage. *)
Theorem conservative_never_free (p : CostParts) (m : Z) :
  parts_small p -> 0 < m <= 100000 -> 0 < parts_total p ->
  let '(raw, billed) := applyConservativeCost p m in
  0 < billed /\ parts_total p <= raw * 1000000 < parts_total p + 1000000 /\
  raw * m <= billed * 10000 < raw * m + 10000.
Proof.
  intros Hp Hm Ht. unfold applyConservativeCost, maxBillingMultiplier.
  pose proof (conservative_bounds p m 100000 Hp) as B.
  destruct (applyConservativeCostWithMax p m 100000) as [raw billed].
  destruct B as [B1 B2]; [unfold mult_ok; lia|]. split; [nia|auto].
Qed.

Lemma conservative_never_free_witness : 0 < snd (applyConservativeCost (mkCostParts 0 1) 100).
Proof.
  pose proof (conservative_never_free (mkCostParts 0 1) 100
    ltac:(unfold parts_small; cbn; lia) ltac:(lia) ltac:(unfold parts_total; cbn; lia)) as H.
  destruct (applyConservativeCost (mkCostParts 0 1) 100) as [raw billed]. exact (proj1 H).
Defined.
