(* ===== verification/RemainderConc.v ===== *)
(** * The fraction accumulator under concurrency ([internal/proxy/billing.go])

    [applyKey], [sweep] and [trimSettled] run in many goroutines on one
    [sync.Map].  Here every goroutine is a program counter, every atomic access
    (map load, load-or-store, counter update) and every critical section of a
    cell's mutex is one step, and the steps of all goroutines interleave
    freely.  A critical section that retires a cell contains its
    [CompareAndDelete]: between the two no other goroutine can see the flag,
    which the cell's mutex guards.  The CAS loop of [reserveCell] is one
    successful or failed reservation.

    The theorem is the ledger equation of every identity in every reachable
    state, and the bound on the map. *)

From Stdlib Require Import ZArith Lia List Bool String.
From stdpp Require Import base option list gmap strings.
From S2P Require Import Prelude Domain Cost Remainder.
Import ListNotations.
Local Open Scope Z_scope.

#[local] Abbreviation Key := multiplierRemainderKey.
#[local] Abbreviation Cell := multiplierRemainderCell.

(** Cells live on the heap; a location remembers the key it was created for. *)
Definition Loc := nat.

Record Shared := mkShared {
  s_values : gmap Key Loc;
  s_heap : gmap Loc (Key * Cell);
  s_cells : Z;
  s_ops : Z
}.

Definition init_shared : Shared := mkShared ∅ ∅ 0 0.

(** One goroutine inside [applyKey]. *)
Inductive PC :=
| PLoad (now : Z) (p : CostParts) (k : Key)                    (* values.Load *)
| PReserve (now : Z) (p : CostParts) (k : Key) (again : bool)  (* reserveCell, first or second try *)
| PTrim (now : Z) (p : CostParts) (k : Key)                    (* inside trimSettled's Range *)
| PTrimDec (now : Z) (p : CostParts) (k : Key)                 (* cells.Add(-1) after a delete *)
| PStore (now : Z) (p : CostParts) (k : Key)                   (* slot reserved: LoadOrStore *)
| PUndo (now : Z) (p : CostParts) (k : Key) (l : Loc)          (* lost the race: cells.Add(-1) *)
| PLock (now : Z) (p : CostParts) (k : Key) (l : Loc)          (* critical section of the cell *)
| POps (now : Z) (raw billed : Z)                              (* ops.Add(1) *)
| PSweep (cutoff : Z) (raw billed : Z)                         (* inside sweep's Range *)
| PSweepDec (cutoff : Z) (raw billed : Z)                      (* cells.Add(-1) after a delete *)
| PDone (raw billed : Z).                                      (* return raw, billed *)

(** A settled request: what went in, what was emitted, and whether it found no
    cell and was rounded up instead. *)
Record Entry := mkEntry { e_key : Key; e_parts : CostParts; e_raw : Z; e_billed : Z; e_rounded : bool }.

Definition set_cell (s : Shared) (l : Loc) (k : Key) (c : Cell) : Shared :=
  mkShared (s_values s) (<[l := (k, c)]> (s_heap s)) (s_cells s) (s_ops s).

Definition add_cells (s : Shared) (d : Z) : Shared :=
  mkShared (s_values s) (s_heap s) (s_cells s + d) (s_ops s).

Definition retired_cell (c : Cell) : Cell :=
  mkCell (rawRemainder c) (multiplierRemainder c) (lastUsedUnix c) true.

(** [cell.retired = true] and a [CompareAndDelete(key, cell)] that succeeds
    because the map still holds that cell. *)
Definition retire_loc (s : Shared) (l : Loc) (k : Key) (c : Cell) : Shared :=
  mkShared (delete k (s_values s))
    (<[l := (k, retired_cell c)]> (s_heap s))
    (s_cells s) (s_ops s).

(** [trimSettled] and [sweep] may visit any cell that was ever published, in
    any order, any number of times, and may stop at any point ([trimSettled]
    stops when the counter has dropped): the relation contains every order in
    which [sync.Map.Range] may present the entries. *)
Inductive tstep : Shared -> PC -> Shared -> PC -> option Entry -> Prop :=
| st_load_hit now p k s l :
    s_values s !! k = Some l -> tstep s (PLoad now p k) s (PLock now p k l) None
| st_load_miss now p k s :
    s_values s !! k = None -> tstep s (PLoad now p k) s (PReserve now p k false) None
| st_reserve now p k b s :
    s_cells s < maxRemainderCells -> tstep s (PReserve now p k b) (add_cells s 1) (PStore now p k) None
| st_reserve_full now p k s :
    maxRemainderCells <= s_cells s -> tstep s (PReserve now p k false) s (PTrim now p k) None
| st_conservative now p k s raw billed :
    maxRemainderCells <= s_cells s ->
    applyConservativeCostWithMax p (k_multiplier k) (maxMultiplierForKey k) = (raw, billed) ->
    tstep s (PReserve now p k true) s (PDone raw billed) (Some (mkEntry k p raw billed true))
| st_trim_retire now p k s l k' c :
    s_heap s !! l = Some (k', c) -> settled c = true -> s_values s !! k' = Some l ->
    tstep s (PTrim now p k) (retire_loc s l k' c) (PTrimDec now p k) None
| st_trim_lost now p k s l k' c :
    s_heap s !! l = Some (k', c) -> settled c = true -> s_values s !! k' <> Some l ->
    tstep s (PTrim now p k) (set_cell s l k' (retired_cell c)) (PTrim now p k) None
| st_trim_dec now p k s :
    tstep s (PTrimDec now p k) (add_cells s (-1)) (PTrim now p k) None
| st_trim_end now p k s :
    tstep s (PTrim now p k) s (PReserve now p k true) None
| st_store_new now p k s l :
    s_values s !! k = None -> s_heap s !! l = None ->
    tstep s (PStore now p k)
      (mkShared (<[k := l]> (s_values s)) (<[l := (k, zero_cell)]> (s_heap s)) (s_cells s) (s_ops s))
      (PLock now p k l) None
| st_store_lost now p k s l :
    s_values s !! k = Some l -> tstep s (PStore now p k) s (PUndo now p k l) None
| st_undo now p k l s :
    tstep s (PUndo now p k l) (add_cells s (-1)) (PLock now p k l) None
| st_lock_retired now p k l s k' c :
    s_heap s !! l = Some (k', c) -> retired c = true ->
    tstep s (PLock now p k l) s (PLoad now p k) None
| st_lock_settle now p k l s k' c c' raw billed :
    s_heap s !! l = Some (k', c) -> retired c = false ->
    settle_cell now p k c = (raw, billed, c') ->
    tstep s (PLock now p k l) (set_cell s l k' c') (POps now raw billed) (Some (mkEntry k p raw billed false))
| st_ops now raw billed s :
    let n := wrapu64 (s_ops s + 1) in
    tstep s (POps now raw billed) (mkShared (s_values s) (s_heap s) (s_cells s) n)
      (if n mod remainderSweepEvery =? 0 then PSweep (now - remainderIdleSeconds) raw billed
       else PDone raw billed) None
| st_sweep_retire cutoff raw billed s l k' c :
    s_heap s !! l = Some (k', c) -> settled c = true -> lastUsedUnix c < cutoff ->
    s_values s !! k' = Some l ->
    tstep s (PSweep cutoff raw billed) (retire_loc s l k' c) (PSweepDec cutoff raw billed) None
| st_sweep_lost cutoff raw billed s l k' c :
    s_heap s !! l = Some (k', c) -> settled c = true -> lastUsedUnix c < cutoff ->
    s_values s !! k' <> Some l ->
    tstep s (PSweep cutoff raw billed) (set_cell s l k' (retired_cell c)) (PSweep cutoff raw billed) None
| st_sweep_dec cutoff raw billed s :
    tstep s (PSweepDec cutoff raw billed) (add_cells s (-1)) (PSweep cutoff raw billed) None
| st_sweep_end cutoff raw billed s :
    tstep s (PSweep cutoff raw billed) s (PDone raw billed) None.

(** The whole process: a pool of goroutines and the log of settled requests. *)
Record Config := mkConfig { shared : Shared; pool : list PC; log : list Entry }.

Definition log_of (o : option Entry) : list Entry := match o with Some e => [e] | None => [] end.

Inductive cstep : Config -> Config -> Prop :=
| cs_spawn s ps lg now p k :
    key_ok k -> parts_small p ->
    cstep (mkConfig s ps lg) (mkConfig s (PLoad now p k :: ps) lg)
| cs_run s s' ps1 pc pc' ps2 o lg :
    tstep s pc s' pc' o ->
    cstep (mkConfig s (ps1 ++ pc :: ps2) lg) (mkConfig s' (ps1 ++ pc' :: ps2) (log_of o ++ lg)).

Definition init_config : Config := mkConfig init_shared [] [].

Definition reachable (c : Config) : Prop := rtc cstep init_config c.

(** ** The ledger *)

(** The requests of an identity that were settled in a cell. *)
Definition entries_of (k : Key) (lg : list Entry) : list Entry :=
  List.filter (fun e => bool_decide (e_key e = k) && negb (e_rounded e)) lg.
Definition sum_by (f : Entry -> Z) (lg : list Entry) : Z := fold_right (fun e acc => f e + acc) 0 lg.

Definition unpaid (f : Cell -> Z) (s : Shared) (k : Key) : Z :=
  match s_values s !! k with
  | Some l => match s_heap s !! l with Some (_, c) => f c | None => 0 end
  | None => 0
  end.

Definition ledger_ok (s : Shared) (lg : list Entry) : Prop :=
  forall k,
    sum_by e_raw (entries_of k lg) * 1000000 + unpaid rawRemainder s k
    = sum_by (fun e => parts_total (e_parts e)) (entries_of k lg) /\
    sum_by e_billed (entries_of k lg) * 10000 + unpaid multiplierRemainder s k
    = k_multiplier k * sum_by e_raw (entries_of k lg).

(** A request that was rounded up is charged no less than its cost, and less
    than a whole unit above it, at both stages. *)
Definition rounded_ok (e : Entry) : Prop := e_rounded e = true ->
  parts_total (e_parts e) <= e_raw e * 1000000 < parts_total (e_parts e) + 1000000 /\
  e_raw e * k_multiplier (e_key e) <= e_billed e * 10000 < e_raw e * k_multiplier (e_key e) + 10000.

(** ** Invariant *)

(** A slot a goroutine holds in the counter without an entry in the map. *)
Definition holds_slot (pc : PC) : Z :=
  match pc with PStore _ _ _ | PUndo _ _ _ _ | PTrimDec _ _ _ | PSweepDec _ _ _ => 1 | _ => 0 end.
Definition slots (ps : list PC) : Z := fold_right (fun pc acc => holds_slot pc + acc) 0 ps.

Definition heap_ok (s : Shared) : Prop :=
  (forall k l, s_values s !! k = Some l -> exists c, s_heap s !! l = Some (k, c) /\ retired c = false) /\
  (forall l k c, s_heap s !! l = Some (k, c) -> cell_ok c /\ (retired c = false -> s_values s !! k = Some l)).

(** What a goroutine knows: its request is admissible and the cell it is about
    to lock was created for its key. *)
Definition pc_ok (s : Shared) (pc : PC) : Prop :=
  match pc with
  | PLoad _ p k | PReserve _ p k _ | PTrim _ p k | PTrimDec _ p k | PStore _ p k => key_ok k /\ parts_small p
  | PUndo _ p k l | PLock _ p k l => key_ok k /\ parts_small p /\ exists c, s_heap s !! l = Some (k, c)
  | _ => True
  end.

Definition count_ok (s : Shared) (n : Z) : Prop :=
  s_cells s = Z.of_nat (size (s_values s)) + n /\ s_cells s <= maxRemainderCells.

(** Locations are never freed and never change their key. *)
Definition heap_mono (s s' : Shared) : Prop :=
  forall l k c, s_heap s !! l = Some (k, c) -> exists c', s_heap s' !! l = Some (k, c').

(** ** Preservation *)

Lemma settled_spec (c : Cell) :
  settled c = true -> retired c = false /\ rawRemainder c = 0 /\ multiplierRemainder c = 0.
Proof. unfold settled. destruct (retired c); cbn; [discriminate|]. intros H. lia. Qed.

Lemma heap_mono_refl (s : Shared) : heap_mono s s.
Proof. intros l k c H. eauto. Qed.

Lemma pc_ok_mono (s s' : Shared) (pc : PC) : heap_mono s s' -> pc_ok s pc -> pc_ok s' pc.
Proof. intros M. destruct pc; cbn; try tauto; intros (H1 & H2 & c & H3); eauto. Qed.

Lemma heap_mono_insert (s : Shared) (l : Loc) (k : Key) (c c' : Cell) (s' : Shared) :
  s_heap s !! l = Some (k, c) -> s_heap s' = <[l := (k, c')]> (s_heap s) -> heap_mono s s'.
Proof.
  intros Hl E l0 k0 c0 H. rewrite E. destruct (decide (l = l0)) as [<-|N].
  - rewrite lookup_insert_eq. simplify_eq. eauto.
  - rewrite lookup_insert_ne by exact N. eauto.
Qed.

(** Retiring a settled cell loses no fraction. *)
Lemma retire_loc_ok (s : Shared) (l : Loc) (k : Key) (c : Cell) :
  heap_ok s -> s_heap s !! l = Some (k, c) -> settled c = true -> s_values s !! k = Some l ->
  heap_ok (retire_loc s l k c) /\ heap_mono s (retire_loc s l k c) /\
  (forall f k', (f = rawRemainder \/ f = multiplierRemainder) ->
     unpaid f (retire_loc s l k c) k' = unpaid f s k') /\
  size (s_values s) = S (size (s_values (retire_loc s l k c))).
Proof.
  intros [H1 H2] Hl Hs Hv. destruct (settled_spec c Hs) as (Hr & R0 & M0).
  split; [split|split; [|split]]; unfold retire_loc; cbn [s_values s_heap].
  - intros k' l' H. rewrite lookup_delete_Some in H. destruct H as [N H].
    destruct (H1 k' l' H) as (c' & Hh & Hr'). exists c'. split; [|exact Hr'].
    rewrite lookup_insert_ne; [exact Hh|]. intros <-. rewrite Hl in Hh. congruence.
  - intros l' k' c' H. rewrite lookup_insert_Some in H. destruct H as [[<- E]|[N H]].
    + simplify_eq. split; [exact (proj1 (H2 _ _ _ Hl))|discriminate].
    + destruct (H2 _ _ _ H) as [O A]. split; [exact O|]. intros R. specialize (A R).
      rewrite lookup_delete_ne; [exact A|]. intros <-. congruence.
  - eapply heap_mono_insert; [exact Hl|reflexivity].
  - intros f k' Hf. unfold unpaid. cbn [s_values s_heap]. destruct (decide (k = k')) as [<-|N].
    + rewrite lookup_delete_eq, Hv, Hl. destruct Hf as [->| ->]; auto.
    + rewrite lookup_delete_ne by exact N. destruct (s_values s !! k') as [l'|] eqn:E; [|reflexivity].
      destruct (decide (l = l')) as [<-|Nl]; [|now rewrite lookup_insert_ne].
      destruct (H1 _ _ E) as (c' & Hh & _). congruence.
  - rewrite map_size_delete_Some by eauto.
    assert (size (s_values s) <> 0%nat) by (apply map_size_ne_0_lookup; eauto). lia.
Qed.

(** Publishing a fresh cell. *)
Lemma store_new_ok (s : Shared) (l : Loc) (k : Key) :
  heap_ok s -> s_values s !! k = None -> s_heap s !! l = None ->
  let s' := mkShared (<[k := l]> (s_values s)) (<[l := (k, zero_cell)]> (s_heap s)) (s_cells s) (s_ops s) in
  heap_ok s' /\ heap_mono s s' /\
  (forall f k', f zero_cell = 0 -> unpaid f s' k' = unpaid f s k') /\
  size (s_values s') = S (size (s_values s)).
Proof.
  intros [H1 H2] Hv Hl s'. subst s'. split; [split|split; [|split]]; cbn [s_values s_heap].
  - intros k' l' H. rewrite lookup_insert_Some in H. destruct H as [[<- <-]|[N H]].
    + rewrite lookup_insert_eq. eauto.
    + destruct (H1 _ _ H) as (c & Hh & Hr). exists c. rewrite lookup_insert_ne; [auto|congruence].
  - intros l' k' c H. rewrite lookup_insert_Some in H. destruct H as [[<- E]|[N H]].
    + simplify_eq. split; [unfold cell_ok; cbn; lia|]. intros _. apply lookup_insert_eq.
    + destruct (H2 _ _ _ H) as [O A]. split; [exact O|]. intros R.
      rewrite lookup_insert_ne; [auto|]. intros <-. rewrite (A R) in Hv. discriminate.
  - intros l0 k0 c0 H. cbn [s_heap]. rewrite lookup_insert_ne by congruence. eauto.
  - intros f k' Hf. unfold unpaid. cbn [s_values s_heap]. destruct (decide (k = k')) as [<-|N].
    + now rewrite lookup_insert_eq, lookup_insert_eq, Hv.
    + rewrite lookup_insert_ne by exact N. destruct (s_values s !! k') as [l'|] eqn:E; [|reflexivity].
      destruct (H1 _ _ E) as (c' & Hh & _). rewrite lookup_insert_ne; [reflexivity|congruence].
  - now apply map_size_insert_None.
Qed.

(** Settling a request in a live cell. *)
Lemma settle_ok (s : Shared) (l : Loc) (k : Key) (c c' : Cell) :
  heap_ok s -> s_heap s !! l = Some (k, c) -> retired c = false -> cell_ok c' -> retired c' = false ->
  heap_ok (set_cell s l k c') /\ heap_mono s (set_cell s l k c') /\
  (forall f, unpaid f s k = f c /\ unpaid f (set_cell s l k c') k = f c') /\
  (forall f k', k' <> k -> unpaid f (set_cell s l k c') k' = unpaid f s k').
Proof.
  intros [H1 H2] Hl Hr Hc Hr'. pose proof (proj2 (H2 _ _ _ Hl) Hr) as Hv.
  split; [split|split; [|split]]; unfold set_cell; cbn [s_values s_heap].
  - intros k' l' H. destruct (decide (l = l')) as [<-|N].
    + rewrite lookup_insert_eq. destruct (H1 _ _ H) as (x & Hx & _). exists c'. split; [congruence|exact Hr'].
    + rewrite lookup_insert_ne by exact N. eauto.
  - intros l' k' x H. rewrite lookup_insert_Some in H. destruct H as [[<- E]|[N H]]; [|eauto].
    simplify_eq. auto.
  - eapply heap_mono_insert; [exact Hl|reflexivity].
  - intros f. unfold unpaid. cbn [s_values s_heap]. rewrite Hv, Hl, lookup_insert_eq. auto.
  - intros f k' N. unfold unpaid. cbn [s_values s_heap].
    destruct (s_values s !! k') as [l'|] eqn:E; [|reflexivity].
    destruct (H1 _ _ E) as (x & Hx & _). rewrite lookup_insert_ne; [reflexivity|]. congruence.
Qed.

Lemma ledger_same (s s' : Shared) (lg : list Entry) :
  (forall f k, (f = rawRemainder \/ f = multiplierRemainder) -> unpaid f s' k = unpaid f s k) ->
  ledger_ok s lg -> ledger_ok s' lg.
Proof. intros E H k. rewrite !E by auto. apply H. Qed.

Lemma ledger_settle (s s' : Shared) (e : Entry) (lg : list Entry) (c c' : Cell) :
  (forall f, unpaid f s (e_key e) = f c /\ unpaid f s' (e_key e) = f c') ->
  (forall f k, k <> e_key e -> unpaid f s' k = unpaid f s k) ->
  e_rounded e = false -> e_raw e * 1000000 + rawRemainder c' = parts_total (e_parts e) + rawRemainder c ->
  e_billed e * 10000 + multiplierRemainder c' = e_raw e * k_multiplier (e_key e) + multiplierRemainder c ->
  ledger_ok s lg -> ledger_ok s' (e :: lg).
Proof.
  intros U V Hr E1 E2 H k. specialize (H k). unfold entries_of in *. cbn [List.filter]. rewrite Hr, andb_true_r.
  case_bool_decide as D.
  - subst k. destruct (U rawRemainder) as [U1 U2], (U multiplierRemainder) as [U3 U4].
    rewrite U1, U3 in H. rewrite U2, U4. cbn [sum_by fold_right]. unfold sum_by in *. nia.
  - rewrite !V by congruence. exact H.
Qed.

(** ** One step of one goroutine *)

Definition step_ok (s : Shared) (pc : PC) (s' : Shared) (pc' : PC) (o : option Entry) : Prop :=
  heap_ok s' /\ pc_ok s' pc' /\ heap_mono s s' /\
  (forall n, 0 <= n -> count_ok s (holds_slot pc + n) -> count_ok s' (holds_slot pc' + n)) /\
  (forall lg, ledger_ok s lg -> ledger_ok s' (log_of o ++ lg)) /\ Forall rounded_ok (log_of o).

(** A rounded request leaves the ledger of the cells alone. *)
Lemma ledger_rounded (s : Shared) (e : Entry) (lg : list Entry) : e_rounded e = true -> ledger_ok s lg -> ledger_ok s (e :: lg).
Proof. intros Hr H k. unfold entries_of. cbn [List.filter]. rewrite Hr, andb_false_r. exact (H k). Qed.

Lemma step_ok_retire (s : Shared) (pc pc' : PC) (l : Loc) (k : Key) (c : Cell) :
  heap_ok s -> s_heap s !! l = Some (k, c) -> settled c = true -> s_values s !! k = Some l ->
  holds_slot pc = 0 -> holds_slot pc' = 1 -> (forall s', pc_ok s pc -> pc_ok s' pc') -> pc_ok s pc ->
  step_ok s pc (retire_loc s l k c) pc' None.
Proof.
  intros Hh Hl Hs Hv W W' Hpc Hp. destruct (retire_loc_ok s l k c Hh Hl Hs Hv) as (A & B & C & D).
  split; [exact A|]. split; [auto|]. split; [exact B|]. split.
  - intros n Hn [E M]. unfold count_ok. cbn [retire_loc s_cells] in *. rewrite W, W' in *. lia.
  - split; [|constructor]. intros lg. apply ledger_same. exact C.
Qed.

(** Steps that only touch the counters or the program counter. *)
Lemma step_ok_counters (s : Shared) (pc pc' : PC) (d n : Z) :
  let s' := mkShared (s_values s) (s_heap s) (s_cells s + d) n in
  heap_ok s -> pc_ok s' pc' -> d = holds_slot pc' - holds_slot pc ->
  (d <= 0 \/ s_cells s + d <= maxRemainderCells) -> step_ok s pc s' pc' None.
Proof.
  intros s' Hh Hp Hd Hb. split; [exact Hh|]. split; [exact Hp|]. split; [exact (heap_mono_refl s)|].
  split; [|split; [intros lg H; exact H|constructor]].
  intros m Hm [E M]. unfold count_ok, s'. cbn [s_cells s_values]. lia.
Qed.

Lemma step_ok_silent (s : Shared) (pc pc' : PC) :
  heap_ok s -> pc_ok s pc' -> holds_slot pc = holds_slot pc' -> step_ok s pc s pc' None.
Proof.
  intros Hh Hp W. split; [exact Hh|]. split; [exact Hp|]. split; [exact (heap_mono_refl s)|].
  split; [intros n _; now rewrite W|]. split; [auto|constructor].
Qed.

(** A settled cell outside the map does not exist. *)
Lemma settled_published (s : Shared) (l : Loc) (k : Key) (c : Cell) :
  heap_ok s -> s_heap s !! l = Some (k, c) -> settled c = true -> s_values s !! k = Some l.
Proof. intros [_ H2] Hl Hs. apply (H2 _ _ _ Hl). now apply settled_spec. Qed.

Lemma tstep_ok (s s' : Shared) (pc pc' : PC) (o : option Entry) :
  heap_ok s -> pc_ok s pc -> tstep s pc s' pc' o -> step_ok s pc s' pc' o.
Proof.
  intros Hh Hp St. destruct St; cbn [pc_ok] in Hp.
  - apply step_ok_silent; [exact Hh| |reflexivity].
    destruct (proj1 Hh _ _ H) as (c & Hc & _). cbn. naive_solver.
  - now apply step_ok_silent.
  - apply step_ok_counters; [exact Hh|exact Hp|reflexivity|lia].
  - now apply step_ok_silent.
  - split; [exact Hh|]. split; [exact I|]. split; [exact (heap_mono_refl s)|]. split; [auto|]. split; [intros lg; now apply ledger_rounded|].
    constructor; [|constructor]. intros _. destruct Hp as [Hk Hps]. pose proof (conservative_bounds p _ _ Hps Hk) as B. rewrite H0 in B. exact B.
  - eapply step_ok_retire; eauto.
  - destruct H1. eapply settled_published; eauto.
  - apply step_ok_counters; [exact Hh|exact Hp|reflexivity|lia].
  - now apply step_ok_silent.
  - destruct (store_new_ok s l k Hh H H0) as (A & B & C & D). split; [exact A|].
    split; [cbn; rewrite lookup_insert_eq; naive_solver|]. split; [exact B|]. split.
    + intros n Hn [E M]. unfold count_ok in *. cbn [s_values s_cells holds_slot] in *. lia.
    + split; [|constructor]. intros lg. apply ledger_same. intros f k' [->| ->]; apply C; reflexivity.
  - apply step_ok_silent; [exact Hh| |reflexivity].
    destruct (proj1 Hh _ _ H) as (c & Hc & _). cbn. naive_solver.
  - apply step_ok_counters; [exact Hh|exact Hp|reflexivity|lia].
  - apply step_ok_silent; [exact Hh|cbn; tauto|reflexivity].
  - destruct Hp as (Hk & Hps & c0 & Hc0). assert (k' = k) as -> by congruence.
    pose proof (settle_cell_spec now p k c Hps Hk (proj1 (proj2 Hh _ _ _ H))) as S. rewrite H1 in S.
    destruct S as (S1 & S2 & S3 & S4).
    destruct (settle_ok s l k c c' Hh H H0 S3) as (A & B & C & D); [congruence|].
    split; [exact A|]. split; [exact I|]. split; [exact B|]. split; [auto|].
    split; [|constructor; [discriminate|constructor]]. intros lg Hlg. cbn [log_of app]. eapply (ledger_settle s _ _ lg c c'); eauto.
  - destruct (n mod remainderSweepEvery =? 0);
      (replace (s_cells s) with (s_cells s + 0) by lia;
       apply step_ok_counters; [exact Hh|exact I|reflexivity|lia]).
  - eapply step_ok_retire; eauto.
  - destruct H2. eapply settled_published; eauto.
  - apply step_ok_counters; [exact Hh|exact I|reflexivity|lia].
  - now apply step_ok_silent.
Qed.

(** ** Every reachable configuration *)

Definition config_ok (c : Config) : Prop :=
  heap_ok (shared c) /\ Forall (pc_ok (shared c)) (pool c) /\
  count_ok (shared c) (slots (pool c)) /\ ledger_ok (shared c) (log c) /\ Forall rounded_ok (log c).

Lemma slots_nonneg (ps : list PC) : 0 <= slots ps.
Proof.
  induction ps as [|pc ps IH]; [cbn; lia|]. change (0 <= holds_slot pc + slots ps).
  destruct pc; cbn [holds_slot]; lia.
Qed.

Lemma slots_app (a b : list PC) : slots (a ++ b) = slots a + slots b.
Proof.
  induction a as [|pc a IH]; [reflexivity|].
  change (holds_slot pc + slots (a ++ b) = holds_slot pc + slots a + slots b). lia.
Qed.

Lemma cstep_ok (c c' : Config) : cstep c c' -> config_ok c -> config_ok c'.
Proof.
  intros St (H1 & H2 & H3 & H4 & H5). destruct St as [s ps lg now p k Hk Hp|s s' ps1 pc pc' ps2 o lg T]; cbn in *.
  - split; [exact H1|]. split; [constructor; [cbn; auto|exact H2]|]. auto.
  - apply Forall_app in H2 as [F1 F2]. apply Forall_cons in F2 as [F2 F3].
    destruct (tstep_ok s s' pc pc' o H1 F2 T) as (A & B & C & D & E & F).
    split; [exact A|]. split.
    + apply Forall_app. split; [eapply Forall_impl; [exact F1|]; eauto using pc_ok_mono|].
      constructor; [exact B|]. eapply Forall_impl; [exact F3|]. eauto using pc_ok_mono.
    + split; [|split; [cbn; auto|apply Forall_app; auto]]. cbn. pose proof (slots_nonneg ps1). pose proof (slots_nonneg ps2).
      rewrite slots_app in *. cbn [slots fold_right] in *. fold (slots ps2) in *.
      replace (slots ps1 + (holds_slot pc' + slots ps2)) with (holds_slot pc' + (slots ps1 + slots ps2)) by lia.
      apply D; [lia|].
      replace (holds_slot pc + (slots ps1 + slots ps2)) with (slots ps1 + (holds_slot pc + slots ps2)) by lia.
      exact H3.
Qed.

Lemma init_ok : config_ok init_config.
Proof.
  split; [split; cbn; intros *; rewrite lookup_empty; discriminate|].
  split; [constructor|]. split.
  - unfold count_ok. cbn. rewrite map_size_empty. rconsts. lia.
  - split; [|constructor]. intros k. cbn. unfold unpaid. cbn. rewrite lookup_empty. lia.
Qed.

Lemma reachable_ok (c : Config) : reachable c -> config_ok c.
Proof.
  intros R. assert (G : forall a b, rtc cstep a b -> config_ok a -> config_ok b).
  { induction 1; eauto using cstep_ok. }
  exact (G _ _ R init_ok).
Qed.

(** A concrete run: one request of 0.400001 units at multiplier 1.5. *)
Definition sample_parts : CostParts := mkCostParts 0 400001.
Definition sample_cell : Cell := mkCell 400001 0 7 false.

Definition sample_shared : Shared :=
  mkShared (<[sample_key := 0%nat]> ∅) (<[0%nat := (sample_key, zero_cell)]> ∅) 1 0.

Definition sample_config : Config :=
  mkConfig (set_cell sample_shared 0%nat sample_key sample_cell)
    [POps 7 0 0] [mkEntry sample_key sample_parts 0 0 false].

Lemma sample_reachable : reachable sample_config.
Proof.
  assert (K : key_ok sample_key) by (unfold key_ok, mult_ok; vm_compute; intuition congruence).
  assert (P : parts_small sample_parts) by (unfold parts_small; cbn; lia).
  unfold reachable, init_config.
  eapply rtc_l; [exact (cs_spawn init_shared [] [] 7 sample_parts sample_key K P)|].
  eapply rtc_l; [eapply (cs_run _ _ [] _ _ [] None), st_load_miss, lookup_empty|].
  eapply rtc_l; [eapply (cs_run _ _ [] _ _ [] None), st_reserve; cbn; rconsts; lia|].
  eapply rtc_l; [eapply (cs_run _ _ [] _ _ [] None), (st_store_new _ _ _ _ 0%nat); apply lookup_empty|].
  eapply rtc_l; [|apply rtc_refl].
  eapply (cs_run _ _ [] _ _ [] (Some (mkEntry sample_key sample_parts 0 0 false))).
  eapply st_lock_settle; [apply lookup_insert_eq|reflexivity|vm_compute; reflexivity].
Qed.

(** ** Properties *)

(** C2: for requests of at most 10^16 units, whatever the interleaving of
    requests, trims and sweeps: for every ledger identity the integers emitted so
    far by the requests settled in its cells and the fraction still held account
    exactly for their cost, raw units at millionths, billed units at
    ten-thousandths of the multiplier; no fraction is lost, duplicated or moved to
    another identity.  A request that finds no free cell and is rounded up is
    charged no less than its cost and less than a whole unit above it, at both
    stages. *)
Theorem concurrent_ledger_exact (c : Config) (k : Key) :
  reachable c ->
  let lg := entries_of k (log c) in
  sum_by e_raw lg * 1000000 + unpaid rawRemainder (shared c) k
  = sum_by (fun e => parts_total (e_parts e)) lg /\
  sum_by e_billed lg * 10000 + unpaid multiplierRemainder (shared c) k
  = k_multiplier k * sum_by e_raw lg /\
  0 <= unpaid rawRemainder (shared c) k < 1000000 /\
  0 <= unpaid multiplierRemainder (shared c) k < 10000 /\
  Forall rounded_ok (log c).
Proof.
  intros R. destruct (reachable_ok c R) as ((H1 & H2) & _ & _ & H4 & H5). destruct (H4 k) as [L1 L2].
  cbn zeta. split; [exact L1|]. split; [exact L2|].
  enough (0 <= unpaid rawRemainder (shared c) k < 1000000 /\ 0 <= unpaid multiplierRemainder (shared c) k < 10000) as [? ?] by auto. unfold unpaid.
  destruct (s_values (shared c) !! k) as [l|] eqn:E; [|lia].
  destruct (H1 _ _ E) as (x & Hx & _). rewrite Hx. exact (proj1 (H2 _ _ _ Hx)).
Qed.

Lemma concurrent_ledger_exact_witness :
  0 * 1000000 + unpaid rawRemainder (shared sample_config) sample_key = 400001.
Proof. exact (proj1 (concurrent_ledger_exact sample_config sample_key sample_reachable)). Defined.

(** in every interleaving the number of identities kept in memory never
    exceeds the bound, and the slot counter is at least that number (it also
    counts the slots goroutines are about to use or to give back). *)
Theorem concurrent_cells_bounded (c : Config) :
  reachable c ->
  Z.of_nat (size (s_values (shared c))) <= s_cells (shared c) <= maxRemainderCells.
Proof.
  intros R. destruct (reachable_ok c R) as (_ & _ & [E B] & _).
  pose proof (slots_nonneg (pool c)). lia.
Qed.

Lemma concurrent_cells_bounded_witness :
  Z.of_nat (size (s_values (shared sample_config))) <= 1 <= maxRemainderCells.
Proof. exact (concurrent_cells_bounded sample_config sample_reachable). Defined.
