(* ===== verification/Balances.v ===== *)
(** * Balance and multiplier snapshots ([internal/billing/balances.go])

    Read-only snapshots the request path consults without touching the
    database: balances per user, price multipliers per user and group.  The
    loader is the repository, seen through its three queries, each of which may
    fail. *)

From Stdlib Require Import ZArith Lia List Bool.
From stdpp Require Import base option gmap.
From S2P Require Import Prelude.
Local Open Scope Z_scope.

Record AssignmentKey := mkAssignmentKey { ak_UserID : Z; ak_GroupID : Z }.

#[export] Instance AssignmentKey_eq_dec : EqDecision AssignmentKey.
Proof. solve_decision. Defined.

#[export] Instance AssignmentKey_countable : Countable AssignmentKey.
Proof.
  refine (inj_countable' (fun k => (ak_UserID k, ak_GroupID k)) (fun '(u, g) => mkAssignmentKey u g) _).
  now intros [].
Defined.

(** The answers of the loader to one reload; [None] is an error. *)
Record BalanceLoader := mkBalanceLoader {
  LoadBalances : option (gmap Z Z);
  LoadGroupMultipliers : option (gmap Z Z);
  LoadAssignmentMultipliers : option (gmap AssignmentKey Z)
}.

Record multipliers := mkMultipliers { assignments : gmap AssignmentKey Z; groups : gmap Z Z }.

Record Balances := mkBalances { snap : gmap Z Z; mult : option multipliers }.

Definition NewBalances : Balances := mkBalances ∅ None.

(** The boolean is [true] when the reload returned without an error. *)
Definition Reload (loader : BalanceLoader) (b : Balances) : Balances * bool :=
  match LoadBalances loader with
  | None => (b, false)
  | Some m =>
      match LoadGroupMultipliers loader with
      | None => (b, false)
      | Some gm =>
          match LoadAssignmentMultipliers loader with
          | None => (b, false)
          | Some am => (mkBalances m (Some (mkMultipliers am gm)), true)
          end
      end
  end.

Definition ReloadMultipliers (loader : BalanceLoader) (b : Balances) : Balances * bool :=
  match LoadGroupMultipliers loader with
  | None => (b, false)
  | Some gm =>
      match LoadAssignmentMultipliers loader with
      | None => (b, false)
      | Some am => (mkBalances (snap b) (Some (mkMultipliers am gm)), true)
      end
  end.

(** [Set] of the source: only an entry that exists is updated. *)
Definition SetBalance (uid bal : Z) (b : Balances) : Balances :=
  match snap b !! uid with
  | Some _ => mkBalances (<[uid := bal]> (snap b)) (mult b)
  | None => b
  end.

Definition BalanceOf (b : Balances) (uid : Z) : Z * bool :=
  match snap b !! uid with Some bal => (bal, true) | None => (0, false) end.

Definition EffectiveMultiplier (b : Balances) (userID groupID : Z) : Z :=
  match mult b with
  | None => 10000
  | Some m =>
      match assignments m !! mkAssignmentKey userID groupID with
      | Some am => am
      | None => match groups m !! groupID with Some gm => gm | None => 10000 end
      end
  end.

(** ** Properties *)

(** a reload is all or nothing: it succeeds exactly when the three queries
    do and then every read answers from the new data (a user's own multiplier
    first, then the group's, then one); when any of them fails the old snapshot
    stays whole. *)
Theorem Reload_all_or_nothing (loader : BalanceLoader) (b : Balances) :
  (snd (Reload loader b) = false /\ fst (Reload loader b) = b /\
   (LoadBalances loader = None \/ LoadGroupMultipliers loader = None \/ LoadAssignmentMultipliers loader = None)) \/
  (exists m gm am,
     LoadBalances loader = Some m /\ LoadGroupMultipliers loader = Some gm /\
     LoadAssignmentMultipliers loader = Some am /\ snd (Reload loader b) = true /\
     (forall uid, BalanceOf (fst (Reload loader b)) uid
                  = match m !! uid with Some v => (v, true) | None => (0, false) end) /\
     (forall uid gid, EffectiveMultiplier (fst (Reload loader b)) uid gid
                      = default (default 10000 (gm !! gid)) (am !! mkAssignmentKey uid gid))).
Proof.
  unfold Reload. destruct (LoadBalances loader) as [m|] eqn:E1; [|left; auto].
  destruct (LoadGroupMultipliers loader) as [gm|] eqn:E2; [|left; auto].
  destruct (LoadAssignmentMultipliers loader) as [am|] eqn:E3; [|left; auto].
  right. exists m, gm, am. do 4 (split; [reflexivity|]). split; intros uid.
  - reflexivity.
  - intros gid. cbn. destruct (am !! mkAssignmentKey uid gid); [reflexivity|].
    now destruct (gm !! gid).
Qed.

(** a targeted refresh after a settlement changes exactly the balance of a
    user the snapshot knows, never admits an unknown user and never touches a
    multiplier. *)
Theorem SetBalance_targeted (b : Balances) (uid bal u g : Z) :
  BalanceOf (SetBalance uid bal b) u
  = (if (u =? uid) && snd (BalanceOf b uid) then (bal, true) else BalanceOf b u) /\
  EffectiveMultiplier (SetBalance uid bal b) u g = EffectiveMultiplier b u g.
Proof.
  unfold SetBalance, BalanceOf. destruct (snap b !! uid) as [old|] eqn:E; cbn [snap mult].
  - split; [|reflexivity]. destruct (u =? uid) eqn:D; cbn [andb snd].
    + replace u with uid by lia. now rewrite lookup_insert_eq.
    + rewrite lookup_insert_ne by lia. reflexivity.
  - split; [|reflexivity]. cbn [snd]. now rewrite andb_false_r.
Qed.
