(* ===== verification/UsageBilling.v ===== *)
(** * Settlement of a finished request ([internal/proxy/forward.go], [caller.go])

    From the usage a provider reported to the charged log row: token totals,
    choice of usable prices (current catalogue, else the prices checked before
    the request), the cost through the fraction accumulator, upstream
    economics, and the "no price" marker of rows left for later recovery. *)

From Stdlib Require Import ZArith Lia List Bool String Ascii.
From stdpp Require Import base option list gmap strings.
From S2P Require Import Prelude GoString Domain Cost Remainder Balances.
Import ListNotations.
Local Open Scope string_scope.
Local Open Scope Z_scope.

(** ** Data *)

Definition ErrorType : Type := string.
Definition ErrNone : ErrorType := "none".
Definition ErrAbort : ErrorType := "abort".

(** The billing part of [UsageLog], its fields grouped by the step that owns
    them. *)
Record LogOwner := mkOwner {
  ul_GroupID : Z; ul_AccountID : Z; ul_UserID : Z; ul_KeyID : Z;
  ul_Model : string; ul_MappedModel : string; ul_Format : RequestFormat;
  ul_StatusCode : Z; ul_ErrorType : ErrorType
}.

Record LogUsage := mkUsage {
  ul_InputTokens : Z; ul_OutputTokens : Z; ul_TotalTokens : Z;
  ul_CacheReadTokens : Z; ul_CacheCreationTokens : Z; ul_CallCount : Z
}.

Record LogPrices := mkPrices {
  ul_PriceInputMillis : option Z; ul_PriceOutputMillis : option Z;
  ul_PriceCacheReadMillis : option Z; ul_PriceCacheCreationMillis : option Z;
  ul_PricePerCallMillis : option Z
}.

Record LogCharge := mkCharge {
  ul_Cost : Z; ul_RawCost : Z; ul_BillingTier : string; ul_AboveHit : bool; ul_Billed : bool
}.

Record LogUpstream := mkUpstreamPart {
  ul_UpstreamID : Z; ul_UpstreamMultiplierBP : option Z;
  ul_UpstreamCost : option Z; ul_GrossProfit : option Z; ul_ProfitMarginBP : option Z
}.

Record UsageLog := mkLog {
  ul_owner : LogOwner; ul_usage : LogUsage; ul_prices : LogPrices;
  ul_PrecheckedPrices : option ResolvedPrices; ul_charge : LogCharge; ul_up : LogUpstream
}.

Definition no_prices : LogPrices := mkPrices None None None None None.
Definition no_charge : LogCharge := mkCharge 0 0 "" false false.
Definition no_upstream : LogUpstream := mkUpstreamPart 0 None None None None.

Definition with_usage (l : UsageLog) (u : LogUsage) : UsageLog :=
  mkLog (ul_owner l) u (ul_prices l) (ul_PrecheckedPrices l) (ul_charge l) (ul_up l).
Definition with_prices (l : UsageLog) (p : LogPrices) : UsageLog :=
  mkLog (ul_owner l) (ul_usage l) p (ul_PrecheckedPrices l) (ul_charge l) (ul_up l).
Definition with_charge (l : UsageLog) (c : LogCharge) : UsageLog :=
  mkLog (ul_owner l) (ul_usage l) (ul_prices l) (ul_PrecheckedPrices l) c (ul_up l).
Definition with_up (l : UsageLog) (u : LogUpstream) : UsageLog :=
  mkLog (ul_owner l) (ul_usage l) (ul_prices l) (ul_PrecheckedPrices l) (ul_charge l) u.

Definition set_costs (l : UsageLog) (raw cost : Z) : UsageLog :=
  with_charge l (mkCharge cost raw (ul_BillingTier (ul_charge l)) (ul_AboveHit (ul_charge l)) (ul_Billed (ul_charge l))).
Definition set_tier (l : UsageLog) (t : string) : UsageLog :=
  with_charge l (mkCharge (ul_Cost (ul_charge l)) (ul_RawCost (ul_charge l)) t (ul_AboveHit (ul_charge l)) (ul_Billed (ul_charge l))).

Definition log_format (l : UsageLog) : RequestFormat := ul_Format (ul_owner l).

(** The model a row is priced by: the mapped one, else the requested one. *)
Definition log_model (l : UsageLog) : string :=
  let m := ul_MappedModel (ul_owner l) in if m ==s "" then ul_Model (ul_owner l) else m.

(** [usageTuple] *)
Record usageTuple := mkTuple {
  u_it : Z; u_ot : Z; u_tt : Z; u_cr : Z; u_cc : Z;
  u_cacheReadExcludedFromTotal : bool; u_cacheReadIncludedInTotal : bool;
  u_calls : Z; u_ii : Z; u_io : Z
}.

(** ** Token totals *)

Definition addUsageTokens (a b : Z) : Z :=
  let a := if a <? 0 then 0 else a in
  let b := if b <? 0 then 0 else b in
  if a >? maxBillingInt64 [-] b then maxBillingInt64 else a [+] b.

Definition mappedFor (req used : string) : string :=
  if negb (used ==s "") && negb (used ==s req) then used else "".

(** The usage fields [buildLog] writes. *)
Definition build_usage (format : RequestFormat) (u : usageTuple) : LogUsage :=
  let in_ := addUsageTokens (u_it u) (u_ii u) in
  let out := addUsageTokens (u_ot u) (u_io u) in
  let total := u_tt u in
  let total := if (total <=? 0) && ((in_ >? 0) || (out >? 0)) then addUsageTokens in_ out else total in
  let total := if total <? 0 then 0 else total in
  let accounted := addUsageTokens in_ out in
  let includeCache :=
    u_cacheReadIncludedInTotal u || (negb (u_cacheReadExcludedFromTotal u) && is_openai_token_format format) in
  let accounted := if includeCache then addUsageTokens accounted (u_cr u) else accounted in
  let total := if total <? accounted then accounted else total in
  let calls := if u_calls u <? 0 then 0 else u_calls u in
  mkUsage in_ out total (u_cr u) (u_cc u) calls.

Definition buildLog (groupID accountID : Z) (reqModel usedModel : string) (format : RequestFormat)
    (status : Z) (et : ErrorType) (u : usageTuple) : UsageLog :=
  mkLog (mkOwner groupID accountID 0 0 reqModel (mappedFor reqModel usedModel) format status et)
    (build_usage format u) no_prices None no_charge no_upstream.

Definition isTokenBillingFormat (format : RequestFormat) : bool :=
  is_openai_token_format format || (format ==s FormatAnthropic).

(** The estimate [logWithCtx] substitutes for missing components, under
    [rm.billingEnabled] and a positive [estimatedInputTokens]. *)
Definition estimate_usage (format : RequestFormat) (estimated : Z) (u : LogUsage) : LogUsage :=
  let openai := is_openai_token_format format in
  let estimatedInput :=
    if (ul_CacheReadTokens u >? 0) && openai then
      let e := estimated [-] ul_CacheReadTokens u in if e <? 1 then 1 else e
    else estimated in
  let input := if ul_InputTokens u <=? 0 then estimatedInput else ul_InputTokens u in
  let output :=
    if ul_OutputTokens u <=? 0 then
      let derived := ul_TotalTokens u [-] input in
      let derived := if openai then derived [-] ul_CacheReadTokens u else derived in
      if derived >? 0 then derived else 1
    else ul_OutputTokens u in
  let accounted := addUsageTokens input output in
  let accounted := if openai then addUsageTokens accounted (ul_CacheReadTokens u) else accounted in
  let total := if ul_TotalTokens u <? accounted then accounted else ul_TotalTokens u in
  mkUsage input output total (ul_CacheReadTokens u) (ul_CacheCreationTokens u) (ul_CallCount u).

(** Request metadata carried by the context. *)
Record reqMeta := mkReqMeta {
  rm_UserID : Z; rm_KeyID : Z; rm_tier : Tier; rm_hasTier : bool;
  rm_estimatedInputTokens : Z; rm_billingEnabled : bool
}.

Definition logWithCtx (rm : option reqMeta) (l : UsageLog) : UsageLog :=
  match rm with
  | None => l
  | Some rm =>
      let o := ul_owner l in
      let l := mkLog (mkOwner (ul_GroupID o) (ul_AccountID o) (rm_UserID rm) (rm_KeyID rm) (ul_Model o)
                        (ul_MappedModel o) (ul_Format o) (ul_StatusCode o) (ul_ErrorType o))
                 (ul_usage l) (ul_prices l) (ul_PrecheckedPrices l) (ul_charge l) (ul_up l) in
      let l := if rm_hasTier rm then set_tier l (Tier_String (rm_tier rm)) else l in
      let upstreamStarted :=
        (ul_ErrorType o ==s ErrNone) || ((ul_ErrorType o ==s ErrAbort) && (ul_StatusCode o =? 200)) in
      if rm_billingEnabled rm && upstreamStarted && (rm_estimatedInputTokens rm >? 0)
         && isTokenBillingFormat (ul_Format o)
      then with_usage l (estimate_usage (ul_Format o) (rm_estimatedInputTokens rm) (ul_usage l))
      else l
  end.

Definition estimateRequestTokens (trimmed_len : Z) : Z :=
  let n := (trimmed_len [+] 3) [/] 4 in if n <? 1 then 1 else n.

Definition pricingPromptTokens (l : UsageLog) : Z :=
  let u := ul_usage l in
  if is_openai_token_format (log_format l) then addUsageTokens (ul_InputTokens u) (ul_CacheReadTokens u)
  else ul_InputTokens u.

(** ** Usable prices *)

Definition nonNegativePrice (p : option Z) : bool := match p with Some v => v >=? 0 | None => false end.
Definition is_nil {A} (p : option A) : bool := match p with Some _ => false | None => true end.

Definition tokenPricesComplete (rp : ResolvedPrices) : bool :=
  nonNegativePrice (rp_InputPerM rp) && nonNegativePrice (rp_OutputPerM rp).

Definition resolvedPricesUsable (format : RequestFormat) (rp : ResolvedPrices) : bool :=
  if format ==s FormatOpenAIImages then
    nonNegativePrice (rp_ImgInTokPerM rp) || nonNegativePrice (rp_ImgOutTokPerM rp)
    || nonNegativePrice (rp_PricePerImage rp)
  else if tokenPricesComplete rp then true
  else is_responses_format format && negb (is_nil (rp_PricePerImage rp)).

Definition resolvedPricesUsableForSettlement (format : RequestFormat) (rp : ResolvedPrices) (calls : Z) : bool :=
  if format ==s FormatOpenAIImages then resolvedPricesUsable format rp
  else if (calls >? 0) && is_responses_format format then nonNegativePrice (rp_PricePerImage rp)
  else if tokenPricesComplete rp then true
  else is_responses_format format && (calls >? 0) && negb (is_nil (rp_PricePerImage rp)).

Definition imagePricesUsableForUsage (u : LogUsage) (rp : ResolvedPrices) : bool :=
  let inp := ul_InputTokens u in
  let out := ul_OutputTokens u in
  let calls := ul_CallCount u in
  let hasTokenPrices := negb (is_nil (rp_ImgInTokPerM rp)) || negb (is_nil (rp_ImgOutTokPerM rp)) in
  if hasTokenPrices && (inp >? 0) && negb (nonNegativePrice (rp_ImgInTokPerM rp)) then false
  else if hasTokenPrices && (out >? 0) && negb (nonNegativePrice (rp_ImgOutTokPerM rp)) then false
  else if negb hasTokenPrices && ((inp >? 0) || (out >? 0)) && negb (nonNegativePrice (rp_PricePerImage rp)) then false
  else if (calls >? 0) && negb (nonNegativePrice (rp_PricePerImage rp)) && (inp =? 0) && (out =? 0) then false
  else if (inp =? 0) && (out =? 0) && (calls =? 0) then resolvedPricesUsable FormatOpenAIImages rp
  else true.

Definition negative_price (p : option Z) : bool := match p with Some v => v <? 0 | None => false end.

Definition settlementPricesUsable (l : UsageLog) (rp : ResolvedPrices) : bool :=
  let u := ul_usage l in
  let f := log_format l in
  let calls := ul_CallCount u in
  if f ==s FormatOpenAIImages then imagePricesUsableForUsage u rp
  else if f ==s FormatOpenAISearch then (calls <=? 0) || nonNegativePrice (rp_PricePerCall rp)
  else
    let text := (ul_InputTokens u >? 0) || (ul_OutputTokens u >? 0) || (ul_TotalTokens u >? 0) in
    if (calls >? 0) && is_responses_format f && negb (nonNegativePrice (rp_PricePerImage rp)) then false
    else if text && negb (tokenPricesComplete rp) then false
    else if ((ul_CacheReadTokens u >? 0) && negative_price (rp_CacheReadPerM rp))
            || ((ul_CacheCreationTokens u >? 0) && negative_price (rp_CacheWritePerM rp)) then false
    else if (calls >? 0) && text && negb (tokenPricesComplete rp) then false
    else if (calls >? 0) && is_responses_format f && is_nil (rp_PricePerImage rp)
            && (ul_InputTokens u =? 0) && (ul_OutputTokens u =? 0)
            && (ul_CacheReadTokens u =? 0) && (ul_CacheCreationTokens u =? 0) then false
    else resolvedPricesUsableForSettlement f rp calls.

Definition withObservedCacheRateFallback (l : UsageLog) (rp : ResolvedPrices) : ResolvedPrices :=
  match rp_InputPerM rp with
  | None => rp
  | Some i =>
      let u := ul_usage l in
      let cr := if (ul_CacheReadTokens u >? 0) && is_nil (rp_CacheReadPerM rp) then Some i else rp_CacheReadPerM rp in
      let cw := if (ul_CacheCreationTokens u >? 0) && is_nil (rp_CacheWritePerM rp) then Some i else rp_CacheWritePerM rp in
      mkResolvedPrices (rp_Mode rp) (rp_InputPerM rp) (rp_OutputPerM rp) cr cw (rp_PricePerCall rp)
        (rp_ImgInTokPerM rp) (rp_ImgOutTokPerM rp) (rp_PricePerImage rp) (rp_VariantSeq rp) (rp_Provider rp)
  end.

(** ** The recovery marker *)

(** [markNoPrice] on the tier text; [multiplier] is the optional variadic
    argument. *)
Definition no_price_tier (raw : string) (multiplier : option Z) : string :=
  let tier := ToLower (TrimSpace raw) in
  if HasPrefix tier "no_price:" then raw
  else
    let marker :=
      match multiplier with
      | Some m => if (m >=? 0) && (m <=? maxBillingMultiplier) then ":m" +:+ FormatInt m else ""
      | None => ""
      end in
    if (tier ==s "") || (tier ==s "auto") || (tier ==s "no_price") then "no_price" +:+ marker
    else if (tier ==s "fast") || (tier ==s "priority") || (tier ==s "flex")
         then "no_price:" +:+ tier +:+ marker
    else "no_price" +:+ marker.

Definition markNoPrice (l : UsageLog) (multiplier : option Z) : UsageLog :=
  set_tier l (no_price_tier (ul_BillingTier (ul_charge l)) multiplier).

(** ** Billing hooks *)

Definition PriceResolver : Type := string -> Z -> string -> CivilTime -> ResolvedPrices * bool.

Record BillingHooks := mkHooks { hk_Resolver : option PriceResolver; hk_Balances : option Balances }.

(** The clock readings and the [Range] orders one settlement sees. *)
Record Env := mkEnv {
  env_now : Z; env_at : CivilTime;
  env_trim : list multiplierRemainderKey; env_sweep : list multiplierRemainderKey
}.

Definition multiplierFor (bill : option BillingHooks) (l : UsageLog) : Z :=
  match bill with
  | Some h =>
      match hk_Balances h with
      | Some b => EffectiveMultiplier b (ul_UserID (ul_owner l)) (ul_GroupID (ul_owner l))
      | None => billingMultiplierBase
      end
  | None => billingMultiplierBase
  end.

Definition applyResolvedBillingParts (bill : option BillingHooks) (env : Env) (l : UsageLog)
    (parts : CostParts) (model : string) (rp : ResolvedPrices) (a : Accumulator) : Accumulator * UsageLog :=
  let o := ul_owner l in
  let '(a', (raw, billed)) :=
    applyResolvedIdentity (env_now env) (env_trim env) (env_sweep env) parts (multiplierFor bill l)
      (ul_AccountID o) (ul_KeyID o) (ul_UserID o) (ul_GroupID o) model rp a in
  (a', set_costs l raw billed).

Definition applyBillingParts (bill : option BillingHooks) (env : Env) (l : UsageLog) (parts : CostParts)
    (a : Accumulator) : Accumulator * UsageLog :=
  applyResolvedBillingParts bill env l parts "" zero_ResolvedPrices a.

Definition applyMultiplierLog (bill : option BillingHooks) (env : Env) (l : UsageLog) (raw : Z)
    (a : Accumulator) : Accumulator * UsageLog :=
  applyBillingParts bill env l (mkCostParts raw 0) a.

(** The prices a token row settles with: the current quote when it covers the
    observed usage, else the quote taken before the request, else none. *)
Definition image_price_required (l : UsageLog) : bool :=
  (ul_CallCount (ul_usage l) >? 0) && is_responses_format (log_format l).

Definition settle_prices (l : UsageLog) (quote : ResolvedPrices * bool) : option ResolvedPrices :=
  let '(rp, ok) := quote in
  let settled := ok && settlementPricesUsable l rp in
  let settled :=
    if settled && negb (is_nil (ul_PrecheckedPrices l)) && image_price_required l && is_nil (rp_PricePerImage rp)
    then false else settled in
  if settled then Some rp
  else
    match ul_PrecheckedPrices l with
    | Some pre =>
        if (negb (image_price_required l) || negb (is_nil (rp_PricePerImage pre))) && settlementPricesUsable l pre
        then Some pre else None
    | None => None
    end.

Definition keep (new old : option Z) : option Z := match new with Some _ => new | None => old end.

(** The snapshot columns of a token row. *)
Definition token_snapshot (u : LogUsage) (rp : ResolvedPrices) (p : LogPrices) : LogPrices :=
  mkPrices (keep (rp_InputPerM rp) (ul_PriceInputMillis p))
    (keep (rp_OutputPerM rp) (ul_PriceOutputMillis p))
    (if ul_CacheReadTokens u >? 0 then keep (rp_CacheReadPerM rp) (ul_PriceCacheReadMillis p)
     else ul_PriceCacheReadMillis p)
    (if ul_CacheCreationTokens u >? 0 then keep (rp_CacheWritePerM rp) (ul_PriceCacheCreationMillis p)
     else ul_PriceCacheCreationMillis p)
    (if ul_CallCount u >? 0 then keep (rp_PricePerImage rp) (ul_PricePerCallMillis p)
     else ul_PricePerCallMillis p).

Definition token_parts (u : LogUsage) (rp : ResolvedPrices) : CostParts :=
  let parts := CostPartsFromResolved rp (ul_InputTokens u) (ul_OutputTokens u)
                 (ul_CacheReadTokens u) (ul_CacheCreationTokens u) in
  if (ul_CallCount u >? 0) && negb (is_nil (rp_PricePerImage rp))
  then AddCostParts parts (ImageCostPartsFromResolved rp 0 0 (ul_CallCount u))
  else parts.

Definition clear_AboveHit (l : UsageLog) : UsageLog :=
  with_charge l (mkCharge (ul_Cost (ul_charge l)) (ul_RawCost (ul_charge l)) (ul_BillingTier (ul_charge l))
                   false (ul_Billed (ul_charge l))).

Definition applyTokenBilling (bill : option BillingHooks) (resolver : PriceResolver) (env : Env)
    (l : UsageLog) (a : Accumulator) : Accumulator * UsageLog :=
  let model := log_model l in
  if model ==s "" then (a, l)
  else
    let quote := resolver model (pricingPromptTokens l) (ul_BillingTier (ul_charge l)) (env_at env) in
    match settle_prices l quote with
    | None => (a, markNoPrice l (Some (multiplierFor bill l)))
    | Some rp =>
        let rp := withObservedCacheRateFallback l rp in
        let l1 := with_prices l (token_snapshot (ul_usage l) rp (ul_prices l)) in
        let '(a', l2) := applyResolvedBillingParts bill env l1 (token_parts (ul_usage l) rp) model rp a in
        (a', clear_AboveHit l2)
    end.

Definition applyImageBilling (bill : option BillingHooks) (resolver : PriceResolver) (env : Env)
    (l : UsageLog) (a : Accumulator) : Accumulator * UsageLog :=
  let model := log_model l in
  let u := ul_usage l in
  if model ==s "" then (a, l)
  else
    let '(rp, ok) := resolver model (pricingPromptTokens l) (ul_BillingTier (ul_charge l)) (env_at env) in
    let '(rp, ok) :=
      if negb ok || negb (settlementPricesUsable l rp) then
        match ul_PrecheckedPrices l with
        | Some pre => if settlementPricesUsable l pre then (pre, true) else (rp, ok)
        | None => (rp, ok)
        end
      else (rp, ok) in
    if negb ok || negb (settlementPricesUsable l rp)
    then (a, markNoPrice l (Some (multiplierFor bill l)))
    else
      let p := ul_prices l in
      let l1 := with_prices l
        (mkPrices (keep (rp_ImgInTokPerM rp) (ul_PriceInputMillis p))
           (keep (rp_ImgOutTokPerM rp) (ul_PriceOutputMillis p))
           (ul_PriceCacheReadMillis p) (ul_PriceCacheCreationMillis p)
           (if ul_CallCount u >? 0 then keep (rp_PricePerImage rp) (ul_PricePerCallMillis p)
            else ul_PricePerCallMillis p)) in
      applyResolvedBillingParts bill env l1
        (ImageCostPartsFromResolved rp (ul_InputTokens u) (ul_OutputTokens u) (ul_CallCount u)) model rp a.

Definition set_PricePerCall (rp : ResolvedPrices) (v : option Z) : ResolvedPrices :=
  mkResolvedPrices (rp_Mode rp) (rp_InputPerM rp) (rp_OutputPerM rp) (rp_CacheReadPerM rp)
    (rp_CacheWritePerM rp) v (rp_ImgInTokPerM rp) (rp_ImgOutTokPerM rp) (rp_PricePerImage rp)
    (rp_VariantSeq rp) (rp_Provider rp).

Definition applyFunctionBilling (bill : option BillingHooks) (resolver : PriceResolver) (env : Env)
    (l : UsageLog) (a : Accumulator) : Accumulator * UsageLog :=
  let '(rp, ok) := resolver CodexSearchModel 0 "" (env_at env) in
  let rp := if negb ok || negb (nonNegativePrice (rp_PricePerCall rp))
            then set_PricePerCall rp (Some DefaultCodexSearchPricePerCall) else rp in
  let p := ul_prices l in
  let l1 :=
    if ul_CallCount (ul_usage l) >? 0 then
      with_prices l (mkPrices (ul_PriceInputMillis p) (ul_PriceOutputMillis p)
        (ul_PriceCacheReadMillis p) (ul_PriceCacheCreationMillis p) (rp_PricePerCall rp))
    else l in
  applyResolvedBillingParts bill env l1 (mkCostParts (CallCostFromResolved rp (ul_CallCount (ul_usage l))) 0)
    CodexSearchModel rp a.

Definition applyBilling (bill : option BillingHooks) (env : Env) (l : UsageLog) (a : Accumulator)
    : Accumulator * UsageLog :=
  match bill with
  | None => (a, l)
  | Some h =>
      match hk_Resolver h with
      | None => (a, l)
      | Some resolver =>
          if log_format l ==s FormatOpenAIImages then applyImageBilling bill resolver env l a
          else if log_format l ==s FormatOpenAISearch then applyFunctionBilling bill resolver env l a
          else applyTokenBilling bill resolver env l a
      end
  end.

(** [precheckPrice]: [None] is the 402 rejection; with billing off the empty
    prices are returned without an error. *)
Definition precheckPrice (bill : option BillingHooks) (format : RequestFormat) (model tier : string)
    (at_ : CivilTime) : option ResolvedPrices :=
  match bill with
  | Some (mkHooks (Some resolver) _) =>
      let '(rp, ok) := resolver model 0 tier at_ in
      if negb ok then None else if negb (resolvedPricesUsable format rp) then None else Some rp
  | _ => Some zero_ResolvedPrices
  end.

(** ** Upstream economics *)

(** [bits.Mul64] and [bits.Div64] on 64-bit unsigned words. *)
Definition Mul64 (x y : Z) : Z * Z := ((x * y) / two64, (x * y) mod two64).
Definition Div64 (hi lo y : Z) : Z * Z := ((hi * two64 + lo) / y, (hi * two64 + lo) mod y).

Definition signedMulDivBP (value divisor : Z) : Z :=
  if (value =? 0) || (divisor <=? 0) then 0
  else
    let negative := value <? 0 in
    let magnitude := if negative then wrapu64 (wrapu64 (neg64 (value [+] 1)) + 1) else wrapu64 value in
    let denominator := wrapu64 divisor in
    let '(hi, lo) := Mul64 magnitude (wrapu64 billingMultiplierBase) in
    if hi >=? denominator then (if negative then neg64 maxBillingInt64 else maxBillingInt64)
    else
      let '(quotient, remainder) := Div64 hi lo denominator in
      let quotient := if remainder >=? (wrapu64 (denominator + 1)) / 2 then wrapu64 (quotient + 1) else quotient in
      if quotient >? maxBillingInt64 then (if negative then neg64 maxBillingInt64 else maxBillingInt64)
      else if negative then neg64 quotient else quotient.

Definition hasBillingPriceSnapshot (p : LogPrices) : bool :=
  negb (is_nil (ul_PriceInputMillis p)) || negb (is_nil (ul_PriceOutputMillis p))
  || negb (is_nil (ul_PriceCacheReadMillis p)) || negb (is_nil (ul_PriceCacheCreationMillis p))
  || negb (is_nil (ul_PricePerCallMillis p)).

(** The price snapshot of the row as the carry identity sees it. *)
Definition economics_prices (f : RequestFormat) (p : LogPrices) : ResolvedPrices :=
  if f ==s FormatOpenAIImages then
    mkResolvedPrices "" None None (ul_PriceCacheReadMillis p) (ul_PriceCacheCreationMillis p) None
      (ul_PriceInputMillis p) (ul_PriceOutputMillis p) (ul_PricePerCallMillis p) None None
  else
    mkResolvedPrices "" (ul_PriceInputMillis p) (ul_PriceOutputMillis p) (ul_PriceCacheReadMillis p)
      (ul_PriceCacheCreationMillis p) (ul_PricePerCallMillis p) None None None None None.

(** [remainders] is [None] for the carry-free variant of package callers. *)
Definition applyUpstreamEconomicsWith (env : Env) (l : UsageLog) (remainders : option Accumulator)
    : option Accumulator * UsageLog :=
  let up := ul_up l in
  match ul_UpstreamMultiplierBP up with
  | None => (remainders, l)
  | Some multiplier =>
      if negb (hasBillingPriceSnapshot (ul_prices l)) then (remainders, l)
      else
        let model := log_format l +:+ String (byte_of 0) "" +:+ log_model l in
        let rp := economics_prices (log_format l) (ul_prices l) in
        let raw := ul_RawCost (ul_charge l) in
        let '(remainders', upstreamCost) :=
          match remainders with
          | Some a =>
              if ul_UpstreamID up >? 0 then
                let '(a', c) := applyUpstream (env_now env) (env_trim env) (env_sweep env) raw multiplier
                                  (ul_UpstreamID up) model rp a in (Some a', c)
              else (remainders, applyUpstreamMultiplier raw multiplier)
          | None => (remainders, applyUpstreamMultiplier raw multiplier)
          end in
        let cost := ul_Cost (ul_charge l) in
        let grossProfit := cost [-] upstreamCost in
        let margin := if cost >? 0 then Some (signedMulDivBP grossProfit cost) else ul_ProfitMarginBP up in
        (remainders', with_up l (mkUpstreamPart (ul_UpstreamID up) (ul_UpstreamMultiplierBP up)
                                   (Some upstreamCost) (Some grossProfit) margin))
  end.

(** ** Routing of the finished row *)

Record CaptureConfig := mkCapture { UsageCapture : bool; BillingCapture : bool }.

(** The row to persist in the ledger, if any, and whether an error row is
    queued. *)
Definition routeLog (cfg : CaptureConfig) (l : UsageLog) : option UsageLog * bool :=
  let et := ul_ErrorType (ul_owner l) in
  let c := ul_charge l in
  (if (et ==s ErrNone) || (et ==s ErrAbort) then
     Some (with_charge l (mkCharge (ul_Cost c) (ul_RawCost c) (ul_BillingTier c) (ul_AboveHit c)
             (negb (BillingCapture cfg && (ul_UserID (ul_owner l) >? 0)))))
   else None,
   negb (et ==s ErrNone)).

(** The two accumulators of the process: user billing and upstream cost. *)
Definition finishAfterRelease (cfg : CaptureConfig) (bill : option BillingHooks) (env : Env)
    (l : UsageLog) (billAcc upAcc : Accumulator) : Accumulator * Accumulator * UsageLog * (option UsageLog * bool) :=
  let '(billAcc', l1) := applyBilling bill env l billAcc in
  let '(up, l2) := applyUpstreamEconomicsWith env l1 (Some upAcc) in
  let upAcc' := match up with Some a => a | None => upAcc end in
  (billAcc', upAcc', l2, if UsageCapture cfg then routeLog cfg l2 else (None, false)).

(** ** Lemmas *)

Lemma addUsageTokens_spec (a b : Z) :
  a <= max64 -> b <= max64 -> addUsageTokens a b = Z.min max64 (pos a + pos b).
Proof.
  intros Ha Hb. unfold addUsageTokens, pos, maxBillingInt64.
  set (a' := if a <? 0 then 0 else a). set (b' := if b <? 0 then 0 else b).
  assert (a' = Z.max 0 a) as -> by (unfold a'; destruct (a <? 0) eqn:?; lia).
  assert (b' = Z.max 0 b) as -> by (unfold b'; destruct (b <? 0) eqn:?; lia).
  rewrite sub64_small by (unfold_int; lia).
  destruct (Z.max 0 a >? max64 - Z.max 0 b) eqn:E; [lia|].
  rewrite add64_small by (unfold_int; lia). lia.
Qed.

(** [round_half_away v d] is [v * 10000 / d] rounded half away from zero. *)
Definition round_half_away (v d : Z) : Z := Z.sgn v * ((2 * (Z.abs v * 10000) + d) / (2 * d)).
Definition clamp64 (z : Z) : Z := Z.max (- max64) (Z.min max64 z).

Lemma half_round (N d : Z) :
  0 <= N -> 0 < d ->
  (2 * N + d) / (2 * d) = N / d + (if N mod d >=? (d + 1) / 2 then 1 else 0).
Proof.
  intros HN Hd. pose proof (div_mod_split N d Hd) as [E M].
  pose proof (div_mod_split (d + 1) 2) as [E2 M2]; [lia|].
  symmetry. destruct (N mod d >=? (d + 1) / 2) eqn:G.
  - apply Z.div_unique with (r := 2 * (N mod d) - d); [lia|nia].
  - apply Z.div_unique with (r := 2 * (N mod d) + d); [lia|nia].
Qed.

Lemma magnitude_spec (v : Z) : int64 v ->
  (if v <? 0 then wrapu64 (wrapu64 (neg64 (v [+] 1)) + 1) else wrapu64 v) = Z.abs v.
Proof.
  intros H. destruct (v <? 0) eqn:E.
  - rewrite add64_small by (unfold_int; lia). unfold neg64. rewrite wrap64_small by (unfold_int; lia).
    rewrite (wrapu64_small (- (v + 1))) by (unfold_int; lia).
    rewrite wrapu64_small by (unfold_int; lia). lia.
  - rewrite wrapu64_small by (unfold_int; lia). lia.
Qed.

Lemma div_hi (N d : Z) : 0 <= N -> 0 < d -> N / two64 >= d <-> N / d >= two64.
Proof.
  intros HN Hd. split; intros H.
  - pose proof (div_ge_mul_le d two64 N ltac:(unfold_int; lia) ltac:(lia)).
    apply Z.le_ge, Z.div_le_lower_bound; [lia|]. lia.
  - pose proof (div_ge_mul_le two64 d N Hd ltac:(lia)).
    apply Z.le_ge, Z.div_le_lower_bound; [unfold_int; lia|]. lia.
Qed.

Lemma signedMulDivBP_spec (v d : Z) :
  int64 v -> 0 < d <= max64 -> Z.abs v * 10000 / d <> two64 - 1 ->
  signedMulDivBP v d = clamp64 (round_half_away v d).
Proof.
  intros Hv Hd Hw. unfold signedMulDivBP.
  destruct (Z.eq_dec v 0) as [->|Nz].
  { cbn [orb Z.eqb]. unfold round_half_away. cbn [Z.sgn]. rewrite Z.mul_0_l. reflexivity. }
  replace ((v =? 0) || (d <=? 0)) with false by lia.
  rewrite magnitude_spec by assumption. rewrite (wrapu64_small d) by (unfold_int; lia).
  unfold billingMultiplierBase. rewrite (wrapu64_small 10000) by (unfold_int; lia).
  unfold Mul64, Div64. set (N := Z.abs v * 10000) in *.
  assert (HN : 0 <= N) by (unfold N; lia).
  replace (N / two64 * two64 + N mod two64) with N
    by (pose proof (div_mod_split N two64); unfold_int; lia).
  unfold neg64, maxBillingInt64. rewrite (wrap64_small (- max64)) by (unfold_int; lia).
  rewrite (wrapu64_small (d + 1)) by (unfold_int; lia).
  pose proof (half_round N d HN ltac:(lia)) as HR. unfold round_half_away, clamp64. fold N.
  assert (Q0 : 0 <= N / d) by (apply Z.div_pos; lia).
  pose proof (div_hi N d HN ltac:(lia)) as DH.
  destruct (N / two64 >=? d) eqn:G.
  { assert (N / d >= two64) by (apply DH; lia).
    destruct (v <? 0) eqn:S; [rewrite Z.sgn_neg by lia|rewrite Z.sgn_pos by lia];
      rewrite HR; destruct (N mod d >=? (d + 1) / 2); unfold_int; lia. }
  assert (L : N / d < two64) by (destruct (Z.lt_ge_cases (N / d) two64); [assumption|]; lia).
  rewrite HR. set (c := N mod d >=? (d + 1) / 2).
  assert (E : (if c then wrapu64 (N / d + 1) else N / d) = N / d + (if c then 1 else 0))
    by (destruct c; [apply wrapu64_small; unfold_int; lia|lia]).
  rewrite E. set (q := N / d + (if c then 1 else 0)).
  assert (0 <= q) by (unfold q; destruct c; lia).
  destruct (q >? max64) eqn:G2; (destruct (v <? 0) eqn:S; [rewrite Z.sgn_neg by lia|rewrite Z.sgn_pos by lia]);
    try rewrite wrap64_small by (unfold_int; lia); unfold_int; lia.
Qed.

(** The usage columns of a row as the price resolver's prices. *)
Definition recorded_prices (p : LogPrices) : ResolvedPrices :=
  mkResolvedPrices "" (ul_PriceInputMillis p) (ul_PriceOutputMillis p) (ul_PriceCacheReadMillis p)
    (ul_PriceCacheCreationMillis p) None None None (ul_PricePerCallMillis p) None None.

Lemma seg_nonpos (t p q : Z) : t <= 0 -> seg t p = seg t q.
Proof. intros H. unfold seg, pos. rewrite Z.max_l by lia. reflexivity. Qed.

(** A rate recorded only when its counter is positive prices the same. *)
Lemma seg_gated (t : Z) (x i : option Z) :
  seg t (cache_rate (if t >? 0 then x else None) i) = seg t (cache_rate x i).
Proof. destruct (t >? 0) eqn:E; [reflexivity|]. apply seg_nonpos. lia. Qed.

Lemma image_parts_flat_only (a b : ResolvedPrices) (n : Z) :
  rp_PricePerImage a = rp_PricePerImage b ->
  ImageCostPartsFromResolved a 0 0 n = ImageCostPartsFromResolved b 0 0 n.
Proof.
  intros E. rewrite !ImageCostParts_shape. unfold image_flat_spec, image_token_spec. rewrite E.
  assert (Z0 : forall p, seg 0 p = 0) by (intros p; unfold seg, pos; consts; lia).
  now rewrite !Z0.
Qed.

Lemma keep_none (x : option Z) : keep x None = x.
Proof. now destruct x. Qed.

Lemma recorded_parts (u : LogUsage) (rp : ResolvedPrices) :
  token_parts u (recorded_prices (token_snapshot u rp no_prices)) = token_parts u rp.
Proof.
  unfold token_parts. set (rec := recorded_prices (token_snapshot u rp no_prices)).
  assert (T : CostPartsFromResolved rec (ul_InputTokens u) (ul_OutputTokens u) (ul_CacheReadTokens u) (ul_CacheCreationTokens u)
              = CostPartsFromResolved rp (ul_InputTokens u) (ul_OutputTokens u) (ul_CacheReadTokens u) (ul_CacheCreationTokens u)).
  { rewrite !CostPartsFromResolved_split. f_equal. unfold token_cost_spec, rec, recorded_prices, token_snapshot, no_prices.
    cbn [rp_InputPerM rp_OutputPerM rp_CacheReadPerM rp_CacheWritePerM ul_PriceInputMillis ul_PriceOutputMillis
         ul_PriceCacheReadMillis ul_PriceCacheCreationMillis]. rewrite !keep_none.
    rewrite !seg_gated. reflexivity. }
  rewrite T. destruct (ul_CallCount u >? 0) eqn:C; cbn [andb]; [|reflexivity].
  assert (P : rp_PricePerImage rec = rp_PricePerImage rp)
    by (unfold rec, recorded_prices, token_snapshot, no_prices; cbn; now rewrite C, keep_none).
  rewrite P. destruct (is_nil (rp_PricePerImage rp)); cbn [negb]; [reflexivity|].
  now rewrite (image_parts_flat_only rec rp).
Qed.

(** Every component a settled token row observed has a price. *)
Definition components_priced (l : UsageLog) (rp : ResolvedPrices) : Prop :=
  let u := ul_usage l in
  (0 < ul_InputTokens u \/ 0 < ul_OutputTokens u \/ 0 < ul_TotalTokens u -> tokenPricesComplete rp = true) /\
  (0 < ul_CallCount u -> is_responses_format (log_format l) = true -> nonNegativePrice (rp_PricePerImage rp) = true) /\
  (0 < ul_CacheReadTokens u -> negative_price (rp_CacheReadPerM rp) = false) /\
  (0 < ul_CacheCreationTokens u -> negative_price (rp_CacheWritePerM rp) = false).

Lemma settlement_usable_priced (l : UsageLog) (rp : ResolvedPrices) :
  (log_format l ==s FormatOpenAIImages) = false -> (log_format l ==s FormatOpenAISearch) = false ->
  settlementPricesUsable l rp = true -> components_priced l rp.
Proof.
  intros F1 F2 H. unfold settlementPricesUsable in H. rewrite F1, F2 in H. unfold components_priced.
  destruct ((ul_CallCount (ul_usage l) >? 0) && is_responses_format (log_format l)
            && negb (nonNegativePrice (rp_PricePerImage rp))) eqn:A; [discriminate|].
  set (text := (ul_InputTokens (ul_usage l) >? 0) || (ul_OutputTokens (ul_usage l) >? 0)
               || (ul_TotalTokens (ul_usage l) >? 0)) in *.
  destruct (text && negb (tokenPricesComplete rp)) eqn:B; [discriminate|].
  destruct (_ || _) eqn:C in H; [discriminate|]. clear H.
  apply orb_false_iff in C as [C1 C2].
  split; [|split; [|split]].
  - intros T. assert (text = true) as Tx by (unfold text; lia). rewrite Tx in B. cbn in B.
    destruct (tokenPricesComplete rp); [reflexivity|discriminate].
  - intros Hc Hf. rewrite Hf in A. replace (ul_CallCount (ul_usage l) >? 0) with true in A by lia. cbn in A.
    destruct (nonNegativePrice (rp_PricePerImage rp)); [reflexivity|discriminate].
  - intros Hc. replace (ul_CacheReadTokens (ul_usage l) >? 0) with true in C1 by lia. exact C1.
  - intros Hc. replace (ul_CacheCreationTokens (ul_usage l) >? 0) with true in C2 by lia. exact C2.
Qed.

Lemma settle_prices_usable (l : UsageLog) (q : ResolvedPrices * bool) (rp : ResolvedPrices) :
  settle_prices l q = Some rp -> settlementPricesUsable l rp = true.
Proof.
  destruct q as [r ok]. unfold settle_prices.
  assert (F : (match ul_PrecheckedPrices l with
    | Some pre => if (negb (image_price_required l) || negb (is_nil (rp_PricePerImage pre))) && settlementPricesUsable l pre
                  then Some pre else None
    | None => None end = Some rp) -> settlementPricesUsable l rp = true).
  { destruct (ul_PrecheckedPrices l) as [pre|]; [|discriminate].
    destruct ((_ || _) && settlementPricesUsable l pre) eqn:E2; [|discriminate].
    intros H. injection H as <-. apply andb_true_iff in E2. tauto. }
  destruct (ok && settlementPricesUsable l r) eqn:A; cbn [andb]; [|exact F].
  destruct (negb (is_nil (ul_PrecheckedPrices l)) && image_price_required l && is_nil (rp_PricePerImage r));
    [exact F|]. intros H. injection H as <-. apply andb_true_iff in A. tauto.
Qed.

Lemma billing_parts_out (bill : option BillingHooks) (env : Env) (l : UsageLog) (parts : CostParts)
    (model : string) (rp : ResolvedPrices) (a : Accumulator) :
  let out := applyResolvedBillingParts bill env l parts model rp a in
  let o := ul_owner l in
  (fst out, (ul_RawCost (ul_charge (snd out)), ul_Cost (ul_charge (snd out))))
  = applyResolvedIdentity (env_now env) (env_trim env) (env_sweep env) parts (multiplierFor bill l)
      (ul_AccountID o) (ul_KeyID o) (ul_UserID o) (ul_GroupID o) model rp a /\
  ul_prices (snd out) = ul_prices l.
Proof.
  cbn zeta. unfold applyResolvedBillingParts.
  destruct (applyResolvedIdentity (env_now env) (env_trim env) (env_sweep env) parts (multiplierFor bill l)
    (ul_AccountID (ul_owner l)) (ul_KeyID (ul_owner l)) (ul_UserID (ul_owner l)) (ul_GroupID (ul_owner l)) model rp a)
    as [a' [raw billed]]. split; reflexivity.
Qed.

(** ** Properties *)

(** C32: settling a token row has two outcomes only.  Either no quote covers
    the observed usage: the row keeps its costs, the accumulator is untouched
    and the row carries the recovery marker; or every observed component
    (text tokens, cache tokens, Responses image calls) has a price, the charge
    is the accumulator's answer for the cost of exactly that usage, and the
    price columns written to the row reproduce that cost. *)
Theorem token_settlement (bill : option BillingHooks) (resolver : PriceResolver) (env : Env)
    (l : UsageLog) (a : Accumulator) :
  (log_format l ==s FormatOpenAIImages) = false -> (log_format l ==s FormatOpenAISearch) = false ->
  (log_model l ==s "") = false -> ul_prices l = no_prices ->
  let out := applyTokenBilling bill resolver env l a in
  out = (a, markNoPrice l (Some (multiplierFor bill l))) \/
  exists rp, components_priced l rp /\
    let rp' := withObservedCacheRateFallback l rp in
    let o := ul_owner l in
    let parts := token_parts (ul_usage l) (recorded_prices (ul_prices (snd out))) in
    parts = token_parts (ul_usage l) rp' /\
    (fst out, (ul_RawCost (ul_charge (snd out)), ul_Cost (ul_charge (snd out))))
    = applyResolvedIdentity (env_now env) (env_trim env) (env_sweep env) parts (multiplierFor bill l)
        (ul_AccountID o) (ul_KeyID o) (ul_UserID o) (ul_GroupID o) (log_model l) rp' a.
Proof.
  intros F1 F2 F3 F4. cbn zeta. unfold applyTokenBilling. rewrite F3.
  destruct (settle_prices l _) as [rp|] eqn:S; [|now left]. right. exists rp.
  split; [apply settlement_usable_priced; try assumption; eapply settle_prices_usable; exact S|].
  rewrite F4. set (rp' := withObservedCacheRateFallback l rp).
  set (l1 := with_prices l (token_snapshot (ul_usage l) rp' no_prices)).
  destruct (billing_parts_out bill env l1 (token_parts (ul_usage l) rp') (log_model l) rp' a) as [E1 E2].
  destruct (applyResolvedBillingParts bill env l1 (token_parts (ul_usage l) rp') (log_model l) rp' a) as [a' l2].
  cbn [fst snd] in *. unfold clear_AboveHit. cbn [with_charge ul_prices ul_charge ul_RawCost ul_Cost].
  rewrite E2. unfold l1 at 1 2. cbn [with_prices ul_prices]. rewrite recorded_parts.
  split; [reflexivity|]. exact E1.
Qed.

Definition sample_prices : ResolvedPrices :=
  mkResolvedPrices "token" (Some 250000) (Some 1000000) None None None None None None None None.
Definition sample_resolver : PriceResolver := fun _ _ _ _ => (sample_prices, true).
Definition sample_env : Env := mkEnv 7 (mkCivilTime 0 0 0) [] [].
Definition sample_log : UsageLog :=
  buildLog 1 2 "gpt-4o" "" FormatOpenAIChat 200 ErrNone (mkTuple 1000 500 0 200 0 false false 0 0 0).

Lemma token_settlement_witness :
  ul_RawCost (ul_charge (snd (applyTokenBilling None sample_resolver sample_env sample_log empty_acc))) = 800.
Proof.
  destruct (token_settlement None sample_resolver sample_env sample_log empty_acc
    ltac:(reflexivity) ltac:(reflexivity) ltac:(reflexivity) ltac:(reflexivity)) as [E|(rp & _ & _ & E)].
  - exfalso. assert (ul_RawCost (ul_charge (snd (applyTokenBilling None sample_resolver sample_env sample_log empty_acc))) = 800)
      by (vm_compute; reflexivity). rewrite E in H. vm_compute in H. discriminate.
  - vm_compute. reflexivity.
Defined.

(** the token totals written to a row never wrap and never understate: each
    component is the saturated sum of its parts, the total is at least the
    measured input plus output (plus the cached input when the provider's total
    includes it), so a missing, zero or too small provider total cannot reduce
    the quota debit. *)
Theorem build_usage_total (format : RequestFormat) (u : usageTuple) :
  u_it u <= max64 -> u_ot u <= max64 -> u_tt u <= max64 -> u_cr u <= max64 -> u_ii u <= max64 -> u_io u <= max64 ->
  let r := build_usage format u in
  let base := pos (u_it u) + pos (u_ii u) + pos (u_ot u) + pos (u_io u) in
  let cached := if u_cacheReadIncludedInTotal u
                   || (negb (u_cacheReadExcludedFromTotal u) && is_openai_token_format format)
                then pos (u_cr u) else 0 in
  ul_InputTokens r = Z.min max64 (pos (u_it u) + pos (u_ii u)) /\
  ul_OutputTokens r = Z.min max64 (pos (u_ot u) + pos (u_io u)) /\
  ul_TotalTokens r = Z.max (pos (u_tt u)) (Z.min max64 (base + cached)) /\ 0 <= ul_CallCount r.
Proof.
  intros H1 H2 H3 H4 H5 H6. cbn zeta. unfold build_usage. cbn [ul_InputTokens ul_OutputTokens ul_TotalTokens ul_CallCount].
  rewrite (addUsageTokens_spec (u_it u)), (addUsageTokens_spec (u_ot u)) by assumption.
  set (i := Z.min max64 (pos (u_it u) + pos (u_ii u))). set (o := Z.min max64 (pos (u_ot u) + pos (u_io u))).
  rewrite (addUsageTokens_spec i o) by lia.
  rewrite (addUsageTokens_spec (Z.min max64 (pos i + pos o)) (u_cr u)) by lia.
  split; [reflexivity|]. split; [reflexivity|].
  split; [|destruct (u_calls u <? 0) eqn:?; lia].
  set (acc0 := Z.min max64 (pos i + pos o)).
  set (t1 := if (u_tt u <=? 0) && ((i >? 0) || (o >? 0)) then acc0 else u_tt u).
  set (t2 := if t1 <? 0 then 0 else t1).
  assert (T : Z.max t2 acc0 = Z.max (pos (u_tt u)) acc0).
  { unfold t2, t1, pos.
    destruct ((u_tt u <=? 0) && ((i >? 0) || (o >? 0))) eqn:A; [|destruct (u_tt u <? 0) eqn:B; lia].
    destruct (acc0 <? 0) eqn:B; lia. }
  assert (A0 : acc0 = Z.min max64 (pos (u_it u) + pos (u_ii u) + pos (u_ot u) + pos (u_io u)))
    by (unfold acc0, i, o, pos; unfold_int; lia).
  clearbody t2 acc0. clear t1.
  set (X := pos (u_it u) + _ + _ + _) in *.
  assert (X0 : 0 <= X) by (unfold X, pos; lia).
  assert (C0 : 0 <= pos (u_cr u)) by (unfold pos; lia).
  assert (P0 : pos acc0 = acc0) by (unfold pos; unfold_int; lia). rewrite P0.
  clearbody X i o. generalize dependent (pos (u_tt u)). generalize dependent (pos (u_cr u)). clear - X0 A0. intros c C0 t T.
  destruct (u_cacheReadIncludedInTotal u || _); unfold_int.
  - match goal with |- context [t2 <? ?m] => destruct (t2 <? m) eqn:C; lia end.
  - destruct (t2 <? acc0) eqn:C; lia.
Qed.

Lemma build_usage_total_witness :
  ul_TotalTokens (build_usage FormatOpenAIChat (mkTuple 1000 500 3 200 0 false false 0 0 0)) = 1700.
Proof.
  pose proof (build_usage_total FormatOpenAIChat (mkTuple 1000 500 3 200 0 false false 0 0 0)
    ltac:(vm_compute; discriminate) ltac:(vm_compute; discriminate) ltac:(vm_compute; discriminate)
    ltac:(vm_compute; discriminate) ltac:(vm_compute; discriminate) ltac:(vm_compute; discriminate)) as H.
  cbv zeta in H. rewrite (proj1 (proj2 (proj2 H))). vm_compute. reflexivity.
Defined.

(** the profit margin is [value * 10000 / divisor] rounded half away from
    zero and saturated, for every pair except when the exact quotient's floor
    is [2^64 - 1]. *)
Theorem signedMulDivBP_rounds (v d : Z) :
  int64 v -> 0 < d <= max64 -> Z.abs v * 10000 / d <> two64 - 1 ->
  signedMulDivBP v d = clamp64 (round_half_away v d).
Proof. exact (signedMulDivBP_spec v d). Qed.

Lemma signedMulDivBP_rounds_witness : signedMulDivBP (-25) 30000 = -8.
Proof.
  rewrite (signedMulDivBP_rounds (-25) 30000 ltac:(unfold_int; lia) ltac:(unfold_int; lia)
    ltac:(vm_compute; discriminate)). vm_compute. reflexivity.
Defined.

(** in that excluded case the rounding increment wraps the unsigned
    quotient to zero: a ratio far above the saturation limit is reported as a
    margin of zero instead of the saturated value. *)
Theorem signedMulDivBP_wraps :
  signedMulDivBP 422430439287948732 229 = 0 /\
  clamp64 (round_half_away 422430439287948732 229) = max64.
Proof. split; vm_compute; reflexivity. Qed.
