(* ===== verification/Reprice.v ===== *)
(** * Delayed repricing of unpriced rows ([internal/billing/reprice.go])

    Rows whose model had no price when the request finished carry a marker with
    the service tier and the multiplier of the request.  Recovery decodes the
    marker, resolves the prices again and computes the charge.  The theorems:
    the marker survives the round trip, the recovered parts are the parts the
    live path would have charged, and a positive raw cost is never recovered as a
    free row. *)

From Stdlib Require Import ZArith Lia List Bool String Ascii.
From stdpp Require Import base option list gmap strings.
From S2P Require Import Prelude GoString Domain Cost Remainder Balances UsageBilling.
Import ListNotations.
Local Open Scope string_scope.
Local Open Scope Z_scope.

(** ** Decoding the marker *)

Definition recoveryTier (raw : string) : string :=
  let prefix := "no_price:" in
  if HasPrefix raw prefix then
    let value := TrimSpace (TrimPrefix raw prefix) in
    let value := match Cut value ":m" with Some (before, _) => before | None => value end in
    let value := if HasPrefix value "m" then "" else value in
    if negb (value ==s "") then value else "auto"
  else "auto".

Definition recoveryMultiplier (raw : string) (fallback : Z) : Z :=
  match CutLastAfter (TrimSpace raw) ":m" with
  | None => fallback
  | Some after =>
      let value := TrimSpace after in
      if value ==s "" then fallback
      else
        match scan_d value with
        | None => fallback
        | Some (parsed, _) => if (parsed <? 0) || (parsed >? 100000) then fallback else parsed
        end
  end.

(** ** Repricing one row *)

Definition reprice_prompt (u : UnpricedUsage) : Z :=
  if is_openai_token_format (uu_Format u) then
    if (uu_CacheReadTokens u >? 0) && (uu_InputTokens u <=? max64 [-] uu_CacheReadTokens u)
    then uu_InputTokens u [+] uu_CacheReadTokens u else uu_InputTokens u
  else uu_InputTokens u.

Definition reprice_usable (u : UnpricedUsage) (rp : ResolvedPrices) : bool :=
  let calls := uu_CallCount u in
  if uu_Format u ==s FormatOpenAIImages then
    let hasTokenPrices := negb (is_nil (rp_ImgInTokPerM rp)) || negb (is_nil (rp_ImgOutTokPerM rp)) in
    if hasTokenPrices && (uu_InputTokens u >? 0) && negb (nonNegativePrice (rp_ImgInTokPerM rp)) then false
    else if hasTokenPrices && (uu_OutputTokens u >? 0) && negb (nonNegativePrice (rp_ImgOutTokPerM rp)) then false
    else if negb hasTokenPrices && ((uu_InputTokens u >? 0) || (uu_OutputTokens u >? 0))
            && negb (nonNegativePrice (rp_PricePerImage rp)) then false
    else if (calls >? 0) && negb (nonNegativePrice (rp_PricePerImage rp))
            && (uu_InputTokens u =? 0) && (uu_OutputTokens u =? 0) then false
    else true
  else if uu_Format u ==s FormatOpenAISearch then (calls <=? 0) || nonNegativePrice (rp_PricePerCall rp)
  else if (calls >? 0) && is_responses_format (uu_Format u) && negb (nonNegativePrice (rp_PricePerImage rp)) then false
  else if (uu_InputTokens u >? 0) || (uu_OutputTokens u >? 0) || (uu_TotalTokens u >? 0)
       then nonNegativePrice (rp_InputPerM rp) && nonNegativePrice (rp_OutputPerM rp)
  else if (calls >? 0) && is_responses_format (uu_Format u) then nonNegativePrice (rp_PricePerImage rp)
  else true.

Definition withCacheFallback (u : UnpricedUsage) (rp : ResolvedPrices) : ResolvedPrices :=
  match rp_InputPerM rp with
  | None => rp
  | Some i =>
      let cr := if (uu_CacheReadTokens u >? 0) && is_nil (rp_CacheReadPerM rp) then Some i else rp_CacheReadPerM rp in
      let cw := if (uu_CacheCreationTokens u >? 0) && is_nil (rp_CacheWritePerM rp) then Some i else rp_CacheWritePerM rp in
      mkResolvedPrices (rp_Mode rp) (rp_InputPerM rp) (rp_OutputPerM rp) cr cw (rp_PricePerCall rp)
        (rp_ImgInTokPerM rp) (rp_ImgOutTokPerM rp) (rp_PricePerImage rp) (rp_VariantSeq rp) (rp_Provider rp)
  end.

(** The parts and the five price columns the [switch] computes. *)
Definition reprice_parts (u : UnpricedUsage) (rp : ResolvedPrices) : CostParts * LogPrices :=
  if uu_Format u ==s FormatOpenAIImages then
    (ImageCostPartsFromResolved rp (uu_InputTokens u) (uu_OutputTokens u) (uu_CallCount u),
     mkPrices (rp_ImgInTokPerM rp) (rp_ImgOutTokPerM rp) None None
       (if uu_CallCount u >? 0 then rp_PricePerImage rp else None))
  else if uu_Format u ==s FormatOpenAISearch then
    (mkCostParts (CallCostFromResolved rp (uu_CallCount u)) 0,
     mkPrices None None None None (rp_PricePerCall rp))
  else
    let rp := withCacheFallback u rp in
    let image := (uu_CallCount u >? 0) && negb (is_nil (rp_PricePerImage rp)) in
    let parts := if image then AddCostParts zero_CostParts (ImageCostPartsFromResolved rp 0 0 (uu_CallCount u))
                 else zero_CostParts in
    (AddCostParts parts (CostPartsFromResolved rp (uu_InputTokens u) (uu_OutputTokens u)
                           (uu_CacheReadTokens u) (uu_CacheCreationTokens u)),
     mkPrices (rp_InputPerM rp) (rp_OutputPerM rp)
       (if uu_CacheReadTokens u >? 0 then rp_CacheReadPerM rp else None)
       (if uu_CacheCreationTokens u >? 0 then rp_CacheWritePerM rp else None)
       (if image then rp_PricePerImage rp else None)).

(** The package's own copy of the margin routine. *)
Definition margin_bp (value divisor : Z) : Z :=
  if (value =? 0) || (divisor <=? 0) then 0
  else
    let negative := value <? 0 in
    let magnitude := if negative then wrapu64 (wrapu64 (neg64 (value [+] 1)) + 1) else wrapu64 value in
    let '(hi, lo) := Mul64 magnitude 10000 in
    let denominator := wrapu64 divisor in
    if hi >=? denominator then (if negative then min64 + 1 else max64)
    else
      let '(quotient, remainder) := Div64 hi lo denominator in
      let quotient := if remainder >=? (wrapu64 (denominator + 1)) / 2 then wrapu64 (quotient + 1) else quotient in
      if quotient >? max64 then (if negative then min64 + 1 else max64)
      else if negative then neg64 quotient else quotient.

(** The ledger fields from the raw cost on. *)
Definition reprice_finish (u : UnpricedUsage) (tier : string) (multiplier : Z)
    (parts : CostParts) (p : LogPrices) : RepricedUsage :=
  let rawCost := Rounded parts in
  let m := recoveryMultiplier (uu_BillingTier u) multiplier in
  let cost := ApplyMultiplier rawCost m in
  let cost := if (rawCost >? 0) && (cost =? 0) && (m >? 0) then 1 else cost in
  let '(upstream, profit, margin) :=
    match uu_UpstreamMultiplierBP u with
    | None => (None, None, None)
    | Some um =>
        let up := ApplyUpstreamMultiplier rawCost um in
        let pr := cost [-] up in
        (Some up, Some pr, if cost >? 0 then Some (margin_bp pr cost) else None)
    end in
  mkRepricedUsage (uu_ID u) tier (ul_PriceInputMillis p) (ul_PriceOutputMillis p)
    (ul_PriceCacheReadMillis p) (ul_PriceCacheCreationMillis p) (ul_PricePerCallMillis p)
    rawCost cost upstream profit margin.

Definition reprice_model (u : UnpricedUsage) : string :=
  let model := TrimSpace (uu_MappedModel u) in if model ==s "" then TrimSpace (uu_Model u) else model.

Definition RepriceUsage (u : UnpricedUsage) (resolver : option PriceResolver) (multiplier : Z)
    : option RepricedUsage :=
  let model := reprice_model u in
  match resolver with
  | None => None
  | Some resolver =>
      if model ==s "" then None
      else
        let tier := recoveryTier (uu_BillingTier u) in
        let '(rp, ok) := resolver model (reprice_prompt u) tier (uu_CreatedAt u) in
        let '(rp, ok) :=
          if (uu_Format u ==s FormatOpenAISearch) && (negb ok || negb (nonNegativePrice (rp_PricePerCall rp)))
          then (set_PricePerCall rp (Some DefaultCodexSearchPricePerCall), true) else (rp, ok) in
        if negb ok || negb (reprice_usable u rp) then None
        else let '(parts, p) := reprice_parts u rp in Some (reprice_finish u tier multiplier parts p)
  end.

(** ** Lemmas *)

Lemma margin_bp_agrees (v d : Z) : margin_bp v d = signedMulDivBP v d.
Proof. reflexivity. Qed.

Definition is_colon (c : ascii) : bool := Ascii.eqb c ":".

Lemma digit_not_colon (c : ascii) : is_digit c = true -> is_colon c = false.
Proof.
  intros H. unfold is_colon. destruct (Ascii.eqb_spec c ":"%char) as [->|]; [discriminate|reflexivity].
Qed.

Lemma CutLastAfter_no_colon (s : string) : none_of is_colon s = true -> CutLastAfter s ":m" = None.
Proof.
  induction s as [|c s IH]; [reflexivity|]. cbn [none_of]. intros H. apply andb_true_iff in H as [H1 H2].
  cbn [CutLastAfter]. rewrite (IH H2). unfold is_colon in H1. cbn [strip_prefix].
  rewrite Ascii.eqb_sym. now destruct (Ascii.eqb c ":").
Qed.

Lemma Cut_no_colon (s : string) : none_of is_colon s = true -> Cut s ":m" = None.
Proof.
  induction s as [|c s IH]; [reflexivity|]. cbn [none_of]. intros H. apply andb_true_iff in H as [H1 H2].
  cbn [Cut strip_prefix]. rewrite (IH H2). unfold is_colon in H1. rewrite Ascii.eqb_sym.
  now destruct (Ascii.eqb c ":").
Qed.

Lemma FormatInt_nonempty (m : Z) : 0 <= m -> (FormatInt m ==s "") = false.
Proof.
  intros H. unfold FormatInt. replace (m <? 0) with false by lia.
  destruct (print_digits_head 20 m EmptyString) as (c & r & -> & _); [lia|lia|reflexivity].
Qed.

(** Decoding any text that ends in a marker. *)
Lemma recoveryMultiplier_marker (p : string) (m fb : Z) :
  none_of is_space p = true ->
  CutLastAfter (p +:+ ":m" +:+ FormatInt m) ":m" = Some (FormatInt m) ->
  0 <= m <= 100000 -> recoveryMultiplier (p +:+ ":m" +:+ FormatInt m) fb = m.
Proof.
  intros Hp Hc Hm. unfold recoveryMultiplier.
  assert (D : none_of is_space (FormatInt m) = true) by (apply FormatInt_none_of; [exact digit_not_space|lia]).
  unfold TrimSpace. rewrite trim_by_none by (rewrite !none_of_app, Hp, D; reflexivity).
  rewrite Hc. rewrite trim_by_none by exact D. rewrite FormatInt_nonempty by lia.
  rewrite scan_d_FormatInt by (unfold_int; lia).
  replace ((m <? 0) || (m >? 100000)) with false by lia. reflexivity.
Qed.

(** The marker of a request tier. *)
Definition marker_of (t : Tier) (m : Z) : string :=
  match t with
  | TierAuto => "no_price"
  | t => "no_price:" +:+ Tier_String t
  end +:+ ":m" +:+ FormatInt m.

Lemma no_price_tier_marker (raw : string) (m : Z) :
  0 <= m <= 100000 -> HasPrefix (ToLower (TrimSpace raw)) "no_price:" = false ->
  no_price_tier raw (Some m) = marker_of (NormalizeTier raw) m.
Proof.
  intros Hm Hp. unfold no_price_tier, NormalizeTier. rewrite Hp.
  set (t := ToLower (TrimSpace raw)).
  replace ((m >=? 0) && (m <=? maxBillingMultiplier)) with true by (rconsts; lia).
  destruct (String.eqb_spec t "fast") as [->|]; [reflexivity|].
  destruct (String.eqb_spec t "priority") as [->|]; [reflexivity|].
  destruct (String.eqb_spec t "flex") as [->|]; [reflexivity|].
  destruct ((t ==s "") || _ || _); reflexivity.
Qed.

Lemma marker_roundtrip (t : Tier) (m fb : Z) :
  0 <= m <= 100000 ->
  recoveryMultiplier (marker_of t m) fb = m /\ recoveryTier (marker_of t m) = Tier_String t.
Proof.
  intros Hm.
  assert (C : none_of is_colon (FormatInt m) = true) by (apply FormatInt_none_of; [exact digit_not_colon|lia]).
  assert (D : none_of is_space (FormatInt m) = true) by (apply FormatInt_none_of; [exact digit_not_space|lia]).
  pose proof (CutLastAfter_no_colon _ C) as L. pose proof (Cut_no_colon _ C) as K.
  split.
  - destruct t; unfold marker_of; apply recoveryMultiplier_marker; try reflexivity; try assumption;
      unfold String.append; cbn -[FormatInt]; now rewrite L.
  - destruct t; unfold recoveryTier, marker_of, String.append; cbn -[FormatInt TrimSpace Cut]; unfold TrimSpace;
      (rewrite trim_by_none by (cbn -[FormatInt]; exact D)); cbn -[FormatInt]; [|reflexivity..].
    now rewrite K.
Qed.

(** *** Parity with the live path *)

(** A log row and the recovery row read from it. *)
Definition same_usage (l : UsageLog) (u : UnpricedUsage) : Prop :=
  let w := ul_usage l in
  uu_Format u = log_format l /\ uu_InputTokens u = ul_InputTokens w /\ uu_OutputTokens u = ul_OutputTokens w /\
  uu_TotalTokens u = ul_TotalTokens w /\ uu_CacheReadTokens u = ul_CacheReadTokens w /\
  uu_CacheCreationTokens u = ul_CacheCreationTokens w /\ uu_CallCount u = ul_CallCount w.

Lemma AddCostParts_comm (a b : CostParts) : parts_ok a -> parts_ok b -> AddCostParts a b = AddCostParts b a.
Proof.
  intros [Ha _] [Hb _]. unfold AddCostParts, add64. rewrite (Z.add_comm (Remainder a)).
  rewrite !saturatingCostAdd_spec, (Z.add_comm (pos (Units a))) by lia. reflexivity.
Qed.

Lemma AddCostParts_zero (p : CostParts) : parts_ok p -> Units p < max64 -> AddCostParts zero_CostParts p = p.
Proof.
  intros [Hu Hr] Hm. unfold AddCostParts, zero_CostParts. cbn [Units Remainder].
  rewrite saturatingCostAdd_spec by (unfold_int; lia). unfold pos.
  rewrite (Z.max_r 0 (Units p)), Z.max_l, Z.add_0_l by lia. rewrite Z.min_r by lia.
  replace (Units p =? max64) with false by lia.
  rewrite (add64_small 0 (Remainder p)), Z.add_0_l by (consts; lia).
  rewrite quot64_nonneg, rem64_nonneg by (consts; lia).
  rewrite Z.div_small, Z.mod_small by lia. rewrite sub64_small by (consts; lia).
  replace (Units p >? max64 - 0) with false by lia.
  rewrite add64_small, Z.add_0_r by (consts; lia). now destruct p.
Qed.

Lemma token_parts_bound (rp : ResolvedPrices) (a b c d : Z) :
  parts_ok (CostPartsFromResolved rp a b c d) /\ Units (CostPartsFromResolved rp a b c d) < max64.
Proof.
  destruct (CostPartsFromResolved_total rp a b c d) as [T O]. split; [exact O|].
  pose proof (token_cost_bounds rp a b c d). destruct O as [Hu Hr]. unfold parts_total in T. consts. lia.
Qed.

Lemma image_parts_bound (rp : ResolvedPrices) (i o n : Z) :
  parts_ok (ImageCostPartsFromResolved rp i o n) /\ Units (ImageCostPartsFromResolved rp i o n) <= imageTotalCap.
Proof.
  destruct (Z.lt_ge_cases (image_token_spec rp i o / milliPerMillion + image_flat_spec rp n) imageTotalCap) as [L|G].
  - destruct (ImageCostParts_exact rp i o n L) as [E O]. split; [exact O|].
    rewrite ImageCostParts_shape. cbn zeta. replace (_ >=? imageTotalCap) with false by lia. cbn [Units]. lia.
  - rewrite (ImageCostParts_capped rp i o n G). unfold parts_ok. cbn [Units Remainder]. consts. lia.
Qed.

Lemma withCacheFallback_live (l : UsageLog) (u : UnpricedUsage) (rp : ResolvedPrices) :
  same_usage l u -> withCacheFallback u rp = withObservedCacheRateFallback l rp.
Proof.
  intros (_ & _ & _ & _ & E1 & E2 & _). unfold withCacheFallback, withObservedCacheRateFallback.
  now rewrite E1, E2.
Qed.

(** Recovery computes the parts the request path would have charged. *)
Lemma reprice_parts_live (l : UsageLog) (u : UnpricedUsage) (rp : ResolvedPrices) :
  same_usage l u -> (log_format l ==s FormatOpenAIImages) = false -> (log_format l ==s FormatOpenAISearch) = false ->
  fst (reprice_parts u rp) = token_parts (ul_usage l) (withObservedCacheRateFallback l rp).
Proof.
  intros Hs F1 F2. pose proof (withCacheFallback_live l u rp Hs) as W.
  destruct Hs as (E0 & E1 & E2 & E3 & E4 & E5 & E6). unfold reprice_parts. rewrite E0, F1, F2, W, E1, E2, E4, E5, E6.
  set (rp' := withObservedCacheRateFallback l rp). unfold token_parts. cbn [fst].
  destruct (token_parts_bound rp' (ul_InputTokens (ul_usage l)) (ul_OutputTokens (ul_usage l))
    (ul_CacheReadTokens (ul_usage l)) (ul_CacheCreationTokens (ul_usage l))) as [T1 T2].
  destruct ((ul_CallCount (ul_usage l) >? 0) && negb (is_nil (rp_PricePerImage rp'))).
  - destruct (image_parts_bound rp' 0 0 (ul_CallCount (ul_usage l))) as [I1 I2].
    rewrite (AddCostParts_zero _ I1) by (consts; lia). now apply AddCostParts_comm.
  - now apply AddCostParts_zero.
Qed.

Lemma reprice_usable_live (l : UsageLog) (u : UnpricedUsage) (rp : ResolvedPrices) :
  same_usage l u -> settlementPricesUsable l rp = true -> reprice_usable u rp = true.
Proof.
  intros (E0 & E1 & E2 & E3 & E4 & E5 & E6) H. unfold settlementPricesUsable in H. unfold reprice_usable.
  rewrite E0, E1, E2, E3, E6.
  destruct (log_format l ==s FormatOpenAIImages).
  { unfold imagePricesUsableForUsage in H.
    repeat match type of H with (if ?b then false else _) = true => destruct b; [discriminate|] end. reflexivity. }
  destruct (log_format l ==s FormatOpenAISearch); [exact H|].
  destruct ((ul_CallCount (ul_usage l) >? 0) && is_responses_format (log_format l)) eqn:C; cbn [andb] in *.
  - destruct (nonNegativePrice (rp_PricePerImage rp)) eqn:N; cbn [negb] in *; [|discriminate].
    destruct (_ || _ || _); [|reflexivity]. cbn [andb] in H.
    destruct (tokenPricesComplete rp) eqn:T; [exact T|discriminate].
  - destruct (_ || _ || _); [|reflexivity]. cbn [andb] in H.
    destruct (tokenPricesComplete rp) eqn:T; [exact T|discriminate].
Qed.

(** *** The row as a whole *)

(** The price a search row is charged: the quoted one, else the default. *)
Definition search_price (rp : ResolvedPrices) : ResolvedPrices :=
  if nonNegativePrice (rp_PricePerCall rp) then rp else set_PricePerCall rp (Some DefaultCodexSearchPricePerCall).

(** The prices a quote charges a row at, in every format. *)
Definition charged_prices (l : UsageLog) (rp : ResolvedPrices) : ResolvedPrices :=
  if log_format l ==s FormatOpenAIImages then rp
  else if log_format l ==s FormatOpenAISearch then search_price rp
  else withObservedCacheRateFallback l rp.

(** The question the request path asks the resolver, and the answer. *)
Definition live_quote (resolver : PriceResolver) (env : Env) (l : UsageLog) : ResolvedPrices * bool :=
  if log_format l ==s FormatOpenAISearch then resolver CodexSearchModel 0 "" (env_at env)
  else resolver (log_model l) (pricingPromptTokens l) (ul_BillingTier (ul_charge l)) (env_at env).

(** The name a charge is entered under. *)
Definition charged_model (l : UsageLog) : string := if log_format l ==s FormatOpenAISearch then CodexSearchModel else log_model l.

(** The request path settles the row at [parts] and writes the columns [p]. *)
Definition settles_at (bill : option BillingHooks) (env : Env) (l : UsageLog) (a : Accumulator)
    (rp : ResolvedPrices) (parts : CostParts) (p : LogPrices) : Prop :=
  let out := applyBilling bill env l a in
  let o := ul_owner l in
  ul_prices (snd out) = p /\
  (fst out, (ul_RawCost (ul_charge (snd out)), ul_Cost (ul_charge (snd out))))
  = applyResolvedIdentity (env_now env) (env_trim env) (env_sweep env) parts (multiplierFor bill l)
      (ul_AccountID o) (ul_KeyID o) (ul_UserID o) (ul_GroupID o) (charged_model l) (charged_prices l rp) a.

Lemma images_not_search (f : RequestFormat) : (f ==s FormatOpenAIImages) = true -> (f ==s FormatOpenAISearch) = false.
Proof. intros H. apply String.eqb_eq in H. subst f. reflexivity. Qed.

(** Whatever row is billed with given columns, the charge is entered as such. *)
Lemma settled_columns (bill : option BillingHooks) (env : Env) (l : UsageLog) (a : Accumulator) (p : LogPrices)
    (parts : CostParts) (model : string) (rp : ResolvedPrices) :
  let out := applyResolvedBillingParts bill env (with_prices l p) parts model rp a in
  let o := ul_owner l in
  ul_prices (snd out) = p /\
  (fst out, (ul_RawCost (ul_charge (snd out)), ul_Cost (ul_charge (snd out))))
  = applyResolvedIdentity (env_now env) (env_trim env) (env_sweep env) parts (multiplierFor bill l)
      (ul_AccountID o) (ul_KeyID o) (ul_UserID o) (ul_GroupID o) model rp a.
Proof. destruct (billing_parts_out bill env (with_prices l p) parts model rp a) as [E1 E2]. split; [exact E2|exact E1]. Qed.

Section Live.
Variables (h : BillingHooks) (resolver : PriceResolver) (env : Env) (l : UsageLog) (u : UnpricedUsage) (a : Accumulator) (rp : ResolvedPrices).
Hypothesis Hh : hk_Resolver h = Some resolver.
Hypothesis Hs : same_usage l u.
Hypothesis Hp : ul_prices l = no_prices.
Hypothesis Hpre : ul_PrecheckedPrices l = None.
Hypothesis Hq : live_quote resolver env l = (rp, true).

Lemma image_row_live : (log_format l ==s FormatOpenAIImages) = true -> (log_model l ==s "") = false -> settlementPricesUsable l rp = true ->
  settles_at (Some h) env l a rp (fst (reprice_parts u rp)) (snd (reprice_parts u rp)).
Proof.
  intros F M U. pose proof (images_not_search _ F) as F2. unfold settles_at, applyBilling, charged_model, charged_prices. rewrite Hh, F, F2.
  unfold live_quote in Hq. rewrite F2 in Hq. unfold applyImageBilling. rewrite M, Hq, U, Hp. cbn [negb orb]. rewrite ?U. cbn [negb].
  destruct Hs as (E0 & E1 & E2 & _ & _ & _ & E6). unfold reprice_parts. rewrite E0, F, E1, E2, E6. cbn [fst snd].
  cbn [no_prices ul_PriceInputMillis ul_PriceOutputMillis ul_PriceCacheReadMillis ul_PriceCacheCreationMillis ul_PricePerCallMillis].
  rewrite !keep_none. apply settled_columns.
Qed.

Lemma search_row_live : (log_format l ==s FormatOpenAISearch) = true -> 0 < ul_CallCount (ul_usage l) ->
  settles_at (Some h) env l a rp (fst (reprice_parts u (search_price rp))) (snd (reprice_parts u (search_price rp))).
Proof.
  intros F C. assert ((log_format l ==s FormatOpenAIImages) = false) as F2.
  { destruct (log_format l ==s FormatOpenAIImages) eqn:E; [|reflexivity]. rewrite (images_not_search _ E) in F. discriminate. }
  unfold settles_at, applyBilling, charged_model, charged_prices. rewrite Hh, F, F2.
  unfold live_quote in Hq. rewrite F in Hq. unfold applyFunctionBilling. rewrite Hq, Hp. cbn [negb orb].
  destruct Hs as (E0 & _ & _ & _ & _ & _ & E6). unfold reprice_parts. rewrite E0, F, F2, E6. cbn [fst snd].
  replace (ul_CallCount (ul_usage l) >? 0) with true by lia. unfold search_price.
  destruct (nonNegativePrice (rp_PricePerCall rp)); cbn [negb]; apply settled_columns.
Qed.

Lemma token_row_live : (log_format l ==s FormatOpenAIImages) = false -> (log_format l ==s FormatOpenAISearch) = false ->
  (log_model l ==s "") = false -> settlementPricesUsable l rp = true ->
  settles_at (Some h) env l a rp (fst (reprice_parts u rp)) (snd (reprice_parts u rp)).
Proof.
  intros F1 F2 M U. unfold settles_at, applyBilling, charged_model, charged_prices. rewrite Hh, F1, F2.
  unfold live_quote in Hq. rewrite F2 in Hq. unfold applyTokenBilling. rewrite M, Hq. unfold settle_prices. rewrite U, Hpre. cbn [andb is_nil negb].
  rewrite (reprice_parts_live l u rp Hs F1 F2), Hp. set (rp' := withObservedCacheRateFallback l rp).
  assert (snd (reprice_parts u rp) = token_snapshot (ul_usage l) rp' no_prices) as ->.
  { pose proof (withCacheFallback_live l u rp Hs) as W. destruct Hs as (E0 & _ & _ & _ & E4 & E5 & E6). unfold reprice_parts.
    rewrite E0, F1, F2, W, E4, E5, E6. fold rp'. cbn [snd]. unfold token_snapshot, no_prices.
    cbn [ul_PriceInputMillis ul_PriceOutputMillis ul_PriceCacheReadMillis ul_PriceCacheCreationMillis ul_PricePerCallMillis].
    rewrite !keep_none. destruct (ul_CallCount (ul_usage l) >? 0); cbn [andb]; [|reflexivity].
    destruct (rp_PricePerImage rp'); reflexivity. }
  destruct (settled_columns (Some h) env l a (token_snapshot (ul_usage l) rp' no_prices) (token_parts (ul_usage l) rp') (log_model l) rp') as [E1 E2].
  destruct (applyResolvedBillingParts _ _ _ _ _ _ _) as [a' l2]. exact (conj E1 E2).
Qed.
End Live.

(** Recovery takes up a row whose quote settles it. *)
Lemma RepriceUsage_settled (u : UnpricedUsage) (resolver : PriceResolver) (m : Z) (rp : ResolvedPrices) :
  (reprice_model u ==s "") = false ->
  resolver (reprice_model u) (reprice_prompt u) (recoveryTier (uu_BillingTier u)) (uu_CreatedAt u) = (rp, true) ->
  let rp' := if uu_Format u ==s FormatOpenAISearch then search_price rp else rp in
  reprice_usable u rp' = true ->
  RepriceUsage u (Some resolver) m =
  Some (reprice_finish u (recoveryTier (uu_BillingTier u)) m (fst (reprice_parts u rp')) (snd (reprice_parts u rp'))).
Proof.
  cbv zeta. intros M Q U. unfold RepriceUsage. rewrite M, Q. unfold search_price in *.
  destruct (uu_Format u ==s FormatOpenAISearch); cbn [andb negb orb] in *; [destruct (nonNegativePrice (rp_PricePerCall rp)); cbn [negb] in *|];
    rewrite U; cbn [negb orb]; now destruct (reprice_parts u _).
Qed.

(** *** Ledger fields *)

Lemma rounded_range (p : CostParts) : parts_ok p -> 0 <= Rounded p <= max64.
Proof.
  intros [Hu Hr]. unfold Rounded, roundCostParts. replace (Units p <? 0) with false by lia.
  destruct ((Remainder p >=? milliPerMillion / 2) && (Units p <? max64)) eqn:E; [|lia].
  rewrite add64_small by (unfold_int; lia). lia.
Qed.

Lemma reprice_parts_ok (u : UnpricedUsage) (rp : ResolvedPrices) : parts_ok (fst (reprice_parts u rp)).
Proof.
  unfold reprice_parts. destruct (uu_Format u ==s FormatOpenAIImages); cbn [fst]; [apply image_parts_bound|].
  destruct (uu_Format u ==s FormatOpenAISearch); cbn [fst].
  - unfold parts_ok, CallCostFromResolved. cbn [Units Remainder]. split; [|consts; lia].
    set (c := if uu_CallCount u <? 0 then 0 else uu_CallCount u).
    assert (0 <= c) by (unfold c; destruct (uu_CallCount u <? 0) eqn:?; lia).
    destruct (rp_PricePerCall rp) as [p|]; [|unfold_int; lia]. destruct (p >? 0) eqn:P; [|unfold_int; lia].
    rewrite saturatingCostMul_spec by (consts; lia).
    assert (0 <= c * p) by (apply Z.mul_nonneg_nonneg; lia). consts. lia.
  - set (rp' := withCacheFallback u rp).
    destruct (token_parts_bound rp' (uu_InputTokens u) (uu_OutputTokens u) (uu_CacheReadTokens u) (uu_CacheCreationTokens u)) as [T1 T2].
    destruct (_ && negb _); [|now rewrite AddCostParts_zero].
    destruct (image_parts_bound rp' 0 0 (uu_CallCount u)) as [I1 I2].
    rewrite (AddCostParts_zero _ I1) by (consts; lia).
    apply AddCostParts_exact; try assumption.
    destruct (CostPartsFromResolved_total rp' (uu_InputTokens u) (uu_OutputTokens u) (uu_CacheReadTokens u) (uu_CacheCreationTokens u)) as [-> _].
    pose proof (token_cost_bounds rp' (uu_InputTokens u) (uu_OutputTokens u) (uu_CacheReadTokens u) (uu_CacheCreationTokens u)).
    destruct I1 as [I3 I4]. unfold parts_total. consts. lia.
Qed.

Lemma mult_spec_range (c m : Z) : 0 <= mult_spec c m <= max64.
Proof.
  unfold mult_spec. assert (0 <= (pos c * pos m + 5000) / 10000).
  { apply Z.div_pos; [|lia]. unfold pos. nia. }
  unfold_int. lia.
Qed.

(** The charge recovery must write for a raw cost. *)
Definition recovered_cost (raw m : Z) : Z :=
  if (raw >? 0) && (m >? 0) then Z.max 1 (mult_spec raw (clamp_mult m 100000)) else 0.

Lemma recovered_cost_range (raw m : Z) : 0 <= recovered_cost raw m <= max64.
Proof.
  unfold recovered_cost. pose proof (mult_spec_range raw (clamp_mult m 100000)).
  destruct ((raw >? 0) && (m >? 0)); [|unfold_int; lia].
  revert H. generalize (mult_spec raw (clamp_mult m 100000)). unfold_int. lia.
Qed.

Lemma reprice_finish_cost (u : UnpricedUsage) (tier : string) (m : Z) (parts : CostParts) (p : LogPrices) :
  parts_ok parts ->
  let r := reprice_finish u tier m parts p in
  ru_RawCost r = Rounded parts /\
  ru_Cost r = recovered_cost (Rounded parts) (recoveryMultiplier (uu_BillingTier u) m) /\
  match uu_UpstreamMultiplierBP u with
  | None => ru_UpstreamCost r = None /\ ru_GrossProfit r = None
  | Some um =>
      ru_UpstreamCost r = Some (mult_spec (Rounded parts) (clamp_mult um 1000000)) /\
      ru_GrossProfit r = Some (ru_Cost r - mult_spec (Rounded parts) (clamp_mult um 1000000))
  end.
Proof.
  intros Hp. pose proof (rounded_range parts Hp) as R. set (raw := Rounded parts) in *.
  set (k := recoveryMultiplier (uu_BillingTier u) m).
  assert (A : forall x, ApplyMultiplier raw x = mult_spec raw (clamp_mult x 100000))
    by (intros x; apply round_multiplier_spec; lia).
  assert (B : forall x, ApplyUpstreamMultiplier raw x = mult_spec raw (clamp_mult x 1000000))
    by (intros x; apply round_multiplier_spec; lia).
  assert (C : (if (raw >? 0) && (ApplyMultiplier raw k =? 0) && (k >? 0) then 1 else ApplyMultiplier raw k)
              = recovered_cost raw k).
  { unfold recovered_cost. rewrite A. pose proof (mult_spec_range raw (clamp_mult k 100000)).
    destruct (raw >? 0) eqn:E1; cbn [andb].
    - destruct (k >? 0) eqn:E2.
      + rewrite andb_true_r. destruct (mult_spec raw (clamp_mult k 100000) =? 0) eqn:E3; lia.
      + rewrite andb_false_r. unfold mult_spec, clamp_mult, pos.
        rewrite (Z.max_l 0 k) by lia. change (Z.max 0 (Z.min 0 100000)) with 0. rewrite Z.mul_0_r. reflexivity.
    - unfold mult_spec, pos. rewrite Z.max_l by lia. reflexivity. }
  unfold reprice_finish. fold raw k. rewrite C.
  destruct (uu_UpstreamMultiplierBP u) as [um|]; cbn [ru_RawCost ru_Cost ru_UpstreamCost ru_GrossProfit]; [|auto].
  rewrite B. split; [reflexivity|]. split; [reflexivity|]. split; [reflexivity|].
  pose proof (mult_spec_range raw (clamp_mult um 1000000)).
  pose proof (recovered_cost_range raw k).
  rewrite sub64_small by (unfold_int; lia). reflexivity.
Qed.

Lemma RepriceUsage_inv (u : UnpricedUsage) (resolver : option PriceResolver) (m : Z) (r : RepricedUsage) :
  RepriceUsage u resolver m = Some r ->
  exists rp, reprice_usable u rp = true /\
    r = reprice_finish u (recoveryTier (uu_BillingTier u)) m (fst (reprice_parts u rp)) (snd (reprice_parts u rp)).
Proof.
  unfold RepriceUsage. destruct resolver as [res|]; [|discriminate].
  destruct (reprice_model u ==s ""); [discriminate|].
  destruct (res (reprice_model u) _ _ _) as [rp ok].
  destruct ((uu_Format u ==s FormatOpenAISearch) && _);
    (destruct (_ || negb (reprice_usable u _)) eqn:U; [discriminate|]);
    apply orb_false_iff in U as [_ U]; apply negb_false_iff in U;
    intros H; eexists; (split; [exact U|]);
    destruct (reprice_parts u _); injection H as <-; reflexivity.
Qed.

(** ** Properties *)

(** the recovery marker round-trips: whatever tier text a row carried and
    whatever multiplier was in force, decoding the marker gives back the
    normalized tier and exactly that multiplier (never the current one), and
    marking a marked row again changes nothing. *)
Theorem no_price_marker_roundtrip (raw : string) (m fallback : Z) (again : option Z) :
  0 <= m <= 100000 -> HasPrefix (ToLower (TrimSpace raw)) "no_price:" = false ->
  let marked := no_price_tier raw (Some m) in
  recoveryTier marked = Tier_String (NormalizeTier raw) /\
  recoveryMultiplier marked fallback = m /\
  no_price_tier marked again = marked.
Proof.
  intros Hm Hp. cbn zeta. rewrite no_price_tier_marker by assumption.
  destruct (marker_roundtrip (NormalizeTier raw) m fallback Hm) as [A B].
  split; [exact B|]. split; [exact A|]. unfold no_price_tier.
  assert (D : none_of is_space (FormatInt m) = true) by (apply FormatInt_none_of; [exact digit_not_space|lia]).
  unfold TrimSpace. rewrite trim_by_none
    by (destruct (NormalizeTier raw); unfold marker_of, String.append; cbn -[FormatInt]; exact D).
  destruct (NormalizeTier raw); reflexivity.
Qed.

Lemma no_price_marker_roundtrip_witness :
  no_price_tier " Flex" (Some 12500) = "no_price:flex:m12500" /\
  recoveryMultiplier (no_price_tier " Flex" (Some 12500)) 10000 = 12500.
Proof.
  split; [vm_compute; reflexivity|].
  exact (proj1 (proj2 (no_price_marker_roundtrip " Flex" 12500 10000 None ltac:(lia) ltac:(reflexivity)))).
Defined.

(** C31: Recovery bills what the request path would have billed, in every format.
    Take a row and the recovery row read from it (same format and counts), no
    prices written yet and none quoted before the request, and a quote [rp] that
    settles the row on the request path; for a search row, which has a default
    price, any quote and at least one call.  If the resolver answers recovery's
    question with the same quote, recovery takes the row up, and there are cost
    parts at which both charge: the recovered raw cost is their rounding and the
    request path enters exactly these parts, and the five price columns recovery
    writes are those the request path writes. *)
Theorem recovery_matches_live (h : BillingHooks) (live later : PriceResolver) (env : Env) (l : UsageLog) (u : UnpricedUsage)
    (a : Accumulator) (rp : ResolvedPrices) (m : Z) :
  hk_Resolver h = Some live -> same_usage l u -> ul_prices l = no_prices -> ul_PrecheckedPrices l = None ->
  (log_model l ==s "") = false -> (reprice_model u ==s "") = false ->
  live_quote live env l = (rp, true) ->
  later (reprice_model u) (reprice_prompt u) (recoveryTier (uu_BillingTier u)) (uu_CreatedAt u) = (rp, true) ->
  (if log_format l ==s FormatOpenAISearch then 0 <? ul_CallCount (ul_usage l) else settlementPricesUsable l rp) = true ->
  exists row parts, RepriceUsage u (Some later) m = Some row /\ ru_RawCost row = Rounded parts /\
    settles_at (Some h) env l a rp parts
      (mkPrices (ru_PriceInputMillis row) (ru_PriceOutputMillis row) (ru_PriceCacheReadMillis row)
         (ru_PriceCacheCreationMillis row) (ru_PricePerCallMillis row)).
Proof.
  intros Hh Hs Hp Hpre M M' Hq Hl Hu. set (rp' := if uu_Format u ==s FormatOpenAISearch then search_price rp else rp).
  exists (reprice_finish u (recoveryTier (uu_BillingTier u)) m (fst (reprice_parts u rp')) (snd (reprice_parts u rp'))), (fst (reprice_parts u rp')).
  pose proof (proj1 Hs) as E0. split_and!.
  - apply RepriceUsage_settled; [exact M'|exact Hl|]. rewrite E0. destruct (log_format l ==s FormatOpenAISearch) eqn:F.
    + unfold reprice_usable. rewrite E0, F. replace (log_format l ==s FormatOpenAIImages) with false.
      2:{ symmetry. destruct (log_format l ==s FormatOpenAIImages) eqn:E; [|reflexivity]. rewrite (images_not_search _ E) in F. discriminate. }
      apply orb_true_iff. right. unfold search_price. destruct (nonNegativePrice (rp_PricePerCall rp)) eqn:N; [exact N|reflexivity].
    + exact (reprice_usable_live l u rp Hs Hu).
  - unfold reprice_finish. destruct (uu_UpstreamMultiplierBP u); reflexivity.
  - assert (settles_at (Some h) env l a rp (fst (reprice_parts u rp')) (snd (reprice_parts u rp'))) as H.
    { unfold rp'. rewrite E0. destruct (log_format l ==s FormatOpenAISearch) eqn:F.
      - eapply search_row_live; eauto. lia.
      - destruct (log_format l ==s FormatOpenAIImages) eqn:F1; [eapply image_row_live|eapply token_row_live]; eauto. }
    unfold reprice_finish. destruct (uu_UpstreamMultiplierBP u); destruct (snd (reprice_parts u rp')); exact H.
Qed.

Definition sample_unpriced : UnpricedUsage :=
  mkUnpricedUsage 9 3 1 "gpt-4o" "" FormatOpenAIChat "no_price:m15000" 1000 500 1700 200 0 0
    (mkCivilTime 0 0 0) 4 (Some 8000).

Definition sample_image_log : UsageLog :=
  buildLog 1 2 "gpt-image-1" "" FormatOpenAIImages 200 ErrNone (mkTuple 0 0 0 0 0 false false 2 300 4000).
Definition sample_unpriced_image : UnpricedUsage :=
  mkUnpricedUsage 10 3 1 "gpt-image-1" "" FormatOpenAIImages "no_price:m10000" 300 4000 4300 0 0 2
    (mkCivilTime 0 0 0) 4 None.
Definition image_prices : ResolvedPrices :=
  mkResolvedPrices "image" None None None None None (Some 500000) (Some 4000000) (Some 11) None None.
Definition image_resolver : PriceResolver := fun _ _ _ _ => (image_prices, true).

Lemma recovery_matches_live_witness :
  (exists row parts, RepriceUsage sample_unpriced (Some sample_resolver) 10000 = Some row /\ ru_RawCost row = Rounded parts /\
    settles_at (Some (mkHooks (Some sample_resolver) None)) sample_env sample_log empty_acc sample_prices parts
      (mkPrices (ru_PriceInputMillis row) (ru_PriceOutputMillis row) (ru_PriceCacheReadMillis row)
         (ru_PriceCacheCreationMillis row) (ru_PricePerCallMillis row))) /\
  (exists row parts, RepriceUsage sample_unpriced_image (Some image_resolver) 10000 = Some row /\ ru_RawCost row = Rounded parts /\
    settles_at (Some (mkHooks (Some image_resolver) None)) sample_env sample_image_log empty_acc image_prices parts
      (mkPrices (ru_PriceInputMillis row) (ru_PriceOutputMillis row) (ru_PriceCacheReadMillis row)
         (ru_PriceCacheCreationMillis row) (ru_PricePerCallMillis row))).
Proof.
  split.
  - apply (recovery_matches_live (mkHooks (Some sample_resolver) None) sample_resolver sample_resolver sample_env sample_log
      sample_unpriced empty_acc sample_prices 10000); first [unfold same_usage; vm_compute; auto 10; fail | vm_compute; reflexivity].
  - apply (recovery_matches_live (mkHooks (Some image_resolver) None) image_resolver image_resolver sample_env sample_image_log
      sample_unpriced_image empty_acc image_prices 10000); first [unfold same_usage; vm_compute; auto 10; fail | vm_compute; reflexivity].
Defined.

Example recovered_image_cost : exists row, RepriceUsage sample_unpriced_image (Some image_resolver) 10000 = Some row /\ ru_RawCost row = 16172.
Proof. eexists. split; vm_compute; reflexivity. Qed.

(** A recovered row is consistent: its charge is the raw cost at the
    multiplier stored with the request, at least one unit when both are
    positive (never a permanently free row), zero for a free group; the
    upstream cost and the gross profit are computed from the same raw cost
    without wrap-around. *)
Theorem reprice_ledger_row (u : UnpricedUsage) (resolver : option PriceResolver) (m : Z) (r : RepricedUsage) :
  RepriceUsage u resolver m = Some r ->
  let k := recoveryMultiplier (uu_BillingTier u) m in
  0 <= ru_RawCost r <= max64 /\
  ru_Cost r = recovered_cost (ru_RawCost r) k /\
  (0 < ru_RawCost r -> 0 < k -> 0 < ru_Cost r) /\
  match uu_UpstreamMultiplierBP u with
  | None => ru_UpstreamCost r = None /\ ru_GrossProfit r = None
  | Some um =>
      ru_UpstreamCost r = Some (mult_spec (ru_RawCost r) (clamp_mult um 1000000)) /\
      ru_GrossProfit r = Some (ru_Cost r - mult_spec (ru_RawCost r) (clamp_mult um 1000000))
  end.
Proof.
  intros H. cbn zeta. destruct (RepriceUsage_inv u resolver m r H) as (rp & _ & E).
  pose proof (reprice_parts_ok u rp) as P.
  destruct (reprice_finish_cost u (recoveryTier (uu_BillingTier u)) m _ (snd (reprice_parts u rp)) P) as (A & B & C).
  rewrite <- E in A, B, C. rewrite A. split; [now apply rounded_range|]. split; [exact B|].
  split; [|exact C]. intros H1 H2. rewrite B. unfold recovered_cost.
  replace (_ >? 0) with true by lia. replace (_ >? 0) with true by lia. cbn [andb]. lia.
Qed.

Lemma reprice_ledger_row_witness :
  exists r, RepriceUsage sample_unpriced (Some sample_resolver) 10000 = Some r /\
            ru_Cost r = 1200 /\ ru_GrossProfit r = Some 560.
Proof.
  destruct (RepriceUsage sample_unpriced (Some sample_resolver) 10000) as [r|] eqn:E;
    [|vm_compute in E; discriminate].
  exists r. split; [reflexivity|].
  destruct (reprice_ledger_row sample_unpriced (Some sample_resolver) 10000 r E) as (_ & A & _ & _ & B).
  assert (R : ru_RawCost r = 800) by (vm_compute in E; injection E as <-; reflexivity).
  rewrite R in *. rewrite B, A. split; vm_compute; reflexivity.
Defined.
