(* ===== verification/Flusher.v ===== *)
(** * The billing cursor consumer ([batch_controller.go], [drain.go], [flusher.go])

    The flusher moves unbilled ledger rows out of the cursor: two settlement
    lanes, each running its buckets in parallel with an adaptive batch size,
    and a sweep that marks free rows.  The ledger store is the repository; it
    appears as the class [LedgerStore] of its operations with the laws its
    interface documents in [LedgerLaws].  Other goroutines and instances go on
    inserting usage rows all the while: rows arrive between any two statements
    of a lane, between lanes, between rounds, and between the fetch and the mark
    of the sweep. *)

From Stdlib Require Import ZArith Lia List Bool String.
From stdpp Require Import base option list gmap strings.
From S2P Require Import Prelude GoString Domain Cost Remainder Balances UsageBilling Reprice.
Import ListNotations.
Local Open Scope string_scope.
Local Open Scope Z_scope.

(** ** Adaptive batch size *)

Definition settleTimeBudget : Z := 8 * second.
Definition maxBatchLimit : Z := 64000.
Definition minBatchLimit : Z := 500.
Definition settleBatchLimit : Z := 8000.
Definition fetchBatchLimit : Z := 2000.
Definition settleParallelism : Z := 4.

Inductive SettleErr := DeadlineExceeded | OtherErr.

Definition batchController : Type := Z.

Definition newBatchController : Z := settleBatchLimit.

Definition observe (d : Z) (err : option SettleErr) (subscribed : bool) (cur : Z) : Z :=
  let cur :=
    match err with
    | Some DeadlineExceeded => cur [/] 2
    | None => if (d <? settleTimeBudget [/] 3) && subscribed then cur [*] 2 else cur
    | Some OtherErr => cur
    end in
  if cur <? minBatchLimit then minBatchLimit
  else if cur >? maxBatchLimit then maxBatchLimit else cur.

(** ** The ledger store *)

Class LedgerStore (DB : Type) := {
  AcquireBillingLock : DB -> option bool;
  FetchUnbilledBatch : DB -> Z -> option (list LedgerRow);
  SettleBalanceBatch : DB -> Z -> Z -> Z -> DB * (SettlementSummary * option SettleErr);
  SettleFefoBatch : DB -> Z -> Z -> Z -> DB * (SettlementSummary * option SettleErr);
  MarkBilledBulk : DB -> list Z -> DB * bool;
  FetchUnpricedBatch : DB -> Z -> option (list UnpricedUsage);
  ApplyRepricedBatch : DB -> list RepricedUsage -> DB * option Z;
  (* not called here: another goroutine's insert of an unbilled usage row, the
     identifier of which the database chooses *)
  InsertUsage : DB -> LedgerRow -> DB
}.

Section Flusher.
Context {DB : Type} `{!LedgerStore DB}.

Definition settleFn : Type := DB -> Z -> Z -> Z -> DB * (SettlementSummary * option SettleErr).

(** ** One lane

    Each bucket goroutine reads the batch limit, runs its statement (its own
    transaction) and reports back.  A schedule is any sequence of such starts
    and finishes, with rows arriving in between; a statement takes effect when it
    commits. *)

Inductive LaneEvent :=
| BucketStart (bucket : Z)
| BucketFinish (bucket : Z) (elapsed : Z)
| RowArrives (row : LedgerRow).

Record LaneState := mkLane {
  ln_db : DB;
  ln_ctl : batchController;
  ln_limits : gmap Z Z;
  ln_total : SettlementSummary;
  ln_failed : bool
}.

Definition zero_summary : SettlementSummary := mkSettlementSummary 0 0 0 0 0 [].

Definition merge_summary (t s : SettlementSummary) : SettlementSummary :=
  mkSettlementSummary (ss_BatchRows t [+] ss_BatchRows s) (ss_DebitedUsers t [+] ss_DebitedUsers s)
    (ss_ForcedUsers t [+] ss_ForcedUsers s) (ss_Marked t [+] ss_Marked s)
    (ss_Quarantined t [+] ss_Quarantined s) (ss_Balances t ++ ss_Balances s)%list.

Definition lane_step (settle : settleFn) (ln : LaneState) (ev : LaneEvent) : LaneState :=
  match ev with
  | RowArrives r => mkLane (InsertUsage (ln_db ln) r) (ln_ctl ln) (ln_limits ln) (ln_total ln) (ln_failed ln)
  | BucketStart b => mkLane (ln_db ln) (ln_ctl ln) (<[b := ln_ctl ln]> (ln_limits ln)) (ln_total ln) (ln_failed ln)
  | BucketFinish b d =>
      match ln_limits ln !! b with
      | None => ln
      | Some lim =>
          let '(db, (s, err)) := settle (ln_db ln) lim settleParallelism b in
          let ctl := observe d err (ss_BatchRows s >=? lim) (ln_ctl ln) in
          match err with
          | Some _ => mkLane db ctl (delete b (ln_limits ln)) (ln_total ln) true
          | None => mkLane db ctl (delete b (ln_limits ln)) (merge_summary (ln_total ln) s) (ln_failed ln)
          end
      end
  end.

(** The flusher's own state. *)
Record FlusherState := mkFlusher {
  fl_balanceCtl : batchController;
  fl_fefoCtl : batchController;
  fl_bal : Balances;
  fl_quarantined : Z
}.

Definition applySettlement (s : SettlementSummary) (f : FlusherState) : FlusherState :=
  mkFlusher (fl_balanceCtl f) (fl_fefoCtl f)
    (fold_left (fun b p => SetBalance (ub_UserID p) (ub_Balance p) b) (ss_Balances s) (fl_bal f))
    (if ss_Quarantined s >? 0 then fl_quarantined f [+] ss_Quarantined s else fl_quarantined f).

Definition run_lane (settle : settleFn) (sched : list LaneEvent) (ctl : batchController) (db : DB) : LaneState :=
  fold_left (lane_step settle) sched (mkLane db ctl ∅ zero_summary false).

(** ** The zero-cost sweep *)

Definition sweepable (r : LedgerRow) : bool := (lr_Cost r <=? 0) && negb (HasPrefix (lr_BillingTier r) "no_price").

(** [arriving] are the rows that arrive after the fetch. *)
Definition sweepZeroCost (arriving : list LedgerRow) (db : DB) : DB * Z :=
  let fetched := FetchUnbilledBatch db fetchBatchLimit in
  let db := fold_left InsertUsage arriving db in
  match fetched with
  | None => (db, 0)
  | Some rows =>
      let zeroIDs := List.map lr_ID (List.filter sweepable rows) in
      match zeroIDs with
      | [] => (db, 0)
      | _ => match MarkBilledBulk db zeroIDs with
             | (db', true) => (db', Z.of_nat (length zeroIDs))
             | (db', false) => (db', 0)
             end
      end
  end.

(** ** One round and the drain loop *)

Record RoundEnv := mkRound {
  rd_ctxErr : bool;             (* ctx.Err() != nil at the loop head *)
  rd_balance : list LaneEvent;  (* schedule of the balance lane *)
  rd_fefo : list LaneEvent;     (* schedule of the temp-balance lane *)
  rd_sweep : list LedgerRow;    (* rows that arrive during the sweep *)
  rd_expired : bool             (* time budget exceeded after the round *)
}.

Definition settleLaneParallel (settle : settleFn) (sched : list LaneEvent) (ctl : batchController)
    (db : DB) (f : FlusherState) : DB * batchController * FlusherState * Z :=
  let ln := run_lane settle sched ctl db in
  (ln_db ln, ln_ctl ln, applySettlement (ln_total ln) f, ss_Marked (ln_total ln)).

Definition consumeBatch (env : RoundEnv) (db : DB) (f : FlusherState) : DB * FlusherState * Z :=
  let '(db1, c1, f1, n1) := settleLaneParallel SettleBalanceBatch (rd_balance env) (fl_balanceCtl f) db f in
  let f1 := mkFlusher c1 (fl_fefoCtl f1) (fl_bal f1) (fl_quarantined f1) in
  let '(db2, c2, f2, n2) := settleLaneParallel SettleFefoBatch (rd_fefo env) (fl_fefoCtl f1) db1 f1 in
  let f2 := mkFlusher (fl_balanceCtl f2) c2 (fl_bal f2) (fl_quarantined f2) in
  let '(db3, n3) := sweepZeroCost (rd_sweep env) db2 in
  (db3, f2, (n1 [+] n2) [+] n3).

(** [env i] is what round [i] observes; [None] is running out of fuel. *)
Fixpoint drainLoop (fuel : nat) (env : nat -> RoundEnv) (i : nat) (drained : Z) (db : DB) (f : FlusherState)
    : option (DB * FlusherState * Z) :=
  match fuel with
  | O => None
  | S fuel =>
      if rd_ctxErr (env i) then Some (db, f, drained)
      else
        let '(db', f', n) := consumeBatch (env i) db f in
        if n =? 0 then Some (db', f', drained)
        else if rd_expired (env i) then Some (db', f', drained [+] n)
        else drainLoop fuel env (S i) (drained [+] n) db' f'
  end.

(** [repriceNoPrice] against the store. *)
Definition reprice_pass (resolver : option PriceResolver) (f : FlusherState) (db : DB) : DB * Z :=
  match resolver, FetchUnpricedBatch db fetchBatchLimit with
  | Some _, Some rows =>
      let repriced :=
        omap (fun row => RepriceUsage row resolver
                (EffectiveMultiplier (fl_bal f) (uu_UserID row) (uu_GroupID row))) rows in
      match repriced with
      | [] => (db, 0)
      | _ => match ApplyRepricedBatch db repriced with
             | (db', Some n) => (db', n)
             | (db', None) => (db', 0)
             end
      end
  | _, _ => (db, 0)
  end.

Definition consumeCycle (fuel : nat) (resolver : option PriceResolver) (env : nat -> RoundEnv)
    (db : DB) (f : FlusherState) : option (DB * FlusherState * Z) :=
  match AcquireBillingLock db with
  | Some true =>
      let '(db1, n) := reprice_pass resolver f db in
      match drainLoop fuel env 0 0 db1 f with
      | Some (db2, f2, m) => Some (db2, f2, n [+] m)
      | None => None
      end
  | _ => Some (db, f, 0)
  end.

End Flusher.

(** ** What the store promises *)

(** [unbilled db] is the cursor: the rows not yet billed, by identifier.  The
    laws are those of the interface comments: a settlement statement is one
    transaction (it commits, taking [Marked] rows out of the cursor, or rolls
    back), fetching returns distinct rows of the cursor, marking removes
    exactly the given rows, repricing replaces billing fields of rows that stay
    in the cursor.  Each law is about one statement at the moment it commits;
    between statements the cursor grows by inserts, each of which adds its row
    under an identifier that was not in it. *)
Class LedgerLaws (DB : Type) `{!LedgerStore DB} := {
  unbilled : DB -> gmap Z LedgerRow;
  settle_balance_law : forall db lim k b,
    let '(db', (s, err)) := SettleBalanceBatch db lim k b in
    match err with
    | None => unbilled db' ⊆ unbilled db /\ ss_Marked s = Z.of_nat (size (unbilled db)) - Z.of_nat (size (unbilled db'))
    | Some _ => unbilled db' = unbilled db
    end;
  settle_fefo_law : forall db lim k b,
    let '(db', (s, err)) := SettleFefoBatch db lim k b in
    match err with
    | None => unbilled db' ⊆ unbilled db /\ ss_Marked s = Z.of_nat (size (unbilled db)) - Z.of_nat (size (unbilled db'))
    | Some _ => unbilled db' = unbilled db
    end;
  fetch_law : forall db lim rows,
    FetchUnbilledBatch db lim = Some rows ->
    NoDup (List.map lr_ID rows) /\ Forall (fun r => unbilled db !! lr_ID r = Some r) rows;
  mark_law : forall db ids,
    let '(db', ok) := MarkBilledBulk db ids in
    unbilled db' = if ok : bool then filter (fun kv => fst kv ∉ ids) (unbilled db) else unbilled db;
  reprice_law : forall db rs, dom (unbilled (fst (ApplyRepricedBatch db rs))) = dom (unbilled db);
  insert_law : forall db r, exists id, unbilled db !! id = None /\ unbilled (InsertUsage db r) = <[id := r]> (unbilled db)
}.

(** ** Lemmas *)

Lemma NoDup_map_filter {A B} (f : A -> B) (p : A -> bool) (l : list A) :
  NoDup (List.map f l) -> NoDup (List.map f (List.filter p l)).
Proof.
  induction l as [|x l IH]; cbn; [auto|]. rewrite NoDup_cons. intros [H1 H2].
  destruct (p x); cbn; [|auto]. rewrite NoDup_cons. split; [|auto]. contradict H1.
  rewrite !list_elem_of_In, !in_map_iff in *. destruct H1 as (y & E & Hy). apply filter_In in Hy as [Hy _]. eauto.
Qed.

Lemma filter_not_in_insert {V} (m : gmap Z V) (i : Z) (ids : list Z) :
  filter (fun kv => fst kv ∉ i :: ids) m = filter (fun kv => fst kv ∉ ids) (delete i m).
Proof.
  apply map_eq. intros k. apply option_eq. intros v. rewrite !map_lookup_filter_Some, lookup_delete_Some. cbn.
  rewrite not_elem_of_cons. naive_solver.
Qed.

Lemma size_filter_not_in {V} (m : gmap Z V) (ids : list Z) :
  NoDup ids -> (forall i, i ∈ ids -> is_Some (m !! i)) ->
  (size (filter (fun kv => fst kv ∉ ids) m) = size m - length ids)%nat.
Proof.
  intros N. revert m. induction N as [|i ids Hi N IH]; intros m H; cbn [length].
  - rewrite map_filter_id; [lia|]. intros k v _. cbn. apply not_elem_of_nil.
  - rewrite filter_not_in_insert, IH.
    + rewrite map_size_delete_Some by (apply H, elem_of_cons; auto). lia.
    + intros j Hj. rewrite lookup_delete_ne by congruence. apply H, elem_of_cons. auto.
Qed.

Lemma length_keys_le_size {V} (m : gmap Z V) (ids : list Z) :
  NoDup ids -> (forall i, i ∈ ids -> is_Some (m !! i)) -> (length ids <= size m)%nat.
Proof.
  intros N. revert m. induction N as [|i ids Hi N IH]; intros m H; cbn [length]; [lia|].
  assert (S1 : is_Some (m !! i)) by (apply H, elem_of_cons; auto).
  specialize (IH (delete i m)). rewrite map_size_delete_Some in IH by exact S1.
  assert (size m <> 0%nat) by (apply map_size_ne_0_lookup; eauto).
  enough (length ids <= pred (size m))%nat by lia. apply IH.
  intros j Hj. rewrite lookup_delete_ne by congruence. apply H, elem_of_cons. auto.
Qed.

Section Proofs.
Context {DB : Type} `{!LedgerStore DB} `{!LedgerLaws DB}.

Definition pending (db : DB) : Z := Z.of_nat (size (unbilled db)).

(** A lane's settle function obeys the transaction law. *)
Definition settles (settle : settleFn (DB := DB)) : Prop :=
  forall db lim k b,
    let '(db', (s, err)) := settle db lim k b in
    match err with
    | None => unbilled db' ⊆ unbilled db /\ ss_Marked s = pending db - pending db'
    | Some _ => unbilled db' = unbilled db
    end.

Lemma subseteq_pending (a b : DB) : unbilled a ⊆ unbilled b -> pending a <= pending b.
Proof. intros H. unfold pending. apply map_subseteq_size in H. lia. Qed.

Lemma pending_nonneg (db : DB) : 0 <= pending db.
Proof. unfold pending. lia. Qed.

(** *** Arrivals *)

Lemma insert_pending (db : DB) (r : LedgerRow) :
  pending (InsertUsage db r) = pending db + 1 /\ unbilled db ⊆ unbilled (InsertUsage db r).
Proof.
  destruct (insert_law db r) as (id & Hn & E). unfold pending. rewrite E, map_size_insert_None by exact Hn.
  split; [lia|]. apply insert_subseteq, Hn.
Qed.

Lemma insert_all_pending (rows : list LedgerRow) : forall db,
  pending (fold_left InsertUsage rows db) = pending db + Z.of_nat (length rows) /\ unbilled db ⊆ unbilled (fold_left InsertUsage rows db).
Proof.
  induction rows as [|r rows IH]; intros db; cbn [fold_left length]; [split; [lia|reflexivity]|].
  destruct (insert_pending db r) as [E S], (IH (InsertUsage db r)) as [E' S']. split; [lia|]. now transitivity (unbilled (InsertUsage db r)).
Qed.

Definition lane_arrivals (sched : list LaneEvent) : Z :=
  Z.of_nat (length (List.filter (fun ev => match ev with RowArrives _ => true | _ => false end) sched)).

(** Rows that arrive in a round, and in [k] rounds from round [i] on. *)
Definition round_arrivals (env : RoundEnv) : Z :=
  lane_arrivals (rd_balance env) + lane_arrivals (rd_fefo env) + Z.of_nat (length (rd_sweep env)).

Fixpoint arrivals (env : nat -> RoundEnv) (i k : nat) : Z :=
  match k with O => 0 | S k => round_arrivals (env i) + arrivals env (S i) k end.

Lemma round_arrivals_nonneg (env : RoundEnv) : 0 <= round_arrivals env.
Proof. unfold round_arrivals, lane_arrivals. lia. Qed.

Lemma arrivals_nonneg (env : nat -> RoundEnv) (k : nat) : forall i, 0 <= arrivals env i k.
Proof. induction k as [|k IH]; intros i; cbn; [lia|]. pose proof (round_arrivals_nonneg (env i)). specialize (IH (S i)). lia. Qed.

(** *** A lane *)

(** [a] rows have arrived since [db0]; [ln_total] counts what left. *)
Definition lane_inv (db0 : DB) (a : Z) (ln : LaneState) : Prop :=
  ss_Marked (ln_total ln) = pending db0 + a - pending (ln_db ln) /\ 0 <= ss_Marked (ln_total ln).

Lemma lane_step_inv (settle : settleFn) (db0 : DB) (a : Z) (ln : LaneState) (ev : LaneEvent) :
  settles settle -> pending db0 + a <= max64 -> lane_inv db0 a ln -> lane_inv db0 (a + lane_arrivals [ev]) (lane_step settle ln ev).
Proof.
  intros Hs Hm [H1 H2]. destruct ev as [b|b d|r]; cbn [lane_step].
  - change (lane_arrivals [BucketStart b]) with 0. rewrite Z.add_0_r. split; assumption.
  - change (lane_arrivals [BucketFinish b d]) with 0. rewrite Z.add_0_r.
    destruct (ln_limits ln !! b) as [lim|]; [|split; assumption].
    specialize (Hs (ln_db ln) lim settleParallelism b).
    destruct (settle (ln_db ln) lim settleParallelism b) as [db' [s err]].
    destruct err as [e|]; unfold lane_inv; cbn [ln_db ln_total ss_Marked merge_summary].
    + unfold pending in *. rewrite Hs. auto.
    + destruct Hs as [S1 S2]. pose proof (subseteq_pending db' (ln_db ln) S1). pose proof (pending_nonneg db').
      rewrite add64_small; unfold_int; lia.
  - change (lane_arrivals [RowArrives r]) with 1. destruct (insert_pending (ln_db ln) r) as [E _].
    unfold lane_inv. cbn [ln_db ln_total]. lia.
Qed.

Lemma run_lane_inv (settle : settleFn) (sched : list LaneEvent) (ctl : batchController) (db : DB) :
  settles settle -> pending db + lane_arrivals sched <= max64 -> lane_inv db (lane_arrivals sched) (run_lane settle sched ctl db).
Proof.
  intros Hs. unfold run_lane.
  assert (I : lane_inv db 0 (mkLane db ctl ∅ zero_summary false)) by (split; cbn; lia).
  revert I. replace (lane_arrivals sched) with (0 + lane_arrivals sched) by lia. generalize 0.
  generalize (mkLane db ctl ∅ zero_summary false).
  induction sched as [|ev sched IH]; intros ln a I Hm; [now rewrite Z.add_0_r|]. cbn [fold_left].
  assert (E : lane_arrivals (ev :: sched) = lane_arrivals [ev] + lane_arrivals sched)
    by (unfold lane_arrivals; destruct ev; cbn [List.filter length]; lia).
  assert (0 <= lane_arrivals sched /\ 0 <= lane_arrivals [ev]) by (unfold lane_arrivals; lia).
  rewrite E, Z.add_assoc in *. apply IH; [|lia]. apply lane_step_inv; [exact Hs|lia|exact I].
Qed.

(** *** The sweep *)

(** The rows the sweep removes, and only those. *)
Lemma sweep_inv (arriving : list LedgerRow) (db : DB) :
  let '(db', n) := sweepZeroCost arriving db in
  n = pending db + Z.of_nat (length arriving) - pending db' /\ 0 <= n /\
  forall id r, unbilled db !! id = Some r -> unbilled db' !! id = None -> sweepable r = true.
Proof.
  unfold sweepZeroCost. destruct (insert_all_pending arriving db) as [Ea Sa]. cbv zeta.
  assert (Keep : forall id r, unbilled db !! id = Some r -> unbilled (fold_left InsertUsage arriving db) !! id = None -> sweepable r = true).
  { intros id r Hr Hn. pose proof (lookup_weaken _ _ _ _ Hr Sa). congruence. }
  destruct (FetchUnbilledBatch db fetchBatchLimit) as [rows|] eqn:F; [|split_and!; [lia|lia|exact Keep]].
  destruct (fetch_law db fetchBatchLimit rows F) as [ND FA].
  set (ids := List.map lr_ID (List.filter sweepable rows)).
  assert (I : forall id, id ∈ ids -> exists r, unbilled db !! id = Some r /\ sweepable r = true).
  { intros id Hin. unfold ids in Hin. rewrite list_elem_of_In in Hin. apply in_map_iff in Hin as (r & <- & Hr).
    apply filter_In in Hr as [Hr Hs]. exists r. rewrite Forall_forall in FA. split; [|exact Hs].
    apply FA. now apply list_elem_of_In. }
  assert (N : NoDup ids) by (unfold ids; now apply NoDup_map_filter).
  set (db1 := fold_left InsertUsage arriving db) in *.
  assert (I1 : forall id, id ∈ ids -> is_Some (unbilled db1 !! id)).
  { intros id H. destruct (I id H) as (r & Hr & _). exists r. exact (lookup_weaken _ _ _ _ Hr Sa). }
  clearbody ids. destruct ids as [|i0 ids']; [split_and!; [lia|lia|exact Keep]|].
  set (ids := i0 :: ids') in *. pose proof (mark_law db1 ids) as M.
  destruct (MarkBilledBulk db1 ids) as [db' []]; [|split_and!; [unfold pending in *; rewrite M; lia|lia|rewrite M; exact Keep]].
  pose proof (length_keys_le_size (unbilled db1) ids N I1). split_and!; [|lia|].
  - assert (pending db' = pending db1 - Z.of_nat (length ids)); [|lia].
    unfold pending. rewrite M, (size_filter_not_in (unbilled db1) ids N I1). lia.
  - intros id r Hr Hn. rewrite M, map_lookup_filter_None in Hn. pose proof (lookup_weaken _ _ _ _ Hr Sa) as Hr1.
    destruct Hn as [Hn|Hn]; [congruence|]. specialize (Hn r Hr1). cbn in Hn.
    destruct (decide (id ∈ ids)) as [Hin|]; [|contradiction]. destruct (I id Hin) as (r' & Hr' & Hs). congruence.
Qed.

(** A row that stays is as it was. *)
Lemma sweep_keeps (arriving : list LedgerRow) (db : DB) (id : Z) (r : LedgerRow) : unbilled db !! id = Some r ->
  unbilled (fst (sweepZeroCost arriving db)) !! id = Some r \/ unbilled (fst (sweepZeroCost arriving db)) !! id = None.
Proof.
  intros Hr. destruct (insert_all_pending arriving db) as [_ Sa]. pose proof (lookup_weaken _ _ _ _ Hr Sa) as Hr1.
  unfold sweepZeroCost. cbv zeta. destruct (FetchUnbilledBatch db fetchBatchLimit) as [rows|]; [|left; exact Hr1].
  set (ids := List.map _ _). clearbody ids. destruct ids as [|i0 ids']; [left; exact Hr1|].
  pose proof (mark_law (fold_left InsertUsage arriving db) (i0 :: ids')) as M.
  destruct (MarkBilledBulk _ _) as [db' []]; cbn [fst]; rewrite M; [|left; exact Hr1].
  destruct (filter _ (unbilled _) !! id) as [r'|] eqn:E; [|right; reflexivity]. left.
  apply map_lookup_filter_Some in E as [E _]. congruence.
Qed.

(** *** A round, and the loop *)

Lemma consume_inv (env : RoundEnv) (db : DB) (f : FlusherState) :
  pending db + round_arrivals env <= max64 ->
  let '(db', f', n) := consumeBatch env db f in
  n = pending db + round_arrivals env - pending db' /\ 0 <= n.
Proof.
  unfold round_arrivals. intros Hm. unfold consumeBatch, settleLaneParallel.
  assert (0 <= lane_arrivals (rd_balance env) /\ 0 <= lane_arrivals (rd_fefo env)) as [? ?] by (unfold lane_arrivals; lia).
  destruct (run_lane_inv SettleBalanceBatch (rd_balance env) (fl_balanceCtl f) db) as [A1 A2];
    [intros d l k b; apply settle_balance_law|lia|].
  set (ln1 := run_lane SettleBalanceBatch (rd_balance env) (fl_balanceCtl f) db) in *.
  cbn [fl_fefoCtl fl_bal fl_quarantined].
  set (c2 := fl_fefoCtl (applySettlement (ln_total ln1) f)).
  destruct (run_lane_inv SettleFefoBatch (rd_fefo env) c2 (ln_db ln1)) as [B1 B2];
    [intros d l k b; apply settle_fefo_law|lia|].
  set (ln2 := run_lane SettleFefoBatch (rd_fefo env) c2 (ln_db ln1)) in *.
  pose proof (sweep_inv (rd_sweep env) (ln_db ln2)) as S. destruct (sweepZeroCost _ (ln_db ln2)) as [db3 n3].
  destruct S as (S1 & S2 & _). pose proof (pending_nonneg db3).
  rewrite (add64_small (ss_Marked _)), add64_small by (unfold_int; lia). lia.
Qed.

(** After [k] rounds the loop has returned, or every round took a row away. *)
Lemma drainLoop_inv (env : nat -> RoundEnv) (f : FlusherState) (fuel : nat) : forall (i : nat) (drained : Z) (db : DB) (f : FlusherState),
  0 <= drained -> drained + pending db + arrivals env i fuel <= max64 ->
  match drainLoop fuel env i drained db f with
  | Some (db', _, n) => exists k, (k <= fuel)%nat /\ n = drained + pending db + arrivals env i k - pending db'
  | None => Z.of_nat fuel <= pending db + arrivals env i fuel /\
            forall j, (i <= j < i + fuel)%nat -> rd_ctxErr (env j) = false /\ rd_expired (env j) = false
  end.
Proof.
  clear f. induction fuel as [|fuel IH]; intros i drained db f H0 Hm; cbn [drainLoop].
  { split; [pose proof (pending_nonneg db); cbn; lia|lia]. }
  cbn [arrivals] in Hm. pose proof (arrivals_nonneg env fuel (S i)) as Ha. pose proof (round_arrivals_nonneg (env i)).
  destruct (rd_ctxErr (env i)) eqn:Ec; [exists O; cbn; split; lia|].
  pose proof (consume_inv (env i) db f) as C. destruct (consumeBatch (env i) db f) as [[db1 f1] n].
  destruct C as [C1 C2]; [lia|]. pose proof (pending_nonneg db1).
  destruct (n =? 0) eqn:N; [exists 1%nat; cbn [arrivals]; split; lia|].
  rewrite add64_small by (unfold_int; lia).
  destruct (rd_expired (env i)) eqn:Ee; [exists 1%nat; cbn [arrivals]; split; lia|].
  specialize (IH (S i) (drained + n) db1 f1 ltac:(lia) ltac:(lia)).
  destruct (drainLoop fuel env (S i) (drained + n) db1 f1) as [[[db2 f2] m]|].
  - destruct IH as (k & Hk & ->). exists (S k). cbn [arrivals]. split; lia.
  - destruct IH as [I1 I2]. cbn [arrivals]. split; [lia|]. intros j Hj.
    destruct (Nat.eq_dec j i) as [->|]; [auto|]. apply I2. lia.
Qed.

(** ** Properties *)

(** C30: the drain loop finishes although usage rows keep arriving at any moment:
    whatever the schedules of the lanes, the arrivals and the failures of
    statements, it has returned after [fuel] rounds when the time budget has
    expired or the context was cancelled in one of them, and, with neither, when
    fewer than [fuel] rows were in the cursor or arrived in them (each round that
    goes on takes a row away).  What it returns is exactly the number of rows that
    left the cursor in the rounds it ran: what was there, and what arrived, less
    what is left (all that below 2^63). *)
Theorem drain_terminates (env : nat -> RoundEnv) (db : DB) (f : FlusherState) (fuel : nat) :
  pending db + arrivals env 0 fuel <= max64 ->
  (exists j, (j < fuel)%nat /\ (rd_ctxErr (env j) = true \/ rd_expired (env j) = true)) \/
  pending db + arrivals env 0 fuel < Z.of_nat fuel ->
  exists rounds db' f', (rounds <= fuel)%nat /\
    drainLoop fuel env 0 0 db f = Some (db', f', pending db + arrivals env 0 rounds - pending db').
Proof.
  intros Hm Hstop. pose proof (drainLoop_inv env f fuel 0 0 db f ltac:(lia) ltac:(lia)) as H.
  destruct (drainLoop fuel env 0 0 db f) as [[[db' f'] n]|].
  - destruct H as (k & Hk & ->). exists k, db', f'. split; [exact Hk|reflexivity].
  - destruct H as [H1 H2]. exfalso. destruct Hstop as [(j & Hj & Hs)|]; [|lia].
    destruct (H2 j) as [E1 E2]; [lia|]. destruct Hs; congruence.
Qed.

(** the zero-cost sweep never takes a row that still has to be paid or
    priced out of the cursor: every row it removes has no positive cost and no
    "no price" marker, every other row stays, and the returned count is the
    number of removed rows. *)
Theorem sweep_only_free_rows (arriving : list LedgerRow) (db : DB) (id : Z) (r : LedgerRow) :
  let '(db', n) := sweepZeroCost arriving db in
  n = pending db + Z.of_nat (length arriving) - pending db' /\
  (unbilled db !! id = Some r -> 0 < lr_Cost r \/ HasPrefix (lr_BillingTier r) "no_price" = true ->
   unbilled db' !! id = Some r).
Proof.
  pose proof (sweep_inv arriving db) as S. destruct (sweepZeroCost arriving db) as [db' n] eqn:E. destruct S as (S1 & S2 & S3).
  split; [exact S1|]. intros Hr Hp. assert (sweepable r = false) as Hns.
  { unfold sweepable. destruct Hp as [Hp|Hp]; [apply andb_false_intro1; lia|]. rewrite Hp. apply andb_false_r. }
  pose proof (sweep_keeps arriving db id r Hr) as K. rewrite E in K. cbn [fst] in K. destruct K as [K|K]; [exact K|].
  specialize (S3 id r Hr K). congruence.
Qed.

End Proofs.

(** A store in memory: the cursor is a map, the balance lane settles the
    positive rows of its bucket, fetching returns one row. *)
Module MemStore.

Definition DB : Type := gmap Z LedgerRow.

Definition settle_bucket (db : DB) (lim k b : Z) : DB * (SettlementSummary * option SettleErr) :=
  let db' := filter (fun kv => (lr_Cost (snd kv) <=? 0) || negb (lr_UserID (snd kv) mod k =? b) = true) db in
  let n := Z.of_nat (size db) - Z.of_nat (size db') in
  (db', (mkSettlementSummary n 0 0 n 0 [], None)).

Definition fetch (db : DB) (lim : Z) : option (list LedgerRow) :=
  Some (match map_to_list (filter (fun kv => lr_ID (snd kv) = fst kv) db) with
        | [] => [] | (_, r) :: _ => [r] end).

#[export] Instance store : LedgerStore DB := {
  AcquireBillingLock _ := Some true;
  FetchUnbilledBatch := fetch;
  SettleBalanceBatch := settle_bucket;
  SettleFefoBatch db _ _ _ := (db, (zero_summary, None));
  MarkBilledBulk db ids := (filter (fun kv => fst kv ∉ ids) db, true);
  FetchUnpricedBatch _ _ := Some [];
  ApplyRepricedBatch db _ := (db, Some 0);
  InsertUsage db r := <[fresh (dom db) := r]> db
}.

#[export, refine] Instance laws : LedgerLaws DB := { unbilled db := db }.
Proof.
  - intros db lim k b. cbn. split; [apply map_filter_subseteq|reflexivity].
  - intros db lim k b. cbn. split; [reflexivity|lia].
  - intros db lim rows H. cbn in H. injection H as <-.
    destruct (map_to_list (filter _ db)) as [|[k r] l] eqn:E.
    + split; constructor.
    + assert (In1 : (k, r) ∈ map_to_list (filter (fun kv => lr_ID (snd kv) = fst kv) db)) by (rewrite E; apply elem_of_cons; auto).
      apply elem_of_map_to_list in In1. apply map_lookup_filter_Some in In1 as [L K]. cbn in K.
      split; [apply NoDup_singleton|]. constructor; [|constructor]. now rewrite K.
  - intros db ids. reflexivity.
  - intros db rs. reflexivity.
  - intros db r. exists (fresh (dom db)). split; [apply not_elem_of_dom, is_fresh|reflexivity].
Defined.

Definition row (id uid cost : Z) (tier : string) : LedgerRow := mkLedgerRow id uid cost "m" tier 0 "".

Definition sample_db : DB :=
  {[1 := row 1 4 10 "auto"; 2 := row 2 5 0 "auto"; 3 := row 3 8 0 "no_price:m10000"]}.

(** A row arrives between the buckets of every one of the first rounds, and one
    during its sweep. *)
Definition round (i : nat) : RoundEnv :=
  let arriving := if (i <? 2)%nat then [row 7 4 3 "auto"] else [] in
  mkRound false ([BucketStart 0; BucketStart 1; BucketFinish 0 second] ++ map RowArrives arriving ++ [BucketFinish 1 second])
    [] (map (fun r => row 9 5 0 "auto") arriving) false.

Definition flusher0 : FlusherState := mkFlusher newBatchController newBatchController NewBalances 0.

End MemStore.

#[local] Existing Instances MemStore.store MemStore.laws.

Lemma drain_terminates_witness :
  exists rounds db' f', (rounds <= 8)%nat /\
    drainLoop 8 MemStore.round 0 0 MemStore.sample_db MemStore.flusher0
    = Some (db', f', pending MemStore.sample_db + arrivals MemStore.round 0 rounds - pending db').
Proof.
  assert (P : pending MemStore.sample_db + arrivals MemStore.round 0 8 = 7) by (vm_compute; reflexivity).
  apply drain_terminates; [|right]; rewrite P; unfold_int; lia.
Defined.

Lemma sweep_only_free_rows_witness :
  unbilled (fst (sweepZeroCost [] MemStore.sample_db)) !! 3 = Some (MemStore.row 3 8 0 "no_price:m10000").
Proof.
  pose proof (sweep_only_free_rows [] MemStore.sample_db 3 (MemStore.row 3 8 0 "no_price:m10000")) as H.
  destruct (sweepZeroCost [] MemStore.sample_db) as [db' n]. cbn [fst].
  apply (proj2 H); [reflexivity|right; reflexivity].
Defined.

(** Why there is a budget: with one payable row arriving in every round, and
    neither budget nor cancellation, the loop goes on for ever. *)
Definition fed_round : RoundEnv :=
  mkRound false [BucketStart 0; RowArrives (MemStore.row 7 4 3 "auto"); BucketFinish 0 second] [] [] false.

Lemma fed_round_settles (f : FlusherState) : consumeBatch fed_round (∅ : MemStore.DB) f =
  let '(db, f', _) := consumeBatch fed_round (∅ : MemStore.DB) f in (∅, f', 1).
Proof. destruct f as [c1 c2 bal q]. reflexivity. Qed.

Theorem drain_unbudgeted_fed_forever (fuel : nat) (f : FlusherState) :
  drainLoop fuel (fun _ => fed_round) 0 0 (∅ : MemStore.DB) f = None.
Proof.
  assert (forall i n, drainLoop fuel (fun _ => fed_round) i n (∅ : MemStore.DB) f = None) as H; [|apply H].
  revert f. induction fuel as [|fuel IH]; intros f i n; [reflexivity|]. cbn [drainLoop].
  rewrite fed_round_settles. destruct (consumeBatch fed_round (∅ : MemStore.DB) f) as [[db f'] m]. cbn. apply IH.
Qed.

Lemma observe_range (d c : Z) (e : option SettleErr) (s : bool) :
  minBatchLimit <= observe d e s c <= maxBatchLimit.
Proof.
  unfold observe. set (x := match e with Some _ => _ | None => _ end). clearbody x.
  unfold minBatchLimit, maxBatchLimit. destruct (x <? 500) eqn:A; [lia|]. destruct (x >? 64000) eqn:B; lia.
Qed.

Lemma observe_timeout (d c : Z) (s : bool) :
  minBatchLimit <= c <= maxBatchLimit ->
  observe d (Some DeadlineExceeded) s c = Z.max minBatchLimit (c / 2).
Proof.
  intros H. unfold observe. unfold minBatchLimit, maxBatchLimit in *.
  rewrite quot64_nonneg by (unfold_int; lia). pose proof (div_mod_split c 2 ltac:(lia)).
  destruct (c / 2 <? 500) eqn:A; [lia|]. destruct (c / 2 >? 64000) eqn:B; lia.
Qed.

(** the batch size stays within its bounds under every sequence of
    observations from the seed, and [k] timeouts in a row leave
    [max 500 (cur / 2^k)], so seven timeouts always reach the floor. *)
Theorem batch_limit_adapts (obs : list (Z * option SettleErr * bool)) (k : nat) :
  let run := fold_left (fun (c : Z) '(d, e, s) => observe d e s c) in
  let cur := run obs newBatchController in
  minBatchLimit <= cur <= maxBatchLimit /\
  run (repeat (0, Some DeadlineExceeded, false) k) cur = Z.max minBatchLimit (cur / 2 ^ Z.of_nat k).
Proof.
  cbn zeta. set (run := fold_left _).
  assert (B : forall l c, minBatchLimit <= c <= maxBatchLimit -> minBatchLimit <= run l c <= maxBatchLimit).
  { unfold run. induction l as [|[[d e] s] l IH]; intros c Hc; cbn [fold_left]; [exact Hc|].
    apply IH. apply observe_range. }
  assert (C : minBatchLimit <= run obs newBatchController <= maxBatchLimit)
    by (apply B; unfold newBatchController, settleBatchLimit, minBatchLimit, maxBatchLimit; lia).
  split; [exact C|]. revert C. generalize (run obs newBatchController). clear B obs.
  unfold run. clear run. induction k as [|k IH]; intros c Hc; cbn [repeat fold_left].
  - rewrite Z.div_1_r. lia.
  - rewrite observe_timeout by exact Hc.
    assert (Hh : 0 <= c / 2 <= maxBatchLimit) by (pose proof (div_mod_split c 2 ltac:(lia)); unfold minBatchLimit, maxBatchLimit in *; lia).
    rewrite IH by (unfold minBatchLimit, maxBatchLimit in *; lia).
    rewrite Nat2Z.inj_succ, Z.pow_succ_r, <- Z.div_div by lia.
    destruct (Z.le_gt_cases minBatchLimit (c / 2)) as [G|G];
      [rewrite (Z.max_r minBatchLimit (c / 2)) by lia; reflexivity|].
    rewrite (Z.max_l minBatchLimit (c / 2)) by lia.
    assert (P : 0 < 2 ^ Z.of_nat k) by (apply Z.pow_pos_nonneg; lia).
    assert (c / 2 / 2 ^ Z.of_nat k <= c / 2) by (apply Z.div_le_upper_bound; nia).
    assert (minBatchLimit / 2 ^ Z.of_nat k <= minBatchLimit)
      by (apply Z.div_le_upper_bound; [lia|unfold minBatchLimit; nia]). lia.
Qed.

(** a slow successful statement leaves the batch size as it is; only a
    timeout shrinks it and only a fast full batch grows it. *)
Theorem observe_slow_keeps (d cur : Z) (s : bool) :
  minBatchLimit <= cur <= maxBatchLimit -> settleTimeBudget / 3 <= d -> observe d None s cur = cur.
Proof.
  intros Hc Hd. unfold observe.
  rewrite quot64_nonneg by (unfold settleTimeBudget, second; unfold_int; lia).
  replace (d <? settleTimeBudget / 3) with false by lia. cbn [andb].
  replace (cur <? minBatchLimit) with false by lia. now replace (cur >? maxBatchLimit) with false by lia.
Qed.

Lemma observe_slow_keeps_witness : observe (7 * second) None true 8000 = 8000.
Proof. apply (observe_slow_keeps (7 * second) 8000 true); [vm_compute; split; discriminate|vm_compute; discriminate]. Defined.
