(* ===== verification/Gate.v ===== *)
(** * Concurrency and quota gate ([internal/proxy/gate.go], [concsync.go], [limit.go])

    Per user and per key in-flight counters with a cluster-wide share, token
    quota budgets with re-checks against the database, and the per-group window
    limiter.  Each operation runs here against one snapshot, its atomic
    operations in program order; [GateConc] interleaves them. *)

From Stdlib Require Import ZArith Lia List Bool String Ascii.
From stdpp Require Import base option list gmap strings.
From S2P Require Import Prelude GoString Domain.
Import ListNotations.
Local Open Scope string_scope.
Local Open Scope Z_scope.

(** ** Arithmetic *)

Definition maxQuotaInt64 : Z := max64.

Definition ceilDiv (a b : Z) : Z :=
  if (a <=? 0) || (b <=? 0) then 0
  else
    let q := a [/] b in
    if negb (a [%] b =? 0) then q [+] 1 else q.

Definition saturatingQuotaAdd (a b : Z) : Z :=
  let a := if a <? 0 then 0 else a in
  if b <=? 0 then a else if a >? maxQuotaInt64 [-] b then maxQuotaInt64 else a [+] b.

(** The CAS loops, run without interference. *)
Definition addQuotaTokens (cur delta : Z) : Z :=
  if delta <=? 0 then cur
  else
    let cur := if cur <? 0 then 0 else cur in
    if cur >? maxQuotaInt64 [-] delta then maxQuotaInt64 else cur [+] delta.

Definition incCounter (cur : Z) : Z :=
  let cur := if cur <? 0 then 0 else cur in
  if cur >=? maxQuotaInt64 then cur else cur [+] 1.

Definition casInc (cur max : Z) : option Z := if cur >=? max then None else Some (cur [+] 1).

Definition decNonNegative (cur : Z) : Z := if cur <=? 0 then cur else cur [-] 1.

(** ** Cluster view ([concsync.go]) *)

Definition concFieldStale : Z := 4 * second.
Definition concViewStale : Z := 4 * second.

Record concSnap := mkConcSnap { total : Z; selfLast : Z; sn_at : Time }.
Record clusterView := mkClusterView { cv_users : gmap Z concSnap; cv_keys : gmap Z concSnap }.

Definition concShare (limit n : Z) : Z := let s := limit [/] n in if s >? 0 then s else 1.

Definition concAllows (cluster : option clusterView) (now : Time) (isKey : bool) (id limit lnow : Z) : bool :=
  match cluster with
  | None => lnow <=? limit
  | Some cv =>
      match (if isKey then cv_keys cv else cv_users cv) !! id with
      | None => lnow <=? limit
      | Some snap =>
          if now [-] sn_at snap >=? concViewStale then lnow <=? limit
          else (total snap [-] selfLast snap) [+] lnow <? limit
      end
  end.

(** [parseConcValue]: "<inflight> <unixmilli>". *)
Definition parseConcValue (raw : string) : option (Z * Z) :=
  let? (lhs, rhs) := Cut raw " " in
  let? inflight := ParseInt lhs in
  if inflight <? 0 then None
  else let? ts := ParseInt rhs in Some (inflight, ts).

(** One object of [tick]: the snapshot built from the fields of its hash. *)
Definition aggregate (now nowMS val : Z) (fields : list string) : concSnap :=
  let sum := fold_left (fun acc raw =>
    match parseConcValue raw with
    | Some (inflight, ts) => if ts <? nowMS [-] (concFieldStale [/] millisecond) then acc else acc [+] inflight
    | None => acc
    end) fields 0 in
  mkConcSnap sum val now.

Definition report (val nowMS : Z) : string := FormatInt val +:+ " " +:+ FormatInt nowMS.

(** ** Quotas *)

Definition quotaReclaimRetry : Z := 10 * second.

Record keyQuota := mkQuota {
  consumed : Z;
  budget : Z;
  reclaiming : bool;
  exhausted : bool;
  retryAt : Time;
  quotaUsedAtReclaim : Z
}.

Definition new_quota (c : Z) : keyQuota := mkQuota c 0 false false 0 0.

Definition allocBudget (n : Z) (q : keyQuota) (meta : KeyMeta) : keyQuota :=
  if (km_Quota meta <=? 0) || (km_QuotaUsed meta <? 0) || (km_QuotaUsed meta >=? km_Quota meta)
  then mkQuota (consumed q) (consumed q) (reclaiming q) true (retryAt q) (quotaUsedAtReclaim q)
  else
    let remaining := km_Quota meta [-] km_QuotaUsed meta in
    mkQuota (consumed q) (saturatingQuotaAdd (consumed q) (ceilDiv remaining n)) (reclaiming q) false
      (retryAt q) (km_QuotaUsed meta).

(** The database read of a re-check: no reader, an error, or a value. *)
Inductive QuotaRead := NoReader | ReadError | ReadUsed (used : Z).

Definition set_exhausted (q : keyQuota) : keyQuota :=
  mkQuota (consumed q) (budget q) (reclaiming q) true (retryAt q) (quotaUsedAtReclaim q).

(** [reclaim]: the new state and whether the request is admitted. *)
Definition reclaim (n : Z) (now : Time) (db : QuotaRead) (meta : KeyMeta) (q : keyQuota) : keyQuota * bool :=
  if reclaiming q then (q, consumed q <? budget q)
  else if exhausted q then (q, false)
  else if retryAt q >? now then (q, false)
  else
    match db with
    | NoReader => (set_exhausted q, false)
    | ReadError =>
        (mkQuota (consumed q) (saturatingQuotaAdd (consumed q) 1) (reclaiming q) (exhausted q)
           (now [+] quotaReclaimRetry) (quotaUsedAtReclaim q), true)
    | ReadUsed used =>
        if (used <? 0) || (used >=? km_Quota meta) then (set_exhausted q, false)
        else
          let remaining := km_Quota meta [-] used in
          if remaining >? 0 then
            let c := if consumed q <? 0 then maxQuotaInt64 else consumed q in
            let baseline := if quotaUsedAtReclaim q <? 0 then 0 else quotaUsedAtReclaim q in
            let unreported := c [-] baseline in
            let unreported := if unreported <? 0 then 0 else unreported in
            let remainingEff := remaining [-] unreported in
            if remainingEff >? 0 then
              (mkQuota (consumed q) (saturatingQuotaAdd c (ceilDiv remainingEff n)) (reclaiming q) (exhausted q)
                 (retryAt q) used, true)
            else (set_exhausted q, false)
          else (set_exhausted q, false)
    end.

(** ** The gate *)

Record Gate := mkGate {
  g_users : gmap Z Z;
  g_keys : gmap Z Z;
  g_quotas : gmap Z keyQuota;
  g_cluster : option clusterView;
  g_instances : option Z
}.

Definition instancesN (g : Gate) : Z :=
  match g_instances g with Some n => if n >? 0 then n else 1 | None => 1 end.

Definition set_users (g : Gate) (u : gmap Z Z) : Gate :=
  mkGate u (g_keys g) (g_quotas g) (g_cluster g) (g_instances g).
Definition set_keys (g : Gate) (k : gmap Z Z) : Gate :=
  mkGate (g_users g) k (g_quotas g) (g_cluster g) (g_instances g).
Definition set_quotas (g : Gate) (q : gmap Z keyQuota) : Gate :=
  mkGate (g_users g) (g_keys g) q (g_cluster g) (g_instances g).

(** The user layer: count first, then check. *)
Definition acquire_user (now : Time) (meta : KeyMeta) (g : Gate) : Gate * bool * bool :=
  match g_users g !! km_UserID meta with
  | None => (g, false, true)
  | Some c =>
      let c1 := incCounter c in
      let limit := km_UserMaxConc meta in
      if (limit >? 0) && (c1 >? concShare limit (instancesN g))
         && negb (concAllows (g_cluster g) now false (km_UserID meta) limit c1)
      then (set_users g (<[km_UserID meta := decNonNegative c1]> (g_users g)), false, false)
      else (set_users g (<[km_UserID meta := c1]> (g_users g)), true, true)
  end.

(** The key layer: a slot within the share, else one borrowed under the true
    limit when the cluster view allows it. *)
Definition take_key (now : Time) (meta : KeyMeta) (g : Gate) (c : Z) : option Z :=
  match casInc c (concShare (km_KeyMaxConc meta) (instancesN g)) with
  | Some c' => Some c'
  | None =>
      if concAllows (g_cluster g) now true (km_KeyID meta) (km_KeyMaxConc meta) (saturatingQuotaAdd c 1)
      then casInc c (km_KeyMaxConc meta) else None
  end.

(** [acquire] returns the level bits (1 = user, 2 = key) and admission. *)
Definition acquire (now : Time) (meta : KeyMeta) (g : Gate) : Gate * (Z * bool) :=
  let '(g1, user, ok) := acquire_user now meta g in
  let level := if user then 1 else 0 in
  if negb ok then (g1, (0, false))
  else if km_KeyMaxConc meta >? 0 then
    match g_keys g1 !! km_KeyID meta with
    | None => (g1, (level, true))
    | Some c =>
        match take_key now meta g c with
        | Some c' => (set_keys g1 (<[km_KeyID meta := c']> (g_keys g1)), (level + 2, true))
        | None =>
            let g2 := if user then
                        match g_users g1 !! km_UserID meta with
                        | Some u => set_users g1 (<[km_UserID meta := decNonNegative u]> (g_users g1))
                        | None => g1
                        end
                      else g1 in
            (g2, (0, false))
        end
    end
  else (g1, (level, true)).

Definition release (meta : KeyMeta) (level : Z) (g : Gate) : Gate :=
  let g1 := if Z.testbit level 0 then
              match g_users g !! km_UserID meta with
              | Some c => set_users g (<[km_UserID meta := decNonNegative c]> (g_users g))
              | None => g
              end else g in
  if Z.testbit level 1 then
    match g_keys g1 !! km_KeyID meta with
    | Some c => set_keys g1 (<[km_KeyID meta := decNonNegative c]> (g_keys g1))
    | None => g1
    end else g1.

(** [quotaExhausted]: the new gate and whether the request is refused. *)
Definition quotaExhausted (now : Time) (db : QuotaRead) (meta : KeyMeta) (g : Gate) : Gate * bool :=
  if negb (km_HasQuota meta) then (g, false)
  else if (km_Quota meta <=? 0) || (km_QuotaUsed meta <? 0) then (g, true)
  else
    match g_quotas g !! km_KeyID meta with
    | None => (g, km_QuotaUsed meta >=? km_Quota meta)
    | Some q =>
        if exhausted q then (g, true)
        else if consumed q <? budget q then (g, false)
        else
          let '(q', ok) := reclaim (instancesN g) now db meta q in
          (set_quotas g (<[km_KeyID meta := q']> (g_quotas g)), negb ok)
    end.

Definition deductQuota (keyID tokens : Z) (g : Gate) : Gate :=
  if (keyID <=? 0) || (tokens <=? 0) then g
  else
    match g_quotas g !! keyID with
    | None => g
    | Some q => set_quotas g (<[keyID := mkQuota (addQuotaTokens (consumed q) tokens) (budget q)
                                (reclaiming q) (exhausted q) (retryAt q) (quotaUsedAtReclaim q)]> (g_quotas g))
    end.

(** *** Rebuilding the snapshot *)

Definition quota_base (meta : KeyMeta) : Z :=
  if km_QuotaUsed meta <? 0 then km_Quota meta else km_QuotaUsed meta.

Definition reload_meta (old : Gate) (snap : Gate) (meta : KeyMeta) : Gate :=
  let users := match g_users snap !! km_UserID meta with
               | Some _ => g_users snap
               | None => <[km_UserID meta := default 0 (g_users old !! km_UserID meta)]> (g_users snap)
               end in
  let keys := <[km_KeyID meta := default 0 (g_keys old !! km_KeyID meta)]> (g_keys snap) in
  let quotas :=
    if km_HasQuota meta then
      let c := match g_quotas old !! km_KeyID meta with Some o => consumed o | None => quota_base meta end in
      <[km_KeyID meta := allocBudget (instancesN old) (new_quota c) meta]> (g_quotas snap)
    else g_quotas snap in
  mkGate users keys quotas (g_cluster old) (g_instances old).

Definition reload (metas : list KeyMeta) (g : Gate) : Gate :=
  fold_left (reload_meta g) metas (mkGate ∅ ∅ ∅ (g_cluster g) (g_instances g)).

Definition upsert (meta : KeyMeta) (g : Gate) : Gate :=
  let users := match g_users g !! km_UserID meta with
               | Some _ => g_users g | None => <[km_UserID meta := 0]> (g_users g) end in
  let keys := match g_keys g !! km_KeyID meta with
              | Some _ => g_keys g | None => <[km_KeyID meta := 0]> (g_keys g) end in
  let quotas :=
    if km_HasQuota meta then
      let q := match g_quotas g !! km_KeyID meta with Some q => q | None => new_quota (quota_base meta) end in
      <[km_KeyID meta := allocBudget (instancesN g) q meta]> (g_quotas g)
    else delete (km_KeyID meta) (g_quotas g) in
  mkGate users keys quotas (g_cluster g) (g_instances g).

Definition delete_key (keyID : Z) (g : Gate) : Gate :=
  match g_keys g !! keyID with
  | None => g
  | Some _ => mkGate (g_users g) (delete keyID (g_keys g)) (delete keyID (g_quotas g)) (g_cluster g) (g_instances g)
  end.

(** ** Group rate limiter ([limit.go]) *)

Record windowState := mkWindow { w_start : Time; w_count : Z; w_limit : Z }.

Definition localLimit (rpm : Z) (instances : option Z) : Z :=
  ceilDiv rpm (match instances with Some v => if v >? 0 then v else 1 | None => 1 end).

Definition Allow (rpm : Z) (instances : option Z) (groupID : Z) (now : Time) (win : gmap Z windowState)
    : gmap Z windowState * bool :=
  if rpm <=? 0 then (win, true)
  else
    match win !! groupID with
    | None => (<[groupID := mkWindow now 1 (localLimit rpm instances)]> win, true)
    | Some st =>
        if now [-] w_start st >=? minute
        then (<[groupID := mkWindow now 1 (localLimit rpm instances)]> win, true)
        else
          let c := w_count st [+] 1 in
          (<[groupID := mkWindow (w_start st) c (w_limit st)]> win, c <=? w_limit st)
    end.

(** ** Lemmas *)

Lemma ceilDiv_spec (a b : Z) : 0 < a <= max64 -> 0 < b ->
  let q := ceilDiv a b in a <= q * b < a + b /\ 1 <= q <= a.
Proof.
  intros Ha Hb. cbn zeta. unfold ceilDiv. replace ((a <=? 0) || (b <=? 0)) with false by lia.
  rewrite quot64_nonneg, rem64_nonneg by lia.
  pose proof (div_mod_split a b Hb) as [E M].
  assert (0 <= a / b) by (apply Z.div_pos; lia).
  destruct (a mod b =? 0) eqn:R; cbn [negb].
  - split; [|split]; nia.
  - assert (a / b < a) by nia.
    rewrite add64_small by (unfold_int; lia). split; [|split]; nia.
Qed.

Lemma concShare_range (limit n : Z) : 0 < limit <= max64 -> 1 <= n -> 1 <= concShare limit n <= limit.
Proof.
  intros Hl Hn. unfold concShare. rewrite quot64_nonneg by lia.
  assert (limit / n <= limit) by (apply Z.div_le_upper_bound; nia).
  destruct (limit / n >? 0) eqn:E; lia.
Qed.

(** Counters in their working range. *)
Definition counters_ok (m : gmap Z Z) : Prop := map_Forall (fun _ c => 0 <= c < 2 ^ 61) m.

Lemma counters_range (m : gmap Z Z) (k c : Z) :
  counters_ok m -> m !! k = Some c -> 0 <= c < 2305843009213693952.
Proof. intros H E. exact (map_Forall_lookup_1 _ _ _ _ H E). Qed.

Lemma inc_dec (c : Z) : 0 <= c < max64 -> incCounter c = c + 1 /\ decNonNegative (incCounter c) = c.
Proof.
  intros H. unfold incCounter, maxQuotaInt64. replace (c <? 0) with false by lia.
  replace (c >=? max64) with false by lia. rewrite add64_small by (unfold_int; lia).
  split; [reflexivity|]. unfold decNonNegative. replace (c + 1 <=? 0) with false by lia.
  rewrite sub64_small by (unfold_int; lia). lia.
Qed.

Lemma casInc_spec (c m : Z) : 0 <= c < max64 ->
  casInc c m = if c >=? m then None else Some (c + 1).
Proof. intros H. unfold casInc. destruct (c >=? m); [reflexivity|]. now rewrite add64_small by (unfold_int; lia). Qed.

Lemma dec_succ (c : Z) : 0 <= c < max64 -> decNonNegative (c + 1) = c.
Proof.
  intros H. unfold decNonNegative. replace (c + 1 <=? 0) with false by lia.
  rewrite sub64_small by (unfold_int; lia). lia.
Qed.

Lemma insert_back (m : gmap Z Z) (k c c' : Z) : m !! k = Some c -> <[k := c]> (<[k := c']> m) = m.
Proof. intros H. rewrite insert_insert_eq. now apply insert_id. Qed.

Lemma set_users_id (g : Gate) : set_users g (g_users g) = g.
Proof. now destruct g. Qed.
Lemma set_keys_id (g : Gate) : set_keys g (g_keys g) = g.
Proof. now destruct g. Qed.

(** The user layer: refused means unchanged; admitted means one more. *)
Lemma acquire_user_spec (now : Time) (meta : KeyMeta) (g : Gate) :
  counters_ok (g_users g) ->
  let '(g1, user, ok) := acquire_user now meta g in
  (ok = false -> g1 = g /\ user = false) /\
  (ok = true ->
   (user = false /\ g1 = g /\ g_users g !! km_UserID meta = None) \/
   (user = true /\ exists c, g_users g !! km_UserID meta = Some c /\
      g1 = set_users g (<[km_UserID meta := c + 1]> (g_users g)) /\
      (0 < km_UserMaxConc meta -> c + 1 <= concShare (km_UserMaxConc meta) (instancesN g) \/
        concAllows (g_cluster g) now false (km_UserID meta) (km_UserMaxConc meta) (c + 1) = true))).
Proof.
  intros Hc. unfold acquire_user. destruct (g_users g !! km_UserID meta) as [c|] eqn:E; [|split; [discriminate|auto]].
  pose proof (counters_range _ _ _ Hc E) as R. destruct (inc_dec c) as [I D]; [unfold_int; lia|]. rewrite D, I.
  destruct (_ && _ && _) eqn:T.
  - split; [|discriminate]. intros _. split; [|reflexivity]. rewrite insert_id by exact E. apply set_users_id.
  - split; [discriminate|]. intros _. right. split; [reflexivity|]. exists c. split; [reflexivity|].
    split; [reflexivity|]. intros L.
    replace (km_UserMaxConc meta >? 0) with true in T by lia. cbn [andb] in T.
    destruct (c + 1 >? concShare (km_UserMaxConc meta) (instancesN g)) eqn:S; [|left; lia].
    right. cbn [andb] in T. now apply negb_false_iff in T.
Qed.

(** A view in which every object's own report is part of its total. *)
Definition snap_ok (s : concSnap) : Prop := 0 <= selfLast s <= total s /\ total s < 2 ^ 61.
Definition view_ok (cv : option clusterView) : Prop :=
  match cv with
  | None => True
  | Some cv => map_Forall (fun _ => snap_ok) (cv_users cv) /\ map_Forall (fun _ => snap_ok) (cv_keys cv)
  end.

Lemma concAllows_bound (cv : option clusterView) (now : Time) (isKey : bool) (id limit lnow : Z) :
  view_ok cv -> 0 <= lnow <= 2305843009213693952 ->
  concAllows cv now isKey id limit lnow = true -> lnow <= limit.
Proof.
  intros Hv Hl. unfold concAllows. destruct cv as [cv|]; [|lia].
  destruct ((if isKey then cv_keys cv else cv_users cv) !! id) as [s|] eqn:E; [|lia].
  assert (S : snap_ok s)
    by (destruct Hv as [H1 H2]; destruct isKey; [exact (map_Forall_lookup_1 _ _ _ _ H2 E)|exact (map_Forall_lookup_1 _ _ _ _ H1 E)]).
  destruct S as [S1 S2]. change (2 ^ 61) with 2305843009213693952 in S2.
  destruct (now [-] sn_at s >=? concViewStale); [lia|].
  rewrite (sub64_small (total s) (selfLast s)) by (unfold_int; lia).
  rewrite (add64_small (total s - selfLast s) lnow) by (unfold_int; lia). lia.
Qed.

Definition limits_ok (meta : KeyMeta) : Prop := km_UserMaxConc meta <= max64 /\ km_KeyMaxConc meta <= max64.

Lemma instancesN_pos (g : Gate) : 1 <= instancesN g.
Proof. unfold instancesN. destruct (g_instances g) as [n|]; [|lia]. destruct (n >? 0) eqn:E; lia. Qed.

Lemma share_or_view (cv : option clusterView) (now : Time) (isKey : bool) (id limit n c : Z) :
  view_ok cv -> 0 < limit <= max64 -> 1 <= n -> 0 <= c < 2305843009213693952 ->
  c + 1 <= concShare limit n \/ concAllows cv now isKey id limit (c + 1) = true -> c + 1 <= limit.
Proof.
  intros Hv Hl Hn Hc [H|H].
  - pose proof (concShare_range limit n Hl Hn). lia.
  - eapply concAllows_bound; [exact Hv| |exact H]. lia.
Qed.

Lemma take_key_spec (now : Time) (meta : KeyMeta) (g : Gate) (c c' : Z) :
  0 < km_KeyMaxConc meta <= max64 -> 0 <= c < 2305843009213693952 ->
  take_key now meta g c = Some c' -> c' = c + 1 /\ c + 1 <= km_KeyMaxConc meta.
Proof.
  intros Hk Hc. unfold take_key. rewrite !casInc_spec by (unfold_int; lia).
  pose proof (concShare_range (km_KeyMaxConc meta) (instancesN g) Hk (instancesN_pos g)).
  destruct (c >=? concShare _ _) eqn:A; [|intros E; injection E as <-; lia].
  destruct (concAllows _ _ _ _ _ _); [|discriminate].
  destruct (c >=? km_KeyMaxConc meta) eqn:B; [discriminate|]. intros E. injection E as <-. lia.
Qed.

(** Releasing the key slot and then the user slot. *)
Lemma release_both (meta : KeyMeta) (g g1 : Gate) (user : bool) (c : Z) :
  release meta (if user then 1 else 0) g1 = g -> g_keys g1 = g_keys g ->
  g_keys g !! km_KeyID meta = Some c -> 0 <= c < 2305843009213693952 ->
  release meta ((if user then 1 else 0) + 2) (set_keys g1 (<[km_KeyID meta := c + 1]> (g_keys g))) = g.
Proof.
  intros RB KB E R. unfold release in *. destruct g as [gu gk gq gc gi], g1 as [u k q cl i].
  cbn in E, KB. subst k.
  assert (T : Z.testbit ((if user then 1 else 0) + 2) 0 = user /\ Z.testbit ((if user then 1 else 0) + 2) 1 = true /\
              Z.testbit (if user then 1 else 0) 0 = user /\ Z.testbit (if user then 1 else 0) 1 = false)
    by (destruct user; repeat split; reflexivity).
  destruct T as (T1 & T2 & T3 & T4). rewrite T1, T2. rewrite T3, T4 in RB.
  destruct user; cbn in *; [destruct (u !! km_UserID meta) as [cu|]|]; cbn in *;
    rewrite lookup_insert_eq, dec_succ by (unfold_int; lia); rewrite (insert_back _ _ _ _ E); exact RB.
Qed.

Lemma acquire_user_bound (now : Time) (meta : KeyMeta) (g : Gate) (c : Z) :
  counters_ok (g_users g) -> view_ok (g_cluster g) -> km_UserMaxConc meta <= max64 ->
  g_users g !! km_UserID meta = Some c ->
  (0 < km_UserMaxConc meta -> c + 1 <= concShare (km_UserMaxConc meta) (instancesN g) \/
     concAllows (g_cluster g) now false (km_UserID meta) (km_UserMaxConc meta) (c + 1) = true) ->
  0 < km_UserMaxConc meta -> c + 1 <= km_UserMaxConc meta.
Proof.
  intros Hu Hv HL E H Hp. pose proof (counters_range _ _ _ Hu E).
  eapply share_or_view; [exact Hv|lia|exact (instancesN_pos g)|lia|exact (H Hp)].
Qed.

Lemma acquire_spec (now : Time) (meta : KeyMeta) (g : Gate) :
  counters_ok (g_users g) -> counters_ok (g_keys g) -> view_ok (g_cluster g) -> limits_ok meta ->
  let '(g', (level, ok)) := acquire now meta g in
  (ok = false -> g' = g /\ level = 0) /\
  (ok = true -> (forall c, g_users g !! km_UserID meta = Some c -> 0 < km_UserMaxConc meta -> c + 1 <= km_UserMaxConc meta) /\
     release meta level g' = g /\
     (0 < km_KeyMaxConc meta -> forall c, g_keys g' !! km_KeyID meta = Some c -> c <= km_KeyMaxConc meta)).
Proof.
  intros Hu Hk Hv [L1 L2]. unfold acquire. pose proof (acquire_user_spec now meta g Hu) as U.
  destruct (acquire_user now meta g) as [[g1 user] ok]. destruct ok; cbn [negb].
  2:{ destruct U as [U _]. destruct (U eq_refl) as [-> ->]. split; [auto|discriminate]. }
  destruct U as [_ U]. specialize (U eq_refl).
  assert (UB : forall c, g_users g !! km_UserID meta = Some c -> 0 < km_UserMaxConc meta -> c + 1 <= km_UserMaxConc meta).
  { intros c E Hp. destruct U as [(_ & _ & N)|(_ & c0 & E0 & _ & B)]; [congruence|].
    assert (c0 = c) as -> by congruence. exact (acquire_user_bound now meta g c Hu Hv L1 E B Hp). }
  assert (RB : release meta (if user then 1 else 0) g1 = g /\ g_keys g1 = g_keys g).
  { destruct U as [(-> & -> & _)|(-> & c & E & -> & _)]; [split; reflexivity|]. split; [|reflexivity].
    unfold release. cbn [Z.testbit]. cbn [set_users g_users]. rewrite lookup_insert_eq.
    pose proof (counters_range _ _ _ Hu E). rewrite dec_succ by (unfold_int; lia).
    rewrite (insert_back _ _ _ _ E). destruct g; reflexivity. }
  destruct RB as [RB KB]. rewrite KB.
  destruct (km_KeyMaxConc meta >? 0) eqn:K; [|split; [discriminate|]; intros _; split; [exact UB|]; split; [exact RB|lia]].
  destruct (g_keys g !! km_KeyID meta) as [c|] eqn:E;
    [|split; [discriminate|]; intros _; split; [exact UB|]; split; [exact RB|]; rewrite KB, E; discriminate].
  pose proof (counters_range _ _ _ Hk E) as R.
  destruct (take_key now meta g c) as [c'|] eqn:T.
  - destruct (take_key_spec now meta g c c') as [-> B]; [lia|lia|exact T|].
    split; [discriminate|]. intros _. split; [exact UB|]. split.
    + exact (release_both meta g g1 user c RB KB E R).
    + intros _ x. cbn [set_keys g_keys]. rewrite lookup_insert_eq. intros X. injection X as <-. exact B.
  - split; [|discriminate]. intros _. split; [|reflexivity].
    destruct U as [(-> & -> & _)|(-> & cu & Eu & -> & _)]; [reflexivity|].
    cbn [set_users g_users]. rewrite lookup_insert_eq. pose proof (counters_range _ _ _ Hu Eu).
    rewrite dec_succ by (unfold_int; lia). rewrite (insert_back _ _ _ _ Eu). destruct g; reflexivity.
Qed.

(** *** Quotas *)

(** A quota entry whose baseline is a value the database reported. *)
Definition quota_ok (q : keyQuota) : Prop :=
  0 <= quotaUsedAtReclaim q <= consumed q /\ consumed q <= max64.

Lemma saturatingQuotaAdd_spec (a b : Z) :
  0 <= a <= max64 -> 0 <= b <= max64 -> saturatingQuotaAdd a b = Z.min max64 (a + b).
Proof.
  intros Ha Hb. unfold saturatingQuotaAdd, maxQuotaInt64. replace (a <? 0) with false by lia.
  destruct (b <=? 0) eqn:E; [lia|]. rewrite sub64_small by (unfold_int; lia).
  destruct (a >? max64 - b) eqn:G; [lia|]. rewrite add64_small by (unfold_int; lia). lia.
Qed.

Lemma reclaim_read_spec (n : Z) (now : Time) (used : Z) (meta : KeyMeta) (q : keyQuota) :
  quota_ok q -> 1 <= n -> km_Quota meta <= max64 -> quotaUsedAtReclaim q <= used ->
  reclaiming q = false -> exhausted q = false -> retryAt q <= now ->
  let '(q', ok) := reclaim n now (ReadUsed used) meta q in
  let left := km_Quota meta - used - (consumed q - quotaUsedAtReclaim q) in
  ok = (0 <? left) /\
  (ok = true -> consumed q < budget q' <= km_Quota meta /\ budget q' = consumed q + ceilDiv left n) /\
  (ok = false -> exhausted q' = true) /\ consumed q' = consumed q.
Proof.
  intros [[B1 B2] B3] Hn HQ HU R1 R2 R3. unfold reclaim. rewrite R1, R2.
  replace (retryAt q >? now) with false by lia.
  destruct ((used <? 0) || (used >=? km_Quota meta)) eqn:E.
  { split; [lia|]. split; [discriminate|]. split; reflexivity. }
  rewrite sub64_small by (unfold_int; lia).
  replace (km_Quota meta - used >? 0) with true by lia.
  replace (consumed q <? 0) with false by lia. replace (quotaUsedAtReclaim q <? 0) with false by lia.
  rewrite (sub64_small (consumed q)) by (unfold_int; lia).
  replace (consumed q - quotaUsedAtReclaim q <? 0) with false by lia.
  rewrite sub64_small by (unfold_int; lia).
  set (left := km_Quota meta - used - (consumed q - quotaUsedAtReclaim q)).
  destruct (left >? 0) eqn:L.
  - split; [lia|]. split; [|split; [discriminate|reflexivity]]. intros _. cbn [budget].
    destruct (ceilDiv_spec left n) as [C1 C2]; [unfold left in *; lia|lia|].
    rewrite saturatingQuotaAdd_spec by (unfold left in *; lia). unfold left in *. lia.
  - split; [lia|]. split; [discriminate|]. split; reflexivity.
Qed.

(** *** Reports *)

Lemma Cut_space (p r : string) : none_of is_space p = true -> Cut (p +:+ " " +:+ r) " " = Some (p, r).
Proof.
  induction p as [|c p IH]; intros H; [reflexivity|]. cbn [none_of] in H. apply andb_true_iff in H as [H1 H2].
  change (String c p +:+ " " +:+ r) with (String c (p +:+ " " +:+ r)). cbn [Cut strip_prefix].
  destruct (Ascii.eqb_spec " "%char c) as [<-|_]; [discriminate|]. now rewrite (IH H2).
Qed.

Lemma parse_report (v ms : Z) : 0 <= v <= max64 -> 0 <= ms <= max64 -> parseConcValue (report v ms) = Some (v, ms).
Proof.
  intros Hv Hm. unfold parseConcValue, report.
  rewrite Cut_space by (apply FormatInt_none_of; [exact digit_not_space|lia]).
  rewrite !ParseInt_FormatInt by lia. now replace (v <? 0) with false by lia.
Qed.

(** *** Limiter *)

Definition group_calls (rpm : Z) (instances : option Z) (g : Z) (times : list Time) (win : gmap Z windowState)
    : gmap Z windowState * Z :=
  fold_left (fun '(w, n) t => let '(w', ok) := Allow rpm instances g t w in (w', if ok : bool then n + 1 else n))
    times (win, 0).

Lemma group_calls_window (rpm : Z) (instances : option Z) (g : Z) (times : list Time) (w : gmap Z windowState)
    (st : windowState) (n : Z) :
  0 < rpm -> w !! g = Some st -> 0 <= w_count st -> w_count st + Z.of_nat (length times) <= max64 ->
  Forall (fun t => w_start st <= t < w_start st + minute) times -> 0 <= w_limit st ->
  n = Z.min (w_count st) (w_limit st) ->
  snd (fold_left (fun '(w, n) t => let '(w', ok) := Allow rpm instances g t w in (w', if ok : bool then n + 1 else n))
         times (w, n))
  = Z.min (w_count st + Z.of_nat (length times)) (w_limit st).
Proof.
  intros Hr. revert w st n. induction times as [|t times IH]; intros w st n Hw Hc Hm Ht Hl Hn.
  { cbn. lia. }
  apply Forall_cons in Ht as [Ht1 Ht]. cbn [fold_left length].
  unfold Allow at 2. replace (rpm <=? 0) with false by lia. rewrite Hw.
  unfold minute, second in *. rewrite sub64_small by (unfold_int; lia).
  replace (t - w_start st >=? 60 * 1000000000) with false by lia.
  cbn [length] in Hm. rewrite add64_small by (unfold_int; lia).
  rewrite (IH _ (mkWindow (w_start st) (w_count st + 1) (w_limit st)) _).
  - cbn [w_count w_limit]. lia.
  - apply lookup_insert_eq.
  - cbn [w_count]. lia.
  - cbn [w_count]. lia.
  - exact Ht.
  - exact Hl.
  - cbn [w_count w_limit]. destruct (w_count st + 1 <=? w_limit st) eqn:E; lia.
Qed.

(** ** Properties *)

(** the two-level gate is exact.  A refused request leaves every counter as
    it was; an admitted one never brings a limited user or key above its true
    limit (whatever the cluster view says, as long as a total includes the
    instance's own report), and releasing the returned level restores the
    counters exactly. *)
Theorem acquire_release_exact (now : Time) (meta : KeyMeta) (g : Gate) :
  counters_ok (g_users g) -> counters_ok (g_keys g) -> view_ok (g_cluster g) -> limits_ok meta ->
  let '(g', (level, ok)) := acquire now meta g in
  (ok = false -> g' = g /\ level = 0) /\
  (ok = true ->
   (forall c, g_users g !! km_UserID meta = Some c -> 0 < km_UserMaxConc meta -> c + 1 <= km_UserMaxConc meta) /\
   release meta level g' = g /\
   (0 < km_KeyMaxConc meta -> forall c, g_keys g' !! km_KeyID meta = Some c -> c <= km_KeyMaxConc meta)).
Proof. exact (acquire_spec now meta g). Qed.

Definition sample_meta : KeyMeta := mkKeyMeta 7 3 1 "active" 3 "active" 5 true 1000 400.
Definition sample_gate : Gate :=
  mkGate {[3 := 1]} {[7 := 1]} ∅ (Some (mkClusterView ∅ {[7 := mkConcSnap 1 1 0]})) (Some 2).

Lemma acquire_release_exact_witness :
  snd (acquire 10 sample_meta sample_gate) = (3, true) /\
  release sample_meta 3 (fst (acquire 10 sample_meta sample_gate)) = sample_gate.
Proof.
  assert (P1 : counters_ok (g_users sample_gate)) by (apply map_Forall_singleton; lia).
  assert (P2 : counters_ok (g_keys sample_gate)) by (apply map_Forall_singleton; lia).
  assert (P3 : view_ok (g_cluster sample_gate)).
  { split; [apply map_Forall_empty|]. apply map_Forall_singleton. unfold snap_ok. cbn. lia. }
  assert (P4 : limits_ok sample_meta) by (unfold limits_ok; cbn; unfold_int; lia).
  pose proof (acquire_release_exact 10 sample_meta sample_gate P1 P2 P3 P4) as H.
  assert (E : snd (acquire 10 sample_meta sample_gate) = (3, true)) by (vm_compute; reflexivity).
  split; [exact E|].
  destruct (acquire 10 sample_meta sample_gate) as [g' [level ok]]. cbn [fst snd] in *.
  injection E as -> ->. exact (proj1 (proj2 (proj2 H eq_refl))).
Defined.

(** a quota re-check never grants more than is left: with a fresh database
    value at or above the last baseline, the request is admitted exactly when
    the quota minus the database value minus the locally unreported consumption
    is positive, the new budget is the current consumption plus this
    instance's share of that remainder and never exceeds the quota, and
    otherwise the key is exhausted. *)
Theorem reclaim_within_quota (n : Z) (now : Time) (used : Z) (meta : KeyMeta) (q : keyQuota) :
  quota_ok q -> 1 <= n -> km_Quota meta <= max64 -> quotaUsedAtReclaim q <= used ->
  reclaiming q = false -> exhausted q = false -> retryAt q <= now ->
  let '(q', ok) := reclaim n now (ReadUsed used) meta q in
  let left := km_Quota meta - used - (consumed q - quotaUsedAtReclaim q) in
  ok = (0 <? left) /\
  (ok = true -> consumed q < budget q' <= km_Quota meta /\ budget q' = consumed q + ceilDiv left n) /\
  (ok = false -> exhausted q' = true) /\ consumed q' = consumed q.
Proof. exact (reclaim_read_spec n now used meta q). Qed.

Lemma reclaim_within_quota_witness :
  budget (fst (reclaim 2 0 (ReadUsed 400) sample_meta (mkQuota 700 700 false false 0 400))) = 850.
Proof.
  pose proof (reclaim_within_quota 2 0 400 sample_meta (mkQuota 700 700 false false 0 400)
    ltac:(unfold quota_ok; cbn; unfold_int; lia) ltac:(lia) ltac:(cbn; unfold_int; lia) ltac:(cbn; lia)
    ltac:(reflexivity) ltac:(reflexivity) ltac:(cbn; lia)) as H.
  destruct (reclaim 2 0 (ReadUsed 400) sample_meta (mkQuota 700 700 false false 0 400)) as [q' ok].
  cbn [fst]. cbv zeta in H. destruct H as (E & A & _). rewrite E in A. destruct (A eq_refl) as [_ ->]. reflexivity.
Defined.

(** within one window of a group the limiter admits exactly
    [min(calls, ceil(rpm/N))] calls, and the [N] instances together at most
    [rpm + N - 1]. *)
Theorem limiter_window_bound (rpm n g start : Z) (times : list Time) (win : gmap Z windowState) :
  0 < rpm <= max64 -> 0 < n -> win !! g = None -> 1 + Z.of_nat (length times) <= max64 ->
  Forall (fun t => start <= t < start + minute) times ->
  snd (group_calls rpm (Some n) g (start :: times) win)
  = Z.min (1 + Z.of_nat (length times)) (localLimit rpm (Some n)) /\
  n * localLimit rpm (Some n) <= rpm + n - 1.
Proof.
  intros Hr Hn Hw Hm Ht. unfold localLimit. replace (n >? 0) with true by lia.
  destruct (ceilDiv_spec rpm n Hr Hn) as [C1 C2]. split; [|lia].
  unfold group_calls. cbn [fold_left]. unfold Allow at 2. replace (rpm <=? 0) with false by lia. rewrite Hw.
  unfold localLimit at 1. replace (n >? 0) with true by lia.
  rewrite (group_calls_window rpm (Some n) g times _ (mkWindow start 1 (ceilDiv rpm n)));
    cbn [w_count w_limit w_start]; try lia; [apply lookup_insert_eq|exact Ht].
Qed.

Lemma limiter_window_bound_witness :
  snd (group_calls 5 (Some 2) 9 [100; 200; 300; 400; 500] ∅) = 3.
Proof.
  rewrite (proj1 (limiter_window_bound 5 2 9 100 [200; 300; 400; 500] ∅
    ltac:(unfold_int; lia) ltac:(lia) ltac:(apply lookup_empty) ltac:(cbn; unfold_int; lia)
    ltac:(unfold minute, second; repeat constructor; lia))). reflexivity.
Defined.

(** the in-flight report an instance writes is read back exactly, and the
    shares of [N] instances never add up to more than a limit that gives each
    instance at least one slot. *)
Theorem report_roundtrip_and_shares (v ms limit n : Z) :
  0 <= v <= max64 -> 0 <= ms <= max64 -> 0 < n <= limit -> limit <= max64 ->
  parseConcValue (report v ms) = Some (v, ms) /\ n * concShare limit n <= limit /\ concShare limit 1 = limit.
Proof.
  intros Hv Hm Hn Hl. split; [now apply parse_report|].
  unfold concShare. rewrite !quot64_nonneg, Z.div_1_r by lia.
  pose proof (div_mod_split limit n) as [E M]; [lia|].
  assert (1 <= limit / n) by (apply Z.div_le_lower_bound; lia).
  replace (limit / n >? 0) with true by lia. replace (limit >? 0) with true by lia. lia.
Qed.

Lemma report_roundtrip_and_shares_witness :
  parseConcValue (report 12 1756000000000) = Some (12, 1756000000000) /\ 3 * concShare 10 3 <= 10.
Proof.
  destruct (report_roundtrip_and_shares 12 1756000000000 10 3 ltac:(unfold_int; lia) ltac:(unfold_int; lia)
    ltac:(lia) ltac:(unfold_int; lia)) as (A & B & _). auto.
Defined.
