(* ===== verification/GateConc.v ===== *)
(** * The concurrency gate under interleaving ([internal/proxy/gate.go])

    [acquire] and [release] run without locks: they load the published snapshot
    once and then work on its counters, one atomic operation at a time.  [reload],
    [upsert] and [delete] run under the mutex of [Auth], so one at a time, and
    publish a new snapshot while requests are under way.  A counter is a cell of
    the heap; a snapshot maps users and keys to cells, and [upsert] and [delete]
    share the cells of the snapshot they clone.  The number of instances, the
    clock and the cluster view are whatever they are at the step that reads them.
    The quota entries of a snapshot are left to [Gate]. *)

From Stdlib Require Import ZArith Lia List Bool String.
From stdpp Require Import base option list gmap.
From S2P Require Import Prelude Domain Gate.
Import ListNotations.
Local Open Scope string_scope.
Local Open Scope list_scope.
Local Open Scope Z_scope.

(** ** State *)

(** Whose counter: a user's or a key's. *)
Abbreviation Who := (bool * Z)%type.
Definition user_of (m : KeyMeta) : Who := (false, km_UserID m).
Definition key_of (m : KeyMeta) : Who := (true, km_KeyID m).

(** A cell is named by its owner and a number that tells its owner's cells apart. *)
Abbreviation CellId := (nat * Who)%type.
Abbreviation Snap := (gmap Who nat).

Record GState := mkG { g_store : Snap; g_heap : gmap CellId Z }.

Definition put_cell (s : GState) (c : CellId) (v : Z) : GState := mkG (g_store s) (<[c := v]> (g_heap s)).

(** A request: what it does next, its key, the snapshot it loaded and the level
    it holds (bit 0 the user's slot, bit 1 the key's). *)
Inductive GPC :=
| AcqStart (m : KeyMeta)                            (* acquire: store.Load *)
| AcqUser (m : KeyMeta) (sn : Snap)                 (* incCounter *)
| AcqShare (m : KeyMeta) (sn : Snap)                (* c.Load() > concShare *)
| AcqBorrow (m : KeyMeta) (sn : Snap)               (* concAllows(false, ..., c.Load()) *)
| AcqBack (m : KeyMeta) (sn : Snap)                 (* roll the user count back *)
| AcqKey (m : KeyMeta) (sn : Snap) (level : Z)      (* casInc up to the share *)
| AcqKeyView (m : KeyMeta) (sn : Snap) (level : Z)  (* concAllows(true, ..., c.Load() + 1) *)
| AcqKeyCas (m : KeyMeta) (sn : Snap) (level : Z)   (* casInc up to the limit *)
| AcqKeyBack (m : KeyMeta) (sn : Snap) (level : Z)  (* roll the user count back *)
| Held (m : KeyMeta) (level : Z)                    (* admitted, being served *)
| RelUser (m : KeyMeta) (level : Z) (sn : Snap)     (* release: the user slot *)
| RelKey (m : KeyMeta) (level : Z) (sn : Snap)      (* release: the key slot *)
| Gone.                                             (* refused or finished *)

(** What runs under the mutex. *)
Inductive Publisher :=
| PubIdle
| PubCopy (old : Snap) (todo : list Who) (snap : Snap).  (* reload: copying the counters *)

Section Conc.
(** The views the sync worker may have published. *)
Context (views : option clusterView -> Prop).

(** [limit > 0 && c.Load() > concShare(limit, n)]. *)
Definition over_share (m : KeyMeta) (n v : Z) : bool := (km_UserMaxConc m >? 0) && (v >? concShare (km_UserMaxConc m) n).

Inductive rstep : GState -> GPC -> GState -> GPC -> Prop :=
| a_load s m : rstep s (AcqStart m) s (AcqUser m (g_store s))
| a_no_user s m sn : sn !! user_of m = None -> rstep s (AcqUser m sn) s (AcqKey m sn 0)
| a_repair s m sn c v :
    sn !! user_of m = Some c -> g_heap s !! (c, user_of m) = Some v -> v < 0 ->
    rstep s (AcqUser m sn) (put_cell s (c, user_of m) 0) (AcqUser m sn)
| a_user s m sn c v :
    sn !! user_of m = Some c -> g_heap s !! (c, user_of m) = Some v -> 0 <= v ->
    rstep s (AcqUser m sn) (put_cell s (c, user_of m) (incCounter v)) (AcqShare m sn)
| a_share s m sn c v n :
    sn !! user_of m = Some c -> g_heap s !! (c, user_of m) = Some v -> 1 <= n ->
    rstep s (AcqShare m sn) s (if over_share m n v then AcqBorrow m sn else AcqKey m sn 1)
| a_borrow s m sn c v cv now :
    sn !! user_of m = Some c -> g_heap s !! (c, user_of m) = Some v -> views cv ->
    rstep s (AcqBorrow m sn) s
      (if concAllows cv now false (km_UserID m) (km_UserMaxConc m) v then AcqKey m sn 1 else AcqBack m sn)
| a_back s m sn c v :
    sn !! user_of m = Some c -> g_heap s !! (c, user_of m) = Some v ->
    rstep s (AcqBack m sn) (put_cell s (c, user_of m) (decNonNegative v)) Gone
| a_key_free s m sn level :
    km_KeyMaxConc m <= 0 \/ sn !! key_of m = None -> rstep s (AcqKey m sn level) s (Held m level)
| a_key s m sn level c v n :
    0 < km_KeyMaxConc m -> sn !! key_of m = Some c -> g_heap s !! (c, key_of m) = Some v -> 1 <= n ->
    rstep s (AcqKey m sn level)
      (match casInc v (concShare (km_KeyMaxConc m) n) with Some v' => put_cell s (c, key_of m) v' | None => s end)
      (match casInc v (concShare (km_KeyMaxConc m) n) with Some _ => Held m (level + 2) | None => AcqKeyView m sn level end)
| a_key_view s m sn level c v cv now :
    sn !! key_of m = Some c -> g_heap s !! (c, key_of m) = Some v -> views cv ->
    rstep s (AcqKeyView m sn level) s
      (if concAllows cv now true (km_KeyID m) (km_KeyMaxConc m) (saturatingQuotaAdd v 1) then AcqKeyCas m sn level else AcqKeyBack m sn level)
| a_key_cas s m sn level c v :
    sn !! key_of m = Some c -> g_heap s !! (c, key_of m) = Some v ->
    rstep s (AcqKeyCas m sn level)
      (match casInc v (km_KeyMaxConc m) with Some v' => put_cell s (c, key_of m) v' | None => s end)
      (match casInc v (km_KeyMaxConc m) with Some _ => Held m (level + 2) | None => AcqKeyBack m sn level end)
| a_key_back s m sn level c v :
    Z.testbit level 0 = true -> sn !! user_of m = Some c -> g_heap s !! (c, user_of m) = Some v ->
    rstep s (AcqKeyBack m sn level) (put_cell s (c, user_of m) (decNonNegative v)) Gone
| a_key_back_free s m sn level :
    Z.testbit level 0 = false \/ sn !! user_of m = None -> rstep s (AcqKeyBack m sn level) s Gone
| r_none s m : rstep s (Held m 0) s Gone
| r_load s m level : level <> 0 -> rstep s (Held m level) s (RelUser m level (g_store s))
| r_user s m level sn c v :
    Z.testbit level 0 = true -> sn !! user_of m = Some c -> g_heap s !! (c, user_of m) = Some v ->
    rstep s (RelUser m level sn) (put_cell s (c, user_of m) (decNonNegative v)) (RelKey m level sn)
| r_user_free s m level sn :
    Z.testbit level 0 = false \/ sn !! user_of m = None -> rstep s (RelUser m level sn) s (RelKey m level sn)
| r_key s m level sn c v :
    Z.testbit level 1 = true -> sn !! key_of m = Some c -> g_heap s !! (c, key_of m) = Some v ->
    rstep s (RelKey m level sn) (put_cell s (c, key_of m) (decNonNegative v)) Gone
| r_key_free s m level sn :
    Z.testbit level 1 = false \/ sn !! key_of m = None -> rstep s (RelKey m level sn) s Gone.

(** The counters a snapshot needs: of the users, each once, and of the keys. *)
Definition wanted (metas : list KeyMeta) : list Who := flat_map (fun m => [user_of m; key_of m]) metas.

(** [c.Store(o.Load())], zero without an old counter. *)
Definition inherited (s : GState) (old : Snap) (w : Who) (v : Z) : Prop :=
  match old !! w with Some c => g_heap s !! (c, w) = Some v | None => v = 0 end.

(** A new counter under a number its owner does not use. *)
Definition fresh (s : GState) (w : Who) (c : nat) : Prop := g_heap s !! (c, w) = None.

(** [upsert]: a counter that the cloned snapshot does not have. *)
Definition add_counter (s : GState) (c : nat) (w : Who) : GState :=
  match g_store s !! w with Some _ => s | None => mkG (<[w := c]> (g_store s)) (<[(c, w) := 0]> (g_heap s)) end.

Inductive lstep : GState -> Publisher -> GState -> Publisher -> Prop :=
| l_start s metas : lstep s PubIdle s (PubCopy (g_store s) (wanted metas) ∅)
| l_user_again s old u todo snap : is_Some (snap !! (false, u)) -> lstep s (PubCopy old ((false, u) :: todo) snap) s (PubCopy old todo snap)
| l_copy s old w todo snap v c :
    w.1 = true \/ snap !! w = None -> inherited s old w v -> fresh s w c ->
    lstep s (PubCopy old (w :: todo) snap) (put_cell s (c, w) v) (PubCopy old todo (<[w := c]> snap))
| l_publish s old snap : lstep s (PubCopy old [] snap) (mkG snap (g_heap s)) PubIdle
| l_upsert s m c1 c2 : fresh s (user_of m) c1 -> fresh s (key_of m) c2 ->
    lstep s PubIdle (add_counter (add_counter s c1 (user_of m)) c2 (key_of m)) PubIdle
| l_delete s k : lstep s PubIdle (mkG (delete (true, k) (g_store s)) (g_heap s)) PubIdle.

(** The steps of one reload. *)
Definition copying (a b : GState * Publisher) : Prop := a.2 <> PubIdle /\ lstep a.1 a.2 b.1 b.2.

Record GConfig := mkConfig { c_state : GState; c_pub : Publisher; c_reqs : list GPC }.

(** No acquire or release is under way. *)
Definition settled (pc : GPC) : bool := match pc with AcqStart _ | Held _ _ | Gone => true | _ => false end.

(** The counters that stay, and the limit of each user and key. *)
Context (known : gset Who) (lim : Who -> Z).

Definition limits_of (m : KeyMeta) : Prop := km_UserMaxConc m = lim (user_of m) /\ km_KeyMaxConc m = lim (key_of m).

(** Everything the gate does. *)
Inductive all_steps : GConfig -> GConfig -> Prop :=
| s_arrive s p ps m : limits_of m -> all_steps (mkConfig s p ps) (mkConfig s p (AcqStart m :: ps))
| s_request s s' p ps1 pc pc' ps2 : rstep s pc s' pc' -> all_steps (mkConfig s p (ps1 ++ pc :: ps2)) (mkConfig s' p (ps1 ++ pc' :: ps2))
| s_publish s s' p p' ps : lstep s p s' p' -> all_steps (mkConfig s p ps) (mkConfig s' p' ps).

(** The steps over which the counts are exact: requests, upserts, and reloads
    that run while no acquire or release is under way and keep the counters of
    [known]. *)
Inductive steps : GConfig -> GConfig -> Prop :=
| q_arrive s ps m : limits_of m -> steps (mkConfig s PubIdle ps) (mkConfig s PubIdle (AcqStart m :: ps))
| q_request s s' ps1 pc pc' ps2 : rstep s pc s' pc' -> steps (mkConfig s PubIdle (ps1 ++ pc :: ps2)) (mkConfig s' PubIdle (ps1 ++ pc' :: ps2))
| q_upsert s ps m c1 c2 : fresh s (user_of m) c1 -> fresh s (key_of m) c2 ->
    steps (mkConfig s PubIdle ps) (mkConfig (add_counter (add_counter s c1 (user_of m)) c2 (key_of m)) PubIdle ps)
| q_reload s s' ps metas : forallb settled ps = true -> (forall w, w ∈ known -> w ∈ wanted metas) ->
    rtc copying (s, PubCopy (g_store s) (wanted metas) ∅) (s', PubIdle) ->
    steps (mkConfig s PubIdle ps) (mkConfig s' PubIdle ps).

(** ** Who holds what *)

Definition at_user (w : Who) (m : KeyMeta) (level : Z) : bool := Z.testbit level 0 && bool_decide (w = user_of m).
Definition at_key (w : Who) (m : KeyMeta) (level : Z) : bool := Z.testbit level 1 && bool_decide (w = key_of m).

(** The request has added itself to the counter of [w] and not taken itself off. *)
Definition counted (w : Who) (pc : GPC) : bool :=
  match pc with
  | AcqShare m _ | AcqBorrow m _ | AcqBack m _ => bool_decide (w = user_of m)
  | AcqKey m _ l | AcqKeyView m _ l | AcqKeyCas m _ l | AcqKeyBack m _ l => at_user w m l
  | Held m l | RelUser m l _ => at_user w m l || at_key w m l
  | RelKey m l _ => at_key w m l
  | AcqStart _ | AcqUser _ _ | Gone => false
  end.

(** The request has passed the check of the user layer. *)
Definition passed (w : Who) (pc : GPC) : bool :=
  match pc with
  | AcqKey m _ l | AcqKeyView m _ l | AcqKeyCas m _ l | AcqKeyBack m _ l | Held m l | RelUser m l _ => at_user w m l
  | _ => false
  end.

(** The request is admitted and being served. *)
Definition served (w : Who) (pc : GPC) : bool :=
  match pc with Held m _ => bool_decide (w = user_of m \/ w = key_of m) | _ => false end.

Definition tally (f : GPC -> bool) (ps : list GPC) : Z := fold_right (fun pc n => Z.b2z (f pc) + n) 0 ps.

Lemma tally_cons (f : GPC -> bool) (pc : GPC) (ps : list GPC) : tally f (pc :: ps) = Z.b2z (f pc) + tally f ps.
Proof. reflexivity. Qed.

Lemma tally_mid (f : GPC -> bool) (a b : list GPC) (pc : GPC) : tally f (a ++ pc :: b) = Z.b2z (f pc) + tally f (a ++ b).
Proof. induction a as [|x a IH]; [reflexivity|]. rewrite <- !app_comm_cons, !tally_cons, IH. lia. Qed.

Lemma tally_le (f g : GPC -> bool) (ps : list GPC) : Forall (fun pc => f pc = true -> g pc = true) ps -> tally f ps <= tally g ps.
Proof. induction 1 as [|pc ps H _ IH]; [cbn; lia|]. rewrite !tally_cons. destruct (f pc) eqn:E; [rewrite H by reflexivity|]; destruct (g pc); cbn [Z.b2z]; lia. Qed.

Lemma tally_range (f : GPC -> bool) (ps : list GPC) : 0 <= tally f ps <= Z.of_nat (length ps).
Proof. induction ps as [|pc ps IH]; [cbn; lia|]. rewrite tally_cons. cbn [length]. destruct (f pc); cbn [Z.b2z]; lia. Qed.

(** ** One step of a request *)

Definition agrees (st sn : Snap) : Prop := forall w, w ∈ known -> sn !! w = st !! w.

Record Level (m : KeyMeta) (l : Z) : Prop := mkLevel {
  lv_values : l = 0 \/ l = 1 \/ l = 2 \/ l = 3;
  lv_user : user_of m ∈ known -> Z.testbit l 0 = true;
  lv_key : key_of m ∈ known -> 0 < km_KeyMaxConc m -> Z.testbit l 1 = true;
  lv_limited : Z.testbit l 1 = true -> 0 < km_KeyMaxConc m }.

Definition user_level (m : KeyMeta) (l : Z) : Prop := (l = 0 \/ l = 1) /\ (user_of m ∈ known -> l = 1).

Definition pc_ok (st : Snap) (pc : GPC) : Prop :=
  match pc with
  | AcqStart m => limits_of m
  | AcqUser m sn | AcqShare m sn | AcqBorrow m sn | AcqBack m sn => limits_of m /\ agrees st sn
  | AcqKey m sn l | AcqKeyBack m sn l => limits_of m /\ agrees st sn /\ user_level m l
  | AcqKeyView m sn l | AcqKeyCas m sn l => limits_of m /\ agrees st sn /\ user_level m l /\ 0 < km_KeyMaxConc m
  | Held m l => limits_of m /\ Level m l
  | RelUser m l sn | RelKey m l sn => limits_of m /\ agrees st sn /\ Level m l
  | Gone => True
  end.

Hypothesis views_ok : forall cv, views cv -> view_ok cv.
Hypothesis lim_range : forall w, 0 <= lim w <= max64.

(** What a step does to the counter of a known [w] that holds [v]. *)
Record Effect (w : Who) (c : nat) (v : Z) (s s' : GState) (pc pc' : GPC) : Prop := mkEffect {
  ef_store : g_store s' = g_store s;
  ef_cell : g_heap s' !! (c, w) = Some (v - Z.b2z (counted w pc) + Z.b2z (counted w pc'));
  ef_ok : pc_ok (g_store s) pc';
  ef_key : w.1 = true -> counted w pc = false -> counted w pc' = true -> v < lim w;
  ef_user : w.1 = false -> 0 < lim w -> passed w pc = false -> passed w pc' = true -> counted w pc = true /\ v <= lim w;
  ef_passed : passed w pc' = true -> counted w pc' = true }.

Lemma user_not_key (m m' : KeyMeta) : user_of m <> key_of m'.
Proof. discriminate. Qed.

Lemma cell_other (s : GState) (c c' : nat) (w w' : Who) (x v : Z) : w <> w' -> g_heap s !! (c, w) = Some v -> g_heap (put_cell s (c', w') x) !! (c, w) = Some v.
Proof. intros Hw H. cbn. rewrite lookup_insert_ne by congruence. exact H. Qed.

Lemma cell_same (s : GState) (c : nat) (w : Who) (x : Z) : g_heap (put_cell s (c, w) x) !! (c, w) = Some x.
Proof. apply lookup_insert_eq. Qed.

Section Step.
Context (w : Who) (c : nat) (v : Z) (s : GState).
Hypothesis Hw : w ∈ known.
Hypothesis Hc : g_store s !! w = Some c.
Hypothesis Hv : g_heap s !! (c, w) = Some v.

Lemma same_cell (sn : Snap) (c' : nat) (v' : Z) : agrees (g_store s) sn -> sn !! w = Some c' -> g_heap s !! (c', w) = Some v' -> c' = c /\ v' = v.
Proof. intros Ha H1 H2. rewrite (Ha w Hw), Hc in H1. injection H1 as ->. rewrite Hv in H2. injection H2 as ->. auto. Qed.

(** The counter after a step on the counter of [w']. *)
Lemma cell_after (sn : Snap) (w' : Who) (c' : nat) (v' x : Z) : agrees (g_store s) sn -> sn !! w' = Some c' -> g_heap s !! (c', w') = Some v' ->
  g_heap (put_cell s (c', w') x) !! (c, w) = Some (if bool_decide (w = w') then x else v) /\ (w = w' -> v' = v).
Proof.
  intros Ha H1 H2. case_bool_decide as E.
  - subst w'. destruct (same_cell sn c' v' Ha H1 H2) as [-> ->]. split; [apply cell_same|auto].
  - split; [exact (cell_other s c c' w w' x v E Hv)|contradiction].
Qed.

Lemma not_missing (sn : Snap) : agrees (g_store s) sn -> sn !! w <> None.
Proof. intros Ha H. rewrite (Ha w Hw), Hc in H. discriminate. Qed.
End Step.

Lemma dec_pos (v : Z) : 1 <= v < 2 ^ 61 -> decNonNegative v = v - 1.
Proof. intros H. replace v with (v - 1 + 1) at 1 by lia. apply dec_succ. unfold_int. lia. Qed.

Lemma cas_cases (v m : Z) : 0 <= v < 2 ^ 61 -> casInc v m = if v <? m then Some (v + 1) else None.
Proof. intros H. rewrite casInc_spec by (unfold_int; lia). destruct (Z.ltb_spec v m); destruct (v >=? m) eqn:E; (reflexivity || lia). Qed.

(** What a check of the user layer that passes says. *)
Lemma share_passes (m : KeyMeta) (n v : Z) : limits_of m -> 1 <= n -> 0 < lim (user_of m) -> over_share m n v = false -> v <= lim (user_of m).
Proof.
  intros [E _] Hn Hl. unfold over_share. rewrite E. pose proof (lim_range (user_of m)). pose proof (concShare_range (lim (user_of m)) n ltac:(lia) Hn).
  destruct (lim (user_of m) >? 0) eqn:H1; [|lia]. destruct (v >? concShare _ n) eqn:H2; [discriminate|]. lia.
Qed.

Lemma share_of_key (m : KeyMeta) (n v : Z) : limits_of m -> 1 <= n -> 0 < km_KeyMaxConc m -> v < concShare (km_KeyMaxConc m) n -> v < lim (key_of m).
Proof. intros [_ E] Hn Hl H. pose proof (lim_range (key_of m)). pose proof (concShare_range (km_KeyMaxConc m) n ltac:(lia) Hn). lia. Qed.


(** The two kinds of step: the counter of [w] is not written, or a counter is. *)
Lemma effect_none (w : Who) (c : nat) (v : Z) (s : GState) (pc pc' : GPC) : g_heap s !! (c, w) = Some v -> counted w pc' = counted w pc -> pc_ok (g_store s) pc' ->
  (w.1 = false -> 0 < lim w -> passed w pc = false -> passed w pc' = true -> counted w pc = true /\ v <= lim w) -> (passed w pc' = true -> counted w pc' = true) ->
  Effect w c v s s pc pc'.
Proof.
  intros Hv E Hok Hu Hp. constructor; try assumption; [reflexivity| |intros _ H1 H2; congruence]. rewrite Hv, E. f_equal. lia.
Qed.

Lemma effect_put (w : Who) (c : nat) (v : Z) (s : GState) (sn : Snap) (w' : Who) (c' : nat) (v' x : Z) (pc pc' : GPC) :
  w ∈ known -> g_store s !! w = Some c -> g_heap s !! (c, w) = Some v -> agrees (g_store s) sn -> sn !! w' = Some c' -> g_heap s !! (c', w') = Some v' ->
  (w = w' -> v' = v -> x = v - Z.b2z (counted w pc) + Z.b2z (counted w pc') /\ (w.1 = true -> counted w pc = false -> counted w pc' = true -> v < lim w)) ->
  (w <> w' -> counted w pc' = counted w pc) -> pc_ok (g_store s) pc' -> (passed w pc' = true -> passed w pc = true /\ counted w pc' = true) ->
  Effect w c v s (put_cell s (c', w') x) pc pc'.
Proof.
  intros Hw Hc Hv Ha H1 H2 Hs Hd Hok Hp. destruct (cell_after w c v s Hw Hc Hv sn w' c' v' x Ha H1 H2) as [E Ev].
  constructor; [reflexivity| |exact Hok| | |intros H; apply Hp, H].
  - rewrite E. case_bool_decide as D; f_equal; [exact (proj1 (Hs D (Ev D)))|rewrite (Hd D); lia].
  - destruct (decide (w = w')) as [D|D]; [exact (proj2 (Hs D (Ev D)))|intros _ A B; rewrite (Hd D) in B; congruence].
  - intros _ _ A B. destruct (Hp B) as [B' _]. congruence.
Qed.

Lemma user_level_bit (m : KeyMeta) (l : Z) : user_level m l -> Z.testbit l 1 = false /\ Z.testbit (l + 2) 1 = true /\ Z.testbit (l + 2) 0 = Z.testbit l 0.
Proof. intros [[-> | ->] _]; auto. Qed.

Lemma level_take (m : KeyMeta) (l : Z) : user_level m l -> 0 < km_KeyMaxConc m -> Level m (l + 2).
Proof.
  intros [Hl Hk] Hp. constructor; [destruct Hl as [-> | ->]; auto 6| | |auto]; [intros H; rewrite (Hk H); reflexivity|intros _ _; destruct Hl as [-> | ->]; reflexivity].
Qed.

Lemma level_free (m : KeyMeta) (l : Z) : user_level m l -> (key_of m ∈ known -> km_KeyMaxConc m <= 0) -> Level m l.
Proof.
  intros [Hl Hk] Hp. constructor; [destruct Hl as [-> | ->]; auto 6| | |]; [intros H; rewrite (Hk H); reflexivity|intros H1 H2; specialize (Hp H1); lia|].
  destruct Hl as [-> | ->]; discriminate.
Qed.

(** The layer of [acquire] a request is in. *)
Inductive Phase := PUser | PKey | PRelease.

Definition phase (pc : GPC) : Phase :=
  match pc with
  | AcqStart _ | AcqUser _ _ | AcqShare _ _ | AcqBorrow _ _ | AcqBack _ _ => PUser
  | AcqKey _ _ _ | AcqKeyView _ _ _ | AcqKeyCas _ _ _ | AcqKeyBack _ _ _ => PKey
  | Held _ _ | RelUser _ _ _ | RelKey _ _ _ | Gone => PRelease
  end.

(** A known counter, its cell and its value. *)
Record Seen (w : Who) (c : nat) (v : Z) (s : GState) : Prop := mkSeen {
  se_known : w ∈ known;
  se_cell : g_store s !! w = Some c;
  se_value : g_heap s !! (c, w) = Some v;
  se_range : 0 <= v < 2 ^ 61;
  se_all : forall w', w' ∈ known -> is_Some (g_store s !! w') }.

Lemma has_counter (w : Who) (c : nat) (v : Z) (s : GState) (sn : Snap) (w' : Who) : Seen w c v s -> agrees (g_store s) sn -> w' ∈ known -> sn !! w' <> None.
Proof. intros Hs Ha H E. rewrite (Ha w' H) in E. destruct (se_all _ _ _ _ Hs w' H) as [x Ex]. congruence. Qed.

Lemma seen_same (w : Who) (c : nat) (v : Z) (s : GState) (sn : Snap) (c' : nat) (v' : Z) : Seen w c v s -> agrees (g_store s) sn ->
  sn !! w = Some c' -> g_heap s !! (c', w) = Some v' -> v' = v.
Proof. intros [H1 H2 H3 _ _] Ha E1 E2. exact (proj2 (same_cell w c v s H1 H2 H3 sn c' v' Ha E1 E2)). Qed.

Lemma inc_small (v : Z) : 0 <= v < 2 ^ 61 -> incCounter v = v + 1.
Proof. intros H. apply inc_dec. unfold_int. lia. Qed.

(** A step that writes a counter, and one that writes none. *)
Ltac on_cell Hs := eapply effect_put; [exact (se_known _ _ _ _ Hs)|exact (se_cell _ _ _ _ Hs)|exact (se_value _ _ _ _ Hs)|eassumption|eassumption|eassumption|..];
  cbn [counted passed pc_ok]; unfold at_user, at_key.
Ltac unread Hs := apply effect_none; [exact (se_value _ _ _ _ Hs)|..]; cbn [counted passed pc_ok]; unfold at_user, at_key.
Ltac decided := repeat (case_bool_decide; subst); rewrite ?andb_true_r, ?andb_false_r, ?orb_false_r, ?orb_true_r in *; cbn [Z.b2z] in *; try congruence;
  try match goal with E : key_of _ = user_of _ |- _ => discriminate E | E : user_of _ = key_of _ |- _ => discriminate E end; try reflexivity.

Lemma user_level_one (m : KeyMeta) : user_level m 1.
Proof. split; [right; reflexivity|intros _; reflexivity]. Qed.
#[local] Hint Resolve user_level_one : core.

Lemma effect_user (w : Who) (c : nat) (v : Z) (s s' : GState) (pc pc' : GPC) : Seen w c v s -> phase pc = PUser -> rstep s pc s' pc' ->
  pc_ok (g_store s) pc -> (counted w pc = true -> 1 <= v) -> Effect w c v s s' pc pc'.
Proof.
  intros Hs Hp St Hok Hpos. pose proof (se_range _ _ _ _ Hs) as Hr. destruct St; try discriminate Hp; cbn [pc_ok counted] in Hok, Hpos.
  - unread Hs; try (reflexivity || discriminate). split; [exact Hok|]. intros ? _. reflexivity.
  - destruct Hok as [Hl Ha]. unread Hs; try (reflexivity || discriminate). split; [exact Hl|]. split; [exact Ha|]. split; [auto|]. intros Hk. destruct (has_counter w c v s sn _ Hs Ha Hk). assumption.
  - destruct Hok as [Hl Ha]. on_cell Hs; [intros; lia|reflexivity|auto|discriminate].
  - destruct Hok as [Hl Ha]. on_cell Hs; [|intros; decided|auto|discriminate]. intros -> ->. rewrite inc_small by exact Hr. split; [decided; lia|discriminate].
  - destruct Hok as [Hl Ha]. destruct (over_share m n v0) eqn:E; unread Hs; try (reflexivity || discriminate); [auto|auto| |decided].
    intros _ Hlim _ H'. decided. rewrite (seen_same _ c v s sn c0 v0 Hs Ha) in E by assumption. split; [reflexivity|]. exact (share_passes m n v Hl ltac:(assumption) Hlim E).
  - destruct Hok as [Hl Ha]. destruct (concAllows cv now false (km_UserID m) (km_UserMaxConc m) v0) eqn:E; unread Hs; try (reflexivity || discriminate);
      [auto| |decided|auto].
    intros _ Hlim _ H'. decided. rewrite (seen_same _ c v s sn c0 v0 Hs Ha) in E by assumption. rewrite (proj1 Hl) in E. split; [reflexivity|]. exact (concAllows_bound cv now _ _ _ v (views_ok cv ltac:(assumption)) ltac:(lia) E).
  - destruct Hok as [Hl Ha]. on_cell Hs; [|intros; decided|exact I|discriminate]. intros -> ->. split; [|discriminate]. decided. rewrite dec_pos by lia. lia.
Qed.

Lemma effect_key (w : Who) (c : nat) (v : Z) (s s' : GState) (pc pc' : GPC) : Seen w c v s -> phase pc = PKey -> rstep s pc s' pc' ->
  pc_ok (g_store s) pc -> (counted w pc = true -> 1 <= v) -> Effect w c v s s' pc pc'.
Proof.
  intros Hs Hp St Hok Hpos. pose proof (se_range _ _ _ _ Hs) as Hr. destruct St; try discriminate Hp; cbn [pc_ok counted] in Hok, Hpos; destruct Hok as (Hl & Ha & Hu).
  - destruct (user_level_bit m level Hu) as (B1 & _ & _). unread Hs; rewrite ?B1; try (intros; assumption); [decided| |intros _ _ A B; decided|intros A; rewrite A; reflexivity].
    split; [exact Hl|]. apply level_free; [exact Hu|]. intros Hk. destruct H as [H|H]; [exact H|]. destruct (has_counter w c v s sn _ Hs Ha Hk H).
  - destruct (user_level_bit m level Hu) as (B1 & B2 & B3). destruct (casInc v0 _) as [v1|] eqn:E.
    + on_cell Hs; rewrite ?B1, ?B2, ?B3; [|intros D; decided|split; [exact Hl|apply level_take; assumption]|intros A; rewrite A; auto].
      intros -> ->. rewrite cas_cases in E by exact Hr. destruct (v <? _) eqn:L; [|discriminate]. injection E as <-. decided. cbn [andb orb Z.b2z].
      split; [lia|]. intros _ _ _. apply (share_of_key m n v Hl); [assumption|assumption|lia].
    + unread Hs; [reflexivity|auto|intros; congruence|auto].
  - destruct (concAllows _ _ _ _ _ _) eqn:E; unread Hs; try (intros; congruence); auto. destruct Hu as [Hu Hk]. tauto.
  - destruct Hu as [Hu Hk]. destruct (user_level_bit m level Hu) as (B1 & B2 & B3). destruct (casInc v0 _) as [v1|] eqn:E.
    + on_cell Hs; rewrite ?B1, ?B2, ?B3; [|intros D; decided|split; [exact Hl|apply level_take; assumption]|intros A; rewrite A; auto].
      intros -> ->. rewrite cas_cases in E by exact Hr. destruct (v <? _) eqn:L; [|discriminate]. injection E as <-. decided. cbn [andb orb Z.b2z].
      split; [lia|]. intros _ _ _. destruct Hl as [_ <-]. lia.
    + unread Hs; [reflexivity|auto|intros; congruence|auto].
  - on_cell Hs; [|intros; decided|exact I|discriminate]. intros -> ->. split; [|discriminate]. unfold at_user in Hpos. rewrite H in *. decided. cbn [andb Z.b2z]. rewrite dec_pos by (cbn in Hpos; lia). lia.
  - unread Hs; [|exact I|discriminate|discriminate]. destruct H as [-> |H]; [reflexivity|]. decided. destruct (has_counter _ c v s sn _ Hs Ha (se_known _ _ _ _ Hs) H).
Qed.

Lemma effect_release (w : Who) (c : nat) (v : Z) (s s' : GState) (pc pc' : GPC) : Seen w c v s -> phase pc = PRelease -> rstep s pc s' pc' ->
  pc_ok (g_store s) pc -> (counted w pc = true -> 1 <= v) -> Effect w c v s s' pc pc'.
Proof.
  intros Hs Hp St Hok Hpos. pose proof (se_range _ _ _ _ Hs) as Hr. destruct St; try discriminate Hp; cbn [pc_ok counted] in Hok, Hpos.
  - unread Hs; [reflexivity|exact I|discriminate|discriminate].
  - destruct Hok as [Hl Hv]. unread Hs; [reflexivity|split; [exact Hl|split; [intros ? _; reflexivity|exact Hv]]|intros; congruence|intros A; rewrite A; reflexivity].
  - destruct Hok as (Hl & Ha & Hv). on_cell Hs; [|intros; decided|auto|discriminate]. intros -> ->. split; [|discriminate]. unfold at_user, at_key in Hpos. rewrite H in *.
    decided. cbn [andb orb Z.b2z] in *. rewrite dec_pos by (specialize (Hpos eq_refl); lia). lia.
  - destruct Hok as (Hl & Ha & Hv). unread Hs; [|auto|discriminate|discriminate]. destruct H as [-> |H]; [reflexivity|]. decided. destruct (has_counter _ c v s sn _ Hs Ha (se_known _ _ _ _ Hs) H).
  - destruct Hok as (Hl & Ha & Hv). on_cell Hs; [|intros; decided|exact I|discriminate]. intros -> ->. split; [|discriminate]. unfold at_key in Hpos. rewrite H in *.
    decided. cbn [andb orb Z.b2z] in *. rewrite dec_pos by (specialize (Hpos eq_refl); lia). lia.
  - destruct Hok as (Hl & Ha & Hv). unread Hs; [|exact I|discriminate|discriminate]. destruct H as [-> |H]; [reflexivity|]. decided. destruct (has_counter _ c v s sn _ Hs Ha (se_known _ _ _ _ Hs) H).
Qed.

Lemma rstep_effect (w : Who) (c : nat) (v : Z) (s s' : GState) (pc pc' : GPC) : Seen w c v s -> rstep s pc s' pc' ->
  pc_ok (g_store s) pc -> (counted w pc = true -> 1 <= v) -> Effect w c v s s' pc pc'.
Proof. intros. destruct (phase pc) eqn:E; eauto using effect_user, effect_key, effect_release. Qed.

(** ** All steps *)

Record Inv (s : GState) (ps : list GPC) : Prop := mkInv {
  inv_cells : forall w, w ∈ known -> exists c, g_store s !! w = Some c /\ g_heap s !! (c, w) = Some (tally (counted w) ps);
  inv_pcs : Forall (pc_ok (g_store s)) ps;
  inv_passed : forall w, w ∈ known -> Forall (fun pc => passed w pc = true -> counted w pc = true) ps;
  inv_users : forall w, w ∈ known -> w.1 = false -> 0 < lim w -> tally (passed w) ps <= lim w;
  inv_keys : forall w, w ∈ known -> w.1 = true -> tally (counted w) ps <= lim w }.

Lemma gate_pc_mono (st st' : Snap) (pc : GPC) : (forall w, w ∈ known -> st' !! w = st !! w) -> pc_ok st pc -> pc_ok st' pc.
Proof.
  intros H. assert (forall sn, agrees st sn -> agrees st' sn) as Ha by (intros sn A w Hw; rewrite (H w Hw); exact (A w Hw)).
  destruct pc; cbn [pc_ok]; naive_solver.
Qed.

Lemma inv_mono (s s' : GState) (ps : list GPC) : Inv s ps -> (forall w, w ∈ known -> g_store s' !! w = g_store s !! w) ->
  (forall x v, g_heap s !! x = Some v -> g_heap s' !! x = Some v) -> Inv s' ps.
Proof.
  intros [I1 I2 I3 I4 I5] Hs Hh. constructor; try assumption.
  - intros w Hw. destruct (I1 w Hw) as (c & E1 & E2). exists c. rewrite (Hs w Hw). auto.
  - eapply Forall_impl; [exact I2|]. intros pc. apply gate_pc_mono, Hs.
Qed.

Lemma inv_arrive (s : GState) (ps : list GPC) (m : KeyMeta) : limits_of m -> Inv s ps -> Inv s (AcqStart m :: ps).
Proof. intros Hm [I1 I2 I3 I4 I5]. constructor; try assumption; [constructor; assumption|]. intros w Hw. constructor; [discriminate|exact (I3 w Hw)]. Qed.

Lemma inv_request (w0 : Who) (s s' : GState) (ps1 ps2 : list GPC) (pc pc' : GPC) : w0 ∈ known -> Z.of_nat (List.length (ps1 ++ pc :: ps2)) < 2 ^ 61 -> rstep s pc s' pc' ->
  Inv s (ps1 ++ pc :: ps2) -> Inv s' (ps1 ++ pc' :: ps2).
Proof.
  intros Hw0 Hn St [I1 I2 I3 I4 I5]. assert (forall w', w' ∈ known -> is_Some (g_store s !! w')) as Hall by (intros w' Hw'; destruct (I1 w' Hw') as (c & -> & _); eauto).
  apply Forall_app in I2 as [P1 P2]. apply Forall_cons in P2 as [Pc P2].
  assert (forall w, w ∈ known -> exists c, Effect w c (tally (counted w) (ps1 ++ pc :: ps2)) s s' pc pc' /\ g_store s !! w = Some c) as He.
  { intros w Hw. destruct (I1 w Hw) as (c & E1 & E2). exists c. split; [|exact E1]. pose proof (tally_range (counted w) (ps1 ++ pc :: ps2)).
    apply rstep_effect; [constructor; auto; lia|exact St|exact Pc|]. intros Hc. rewrite tally_mid, Hc. pose proof (tally_range (counted w) (ps1 ++ ps2)). cbn. lia. }
  assert (forall w, w ∈ known -> Forall (fun x => passed w x = true -> counted w x = true) (ps1 ++ pc' :: ps2)) as Hp.
  { intros w Hw. destruct (He w Hw) as (c & Ef & _). specialize (I3 w Hw). apply Forall_app in I3 as [J1 J2]. apply Forall_cons in J2 as [_ J2].
    apply Forall_app. split; [exact J1|]. constructor; [exact (ef_passed _ _ _ _ _ _ _ Ef)|exact J2]. }
  constructor; [| |exact Hp| |].
  - intros w Hw. destruct (He w Hw) as (c & Ef & Ec). exists c. rewrite (ef_store _ _ _ _ _ _ _ Ef), (ef_cell _ _ _ _ _ _ _ Ef), !tally_mid. split; [exact Ec|]. f_equal. lia.
  - destruct (He w0 Hw0) as (c & Ef & _). rewrite (ef_store _ _ _ _ _ _ _ Ef). apply Forall_app. split; [exact P1|]. constructor; [exact (ef_ok _ _ _ _ _ _ _ Ef)|exact P2].
  - intros w Hw Hu Hlim. destruct (He w Hw) as (c & Ef & _). specialize (I4 w Hw Hu Hlim). pose proof (tally_le _ _ _ (Hp w Hw)) as Hle. rewrite tally_mid in I4. rewrite !tally_mid in *.
    destruct (passed w pc) eqn:E1; [destruct (passed w pc'); cbn [Z.b2z] in *; lia|]. destruct (passed w pc') eqn:E2; [|cbn [Z.b2z] in *; lia].
    destruct (ef_user _ _ _ _ _ _ _ Ef Hu Hlim E1 E2) as [Ec Hv]. rewrite Ec in Hv. rewrite (ef_passed _ _ _ _ _ _ _ Ef E2) in Hle. cbn [Z.b2z] in *. lia.
  - intros w Hw Hk. destruct (He w Hw) as (c & Ef & _). specialize (I5 w Hw Hk). pose proof (ef_key _ _ _ _ _ _ _ Ef Hk) as Hb. rewrite tally_mid in *.
    destruct (counted w pc), (counted w pc'); cbn [Z.b2z] in *; lia.
Qed.

Lemma store_added (s : GState) (c : nat) (w' w : Who) : is_Some (g_store s !! w) -> g_store (add_counter s c w') !! w = g_store s !! w.
Proof.
  intros [x Hx]. unfold add_counter. destruct (g_store s !! w') eqn:E; [reflexivity|]. cbn [g_store]. rewrite lookup_insert_ne by congruence. reflexivity.
Qed.

Lemma heap_added (s : GState) (c : nat) (w' : Who) (x : CellId) (v : Z) : fresh s w' c -> g_heap s !! x = Some v -> g_heap (add_counter s c w') !! x = Some v.
Proof.
  intros Hf Hx. unfold add_counter. destruct (g_store s !! w'); [exact Hx|]. cbn [g_heap]. unfold fresh in Hf. rewrite lookup_insert_ne by congruence. exact Hx.
Qed.

Lemma inv_upsert (s : GState) (ps : list GPC) (m : KeyMeta) (c1 c2 : nat) : fresh s (user_of m) c1 -> fresh s (key_of m) c2 -> Inv s ps ->
  Inv (add_counter (add_counter s c1 (user_of m)) c2 (key_of m)) ps.
Proof.
  intros F1 F2 HI. assert (forall w, w ∈ known -> is_Some (g_store s !! w)) as Hall by (intros w Hw; destruct (inv_cells _ _ HI w Hw) as (c & -> & _); eauto).
  assert (fresh (add_counter s c1 (user_of m)) (key_of m) c2) as F2' by (unfold fresh, add_counter in *; destruct (g_store s !! user_of m); [exact F2|cbn [g_heap]; rewrite lookup_insert_ne by discriminate; exact F2]).
  apply (inv_mono s); [exact HI| |].
  - intros w Hw. rewrite store_added by (rewrite store_added; auto). apply store_added. auto.
  - intros x v Hx. apply heap_added; [exact F2'|]. apply heap_added; assumption.
Qed.

(** *** Reloads *)

(** The old counters are in place, and each known one is copied or still to copy. *)
Definition Copying (s : GState) (ps : list GPC) (old : Snap) (todo : list Who) (snap : Snap) : Prop := forall w, w ∈ known ->
  (exists c, old !! w = Some c /\ g_heap s !! (c, w) = Some (tally (counted w) ps)) /\
  (forall c, snap !! w = Some c -> g_heap s !! (c, w) = Some (tally (counted w) ps)) /\
  (w ∈ todo \/ is_Some (snap !! w)).

Lemma copy_fresh (s : GState) (w : Who) (c : nat) (v : Z) (x : CellId) (y : Z) : fresh s w c -> g_heap s !! x = Some y -> g_heap (put_cell s (c, w) v) !! x = Some y.
Proof. intros Hf Hx. cbn. unfold fresh in Hf. rewrite lookup_insert_ne by congruence. exact Hx. Qed.

Lemma copy_step (s s' : GState) (ps : list GPC) (old snap : Snap) (todo : list Who) (p' : Publisher) : lstep s (PubCopy old todo snap) s' p' -> Copying s ps old todo snap ->
  (exists todo' snap', p' = PubCopy old todo' snap' /\ Copying s' ps old todo' snap') \/
  (p' = PubIdle /\ forall w, w ∈ known -> exists c, g_store s' !! w = Some c /\ g_heap s' !! (c, w) = Some (tally (counted w) ps)).
Proof.
  intros St H. inversion St; subst.
  - left. eexists _, _. split; [reflexivity|]. intros w Hw. destruct (H w Hw) as (H1 & H2 & H3). split; [exact H1|]. split; [exact H2|].
    destruct H3 as [H3|H3]; [|auto]. apply elem_of_cons in H3 as [-> |H3]; auto.
  - left. eexists _, _. split; [reflexivity|]. intros w' Hw'. destruct (H w' Hw') as ((c0 & E1 & E2) & H2 & H3). split; [exists c0; split; [exact E1|exact (copy_fresh _ _ _ _ _ _ ltac:(eassumption) E2)]|].
    destruct (decide (w' = w)) as [->|Hne].
    + rewrite lookup_insert_eq. split; [|eauto]. intros c1 [= <-]. rewrite cell_same. f_equal. match goal with Hi : inherited _ _ _ _ |- _ => unfold inherited in Hi; rewrite E1, E2 in Hi; congruence end.
    + rewrite lookup_insert_ne by congruence. split; [intros c1 Hc1; exact (copy_fresh _ _ _ _ _ _ ltac:(eassumption) (H2 c1 Hc1))|].
      destruct H3 as [H3|H3]; [|auto]. apply elem_of_cons in H3 as [?|H3]; [contradiction|auto].
  - right. split; [reflexivity|]. intros w Hw. destruct (H w Hw) as (_ & H2 & [H3|[c Hc]]); [apply elem_of_nil in H3; contradiction|]. exists c. auto.
Qed.

Lemma reload_cells (ps : list GPC) (s' : GState) (a : GState * Publisher) : rtc copying a (s', PubIdle) -> forall old todo snap, a.2 = PubCopy old todo snap ->
  Copying a.1 ps old todo snap -> forall w, w ∈ known -> exists c, g_store s' !! w = Some c /\ g_heap s' !! (c, w) = Some (tally (counted w) ps).
Proof.
  intros R. remember (s', PubIdle) as z eqn:Ez. induction R as [|a b z [_ St] R IH]; intros old todo snap E H; subst; [discriminate E|].
  rewrite E in St. destruct (copy_step _ _ ps _ _ _ _ St H) as [(todo' & snap' & Eb & Hb)|[Eb Hb]]; [exact (IH eq_refl _ _ _ Eb Hb)|].
  inversion R as [|? ? ? [Hne _] _]; subst; [exact Hb|contradiction].
Qed.

Lemma settled_any (st st' : Snap) (pc : GPC) : settled pc = true -> pc_ok st pc -> pc_ok st' pc.
Proof. destruct pc; (discriminate || auto). Qed.

Lemma inv_reload (s s' : GState) (ps : list GPC) (metas : list KeyMeta) : forallb settled ps = true -> (forall w, w ∈ known -> w ∈ wanted metas) ->
  rtc copying (s, PubCopy (g_store s) (wanted metas) ∅) (s', PubIdle) -> Inv s ps -> Inv s' ps.
Proof.
  intros Hq Hm R HI. pose proof (reload_cells ps s' _ R _ _ _ eq_refl) as Hc. destruct HI as [I1 I2 I3 I4 I5]. constructor; try assumption.
  - apply Hc. intros w Hw. cbn [fst]. split; [exact (I1 w Hw)|]. split; [intros c H; rewrite lookup_empty in H; discriminate|left; exact (Hm w Hw)].
  - rewrite Forall_forall in *. rewrite forallb_forall in Hq. intros pc Hpc. apply (settled_any (g_store s)); [apply Hq, list_elem_of_In, Hpc|exact (I2 pc Hpc)].
Qed.

(** *** Every reachable configuration *)

Lemma steps_grow (a b : GConfig) : steps a b -> (List.length (c_reqs a) <= List.length (c_reqs b))%nat.
Proof. intros []; cbn; rewrite ?length_app; cbn; lia. Qed.

Lemma gate_steps_inv (w0 : Who) (a b : GConfig) : w0 ∈ known -> steps a b -> Z.of_nat (List.length (c_reqs a)) < 2 ^ 61 -> Inv (c_state a) (c_reqs a) -> Inv (c_state b) (c_reqs b).
Proof. intros Hw0 St Hn HI. destruct St; cbn in *; eauto using inv_arrive, inv_request, inv_upsert, inv_reload. Qed.

Lemma gate_reachable (w0 : Who) (a b : GConfig) : w0 ∈ known -> rtc steps a b -> Inv (c_state a) (c_reqs a) -> Z.of_nat (List.length (c_reqs b)) < 2 ^ 61 -> Inv (c_state b) (c_reqs b).
Proof.
  intros Hw0 R. induction R as [|a b c St R IH]; intros HI Hn; [exact HI|].
  assert (List.length (c_reqs b) <= List.length (c_reqs c))%nat by (clear -R; induction R; [lia|pose proof (steps_grow _ _ H); lia]).
  pose proof (steps_grow _ _ St). apply IH; [apply (gate_steps_inv w0 a b Hw0 St); [lia|exact HI]|exact Hn].
Qed.

Lemma served_user (w : Who) (ps : list GPC) (st : Snap) : w ∈ known -> w.1 = false -> Forall (pc_ok st) ps -> tally (served w) ps <= tally (passed w) ps.
Proof.
  intros Hw Hu H. apply tally_le. eapply Forall_impl; [exact H|]. intros [] Hok Hs; try discriminate Hs. destruct Hok as [_ Hl]. cbn in Hs |- *. apply bool_decide_eq_true in Hs.
  destruct Hs as [-> | ->]; [|discriminate Hu]. unfold at_user. rewrite (lv_user _ _ Hl Hw), bool_decide_eq_true_2 by reflexivity. reflexivity.
Qed.

Lemma served_counted (w : Who) (pc : GPC) (st : Snap) : w ∈ known -> w.1 = false \/ 0 < lim w -> pc_ok st pc -> served w pc = true -> counted w pc = true.
Proof.
  intros Hw Hu Hok Hs. destruct pc; try discriminate Hs. destruct Hok as [[_ El] Hl]. cbn in Hs |- *. apply bool_decide_eq_true in Hs. unfold at_user, at_key.
  destruct Hs as [-> | ->].
  - rewrite (bool_decide_eq_true_2 (user_of m = user_of m)), (lv_user _ _ Hl Hw) by reflexivity. reflexivity.
  - rewrite (bool_decide_eq_true_2 (key_of m = key_of m)), !andb_true_r by reflexivity. destruct Hu as [Hu|Hu]; [discriminate|]. rewrite (lv_key _ _ Hl Hw) by lia. apply orb_true_r.
Qed.

Lemma counted_served (w : Who) (pc : GPC) : settled pc = true -> counted w pc = true -> served w pc = true.
Proof.
  destruct pc; try discriminate. cbn. intros _ H. apply bool_decide_eq_true. apply orb_prop in H as [H|H]; apply andb_prop in H as [_ H]; apply bool_decide_eq_true in H; auto.
Qed.

(** *** Any interleaving, reloads and deletions included *)

Definition cell_bound (w : Who) (v : Z) : Prop := 0 <= v <= max64 /\ (w.1 = true -> v <= lim w).
Definition cells_bounded (s : GState) : Prop := forall c w v, g_heap s !! (c, w) = Some v -> cell_bound w v.

Definition pc_limits (pc : GPC) : Prop :=
  match pc with
  | AcqStart m | AcqUser m _ | AcqShare m _ | AcqBorrow m _ | AcqBack m _ | AcqKey m _ _ | AcqKeyView m _ _ | AcqKeyCas m _ _ | AcqKeyBack m _ _
  | Held m _ | RelUser m _ _ | RelKey m _ _ => limits_of m
  | Gone => True
  end.

Lemma put_bounded (s : GState) (c : nat) (w : Who) (x : Z) : cells_bounded s -> cell_bound w x -> cells_bounded (put_cell s (c, w) x).
Proof. intros B Hx c' w' v H. cbn in H. rewrite lookup_insert_Some in H. destruct H as [[E <-]|[_ H]]; [injection E as <- <-; exact Hx|exact (B _ _ _ H)]. Qed.

Lemma dec_bound (w : Who) (v : Z) : cell_bound w v -> cell_bound w (decNonNegative v).
Proof.
  unfold cell_bound, decNonNegative. intros [H1 H2]. destruct (v <=? 0) eqn:E; [auto|]. rewrite sub64_small by (unfold_int; lia). split; [lia|]. intros Hw. specialize (H2 Hw). lia.
Qed.

Lemma inc_bound (m : KeyMeta) (v : Z) : cell_bound (user_of m) v -> cell_bound (user_of m) (incCounter v).
Proof.
  intros [H _]. split; [|discriminate]. unfold incCounter, maxQuotaInt64. destruct (v <? 0) eqn:E; [lia|]. destruct (v >=? max64) eqn:E2; [lia|]. rewrite add64_small by (unfold_int; lia). lia.
Qed.

Lemma cas_bound (m : KeyMeta) (v v' top : Z) : top <= lim (key_of m) -> cell_bound (key_of m) v -> casInc v top = Some v' -> cell_bound (key_of m) v'.
Proof.
  intros Ht [H _]. pose proof (lim_range (key_of m)). unfold casInc. destruct (v >=? top) eqn:E; [discriminate|]. intros [= <-]. rewrite add64_small by (unfold_int; lia).
  split; [lia|]. intros _. lia.
Qed.

Lemma rstep_bounded (s s' : GState) (pc pc' : GPC) : rstep s pc s' pc' -> pc_limits pc -> cells_bounded s -> pc_limits pc' /\ cells_bounded s'.
Proof.
  intros St Hl B. destruct St; cbn [pc_limits] in Hl; split; repeat case_match; try exact Hl; try exact B; try exact I;
    repeat match goal with Hh : g_heap _ !! _ = Some _ |- _ => apply B in Hh end; try (apply put_bounded; [exact B|]); auto using dec_bound, inc_bound.
  - split; [unfold_int; lia|discriminate].
  - eapply cas_bound; [|eassumption|eassumption]. destruct Hl as [_ E]. pose proof (lim_range (key_of m)). pose proof (concShare_range (km_KeyMaxConc m) n ltac:(lia) ltac:(lia)). lia.
  - eapply cas_bound; [|eassumption|eassumption]. destruct Hl as [_ E]. lia.
Qed.

Lemma zero_bound (w : Who) : cell_bound w 0.
Proof. pose proof (lim_range w). split; [unfold_int; lia|lia]. Qed.

Lemma added_bounded (s : GState) (c : nat) (w : Who) : cells_bounded s -> cells_bounded (add_counter s c w).
Proof.
  intros B. unfold add_counter. destruct (g_store s !! w); [exact B|]. intros c' w' v H. cbn [g_heap] in H. rewrite lookup_insert_Some in H.
  destruct H as [[E <-]|[_ H]]; [injection E as <- <-; apply zero_bound|exact (B _ _ _ H)].
Qed.

Lemma lstep_bounded (s s' : GState) (p p' : Publisher) : lstep s p s' p' -> cells_bounded s -> cells_bounded s'.
Proof.
  intros St B. destruct St; try exact B; [|apply added_bounded, added_bounded, B]. apply put_bounded; [exact B|]. match goal with Hi : inherited _ _ _ _ |- _ => unfold inherited in Hi; revert Hi end. destruct (old !! w); [exact (B _ _ _)|intros ->; apply zero_bound].
Qed.

Lemma bounded_always (a b : GConfig) : rtc all_steps a b -> cells_bounded (c_state a) /\ Forall pc_limits (c_reqs a) -> cells_bounded (c_state b) /\ Forall pc_limits (c_reqs b).
Proof.
  induction 1 as [|a b c St _ IH]; [auto|]. intros [B F]. apply IH. destruct St as [s p ps m Hm|s s' p ps1 pc pc' ps2 St|s s' p p' ps St]; cbn [c_state c_reqs] in *.
  - split; [exact B|constructor; assumption].
  - apply Forall_app in F as [F1 F2]. apply Forall_cons in F2 as [Fp F2]. destruct (rstep_bounded _ _ _ _ St Fp B) as [Fp' B']. split; [exact B'|]. apply Forall_app. split; [exact F1|constructor; assumption].
  - split; [exact (lstep_bounded _ _ _ _ St B)|exact F].
Qed.
End Conc.

(** ** Properties *)

(** Every known user and key has a counter at zero. *)
Definition idle (known : gset Who) (s : GState) : Prop := forall w, w ∈ known -> exists c, g_store s !! w = Some c /\ g_heap s !! (c, w) = Some 0.

(** in every interleaving of requests, reloads, upserts and deletions no counter
    of any snapshot is ever negative, and none of a key is above its limit. *)
Theorem gate_cells_bounded (views : option clusterView -> Prop) (lim : Who -> Z) (s : GState) (g : GConfig) (c : nat) (w : Who) (v : Z) :
  (forall w, 0 <= lim w <= max64) -> (forall c w v, g_heap s !! (c, w) = Some v -> v = 0) -> rtc (all_steps views lim) (mkConfig s PubIdle []) g ->
  g_heap (c_state g) !! (c, w) = Some v -> 0 <= v <= max64 /\ (w.1 = true -> v <= lim w).
Proof.
  intros L Z0 R H. refine (proj1 (bounded_always views lim L _ _ R _) c w v H). split; [|constructor]. intros c' w' v' H'. rewrite (Z0 _ _ _ H'). apply zero_bound, L.
Qed.


(** A key limited to one request of a user without limit. *)
Definition one_meta : KeyMeta := mkKeyMeta 7 3 1 "active" 1 "active" 0 false 0 0.
Definition one_lim (w : Who) : Z := if w.1 then 1 else 0.
Definition local_only (cv : option clusterView) : Prop := cv = None.
Definition one_state : GState :=
  mkG (<[user_of one_meta := 0%nat]> {[key_of one_meta := 0%nat]}) (<[(0%nat, user_of one_meta) := 0]> {[(0%nat, key_of one_meta) := 0]}).

Lemma one_limits : limits_of one_lim one_meta.
Proof. split; reflexivity. Qed.


(** across a reload the count can be lost: a request that loaded the old
    snapshot before the reload and takes its key slot after the copy is not
    counted in the new snapshot, so two requests of a key limited to one are
    served together. *)
Theorem reload_loses_count :
  exists g, rtc (all_steps local_only one_lim) (mkConfig one_state PubIdle []) g /\ tally (served (key_of one_meta)) (c_reqs g) = 2.
Proof.
  eexists. split.
  - eapply rtc_l; [apply (s_arrive local_only one_lim _ _ _ one_meta one_limits)|].
    eapply rtc_l; [eapply (s_request local_only one_lim _ _ _ []), a_load|].
    eapply rtc_l; [eapply (s_request local_only one_lim _ _ _ []), (a_user local_only _ _ _ 0%nat 0); (reflexivity || lia)|].
    eapply rtc_l; [eapply (s_request local_only one_lim _ _ _ []), (a_share local_only _ _ _ 0%nat 1 1); (reflexivity || lia)|].
    eapply rtc_l; [eapply (s_publish local_only one_lim), (l_start _ [one_meta])|].
    eapply rtc_l; [eapply (s_publish local_only one_lim), (l_copy _ _ _ _ _ 1 1%nat); [right; reflexivity|reflexivity|reflexivity]|].
    eapply rtc_l; [eapply (s_publish local_only one_lim), (l_copy _ _ _ _ _ 0 1%nat); [left; reflexivity|reflexivity|reflexivity]|].
    eapply rtc_l; [eapply (s_request local_only one_lim _ _ _ []), (a_key local_only _ _ _ _ 0%nat 0 1); (reflexivity || lia)|].
    eapply rtc_l; [eapply (s_publish local_only one_lim), l_publish|].
    eapply rtc_l; [apply (s_arrive local_only one_lim _ _ _ one_meta one_limits)|].
    eapply rtc_l; [eapply (s_request local_only one_lim _ _ _ []), a_load|].
    eapply rtc_l; [eapply (s_request local_only one_lim _ _ _ []), (a_user local_only _ _ _ 1%nat 1); (reflexivity || lia)|].
    eapply rtc_l; [eapply (s_request local_only one_lim _ _ _ []), (a_share local_only _ _ _ 1%nat 2 1); (reflexivity || lia)|].
    eapply rtc_l; [eapply (s_request local_only one_lim _ _ _ []), (a_key local_only _ _ _ _ 1%nat 0 1); (reflexivity || lia)|].
    apply rtc_refl.
  - vm_compute. reflexivity.
Qed.

Definition one_known : gset Who := {[user_of one_meta; key_of one_meta]}.

Definition one_served : GConfig :=
  mkConfig (put_cell (put_cell one_state (0%nat, user_of one_meta) 1) (0%nat, key_of one_meta) 1) PubIdle [Held one_meta 3].

Lemma one_served_reached : rtc (steps local_only one_known one_lim) (mkConfig one_state PubIdle []) one_served.
Proof.
  eapply rtc_l; [apply (q_arrive local_only _ one_lim _ _ one_meta one_limits)|].
  eapply rtc_l; [eapply (q_request local_only _ one_lim _ _ []), a_load|].
  eapply rtc_l; [eapply (q_request local_only _ one_lim _ _ []), (a_user local_only _ _ _ 0%nat 0); (reflexivity || lia)|].
  eapply rtc_l; [eapply (q_request local_only _ one_lim _ _ []), (a_share local_only _ _ _ 0%nat 1 1); (reflexivity || lia)|].
  eapply rtc_l; [eapply (q_request local_only _ one_lim _ _ []), (a_key local_only _ _ _ _ 0%nat 0 1); (reflexivity || lia)|].
  apply rtc_refl.
Qed.

Lemma one_idle : idle one_known one_state.
Proof. intros w Hw. exists 0%nat. unfold one_known in Hw. apply elem_of_union in Hw as [Hw|Hw]; apply elem_of_singleton in Hw as ->; split; reflexivity. Qed.

Lemma one_lim_range (w : Who) : 0 <= one_lim w <= max64.
Proof. unfold one_lim. destruct w as [[] k]; cbn; unfold_int; lia. Qed.


Lemma gate_cells_bounded_witness : 0 <= 1 <= max64.
Proof.
  refine (proj1 (gate_cells_bounded local_only one_lim one_state
    (mkConfig (put_cell one_state (0%nat, user_of one_meta) 1) PubIdle [AcqShare one_meta (g_store one_state)]) 0%nat (user_of one_meta) 1 one_lim_range _ _ eq_refl)).
  - intros c w v H. unfold one_state in H. cbn in H. rewrite lookup_insert_Some in H. destruct H as [[_ <-]|[_ H]]; [reflexivity|]. apply lookup_singleton_Some in H as [_ <-]. reflexivity.
  - eapply rtc_l; [apply (s_arrive local_only one_lim _ _ _ one_meta one_limits)|].
    eapply rtc_l; [eapply (s_request local_only one_lim _ _ _ []), a_load|].
    eapply rtc_l; [eapply (s_request local_only one_lim _ _ _ []), (a_user local_only _ _ _ 0%nat 0); (reflexivity || lia)|].
    apply rtc_refl.
Defined.
