(* ===== verification/GoTime.v ===== *)
(** * Go time and floating point

    The part of Go's [time] package and of its [float64] arithmetic the modelled
    code uses.  A [time.Duration] is an [int64] number of nanoseconds; [Sub]
    saturates, [Truncate] rounds down to a multiple since the zero time and
    [ParseDuration] follows the standard library's scanner, fractions through
    binary64 arithmetic ([SpecFloat]) included. *)

From Stdlib Require Import ZArith Lia List Bool Ascii String.
From Stdlib Require Import Floats.SpecFloat.
From stdpp Require Import base option list strings.
From S2P Require Import Prelude GoString Domain.
Import ListNotations.
Local Open Scope string_scope.
Local Open Scope Z_scope.

(** ** [float64] *)

Definition float64 : Type := spec_float.
Definition f64_prec : Z := 53.
Definition f64_emax : Z := 1024.

(** [float64(n)] for an integer, round to nearest even. *)
Definition f64_of_int (n : Z) : float64 := binary_normalize f64_prec f64_emax n 0 false.
Definition f64_div (x y : float64) : float64 := SFdiv f64_prec f64_emax x y.
Definition f64_mul (x y : float64) : float64 := SFmul f64_prec f64_emax x y.
Definition f64_add (x y : float64) : float64 := SFadd f64_prec f64_emax x y.
Definition f64_ge (x y : float64) : bool := SFleb y x.
Definition f64_lt (x y : float64) : bool := SFltb x y.

(** [uint64(x)] for a finite non-negative [x]: the integer part. *)
Definition f64_trunc (x : float64) : Z :=
  match x with
  | S754_finite false m e => if 0 <=? e then Zpos m * 2 ^ e else Zpos m / 2 ^ (- e)
  | _ => 0
  end.

(** ** Instants *)

Definition Duration : Type := Z.

(** [t.Sub(u)] saturates at the ends of the [Duration] range. *)
Definition Sub (t u : Time) : Duration := Z.max min64 (Z.min max64 (t - u)).

Definition Truncate (t : Time) (d : Duration) : Time :=
  if d <=? 0 then t else t - t mod d.

Definition IsZero (t : Time) : bool := t =? 0.
Definition Before (t u : Time) : bool := t <? u.
Definition After (t u : Time) : bool := u <? t.

(** ** [time.ParseDuration] *)

Definition two63 : Z := 9223372036854775808.

Definition unitMap (u : string) : option Z :=
  if u ==s "ns" then Some 1
  else if u ==s "us" then Some 1000
  else if u ==s String (byte_of 194) (String (byte_of 181) "s") then Some 1000
  else if u ==s String (byte_of 206) (String (byte_of 188) "s") then Some 1000
  else if u ==s "ms" then Some millisecond
  else if u ==s "s" then Some second
  else if u ==s "m" then Some minute
  else if u ==s "h" then Some hour
  else None.

Fixpoint leadingInt (x : Z) (s : string) : option (Z * string) :=
  match s with
  | EmptyString => Some (x, s)
  | String c s' =>
      if is_digit c then
        if two63 / 10 <? x then None
        else
          let x' := x * 10 + digit_val c in
          if two63 <? x' then None else leadingInt x' s'
      else Some (x, s)
  end.

Fixpoint leadingFraction (x : Z) (scale : float64) (overflow : bool) (s : string)
  : Z * float64 * string :=
  match s with
  | EmptyString => (x, scale, s)
  | String c s' =>
      if is_digit c then
        if overflow then leadingFraction x scale true s'
        else if max64 / 10 <? x then leadingFraction x scale true s'
        else
          let y := x * 10 + digit_val c in
          if two63 <? y then leadingFraction x scale true s'
          else leadingFraction y (f64_mul scale (f64_of_int 10)) false s'
      else (x, scale, s)
  end.

Definition is_dot (c : ascii) : bool := byte_val c =? 46.
Definition starts_number (c : ascii) : bool := is_dot c || is_digit c.

(** The unit: everything up to the next digit or dot. *)
Fixpoint take_unit (s : string) : string * string :=
  match s with
  | EmptyString => (EmptyString, EmptyString)
  | String c s' =>
      if starts_number c then (EmptyString, s)
      else let '(u, r) := take_unit s' in (String c u, r)
  end.

(** The optional fraction: its digits, its scale, the rest and whether a digit
    followed the dot. *)
Definition parse_fraction (s : string) : Z * float64 * string * bool :=
  match s with
  | String c s' =>
      if is_dot c then
        let '(f, scale, r) := leadingFraction 0 (f64_of_int 1) false s' in
        (f, scale, r, negb (String.length r =? String.length s')%nat)
      else (0, f64_of_int 1, s, false)
  | EmptyString => (0, f64_of_int 1, s, false)
  end.

(** One [number unit] group: its value in nanoseconds and the rest. *)
Definition parse_group (s : string) : option (Z * string) :=
  match s with
  | EmptyString => None
  | String c _ =>
      if negb (starts_number c) then None
      else
        match leadingInt 0 s with
        | None => None
        | Some (v, s1) =>
            let pre := negb (String.length s1 =? String.length s)%nat in
            let '(f, scale, s2, post) := parse_fraction s1 in
            if negb pre && negb post then None
            else
              let '(u, s3) := take_unit s2 in
              if u ==s "" then None
              else
                match unitMap u with
                | None => None
                | Some unit =>
                    if two63 / unit <? v then None
                    else
                      let v1 := v * unit in
                      if 0 <? f then
                        let v2 := v1 + f64_trunc (f64_mul (f64_of_int f) (f64_div (f64_of_int unit) scale)) in
                        if two63 <? v2 then None else Some (v2, s3)
                      else Some (v1, s3)
                end
        end
  end.

(** Every group consumes at least one byte, so the string's length is fuel
    enough. *)
Fixpoint parse_groups (fuel : nat) (d : Z) (s : string) : option Z :=
  match s with
  | EmptyString => Some d
  | _ =>
      match fuel with
      | O => None
      | S k =>
          match parse_group s with
          | None => None
          | Some (v, r) => if two63 <? d + v then None else parse_groups k (d + v) r
          end
      end
  end.

Definition ParseDuration (s : string) : option Duration :=
  let '(sg, s1) := scan_sign s in
  if s1 ==s "0" then Some 0
  else if s1 ==s "" then None
  else
    match parse_groups (String.length s1) 0 s1 with
    | None => None
    | Some d =>
        if sg <? 0 then Some (wrap64 (- d))
        else if max64 <? d then None
        else Some d
    end.

Example ParseDuration_units :
  ParseDuration "2s" = Some (2 * second) /\ ParseDuration "10m" = Some (10 * minute) /\
  ParseDuration "1h15m30.918s" = Some (4530918 * millisecond) /\
  ParseDuration "-1.5h" = Some (-90 * minute) /\
  ParseDuration "0.3333333333333333333h" = Some (20 * minute) /\
  ParseDuration "5" = None /\ ParseDuration ".s" = None /\
  ParseDuration "9223372036854775808ns" = None.
Proof. vm_compute. repeat split. Qed.

(** ** Lemmas *)

Lemma Sub_exact (t u : Time) : int64 (t - u) -> Sub t u = t - u.
Proof. unfold Sub. unfold_int. lia. Qed.

Lemma Truncate_bounds (t d : Z) : 0 < d ->
  Truncate t d <= t < Truncate t d + d /\ exists q, Truncate t d = q * d.
Proof.
  intros Hd. unfold Truncate. destruct (Z.leb_spec d 0); [lia|].
  destruct (div_mod_split t d Hd) as [E [? ?]]. split; [lia|].
  exists (t / d). lia.
Qed.
