(* ===== verification/RuleTypes.v ===== *)
(** * Rule engine data

    The data the rule engine exchanges with the scheduler: the event of a
    finished request ([rule.Event]), the conditions and actions of a rule
    ([domain.RuleWhen], [domain.RuleThen], [domain.Rule]) and the event kinds.
    A kind is a Go [int], kept as [Z]: [kindFromString] answers -1 for an
    unknown name.  Ratios are IEEE 754 binary64 values ([spec_float]). *)

From Stdlib Require Import ZArith Lia List Bool String.
From Stdlib Require Import Floats.SpecFloat.
From stdpp Require Import base option list gmap strings.
From S2P Require Import Prelude Domain.
Import ListNotations.
Local Open Scope string_scope.
Local Open Scope Z_scope.

(** ** Event kinds *)

Definition Kind : Type := Z.
Definition KindOK : Kind := 0.
Definition Kind429 : Kind := 1.
Definition Kind4xx : Kind := 2.
Definition Kind5xx : Kind := 3.
Definition KindNetwork : Kind := 4.

Definition Kind_String (k : Kind) : string :=
  if k =? KindOK then "ok"
  else if k =? Kind429 then "429"
  else if k =? Kind4xx then "4xx"
  else if k =? Kind5xx then "5xx"
  else if k =? KindNetwork then "network"
  else "unknown".

Definition kindFromString (s : string) : Kind :=
  if s ==s "ok" then KindOK
  else if s ==s "429" then Kind429
  else if s ==s "4xx" then Kind4xx
  else if s ==s "5xx" then Kind5xx
  else if s ==s "network" then KindNetwork
  else -1.

(** ** Events *)

Record Event := mkEvent {
  ev_AccountID : Z;
  ev_TemplateID : Z;
  ev_GroupID : option Z;
  ev_Model : string;
  ev_Kind : Kind;
  ev_HTTPStatus : option Z;
  ev_ErrorMessage : string;
  ev_ResetAt : option Time;
  ev_OccurredAt : Time
}.

(** ** Rules *)

Record RuleWhen := mkRuleWhen {
  rw_Kind : option string;
  rw_HTTPStatus : option Z;
  rw_ErrorMessageContains : option string;
  rw_AccountID : option Z;
  rw_TemplateID : option Z;
  rw_GroupID : option Z;
  rw_Model : option string;
  (** A nil slice is [None]: validation tells it from an empty one. *)
  rw_HTTPStatusIn : option (list Z);
  rw_ModelIn : option (list string);
  rw_ErrorMessageContainsIn : option (list string);
  rw_WindowSeconds : option Z;
  rw_Count429GE : option Z;
  rw_CountFailureGE : option Z;
  rw_CountOKGE : option Z;
  rw_CountTotalGE : option Z;
  rw_Ratio429GE : option spec_float;
  rw_RatioFailureGE : option spec_float
}.

Record RuleThen := mkRuleThen {
  rt_Status : option AccountStatus;
  rt_Cooldown : option string;
  rt_Weight : option Z;
  rt_ResponseCode : option Z;
  rt_CustomMessage : option string
}.

Record Rule := mkRule {
  ru_RuleID : Z;
  ru_Name : string;
  ru_Enabled : bool;
  ru_Priority : Z;
  ru_When : RuleWhen;
  ru_Then : RuleThen
}.

(** The zero values [RuleWhen{}] and [RuleThen{}]. *)
Definition zero_When : RuleWhen :=
  mkRuleWhen None None None None None None None None None None None None None None None None None.
Definition zero_Then : RuleThen := mkRuleThen None None None None None.

(** Ranging over a slice and taking its length treat nil as empty. *)
Definition elems {A} (l : option (list A)) : list A := default [] l.

(** Every kind the engine counts is printed and read back. *)
Lemma kind_roundtrip (k : Kind) : 0 <= k <= 4 -> kindFromString (Kind_String k) = k.
Proof.
  intros H. assert (k = 0 \/ k = 1 \/ k = 2 \/ k = 3 \/ k = 4) as C by lia.
  destruct C as [->|[->|[->|[->| ->]]]]; reflexivity.
Qed.
