(* ===== verification/Windows.v ===== *)
(** * Sliding window counters ([internal/rule/windows.go])

    Per account, the rule engine counts successes, failures and 429s in a ring
    of time buckets.  [windowMap] is the ring as the source keeps it: a list of
    maps indexed by position, the index of the current bucket and the instant
    at which the ring moves on.  The abstract counterpart is the history of the
    events handed to [Add]: the theorems show that a snapshot equals a count
    over that history.  The per-bucket counters are plain integers: they grow by
    one per event. *)

From Stdlib Require Import ZArith Lia List Bool String.
From stdpp Require Import base option list gmap strings sorting.
From S2P Require Import Prelude Domain GoTime RuleTypes.
Import ListNotations.
Local Open Scope Z_scope.

(** ** Counters *)

Record winCounts := mkCounts { wc_ok : Z; wc_failure : Z; wc_t429 : Z }.
Definition windowSnapshot : Type := winCounts.

Definition zero_counts : winCounts := mkCounts 0 0 0.
Definition total (s : windowSnapshot) : Z := wc_ok s + wc_failure s + wc_t429 s.

Definition plus_counts (a b : winCounts) : winCounts :=
  mkCounts (wc_ok a + wc_ok b) (wc_failure a + wc_failure b) (wc_t429 a + wc_t429 b).

(** The [switch ev.Kind] of [Add]: an unknown kind leaves the counters alone. *)
Definition bump (k : Kind) (c : winCounts) : winCounts :=
  if k =? KindOK then mkCounts (wc_ok c + 1) (wc_failure c) (wc_t429 c)
  else if k =? Kind429 then mkCounts (wc_ok c) (wc_failure c) (wc_t429 c + 1)
  else if (k =? Kind4xx) || (k =? Kind5xx) || (k =? KindNetwork)
  then mkCounts (wc_ok c) (wc_failure c + 1) (wc_t429 c)
  else c.

(** ** The ring *)

Definition ringBuckets : Z := 6.
Definition defaultWindowSeconds : Z := 60.


Record windowMap := mkWindowMap {
  wm_width : Duration;
  wm_buckets : list (gmap Z winCounts);
  wm_cur : Z;
  wm_nextAt : Time;
  wm_trackOK : bool;
  wm_lastSeen : gmap Z Time;
  wm_retention : Duration
}.

(** The zero value of the struct, before the first [reset]. *)
Definition zero_windowMap : windowMap := mkWindowMap 0 [] 0 0 false ∅ 0.

Definition nbuckets (w : windowMap) : Z := Z.of_nat (length (wm_buckets w)).
Definition bucket_of (w : windowMap) (idx : Z) : gmap Z winCounts :=
  default ∅ (wm_buckets w !! Z.to_nat idx).

Definition width_grades : list Duration :=
  [second; 5 * second; 10 * second; 15 * second; 30 * second;
   minute; 5 * minute; 10 * minute; 15 * minute; 30 * minute; hour].

Definition bucketWidth (maxWindow : Duration) : Duration * Z :=
  match List.find (fun w => (maxWindow [%] w =? 0) && (maxWindow [/] w <=? ringBuckets)) width_grades with
  | Some w => (w, maxWindow [/] w)
  | None =>
      let width := maxWindow [/] ringBuckets in
      let width := if negb (maxWindow [%] ringBuckets =? 0) then width [+] second else width in
      let width := if width <? second then second else width in
      (width, (maxWindow [+] width [-] 1) [/] width)
  end.

Definition reset (maxWindow : Duration) (trackOK : bool) : windowMap :=
  let maxWindow := if maxWindow <=? 0 then defaultWindowSeconds [*] second else maxWindow in
  let '(width, n) := bucketWidth maxWindow in
  let buckets := replicate (Z.to_nat (n + 1)) ∅ in
  let retention := 2 [*] Z.of_nat (length buckets) [*] width in
  mkWindowMap width buckets 0 0 trackOK ∅ (if retention <? minute then minute else retention).

Definition advance (w : windowMap) : windowMap :=
  let cur := Z.rem (wm_cur w + 1) (nbuckets w) in
  mkWindowMap (wm_width w) (<[Z.to_nat cur := ∅]> (wm_buckets w)) cur
    (wm_nextAt w + wm_width w) (wm_trackOK w) (wm_lastSeen w) (wm_retention w).

Definition with_nextAt (w : windowMap) (t : Time) : windowMap :=
  mkWindowMap (wm_width w) (wm_buckets w) (wm_cur w) t (wm_trackOK w) (wm_lastSeen w) (wm_retention w).

(** [for !t.Before(w.nextAt) { w.advance() }]. *)
Fixpoint advance_loop (fuel : nat) (t : Time) (w : windowMap) : windowMap :=
  match fuel with
  | O => w
  | S k => if negb (Before t (wm_nextAt w)) then advance_loop k t (advance w) else w
  end.

(** Turns the loop needs: one per bucket width up to [t]. *)
Definition advance_fuel (t : Time) (w : windowMap) : nat :=
  Z.to_nat ((t - wm_nextAt w) / wm_width w + 1).

Definition advanceTo (t : Time) (w : windowMap) : windowMap :=
  if IsZero (wm_nextAt w) then with_nextAt w (Truncate t (wm_width w) + wm_width w)
  else advance_loop (advance_fuel t w) t w.

Definition bucketIdx (t : Time) (w : windowMap) : Z :=
  let offset := (Sub (wm_nextAt w) t [+] wm_width w [-] 1) [/] wm_width w in
  if nbuckets w <? offset then -1
  else
    let idx := Z.rem (wm_cur w - offset + 1) (nbuckets w) in
    if idx <? 0 then idx + nbuckets w else idx.

(** The account's latest event time. *)
Definition touch (a : Z) (t : Time) (seen : gmap Z Time) : gmap Z Time :=
  match seen !! a with
  | Some last => if After t last then <[a := t]> seen else seen
  | None => <[a := t]> seen
  end.

(** Count [ev] in bucket [idx]. *)
Definition record_event (ev : Event) (idx : Z) (w : windowMap) : windowMap :=
  let b := bucket_of w idx in
  let c := bump (ev_Kind ev) (default zero_counts (b !! ev_AccountID ev)) in
  mkWindowMap (wm_width w) (<[Z.to_nat idx := <[ev_AccountID ev := c]> b]> (wm_buckets w))
    (wm_cur w) (wm_nextAt w) (wm_trackOK w)
    (touch (ev_AccountID ev) (ev_OccurredAt ev) (wm_lastSeen w)) (wm_retention w).

Definition Add (ev : Event) (w : windowMap) : windowMap :=
  if nbuckets w =? 0 then w
  else
    let w := advanceTo (ev_OccurredAt ev) w in
    let idx := bucketIdx (ev_OccurredAt ev) w in
    if idx <? 0 then w
    else if negb (wm_trackOK w) && (ev_Kind ev =? KindOK) then w
    else record_event ev idx w.

(** The aggregation loop of [Snapshot]: buckets [cur], [cur-1], ... *)
Fixpoint sum_back (n : nat) (i : Z) (aid : Z) (w : windowMap) (out : windowSnapshot) : windowSnapshot :=
  match n with
  | O => out
  | S k =>
      let idx := wm_cur w - i in
      let idx := if idx <? 0 then idx + nbuckets w else idx in
      let out := match bucket_of w idx !! aid with Some c => plus_counts out c | None => out end in
      sum_back k (i + 1) aid w out
  end.

(** How many buckets a window of [secs] nanoseconds ending at [at] spans. *)
Definition span (secs : Duration) (at_ : Time) (w : windowMap) : Z :=
  let frac := Sub at_ (Truncate at_ (wm_width w)) in
  let n := if frac <? secs then 1 + (secs [-] frac [+] wm_width w [-] 1) [/] wm_width w else 1 in
  if nbuckets w <? n then nbuckets w else n.

Definition Snapshot (aid : Z) (seconds : Z) (at_ : Time) (w : windowMap) : windowSnapshot * windowMap :=
  if nbuckets w =? 0 then (zero_counts, w)
  else
    let w := advanceTo at_ w in
    let secs := seconds [*] second in
    if secs <=? 0 then (zero_counts, w)
    else
      let coverage := nbuckets w [*] wm_width w in
      let secs := if coverage <? secs then coverage else secs in
      (sum_back (Z.to_nat (span secs at_ w)) 0 aid w zero_counts, w).

(** ** [cleanup]

    The map's keys sorted by their time, oldest first; the scan stops at the
    first fresh account.  A key's time does not change during the scan, so it
    travels with the key. *)

Definition older (p q : Z * Time) : Prop := (p.2 <= q.2).
#[export] Instance older_dec (p q : Z * Time) : Decision (older p q) := ltac:(unfold older; apply _).

Definition drop_account (a : Z) (w : windowMap) : windowMap :=
  mkWindowMap (wm_width w) (map (delete a) (wm_buckets w)) (wm_cur w) (wm_nextAt w)
    (wm_trackOK w) (delete a (wm_lastSeen w)) (wm_retention w).

Fixpoint prune (cutoff : Time) (keys : list (Z * Time)) (w : windowMap) : windowMap :=
  match keys with
  | [] => w
  | (a, t) :: rest => if After t cutoff then w else prune cutoff rest (drop_account a w)
  end.

Definition cleanup (now : Time) (w : windowMap) : windowMap :=
  prune (now - wm_retention w) (merge_sort older (map_to_list (wm_lastSeen w))) w.

(** ** The abstract counterpart: a count over the event history *)

(** [ev] is one of [a]'s events in [[lo, hi)] that the ring keeps track of. *)
Definition in_cell (trackOK : bool) (a lo hi : Z) (ev : Event) : bool :=
  (ev_AccountID ev =? a) && (lo <=? ev_OccurredAt ev) && (ev_OccurredAt ev <? hi)
  && (trackOK || negb (ev_Kind ev =? KindOK)).

Definition counts_between (trackOK : bool) (hist : list Event) (a lo hi : Z) : winCounts :=
  foldr (fun ev c => if in_cell trackOK a lo hi ev then bump (ev_Kind ev) c else c) zero_counts hist.

(** ** Counting lemmas *)

Lemma bump_plus (k : Kind) (a b : winCounts) : bump k (plus_counts a b) = plus_counts (bump k a) b.
Proof. unfold bump, plus_counts. repeat bcase; cbn; f_equal; lia. Qed.

Lemma plus_counts_zero_l (c : winCounts) : plus_counts zero_counts c = c.
Proof. destruct c. unfold plus_counts. cbn. reflexivity. Qed.

Lemma plus_counts_zero_r (c : winCounts) : plus_counts c zero_counts = c.
Proof. destruct c. unfold plus_counts. cbn. f_equal; lia. Qed.

Lemma plus_counts_comm (a b : winCounts) : plus_counts a b = plus_counts b a.
Proof. unfold plus_counts. f_equal; lia. Qed.

Lemma plus_counts_assoc (a b c : winCounts) :
  plus_counts a (plus_counts b c) = plus_counts (plus_counts a b) c.
Proof. unfold plus_counts; cbn. f_equal; lia. Qed.

Lemma counts_between_cons (tr : bool) (ev : Event) (h : list Event) (a lo hi : Z) :
  counts_between tr (ev :: h) a lo hi =
  (if in_cell tr a lo hi ev then bump (ev_Kind ev) (counts_between tr h a lo hi)
   else counts_between tr h a lo hi).
Proof. reflexivity. Qed.

(** Adjacent intervals add up. *)
Lemma counts_between_split (tr : bool) (h : list Event) (a lo mid hi : Z) : lo <= mid <= hi ->
  counts_between tr h a lo hi = plus_counts (counts_between tr h a mid hi) (counts_between tr h a lo mid).
Proof.
  intros Hm. induction h as [|ev h IH]; [reflexivity|]. rewrite !counts_between_cons, IH. unfold in_cell.
  destruct (ev_AccountID ev =? a); cbn; [|reflexivity].
  destruct (tr || negb (ev_Kind ev =? KindOK)); rewrite ?andb_false_r, ?andb_true_r; [|reflexivity].
  destruct (Z.leb_spec lo (ev_OccurredAt ev)), (Z.ltb_spec (ev_OccurredAt ev) hi),
    (Z.leb_spec mid (ev_OccurredAt ev)), (Z.ltb_spec (ev_OccurredAt ev) mid); cbn; try lia; try reflexivity.
  - apply bump_plus.
  - rewrite plus_counts_comm, bump_plus, plus_counts_comm. reflexivity.
Qed.

(** No event in the cell, no count. *)
Lemma counts_between_empty (tr : bool) (h : list Event) (a lo hi : Z) :
  (forall ev, ev ∈ h -> in_cell tr a lo hi ev = false) -> counts_between tr h a lo hi = zero_counts.
Proof.
  intros H. induction h as [|ev h IH]; [reflexivity|]. rewrite counts_between_cons, (H ev) by set_solver.
  apply IH. intros e He. apply H. set_solver.
Qed.

Lemma counts_between_none (tr : bool) (h : list Event) (a lo hi : Z) :
  (forall ev, ev ∈ h -> ~ (lo <= ev_OccurredAt ev < hi)) -> counts_between tr h a lo hi = zero_counts.
Proof.
  intros H. apply counts_between_empty. intros ev Hev. specialize (H ev Hev). unfold in_cell.
  destruct (Z.leb_spec lo (ev_OccurredAt ev)), (Z.ltb_spec (ev_OccurredAt ev) hi);
    rewrite ?andb_false_r; cbn; try reflexivity; lia.
Qed.

(** Dropping events from outside the cell changes nothing. *)
Lemma counts_between_filter (tr : bool) (h : list Event) (a lo hi : Z) (P : Event -> Prop)
  `{forall e, Decision (P e)} :
  (forall ev, ev ∈ h -> in_cell tr a lo hi ev = true -> P ev) ->
  counts_between tr (filter P h) a lo hi = counts_between tr h a lo hi.
Proof.
  intros HP. induction h as [|ev h IH]; [reflexivity|]. rewrite filter_cons, counts_between_cons.
  assert (counts_between tr (filter P h) a lo hi = counts_between tr h a lo hi) as E
    by (apply IH; intros e He; apply HP; set_solver).
  destruct (decide (P ev)) as [|Hn]; rewrite ?counts_between_cons, E; [reflexivity|].
  destruct (in_cell tr a lo hi ev) eqn:Ec; [|reflexivity]. exfalso. apply Hn, HP; [set_solver|exact Ec].
Qed.

(** Past the last event, the upper end does not matter. *)
Lemma counts_between_hi (tr : bool) (h : list Event) (a lo hi hi' : Z) :
  (forall ev, ev ∈ h -> ev_OccurredAt ev < hi) -> (forall ev, ev ∈ h -> ev_OccurredAt ev < hi') ->
  counts_between tr h a lo hi = counts_between tr h a lo hi'.
Proof.
  intros H H'. induction h as [|ev h IH]; [reflexivity|]. rewrite !counts_between_cons.
  rewrite IH by (intros e He; first [apply H | apply H']; set_solver).
  assert (ev_OccurredAt ev < hi) by (apply H; set_solver).
  assert (ev_OccurredAt ev < hi') by (apply H'; set_solver).
  unfold in_cell. rewrite !(proj2 (Z.ltb_lt _ _)) by assumption. reflexivity.
Qed.

(** ** Ring positions *)

(** The counters [aid] has in the bucket [i] steps before the current one. *)
Definition cell (w : windowMap) (i a : Z) : winCounts :=
  default zero_counts (bucket_of w ((wm_cur w - i) mod nbuckets w) !! a).

Lemma mod_shift (x n : Z) : 0 < n -> - n <= x < 0 -> x mod n = x + n.
Proof. intros Hn Hx. symmetry. apply (Z.mod_unique x n (-1)); lia. Qed.

Lemma back_idx (cur i n : Z) : 0 <= cur < n -> 0 <= i < n ->
  (if cur - i <? 0 then cur - i + n else cur - i) = (cur - i) mod n.
Proof.
  intros Hc Hi. destruct (Z.ltb_spec (cur - i) 0).
  - rewrite mod_shift; lia.
  - rewrite Z.mod_small; lia.
Qed.

Lemma rem_idx (cur o n : Z) : 0 <= cur < n -> 1 <= o <= n ->
  (let idx := Z.rem (cur - o + 1) n in if idx <? 0 then idx + n else idx) = (cur - (o - 1)) mod n.
Proof.
  intros Hc Ho. cbn. rewrite <- (back_idx cur (o - 1) n) by lia.
  replace (cur - o + 1) with (cur - (o - 1)) by lia.
  destruct (Z.ltb_spec (cur - (o - 1)) 0) as [Hlt|Hge].
  - replace (cur - (o - 1)) with (- (o - 1 - cur)) by lia.
    rewrite Z.rem_opp_l, Z.rem_small by lia. destruct (Z.ltb_spec (- (o - 1 - cur)) 0); lia.
  - rewrite Z.rem_small by lia. destruct (Z.ltb_spec (cur - (o - 1)) 0); lia.
Qed.

(** Distinct ages sit in distinct buckets. *)
Lemma idx_inj (cur i j n : Z) : 0 < n -> 0 <= i < n -> 0 <= j < n ->
  (cur - i) mod n = (cur - j) mod n -> i = j.
Proof.
  intros Hn Hi Hj H.
  destruct (div_mod_split (cur - i) n Hn) as [E1 _], (div_mod_split (cur - j) n Hn) as [E2 _].
  rewrite H in E1. set (q1 := (cur - i) / n) in *. set (q2 := (cur - j) / n) in *.
  assert (j - i = n * (q1 - q2)) as E by lia. destruct (Z.lt_trichotomy q1 q2) as [|[|]]; nia.
Qed.

(** ** The ring represents a history *)

Definition tracked (tr : bool) (ev : Event) : bool := tr || negb (ev_Kind ev =? KindOK).

Record represents (w : windowMap) (h : list Event) : Prop := mkRepresents {
  rep_width : 0 < wm_width w;
  rep_cur : 0 <= wm_cur w < nbuckets w;
  rep_next : 0 <= wm_nextAt w;
  rep_aligned : exists q, wm_nextAt w = q * wm_width w;
  rep_fresh : wm_nextAt w = 0 -> h = [];
  rep_past : forall ev, ev ∈ h -> ev_OccurredAt ev < wm_nextAt w;
  rep_cells : forall i a, 0 <= i < nbuckets w ->
    cell w i a = counts_between (wm_trackOK w) h a
                   (wm_nextAt w - (i + 1) * wm_width w) (wm_nextAt w - i * wm_width w);
  rep_seen : forall ev, ev ∈ h -> tracked (wm_trackOK w) ev = true ->
    wm_nextAt w - nbuckets w * wm_width w <= ev_OccurredAt ev ->
    exists l, wm_lastSeen w !! ev_AccountID ev = Some l /\ ev_OccurredAt ev <= l
}.

(** What moving the ring leaves alone. *)
Definition same_frame (w w' : windowMap) : Prop :=
  wm_width w' = wm_width w /\ nbuckets w' = nbuckets w /\ wm_trackOK w' = wm_trackOK w /\
  wm_lastSeen w' = wm_lastSeen w /\ wm_retention w' = wm_retention w.

Lemma same_frame_refl (w : windowMap) : same_frame w w.
Proof. unfold same_frame. auto. Qed.

Lemma same_frame_trans (a b c : windowMap) : same_frame a b -> same_frame b c -> same_frame a c.
Proof. unfold same_frame. intuition congruence. Qed.

Lemma advance_frame (w : windowMap) : same_frame w (advance w).
Proof. unfold same_frame, nbuckets, advance; cbn. rewrite length_insert. auto. Qed.

Lemma advance_cur (w : windowMap) : 0 <= wm_cur w < nbuckets w ->
  wm_cur (advance w) = (wm_cur w + 1) mod nbuckets w.
Proof. intros H. unfold advance; cbn. apply Z.rem_mod_nonneg; lia. Qed.

Lemma bucket_of_advance (w : windowMap) (j : Z) : 0 <= j < nbuckets w -> 0 <= wm_cur w < nbuckets w ->
  bucket_of (advance w) j = if j =? wm_cur (advance w) then ∅ else bucket_of w j.
Proof.
  intros Hj Hc. unfold bucket_of. rewrite (advance_cur w Hc). unfold advance; cbn.
  rewrite Z.rem_mod_nonneg by lia. set (k := (wm_cur w + 1) mod nbuckets w).
  assert (0 <= k < nbuckets w) as Hk by (apply Z.mod_pos_bound; lia).
  destruct (Z.eqb_spec j k) as [->|Hne].
  - rewrite list_lookup_insert_eq; [reflexivity|]. unfold nbuckets in *. lia.
  - rewrite list_lookup_insert_ne by lia. reflexivity.
Qed.

Lemma cell_advance_0 (w : windowMap) (a : Z) : 0 <= wm_cur w < nbuckets w -> cell (advance w) 0 a = zero_counts.
Proof.
  intros Hc. unfold cell. destruct (advance_frame w) as (_ & En & _). rewrite En, Z.sub_0_r.
  rewrite (advance_cur w Hc), Zmod_mod, bucket_of_advance by (try apply Z.mod_pos_bound; lia).
  rewrite (advance_cur w Hc), Z.eqb_refl. cbn. rewrite lookup_empty. reflexivity.
Qed.

Lemma cell_advance_S (w : windowMap) (i a : Z) : 0 <= wm_cur w < nbuckets w -> 1 <= i < nbuckets w ->
  cell (advance w) i a = cell w (i - 1) a.
Proof.
  intros Hc Hi. unfold cell. destruct (advance_frame w) as (_ & En & _). rewrite En.
  rewrite (advance_cur w Hc), Zminus_mod_idemp_l.
  replace (wm_cur w + 1 - i) with (wm_cur w - (i - 1)) by lia.
  rewrite bucket_of_advance by (try apply Z.mod_pos_bound; lia).
  rewrite (advance_cur w Hc). destruct (Z.eqb_spec ((wm_cur w - (i - 1)) mod nbuckets w)
    ((wm_cur w + 1) mod nbuckets w)) as [E|]; [|reflexivity].
  replace (wm_cur w + 1) with (wm_cur w + 1 - 0) in E by lia.
  replace (wm_cur w - (i - 1)) with (wm_cur w + 1 - i) in E by lia.
  apply idx_inj in E; lia.
Qed.

Lemma advance_represents (w : windowMap) (h : list Event) :
  represents w h -> 0 < wm_nextAt w -> represents (advance w) h.
Proof.
  intros [Hw Hc Hn [q Hq] Hf Hp Hcell Hs] Hpos.
  destruct (advance_frame w) as (Ew & En & Et & El & _).
  assert (wm_nextAt (advance w) = wm_nextAt w + wm_width w) as Enext by reflexivity.
  constructor; rewrite ?Ew, ?En, ?Et, ?El, ?Enext; try lia.
  - rewrite (advance_cur w Hc). apply Z.mod_pos_bound. lia.
  - exists (q + 1). lia.
  - intros ev Hev. specialize (Hp ev Hev). lia.
  - intros i a Hi. destruct (Z.eq_dec i 0) as [->|].
    + rewrite cell_advance_0 by exact Hc. symmetry. apply counts_between_none.
      intros ev Hev. specialize (Hp ev Hev). lia.
    + rewrite cell_advance_S, Hcell by lia. f_equal; lia.
  - intros ev Hev Ht Hlo. apply Hs; [exact Hev|exact Ht|lia].
Qed.

(** The loop stops past [t], having moved no further than needed. *)
Lemma advance_loop_spec (t : Time) (h : list Event) (fuel : nat) : forall w,
  represents w h -> 0 < wm_nextAt w -> t - wm_nextAt w < Z.of_nat fuel * wm_width w ->
  let w' := advance_loop fuel t w in
  represents w' h /\ same_frame w w' /\ t < wm_nextAt w' /\
  wm_nextAt w <= wm_nextAt w' /\ (wm_nextAt w' = wm_nextAt w \/ wm_nextAt w' - wm_width w <= t).
Proof.
  induction fuel as [|k IH]; intros w Hr Hpos Hfuel; cbn -[advance].
  - split_and!; [exact Hr|apply same_frame_refl|lia..].
  - unfold Before. destruct (Z.ltb_spec t (wm_nextAt w)); cbn -[advance].
    + split_and!; [exact Hr|apply same_frame_refl|lia..].
    + pose proof (rep_width _ _ Hr). pose proof (advance_frame w) as Hfr. destruct Hfr as (Ew & _).
      assert (wm_nextAt (advance w) = wm_nextAt w + wm_width w) as En by reflexivity.
      destruct (IH (advance w)) as (Hr' & Hfr' & Hlt & Hle & Hor);
        [apply advance_represents; [exact Hr|lia] | lia | rewrite En, Ew; lia |].
      split; [exact Hr'|]. split; [eapply same_frame_trans; [apply advance_frame|exact Hfr']|].
      rewrite Ew in Hor. lia.
Qed.

Lemma multiple_unique (w a b t : Z) : 0 < w -> t < a * w <= t + w -> t < b * w <= t + w -> a = b.
Proof. intros. destruct (Z.lt_trichotomy a b) as [|[|]]; nia. Qed.

(** [advanceTo] puts the ring's boundary at the end of [t]'s bucket, or leaves
    it where it was when it is already further on. *)
Lemma advanceTo_spec (t : Time) (w : windowMap) (h : list Event) : represents w h -> 0 <= t ->
  let w' := advanceTo t w in
  represents w' h /\ same_frame w w' /\ 0 < wm_nextAt w' /\
  wm_nextAt w' = Z.max (wm_nextAt w) (Truncate t (wm_width w) + wm_width w).
Proof.
  intros Hr Ht w'. pose proof (rep_width _ _ Hr) as Hw.
  destruct (Truncate_bounds t (wm_width w) Hw) as [Hb [q Hq]].
  assert (0 <= Truncate t (wm_width w)) as Hq0.
  { rewrite Hq. assert (0 <= q) by (destruct (Z.lt_ge_cases q 0); nia). nia. }
  unfold w', advanceTo, IsZero. destruct (Z.eqb_spec (wm_nextAt w) 0) as [E|E].
  - destruct Hr as [_ Hc Hn Ha Hf Hp Hcell Hs]. rewrite (Hf E) in *.
    assert (forall i a, 0 <= i < nbuckets w -> cell w i a = zero_counts) as Hz
      by (intros i a Hi; rewrite Hcell by exact Hi; reflexivity).
    split; [|split; [repeat split|cbn; lia]].
    constructor; cbn; try lia.
    + exact Hc.
    + exists (q + 1). lia.
    + intros ev Hev. apply not_elem_of_nil in Hev. contradiction.
    + intros i a Hi. apply (Hz i a Hi).
    + intros ev Hev. apply not_elem_of_nil in Hev. contradiction.
  - pose proof (rep_next _ _ Hr).
    destruct (advance_loop_spec t h (advance_fuel t w) w) as (Hr' & Hfr & Hlt & Hle & Hor);
      [exact Hr | lia | |].
    { unfold advance_fuel. destruct (div_mod_split (t - wm_nextAt w) (wm_width w) Hw) as [? [? ?]].
      destruct (Z.lt_ge_cases (t - wm_nextAt w) 0); [nia|].
      assert (0 <= (t - wm_nextAt w) / wm_width w) by (apply Z.div_pos; lia). rewrite Z2Nat.id by lia. nia. }
    cbn in *. split; [exact Hr'|]. split; [exact Hfr|]. split; [lia|].
    destruct (rep_aligned _ _ Hr') as [q' Hq']. destruct Hfr as (Ew & _). rewrite Ew in Hq'.
    destruct Hor as [Hor|Hor].
    + rewrite Hor in *. destruct (Z.lt_ge_cases (wm_nextAt w) (Truncate t (wm_width w) + wm_width w)); [|lia].
      assert (q' = q + 1) by (apply (multiple_unique (wm_width w) q' (q + 1) t); lia). lia.
    + assert (q' = q + 1) by (apply (multiple_unique (wm_width w) q' (q + 1) t); lia). lia.
Qed.

(** ** Adding an event *)

(** [t] is close enough to the ring for the bucket arithmetic to stay within
    [int64] (the limit is about 292 years). *)
Definition in_reach (w : windowMap) (t : Time) : Prop :=
  0 <= t /\ wm_nextAt w - t + wm_width w <= max64 /\ 2 * wm_width w <= max64.

Lemma offset_spec (next t width : Z) : 0 < width -> t < next -> next - t + width <= max64 ->
  let o := (Sub next t [+] width [-] 1) [/] width in
  1 <= o /\ (o - 1) * width < next - t <= o * width.
Proof.
  intros Hw Ht Hm o. assert (o = (next - t + width - 1) / width) as Eo.
  { unfold o. rewrite Sub_exact by (unfold_int; lia).
    rewrite (add64_small (next - t) width) by (unfold_int; lia).
    rewrite (sub64_small (next - t + width) 1) by (unfold_int; lia).
    apply quot64_nonneg; lia. }
  rewrite Eo. destruct (div_mod_split (next - t + width - 1) width Hw) as [E [? ?]].
  set (k := (next - t + width - 1) / width) in *. split; nia.
Qed.

(** The age of the bucket holding [t], as [bucketIdx] computes it. *)
Lemma bucketIdx_spec (w : windowMap) (h : list Event) (t : Time) :
  represents w h -> t < wm_nextAt w -> wm_nextAt w - t + wm_width w <= max64 ->
  (bucketIdx t w = -1 /\ t < wm_nextAt w - nbuckets w * wm_width w) \/
  (exists i, 0 <= i < nbuckets w /\ bucketIdx t w = (wm_cur w - i) mod nbuckets w /\
     wm_nextAt w - (i + 1) * wm_width w <= t < wm_nextAt w - i * wm_width w).
Proof.
  intros Hr Ht Hm. pose proof (rep_width _ _ Hr) as Hw. pose proof (rep_cur _ _ Hr) as Hc.
  destruct (offset_spec (wm_nextAt w) t (wm_width w) Hw Ht Hm) as [Ho1 Ho2]. unfold bucketIdx.
  set (o := (Sub (wm_nextAt w) t [+] wm_width w [-] 1) [/] wm_width w) in *.
  destruct (Z.ltb_spec (nbuckets w) o).
  - left. split; [reflexivity|]. nia.
  - right. exists (o - 1). split; [lia|]. split; [apply rem_idx; lia|]. lia.
Qed.

Lemma bucket_of_record (w : windowMap) (ev : Event) (j k : Z) : 0 <= j < nbuckets w -> 0 <= k ->
  bucket_of (record_event ev j w) k =
  if k =? j
  then <[ev_AccountID ev := bump (ev_Kind ev) (default zero_counts (bucket_of w j !! ev_AccountID ev))]>
         (bucket_of w j)
  else bucket_of w k.
Proof.
  intros Hj Hk. unfold bucket_of at 1, record_event; cbn. destruct (Z.eqb_spec k j) as [->|].
  - rewrite list_lookup_insert_eq; [reflexivity|]. unfold nbuckets in Hj. lia.
  - rewrite list_lookup_insert_ne by lia. reflexivity.
Qed.

Lemma record_nbuckets (w : windowMap) (ev : Event) (j : Z) : nbuckets (record_event ev j w) = nbuckets w.
Proof. unfold nbuckets, record_event; cbn. rewrite length_insert. reflexivity. Qed.

(** Recording in the bucket of age [i] bumps the account's cell of that age. *)
Lemma cell_record (w : windowMap) (ev : Event) (i j a : Z) :
  0 <= wm_cur w < nbuckets w -> 0 <= i < nbuckets w -> 0 <= j < nbuckets w ->
  cell (record_event ev ((wm_cur w - i) mod nbuckets w) w) j a =
  if (i =? j) && (ev_AccountID ev =? a) then bump (ev_Kind ev) (cell w j a) else cell w j a.
Proof.
  intros Hc Hi Hj. unfold cell. rewrite record_nbuckets. cbn [wm_cur record_event].
  rewrite bucket_of_record by (pose proof (Z.mod_pos_bound (wm_cur w - i) (nbuckets w));
    pose proof (Z.mod_pos_bound (wm_cur w - j) (nbuckets w)); lia).
  destruct (Z.eqb_spec i j) as [->|Hne].
  - rewrite Z.eqb_refl. cbn. destruct (Z.eqb_spec (ev_AccountID ev) a) as [->|].
    + rewrite lookup_insert_eq. reflexivity.
    + rewrite lookup_insert_ne by assumption. reflexivity.
  - destruct (Z.eqb_spec ((wm_cur w - j) mod nbuckets w) ((wm_cur w - i) mod nbuckets w)) as [E|]; [|reflexivity].
    apply idx_inj in E; lia.
Qed.

Lemma touch_spec (a : Z) (t : Time) (seen : gmap Z Time) :
  (exists l, touch a t seen !! a = Some l /\ t <= l) /\
  (forall b l, seen !! b = Some l -> exists l', touch a t seen !! b = Some l' /\ l <= l').
Proof.
  unfold touch, After, Time in *. split.
  - destruct (seen !! a) as [l|] eqn:E; [destruct (Z.ltb_spec l t)|].
    + exists t. rewrite lookup_insert_eq. split; [reflexivity|lia].
    + exists l. split; [exact E|lia].
    + exists t. rewrite lookup_insert_eq. split; [reflexivity|lia].
  - intros b l Hb. destruct (decide (b = a)) as [->|Hne].
    + rewrite Hb. destruct (Z.ltb_spec l t).
      * exists t. rewrite lookup_insert_eq. split; [reflexivity|lia].
      * exists l. split; [exact Hb|lia].
    + exists l. split; [|lia].
      destruct (seen !! a) as [l0|]; [destruct (l0 <? t)|]; rewrite ?lookup_insert_ne by congruence; exact Hb.
Qed.

(** The event's own cell and no other. *)
Lemma in_cell_age (w : windowMap) (ev : Event) (i j a : Z) : 0 < wm_width w -> 0 <= i -> 0 <= j ->
  wm_nextAt w - (i + 1) * wm_width w <= ev_OccurredAt ev < wm_nextAt w - i * wm_width w ->
  tracked (wm_trackOK w) ev = true ->
  in_cell (wm_trackOK w) a (wm_nextAt w - (j + 1) * wm_width w) (wm_nextAt w - j * wm_width w) ev
  = (i =? j) && (ev_AccountID ev =? a).
Proof.
  intros Hw Hi Hj Ht Htr. unfold in_cell. unfold tracked in Htr. rewrite Htr, andb_true_r.
  destruct (Z.eqb_spec (ev_AccountID ev) a); cbn; [|rewrite andb_false_r; reflexivity].
  rewrite andb_true_r.
  destruct (Z.leb_spec (wm_nextAt w - (j + 1) * wm_width w) (ev_OccurredAt ev)),
    (Z.ltb_spec (ev_OccurredAt ev) (wm_nextAt w - j * wm_width w)), (Z.eqb_spec i j); cbn; try reflexivity; try nia.
Qed.

(** An event the ring does not record changes no cell. *)
Lemma represents_skip (w : windowMap) (h : list Event) (ev : Event) : represents w h ->
  0 < wm_nextAt w -> ev_OccurredAt ev < wm_nextAt w ->
  ev_OccurredAt ev < wm_nextAt w - nbuckets w * wm_width w \/ tracked (wm_trackOK w) ev = false ->
  represents w (ev :: h).
Proof.
  intros [Hw Hc Hn Ha Hf Hp Hcell Hs] Hpos Ht Hskip. constructor; try assumption; try lia.
  - intros e [->|He]%elem_of_cons; [exact Ht|apply Hp; exact He].
  - intros i a Hi. rewrite Hcell, counts_between_cons by exact Hi.
    replace (in_cell _ _ _ _ _) with false; [reflexivity|]. symmetry. unfold in_cell, tracked in *.
    destruct Hskip as [Hold|Hu]; [|rewrite Hu; apply andb_false_r].
    destruct (Z.leb_spec (wm_nextAt w - (i + 1) * wm_width w) (ev_OccurredAt ev)); [nia|].
    rewrite andb_false_r. reflexivity.
  - intros e [->|He]%elem_of_cons Htr Hlo; [|apply Hs; assumption].
    destruct Hskip as [|Hu]; [lia|congruence].
Qed.

Lemma represents_record (w : windowMap) (h : list Event) (ev : Event) (i : Z) : represents w h ->
  0 < wm_nextAt w -> 0 <= i < nbuckets w -> tracked (wm_trackOK w) ev = true ->
  wm_nextAt w - (i + 1) * wm_width w <= ev_OccurredAt ev < wm_nextAt w - i * wm_width w ->
  represents (record_event ev ((wm_cur w - i) mod nbuckets w) w) (ev :: h).
Proof.
  intros [Hw Hc Hn Ha Hf Hp Hcell Hs] Hpos Hi Htr Ht.
  constructor; rewrite ?record_nbuckets;
    cbn [record_event wm_width wm_cur wm_nextAt wm_trackOK wm_lastSeen]; try assumption; try lia.
  - intros e [->|He]%elem_of_cons; [nia|apply Hp; exact He].
  - intros j a Hj. rewrite cell_record, counts_between_cons, Hcell by assumption.
    rewrite (in_cell_age w ev i j a) by (assumption || lia). reflexivity.
  - destruct (touch_spec (ev_AccountID ev) (ev_OccurredAt ev) (wm_lastSeen w)) as [Hself Hmono].
    intros e [->|He]%elem_of_cons Hte Hlo; [exact Hself|].
    destruct (Hs e He Hte Hlo) as (l & Hl & Hle). destruct (Hmono _ _ Hl) as (l' & Hl' & ?).
    exists l'. split; [exact Hl'|lia].
Qed.

(** [Add] extends the represented history by its event. *)
Lemma Add_represents (w : windowMap) (h : list Event) (ev : Event) :
  represents w h -> in_reach w (ev_OccurredAt ev) -> represents (Add ev w) (ev :: h).
Proof.
  intros Hr (Ht & Hreach & Hww). unfold Add. pose proof (rep_cur _ _ Hr).
  destruct (Z.eqb_spec (nbuckets w) 0); [lia|].
  destruct (advanceTo_spec (ev_OccurredAt ev) w h Hr Ht) as (Hr' & (Ew & En & Et & _) & Hpos & Enext).
  destruct (Truncate_bounds (ev_OccurredAt ev) (wm_width w) (rep_width _ _ Hr)) as [Hb _].
  set (w1 := advanceTo (ev_OccurredAt ev) w) in *. cbn zeta.
  destruct (bucketIdx_spec w1 h (ev_OccurredAt ev) Hr') as [[E Hold]|(i & Hi & E & Hage)]; [lia|lia|..].
  - rewrite E. change (-1 <? 0) with true. cbv iota. apply represents_skip; [exact Hr'|exact Hpos|lia|left; exact Hold].
  - rewrite E. pose proof (Z.mod_pos_bound (wm_cur w1 - i) (nbuckets w1)).
    destruct (Z.ltb_spec ((wm_cur w1 - i) mod nbuckets w1) 0); [lia|].
    destruct (negb (wm_trackOK w1) && (ev_Kind ev =? KindOK)) eqn:Etr.
    + apply represents_skip; [exact Hr'|exact Hpos|lia|]. right. unfold tracked.
      destruct (wm_trackOK w1), (ev_Kind ev =? KindOK); cbn in *; congruence.
    + apply represents_record; [exact Hr'|exact Hpos|exact Hi| |exact Hage]. unfold tracked.
      destruct (wm_trackOK w1), (ev_Kind ev =? KindOK); cbn in *; congruence.
Qed.

(** ** Snapshots *)

Lemma sum_back_spec (w : windowMap) (h : list Event) (a : Z) (n : nat) : represents w h -> forall i out,
  0 <= i -> i + Z.of_nat n <= nbuckets w ->
  sum_back n i a w out =
  plus_counts out (counts_between (wm_trackOK w) h a
    (wm_nextAt w - (i + Z.of_nat n) * wm_width w) (wm_nextAt w - i * wm_width w)).
Proof.
  intros Hr. pose proof (rep_width _ _ Hr) as Hw. pose proof (rep_cur _ _ Hr) as Hc.
  induction n as [|k IH]; intros i out Hi Hn; cbn [sum_back].
  - rewrite counts_between_none by (intros; lia). symmetry. apply plus_counts_zero_r.
  - rewrite back_idx, IH by lia.
    rewrite (counts_between_split _ h a (wm_nextAt w - (i + Z.of_nat (S k)) * wm_width w)
      (wm_nextAt w - (i + 1) * wm_width w)) by nia.
    rewrite <- (rep_cells _ _ Hr i a) by lia. rewrite plus_counts_assoc. unfold cell.
    destruct (bucket_of w _ !! a); cbn [default]; rewrite ?plus_counts_zero_r; f_equal; f_equal; lia.
Qed.

Lemma span_bounds (w : windowMap) (secs : Duration) (at_ : Time) : 0 < nbuckets w -> span secs at_ w <= nbuckets w.
Proof. intros H. unfold span. cbn zeta. match goal with |- context [?a <? ?b] => destruct (Z.ltb_spec a b) end; lia. Qed.

(** For an instant in the current bucket, the buckets aggregated reach back at
    least [secs] and less than one bucket further. *)
Lemma span_spec (w : windowMap) (secs : Duration) (at_ : Time) : 0 < wm_width w ->
  0 < secs <= (nbuckets w - 1) * wm_width w -> nbuckets w * wm_width w <= max64 ->
  wm_nextAt w = Truncate at_ (wm_width w) + wm_width w ->
  1 <= span secs at_ w <= nbuckets w /\
  at_ - secs - wm_width w < wm_nextAt w - span secs at_ w * wm_width w <= at_ - secs.
Proof.
  intros Hw Hs Hov Hn. destruct (Truncate_bounds at_ (wm_width w) Hw) as [Hb _].
  assert (1 < nbuckets w) as Hnb by nia. unfold span. rewrite Sub_exact by (unfold_int; nia).
  set (T := Truncate at_ (wm_width w)) in *.
  destruct (Z.ltb_spec (at_ - T) secs).
  - rewrite (sub64_small secs (at_ - T)) by (unfold_int; nia).
    rewrite (add64_small (secs - (at_ - T)) (wm_width w)) by (unfold_int; nia).
    rewrite (sub64_small (secs - (at_ - T) + wm_width w) 1) by (unfold_int; nia).
    rewrite quot64_nonneg by nia.
    destruct (div_mod_split (secs - (at_ - T) + wm_width w - 1) (wm_width w) Hw) as [E [? ?]].
    set (k := (secs - (at_ - T) + wm_width w - 1) / wm_width w) in *.
    assert (1 <= k) by nia. assert (k <= nbuckets w - 1) by nia.
    destruct (Z.ltb_spec (nbuckets w) (1 + k)); nia.
  - destruct (Z.ltb_spec (nbuckets w) 1); nia.
Qed.

(** Where the counted interval starts, for a snapshot at [at_]. *)
Definition window_start (w : windowMap) (S : Z) (at_ : Time) : Time :=
  Truncate at_ (wm_width w) + wm_width w - span (S * second) at_ w * wm_width w.

Lemma Snapshot_spec (w : windowMap) (h : list Event) (a S : Z) (at_ : Time) : represents w h -> 0 <= at_ ->
  1 <= S -> S * second <= (nbuckets w - 1) * wm_width w -> nbuckets w * wm_width w <= max64 ->
  wm_nextAt w <= Truncate at_ (wm_width w) + wm_width w ->
  at_ - S * second - wm_width w < window_start w S at_ <= at_ - S * second /\
  fst (Snapshot a S at_ w) = counts_between (wm_trackOK w) h a (window_start w S at_)
                               (Truncate at_ (wm_width w) + wm_width w).
Proof.
  intros Hr Hat HS Hcov Hov Hnext. pose proof (rep_width _ _ Hr) as Hw. pose proof (rep_cur _ _ Hr) as Hc.
  destruct (advanceTo_spec at_ w h Hr Hat) as (Hr' & (Ew & En & Et & _) & Hpos & Enext).
  unfold Snapshot, window_start. destruct (Z.eqb_spec (nbuckets w) 0); [lia|].
  set (w1 := advanceTo at_ w) in *. cbn zeta. unfold second in *.
  rewrite (mul64_small S 1000000000) by (unfold_int; nia).
  destruct (Z.leb_spec (S * 1000000000) 0); [lia|].
  rewrite (mul64_small (nbuckets w1) (wm_width w1)) by (unfold_int; rewrite En, Ew; nia).
  destruct (Z.ltb_spec (nbuckets w1 * wm_width w1) (S * 1000000000)); [rewrite En, Ew in *; nia|].
  destruct (span_spec w1 (S * 1000000000) at_) as [Hsp Hlo];
    [lia | rewrite En, Ew; lia | rewrite En, Ew; lia | rewrite Ew; lia |].
  assert (span (S * 1000000000) at_ w = span (S * 1000000000) at_ w1) as Esp
    by (unfold span; rewrite En, Ew; reflexivity).
  rewrite Esp. split; [rewrite Ew in *; lia|]. cbn [fst].
  rewrite (sum_back_spec w1 h) by (assumption || lia).
  rewrite plus_counts_zero_l, Et, Ew. f_equal; rewrite Enext; lia.
Qed.

(** ** From [reset] on *)

Lemma grades_pos : Forall (fun g => second <= g <= hour) width_grades.
Proof. repeat constructor; unfold second, hour, minute; vm_compute; discriminate. Qed.

(** The buckets cover the largest window, and a bucket is at most one second
    wider than it. *)
Lemma bucketWidth_covers (mw : Duration) : 0 < mw <= 1000000000 * second ->
  let '(w, n) := bucketWidth mw in 0 < w <= mw + second /\ 1 <= n /\ mw <= n * w < mw + w.
Proof.
  unfold second. intros Hm. unfold bucketWidth.
  match goal with |- context [List.find ?f width_grades] => destruct (List.find f width_grades) as [g|] eqn:E end.
  - apply List.find_some in E as [Hin Hg]. apply andb_prop in Hg as [Hr _]. apply Z.eqb_eq in Hr.
    pose proof (proj1 (Forall_forall _ _) grades_pos g (proj2 (list_elem_of_In _ _) Hin)) as Hpos.
    unfold second, hour in Hpos. rewrite rem64_nonneg in Hr by lia. rewrite quot64_nonneg by (unfold_int; lia).
    destruct (div_mod_split mw g ltac:(lia)) as [Ed _]. assert (1 <= mw / g) by nia. nia.
  - rewrite rem64_nonneg, quot64_nonneg by (unfold ringBuckets, max64; lia).
    destruct (div_mod_split mw ringBuckets ltac:(reflexivity)) as [Ed Hd]. unfold ringBuckets, second in *.
    set (w0 := mw / 6) in *. rewrite (add64_small w0 1000000000) by (unfold_int; lia).
    set (w := if (if negb (mw mod 6 =? 0) then w0 + 1000000000 else w0) <? 1000000000 then 1000000000
              else (if negb (mw mod 6 =? 0) then w0 + 1000000000 else w0)).
    assert (0 < w <= mw + 1000000000) as Hw.
    { unfold w. destruct (negb _); destruct (Z.ltb_spec w0 1000000000), (Z.ltb_spec (w0 + 1000000000) 1000000000); lia. }
    clearbody w. rewrite (add64_small mw w), (sub64_small (mw + w) 1), quot64_nonneg by (unfold_int; lia).
    destruct (div_mod_split (mw + w - 1) w ltac:(lia)) as [E2 [? ?]].
    set (n := (mw + w - 1) / w) in *. assert (1 <= n) by nia. nia.
Qed.

(** The freshly built ring: it represents the empty history and covers
    [maxWindow] with its complete buckets. *)
Lemma reset_represents (mw : Duration) (tr : bool) : 0 < mw <= 1000000000 * second ->
  let w := reset mw tr in
  represents w [] /\ wm_nextAt w = 0 /\ wm_trackOK w = tr /\
  mw <= (nbuckets w - 1) * wm_width w /\ wm_width w <= mw + second /\ nbuckets w * wm_width w <= mw + 2 * (mw + second) /\
  wm_retention w = Z.max minute (2 * nbuckets w * wm_width w).
Proof.
  intros Hm w. pose proof (bucketWidth_covers mw Hm) as Hb. unfold w, reset.
  destruct (Z.leb_spec mw 0); [lia|]. destruct (bucketWidth mw) as [wd n]. destruct Hb as (Hw & Hn & Hc).
  assert (forall cur nx t ls r, nbuckets (mkWindowMap wd (replicate (Z.to_nat (n + 1)) ∅) cur nx t ls r) = n + 1)
    as En by (intros; unfold nbuckets; cbn; rewrite length_replicate; lia).
  assert (2 [*] Z.of_nat (length (replicate (Z.to_nat (n + 1)) (∅ : gmap Z winCounts))) [*] wd = 2 * (n + 1) * wd) as Er.
  { rewrite length_replicate, Z2Nat.id by lia. unfold second in *.
    rewrite (mul64_small 2 (n + 1)) by (unfold_int; nia). apply mul64_small. unfold_int. nia. }
  cbn zeta. rewrite Er, En. cbn [wm_nextAt wm_trackOK wm_width wm_retention].
  split; [|split_and!; try reflexivity; try nia; destruct (Z.ltb_spec (2 * (n + 1) * wd) minute); lia].
  constructor; rewrite ?En; cbn; try lia.
  - exists 0. lia.
  - reflexivity.
  - intros ev Hev. apply not_elem_of_nil in Hev. contradiction.
  - intros i a Hi. unfold cell, bucket_of. rewrite En; cbn.
    rewrite lookup_replicate_2 by (pose proof (Z.mod_pos_bound (0 - i) (n + 1)); lia).
    cbn. rewrite lookup_empty. reflexivity.
  - intros ev Hev. apply not_elem_of_nil in Hev. contradiction.
Qed.

Lemma Truncate_mono (t u d : Z) : 0 < d -> t <= u -> Truncate t d <= Truncate u d.
Proof.
  intros Hd H. destruct (Truncate_bounds t d Hd) as [? [p Hp]], (Truncate_bounds u d Hd) as [? [q Hq]].
  rewrite Hp, Hq in *. assert (p <= q) by nia. nia.
Qed.

Lemma Add_frame (ev : Event) (w : windowMap) (h : list Event) : represents w h -> 0 <= ev_OccurredAt ev ->
  wm_width (Add ev w) = wm_width w /\ nbuckets (Add ev w) = nbuckets w /\
  wm_trackOK (Add ev w) = wm_trackOK w /\ wm_retention (Add ev w) = wm_retention w /\
  wm_nextAt (Add ev w) = Z.max (wm_nextAt w) (Truncate (ev_OccurredAt ev) (wm_width w) + wm_width w).
Proof.
  intros Hr Ht. pose proof (rep_cur _ _ Hr).
  destruct (advanceTo_spec (ev_OccurredAt ev) w h Hr Ht) as (_ & (Ew & En & Et & _ & Er) & _ & Enext).
  unfold Add. destruct (Z.eqb_spec (nbuckets w) 0); [lia|]. cbn zeta.
  destruct (bucketIdx _ _ <? 0); [split_and!; assumption|].
  destruct (negb _ && _); [split_and!; assumption|].
  rewrite record_nbuckets. unfold record_event; cbn. split_and!; assumption.
Qed.

Definition Adds (evs : list Event) (w : windowMap) : windowMap := fold_left (fun w ev => Add ev w) evs w.

Lemma Adds_represent (evs : list Event) (lo hi : Z) : forall w h, represents w h -> 0 <= lo ->
  hi - lo + 2 * wm_width w <= max64 -> wm_nextAt w <= Truncate hi (wm_width w) + wm_width w ->
  (forall ev, ev ∈ evs -> lo <= ev_OccurredAt ev <= hi) ->
  let w' := Adds evs w in
  represents w' (rev evs ++ h) /\ wm_width w' = wm_width w /\ nbuckets w' = nbuckets w /\
  wm_trackOK w' = wm_trackOK w /\ wm_retention w' = wm_retention w /\
  wm_nextAt w' <= Truncate hi (wm_width w) + wm_width w.
Proof.
  induction evs as [|ev evs IH]; intros w h Hr Hlo Hm Hn Hin; cbn [Adds fold_left rev].
  - split_and!; auto.
  - assert (lo <= ev_OccurredAt ev <= hi) as Hev by (apply Hin; set_solver).
    pose proof (rep_width _ _ Hr) as Hw. destruct (Truncate_bounds hi (wm_width w) Hw) as [Hb _].
    pose proof (Truncate_mono (ev_OccurredAt ev) hi (wm_width w) Hw ltac:(lia)) as Hmono.
    destruct (Add_frame ev w h Hr ltac:(lia)) as (Ew & En & Et & Er & Enext).
    assert (represents (Add ev w) (ev :: h)) as Hr' by (apply Add_represents; [exact Hr|unfold in_reach; lia]).
    destruct (IH (Add ev w) (ev :: h) Hr' Hlo) as (H1 & H2 & H3 & H4 & H5 & H6);
      [rewrite Ew; lia | rewrite Ew, Enext; lia | intros e He; apply Hin; set_solver |].
    rewrite <- app_assoc. cbn [app]. unfold Adds in *. rewrite Ew in *. split_and!; try congruence; assumption.
Qed.

Lemma bump_comm (j k : Kind) (c : winCounts) : bump j (bump k c) = bump k (bump j c).
Proof. unfold bump. repeat bcase; cbn; try reflexivity; f_equal; lia. Qed.

Lemma counts_between_perm (tr : bool) (a lo hi : Z) (h h' : list Event) : h ≡ₚ h' ->
  counts_between tr h a lo hi = counts_between tr h' a lo hi.
Proof.
  induction 1 as [|ev h h' _ IH|e1 e2 h|]; rewrite ?counts_between_cons; [reflexivity| | |congruence].
  - rewrite IH. reflexivity.
  - repeat bcase; try reflexivity. apply bump_comm.
Qed.

(** ** Pruning *)

#[export] Instance older_trans : Transitive older.
Proof. intros p q r. unfold older. lia. Qed.

#[export] Instance older_total : Total older.
Proof. intros p q. unfold older. lia. Qed.

Definition drops (keys : list (Z * Time)) (w : windowMap) : windowMap :=
  fold_left (fun w p => drop_account p.1 w) keys w.

(** On sorted keys, stopping at the first fresh account drops exactly the stale
    ones. *)
Lemma prune_sorted (cutoff : Time) (keys : list (Z * Time)) : StronglySorted older keys -> forall w,
  prune cutoff keys w = drops (List.filter (fun p => p.2 <=? cutoff) keys) w.
Proof.
  induction 1 as [|[a t] keys Hs IH Hall]; intros w; cbn; [reflexivity|]. unfold After.
  destruct (Z.ltb_spec cutoff t), (Z.leb_spec t cutoff); try lia.
  - clear -Hall H. induction Hall as [|[b u] keys Hb _ IH]; [reflexivity|].
    unfold older in Hb. cbn in *. destruct (Z.leb_spec u cutoff); [lia|exact IH].
  - cbn. apply IH.
Qed.

Lemma bucket_of_drop (a k : Z) (w : windowMap) : bucket_of (drop_account a w) k = delete a (bucket_of w k).
Proof.
  unfold bucket_of, drop_account; cbn. rewrite list_lookup_fmap.
  destruct (wm_buckets w !! Z.to_nat k); cbn; [reflexivity|]. rewrite delete_empty. reflexivity.
Qed.

Lemma nbuckets_drop (a : Z) (w : windowMap) : nbuckets (drop_account a w) = nbuckets w.
Proof. unfold nbuckets, drop_account; cbn. rewrite length_map. reflexivity. Qed.

Lemma represents_drop (a : Z) (w : windowMap) (h : list Event) : represents w h ->
  represents (drop_account a w) (filter (fun ev => ev_AccountID ev <> a) h).
Proof.
  intros [Hw Hc Hn Ha Hf Hp Hcell Hs]. constructor; rewrite ?nbuckets_drop; cbn; try assumption.
  - intros E. rewrite (Hf E). reflexivity.
  - intros ev [_ Hev]%list_elem_of_filter. apply Hp, Hev.
  - intros i b Hi. unfold cell. rewrite nbuckets_drop, bucket_of_drop; cbn.
    destruct (decide (b = a)) as [->|Hne].
    + rewrite lookup_delete_eq. symmetry. apply counts_between_empty.
      intros ev [Hev _]%list_elem_of_filter. unfold in_cell. rewrite (proj2 (Z.eqb_neq _ _) Hev). reflexivity.
    + rewrite lookup_delete_ne by congruence. rewrite counts_between_filter; [apply (Hcell i b Hi)|].
      intros ev _ Hin. unfold in_cell in Hin. destruct (Z.eqb_spec (ev_AccountID ev) b); [congruence|discriminate].
  - intros ev [Hev Hin]%list_elem_of_filter Htr Hlo. rewrite lookup_delete_ne by congruence. apply Hs; assumption.
Qed.

(** Dropping accounts keeps a history that counts the same wherever no dropped
    account has an event. *)
Lemma represents_drops (keys : list (Z * Time)) : forall w h, represents w h ->
  exists h', represents (drops keys w) h' /\ (forall ev, ev ∈ h' -> ev ∈ h) /\
    (wm_width (drops keys w) = wm_width w /\ nbuckets (drops keys w) = nbuckets w /\
     wm_trackOK (drops keys w) = wm_trackOK w) /\
    wm_nextAt (drops keys w) = wm_nextAt w /\
    wm_lastSeen (drops keys w) = fold_left (fun m p => delete p.1 m) keys (wm_lastSeen w) /\
    (forall a lo hi, (forall ev, ev ∈ h -> in_cell (wm_trackOK w) a lo hi ev = true -> ev_AccountID ev ∉ keys.*1) ->
      counts_between (wm_trackOK w) h' a lo hi = counts_between (wm_trackOK w) h a lo hi).
Proof.
  induction keys as [|[a t] keys IH]; intros w h Hr; cbn [drops fold_left].
  - exists h. split_and!; auto.
  - destruct (IH _ _ (represents_drop a w h Hr)) as (h' & Hr' & Hsub & Hfr & Hn & Hl & Hcount).
    exists h'. split; [exact Hr'|]. split; [intros ev Hev; apply Hsub, list_elem_of_filter in Hev; tauto|].
    split; [|split; [exact Hn|split; [exact Hl|]]].
    + rewrite nbuckets_drop in Hfr. exact Hfr.
    + intros b lo hi Hb. rewrite Hcount; cbn.
      * apply counts_between_filter. intros ev Hev Hin. specialize (Hb ev Hev Hin).
        cbn in Hb. apply not_elem_of_cons in Hb as [Hne _]. exact Hne.
      * intros ev [_ Hev]%list_elem_of_filter Hin. specialize (Hb ev Hev Hin).
        cbn in Hb. apply not_elem_of_cons in Hb as [_ Hk]. exact Hk.
Qed.

(** The accounts a cleanup drops: those last seen before the cutoff. *)
Definition stale_keys (cutoff : Time) (w : windowMap) : list (Z * Time) :=
  List.filter (fun p => p.2 <=? cutoff) (merge_sort older (map_to_list (wm_lastSeen w))).

Lemma stale_keys_spec (cutoff : Time) (w : windowMap) (a t : Z) :
  (a, t) ∈ stale_keys cutoff w <-> wm_lastSeen w !! a = Some t /\ t <= cutoff.
Proof.
  unfold stale_keys. rewrite list_elem_of_In, filter_In, <- list_elem_of_In, merge_sort_Permutation.
  rewrite elem_of_map_to_list. cbn. rewrite Z.leb_le. reflexivity.
Qed.

Lemma cleanup_drops (now : Time) (w : windowMap) :
  cleanup now w = drops (stale_keys (now - wm_retention w) w) w.
Proof. unfold cleanup. apply prune_sorted, StronglySorted_merge_sort; apply _. Qed.

Lemma lookup_deletes (keys : list (Z * Time)) : forall (m : gmap Z Time) (a : Z),
  fold_left (fun m p => delete p.1 m) keys m !! a = if decide (a ∈ keys.*1) then None else m !! a.
Proof.
  induction keys as [|[b t] keys IH]; intros m a; cbn [fold_left].
  - destruct (decide (a ∈ [].*1)) as [H|]; [apply not_elem_of_nil in H; contradiction|reflexivity].
  - rewrite IH. cbn. destruct (decide (a = b)) as [->|Hne].
    + rewrite lookup_delete_eq. destruct (decide (b ∈ keys.*1)), (decide (b ∈ b :: keys.*1)) as [|Hn]; try reflexivity;
        exfalso; apply Hn, elem_of_cons; auto.
    + rewrite lookup_delete_ne by congruence.
      destruct (decide (a ∈ keys.*1)) as [|Hk], (decide (a ∈ b :: keys.*1)) as [Hc|Hn]; try reflexivity.
      * exfalso. apply Hn, elem_of_cons. auto.
      * exfalso. apply elem_of_cons in Hc as [|]; contradiction.
Qed.

(** The accounts left after a cleanup are the fresh ones. *)
Lemma cleanup_lastSeen (now : Time) (w : windowMap) (a : Z) (h : list Event) : represents w h ->
  wm_lastSeen (cleanup now w) !! a =
  match wm_lastSeen w !! a with
  | Some t => if t <=? now - wm_retention w then None else Some t
  | None => None
  end.
Proof.
  intros Hr. rewrite cleanup_drops.
  destruct (represents_drops (stale_keys (now - wm_retention w) w) w h Hr) as (h' & _ & _ & _ & _ & El & _).
  rewrite El, lookup_deletes.
  destruct (decide (a ∈ (stale_keys (now - wm_retention w) w).*1)) as [H|H].
  - apply list_elem_of_fmap in H as ([b t] & Eb & Ht). cbn in Eb. subst b.
    apply stale_keys_spec in Ht as [Et Hle]. rewrite Et. destruct (Z.leb_spec t (now - wm_retention w)); [reflexivity|lia].
  - destruct (wm_lastSeen w !! a) as [t|] eqn:E; [|reflexivity].
    destruct (Z.leb_spec t (now - wm_retention w)); [|reflexivity].
    exfalso. apply H, list_elem_of_fmap. exists (a, t). split; [reflexivity|]. apply stale_keys_spec. auto.
Qed.

(** ** Properties *)

(** The engine's window: built for [maxSeconds], fed [evs] in arrival order. *)
Definition window_after (maxSeconds : Z) (trackOK : bool) (evs : list Event) : windowMap :=
  Adds evs (reset (maxSeconds [*] second) trackOK).

(** What every reachable window satisfies at an instant past all its events. *)
Lemma window_after_spec (maxSeconds : Z) (tr : bool) (evs : list Event) (base at_ S : Z) :
  1 <= S <= maxSeconds -> maxSeconds <= 1000000000 -> 0 <= base -> at_ - base <= 2 ^ 61 ->
  (forall ev, ev ∈ evs -> base <= ev_OccurredAt ev <= at_) -> base <= at_ ->
  let w := window_after maxSeconds tr evs in
  represents w (rev evs) /\ wm_trackOK w = tr /\ S * second <= (nbuckets w - 1) * wm_width w /\
  nbuckets w * wm_width w <= max64 /\ nbuckets w * wm_width w <= wm_retention w /\
  wm_nextAt w <= Truncate at_ (wm_width w) + wm_width w.
Proof.
  intros HS Hmax Hb Hspan Hin Hat w. unfold second in *.
  assert (maxSeconds [*] 1000000000 = maxSeconds * 1000000000) as Em by (apply mul64_small; unfold_int; lia).
  destruct (reset_represents (maxSeconds * 1000000000) tr) as (Hr & Hn & Ht & Hc & Hw & Hcov & Eret); [unfold second; lia|].
  unfold second in *. pose proof (rep_width _ _ Hr) as Hwpos. pose proof (rep_cur _ _ Hr) as Hcur.
  set (w0 := reset (maxSeconds * 1000000000) tr) in *.
  destruct (Truncate_bounds at_ (wm_width w0) Hwpos) as [Hbt _].
  destruct (Adds_represent evs base at_ w0 [] Hr Hb) as (H1 & H2 & H3 & H4 & H5 & H6);
    [unfold_int; lia | lia | exact Hin |].
  unfold w, window_after, second. rewrite Em. fold w0. rewrite app_nil_r in H1. rewrite H2, H3, H4, H5.
  split_and!; try assumption; try (unfold_int; lia).
Qed.

Definition window_hyps (maxSeconds base at_ S : Z) (evs : list Event) : Prop :=
  1 <= S <= maxSeconds /\ maxSeconds <= 1000000000 /\ 0 <= base <= at_ /\ at_ - base <= 2 ^ 61 /\
  Forall (fun ev => base <= ev_OccurredAt ev <= at_) evs.

(** C28: Whatever events the window has been fed, in any order of their times, a
    snapshot over the last [S] seconds, [S] at most the largest configured window
    (beyond it the ring has forgotten events, [default_window_truncated]), taken at
    an instant no event lies after is exactly the number of the
    account's events since some instant [lo] that lies at least [S] seconds and
    less than one bucket more in the past: every event of the window is counted
    and the error is smaller than one bucket. *)
Theorem snapshot_counts_window (maxSeconds : Z) (trackOK : bool) (evs : list Event) (base at_ S a : Z) :
  window_hyps maxSeconds base at_ S evs ->
  let w := window_after maxSeconds trackOK evs in
  exists lo, at_ - S * second - wm_width w < lo <= at_ - S * second /\
    fst (Snapshot a S at_ w) = counts_between trackOK evs a lo (at_ + 1).
Proof.
  intros (HS & Hmax & Hb & Hspan & Hin) w. rewrite Forall_forall in Hin.
  destruct (window_after_spec maxSeconds trackOK evs base at_ S) as (Hr & Ht & Hc & Hov & _ & Hn); try assumption; try lia.
  fold w in Hr, Ht, Hc, Hov, Hn.
  destruct (Snapshot_spec w (rev evs) a S at_) as [Hlo E]; try assumption; try lia.
  exists (window_start w S at_). split; [exact Hlo|]. rewrite E, Ht.
  rewrite (counts_between_perm _ _ _ _ (rev evs) evs) by (symmetry; apply Permutation_rev).
  destruct (Truncate_bounds at_ (wm_width w) (rep_width _ _ Hr)) as [? _].
  apply counts_between_hi; intros ev Hev; specialize (Hin ev Hev); lia.
Qed.

Definition demo_event (k : Kind) (t : Time) : Event := mkEvent 7 1 None "m" k None "" None t.
Definition demo_history : list Event :=
  [demo_event Kind5xx (1000 * second); demo_event Kind429 (1030 * second);
   demo_event Kind5xx (1015 * second); demo_event KindOK (1071 * second)].

Lemma snapshot_counts_window_witness :
  window_hyps 60 (1000 * second) (1080 * second) 60 demo_history /\
  (let w := window_after 60 true demo_history in
   exists lo, 1080 * second - 60 * second - wm_width w < lo <= 1080 * second - 60 * second /\
     fst (Snapshot 7 60 (1080 * second) w) = counts_between true demo_history 7 lo (1080 * second + 1)) /\
  fst (Snapshot 7 60 (1080 * second) (window_after 60 true demo_history)) = mkCounts 1 0 1.
Proof.
  assert (window_hyps 60 (1000 * second) (1080 * second) 60 demo_history) as H.
  { unfold window_hyps, second. split_and!; try lia. repeat constructor; cbn; unfold second; lia. }
  split; [exact H|]. split; [|vm_compute; reflexivity].
  exact (snapshot_counts_window 60 true demo_history (1000 * second) (1080 * second) 60 7 H).
Defined.

(** Pruning the accounts that have been silent for the retention period
    leaves exactly the fresh accounts behind and cannot be observed: every later
    snapshot, of any account, is what it would have been without the cleanup. *)
Theorem cleanup_invisible (maxSeconds : Z) (trackOK : bool) (evs : list Event) (base now at_ S a : Z) :
  window_hyps maxSeconds base at_ S evs -> now <= at_ ->
  let w := window_after maxSeconds trackOK evs in
  fst (Snapshot a S at_ (cleanup now w)) = fst (Snapshot a S at_ w) /\
  forall b, wm_lastSeen (cleanup now w) !! b =
    match wm_lastSeen w !! b with
    | Some t => if t <=? now - wm_retention w then None else Some t
    | None => None
    end.
Proof.
  intros (HS & Hmax & Hb & Hspan & Hin) Hnow w. rewrite Forall_forall in Hin.
  destruct (window_after_spec maxSeconds trackOK evs base at_ S) as (Hr & Ht & Hc & Hov & Hret & Hn); try assumption; try lia.
  fold w in Hr, Ht, Hc, Hov, Hret, Hn. split; [|intros b; apply (cleanup_lastSeen now w b _ Hr)].
  rewrite cleanup_drops. set (keys := stale_keys (now - wm_retention w) w).
  destruct (represents_drops keys w _ Hr) as (h' & Hr' & _ & (Ew & En & Et) & Enext & _ & Hcount).
  destruct (Snapshot_spec w (rev evs) a S at_) as [Hlo E]; try assumption; try lia.
  destruct (Snapshot_spec (drops keys w) h' a S at_) as [_ E']; rewrite ?Ew, ?En, ?Enext; try assumption; try lia.
  assert (window_start (drops keys w) S at_ = window_start w S at_) as Ews
    by (unfold window_start, span; rewrite Ew, En; reflexivity).
  rewrite E, E', Ews, Et, Ew. apply Hcount. intros ev Hev Hcell Hkey.
  apply list_elem_of_fmap in Hkey as ([b t] & Eb & Hk). cbn in Eb. subst b.
  apply stale_keys_spec in Hk as [Hseen Hstale]. unfold in_cell in Hcell.
  apply andb_prop in Hcell as [Hcell Htr]. apply andb_prop in Hcell as [Hcell _].
  apply andb_prop in Hcell as [_ Hge]. apply Z.leb_le in Hge.
  destruct (rep_seen _ _ Hr ev Hev) as (l & Hl & Hle); [exact Htr | |].
  - pose proof (rep_cur _ _ Hr). pose proof (span_bounds w (S * second) at_ ltac:(lia)).
    pose proof (rep_width _ _ Hr). unfold window_start in Hge. nia.
  - rewrite Hseen in Hl. simplify_eq. lia.
Qed.

Lemma cleanup_invisible_witness :
  window_hyps 60 (1000 * second) (1300 * second) 60 demo_history /\
  (let w := window_after 60 true demo_history in
   fst (Snapshot 7 60 (1300 * second) (cleanup (1299 * second) w)) = fst (Snapshot 7 60 (1300 * second) w)) /\
  wm_lastSeen (cleanup (1299 * second) (window_after 60 true demo_history)) !! 7 = None.
Proof.
  assert (window_hyps 60 (1000 * second) (1300 * second) 60 demo_history) as H.
  { unfold window_hyps, second. split_and!; try lia. repeat constructor; cbn; unfold second; lia. }
  split; [exact H|]. split; [|vm_compute; reflexivity].
  apply (cleanup_invisible 60 true demo_history (1000 * second) (1299 * second) (1300 * second) 60 7 H).
  unfold second; lia.
Defined.
