(* ===== verification/RuleMatch.v ===== *)
(** * Rule matching ([internal/rule]: set.go, evaluate.go, validate.go)

    A rule's conditions against an event and a window snapshot, in the two
    forms the source has: the linear reference ([matchBasic], [Match]) and the
    compiled form over prebuilt sets ([engine_matchBasic], [matchWindow]); the
    action of a matched rule ([Apply]) and the validation of rules
    ([ValidateWhen], [ValidateThen]). *)

From Stdlib Require Import ZArith Lia List Bool Btauto Ascii String.
From Stdlib Require Import Floats.SpecFloat.
From stdpp Require Import base option list gmap strings.
From S2P Require Import Prelude GoString Domain GoTime RuleTypes Windows.
Import ListNotations.
Local Open Scope string_scope.
Local Open Scope Z_scope.

(** ** Sets ([set.go])

    Up to [smallSetThreshold] values stay a slice; more become a hash set.  The
    nil pointer of an empty input is [None]. *)

Definition smallSetThreshold : nat := 4.

Inductive intSet :=
  | IntVals (vals : list Z)
  | IntMap (m : gset Z).

Definition newIntSet (l : list Z) : option intSet :=
  match l with
  | [] => None
  | _ => if (length l <=? smallSetThreshold)%nat then Some (IntVals l) else Some (IntMap (list_to_set l))
  end.

Definition intSet_contains (s : option intSet) (v : option Z) : bool :=
  match s, v with
  | Some (IntMap m), Some v => bool_decide (v ∈ m)
  | Some (IntVals vals), Some v => existsb (fun x => x =? v) vals
  | _, _ => false
  end.

Inductive stringSet :=
  | StrVals (vals : list string)
  | StrMap (m : gset string).

Definition newStringSet (l : list string) : option stringSet :=
  match l with
  | [] => None
  | _ => if (length l <=? smallSetThreshold)%nat then Some (StrVals l) else Some (StrMap (list_to_set l))
  end.

Definition stringSet_contains (s : option stringSet) (v : string) : bool :=
  match s with
  | Some (StrMap m) => bool_decide (v ∈ m)
  | Some (StrVals vals) => existsb (fun x => x ==s v) vals
  | None => false
  end.

Definition substringSet : Type := list string.

Definition newSubstringSet (l : list string) : option substringSet :=
  match l with [] => None | _ => Some l end.

Definition substringSet_contains (s : option substringSet) (sv : string) : bool :=
  match s with Some vals => existsb (fun sub => Contains sv sub) vals | None => false end.

(** ** Reference matching ([evaluate.go]) *)

Definition ruleNeedsWindow (w : RuleWhen) : bool :=
  isSome (rw_Count429GE w) || isSome (rw_CountFailureGE w) || isSome (rw_CountOKGE w)
  || isSome (rw_CountTotalGE w) || isSome (rw_Ratio429GE w) || isSome (rw_RatioFailureGE w).

Definition ruleWindowSeconds (w : RuleWhen) : Z :=
  match rw_WindowSeconds w with
  | Some s => if 0 <? s then s else defaultWindowSeconds
  | None => defaultWindowSeconds
  end.

(** A condition that is absent holds; [guard o p] tests [p] on the value [o] points to. *)
Definition guard {A} (o : option A) (p : A -> bool) : bool :=
  match o with Some a => p a | None => true end.

(** A pointer of the event equals the wanted value. *)
Definition ptr_is (o : option Z) (v : Z) : bool :=
  match o with Some x => x =? v | None => false end.

(** [len(in) > 0] and no element satisfies [p] fails the rule; a nil pointer of
    the event satisfies no element. *)
Definition any_of {A} (l : list A) (p : A -> bool) : bool :=
  match l with [] => true | _ => existsb p l end.

Definition matchBasic (w : RuleWhen) (ev : Event) : bool :=
  guard (rw_Kind w) (fun k => kindFromString k =? ev_Kind ev)
  && guard (rw_HTTPStatus w) (fun s => ptr_is (ev_HTTPStatus ev) s)
  && any_of (elems (rw_HTTPStatusIn w)) (fun v => ptr_is (ev_HTTPStatus ev) v)
  && guard (rw_ErrorMessageContains w) (fun sub => Contains (ev_ErrorMessage ev) sub)
  && any_of (elems (rw_ErrorMessageContainsIn w)) (fun sub => Contains (ev_ErrorMessage ev) sub)
  && guard (rw_AccountID w) (fun a => ev_AccountID ev =? a)
  && guard (rw_TemplateID w) (fun t => ev_TemplateID ev =? t)
  && guard (rw_GroupID w) (fun g => ptr_is (ev_GroupID ev) g)
  && guard (rw_Model w) (fun m => m ==s ev_Model ev)
  && any_of (elems (rw_ModelIn w)) (fun v => ev_Model ev ==s v).

(** [float64(numerator)/float64(total) >= ratio], once the sample is large
    enough. *)
Definition ratioPass (numerator tot : Z) (totalGE : option Z) (ratio : float64) : bool :=
  match totalGE with
  | None => false
  | Some ge =>
      if tot <? ge then false
      else if tot =? 0 then false
      else f64_ge (f64_div (f64_of_int numerator) (f64_of_int tot)) ratio
  end.

Definition matchWindow (w : RuleWhen) (wc : windowSnapshot) : bool :=
  guard (rw_Count429GE w) (fun n => negb (wc_t429 wc <? n))
  && guard (rw_CountFailureGE w) (fun n => negb (wc_failure wc <? n))
  && guard (rw_CountOKGE w) (fun n => negb (wc_ok wc <? n))
  && guard (rw_CountTotalGE w) (fun n => negb (total wc <? n))
  && guard (rw_Ratio429GE w) (fun r => ratioPass (wc_t429 wc) (total wc) (rw_CountTotalGE w) r)
  && guard (rw_RatioFailureGE w) (fun r => ratioPass (wc_failure wc) (total wc) (rw_CountTotalGE w) r).

Definition Match (w : RuleWhen) (ev : Event) (wc : windowSnapshot) : bool :=
  if negb (matchBasic w ev) then false
  else
    guard (rw_Count429GE w) (fun n => negb (wc_t429 wc <? n))
    && guard (rw_CountFailureGE w) (fun n => negb (wc_failure wc <? n))
    && guard (rw_CountOKGE w) (fun n => negb (wc_ok wc <? n))
    && guard (rw_CountTotalGE w) (fun n => negb (total wc <? n))
    && guard (rw_Ratio429GE w) (fun r => ratioPass (wc_t429 wc) (total wc) (rw_CountTotalGE w) r)
    && guard (rw_RatioFailureGE w) (fun r => ratioPass (wc_failure wc) (total wc) (rw_CountTotalGE w) r).

(** [Apply]: status, cooldown end and weight of a matched rule. *)
Definition Apply (t : RuleThen) (ev : Event) : option AccountStatus * option Time * option Z :=
  let cd :=
    match rt_Cooldown t with
    | Some c =>
        match ParseDuration c with
        | Some d => if 0 <? d then Some (ev_OccurredAt ev + d) else None
        | None => None
        end
    | None => None
    end in
  let cd :=
    match ev_ResetAt ev with
    | Some reset =>
        let later := match cd with Some c => After reset c | None => false end in
        if negb (isSome (rt_Cooldown t)) || ((ev_Kind ev =? Kind429) && later) then
          match cd with
          | None => Some reset
          | Some c => if After reset c then Some reset else cd
          end
        else cd
    | None => cd
    end in
  (rt_Status t, cd, rt_Weight t).

(** ** Compiled matching ([engine.go]) *)

Record compiledRule := mkCompiled {
  cr_Rule : Rule;
  cr_httpStatusSet : option intSet;
  cr_modelSet : option stringSet;
  cr_containsSet : option substringSet
}.

Definition compileRule (r : Rule) : compiledRule :=
  mkCompiled r (newIntSet (elems (rw_HTTPStatusIn (ru_When r))))
    (newStringSet (elems (rw_ModelIn (ru_When r))))
    (newSubstringSet (elems (rw_ErrorMessageContainsIn (ru_When r)))).

Definition compileRules (l : list Rule) : list compiledRule := map compileRule l.

Definition engine_matchBasic (ev : Event) (r : compiledRule) : bool :=
  let w := ru_When (cr_Rule r) in
  guard (rw_Kind w) (fun k => kindFromString k =? ev_Kind ev)
  && guard (rw_AccountID w) (fun a => ev_AccountID ev =? a)
  && guard (rw_TemplateID w) (fun t => ev_TemplateID ev =? t)
  && guard (rw_GroupID w) (fun g => ptr_is (ev_GroupID ev) g)
  && guard (rw_HTTPStatus w) (fun s => ptr_is (ev_HTTPStatus ev) s)
  && (negb (isSome (cr_httpStatusSet r)) || intSet_contains (cr_httpStatusSet r) (ev_HTTPStatus ev))
  && guard (rw_Model w) (fun m => m ==s ev_Model ev)
  && (negb (isSome (cr_modelSet r)) || stringSet_contains (cr_modelSet r) (ev_Model ev))
  && guard (rw_ErrorMessageContains w) (fun sub => Contains (ev_ErrorMessage ev) sub)
  && (negb (isSome (cr_containsSet r)) || substringSet_contains (cr_containsSet r) (ev_ErrorMessage ev)).

(** ** Validation ([validate.go])

    The error returned, [None] for nil.  The source ranges over a map for the
    four count thresholds, so which of several negative ones is named is
    unspecified; the value carries no name. *)

Inductive RuleError :=
  | EmptyModel
  | StatusRange
  | UnknownKind
  | Exclusive (field : string)
  | EmptyList (field : string)
  | KindOKWithMessage (field : string)
  | EmptyElement (field : string)
  | ListStatusRange
  | Duplicate (field : string)
  | WindowTooSmall
  | NegativeCount
  | RatioNeedsTotal (field : string)
  | RatioRange (field : string)
  | BadStatus
  | BadCooldown
  | CooldownNotPositive
  | WeightRange
  | ResponseCodeRange
  | EmptyCustomMessage.

(** The statements of a validator, the first error wins. *)
Definition check (b : bool) (e : RuleError) (k : option RuleError) : option RuleError :=
  if b then Some e else k.
Notation "'reject' b 'with' e ;; k" := (check b e k) (at level 10, b at level 99, e at level 99, k at level 200,
  only parsing).

Definition nonempty {A} (l : option (list A)) : bool := match elems l with [] => false | _ => true end.
Definition is_empty_slice {A} (l : option (list A)) : bool := match l with Some [] => true | _ => false end.

Definition status_out_of_range (v : Z) : bool := (v <? 400) || (599 <? v).

(** The loop over [http_status_in]: range check, then the duplicate check
    against the values seen so far. *)
Fixpoint check_status_list (seen : gset Z) (l : list Z) : option RuleError :=
  match l with
  | [] => None
  | v :: rest =>
      if status_out_of_range v then Some ListStatusRange
      else if bool_decide (v ∈ seen) then Some (Duplicate "http_status_in")
      else check_status_list ({[v]} ∪ seen) rest
  end.

Fixpoint check_duplicates (field : string) (seen : gset string) (l : list string) : option RuleError :=
  match l with
  | [] => None
  | v :: rest =>
      if bool_decide (v ∈ seen) then Some (Duplicate field) else check_duplicates field ({[v]} ∪ seen) rest
  end.

Definition orElse (a b : option RuleError) : option RuleError := match a with Some e => Some e | None => b end.

Definition is_kind_ok (w : RuleWhen) : bool :=
  match rw_Kind w with Some k => kindFromString k =? KindOK | None => false end.

Definition negative (o : option Z) : bool := match o with Some v => v <? 0 | None => false end.

Definition check_ratio (field : string) (w : RuleWhen) (r : option float64) : option RuleError :=
  match r with
  | None => None
  | Some x =>
      if negb (isSome (rw_CountTotalGE w)) then Some (RatioNeedsTotal field)
      else if f64_lt x (f64_of_int 0) || f64_lt (f64_of_int 1) x then Some (RatioRange field)
      else None
  end.

Definition ValidateWhen (w : RuleWhen) : option RuleError :=
  reject (match rw_Model w with Some m => m ==s "" | None => false end) with EmptyModel ;;
  reject (match rw_HTTPStatus w with Some s => status_out_of_range s | None => false end) with StatusRange ;;
  reject (match rw_Kind w with Some k => kindFromString k <? 0 | None => false end) with UnknownKind ;;
  reject (isSome (rw_HTTPStatus w) && nonempty (rw_HTTPStatusIn w)) with Exclusive "http_status" ;;
  reject (isSome (rw_Model w) && nonempty (rw_ModelIn w)) with Exclusive "model" ;;
  reject (isSome (rw_ErrorMessageContains w) && nonempty (rw_ErrorMessageContainsIn w))
    with Exclusive "error_message_contains" ;;
  reject (is_empty_slice (rw_HTTPStatusIn w)) with EmptyList "http_status_in" ;;
  reject (is_empty_slice (rw_ModelIn w)) with EmptyList "model_in" ;;
  reject (is_empty_slice (rw_ErrorMessageContainsIn w)) with EmptyList "error_message_contains_in" ;;
  reject (is_kind_ok w && isSome (rw_ErrorMessageContains w)) with KindOKWithMessage "error_message_contains" ;;
  reject (is_kind_ok w && nonempty (rw_ErrorMessageContainsIn w)) with KindOKWithMessage "error_message_contains_in" ;;
  reject (existsb (fun s => s ==s "") (elems (rw_ModelIn w))) with EmptyElement "model_in" ;;
  reject (existsb (fun s => s ==s "") (elems (rw_ErrorMessageContainsIn w))) with EmptyElement "error_message_contains_in" ;;
  orElse (check_status_list ∅ (elems (rw_HTTPStatusIn w)))
  (orElse (check_duplicates "model_in" ∅ (elems (rw_ModelIn w)))
  (orElse (check_duplicates "error_message_contains_in" ∅ (elems (rw_ErrorMessageContainsIn w)))
  (reject (match rw_WindowSeconds w with Some s => s <? 1 | None => false end) with WindowTooSmall ;;
   reject (negative (rw_Count429GE w) || negative (rw_CountFailureGE w)
           || negative (rw_CountOKGE w) || negative (rw_CountTotalGE w)) with NegativeCount ;;
   orElse (check_ratio "when.ratio_429_ge" w (rw_Ratio429GE w))
     (check_ratio "when.ratio_failure_ge" w (rw_RatioFailureGE w))))).

Definition validStatus (s : AccountStatus) : bool :=
  (s ==s StatusActive) || (s ==s StatusUnhealthy) || (s ==s Status429) || (s ==s StatusDisabled).

Definition check_cooldown (c : option string) (k : option RuleError) : option RuleError :=
  match c with
  | None => k
  | Some s =>
      match ParseDuration s with
      | None => Some BadCooldown
      | Some d => if d <=? 0 then Some CooldownNotPositive else k
      end
  end.

Definition ValidateThen (t : RuleThen) : option RuleError :=
  reject (match rt_Status t with Some s => negb (validStatus s) | None => false end) with BadStatus ;;
  check_cooldown (rt_Cooldown t)
  (reject (match rt_Weight t with Some w => (w <? 0) || (100 <? w) | None => false end) with WeightRange ;;
   reject (match rt_ResponseCode t with Some c => status_out_of_range c | None => false end) with ResponseCodeRange ;;
   reject (match rt_CustomMessage t with Some m => m ==s "" | None => false end) with EmptyCustomMessage ;;
   None).

(** ** Compiled and reference matching agree *)

Lemma existsb_ext {A} (f g : A -> bool) (l : list A) : (forall x, f x = g x) -> existsb f l = existsb g l.
Proof. intros H. induction l as [|x l IH]; cbn; [reflexivity|]. rewrite H, IH. reflexivity. Qed.

Lemma existsb_none {A} (l : list A) : existsb (fun _ => false) l = false.
Proof. induction l; [reflexivity|assumption]. Qed.

Lemma newIntSet_contains (l : list Z) (v : option Z) :
  (negb (isSome (newIntSet l)) || intSet_contains (newIntSet l) v) = any_of l (fun x => ptr_is v x).
Proof.
  destruct l as [|x l]; [reflexivity|]. cbn [newIntSet any_of]. destruct v as [s|]; cbn [ptr_is].
  - destruct (_ <=? _)%nat; cbn [isSome negb orb intSet_contains].
    + apply existsb_ext. intros y. apply Z.eqb_sym.
    + apply eq_true_iff_eq. rewrite bool_decide_eq_true, elem_of_list_to_set, existsb_exists, list_elem_of_In.
      setoid_rewrite Z.eqb_eq. split; [eauto|intros (y & Hy & ->); exact Hy].
  - rewrite existsb_none. destruct (_ <=? _)%nat; reflexivity.
Qed.

Lemma newStringSet_contains (l : list string) (v : string) :
  (negb (isSome (newStringSet l)) || stringSet_contains (newStringSet l) v) = any_of l (fun x => v ==s x).
Proof.
  destruct l as [|x l]; [reflexivity|]. cbn [newStringSet any_of].
  destruct (_ <=? _)%nat; cbn [isSome negb orb stringSet_contains].
  - apply existsb_ext. intros y. apply String.eqb_sym.
  - apply eq_true_iff_eq. rewrite bool_decide_eq_true, elem_of_list_to_set, existsb_exists, list_elem_of_In.
    setoid_rewrite String.eqb_eq. split; [eauto|intros (y & Hy & ->); exact Hy].
Qed.

Lemma newSubstringSet_contains (l : list string) (v : string) :
  (negb (isSome (newSubstringSet l)) || substringSet_contains (newSubstringSet l) v)
  = any_of l (fun sub => Contains v sub).
Proof. destruct l; reflexivity. Qed.

(** The compiled form tests the same conditions in another order. *)
Lemma and_shuffle (a b c d e f g h i j : bool) :
  a && f && g && h && b && c && i && j && d && e = a && b && c && d && e && f && g && h && i && j.
Proof. btauto. Qed.

Lemma compiled_matchBasic (r : Rule) (ev : Event) :
  engine_matchBasic ev (compileRule r) = matchBasic (ru_When r) ev.
Proof.
  unfold engine_matchBasic, compileRule; cbn [cr_Rule cr_httpStatusSet cr_modelSet cr_containsSet].
  rewrite newIntSet_contains, newStringSet_contains, newSubstringSet_contains. unfold matchBasic.
  apply and_shuffle.
Qed.

Lemma Match_split (w : RuleWhen) (ev : Event) (wc : windowSnapshot) :
  Match w ev wc = matchBasic w ev && matchWindow w wc.
Proof. unfold Match, matchWindow. destruct (matchBasic w ev); reflexivity. Qed.

(** ** Validated rules *)

Lemma strip_prefix_refl (s : string) : strip_prefix s s = Some EmptyString.
Proof. induction s as [|c s IH]; [reflexivity|]. cbn. rewrite Ascii.eqb_refl. exact IH. Qed.

Lemma Contains_refl (s : string) : Contains s s = true.
Proof. unfold Contains. destruct s as [|c s]; [reflexivity|]. cbn [Cut]. rewrite strip_prefix_refl. reflexivity. Qed.

Lemma check_none (b : bool) (e : RuleError) (k : option RuleError) : check b e k = None -> b = false /\ k = None.
Proof. unfold check. destruct b; [discriminate|auto]. Qed.

Lemma orElse_none (a b : option RuleError) : orElse a b = None -> a = None /\ b = None.
Proof. destruct a; cbn; [discriminate|auto]. Qed.

Ltac split_checks H :=
  repeat first
    [ let E := fresh "E" in apply check_none in H as [E H]
    | let E := fresh "E" in apply orElse_none in H as [E H] ].

(** The event that satisfies a validated condition: every field as the
    condition wants it. *)
Definition sample_event (w : RuleWhen) : Event :=
  mkEvent (default 0 (rw_AccountID w)) (default 0 (rw_TemplateID w)) (rw_GroupID w)
    (match rw_Model w with Some m => m | None => default "" (head (elems (rw_ModelIn w))) end)
    (match rw_Kind w with Some k => kindFromString k | None => KindOK end)
    (match rw_HTTPStatus w with Some s => Some s | None => head (elems (rw_HTTPStatusIn w)) end)
    (match rw_ErrorMessageContains w with
     | Some s => s
     | None => default "" (head (elems (rw_ErrorMessageContainsIn w)))
     end)
    None 0.

Lemma guard_ptr (o d : option Z) : guard o (fun s => ptr_is (match o with Some s => Some s | None => d end) s) = true.
Proof. destruct o; cbn; [apply Z.eqb_refl|reflexivity]. Qed.

Lemma kindFromString_range (k : string) : (kindFromString k <? 0) = false -> 0 <= kindFromString k <= 4.
Proof. unfold kindFromString, KindOK, Kind429, Kind4xx, Kind5xx, KindNetwork. repeat bcase; cbn; intros; lia || discriminate. Qed.

(** A condition that passes validation is not dead: there is an event of
    one of the five kinds that satisfies every one of its basic conditions
    together, so neither an unknown kind, nor a pair of exclusive fields, nor an
    empty list can make a stored rule unmatchable. *)
Theorem validated_when_satisfiable (w : RuleWhen) : ValidateWhen w = None ->
  exists ev, 0 <= ev_Kind ev <= 4 /\ matchBasic w ev = true.
Proof.
  intros H. exists (sample_event w). unfold ValidateWhen in H. split_checks H.
  split; [unfold sample_event; cbn; destruct (rw_Kind w); [apply kindFromString_range; assumption|unfold KindOK; lia]|].
  unfold matchBasic, sample_event, nonempty in *; cbn in *.
  repeat (apply andb_true_intro; split).
  - destruct (rw_Kind w); cbn; [apply Z.eqb_refl|reflexivity].
  - apply guard_ptr.
  - destruct (elems (rw_HTTPStatusIn w)) as [|s l]; [reflexivity|].
    destruct (rw_HTTPStatus w); [discriminate|]. cbn. rewrite Z.eqb_refl. reflexivity.
  - destruct (rw_ErrorMessageContains w); cbn; [apply Contains_refl|reflexivity].
  - destruct (elems (rw_ErrorMessageContainsIn w)) as [|s l]; [reflexivity|].
    destruct (rw_ErrorMessageContains w); [discriminate|]. cbn. rewrite Contains_refl. reflexivity.
  - destruct (rw_AccountID w); cbn; [apply Z.eqb_refl|reflexivity].
  - destruct (rw_TemplateID w); cbn; [apply Z.eqb_refl|reflexivity].
  - destruct (rw_GroupID w); cbn; [apply Z.eqb_refl|reflexivity].
  - destruct (rw_Model w); cbn; [apply String.eqb_refl|reflexivity].
  - destruct (elems (rw_ModelIn w)) as [|m l]; [reflexivity|].
    destruct (rw_Model w); [discriminate|]. cbn. rewrite String.eqb_refl. reflexivity.
Qed.

Definition demo_when : RuleWhen :=
  mkRuleWhen (Some "5xx") None None (Some 3) None (Some 9) None (Some [500; 502; 503; 504; 529])
    (Some ["m1"; "m2"]) (Some ["overload"]) (Some 30) None (Some 5) None (Some 10) None
    (Some (f64_div (f64_of_int 1) (f64_of_int 2))).

Lemma validated_when_satisfiable_witness :
  ValidateWhen demo_when = None /\ exists ev, 0 <= ev_Kind ev <= 4 /\ matchBasic demo_when ev = true.
Proof.
  assert (ValidateWhen demo_when = None) as H by (vm_compute; reflexivity).
  split; [exact H|]. exact (validated_when_satisfiable demo_when H).
Defined.

(** The action of a validated rule: its cooldown always ends after the
    event; for a 429 that names a reset instant it ends at the later of the two,
    for other kinds the rule's own cooldown stands; without a rule cooldown the
    reset instant, if any, is used as it is; status and weight are the rule's. *)
Theorem validated_then_applies (t : RuleThen) (ev : Event) : ValidateThen t = None ->
  fst (fst (Apply t ev)) = rt_Status t /\ snd (Apply t ev) = rt_Weight t /\
  match rt_Cooldown t with
  | None => snd (fst (Apply t ev)) = ev_ResetAt ev
  | Some c => exists d, ParseDuration c = Some d /\ 0 < d /\
      snd (fst (Apply t ev)) =
        Some (match ev_ResetAt ev with
              | Some r => if ev_Kind ev =? Kind429 then Z.max r (ev_OccurredAt ev + d) else ev_OccurredAt ev + d
              | None => ev_OccurredAt ev + d
              end)
  end.
Proof.
  intros H. unfold ValidateThen in H. apply check_none in H as [_ H]. split; [reflexivity|]. split; [reflexivity|].
  unfold Apply, check_cooldown in *. destruct (rt_Cooldown t) as [c|]; cbn in *.
  - destruct (ParseDuration c) as [d|]; [|discriminate]. destruct (Z.leb_spec d 0); [discriminate|].
    exists d. split; [reflexivity|]. split; [lia|]. destruct (Z.ltb_spec 0 d); [|lia]. cbn.
    destruct (ev_ResetAt ev) as [r|]; [|reflexivity]. unfold After.
    destruct (ev_Kind ev =? Kind429); cbn; [|reflexivity].
    destruct (Z.ltb_spec (ev_OccurredAt ev + d) r); f_equal; lia.
  - destruct (ev_ResetAt ev); reflexivity.
Qed.

Lemma validated_then_applies_witness :
  let t := mkRuleThen (Some Status429) (Some "2s") None None None in
  let ev := mkEvent 1 1 None "m" Kind429 (Some 429) "" (Some (105 * second)) (100 * second) in
  ValidateThen t = None /\ snd (fst (Apply t ev)) = Some (105 * second).
Proof.
  intros t ev. assert (ValidateThen t = None) as H by (vm_compute; reflexivity). split; [exact H|].
  destruct (validated_then_applies t ev H) as (_ & _ & (d & Hd & _ & E)). rewrite E.
  vm_compute in Hd. injection Hd as <-. vm_compute. reflexivity.
Defined.
