(* ===== verification/RuleEngine.v ===== *)
(** * The rule engine ([internal/rule]: engine.go, worker.go)

    The engine keeps the compiled rules, the sliding window and a bounded event
    queue.  Requests are classified on the hot path ([Classify]); finished
    requests are queued ([Enqueue]) and the worker applies the first rule that
    matches ([HandleEvent]).  The rule table is reached through the
    [RuleStore] interface, with its laws in [RuleStoreLaws]; the theorems about
    [Reload] are proved against the interface and [MemRules] is an instance.

    The action callback the scheduler registers is the value
    [HandleEvent] returns: [None] when nothing is applied. *)

From Stdlib Require Import ZArith Lia List Bool Ascii String.
From stdpp Require Import base option list gmap strings sorting.
From S2P Require Import Prelude GoString Domain GoTime RuleTypes Windows RuleMatch.
Import ListNotations.
Local Open Scope string_scope.
Local Open Scope Z_scope.

(** ** State *)

Record ApplyCall := mkApplyCall {
  ac_aid : Z;
  ac_status : option AccountStatus;
  ac_cooldown : option Time;
  ac_weight : option Z;
  ac_errMsg : string
}.

Record RuleEngine := mkEngine {
  re_ch : list Event;              (** the bounded channel, oldest first *)
  re_cap : nat;
  re_dropped : Z;
  re_warnDropped : bool;
  re_apply : bool;                 (** a callback is registered *)
  re_rules : list compiledRule;
  re_needsOK : bool;
  re_wm : windowMap
}.

Definition defaultQueueSize : Z := 4096.
Definition ruleDropWarnThreshold : Z := 10000.

Definition New (eventQueueSize : Z) : RuleEngine :=
  let q := if eventQueueSize <=? 0 then defaultQueueSize else eventQueueSize in
  mkEngine [] (Z.to_nat q) 0 false false [] false zero_windowMap.

Definition SetApply (e : RuleEngine) : RuleEngine :=
  mkEngine (re_ch e) (re_cap e) (re_dropped e) (re_warnDropped e) true (re_rules e) (re_needsOK e) (re_wm e).

Definition NeedsOKEvents (e : RuleEngine) : bool := re_needsOK e.

Definition with_wm (e : RuleEngine) (w : windowMap) : RuleEngine :=
  mkEngine (re_ch e) (re_cap e) (re_dropped e) (re_warnDropped e) (re_apply e) (re_rules e) (re_needsOK e) w.

(** ** Handling events *)

(** The scan over the rules: the first one whose basic and window conditions
    hold.  A snapshot is taken for every windowed rule, before its basic
    conditions are tried. *)
Fixpoint scan_rules (rules : list compiledRule) (ev : Event) (w : windowMap)
  : option compiledRule * windowMap :=
  match rules with
  | [] => (None, w)
  | r :: rest =>
      let wh := ru_When (cr_Rule r) in
      let '(wc, w) :=
        if ruleNeedsWindow wh
        then Snapshot (ev_AccountID ev) (ruleWindowSeconds wh) (ev_OccurredAt ev) w
        else (zero_counts, w) in
      if negb (engine_matchBasic ev r) then scan_rules rest ev w
      else if negb (matchWindow wh wc) then scan_rules rest ev w
      else (Some r, w)
  end.

Definition with_OccurredAt (ev : Event) (t : Time) : Event :=
  mkEvent (ev_AccountID ev) (ev_TemplateID ev) (ev_GroupID ev) (ev_Model ev) (ev_Kind ev)
    (ev_HTTPStatus ev) (ev_ErrorMessage ev) (ev_ResetAt ev) t.

Definition HandleEvent (now : Time) (ev : Event) (e : RuleEngine) : RuleEngine * option ApplyCall :=
  let ev := if IsZero (ev_OccurredAt ev) then with_OccurredAt ev now else ev in
  let w := Add ev (re_wm e) in
  match scan_rules (re_rules e) ev w with
  | (Some r, w) =>
      let '(st, cd, wt) := Apply (ru_Then (cr_Rule r)) ev in
      (with_wm e w,
       if re_apply e then Some (mkApplyCall (ev_AccountID ev) st cd wt (ev_ErrorMessage ev)) else None)
  | (None, w) => (with_wm e w, None)
  end.

Definition has_action (t : RuleThen) : bool :=
  isSome (rt_Status t) || isSome (rt_Weight t) || isSome (rt_Cooldown t).

Fixpoint classify_scan (rules : list compiledRule) (ev : Event) : option RuleThen :=
  match rules with
  | [] => None
  | r :: rest =>
      if negb (engine_matchBasic ev r) then classify_scan rest ev else Some (ru_Then (cr_Rule r))
  end.

Definition Classify (e : RuleEngine) (ev : Event) : RuleThen * bool :=
  match classify_scan (re_rules e) ev with
  | Some t => (t, has_action t)
  | None =>
      if ev_Kind ev =? KindOK then (zero_Then, false)
      else (mkRuleThen None None None (Some 502) (Some "upstream rejected request"), false)
  end.

Definition UnifiedMessage (t : RuleThen) : string * bool :=
  match rt_CustomMessage t with Some m => (m, true) | None => ("", false) end.

(** ** The queue ([worker.go]) *)

Definition with_queue (e : RuleEngine) (q : list Event) (d : Z) (warn : bool) : RuleEngine :=
  mkEngine q (re_cap e) d warn (re_apply e) (re_rules e) (re_needsOK e) (re_wm e).

(** [Enqueue] also tells whether it logged the overflow warning. *)
Definition Enqueue (ev : Event) (e : RuleEngine) : RuleEngine * bool :=
  if (length (re_ch e) <? re_cap e)%nat then
    (with_queue e (re_ch e ++ [ev])%list (re_dropped e) (re_warnDropped e), false)
  else
    let n := wrapu64 (re_dropped e + 1) in
    if (ruleDropWarnThreshold <=? n) && negb (re_warnDropped e)
    then (with_queue e (re_ch e) n true, true)
    else (with_queue e (re_ch e) n (re_warnDropped e), false).

Definition resetDropWarnIfDrained (e : RuleEngine) : RuleEngine :=
  if re_warnDropped e && (length (re_ch e) =? 0)%nat
  then with_queue e (re_ch e) (re_dropped e) false else e.

(** One turn of the worker on the oldest queued event. *)
Definition consume (now : Time) (e : RuleEngine) : RuleEngine * list ApplyCall :=
  match re_ch e with
  | [] => (e, [])
  | ev :: q =>
      let '(e', call) := HandleEvent now ev (with_queue e q (re_dropped e) (re_warnDropped e)) in
      (resetDropWarnIfDrained e', match call with Some c => [c] | None => [] end)
  end.

(** [Flush]: the loop ends with the queue, one turn per queued event. *)
Fixpoint flush_loop (fuel : nat) (now : Time) (e : RuleEngine) : RuleEngine * list ApplyCall :=
  match fuel, re_ch e with
  | S k, _ :: _ =>
      let '(e1, c1) := consume now e in
      let '(e2, c2) := flush_loop k now e1 in (e2, (c1 ++ c2)%list)
  | _, _ => (e, [])
  end.

Definition Flush (now : Time) (e : RuleEngine) : RuleEngine * list ApplyCall :=
  flush_loop (length (re_ch e)) now e.

Definition tick_cleanup (now : Time) (e : RuleEngine) : RuleEngine := with_wm e (cleanup now (re_wm e)).

(** ** The rule table *)

Inductive CreateResult := Created | ErrConflict | CreateFailed.

(** [repository.RuleStore], the operations the engine uses: [None] is an error
    of the query. *)
Class RuleStore (St : Type) := {
  ListEnabled : St -> option (list Rule);
  CountRules : St -> option Z;
  CreateRule : Rule -> St -> CreateResult * St
}.

Definition seed (name : string) (priority : Z) (w : RuleWhen) (t : RuleThen) : Rule :=
  mkRule 0 name true priority w t.

Definition when_kind (k : string) (status : option Z) (msg : option string) : RuleWhen :=
  mkRuleWhen (Some k) status msg None None None None None None None None None None None None None None.

Definition seeds : list Rule :=
  [ seed "seed-429" 10 (when_kind "429" None None)
      (mkRuleThen (Some Status429) (Some "2s") None None (Some "rate limited"));
    seed "seed-4xx-400" 15 (when_kind "4xx" (Some 400) None) zero_Then;
    seed "seed-5xx-503-overload" 16 (when_kind "5xx" (Some 503) (Some "overload")) zero_Then;
    seed "seed-5xx" 20 (when_kind "5xx" None None)
      (mkRuleThen (Some StatusUnhealthy) (Some "10m") None (Some 502) (Some "Upstream request failed"));
    seed "seed-network" 25 (when_kind "network" None None)
      (mkRuleThen (Some StatusUnhealthy) (Some "5s") None (Some 502) (Some "Upstream request failed"));
    seed "seed-ok" 30 (when_kind "ok" None None) (mkRuleThen (Some StatusActive) None None None None) ].

Section Store.
Context {St : Type} `{!RuleStore St}.

Fixpoint create_all (l : list Rule) (s : St) : bool * St :=
  match l with
  | [] => (true, s)
  | r :: rest =>
      match CreateRule r s with
      | (CreateFailed, s) => (false, s)
      | (_, s) => create_all rest s
      end
  end.

(** [true] is a nil error. *)
Definition seedRules (s : St) : bool * St :=
  match CountRules s with
  | None => (false, s)
  | Some n => if 0 <? n then (true, s) else create_all seeds s
  end.
End Store.

(** ** [Reload] *)

(** [slices.SortFunc] by priority difference.  Up to 12 elements the library
    sorts by insertion; beyond that the priorities, unique in the table, leave
    only one sorted order. *)
Definition cmpPriority (a b : Rule) : Z := ru_Priority a [-] ru_Priority b.

Fixpoint insert_rule (r : Rule) (l : list Rule) : list Rule :=
  match l with
  | [] => [r]
  | x :: rest => if cmpPriority x r <=? 0 then x :: insert_rule r rest else r :: l
  end.

Definition sort_rules (l : list Rule) : list Rule := fold_left (fun acc r => insert_rule r acc) l [].

Definition rule_needs_ok (r : Rule) : bool :=
  match rw_Kind (ru_When r) with None => true | Some k => k ==s "ok" end.

Definition widen (m : Z) (r : Rule) : Z :=
  match rw_WindowSeconds (ru_When r) with
  | Some s => if m <? s then s else m
  | None => m
  end.

Definition max_window (rules : list Rule) : Z := fold_left widen rules 0.

(** Publish a rule list: compiled rules, the ok flag and a fresh window. *)
Definition install (rules : list Rule) (e : RuleEngine) : RuleEngine :=
  let needsOK := existsb rule_needs_ok rules in
  mkEngine (re_ch e) (re_cap e) (re_dropped e) (re_warnDropped e) (re_apply e)
    (compileRules rules) needsOK (reset (max_window rules [*] second) needsOK).

Section Reload.
Context {St : Type} `{!RuleStore St}.

Definition Reload (e : RuleEngine) (s : St) : bool * RuleEngine * St :=
  match ListEnabled s with
  | None => (false, e, s)
  | Some [] =>
      match seedRules s with
      | (false, s) => (false, e, s)
      | (true, s) =>
          match ListEnabled s with
          | None => (false, e, s)
          | Some rules => (true, install (sort_rules rules) e, s)
          end
      end
  | Some rules => (true, install (sort_rules rules) e, s)
  end.
End Reload.

(** ** An in-memory table

    The unique constraints of the schema: no two rules share a name or a
    priority. *)

Definition rule_clash (a b : Rule) : bool := (ru_Name a ==s ru_Name b) || (ru_Priority a =? ru_Priority b).

#[export] Instance MemRules : RuleStore (list Rule) := {|
  ListEnabled s := Some (List.filter ru_Enabled s);
  CountRules s := Some (Z.of_nat (length s));
  CreateRule r s := if existsb (rule_clash r) s then (ErrConflict, s) else (Created, (s ++ [r])%list)
|}.

Example seeded_engine_priorities :
  let '(ok, e, s) := Reload (New 0) ([] : list Rule) in
  ok = true /\ map (fun r => ru_Name (cr_Rule r)) (re_rules e) = map ru_Name seeds /\ re_needsOK e = true.
Proof. vm_compute. auto. Qed.

(** ** First match *)

(** The reference decision: the first source rule whose [Match] holds, windowed
    rules against the snapshot of their own window. *)
Definition rule_counts (w : windowMap) (ev : Event) (r : Rule) : windowSnapshot :=
  if ruleNeedsWindow (ru_When r)
  then fst (Snapshot (ev_AccountID ev) (ruleWindowSeconds (ru_When r)) (ev_OccurredAt ev) w)
  else zero_counts.

Definition first_match (rules : list Rule) (w : windowMap) (ev : Event) : option Rule :=
  List.find (fun r => Match (ru_When r) ev (rule_counts w ev r)) rules.

(** A window already past the instant is not moved by a snapshot. *)
Lemma advanceTo_past (t : Time) (w : windowMap) : wm_nextAt w <> 0 -> t < wm_nextAt w -> advanceTo t w = w.
Proof.
  intros Hz Ht. unfold advanceTo, IsZero. destruct (Z.eqb_spec (wm_nextAt w) 0); [contradiction|].
  destruct (advance_fuel t w) as [|k]; [reflexivity|]. cbn. unfold Before.
  destruct (Z.ltb_spec t (wm_nextAt w)); [reflexivity|lia].
Qed.

Lemma Snapshot_past (a S : Z) (t : Time) (w : windowMap) : wm_nextAt w <> 0 -> t < wm_nextAt w ->
  snd (Snapshot a S t w) = w.
Proof.
  intros Hz Ht. unfold Snapshot. destruct (nbuckets w =? 0); [reflexivity|].
  rewrite advanceTo_past by assumption. cbn. destruct (_ <=? 0); reflexivity.
Qed.

Lemma scan_first_match (rules : list Rule) (ev : Event) (w : windowMap) :
  wm_nextAt w <> 0 -> ev_OccurredAt ev < wm_nextAt w ->
  scan_rules (compileRules rules) ev w = (compileRule <$> first_match rules w ev, w).
Proof.
  intros Hz Ht. induction rules as [|r rules IH]; [reflexivity|].
  cbn [compileRules map scan_rules first_match List.find]. fold (compileRules rules).
  rewrite compiled_matchBasic, Match_split. cbn [cr_Rule compileRule]. unfold rule_counts at 1.
  destruct (ruleNeedsWindow (ru_When r)).
  - pose proof (Snapshot_past (ev_AccountID ev) (ruleWindowSeconds (ru_When r)) _ w Hz Ht) as Hs.
    destruct (Snapshot _ _ _ w) as [wc w']. cbn in Hs. subst w'. cbn [fst].
    destruct (matchBasic (ru_When r) ev); cbn; [|exact IH].
    destruct (matchWindow (ru_When r) wc); cbn; [reflexivity|exact IH].
  - destruct (matchBasic (ru_When r) ev); cbn; [|exact IH].
    destruct (matchWindow (ru_When r) zero_counts); cbn; [reflexivity|exact IH].
Qed.

#[local] Arguments Apply : simpl never.
#[local] Arguments Add : simpl never.
#[local] Arguments Snapshot : simpl never.

(** The callback's arguments for a matched rule. *)
Definition call_of (ev : Event) (t : RuleThen) : ApplyCall :=
  let '(st, cd, wt) := Apply t ev in mkApplyCall (ev_AccountID ev) st cd wt (ev_ErrorMessage ev).

Lemma Add_past (ev : Event) (w : windowMap) (h : list Event) : represents w h -> 0 <= ev_OccurredAt ev ->
  ev_OccurredAt ev < wm_nextAt (Add ev w).
Proof.
  intros Hr Ht. destruct (Add_frame ev w h Hr Ht) as (_ & _ & _ & _ & ->).
  destruct (Truncate_bounds (ev_OccurredAt ev) (wm_width w) (rep_width _ _ Hr)) as [? _]. lia.
Qed.

(** C27: Handling an event counts it in the window first and then applies the
    first enabled rule, in priority order, whose reference conditions match the
    event and that window; the compiled sets, the order of the tests and the
    window movements of the scan do not show.  With no match only the count
    changes. *)
Theorem handle_event_first_match (now : Time) (ev : Event) (e : RuleEngine) (rules : list Rule) (h : list Event) :
  re_rules e = compileRules rules -> re_apply e = true -> represents (re_wm e) h ->
  0 < ev_OccurredAt ev -> in_reach (re_wm e) (ev_OccurredAt ev) ->
  HandleEvent now ev e =
    (with_wm e (Add ev (re_wm e)),
     (fun r => call_of ev (ru_Then r)) <$> first_match rules (Add ev (re_wm e)) ev) /\
  represents (Add ev (re_wm e)) (ev :: h).
Proof.
  intros Hrules Happ Hr Ht Hreach. split; [|apply Add_represents; assumption].
  pose proof (Add_past ev (re_wm e) h Hr ltac:(lia)) as Hp. unfold HandleEvent, IsZero.
  destruct (Z.eqb_spec (ev_OccurredAt ev) 0); [lia|].
  rewrite Hrules, scan_first_match by lia. unfold call_of. rewrite Happ.
  destruct (first_match _ _ _) as [r|]; cbn; [|reflexivity].
  destruct (Apply _ _) as [[st cd] wt]. reflexivity.
Qed.

Definition demo_rules : list Rule :=
  [ seed "burst" 5 (mkRuleWhen (Some "5xx") None None None None None None None None None (Some 60) None
      (Some 3) None None None None) (mkRuleThen (Some StatusDisabled) None None None None);
    seed "any" 9 (when_kind "5xx" None None) (mkRuleThen (Some StatusUnhealthy) (Some "5s") None None None) ].
Definition demo_engine : RuleEngine := SetApply (install demo_rules (New 0)).
Definition demo_ev (t : Z) : Event := mkEvent 7 1 None "m" Kind5xx (Some 500) "boom" None (t * second).

Lemma handle_event_first_match_witness :
  represents (re_wm demo_engine) [] /\
  first_match demo_rules (Add (demo_ev 1000) (re_wm demo_engine)) (demo_ev 1000) = nth_error demo_rules 1 /\
  HandleEvent 0 (demo_ev 1000) demo_engine =
    (with_wm demo_engine (Add (demo_ev 1000) (re_wm demo_engine)),
     Some (mkApplyCall 7 (Some StatusUnhealthy) (Some (1005 * second)) None "boom")).
Proof.
  assert (represents (re_wm demo_engine) []) as Hr.
  { apply (reset_represents (60 * second) false). unfold second. lia. }
  assert (in_reach (re_wm demo_engine) (ev_OccurredAt (demo_ev 1000))) as Hreach
    by (vm_compute; repeat split; discriminate).
  split; [exact Hr|]. split; [vm_compute; reflexivity|].
  destruct (handle_event_first_match 0 (demo_ev 1000) demo_engine demo_rules [] eq_refl eq_refl Hr
    ltac:(vm_compute; reflexivity) Hreach) as [E _].
  rewrite E. vm_compute. reflexivity.
Defined.

(** ** Classification against application *)

Lemma classify_scan_find (rules : list Rule) (ev : Event) :
  classify_scan (compileRules rules) ev = ru_Then <$> List.find (fun r => matchBasic (ru_When r) ev) rules.
Proof.
  induction rules as [|r rules IH]; [reflexivity|].
  cbn [compileRules map classify_scan List.find]. rewrite compiled_matchBasic.
  destruct (matchBasic (ru_When r) ev); cbn; [reflexivity|exact IH].
Qed.

Lemma matchWindow_unwindowed (w : RuleWhen) (wc : windowSnapshot) : ruleNeedsWindow w = false -> matchWindow w wc = true.
Proof.
  unfold ruleNeedsWindow, matchWindow. intros H.
  repeat (apply orb_false_elim in H; destruct H as [H ?]).
  repeat match goal with E : isSome ?o = false |- _ => destruct o; [discriminate|clear E] end. reflexivity.
Qed.

Lemma first_match_unwindowed (rules : list Rule) (w : windowMap) (ev : Event) :
  forallb (fun r => negb (ruleNeedsWindow (ru_When r))) rules = true ->
  first_match rules w ev = List.find (fun r => matchBasic (ru_When r) ev) rules.
Proof.
  unfold first_match. induction rules as [|r rules IH]; intros H; [reflexivity|].
  cbn in H. apply andb_prop in H as [Hw H]. cbn [List.find].
  rewrite Match_split, matchWindow_unwindowed, andb_true_r by (destruct (ruleNeedsWindow _); [discriminate|reflexivity]).
  destruct (matchBasic (ru_When r) ev); [reflexivity|apply IH, H].
Qed.

(** Without window conditions the hot path and the worker agree: the rule
    [Classify] answers with is the one the worker would apply, so when it says
    the event need not be delivered the worker would have changed neither status
    nor weight (the provider's own reset instant, if the event names one, is the
    only cooldown it could have set). *)
Theorem classify_agrees_with_worker (now : Time) (ev : Event) (e : RuleEngine) (rules : list Rule) (h : list Event) :
  re_rules e = compileRules rules -> re_apply e = true -> represents (re_wm e) h ->
  0 < ev_OccurredAt ev -> in_reach (re_wm e) (ev_OccurredAt ev) ->
  forallb (fun r => negb (ruleNeedsWindow (ru_When r))) rules = true ->
  let '(t, punish) := Classify e ev in
  match snd (HandleEvent now ev e) with
  | Some c => c = call_of ev t /\
      (punish = false -> ac_status c = None /\ ac_weight c = None /\ ac_cooldown c = ev_ResetAt ev)
  | None => punish = false /\ existsb (fun r => matchBasic (ru_When r) ev) rules = false
  end.
Proof.
  intros Hrules Happ Hr Ht Hreach Hw.
  pose proof (Add_past ev (re_wm e) h Hr ltac:(lia)) as Hp.
  unfold Classify, HandleEvent, IsZero. destruct (Z.eqb_spec (ev_OccurredAt ev) 0); [lia|].
  rewrite Hrules, scan_first_match, classify_scan_find, first_match_unwindowed by (assumption || lia).
  rewrite Happ. destruct (List.find _ rules) as [r|] eqn:Ef; cbn.
  - unfold call_of. destruct (Apply (ru_Then r) ev) as [[st cd] wt] eqn:Ea. cbn. split; [reflexivity|].
    unfold has_action. intros Hno. apply orb_false_elim in Hno as [Hno Hc]. apply orb_false_elim in Hno as [Hs Hwt].
    unfold Apply in Ea. destruct (rt_Status (ru_Then r)), (rt_Weight (ru_Then r)), (rt_Cooldown (ru_Then r)); try discriminate.
    cbn in Ea. destruct (ev_ResetAt ev); injection Ea as <- <- <-; auto.
  - assert (existsb (fun r => matchBasic (ru_When r) ev) rules = false) as Hnone.
    { apply not_true_is_false. intros (r & Hin & Hm)%existsb_exists.
      pose proof (List.find_none _ _ Ef r Hin). cbn in *. congruence. }
    destruct (ev_Kind ev =? KindOK); cbn; auto.
Qed.

Definition seeded : RuleEngine := SetApply (install seeds (New 0)).

Lemma classify_agrees_with_worker_witness :
  represents (re_wm seeded) [] /\
  (let '(t, punish) := Classify seeded (demo_ev 1000) in
   match snd (HandleEvent 0 (demo_ev 1000) seeded) with
   | Some c => c = call_of (demo_ev 1000) t /\
      (punish = false -> ac_status c = None /\ ac_weight c = None /\ ac_cooldown c = ev_ResetAt (demo_ev 1000))
   | None => punish = false /\ existsb (fun r => matchBasic (ru_When r) (demo_ev 1000)) seeds = false
   end).
Proof.
  assert (represents (re_wm seeded) []) as Hr.
  { change (re_wm seeded) with (reset (60 * second) true). apply reset_represents. unfold second. lia. }
  split; [exact Hr|].
  apply (classify_agrees_with_worker 0 (demo_ev 1000) seeded seeds [] eq_refl eq_refl Hr).
  - vm_compute. reflexivity.
  - vm_compute. repeat split; discriminate.
  - vm_compute. reflexivity.
Defined.

(** ** Reloading *)

Definition le_priority (a b : Rule) : Prop := ru_Priority a <= ru_Priority b.
Definition priority_ok (r : Rule) : Prop := - 2 ^ 61 <= ru_Priority r <= 2 ^ 61.

Lemma insert_rule_perm (r : Rule) (l : list Rule) : insert_rule r l ≡ₚ r :: l.
Proof.
  induction l as [|x l IH]; [reflexivity|]. cbn. destruct (_ <=? 0); [|reflexivity].
  rewrite IH. apply perm_swap.
Qed.

Lemma sort_rules_perm_acc (l : list Rule) : forall acc,
  fold_left (fun acc r => insert_rule r acc) l acc ≡ₚ l ++ acc.
Proof.
  induction l as [|r l IH]; intros acc; [reflexivity|]. cbn. rewrite IH, insert_rule_perm.
  symmetry. apply Permutation_middle.
Qed.

Lemma sort_rules_perm (l : list Rule) : sort_rules l ≡ₚ l.
Proof. unfold sort_rules. rewrite sort_rules_perm_acc, app_nil_r. reflexivity. Qed.

Lemma cmpPriority_spec (a b : Rule) : priority_ok a -> priority_ok b ->
  cmpPriority a b = ru_Priority a - ru_Priority b.
Proof. unfold priority_ok. intros. apply sub64_small. unfold_int. lia. Qed.

Lemma insert_rule_sorted (r : Rule) (l : list Rule) : priority_ok r -> Forall priority_ok l ->
  StronglySorted le_priority l -> StronglySorted le_priority (insert_rule r l).
Proof.
  intros Hr Hl Hs. induction Hs as [|x l Hs IH Hx]; cbn; [repeat constructor|].
  inversion Hl as [|? ? Hxo Hlo]; subst. rewrite cmpPriority_spec by assumption.
  destruct (Z.leb_spec (ru_Priority x - ru_Priority r) 0).
  - constructor; [apply IH, Hlo|]. rewrite insert_rule_perm. constructor; [unfold le_priority; lia|exact Hx].
  - constructor; [constructor; assumption|]. constructor; [unfold le_priority; lia|].
    eapply Forall_impl; [exact Hx|]. unfold le_priority. intros y Hy. lia.
Qed.

Lemma sort_rules_sorted (l : list Rule) : Forall priority_ok l -> StronglySorted le_priority (sort_rules l).
Proof.
  intros Hl. unfold sort_rules.
  assert (forall acc, Forall priority_ok acc -> StronglySorted le_priority acc ->
    StronglySorted le_priority (fold_left (fun acc r => insert_rule r acc) l acc)) as H;
    [|apply H; constructor].
  induction Hl as [|r l Hr Hl IH]; intros acc Ha Hs; [exact Hs|]. cbn. apply IH.
  - rewrite insert_rule_perm. constructor; assumption.
  - apply insert_rule_sorted; assumption.
Qed.

Lemma widen_ge (rules : list Rule) : forall m, m <= fold_left widen rules m.
Proof.
  induction rules as [|x rules IH]; intros m; [cbn; lia|]. cbn. etransitivity; [|apply IH].
  unfold widen. destruct (rw_WindowSeconds _) as [s|]; [destruct (Z.ltb_spec m s)|]; lia.
Qed.

Lemma widen_covers (rules : list Rule) (r : Rule) (s : Z) : r ∈ rules -> rw_WindowSeconds (ru_When r) = Some s ->
  forall m, s <= fold_left widen rules m.
Proof.
  intros Hin Hs. induction rules as [|x rules IH]; intros m; [apply not_elem_of_nil in Hin; contradiction|].
  cbn. apply elem_of_cons in Hin as [<-|Hin]; [|apply IH, Hin].
  etransitivity; [|apply widen_ge]. unfold widen. rewrite Hs. destruct (Z.ltb_spec m s); lia.
Qed.

Lemma reset_default (mw : Duration) (tr : bool) : mw <= 0 -> reset mw tr = reset (60 * second) tr.
Proof. intros H. unfold reset. destruct (Z.leb_spec mw 0); [|lia]. reflexivity. Qed.

(** What publishing a list of rules establishes. *)
Record installed (rules : list Rule) (e e' : RuleEngine) (sorted : list Rule) : Prop := mkInstalled {
  ins_perm : sorted ≡ₚ rules;
  ins_rules : re_rules e' = compileRules sorted;
  ins_queue : re_ch e' = re_ch e;
  ins_ok : re_needsOK e' = true <->
    exists r, r ∈ rules /\ (rw_Kind (ru_When r) = None \/ rw_Kind (ru_When r) = Some "ok");
  ins_sorted : Forall priority_ok rules -> StronglySorted le_priority sorted;
  ins_window : max_window sorted <= 1000000000 -> represents (re_wm e') [] /\
    forall r sec, r ∈ rules -> rw_WindowSeconds (ru_When r) = Some sec ->
      sec * second <= (nbuckets (re_wm e') - 1) * wm_width (re_wm e')
}.

Lemma rule_needs_ok_spec (r : Rule) : rule_needs_ok r = true <->
  rw_Kind (ru_When r) = None \/ rw_Kind (ru_When r) = Some "ok".
Proof.
  unfold rule_needs_ok. destruct (rw_Kind (ru_When r)) as [k|]; [rewrite String.eqb_eq|]; split; auto.
  - intros ->. auto.
  - intros [|[= ->]]; [discriminate|reflexivity].
Qed.

Lemma install_window (rules : list Rule) (tr : bool) : max_window rules <= 1000000000 ->
  let w := reset (max_window rules [*] second) tr in
  represents w [] /\ max_window rules * second <= (nbuckets w - 1) * wm_width w.
Proof.
  intros Hm w. assert (0 <= max_window rules) as H0 by apply widen_ge. unfold w. clear w.
  rewrite (mul64_small (max_window rules) second) by (unfold second; unfold_int; lia).
  destruct (Z.eq_dec (max_window rules) 0) as [->|Hne].
  - rewrite reset_default by lia. destruct (reset_represents (60 * second) tr) as (Hr & _ & _ & Hc & _);
      [unfold second; lia|]. split; [exact Hr|]. unfold second in *. lia.
  - destruct (reset_represents (max_window rules * second) tr) as (Hr & _ & _ & Hc & _); [unfold second; lia|auto].
Qed.

Lemma install_spec (rules : list Rule) (e : RuleEngine) :
  installed rules e (install (sort_rules rules) e) (sort_rules rules).
Proof.
  constructor; cbn; [apply sort_rules_perm|reflexivity|reflexivity| |apply sort_rules_sorted|].
  - rewrite existsb_exists. split; intros (r & Hin & Hk); exists r.
    + rewrite <- list_elem_of_In, sort_rules_perm in Hin. rewrite <- rule_needs_ok_spec. auto.
    + rewrite <- list_elem_of_In, sort_rules_perm. rewrite rule_needs_ok_spec. auto.
  - intros Hm. destruct (install_window (sort_rules rules) (existsb rule_needs_ok (sort_rules rules)) Hm) as [Hr Hc].
    split; [exact Hr|]. intros r sec Hin Hs. etransitivity; [|exact Hc].
    pose proof (widen_covers (sort_rules rules) r sec) as H. rewrite sort_rules_perm in H.
    specialize (H Hin Hs 0). unfold max_window, second. lia.
Qed.

(** A reload either fails and leaves the engine as it was, or installs
    exactly the enabled rules of the table, compiled, in ascending priority;
    success events are tracked exactly when some rule wants them, the event
    queue is untouched, and the window is cleared and covers every configured
    [window_seconds]. *)
Theorem reload_installs_enabled {St : Type} `{!RuleStore St} (e e' : RuleEngine) (s s' : St) (ok : bool) :
  Reload e s = (ok, e', s') ->
  if ok then exists rules sorted, ListEnabled s' = Some rules /\ installed rules e e' sorted
  else e' = e.
Proof.
  unfold Reload. intros H.
  destruct (ListEnabled s) as [[|r l]|] eqn:El; [| |injection H as <- <- <-; reflexivity].
  - destruct (seedRules s) as [[|] s1]; [|injection H as <- <- <-; reflexivity].
    destruct (ListEnabled s1) as [rules|] eqn:E1; injection H as <- <- <-; [|reflexivity].
    exists rules, (sort_rules rules). split; [exact E1|apply install_spec].
  - injection H as <- <- <-. exists (r :: l), (sort_rules (r :: l)). split; [exact El|apply install_spec].
Qed.

Lemma reload_installs_enabled_witness :
  exists e s, Reload (New 0) ([] : list Rule) = (true, e, s) /\ s = seeds /\
    exists rules sorted, ListEnabled s = Some rules /\ installed rules (New 0) e sorted.
Proof.
  eexists _, _. split; [reflexivity|]. split; [vm_compute; reflexivity|].
  exact (reload_installs_enabled (New 0) _ ([] : list Rule) _ true eq_refl).
Defined.

(** ** Seeding from several instances *)

Lemma seeds_clash (a b : Rule) : a ∈ seeds -> b ∈ seeds -> rule_clash a b = true <-> a = b.
Proof.
  intros Ha Hb. unfold seeds in Ha, Hb.
  repeat (apply elem_of_cons in Ha as [->|Ha]); try (apply not_elem_of_nil in Ha; contradiction);
  repeat (apply elem_of_cons in Hb as [->|Hb]); try (apply not_elem_of_nil in Hb; contradiction);
  vm_compute; split; congruence.
Qed.

Lemma clash_seen (r : Rule) (s : list Rule) : r ∈ seeds -> (forall x, x ∈ s -> x ∈ seeds) ->
  existsb (rule_clash r) s = true <-> r ∈ s.
Proof.
  intros Hr Hs. rewrite existsb_exists. split.
  - intros (x & Hin & Hc). rewrite <- list_elem_of_In in Hin.
    apply seeds_clash in Hc; [subst; exact Hin|exact Hr|apply Hs, Hin].
  - intros Hin. exists r. rewrite <- list_elem_of_In. split; [exact Hin|]. apply seeds_clash; auto.
Qed.

Lemma create_all_union (l : list Rule) : forall s, (forall r, r ∈ l -> r ∈ seeds) ->
  (forall r, r ∈ s -> r ∈ seeds) -> NoDup s ->
  let '(ok, s') := create_all l s in ok = true /\ NoDup s' /\ forall r, r ∈ s' <-> r ∈ s \/ r ∈ l.
Proof.
  induction l as [|r l IH]; intros s Hl Hs Hn; cbn [create_all].
  - split_and!; [reflexivity|exact Hn|]. set_solver.
  - cbn [CreateRule MemRules]. assert (r ∈ seeds) as Hr by (apply Hl; set_solver).
    pose proof (clash_seen r s Hr Hs) as Hc. destruct (existsb (rule_clash r) s) eqn:E.
    + assert (r ∈ s) as Hin by (apply Hc; reflexivity).
      specialize (IH s (fun x Hx => Hl x (list_elem_of_further _ _ _ Hx)) Hs Hn).
      destruct (create_all l s) as [ok s']. destruct IH as (? & ? & H). split_and!; [assumption..|].
      intros x. rewrite H, elem_of_cons. intuition (subst; auto).
    + assert (r ∉ s) as Hin by (intros Hin; apply Hc in Hin; discriminate).
      specialize (IH (s ++ [r])%list (fun x Hx => Hl x (list_elem_of_further _ _ _ Hx))).
      destruct (create_all l (s ++ [r])%list) as [ok s'].
      destruct IH as (? & ? & H).
      * intros x [Hx|Hx]%elem_of_app; [apply Hs, Hx|]. apply list_elem_of_singleton in Hx. subst. exact Hr.
      * apply NoDup_app. split_and!; [exact Hn| |apply NoDup_singleton].
        intros x Hx Hx'. apply list_elem_of_singleton in Hx'. subst. contradiction.
      * split_and!; [assumption..|]. intros x. rewrite H, elem_of_app, list_elem_of_singleton, elem_of_cons. tauto.
Qed.

Lemma seeds_NoDup : NoDup seeds.
Proof. unfold seeds. repeat constructor; rewrite ?not_elem_of_cons; repeat split; try discriminate; apply not_elem_of_nil. Qed.

(** Several instances that find the table empty and seed it at the same time
    converge: whatever the interleaving of their inserts, every conflict is
    skipped, no insert fails and the table ends with each of the six seed rules
    exactly once. *)
Theorem seed_race_converges (inserts : list Rule) : (forall r, r ∈ inserts <-> r ∈ seeds) ->
  exists s, create_all inserts ([] : list Rule) = (true, s) /\ s ≡ₚ seeds.
Proof.
  intros H. pose proof (create_all_union inserts []) as Hu.
  destruct (create_all inserts []) as [ok s]. destruct Hu as (-> & Hn & Hmem).
  - intros r. apply H.
  - intros r Hr. apply not_elem_of_nil in Hr. contradiction.
  - constructor.
  - exists s. split; [reflexivity|]. apply NoDup_Permutation; [exact Hn|apply seeds_NoDup|].
    intros x. rewrite Hmem, H. split; [intros [Hx|]; [apply not_elem_of_nil in Hx; contradiction|assumption]|auto].
Qed.

Lemma seed_race_converges_witness :
  exists s, create_all (firstn 2 seeds ++ seeds ++ skipn 2 seeds)%list ([] : list Rule) = (true, s) /\ s ≡ₚ seeds.
Proof.
  apply (seed_race_converges (firstn 2 seeds ++ seeds ++ skipn 2 seeds)%list).
  intros r. rewrite !elem_of_app. split.
  - intros [H|[H|H]]; [|exact H|]; rewrite <- (firstn_skipn 2 seeds), elem_of_app; auto.
  - auto.
Defined.

(** The policy of a freshly seeded gateway, for every event: 429s cool the
    account down for two seconds under a fixed message, a 400 and an overloaded
    503 pass through untouched, every other 5xx and every connection failure
    makes the account unhealthy and answers 502, a success restores it, and any
    other client error is rewritten to 502 without touching the account. *)
Theorem seed_policy (ev : Event) : Classify seeded ev =
  let failed cd := mkRuleThen (Some StatusUnhealthy) (Some cd) None (Some 502) (Some "Upstream request failed") in
  let rejected := mkRuleThen None None None (Some 502) (Some "upstream rejected request") in
  if ev_Kind ev =? Kind429 then (mkRuleThen (Some Status429) (Some "2s") None None (Some "rate limited"), true)
  else if ev_Kind ev =? Kind4xx then (if ptr_is (ev_HTTPStatus ev) 400 then (zero_Then, false) else (rejected, false))
  else if ev_Kind ev =? Kind5xx then
    (if ptr_is (ev_HTTPStatus ev) 503 && Contains (ev_ErrorMessage ev) "overload" then (zero_Then, false)
     else (failed "10m", true))
  else if ev_Kind ev =? KindNetwork then (failed "5s", true)
  else if ev_Kind ev =? KindOK then (mkRuleThen (Some StatusActive) None None None None, true)
  else (rejected, false).
Proof.
  unfold Classify. change (re_rules seeded) with (compileRules seeds). rewrite classify_scan_find.
  cbn [seeds List.find ru_When ru_Then seed]. unfold matchBasic. cbn [when_kind rw_Kind rw_HTTPStatus
    rw_ErrorMessageContains rw_AccountID rw_TemplateID rw_GroupID rw_Model rw_HTTPStatusIn rw_ModelIn
    rw_ErrorMessageContainsIn guard elems default any_of]. rewrite !andb_true_r.
  change (kindFromString "429") with 1. change (kindFromString "4xx") with 2. change (kindFromString "5xx") with 3.
  change (kindFromString "network") with 4. change (kindFromString "ok") with 0.
  unfold Kind429, Kind4xx, Kind5xx, KindNetwork, KindOK. rewrite !(Z.eqb_sym (ev_Kind ev)).
  destruct (Z.eqb_spec 1 (ev_Kind ev)) as [E|]; [reflexivity|].
  destruct (Z.eqb_spec 2 (ev_Kind ev)) as [E|]; [rewrite <- E; cbn; destruct (ptr_is _ 400); reflexivity|].
  destruct (Z.eqb_spec 3 (ev_Kind ev)) as [E|]; [rewrite <- ?E; cbn; destruct (ptr_is _ 503), (Contains _ _); reflexivity|].
  destruct (Z.eqb_spec 4 (ev_Kind ev)) as [E|]; [rewrite <- ?E; reflexivity|].
  destruct (Z.eqb_spec 0 (ev_Kind ev)) as [E|]; rewrite <- ?E; reflexivity.
Qed.

(** ** Where the hot path and the worker part *)

Definition windowed_rule (name : string) (priority : Z) (seconds : option Z) (failures : Z) (t : RuleThen) : Rule :=
  seed name priority (mkRuleWhen (Some "5xx") None None None None None None None None None seconds None
    (Some failures) None None None None) t.

Definition shadow_rules : list Rule :=
  [ windowed_rule "quiet-burst" 5 (Some 60) 5 zero_Then;
    seed "any" 9 (when_kind "5xx" None None) (mkRuleThen (Some StatusUnhealthy) (Some "5s") None None None) ].

(** A windowed rule without action in front of a punishing one: the worker,
    whose window is far from the threshold, would mark the account unhealthy,
    but classification stops at the windowed rule and says not to deliver. *)
Theorem classify_window_shadow :
  let e := SetApply (install shadow_rules (New 0)) in
  Classify e (demo_ev 1000) = (zero_Then, false) /\
  snd (HandleEvent 0 (demo_ev 1000) e) =
    Some (mkApplyCall 7 (Some StatusUnhealthy) (Some (1005 * second)) None "boom").
Proof. vm_compute. auto. Qed.

Definition default_rule : Rule := windowed_rule "two-failures" 9 None 2 (mkRuleThen (Some StatusDisabled) None None None None).
Definition short_rule : Rule := windowed_rule "ten-seconds" 5 (Some 10) 100 zero_Then.

(** Two failures thirty seconds apart, one rule with the default 60 second
    window: alone it fires, but next to a rule with a 10 second window, which
    never matches, the ring only covers 15 seconds and the rule stays silent. *)
Theorem default_window_truncated :
  let run rules := snd (HandleEvent 0 (demo_ev 1030) (fst (HandleEvent 0 (demo_ev 1000) (SetApply (install rules (New 0)))))) in
  run [default_rule] = Some (mkApplyCall 7 (Some StatusDisabled) None None "boom") /\
  run [short_rule; default_rule] = None /\ ruleWindowSeconds (ru_When default_rule) = 60.
Proof. vm_compute. auto. Qed.

(** ** The event queue under load *)

Fixpoint enqueue_all (evs : list Event) (e : RuleEngine) : RuleEngine * Z :=
  match evs with
  | [] => (e, 0)
  | ev :: rest =>
      let '(e1, warned) := Enqueue ev e in
      let '(e2, n) := enqueue_all rest e1 in (e2, (if warned then 1 else 0) + n)
  end.

Lemma Enqueue_account (ev : Event) (e : RuleEngine) : 0 <= re_dropped e -> re_dropped e + 1 < two64 ->
  let '(e', warned) := Enqueue ev e in
  re_cap e' = re_cap e /\
  Z.of_nat (length (re_ch e')) + re_dropped e' = Z.of_nat (length (re_ch e)) + re_dropped e + 1 /\
  re_dropped e <= re_dropped e' <= re_dropped e + 1 /\
  (length (re_ch e) <= length (re_ch e'))%nat /\
  ((length (re_ch e) <= re_cap e)%nat -> (length (re_ch e') <= re_cap e)%nat) /\
  re_warnDropped e' = re_warnDropped e || warned /\
  (warned = true -> re_warnDropped e = false /\ ruleDropWarnThreshold <= re_dropped e') /\
  (warned = false -> re_warnDropped e = false -> re_dropped e' = re_dropped e \/ re_dropped e' < ruleDropWarnThreshold).
Proof.
  intros H0 Hd. unfold Enqueue. destruct (Nat.ltb_spec (length (re_ch e)) (re_cap e)); cbn.
  - rewrite length_app, orb_false_r. cbn. split_and!; try reflexivity; try lia; try discriminate; auto.
  - unfold wrapu64. rewrite Z.mod_small by lia.
    destruct (Z.leb_spec ruleDropWarnThreshold (re_dropped e + 1)), (re_warnDropped e); cbn;
      split_and!; try reflexivity; try lia; try discriminate; auto.
Qed.

Lemma enqueue_all_account (evs : list Event) : forall e,
  (if re_warnDropped e then ruleDropWarnThreshold <= re_dropped e else 0 <= re_dropped e < ruleDropWarnThreshold) ->
  (length (re_ch e) <= re_cap e)%nat -> re_dropped e + Z.of_nat (length evs) < two64 ->
  let '(e', warnings) := enqueue_all evs e in
  Z.of_nat (length (re_ch e')) + re_dropped e' = Z.of_nat (length (re_ch e)) + re_dropped e + Z.of_nat (length evs) /\
  (length (re_ch e') <= re_cap e)%nat /\
  warnings = (if ruleDropWarnThreshold <=? re_dropped e' then 1 else 0) - (if re_warnDropped e then 1 else 0).
Proof.
  induction evs as [|ev evs IH]; intros e Hw Hc Hd; cbn [enqueue_all].
  - split_and!; [cbn; lia|exact Hc|].
    destruct (re_warnDropped e), (Z.leb_spec ruleDropWarnThreshold (re_dropped e)); lia.
  - rewrite length_cons in *. assert (0 <= re_dropped e) as H0
      by (unfold ruleDropWarnThreshold in Hw; destruct (re_warnDropped e); lia).
    pose proof (Enqueue_account ev e H0 ltac:(lia)) as H. destruct (Enqueue ev e) as [e1 warned].
    destruct H as (Ecap & Hacc & Hdr & _ & Hc1 & Ewarn & Htrue & Hfalse).
    specialize (IH e1). destruct (enqueue_all evs e1) as [e2 n]. rewrite Ewarn, Ecap in IH.
    destruct IH as (Ha & Hb & Hn); [|auto|lia|].
    + destruct (re_warnDropped e), warned; cbn in *; [lia|lia| |].
      * destruct (Htrue eq_refl); lia.
      * destruct (Hfalse eq_refl eq_refl); lia.
    + split_and!; [lia|exact Hb|]. rewrite Hn.
      destruct (re_warnDropped e), warned; cbn; lia.
Qed.

(** Under a burst that is not drained, no event disappears silently: what is
    queued and what is counted as dropped together make up everything offered,
    the queue never exceeds its capacity, and the overflow warning is logged
    once when the drop counter reaches the threshold and never again. *)
Theorem burst_accounted (evs : list Event) : forall e, re_warnDropped e = false ->
  (length (re_ch e) <= re_cap e)%nat -> 0 <= re_dropped e < ruleDropWarnThreshold ->
  re_dropped e + Z.of_nat (length evs) < two64 ->
  let '(e', warnings) := enqueue_all evs e in
  Z.of_nat (length (re_ch e')) + re_dropped e' = Z.of_nat (length (re_ch e)) + re_dropped e + Z.of_nat (length evs) /\
  (length (re_ch e') <= re_cap e)%nat /\
  warnings = (if ruleDropWarnThreshold <=? re_dropped e' then 1 else 0).
Proof.
  intros e Hw Hc Hd Hlen. pose proof (enqueue_all_account evs e) as H. rewrite Hw in H.
  destruct (enqueue_all evs e) as [e' n]. destruct (H Hd Hc Hlen) as (Ha & Hb & Hn).
  split_and!; [exact Ha|exact Hb|]. rewrite Hn. lia.
Qed.

Lemma burst_accounted_witness :
  let e := with_queue (New 2) [] 9998 false in
  let '(e', warnings) := enqueue_all [demo_ev 1; demo_ev 2; demo_ev 3; demo_ev 4; demo_ev 5] e in
  Z.of_nat (length (re_ch e')) + re_dropped e' = Z.of_nat (length (re_ch e)) + re_dropped e + 5 /\
  (length (re_ch e') <= re_cap e)%nat /\
  warnings = (if ruleDropWarnThreshold <=? re_dropped e' then 1 else 0).
Proof.
  intros e. apply (burst_accounted [demo_ev 1; demo_ev 2; demo_ev 3; demo_ev 4; demo_ev 5] e).
  - reflexivity.
  - cbn; lia.
  - cbn; unfold ruleDropWarnThreshold; lia.
  - reflexivity.
Defined.
