(* ===== verification/WeightedSeq.v ===== *)
(** * Weighted selection sequences ([internal/scheduler/state.go])

    [newWeightedSeq] turns the weights of a pool into a cyclic sequence: each
    account occurs in proportion to its weight, divided by the common divisor
    and scaled down when the sequence would grow past [maxSeqLen].  The final
    shuffle ([math/rand]) is a parameter: any function that permutes its list. *)

From Stdlib Require Import ZArith Lia List Bool.
From stdpp Require Import base option list gmap.
From S2P Require Import Prelude.
Import ListNotations.
Local Open Scope Z_scope.

(** ** [gcdInt]

    The divisor at least halves every second turn, so 127 turns are enough for
    every pair of non-negative [int]s. *)

Fixpoint gcd_loop (fuel : nat) (a b : Z) : Z :=
  match fuel with
  | O => a
  | S k => if b =? 0 then a else gcd_loop k b (a [%] b)
  end.

Definition gcdInt (a b : Z) : Z := gcd_loop 127 a b.

Lemma gcd_loop_correct (k : nat) : forall a b, 0 <= a -> 0 <= b < 2 ^ Z.of_nat k ->
  gcd_loop (S (2 * k)) a b = Z.gcd a b.
Proof.
  induction k as [|k IH]; intros a b Ha Hb.
  - assert (b = 0) as -> by (cbn in Hb; lia). cbn. rewrite Z.gcd_0_r, Z.abs_eq by lia. reflexivity.
  - replace (S (2 * S k))%nat with (S (S (S (2 * k)))) by lia. cbn [gcd_loop].
    destruct (Z.eqb_spec b 0) as [->|Hb0]; [rewrite Z.gcd_0_r, Z.abs_eq by lia; reflexivity|].
    rewrite rem64_nonneg by lia. destruct (div_mod_split a b ltac:(lia)) as [_ [Hr0 Hr1]].
    rewrite (Z.gcd_comm a b), <- (Z.gcd_mod a b) by lia. set (r := a mod b) in *.
    destruct (Z.eqb_spec r 0) as [->|Hr]; [rewrite Z.gcd_0_l, Z.abs_eq by lia; reflexivity|].
    rewrite rem64_nonneg by lia. destruct (div_mod_split b r ltac:(lia)) as [Eb [Hq0 Hq1]].
    rewrite <- (Z.gcd_mod b r), (Z.gcd_comm (b mod r) r) by lia.
    assert (1 <= b / r) by (destruct (Z.lt_ge_cases (b / r) 1); nia).
    apply IH; [lia|]. rewrite Nat2Z.inj_succ, Z.pow_succ_r in Hb by lia. nia.
Qed.

Lemma gcdInt_correct (a b : Z) : 0 <= a -> 0 <= b <= max64 -> gcdInt a b = Z.gcd a b.
Proof. intros Ha Hb. apply (gcd_loop_correct 63); [exact Ha|]. unfold_int. cbn. lia. Qed.

(** ** The sequence *)

Definition maxSeqLen : Z := 4096.
Definition maxUint64 : Z := two64 - 1.

Section Seq.
Context {A : Type} `{!EqDecision A}.

(** The weight in the account's static view; [None] is a nil view. *)
Variable weight : A -> option Z.
Variable shuffle : list A -> list A.

(** The first loop: the usable accounts with their weights, and the divisor. *)
Definition usable (pool : list (option A)) : list (A * Z) :=
  omap (fun o => match o with
                 | Some a => match weight a with
                             | Some w => if w <=? 0 then None else Some (a, w)
                             | None => None
                             end
                 | None => None
                 end) pool.

Definition fold_divisor (g : Z) (p : A * Z) : Z := gcdInt g p.2.
Definition common_divisor (items : list (A * Z)) : Z := fold_left fold_divisor items 0.

(** The saturating sum of the normalised weights. *)
Fixpoint sum_normalized (g total : Z) (items : list (A * Z)) : Z :=
  match items with
  | [] => total
  | (_, w) :: rest =>
      let normalized := w [/] g in
      if maxUint64 - total <? normalized then maxUint64 else sum_normalized g (total + normalized) rest
  end.

Definition scale_for (total : Z) : Z :=
  if maxSeqLen <? total
  then (let s := total / maxSeqLen in if negb (total mod maxSeqLen =? 0) then s + 1 else s)
  else 1.

Definition slots (g scale w : Z) : Z :=
  let n := (w [/] g) / scale in
  let n := if n <? 1 then 1 else n in
  if maxSeqLen <? n then maxSeqLen else n.

Definition expand (g scale : Z) (items : list (A * Z)) : list A :=
  List.flat_map (fun p => repeat p.1 (Z.to_nat (slots g scale p.2))) items.

Definition newWeightedSeq (pool : list (option A)) : list A :=
  let items := usable pool in
  let g := common_divisor items in
  if (g <=? 0) || (length items =? 0)%nat then []
  else shuffle (expand g (scale_for (sum_normalized g 0 items)) items).

(** ** Properties of the parts *)

Definition weights_ok (items : list (A * Z)) : Prop := Forall (fun p => 0 < p.2 <= max64) items.
Definition total_weight (g : Z) (items : list (A * Z)) : Z := fold_right (fun p t => p.2 / g + t) 0 items.

Lemma fold_gcd_agree (f : Z -> A * Z -> Z) (items : list (A * Z)) :
  (forall g p, 0 <= g -> 0 < p.2 <= max64 -> f g p = Z.gcd g p.2) -> weights_ok items -> forall g0, 0 <= g0 ->
  fold_left f items g0 = fold_left Z.gcd items.*2 g0.
Proof.
  intros Hf. induction 1 as [|p items Hw Hi IH]; intros g0 Hg; [reflexivity|]. cbn.
  rewrite Hf by assumption. apply IH, Z.gcd_nonneg.
Qed.

Lemma fold_gcd_spec (ws : list Z) : Forall (fun w => 0 < w) ws -> forall g0, 0 <= g0 ->
  0 <= fold_left Z.gcd ws g0 /\ (fold_left Z.gcd ws g0 | g0) /\
  Forall (fun w => (fold_left Z.gcd ws g0 | w)) ws /\ (ws <> [] -> 0 < fold_left Z.gcd ws g0).
Proof.
  induction 1 as [|w ws Hw Hi IH]; intros g0 Hg; cbn [fold_left].
  - split_and!; [exact Hg|reflexivity|constructor|congruence].
  - destruct (IH (Z.gcd g0 w) (Z.gcd_nonneg _ _)) as (H1 & H2 & H3 & _).
    assert (0 < Z.gcd g0 w) as Hpos.
    { pose proof (Z.gcd_nonneg g0 w). destruct (Z.eq_dec (Z.gcd g0 w) 0) as [E|]; [|lia].
      apply Z.gcd_eq_0_r in E. lia. }
    generalize dependent (fold_left Z.gcd ws (Z.gcd g0 w)). intros g H1 H2 H3. split_and!; [exact H1| | |].
    + etransitivity; [exact H2|apply Z.gcd_divide_l].
    + constructor; [|exact H3]. etransitivity; [exact H2|apply Z.gcd_divide_r].
    + intros _. destruct (Z.eq_dec g 0) as [->|]; [|lia]. apply Z.divide_0_l in H2. lia.
Qed.

Lemma common_divisor_spec (items : list (A * Z)) : weights_ok items -> items <> [] ->
  0 < common_divisor items /\ Forall (fun p => (common_divisor items | p.2)) items.
Proof.
  intros Hw Hne. unfold common_divisor.
  rewrite (fold_gcd_agree fold_divisor items) by (assumption || lia || (intros; apply gcdInt_correct; lia)).
  destruct (fold_gcd_spec items.*2) with (g0 := 0) as (_ & _ & H & Hpos).
  - apply Forall_fmap. eapply Forall_impl; [exact Hw|]. cbn. lia.
  - lia.
  - split; [apply Hpos; destruct items; [congruence|discriminate]|]. rewrite Forall_fmap in H. exact H.
Qed.

Lemma total_weight_cons (g : Z) (p : A * Z) (items : list (A * Z)) :
  total_weight g (p :: items) = p.2 / g + total_weight g items.
Proof. reflexivity. Qed.

Lemma total_weight_nonneg (g : Z) (items : list (A * Z)) : weights_ok items -> 0 < g -> 0 <= total_weight g items.
Proof.
  intros Hi Hg. induction Hi as [|p items Hv _ IH]; [cbn; lia|]. rewrite total_weight_cons.
  assert (0 <= p.2 / g) by (apply Z.div_pos; lia). lia.
Qed.

Lemma total_weight_elem (g : Z) (items : list (A * Z)) (a : A) (w : Z) : weights_ok items -> 0 < g ->
  (a, w) ∈ items -> w / g <= total_weight g items.
Proof.
  intros Hi Hg. induction Hi as [|p items Hv Hi IH]; intros Hin; [apply not_elem_of_nil in Hin; contradiction|].
  rewrite total_weight_cons. pose proof (total_weight_nonneg g items Hi Hg).
  assert (0 <= p.2 / g) by (apply Z.div_pos; lia).
  apply elem_of_cons in Hin as [<-|Hin]; [cbn; lia|]. specialize (IH Hin). lia.
Qed.

Lemma sum_normalized_spec (g : Z) (items : list (A * Z)) : weights_ok items -> 0 < g -> forall t, 0 <= t ->
  t + total_weight g items <= maxUint64 -> sum_normalized g t items = t + total_weight g items.
Proof.
  intros Hw Hg. induction Hw as [|[a w] items Hp Hi IH]; intros t Ht Hs; cbn [sum_normalized]; [cbn; lia|].
  rewrite total_weight_cons in *. cbn [snd] in *. rewrite quot64_nonneg by lia.
  assert (0 <= w / g) by (apply Z.div_pos; lia). pose proof (total_weight_nonneg g items Hi Hg).
  destruct (Z.ltb_spec (maxUint64 - t) (w / g)); [lia|]. rewrite IH by lia. lia.
Qed.

Lemma scale_for_spec (total : Z) : 0 <= total -> 1 <= scale_for total /\ total <= scale_for total * maxSeqLen /\
  (total <= maxSeqLen -> scale_for total = 1).
Proof.
  intros Ht. unfold scale_for. destruct (Z.ltb_spec maxSeqLen total); [|lia].
  destruct (div_mod_split total maxSeqLen ltac:(reflexivity)) as [E [? ?]].
  unfold maxSeqLen in *. destruct (Z.eqb_spec (total mod 4096) 0); cbn; lia.
Qed.

Lemma slots_bounds (g scale w : Z) : 0 < g -> 1 <= scale -> 0 < w <= max64 ->
  1 <= slots g scale w <= maxSeqLen /\ slots g scale w <= 1 + (w / g) / scale.
Proof.
  intros Hg Hs Hw. unfold slots. rewrite quot64_nonneg by lia.
  assert (0 <= w / g / scale) by (apply Z.div_pos; [apply Z.div_pos; lia|lia]).
  destruct (Z.ltb_spec (w / g / scale) 1); unfold maxSeqLen;
    match goal with |- context [if ?a <? ?b then _ else _] => destruct (Z.ltb_spec a b) end; lia.
Qed.

Lemma slots_exact (g w : Z) : 0 < g -> 0 < w <= max64 -> (g | w) -> w / g <= maxSeqLen -> slots g 1 w = w / g.
Proof.
  intros Hg Hw [q Hq] Hm. unfold slots. rewrite quot64_nonneg by lia. rewrite Z.div_1_r.
  assert (w / g = q) as E by (rewrite Hq; apply Z.div_mul; lia). rewrite E in *.
  assert (1 <= q) by nia. destruct (Z.ltb_spec q 1); [lia|]. destruct (Z.ltb_spec maxSeqLen q); lia.
Qed.

(** How often an account occurs. *)
Definition occurrences (a : A) (l : list A) : nat := length (filter (fun x => x = a) l).

Lemma occurrences_app (a : A) (l k : list A) : occurrences a (l ++ k) = (occurrences a l + occurrences a k)%nat.
Proof. unfold occurrences. rewrite filter_app, length_app. reflexivity. Qed.

Lemma occurrences_repeat (a b : A) (n : nat) : occurrences a (repeat b n) = if decide (b = a) then n else 0%nat.
Proof.
  unfold occurrences. induction n as [|n IH]; [cbn; destruct (decide (b = a)); reflexivity|].
  cbn [repeat]. rewrite filter_cons. destruct (decide (b = a)); [cbn [length]; rewrite IH|exact IH]; reflexivity.
Qed.

Lemma expand_cons (g scale : Z) (p : A * Z) (items : list (A * Z)) :
  expand g scale (p :: items) = repeat p.1 (Z.to_nat (slots g scale p.2)) ++ expand g scale items.
Proof. reflexivity. Qed.

Lemma occurrences_none (g scale : Z) (a : A) (items : list (A * Z)) : a ∉ items.*1 ->
  occurrences a (expand g scale items) = 0%nat.
Proof.
  induction items as [|[b w] items IH]; intros Hn; [reflexivity|]. rewrite expand_cons.
  cbn [fmap list_fmap fst] in Hn. apply not_elem_of_cons in Hn as [Hne Hn].
  rewrite occurrences_app, occurrences_repeat, IH by exact Hn. cbn [fst].
  destruct (decide (b = a)); [congruence|reflexivity].
Qed.

Lemma occurrences_expand (g scale : Z) (items : list (A * Z)) (a : A) (w : Z) : NoDup items.*1 ->
  (a, w) ∈ items -> occurrences a (expand g scale items) = Z.to_nat (slots g scale w).
Proof.
  induction items as [|[b v] items IH]; intros Hnd Hin; [apply not_elem_of_nil in Hin; contradiction|].
  cbn [fmap list_fmap fst] in Hnd. apply NoDup_cons in Hnd as [Hb Hnd].
  rewrite expand_cons, occurrences_app, occurrences_repeat. cbn [fst snd].
  apply elem_of_cons in Hin as [E|Hin].
  - injection E as -> ->. rewrite occurrences_none by exact Hb. destruct (decide (b = b)); [lia|congruence].
  - rewrite IH by assumption. destruct (decide (b = a)) as [->|]; [|reflexivity].
    exfalso. apply Hb. apply list_elem_of_fmap. exists (a, w). auto.
Qed.

Lemma expand_length (g scale : Z) (items : list (A * Z)) : 0 < g -> 1 <= scale -> weights_ok items ->
  Z.of_nat (length (expand g scale items)) <= total_weight g items / scale + Z.of_nat (length items).
Proof.
  intros Hg Hs Hw. induction Hw as [|[a w] items Hp Hi IH]; [cbn; rewrite Z.div_0_l by lia; lia|].
  rewrite total_weight_cons, expand_cons. cbn [fst snd length].
  rewrite length_app, repeat_length, Nat2Z.inj_add, Nat2Z.inj_succ.
  destruct (slots_bounds g scale w Hg Hs Hp) as [[H1 _] H2]. rewrite Z2Nat.id by lia.
  assert (w / g / scale + total_weight g items / scale <= (w / g + total_weight g items) / scale) as Hd.
  { apply Z.div_le_lower_bound; [lia|].
    destruct (div_mod_split (w / g) scale ltac:(lia)) as [? [? ?]],
      (div_mod_split (total_weight g items) scale ltac:(lia)) as [? [? ?]]. nia. }
  lia.
Qed.

Lemma usable_spec (pool : list (option A)) (a : A) (w : Z) : (a, w) ∈ usable pool ->
  weight a = Some w /\ 0 < w.
Proof.
  unfold usable. rewrite list_elem_of_omap. intros ([b|] & _ & E); [|discriminate].
  destruct (weight b) as [v|] eqn:Ew; [|discriminate]. destruct (Z.leb_spec v 0); [discriminate|].
  injection E as -> ->. split; [exact Ew|lia].
Qed.

Lemma usable_ok (pool : list (option A)) : (forall a w, weight a = Some w -> int64 w) -> weights_ok (usable pool).
Proof.
  intros H. apply Forall_forall. intros [a w] Hin. destruct (usable_spec _ _ _ Hin) as [Ew Hw].
  specialize (H a w Ew). unfold_int. cbn. lia.
Qed.

Hypothesis shuffle_perm : forall l, shuffle l ≡ₚ l.

Lemma occurrences_perm (a : A) (l k : list A) : l ≡ₚ k -> occurrences a l = occurrences a k.
Proof. intros H. unfold occurrences. rewrite H. reflexivity. Qed.

(** A selection sequence gives every usable account of the pool at least
    one and at most 4096 places, no place to anybody else, and never grows past
    4096 places plus one per account; while the normalised weights fit into 4096
    places the shares are exactly proportional: two accounts occur in the ratio
    of their weights. *)
Theorem weighted_shares (pool : list (option A)) : (forall a w, weight a = Some w -> int64 w) ->
  let items := usable pool in let g := common_divisor items in let seq := newWeightedSeq pool in
  NoDup items.*1 -> items <> [] -> total_weight g items <= maxUint64 ->
  Z.of_nat (length seq) <= maxSeqLen + Z.of_nat (length items) /\
  (forall a w, (a, w) ∈ items -> 1 <= Z.of_nat (occurrences a seq) <= maxSeqLen) /\
  (forall a, a ∉ items.*1 -> occurrences a seq = 0%nat) /\
  (total_weight g items <= maxSeqLen -> forall a w b v, (a, w) ∈ items -> (b, v) ∈ items ->
    Z.of_nat (occurrences a seq) * v = Z.of_nat (occurrences b seq) * w).
Proof.
  intros Hint items g seq Hnd Hne Htot. pose proof (usable_ok pool Hint) as Hok. fold items in Hok.
  destruct (common_divisor_spec items Hok Hne) as [Hg Hdiv]. fold g in Hg, Hdiv.
  pose proof (total_weight_nonneg g items Hok Hg) as Ht0.
  assert (seq ≡ₚ expand g (scale_for (total_weight g items)) items) as Hseq.
  { unfold seq, newWeightedSeq. fold items. fold g. rewrite sum_normalized_spec by (assumption || lia).
    destruct (Z.leb_spec g 0); [lia|]. destruct (Nat.eqb_spec (length items) 0); [destruct items; [congruence|discriminate]|].
    apply shuffle_perm. }
  destruct (scale_for_spec (total_weight g items) Ht0) as (Hs1 & Hs2 & Hs3).
  set (scale := scale_for (total_weight g items)) in *.
  assert (forall a w, (a, w) ∈ items -> Z.of_nat (occurrences a seq) = slots g scale w /\ 0 < w <= max64 /\ (g | w)) as Hocc.
  { intros a w Hin. rewrite (occurrences_perm a seq _ Hseq), (occurrences_expand g scale items a w Hnd Hin).
    pose proof (proj1 (Forall_forall _ _) Hok _ Hin) as Hw. pose proof (proj1 (Forall_forall _ _) Hdiv _ Hin) as Hd.
    cbn in Hw, Hd. destruct (slots_bounds g scale w Hg Hs1 Hw). split_and!; try assumption; lia. }
  split_and!.
  - rewrite Hseq. etransitivity; [apply expand_length; assumption|].
    assert (total_weight g items / scale <= maxSeqLen) by (apply Z.div_le_upper_bound; lia). lia.
  - intros a w Hin. destruct (Hocc a w Hin) as (-> & Hw & _). apply slots_bounds; assumption.
  - intros a Ha. rewrite (occurrences_perm a seq _ Hseq). apply occurrences_none, Ha.
  - intros Hsmall a w b v Ha Hb.
    assert (forall a w, (a, w) ∈ items -> Z.of_nat (occurrences a seq) * g = w) as Hex.
    { intros c u Hc. destruct (Hocc c u Hc) as (-> & Hu & Hd). rewrite Hs3 by exact Hsmall.
      rewrite slots_exact; [destruct Hd as [q Hq]; rewrite Hq, Z.div_mul by lia; lia|assumption..|].
      etransitivity; [|exact Hsmall]. apply (total_weight_elem g items c u); assumption. }
    rewrite <- (Hex a w Ha), <- (Hex b v Hb). lia.
Qed.

End Seq.

Lemma weighted_shares_witness :
  let weight (n : nat) := nth_error [6; 4; 0; 2] n in
  let pool := [Some 0; Some 1; None; Some 2; Some 3; Some 9]%nat in
  let seq := newWeightedSeq weight (@rev nat) pool in
  seq = [3; 1; 1; 0; 0; 0]%nat /\
  Z.of_nat (occurrences 0%nat seq) * 4 = Z.of_nat (occurrences 1%nat seq) * 6.
Proof.
  intros weight pool seq. split; [vm_compute; reflexivity|].
  destruct (weighted_shares weight (@rev nat) (fun l => Permutation_sym (Permutation_rev l)) pool) as (_ & _ & _ & H).
  - intros a w Hw. unfold weight in Hw. apply nth_error_In in Hw. cbn in Hw. unfold_int. lia.
  - vm_compute. repeat constructor; rewrite ?not_elem_of_cons; repeat split; try discriminate; apply not_elem_of_nil.
  - vm_compute. discriminate.
  - vm_compute. discriminate.
  - apply H.
    + vm_compute. discriminate.
    + vm_compute. left.
    + vm_compute. right. left.
Defined.
