(* ===== verification/SchedTypes.v ===== *)
(** * Scheduler data ([internal/scheduler], [internal/domain])

    Templates, accounts and the in-memory snapshots the scheduler keeps of
    them.  Snapshots are shared by pointer between the groups' routes and the
    by-ID index; a pointer is a location [Loc] of a heap.  A snapshot's atomic
    fields (slot counter, error rate, 429 streak, state pointer) are the fields
    of the record at its location. *)

From Stdlib Require Import ZArith Lia List Bool String.
From stdpp Require Import base option list gmap strings.
From S2P Require Import Prelude GoString Domain.
Import ListNotations.
Local Open Scope string_scope.
Local Open Scope Z_scope.

Definition ErrMsgMaxLen : nat := 500.

(** [TruncateErrMsg] cuts by characters, never inside one. *)
Definition TruncateErrMsg (s : string) : string :=
  if (String.length s <=? ErrMsgMaxLen)%nat then s
  else
    let r := runes s in
    if (length r <=? ErrMsgMaxLen)%nat then s else of_runes (firstn ErrMsgMaxLen r).

Record Template := mkTemplate {
  tp_ID : Z;
  tp_BaseURL : string;
  tp_CredentialType : string;
  tp_SupportedFormats : list RequestFormat;
  tp_Models : list string;
  tp_FormatModels : gmap string (list string);
  tp_ModelMapping : gmap string string;
  tp_StripImageTools : bool;
  tp_DeletedAt : option Time
}.

(** [slices.Contains]. *)
Definition mem (x : string) (l : list string) : bool := existsb (fun y => y ==s x) l.

Definition FormatSupports (t : Template) (f : RequestFormat) (m : string) : bool :=
  if negb (mem f (tp_SupportedFormats t)) then false
  else match tp_FormatModels t !! f with Some l => mem m l | None => true end.

Definition Serves (t : Template) (m : string) : bool :=
  mem m (tp_Models t)
  || existsb (fun p => mem m p.2) (map_to_list (tp_FormatModels t))
  || isSome (tp_ModelMapping t !! m).

Definition HasModelSpace (t : Template) : bool :=
  (0 <? length (tp_Models t))%nat || (0 <? size (tp_FormatModels t))%nat || (0 <? size (tp_ModelMapping t))%nat.

Record Upstream := mkUpstream {
  us_ID : Z;
  us_Name : string;
  us_BaseURL : string;
  us_Key : option string;
  us_Enabled : bool;
  us_MultiplierBP : Z;
  us_Models : list string;
  us_ModelFormats : gmap string (list RequestFormat);
  us_ModelsCheckedAt : option Time;
  us_DeletedAt : option Time
}.

Record Account := mkAccount {
  acc_ID : Z;
  acc_TemplateID : Z;
  acc_Template : option Template;
  acc_BaseURL : option string;
  acc_UpstreamID : option Z;
  acc_Upstream : option Upstream;
  acc_UpstreamKey : string;
  acc_Status : AccountStatus;
  acc_CooldownUntil : option Time;
  acc_Weight : Z;
  acc_MaxConcurrency : Z
}.

(** ** Snapshots ([state.go]) *)

Record accState := mkAccState {
  st_status : AccountStatus;
  st_cooldownUntil : option Time;
  st_errCount : Z;
  st_lastError : option string;
  st_lastUsedAt : option Time
}.

Record snapshotStatic := mkStatic {
  ss_acc : Account;
  ss_tpl : Template;
  ss_gid : Z;
  ss_groupIDs : list Z;
  ss_upstreamEnabled : bool;
  ss_upstreamID : Z;
  ss_upstreamName : string;
  ss_upstreamHost : string;
  ss_upstreamMultiplierBP : Z
}.

Record accountSnapshot := mkSnapshot {
  as_static : snapshotStatic;
  as_concurrency : Z;
  as_errRate : Z;
  as_streak : Z;
  as_state : accState
}.

Definition Loc : Type := nat.

(** ** Upstream pool members ([upstream_pool.go])

    An upstream snapshot is immutable once published, apart from the two
    atomics it points to: the slot counter and the breaker state, which a later
    snapshot of the same member may share. *)

Record GroupUpstream := mkGroupUpstream {
  gu_ID : Z;
  gu_GroupID : Z;
  gu_UpstreamID : Z;
  gu_Upstream : option Upstream;
  gu_Weight : Z;
  gu_Priority : Z;
  gu_MaxConcurrency : Z;
  gu_Enabled : bool;
  gu_CooldownUntil : option Time;
  gu_FailureStreak : Z;
  gu_LastError : option string
}.

Record upstreamState := mkUpState {
  ust_cooldownUntil : option Time;
  ust_failureStreak : Z;
  ust_lastError : string
}.

Definition modelFormatKey : Type := string * RequestFormat.

Record upstreamSnapshot := mkUpSnap {
  up_member : GroupUpstream;
  up_upstream : option Upstream;
  up_endpoint : string;
  up_host : string;
  up_key : string;
  up_modelIDs : gmap string string;
  up_formatModelIDs : gmap modelFormatKey string;
  up_concurrency : Loc;
  up_state : Loc
}.

Definition GroupRoutingMode : Type := string.
Definition GroupRoutingModeAccounts : GroupRoutingMode := "accounts".
Definition GroupRoutingModeUpstreams : GroupRoutingMode := "upstreams".

(** The fields of [domain.Group] that upstream routing reads. *)
Record GroupConfig := mkGroupConfig {
  gc_RoutingMode : GroupRoutingMode;
  gc_AllowedModels : list string;
  gc_UpstreamMembers : list (option GroupUpstream)
}.

Definition EffectiveRoutingMode (g : GroupConfig) : GroupRoutingMode :=
  if gc_RoutingMode g ==s "" then GroupRoutingModeAccounts else gc_RoutingMode g.

Inductive TargetKind := TargetKindAccount | TargetKindUpstreamMember.

(** ** Field updates *)

Definition set_concurrency (a : accountSnapshot) (n : Z) : accountSnapshot :=
  mkSnapshot (as_static a) n (as_errRate a) (as_streak a) (as_state a).
Definition set_state (a : accountSnapshot) (st : accState) : accountSnapshot :=
  mkSnapshot (as_static a) (as_concurrency a) (as_errRate a) (as_streak a) st.
Definition set_errRate (a : accountSnapshot) (r : Z) : accountSnapshot :=
  mkSnapshot (as_static a) (as_concurrency a) r (as_streak a) (as_state a).
Definition set_streak (a : accountSnapshot) (n : Z) : accountSnapshot :=
  mkSnapshot (as_static a) (as_concurrency a) (as_errRate a) n (as_state a).
Definition set_static (a : accountSnapshot) (s : snapshotStatic) : accountSnapshot :=
  mkSnapshot s (as_concurrency a) (as_errRate a) (as_streak a) (as_state a).

Definition set_weight (s : snapshotStatic) (w : Z) : snapshotStatic :=
  let c := ss_acc s in
  mkStatic (mkAccount (acc_ID c) (acc_TemplateID c) (acc_Template c) (acc_BaseURL c) (acc_UpstreamID c)
      (acc_Upstream c) (acc_UpstreamKey c) (acc_Status c) (acc_CooldownUntil c) w (acc_MaxConcurrency c))
    (ss_tpl s) (ss_gid s) (ss_groupIDs s) (ss_upstreamEnabled s) (ss_upstreamID s) (ss_upstreamName s)
    (ss_upstreamHost s) (ss_upstreamMultiplierBP s).

(** ** Lemmas *)

Lemma TruncateErrMsg_short (s : string) : (String.length s <= 500)%nat -> TruncateErrMsg s = s.
Proof. intros H. unfold TruncateErrMsg, ErrMsgMaxLen. rewrite (proj2 (Nat.leb_le _ _)) by exact H. reflexivity. Qed.

Lemma mem_In (x : string) (l : list string) : mem x l = true <-> x ∈ l.
Proof.
  unfold mem. rewrite existsb_exists, list_elem_of_In. split.
  - intros (y & Hy & E%String.eqb_eq). subst. exact Hy.
  - intros H. exists x. split; [exact H|apply String.eqb_refl].
Qed.
