(* ===== verification/AccountState.v ===== *)
(** * Account state machine ([internal/scheduler/scheduler.go])

    What happens to an account's state between two reloads: the rule engine's
    action callback ([apply]), the permanent failure report ([FailAccount]),
    the selection stamp ([markLastUsed]) and the result feedback
    ([markResult], [retry429Deadline]); the write-back queue and its merging
    ([processWrite]).

    Each of the three state writers is a compare-and-swap loop around a pure
    transition of the state record.  The first part gives the transitions, the
    second their interleaving on one shared cell, the third the sequential
    operations on a snapshot. *)

From Stdlib Require Import ZArith Lia List Bool String.
From Stdlib Require Import Floats.SpecFloat.
From stdpp Require Import base option list gmap strings relations.
From S2P Require Import Prelude GoString Domain GoTime RuleTypes SchedTypes.
Import ListNotations.
Local Open Scope string_scope.
Local Open Scope Z_scope.

(** ** Transitions *)

Definition errMsgOr (def errMsg : string) : string :=
  let t := TruncateErrMsg errMsg in if negb (t ==s "") then t else def.

(** The cooldown has not passed. *)
Definition cooling (st : accState) (now : Time) : bool :=
  match st_cooldownUntil st with Some c => negb (Before c now) | None => false end.

(** The [switch *st] of [apply]: [None] is the early return of a recovery
    during a cooldown. *)
Definition apply_status (s : AccountStatus) (errMsg : string) (now : Time) (cur : accState) : option accState :=
  if s ==s Status429 then
    Some (mkAccState s (st_cooldownUntil cur) (st_errCount cur [+] 1)
            (Some (errMsgOr "upstream 429 rate limited" errMsg)) (st_lastUsedAt cur))
  else if s ==s StatusUnhealthy then
    Some (mkAccState s (st_cooldownUntil cur) (st_errCount cur [+] 1)
            (Some (errMsgOr "upstream error" errMsg)) (st_lastUsedAt cur))
  else if s ==s StatusActive then
    if cooling cur now then None
    else Some (mkAccState s (st_cooldownUntil cur) 0 None (st_lastUsedAt cur))
  else Some (mkAccState s (st_cooldownUntil cur) (st_errCount cur) (st_lastError cur) (st_lastUsedAt cur)).

Definition with_cooldown (st : accState) (cd : option Time) : accState :=
  match cd with
  | Some c => mkAccState (st_status st) (Some c) (st_errCount st) (st_lastError st) (st_lastUsedAt st)
  | None => st
  end.

Definition with_lastUsed (st : accState) (t : Time) : accState :=
  mkAccState (st_status st) (st_cooldownUntil st) (st_errCount st) (st_lastError st) (Some t).

(** One turn of [apply]'s loop; [None] returns without effect. *)
Definition apply_next (st : option AccountStatus) (cd : option Time) (errMsg : string) (now : Time)
    (cur : accState) : option accState :=
  if st_status cur ==s StatusDisabled then None
  else
    match (match st with Some s => apply_status s errMsg now cur | None => Some cur end) with
    | None => None
    | Some next => Some (with_lastUsed (with_cooldown next cd) now)
    end.

(** One turn of [FailAccount]'s loop. *)
Definition fail_next (reason : string) (now : Time) (cur : accState) : option accState :=
  if st_status cur ==s StatusDisabled then None
  else
    let t := TruncateErrMsg reason in
    Some (mkAccState StatusDisabled (st_cooldownUntil cur) (st_errCount cur)
            (if negb (t ==s "") then Some t else st_lastError cur) (Some now)).

(** One turn of [markLastUsed]'s loop. *)
Definition used_next (used : Time) (cur : accState) : option accState := Some (with_lastUsed cur used).

Inductive Transition :=
  | TApply (st : option AccountStatus) (cd : option Time) (errMsg : string) (now : Time)
  | TFail (reason : string) (now : Time)
  | TUsed (used : Time).

Definition next (t : Transition) (cur : accState) : option accState :=
  match t with
  | TApply st cd msg now => apply_next st cd msg now cur
  | TFail reason now => fail_next reason now cur
  | TUsed used => used_next used cur
  end.

(** ** The error-rate average

    [rate := 0.2*rateDelta + 0.8*old] in binary64, stored in millionths. *)

Definition errRateScale : Z := 1000000.
Definition f64_02 : float64 := f64_div (f64_of_int 1) (f64_of_int 5).
Definition f64_08 : float64 := f64_div (f64_of_int 4) (f64_of_int 5).

Definition ewma (s : AccountStatus) (errRate : Z) : Z :=
  let rateDelta := if (s ==s Status429) || (s ==s StatusUnhealthy) then f64_of_int 1 else f64_of_int 0 in
  let old := f64_div (f64_of_int errRate) (f64_of_int errRateScale) in
  let rate := f64_add (f64_mul f64_02 rateDelta) (f64_mul f64_08 old) in
  f64_trunc (f64_mul rate (f64_of_int errRateScale)).

(** ** Interleaved compare-and-swap loops

    The state pointer is a version number with the record it points to: every
    successful swap installs a fresh pointer.  A thread reads the pointer,
    computes the next record and swaps it in only if the pointer is unchanged.
    [apply] updates the error rate on every turn, before the swap. *)

Record Cell := mkCell { c_ver : nat; c_st : accState; c_rate : Z }.

Inductive Thread :=
  | TRead (t : Transition)
  | TSwap (t : Transition) (ver : nat) (nxt : accState)
  | TDone (t : Transition) (took_effect : bool).

Definition rate_effect (t : Transition) (r : Z) : Z :=
  match t with TApply (Some s) _ _ _ => ewma s r | _ => r end.

Inductive tstep : Cell -> Thread -> Cell -> Thread -> Prop :=
| ts_return c t : next t (c_st c) = None -> tstep c (TRead t) c (TDone t false)
| ts_read c t n : next t (c_st c) = Some n ->
    tstep c (TRead t) (mkCell (c_ver c) (c_st c) (rate_effect t (c_rate c))) (TSwap t (c_ver c) n)
| ts_swap c t n : tstep c (TSwap t (c_ver c) n) (mkCell (S (c_ver c)) n (c_rate c)) (TDone t true)
| ts_retry c t v n : v <> c_ver c -> tstep c (TSwap t v n) c (TRead t).

Definition Config : Type := Cell * list Thread.

Inductive step : Config -> Config -> Prop :=
| s_spawn c ps t : step (c, ps) (c, TRead t :: ps)
| s_run c c' ps1 p p' ps2 : tstep c p c' p' -> step (c, ps1 ++ p :: ps2)%list (c', ps1 ++ p' :: ps2)%list.

(** Running transitions one after the other; each one takes effect. *)
Fixpoint run_all (ts : list Transition) (st : accState) : option accState :=
  match ts with
  | [] => Some st
  | t :: rest => match next t st with Some n => run_all rest n | None => None end
  end.

Lemma run_all_app (ts us : list Transition) : forall st,
  run_all (ts ++ us) st = match run_all ts st with Some n => run_all us n | None => None end.
Proof. induction ts as [|t ts IH]; intros st; cbn; [reflexivity|]. destruct (next t st); [apply IH|reflexivity]. Qed.

(** Completed transitions that took effect. *)
Definition effective (p : Thread) : list Transition := match p with TDone t true => [t] | _ => [] end.

(** The history of the pointer: [hist] lists the transitions swapped in, in
    order; its length is the version; a pending swap was computed from the state
    the history had produced at the version the thread read. *)
Record traced (st0 : accState) (cfg : Config) (hist : list Transition) : Prop := mkTraced {
  tr_len : length hist = c_ver cfg.1;
  tr_run : run_all hist st0 = Some (c_st cfg.1);
  tr_perm : concat (map effective cfg.2) ≡ₚ hist;
  tr_swap : forall t v n, TSwap t v n ∈ cfg.2 -> (v <= c_ver cfg.1)%nat /\
    exists s, run_all (firstn v hist) st0 = Some s /\ next t s = Some n
}.

Lemma traced_swap_keep (st0 : accState) (c : Cell) (hist : list Transition) (t : Transition) (v : nat) (n : accState) :
  length hist = c_ver c -> (v <= c_ver c)%nat ->
  (exists s, run_all (firstn v hist) st0 = Some s /\ next t s = Some n) -> forall u,
  exists s, run_all (firstn v (hist ++ [u])) st0 = Some s /\ next t s = Some n.
Proof. intros Hl Hv H u. rewrite firstn_app, (proj2 (Nat.sub_0_le v (length hist))), app_nil_r by lia. exact H. Qed.

Lemma concat_effective_mid (ps1 ps2 : list Thread) (p : Thread) :
  concat (map effective (ps1 ++ p :: ps2)) ≡ₚ effective p ++ concat (map effective (ps1 ++ ps2)).
Proof.
  rewrite !map_app, !concat_app. cbn. rewrite !(Permutation_app_comm (concat (map effective ps1))), <- !app_assoc.
  reflexivity.
Qed.

Lemma elem_of_mid {A} (x p p' : A) (ps1 ps2 : list A) : x ∈ (ps1 ++ p' :: ps2)%list -> x = p' \/ x ∈ (ps1 ++ p :: ps2)%list.
Proof. rewrite !elem_of_app, !elem_of_cons. tauto. Qed.

Lemma step_traced (st0 : accState) (cfg cfg' : Config) (hist : list Transition) :
  traced st0 cfg hist -> step cfg cfg' ->
  exists hist', traced st0 cfg' hist' /\ (hist' = hist \/ exists t, hist' = (hist ++ [t])%list).
Proof.
  intros [Hl Hr Hp Hs] St. destruct St as [c ps t|c c' ps1 p p' ps2 St]; cbn in *.
  - exists hist. split; [|auto]. constructor; cbn; auto.
    intros t' v n [E|Hin]%elem_of_cons; [discriminate|auto].
  - rewrite concat_effective_mid in Hp.
    destruct St as [c t Hn|c t n Hn|c t n|c t v n Hv]; cbn in *.
    + exists hist. split; [|auto]. constructor; cbn; auto; [rewrite concat_effective_mid; exact Hp|].
      intros t' v n' [E|Hin]%(elem_of_mid _ (TRead t)); [discriminate|auto].
    + exists hist. split; [|auto]. constructor; cbn; auto; [rewrite concat_effective_mid; exact Hp|].
      intros t' v n' [E|Hin]%(elem_of_mid _ (TRead t)); [|auto]. injection E as -> -> ->.
      split; [lia|]. exists (c_st c). rewrite <- Hl, firstn_all. auto.
    + exists (hist ++ [t])%list. split; [|eauto].
      destruct (Hs t (c_ver c) n) as (_ & s & Hrun & Hnext); [apply elem_of_app; right; apply elem_of_cons; auto|].
      rewrite <- Hl, firstn_all, Hr in Hrun. injection Hrun as <-.
      constructor; cbn.
      * rewrite length_app. cbn. lia.
      * rewrite run_all_app, Hr. cbn. rewrite Hnext. reflexivity.
      * rewrite concat_effective_mid. cbn. rewrite Hp. apply Permutation_cons_append.
      * intros t' v n' [E|Hin]%(elem_of_mid _ (TSwap t (c_ver c) n)); [discriminate|].
        destruct (Hs t' v n' Hin) as [Hle Hex]. split; [lia|]. eapply (traced_swap_keep st0 c); eassumption.
    + exists hist. split; [|auto]. constructor; cbn; auto; [rewrite concat_effective_mid; exact Hp|].
      intros t' v' n' [E|Hin]%(elem_of_mid _ (TSwap t v n)); [discriminate|auto].
Qed.

Definition initial (st0 : accState) (rate : Z) : Config := (mkCell 0 st0 rate, []).

Lemma initial_traced (st0 : accState) (rate : Z) : traced st0 (initial st0 rate) [].
Proof. constructor; cbn; try reflexivity. intros t v n H. apply not_elem_of_nil in H. contradiction. Qed.

Lemma reachable_traced (st0 : accState) (rate : Z) (cfg : Config) : rtc step (initial st0 rate) cfg ->
  exists hist, traced st0 cfg hist.
Proof.
  revert cfg. apply (rtc_ind_r (R := step) (fun cfg => exists hist, traced st0 cfg hist)).
  - exists []. apply initial_traced.
  - intros y z _ St [hist Ht]. destruct (step_traced st0 y z hist Ht St) as (h' & Ht' & _). eauto.
Qed.

(** The lock-free writers of an account's state are atomic: in every
    interleaving of action callbacks, failure reports and selection stamps the
    state is what some sequential order of exactly the completed transitions
    that took effect produces from the initial state; none is lost, duplicated
    or computed from a stale state. *)
Theorem writers_serialize (st0 : accState) (rate : Z) (c : Cell) (ps : list Thread) :
  rtc step (initial st0 rate) (c, ps) ->
  exists order, order ≡ₚ concat (map effective ps) /\ run_all order st0 = Some (c_st c) /\
    length order = c_ver c.
Proof.
  intros [hist [Hl Hr Hp _]]%reachable_traced. exists hist. cbn in *.
  split_and!; [symmetry; exact Hp|exact Hr|exact Hl].
Qed.

(** ** Disabled is final *)

Lemma next_disabled (t : Transition) (s n : accState) : st_status s = StatusDisabled -> next t s = Some n ->
  st_status n = StatusDisabled.
Proof.
  intros Hd. destruct t as [st cd msg now|reason now|used]; cbn; unfold apply_next, fail_next, used_next;
    rewrite ?Hd, ?String.eqb_refl; try discriminate. intros [= <-]. exact Hd.
Qed.

Definition failure_reported (ps : list Thread) : Prop :=
  exists reason now b, TDone (TFail reason now) b ∈ ps.

Lemma fail_result (reason : string) (now : Time) (s : accState) :
  match next (TFail reason now) s with
  | Some n => st_status n = StatusDisabled
  | None => st_status s = StatusDisabled
  end.
Proof.
  cbn. unfold fail_next. destruct (String.eqb_spec (st_status s) StatusDisabled); cbn; auto.
Qed.

Lemma step_disabled (st0 : accState) (cfg cfg' : Config) (hist : list Transition) : traced st0 cfg hist ->
  step cfg cfg' ->
  (st_status (c_st cfg.1) = StatusDisabled -> st_status (c_st cfg'.1) = StatusDisabled) /\
  ((failure_reported cfg.2 -> st_status (c_st cfg.1) = StatusDisabled) ->
   failure_reported cfg'.2 -> st_status (c_st cfg'.1) = StatusDisabled).
Proof.
  intros [Hl Hr Hp Hs] St. destruct St as [c ps t|c c' ps1 p p' ps2 St]; cbn in *.
  - split; [auto|]. intros H (r & w & b & [E|Hin]%elem_of_cons); [discriminate|]. apply H. do 3 eexists; eauto.
  - assert (forall b', (st_status (c_st c) = StatusDisabled -> st_status (c_st c') = StatusDisabled) ->
      (forall r w, p' = TDone (TFail r w) b' -> st_status (c_st c') = StatusDisabled) ->
      (failure_reported (ps1 ++ p :: ps2) -> st_status (c_st c) = StatusDisabled) ->
      (forall r w b, p' = TDone (TFail r w) b -> b = b') ->
      failure_reported (ps1 ++ p' :: ps2) -> st_status (c_st c') = StatusDisabled) as Hgen.
    { intros b' Hk Hnew H Hb (r & w & b & [E|Hin]%(elem_of_mid _ p)).
      - symmetry in E. rewrite (Hb _ _ _ E) in E. eapply Hnew, E.
      - apply Hk, H. do 3 eexists; eauto. }
    destruct St as [c t Hn|c t n Hn|c t n|c t v n Hv]; cbn in *.
    + split; [auto|]. intros H. apply (Hgen false); auto; [|intros; congruence].
      intros r w E. injection E as ->. pose proof (fail_result r w (c_st c)) as Hf. rewrite Hn in Hf. exact Hf.
    + split; [auto|]. intros H. apply (Hgen false); auto; intros; discriminate.
    + destruct (Hs t (c_ver c) n) as (_ & s & Hrun & Hnext); [apply elem_of_app; right; apply elem_of_cons; auto|].
      rewrite <- Hl, firstn_all, Hr in Hrun. injection Hrun as <-.
      assert (st_status (c_st c) = StatusDisabled -> st_status n = StatusDisabled) as Hk
        by (intros Hd; eapply next_disabled; eassumption).
      split; [exact Hk|]. intros H. apply (Hgen true); auto; [|intros; congruence].
      intros r w E. injection E as ->. pose proof (fail_result r w (c_st c)) as Hf. rewrite Hnext in Hf. exact Hf.
    + split; [auto|]. intros H. apply (Hgen false); auto; intros; discriminate.
Qed.

(** A permanent failure is final: once a failure report has returned, the
    account is disabled, and it stays disabled however many rule actions, late
    recoveries and selections run concurrently with the report or after it. *)
Theorem failure_is_final (st0 : accState) (rate : Z) (cfg cfg' : Config) :
  rtc step (initial st0 rate) cfg -> rtc step cfg cfg' ->
  failure_reported cfg.2 \/ st_status (c_st cfg.1) = StatusDisabled ->
  st_status (c_st cfg.1) = StatusDisabled /\ st_status (c_st cfg'.1) = StatusDisabled.
Proof.
  intros H1 H2 Hrep.
  assert (forall c, rtc step (initial st0 rate) c -> failure_reported c.2 -> st_status (c_st c.1) = StatusDisabled) as Hinv.
  { apply (rtc_ind_r (R := step) (fun c => failure_reported c.2 -> st_status (c_st c.1) = StatusDisabled)).
    - intros (r & w & b & H). apply not_elem_of_nil in H. contradiction.
    - intros y z Hy St IH. destruct (reachable_traced _ _ _ Hy) as [hist Ht]. exact (proj2 (step_disabled st0 y z hist Ht St) IH). }
  assert (st_status (c_st cfg.1) = StatusDisabled) as Hd by (destruct Hrep; auto). split; [exact Hd|].
  clear Hrep. induction H2 as [|x y z St _ IH]; [exact Hd|].
  apply IH; [exact (rtc_r _ _ _ H1 St)|].
  destruct (reachable_traced _ _ _ H1) as [hist Ht]. exact (proj1 (step_disabled st0 x y hist Ht St) Hd).
Qed.

Definition demo_state : accState := mkAccState StatusActive None 0 None None.
Definition demo_recover : Transition := TApply (Some StatusActive) None "" 5.
Definition demo_fail : Transition := TFail "revoked" 7.

(** A recovery reads the state, the failure report runs to its end, the
    recovery's swap fails, it retries and returns. *)
Lemma demo_race : exists c rate,
  rtc step (initial demo_state 0) (c, [TDone demo_fail true; TRead demo_recover]) /\
  rtc step (c, [TDone demo_fail true; TRead demo_recover])
    (mkCell 1 (c_st c) rate, [TDone demo_fail true; TDone demo_recover false]).
Proof.
  eexists _, _. split.
  - eapply rtc_l; [apply (s_spawn _ [] demo_recover)|].
    eapply rtc_l; [eapply (s_run _ _ [] _ _ []), ts_read; reflexivity|].
    eapply rtc_l; [apply (s_spawn _ _ demo_fail)|].
    eapply rtc_l; [eapply (s_run _ _ [] _ _ [_]), ts_read; reflexivity|].
    eapply rtc_l; [eapply (s_run _ _ [] _ _ [_]), ts_swap|].
    eapply rtc_l; [eapply (s_run _ _ [_] _ _ []), ts_retry; discriminate|]. apply rtc_refl.
  - eapply rtc_l; [eapply (s_run _ _ [_] _ _ []), ts_return; reflexivity|]. apply rtc_refl.
Defined.

Lemma writers_serialize_witness : exists c ps,
  rtc step (initial demo_state 0) (c, ps) /\
  exists order, order ≡ₚ concat (map effective ps) /\ run_all order demo_state = Some (c_st c) /\
    length order = c_ver c.
Proof.
  destruct demo_race as (c & rate & H & _). exists c, [TDone demo_fail true; TRead demo_recover].
  split; [exact H|]. exact (writers_serialize demo_state 0 c _ H).
Defined.

Lemma failure_is_final_witness : exists c rate,
  st_status (c_st c) = StatusDisabled /\
  rtc step (initial demo_state 0) (mkCell 1 (c_st c) rate, [TDone demo_fail true; TDone demo_recover false]).
Proof.
  destruct demo_race as (c & rate & H1 & H2). exists c, rate. split; [|etransitivity; eassumption].
  apply (failure_is_final demo_state 0 _ _ H1 H2). left. exists "revoked", 7, true. apply elem_of_cons. auto.
Defined.

(** ** 429 back-off *)

Definition retry429Base : Duration := 2 * second.
Definition retry429Max : Duration := 10 * minute.

(** The local fallback delay: base shifted by the streak, capped. *)
Definition backoff (streak : Z) : Duration :=
  let streak := if streak =? 0 then 1 else streak in
  let shift := streak - 1 in
  let shift := if 18 <? shift then 18 else shift in
  let d := Z.shiftl retry429Base shift in
  if retry429Max <? d then retry429Max else d.

Definition retry429Deadline (now : Time) (streak : Z) (provider : option Time) : Time :=
  let max := now + retry429Max in
  match provider with
  | Some p => if After p now then (if After p max then max else p) else now + backoff streak
  | None => now + backoff streak
  end.

Lemma backoff_spec (streak : Z) : 1 <= streak ->
  backoff streak = Z.min (retry429Base * 2 ^ (streak - 1)) retry429Max /\ 0 < backoff streak <= retry429Max.
Proof.
  intros Hs. unfold backoff, retry429Base, retry429Max, minute, second.
  pose proof (Z.pow_pos_nonneg 2 (streak - 1) ltac:(lia) ltac:(lia)) as Hp.
  destruct (Z.eqb_spec streak 0); [lia|]. cbn zeta. destruct (Z.ltb_spec 18 (streak - 1)).
  - pose proof (Z.pow_le_mono_r 2 18 (streak - 1) ltac:(lia) ltac:(lia)) as Hm.
    change (2 ^ 18) with 262144 in Hm. rewrite Z.shiftl_mul_pow2 by lia. change (2 ^ 18) with 262144.
    destruct (Z.ltb_spec (10 * (60 * 1000000000)) (2 * 1000000000 * 262144)); lia.
  - rewrite Z.shiftl_mul_pow2 by lia. set (k := 2 ^ (streak - 1)) in *.
    destruct (Z.ltb_spec (10 * (60 * 1000000000)) (2 * 1000000000 * k)); lia.
Qed.

Lemma retry_deadline_range (now : Time) (streak : Z) (provider : option Time) : 1 <= streak ->
  now < retry429Deadline now streak provider <= now + retry429Max.
Proof.
  intros Hs. destruct (backoff_spec streak Hs) as [_ Hb]. unfold retry429Deadline, After.
  assert (0 < retry429Max) by reflexivity. destruct provider as [p|]; [|lia].
  destruct (Z.ltb_spec now p); [|lia]. destruct (Z.ltb_spec (now + retry429Max) p); lia.
Qed.

(** The effective deadline of a 429 always lies in the future and at most
    ten minutes ahead: the provider's instant when it names a future one, cut at
    ten minutes; otherwise two seconds doubled for every consecutive 429 up to
    the same cap, whatever the length of the streak. *)
Theorem retry_deadline_bounds (now streak : Z) (provider : option Time) : 1 <= streak ->
  now < retry429Deadline now streak provider <= now + retry429Max /\
  retry429Deadline now streak provider =
    match provider with
    | Some p => if now <? p then Z.min p (now + retry429Max)
                else now + Z.min (retry429Base * 2 ^ (streak - 1)) retry429Max
    | None => now + Z.min (retry429Base * 2 ^ (streak - 1)) retry429Max
    end.
Proof.
  intros Hs. destruct (backoff_spec streak Hs) as [E Hb]. unfold retry429Deadline, After. rewrite <- E.
  assert (0 < retry429Max) by reflexivity. destruct provider as [p|]; [|split; [lia|reflexivity]].
  destruct (Z.ltb_spec now p); [|split; [lia|reflexivity]].
  destruct (Z.ltb_spec (now + retry429Max) p); split; lia.
Qed.

Lemma retry_deadline_bounds_witness :
  1 <= 5 /\ 100 < retry429Deadline 100 5 None <= 100 + retry429Max /\ retry429Deadline 100 5 None = 100 + 32 * second.
Proof.
  split; [lia|]. destruct (retry_deadline_bounds 100 5 None ltac:(lia)) as [H E].
  split; [exact H|]. rewrite E. vm_compute. reflexivity.
Defined.

(** ** Result feedback *)

Definition groupIDPtr (gid : Z) : option Z := if gid <=? 0 then None else Some gid.

Definition two32 : Z := 4294967296.

(** [markResult] on the account's snapshot: the updated snapshot and the event
    handed to the rule engine, if any. *)
Definition markResult (needsOK : bool) (now : Time) (a : accountSnapshot) (requestGroupID : Z) (kind : Kind)
    (resetAt : option Time) (httpStatus : Z) (errMsg model : string) : accountSnapshot * option Event :=
  if st_status (as_state a) ==s StatusDisabled then (a, None)
  else
    let '(a, resetAt) :=
      if kind =? Kind429 then
        let streak := (as_streak a + 1) mod two32 in
        (set_streak a streak, Some (retry429Deadline now streak resetAt))
      else (set_streak a 0, resetAt) in
    if (kind =? KindOK) && negb needsOK then (a, None)
    else
      let groupID := if 0 <? requestGroupID then requestGroupID else ss_gid (as_static a) in
      (a, Some (mkEvent (acc_ID (ss_acc (as_static a))) (acc_TemplateID (ss_acc (as_static a)))
                  (groupIDPtr groupID) model kind (if 0 <? httpStatus then Some httpStatus else None)
                  errMsg resetAt now)).

(** ** Write-back *)

Record statusWrite := mkWrite {
  sw_id : Z;
  sw_status : AccountStatus;
  sw_cooldown : option Time;
  sw_lastErr : option string;
  sw_weight : option Z
}.

Definition write_of (id : Z) (st : accState) (weight : option Z) : statusWrite :=
  mkWrite id (st_status st) (st_cooldownUntil st) (st_lastError st) weight.

(** [apply] run alone: the new snapshot, the groups whose routes must be
    rebuilt and the write-back. *)
Definition apply (now : Time) (a : accountSnapshot) (st : option AccountStatus) (cd : option Time)
    (weight : option Z) (errMsg : string) : accountSnapshot * list Z * option statusWrite :=
  match apply_next st cd errMsg now (as_state a) with
  | None => (a, [], None)
  | Some n =>
      let a := match st with Some s => set_errRate a (ewma s (as_errRate a)) | None => a end in
      let a := set_state a n in
      let '(a, rebuild) :=
        match weight with
        | Some w => (set_static a (set_weight (as_static a) w), ss_groupIDs (as_static a))
        | None => (a, [])
        end in
      let disabled_action := match st with Some s => s ==s StatusDisabled | None => false end in
      if negb disabled_action && (st_status (as_state a) ==s StatusDisabled) then (a, rebuild, None)
      else (a, rebuild, Some (write_of (acc_ID (ss_acc (as_static a))) n weight))
  end.

Definition FailAccount (now : Time) (a : accountSnapshot) (reason : string) : accountSnapshot * option statusWrite :=
  match fail_next reason now (as_state a) with
  | None => (a, None)
  | Some n => (set_state a n, Some (write_of (acc_ID (ss_acc (as_static a))) n None))
  end.

(** The drain of [processWrite]: later writes replace earlier ones of the same
    account, but a write without weight inherits the pending weight. *)
Definition merge_write (accs : gmap Z statusWrite) (w : statusWrite) : gmap Z statusWrite :=
  let w :=
    match accs !! sw_id w with
    | Some prev =>
        match sw_weight w, sw_weight prev with
        | None, Some pw => mkWrite (sw_id w) (sw_status w) (sw_cooldown w) (sw_lastErr w) (Some pw)
        | _, _ => w
        end
    | None => w
    end in
  <[sw_id w := w]> accs.

Definition merge_writes (ws : list statusWrite) : gmap Z statusWrite := fold_left merge_write ws ∅.

(** The groups to publish after the writes in [ok] reached the database. *)
Definition written_groups (ok : list Z) (byID : gmap Z accountSnapshot) : gset Z :=
  fold_left (fun acc id => match byID !! id with
                           | Some a => list_to_set (ss_groupIDs (as_static a)) ∪ acc
                           | None => acc
                           end) ok ∅.

(** ** What the merged writes say *)

(** The writes of [id], oldest first, and the last of a list. *)
Definition writes_of (id : Z) (ws : list statusWrite) : list statusWrite := List.filter (fun w => sw_id w =? id) ws.
Definition last_weight (ws : list statusWrite) : option Z :=
  fold_left (fun acc w => match sw_weight w with Some x => Some x | None => acc end) ws None.

Definition merged_spec (id : Z) (ws : list statusWrite) : option statusWrite :=
  match last (writes_of id ws) with
  | None => None
  | Some w => Some (mkWrite id (sw_status w) (sw_cooldown w) (sw_lastErr w) (last_weight (writes_of id ws)))
  end.

Lemma writes_of_snoc (id : Z) (ws : list statusWrite) (w : statusWrite) :
  writes_of id (ws ++ [w]) = if sw_id w =? id then (writes_of id ws ++ [w])%list else writes_of id ws.
Proof. unfold writes_of. rewrite List.filter_app. cbn. destruct (sw_id w =? id); [reflexivity|apply app_nil_r]. Qed.

Lemma last_weight_snoc (ws : list statusWrite) (w : statusWrite) :
  last_weight (ws ++ [w]) = match sw_weight w with Some x => Some x | None => last_weight ws end.
Proof. unfold last_weight. rewrite fold_left_app. reflexivity. Qed.

(** Merging the write-back queue loses no decision: the write issued for an
    account carries the status, cooldown and error of the last queued write and
    the most recent weight any of them set. *)
Theorem merge_keeps_last (ws : list statusWrite) (id : Z) : merge_writes ws !! id = merged_spec id ws.
Proof.
  unfold merge_writes. induction ws as [|w ws IH] using rev_ind; [reflexivity|].
  rewrite fold_left_app. cbn. unfold merged_spec. rewrite writes_of_snoc.
  set (accs := fold_left merge_write ws ∅) in *. unfold merge_write.
  destruct (Z.eqb_spec (sw_id w) id) as [E|E].
  - subst id. rewrite last_snoc, last_weight_snoc, IH. unfold merged_spec.
    destruct (last (writes_of (sw_id w) ws)) as [p|] eqn:El; cbn.
    + destruct (sw_weight w) as [x|] eqn:Ew; cbn.
      * rewrite lookup_insert_eq. destruct w; cbn in *; congruence.
      * destruct (last_weight (writes_of (sw_id w) ws)) as [pw|]; cbn; rewrite lookup_insert_eq; destruct w; cbn in *; congruence.
    + rewrite lookup_insert_eq. apply last_None in El. rewrite El. cbn. destruct w as [? ? ? ? [|]]; reflexivity.
  - transitivity (accs !! id); [|exact IH]. destruct (accs !! sw_id w) as [p|]; [destruct (sw_weight w), (sw_weight p)|]; cbn;
      rewrite lookup_insert_ne by congruence; reflexivity.
Qed.

(** ** The error rate under contention *)

Definition limited : Transition := TApply (Some Status429) None "" 5.

(** One 429 action whose swap loses against a selection stamp: it takes effect
    once, the average is updated twice. *)
Theorem contended_action_counts_twice : exists c,
  rtc step (initial demo_state 0) (c, [TDone (TUsed 9) true; TDone limited true]) /\
  st_errCount (c_st c) = 1 /\ c_rate c = ewma Status429 (ewma Status429 0) /\ c_rate c <> ewma Status429 0.
Proof.
  eexists. split.
  - eapply rtc_l; [apply (s_spawn _ [] limited)|]; cbn [c_ver c_st c_rate].
    eapply rtc_l; [eapply (s_run _ _ [] _ _ []), ts_read; reflexivity|]; cbn [c_ver c_st c_rate].
    eapply rtc_l; [apply (s_spawn _ _ (TUsed 9))|]; cbn [c_ver c_st c_rate].
    eapply rtc_l; [eapply (s_run _ _ [] _ _ [_]), ts_read; reflexivity|]; cbn [c_ver c_st c_rate].
    eapply rtc_l; [eapply (s_run _ _ [] _ _ [_]), ts_swap|]; cbn [c_ver c_st c_rate].
    eapply rtc_l; [eapply (s_run _ _ [_] _ _ []), ts_retry; discriminate|]; cbn [c_ver c_st c_rate].
    eapply rtc_l; [eapply (s_run _ _ [_] _ _ []), ts_read; reflexivity|]; cbn [c_ver c_st c_rate].
    eapply rtc_l; [eapply (s_run _ _ [_] _ _ []), ts_swap|]; cbn [c_ver c_st c_rate]. apply rtc_refl.
  - split; [reflexivity|]. split; [reflexivity|]. vm_compute. discriminate.
Qed.
