(* ===== verification/Routes.v ===== *)
(** * Routes ([internal/scheduler]: buildRoutes, modelSet)

    The routes of an account group, precomputed per request format and model
    when the group's snapshot is built: accounts whose template lists the model
    are tier 1, accounts without any model restriction tier 2; every format also
    has a default bucket (the empty model) for models nobody lists. *)

From Stdlib Require Import ZArith Lia List Bool String.
From stdpp Require Import base option list gmap strings.
From S2P Require Import Prelude GoString Domain SchedTypes WeightedSeq.
Import ListNotations.
Local Open Scope string_scope.
Local Open Scope Z_scope.

Record weightedSeq := mkSeq { ws_seq : list Loc; ws_cursor : Z }.
Record route := mkRoute { rt_tier1 : option weightedSeq; rt_tier2 : option weightedSeq }.

(** Format and model; the empty model is the default bucket. *)
Definition routeKey : Type := string * string.

Definition route_formats : list RequestFormat :=
  [FormatOpenAIChat; FormatOpenAIResponses; FormatOpenAIResponsesWS; FormatOpenAIImages; FormatOpenAISearch;
   FormatAnthropic].

Section Routes.
Variable shuffle : list Loc -> list Loc.
Variable heap : gmap nat accountSnapshot.

Definition tpl_of (l : Loc) : option Template := (fun a => ss_tpl (as_static a)) <$> heap !! l.
Definition weight_of (l : Loc) : option Z := (fun a => acc_Weight (ss_acc (as_static a))) <$> heap !! l.

Definition template_models (t : Template) : list string :=
  tp_Models t ++ concat (map snd (map_to_list (tp_FormatModels t))) ++ map fst (map_to_list (tp_ModelMapping t)).

Definition modelSet (accs : list Loc) : gset string :=
  list_to_set (concat (map (fun l => match tpl_of l with Some t => template_models t | None => [] end) accs)).

(** The loop over the accounts for one (format, model). *)
Definition in_tier1 (format model : string) (l : Loc) : bool :=
  match tpl_of l with Some t => FormatSupports t format model && Serves t model | None => false end.
Definition in_tier2 (format model : string) (l : Loc) : bool :=
  match tpl_of l with
  | Some t => FormatSupports t format model && negb (Serves t model) && negb (HasModelSpace t)
  | None => false
  end.

Definition seq_of (pool : list Loc) : option weightedSeq :=
  match pool with
  | [] => None
  | _ => Some (mkSeq (newWeightedSeq weight_of shuffle (map Some pool)) 0)
  end.

Definition explicit_route (accs : list Loc) (format model : string) : option route :=
  let t1 := List.filter (in_tier1 format model) accs in
  let t2 := List.filter (in_tier2 format model) accs in
  match t1, t2 with
  | [], [] => None
  | _, _ => Some (mkRoute (seq_of t1) (seq_of t2))
  end.

Definition in_default (format : string) (l : Loc) : bool :=
  match tpl_of l with
  | Some t => mem format (tp_SupportedFormats t) && negb (HasModelSpace t)
  | None => false
  end.

Definition default_route (accs : list Loc) (format : string) : option route :=
  match List.filter (in_default format) accs with
  | [] => None
  | t2 => Some (mkRoute None (seq_of t2))
  end.

(** The default buckets are stored after the explicit ones. *)
Definition buildRoutes (accs : list Loc) : gmap routeKey route :=
  let explicit :=
    concat (map (fun model => omap (fun f => (fun r => ((f, model), r)) <$> explicit_route accs f model) route_formats)
      (elements (modelSet accs))) in
  let defaults := omap (fun f => (fun r => ((f, ""), r)) <$> default_route accs f) route_formats in
  list_to_map defaults ∪ list_to_map explicit.

(** ** What a route's accounts can serve *)

(** The account may be used for the model: its template lists the model for the
    format, or it supports the format and restricts no model. *)
Definition may_serve (format model : string) (l : Loc) : Prop :=
  exists t, tpl_of l = Some t /\ mem format (tp_SupportedFormats t) = true /\
    ((FormatSupports t format model = true /\ Serves t model = true) \/ HasModelSpace t = false).

Definition seq_members (r : route) : list Loc :=
  match rt_tier1 r with Some w => ws_seq w | None => [] end ++
  match rt_tier2 r with Some w => ws_seq w | None => [] end.

Hypothesis shuffle_perm : forall l, shuffle l ≡ₚ l.

Lemma newWeightedSeq_subset (pool : list Loc) (l : Loc) :
  l ∈ newWeightedSeq weight_of shuffle (map Some pool) -> l ∈ pool.
Proof.
  unfold newWeightedSeq. destruct (_ || _); [intros H; apply not_elem_of_nil in H; contradiction|].
  rewrite shuffle_perm. unfold expand. rewrite list_elem_of_In, in_flat_map. intros ([a w] & Hin & Hr).
  apply repeat_spec in Hr. cbn in Hr. subst a.
  apply list_elem_of_In in Hin. unfold usable in Hin. apply list_elem_of_omap in Hin as ([b|] & Hb & E); [|discriminate].
  destruct (weight_of b) as [v|]; [|discriminate]. destruct (v <=? 0); [discriminate|]. injection E as -> _.
  apply list_elem_of_In, in_map_iff in Hb as (c & [= ->] & Hc). apply list_elem_of_In. exact Hc.
Qed.

Lemma seq_of_subset (pool : list Loc) (w : weightedSeq) (l : Loc) : seq_of pool = Some w -> l ∈ ws_seq w -> l ∈ pool.
Proof. destruct pool as [|x pool]; [discriminate|]. intros [= <-]. exact (newWeightedSeq_subset (x :: pool) l). Qed.

Lemma filter_elem {A} (f : A -> bool) (l : list A) (x : A) : x ∈ List.filter f l <-> x ∈ l /\ f x = true.
Proof. rewrite !list_elem_of_In. apply filter_In. Qed.

Lemma FormatSupports_format (t : Template) (f m : string) : FormatSupports t f m = true -> mem f (tp_SupportedFormats t) = true.
Proof. unfold FormatSupports. destruct (mem f (tp_SupportedFormats t)); [reflexivity|discriminate]. Qed.

Lemma in_tier1_may (f m : string) (l : Loc) : in_tier1 f m l = true -> may_serve f m l.
Proof.
  unfold in_tier1, may_serve. destruct (tpl_of l) as [t|]; [|discriminate]. intros [Hf Hs]%andb_prop.
  exists t. split_and!; [reflexivity|eapply FormatSupports_format, Hf|auto].
Qed.

Lemma in_tier2_may (f m : string) (l : Loc) : in_tier2 f m l = true -> may_serve f m l.
Proof.
  unfold in_tier2, may_serve. destruct (tpl_of l) as [t|]; [|discriminate]. intros [[Hf _]%andb_prop Hn]%andb_prop.
  exists t. split_and!; [reflexivity|eapply FormatSupports_format, Hf|]. right. destruct (HasModelSpace t); [discriminate|reflexivity].
Qed.

Lemma in_default_may (f m : string) (l : Loc) : in_default f l = true -> may_serve f m l.
Proof.
  unfold in_default, may_serve. destruct (tpl_of l) as [t|]; [|discriminate]. intros [Hf Hn]%andb_prop.
  exists t. split_and!; [reflexivity|exact Hf|]. right. destruct (HasModelSpace t); [discriminate|reflexivity].
Qed.

Lemma seq_members_spec (r : route) (t1 t2 : list Loc) (l : Loc) : r = mkRoute (seq_of t1) (seq_of t2) ->
  l ∈ seq_members r -> l ∈ t1 \/ l ∈ t2.
Proof.
  intros ->. unfold seq_members. cbn. rewrite elem_of_app. intros [H|H].
  - left. destruct (seq_of t1) as [w|] eqn:E; [eapply seq_of_subset; eassumption|apply not_elem_of_nil in H; contradiction].
  - right. destruct (seq_of t2) as [w|] eqn:E; [eapply seq_of_subset; eassumption|apply not_elem_of_nil in H; contradiction].
Qed.

Lemma explicit_route_may (accs : list Loc) (f m : string) (r : route) (l : Loc) : explicit_route accs f m = Some r ->
  l ∈ seq_members r -> l ∈ accs /\ may_serve f m l.
Proof.
  intros Hr Hl. assert (r = mkRoute (seq_of (List.filter (in_tier1 f m) accs)) (seq_of (List.filter (in_tier2 f m) accs))) as E.
  { unfold explicit_route in Hr. destruct (List.filter (in_tier1 f m) accs), (List.filter (in_tier2 f m) accs);
      congruence. }
  destruct (seq_members_spec _ _ _ _ E Hl) as [H|H]; apply filter_elem in H as [Hin Ht]; split; auto using in_tier1_may, in_tier2_may.
Qed.

Lemma default_route_may (accs : list Loc) (f m : string) (r : route) (l : Loc) : default_route accs f = Some r ->
  l ∈ seq_members r -> l ∈ accs /\ may_serve f m l.
Proof.
  intros Hr Hl. unfold default_route in Hr. destruct (List.filter (in_default f) accs) as [|x t2] eqn:E; [discriminate|].
  injection Hr as <-. destruct (seq_members_spec _ [] (x :: t2) l eq_refl Hl) as [H|H];
    [apply not_elem_of_nil in H; contradiction|].
  rewrite <- E in H. apply filter_elem in H as [Hin Ht]. auto using in_default_may.
Qed.

(** Every stored route is an explicit or a default one. *)
Lemma buildRoutes_lookup (accs : list Loc) (f m : string) (r : route) : buildRoutes accs !! (f, m) = Some r ->
  (m ∈ modelSet accs /\ explicit_route accs f m = Some r) \/ (m = "" /\ default_route accs f = Some r).
Proof.
  unfold buildRoutes. rewrite lookup_union_Some_raw. intros [H|[_ H]].
  - right. apply elem_of_list_to_map_2, list_elem_of_omap in H as (f' & _ & E).
    destruct (default_route accs f') as [r'|] eqn:Er; [|discriminate]. cbn in E. injection E as -> <- ->. auto.
  - left. apply elem_of_list_to_map_2 in H. apply list_elem_of_In, in_concat in H as (l & Hl & Hin).
    apply in_map_iff in Hl as (m' & <- & Hm). apply list_elem_of_In, list_elem_of_omap in Hin as (f' & _ & E).
    destruct (explicit_route accs f' m') as [r'|] eqn:Er; [|discriminate]. cbn in E. injection E as -> -> ->.
    split; [|exact Er]. apply elem_of_elements, list_elem_of_In, Hm.
Qed.

Lemma buildRoutes_members (accs : list Loc) (k : routeKey) (r : route) (l : Loc) : buildRoutes accs !! k = Some r ->
  l ∈ seq_members r -> l ∈ accs.
Proof.
  destruct k as [f m]. intros Hr Hl. destruct (buildRoutes_lookup accs f m r Hr) as [[_ He]|[_ Hd]].
  - exact (proj1 (explicit_route_may accs f m r l He Hl)).
  - exact (proj1 (default_route_may accs f m r l Hd Hl)).
Qed.

End Routes.
