(* ===== verification/ModelNames.v ===== *)
(** * Model names ([internal/scheduler]: model_alias.go, upstream_pool.go)

    The spellings under which a model can be requested: the canonical
    identifier, the key that ignores cosmetic separators and the short aliases
    (k3, c37) a group's routes make available when they are unambiguous. *)

From Stdlib Require Import ZArith Lia List Bool Ascii String.
From stdpp Require Import base option list gmap strings.
From S2P Require Import Prelude GoString Domain.
Import ListNotations.
Local Open Scope string_scope.
Local Open Scope Z_scope.

Definition canonicalModelID (model : string) : string := ToLower (TrimSpace model).

(** The loop of [modelMatchKey] over the runes: underscores and dots become
    dashes, runs of dashes collapse. *)
Definition dash : Z := 45.
Definition cosmetic (r : Z) : Z := if (r =? 95) || (r =? 46) then dash else r.

Fixpoint collapse (lastDash : bool) (l : list Z) : list Z :=
  match l with
  | [] => []
  | r :: rest =>
      let r := cosmetic r in
      if r =? dash then (if lastDash then collapse true rest else r :: collapse true rest)
      else r :: collapse false rest
  end.

Definition is_dash (c : ascii) : bool := byte_val c =? 45.

Definition modelMatchKey (model : string) : string :=
  let model := canonicalModelID model in
  if model ==s "" then "" else trim_by is_dash (of_runes (collapse false (runes model))).

(** ** Short aliases *)

Fixpoint all_chars (p : ascii -> bool) (s : string) : bool :=
  match s with EmptyString => true | String c s' => p c && all_chars p s' end.

Definition isAlphaToken (value : string) : bool := negb (value ==s "") && all_chars is_lower value.
Definition isNumericToken (value : string) : bool := negb (value ==s "") && all_chars is_digit value.

Definition shortModelToken (value : string) : bool :=
  match value with
  | String c rest =>
      (2 <=? String.length value)%nat && (String.length value <=? 4)%nat && is_lower c && isNumericToken rest
  | EmptyString => false
  end.

(** [strings.FieldsFunc]: the maximal non-empty runs of non-separators. *)
Fixpoint FieldsFunc (sep : ascii -> bool) (cur s : string) : list string :=
  match s with
  | EmptyString => if cur ==s "" then [] else [cur]
  | String c s' =>
      if sep c then (if cur ==s "" then FieldsFunc sep "" s' else cur :: FieldsFunc sep "" s')
      else FieldsFunc sep (cur +:+ String c EmptyString) s'
  end.

Definition is_separator (c : ascii) : bool :=
  let b := byte_val c in (b =? 45) || (b =? 95) || (b =? 46).

(** The [add] closure: normalised, of usable length, each once. *)
Definition add_alias (aliases : list string) (value : string) : list string :=
  let value := TrimSpace (ToLower value) in
  if (String.length value <? 2)%nat || (24 <? String.length value)%nat then aliases
  else if existsb (String.eqb value) aliases then aliases
  else (aliases ++ [value])%list.

(** The first alphabetic part's letter, the first short number and all of them. *)
Definition version_parts (parts : list string) : string * string * string :=
  fold_left (fun acc part =>
    let '(first, firstNumber, numbers) := acc in
    let first := if (first ==s "") && isAlphaToken part then substring 0 1 part else first in
    if isNumericToken part && (String.length part <=? 2)%nat
    then (first, if firstNumber ==s "" then part else firstNumber, numbers +:+ part)
    else (first, firstNumber, numbers)) parts ("", "", "").

Definition modelShortAliases (model : string) : list string :=
  let model := TrimSpace model in
  if model ==s "" then []
  else
    let model := match CutLastAfter model "/" with Some r => r | None => model end in
    let parts := FieldsFunc is_separator "" (ToLower model) in
    if (length parts <? 2)%nat then []
    else
      let aliases := fold_left (fun acc part => if shortModelToken part then add_alias acc part else acc) parts [] in
      let '(first, firstNumber, numbers) := version_parts parts in
      if negb (first ==s "") && (0 <? String.length numbers)%nat
      then add_alias (add_alias aliases (first +:+ firstNumber)) (first +:+ numbers)
      else aliases.

Example aliases_examples :
  modelShortAliases "moonshot/kimi-k3" = ["k3"] /\ modelShortAliases "claude-3-7-sonnet" = ["c3"; "c37"] /\
  modelShortAliases "qwen-235b" = [] /\ modelMatchKey " GPT_4.1--mini " = "gpt-4-1-mini".
Proof. vm_compute. auto. Qed.

(** ** The alias index

    A map's iteration order is unspecified: [keys] and [upstreamKeys] are the
    route keys in the order the loops meet them. *)

Definition modelAliasKey : Type := string * string.

(** The aliases [add] considers for a route's model. *)
Definition considered (model : string) (includeCosmeticIdentity : bool) : list string :=
  let aliases := modelShortAliases model in
  let plain := ToLower (TrimSpace model) in
  let aliases :=
    if includeCosmeticIdentity then
      let identity := modelMatchKey model in
      if negb (identity ==s "") && negb (identity ==s plain) then (aliases ++ [identity])%list else aliases
    else aliases in
  List.filter (fun alias => negb (alias ==s "") && negb (alias ==s plain)) aliases.

Record AliasIndex := mkAliasIndex { ai_candidates : gmap modelAliasKey string; ai_ambiguous : gset modelAliasKey }.

Definition add_candidate (ix : AliasIndex) (p : modelAliasKey * string) : AliasIndex :=
  let '(key, model) := p in
  if bool_decide (key ∈ ai_ambiguous ix) then ix
  else
    match ai_candidates ix !! key with
    | Some previous =>
        if negb (previous ==s model)
        then mkAliasIndex (delete key (ai_candidates ix)) ({[key]} ∪ ai_ambiguous ix)
        else mkAliasIndex (<[key := model]> (ai_candidates ix)) (ai_ambiguous ix)
    | None => mkAliasIndex (<[key := model]> (ai_candidates ix)) (ai_ambiguous ix)
    end.

Definition alias_pairs (cosmeticIdentity : bool) (key : string * string) : list (modelAliasKey * string) :=
  let '(format, model) := key in
  if model ==s "" then []
  else map (fun alias => ((format, alias), model)) (considered model cosmeticIdentity).

Definition buildModelAliases (keys upstreamKeys : list (string * string)) : gmap modelAliasKey string :=
  ai_candidates (fold_left add_candidate
    (concat (map (alias_pairs false) keys) ++ concat (map (alias_pairs true) upstreamKeys))%list
    (mkAliasIndex ∅ ∅)).

(** ** Unambiguous, in any order *)

Definition targets (ps : list (modelAliasKey * string)) (key : modelAliasKey) (m : string) : Prop := (key, m) ∈ ps.

Definition index_ok (ps : list (modelAliasKey * string)) (ix : AliasIndex) : Prop :=
  forall key,
    (key ∈ ai_ambiguous ix -> ai_candidates ix !! key = None /\ exists m m', m <> m' /\ targets ps key m /\ targets ps key m') /\
    (key ∉ ai_ambiguous ix -> forall m, targets ps key m <-> ai_candidates ix !! key = Some m).

Lemma targets_snoc (ps : list (modelAliasKey * string)) (k key : modelAliasKey) (v m : string) :
  targets (ps ++ [(k, v)]) key m <-> targets ps key m \/ (key = k /\ m = v).
Proof. unfold targets. rewrite elem_of_app, list_elem_of_singleton. intuition congruence. Qed.

Lemma add_candidate_ok (ps : list (modelAliasKey * string)) (ix : AliasIndex) (p : modelAliasKey * string) :
  index_ok ps ix -> index_ok (ps ++ [p]) (add_candidate ix p).
Proof.
  destruct p as [k v]. intros H key. destruct (H key) as [Hamb Hfree]. destruct (H k) as [Hak Hfk]. unfold add_candidate.
  destruct (bool_decide_reflect (k ∈ ai_ambiguous ix)) as [Hin|Hin].
  - split; intros Hk.
    + destruct (Hamb Hk) as (E & m & m' & Hne & Hm & Hm'). split; [exact E|].
      exists m, m'. rewrite !targets_snoc. auto.
    + intros m. rewrite targets_snoc, <- Hfree by exact Hk. intuition congruence.
  - destruct (ai_candidates ix !! k) as [pv|] eqn:Ek; [destruct (String.eqb_spec pv v) as [->|Hpv]|]; cbn.
    + split; intros Hk.
      * destruct (Hamb Hk) as (E & m & m' & Hne & Hm & Hm').
        rewrite lookup_insert_ne by (intros ->; contradiction). split; [exact E|]. exists m, m'. rewrite !targets_snoc. auto.
      * intros m. rewrite targets_snoc. destruct (decide (key = k)) as [->|Hne].
        -- rewrite lookup_insert_eq, (Hfree Hk m), Ek. intuition congruence.
        -- rewrite lookup_insert_ne by congruence. rewrite (Hfree Hk m). intuition congruence.
    + split.
      * intros [->%elem_of_singleton|Hk]%elem_of_union.
        -- split; [apply lookup_delete_eq|]. exists pv, v. rewrite !targets_snoc, (Hfk Hin pv). auto.
        -- destruct (Hamb Hk) as (E & m & m' & Hne & Hm & Hm').
           rewrite lookup_delete_ne by (intros ->; contradiction). split; [exact E|]. exists m, m'. rewrite !targets_snoc. auto.
      * intros [Hne Hk]%not_elem_of_union m. rewrite not_elem_of_singleton in Hne.
        rewrite lookup_delete_ne by congruence. rewrite targets_snoc, (Hfree Hk m). intuition congruence.
    + split; intros Hk.
      * destruct (Hamb Hk) as (E & m & m' & Hne & Hm & Hm').
        rewrite lookup_insert_ne by (intros ->; contradiction). split; [exact E|]. exists m, m'. rewrite !targets_snoc. auto.
      * intros m. rewrite targets_snoc. destruct (decide (key = k)) as [->|Hne].
        -- rewrite lookup_insert_eq, (Hfree Hk m), Ek. intuition congruence.
        -- rewrite lookup_insert_ne by congruence. rewrite (Hfree Hk m). intuition congruence.
Qed.

Lemma fold_index_ok (ps : list (modelAliasKey * string)) : index_ok ps (fold_left add_candidate ps (mkAliasIndex ∅ ∅)).
Proof.
  induction ps as [|p ps IH] using rev_ind.
  - intros key. split; [set_solver|]. intros _ m. unfold targets. cbn. rewrite lookup_empty.
    split; [intros H; apply not_elem_of_nil in H; contradiction|discriminate].
  - rewrite fold_left_app. cbn. apply add_candidate_ok, IH.
Qed.

(** The models of the routes that offer [alias] for [format]. *)
Definition offers (keys upstreamKeys : list (string * string)) (format alias m : string) : Prop :=
  m <> "" /\ (((format, m) ∈ keys /\ alias ∈ considered m false) \/
              ((format, m) ∈ upstreamKeys /\ alias ∈ considered m true)).

Lemma alias_pairs_spec (b : bool) (keys : list (string * string)) (format alias m : string) :
  ((format, alias), m) ∈ concat (map (alias_pairs b) keys) <->
  m <> "" /\ (format, m) ∈ keys /\ alias ∈ considered m b.
Proof.
  split.
  - intros H. apply list_elem_of_In, in_concat in H as (l & Hl & Hin). apply in_map_iff in Hl as ([f m'] & <- & Hk). unfold alias_pairs in Hin.
    destruct (String.eqb_spec m' ""); [contradiction|]. apply in_map_iff in Hin as (al & [= -> -> ->] & Ha).
    rewrite !list_elem_of_In. auto.
  - intros (Hne & Hk & Ha). apply list_elem_of_In, in_concat. exists (alias_pairs b (format, m)). apply list_elem_of_In in Hk. apply list_elem_of_In in Ha. split.
    + apply in_map. exact Hk.
    + unfold alias_pairs. destruct (String.eqb_spec m ""); [contradiction|].
      apply in_map_iff. exists alias. auto.
Qed.

(** A shorthand is resolved only when it is unambiguous, and whatever the
    iteration order of the route maps: the index sends an alias to a model
    exactly when that model is the only one of the format's routes that offers
    the alias. *)
Theorem aliases_unambiguous (keys upstreamKeys : list (string * string)) (format alias m : string) :
  buildModelAliases keys upstreamKeys !! (format, alias) = Some m <->
  offers keys upstreamKeys format alias m /\
  forall m', offers keys upstreamKeys format alias m' -> m' = m.
Proof.
  unfold buildModelAliases. set (ps := (concat (map (alias_pairs false) keys) ++ concat (map (alias_pairs true) upstreamKeys))%list).
  destruct (fold_index_ok ps (format, alias)) as [Hamb Hfree].
  assert (forall x, offers keys upstreamKeys format alias x <-> targets ps (format, alias) x) as Hoff.
  { intros x. unfold offers, targets, ps. rewrite elem_of_app, !alias_pairs_spec. tauto. }
  set (ix := fold_left add_candidate ps (mkAliasIndex ∅ ∅)) in *.
  destruct (decide ((format, alias) ∈ ai_ambiguous ix)) as [Hin|Hin].
  - destruct (Hamb Hin) as (E & a & b & Hne & Ha & Hb). split.
    + intros Hc. exfalso. assert (None = Some m) by (etransitivity; [symmetry; exact E|exact Hc]). discriminate.
    + intros [_ Hu]. exfalso. apply Hne. transitivity m; [|symmetry]; apply Hu, Hoff; assumption.
  - specialize (Hfree Hin). split.
    + intros Hc. split; [apply Hoff, Hfree, Hc|]. intros m' Hm'. apply Hoff, Hfree in Hm'.
      assert (Some m' = Some m) as [= ->] by (etransitivity; [symmetry; exact Hm'|exact Hc]). reflexivity.
    + intros [Hm _]. apply Hfree, Hoff, Hm.
Qed.
