(* ===== verification/Selection.v ===== *)
(** * Account selection ([internal/scheduler/selection.go])

    [pickFrom] scans a precomputed weighted sequence from an atomic cursor and
    takes a slot of the first account that is neither excluded, disabled,
    cooling down nor full; [select_account] resolves the requested model, finds
    the route and tries its two tiers.  [ReleaseSelection] gives the slot back.
    A result of [None] is an index panic.  The scan is modelled in program
    order, where the compare-and-swap on the slot counter succeeds. *)

From Stdlib Require Import ZArith Lia List Bool String.
From stdpp Require Import base option list gmap strings.
From S2P Require Import Prelude GoString Domain GoTime SchedTypes WeightedSeq Routes ModelNames AccountState.
Import ListNotations.
Local Open Scope string_scope.
Local Open Scope Z_scope.

(** ** Cluster view of account slots ([concsync.go]) *)

Record accSnap := mkAccSnap { asn_total : Z; asn_selfLast : Z; asn_at : Time }.

Definition accViewStale : Z := 4 * second.

Definition acc_concShare (limit n : Z) : Z := let s := limit [/] n in if 0 <? s then s else 1.

Definition acc_concAllows (view : option (gmap Z accSnap)) (wall : Time) (accID limit lnow : Z) : bool :=
  match view with
  | None => lnow <=? limit
  | Some m =>
      match m !! accID with
      | None => lnow <=? limit
      | Some snap =>
          if accViewStale <=? Sub wall (asn_at snap) then lnow <=? limit
          else (asn_total snap [-] asn_selfLast snap [+] lnow) <? limit
      end
  end.

(** ** The scan *)

(** What one call of [pickFrom] reads once: the clock, the instance count, the
    cluster view (with the wall clock its age is taken against) and the
    request's exclusion list. *)
Record PickEnv := mkPickEnv {
  pe_now : Time;
  pe_wall : Time;
  pe_instances : Z;
  pe_view : option (gmap Z accSnap);
  pe_excluded : list Z
}.

Definition accountExcluded (id : Z) (excluded : list Z) : bool := existsb (fun x => x =? id) excluded.

Definition account_id (a : accountSnapshot) : Z := acc_ID (ss_acc (as_static a)).
Definition slot_limit (a : accountSnapshot) : Z := acc_MaxConcurrency (ss_acc (as_static a)).

(** The checks of one candidate, up to the compare-and-swap. *)
Definition candidate_ok (env : PickEnv) (a : accountSnapshot) : bool :=
  let st := as_state a in
  let cur := as_concurrency a in
  let limit := slot_limit a in
  if accountExcluded (account_id a) (pe_excluded env) then false
  else if negb (ss_upstreamEnabled (as_static a)) then false
  else if st_status st ==s StatusDisabled then false
  else if cooling st (pe_now env) then false
  else if acc_concShare limit (pe_instances env) <=? cur then
    negb ((limit <=? cur) || negb (acc_concAllows (pe_view env) (pe_wall env) (account_id a) limit (cur [+] 1)))
  else true.

(** [int(ws.cursor.Add(1)) % n]. *)
Definition advance_cursor (cursor : Z) : Z := wrapu64 (cursor + 1).
Definition cursor_index (cursor n : Z) : Z := Z.rem (wrap64 cursor) n.

Section Scan.
Context {A : Type}.
(** Whether a candidate can be taken; [None] is a failed access. *)
Variable ok : A -> option bool.

(** The scan loop of [pickFrom].  [k] candidates left to
    try: the cursor afterwards and the candidate taken. *)
Fixpoint scan (k : nat) (seq : list A) (cursor : Z) : option (Z * option A) :=
  match k with
  | O => Some (cursor, None)
  | S k =>
      let cursor := advance_cursor cursor in
      let i := cursor_index cursor (Z.of_nat (length seq)) in
      if i <? 0 then None
      else
        match seq !! Z.to_nat i with
        | None => None
        | Some x =>
            match ok x with
            | None => None
            | Some true => Some (cursor, Some x)
            | Some false => scan k seq cursor
            end
        end
  end.
End Scan.

Definition account_ok (env : PickEnv) (heap : gmap nat accountSnapshot) (l : Loc) : option bool :=
  candidate_ok env <$> heap !! l.

(** Taking the slot: the counter and the last-used stamp. *)
Definition take_slot (used : Time) (a : accountSnapshot) : accountSnapshot :=
  set_state (set_concurrency a (as_concurrency a [+] 1)) (with_lastUsed (as_state a) used).

(** ** [Selection] *)

(** The fields of [Selection] that routing reads ([Ext], an opaque pointer
    copied from the account, is left out). *)
Record SelectionT := mkSelection {
  sel_TargetKind : TargetKind;
  sel_TargetID : Z;
  sel_AccountID : Z;
  sel_GroupID : Z;
  sel_TemplateID : Z;
  sel_UpstreamID : Z;
  sel_UpstreamName : string;
  sel_UpstreamHost : string;
  sel_UpstreamMultiplierBP : Z;
  sel_BaseURL : string;
  sel_Format : RequestFormat;
  sel_UpstreamKey : string;
  sel_CredentialType : string;
  sel_Model : string;
  sel_PricingModel : string;
  sel_StripImageTools : bool;
  sel_accountRef : option Loc;
  sel_upstreamRef : option upstreamSnapshot;
  sel_released : bool
}.

(** The mapping of the requested spelling wins over that of the route model. *)
Definition mapped_model (t : Template) (requested routeModel : string) : string :=
  match tp_ModelMapping t !! TrimSpace requested with
  | Some m => m
  | None => match tp_ModelMapping t !! routeModel with Some m => m | None => routeModel end
  end.

Definition selection_of (l : Loc) (a : accountSnapshot) (groupID : Z) (format requested routeModel : string) : SelectionT :=
  let av := as_static a in
  let tpl := ss_tpl av in
  let acc := ss_acc av in
  mkSelection TargetKindAccount (acc_ID acc) (acc_ID acc) groupID (tp_ID tpl) (ss_upstreamID av) (ss_upstreamName av) (ss_upstreamHost av)
    (ss_upstreamMultiplierBP av)
    (match acc_BaseURL acc with Some u => if negb (u ==s "") then u else tp_BaseURL tpl | None => tp_BaseURL tpl end)
    format (acc_UpstreamKey acc) (tp_CredentialType tpl) (mapped_model tpl requested routeModel) ""
    (tp_StripImageTools tpl) (Some l) None false.

(** The heap, the cursor of the sequence and the selection afterwards. *)
Definition pickFrom (env : PickEnv) (used : Time) (heap : gmap nat accountSnapshot) (ws : weightedSeq)
    (groupID : Z) (format requested routeModel : string)
    : option (gmap nat accountSnapshot * weightedSeq * option SelectionT) :=
  match length (ws_seq ws) with
  | O => Some (heap, ws, None)
  | n =>
      match scan (account_ok env heap) n (ws_seq ws) (ws_cursor ws) with
      | None => None
      | Some (cursor, None) => Some (heap, mkSeq (ws_seq ws) cursor, None)
      | Some (cursor, Some l) =>
          match heap !! l with
          | None => None
          | Some a =>
              Some (<[l := take_slot used a]> heap, mkSeq (ws_seq ws) cursor,
                    Some (selection_of l a groupID format requested routeModel))
          end
      end
  end.

(** ** Selecting in a group *)

Inductive SelectError := ErrGroupNotFound | ErrFormatUnavailable | ErrNoAvailable.

Record accountGroup := mkGroup {
  ag_accounts : list Loc;
  ag_routes : gmap routeKey route;
  ag_modelAliases : gmap modelAliasKey string
}.

(** [resolveGroupModel] with [upstream = false]. *)
Definition resolve_account_model (gs : accountGroup) (format requested : string) : string :=
  let model := TrimSpace requested in
  match ag_routes gs !! (format, model) with
  | Some _ => model
  | None =>
      match ag_modelAliases gs !! (format, ToLower (TrimSpace requested)) with
      | Some alias =>
          if alias ==s "" then model
          else match ag_routes gs !! (format, alias) with Some _ => alias | None => model end
      | None => model
      end
  end.

(** The bucket a resolved model is served from. *)
Definition route_key (gs : accountGroup) (format resolved : string) : routeKey :=
  match ag_routes gs !! (format, resolved) with Some _ => (format, resolved) | None => (format, "") end.

Definition set_route (gs : accountGroup) (k : routeKey) (r : route) : accountGroup :=
  mkGroup (ag_accounts gs) (<[k := r]> (ag_routes gs)) (ag_modelAliases gs).

(** One tier: skipped when it has no sequence. *)
Definition try_tier (env : PickEnv) (used : Time) (heap : gmap nat accountSnapshot) (tier : option weightedSeq)
    (groupID : Z) (format requested resolved : string)
    : option (gmap nat accountSnapshot * option weightedSeq * option SelectionT) :=
  match tier with
  | None => Some (heap, None, None)
  | Some ws =>
      match pickFrom env used heap ws groupID format requested resolved with
      | None => None
      | Some (heap, ws, sel) => Some (heap, Some ws, sel)
      end
  end.

(** [SelectExcluding] for a group in account mode. *)
Definition select_account (env : PickEnv) (used : Time) (heap : gmap nat accountSnapshot) (gs : accountGroup)
    (groupID : Z) (format requested : string)
    : option (gmap nat accountSnapshot * accountGroup * (SelectionT + SelectError)) :=
  let resolved := resolve_account_model gs format requested in
  let k := route_key gs format resolved in
  match ag_routes gs !! k with
  | None => Some (heap, gs, inr ErrFormatUnavailable)
  | Some rt =>
      match try_tier env used heap (rt_tier1 rt) groupID format requested resolved with
      | None => None
      | Some (heap, t1, sel1) =>
          let rt := mkRoute t1 (rt_tier2 rt) in
          match sel1 with
          | Some sel => Some (heap, set_route gs k rt, inl sel)
          | None =>
              match try_tier env used heap (rt_tier2 rt) groupID format requested resolved with
              | None => None
              | Some (heap, t2, sel2) =>
                  let rt := mkRoute (rt_tier1 rt) t2 in
                  Some (heap, set_route gs k rt,
                        match sel2 with Some sel => inl sel | None => inr ErrNoAvailable end)
              end
          end
      end
  end.

(** ** Giving the slot back *)

Definition decrementSlot (cur : Z) : Z := if cur <=? 0 then cur else cur [-] 1.

Definition mark_released (sel : SelectionT) : SelectionT :=
  mkSelection (sel_TargetKind sel) (sel_TargetID sel) (sel_AccountID sel) (sel_GroupID sel) (sel_TemplateID sel)
    (sel_UpstreamID sel) (sel_UpstreamName sel) (sel_UpstreamHost sel) (sel_UpstreamMultiplierBP sel) (sel_BaseURL sel)
    (sel_Format sel) (sel_UpstreamKey sel) (sel_CredentialType sel) (sel_Model sel) (sel_PricingModel sel)
    (sel_StripImageTools sel) (sel_accountRef sel) (sel_upstreamRef sel) true.

Definition release_slot (heap : gmap nat accountSnapshot) (l : Loc) : gmap nat accountSnapshot :=
  match heap !! l with
  | Some a => <[l := set_concurrency a (decrementSlot (as_concurrency a))]> heap
  | None => heap
  end.

(** [Release]: by account, through the index. *)
Definition Release (byID : gmap Z Loc) (heap : gmap nat accountSnapshot) (accountID : Z) : gmap nat accountSnapshot :=
  match byID !! accountID with Some l => release_slot heap l | None => heap end.

(** The account branch of [ReleaseSelection], idempotent through the
    [released] flag: the slot of the snapshot the selection holds, or, when it
    holds none, of the account's current one. *)
Definition release_account (byID : gmap Z Loc) (heap : gmap nat accountSnapshot) (sel : SelectionT)
    : gmap nat accountSnapshot * SelectionT :=
  if sel_released sel then (heap, sel)
  else
    (match sel_accountRef sel with
     | Some l => release_slot heap l
     | None => Release byID heap (sel_AccountID sel)
     end, mark_released sel).

(** ** The scan visits every candidate once *)

Section ScanSpec.
Context {A : Type}.
Variable ok : A -> option bool.

(** The sequence position the cursor value [c] points to. *)
Definition at_cursor (seq : list A) (c : Z) : option A := seq !! Z.to_nat (c mod Z.of_nat (length seq)).

Lemma cursor_step (seq : list A) (c : Z) : seq <> [] -> 0 <= c < max64 ->
  advance_cursor c = c + 1 /\ cursor_index (advance_cursor c) (Z.of_nat (length seq)) = (c + 1) mod Z.of_nat (length seq) /\
  0 <= (c + 1) mod Z.of_nat (length seq) < Z.of_nat (length seq).
Proof.
  intros Hne Hc. assert (0 < Z.of_nat (length seq)) as Hn by (destruct seq; [congruence|cbn; lia]).
  assert (advance_cursor c = c + 1) as E by (apply wrapu64_small; unfold_int; lia). rewrite E. split; [reflexivity|].
  split; [|apply Z.mod_pos_bound; lia]. unfold cursor_index. rewrite wrap64_small by (unfold_int; lia).
  apply Z.rem_mod_nonneg; lia.
Qed.

(** After [k] tries: the first available position, or none of the [k] next. *)
Lemma scan_spec (seq : list A) (k : nat) : seq <> [] -> (forall x, x ∈ seq -> is_Some (ok x)) ->
  forall c, 0 <= c -> c + Z.of_nat k <= max64 ->
  (exists j x, 1 <= j <= Z.of_nat k /\ scan ok k seq c = Some (c + j, Some x) /\
     at_cursor seq (c + j) = Some x /\ ok x = Some true /\
     forall i x', 1 <= i < j -> at_cursor seq (c + i) = Some x' -> ok x' <> Some true) \/
  (scan ok k seq c = Some (c + Z.of_nat k, None) /\
     forall i x', 1 <= i <= Z.of_nat k -> at_cursor seq (c + i) = Some x' -> ok x' <> Some true).
Proof.
  intros Hne Hok. induction k as [|k IH]; intros c Hc Hk.
  - right. cbn. split; [do 2 f_equal; lia|]. intros i l' Hi. lia.
  - destruct (cursor_step seq c Hne ltac:(unfold_int; lia)) as (Ea & Ei & Hi). cbn [scan]. rewrite Ei, Ea.
    destruct (Z.ltb_spec ((c + 1) mod Z.of_nat (length seq)) 0); [lia|].
    fold (at_cursor seq (c + 1)).
    destruct (at_cursor seq (c + 1)) as [x|] eqn:Ex.
    2: { apply lookup_ge_None in Ex. lia. }
    destruct (Hok x) as [[|] Hx]; [eapply list_elem_of_lookup_2, Ex| |]; rewrite Hx.
    + left. exists 1, x. split; [lia|]. split; [reflexivity|]. split; [exact Ex|]. split; [exact Hx|lia].
    + destruct (IH (c + 1)) as [(j & x0 & Hj & Es & Hat & Ht & Hbefore)|[Es Hall]]; [lia|lia| |].
      * left. exists (j + 1), x0. rewrite Es. split; [lia|]. split; [do 2 f_equal; lia|].
        split; [rewrite <- Hat; f_equal; lia|]. split; [exact Ht|].
        intros i x' Hi' Hx'. destruct (Z.eq_dec i 1) as [->|]; [congruence|].
        apply (Hbefore (i - 1) x'); [lia|]. rewrite <- Hx'. f_equal. lia.
      * right. rewrite Es. split; [do 2 f_equal; lia|].
        intros i x' Hi' Hx'. destruct (Z.eq_dec i 1) as [->|]; [congruence|].
        apply (Hall (i - 1) x'); [lia|]. rewrite <- Hx'. f_equal. lia.
Qed.

(** Each position is met within one round. *)
Lemma round_covers (seq : list A) (c : Z) (x : A) : 0 <= c -> x ∈ seq ->
  exists i, 1 <= i <= Z.of_nat (length seq) /\ at_cursor seq (c + i) = Some x.
Proof.
  intros Hc Hl. apply list_elem_of_lookup_1 in Hl as [p Hp]. pose proof (lookup_lt_Some _ _ _ Hp) as Hlt.
  set (n := Z.of_nat (length seq)) in *. assert (0 < n) as Hn by lia.
  exists (1 + (Z.of_nat p - c - 1) mod n).
  pose proof (Z.mod_pos_bound (Z.of_nat p - c - 1) n Hn). split; [lia|].
  unfold at_cursor. fold n. replace (c + (1 + (Z.of_nat p - c - 1) mod n)) with (c + 1 + (Z.of_nat p - c - 1) mod n) by lia.
  rewrite Zplus_mod_idemp_r. replace (c + 1 + (Z.of_nat p - c - 1)) with (Z.of_nat p) by lia.
  rewrite Z.mod_small, Nat2Z.id by lia. exact Hp.
Qed.

(** A full round: something available of the sequence, or nothing is. *)
Lemma scan_round (seq : list A) (c : Z) : (forall x, x ∈ seq -> is_Some (ok x)) ->
  0 <= c -> c + Z.of_nat (length seq) <= max64 ->
  (exists c' x, scan ok (length seq) seq c = Some (c', Some x) /\ x ∈ seq /\ ok x = Some true) \/
  (exists c', scan ok (length seq) seq c = Some (c', None) /\ forall x, x ∈ seq -> ok x <> Some true).
Proof.
  intros Hok Hc Hm. destruct seq as [|x0 seq0] eqn:E.
  - right. exists c. split; [reflexivity|]. intros x Hx. apply not_elem_of_nil in Hx. contradiction.
  - rewrite <- E in *. assert (seq <> []) as Hne by (rewrite E; discriminate).
    destruct (scan_spec seq (length seq) Hne Hok c Hc Hm) as [(j & x & _ & Es & Hat & Hx & _)|[Es Hall]].
    + left. exists (c + j), x. split; [exact Es|]. split; [eapply list_elem_of_lookup_2, Hat|exact Hx].
    + right. exists (c + Z.of_nat (length seq)). split; [exact Es|].
      intros x Hx. destruct (round_covers seq c x Hc Hx) as (i & Hi & Ex). eapply Hall; eassumption.
Qed.

(** Whatever a scan takes is on the sequence and available. *)
Lemma scan_taken (seq : list A) (k : nat) : forall c c' x,
  scan ok k seq c = Some (c', Some x) -> x ∈ seq /\ ok x = Some true.
Proof.
  induction k as [|k IH]; intros c c' x; cbn [scan]; [discriminate|].
  destruct (_ <? 0); [discriminate|]. destruct (seq !! _) as [x0|] eqn:El; [|discriminate].
  destruct (ok x0) as [[|]|] eqn:Eok; [|apply IH|discriminate].
  intros [= _ <-]. split; [eapply list_elem_of_lookup_2, El|exact Eok].
Qed.

End ScanSpec.

(** The account at a location can be taken. *)
Definition takeable (env : PickEnv) (heap : gmap nat accountSnapshot) (l : Loc) : Prop :=
  exists a, heap !! l = Some a /\ candidate_ok env a = true.

Lemma takeable_ok (env : PickEnv) (heap : gmap nat accountSnapshot) (l : Loc) :
  takeable env heap l <-> account_ok env heap l = Some true.
Proof.
  unfold takeable, account_ok. split; [intros (a & -> & E); cbn; congruence|].
  destruct (heap !! l) as [a|]; [|discriminate]. cbn. intros [= E]. eauto.
Qed.

(** An account a request may be sent to. *)
Definition admissible (env : PickEnv) (a : accountSnapshot) : Prop :=
  (account_id a ∉ pe_excluded env) /\ ss_upstreamEnabled (as_static a) = true /\
  st_status (as_state a) <> StatusDisabled /\
  (forall t, st_cooldownUntil (as_state a) = Some t -> t < pe_now env) /\
  as_concurrency a < slot_limit a.

(** What a candidate that passes satisfies. *)
Lemma candidate_ok_spec (env : PickEnv) (a : accountSnapshot) : 0 <= as_concurrency a < max64 ->
  1 <= pe_instances env -> 1 <= slot_limit a <= max64 -> candidate_ok env a = true ->
  admissible env a.
Proof.
  intros Hc Hn Hl. unfold candidate_ok, admissible. destruct (accountExcluded _ _) eqn:Ee; [discriminate|].
  destruct (ss_upstreamEnabled (as_static a)); [|discriminate]. cbn.
  destruct (String.eqb_spec (st_status (as_state a)) StatusDisabled); [discriminate|].
  destruct (cooling (as_state a) (pe_now env)) eqn:Ec; [discriminate|]. intros H.
  split_and!; auto.
  - intros Hin. apply not_true_iff_false in Ee. apply Ee, existsb_exists. exists (account_id a).
    split; [apply list_elem_of_In, Hin|apply Z.eqb_refl].
  - intros t Ht. unfold cooling in Ec. rewrite Ht in Ec. unfold Before in Ec. destruct (Z.ltb_spec t (pe_now env)); [lia|discriminate].
  - destruct (Z.leb_spec (acc_concShare (slot_limit a) (pe_instances env)) (as_concurrency a)) as [|Hlt].
    + destruct (Z.leb_spec (slot_limit a) (as_concurrency a)); [discriminate|lia].
    + unfold acc_concShare in Hlt. rewrite quot64_nonneg in Hlt by lia.
      assert (slot_limit a / pe_instances env <= slot_limit a) by (apply Z.div_le_upper_bound; nia).
      destruct (Z.ltb_spec 0 (slot_limit a / pe_instances env)); lia.
Qed.

(** ** One pick *)

(** Counters and limits in range, as [buildSnapshots] normalises them. *)
Definition slots_ok (a : accountSnapshot) : Prop := 0 <= as_concurrency a < max64 /\ 1 <= slot_limit a < max64.
Definition heap_ok (heap : gmap nat accountSnapshot) (seq : list Loc) : Prop :=
  forall l, l ∈ seq -> exists a, heap !! l = Some a /\ slots_ok a.

Lemma pickFrom_cases (env : PickEnv) (used : Time) (heap : gmap nat accountSnapshot) (ws : weightedSeq)
    (groupID : Z) (format requested routeModel : string) :
  heap_ok heap (ws_seq ws) -> 1 <= pe_instances env ->
  0 <= ws_cursor ws -> ws_cursor ws + Z.of_nat (length (ws_seq ws)) <= max64 ->
  (exists l a cursor, pickFrom env used heap ws groupID format requested routeModel =
      Some (<[l := take_slot used a]> heap, mkSeq (ws_seq ws) cursor,
            Some (selection_of l a groupID format requested routeModel)) /\
     l ∈ ws_seq ws /\ heap !! l = Some a /\ admissible env a) \/
  (exists cursor, pickFrom env used heap ws groupID format requested routeModel =
      Some (heap, mkSeq (ws_seq ws) cursor, None) /\
     forall l, l ∈ ws_seq ws -> ~ takeable env heap l).
Proof.
  intros Hh Hn Hc Hm. unfold pickFrom. destruct (length (ws_seq ws)) as [|n] eqn:El.
  - right. exists (ws_cursor ws). apply nil_length_inv in El. destruct ws as [seq c]. cbn in *. subst seq.
    split; [reflexivity|]. intros l Hl. apply not_elem_of_nil in Hl. contradiction.
  - rewrite <- El in *. destruct (scan_round (account_ok env heap) (ws_seq ws) (ws_cursor ws))
      as [(c' & l & Es & Hl & Hok)|(c' & Es & Hall)]; [|exact Hc|lia| |].
    + intros l Hl. destruct (Hh l Hl) as (a & Ha & _). unfold account_ok. rewrite Ha. eauto.
    + left. destruct (Hh l Hl) as (a & Ha & Hs & Hlim). exists l, a, c'. rewrite Es, Ha. split; [reflexivity|].
      split; [exact Hl|]. split; [reflexivity|]. apply takeable_ok in Hok as (a' & Ha' & Hok). rewrite Ha in Ha'. injection Ha' as <-.
      apply candidate_ok_spec; try assumption; lia.
    + right. exists c'. rewrite Es. split; [reflexivity|]. intros l Hl Ht. apply (Hall l Hl), takeable_ok, Ht.
Qed.

Lemma take_slot_counts (used : Time) (a : accountSnapshot) : 0 <= as_concurrency a < max64 ->
  as_concurrency (take_slot used a) = as_concurrency a + 1 /\
  decrementSlot (as_concurrency (take_slot used a)) = as_concurrency a /\
  as_static (take_slot used a) = as_static a.
Proof.
  intros H. assert (as_concurrency (take_slot used a) = as_concurrency a + 1) as Et
    by (unfold take_slot; cbn; apply add64_small; unfold_int; lia).
  rewrite Et. split; [reflexivity|]. split; [|reflexivity]. unfold decrementSlot.
  destruct (Z.leb_spec (as_concurrency a + 1) 0); [lia|]. rewrite sub64_small by (unfold_int; lia). lia.
Qed.


Definition demo_template : Template := mkTemplate 7 "https://t" "api_key" [FormatOpenAIChat] [] ∅ ∅ false None.
Definition demo_account (id w limit conc : Z) (cd : option Time) : accountSnapshot :=
  mkSnapshot (mkStatic (mkAccount id 7 (Some demo_template) None None None "key" StatusActive None w limit) demo_template 1 [1]
    true 0 "" "" 0) conc 0 0 (mkAccState StatusActive cd 0 None None).
Definition demo_heap : gmap nat accountSnapshot :=
  {[ 0%nat := demo_account 10 1 5 5 None; 1%nat := demo_account 11 1 5 2 (Some 900); 2%nat := demo_account 12 1 5 2 (Some 1200) ]}.
Definition demo_env : PickEnv := mkPickEnv 1000 1000 1 None [].


(** ** Fairness *)

(** What availability depends on: everything but the last-used stamp, the error
    counters and the 429 streak. *)
Definition avail_view (a : accountSnapshot) : snapshotStatic * Z * AccountStatus * option Time :=
  (as_static a, as_concurrency a, st_status (as_state a), st_cooldownUntil (as_state a)).

Definition heap_equiv (h h' : gmap nat accountSnapshot) : Prop := forall l : Loc, avail_view <$> h !! l = avail_view <$> h' !! l.

Instance heap_equiv_equivalence : Equivalence heap_equiv.
Proof. split; [intros h l; reflexivity|intros h h' H l; symmetry; apply H|intros a b c H1 H2 l; etransitivity; [apply H1|apply H2]]. Qed.

Lemma candidate_ok_view (env : PickEnv) (a b : accountSnapshot) : avail_view a = avail_view b ->
  candidate_ok env a = candidate_ok env b.
Proof.
  unfold avail_view. intros [= E1 E2 E3 E4]. unfold candidate_ok, cooling, account_id, slot_limit.
  rewrite E1, E2, E3, E4. reflexivity.
Qed.

Instance takeable_proper (env : PickEnv) : Proper (heap_equiv ==> eq ==> impl) (takeable env).
Proof.
  intros h h' H l l' <- (a & Ha & Hok). specialize (H l). rewrite Ha in H. cbn in H.
  destruct (h' !! l) as [b|] eqn:Hb; [|discriminate]. injection H as H. exists b. split; [exact Hb|].
  rewrite <- (candidate_ok_view env a b); [exact Hok|]. unfold avail_view. congruence.
Qed.

Instance heap_ok_proper : Proper (heap_equiv ==> eq ==> impl) heap_ok.
Proof.
  intros h h' H seq seq' <- Hh l Hl. destruct (Hh l Hl) as (a & Ha & Hs). specialize (H l). rewrite Ha in H. cbn in H.
  destruct (h' !! l) as [b|] eqn:Hb; [|discriminate]. injection H as E1 E2 _ _. exists b. split; [reflexivity|].
  unfold slots_ok, slot_limit in *. rewrite <- E1, <- E2. exact Hs.
Qed.

(** One request after the other: select, then release.  The accounts served,
    with the heap and the sequence afterwards. *)
Section Serve.
Variable env : PickEnv.
Variable used : Time.
Variables (groupID : Z) (format requested routeModel : string).

Fixpoint serve (n : nat) (heap : gmap nat accountSnapshot) (ws : weightedSeq)
    : option (gmap nat accountSnapshot * weightedSeq * list Loc) :=
  match n with
  | O => Some (heap, ws, [])
  | S n =>
      match pickFrom env used heap ws groupID format requested routeModel with
      | Some (heap, ws, Some sel) =>
          match sel_accountRef sel, serve n (release_account ∅ heap sel).1 ws with
          | Some l, Some (heap, ws, served) => Some (heap, ws, l :: served)
          | _, _ => None
          end
      | _ => None
      end
  end.

(** With every account available, the next one on the sequence is taken. *)
Lemma pick_next (heap : gmap nat accountSnapshot) (ws : weightedSeq) : heap_ok heap (ws_seq ws) -> ws_seq ws <> [] ->
  0 <= ws_cursor ws -> ws_cursor ws + Z.of_nat (length (ws_seq ws)) <= max64 ->
  (forall l, l ∈ ws_seq ws -> takeable env heap l) ->
  exists l a, at_cursor (ws_seq ws) (ws_cursor ws + 1) = Some l /\ heap !! l = Some a /\
    pickFrom env used heap ws groupID format requested routeModel =
      Some (<[l := take_slot used a]> heap, mkSeq (ws_seq ws) (ws_cursor ws + 1),
            Some (selection_of l a groupID format requested routeModel)).
Proof.
  intros Hh Hne Hc Hm Ht. unfold pickFrom. destruct (length (ws_seq ws)) as [|n] eqn:El;
    [apply nil_length_inv in El; contradiction|].
  assert (exists l, at_cursor (ws_seq ws) (ws_cursor ws + 1) = Some l) as [l El1].
  { apply lookup_lt_is_Some. pose proof (Z.mod_pos_bound (ws_cursor ws + 1) (Z.of_nat (length (ws_seq ws)))). lia. }
  assert (account_ok env heap l = Some true) as Hl by (apply takeable_ok, Ht; eapply list_elem_of_lookup_2, El1).
  destruct (scan_spec (account_ok env heap) (ws_seq ws) (S n) Hne) with (c := ws_cursor ws)
    as [(j & l' & Hj & Es & Hat & Hok & Hbefore)|[Es Hall]]; [|lia|lia| |].
  - intros x Hx. destruct (Hh x Hx) as (a & Ha & _). unfold account_ok. rewrite Ha. eauto.
  - destruct (Z.eq_dec j 1) as [->|Hj1]; [|exfalso; apply (Hbefore 1 l); [lia|assumption..]].
    rewrite El1 in Hat. injection Hat as <-. apply takeable_ok in Hl as (a & Ha & _).
    exists l, a. rewrite Es, Ha. auto.
  - exfalso. apply (Hall 1 l); [lia|assumption..].
Qed.

(** Selecting and releasing leaves availability as it was. *)
Lemma take_release_equiv (heap : gmap nat accountSnapshot) (l : Loc) (a : accountSnapshot) :
  heap !! l = Some a -> 0 <= as_concurrency a < max64 ->
  heap_equiv heap (release_account ∅ (<[l := take_slot used a]> heap) (selection_of l a groupID format requested routeModel)).1.
Proof.
  intros Ha Hs k. destruct (take_slot_counts used a Hs) as (_ & Ed & _).
  unfold release_account, release_slot. cbn [sel_released selection_of sel_accountRef fst]. rewrite lookup_insert_eq, insert_insert_eq.
  destruct (decide (k = l)) as [->|Hk]; [|rewrite lookup_insert_ne by congruence; reflexivity].
  rewrite lookup_insert_eq, Ha. cbn [fmap option_fmap option_map]. unfold avail_view at 2.
  rewrite <- (eq_refl : decrementSlot (as_concurrency (take_slot used a)) =
    as_concurrency (set_concurrency (take_slot used a) (decrementSlot (as_concurrency (take_slot used a))))), Ed. reflexivity.
Qed.

Lemma serve_order (n : nat) : forall (heap : gmap nat accountSnapshot) (ws : weightedSeq),
  heap_ok heap (ws_seq ws) -> ws_seq ws <> [] -> 0 <= ws_cursor ws ->
  ws_cursor ws + Z.of_nat n + Z.of_nat (length (ws_seq ws)) <= max64 ->
  (forall l, l ∈ ws_seq ws -> takeable env heap l) ->
  exists heap' served, serve n heap ws = Some (heap', mkSeq (ws_seq ws) (ws_cursor ws + Z.of_nat n), served) /\
    heap_equiv heap heap' /\ length served = n /\
    forall i, (i < n)%nat -> served !! i = at_cursor (ws_seq ws) (ws_cursor ws + 1 + Z.of_nat i).
Proof.
  induction n as [|n IH]; intros heap ws Hh Hne Hc Hm Ht.
  - exists heap, []. cbn. rewrite Z.add_0_r. destruct ws. split_and!; [reflexivity..|lia].
  - destruct (pick_next heap ws Hh Hne Hc ltac:(lia) Ht) as (l & a & Hat & Ha & Ep).
    cbn [serve]. rewrite Ep. cbn [sel_accountRef selection_of].
    assert (l ∈ ws_seq ws) as Hl by (eapply list_elem_of_lookup_2, Hat).
    destruct (Hh l Hl) as (a0 & Ha0 & Hs & _). rewrite Ha in Ha0. injection Ha0 as <-.
    pose proof (take_release_equiv heap l a Ha Hs) as Heq.
    match type of Heq with heap_equiv _ ?h => set (h1 := h) in * end.
    destruct (IH h1 (mkSeq (ws_seq ws) (ws_cursor ws + 1)) (heap_ok_proper _ _ Heq _ _ eq_refl Hh))
      as (heap' & served & Es & Heq' & Hlen & Hi); cbn [ws_seq ws_cursor]; [exact Hne|lia|lia| |].
    + intros l' Hl'. exact (takeable_proper env _ _ Heq _ _ eq_refl (Ht l' Hl')).
    + rewrite Es. exists heap', (l :: served). cbn [ws_seq ws_cursor] in *. split; [do 4 f_equal; lia|].
      split; [etransitivity; eassumption|]. split; [cbn; lia|]. intros [|i] Hlt.
      * transitivity (Some l); [reflexivity|]. rewrite <- Hat. f_equal. lia.
      * change ((l :: served) !! S i) with (served !! i). rewrite (Hi i) by lia. f_equal. lia.
Qed.

Lemma rotation_of_round (seq served : list Loc) (c : Z) : 0 <= c -> length served = length seq ->
  (forall i, (i < length seq)%nat -> served !! i = at_cursor seq (c + Z.of_nat i)) ->
  served = rotate (Z.to_nat c) seq.
Proof.
  intros Hc Hlen Hi. apply list_eq. intros i. destruct (Nat.lt_ge_cases i (length seq)) as [Hlt|Hge].
  - rewrite Hi by exact Hlt. rewrite lookup_rotate_r by exact Hlt. unfold at_cursor. f_equal.
    unfold rotate_nat_add. rewrite Z2Nat.id by lia. reflexivity.
  - rewrite !lookup_ge_None_2; [reflexivity|rewrite length_rotate; lia|lia].
Qed.

(** Round robin is fair.  While every account of a selection sequence is
    available, one round of requests -- as many as the sequence has places,
    from wherever the cursor stands -- serves the sequence itself, rotated:
    every account is served, exactly as often as it occurs on the sequence, and
    every slot counter ends where it started. *)
Theorem round_serves_all (heap : gmap nat accountSnapshot) (ws : weightedSeq) :
  heap_ok heap (ws_seq ws) -> ws_seq ws <> [] -> 0 <= ws_cursor ws ->
  ws_cursor ws + 2 * Z.of_nat (length (ws_seq ws)) <= max64 ->
  (forall l, l ∈ ws_seq ws -> takeable env heap l) ->
  exists heap' ws' served, serve (length (ws_seq ws)) heap ws = Some (heap', ws', served) /\
    served ≡ₚ ws_seq ws /\ (forall l, l ∈ ws_seq ws -> l ∈ served) /\
    (forall l, occurrences l served = occurrences l (ws_seq ws)) /\ heap_equiv heap heap' /\ ws_seq ws' = ws_seq ws.
Proof.
  intros Hh Hne Hc Hm Ht.
  destruct (serve_order (length (ws_seq ws)) heap ws Hh Hne Hc ltac:(lia) Ht) as (heap' & served & Es & Heq & Hlen & Hi).
  assert (served ≡ₚ ws_seq ws) as Hp.
  { rewrite (rotation_of_round (ws_seq ws) served (ws_cursor ws + 1) ltac:(lia) Hlen Hi).
    unfold rotate. rewrite Permutation_app_comm, take_drop. reflexivity. }
  exists heap', (mkSeq (ws_seq ws) (ws_cursor ws + Z.of_nat (length (ws_seq ws)))), served. split_and!; auto.
  - intros l Hl. rewrite Hp. exact Hl.
  - intros l. apply occurrences_perm, Hp.
Qed.
End Serve.

Lemma round_serves_all_witness :
  let heap := {[ 0%nat := demo_account 10 2 5 1 None; 1%nat := demo_account 11 1 5 2 (Some 900) ]} : gmap nat accountSnapshot in
  let ws := mkSeq [0; 1; 0]%nat 4 in
  exists heap' ws' served, serve demo_env 1001 1 FormatOpenAIChat "m" "m" 3 heap ws = Some (heap', ws', served) /\
    served ≡ₚ [0; 1; 0]%nat /\ occurrences 0%nat served = 2%nat.
Proof.
  intros heap ws.
  destruct (round_serves_all demo_env 1001 1 FormatOpenAIChat "m" "m" heap ws)
    as (heap' & ws' & served & Es & Hp & _ & Ho & _).
  - intros l [->|[->|[->|H]%elem_of_cons]%elem_of_cons]%elem_of_cons; [| | |apply not_elem_of_nil in H; contradiction];
      eexists; (split; [reflexivity|]); unfold slots_ok; cbn; unfold_int; lia.
  - discriminate.
  - vm_compute. discriminate.
  - vm_compute. discriminate.
  - intros l [->|[->|[->|H]%elem_of_cons]%elem_of_cons]%elem_of_cons; [| | |apply not_elem_of_nil in H; contradiction];
      eexists; (split; reflexivity).
  - exists heap', ws', served. split; [exact Es|]. split; [exact Hp|]. rewrite Ho. reflexivity.
Defined.

(** ** The model whitelist *)

(** Accounts on record with usable counters and limits. *)
Definition accs_ok (heap : gmap nat accountSnapshot) (accs : list Loc) : Prop :=
  forall l, l ∈ accs -> exists a, heap !! l = Some a /\ slots_ok a.

(** Every account a route leads to may serve the route's model -- for the
    default bucket, any model -- and is on record with usable limits. *)
Definition routes_ok (heap : gmap nat accountSnapshot) (routes : gmap routeKey route) : Prop :=
  forall f m r, routes !! (f, m) = Some r ->
    accs_ok heap (seq_members r) /\
    forall l, l ∈ seq_members r -> forall model, m = model \/ m = "" -> may_serve heap f model l.

Lemma tpl_of_take (heap : gmap nat accountSnapshot) (l : Loc) (a : accountSnapshot) (used : Time) : heap !! l = Some a ->
  forall k, tpl_of (<[l := take_slot used a]> heap) k = tpl_of heap k.
Proof.
  intros Ha k. unfold tpl_of. destruct (decide (k = l)) as [->|Hk].
  - rewrite lookup_insert_eq, Ha. reflexivity.
  - rewrite lookup_insert_ne by congruence. reflexivity.
Qed.

Lemma may_serve_tpl (h h' : gmap nat accountSnapshot) (f m : string) (l : Loc) : tpl_of h l = tpl_of h' l ->
  may_serve h f m l -> may_serve h' f m l.
Proof. intros E (t & Ht & H). exists t. rewrite <- E. auto. Qed.

Lemma route_key_model (gs : accountGroup) (format resolved : string) :
  route_key gs format resolved = (format, resolved) \/ route_key gs format resolved = (format, "").
Proof. unfold route_key. destruct (ag_routes gs !! (format, resolved)); auto. Qed.

(** What a tier or a whole selection does to the accounts: nothing, or it takes
    a slot of one of [pool]. *)
Definition took (env : PickEnv) (used : Time) (pool : list Loc) (heap heap' : gmap nat accountSnapshot)
    (groupID : Z) (format requested resolved : string) (sel : option SelectionT) : Prop :=
  match sel with
  | None => heap' = heap
  | Some s => exists l a, l ∈ pool /\ heap !! l = Some a /\ candidate_ok env a = true /\
      heap' = <[l := take_slot used a]> heap /\ s = selection_of l a groupID format requested resolved
  end.

Definition tier_members (t : option weightedSeq) : list Loc := match t with Some w => ws_seq w | None => [] end.

Lemma try_tier_took (env : PickEnv) (used : Time) (heap heap' : gmap nat accountSnapshot) (tier tier' : option weightedSeq)
    (groupID : Z) (format requested resolved : string) (sel : option SelectionT) :
  try_tier env used heap tier groupID format requested resolved = Some (heap', tier', sel) ->
  took env used (tier_members tier) heap heap' groupID format requested resolved sel /\ tier_members tier' = tier_members tier.
Proof.
  unfold try_tier. destruct tier as [ws|]; [|intros [= <- <- <-]; split; reflexivity].
  unfold pickFrom. destruct (length (ws_seq ws)) as [|n] eqn:El; [intros [= <- <- <-]; split; reflexivity|].
  destruct (scan (account_ok env heap) (S n) (ws_seq ws) (ws_cursor ws)) as [[c [l|]]|] eqn:Es; [| |discriminate].
  - destruct (heap !! l) as [a|] eqn:Ea; [|discriminate]. intros [= <- <- <-]. split; [|reflexivity].
    destruct (scan_taken _ _ _ _ _ _ Es) as (Hin & (a' & Ha' & Hok)%takeable_ok). rewrite Ea in Ha'. injection Ha' as <-.
    exists l, a. auto.
  - intros [= <- <- <-]. split; reflexivity.
Qed.

Lemma select_account_took (env : PickEnv) (used : Time) (heap heap' : gmap nat accountSnapshot) (gs gs' : accountGroup)
    (groupID : Z) (format requested : string) (res : SelectionT + SelectError) :
  select_account env used heap gs groupID format requested = Some (heap', gs', res) ->
  let resolved := resolve_account_model gs format requested in let k := route_key gs format resolved in
  match ag_routes gs !! k with
  | None => res = inr ErrFormatUnavailable /\ heap' = heap /\ gs' = gs
  | Some rt =>
      (exists r', ag_routes gs' = <[k := r']> (ag_routes gs) /\ seq_members r' = seq_members rt) /\
      took env used (seq_members rt) heap heap' groupID format requested resolved
        (match res with inl s => Some s | inr _ => None end)
  end.
Proof.
  unfold select_account. set (resolved := resolve_account_model gs format requested).
  destruct (ag_routes gs !! route_key gs format resolved) as [rt|] eqn:Ert; [|intros [= <- <- <-]; auto].
  destruct (try_tier env used heap (rt_tier1 rt) groupID format requested resolved) as [[[h1 t1] [s1|]]|] eqn:E1;
    [| |discriminate].
  - intros [= <- <- <-]. apply try_tier_took in E1 as [(l & a & Hin & Ha) Hm]. split.
    + eexists. split; [reflexivity|]. unfold seq_members. cbn [rt_tier1 rt_tier2]. fold (tier_members t1). rewrite Hm. reflexivity.
    + exists l, a. split; [apply elem_of_app; left; exact Hin|exact Ha].
  - apply try_tier_took in E1 as [Hh Hm1]. cbn in Hh. subst h1.
    destruct (try_tier env used heap (rt_tier2 (mkRoute t1 (rt_tier2 rt))) groupID format requested resolved)
      as [[[h2 t2] s2]|] eqn:E2; [|discriminate].
    intros [= <- <- <-]. apply try_tier_took in E2 as [Ht Hm2]. cbn [rt_tier2] in *. split.
    + eexists. split; [reflexivity|]. unfold seq_members. cbn [rt_tier1 rt_tier2]. fold (tier_members t1) (tier_members t2).
      rewrite Hm1, Hm2. reflexivity.
    + destruct s2 as [s|]; [|exact Ht]. destruct Ht as (l & a & Hin & Ha). exists l, a.
      split; [apply elem_of_app; right; exact Hin|exact Ha].
Qed.

Lemma accs_ok_take (env : PickEnv) (used : Time) (heap : gmap nat accountSnapshot) (pool : list Loc) (l : Loc) (a : accountSnapshot) :
  1 <= pe_instances env -> heap !! l = Some a -> slots_ok a -> candidate_ok env a = true -> accs_ok heap pool ->
  accs_ok (<[l := take_slot used a]> heap) pool.
Proof.
  intros Hn Ha Hs Hok H k Hk. destruct Hs as [Hc Hl].
  destruct (candidate_ok_spec env a Hc Hn ltac:(lia) Hok) as (_ & _ & _ & _ & Hlt).
  destruct (take_slot_counts used a Hc) as (Et & _ & Es). destruct (decide (k = l)) as [->|Hne].
  - exists (take_slot used a). rewrite lookup_insert_eq. split; [reflexivity|]. unfold slots_ok.
    rewrite Et. unfold slot_limit in *. rewrite Es. lia.
  - rewrite lookup_insert_ne by congruence. apply H, Hk.
Qed.

Lemma routes_ok_take (env : PickEnv) (used : Time) (heap : gmap nat accountSnapshot) (routes : gmap routeKey route)
    (l : Loc) (a : accountSnapshot) : 1 <= pe_instances env -> heap !! l = Some a -> slots_ok a ->
  candidate_ok env a = true -> routes_ok heap routes -> routes_ok (<[l := take_slot used a]> heap) routes.
Proof.
  intros Hn Ha Hs Hok H f m r Hr. destruct (H f m r Hr) as [H1 H2].
  split; [eapply accs_ok_take; eassumption|]. intros k Hk model Hm.
  eapply may_serve_tpl; [symmetry; apply tpl_of_take, Ha|auto].
Qed.

Lemma routes_ok_insert (heap : gmap nat accountSnapshot) (routes : gmap routeKey route) (k : routeKey) (r r' : route) :
  routes !! k = Some r -> seq_members r' = seq_members r -> routes_ok heap routes -> routes_ok heap (<[k := r']> routes).
Proof.
  intros Hk Hm H f m r0 Hr. destruct (decide ((f, m) = k)) as [<-|Hne].
  - rewrite lookup_insert_eq in Hr. injection Hr as <-. rewrite Hm. apply H, Hk.
  - rewrite lookup_insert_ne in Hr by congruence. apply H, Hr.
Qed.

Lemma buildRoutes_ok (shuffle : list Loc -> list Loc) (heap : gmap nat accountSnapshot) (accs : list Loc) :
  (forall l, shuffle l ≡ₚ l) -> accs_ok heap accs -> ("" ∉ modelSet heap accs) ->
  routes_ok heap (buildRoutes shuffle heap accs).
Proof.
  intros Hsh Ha Hne f m r Hr. destruct (buildRoutes_lookup shuffle heap accs f m r Hr) as [[Hm He]|[-> Hd]].
  - split.
    + intros l Hl. apply Ha. eapply explicit_route_may; eassumption.
    + intros l Hl model [<-|E]; [|congruence]. eapply explicit_route_may; eassumption.
  - split; intros l Hl; [|intros model _].
    + apply Ha. exact (proj1 (default_route_may shuffle heap Hsh accs f "" r l Hd Hl)).
    + exact (proj2 (default_route_may shuffle heap Hsh accs f model r l Hd Hl)).
Qed.

(** The account of an answer, and what is known of it. *)
Lemma whitelist_respected_aux (env : PickEnv) (used : Time) (heap heap' : gmap nat accountSnapshot) (gs gs' : accountGroup)
    (groupID : Z) (format requested : string) (sel : SelectionT) :
  1 <= pe_instances env -> routes_ok heap (ag_routes gs) ->
  select_account env used heap gs groupID format requested = Some (heap', gs', inl sel) ->
  exists l a, sel = selection_of l a groupID format requested (resolve_account_model gs format requested) /\
    heap !! l = Some a /\ admissible env a /\ may_serve heap format (resolve_account_model gs format requested) l.
Proof.
  intros Hn Hok Hsel. pose proof (select_account_took _ _ _ _ _ _ _ _ _ _ Hsel) as H. cbv zeta in H.
  set (resolved := resolve_account_model gs format requested) in *.
  destruct (ag_routes gs !! route_key gs format resolved) as [rt|] eqn:Ert; [|destruct H as [H _]; discriminate].
  destruct H as [_ (l & a & Hin & Ha & Hc & _ & ->)]. exists l, a. split; [reflexivity|]. split; [exact Ha|].
  assert (exists m, route_key gs format resolved = (format, m) /\ (m = resolved \/ m = "")) as (m & Ek & Hkm)
    by (destruct (route_key_model gs format resolved) as [E|E]; eauto).
  rewrite Ek in Ert. destruct (Hok format m rt Ert) as [Hacc Hmay].
  destruct (Hacc l Hin) as (a' & Ha' & Hs). rewrite Ha in Ha'. injection Ha' as <-.
  split; [destruct Hs; apply candidate_ok_spec; auto; lia|]. apply Hmay; auto.
Qed.

Lemma select_routes_ok (env : PickEnv) (used : Time) (heap heap' : gmap nat accountSnapshot) (gs gs' : accountGroup)
    (groupID : Z) (format requested : string) (res : SelectionT + SelectError) :
  1 <= pe_instances env -> routes_ok heap (ag_routes gs) ->
  select_account env used heap gs groupID format requested = Some (heap', gs', res) -> routes_ok heap' (ag_routes gs').
Proof.
  intros Hn Hok Hsel. pose proof (select_account_took _ _ _ _ _ _ _ _ _ _ Hsel) as H. cbv zeta in H.
  destruct (ag_routes gs !! route_key gs format _) as [rt|] eqn:Ert; [|destruct H as (_ & -> & ->); exact Hok].
  destruct H as [(r' & -> & Hm) Ht].
  destruct res as [sel|err]; cbn [took] in Ht; [|subst heap'; eapply routes_ok_insert; eassumption].
  destruct Ht as (l & a & Hin & Ha & Hc & -> & _). destruct (route_key gs format _) as [f m].
  destruct (Hok f m rt Ert) as [Hacc _]. destruct (Hacc l Hin) as (a' & Ha' & Hs). rewrite Ha in Ha'. injection Ha' as <-.
  eapply routes_ok_take, routes_ok_insert; eassumption.
Qed.

(** The model whitelist is hard.  Whatever account a request is sent to,
    its template supports the request's format and either lists the resolved
    model for that format or lists no model at all; the account is not excluded,
    is enabled, not disabled, out of cooldown and had a free slot.  And the
    routes stay in that condition, so it holds for every later request. *)
Theorem whitelist_respected (env : PickEnv) (used : Time) (heap heap' : gmap nat accountSnapshot) (gs gs' : accountGroup)
    (groupID : Z) (format requested : string) (res : SelectionT + SelectError) :
  1 <= pe_instances env -> routes_ok heap (ag_routes gs) ->
  select_account env used heap gs groupID format requested = Some (heap', gs', res) ->
  routes_ok heap' (ag_routes gs') /\
  (forall sel, res = inl sel -> exists l a, sel_accountRef sel = Some l /\ heap !! l = Some a /\
     sel_AccountID sel = account_id a /\ admissible env a /\
     may_serve heap format (resolve_account_model gs format requested) l).
Proof.
  intros Hn Hok Hsel. split; [eapply select_routes_ok; eassumption|]. intros sel ->.
  destruct (whitelist_respected_aux _ _ _ _ _ _ _ _ _ _ Hn Hok Hsel) as (l & a & -> & Ha & Hadm & Hmay).
  exists l, a. auto.
Qed.

Definition listed_account (id : Z) (models : list string) : accountSnapshot :=
  let t := mkTemplate id "https://t" "api_key" [FormatOpenAIChat] models ∅ ∅ false None in
  mkSnapshot (mkStatic (mkAccount id id (Some t) None None None "key" StatusActive None 1 5) t 1 [1] true 0 "" "" 0)
    0 0 0 (mkAccState StatusActive None 0 None None).

Definition group_over (heap : gmap nat accountSnapshot) (accs : list Loc) : accountGroup :=
  mkGroup accs (buildRoutes id heap accs) ∅.

Lemma whitelist_respected_witness :
  let heap := {[ 0%nat := listed_account 10 ["gpt"]; 1%nat := listed_account 11 [] ]} : gmap nat accountSnapshot in
  let gs := group_over heap [0; 1]%nat in
  exists heap' gs' sel, select_account demo_env 1001 heap gs 1 FormatOpenAIChat "other" = Some (heap', gs', inl sel) /\
    exists l, sel_accountRef sel = Some l /\ may_serve heap FormatOpenAIChat (resolve_account_model gs FormatOpenAIChat "other") l.
Proof.
  intros heap gs. assert (routes_ok heap (ag_routes gs)) as Hok.
  { apply buildRoutes_ok; [reflexivity| |vm_compute; discriminate].
    intros l [->|[->|H]%elem_of_cons]%elem_of_cons; [| |apply not_elem_of_nil in H; contradiction];
      eexists; (split; [reflexivity|]); unfold slots_ok; cbn; unfold_int; lia. }
  destruct (select_account demo_env 1001 heap gs 1 FormatOpenAIChat "other") as [[[h g] [sel|e]]|] eqn:E;
    [|vm_compute in E; discriminate|vm_compute in E; discriminate].
  exists h, g, sel. split; [reflexivity|].
  destruct (whitelist_respected demo_env 1001 heap h gs g 1 FormatOpenAIChat "other" (inl sel) ltac:(vm_compute; discriminate) Hok E)
    as [_ H].
  destruct (H sel eq_refl) as (l & a & Hl & _ & _ & _ & Hm). eauto.
Defined.

(** An empty name in a template's model list breaks it: nothing rejects it, it
    becomes a route of its own under the key of the default bucket, and every
    model nobody lists is then sent to the restricted account. *)
Theorem empty_model_escapes_whitelist :
  let heap := {[ 0%nat := listed_account 10 ["gpt"; ""] ]} : gmap nat accountSnapshot in
  let gs := group_over heap [0%nat] in
  HasModelSpace (ss_tpl (as_static (listed_account 10 ["gpt"; ""]))) = true /\
  Serves (ss_tpl (as_static (listed_account 10 ["gpt"; ""]))) "other" = false /\
  exists heap' gs' sel, select_account demo_env 1001 heap gs 1 FormatOpenAIChat "other" = Some (heap', gs', inl sel) /\
    sel_AccountID sel = 10 /\ sel_Model sel = "other".
Proof. split; [reflexivity|]. split; [reflexivity|]. do 3 eexists. split; [vm_compute; reflexivity|]. split; reflexivity. Qed.
