(* ===== verification/UpstreamPool.v ===== *)
(** * Upstream pools ([internal/scheduler/upstream_pool.go])

    Groups that route to upstreams instead of accounts: which members serve a
    model, the routes per format and model with their priority levels, the
    weighted sequences, selection, and the breaker of a member.  Snapshots are
    values that point to two shared cells, the slot counter and the breaker
    state; [UpHeap] holds the cells.  Every compare-and-swap loop here publishes
    a function of the state it read, so a turn is one atomic update
    ([AccountState] treats the interleaving of such loops).

    Endpoints are normalised with [net/url]: [normalizeUpstreamEndpoint] and
    [sanitizedUpstreamHost] are parameters. *)

From Stdlib Require Import ZArith Lia List Bool String.
From stdpp Require Import base option list gmap strings sorting.
From S2P Require Import Prelude GoString Domain GoTime RuleTypes SchedTypes WeightedSeq Routes ModelNames AccountState Selection.
Import ListNotations.
Local Open Scope string_scope.
Local Open Scope Z_scope.

(** ** Cells *)

Record UpHeap := mkUpHeap { uh_conc : gmap nat Z; uh_state : gmap nat upstreamState; uh_next : Loc }.

Definition zero_state : upstreamState := mkUpState None 0 "".

Definition conc_of (h : UpHeap) (u : upstreamSnapshot) : Z := default 0 (uh_conc h !! up_concurrency u).
Definition statePtr (h : UpHeap) (u : upstreamSnapshot) : upstreamState := default zero_state (uh_state h !! up_state u).

Definition set_conc (h : UpHeap) (l : Loc) (n : Z) : UpHeap := mkUpHeap (<[l := n]> (uh_conc h)) (uh_state h) (uh_next h).
Definition set_upstate (h : UpHeap) (l : Loc) (s : upstreamState) : UpHeap :=
  mkUpHeap (uh_conc h) (<[l := s]> (uh_state h)) (uh_next h).

(** ** What an upstream serves *)

Definition upstreamModelFormats (all : gmap string (list RequestFormat)) (model : string) : list RequestFormat * bool :=
  fold_left (fun acc p =>
    if modelMatchKey p.1 ==s modelMatchKey model
    then (fold_left (fun merged f => if mem f merged then merged else (merged ++ [f])%list) p.2 acc.1, true)
    else acc) (map_to_list all) ([], false).

Definition upstreamSupportsModel (u : Upstream) (model : string) : bool :=
  let model := canonicalModelID model in
  if model ==s "" then false
  else if negb (isSome (us_ModelsCheckedAt u)) then true
  else existsb (fun c => modelMatchKey c ==s modelMatchKey model) (us_Models u)
       || (upstreamModelFormats (us_ModelFormats u) model).2.

Definition upstreamSupportsModelFormat (u : Upstream) (model : string) (format : RequestFormat) : bool :=
  let model := canonicalModelID model in
  if negb (upstreamSupportsModel u model) then false
  else if (size (us_ModelFormats u) =? 0)%nat then format ==s FormatOpenAIChat
  else
    let '(formats, recorded) := upstreamModelFormats (us_ModelFormats u) model in
    if negb recorded then format ==s FormatOpenAIChat else mem format formats.

(** The guards shared by the candidate scan, the model union and selection. *)
Definition member_enabled (item : upstreamSnapshot) : bool :=
  match up_upstream item with Some u => gu_Enabled (up_member item) && us_Enabled u | None => false end.

Definition upstreamCandidatesForModelFormat (pool : list upstreamSnapshot) (model : string) (format : RequestFormat)
    : list upstreamSnapshot :=
  List.filter (fun item =>
    match up_upstream item with
    | Some u => gu_Enabled (up_member item) && us_Enabled u && upstreamSupportsModelFormat u model format
    | None => false
    end) pool.

(** ** The weighted sequence of one priority level *)

Definition clamp_weight (w : Z) : Z :=
  let w := if w <=? 0 then 100 else w in if 10000 <? w then 10000 else w.

Definition upstream_weight (item : upstreamSnapshot) : Z := clamp_weight (gu_Weight (up_member item)).

Definition newUpstreamWeightedSeq (pool : list upstreamSnapshot) : list upstreamSnapshot :=
  let weights := map upstream_weight pool in
  let g := fold_left gcdInt weights 0 in
  match pool with
  | [] => []
  | _ =>
      let g := if g <=? 0 then 1 else g in
      let total := fold_left (fun t w => t [+] (w [/] g)) weights 0 in
      let scale := if maxSeqLen <? total then (total [+] maxSeqLen [-] 1) [/] maxSeqLen else 1 in
      List.flat_map (fun item =>
        let n := (upstream_weight item [/] g) [/] scale in
        let n := if n <? 1 then 1 else n in
        repeat item (Z.to_nat n)) pool
  end.

(** ** Routes *)

Record upstreamWeightedSeq := mkUpSeq { uws_seq : list upstreamSnapshot; uws_cursor : Z }.
Record upstreamRoute := mkUpRoute { ur_seq : option upstreamWeightedSeq; ur_fallback : list upstreamWeightedSeq }.

(** The distinct priorities, ascending. *)
Definition priorities (candidates : list upstreamSnapshot) : list Z :=
  merge_sort Z.le (remove_dups (map (fun i => gu_Priority (up_member i)) candidates)).

Definition of_priority (candidates : list upstreamSnapshot) (p : Z) : list upstreamSnapshot :=
  List.filter (fun i => gu_Priority (up_member i) =? p) candidates.

(** The [build] closure. *)
Definition add_level (rt : upstreamRoute) (level : list upstreamSnapshot) : upstreamRoute :=
  let seq := newUpstreamWeightedSeq level in
  match seq with
  | [] => rt
  | _ =>
      match ur_seq rt with
      | None => mkUpRoute (Some (mkUpSeq seq 0)) (ur_fallback rt)
      | Some _ => mkUpRoute (ur_seq rt) (ur_fallback rt ++ [mkUpSeq seq 0])%list
      end
  end.

Definition build_upstream_route (candidates : list upstreamSnapshot) : upstreamRoute :=
  fold_left add_level (map (of_priority candidates) (priorities candidates)) (mkUpRoute None []).

Definition upstream_formats : list RequestFormat :=
  [FormatOpenAIChat; FormatOpenAIResponses; FormatOpenAIResponsesWS; FormatAnthropic; FormatOpenAIImages; FormatOpenAISearch].

(** The match keys of a list of model names, without the empty ones. *)
Definition match_keys (models : list string) : gset string :=
  list_to_set (omap (fun raw =>
    let model := canonicalModelID raw in if model ==s "" then None else Some (modelMatchKey model)) models).

(** The union of the confirmed catalogues; the flag says that no catalogue has
    been read yet. *)
Definition upstreamModelIntersection (pool : list upstreamSnapshot) : gset string * bool :=
  let usable := omap (fun item => if member_enabled item then up_upstream item else None) pool in
  let checked := List.filter (fun u => isSome (us_ModelsCheckedAt u)) usable in
  let unknown := existsb (fun u => negb (isSome (us_ModelsCheckedAt u))) usable in
  match checked with
  | [] => (∅, unknown)
  | _ => (match_keys (concat (map (fun u => (us_Models u ++ map fst (map_to_list (us_ModelFormats u)))%list) checked)), false)
  end.

Definition model_routes (pool : list upstreamSnapshot) (models : gset string) : gmap routeKey upstreamRoute :=
  list_to_map (concat (map (fun model =>
    omap (fun format =>
      match upstreamCandidatesForModelFormat pool model format with
      | [] => None
      | candidates => Some ((format, model), build_upstream_route candidates)
      end) upstream_formats) (elements models))).

Definition buildUpstreamRoutes (pool : list upstreamSnapshot) (allowed : list string) : gmap routeKey upstreamRoute :=
  match allowed with
  | [] =>
      let '(models, legacyFallback) := upstreamModelIntersection pool in
      if legacyFallback then {[ (FormatOpenAIChat, "") := build_upstream_route pool ]} else model_routes pool models
  | _ => model_routes pool (match_keys allowed)
  end.

(** ** Selection *)

Definition member_limit (item : upstreamSnapshot) : Z :=
  let limit := gu_MaxConcurrency (up_member item) in if limit <? 1 then 80 else limit.

Definition up_cooling (st : upstreamState) (now : Time) : bool :=
  match ust_cooldownUntil st with Some c => negb (Before c now) | None => false end.

(** The checks of one candidate, up to the compare-and-swap. *)
Definition member_ok (h : UpHeap) (now : Time) (excluded : list Z) (item : upstreamSnapshot) : bool :=
  if negb (member_enabled item) || accountExcluded (gu_ID (up_member item)) excluded then false
  else if up_cooling (statePtr h item) now then false
  else negb (member_limit item <=? conc_of h item).

(** The scan of one sequence, [k] visits left.  [lost item cursor] says that the
    compare-and-swap of that visit fails because the counter changed after it was
    read; the loop goes on to the next visit. *)
Section Visits.
Context (lost : upstreamSnapshot -> Z -> bool) (ok : upstreamSnapshot -> bool).

Fixpoint scan_members (k : nat) (seq : list upstreamSnapshot) (cursor : Z) : option (Z * option upstreamSnapshot) :=
  match k with
  | O => Some (cursor, None)
  | S k =>
      let cursor := advance_cursor cursor in
      let i := cursor_index cursor (Z.of_nat (length seq)) in
      if i <? 0 then None
      else
        match seq !! Z.to_nat i with
        | None => None
        | Some item => if ok item && negb (lost item cursor) then Some (cursor, Some item) else scan_members k seq cursor
        end
  end.

(** The priority levels in order. *)
Fixpoint scan_levels (levels : list upstreamWeightedSeq) : option (list upstreamWeightedSeq * option upstreamSnapshot) :=
  match levels with
  | [] => Some ([], None)
  | w :: rest =>
      match scan_members (length (uws_seq w)) (uws_seq w) (uws_cursor w) with
      | None => None
      | Some (cursor, Some item) => Some (mkUpSeq (uws_seq w) cursor :: rest, Some item)
      | Some (cursor, None) =>
          match scan_levels rest with
          | None => None
          | Some (rest, item) => Some (mkUpSeq (uws_seq w) cursor :: rest, item)
          end
      end
  end.
End Visits.

(** No request interferes. *)
Definition no_race (item : upstreamSnapshot) (cursor : Z) : bool := false.

Definition route_levels (rt : upstreamRoute) : list upstreamWeightedSeq :=
  match ur_seq rt with Some w => w :: ur_fallback rt | None => ur_fallback rt end.

Definition with_levels (rt : upstreamRoute) (levels : list upstreamWeightedSeq) : upstreamRoute :=
  match ur_seq rt, levels with
  | Some _, w :: rest => mkUpRoute (Some w) rest
  | _, _ => mkUpRoute None levels
  end.

(** [rawModelFor]: the provider's spelling of the routed model. *)
Definition rawModelFor (u : upstreamSnapshot) (model : string) (format : RequestFormat) (requested : string) : string :=
  let id := modelMatchKey model in
  let fallback := let requested := TrimSpace requested in if negb (requested ==s "") then requested else TrimSpace model in
  let catalogue := match up_modelIDs u !! id with Some raw => if negb (raw ==s "") then raw else fallback | None => fallback end in
  match up_formatModelIDs u !! (id, format) with
  | Some raw => if negb (raw ==s "") then raw else catalogue
  | None => catalogue
  end.

Definition TypeAPIKey : string := "api_key".

Definition upstream_selection (item : upstreamSnapshot) (groupID : Z) (format model requestedModel : string) : SelectionT :=
  mkSelection TargetKindUpstreamMember (gu_ID (up_member item)) 0 groupID 0
    (match up_upstream item with Some u => us_ID u | None => 0 end)
    (match up_upstream item with Some u => us_Name u | None => "" end) (up_host item)
    (match up_upstream item with Some u => us_MultiplierBP u | None => 0 end)
    (up_endpoint item) format (up_key item) TypeAPIKey (rawModelFor item model format requestedModel) model
    false None (Some item) false.

Record upstreamGroup := mkUpGroup {
  ug_upstreams : list upstreamSnapshot;
  ug_upstreamRoutes : gmap routeKey upstreamRoute;
  ug_modelAliases : gmap modelAliasKey string
}.

(** [resolveGroupModel] with [upstream = true]. *)
Definition resolve_upstream_model (gs : upstreamGroup) (format requested : string) : string :=
  let model := canonicalModelID (TrimSpace requested) in
  let has m := isSome (ug_upstreamRoutes gs !! (format, m)) in
  if has model then model
  else
    let identity := modelMatchKey requested in
    if has identity then identity
    else
      let alias := default "" (ug_modelAliases gs !! (format, ToLower (TrimSpace requested))) in
      let alias := if alias ==s "" then default "" (ug_modelAliases gs !! (format, modelMatchKey requested)) else alias in
      if negb (alias ==s "") && has alias then alias else model.

Definition upstream_route_key (gs : upstreamGroup) (format model : string) : routeKey :=
  if isSome (ug_upstreamRoutes gs !! (format, model)) then (format, model) else (format, "").

Definition set_upstream_route (gs : upstreamGroup) (k : routeKey) (rt : upstreamRoute) : upstreamGroup :=
  mkUpGroup (ug_upstreams gs) (<[k := rt]> (ug_upstreamRoutes gs)) (ug_modelAliases gs).

(** [selectUpstream]; [None] is an index panic. *)
Definition selectUpstream (lost : upstreamSnapshot -> Z -> bool) (h : UpHeap) (gs : upstreamGroup) (now : Time) (groupID : Z)
    (format model requestedModel : string) (excluded : list Z)
    : option (UpHeap * upstreamGroup * (SelectionT + SelectError)) :=
  let model := canonicalModelID model in
  let k := upstream_route_key gs format model in
  match ug_upstreamRoutes gs !! k with
  | None => Some (h, gs, inr ErrFormatUnavailable)
  | Some rt =>
      match ur_seq rt with
      | None | Some (mkUpSeq [] _) => Some (h, gs, inr ErrFormatUnavailable)
      | Some _ =>
          match scan_levels lost (member_ok h now excluded) (route_levels rt) with
          | None => None
          | Some (levels, None) => Some (h, set_upstream_route gs k (with_levels rt levels), inr ErrNoAvailable)
          | Some (levels, Some item) =>
              Some (set_conc h (up_concurrency item) (conc_of h item [+] 1),
                    set_upstream_route gs k (with_levels rt levels),
                    inl (upstream_selection item groupID format model requestedModel))
          end
      end
  end.

(** [SelectExcluding] for a group in upstream mode, of a request that runs alone. *)
Definition select_upstream_group (h : UpHeap) (gs : upstreamGroup) (now : Time) (groupID : Z)
    (format requested : string) (excluded : list Z) : option (UpHeap * upstreamGroup * (SelectionT + SelectError)) :=
  selectUpstream no_race h gs now groupID format (resolve_upstream_model gs format requested) requested excluded.

(** ** Giving the slot back *)

Definition release_conc (h : UpHeap) (l : Loc) : UpHeap :=
  set_conc h l (decrementSlot (default 0 (uh_conc h !! l))).

(** [ReleaseSelection]: once per selection, on the counter the selection was
    admitted with. *)
Definition ReleaseSelection (byID : gmap Z Loc) (upstreams : gmap Z upstreamSnapshot) (heap : gmap nat accountSnapshot)
    (h : UpHeap) (sel : SelectionT) : gmap nat accountSnapshot * UpHeap * SelectionT :=
  match sel_TargetKind sel with
  | TargetKindAccount => let '(heap, sel) := release_account byID heap sel in (heap, h, sel)
  | TargetKindUpstreamMember =>
      if sel_released sel then (heap, h, sel)
      else
        (heap,
         match sel_upstreamRef sel with
         | Some item => release_conc h (up_concurrency item)
         | None => match upstreams !! sel_TargetID sel with Some item => release_conc h (up_concurrency item) | None => h end
         end, mark_released sel)
  end.

(** ** The breaker *)

Definition wrapu32 (z : Z) : Z := z mod two32.

Record upstreamStatusWrite := mkUpWrite {
  uw_id : Z; uw_endpoint : string; uw_key : string; uw_cooldown : option Time; uw_streak : Z; uw_lastErr : option string
}.

Definition retryable (kind : Kind) : bool :=
  (kind =? KindOK) || (kind =? Kind429) || (kind =? Kind5xx) || (kind =? KindNetwork).

(** One turn of the loop of [MarkSelectionResult]; [None] returns without
    effect. *)
Definition breaker_next (kind : Kind) (resetAt : option Time) (errMsg : string) (now : Time) (st : upstreamState)
    : option upstreamState :=
  if negb (retryable kind) then None
  else if kind =? KindOK then (if up_cooling st now then None else Some zero_state)
  else
    let streak := ust_failureStreak st [+] 1 in
    let streak := if streak <? 1 then 1 else streak in
    let until := if kind =? Kind429 then retry429Deadline now (wrapu32 streak) resetAt else now + 2 * second in
    Some (mkUpState (Some until) streak (TruncateErrMsg errMsg)).

(** What is offered to the write-back queue ([enqueueUpstreamStatus]), which
    drops it when the worker is not running or the queue is full. *)
Definition status_write (item : upstreamSnapshot) (st : upstreamState) : upstreamStatusWrite :=
  mkUpWrite (gu_ID (up_member item)) (up_endpoint item) (up_key item) (ust_cooldownUntil st) (ust_failureStreak st)
    (if ust_lastError st ==s "" then None else Some (TruncateErrMsg (ust_lastError st))).

Definition mark_upstream_result (h : UpHeap) (item : upstreamSnapshot) (kind : Kind) (resetAt : option Time)
    (errMsg : string) (now : Time) : UpHeap * option upstreamStatusWrite :=
  match breaker_next kind resetAt errMsg now (statePtr h item) with
  | None => (h, None)
  | Some st => (set_upstate h (up_state item) st, Some (status_write item st))
  end.

(** ** The weighted sequence *)

Lemma clamp_weight_range (w : Z) : 1 <= clamp_weight w <= 10000.
Proof.
  unfold clamp_weight. destruct (Z.leb_spec w 0); [cbn; lia|].
  match goal with |- context [if ?a <? ?b then _ else _] => destruct (Z.ltb_spec a b) end; lia.
Qed.

Definition weight_items (pool : list upstreamSnapshot) : list (upstreamSnapshot * Z) := map (fun i => (i, upstream_weight i)) pool.

Lemma usable_pool (pool : list upstreamSnapshot) :
  usable (fun i => Some (upstream_weight i)) (map Some pool) = weight_items pool.
Proof.
  unfold usable, weight_items. induction pool as [|i pool IH]; [reflexivity|]. cbn [map omap list_omap].
  pose proof (clamp_weight_range (gu_Weight (up_member i))) as H. fold (upstream_weight i) in H.
  destruct (Z.leb_spec (upstream_weight i) 0); [lia|]. f_equal. exact IH.
Qed.

Lemma fold_left_pairs {A} (f : Z -> Z -> Z) (h : A -> Z) (l : list A) : forall g,
  fold_left f (map h l) g = fold_left (fun g p => f g p.2) (map (fun i => (i, h i)) l) g.
Proof. induction l as [|i l IH]; intros g; [reflexivity|]. cbn. apply IH. Qed.

Lemma fold_divisor_pool (pool : list upstreamSnapshot) :
  fold_left gcdInt (map upstream_weight pool) 0 = common_divisor (weight_items pool).
Proof. exact (fold_left_pairs gcdInt upstream_weight pool 0). Qed.

Lemma weight_items_ok (pool : list upstreamSnapshot) : weights_ok (weight_items pool).
Proof.
  apply Forall_forall. intros p H. apply list_elem_of_In, in_map_iff in H as (i & <- & _). cbn.
  pose proof (clamp_weight_range (gu_Weight (up_member i))) as H. fold (upstream_weight i) in H. unfold_int. lia.
Qed.

Lemma total_weight_le (g : Z) (pool : list upstreamSnapshot) : 0 < g ->
  total_weight g (weight_items pool) <= 10000 * Z.of_nat (length pool).
Proof.
  intros Hg. induction pool as [|i pool IH]; [cbn; lia|]. cbn [weight_items map length]. rewrite total_weight_cons. cbn [snd].
  pose proof (clamp_weight_range (gu_Weight (up_member i))) as H. fold (upstream_weight i) in H.
  assert (upstream_weight i / g <= 10000) by (apply Z.div_le_upper_bound; nia). unfold weight_items in IH. lia.
Qed.

Lemma fold_total (g : Z) (pool : list upstreamSnapshot) : 0 < g -> forall t, 0 <= t ->
  t + 10000 * Z.of_nat (length pool) <= max64 ->
  fold_left (fun t w => t [+] (w [/] g)) (map upstream_weight pool) t = t + total_weight g (weight_items pool).
Proof.
  intros Hg. induction pool as [|i pool IH]; intros t Ht Hm; [cbn; lia|]. cbn [map fold_left weight_items length] in *.
  pose proof (clamp_weight_range (gu_Weight (up_member i))) as H. fold (upstream_weight i) in H.
  rewrite quot64_nonneg by lia. assert (0 <= upstream_weight i / g <= 10000)
    by (split; [apply Z.div_pos; lia|apply Z.div_le_upper_bound; nia]).
  rewrite add64_small by (unfold_int; lia). rewrite IH by lia. rewrite total_weight_cons. cbn [snd]. unfold weight_items. lia.
Qed.

Lemma scale_agrees (total : Z) : 0 <= total <= max64 - 4096 ->
  (if maxSeqLen <? total then (total [+] maxSeqLen [-] 1) [/] maxSeqLen else 1) = scale_for total.
Proof.
  intros H. unfold scale_for, maxSeqLen. destruct (Z.ltb_spec 4096 total); [|reflexivity].
  rewrite (add64_small total 4096) by (unfold_int; lia). rewrite (sub64_small (total + 4096) 1) by (unfold_int; lia).
  rewrite (quot64_nonneg (total + 4096 - 1) 4096) by lia.
  destruct (div_mod_split total 4096 ltac:(lia)) as [E [? ?]].
  destruct (Z.eqb_spec (total mod 4096) 0) as [E0|E0]; cbn [negb].
  - rewrite E0 in E. symmetry. apply Z.div_unique with (r := 4095); lia.
  - symmetry. apply Z.div_unique with (r := total mod 4096 - 1); lia.
Qed.

Lemma slots_unclamped (g scale w : Z) : 0 < g -> 1 <= scale -> 0 < w <= max64 -> w / g <= scale * maxSeqLen ->
  (let n := (w [/] g) [/] scale in if n <? 1 then 1 else n) = slots g scale w.
Proof.
  intros Hg Hs Hw Hm. unfold slots. rewrite (quot64_nonneg w g) by lia.
  assert (0 <= w / g) by (apply Z.div_pos; lia). assert (w / g <= w) by (apply Z.div_le_upper_bound; nia).
  rewrite (quot64_nonneg (w / g) scale) by lia. cbn zeta.
  assert (w / g / scale <= maxSeqLen) by (apply Z.div_le_upper_bound; lia). unfold maxSeqLen in *.
  destruct (Z.ltb_spec (w / g / scale) 1);
    match goal with |- _ = if ?a <? ?b then _ else _ => destruct (Z.ltb_spec a b) end; lia.
Qed.

(** The two implementations of weighted sequences agree: the upstream
    pools' own construction, with its integer sums and without the account
    version's saturation and clamps, yields exactly the sequence the account
    pools' construction yields for the clamped weights, before shuffling.  So the
    share guarantees of the one hold for the other. *)
Theorem upstream_sequence_equivalent (pool : list upstreamSnapshot) :
  Z.of_nat (length pool) <= 2 ^ 40 ->
  newUpstreamWeightedSeq pool = newWeightedSeq (fun i => Some (upstream_weight i)) id (map Some pool).
Proof.
  intros Hlen. destruct pool as [|i0 rest] eqn:Epool; [reflexivity|]. rewrite <- Epool in *.
  assert (weight_items pool <> []) as Hne by (rewrite Epool; discriminate).
  unfold newUpstreamWeightedSeq, newWeightedSeq. rewrite usable_pool, fold_divisor_pool.
  destruct (common_divisor_spec (weight_items pool) (weight_items_ok pool) Hne) as [Hg _].
  set (g := common_divisor (weight_items pool)) in *.
  assert (0 <= total_weight g (weight_items pool) <= 10000 * 2 ^ 40) as Htot.
  { split; [apply total_weight_nonneg; [apply weight_items_ok|exact Hg]|].
    pose proof (total_weight_le g pool Hg). lia. }
  destruct (Z.leb_spec g 0); [lia|].
  rewrite (fold_total g pool Hg 0 ltac:(lia)) by (unfold_int; lia). rewrite Z.add_0_l.
  rewrite scale_agrees by (unfold_int; lia).
  rewrite (sum_normalized_spec g (weight_items pool)) by (try apply weight_items_ok; unfold maxUint64; unfold_int; lia).
  rewrite Z.add_0_l. destruct (scale_for_spec (total_weight g (weight_items pool)) ltac:(lia)) as (Hs1 & Hs2 & _).
  set (scale := scale_for (total_weight g (weight_items pool))) in *.
  destruct (Nat.eqb_spec (length (weight_items pool)) 0) as [E0|_]; [rewrite Epool in E0; discriminate|].
  cbn [orb id]. transitivity (expand g scale (weight_items pool)); [|reflexivity]. unfold expand, weight_items.
  rewrite flat_map_concat_map, flat_map_concat_map, map_map. rewrite Epool. rewrite <- Epool. f_equal. apply map_ext_in. intros i Hi. cbn [fst snd].
  do 2 f_equal. pose proof (clamp_weight_range (gu_Weight (up_member i))) as Hw. fold (upstream_weight i) in Hw.
  apply slots_unclamped; [exact Hg|exact Hs1|unfold_int; lia|].
  etransitivity; [|exact Hs2]. eapply total_weight_elem; [apply weight_items_ok|exact Hg|].
  apply list_elem_of_In, in_map_iff. exists i. split; [reflexivity|exact Hi].
Qed.

Definition demo_upstream (id : Z) (models : list string) : Upstream :=
  mkUpstream id "u" "https://u" None true 10000 models ∅ (Some 5) None.
Definition demo_member (id w prio limit : Z) (models : list string) : GroupUpstream :=
  mkGroupUpstream id 1 id (Some (demo_upstream id models)) w prio limit true None 0 None.
Definition demo_snapshot (id w prio limit : Z) (models : list string) (cell : Loc) : upstreamSnapshot :=
  mkUpSnap (demo_member id w prio limit models) (Some (demo_upstream id models)) "https://u" "u" "k" ∅ ∅ cell cell.

Lemma upstream_sequence_equivalent_witness :
  let pool := [demo_snapshot 1 6 0 5 ["m"] 0%nat; demo_snapshot 2 0 0 5 ["m"] 1%nat; demo_snapshot 3 4 0 5 ["m"] 2%nat] in
  length (newUpstreamWeightedSeq pool) = 55%nat /\
  newUpstreamWeightedSeq pool = newWeightedSeq (fun i => Some (upstream_weight i)) id (map Some pool).
Proof. intros pool. split; [vm_compute; reflexivity|]. apply upstream_sequence_equivalent. vm_compute. discriminate. Defined.

Lemma newUpstreamWeightedSeq_subset (pool : list upstreamSnapshot) (x : upstreamSnapshot) :
  x ∈ newUpstreamWeightedSeq pool -> x ∈ pool.
Proof.
  unfold newUpstreamWeightedSeq. destruct pool as [|i rest] eqn:E; [auto|]. rewrite <- E.
  rewrite !list_elem_of_In, in_flat_map. intros (y & Hy & Hr). apply repeat_spec in Hr. congruence.
Qed.

(** ** Priority levels *)

Definition priority (i : upstreamSnapshot) : Z := gu_Priority (up_member i).

(** The levels of a route: their members' priorities ascend, the members pass
    [P]. *)
Definition levels_ok (P : upstreamSnapshot -> Prop) (levels : list upstreamWeightedSeq) (ps : list Z) : Prop :=
  StronglySorted Z.lt ps /\
  Forall2 (fun w p => forall i, i ∈ uws_seq w -> priority i = p /\ P i) levels ps.

Definition route_ok (P : upstreamSnapshot -> Prop) (rt : upstreamRoute) : Prop :=
  exists ps, levels_ok P (route_levels rt) ps.

Lemma priorities_sorted (candidates : list upstreamSnapshot) : StronglySorted Z.lt (priorities candidates).
Proof.
  unfold priorities. set (l := remove_dups _). assert (StronglySorted Z.le (merge_sort Z.le l)) as Hs.
  { apply StronglySorted_merge_sort; [intros a b c; apply Z.le_trans|intros a b; destruct (Z.le_ge_cases a b); lia]. }
  assert (NoDup (merge_sort Z.le l)) as Hn by (rewrite merge_sort_Permutation; apply NoDup_remove_dups).
  induction Hs as [|x xs Hs IH Hx]; constructor.
  - apply NoDup_cons in Hn as [_ Hn]. auto.
  - apply NoDup_cons in Hn as [Hx' _]. rewrite Forall_forall in Hx |- *. intros y Hy. specialize (Hx y Hy).
    assert (x <> y) by (intros ->; contradiction). lia.
Qed.

Lemma add_level_levels (rt : upstreamRoute) (level : list upstreamSnapshot) : (ur_seq rt = None -> ur_fallback rt = []) ->
  (ur_seq (add_level rt level) = None -> ur_fallback (add_level rt level) = []) /\
  route_levels (add_level rt level) =
    (route_levels rt ++ match newUpstreamWeightedSeq level with [] => [] | seq => [mkUpSeq seq 0] end)%list.
Proof.
  intros H. unfold add_level, route_levels. destruct (newUpstreamWeightedSeq level) as [|x seq].
  - rewrite app_nil_r. auto.
  - destruct (ur_seq rt) as [w|]; cbn; [split; [discriminate|reflexivity]|]. rewrite H by reflexivity. split; [discriminate|reflexivity].
Qed.

Lemma StronglySorted_snoc (ps : list Z) (p : Z) : StronglySorted Z.lt ps -> Forall (fun q => q < p) ps ->
  StronglySorted Z.lt (ps ++ [p]).
Proof.
  induction 1 as [|q ps Hs IH Hq]; intros Hp; cbn; [repeat constructor|].
  apply Forall_cons in Hp as [Hqp Hp]. constructor; [auto|]. apply Forall_app. auto.
Qed.

Lemma fold_levels_ok (P : upstreamSnapshot -> Prop) (candidates : list upstreamSnapshot) (prios : list Z) :
  (forall i, i ∈ candidates -> P i) -> StronglySorted Z.lt prios -> forall rt ps,
  (ur_seq rt = None -> ur_fallback rt = []) -> levels_ok P (route_levels rt) ps ->
  Forall (fun q => Forall (fun p => q < p) prios) ps ->
  route_ok P (fold_left add_level (map (of_priority candidates) prios) rt).
Proof.
  intros HP Hs. induction Hs as [|p prios Hs IH Hp]; intros rt ps Hf [Hps Hlv] Hlt; [exists ps; split; assumption|].
  cbn [map fold_left]. destruct (add_level_levels rt (of_priority candidates p) Hf) as [Hf' El].
  assert (Forall (fun q => Forall (fun p => q < p) prios) ps) as Hlt'
    by (eapply Forall_impl; [exact Hlt|]; intros q Hq; apply Forall_cons in Hq as [_ Hq]; exact Hq).
  destruct (newUpstreamWeightedSeq (of_priority candidates p)) as [|x seq] eqn:Eseq.
  - rewrite app_nil_r in El. apply (IH _ ps Hf'); [rewrite El; split; assumption|exact Hlt'].
  - apply (IH _ (ps ++ [p])%list Hf').
    + rewrite El. split; [apply StronglySorted_snoc; [exact Hps|]|].
      * eapply Forall_impl; [exact Hlt|]. intros q Hq. apply Forall_cons in Hq as [Hq _]. exact Hq.
      * apply Forall2_app; [exact Hlv|]. constructor; [|constructor]. cbn [uws_seq]. rewrite <- Eseq. intros i Hi.
        apply newUpstreamWeightedSeq_subset in Hi. apply filter_elem in Hi as [Hi E%Z.eqb_eq]. auto.
    + apply Forall_app. split; [exact Hlt'|]. constructor; [exact Hp|constructor].
Qed.

Lemma build_route_ok (P : upstreamSnapshot -> Prop) (candidates : list upstreamSnapshot) :
  (forall i, i ∈ candidates -> P i) -> route_ok P (build_upstream_route candidates).
Proof.
  intros HP. apply (fold_levels_ok P candidates (priorities candidates) HP (priorities_sorted candidates) _ []); [reflexivity| |constructor].
  split; constructor.
Qed.

(** ** Selection by priority *)

Definition members (levels : list upstreamWeightedSeq) : list upstreamSnapshot := concat (map uws_seq levels).

Definition cursor_ok (w : upstreamWeightedSeq) : Prop :=
  0 <= uws_cursor w /\ uws_cursor w + Z.of_nat (length (uws_seq w)) <= max64.

Lemma members_cons (w : upstreamWeightedSeq) (levels : list upstreamWeightedSeq) (i : upstreamSnapshot) :
  i ∈ members (w :: levels) <-> i ∈ uws_seq w \/ i ∈ members levels.
Proof. unfold members. cbn [map concat]. apply elem_of_app. Qed.

Lemma levels_ok_members (P : upstreamSnapshot -> Prop) (levels : list upstreamWeightedSeq) (ps : list Z) :
  levels_ok P levels ps -> forall i, i ∈ members levels -> priority i ∈ ps /\ P i.
Proof.
  intros [_ Hlv] i. induction Hlv as [|w p levels ps Hw Hlv IH]; [intros H; apply not_elem_of_nil in H; contradiction|].
  rewrite members_cons. intros [Hi|Hi].
  - destruct (Hw i Hi) as [-> HP]. split; [left|exact HP].
  - destruct (IH Hi) as [Hp HP]. split; [right; exact Hp|exact HP].
Qed.

Section Visited.
Context (lost : upstreamSnapshot -> Z -> bool) (ok : upstreamSnapshot -> bool).

(** After [k] visits: the first member taken, or every available one visited was
    lost. *)
Lemma scan_members_spec (seq : list upstreamSnapshot) (k : nat) : seq <> [] -> forall c, 0 <= c -> c + Z.of_nat k <= max64 ->
  (exists c' x, scan_members lost ok k seq c = Some (c', Some x) /\ x ∈ seq /\ ok x = true) \/
  (scan_members lost ok k seq c = Some (c + Z.of_nat k, None) /\
     forall i x, 1 <= i <= Z.of_nat k -> at_cursor seq (c + i) = Some x -> ok x = true -> lost x (c + i) = true).
Proof.
  intros Hne. induction k as [|k IH]; intros c Hc Hk; [right; split; [cbn; do 2 f_equal; lia|lia]|].
  destruct (cursor_step seq c Hne ltac:(unfold_int; lia)) as (Ea & Ei & Hi). cbn [scan_members]. rewrite Ei, Ea.
  destruct (Z.ltb_spec ((c + 1) mod Z.of_nat (length seq)) 0); [lia|]. fold (at_cursor seq (c + 1)).
  destruct (at_cursor seq (c + 1)) as [x|] eqn:Ex; [|apply lookup_ge_None in Ex; lia].
  destruct (ok x && negb (lost x (c + 1))) eqn:Et.
  { left. apply andb_prop in Et as [Hx _]. exists (c + 1), x. split; [reflexivity|]. split; [eapply list_elem_of_lookup_2, Ex|exact Hx]. }
  destruct (IH (c + 1)) as [H'|[Es Hall]]; [lia|lia|left; exact H'|]. right. rewrite Es. split; [do 2 f_equal; lia|].
  intros i y Hi' Hy Hoy. destruct (Z.eq_dec i 1) as [->|].
  - assert (y = x) as -> by congruence. rewrite Hoy in Et. destruct (lost x (c + 1)); [reflexivity|discriminate].
  - replace (c + i) with (c + 1 + (i - 1)) in * by lia. apply Hall; [lia|exact Hy|exact Hoy].
Qed.

Lemma scan_members_round (seq : list upstreamSnapshot) (c : Z) : 0 <= c -> c + Z.of_nat (length seq) <= max64 ->
  (exists c' x, scan_members lost ok (length seq) seq c = Some (c', Some x) /\ x ∈ seq /\ ok x = true) \/
  (exists c', scan_members lost ok (length seq) seq c = Some (c', None) /\ forall x, x ∈ seq -> ok x = true -> exists v, lost x v = true).
Proof.
  intros Hc Hm. destruct (decide (seq = [])) as [->|Hne]; [right; exists c; split; [reflexivity|intros x Hx; apply not_elem_of_nil in Hx; contradiction]|].
  destruct (scan_members_spec seq (length seq) Hne c Hc Hm) as [H|[Es Hall]]; [left; exact H|]. right. eexists. split; [exact Es|].
  intros x Hx Hox. destruct (round_covers seq c x Hc Hx) as (i & Hi & Ex). eauto.
Qed.

(** The levels are tried in order, so the member taken is of the best level that
    has an available one not lost. *)
Lemma scan_levels_spec (P : upstreamSnapshot -> Prop) (levels : list upstreamWeightedSeq) :
  forall ps, levels_ok P levels ps -> Forall cursor_ok levels ->
  exists levels' r, scan_levels lost ok levels = Some (levels', r) /\
    map uws_seq levels' = map uws_seq levels /\
    match r with
    | Some item => item ∈ members levels /\ ok item = true /\
        forall i, i ∈ members levels -> ok i = true -> (forall v, lost i v = false) -> priority item <= priority i
    | None => forall i, i ∈ members levels -> ok i = true -> exists v, lost i v = true
    end.
Proof.
  induction levels as [|w levels IH]; intros ps [Hs Hlv] Hc.
  - exists [], None. split; [reflexivity|]. split; [reflexivity|]. intros i H. apply not_elem_of_nil in H. contradiction.
  - apply Forall_cons in Hc as [[Hc1 Hc2] Hc]. destruct ps as [|p ps]; [inversion Hlv|].
    apply Forall2_cons in Hlv as [Hw Hlv]. apply StronglySorted_inv in Hs as [Hs Hp].
    cbn [scan_levels]. destruct (scan_members_round (uws_seq w) (uws_cursor w) Hc1 Hc2) as [(c' & item & Es & Hin & Hok)|(c' & Es & Hall)]; rewrite Es.
    + exists (mkUpSeq (uws_seq w) c' :: levels), (Some item). split; [reflexivity|]. split; [reflexivity|].
      split; [apply members_cons; auto|]. split; [exact Hok|]. intros i Hi _ _. destruct (Hw item Hin) as [-> _].
      apply members_cons in Hi as [Hi|Hi]; [destruct (Hw i Hi) as [-> _]; lia|].
      destruct (levels_ok_members P levels ps (conj Hs Hlv) i Hi) as [Hpi _].
      rewrite Forall_forall in Hp. specialize (Hp _ Hpi). lia.
    + destruct (IH ps (conj Hs Hlv) Hc) as (levels' & r & E & Hm & Hr). rewrite E.
      exists (mkUpSeq (uws_seq w) c' :: levels'), r. split; [reflexivity|]. split; [cbn; rewrite Hm; reflexivity|].
      destruct r as [item|]; [|intros i [Hi|Hi]%members_cons; auto].
      destruct Hr as (Hin & Hok & Hbest). split; [apply members_cons; auto|]. split; [exact Hok|].
      intros i [Hi|Hi]%members_cons Hoki Hl; [destruct (Hall i Hi Hoki) as [v Hv]; rewrite Hl in Hv; discriminate|auto].
Qed.
End Visited.

Lemma levels_ok_seq (P : upstreamSnapshot -> Prop) (levels levels' : list upstreamWeightedSeq) (ps : list Z) :
  map uws_seq levels' = map uws_seq levels -> levels_ok P levels ps -> levels_ok P levels' ps.
Proof.
  intros E [Hs Hlv]. split; [exact Hs|]. revert levels' E. induction Hlv as [|w p levels ps Hw Hlv IH]; intros [|w' levels'] E;
    try discriminate; [constructor|]. injection E as E1 E2. apply StronglySorted_inv in Hs as [Hs _].
  constructor; [rewrite E1; exact Hw|auto].
Qed.

Lemma with_levels_levels (rt : upstreamRoute) (levels : list upstreamWeightedSeq) : isSome (ur_seq rt) = true ->
  map uws_seq levels = map uws_seq (route_levels rt) -> route_levels (with_levels rt levels) = levels.
Proof.
  unfold with_levels, route_levels. destruct (ur_seq rt) as [w|]; [|discriminate]. intros _ E.
  destruct levels; [discriminate|reflexivity].
Qed.

(** An upstream member the routes of [model] may lead to.  The default bucket is
    for Chat requests, and of members whose catalogue has not been read. *)
Definition serves_model (format model : string) (i : upstreamSnapshot) : Prop :=
  if model ==s "" then format = FormatOpenAIChat /\
    (member_enabled i = true -> forall u, up_upstream i = Some u -> us_ModelsCheckedAt u = None)
  else exists u, up_upstream i = Some u /\ member_enabled i = true /\ upstreamSupportsModelFormat u model format = true.

Definition up_routes_ok (routes : gmap routeKey upstreamRoute) : Prop :=
  forall f m rt, routes !! (f, m) = Some rt -> route_ok (serves_model f m) rt.

Lemma no_candidates (pool : list upstreamSnapshot) (format : string) : upstreamCandidatesForModelFormat pool "" format = [].
Proof.
  unfold upstreamCandidatesForModelFormat. induction pool as [|i pool IH]; [reflexivity|]. cbn [List.filter].
  destruct (up_upstream i) as [u|]; [|exact IH]. change (upstreamSupportsModelFormat u "" format) with false. rewrite andb_false_r. exact IH.
Qed.

Lemma candidates_serve (pool : list upstreamSnapshot) (model format : string) (i : upstreamSnapshot) :
  i ∈ upstreamCandidatesForModelFormat pool model format -> serves_model format model i.
Proof.
  unfold serves_model. destruct (String.eqb_spec model "") as [->|_]; [rewrite no_candidates; intros H; apply not_elem_of_nil in H; contradiction|].
  intros [_ H]%filter_elem. unfold member_enabled. destruct (up_upstream i) as [u|]; [|discriminate].
  apply andb_prop in H as [He Hs]. eauto.
Qed.

(** The pool is legacy: members in use, and no catalogue read. *)
Lemma legacy_unread (pool : list upstreamSnapshot) (models : gset string) (i : upstreamSnapshot) (u : Upstream) :
  upstreamModelIntersection pool = (models, true) -> i ∈ pool -> member_enabled i = true -> up_upstream i = Some u -> us_ModelsCheckedAt u = None.
Proof.
  unfold upstreamModelIntersection. set (usable := omap _ pool). destruct (List.filter _ usable) as [|x l] eqn:E; [|discriminate]. intros _ Hi He Hu.
  assert (u ∈ usable) as Hin by (apply list_elem_of_omap; exists i; rewrite He; auto).
  destruct (us_ModelsCheckedAt u) as [t|] eqn:Et; [|reflexivity]. exfalso.
  assert (u ∈ List.filter (fun u => isSome (us_ModelsCheckedAt u)) usable) as H by (apply filter_elem; rewrite Et; auto). rewrite E in H. apply not_elem_of_nil in H. exact H.
Qed.

Lemma model_routes_ok (pool : list upstreamSnapshot) (models : gset string) : up_routes_ok (model_routes pool models).
Proof.
  intros f m rt H. apply elem_of_list_to_map_2, list_elem_of_In, in_concat in H as (l & Hl & Hin).
  apply in_map_iff in Hl as (m' & <- & _). apply list_elem_of_In, list_elem_of_omap in Hin as (f' & _ & E).
  destruct (upstreamCandidatesForModelFormat pool m' f') as [|c cs] eqn:Ec; [discriminate|]. injection E as -> -> <-.
  apply build_route_ok. rewrite <- Ec. intros i. apply candidates_serve.
Qed.

Lemma buildUpstreamRoutes_ok (pool : list upstreamSnapshot) (allowed : list string) :
  up_routes_ok (buildUpstreamRoutes pool allowed).
Proof.
  unfold buildUpstreamRoutes. destruct allowed; [|apply model_routes_ok].
  destruct (upstreamModelIntersection pool) as [models [|]] eqn:Ei; [|apply model_routes_ok].
  intros f m rt H. apply lookup_singleton_Some in H as [[= <- <-] <-]. apply build_route_ok. intros i Hi. split; [reflexivity|].
  intros He u Hu. exact (legacy_unread pool models i u Ei Hi He Hu).
Qed.

Lemma up_routes_ok_insert (routes : gmap routeKey upstreamRoute) (k : routeKey) (rt : upstreamRoute) :
  up_routes_ok routes -> route_ok (serves_model k.1 k.2) rt -> up_routes_ok (<[k := rt]> routes).
Proof.
  intros H Hr f m r0 E. destruct (decide ((f, m) = k)) as [<-|Hne].
  - rewrite lookup_insert_eq in E. injection E as <-. exact Hr.
  - rewrite lookup_insert_ne in E by congruence. apply H, E.
Qed.

(** *** The routes of a pool *)

Lemma clamp_pos (pool : list upstreamSnapshot) (x : upstreamSnapshot) : x ∈ pool -> x ∈ newUpstreamWeightedSeq pool.
Proof.
  intros Hx. unfold newUpstreamWeightedSeq. destruct pool as [|i0 rest] eqn:E; [exact Hx|]. rewrite <- E in *. rewrite list_elem_of_In, in_flat_map. exists x. split; [apply list_elem_of_In, Hx|].
  match goal with |- In x (repeat x (Z.to_nat (if ?b then _ else ?n))) => destruct (Z.ltb_spec n 1); set (q := n) in * end; [left; reflexivity|].
  destruct (Z.to_nat q) eqn:Eq; [lia|left; reflexivity].
Qed.

Lemma route_shape (candidates : list upstreamSnapshot) (prios : list Z) : forall rt, (ur_seq rt = None -> ur_fallback rt = []) -> Forall (fun w => uws_seq w <> []) (route_levels rt) ->
  let rt' := fold_left add_level (map (of_priority candidates) prios) rt in
  (ur_seq rt' = None -> ur_fallback rt' = []) /\ Forall (fun w => uws_seq w <> []) (route_levels rt') /\
  forall i, i ∈ members (route_levels rt') <-> i ∈ members (route_levels rt) \/ (i ∈ candidates /\ priority i ∈ prios).
Proof.
  induction prios as [|p prios IH]; intros rt Hf Hn; [split; [exact Hf|]; split; [exact Hn|]; intros i; set_solver|].
  cbn [map fold_left]. destruct (add_level_levels rt (of_priority candidates p) Hf) as [Hf' El].
  assert (Forall (fun w => uws_seq w <> []) (route_levels (add_level rt (of_priority candidates p)))) as Hn'.
  { rewrite El. apply Forall_app. split; [exact Hn|]. destruct (newUpstreamWeightedSeq _); repeat constructor. discriminate. }
  destruct (IH _ Hf' Hn') as (H1 & H2 & H3). split; [exact H1|]. split; [exact H2|]. intros i. rewrite H3, El. unfold members. rewrite map_app, concat_app, elem_of_app, elem_of_cons.
  assert (i ∈ concat (map uws_seq (match newUpstreamWeightedSeq (of_priority candidates p) with [] => [] | seq => [mkUpSeq seq 0] end)) <-> i ∈ candidates /\ priority i = p) as ->; [|tauto].
  transitivity (i ∈ of_priority candidates p).
  - transitivity (i ∈ newUpstreamWeightedSeq (of_priority candidates p)); [|split; [apply newUpstreamWeightedSeq_subset|apply clamp_pos]].
    destruct (newUpstreamWeightedSeq _); [reflexivity|]. cbn [map concat uws_seq]. rewrite app_nil_r. reflexivity.
  - unfold of_priority. rewrite filter_elem, Z.eqb_eq. reflexivity.
Qed.

Lemma built_route_members (candidates : list upstreamSnapshot) : let rt := build_upstream_route candidates in
  (ur_seq rt = None -> ur_fallback rt = []) /\ Forall (fun w => uws_seq w <> []) (route_levels rt) /\ forall i, i ∈ members (route_levels rt) <-> i ∈ candidates.
Proof.
  destruct (route_shape candidates (priorities candidates) (mkUpRoute None []) (fun _ => eq_refl) (List.Forall_nil _)) as (H1 & H2 & H3).
  split; [exact H1|]. split; [exact H2|]. intros i. fold (build_upstream_route candidates) in H3. rewrite H3. split; [intros [H|[H _]]; [apply not_elem_of_nil in H; contradiction|exact H]|].
  intros H. right. split; [exact H|]. unfold priorities. rewrite merge_sort_Permutation, elem_of_remove_dups. apply list_elem_of_In, in_map_iff. exists i. split; [reflexivity|apply list_elem_of_In, H].
Qed.

(** No member in use has a read catalogue, and the group lists no models. *)
Definition legacy (pool : list upstreamSnapshot) (allowed : list string) : bool :=
  match allowed with [] => (upstreamModelIntersection pool).2 | _ => false end.

(** The match keys of the models the group routes. *)
Definition catalogue (pool : list upstreamSnapshot) (allowed : list string) : gset string :=
  match allowed with [] => (upstreamModelIntersection pool).1 | _ => match_keys allowed end.

(** The members of the pool that may answer a request. *)
Definition takers (pool : list upstreamSnapshot) (allowed : list string) (format model : string) : list upstreamSnapshot :=
  if legacy pool allowed then if format ==s FormatOpenAIChat then pool else []
  else if bool_decide (model ∈ catalogue pool allowed) && bool_decide (format ∈ upstream_formats) then upstreamCandidatesForModelFormat pool model format
  else [].

Lemma model_routes_lookup (pool : list upstreamSnapshot) (models : gset string) (f m : string) : model_routes pool models !! (f, m) =
  match (if bool_decide (m ∈ models) && bool_decide (f ∈ upstream_formats) then upstreamCandidatesForModelFormat pool m f else []) with
  | [] => None | c => Some (build_upstream_route c) end.
Proof.
  assert (forall f' m' rt, (f', m', rt) ∈ concat (map (fun model => omap (fun format => match upstreamCandidatesForModelFormat pool model format with
      | [] => None | candidates => Some ((format, model), build_upstream_route candidates) end) upstream_formats) (elements models)) <->
    m' ∈ models /\ f' ∈ upstream_formats /\ upstreamCandidatesForModelFormat pool m' f' <> [] /\ rt = build_upstream_route (upstreamCandidatesForModelFormat pool m' f')) as Hin.
  { intros f' m' rt. rewrite list_elem_of_In, in_concat. split.
    - intros (l & Hl & H). apply in_map_iff in Hl as (m0 & <- & Hm0). apply list_elem_of_In, list_elem_of_omap in H as (f0 & Hf0 & E).
      destruct (upstreamCandidatesForModelFormat pool m0 f0) as [|c cs] eqn:Ec; [discriminate|]. injection E as -> -> <-. rewrite Ec.
      split; [apply list_elem_of_In, elem_of_elements in Hm0; exact Hm0|]. split; [exact Hf0|]. split; [discriminate|reflexivity].
    - intros (Hm & Hf & Hne & ->). eexists. split; [apply in_map_iff; exists m'; split; [reflexivity|apply list_elem_of_In, elem_of_elements, Hm]|].
      apply list_elem_of_In, list_elem_of_omap. exists f'. split; [exact Hf|]. destruct (upstreamCandidatesForModelFormat pool m' f'); [contradiction|reflexivity]. }
  unfold model_routes. match goal with |- list_to_map ?l !! _ = _ => destruct (list_to_map l !! (f, m)) as [rt|] eqn:E end.
  - apply elem_of_list_to_map_2, Hin in E as (Hm & Hf & Hne & ->). rewrite !bool_decide_eq_true_2 by assumption. cbn [andb]. destruct (upstreamCandidatesForModelFormat pool m f); [contradiction|reflexivity].
  - apply not_elem_of_list_to_map_2 in E. case_bool_decide as Hm; [|reflexivity]. case_bool_decide as Hf; [|reflexivity]. cbn [andb].
    destruct (upstreamCandidatesForModelFormat pool m f) as [|c cs] eqn:Ec; [reflexivity|]. exfalso. apply E, list_elem_of_In, in_map_iff.
    exists ((f, m), build_upstream_route (c :: cs)). split; [reflexivity|]. apply list_elem_of_In, Hin. rewrite Ec. split_and!; auto.
Qed.

(** What the lookup of a request finds. *)
Lemma routes_lookup (pool : list upstreamSnapshot) (allowed : list string) (f m : string) : let routes := buildUpstreamRoutes pool allowed in
  match routes !! (f, m) with Some rt => Some rt | None => routes !! (f, "") end =
    match takers pool allowed f m with [] => None | c => Some (build_upstream_route c) end.
Proof.
  assert (forall models, model_routes pool models !! (f, "") = None) as Hd by (intros models; rewrite model_routes_lookup, no_candidates; destruct (_ && _); reflexivity).
  assert (forall models, match model_routes pool models !! (f, m) with Some rt => Some rt | None => model_routes pool models !! (f, "") end = model_routes pool models !! (f, m)) as Hm
    by (intros models; rewrite Hd; destruct (model_routes pool models !! (f, m)); reflexivity).
  unfold buildUpstreamRoutes, takers, legacy, catalogue. destruct allowed as [|a allowed]; [|cbv zeta; rewrite Hm; apply model_routes_lookup].
  destruct (upstreamModelIntersection pool) as [models [|]] eqn:Ei; cbn [fst snd]; [|cbv zeta; rewrite Hm; apply model_routes_lookup].
  assert (pool <> []) as Hp by (intros ->; discriminate Ei). cbv zeta. destruct (String.eqb_spec f FormatOpenAIChat) as [->|Hf].
  - destruct pool as [|i pool]; [contradiction|]. destruct (decide (m = "")) as [->|Hne].
    + rewrite lookup_singleton_eq. reflexivity.
    + rewrite lookup_singleton_ne by congruence. rewrite lookup_singleton_eq. reflexivity.
  - rewrite !lookup_singleton_ne by congruence. reflexivity.
Qed.

(** The routes are those of the pool, wherever the cursors stand. *)
Definition same_route (rt rt0 : upstreamRoute) : Prop := map uws_seq (route_levels rt) = map uws_seq (route_levels rt0) /\ isSome (ur_seq rt) = isSome (ur_seq rt0).

Definition built (pool : list upstreamSnapshot) (allowed : list string) (gs : upstreamGroup) : Prop := forall k,
  option_Forall2 same_route (ug_upstreamRoutes gs !! k) (buildUpstreamRoutes pool allowed !! k).

Definition cursors_ok (gs : upstreamGroup) : Prop :=
  forall k rt, ug_upstreamRoutes gs !! k = Some rt -> Forall cursor_ok (route_levels rt).

(** The levels of a route keep their members, whatever the cursors do. *)
Lemma scan_levels_seq (lost : upstreamSnapshot -> Z -> bool) (ok : upstreamSnapshot -> bool) (levels : list upstreamWeightedSeq) : forall levels' r,
  scan_levels lost ok levels = Some (levels', r) -> map uws_seq levels' = map uws_seq levels.
Proof.
  induction levels as [|w levels IH]; intros levels' r; cbn [scan_levels]; [intros [= <- <-]; reflexivity|].
  destruct (scan_members _ _ _ _ _) as [[c [item|]]|]; [intros [= <- <-]; reflexivity| |discriminate].
  destruct (scan_levels lost ok levels) as [[rest item]|]; [|discriminate]. intros [= <- <-]. cbn. f_equal. eapply IH. reflexivity.
Qed.

Lemma selectUpstream_routes (lost : upstreamSnapshot -> Z -> bool) (h h' : UpHeap) (gs gs' : upstreamGroup) (now : Time) (groupID : Z)
    (format model requestedModel : string) (excluded : list Z) (res : SelectionT + SelectError) :
  up_routes_ok (ug_upstreamRoutes gs) ->
  selectUpstream lost h gs now groupID format model requestedModel excluded = Some (h', gs', res) ->
  up_routes_ok (ug_upstreamRoutes gs').
Proof.
  intros Hok. unfold selectUpstream. set (k := upstream_route_key _ _ _).
  destruct (ug_upstreamRoutes gs !! k) as [rt|] eqn:Ert; [|intros [= <- <- <-]; exact Hok].
  destruct (ur_seq rt) as [[[|x xs] c]|] eqn:Eseq; [intros [= <- <- <-]; exact Hok| |intros [= <- <- <-]; exact Hok].
  destruct (scan_levels _ _ _) as [[levels r]|] eqn:El; [|discriminate]. pose proof (scan_levels_seq _ _ _ _ _ El) as Hm.
  assert (up_routes_ok (<[k := with_levels rt levels]> (ug_upstreamRoutes gs))) as Hok'.
  { apply up_routes_ok_insert; [exact Hok|]. destruct k as [f m]. destruct (Hok f m rt Ert) as [ps Hps]. exists ps.
    rewrite with_levels_levels by (exact Hm || rewrite Eseq; reflexivity). eapply levels_ok_seq; eassumption. }
  destruct r; intros [= <- <- <-]; exact Hok'.
Qed.

Lemma scan_members_taken (lost : upstreamSnapshot -> Z -> bool) (ok : upstreamSnapshot -> bool) (seq : list upstreamSnapshot) (k : nat) : forall c c' x,
  scan_members lost ok k seq c = Some (c', Some x) -> x ∈ seq /\ ok x = true.
Proof.
  induction k as [|k IH]; intros c c' x; cbn [scan_members]; [discriminate|]. destruct (_ <? 0); [discriminate|]. destruct (seq !! _) as [x0|] eqn:El; [|discriminate].
  destruct (ok x0 && _) eqn:E; [|apply IH]. intros [= _ <-]. apply andb_prop in E as [E _]. split; [eapply list_elem_of_lookup_2, El|exact E].
Qed.

Lemma scan_levels_taken (lost : upstreamSnapshot -> Z -> bool) (ok : upstreamSnapshot -> bool) (levels : list upstreamWeightedSeq) : forall levels' item,
  scan_levels lost ok levels = Some (levels', Some item) -> item ∈ members levels /\ ok item = true.
Proof.
  induction levels as [|w levels IH]; intros levels' item; cbn [scan_levels]; [discriminate|].
  destruct (scan_members _ _ _ _ _) as [[c [x|]]|] eqn:Es; [| |discriminate].
  - intros [= _ <-]. destruct (scan_members_taken _ _ _ _ _ _ _ Es) as [Hin Hok]. split; [apply members_cons; auto|exact Hok].
  - destruct (scan_levels lost ok levels) as [[rest r]|]; [|discriminate]. intros [= _ ->].
    destruct (IH rest item eq_refl) as [Hin Hok]. split; [apply members_cons; auto|exact Hok].
Qed.

(** The route of a request, found in the routes of its pool. *)
Lemma key_choice (routes : gmap routeKey upstreamRoute) (f m : string) : routes !! (if isSome (routes !! ((f, m) : routeKey)) then (f, m) else (f, "")) =
  match routes !! ((f, m) : routeKey) with Some rt => Some rt | None => routes !! ((f, "") : routeKey) end.
Proof. destruct (routes !! ((f, m) : routeKey)) eqn:E; [exact E|reflexivity]. Qed.

Lemma option_choice {A B : Type} (R : A -> B -> Prop) (a a' : option A) (b b' : option B) : option_Forall2 R a b -> option_Forall2 R a' b' ->
  option_Forall2 R (match a with Some x => Some x | None => a' end) (match b with Some x => Some x | None => b' end).
Proof. intros [x y H|] H'; [constructor; exact H|exact H']. Qed.

Lemma built_route (pool : list upstreamSnapshot) (allowed : list string) (gs : upstreamGroup) (f m : string) : built pool allowed gs ->
  option_Forall2 same_route (ug_upstreamRoutes gs !! upstream_route_key gs f m)
    (match takers pool allowed f m with [] => None | c => Some (build_upstream_route c) end).
Proof.
  intros Hb. rewrite <- routes_lookup. unfold upstream_route_key. rewrite key_choice. exact (option_choice _ _ _ _ _ (Hb (f, m)) (Hb (f, ""))).
Qed.

Lemma built_set (pool : list upstreamSnapshot) (allowed : list string) (gs : upstreamGroup) (k : routeKey) (rt : upstreamRoute) (levels : list upstreamWeightedSeq) :
  built pool allowed gs -> ug_upstreamRoutes gs !! k = Some rt -> isSome (ur_seq rt) = true -> map uws_seq levels = map uws_seq (route_levels rt) ->
  built pool allowed (set_upstream_route gs k (with_levels rt levels)).
Proof.
  intros Hb E Hs Hm k'. cbn [set_upstream_route ug_upstreamRoutes]. destruct (decide (k' = k)) as [->|Hne]; [|rewrite lookup_insert_ne by congruence; apply Hb].
  rewrite lookup_insert_eq. pose proof (Hb k) as H. rewrite E in H. inversion H as [? rt0 [H1 H2] E1 E2|]; subst. constructor. split.
  - rewrite with_levels_levels by assumption. congruence.
  - rewrite <- H2. unfold with_levels. destruct (ur_seq rt) as [w|] eqn:Ew; [|discriminate]. destruct levels; [|reflexivity].
    unfold route_levels in Hm. rewrite Ew in Hm. discriminate.
Qed.

Lemma takers_serve (pool : list upstreamSnapshot) (allowed : list string) (f m : string) (i : upstreamSnapshot) (u : Upstream) :
  i ∈ takers pool allowed f m -> member_enabled i = true -> up_upstream i = Some u ->
  upstreamSupportsModelFormat u m f = true \/ (f = FormatOpenAIChat /\ us_ModelsCheckedAt u = None).
Proof.
  unfold takers, legacy. destruct allowed as [|a allowed].
  - destruct (upstreamModelIntersection pool) as [models [|]] eqn:Ei; cbn [snd].
    + destruct (String.eqb_spec f FormatOpenAIChat) as [->|]; [|intros H; apply not_elem_of_nil in H; contradiction].
      intros Hi He Hu. right. split; [reflexivity|exact (legacy_unread pool models i u Ei Hi He Hu)].
    + destruct (_ && _); [|intros H; apply not_elem_of_nil in H; contradiction]. intros [_ H]%filter_elem _ Hu. rewrite Hu in H. apply andb_prop in H as [_ H]. auto.
  - destruct (_ && _); [|intros H; apply not_elem_of_nil in H; contradiction]. intros [_ H]%filter_elem _ Hu. rewrite Hu in H. apply andb_prop in H as [_ H]. auto.
Qed.

Lemma enabled_upstream (h : UpHeap) (now : Time) (excluded : list Z) (i : upstreamSnapshot) : member_ok h now excluded i = true ->
  member_enabled i = true /\ exists u, up_upstream i = Some u.
Proof.
  unfold member_ok. destruct (member_enabled i) eqn:E; [|discriminate]. intros _. split; [reflexivity|]. unfold member_enabled in E. destruct (up_upstream i); [eauto|discriminate].
Qed.


(** Whatever is selected may be used, wherever the cursors stand. *)
Lemma selectUpstream_taken (lost : upstreamSnapshot -> Z -> bool) (h h' : UpHeap) (gs gs' : upstreamGroup) (now : Time) (groupID : Z)
    (format model requestedModel : string) (excluded : list Z) (sel : SelectionT) :
  up_routes_ok (ug_upstreamRoutes gs) ->
  selectUpstream lost h gs now groupID format model requestedModel excluded = Some (h', gs', inl sel) ->
  exists item, sel = upstream_selection item groupID format (canonicalModelID model) requestedModel /\
    member_ok h now excluded item = true /\
    (serves_model format (canonicalModelID model) item \/ serves_model format "" item) /\
    h' = set_conc h (up_concurrency item) (conc_of h item [+] 1).
Proof.
  intros Hok. unfold selectUpstream. set (m := canonicalModelID model). set (k := upstream_route_key gs format m).
  assert (exists mk, k = (format, mk) /\ (mk = m \/ mk = "")) as (mk & Ek & Hmk)
    by (unfold k, upstream_route_key; destruct (isSome _); eauto).
  destruct (ug_upstreamRoutes gs !! k) as [rt|] eqn:Ert; [|discriminate].
  destruct (ur_seq rt) as [[[|x xs] c]|] eqn:Eseq; [discriminate| |discriminate].
  destruct (scan_levels _ _ _) as [[levels [item|]]|] eqn:El; [|discriminate..]. intros [= <- _ <-].
  destruct (scan_levels_taken _ _ _ _ _ El) as [Hin Hi]. exists item. split; [reflexivity|]. split; [exact Hi|].
  split; [|reflexivity]. rewrite Ek in Ert. destruct (Hok format mk rt Ert) as [ps Hps].
  destruct (levels_ok_members _ _ _ Hps item Hin) as [_ Hs]. destruct Hmk as [->| ->]; auto.
Qed.

Lemma built_here (pool : list upstreamSnapshot) (allowed : list string) (aliases : gmap modelAliasKey string) :
  built pool allowed (mkUpGroup pool (buildUpstreamRoutes pool allowed) aliases).
Proof. intros k. cbn [ug_upstreamRoutes]. destruct (buildUpstreamRoutes pool allowed !! k); constructor. split; reflexivity. Qed.


(** ** The breaker *)

Lemma statePtr_set (h : UpHeap) (u : upstreamSnapshot) (st : upstreamState) : statePtr (set_upstate h (up_state u) st) u = st.
Proof. unfold statePtr, set_upstate. cbn. rewrite lookup_insert_eq. reflexivity. Qed.

Lemma late_success (h : UpHeap) (item : upstreamSnapshot) (errMsg : string) (t : Time) :
  up_cooling (statePtr h item) t = true -> mark_upstream_result h item KindOK None errMsg t = (h, None).
Proof. intros H. unfold mark_upstream_result, breaker_next. cbn. rewrite H. reflexivity. Qed.

Definition fails (kind : Kind) : bool := (kind =? Kind429) || (kind =? Kind5xx) || (kind =? KindNetwork).

Lemma breaker_next_fails (kind : Kind) (resetAt : option Time) (errMsg : string) (now : Time) (st : upstreamState) :
  fails kind = true -> 0 <= ust_failureStreak st < two32 - 1 ->
  exists until, breaker_next kind resetAt errMsg now st =
      Some (mkUpState (Some until) (ust_failureStreak st + 1) (TruncateErrMsg errMsg)) /\
    now < until <= now + retry429Max.
Proof.
  intros Hk Hs. unfold two32 in Hs. unfold breaker_next, retryable.
  assert (ust_failureStreak st [+] 1 = ust_failureStreak st + 1) as E by (apply add64_small; unfold_int; lia). rewrite E.
  destruct (Z.ltb_spec (ust_failureStreak st + 1) 1); [lia|].
  assert (wrapu32 (ust_failureStreak st + 1) = ust_failureStreak st + 1) as Ew
    by (unfold wrapu32, two32; apply Z.mod_small; lia). rewrite Ew.
  unfold fails in Hk. unfold Kind429, Kind5xx, KindNetwork, KindOK in *.
  destruct (Z.eqb_spec kind 0) as [->|]; [discriminate|]. cbn [orb]. rewrite Hk. cbn [negb]. eexists. split; [reflexivity|].
  destruct (kind =? 1).
  - pose proof (retry_deadline_range now (ust_failureStreak st + 1) resetAt ltac:(lia)). lia.
  - unfold retry429Max, minute, second. lia.
Qed.

(** A failure opens the breaker and late successes do not close it.  A 429,
    5xx or network failure of a member counts it in the streak and starts a
    cooldown that ends after now and within ten minutes; however many requests
    that started earlier succeed before then, the member is not selected until
    the cooldown has passed; the first success after it resets the breaker. *)
Theorem breaker_holds (h : UpHeap) (item : upstreamSnapshot) (kind : Kind) (resetAt : option Time) (errMsg : string)
    (now : Time) (late : list Time) :
  fails kind = true -> 0 <= ust_failureStreak (statePtr h item) < two32 - 1 ->
  let h1 := (mark_upstream_result h item kind resetAt errMsg now).1 in
  exists until, ust_cooldownUntil (statePtr h1 item) = Some until /\ now < until <= now + retry429Max /\
    ust_failureStreak (statePtr h1 item) = ust_failureStreak (statePtr h item) + 1 /\
    (Forall (fun t => t <= until) late ->
     let h2 := fold_left (fun h t => (mark_upstream_result h item KindOK None "" t).1) late h1 in
     (forall t excluded, t <= until -> member_ok h2 t excluded item = false) /\
     forall t, until < t -> statePtr (mark_upstream_result h2 item KindOK None "" t).1 item = zero_state).
Proof.
  intros Hk Hs h1. destruct (breaker_next_fails kind resetAt errMsg now (statePtr h item) Hk Hs) as (until & E & Hu).
  assert (statePtr h1 item = mkUpState (Some until) (ust_failureStreak (statePtr h item) + 1) (TruncateErrMsg errMsg)) as Est.
  { unfold h1, mark_upstream_result. rewrite E. apply statePtr_set. }
  exists until. rewrite Est. split_and!; [reflexivity|lia|lia|reflexivity|].
  intros Hlate. assert (fold_left (fun h t => (mark_upstream_result h item KindOK None "" t).1) late h1 = h1) as ->.
  { induction Hlate as [|t late Ht Hlate IH]; [reflexivity|]. cbn [fold_left]. rewrite late_success; [exact IH|].
    rewrite Est. unfold up_cooling, Before. cbn. destruct (Z.ltb_spec until t); [lia|reflexivity]. }
  split; intros t.
  - intros excluded Ht. unfold member_ok. destruct (_ || _); [reflexivity|]. rewrite Est. unfold up_cooling, Before. cbn [ust_cooldownUntil].
    destruct (Z.ltb_spec until t); [lia|reflexivity].
  - intros Ht. unfold mark_upstream_result, breaker_next. cbn. rewrite Est. unfold up_cooling, Before. cbn [ust_cooldownUntil].
    destruct (Z.ltb_spec until t); [|lia]. cbn. apply statePtr_set.
Qed.

Lemma breaker_holds_witness :
  let item := demo_snapshot 1 1 0 5 ["m"] 0%nat in let h := mkUpHeap ∅ ∅ 1%nat in
  let h1 := (mark_upstream_result h item Kind429 (Some (60 * second)) "slow down" second).1 in
  ust_cooldownUntil (statePtr h1 item) = Some (60 * second) /\
  member_ok (mark_upstream_result h1 item KindOK None "" (2 * second)).1 (60 * second) [] item = false.
Proof.
  intros item h h1.
  destruct (breaker_holds h item Kind429 (Some (60 * second)) "slow down" second [2 * second])
    as (until & Eu & _ & _ & H); [reflexivity|split; [vm_compute; discriminate|vm_compute; reflexivity]|].
  assert (Some until = Some (60 * second)) as [= ->] by (rewrite <- Eu; reflexivity). split; [reflexivity|].
  destruct H as [H _]; [repeat constructor; vm_compute; discriminate|]. apply (H (60 * second) []). lia.
Defined.

(** A later failure of another kind does overwrite a longer cooldown: after a
    429 whose deadline is ten minutes away, a 5xx of a request that was still in
    flight leaves two seconds. *)
Theorem failure_shortens_cooldown :
  let item := demo_snapshot 1 1 0 5 ["m"] 0%nat in let h := mkUpHeap ∅ ∅ 1%nat in
  let h1 := (mark_upstream_result h item Kind429 (Some (600 * second)) "" 0).1 in
  let h2 := (mark_upstream_result h1 item Kind5xx None "" second).1 in
  ust_cooldownUntil (statePtr h1 item) = Some (600 * second) /\ ust_cooldownUntil (statePtr h2 item) = Some (3 * second) /\
  member_ok h2 (4 * second) [] item = true.
Proof. vm_compute. auto. Qed.
