(* ===== verification/Endpoints.v ===== *)
(** * Endpoints and keys ([internal/scheduler]: upstream_pool.go, scheduler.go)

    The normal forms of a stored upstream endpoint and key, and the static view
    of an account that an optional upstream binding produces.  URLs are parsed
    and printed by [net/url]; its operations are the fields of [UrlLib]. *)

From Stdlib Require Import ZArith Lia List Bool Ascii String.
From stdpp Require Import base option list gmap strings.
From S2P Require Import Prelude GoString Domain SchedTypes ModelNames.
Import ListNotations.
Local Open Scope string_scope.
Local Open Scope Z_scope.

(** ** Endpoints *)

Class UrlLib := {
  URL : Type;
  url_Parse : string -> option URL;
  url_Scheme : URL -> string;
  url_Host : URL -> string;
  url_Path : URL -> string;
  (** Assigns [Path] and clears [RawPath]. *)
  url_with_Path : URL -> string -> URL;
  url_String : URL -> string
}.

Definition is_slash (c : ascii) : bool := byte_val c =? 47.

Definition HasSuffix (s p : string) : bool :=
  (String.length p <=? String.length s)%nat &&
  (substring (String.length s - String.length p) (String.length p) s ==s p).

Section Endpoint.
Context {U : UrlLib}.

Definition normalizeUpstreamEndpoint (base : string) : string :=
  let base := trim_right is_slash (TrimSpace base) in
  match url_Parse base with
  | None => base
  | Some parsed =>
      if url_Path parsed ==s "" then base
      else
        let path := trim_right is_slash (url_Path parsed) in
        let lower := ToLower path in
        if (lower ==s "/v1") || HasSuffix lower "/v1" then
          let path := substring 0 (String.length path - 3) path in
          let path := if path ==s "/" then "" else path in
          trim_right is_slash (url_String (url_with_Path parsed path))
        else trim_right is_slash base
  end.

Definition sanitizedUpstreamHost (base : string) : string :=
  match url_Parse (TrimSpace base) with
  | None => ""
  | Some parsed => if (url_Scheme parsed ==s "") || (url_Host parsed ==s "") then "" else url_Host parsed
  end.
End Endpoint.

(** ** Keys *)

(** [strings.Fields]. *)
Definition Fields (s : string) : list string := FieldsFunc is_space "" s.

(** The loop strips a copied [Bearer] scheme, as often as it was pasted; every
    turn shortens the value. *)
Fixpoint strip_bearer (fuel : nat) (value : string) : string :=
  match fuel with
  | O => value
  | S fuel =>
      if value ==s "" then value
      else
        match Fields value with
        | scheme :: _ :: _ =>
            if ToLower scheme ==s "bearer"
            then strip_bearer fuel (TrimSpace (substring (String.length scheme) (String.length value - String.length scheme) value))
            else value
        | _ => value
        end
  end.

Definition normalizeUpstreamKey (key : option string) : string :=
  match key with
  | None => ""
  | Some k => let value := TrimSpace k in strip_bearer (S (String.length value)) value
  end.

Example key_examples :
  normalizeUpstreamKey (Some "  Bearer  bearer sk-1 ") = "sk-1" /\ normalizeUpstreamKey (Some "Bearer") = "Bearer" /\
  normalizeUpstreamKey (Some "sk 1") = "sk 1".
Proof. vm_compute. auto. Qed.

(** ** The static view of an account *)

Section Static.
Context {U : UrlLib}.

Definition with_binding (c : Account) (baseURL : option string) (key : string) : Account :=
  mkAccount (acc_ID c) (acc_TemplateID c) (acc_Template c) baseURL (acc_UpstreamID c) (acc_Upstream c) key
    (acc_Status c) (acc_CooldownUntil c) (acc_Weight c) (acc_MaxConcurrency c).

(** [effectiveStatic]; the caller has checked that the template is there. *)
Definition effectiveStatic (a : Account) (tpl : Template) (gid : Z) : snapshotStatic :=
  let view enabled := mkStatic a tpl gid [gid] enabled 0 "" "" 0 in
  match acc_UpstreamID a with
  | None => view true
  | Some _ =>
      match acc_Upstream a with
      | None => view false
      | Some u =>
          if isSome (us_DeletedAt u) || negb (us_Enabled u) then view false
          else
            let baseURL := normalizeUpstreamEndpoint (us_BaseURL u) in
            if baseURL ==s "" then view false
            else
              let key := if (TrimSpace (acc_UpstreamKey a) ==s "") && isSome (us_Key u)
                         then normalizeUpstreamKey (us_Key u) else acc_UpstreamKey a in
              mkStatic (with_binding a (Some baseURL) key) tpl gid [gid] true (us_ID u) (us_Name u)
                (sanitizedUpstreamHost baseURL) (us_MultiplierBP u)
      end
  end.
End Static.

(** ** Keys are stripped to the end *)

Lemma length_trim_left (p : ascii -> bool) (s : string) : (String.length (trim_left p s) <= String.length s)%nat.
Proof. induction s as [|c s IH]; cbn; [lia|]. destruct (p c); cbn; lia. Qed.

Lemma length_trim_right (p : ascii -> bool) (s : string) : (String.length (trim_right p s) <= String.length s)%nat.
Proof. induction s as [|c s IH]; cbn; [lia|]. destruct (trim_right p s) as [|c' t]; [destruct (p c); cbn; lia|cbn in *; lia]. Qed.

Lemma length_TrimSpace (s : string) : (String.length (TrimSpace s) <= String.length s)%nat.
Proof. unfold TrimSpace, trim_by. etransitivity; [apply length_trim_right|apply length_trim_left]. Qed.

Lemma length_substring (s : string) : forall n m, (String.length (substring n m s) <= m)%nat.
Proof.
  induction s as [|c s IH]; intros [|n] [|m]; cbn; try lia.
  - specialize (IH 0%nat m). lia.
  - apply (IH n 0%nat).
  - apply (IH n (S m)).
Qed.

Lemma trim_left_right (p : ascii -> bool) (s : string) : trim_left p (trim_right p (trim_left p s)) = trim_right p (trim_left p s).
Proof.
  induction s as [|c s IH]; [reflexivity|]. cbn [trim_left]. destruct (p c) eqn:E; [exact IH|].
  cbn [trim_right]. destruct (trim_right p s) as [|c' t]; [rewrite E|]; cbn [trim_left]; rewrite E; reflexivity.
Qed.

Lemma trim_right_idem (p : ascii -> bool) (s : string) : trim_right p (trim_right p s) = trim_right p s.
Proof.
  induction s as [|c s IH]; [reflexivity|]. cbn [trim_right]. destruct (trim_right p s) as [|c' t] eqn:E.
  - destruct (p c) eqn:Ep; [reflexivity|]. cbn. rewrite Ep. reflexivity.
  - cbn [trim_right] in *. rewrite IH. reflexivity.
Qed.

Lemma TrimSpace_idem (s : string) : TrimSpace (TrimSpace s) = TrimSpace s.
Proof. unfold TrimSpace, trim_by. rewrite trim_left_right. apply trim_right_idem. Qed.

(** Nothing is left to strip. *)
Definition stripped (v : string) : Prop :=
  TrimSpace v = v /\ forall scheme x rest, Fields v = scheme :: x :: rest -> ToLower scheme <> "bearer".

Lemma strip_bearer_stripped (fuel : nat) : forall v, TrimSpace v = v -> (String.length v < fuel)%nat ->
  stripped (strip_bearer fuel v).
Proof.
  induction fuel as [|fuel IH]; intros v Ht Hf; [lia|]. cbn [strip_bearer].
  destruct (String.eqb_spec v "") as [->|Hne]; [split; [exact Ht|discriminate]|].
  destruct (Fields v) as [|scheme [|x rest]] eqn:Ef.
  - split; [exact Ht|congruence].
  - split; [exact Ht|congruence].
  - destruct (String.eqb_spec (ToLower scheme) "bearer") as [Eb|Eb]; [|split; [exact Ht|congruence]].
    apply IH; [apply TrimSpace_idem|].
    assert (0 < String.length scheme)%nat by (destruct scheme; [discriminate|cbn; lia]).
    assert (0 < String.length v)%nat by (destruct v; [congruence|cbn; lia]).
    pose proof (length_TrimSpace (substring (String.length scheme) (String.length v - String.length scheme) v)).
    pose proof (length_substring v (String.length scheme) (String.length v - String.length scheme)). lia.
Qed.

Lemma strip_bearer_fixed (v : string) : stripped v -> forall fuel, strip_bearer fuel v = v.
Proof.
  intros [_ H] [|fuel]; [reflexivity|]. cbn. destruct (v ==s ""); [reflexivity|].
  destruct (Fields v) as [|scheme [|x rest]] eqn:Ef; [reflexivity..|].
  destruct (String.eqb_spec (ToLower scheme) "bearer") as [Eb|_]; [exfalso; eapply H; eauto|reflexivity].
Qed.

(** A key's normal form is one: it has no surrounding space and no
    [Bearer] scheme left in front, however often it was pasted, and normalising
    it again changes nothing. *)
Theorem key_normal_form (key : option string) :
  let v := normalizeUpstreamKey key in
  TrimSpace v = v /\ (forall scheme x rest, Fields v = scheme :: x :: rest -> ToLower scheme <> "bearer") /\
  normalizeUpstreamKey (Some v) = v.
Proof.
  intros v. assert (stripped v) as Hs.
  { unfold v, normalizeUpstreamKey. destruct key as [k|]; [|split; [reflexivity|discriminate]].
    apply strip_bearer_stripped; [apply TrimSpace_idem|lia]. }
  destruct Hs as [Ht Hf]. split; [exact Ht|]. split; [exact Hf|].
  unfold normalizeUpstreamKey. rewrite Ht. apply strip_bearer_fixed. split; assumption.
Qed.
