(* ===== verification/Snapshots.v ===== *)
(** * Snapshot generations ([internal/scheduler]: scheduler.go, upstream_pool.go, state.go)

    How the scheduler's in-memory view is rebuilt: [buildSnapshots] reuses the
    instance of every account it already knows, so that counters and cooldowns
    live on and requests in flight release the counter they took;
    [buildUpstreamSnapshots] does the same for upstream members through shared
    cells; [reload] and [InvalidateGroup] publish a generation.  Instances are
    locations of the account heap.  The iteration order of a Go map is the order
    of the list that stands for it. *)

From Stdlib Require Import ZArith Lia List Bool String.
From stdpp Require Import base option list gmap strings sorting relations.
From S2P Require Import Prelude GoString Domain GoTime RuleTypes SchedTypes WeightedSeq Routes ModelNames AccountState Selection UpstreamPool Endpoints.
Import ListNotations.
Local Open Scope string_scope.
Local Open Scope Z_scope.

(** [slices.Sort] on strings: bytewise. *)
Definition str_le (a b : string) : Prop := String.leb a b = true.
#[global] Instance str_le_dec (a b : string) : Decision (str_le a b) := decide (String.leb a b = true).
Definition sort_strings (l : list string) : list string := merge_sort str_le l.

(** ** A generation *)

Record groupSnapshot := mkGroupSnap {
  gs_accounts : list Loc;
  gs_routes : gmap routeKey route;
  gs_routingMode : GroupRoutingMode;
  gs_allowedModels : list string;
  gs_upstreams : list upstreamSnapshot;
  gs_upstreamRoutes : gmap routeKey upstreamRoute;
  gs_modelAliases : gmap modelAliasKey string
}.

Definition empty_group : groupSnapshot := mkGroupSnap [] ∅ "" [] [] ∅ ∅.

Definition account_view (gs : groupSnapshot) : accountGroup := mkGroup (gs_accounts gs) (gs_routes gs) (gs_modelAliases gs).
Definition upstream_view (gs : groupSnapshot) : upstreamGroup :=
  mkUpGroup (gs_upstreams gs) (gs_upstreamRoutes gs) (gs_modelAliases gs).

Definition aliases_of (routes : gmap routeKey route) (upstreamRoutes : gmap routeKey upstreamRoute) : gmap modelAliasKey string :=
  buildModelAliases (map fst (map_to_list routes)) (map fst (map_to_list upstreamRoutes)).

(** Accounts and upstream cells in memory, with the published maps. *)
Record Store := mkStore {
  sr_heap : gmap nat accountSnapshot;
  sr_next : Loc;
  sr_up : UpHeap;
  sr_groups : gmap Z groupSnapshot;
  sr_byID : gmap Z Loc;
  sr_upstreams : gmap Z upstreamSnapshot
}.

Section Build.
Context {U : UrlLib}.
Variable shuffle : list Loc -> list Loc.

(** ** Accounts *)

Record Build := mkBuild { b_heap : gmap nat accountSnapshot; b_next : Loc; b_byID : gmap Z Loc }.

(** A row that can be routed. *)
Definition live (o : option Account) : option (Account * Template) :=
  match o with
  | Some a => match acc_Template a with Some t => if isSome (tp_DeletedAt t) then None else Some (a, t) | None => None end
  | None => None
  end.

Definition with_limit (av : snapshotStatic) (limit : Z) : snapshotStatic :=
  let c := ss_acc av in
  mkStatic (mkAccount (acc_ID c) (acc_TemplateID c) (acc_Template c) (acc_BaseURL c) (acc_UpstreamID c)
      (acc_Upstream c) (acc_UpstreamKey c) (acc_Status c) (acc_CooldownUntil c) (acc_Weight c) limit)
    (ss_tpl av) (ss_gid av) (ss_groupIDs av) (ss_upstreamEnabled av) (ss_upstreamID av) (ss_upstreamName av)
    (ss_upstreamHost av) (ss_upstreamMultiplierBP av).

Definition with_groupIDs (av : snapshotStatic) (ids : list Z) : snapshotStatic :=
  mkStatic (ss_acc av) (ss_tpl av) (ss_gid av) ids (ss_upstreamEnabled av) (ss_upstreamID av) (ss_upstreamName av)
    (ss_upstreamHost av) (ss_upstreamMultiplierBP av).

Definition fresh_static (defaultMax : Z) (a : Account) (t : Template) (gid : Z) : snapshotStatic :=
  let av := effectiveStatic a t gid in
  if acc_MaxConcurrency a <=? 0 then with_limit av defaultMax else av.

(** The state of a reused instance: the row's status; the row's cooldown when it
    has one, the one in memory otherwise. *)
Definition sync_state (a : Account) (cur : accState) : accState :=
  mkAccState (acc_Status a) (match acc_CooldownUntil a with Some c => Some c | None => st_cooldownUntil cur end)
    (st_errCount cur) (st_lastError cur) (st_lastUsedAt cur).

Definition set_groupIDs (s : accountSnapshot) (ids : list Z) : accountSnapshot :=
  set_static s (with_groupIDs (as_static s) ids).

(** One row of one group. *)
Definition place (defaultMax : Z) (oldByID : gmap Z Loc) (gid : Z) (b : Build) (p : Account * Template) : Build * Loc :=
  let '(a, t) := p in
  match b_byID b !! acc_ID a with
  | None =>
      let av := fresh_static defaultMax a t gid in
      match oldByID !! acc_ID a with
      | Some l =>
          (mkBuild (alter (fun old => set_state (set_static old av) (sync_state a (as_state old))) l (b_heap b))
             (b_next b) (<[acc_ID a := l]> (b_byID b)), l)
      | None =>
          let l := b_next b in
          (mkBuild (<[l := mkSnapshot av 0 0 0 (mkAccState (acc_Status a) (acc_CooldownUntil a) 0 None None)]> (b_heap b))
             (S l) (<[acc_ID a := l]> (b_byID b)), l)
      end
  | Some l =>
      (mkBuild (alter (fun s => set_groupIDs s (ss_groupIDs (as_static s) ++ [gid])%list) l (b_heap b))
         (b_next b) (b_byID b), l)
  end.

Fixpoint place_all (defaultMax : Z) (oldByID : gmap Z Loc) (gid : Z) (b : Build) (accs : list (option Account))
    : Build * list Loc :=
  match accs with
  | [] => (b, [])
  | o :: rest =>
      match live o with
      | None => place_all defaultMax oldByID gid b rest
      | Some p =>
          let '(b, l) := place defaultMax oldByID gid b p in
          let '(b, ls) := place_all defaultMax oldByID gid b rest in (b, l :: ls)
      end
  end.

Definition group_of (heap : gmap nat accountSnapshot) (accounts : list Loc) : groupSnapshot :=
  let routes := buildRoutes shuffle heap accounts in
  mkGroupSnap accounts routes "" [] [] ∅ (aliases_of routes ∅).

Fixpoint build_groups (defaultMax : Z) (oldByID : gmap Z Loc) (b : Build) (m : list (Z * list (option Account)))
    : Build * gmap Z groupSnapshot :=
  match m with
  | [] => (b, ∅)
  | (gid, accs) :: rest =>
      let '(b1, ls) := place_all defaultMax oldByID gid b accs in
      let '(b2, groups) := build_groups defaultMax oldByID b1 rest in
      (b2, <[gid := group_of (b_heap b1) ls]> groups)
  end.

Definition buildSnapshots (heap : gmap nat accountSnapshot) (next : Loc) (m : list (Z * list (option Account)))
    (defaultMax : Z) (oldByID : gmap Z Loc) : Build * gmap Z groupSnapshot :=
  build_groups defaultMax oldByID (mkBuild heap next ∅) m.

(** ** Upstream members *)

Definition upstreamStateFromMember (member : GroupUpstream) (current : option upstreamState) : upstreamState :=
  let cur := default zero_state current in
  let streak := if ust_failureStreak cur <? 0 then 0 else ust_failureStreak cur in
  let streak := if streak <? gu_FailureStreak member then gu_FailureStreak member else streak in
  match gu_CooldownUntil member with
  | Some c => mkUpState (Some c) streak (match gu_LastError member with Some e => TruncateErrMsg e | None => ust_lastError cur end)
  | None => mkUpState (ust_cooldownUntil cur) streak (ust_lastError cur)
  end.


(** The first spelling seen of a model wins. *)
Definition note_model (ids : gmap string string) (raw : string) : gmap string string :=
  let id := canonicalModelID raw in
  if id ==s "" then ids
  else match ids !! modelMatchKey id with Some _ => ids | None => <[modelMatchKey id := TrimSpace raw]> ids end.

Definition note_format (raw : string) (ids : gmap modelFormatKey string) (format : RequestFormat) : gmap modelFormatKey string :=
  let k := (modelMatchKey (canonicalModelID raw), format) in
  match ids !! k with Some _ => ids | None => <[k := TrimSpace raw]> ids end.

Definition note_formats (formats : gmap string (list RequestFormat)) (ids : gmap modelFormatKey string) (raw : string)
    : gmap modelFormatKey string :=
  if canonicalModelID raw ==s "" then ids else fold_left (note_format raw) (default [] (formats !! raw)) ids.

(** The names of an upstream: raw spellings by match key, and by match key and
    format. *)
Definition model_index (u : Upstream) : gmap string string * gmap modelFormatKey string :=
  let formatModels := sort_strings (map fst (map_to_list (us_ModelFormats u))) in
  (fold_left note_model formatModels (fold_left note_model (sort_strings (us_Models u)) ∅),
   fold_left (note_formats (us_ModelFormats u)) formatModels ∅).

Definition same_connection (old : upstreamSnapshot) (member : GroupUpstream) (endpoint key : string) : bool :=
  (gu_GroupID (up_member old) =? gu_GroupID member) && (gu_UpstreamID (up_member old) =? gu_UpstreamID member) &&
  (up_endpoint old ==s endpoint) && (up_key old ==s key).

Definition newUpstreamSnapshot (h : UpHeap) (member : GroupUpstream) (old : option upstreamSnapshot)
    : UpHeap * upstreamSnapshot :=
  let ids := match gu_Upstream member with Some u => model_index u | None => (∅, ∅) end in
  let endpoint := match gu_Upstream member with Some u => normalizeUpstreamEndpoint (us_BaseURL u) | None => "" end in
  let host := match gu_Upstream member with Some _ => sanitizedUpstreamHost endpoint | None => "" end in
  let key := match gu_Upstream member with Some u => normalizeUpstreamKey (us_Key u) | None => "" end in
  let snap := mkUpSnap member (gu_Upstream member) endpoint host key ids.1 ids.2 in
  let cell := uh_next h in
  let alloc st := (mkUpHeap (<[cell := 0]> (uh_conc h)) (<[cell := st]> (uh_state h)) (S cell), snap cell cell) in
  match old with
  | Some o =>
      if same_connection o member endpoint key
      then (set_upstate h (up_state o) (upstreamStateFromMember member (uh_state h !! up_state o)),
            snap (up_concurrency o) (up_state o))
      else alloc zero_state
  | None => alloc (upstreamStateFromMember member None)
  end.

(** The members of a group that are routed. *)
Definition routable (o : option GroupUpstream) : option GroupUpstream :=
  match o with
  | Some member =>
      if gu_ID member <=? 0 then None
      else
        match gu_Upstream member with
        | None => None
        | Some u =>
            if isSome (us_DeletedAt u) || negb (us_Enabled u) || negb (gu_Enabled member) || (TrimSpace (us_BaseURL u) ==s "")
            then None else Some member
        end
  | None => None
  end.

(** [oldByScope]: by group and upstream, whichever relation row it was. *)
Definition scope_index (old : gmap Z upstreamSnapshot) : gmap (Z * Z) upstreamSnapshot :=
  fold_left (fun ix p => <[(gu_GroupID (up_member p.2), gu_UpstreamID (up_member p.2)) := p.2]> ix) (map_to_list old) ∅.

Definition previous_of (old : gmap Z upstreamSnapshot) (member : GroupUpstream) : option upstreamSnapshot :=
  match old !! gu_ID member with
  | Some o => Some o
  | None => scope_index old !! (gu_GroupID member, gu_UpstreamID member)
  end.

Fixpoint build_members (old : gmap Z upstreamSnapshot) (h : UpHeap) (byID : gmap Z upstreamSnapshot)
    (ms : list (option GroupUpstream)) : UpHeap * gmap Z upstreamSnapshot * list upstreamSnapshot :=
  match ms with
  | [] => (h, byID, [])
  | o :: rest =>
      match routable o with
      | None => build_members old h byID rest
      | Some member =>
          let '(h, us) := newUpstreamSnapshot h member (previous_of old member) in
          let '(h, byID, pool) := build_members old h (<[gu_ID member := us]> byID) rest in
          (h, byID, us :: pool)
      end
  end.

(** The fields that are reset before the members are built, and the group as it
    is published in the end. *)
Definition clear_upstreams (cfg : GroupConfig) (gs : groupSnapshot) : groupSnapshot :=
  mkGroupSnap (gs_accounts gs) (gs_routes gs) (EffectiveRoutingMode cfg) (gc_AllowedModels cfg) [] ∅ (gs_modelAliases gs).

Definition fill_upstreams (gs : groupSnapshot) (pool : list upstreamSnapshot) : groupSnapshot :=
  let routes := buildUpstreamRoutes pool (gs_allowedModels gs) in
  mkGroupSnap (gs_accounts gs) (gs_routes gs) (gs_routingMode gs) (gs_allowedModels gs) pool routes
    (aliases_of (gs_routes gs) routes).

Fixpoint build_upstream_groups (old : gmap Z upstreamSnapshot) (h : UpHeap) (byID : gmap Z upstreamSnapshot)
    (groups : gmap Z groupSnapshot) (configs : list (Z * option GroupConfig))
    : UpHeap * gmap Z upstreamSnapshot * gmap Z groupSnapshot :=
  match configs with
  | [] => (h, byID, groups)
  | (gid, None) :: rest => build_upstream_groups old h byID groups rest
  | (gid, Some cfg) :: rest =>
      let gs := clear_upstreams cfg (default empty_group (groups !! gid)) in
      if negb (gs_routingMode gs ==s GroupRoutingModeUpstreams)
      then build_upstream_groups old h byID (<[gid := gs]> groups) rest
      else
        let '(h, byID, pool) := build_members old h byID (gc_UpstreamMembers cfg) in
        build_upstream_groups old h byID (<[gid := fill_upstreams gs pool]> groups) rest
  end.

Definition buildUpstreamSnapshots (h : UpHeap) (groups : gmap Z groupSnapshot) (configs : list (Z * option GroupConfig))
    (old : gmap Z upstreamSnapshot) : UpHeap * gmap Z upstreamSnapshot * gmap Z groupSnapshot :=
  build_upstream_groups old h ∅ groups configs.

(** ** Reloading everything

    What the loader answers: the accounts by group and, when it provides them,
    the upstream configurations; [None] is a failed query. *)

Record Loaded := mkLoaded {
  ld_accounts : option (list (Z * list (option Account)));
  ld_configs : option (option (list (Z * option GroupConfig)))
}.

(** The explicit inheritance of the counters. *)
Definition inherit_counters (oldByID byID : gmap Z Loc) (heap : gmap nat accountSnapshot) : gmap nat accountSnapshot :=
  fold_left (fun heap p =>
    match oldByID !! p.1 with
    | Some lo => match heap !! lo with Some o => alter (fun a => set_concurrency a (as_concurrency o)) p.2 heap | None => heap end
    | None => heap
    end) (map_to_list byID) heap.

(** The store afterwards and whether the reload succeeded.  The instances that
    are reused are updated in place, whatever happens later. *)
Definition reload (defaultMax : Z) (ld : Loaded) (s : Store) : Store * bool :=
  match ld_accounts ld with
  | None => (s, false)
  | Some m =>
      let '(b, groups) := buildSnapshots (sr_heap s) (sr_next s) m defaultMax (sr_byID s) in
      match ld_configs ld with
      | Some None => (mkStore (b_heap b) (b_next b) (sr_up s) (sr_groups s) (sr_byID s) (sr_upstreams s), false)
      | Some (Some configs) =>
          let '(up, ups, groups) := buildUpstreamSnapshots (sr_up s) groups configs (sr_upstreams s) in
          (mkStore (inherit_counters (sr_byID s) (b_byID b) (b_heap b)) (b_next b) up groups (b_byID b) ups, true)
      | None => (mkStore (inherit_counters (sr_byID s) (b_byID b) (b_heap b)) (b_next b) (sr_up s) groups (b_byID b) ∅, true)
      end
  end.

(** ** Rebuilding routes and one group *)

Definition uniqueGroupIDs (ids : list Z) : list Z :=
  if (length ids <? 2)%nat then ids
  else fold_left (fun out id => if existsb (Z.eqb id) out then out else (out ++ [id])%list) ids [].

Definition removeGid (gids : list Z) (gid : Z) : list Z := List.filter (fun g => negb (g =? gid)) gids.

(** New account routes for a copy of the group; the upstream fields stay. *)
Definition reroute (heap : gmap nat accountSnapshot) (gs : groupSnapshot) (accounts : list Loc) : groupSnapshot :=
  let routes := buildRoutes shuffle heap accounts in
  mkGroupSnap accounts routes (gs_routingMode gs) (gs_allowedModels gs) (gs_upstreams gs) (gs_upstreamRoutes gs)
    (aliases_of routes (gs_upstreamRoutes gs)).

(** [rebuildGroupsLocked]; a group listed twice is rebuilt once. *)
Definition rebuildGroups (s : Store) (groupIDs : list Z) : Store :=
  let rebuild groups g :=
    if g <=? 0 then groups
    else match sr_groups s !! g with
         | Some gs => <[g := reroute (sr_heap s) gs (gs_accounts gs)]> groups
         | None => groups
         end in
  mkStore (sr_heap s) (sr_next s) (sr_up s) (fold_left rebuild groupIDs (sr_groups s)) (sr_byID s) (sr_upstreams s).

Definition static_of (heap : gmap nat accountSnapshot) (l : Loc) : option snapshotStatic := as_static <$> heap !! l.
Definition id_of (heap : gmap nat accountSnapshot) (l : Loc) : option Z := (fun a => acc_ID (ss_acc (as_static a))) <$> heap !! l.

(** Group membership as it was before the reload. *)
Definition memberships (byID : gmap Z Loc) (heap : gmap nat accountSnapshot) : gmap Z (list Z) :=
  omap (fun l => ss_groupIDs <$> static_of heap l) byID.

(** The accounts of the reloaded group get their complete membership back. *)
Definition restore_membership (old : gmap Z (list Z)) (groupID : Z) (heap : gmap nat accountSnapshot) (l : Loc)
    : gmap nat accountSnapshot :=
  match heap !! l with
  | None => heap
  | Some s => <[l := set_groupIDs s (uniqueGroupIDs (groupID :: default [] (old !! acc_ID (ss_acc (as_static s)))))]> heap
  end.

(** An account that left the group: it loses this membership and, with its last
    one, its place in the index. *)
Definition drop_member (old : gmap Z (list Z)) (newIDs : list Z) (groupID : Z)
    (acc : gmap nat accountSnapshot * gmap Z Loc) (l : Loc) : gmap nat accountSnapshot * gmap Z Loc :=
  let '(heap, byID) := acc in
  match heap !! l with
  | None => acc
  | Some s =>
      let id := acc_ID (ss_acc (as_static s)) in
      if existsb (Z.eqb id) newIDs then acc
      else
        let ids := removeGid (default [] (old !! id)) groupID in
        (<[l := set_groupIDs s ids]> heap, match ids with [] => delete id byID | _ => byID end)
  end.

(** An account of the reloaded group takes its place in the index, with the
    counter of the instance that was there. *)
Definition index_member (oldByID : gmap Z Loc) (old : gmap Z (list Z)) (groupID : Z)
    (acc : gmap nat accountSnapshot * gmap Z Loc) (l : Loc) : gmap nat accountSnapshot * gmap Z Loc :=
  let '(heap, byID) := acc in
  match heap !! l with
  | None => acc
  | Some s =>
      let id := acc_ID (ss_acc (as_static s)) in
      let '(conc, others) :=
        match oldByID !! id with
        | Some lo => (match heap !! lo with Some o => as_concurrency o | None => as_concurrency s end,
                      removeGid (default [] (old !! id)) groupID)
        | None => (as_concurrency s, [])
        end in
      (<[l := set_groupIDs (set_concurrency s conc) (groupID :: others)]> heap, <[id := l]> byID)
  end.

(** The other groups an account of the reloaded group is in. *)
Definition other_groups (oldByID : gmap Z Loc) (old : gmap Z (list Z)) (groupID : Z) (ids : list Z) : list Z :=
  concat (map (fun id => match oldByID !! id with Some _ => removeGid (default [] (old !! id)) groupID | None => [] end) ids).

(** The instances of the reloaded group replace those of the same account; of
    several positions with one account the last is replaced. *)
Definition replace_members (heap : gmap nat accountSnapshot) (accounts newAccs : list Loc) : list Loc :=
  fold_left (fun repl l =>
    match id_of heap l with
    | None => repl
    | Some id =>
        match last (List.filter (fun i => bool_decide (accounts !! i ≫= id_of heap = Some id)) (seq 0 (length accounts))) with
        | Some i => <[i := l]> repl
        | None => repl
        end
    end) newAccs accounts.

(** [InvalidateGroup]. *)
Definition InvalidateGroup (defaultMax : Z) (groupID : Z) (loaded : option (list (option Account)))
    (configs : option (option (list (Z * option GroupConfig)))) (s : Store) : Store :=
  match loaded with
  | None => s
  | Some accs =>
      let old := memberships (sr_byID s) (sr_heap s) in
      let '(b, newAccs) := place_all defaultMax (sr_byID s) groupID (mkBuild (sr_heap s) (sr_next s) ∅) accs in
      let gs := group_of (b_heap b) newAccs in
      let heap := fold_left (restore_membership old groupID) newAccs (b_heap b) in
      let newIDs := omap (id_of heap) newAccs in
      let '(heap, byID) :=
        match sr_groups s !! groupID with
        | Some g => fold_left (drop_member old newIDs groupID) (gs_accounts g) (heap, sr_byID s)
        | None => (heap, sr_byID s)
        end in
      let '(heap, byID) := fold_left (index_member (sr_byID s) old groupID) newAccs (heap, byID) in
      let groups := <[groupID := gs]> (sr_groups s) in
      let groups := fold_left (fun groups og =>
        match groups !! og with
        | Some g => <[og := reroute heap g (replace_members heap (gs_accounts g) newAccs)]> groups
        | None => groups
        end) (remove_dups (other_groups (sr_byID s) old groupID newIDs)) groups in
      match configs with
      | Some None => mkStore heap (b_next b) (sr_up s) (sr_groups s) (sr_byID s) (sr_upstreams s)
      | Some (Some cfgs) =>
          let '(up, ups, groups) := buildUpstreamSnapshots (sr_up s) groups cfgs (sr_upstreams s) in
          mkStore heap (b_next b) up groups byID ups
      | None => mkStore heap (b_next b) (sr_up s) groups byID (sr_upstreams s)
      end
  end.

(** [InvalidateAccount]: every group of the account, one after the other, each
    with what the loader then answers. *)
Definition InvalidateAccount (defaultMax : Z) (accountID : Z)
    (load : Z -> option (list (option Account)) * option (option (list (Z * option GroupConfig)))) (s : Store) : Store :=
  match sr_byID s !! accountID ≫= static_of (sr_heap s) with
  | None => s
  | Some st => fold_left (fun s g => let '(accs, cfgs) := load g in InvalidateGroup defaultMax g accs cfgs s)
                 (fold_left (fun out id => if existsb (Z.eqb id) out then out else (out ++ [id])%list) (ss_groupIDs st) []) s
  end.

End Build.

(** ** Requests on a generation *)

(** [SelectExcluding]; the store's group map is empty before the first reload. *)
Definition SelectExcluding (env : PickEnv) (used : Time) (s : Store) (groupID : Z) (format model : string)
    : option (Store * (SelectionT + SelectError)) :=
  match sr_groups s !! groupID with
  | None => Some (s, inr ErrGroupNotFound)
  | Some gs =>
      if gs_routingMode gs ==s GroupRoutingModeUpstreams then
        match select_upstream_group (sr_up s) (upstream_view gs) (pe_now env) groupID format model (pe_excluded env) with
        | None => None
        | Some (up, ug, res) =>
            let gs := mkGroupSnap (gs_accounts gs) (gs_routes gs) (gs_routingMode gs) (gs_allowedModels gs)
                        (gs_upstreams gs) (ug_upstreamRoutes ug) (gs_modelAliases gs) in
            Some (mkStore (sr_heap s) (sr_next s) up (<[groupID := gs]> (sr_groups s)) (sr_byID s) (sr_upstreams s), res)
        end
      else
        match select_account env used (sr_heap s) (account_view gs) groupID format model with
        | None => None
        | Some (heap, ag, res) =>
            let gs := mkGroupSnap (gs_accounts gs) (ag_routes ag) (gs_routingMode gs) (gs_allowedModels gs)
                        (gs_upstreams gs) (gs_upstreamRoutes gs) (gs_modelAliases gs) in
            Some (mkStore heap (sr_next s) (sr_up s) (<[groupID := gs]> (sr_groups s)) (sr_byID s) (sr_upstreams s), res)
        end
  end.

Definition release (s : Store) (sel : SelectionT) : Store * SelectionT :=
  let '(heap, up, sel) := ReleaseSelection (sr_byID s) (sr_upstreams s) (sr_heap s) (sr_up s) sel in
  (mkStore heap (sr_next s) up (sr_groups s) (sr_byID s) (sr_upstreams s), sel).

(** [GroupModels]: the models a group advertises. *)
Definition GroupModels (s : Store) (groupID : Z) : option (list string) :=
  match sr_groups s !! groupID with
  | None => None
  | Some gs =>
      let keys := if gs_routingMode gs ==s GroupRoutingModeUpstreams
                  then map fst (map_to_list (gs_upstreamRoutes gs)) else map fst (map_to_list (gs_routes gs)) in
      Some (sort_strings (elements (list_to_set (List.filter (fun m => negb (m ==s "")) (map snd keys)) : gset string)))
  end.

(** ** Write-back of the breakers *)

(** [processUpstreamWrites]: the last queued write of a member is the one that is
    written, if its identity is valid. *)
Definition latest_writes (first : upstreamStatusWrite) (queued : list upstreamStatusWrite) : gmap Z upstreamStatusWrite :=
  fold_left (fun m w => <[uw_id w := w]> m) queued {[ uw_id first := first ]}.

Definition processUpstreamWrites (first : upstreamStatusWrite) (queued : list upstreamStatusWrite) : gmap Z upstreamStatusWrite :=
  filter (fun p => 0 < p.1) (latest_writes first queued).
