(* ===== verification/StoreInv.v ===== *)
(** * The invariant of the scheduler's store ([internal/scheduler])

    What a rebuild of the account snapshots keeps, the well-formedness of a store
    and its preservation by reloads, requests, releases and route rebuilds. *)

From Stdlib Require Import ZArith Lia List Bool String.
From stdpp Require Import base option list gmap strings sorting relations.
From S2P Require Import Prelude GoString Domain GoTime RuleTypes SchedTypes WeightedSeq Routes ModelNames AccountState Selection UpstreamPool Endpoints Snapshots.
Import ListNotations.
Local Open Scope string_scope.
Local Open Scope Z_scope.

(** ** What a rebuild keeps

    The fields of an instance that belong to the process, not to the database:
    the slot counter, the error rate, the 429 streak, the error count, the last
    error and the last use. *)

Definition dynamic (a : accountSnapshot) : Z * Z * Z * Z * option string * option Time :=
  (as_concurrency a, as_errRate a, as_streak a, st_errCount (as_state a), st_lastError (as_state a),
   st_lastUsedAt (as_state a)).

(** The instance lists the group among its groups. *)
Definition member_of (heap : gmap nat accountSnapshot) (l : Loc) (gid : Z) : Prop :=
  exists a, heap !! l = Some a /\ gid ∈ ss_groupIDs (as_static a).

Section Continuity.
Context {U : UrlLib}.
Variable shuffle : list Loc -> list Loc.
Variable defaultMax : Z.
Variable heap0 : gmap nat accountSnapshot.
Variable next0 : Loc.
Variable old : gmap Z Loc.
(** The rows that are being loaded. *)
Variable row : Account -> Prop.

Hypothesis old_ok : forall id l, old !! id = Some l -> exists a0, heap0 !! l = Some a0 /\ account_id a0 = id.
Hypothesis fresh0 : forall l : Loc, (next0 <= l)%nat -> heap0 !! l = None.
Hypothesis max_ok : 1 <= defaultMax < max64.
Hypothesis row_max : forall a, row a -> acc_MaxConcurrency a < max64.

(** The cooldown an account has after it was synchronised. *)
Definition synced_cooldown (a : Account) : option Time :=
  match acc_CooldownUntil a with
  | Some c => Some c
  | None =>
      match old !! acc_ID a with
      | Some l => match heap0 !! l with Some a0 => st_cooldownUntil (as_state a0) | None => None end
      | None => None
      end
  end.

(** An account of the new generation: its identity, its limit, its row's status
    and cooldown, and where its process-local fields come from. *)
Definition placed (heap : gmap nat accountSnapshot) (id : Z) (l : Loc) : Prop :=
  exists s a, heap !! l = Some s /\ row a /\ account_id s = id /\ acc_ID a = id /\ 1 <= slot_limit s < max64 /\
    st_status (as_state s) = acc_Status a /\ st_cooldownUntil (as_state s) = synced_cooldown a /\
    acc_Template a = Some (ss_tpl (as_static s)) /\
    match old !! id with
    | Some l0 => l = l0
    | None => (next0 <= l)%nat /\ dynamic s = (0, 0, 0, 0, None, None)
    end.

Record build_inv (b : Build) : Prop := mkBuildInv {
  bi_next : (next0 <= b_next b)%nat;
  bi_fresh : forall l : Loc, (b_next b <= l)%nat -> b_heap b !! l = None;
  bi_old : forall (l : Loc) a0, heap0 !! l = Some a0 -> exists a, b_heap b !! l = Some a /\ dynamic a = dynamic a0;
  bi_untouched : forall (l : Loc) a0, heap0 !! l = Some a0 -> (forall id, b_byID b !! id <> Some l) -> b_heap b !! l = Some a0;
  bi_dom : forall (l : Loc) a, b_heap b !! l = Some a -> is_Some (heap0 !! l) \/ exists id, b_byID b !! id = Some l;
  bi_placed : forall id l, b_byID b !! id = Some l -> placed (b_heap b) id l
}.

Lemma build_inv_start : build_inv (mkBuild heap0 next0 ∅).
Proof.
  constructor; cbn; eauto. intros id l H. rewrite lookup_empty in H. discriminate.
Qed.

Lemma effectiveStatic_fields (a : Account) (t : Template) (gid : Z) :
  acc_ID (ss_acc (effectiveStatic a t gid)) = acc_ID a /\
  acc_MaxConcurrency (ss_acc (effectiveStatic a t gid)) = acc_MaxConcurrency a /\ ss_tpl (effectiveStatic a t gid) = t /\
  ss_groupIDs (effectiveStatic a t gid) = [gid].
Proof.
  unfold effectiveStatic. destruct (acc_UpstreamID a); [|auto]. destruct (acc_Upstream a) as [u|]; [|auto].
  destruct (_ || _); [auto|]. destruct (_ ==s ""); auto.
Qed.

Lemma fresh_static_fields (a : Account) (t : Template) (gid : Z) : row a ->
  acc_ID (ss_acc (fresh_static defaultMax a t gid)) = acc_ID a /\
  1 <= acc_MaxConcurrency (ss_acc (fresh_static defaultMax a t gid)) < max64 /\ ss_tpl (fresh_static defaultMax a t gid) = t /\
  ss_groupIDs (fresh_static defaultMax a t gid) = [gid].
Proof.
  intros Hr. destruct (effectiveStatic_fields a t gid) as (E1 & E2 & E3 & E4). specialize (row_max a Hr). unfold fresh_static.
  destruct (Z.leb_spec (acc_MaxConcurrency a) 0); cbn [with_limit ss_acc acc_ID acc_MaxConcurrency ss_tpl ss_groupIDs]; split_and!; auto; lia.
Qed.

(** Two accounts of the new generation never share an instance. *)
Lemma placed_inj (heap : gmap nat accountSnapshot) (id id' : Z) (l : Loc) : placed heap id l -> placed heap id' l -> id = id'.
Proof. intros (s & a & Hs & _ & H1 & _) (s' & a' & Hs' & _ & H2 & _). congruence. Qed.

Lemma placed_lookup (heap heap' : gmap nat accountSnapshot) (id : Z) (l : Loc) : heap' !! l = heap !! l ->
  placed heap id l -> placed heap' id l.
Proof. intros E (s & a & Hs & H). exists s, a. rewrite E. auto. Qed.

Lemma placed_groupIDs (heap : gmap nat accountSnapshot) (id : Z) (l : Loc) (f : accountSnapshot -> list Z) : placed heap id l ->
  placed (alter (fun s => set_groupIDs s (f s)) l heap) id l.
Proof.
  intros (s & a & Hs & H). exists (set_groupIDs s (f s)), a. rewrite lookup_alter_eq, Hs. split; [reflexivity|]. exact H.
Qed.

Lemma old_not_placed (b : Build) (id : Z) (l : Loc) : build_inv b -> old !! id = Some l -> b_byID b !! id = None ->
  forall id', b_byID b !! id' <> Some l.
Proof.
  intros Hb Ho Hn id' H. destruct (bi_placed b Hb id' l H) as (s & a & Hs & Hrow & Hid & _ & _ & _ & _ & _ & Hold).
  destruct (old_ok id l Ho) as (a0 & Ha0 & Hid0). destruct (old !! id') as [l0|] eqn:Eo.
  - subst l0. destruct (old_ok id' l Eo) as (a1 & Ha1 & Hid1). congruence.
  - destruct Hold as [Hge _]. rewrite fresh0 in Ha0 by exact Hge. discriminate.
Qed.

Lemma place_reuse_inv (gid : Z) (b : Build) (a : Account) (t : Template) (l : Loc) : build_inv b -> row a -> acc_Template a = Some t ->
  b_byID b !! acc_ID a = None -> old !! acc_ID a = Some l ->
  build_inv (mkBuild (alter (fun o => set_state (set_static o (fresh_static defaultMax a t gid)) (sync_state a (as_state o))) l (b_heap b))
    (b_next b) (<[acc_ID a := l]> (b_byID b))).
Proof.
  intros Hb Hr Ht Hn Ho. pose proof (old_not_placed b _ l Hb Ho Hn) as Hfree. destruct (old_ok _ _ Ho) as (a0 & Ha0 & _).
  pose proof (bi_untouched b Hb l a0 Ha0 Hfree) as Hl. destruct (fresh_static_fields a t gid Hr) as (E1 & E2 & E3 & E4).
  constructor; cbn [b_heap b_next b_byID].
  - apply (bi_next b Hb).
  - intros k Hk. rewrite lookup_alter_ne; [apply (bi_fresh b Hb k Hk)|].
    intros ->. rewrite (bi_fresh b Hb k Hk) in Hl. discriminate.
  - intros k a1 Hk. destruct (decide (k = l)) as [->|Hne].
    + rewrite lookup_alter_eq, Hl. eexists. split; [reflexivity|]. replace a1 with a0 by congruence. reflexivity.
    + rewrite lookup_alter_ne by congruence. apply (bi_old b Hb k a1 Hk).
  - intros k a1 Hk Hno. destruct (decide (k = l)) as [->|Hne].
    + exfalso. apply (Hno (acc_ID a)). apply lookup_insert_eq.
    + rewrite lookup_alter_ne by congruence. apply (bi_untouched b Hb k a1 Hk). intros id Hid. apply (Hno id).
      rewrite lookup_insert_ne; [exact Hid|]. intros E. congruence.
  - intros k x Hk. destruct (decide (k = l)) as [->|Hne]; [right; exists (acc_ID a); apply lookup_insert_eq|].
    rewrite lookup_alter_ne in Hk by congruence. destruct (bi_dom b Hb k x Hk) as [H|[id H]]; [left; exact H|right].
    exists id. rewrite lookup_insert_ne; [exact H|]. intros E. congruence.
  - intros id k Hid. destruct (decide (id = acc_ID a)) as [->|Hne].
    + rewrite lookup_insert_eq in Hid. injection Hid as <-.
      eexists _, a. rewrite lookup_alter_eq, Hl. split; [reflexivity|]. split; [exact Hr|].
      unfold account_id, slot_limit. cbn [set_state set_static as_static as_state sync_state st_status st_cooldownUntil].
      unfold synced_cooldown. rewrite Ho, Ha0, E3. split_and!; auto; lia.
    + rewrite lookup_insert_ne in Hid by congruence. apply (placed_lookup (b_heap b)); [|apply (bi_placed b Hb), Hid].
      apply lookup_alter_ne. intros ->. apply (Hfree id Hid).
Qed.

Lemma place_new_inv (gid : Z) (b : Build) (a : Account) (t : Template) : build_inv b -> row a -> acc_Template a = Some t ->
  b_byID b !! acc_ID a = None -> old !! acc_ID a = None ->
  build_inv (mkBuild (<[b_next b := mkSnapshot (fresh_static defaultMax a t gid) 0 0 0
      (mkAccState (acc_Status a) (acc_CooldownUntil a) 0 None None)]> (b_heap b)) (S (b_next b)) (<[acc_ID a := b_next b]> (b_byID b))).
Proof.
  intros Hb Hr Ht Hn Ho. destruct (fresh_static_fields a t gid Hr) as (E1 & E2 & E3 & E4). pose proof (bi_next b Hb) as Hnext.
  constructor; cbn [b_heap b_next b_byID].
  - lia.
  - intros k Hk. rewrite lookup_insert_ne by lia. apply (bi_fresh b Hb). lia.
  - intros k a1 Hk. rewrite lookup_insert_ne; [apply (bi_old b Hb k a1 Hk)|]. intros <-. rewrite fresh0 in Hk by exact Hnext. discriminate.
  - intros k a1 Hk Hno. rewrite lookup_insert_ne.
    + apply (bi_untouched b Hb k a1 Hk). intros id Hid. apply (Hno id). rewrite lookup_insert_ne; [exact Hid|]. intros E. congruence.
    + intros <-. rewrite fresh0 in Hk by exact Hnext. discriminate.
  - intros k x Hk. destruct (decide (k = b_next b)) as [->|Hne]; [right; exists (acc_ID a); apply lookup_insert_eq|].
    rewrite lookup_insert_ne in Hk by congruence. destruct (bi_dom b Hb k x Hk) as [H|[id H]]; [left; exact H|right].
    exists id. rewrite lookup_insert_ne; [exact H|]. intros E. congruence.
  - intros id k Hid. destruct (decide (id = acc_ID a)) as [->|Hne].
    + rewrite lookup_insert_eq in Hid. injection Hid as <-. eexists _, a. rewrite lookup_insert_eq. split; [reflexivity|].
      split; [exact Hr|]. unfold account_id, slot_limit, synced_cooldown.
      cbn [as_static as_state st_status st_cooldownUntil]. rewrite Ho, E3.
      split_and!; auto; try lia. destruct (acc_CooldownUntil a); reflexivity.
    + rewrite lookup_insert_ne in Hid by congruence. pose proof (bi_placed b Hb id k Hid) as Hp.
      apply (placed_lookup (b_heap b)); [|exact Hp]. apply lookup_insert_ne. intros <-.
      destruct Hp as (s & a' & Hs & _). rewrite (bi_fresh b Hb) in Hs by lia. discriminate.
Qed.

Lemma place_shared_inv (gid : Z) (b : Build) (id : Z) (l : Loc) : build_inv b -> b_byID b !! id = Some l ->
  build_inv (mkBuild (alter (fun s => set_groupIDs s (ss_groupIDs (as_static s) ++ [gid])%list) l (b_heap b)) (b_next b) (b_byID b)).
Proof.
  intros Hb Hid. destruct (bi_placed b Hb id l Hid) as (s & a & Hs & _).
  constructor; cbn [b_heap b_next b_byID].
  - apply (bi_next b Hb).
  - intros k Hk. rewrite lookup_alter_ne; [apply (bi_fresh b Hb k Hk)|]. intros ->. rewrite (bi_fresh b Hb k Hk) in Hs. discriminate.
  - intros k a1 Hk. destruct (bi_old b Hb k a1 Hk) as (a2 & Ha2 & Hd). destruct (decide (k = l)) as [->|Hne].
    + rewrite lookup_alter_eq, Ha2. eexists. split; [reflexivity|exact Hd].
    + rewrite lookup_alter_ne by congruence. eauto.
  - intros k a1 Hk Hno. destruct (decide (k = l)) as [->|Hne]; [exfalso; apply (Hno id Hid)|].
    rewrite lookup_alter_ne by congruence. apply (bi_untouched b Hb k a1 Hk Hno).
  - intros k x Hk. destruct (decide (k = l)) as [->|Hne]; [eauto|]. rewrite lookup_alter_ne in Hk by congruence. eapply (bi_dom b Hb), Hk.
  - intros id' k Hk. destruct (decide (k = l)) as [->|Hne].
    + apply placed_groupIDs, (bi_placed b Hb), Hk.
    + apply (placed_lookup (b_heap b)); [apply lookup_alter_ne; congruence|apply (bi_placed b Hb), Hk].
Qed.

(** The index only grows; the templates of indexed instances stay and their
    memberships only grow. *)
Definition extends (b b' : Build) : Prop :=
  b_byID b ⊆ b_byID b' /\
  (forall id l, b_byID b !! id = Some l -> tpl_of (b_heap b') l = tpl_of (b_heap b) l) /\
  forall id l g, b_byID b !! id = Some l -> member_of (b_heap b) l g -> member_of (b_heap b') l g.

Instance extends_preorder : PreOrder extends.
Proof.
  split; [intros b; split; [reflexivity|auto]|]. intros a b c (H1 & H2 & H5) (H3 & H4 & H6). split; [etransitivity; eassumption|].
  split; intros id l; [intros Hl|intros g Hl Hg].
  - etransitivity; [apply (H4 id), (lookup_weaken _ _ _ _ Hl H1)|apply (H2 id), Hl].
  - apply (H6 id), (H5 id); [apply (lookup_weaken _ _ _ _ Hl H1)|exact Hl|exact Hg].
Qed.

Lemma extends_same (b b' : Build) : b_byID b ⊆ b_byID b' ->
  (forall id l, b_byID b !! id = Some l -> b_heap b' !! l = b_heap b !! l) -> extends b b'.
Proof.
  intros H H1. split; [exact H|]. unfold tpl_of, member_of. split; intros id l; [intros Hl|intros g Hl]; rewrite (H1 id l Hl); auto.
Qed.

Lemma live_spec (o : option Account) (a : Account) (t : Template) : live o = Some (a, t) -> o = Some a /\ acc_Template a = Some t.
Proof.
  unfold live. destruct o as [a'|]; [|discriminate]. destruct (acc_Template a') as [t'|] eqn:E; [|discriminate].
  destruct (isSome _); [discriminate|]. intros [= -> ->]. auto.
Qed.

Lemma place_inv (gid : Z) (b b' : Build) (a : Account) (t : Template) (l : Loc) : build_inv b -> row a -> acc_Template a = Some t ->
  place defaultMax old gid b (a, t) = (b', l) ->
  build_inv b' /\ extends b b' /\ b_byID b' !! acc_ID a = Some l /\ member_of (b_heap b') l gid.
Proof.
  intros Hb Hr Ht. destruct (fresh_static_fields a t gid Hr) as (_ & _ & _ & Eg). unfold place.
  destruct (b_byID b !! acc_ID a) as [l0|] eqn:Eid; [|destruct (old !! acc_ID a) as [l0|] eqn:Eo].
  - intros [= <- <-]. destruct (bi_placed b Hb _ _ Eid) as (s & ? & Hs & _).
    split; [eapply place_shared_inv; eassumption|]. split; [|split; [exact Eid|]].
    + split; [reflexivity|]. cbn [b_heap]. unfold tpl_of, member_of. split; intros id k; [intros Hk|intros g Hk (y & Hy & Hg)];
        (destruct (decide (k = l0)) as [->|Hne]; [rewrite lookup_alter_eq|rewrite lookup_alter_ne by congruence; eauto]).
      * destruct (b_heap b !! l0); reflexivity.
      * rewrite Hy. eexists. split; [reflexivity|]. cbn. apply elem_of_app. auto.
    + cbn [b_heap]. eexists. rewrite lookup_alter_eq, Hs. split; [reflexivity|]. cbn. apply elem_of_app. right. left.
  - intros [= <- <-]. split; [apply place_reuse_inv; assumption|]. split; [|split; [apply lookup_insert_eq|]].
    + apply extends_same; [apply insert_subseteq, Eid|]. intros id k Hk. cbn [b_heap]. apply lookup_alter_ne.
      intros <-. apply (old_not_placed b _ _ Hb Eo Eid id Hk).
    + destruct (old_ok _ _ Eo) as (a0 & Ha0 & _). destruct (bi_old b Hb l0 a0 Ha0) as (x & Hx & _).
      cbn [b_heap]. eexists. rewrite lookup_alter_eq, Hx. split; [reflexivity|]. cbn. rewrite Eg. left.
  - intros [= <- <-]. split; [apply place_new_inv; assumption|]. split; [|split; [apply lookup_insert_eq|]].
    + apply extends_same; [apply insert_subseteq, Eid|]. intros id k Hk. cbn [b_heap]. apply lookup_insert_ne.
      intros <-. destruct (bi_placed b Hb id _ Hk) as (s & ? & Hs & _). rewrite (bi_fresh b Hb) in Hs by lia. discriminate.
    + cbn [b_heap]. eexists. rewrite lookup_insert_eq. split; [reflexivity|]. cbn. rewrite Eg. left.
Qed.

Lemma place_all_inv (gid : Z) (accs : list (option Account)) : (forall a, Some a ∈ accs -> row a) -> forall b b' ls, build_inv b ->
  place_all defaultMax old gid b accs = (b', ls) ->
  build_inv b' /\ extends b b' /\ forall l, l ∈ ls -> (exists id, b_byID b' !! id = Some l) /\ member_of (b_heap b') l gid.
Proof.
  induction accs as [|o accs IH]; intros Hrow b b' ls Hb; cbn [place_all].
  { intros [= <- <-]. split; [exact Hb|]. split; [reflexivity|]. intros l H. apply not_elem_of_nil in H. contradiction. }
  assert (forall a, Some a ∈ accs -> row a) as Hrow' by (intros a Ha; apply Hrow; right; exact Ha).
  destruct (live o) as [[a t]|] eqn:El; [|apply IH; assumption]. apply live_spec in El as [-> Ht].
  destruct (place defaultMax old gid b (a, t)) as [b1 l1] eqn:E1.
  destruct (place_all defaultMax old gid b1 accs) as [b2 ls2] eqn:E2. intros [= <- <-].
  destruct (place_inv gid b b1 a t l1 Hb (Hrow a ltac:(left)) Ht E1) as (Hb1 & Hx1 & Hl1 & Hm1).
  destruct (IH Hrow' b1 b2 ls2 Hb1 E2) as (Hb2 & Hx2 & Hls). split; [exact Hb2|]. split; [etransitivity; eassumption|].
  intros l [->|Hl]%elem_of_cons; [|auto]. destruct Hx2 as (Hi & _ & Hmem).
  split; [exists (acc_ID a); exact (lookup_weaken _ _ _ _ Hl1 Hi)|]. exact (Hmem _ _ _ Hl1 Hm1).
Qed.

Hypothesis shuffle_perm : forall l, shuffle l ≡ₚ l.
Hypothesis counters0 : forall (l : Loc) a0, heap0 !! l = Some a0 -> 0 <= as_concurrency a0 < max64.
Hypothesis row_models : forall a t, row a -> acc_Template a = Some t -> ("" ∉ template_models t).

Lemma placed_slots (b : Build) (id : Z) (l : Loc) : build_inv b -> b_byID b !! id = Some l ->
  exists s, b_heap b !! l = Some s /\ slots_ok s.
Proof.
  intros Hb Hid. destruct (bi_placed b Hb id l Hid) as (s & a & Hs & _ & _ & _ & Hlim & _ & _ & _ & Hold).
  exists s. split; [exact Hs|]. split; [|exact Hlim]. destruct (old !! id) as [l0|] eqn:Eo.
  - subst l0. destruct (old_ok id l Eo) as (a0 & Ha0 & _). destruct (bi_old b Hb l a0 Ha0) as (s' & Hs' & Hd).
    rewrite Hs in Hs'. injection Hs' as <-. injection Hd as Hc _ _ _ _ _. rewrite Hc. eapply counters0, Ha0.
  - destruct Hold as [_ Hd]. injection Hd as Hc _ _ _ _ _. rewrite Hc. unfold_int. lia.
Qed.

Lemma placed_models (b : Build) (ls : list Loc) : build_inv b -> (forall l, l ∈ ls -> exists id, b_byID b !! id = Some l) ->
  "" ∉ modelSet (b_heap b) ls.
Proof.
  intros Hb Hls H. apply elem_of_list_to_set, list_elem_of_In, in_concat in H as (ms & Hms & Hin).
  apply in_map_iff in Hms as (l & <- & Hl). destruct (Hls l (proj2 (list_elem_of_In _ _) Hl)) as [id Hid].
  destruct (bi_placed b Hb id l Hid) as (s & a & Hs & Hr & _ & _ & _ & _ & _ & Ht & _).
  assert (tpl_of (b_heap b) l = Some (ss_tpl (as_static s))) as E by (unfold tpl_of; rewrite Hs; reflexivity).
  rewrite E in Hin. apply (row_models a _ Hr Ht), list_elem_of_In, Hin.
Qed.

(** A group of a generation: its accounts are indexed and list the group, its
    routes lead to its accounts and are sound. *)
Definition group_ok (heap : gmap nat accountSnapshot) (byID : gmap Z Loc) (gid : Z) (g : groupSnapshot) : Prop :=
  (forall l, l ∈ gs_accounts g -> (exists id, byID !! id = Some l) /\ member_of heap l gid) /\
  (forall k r l, gs_routes g !! k = Some r -> l ∈ seq_members r -> l ∈ gs_accounts g) /\
  routes_ok heap (gs_routes g) /\ up_routes_ok (gs_upstreamRoutes g).

Lemma group_of_ok (b b' : Build) (gid : Z) (ls : list Loc) : build_inv b -> build_inv b' -> extends b b' ->
  (forall l, l ∈ ls -> (exists id, b_byID b !! id = Some l) /\ member_of (b_heap b) l gid) ->
  group_ok (b_heap b') (b_byID b') gid (group_of shuffle (b_heap b) ls).
Proof.
  intros Hb Hb' (Hi & Htpl & Hmem) Hls. unfold group_ok, group_of. cbn [gs_accounts gs_routes gs_upstreamRoutes].
  assert (accs_ok (b_heap b) ls) as Ha by (intros l Hl; destruct (Hls l Hl) as [[id Hid] _]; eapply placed_slots; eassumption).
  split; [intros l Hl; destruct (Hls l Hl) as [[id Hid] Hm]; split; [exists id; exact (lookup_weaken _ _ _ _ Hid Hi)|eauto]|].
  split; [intros k r l; apply buildRoutes_members; exact shuffle_perm|].
  split; [|intros f m rt H; rewrite lookup_empty in H; discriminate].
  pose proof (buildRoutes_ok shuffle (b_heap b) ls shuffle_perm Ha
    (placed_models b ls Hb (fun l Hl => proj1 (Hls l Hl)))) as Hok.
  intros f m r Hr. destruct (Hok f m r Hr) as [_ Hmay].
  assert (forall l, l ∈ seq_members r -> exists id, b_byID b !! id = Some l) as Hid
    by (intros l Hl; exact (proj1 (Hls l (buildRoutes_members shuffle (b_heap b) shuffle_perm ls (f, m) r l Hr Hl)))).
  split; intros l Hl; [|intros model Hm]; destruct (Hid l Hl) as [id Hil].
  - eapply placed_slots; [exact Hb'|exact (lookup_weaken _ _ _ _ Hil Hi)].
  - eapply may_serve_tpl; [symmetry; apply (Htpl id l Hil)|auto].
Qed.

Lemma build_groups_inv (m : list (Z * list (option Account))) :
  (forall gid accs a, (gid, accs) ∈ m -> Some a ∈ accs -> row a) -> forall b b' groups, build_inv b ->
  build_groups shuffle defaultMax old b m = (b', groups) ->
  build_inv b' /\ extends b b' /\ forall gid g, groups !! gid = Some g -> group_ok (b_heap b') (b_byID b') gid g.
Proof.
  induction m as [|[gid accs] m IH]; intros Hrow b b' groups Hb; cbn [build_groups].
  { intros [= <- <-]. split; [exact Hb|]. split; [reflexivity|]. intros gid g H. rewrite lookup_empty in H. discriminate. }
  destruct (place_all defaultMax old gid b accs) as [b1 ls] eqn:E1.
  destruct (build_groups shuffle defaultMax old b1 m) as [b2 groups2] eqn:E2. intros [= <- <-].
  destruct (place_all_inv gid accs (fun a => Hrow gid accs a ltac:(left)) b b1 ls Hb E1) as (Hb1 & Hx1 & Hls).
  destruct (IH (fun g accs' a H => Hrow g accs' a ltac:(right; exact H)) b1 b2 groups2 Hb1 E2) as (Hb2 & Hx2 & Hg).
  split; [exact Hb2|]. split; [etransitivity; eassumption|]. intros gid' g H. destruct (decide (gid' = gid)) as [->|Hne].
  - rewrite lookup_insert_eq in H. injection H as <-. apply group_of_ok; assumption.
  - rewrite lookup_insert_ne in H by congruence. eapply Hg, H.
Qed.

(** Inheriting the counters changes nothing: an account that was indexed before
    keeps its instance. *)
Lemma inherit_counters_id (b : Build) : build_inv b -> inherit_counters old (b_byID b) (b_heap b) = b_heap b.
Proof.
  intros Hb. unfold inherit_counters.
  assert (forall id l, (id, l) ∈ map_to_list (b_byID b) -> b_byID b !! id = Some l) as Hl by (intros id l; apply elem_of_map_to_list).
  induction (map_to_list (b_byID b)) as [|[id l] ps IH]; [reflexivity|]. cbn [fold_left fst snd].
  destruct (old !! id) as [lo|] eqn:Eo; [|apply IH; intros; apply Hl; right; assumption].
  destruct (bi_placed b Hb id l (Hl id l ltac:(left))) as (s & a & Hs & _ & _ & _ & _ & _ & _ & _ & Hold).
  rewrite Eo in Hold. subst lo. rewrite Hs.
  rewrite alter_id; [apply IH; intros; apply Hl; right; assumption|].
  intros s' Hs'. assert (Some s = Some s') as [= <-] by (etransitivity; [symmetry; exact Hs|exact Hs']). destruct s. reflexivity.
Qed.
End Continuity.

(** ** The store invariant *)

(** An account on record: its index entry names it, its counters and limit are
    usable and none of its model names is empty. *)
Definition account_wf (a : accountSnapshot) : Prop :=
  slots_ok a /\ ("" ∉ template_models (ss_tpl (as_static a))).

Record store_ok (s : Store) : Prop := mkStoreOk {
  so_byID : forall id l, sr_byID s !! id = Some l -> exists a, sr_heap s !! l = Some a /\ account_id a = id /\ account_wf a;
  so_fresh : forall l : Loc, (sr_next s <= l)%nat -> sr_heap s !! l = None;
  so_counters : forall (l : Loc) a, sr_heap s !! l = Some a -> 0 <= as_concurrency a < max64;
  so_groups : forall gid g, sr_groups s !! gid = Some g -> group_ok (sr_heap s) (sr_byID s) gid g
}.

Definition with_heap (s : Store) (heap : gmap nat accountSnapshot) : Store :=
  mkStore heap (sr_next s) (sr_up s) (sr_groups s) (sr_byID s) (sr_upstreams s).

Lemma routes_ok_update (heap : gmap nat accountSnapshot) (l : Loc) (a a' : accountSnapshot) (routes : gmap routeKey route) :
  heap !! l = Some a -> ss_tpl (as_static a') = ss_tpl (as_static a) -> (slots_ok a -> slots_ok a') ->
  routes_ok heap routes -> routes_ok (<[l := a']> heap) routes.
Proof.
  intros Ha Hs Hok H f m r Hr. destruct (H f m r Hr) as [H1 H2]. split.
  - intros k Hk. destruct (H1 k Hk) as (x & Hx & Hxok). destruct (decide (k = l)) as [->|Hne].
    + exists a'. rewrite lookup_insert_eq. split; [reflexivity|]. apply Hok. congruence.
    + exists x. rewrite lookup_insert_ne by congruence. auto.
  - intros k Hk model Hm. apply (may_serve_tpl heap); [|auto]. unfold tpl_of. destruct (decide (k = l)) as [->|Hne].
    + rewrite lookup_insert_eq, Ha. cbn. congruence.
    + rewrite lookup_insert_ne by congruence. reflexivity.
Qed.

Lemma member_of_update (heap : gmap nat accountSnapshot) (l : Loc) (a a' : accountSnapshot) (k : Loc) (g : Z) :
  heap !! l = Some a -> ss_groupIDs (as_static a') = ss_groupIDs (as_static a) -> member_of heap k g ->
  member_of (<[l := a']> heap) k g.
Proof.
  intros Ha Hg (x & Hx & Hin). destruct (decide (k = l)) as [->|Hne].
  - exists a'. rewrite lookup_insert_eq, Hg. split; [reflexivity|]. replace a with x by congruence. exact Hin.
  - exists x. rewrite lookup_insert_ne by congruence. auto.
Qed.

(** What of an instance the invariant reads besides its counter. *)
Definition same_identity (a a' : accountSnapshot) : Prop :=
  account_id a' = account_id a /\ ss_tpl (as_static a') = ss_tpl (as_static a) /\
  ss_groupIDs (as_static a') = ss_groupIDs (as_static a) /\ slot_limit a' = slot_limit a.

Lemma same_static (a a' : accountSnapshot) : as_static a' = as_static a -> same_identity a a'.
Proof. intros E. unfold same_identity, account_id, slot_limit. rewrite E. auto. Qed.

(** An instance may change in place as long as its identity, its template, its
    groups and the sanity of its counters stay. *)
Lemma store_ok_update (s : Store) (l : Loc) (a a' : accountSnapshot) : store_ok s -> sr_heap s !! l = Some a ->
  same_identity a a' -> 0 <= as_concurrency a' < max64 -> store_ok (with_heap s (<[l := a']> (sr_heap s))).
Proof.
  intros [H1 H2 H3 H4] Ha (Hid & Ht & Hgr & Hlim) Hc.
  assert (slots_ok a -> slots_ok a') as Hsl by (intros [_ H]; split; [exact Hc|rewrite Hlim; exact H]).
  constructor; cbn.
  - intros id k Hk. destruct (H1 id k Hk) as (x & Hx & Hxid & Hw1 & Hw2). destruct (decide (k = l)) as [->|Hne].
    + exists a'. rewrite lookup_insert_eq. rewrite Ha in Hx. injection Hx as <-. split; [reflexivity|].
      split; [congruence|]. split; [auto|]. rewrite Ht. exact Hw2.
    + exists x. rewrite lookup_insert_ne by congruence. split; [exact Hx|]. split; [exact Hxid|]. split; assumption.
  - intros k Hk. rewrite lookup_insert_ne; [auto|]. intros <-. rewrite H2 in Ha by exact Hk. discriminate.
  - intros k x. destruct (decide (k = l)) as [->|Hne]; [rewrite lookup_insert_eq; intros [= <-]; exact Hc|].
    rewrite lookup_insert_ne by congruence. apply H3.
  - intros gid g Hg. destruct (H4 gid g Hg) as (G1 & G2 & G3 & G4).
    split; [intros k Hk; destruct (G1 k Hk) as [? ?]; split; [assumption|eapply member_of_update; eassumption]|].
    split; [exact G2|]. split; [|exact G4]. eapply routes_ok_update; eassumption.
Qed.

Lemma store_ok_group (s : Store) (gid : Z) (g : groupSnapshot) (up : UpHeap) : store_ok s ->
  group_ok (sr_heap s) (sr_byID s) gid g ->
  store_ok (mkStore (sr_heap s) (sr_next s) up (<[gid := g]> (sr_groups s)) (sr_byID s) (sr_upstreams s)).
Proof.
  intros [H1 H2 H3 H4] Hg. constructor; cbn; auto. intros gid' g' H. destruct (decide (gid' = gid)) as [->|Hne].
  - rewrite lookup_insert_eq in H. injection H as <-. exact Hg.
  - rewrite lookup_insert_ne in H by congruence. eapply H4, H.
Qed.

Lemma store_ok_up (s : Store) (up : UpHeap) : store_ok s ->
  store_ok (mkStore (sr_heap s) (sr_next s) up (sr_groups s) (sr_byID s) (sr_upstreams s)).
Proof. intros [H1 H2 H3 H4]. constructor; assumption. Qed.

Lemma release_slot_ok (s : Store) (l : Loc) : store_ok s -> store_ok (with_heap s (release_slot (sr_heap s) l)).
Proof.
  intros Hs. unfold release_slot. destruct (sr_heap s !! l) as [a|] eqn:Ha.
  2: { destruct Hs. constructor; assumption. }
  pose proof (so_counters s Hs l a Ha) as Hc.
  assert (0 <= decrementSlot (as_concurrency a) < max64) as Hd.
  { unfold decrementSlot. destruct (Z.leb_spec (as_concurrency a) 0); [lia|]. rewrite sub64_small by (unfold_int; lia). lia. }
  apply (store_ok_update s l a); try assumption. apply same_static. reflexivity.
Qed.

Lemma release_ok (s s' : Store) (sel sel' : SelectionT) : store_ok s -> release s sel = (s', sel') -> store_ok s'.
Proof.
  intros Hs. unfold release, ReleaseSelection, release_account, Release.
  assert (store_ok (with_heap s (sr_heap s))) as Hsame by (destruct Hs; constructor; assumption).
  destruct (sel_TargetKind sel); destruct (sel_released sel); intros [= <- <-]; try (apply (store_ok_up s); assumption).
  destruct (sel_accountRef sel) as [l|]; [apply (release_slot_ok s l Hs)|].
  destruct (sr_byID s !! sel_AccountID sel) as [l|]; [apply (release_slot_ok s l Hs)|exact Hsame].
Qed.

Lemma same_members_routes (heap : gmap nat accountSnapshot) (byID : gmap Z Loc) (gid : Z) (g : groupSnapshot) (k : routeKey)
    (rt r' : route) : group_ok heap byID gid g -> gs_routes g !! k = Some rt -> seq_members r' = seq_members rt ->
  group_ok heap byID gid (mkGroupSnap (gs_accounts g) (<[k := r']> (gs_routes g)) (gs_routingMode g) (gs_allowedModels g)
    (gs_upstreams g) (gs_upstreamRoutes g) (gs_modelAliases g)).
Proof.
  intros (G1 & G2 & G3 & G4) Hk Hm. split; [exact G1|]. cbn [gs_accounts gs_routes gs_upstreamRoutes].
  split; [|split; [eapply routes_ok_insert; eassumption|exact G4]].
  intros k' r l Hr Hl. destruct (decide (k' = k)) as [->|Hne].
  - rewrite lookup_insert_eq in Hr. injection Hr as <-. rewrite Hm in Hl. eapply G2; eassumption.
  - rewrite lookup_insert_ne in Hr by congruence. eapply G2; eassumption.
Qed.

(** Taking a slot keeps a store well formed. *)
Lemma take_ok (env : PickEnv) (used : Time) (s : Store) (l : Loc) (a : accountSnapshot) : store_ok s -> 1 <= pe_instances env ->
  sr_heap s !! l = Some a -> slots_ok a -> candidate_ok env a = true ->
  store_ok (with_heap s (<[l := take_slot used a]> (sr_heap s))).
Proof.
  intros Hs Hn Ha [Hc Hl] Hok. destruct (candidate_ok_spec env a Hc Hn ltac:(lia) Hok) as (_ & _ & _ & _ & Hlt).
  destruct (take_slot_counts used a Hc) as (Et & _ & Es).
  apply (store_ok_update s l a); try assumption; [apply same_static, Es|rewrite Et; lia].
Qed.

(** What a selection does to the store. *)
Lemma select_ok (env : PickEnv) (used : Time) (s s' : Store) (groupID : Z) (format model : string)
    (res : SelectionT + SelectError) : store_ok s -> 1 <= pe_instances env ->
  SelectExcluding env used s groupID format model = Some (s', res) -> store_ok s'.
Proof.
  intros Hs Hn. unfold SelectExcluding. destruct (sr_groups s !! groupID) as [gs|] eqn:Eg; [|intros [= <- <-]; exact Hs].
  pose proof (so_groups s Hs groupID gs Eg) as Hgok. destruct Hgok as (G1 & G2 & G3 & G4).
  destruct (gs_routingMode gs ==s GroupRoutingModeUpstreams).
  - unfold select_upstream_group.
    destruct (selectUpstream _ _ _ _ _ _ _ _ _) as [[[up ug] r]|] eqn:Es; [|discriminate]. intros [= <- <-].
    apply store_ok_group; [exact Hs|]. split; [exact G1|]. split; [exact G2|]. split; [exact G3|]. cbn [gs_upstreamRoutes].
    eapply selectUpstream_routes; [|exact Es]. exact G4.
  - destruct (select_account env used (sr_heap s) (account_view gs) groupID format model) as [[[heap ag] r]|] eqn:Es; [|discriminate].
    intros [= <- <-]. pose proof (select_account_took _ _ _ _ _ _ _ _ _ _ Es) as Ht. cbv zeta in Ht. cbn [account_view ag_routes] in Ht.
    destruct (gs_routes gs !! route_key _ _ _) as [rt|] eqn:Ert.
    2: { destruct Ht as (_ & -> & ->). apply store_ok_group; [exact Hs|]. split; [exact G1|]. split; [exact G2|]. split; assumption. }
    destruct Ht as [(r' & -> & Hm) Ht]. destruct r as [sel|err]; cbn [took] in Ht.
    + destruct Ht as (l & a & Hin & Ha & Hok & -> & _).
      assert (slots_ok a) as Hsl.
      { destruct (route_key _ _ _) as [f m]. destruct (G3 f m rt Ert) as [Hacc _]. destruct (Hacc l Hin) as (x & Hx & Hxs). congruence. }
      pose proof (take_ok env used s l a Hs Hn Ha Hsl Hok) as Hs'.
      refine (store_ok_group (with_heap s (<[l := take_slot used a]> (sr_heap s))) groupID _ (sr_up s) Hs' _).
      eapply same_members_routes; [exact (so_groups _ Hs' groupID gs Eg)|exact Ert|exact Hm].
    + subst heap. apply store_ok_group; [exact Hs|]. eapply same_members_routes; [|exact Ert|exact Hm].
      split; [exact G1|]. split; [exact G2|]. split; assumption.
Qed.

Lemma up_routes_ok_empty : up_routes_ok ∅.
Proof. intros f m rt H. rewrite lookup_empty in H. discriminate. Qed.

Lemma routes_ok_empty (heap : gmap nat accountSnapshot) : routes_ok heap ∅.
Proof. intros f m r H. rewrite lookup_empty in H. discriminate. Qed.

Lemma build_upstream_groups_ok (heap : gmap nat accountSnapshot) (ids : gmap Z Loc) `{U : UrlLib}
    (old : gmap Z upstreamSnapshot) (configs : list (Z * option GroupConfig)) :
  forall h byID groups h' byID' groups',
  (forall gid g, groups !! gid = Some g -> group_ok heap ids gid g) ->
  build_upstream_groups old h byID groups configs = (h', byID', groups') ->
  forall gid g, groups' !! gid = Some g -> group_ok heap ids gid g.
Proof.
  induction configs as [|[gid [cfg|]] configs IH]; intros h byID groups h' byID' groups' Hg; cbn [build_upstream_groups].
  - intros [= <- <- <-]. exact Hg.
  - set (g0 := clear_upstreams cfg (default empty_group (groups !! gid))).
    assert (group_ok heap ids gid g0) as H0.
    { unfold g0. destruct (groups !! gid) as [g|] eqn:E; cbn [default from_option].
      - destruct (Hg gid g E) as (G1 & G2 & G3 & _). split; [exact G1|]. split; [exact G2|]. split; [exact G3|apply up_routes_ok_empty].
      - split; [intros l H; apply not_elem_of_nil in H; contradiction|]. split; [|split; [apply routes_ok_empty|apply up_routes_ok_empty]].
        intros k r l H. cbn in H. rewrite lookup_empty in H. discriminate. }
    assert (forall g, group_ok heap ids gid g -> forall k x, <[gid := g]> groups !! k = Some x -> group_ok heap ids k x) as Hins.
    { intros g Hgok k x Hx. destruct (decide (k = gid)) as [->|Hne]; [rewrite lookup_insert_eq in Hx; congruence|].
      rewrite lookup_insert_ne in Hx by congruence. eapply Hg, Hx. }
    destruct (negb _); [apply IH, Hins, H0|].
    destruct (build_members old h byID (gc_UpstreamMembers cfg)) as [[h1 byID1] pool]. apply IH, Hins.
    destruct H0 as (G1 & G2 & G3 & _). split; [exact G1|]. split; [exact G2|]. split; [exact G3|]. apply buildUpstreamRoutes_ok.
  - apply IH, Hg.
Qed.

(** ** Reloading *)

(** The rows a loader may answer: limits below the maximum, no empty model
    name. *)
Definition rows_ok (ld : Loaded) : Prop :=
  forall m gid accs a, ld_accounts ld = Some m -> (gid, accs) ∈ m -> Some a ∈ accs ->
    acc_MaxConcurrency a < max64 /\ forall t, acc_Template a = Some t -> ("" ∉ template_models t).

(** The rows themselves. *)
Definition loaded_row (ld : Loaded) (a : Account) : Prop :=
  exists m gid accs, ld_accounts ld = Some m /\ (gid, accs) ∈ m /\ Some a ∈ accs.

Lemma reload_build `{U : UrlLib} (shuffle : list Loc -> list Loc) (defaultMax : Z) (ld : Loaded) (s s' : Store) :
  store_ok s -> 1 <= defaultMax < max64 -> (forall l, shuffle l ≡ₚ l) -> rows_ok ld ->
  reload shuffle defaultMax ld s = (s', true) ->
  exists b, build_inv (sr_heap s) (sr_next s) (sr_byID s) (loaded_row ld) b /\
    sr_heap s' = b_heap b /\ sr_byID s' = b_byID b /\ sr_next s' = b_next b /\
    (forall id l, b_byID b !! id = Some l -> exists a, b_heap b !! l = Some a /\ slots_ok a) /\
    (forall gid g, sr_groups s' !! gid = Some g -> group_ok (b_heap b) (b_byID b) gid g).
Proof.
  intros Hs Hmax Hsh Hrows. unfold reload. destruct (ld_accounts ld) as [m|] eqn:Em; [|discriminate].
  destruct (buildSnapshots shuffle (sr_heap s) (sr_next s) m defaultMax (sr_byID s)) as [b groups] eqn:Eb.
  assert (forall id l, sr_byID s !! id = Some l -> exists a0, sr_heap s !! l = Some a0 /\ account_id a0 = id) as Hold
    by (intros id l Hl; destruct (so_byID s Hs id l Hl) as (a & Ha & Hid & _); eauto).
  assert (forall a, loaded_row ld a -> acc_MaxConcurrency a < max64) as Hrmax
    by (intros a (m' & gid & accs & E & H1 & H2); exact (proj1 (Hrows m' gid accs a E H1 H2))).
  assert (forall a t, loaded_row ld a -> acc_Template a = Some t -> ("" ∉ template_models t)) as Hrmod
    by (intros a t (m' & gid & accs & E & H1 & H2); exact (proj2 (Hrows m' gid accs a E H1 H2) t)).
  destruct (build_groups_inv shuffle defaultMax (sr_heap s) (sr_next s) (sr_byID s) (loaded_row ld) Hold (so_fresh s Hs) Hmax Hrmax
    Hsh (so_counters s Hs) Hrmod m) with (b := mkBuild (sr_heap s) (sr_next s) (∅ : gmap Z Loc)) (b' := b) (groups := groups)
    as (Hb & _ & Hg); [|apply build_inv_start, (so_fresh s Hs)|exact Eb|].
  { intros gid accs a H1 H2. exists m, gid, accs. auto. }
  pose proof (inherit_counters_id _ _ _ _ b Hb) as Hinh.
  assert (forall id l, b_byID b !! id = Some l -> exists a, b_heap b !! l = Some a /\ slots_ok a) as Hslots
    by (intros id l Hl; eapply (placed_slots (sr_heap s) (sr_next s) (sr_byID s) (loaded_row ld)); eauto using so_counters).
  destruct (ld_configs ld) as [[cfgs|]|]; [|discriminate|].
  - destruct (buildUpstreamSnapshots (sr_up s) groups cfgs (sr_upstreams s)) as [[up ups] groups'] eqn:Eu.
    intros [= <-]. exists b. cbn [sr_heap sr_byID sr_next sr_groups]. rewrite Hinh. split_and!; auto.
    eapply build_upstream_groups_ok; [exact Hg|exact Eu].
  - intros [= <-]. exists b. cbn [sr_heap sr_byID sr_next sr_groups]. rewrite Hinh. split_and!; auto.
Qed.

Lemma reload_ok `{U : UrlLib} (shuffle : list Loc -> list Loc) (defaultMax : Z) (ld : Loaded) (s s' : Store) :
  store_ok s -> 1 <= defaultMax < max64 -> (forall l, shuffle l ≡ₚ l) -> rows_ok ld ->
  reload shuffle defaultMax ld s = (s', true) -> store_ok s'.
Proof.
  intros Hs Hmax Hsh Hrows E. destruct (reload_build shuffle defaultMax ld s s' Hs Hmax Hsh Hrows E)
    as (b & Hb & Eh & Ei & En & Hslots & Hg).
  constructor; rewrite ?Eh, ?Ei, ?En.
  - intros id l Hl. destruct (Hslots id l Hl) as (a & Ha & Hsl).
    destruct (bi_placed _ _ _ _ b Hb id l Hl) as (x & r & Hx & Hr & Hid & _ & _ & _ & _ & Ht & _).
    rewrite Ha in Hx. injection Hx as <-. exists a. split; [exact Ha|]. split; [exact Hid|]. split; [exact Hsl|].
    destruct Hr as (m & gid & accs & Em & H1 & H2). exact (proj2 (Hrows m gid accs r Em H1 H2) _ Ht).
  - apply (bi_fresh _ _ _ _ b Hb).
  - intros l a Ha. destruct (bi_dom _ _ _ _ b Hb l a Ha) as [[a0 Ha0]|[id Hid]].
    + destruct (bi_old _ _ _ _ b Hb l a0 Ha0) as (x & Hx & Hd). rewrite Ha in Hx. injection Hx as <-.
      injection Hd as Hc _ _ _ _ _. rewrite Hc. eapply (so_counters s Hs), Ha0.
    + destruct (Hslots id l Hid) as (x & Hx & [Hc _]). rewrite Ha in Hx. injection Hx as <-. exact Hc.
  - exact Hg.
Qed.

(** ** Routes rebuilt in place *)

Definition update_account (s : Store) (l : Loc) (a : accountSnapshot) : Store := with_heap s (<[l := a]> (sr_heap s)).

Section Reroute.
Variable shuffle : list Loc -> list Loc.
Hypothesis shuffle_perm : forall l, shuffle l ≡ₚ l.

(** Routes built over well-formed accounts are sound. *)
Lemma wf_routes_ok (heap : gmap nat accountSnapshot) (accs : list Loc) :
  (forall l, l ∈ accs -> exists a, heap !! l = Some a /\ account_wf a) -> routes_ok heap (buildRoutes shuffle heap accs).
Proof.
  intros Hw. apply buildRoutes_ok; [exact shuffle_perm|intros l Hl; destruct (Hw l Hl) as (a & Ha & H & _); eauto|].
  intros H. apply elem_of_list_to_set, list_elem_of_In, in_concat in H as (ms & Hms & Hin).
  apply in_map_iff in Hms as (l & <- & Hl). destruct (Hw l (proj2 (list_elem_of_In _ _) Hl)) as (a & Ha & _ & Hm).
  assert (tpl_of heap l = Some (ss_tpl (as_static a))) as E by (unfold tpl_of; rewrite Ha; reflexivity).
  rewrite E in Hin. apply Hm, list_elem_of_In, Hin.
Qed.

Lemma reroute_ok (s : Store) (gid : Z) (g : groupSnapshot) : store_ok s -> group_ok (sr_heap s) (sr_byID s) gid g ->
  group_ok (sr_heap s) (sr_byID s) gid (reroute shuffle (sr_heap s) g (gs_accounts g)).
Proof.
  intros Hs (G1 & _ & _ & G4). split; [exact G1|]. cbn [reroute gs_routes gs_accounts].
  assert (forall l, l ∈ gs_accounts g -> exists a, sr_heap s !! l = Some a /\ account_wf a) as Hw
    by (intros l Hl; destruct (G1 l Hl) as [[id Hid] _]; destruct (so_byID s Hs id l Hid) as (a & Ha & _ & H); eauto).
  split; [intros k r l; apply buildRoutes_members; exact shuffle_perm|]. split; [|exact G4].
  apply wf_routes_ok; assumption.
Qed.

Lemma rebuildGroups_ok (s : Store) (gids : list Z) : store_ok s -> store_ok (rebuildGroups shuffle s gids).
Proof.
  intros Hs. destruct (Hs) as [H1 H2 H3 H4]. constructor; cbn; auto.
  assert (forall groups : gmap Z groupSnapshot, (forall gid g, groups !! gid = Some g -> group_ok (sr_heap s) (sr_byID s) gid g) -> forall gid g,
    fold_left (fun groups g => if g <=? 0 then groups else
      match sr_groups s !! g with Some gs => <[g := reroute shuffle (sr_heap s) gs (gs_accounts gs)]> groups | None => groups end)
      gids groups !! gid = Some g -> group_ok (sr_heap s) (sr_byID s) gid g) as Hfold; [|apply Hfold, H4].
  induction gids as [|g0 gids IH]; intros groups Hg; cbn [fold_left]; [exact Hg|]. apply IH.
  destruct (g0 <=? 0); [exact Hg|]. destruct (sr_groups s !! g0) as [gs|] eqn:E; [|exact Hg].
  intros gid g H. destruct (decide (gid = g0)) as [->|Hne].
  - rewrite lookup_insert_eq in H. injection H as <-. apply reroute_ok; [exact Hs|]. eapply H4, E.
  - rewrite lookup_insert_ne in H by congruence. eapply Hg, H.
Qed.

Lemma update_same_ok (s : Store) (l : Loc) (a a' : accountSnapshot) : store_ok s -> sr_heap s !! l = Some a ->
  same_identity a a' -> as_concurrency a' = as_concurrency a -> store_ok (update_account s l a').
Proof.
  intros Hs Ha Hid Hc. apply (store_ok_update s l a a'); try assumption. rewrite Hc. eapply (so_counters s Hs), Ha.
Qed.

End Reroute.
