(* ===== verification/GroupReload.v ===== *)
(** * Reloading one group ([internal/scheduler/scheduler.go], InvalidateGroup)

    A targeted reload rebuilds one group, keeps the instances the other groups
    share, restores their memberships, forgets accounts that left their last
    group and rebuilds the routes of every group that shares an account.  The
    store stays well formed and every process-local field is kept. *)

From Stdlib Require Import ZArith Lia List Bool String.
From stdpp Require Import base option list gmap strings sorting relations.
From S2P Require Import Prelude GoString Domain SchedTypes WeightedSeq Routes ModelNames AccountState Selection UpstreamPool Endpoints Snapshots StoreInv.
Import ListNotations.
Local Open Scope string_scope.
Local Open Scope Z_scope.

(** ** Heaps that differ in the recorded memberships only *)

Definition geq (h h' : gmap nat accountSnapshot) : Prop :=
  forall l : Loc, (fun a => set_groupIDs a []) <$> h !! l = (fun a => set_groupIDs a []) <$> h' !! l.

Instance geq_equivalence : Equivalence geq.
Proof. split; [intros h l; reflexivity|intros h h' H l; symmetry; apply H|intros a b c H1 H2 l; etransitivity; [apply H1|apply H2]]. Qed.

Lemma geq_lookup (h h' : gmap nat accountSnapshot) (l : Loc) (a : accountSnapshot) : geq h h' -> h !! l = Some a ->
  exists a', h' !! l = Some a' /\ set_groupIDs a [] = set_groupIDs a' [].
Proof.
  intros H Ha. specialize (H l). rewrite Ha in H. destruct (h' !! l) as [a'|]; [|discriminate].
  exists a'. split; [reflexivity|]. cbn in H. congruence.
Qed.

(** What the memberships do not touch. *)
Lemma geq_fields (a a' : accountSnapshot) : set_groupIDs a [] = set_groupIDs a' [] ->
  account_id a' = account_id a /\ slot_limit a' = slot_limit a /\ as_concurrency a' = as_concurrency a /\
  ss_tpl (as_static a') = ss_tpl (as_static a) /\ dynamic a' = dynamic a.
Proof.
  destruct a as [[]], a' as [[]]. unfold set_groupIDs, set_static, with_groupIDs. cbn. intros [= -> -> -> -> -> -> -> -> -> -> -> ->].
  split_and!; reflexivity.
Qed.

Lemma geq_id (h h' : gmap nat accountSnapshot) (l : Loc) : geq h h' -> id_of h l = id_of h' l.
Proof.
  intros H. unfold id_of. destruct (h !! l) as [a|] eqn:Ha.
  - destruct (geq_lookup h h' l a H Ha) as (a' & Ha' & E). rewrite Ha'. destruct (geq_fields a a' E) as (Ei & _).
    cbn. f_equal. symmetry. exact Ei.
  - destruct (h' !! l) as [a'|] eqn:Ha'; [|reflexivity].
    destruct (geq_lookup h' h l a' (symmetry H) Ha') as (x & Hx & _). congruence.
Qed.

Lemma geq_insert (h0 h : gmap nat accountSnapshot) (l : Loc) (a a' : accountSnapshot) : geq h0 h -> h !! l = Some a ->
  set_groupIDs a' [] = set_groupIDs a [] -> geq h0 (<[l := a']> h).
Proof.
  intros H Ha E k. rewrite (H k). destruct (decide (k = l)) as [->|Hne].
  - rewrite Ha, lookup_insert_eq. cbn. congruence.
  - rewrite lookup_insert_ne by congruence. reflexivity.
Qed.

Lemma geq_routes (h h' : gmap nat accountSnapshot) (routes : gmap routeKey route) (ls : list Loc) :
  (forall k r l, routes !! k = Some r -> l ∈ seq_members r -> l ∈ ls) ->
  (forall l a, l ∈ ls -> h !! l = Some a -> exists a', h' !! l = Some a' /\ set_groupIDs a [] = set_groupIDs a' []) ->
  routes_ok h routes -> routes_ok h' routes.
Proof.
  intros Hls Heq Hok f m r Hr. destruct (Hok f m r Hr) as [H1 H2]. split; intros l Hl.
  - destruct (H1 l Hl) as (a & Ha & Hs). destruct (Heq l a (Hls _ _ _ Hr Hl) Ha) as (a' & Ha' & E).
    destruct (geq_fields a a' E) as (_ & El & Ec & _). exists a'. split; [exact Ha'|]. unfold slots_ok. rewrite El, Ec. exact Hs.
  - intros model Hm. destruct (H1 l Hl) as (a & Ha & _). destruct (Heq l a (Hls _ _ _ Hr Hl) Ha) as (a' & Ha' & E).
    destruct (geq_fields a a' E) as (_ & _ & _ & Et & _). apply (may_serve_tpl h); [|auto].
    unfold tpl_of. rewrite Ha, Ha'. cbn. congruence.
Qed.

(** ** Group lists *)

Lemma removeGid_spec (gids : list Z) (g og : Z) : og ∈ removeGid gids g <-> og ∈ gids /\ og <> g.
Proof. unfold removeGid. rewrite filter_elem, negb_true_iff, Z.eqb_neq. tauto. Qed.

Lemma unique_fold (ids out : list Z) (x : Z) :
  x ∈ fold_left (fun out id => if existsb (Z.eqb id) out then out else (out ++ [id])%list) ids out <-> x ∈ out \/ x ∈ ids.
Proof.
  revert out. induction ids as [|id ids IH]; intros out; cbn [fold_left]; [rewrite elem_of_nil; tauto|].
  rewrite IH, elem_of_cons. destruct (existsb (Z.eqb id) out) eqn:E.
  - apply existsb_exists in E as (y & Hy & E%Z.eqb_eq). subst y. apply list_elem_of_In in Hy. split; [tauto|].
    intros [H|[->|H]]; tauto.
  - rewrite elem_of_app, list_elem_of_singleton. tauto.
Qed.

Lemma uniqueGroupIDs_spec (ids : list Z) (x : Z) : x ∈ uniqueGroupIDs ids <-> x ∈ ids.
Proof. unfold uniqueGroupIDs. destruct (_ <? _)%nat; [reflexivity|]. rewrite unique_fold, elem_of_nil. tauto. Qed.

Lemma place_all_index `{U : UrlLib} (dm : Z) (old : gmap Z Loc) (gid : Z) (accs : list (option Account)) : forall b b' ls,
  place_all dm old gid b accs = (b', ls) ->
  forall id l, b_byID b' !! id = Some l -> b_byID b !! id = Some l \/ l ∈ ls.
Proof.
  induction accs as [|o accs IH]; intros b b' ls; cbn [place_all]; [intros [= <- <-]; auto|].
  destruct (live o) as [[a t]|]; [|apply IH].
  destruct (place dm old gid b (a, t)) as [b1 l1] eqn:E1. destruct (place_all dm old gid b1 accs) as [b2 ls2] eqn:E2.
  intros [= <- <-] id l Hl. destruct (IH b1 b2 ls2 E2 id l Hl) as [H|H]; [|right; right; exact H].
  unfold place in E1. destruct (b_byID b !! acc_ID a) as [l0|] eqn:Eid; [injection E1 as <- <-; left; exact H|].
  destruct (old !! acc_ID a); injection E1 as <- <-; cbn [b_byID] in H;
    (destruct (decide (id = acc_ID a)) as [->|Hne];
     [rewrite lookup_insert_eq in H; injection H as <-; right; left|rewrite lookup_insert_ne in H by congruence; left; exact H]).
Qed.

(** The accounts of a row list that can be routed, by identifier. *)
Definition live_ids (accs : list (option Account)) : list Z := omap (fun o => (fun p => acc_ID p.1) <$> live o) accs.

Lemma place_id `{U : UrlLib} (dm : Z) (old : gmap Z Loc) (gid : Z) (b b' : Build) (a : Account) (t : Template) (l : Loc) :
  place dm old gid b (a, t) = (b', l) -> b_byID b ⊆ b_byID b' /\ b_byID b' !! acc_ID a = Some l.
Proof.
  unfold place. destruct (b_byID b !! acc_ID a) as [l0|] eqn:E; [intros [= <- <-]; auto|].
  destruct (old !! acc_ID a); intros [= <- <-]; cbn [b_byID]; (split; [apply insert_subseteq, E|apply lookup_insert_eq]).
Qed.

Lemma place_all_ids `{U : UrlLib} (dm : Z) (old : gmap Z Loc) (gid : Z) (accs : list (option Account)) : forall b b' ls,
  place_all dm old gid b accs = (b', ls) ->
  b_byID b ⊆ b_byID b' /\ Forall2 (fun id l => b_byID b' !! id = Some l) (live_ids accs) ls.
Proof.
  induction accs as [|o accs IH]; intros b b' ls; cbn [place_all]; [intros [= <- <-]; split; [reflexivity|constructor]|].
  unfold live_ids. cbn [omap list_omap]. destruct (live o) as [[a t]|]; [|apply IH]. cbn [fmap option_fmap option_map fst].
  destruct (place dm old gid b (a, t)) as [b1 l1] eqn:E1. destruct (place_all dm old gid b1 accs) as [b2 ls2] eqn:E2.
  intros [= <- <-]. destruct (place_id _ _ _ _ _ _ _ _ E1) as [H1 H2]. destruct (IH b1 b2 ls2 E2) as [H3 H4].
  split; [etransitivity; eassumption|]. constructor; [exact (lookup_weaken _ _ _ _ H2 H3)|exact H4].
Qed.

(** ** The reload *)

(** Rows the loader may answer for a group. *)
Definition group_rows_ok (accs : list (option Account)) : Prop :=
  forall a, Some a ∈ accs -> acc_MaxConcurrency a < max64 /\ forall t, acc_Template a = Some t -> ("" ∉ template_models t).

Section Group.
Context {U : UrlLib}.
Variable shuffle : list Loc -> list Loc.
Variable defaultMax : Z.
Hypothesis shuffle_perm : forall l, shuffle l ≡ₚ l.
Hypothesis max_ok : 1 <= defaultMax < max64.
Variable s : Store.
Hypothesis Hs : store_ok s.
Variable groupID : Z.
Variable accs : list (option Account).
Hypothesis rows : group_rows_ok accs.
Variable b : Build.
Variable newAccs : list Loc.
Hypothesis Hplace : place_all defaultMax (sr_byID s) groupID (mkBuild (sr_heap s) (sr_next s) ∅) accs = (b, newAccs).

Let row (a : Account) : Prop := Some a ∈ accs.
Let old : gmap Z (list Z) := memberships (sr_byID s) (sr_heap s).

Lemma old_instances : forall id l, sr_byID s !! id = Some l -> exists a0, sr_heap s !! l = Some a0 /\ account_id a0 = id.
Proof. intros id l Hl. destruct (so_byID s Hs id l Hl) as (a & Ha & Hid & _). eauto. Qed.

Lemma built : build_inv (sr_heap s) (sr_next s) (sr_byID s) row b /\
  forall l, l ∈ newAccs -> (exists id, b_byID b !! id = Some l) /\ member_of (b_heap b) l groupID.
Proof.
  destruct (place_all_inv defaultMax (sr_heap s) (sr_next s) (sr_byID s) row old_instances (so_fresh s Hs) max_ok
    (fun a Ha => proj1 (rows a Ha)) groupID accs (fun a H => H) _ b newAccs
    (build_inv_start (sr_heap s) (sr_next s) (sr_byID s) row (so_fresh s Hs)) Hplace) as (Hb & _ & Hls). auto.
Qed.

Lemma index_new (id : Z) (l : Loc) : b_byID b !! id = Some l -> l ∈ newAccs.
Proof. intros H. destruct (place_all_index _ _ _ _ _ _ _ Hplace id l H) as [E|E]; [cbn in E; rewrite lookup_empty in E; discriminate|exact E]. Qed.

(** An indexed account keeps its instance: if it is placed again, then there. *)
Lemma same_instance (id : Z) (l l' : Loc) : sr_byID s !! id = Some l -> b_byID b !! id = Some l' -> l' = l.
Proof.
  intros H H'. destruct (bi_placed _ _ _ _ b (proj1 built) id l' H') as (x & a & _ & _ & _ & _ & _ & _ & _ & _ & Hold).
  rewrite H in Hold. exact Hold.
Qed.

(** The identity of a known instance, placed again or not. *)
Lemma indexed_id (id : Z) (l : Loc) : sr_byID s !! id = Some l -> exists a, b_heap b !! l = Some a /\ account_id a = id.
Proof.
  intros H. destruct (old_instances id l H) as (a0 & Ha0 & Hid). destruct (bi_old _ _ _ _ b (proj1 built) l a0 Ha0) as (a & Ha & _).
  exists a. split; [exact Ha|]. destruct (decide (l ∈ newAccs)) as [Hnew|Hno].
  - destruct (proj2 built l Hnew) as [[id' H'] _].
    destruct (bi_placed _ _ _ _ b (proj1 built) id' l H') as (x & r & Hx & _ & Hxid & _ & _ & _ & _ & _ & Hold).
    rewrite Ha in Hx. injection Hx as <-. destruct (sr_byID s !! id') as [l0|] eqn:Eo.
    + subst l0. destruct (old_instances id' l Eo) as (a1 & Ha1 & Hid1). congruence.
    + destruct Hold as [Hge _]. rewrite (so_fresh s Hs) in Ha0 by exact Hge. discriminate.
  - rewrite (bi_untouched _ _ _ _ b (proj1 built) l a0 Ha0) in Ha by (intros id' E; apply Hno; eapply index_new, E). congruence.
Qed.

(** A new account of the group: its index entry and its identity. *)
Lemma new_id (l : Loc) : l ∈ newAccs -> exists id a, b_byID b !! id = Some l /\ b_heap b !! l = Some a /\ account_id a = id.
Proof.
  intros Hl. destruct (proj2 built l Hl) as [[id Hid] _].
  destruct (bi_placed _ _ _ _ b (proj1 built) id l Hid) as (a & r & Ha & _ & Haid & _). eauto.
Qed.

Lemma old_membership (id : Z) (l : Loc) (a0 : accountSnapshot) : sr_byID s !! id = Some l -> sr_heap s !! l = Some a0 ->
  old !! id = Some (ss_groupIDs (as_static a0)).
Proof. intros H Ha. unfold old, memberships, static_of. rewrite lookup_omap, H. cbn. rewrite Ha. reflexivity. Qed.

(** The memberships of a known instance in the other groups are on record. *)
Definition keeps (h : gmap nat accountSnapshot) (l : Loc) : Prop :=
  forall id a0 og, sr_byID s !! id = Some l -> sr_heap s !! l = Some a0 -> og <> groupID ->
    og ∈ ss_groupIDs (as_static a0) -> member_of h l og.

Lemma keeps_write (h : gmap nat accountSnapshot) (l k : Loc) (a : accountSnapshot) (ids : list Z) : geq (b_heap b) h -> h !! l = Some a ->
  (forall id og, sr_byID s !! id = Some l -> account_id a = id -> og ∈ default [] (old !! id) -> og <> groupID -> og ∈ ids) ->
  keeps h k \/ k = l -> forall x, set_groupIDs x [] = set_groupIDs a [] -> ss_groupIDs (as_static x) = ids -> keeps (<[l := x]> h) k.
Proof.
  intros Hg Ha Hids Hk x Hx Hxi id a0 og Hid Ha0 Hne Hog. destruct (decide (k = l)) as [->|Hkl].
  - exists x. rewrite lookup_insert_eq. split; [reflexivity|]. rewrite Hxi. apply (Hids id); [exact Hid| |rewrite (old_membership id l a0 Hid Ha0); exact Hog|exact Hne].
    destruct (indexed_id id l Hid) as (y & Hy & Hyid). destruct (geq_lookup _ _ _ _ Hg Hy) as (y' & Hy' & E).
    rewrite Ha in Hy'. injection Hy' as <-. destruct (geq_fields y a E) as (Ei & _). congruence.
  - destruct Hk as [Hk|]; [|contradiction]. destruct (Hk id a0 og Hid Ha0 Hne Hog) as (y & Hy & Hin).
    exists y. rewrite lookup_insert_ne by congruence. auto.
Qed.

(** *** Restoring the memberships *)

Lemma restore_step (h : gmap nat accountSnapshot) (l : Loc) : geq (b_heap b) h -> geq (b_heap b) (restore_membership old groupID h l) /\
  forall k, keeps h k \/ k = l -> keeps (restore_membership old groupID h l) k.
Proof.
  intros Hg. unfold restore_membership. destruct (h !! l) as [a|] eqn:Ha.
  - split; [eapply geq_insert; [exact Hg|exact Ha|reflexivity]|]. intros k Hk.
    eapply keeps_write; [exact Hg|exact Ha| |exact Hk|reflexivity|reflexivity].
    intros id og Hid <- Hog Hne. apply uniqueGroupIDs_spec. right. exact Hog.
  - split; [exact Hg|]. intros k [H| ->]; [exact H|]. intros id a0 og Hid _ _ _.
    destruct (indexed_id id l Hid) as (y & Hy & _). destruct (geq_lookup _ _ _ _ Hg Hy) as (y' & Hy' & _). congruence.
Qed.

Lemma restore_all (ls : list Loc) : forall h, geq (b_heap b) h -> (forall k, keeps h k \/ k ∈ ls) ->
  geq (b_heap b) (fold_left (restore_membership old groupID) ls h) /\ forall k, keeps (fold_left (restore_membership old groupID) ls h) k.
Proof.
  induction ls as [|l ls IH]; intros h Hg Hk; cbn [fold_left].
  - split; [exact Hg|]. intros k. destruct (Hk k) as [H|H]; [exact H|apply not_elem_of_nil in H; contradiction].
  - destruct (restore_step h l Hg) as [Hg' Hk']. apply IH; [exact Hg'|]. intros k.
    destruct (Hk k) as [H|[->|H]%elem_of_cons]; [left; auto..|right; exact H].
Qed.

Lemma untouched_keeps (k : Loc) : keeps (b_heap b) k \/ k ∈ newAccs.
Proof.
  destruct (decide (k ∈ newAccs)) as [H|H]; [right; exact H|left]. intros id a0 og Hid Ha0 _ Hog.
  exists a0. split; [|exact Hog]. apply (bi_untouched _ _ _ _ b (proj1 built) k a0 Ha0). intros id' E. apply H. eapply index_new, E.
Qed.

(** *** The index *)

(** While the index is edited: only memberships change; entries lead to known or
    to placed instances; an account with another group stays indexed. *)
Definition indexing (p : gmap nat accountSnapshot * gmap Z Loc) : Prop :=
  geq (b_heap b) p.1 /\ (forall id l, p.2 !! id = Some l -> sr_byID s !! id = Some l \/ b_byID b !! id = Some l) /\
  (forall id (l : Loc) a0 og, sr_byID s !! id = Some l -> sr_heap s !! l = Some a0 -> og <> groupID ->
     og ∈ ss_groupIDs (as_static a0) -> p.2 !! id = Some l) /\
  forall k, keeps p.1 k.

Lemma drop_step (newIDs : list Z) (p : gmap nat accountSnapshot * gmap Z Loc) (l : Loc) : indexing p ->
  indexing (drop_member old newIDs groupID p l).
Proof.
  destruct p as [h m]. intros (Hg & Hm & Hstay & Hk). cbn [fst snd] in *. unfold drop_member.
  destruct (h !! l) as [a|] eqn:Ha; [|exact (conj Hg (conj Hm (conj Hstay Hk)))].
  destruct (existsb _ newIDs); [exact (conj Hg (conj Hm (conj Hstay Hk)))|].
  set (ids := removeGid _ _). unfold indexing. cbn [fst snd]. split_and!.
  - eapply geq_insert; [exact Hg|exact Ha|reflexivity].
  - intros id k H. apply Hm. destruct ids; [apply lookup_delete_Some in H as [_ H]|]; exact H.
  - intros id k a0 og Hid Ha0 Hne Hog. pose proof (Hstay id k a0 og Hid Ha0 Hne Hog) as H.
    destruct ids as [|? ?] eqn:Ei; [|exact H]. rewrite lookup_delete_ne; [exact H|]. intros <-.
    assert (og ∈ ids) as Hin; [|rewrite Ei in Hin; apply not_elem_of_nil in Hin; exact Hin].
    unfold ids. apply removeGid_spec. split; [|exact Hne].
    pose proof (old_membership _ k a0 Hid Ha0) as Ho. rewrite Ho. exact Hog.
  - intros k. eapply keeps_write; [exact Hg|exact Ha| |left; apply Hk|reflexivity|reflexivity].
    intros id og _ <- Hog Hne. apply removeGid_spec. auto.
Qed.

Lemma drop_all (newIDs : list Z) (ls : list Loc) : forall p, indexing p -> indexing (fold_left (drop_member old newIDs groupID) ls p).
Proof. induction ls as [|l ls IH]; intros p Hp; cbn [fold_left]; [exact Hp|apply IH, drop_step, Hp]. Qed.

(** What becomes of a known account: it loses its entry if it was in the group,
    is not any more and is in no other group. *)
Definition leaves (ls : list Loc) (newIDs : list Z) (id : Z) (l : Loc) (a0 : accountSnapshot) : Prop :=
  l ∈ ls /\ (id ∉ newIDs) /\ removeGid (ss_groupIDs (as_static a0)) groupID = [].

#[local] Instance leaves_dec ls newIDs id l a0 : Decision (leaves ls newIDs id l a0).
Proof. unfold leaves. apply _. Defined.

Lemma drop_index (newIDs : list Z) (p : gmap nat accountSnapshot * gmap Z Loc) (k : Loc) (id : Z) (l : Loc) (a0 : accountSnapshot) :
  indexing p -> (exists idk, sr_byID s !! idk = Some k) -> sr_byID s !! id = Some l -> sr_heap s !! l = Some a0 ->
  (drop_member old newIDs groupID p k).2 !! id = if decide (leaves [k] newIDs id l a0) then None else p.2 !! id.
Proof.
  destruct p as [h m]. intros (Hg & _) [idk Hk] Hid Ha0. cbn [fst snd] in *. unfold drop_member.
  destruct (indexed_id idk k Hk) as (x & Hx & Hxid). destruct (geq_lookup _ _ _ _ Hg Hx) as (a & Ha & E).
  destruct (geq_fields x a E) as (Ei & _). rewrite Ha. change (acc_ID (ss_acc (as_static a))) with (account_id a).
  rewrite Ei, Hxid. unfold leaves.
  assert (l = k <-> id = idk) as Hsame.
  { split; [|congruence]. intros ->. destruct (indexed_id id k Hid) as (y & Hy & Hyid). congruence. }
  destruct (existsb (Z.eqb idk) newIDs) eqn:Ex.
  - rewrite decide_False; [reflexivity|]. intros (Hl%list_elem_of_singleton%Hsame & Hn & _). apply Hn.
    apply existsb_exists in Ex as (y & Hy & Heq%Z.eqb_eq). subst. apply list_elem_of_In, Hy.
  - assert (idk ∉ newIDs) as Hn.
    { intros Hin. apply not_true_iff_false in Ex. apply Ex, existsb_exists. exists idk. rewrite Z.eqb_eq. split; [apply list_elem_of_In, Hin|reflexivity]. }
    destruct (decide (id = idk)) as [->|Hne].
    + assert (default [] (old !! idk) = ss_groupIDs (as_static a0)) as Ho by (rewrite (old_membership idk l a0 Hid Ha0); reflexivity).
      rewrite Ho. cbn [snd].
      destruct (decide (_ /\ _)) as [(_ & _ & ->)|Hd]; [apply lookup_delete_eq|].
      destruct (removeGid _ groupID) eqn:Er; [|reflexivity]. exfalso. apply Hd.
      split; [apply list_elem_of_singleton, Hsame; reflexivity|auto].
    + rewrite decide_False by (intros (Hl%list_elem_of_singleton%Hsame & _); contradiction). cbn [snd].
      destruct (removeGid _ groupID); [apply lookup_delete_ne; congruence|reflexivity].
Qed.

Lemma drop_all_index (newIDs : list Z) (id : Z) (l : Loc) (a0 : accountSnapshot) (ls : list Loc) : forall p,
  indexing p -> (forall k, k ∈ ls -> exists idk, sr_byID s !! idk = Some k) -> sr_byID s !! id = Some l -> sr_heap s !! l = Some a0 ->
  (fold_left (drop_member old newIDs groupID) ls p).2 !! id = if decide (leaves ls newIDs id l a0) then None else p.2 !! id.
Proof.
  induction ls as [|k ls IH]; intros p Hp Hls Hid Ha0; cbn [fold_left].
  - rewrite decide_False; [reflexivity|]. intros (H & _). apply not_elem_of_nil in H. exact H.
  - rewrite (IH _ (drop_step newIDs p k Hp) (fun j Hj => Hls j ltac:(right; exact Hj)) Hid Ha0).
    rewrite (drop_index newIDs p k id l a0 Hp (Hls k ltac:(left)) Hid Ha0).
    assert (leaves (k :: ls) newIDs id l a0 <-> leaves ls newIDs id l a0 \/ leaves [k] newIDs id l a0) as Hiff.
    { unfold leaves. rewrite elem_of_cons, list_elem_of_singleton. tauto. }
    repeat destruct (decide _); tauto.
Qed.

(** A member of the group has its place: in the index and on its own list. *)
Definition seated (p : gmap nat accountSnapshot * gmap Z Loc) (l : Loc) : Prop :=
  (exists id, b_byID b !! id = Some l /\ p.2 !! id = Some l) /\ member_of p.1 l groupID.

Lemma index_member_spec (h : gmap nat accountSnapshot) (m : gmap Z Loc) (l : Loc) : geq (b_heap b) h -> l ∈ newAccs ->
  exists a id others, h !! l = Some a /\ b_byID b !! id = Some l /\
    (forall k, sr_byID s !! id = Some k -> others = removeGid (default [] (old !! id)) groupID) /\ account_id a = id /\
    index_member (sr_byID s) old groupID (h, m) l = (<[l := set_groupIDs a (groupID :: others)]> h, <[id := l]> m).
Proof.
  intros Hg Hl. destruct (new_id l Hl) as (id & x & Hid & Hx & Hxid). destruct (geq_lookup _ _ _ _ Hg Hx) as (a & Ha & E).
  destruct (geq_fields x a E) as (Ei & _). exists a, id. unfold index_member. rewrite Ha.
  change (acc_ID (ss_acc (as_static a))) with (account_id a). rewrite Ei, Hxid. destruct (sr_byID s !! id) as [lo|] eqn:Eo.
  - pose proof (same_instance id lo l Eo Hid) as ->. rewrite Ha. eexists. split_and!; try reflexivity. exact Hid.
  - exists []. split_and!; try reflexivity; [exact Hid|congruence].
Qed.

Lemma index_frame (ls : list Loc) (id : Z) : forall p, geq (b_heap b) p.1 -> (forall l, l ∈ ls -> l ∈ newAccs) ->
  b_byID b !! id = None -> (fold_left (index_member (sr_byID s) old groupID) ls p).2 !! id = p.2 !! id.
Proof.
  induction ls as [|l ls IH]; intros [h m] Hg Hls Hid; cbn [fold_left]; [reflexivity|].
  destruct (index_member_spec h m l Hg (Hls l ltac:(left))) as (a & id' & others & Ha & Hid' & _ & _ & ->).
  rewrite IH; [cbn [snd]; apply lookup_insert_ne; congruence| |intros k Hk; apply Hls; right; exact Hk|exact Hid].
  cbn [fst]. eapply geq_insert; [exact Hg|exact Ha|reflexivity].
Qed.

Lemma index_step (p : gmap nat accountSnapshot * gmap Z Loc) (l : Loc) : indexing p -> l ∈ newAccs ->
  indexing (index_member (sr_byID s) old groupID p l) /\ seated (index_member (sr_byID s) old groupID p l) l /\
  forall k, seated p k -> seated (index_member (sr_byID s) old groupID p l) k.
Proof.
  destruct p as [h m]. intros (Hg & Hm & Hstay & Hk) Hl. cbn [fst snd] in *.
  destruct (index_member_spec h m l Hg Hl) as (a & id & others & Ha & Hid & Hoth & Haid & ->).
  unfold indexing, seated. cbn [fst snd]. split_and!.
  - eapply geq_insert; [exact Hg|exact Ha|reflexivity].
  - intros id' k H. destruct (decide (id' = id)) as [->|Hne]; [rewrite lookup_insert_eq in H; injection H as <-; right; exact Hid|].
    rewrite lookup_insert_ne in H by congruence. apply Hm, H.
  - intros id' k a0 og H' Ha0 Hne Hog. destruct (decide (id' = id)) as [->|Hne'].
    + rewrite lookup_insert_eq. f_equal. exact (same_instance id k l H' Hid).
    + rewrite lookup_insert_ne by congruence. eapply Hstay; eassumption.
  - intros k. eapply keeps_write; [exact Hg|exact Ha| |left; apply Hk|reflexivity|reflexivity].
    intros id' og H' E Hog Hne. assert (id' = id) as -> by congruence. rewrite (Hoth l H'). right. apply removeGid_spec. auto.
  - exists id. rewrite lookup_insert_eq. auto.
  - eexists. rewrite lookup_insert_eq. split; [reflexivity|]. left.
  - intros k [(id' & H1 & H2) (x & Hx & Hin)]. destruct (decide (k = l)) as [->|Hne].
    + split; [exists id; rewrite lookup_insert_eq; auto|]. eexists. rewrite lookup_insert_eq. split; [reflexivity|]. left.
    + split; [|exists x; rewrite lookup_insert_ne by congruence; auto].
      exists id'. split; [exact H1|]. rewrite lookup_insert_ne; [exact H2|]. congruence.
Qed.

Lemma index_all (ls : list Loc) : forall p (done : list Loc), indexing p -> (forall l, l ∈ ls -> l ∈ newAccs) -> (forall l, l ∈ done -> seated p l) ->
  let p' := fold_left (index_member (sr_byID s) old groupID) ls p in indexing p' /\ forall l, l ∈ done \/ l ∈ ls -> seated p' l.
Proof.
  induction ls as [|l ls IH]; intros p done Hp Hls Hd; cbn [fold_left].
  - split; [exact Hp|]. intros l [H|H]; [auto|apply not_elem_of_nil in H; contradiction].
  - destruct (index_step p l Hp (Hls l ltac:(left))) as (H1 & H2 & H3).
    destruct (IH _ (l :: done) H1 (fun k Hk => Hls k ltac:(right; exact Hk))) as [H4 H5].
    + intros k [->|Hk]%elem_of_cons; auto.
    + split; [exact H4|]. intros k [Hk|[->|Hk]%elem_of_cons]; apply H5; [left; right; exact Hk|left; left|right; exact Hk].
Qed.

(** *** The accounts afterwards *)

Lemma known_wf (id : Z) (l : Loc) : sr_byID s !! id = Some l \/ b_byID b !! id = Some l ->
  exists a, b_heap b !! l = Some a /\ account_id a = id /\ account_wf a.
Proof.
  assert (forall id, b_byID b !! id = Some l -> exists a, b_heap b !! l = Some a /\ account_id a = id /\ account_wf a) as Hnew.
  { intros i Hi. destruct (bi_placed _ _ _ _ b (proj1 built) i l Hi) as (a & r & Ha & Hr & Hid & _ & _ & _ & _ & Ht & _).
    destruct (placed_slots (sr_heap s) (sr_next s) (sr_byID s) row old_instances (so_counters s Hs) b i l (proj1 built) Hi) as (x & Hx & Hsl).
    rewrite Ha in Hx. injection Hx as <-. exists a. split; [exact Ha|]. split; [exact Hid|]. split; [exact Hsl|]. exact (proj2 (rows r Hr) _ Ht). }
  intros [H|H]; [|auto]. destruct (decide (l ∈ newAccs)) as [Hl|Hl].
  - destruct (new_id l Hl) as (id' & x & Hid' & Hx & Hxid). destruct (indexed_id id l H) as (y & Hy & Hyid).
    assert (id' = id) as -> by congruence. auto.
  - destruct (so_byID s Hs id l H) as (a & Ha & Hid & Hw). exists a. split; [|auto].
    apply (bi_untouched _ _ _ _ b (proj1 built) l a Ha). intros id' E. apply Hl. eapply index_new, E.
Qed.

Lemma built_counters (l : Loc) (a : accountSnapshot) : b_heap b !! l = Some a -> 0 <= as_concurrency a < max64.
Proof.
  intros Ha. destruct (bi_dom _ _ _ _ b (proj1 built) l a Ha) as [[a0 Ha0]|[id Hid]].
  - destruct (bi_old _ _ _ _ b (proj1 built) l a0 Ha0) as (x & Hx & Hd). rewrite Ha in Hx. injection Hx as <-.
    injection Hd as Hc _ _ _ _ _. rewrite Hc. eapply (so_counters s Hs), Ha0.
  - destruct (known_wf id l (or_intror Hid)) as (x & Hx & _ & [Hc _] & _). rewrite Ha in Hx. injection Hx as <-. exact Hc.
Qed.

(** *** The groups afterwards *)

Section Final.
Variable h : gmap nat accountSnapshot.
Variable m : gmap Z Loc.
Hypothesis Hidx : indexing (h, m).
Hypothesis Hseat : forall l, l ∈ newAccs -> seated (h, m) l.

Lemma final_account (id : Z) (l : Loc) : sr_byID s !! id = Some l \/ b_byID b !! id = Some l ->
  exists a, h !! l = Some a /\ account_id a = id /\ account_wf a.
Proof.
  intros H. destruct (known_wf id l H) as (x & Hx & Hid & [Hc Hl] & Hm). destruct Hidx as (Hg & _).
  destruct (geq_lookup _ _ _ _ Hg Hx) as (a & Ha & E). destruct (geq_fields x a E) as (Ei & El & Ec & Et & _).
  exists a. split; [exact Ha|]. split; [congruence|]. unfold account_wf, slots_ok. rewrite El, Ec, Et. auto.
Qed.

(** A group whose accounts are in place; its account routes may be stale. *)
Definition seats_ok (gid : Z) (g : groupSnapshot) : Prop :=
  (forall l, l ∈ gs_accounts g -> (exists id, m !! id = Some l) /\ member_of h l gid) /\
  (gid <> groupID -> forall l, l ∈ gs_accounts g -> exists id, sr_byID s !! id = Some l) /\ up_routes_ok (gs_upstreamRoutes g).

Lemma other_seats (gid : Z) (g : groupSnapshot) : gid <> groupID -> sr_groups s !! gid = Some g -> seats_ok gid g.
Proof.
  intros Hne Hg. destruct (so_groups s Hs gid g Hg) as (G1 & _ & _ & G4). destruct Hidx as (_ & _ & Hstay & Hk).
  split; [|split; [intros _ l Hl; exact (proj1 (G1 l Hl))|exact G4]]. intros l Hl. destruct (G1 l Hl) as [[id Hid] (a0 & Ha0 & Hin)].
  split; [exists id; eapply Hstay; eassumption|]. eapply Hk; eassumption.
Qed.

(** The new instances are the ones the other groups already have. *)
Lemma replace_members_id (gid : Z) (g : groupSnapshot) : gid <> groupID -> seats_ok gid g ->
  replace_members h (gs_accounts g) newAccs = gs_accounts g.
Proof.
  intros Hne (_ & Hold & _). specialize (Hold Hne). unfold replace_members.
  assert (forall l, l ∈ newAccs -> exists id, b_byID b !! id = Some l) as Hnew by (intros l Hl; exact (proj1 (proj2 built l Hl))).
  revert Hnew. generalize newAccs. intros ls. induction ls as [|l ls IH]; intros Hnew; cbn [fold_left]; [reflexivity|].
  assert (forall k, k ∈ ls -> exists id, b_byID b !! id = Some k) as Hnew' by (intros k Hk; apply Hnew; right; exact Hk).
  destruct (Hnew l ltac:(left)) as [id Hid]. destruct (final_account id l (or_intror Hid)) as (a & Ha & Haid & _).
  assert (id_of h l = Some id) as -> by (unfold id_of; rewrite Ha; cbn; f_equal; exact Haid).
  destruct (last _) as [i|] eqn:Ei; [|apply IH, Hnew'].
  apply last_Some_elem_of, filter_elem in Ei as [_ Ei%bool_decide_eq_true].
  destruct (gs_accounts g !! i) as [l'|] eqn:El; [|discriminate]. cbn in Ei.
  destruct (Hold l' (list_elem_of_lookup_2 _ _ _ El)) as [id' Hid'].
  destruct (final_account id' l' (or_introl Hid')) as (a' & Ha' & Haid' & _).
  unfold id_of in Ei. rewrite Ha' in Ei. injection Ei as Ei. assert (id' = id) as -> by (rewrite <- Haid', <- Ei; reflexivity).
  rewrite (same_instance id l' l Hid' Hid), list_insert_id by exact El. apply IH, Hnew'.
Qed.

Lemma rerouted_ok (gid : Z) (g : groupSnapshot) : gid <> groupID -> seats_ok gid g ->
  group_ok h m gid (reroute shuffle h g (replace_members h (gs_accounts g) newAccs)).
Proof.
  intros Hne Hg. rewrite (replace_members_id gid g Hne Hg). destruct Hg as (G1 & Hold & G4). split; [exact G1|]. cbn [reroute gs_routes gs_accounts].
  split; [intros k r l; apply buildRoutes_members; exact shuffle_perm|]. split; [|exact G4].
  apply wf_routes_ok; [exact shuffle_perm|]. intros l Hl. destruct (Hold Hne l Hl) as [id Hid].
  destruct (final_account id l (or_introl Hid)) as (a & Ha & _ & Hw). eauto.
Qed.

Lemma reloaded_ok : group_ok h m groupID (group_of shuffle (b_heap b) newAccs).
Proof.
  destruct (group_of_ok shuffle (sr_heap s) (sr_next s) (sr_byID s) row old_instances shuffle_perm (so_counters s Hs)
    (fun a t Ha => proj2 (rows a Ha) t) b b groupID newAccs (proj1 built) (proj1 built) ltac:(split; auto) (proj2 built))
    as (_ & G2 & G3 & G4).
  split; [intros l Hl; destruct (Hseat l Hl) as [(id & _ & Hid) Hm]; eauto|]. split; [exact G2|]. split; [|exact G4].
  apply (geq_routes (b_heap b) h _ newAccs G2); [|exact G3]. intros l a _ Ha. exact (geq_lookup _ _ _ _ (proj1 Hidx) Ha).
Qed.

(** A group none of whose accounts was reloaded keeps its routes. *)
Lemma untouched_ok (gid : Z) (g : groupSnapshot) : gid <> groupID -> sr_groups s !! gid = Some g ->
  (forall l, l ∈ gs_accounts g -> l ∉ newAccs) -> group_ok h m gid g.
Proof.
  intros Hne Hg Hno. destruct (so_groups s Hs gid g Hg) as (_ & G2 & G3 & G4).
  split; [exact (proj1 (other_seats gid g Hne Hg))|]. split; [exact G2|]. split; [|exact G4].
  apply (geq_routes (sr_heap s) h _ (gs_accounts g) G2); [|exact G3]. intros l a Hl Ha.
  apply (geq_lookup _ _ _ _ (proj1 Hidx)), (bi_untouched _ _ _ _ b (proj1 built) l a Ha).
  intros id E. apply (Hno l Hl). eapply index_new, E.
Qed.

Definition reroute_one (groups : gmap Z groupSnapshot) (og : Z) : gmap Z groupSnapshot :=
  match groups !! og with
  | Some g => <[og := reroute shuffle h g (replace_members h (gs_accounts g) newAccs)]> groups
  | None => groups
  end.

Lemma rerouted_seats (gid : Z) (g : groupSnapshot) : gid <> groupID -> seats_ok gid g ->
  seats_ok gid (reroute shuffle h g (replace_members h (gs_accounts g) newAccs)).
Proof.
  intros Hne Hg. pose proof (replace_members_id gid g Hne Hg) as E. unfold seats_ok. cbn [reroute gs_accounts gs_upstreamRoutes].
  rewrite E. exact Hg.
Qed.

Lemma reroute_accounts (ogs : list Z) : (forall og, og ∈ ogs -> og <> groupID) -> forall groups : gmap Z groupSnapshot,
  (forall gid g, groups !! gid = Some g -> seats_ok gid g) ->
  forall gid, gs_accounts <$> fold_left reroute_one ogs groups !! gid = gs_accounts <$> groups !! gid.
Proof.
  induction ogs as [|og ogs IH]; intros Hne groups Hg gid; cbn [fold_left]; [reflexivity|].
  pose proof (Hne og ltac:(left)) as Hog. unfold reroute_one at 2. destruct (groups !! og) as [g0|] eqn:E0.
  - rewrite IH; [|intros k Hk; apply Hne; right; exact Hk|].
    + destruct (decide (gid = og)) as [->|Hd]; [|rewrite lookup_insert_ne by congruence; reflexivity].
      rewrite lookup_insert_eq, E0. cbn. f_equal. apply (replace_members_id og); auto.
    + intros k g H. destruct (decide (k = og)) as [->|Hd]; [|rewrite lookup_insert_ne in H by congruence; auto].
      rewrite lookup_insert_eq in H. injection H as <-. apply rerouted_seats; auto.
  - apply IH; [intros k Hk; apply Hne; right; exact Hk|exact Hg].
Qed.

(** Once the groups that share an account are rerouted, every group is sound. *)
Lemma reroute_all (ogs : list Z) : (forall og, og ∈ ogs -> og <> groupID) -> forall groups : gmap Z groupSnapshot,
  (forall gid g, groups !! gid = Some g -> seats_ok gid g /\ (group_ok h m gid g \/ gid ∈ ogs)) ->
  forall gid g, fold_left reroute_one ogs groups !! gid = Some g -> group_ok h m gid g.
Proof.
  induction ogs as [|og ogs IH]; intros Hne groups Hg; cbn [fold_left].
  - intros gid g H. destruct (Hg gid g H) as [_ [Hok|Hin]]; [exact Hok|apply not_elem_of_nil in Hin; contradiction].
  - apply IH; [intros k Hk; apply Hne; right; exact Hk|]. unfold reroute_one. intros gid g H.
    destruct (groups !! og) as [g0|] eqn:E0.
    2: { destruct (Hg gid g H) as [H1 [H2|[->|H2]%elem_of_cons]]; [auto|congruence|auto]. }
    destruct (decide (gid = og)) as [->|Hd].
    + rewrite lookup_insert_eq in H. injection H as <-. destruct (Hg og g0 E0) as [Hseats _].
      pose proof (Hne og ltac:(left)) as Hog. split; [apply rerouted_seats; assumption|left; apply rerouted_ok; assumption].
    + rewrite lookup_insert_ne in H by congruence. destruct (Hg gid g H) as [H1 [H2|[->|H2]%elem_of_cons]]; [auto|congruence|auto].
Qed.

Lemma other_groups_spec (ids : list Z) (og : Z) : og ∈ other_groups (sr_byID s) old groupID ids <->
  exists id l, id ∈ ids /\ sr_byID s !! id = Some l /\ og ∈ default [] (old !! id) /\ og <> groupID.
Proof.
  unfold other_groups. rewrite list_elem_of_In, in_concat. split.
  - intros (x & Hx & Hin). apply in_map_iff in Hx as (id & <- & Hid). apply list_elem_of_In in Hid, Hin.
    destruct (sr_byID s !! id) as [l|] eqn:E; [|apply not_elem_of_nil in Hin; contradiction].
    apply removeGid_spec in Hin. exists id, l. tauto.
  - intros (id & l & Hid & E & Hog). exists (removeGid (default [] (old !! id)) groupID). split.
    + apply in_map_iff. exists id. rewrite E. split; [reflexivity|]. apply list_elem_of_In, Hid.
    + apply list_elem_of_In, removeGid_spec, Hog.
Qed.

Lemma published_seats (gid : Z) (g : groupSnapshot) :
  <[groupID := group_of shuffle (b_heap b) newAccs]> (sr_groups s) !! gid = Some g -> seats_ok gid g.
Proof.
  intros H. destruct (decide (gid = groupID)) as [->|Hne].
  - rewrite lookup_insert_eq in H. injection H as <-. destruct reloaded_ok as (G1 & _ & _ & G4). split; [exact G1|]. split; [congruence|exact G4].
  - rewrite lookup_insert_ne in H by congruence. apply other_seats; assumption.
Qed.

Lemma others_differ (ids : list Z) (og : Z) : og ∈ remove_dups (other_groups (sr_byID s) old groupID ids) -> og <> groupID.
Proof. intros H. apply elem_of_remove_dups, other_groups_spec in H as (id & l & _ & _ & _ & H). exact H. Qed.

Lemma final_groups (h1 : gmap nat accountSnapshot) : geq (b_heap b) h1 -> forall gid g,
  fold_left reroute_one (remove_dups (other_groups (sr_byID s) old groupID (omap (id_of h1) newAccs)))
    (<[groupID := group_of shuffle (b_heap b) newAccs]> (sr_groups s)) !! gid = Some g -> group_ok h m gid g.
Proof.
  intros Hg1. apply reroute_all; [apply others_differ|].
  - intros gid g H. split; [apply published_seats, H|]. destruct (decide (gid = groupID)) as [->|Hne].
    + rewrite lookup_insert_eq in H. injection H as <-. left. apply reloaded_ok.
    + rewrite lookup_insert_ne in H by congruence.
      destruct (decide (gid ∈ other_groups (sr_byID s) old groupID (omap (id_of h1) newAccs))) as [Hin|Hout];
        [right; apply elem_of_remove_dups, Hin|left].
      apply untouched_ok; try assumption. intros l Hl Hnew. apply Hout, other_groups_spec.
      destruct (so_groups s Hs gid g H) as (G1 & _). destruct (G1 l Hl) as [[id Hid] (a0 & Ha0 & Hin)].
      exists id, l. split; [|split; [exact Hid|split; [rewrite (old_membership id l a0 Hid Ha0); exact Hin|exact Hne]]].
      apply list_elem_of_omap. exists l. split; [exact Hnew|]. rewrite <- (geq_id _ _ l Hg1).
      destruct (indexed_id id l Hid) as (a & Ha & Haid). unfold id_of. rewrite Ha. cbn. f_equal. exact Haid.
Qed.

(** The store that is published, whatever becomes of the upstream part. *)
Lemma final_store (up : UpHeap) (ups : gmap Z upstreamSnapshot) (groups : gmap Z groupSnapshot) :
  (forall gid g, groups !! gid = Some g -> group_ok h m gid g) ->
  store_ok (mkStore h (b_next b) up groups m ups) /\
  forall (l : Loc) a0, sr_heap s !! l = Some a0 -> exists a, h !! l = Some a /\ dynamic a = dynamic a0.
Proof.
  intros Hgr. destruct Hidx as (Hg & Hm & _). cbn [fst snd] in Hg, Hm. split; [constructor; cbn|].
  - intros id l Hl. apply final_account, Hm, Hl.
  - intros l Hl. pose proof (bi_fresh _ _ _ _ b (proj1 built) l Hl) as Hn. specialize (Hg l). rewrite Hn in Hg.
    destruct (h !! l); [discriminate|reflexivity].
  - intros l a Ha. destruct (geq_lookup _ _ _ _ (symmetry Hg) Ha) as (x & Hx & E).
    destruct (geq_fields a x E) as (_ & _ & Ec & _). rewrite <- Ec. eapply built_counters, Hx.
  - exact Hgr.
  - intros l a0 Ha0. destruct (bi_old _ _ _ _ b (proj1 built) l a0 Ha0) as (x & Hx & Hd).
    destruct (geq_lookup _ _ _ _ Hg Hx) as (a & Ha & E). destruct (geq_fields x a E) as (_ & _ & _ & _ & Ed). exists a. split; congruence.
Qed.

End Final.

(** The reloaded group lists the accounts of its rows, in their order. *)
Lemma new_ids (h : gmap nat accountSnapshot) : geq (b_heap b) h -> omap (id_of h) newAccs = live_ids accs.
Proof.
  intros Hg. destruct (place_all_ids _ _ _ _ _ _ _ Hplace) as [_ H].
  revert H. generalize newAccs, (live_ids accs). intros ls0 ids0 H. induction H as [|id l ids ls Hid _ IH]; [reflexivity|].
  cbn. destruct (bi_placed _ _ _ _ b (proj1 built) id l Hid) as (a & _ & Ha & _ & Haid & _).
  assert (id_of h l = Some id) as -> by (rewrite <- (geq_id _ _ l Hg); unfold id_of; rewrite Ha; cbn; f_equal; exact Haid).
  f_equal. exact IH.
Qed.

Lemma row_indexed (id : Z) : id ∈ live_ids accs <-> is_Some (b_byID b !! id).
Proof.
  destruct (place_all_ids _ _ _ _ _ _ _ Hplace) as [_ H]. split.
  - intros Hid. apply list_elem_of_lookup in Hid as [i Hi]. destruct (Forall2_lookup_l _ _ _ _ _ H Hi) as (l & _ & Hl). eauto.
  - intros [l Hl]. pose proof (index_new id l Hl) as Hin. apply list_elem_of_lookup in Hin as [i Hi].
    destruct (Forall2_lookup_r _ _ _ _ _ H Hi) as (id' & Hid' & Hl').
    assert (id' = id) as ->; [|eapply list_elem_of_lookup_2, Hid'].
    eapply placed_inj; eapply (bi_placed _ _ _ _ b (proj1 built)); eassumption.
Qed.

Lemma reload_indexing (newIDs : list Z) :
  let h1 := fold_left (restore_membership old groupID) newAccs (b_heap b) in
  let p := match sr_groups s !! groupID with
           | Some g => fold_left (drop_member old newIDs groupID) (gs_accounts g) (h1, sr_byID s)
           | None => (h1, sr_byID s)
           end in
  let p' := fold_left (index_member (sr_byID s) old groupID) newAccs p in
  geq (b_heap b) h1 /\ indexing p' /\ (forall l, l ∈ newAccs -> seated p' l) /\
  (newIDs = live_ids accs -> forall id l a0, sr_byID s !! id = Some l -> sr_heap s !! l = Some a0 ->
     p'.2 !! id = if decide (leaves (from_option gs_accounts [] (sr_groups s !! groupID)) newIDs id l a0) then None else Some l).
Proof.
  intros h1 p p'. destruct (restore_all newAccs (b_heap b) ltac:(reflexivity) untouched_keeps) as [Hg Hk]. split; [exact Hg|].
  assert (indexing (h1, sr_byID s)) as H0.
  { split; [exact Hg|]. split; [auto|]. split; [|exact Hk]. intros id l a0 og H _ _ _. exact H. }
  assert (indexing p) as Hp by (unfold p; destruct (sr_groups s !! groupID); [apply drop_all|]; exact H0).
  destruct (index_all newAccs p [] Hp (fun l H => H)) as [H1 H2]; [intros l H; apply not_elem_of_nil in H; contradiction|].
  fold p' in H1, H2. assert (forall l, l ∈ newAccs -> seated p' l) as Hseat by (intros l Hl; apply H2; right; exact Hl).
  split; [exact H1|]. split; [exact Hseat|]. intros -> id l a0 Hid Ha0. destruct (b_byID b !! id) as [l'|] eqn:Eb.
  - pose proof (same_instance id l l' Hid Eb) as ->. rewrite decide_False by (intros (_ & Hn & _); apply Hn, row_indexed; eauto).
    destruct (Hseat l (index_new id l Eb)) as [(id2 & Hb2 & Hm2) _].
    assert (id2 = id) as <- by (eapply placed_inj; eapply (bi_placed _ _ _ _ b (proj1 built)); eassumption). exact Hm2.
  - unfold p'. rewrite (index_frame newAccs id p (proj1 Hp) (fun l H => H) Eb).
    unfold p. destruct (sr_groups s !! groupID) as [g|] eqn:Eg; cbn [from_option].
    + rewrite (drop_all_index (live_ids accs) id l a0 (gs_accounts g) (h1, sr_byID s) H0) by
        (try assumption; intros j Hj; exact (proj1 (proj1 (so_groups s Hs groupID g Eg) j Hj))). cbn [snd]. rewrite Hid. reflexivity.
    + rewrite decide_False by (intros (Hn & _); apply not_elem_of_nil in Hn; exact Hn). exact Hid.
Qed.

End Group.

Lemma build_upstream_accounts `{U : UrlLib} (old : gmap Z upstreamSnapshot) (configs : list (Z * option GroupConfig)) :
  forall h byID groups h' byID' groups', build_upstream_groups old h byID groups configs = (h', byID', groups') ->
  forall gid g, groups !! gid = Some g -> exists g', groups' !! gid = Some g' /\ gs_accounts g' = gs_accounts g.
Proof.
  induction configs as [|[gid0 [cfg|]] configs IH]; intros h byID groups h' byID' groups'; cbn [build_upstream_groups].
  - intros [= <- <- <-]. eauto.
  - set (g0 := clear_upstreams cfg (default empty_group (groups !! gid0))).
    assert (forall x, gs_accounts x = gs_accounts g0 -> forall gid g, groups !! gid = Some g ->
      exists y, <[gid0 := x]> groups !! gid = Some y /\ gs_accounts y = gs_accounts g) as Hins.
    { intros x Hx gid g Hg. destruct (decide (gid = gid0)) as [->|Hne]; [|exists g; rewrite lookup_insert_ne by congruence; auto].
      exists x. rewrite lookup_insert_eq. split; [reflexivity|]. rewrite Hx. unfold g0. rewrite Hg. reflexivity. }
    destruct (negb _); [|destruct (build_members old h byID (gc_UpstreamMembers cfg)) as [[h1 byID1] pool]]; intros E gid g Hg;
      (edestruct Hins as (y & Hy & Ey); [| exact Hg|edestruct IH as (z & Hz & Ez); [exact E|exact Hy|exists z; split; [exact Hz|congruence]]]; reflexivity).
  - apply IH.
Qed.

(** A reload of one group in its parts. *)
Lemma InvalidateGroup_spec `{U : UrlLib} (shuffle : list Loc -> list Loc) (defaultMax groupID : Z) (accs : list (option Account))
    (configs : option (option (list (Z * option GroupConfig)))) (s : Store) :
  store_ok s -> 1 <= defaultMax < max64 -> (forall l, shuffle l ≡ₚ l) -> group_rows_ok accs -> configs <> Some None ->
  let s' := InvalidateGroup shuffle defaultMax groupID (Some accs) configs s in
  exists b newAccs, place_all defaultMax (sr_byID s) groupID (mkBuild (sr_heap s) (sr_next s) ∅) accs = (b, newAccs) /\
  store_ok s' /\ geq (b_heap b) (sr_heap s') /\
  (forall (l : Loc) a0, sr_heap s !! l = Some a0 -> exists a, sr_heap s' !! l = Some a /\ dynamic a = dynamic a0) /\
  (forall gid g, <[groupID := group_of shuffle (b_heap b) newAccs]> (sr_groups s) !! gid = Some g ->
     exists g', sr_groups s' !! gid = Some g' /\ gs_accounts g' = gs_accounts g) /\
  (forall id, (forall l, sr_byID s' !! id = Some l -> sr_byID s !! id = Some l \/ b_byID b !! id = Some l) /\
     (id ∈ live_ids accs -> is_Some (sr_byID s' !! id))) /\
  (forall id l a0, sr_byID s !! id = Some l -> sr_heap s !! l = Some a0 -> sr_byID s' !! id =
     if decide (leaves groupID (from_option gs_accounts [] (sr_groups s !! groupID)) (live_ids accs) id l a0) then None else Some l).
Proof.
  intros Hs Hmax Hsh Hrows Hcfg. cbv zeta. unfold InvalidateGroup.
  destruct (place_all defaultMax (sr_byID s) groupID (mkBuild (sr_heap s) (sr_next s) ∅) accs) as [b newAccs] eqn:Hp.
  cbv zeta. set (h1 := fold_left (restore_membership _ _) newAccs (b_heap b)).
  destruct (reload_indexing defaultMax Hmax s Hs groupID accs Hrows b newAccs Hp (omap (id_of h1) newAccs)) as (Hg1 & Hidx & Hseat & Hind).
  fold h1 in Hg1, Hidx, Hseat, Hind. pose proof (new_ids defaultMax Hmax s Hs groupID accs Hrows b newAccs Hp h1 Hg1) as Eids.
  rewrite Eids in *. specialize (Hind eq_refl).
  destruct (match sr_groups s !! groupID with Some g => _ | None => _ end) as [h2 m2].
  destruct (fold_left (index_member _ _ _) newAccs (h2, m2)) as [h m].
  pose proof (final_groups shuffle defaultMax Hsh Hmax s Hs groupID accs Hrows b newAccs Hp h m Hidx Hseat h1 Hg1) as Hgr.
  pose proof (reroute_accounts shuffle defaultMax Hmax s Hs groupID accs Hrows b newAccs Hp h m Hidx
    _ (others_differ defaultMax Hmax s groupID (live_ids accs)) _ (published_seats shuffle defaultMax Hsh Hmax s Hs groupID accs Hrows b newAccs Hp h m Hidx Hseat)) as Hacc.
  rewrite Eids in Hgr. unfold reroute_one in Hgr, Hacc. exists b, newAccs. split; [reflexivity|].
  set (groups := fold_left _ (remove_dups _) _) in *.
  assert (forall gid g, <[groupID := group_of shuffle (b_heap b) newAccs]> (sr_groups s) !! gid = Some g ->
    exists g', groups !! gid = Some g' /\ gs_accounts g' = gs_accounts g) as Hacc'.
  { intros gid g Hg. specialize (Hacc gid). rewrite Hg in Hacc. destruct (groups !! gid) as [g'|]; [|discriminate].
    exists g'. split; [reflexivity|]. cbn in Hacc. congruence. }
  assert (forall id, (forall l, m !! id = Some l -> sr_byID s !! id = Some l \/ b_byID b !! id = Some l) /\
     (id ∈ live_ids accs -> is_Some (m !! id))) as Hrow.
  { intros id. destruct Hidx as (_ & Hm & _). split; [apply Hm|]. intros Hin.
    destruct (proj1 (row_indexed defaultMax Hmax s Hs groupID accs Hrows b newAccs Hp id) Hin) as [l Hl].
    destruct (Hseat l (index_new defaultMax s groupID accs b newAccs Hp id l Hl)) as [(id2 & Hb2 & Hm2) _].
    assert (id2 = id) as <-; [|eauto]. pose proof (proj1 (built defaultMax Hmax s Hs groupID accs Hrows b newAccs Hp)) as Hb.
    eapply placed_inj; eapply (bi_placed _ _ _ _ b Hb); eassumption. }
  destruct configs as [[cfgs|]|]; [|contradiction|].
  - destruct (buildUpstreamSnapshots _ _ cfgs _) as [[up ups] groups'] eqn:Eu. cbn [sr_heap sr_byID sr_groups].
    destruct (final_store defaultMax Hmax s Hs groupID accs Hrows b newAccs Hp h m Hidx up ups groups'
      (build_upstream_groups_ok h m _ _ _ _ _ _ _ _ Hgr Eu)) as [H1 H2].
    split; [exact H1|]. split; [exact (proj1 Hidx)|]. split; [exact H2|]. split; [|auto].
    intros gid g Hg. destruct (Hacc' gid g Hg) as (y & Hy & Ey).
    destruct (build_upstream_accounts _ _ _ _ _ _ _ _ Eu gid y Hy) as (z & Hz & Ez). exists z. split; [exact Hz|congruence].
  - destruct (final_store defaultMax Hmax s Hs groupID accs Hrows b newAccs Hp h m Hidx (sr_up s) (sr_upstreams s) groups Hgr) as [H1 H2].
    cbn [sr_heap sr_byID sr_groups]. split; [exact H1|]. split; [exact (proj1 Hidx)|]. auto.
Qed.

(** A targeted reload whose queries succeed keeps the store well formed and
    every process-local field of every instance. *)
Corollary InvalidateGroup_ok `{U : UrlLib} (shuffle : list Loc -> list Loc) (defaultMax groupID : Z) (accs : list (option Account))
    (configs : option (option (list (Z * option GroupConfig)))) (s : Store) :
  store_ok s -> 1 <= defaultMax < max64 -> (forall l, shuffle l ≡ₚ l) -> group_rows_ok accs -> configs <> Some None ->
  let s' := InvalidateGroup shuffle defaultMax groupID (Some accs) configs s in
  store_ok s' /\
  forall (l : Loc) a0, sr_heap s !! l = Some a0 -> exists a, sr_heap s' !! l = Some a /\ dynamic a = dynamic a0.
Proof.
  intros Hs Hmax Hsh Hrows Hcfg.
  destruct (InvalidateGroup_spec shuffle defaultMax groupID accs configs s Hs Hmax Hsh Hrows Hcfg) as (b & ls & _ & H1 & _ & H2 & _). auto.
Qed.

(** Reloading one group changes exactly that group's membership.  The group
    then lists the accounts of its rows, in their order; every other group keeps
    its accounts, as the same instances.  An account that is in a row is indexed.
    A known account keeps its instance and its entry, unless it was in the group,
    has no row any more and is in no other group: only then is it forgotten.
    No other entry appears. *)
Theorem group_reload_exact `{U : UrlLib} (shuffle : list Loc -> list Loc) (defaultMax groupID : Z) (accs : list (option Account))
    (configs : option (option (list (Z * option GroupConfig)))) (s : Store) :
  store_ok s -> 1 <= defaultMax < max64 -> (forall l, shuffle l ≡ₚ l) -> group_rows_ok accs -> configs <> Some None ->
  let s' := InvalidateGroup shuffle defaultMax groupID (Some accs) configs s in
  (exists g', sr_groups s' !! groupID = Some g' /\ omap (id_of (sr_heap s')) (gs_accounts g') = live_ids accs) /\
  (forall og g, og <> groupID -> sr_groups s !! og = Some g ->
     exists g', sr_groups s' !! og = Some g' /\ gs_accounts g' = gs_accounts g) /\
  (forall id, id ∈ live_ids accs -> is_Some (sr_byID s' !! id)) /\
  (forall id l, sr_byID s' !! id = Some l -> sr_byID s !! id = Some l \/ id ∈ live_ids accs) /\
  (forall id l a0, sr_byID s !! id = Some l -> sr_heap s !! l = Some a0 -> sr_byID s' !! id =
     if decide (leaves groupID (from_option gs_accounts [] (sr_groups s !! groupID)) (live_ids accs) id l a0) then None else Some l).
Proof.
  intros Hs Hmax Hsh Hrows Hcfg. cbv zeta.
  destruct (InvalidateGroup_spec shuffle defaultMax groupID accs configs s Hs Hmax Hsh Hrows Hcfg) as (b & ls & Hp & _ & Hg & _ & H1 & H2 & H3).
  split_and!; [| |intros id; apply (proj2 (H2 id))| |exact H3].
  - destruct (H1 groupID _ (lookup_insert_eq _ _ _)) as (g' & Hg' & E). exists g'. split; [exact Hg'|]. rewrite E.
    apply (new_ids defaultMax Hmax s Hs groupID accs Hrows b ls Hp _ Hg).
  - intros og g Hne Ho. apply H1. rewrite lookup_insert_ne by congruence. exact Ho.
  - intros id l Hl. destruct (proj1 (H2 id) l Hl) as [H|H]; [auto|right]. apply (row_indexed defaultMax Hmax s Hs groupID accs Hrows b ls Hp). eauto.
Qed.
