(* ===== verification/Scheduler.v ===== *)
(** * The scheduler as a whole ([internal/scheduler])

    The state machine over the store and what holds in every reachable state:
    soundness of every answer, continuity of counters and cooldowns across
    reloads, exact slots; and the windows in which a reload is visible. *)

From Stdlib Require Import ZArith Lia List Bool String.
From stdpp Require Import base option list gmap strings sorting relations.
From S2P Require Import Prelude GoString Domain GoTime RuleTypes SchedTypes WeightedSeq Routes ModelNames AccountState Selection UpstreamPool Endpoints Snapshots StoreInv GroupReload.
Import ListNotations.
Local Open Scope string_scope.
Local Open Scope Z_scope.

(** ** Reloads *)

(** A full reload keeps what belongs to the process.  Every account
    instance in memory -- also one that left every group while requests on it
    are in flight -- keeps its slot counter, error rate, 429 streak, error count,
    last error and last use.  An account that was known keeps its instance; a new
    one starts with zero counters.  The status is the row's; the cooldown is the
    row's when it has one and otherwise the one in memory, so that no reload
    cuts a cooldown short.  No two accounts share an instance. *)
Theorem reload_keeps_runtime `{U : UrlLib} (shuffle : list Loc -> list Loc) (defaultMax : Z) (ld : Loaded) (s s' : Store) :
  store_ok s -> 1 <= defaultMax < max64 -> (forall l, shuffle l ≡ₚ l) -> rows_ok ld ->
  reload shuffle defaultMax ld s = (s', true) ->
  (forall (l : Loc) a0, sr_heap s !! l = Some a0 -> exists a, sr_heap s' !! l = Some a /\ dynamic a = dynamic a0) /\
  (forall id l, sr_byID s' !! id = Some l -> exists a row, sr_heap s' !! l = Some a /\ loaded_row ld row /\
     account_id a = id /\ acc_ID row = id /\ 1 <= slot_limit a /\ st_status (as_state a) = acc_Status row /\
     match sr_byID s !! id with
     | Some l0 => l = l0 /\ forall a0, sr_heap s !! l0 = Some a0 -> st_cooldownUntil (as_state a) =
         match acc_CooldownUntil row with Some c => Some c | None => st_cooldownUntil (as_state a0) end
     | None => dynamic a = (0, 0, 0, 0, None, None) /\ st_cooldownUntil (as_state a) = acc_CooldownUntil row
     end) /\
  (forall id id' l, sr_byID s' !! id = Some l -> sr_byID s' !! id' = Some l -> id = id').
Proof.
  intros Hs Hmax Hsh Hrows E. destruct (reload_build shuffle defaultMax ld s s' Hs Hmax Hsh Hrows E)
    as (b & Hb & Eh & Ei & _). rewrite Eh, Ei. split; [apply (bi_old _ _ _ _ b Hb)|]. split.
  - intros id l Hl. destruct (bi_placed _ _ _ _ b Hb id l Hl) as (a & r & Ha & Hr & Hid & Hrid & Hlim & Hst & Hcd & _ & Hold).
    exists a, r. split_and!; try assumption; [lia|]. unfold synced_cooldown in Hcd. rewrite Hrid in Hcd.
    destruct (sr_byID s !! id) as [l0|].
    + split; [exact Hold|]. intros a0 Ha0. rewrite Ha0 in Hcd. exact Hcd.
    + destruct Hold as [_ Hd]. split; [exact Hd|]. rewrite Hcd. destruct (acc_CooldownUntil r); reflexivity.
  - intros id id' l H H'. eapply placed_inj; eapply (bi_placed _ _ _ _ b Hb); eassumption.
Qed.

(** ** The scheduler as a state machine *)

Definition empty_store : Store := mkStore ∅ 0%nat (mkUpHeap ∅ ∅ 0%nat) ∅ ∅ ∅.

Section Machine.
Context {U : UrlLib}.
Variable shuffle : list Loc -> list Loc.
Variable defaultMax : Z.
Hypothesis shuffle_perm : forall l, shuffle l ≡ₚ l.
Hypothesis max_ok : 1 <= defaultMax < max64.

(** What happens to the store: complete and targeted reloads, requests and their ends, result
    feedback, rule actions (with the rebuild of the routes when they change a
    weight) and permanent failures.  A reload whose account query fails is a step
    too; one that reads the accounts and then fails on the upstream
    configurations is not ([failed_reload_changes_accounts]). *)
Inductive sched_step : Store -> Store -> Prop :=
| ss_reload ld s s' ok : rows_ok ld -> ld_configs ld <> Some None -> reload shuffle defaultMax ld s = (s', ok) -> sched_step s s'
| ss_group_reload gid loaded configs s : (forall accs, loaded = Some accs -> group_rows_ok accs) -> configs <> Some None ->
    sched_step s (InvalidateGroup shuffle defaultMax gid loaded configs s)
| ss_select env used gid format model s s' res : 1 <= pe_instances env ->
    SelectExcluding env used s gid format model = Some (s', res) -> sched_step s s'
| ss_release sel sel' s s' : release s sel = (s', sel') -> sched_step s s'
| ss_result s id l a needsOK now gid kind resetAt http msg model : sr_byID s !! id = Some l -> sr_heap s !! l = Some a ->
    sched_step s (update_account s l (markResult needsOK now a gid kind resetAt http msg model).1)
| ss_fail s id l a now reason : sr_byID s !! id = Some l -> sr_heap s !! l = Some a ->
    sched_step s (update_account s l (FailAccount now a reason).1)
| ss_apply s id l a now st cd weight msg a' rebuild w : sr_byID s !! id = Some l -> sr_heap s !! l = Some a ->
    apply now a st cd weight msg = (a', rebuild, w) ->
    sched_step s (rebuildGroups shuffle (update_account s l a') rebuild)
| ss_upstream_result s item kind resetAt msg now :
    sched_step s (mkStore (sr_heap s) (sr_next s) (mark_upstream_result (sr_up s) item kind resetAt msg now).1
      (sr_groups s) (sr_byID s) (sr_upstreams s)).

Lemma markResult_same (needsOK : bool) (now : Time) (a : accountSnapshot) (gid : Z) (kind : Kind) (resetAt : option Time)
    (http : Z) (msg model : string) :
  let a' := (markResult needsOK now a gid kind resetAt http msg model).1 in
  as_static a' = as_static a /\ as_concurrency a' = as_concurrency a.
Proof.
  unfold markResult. destruct (_ ==s _); [split; reflexivity|].
  destruct (kind =? Kind429); (destruct (_ && _); split; reflexivity).
Qed.

Lemma FailAccount_same (now : Time) (a : accountSnapshot) (reason : string) :
  let a' := (FailAccount now a reason).1 in as_static a' = as_static a /\ as_concurrency a' = as_concurrency a.
Proof. unfold FailAccount. destruct (fail_next _ _ _); split; reflexivity. Qed.

Lemma apply_same (now : Time) (a a' : accountSnapshot) (st : option AccountStatus) (cd : option Time) (weight : option Z)
    (msg : string) (rebuild : list Z) (w : option statusWrite) : apply now a st cd weight msg = (a', rebuild, w) ->
  same_identity a a' /\ as_concurrency a' = as_concurrency a.
Proof.
  unfold apply, same_identity. destruct (apply_next _ _ _ _ _); [|intros [= <- <- <-]; auto].
  destruct st, weight; cbv zeta; match goal with |- context [if ?c then _ else _] => destruct c end; intros [= <- <- <-]; split_and!; reflexivity.
Qed.

(** A reload that fails before it read the accounts leaves the store alone. *)
Lemma reload_unread (shuffle' : list Loc -> list Loc) (max : Z) (ld : Loaded) (s s' : Store) : ld_configs ld <> Some None ->
  reload shuffle' max ld s = (s', false) -> s' = s.
Proof.
  intros Hc. unfold reload. destruct (ld_accounts ld) as [m|]; [|intros [= <-]; reflexivity]. destruct (buildSnapshots _ _ _ _ _ _) as [b groups].
  destruct (ld_configs ld) as [[configs|]|]; [|contradiction|discriminate]. destruct (buildUpstreamSnapshots _ _ _ _) as [[up ups] g]. discriminate.
Qed.

Lemma sched_step_ok (s s' : Store) : store_ok s -> sched_step s s' -> store_ok s'.
Proof.
  intros Hs H. destruct H as [ld s s' ok Hr Hc E|gid loaded configs s Hr Hc|env used gid format model s s' res Hn E|sel sel' s s' E
    |s id l a needsOK now gid kind resetAt http msg model Hid Ha|s id l a now reason Hid Ha
    |s id l a now st cd weight msg a' rebuild w Hid Ha E|s item kind resetAt msg now].
  - destruct ok; [eapply reload_ok; eassumption|]. rewrite (reload_unread _ _ _ _ _ Hc E). exact Hs.
  - destruct loaded as [accs|]; [apply InvalidateGroup_ok; auto|exact Hs].
  - eapply select_ok; eassumption.
  - eapply release_ok; eassumption.
  - destruct (markResult_same needsOK now a gid kind resetAt http msg model) as [E1 E2].
    eapply update_same_ok; [exact Hs|exact Ha|apply same_static, E1|exact E2].
  - destruct (FailAccount_same now a reason) as [E1 E2].
    eapply update_same_ok; [exact Hs|exact Ha|apply same_static, E1|exact E2].
  - destruct (apply_same _ _ _ _ _ _ _ _ _ E) as [E1 E2]. apply rebuildGroups_ok; [exact shuffle_perm|].
    eapply update_same_ok; eassumption.
  - apply store_ok_up, Hs.
Qed.

Lemma empty_store_ok : store_ok empty_store.
Proof. constructor; cbn; [intros id l H|reflexivity|intros l a H|intros gid g H]; rewrite lookup_empty in H; discriminate. Qed.

Lemma reachable_store_ok (s : Store) : rtc sched_step empty_store s -> store_ok s.
Proof.
  intros H. apply (rtc_ind_r (R := sched_step) (fun s => store_ok s)) with (x := empty_store); [apply empty_store_ok| |exact H].
  intros a b _ Hab IH. eapply sched_step_ok; eassumption.
Qed.

(** C3: From start-up on, through any sequence of full reloads, reloads of one
    group (complete ones, or failed before they read the accounts; of rows without
    an empty model name and with limits below 2^63 - 1), requests, releases,
    results, rule actions and failures, the store stays well formed: every index
    entry names the account it leads to, counters and limits are sane, every
    account of a route may serve the route's model.  Therefore every request that
    is answered is sent to a target that may take it: an account that is enabled,
    not excluded, not disabled, out of cooldown, below its limit and whose
    template allows the resolved model; or an upstream member that is enabled,
    not excluded, out of cooldown, below its limit and lists the model (or, for a
    Chat request, has a catalogue that was never read). *)
Theorem scheduler_sound (s s' : Store) (env : PickEnv) (used : Time) (gid : Z) (format model : string) (sel : SelectionT) :
  rtc sched_step empty_store s -> 1 <= pe_instances env ->
  SelectExcluding env used s gid format model = Some (s', inl sel) ->
  store_ok s /\ store_ok s' /\ exists gs, sr_groups s !! gid = Some gs /\
  match sel_TargetKind sel with
  | TargetKindAccount => exists l a, sel_accountRef sel = Some l /\ sr_heap s !! l = Some a /\ sel_AccountID sel = account_id a /\
      admissible env a /\ may_serve (sr_heap s) format (resolve_account_model (account_view gs) format model) l
  | TargetKindUpstreamMember => exists item, sel_upstreamRef sel = Some item /\ sel_TargetID sel = gu_ID (up_member item) /\
      member_ok (sr_up s) (pe_now env) (pe_excluded env) item = true /\
      (serves_model format (canonicalModelID (resolve_upstream_model (upstream_view gs) format model)) item \/
       serves_model format "" item)
  end.
Proof.
  intros Hr Hn E. pose proof (reachable_store_ok s Hr) as Hs. split; [exact Hs|].
  split; [eapply select_ok; eassumption|]. unfold SelectExcluding in E.
  destruct (sr_groups s !! gid) as [gs|] eqn:Eg; [|discriminate]. exists gs. split; [reflexivity|].
  destruct (so_groups s Hs gid gs Eg) as (_ & _ & G2 & G3). destruct (gs_routingMode gs ==s GroupRoutingModeUpstreams).
  - unfold select_upstream_group in E. destruct (selectUpstream _ _ _ _ _ _ _ _ _) as [[[up ug] r]|] eqn:Es; [|discriminate].
    injection E as <- ->. destruct (selectUpstream_taken _ _ _ (upstream_view gs) _ _ _ _ _ _ _ _ G3 Es) as (item & -> & Hok & Hserve & _).
    cbn [upstream_selection sel_TargetKind]. exists item. auto.
  - destruct (select_account env used (sr_heap s) (account_view gs) gid format model) as [[[heap ag] r]|] eqn:Es; [|discriminate].
    injection E as <- ->. destruct (whitelist_respected_aux env used (sr_heap s) heap (account_view gs) ag gid format model sel Hn G2 Es)
      as (l & a & Hsel & Ha & Hadm & Hmay). rewrite Hsel. cbn [selection_of sel_TargetKind]. exists l, a. auto.
Qed.
End Machine.

Definition demo_models_store : Store :=
  mkStore ∅ 0%nat (mkUpHeap ∅ ∅ 0%nat)
    {[ 1 := mkGroupSnap [] {[ (FormatOpenAIChat, "gpt") := mkRoute None None; (FormatOpenAIChat, "") := mkRoute None None ]} "" [] [] ∅ ∅ ]}
    ∅ ∅.

(** ** The advertised models *)

Lemma sort_strings_sorted (l : list string) : Sorted str_le (sort_strings l).
Proof. apply Sorted_merge_sort. intros a b. unfold str_le. destruct (String.leb_total a b); auto. Qed.

(** [GET /v1/models] lists exactly the models of the group's routes, for
    the kind of routes the group is in: each once, in byte order, and never the
    default bucket. *)
Theorem advertised_models (s : Store) (gid : Z) (gs : groupSnapshot) : sr_groups s !! gid = Some gs ->
  exists ms, GroupModels s gid = Some ms /\ NoDup ms /\ Sorted str_le ms /\
    forall m, m ∈ ms <-> m <> "" /\ exists f, if gs_routingMode gs ==s GroupRoutingModeUpstreams
      then is_Some (gs_upstreamRoutes gs !! (f, m)) else is_Some (gs_routes gs !! (f, m)).
Proof.
  intros Hg. unfold GroupModels. rewrite Hg. eexists. split; [reflexivity|].
  assert (forall {V} (r : gmap routeKey V) m, m ∈ map snd (map fst (map_to_list r)) <-> exists f, is_Some (r !! (f, m))) as Hkeys.
  { intros V r m. rewrite list_elem_of_In, map_map, in_map_iff. split.
    - intros ([[f m'] v] & <- & Hin). exists f, v. apply elem_of_map_to_list, list_elem_of_In, Hin.
    - intros (f & v & Hv). exists ((f, m), v). split; [reflexivity|]. apply list_elem_of_In, elem_of_map_to_list, Hv. }
  split; [|split; [apply sort_strings_sorted|]].
  - unfold sort_strings. rewrite merge_sort_Permutation. apply NoDup_elements.
  - intros m. unfold sort_strings. rewrite merge_sort_Permutation, elem_of_elements, elem_of_list_to_set, filter_elem.
    rewrite negb_true_iff, String.eqb_neq. destruct (gs_routingMode gs ==s GroupRoutingModeUpstreams); rewrite Hkeys; tauto.
Qed.

Lemma advertised_models_witness : exists ms, GroupModels demo_models_store 1 = Some ms /\ "gpt" ∈ ms.
Proof.
  destruct (sr_groups demo_models_store !! 1) as [gs|] eqn:Hg; [|vm_compute in Hg; discriminate].
  destruct (advertised_models demo_models_store 1 gs Hg) as (ms & E & _ & _ & H). exists ms. split; [exact E|]. apply H.
  split; [discriminate|]. exists FormatOpenAIChat. vm_compute in Hg. injection Hg as <-. eexists. vm_compute. reflexivity.
Defined.

(** ** Slots across generations *)

Section Slots.
Context {U : UrlLib}.
Variable shuffle : list Loc -> list Loc.
Variable defaultMax : Z.
Hypothesis shuffle_perm : forall l, shuffle l ≡ₚ l.
Hypothesis max_ok : 1 <= defaultMax < max64.

(** One successful reload: of everything or of one group. *)
Inductive reloads : Store -> Store -> Prop :=
| re_all ld s s' : rows_ok ld -> reload shuffle defaultMax ld s = (s', true) -> reloads s s'
| re_group gid accs configs s : group_rows_ok accs -> configs <> Some None ->
    reloads s (InvalidateGroup shuffle defaultMax gid (Some accs) configs s).

Lemma reloads_keep_one (s s' : Store) : reloads s s' -> store_ok s -> store_ok s' /\
  forall (l : Loc) a0, sr_heap s !! l = Some a0 -> exists a, sr_heap s' !! l = Some a /\ dynamic a = dynamic a0.
Proof.
  intros [ld x x' Hr E|gid accs configs x Hr Hc] Hs; [|apply InvalidateGroup_ok; assumption].
  split; [eapply reload_ok; eassumption|]. intros l a0 Ha0.
  destruct (reload_build shuffle defaultMax ld x x' Hs max_ok shuffle_perm Hr E) as (b & Hb & Eh & _).
  rewrite Eh. exact (bi_old _ _ _ _ b Hb l a0 Ha0).
Qed.

Lemma reloads_keep (s s' : Store) : rtc reloads s s' -> store_ok s -> store_ok s' /\
  forall (l : Loc) a0, sr_heap s !! l = Some a0 -> exists a, sr_heap s' !! l = Some a /\ dynamic a = dynamic a0.
Proof.
  induction 1 as [s|s s1 s2 H1 _ IH]; intros Hs; [split; [exact Hs|eauto]|].
  destruct (reloads_keep_one s s1 H1 Hs) as [Hs1 Hk1]. destruct (IH Hs1) as [Hs2 H2]. split; [exact Hs2|].
  intros l a0 Ha0. destruct (Hk1 l a0 Ha0) as (a1 & Ha1 & Hd1).
  destruct (H2 l a1 Ha1) as (a2 & Ha2 & Hd2). exists a2. split; [exact Ha2|congruence].
Qed.

(** A request's slot survives reloads.  An account that took a request is
    given the slot back by its release even if any number of reloads, of everything
    or of one group, came in between and even if one of them removed the account: its counter is then what
    it was before the request, and releasing again changes nothing. *)
Theorem slot_survives_reload (env : PickEnv) (used : Time) (s s1 s2 : Store) (gid : Z) (format model : string) (sel : SelectionT) :
  store_ok s -> 1 <= pe_instances env -> SelectExcluding env used s gid format model = Some (s1, inl sel) ->
  sel_TargetKind sel = TargetKindAccount -> rtc reloads s1 s2 ->
  exists l a a1 a3, sel_accountRef sel = Some l /\ sr_heap s !! l = Some a /\
    sr_heap s1 !! l = Some a1 /\ as_concurrency a1 = as_concurrency a + 1 /\
    let '(s3, sel3) := release s2 sel in
    sr_heap s3 !! l = Some a3 /\ as_concurrency a3 = as_concurrency a /\ release s3 sel3 = (s3, sel3).
Proof.
  intros Hs Hn E Hk Hre. assert (store_ok s1) as Hs1 by (eapply select_ok; eassumption). unfold SelectExcluding in E.
  destruct (sr_groups s !! gid) as [gs|] eqn:Eg; [|discriminate]. destruct (so_groups s Hs gid gs Eg) as (_ & _ & G2 & G3).
  destruct (gs_routingMode gs ==s GroupRoutingModeUpstreams).
  { unfold select_upstream_group in E. destruct (selectUpstream _ _ _ _ _ _ _ _ _) as [[[up ug] r]|] eqn:Es; [|discriminate].
    injection E as <- ->. destruct (selectUpstream_taken _ _ _ (upstream_view gs) _ _ _ _ _ _ _ _ G3 Es) as (item & -> & _). discriminate. }
  destruct (select_account env used (sr_heap s) (account_view gs) gid format model) as [[[heap ag] r]|] eqn:Es; [|discriminate].
  injection E as <- ->. pose proof (select_account_took _ _ _ _ _ _ _ _ _ _ Es) as Ht. cbv zeta in Ht.
  destruct (ag_routes (account_view gs) !! _) as [rt|]; [|destruct Ht as [Ht _]; discriminate].
  destruct Ht as [_ (l & a & _ & Ha & _ & -> & ->)]. pose proof (so_counters s Hs l a Ha) as Hc.
  destruct (take_slot_counts used a Hc) as (Et & Ed & _).
  destruct (reloads_keep _ _ Hre Hs1) as [_ Hkeep]. destruct (Hkeep l (take_slot used a)) as (a2 & Ha2 & Hd);
    [cbn [sr_heap]; apply lookup_insert_eq|]. injection Hd as Hconc _ _ _ _ _.
  exists l, a, (take_slot used a), (set_concurrency a2 (decrementSlot (as_concurrency a2))).
  split; [reflexivity|]. split; [exact Ha|]. split; [cbn [sr_heap]; apply lookup_insert_eq|]. split; [exact Et|].
  unfold release, ReleaseSelection, release_account, release_slot. cbn [sel_TargetKind selection_of sel_released sel_accountRef].
  rewrite Ha2. cbn [sr_heap]. split; [apply lookup_insert_eq|]. split; [|reflexivity].
  cbn [set_concurrency as_concurrency]. rewrite Hconc. exact Ed.
Qed.
End Slots.

(** The slots of upstream members survive a rebuild.  The new snapshot of a
    member whose group, upstream, endpoint and key are unchanged shares the old
    one's counter and keeps its failure streak, so a request in flight releases
    the counter that new requests see.  A member whose endpoint or key changed
    starts with a zero counter and a closed breaker, and late releases of the old
    connection do not touch it. *)
Theorem upstream_slot_survives_rebuild `{U : UrlLib} (h h' : UpHeap) (item us : upstreamSnapshot) (member : GroupUpstream) :
  (up_concurrency item < uh_next h)%nat -> newUpstreamSnapshot h member (Some item) = (h', us) ->
  conc_of h' item = conc_of h item /\
  if same_connection item member (up_endpoint us) (up_key us)
  then up_concurrency us = up_concurrency item /\
       conc_of (release_conc h' (up_concurrency item)) us = decrementSlot (conc_of h item) /\
       ust_failureStreak (statePtr h' us) = Z.max 0 (Z.max (ust_failureStreak (statePtr h item)) (gu_FailureStreak member)) /\
       ust_cooldownUntil (statePtr h' us) =
         match gu_CooldownUntil member with Some c => Some c | None => ust_cooldownUntil (statePtr h item) end
  else conc_of h' us = 0 /\ statePtr h' us = zero_state /\ conc_of (release_conc h' (up_concurrency item)) us = 0.
Proof.
  intros Hlt. unfold newUpstreamSnapshot. cbv zeta.
  set (endpoint := match gu_Upstream member with Some u => normalizeUpstreamEndpoint (us_BaseURL u) | None => "" end).
  set (key := match gu_Upstream member with Some u => normalizeUpstreamKey (us_Key u) | None => "" end).
  destruct (same_connection item member endpoint key) eqn:Esame; intros [= <- <-]; cbn [up_endpoint up_key]; rewrite Esame.
  - split; [reflexivity|]. split; [reflexivity|]. split; [|].
    + unfold conc_of, release_conc, set_conc, set_upstate. cbn. rewrite lookup_insert_eq. reflexivity.
    + unfold statePtr, set_upstate. cbn [uh_state up_state]. rewrite lookup_insert_eq. unfold upstreamStateFromMember. cbn [default from_option].
      set (cur := default zero_state (uh_state h !! up_state item)).
      destruct (Z.ltb_spec (ust_failureStreak cur) 0);
        match goal with |- context [if ?x <? ?y then _ else _] => destruct (Z.ltb_spec x y) end;
        destruct (gu_CooldownUntil member); cbn; split; (reflexivity || lia).
  - assert (uh_next h <> up_concurrency item) as Hne by lia. unfold conc_of, statePtr, release_conc, set_conc. cbn. split.
    + rewrite lookup_insert_ne by exact Hne. reflexivity.
    + rewrite !lookup_insert_eq. split; [reflexivity|]. split; [reflexivity|].
      rewrite lookup_insert_ne by congruence. rewrite lookup_insert_eq. reflexivity.
Qed.

(** ** Examples *)

#[local] Instance demo_url : UrlLib := {|
  URL := string; url_Parse := Some; url_Scheme := fun _ => "https"; url_Host := fun u => u; url_Path := fun _ => "";
  url_with_Path := fun u _ => u; url_String := fun u => u |}.

Definition demo_tpl (models : list string) : Template :=
  mkTemplate 7 "https://t" "api_key" [FormatOpenAIChat] models ∅ ∅ false None.
Definition demo_row (id : Z) (status : AccountStatus) (models : list string) : Account :=
  mkAccount id 7 (Some (demo_tpl models)) None None None "key"
    status None 1 0.

(** Account 10 is in both groups, account 11 in the second. *)
Definition demo_loaded (status : AccountStatus) : Loaded :=
  mkLoaded (Some [(1, [Some (demo_row 10 status ["gpt"])]);
                  (2, [Some (demo_row 10 status ["gpt"]); None; Some (demo_row 11 status [])])]) None.

Definition demo_store : Store := (reload id 5 (demo_loaded StatusActive) empty_store).1.

Lemma demo_rows_ok (status : AccountStatus) : rows_ok (demo_loaded status).
Proof.
  intros m gid accs a [= <-] H1 H2.
  assert (a = demo_row 10 status ["gpt"] \/ a = demo_row 11 status []) as [-> | ->].
  { apply elem_of_cons in H1 as [[= _ ->]|[[= _ ->]|H1]%elem_of_cons]; [| |apply not_elem_of_nil in H1; contradiction];
      rewrite !elem_of_cons in H2; destruct H2 as [H2|H2];
      repeat match goal with
      | H : _ \/ _ |- _ => destruct H as [H|H]
      | H : Some _ = Some _ |- _ => injection H as ->
      | H : _ ∈ [] |- _ => apply not_elem_of_nil in H
      end; auto; try discriminate; try contradiction. }
  - split; [vm_compute; reflexivity|]. intros t [= <-]. cbn. rewrite !elem_of_cons. intros [H|H]; [discriminate|].
    revert H. vm_compute. apply not_elem_of_nil.
  - split; [vm_compute; reflexivity|]. intros t [= <-]. vm_compute. apply not_elem_of_nil.
Qed.

Lemma demo_step : sched_step id 5 empty_store demo_store.
Proof. apply ss_reload with (ld := demo_loaded StatusActive) (ok := true); [apply demo_rows_ok|discriminate|vm_compute; reflexivity]. Qed.

Lemma demo_store_ok : store_ok demo_store.
Proof.
  apply (sched_step_ok id 5 (fun l => Permutation_refl l)) with (s := empty_store); [unfold_int; lia|apply empty_store_ok|apply demo_step].
Qed.

Lemma demo_row_10_ok (status : AccountStatus) : group_rows_ok [Some (demo_row 10 status ["gpt"])].
Proof.
  intros a H. apply (demo_rows_ok status _ 1 [Some (demo_row 10 status ["gpt"])] a eq_refl); [left|exact H].
Qed.

(** Group 2 is reloaded without account 11: group 1 keeps account 10, account 11
    is forgotten. *)
Lemma group_reload_exact_witness :
  let s' := InvalidateGroup id 5 2 (Some [Some (demo_row 10 StatusActive ["gpt"])]) None demo_store in
  (exists g', sr_groups s' !! 2 = Some g' /\ omap (id_of (sr_heap s')) (gs_accounts g') = [10]) /\
  sr_byID demo_store !! 11 = Some (1%nat : Loc) /\ sr_byID s' !! 11 = None /\ sr_byID s' !! 10 = Some (0%nat : Loc).
Proof.
  destruct (group_reload_exact id 5 2 [Some (demo_row 10 StatusActive ["gpt"])] None demo_store demo_store_ok ltac:(unfold_int; lia)
    (fun l => Permutation_refl l) (demo_row_10_ok StatusActive) ltac:(discriminate)) as (H1 & _ & _ & _ & H5).
  destruct (sr_heap demo_store !! (0%nat : Loc)) as [a|] eqn:Ea; [|vm_compute in Ea; discriminate].
  destruct (sr_heap demo_store !! (1%nat : Loc)) as [c|] eqn:Ec; [|vm_compute in Ec; discriminate].
  split; [exact H1|]. split; [vm_compute; reflexivity|]. split.
  - rewrite (H5 11 1%nat c) by (vm_compute in Ec |- *; congruence). rewrite decide_True; [reflexivity|].
    vm_compute in Ec. injection Ec as <-. split; [vm_compute; right; left|]. split; [|reflexivity].
    vm_compute. intros H. apply elem_of_cons in H as [H|H]; [discriminate|apply not_elem_of_nil in H; exact H].
  - rewrite (H5 10 0%nat a) by (vm_compute in Ea |- *; congruence). rewrite decide_False; [reflexivity|].
    intros (_ & H & _). apply H. vm_compute. left.
Defined.

(** A second reload keeps the shared instance of account 10, and its cooldown. *)
Lemma reload_keeps_runtime_witness :
  let cooled := update_account demo_store 0%nat (mkSnapshot (with_groupIDs (fresh_static 5 (demo_row 10 StatusActive ["gpt"]) (demo_tpl ["gpt"]) 1) [1; 2]) 3 0 0
                  (mkAccState StatusActive (Some 900) 2 None None)) in
  exists s' l a, reload id 5 (demo_loaded StatusActive) cooled = (s', true) /\ sr_byID s' !! 10 = Some l /\
    sr_heap s' !! l = Some a /\ as_concurrency a = 3 /\ st_cooldownUntil (as_state a) = Some 900.
Proof.
  intros cooled. assert (store_ok cooled) as Hok.
  { destruct (sr_heap demo_store !! 0%nat) as [a|] eqn:Ha; [|vm_compute in Ha; discriminate].
    vm_compute in Ha. injection Ha as <-. eapply store_ok_update; [apply demo_store_ok|vm_compute; reflexivity|split_and!; reflexivity|cbn; unfold_int; lia]. }
  destruct (reload id 5 (demo_loaded StatusActive) cooled) as [s' ok] eqn:E.
  assert (ok = true) as -> by (apply (f_equal snd) in E; vm_compute in E; congruence).
  destruct (reload_keeps_runtime id 5 (demo_loaded StatusActive) cooled s' Hok ltac:(unfold_int; lia) (fun l => Permutation_refl l) (demo_rows_ok _) E)
    as (Hkeep & Hnew & _).
  destruct (sr_byID s' !! 10) as [l|] eqn:El; [|apply (f_equal fst) in E; cbn [fst] in E; subst s'; vm_compute in El; discriminate].
  destruct (Hnew 10 l El) as (a & row & Ha & Hrow & _ & _ & _ & _ & Hold). exists s', l, a.
  split; [reflexivity|]. split; [exact El|]. split; [exact Ha|].
  assert (sr_byID cooled !! 10 = Some (0%nat : Loc)) as E0 by (vm_compute; reflexivity). rewrite E0 in Hold. destruct Hold as [-> Hcd].
  assert (exists a0, sr_heap cooled !! (0%nat : Loc) = Some a0 /\ as_concurrency a0 = 3 /\ st_cooldownUntil (as_state a0) = Some 900)
    as (a0 & Ha0 & Hc0 & Hcd0) by (eexists; split; [vm_compute; reflexivity|split; reflexivity]).
  destruct (Hkeep 0%nat a0 Ha0) as (a1 & Ha1 & Hd). rewrite Ha in Ha1. injection Ha1 as <-.
  injection Hd as Hc _ _ _ _ _. split; [congruence|]. rewrite (Hcd a0 Ha0), Hcd0.
  destruct Hrow as (m & gid & accs & [= <-] & H1 & H2).
  apply elem_of_cons in H1 as [[= _ ->]|[[= _ ->]|H1]%elem_of_cons]; [| |apply not_elem_of_nil in H1; contradiction];
    rewrite !elem_of_cons in H2;
    repeat match goal with
    | H : _ \/ _ |- _ => destruct H as [H|H]
    | H : Some _ = Some _ |- _ => injection H as ->; reflexivity
    | H : Some _ = None |- _ => discriminate
    | H : _ ∈ [] |- _ => apply not_elem_of_nil in H; contradiction
    end.
Defined.

Definition demo_pick : PickEnv := mkPickEnv 1000 1000 1 None [].

Lemma scheduler_sound_witness : exists s' sel gs,
  SelectExcluding demo_pick 1001 demo_store 2 FormatOpenAIChat "gpt" = Some (s', inl sel) /\
  sr_groups demo_store !! 2 = Some gs /\ store_ok s' /\
  exists l, sel_accountRef sel = Some l /\
    may_serve (sr_heap demo_store) FormatOpenAIChat (resolve_account_model (account_view gs) FormatOpenAIChat "gpt") l.
Proof.
  destruct (SelectExcluding demo_pick 1001 demo_store 2 FormatOpenAIChat "gpt") as [[s' [sel|e]]|] eqn:E;
    [|vm_compute in E; discriminate|vm_compute in E; discriminate].
  assert (sel_TargetKind sel = TargetKindAccount) as Hk.
  { pose proof (f_equal (fun o => match o with Some (_, inl x) => sel_TargetKind x | _ => TargetKindAccount end) E) as F.
    vm_compute in F. symmetry. exact F. }
  destruct (scheduler_sound id 5 (fun l => Permutation_refl l) ltac:(unfold_int; lia) demo_store s' demo_pick 1001 2 FormatOpenAIChat "gpt" sel)
    as (_ & Hs & gs & Hg & H); [apply rtc_once, demo_step|vm_compute; discriminate|exact E|].
  rewrite Hk in H. destruct H as (l & a & Hl & _ & _ & _ & Hm). exists s', sel, gs. eauto 10.
Defined.

(** The account is removed from both groups while its request is in flight. *)
Lemma slot_survives_reload_witness :
  let gone := mkLoaded (Some [(1, []); (2, [])]) None in
  exists s1 s2 sel l a a3, SelectExcluding demo_pick 1001 demo_store 1 FormatOpenAIChat "gpt" = Some (s1, inl sel) /\
    reload id 5 gone s1 = (s2, true) /\ sr_byID s2 = ∅ /\ sr_heap demo_store !! l = Some a /\
    sr_heap (release s2 sel).1 !! l = Some a3 /\ as_concurrency a3 = as_concurrency a.
Proof.
  intros gone. destruct (SelectExcluding demo_pick 1001 demo_store 1 FormatOpenAIChat "gpt") as [[s1 [sel|e]]|] eqn:E;
    [|vm_compute in E; discriminate|vm_compute in E; discriminate].
  destruct (reload id 5 gone s1) as [s2 ok] eqn:Er. assert (ok = true) as -> by (apply (f_equal snd) in Er; exact (eq_sym Er)).
  assert (sr_byID s2 = ∅) as Eid by (apply (f_equal fst) in Er; cbn [fst] in Er; subst s2; reflexivity).
  assert (sel_TargetKind sel = TargetKindAccount) as Hk.
  { pose proof (f_equal (fun o => match o with Some (_, inl x) => sel_TargetKind x | _ => TargetKindAccount end) E) as F.
    vm_compute in F. symmetry. exact F. }
  destruct (slot_survives_reload id 5 (fun l => Permutation_refl l) ltac:(unfold_int; lia) demo_pick 1001 demo_store s1 s2 1 FormatOpenAIChat "gpt" sel)
    as (l & a & a1 & a3 & _ & Ha & _ & _ & H); [apply demo_store_ok|vm_compute; discriminate|exact E|exact Hk| |].
  - apply rtc_once. apply re_all with (ld := gone); [|exact Er]. intros m gid accs x [= <-] H1 H2.
    apply elem_of_cons in H1 as [[= _ ->]|[[= _ ->]|H1]%elem_of_cons]; apply not_elem_of_nil in H2 || apply not_elem_of_nil in H1; contradiction.
  - destruct (release s2 sel) as [s3 sel3] eqn:E3. destruct H as (H3 & Hc & _). exists s1, s2, sel, l, a, a3.
    split_and!; try assumption; try reflexivity. rewrite E3. exact H3.
Defined.

Lemma upstream_slot_survives_rebuild_witness :
  let item := mkUpSnap (demo_member 1 1 0 5 ["m"]) (Some (demo_upstream 1 ["m"])) "https://u" "https://u" "" ∅ ∅ 0%nat 0%nat in
  let h := mkUpHeap {[ 0%nat := 3 ]} {[ 0%nat := mkUpState None 2 "" ]} 1%nat in
  exists h' us, newUpstreamSnapshot h (demo_member 1 1 0 5 ["m"; "n"]) (Some item) = (h', us) /\
    conc_of h' us = 3 /\ conc_of (release_conc h' 0%nat) us = 2.
Proof.
  intros item h. destruct (newUpstreamSnapshot h (demo_member 1 1 0 5 ["m"; "n"]) (Some item)) as [h' us] eqn:E.
  exists h', us. split; [reflexivity|].
  destruct (upstream_slot_survives_rebuild h h' item us (demo_member 1 1 0 5 ["m"; "n"])) as [Hc H]; [cbn; lia|exact E|].
  assert (same_connection item (demo_member 1 1 0 5 ["m"; "n"]) (up_endpoint us) (up_key us) = true) as Es.
  { apply (f_equal snd) in E. cbn [snd] in E. subst us. vm_compute. reflexivity. }
  rewrite Es in H. destruct H as (Hl & Hrel & _). split.
  - unfold conc_of in *. rewrite Hl. exact Hc.
  - exact Hrel.
Defined.

(** ** Windows

    A reload is not atomic for the requests that run beside it. *)

(** While a group's upstream members are being rebuilt, the published group has
    no upstream routes, so every request of the group is refused.
    [InvalidateGroup] works on the group snapshots that are published, of every
    group, whichever one it was called for. *)
Theorem rebuild_window_refuses (h : UpHeap) (cfg : GroupConfig) (gs : groupSnapshot) (now : Time) (gid : Z)
    (format model : string) (excluded : list Z) :
  let seen := upstream_view (clear_upstreams cfg gs) in
  select_upstream_group h seen now gid format model excluded = Some (h, seen, inr ErrFormatUnavailable).
Proof.
  intros seen. unfold select_upstream_group, selectUpstream, upstream_route_key, seen.
  cbn [upstream_view clear_upstreams ug_upstreamRoutes gs_upstreamRoutes]. rewrite !lookup_empty. reflexivity.
Qed.

(** A reload that fails on the upstream configuration is reported as failed and
    publishes nothing, but the instances it reused already carry the new rows. *)
Theorem failed_reload_changes_accounts :
  let ld := mkLoaded (Some [(1, [Some (demo_row 10 StatusDisabled ["gpt"])])]) (Some None) in
  exists s', reload id 5 ld demo_store = (s', false) /\
    sr_groups s' = sr_groups demo_store /\ sr_byID s' = sr_byID demo_store /\
    (exists a, sr_heap demo_store !! 0%nat = Some a /\ st_status (as_state a) = StatusActive /\ ss_groupIDs (as_static a) = [1; 2]) /\
    (exists a, sr_heap s' !! 0%nat = Some a /\ st_status (as_state a) = StatusDisabled /\ ss_groupIDs (as_static a) = [1]).
Proof.
  intros ld. eexists. split; [reflexivity|]. split; [reflexivity|]. split; [reflexivity|].
  split; eexists; (split; [vm_compute; reflexivity|split; reflexivity]).
Qed.

(** A permanently failed account is disabled in memory and its write-back is
    queued; a reload that reads the row before the write-back lands makes it
    active again. *)
Theorem reload_revives_failed_account :
  match sr_heap demo_store !! 0%nat with
  | Some a =>
      let failed := (FailAccount 50 a "revoked").1 in
      let '(s', ok) := reload id 5 (demo_loaded StatusActive) (update_account demo_store 0%nat failed) in
      st_status (as_state failed) = StatusDisabled /\ ok = true /\
      match sr_heap s' !! 0%nat with Some a' => candidate_ok demo_pick a' = true | None => False end
  | None => False
  end.
Proof. vm_compute. auto. Qed.
