(* ===== verification/Pipeline.v ===== *)
(** * The forwarding pipeline ([internal/proxy]: pipeline.go, caller.go, forward.go, retry_after.go)

    The failover loop that every request format shares: price check, one attempt
    at an upstream, classification of the result, release, the next selection,
    protocol fallbacks, and the answer when everything is exhausted.

    Selections are shared by pointer ([sel], [lastSel], [failed] name the same
    object), so they live in a table and the loop passes positions.  The scheduler
    and the attempt are interfaces, as in the source.  What the loop does besides
    is a trace: calls, rows handed to settlement or to the error log, the answer. *)

From Stdlib Require Import ZArith Lia List Bool String.
From stdpp Require Import base option list gmap strings.
From S2P Require Import Prelude GoString Domain Cost PriceResolve UsageBilling GoTime RuleTypes RuleEngine SchedTypes AccountState Selection.
Import ListNotations.
Local Open Scope string_scope.
Local Open Scope Z_scope.

(** ** Constants *)

Definition StatusBadRequest : Z := 400.
Definition StatusPaymentRequired : Z := 402.
Definition StatusNotFound : Z := 404.
Definition StatusMethodNotAllowed : Z := 405.
Definition StatusUnsupportedMediaType : Z := 415.
Definition StatusUnprocessableEntity : Z := 422.
Definition StatusTooManyRequests : Z := 429.
Definition statusClientClosedRequest : Z := 499.
Definition StatusNotImplemented : Z := 501.
Definition StatusBadGateway : Z := 502.

Definition Err429 : ErrorType := "429".
Definition Err4xx : ErrorType := "4xx".
Definition Err5xx : ErrorType := "5xx".
Definition ErrNetwork : ErrorType := "network".
Definition ErrBilling : ErrorType := "billing".
Definition ErrNoAccount : ErrorType := "no_account".

Definition ProtocolConvert : Type := string.
Definition ProtocolConvertAuto : ProtocolConvert := "auto".
Definition ProtocolConvertChatToResp : ProtocolConvert := "chat_to_resp".
Definition ProtocolConvertMessToResp : ProtocolConvert := "mess_to_resp".
Definition ProtocolConvertRespToMess : ProtocolConvert := "resp_to_mess".
Definition ProtocolConvertChatToMess : ProtocolConvert := "chat_to_mess".
Definition AutoResponsesToChat : ProtocolConvert := "auto_responses_to_chat".
Definition AutoMessagesToChat : ProtocolConvert := "auto_messages_to_chat".

(** ** Headers and Retry-After *)

(** Canonical names; the first value of each. *)
Definition Header : Type := gmap string string.
Definition Get (h : Header) (k : string) : string := default "" (h !! k).

(** An error of a call: its text and the response headers it carries, if any. *)
Record CallErr := mkCallErr { ce_text : string; ce_headers : option Header }.

(** Third-party and standard parsers the pipeline calls: [http.ParseTime],
    [gjson.GetBytes(body, path).String()] and whether [json.Unmarshal] accepts a
    text as an object. *)
Class TextLib := {
  ParseTime : string -> option Time;
  gjson_string : string -> string -> string;
  json_object : string -> bool
}.

(** A delay of at least a second; the multiplication is of int64. *)
Definition delay (n unit_ : Z) : Duration := let d := n [*] unit_ in if d <? second then second else d.

Definition delta (now : Time) (raw : string) (unit_ : Z) : option Time :=
  match ParseInt raw with Some n => if 0 <=? n then Some (now + delay n unit_) else None | None => None end.

Section Retry.
Context `{L : TextLib}.

Definition retry_after (now : Time) (h : Header) : option Time :=
  let raw := TrimSpace (Get h "Retry-After") in
  if raw ==s "" then None
  else
    match delta now raw second with
    | Some t => Some t
    | None => match ParseTime raw with Some at_ => if After at_ now then Some at_ else None | None => None end
    end.

Definition delta_header (now : Time) (h : Header) (name : string) (unit_ : Z) : option Time :=
  let raw := TrimSpace (Get h name) in if raw ==s "" then None else delta now raw unit_.

Definition retryAfterDeadline (now : Time) (hdr : option Header) (err : option CallErr) : option Time :=
  match (match hdr with Some h => Some h | None => err ≫= ce_headers end) with
  | None => None
  | Some h =>
      match retry_after now h with
      | Some t => Some t
      | None =>
          match delta_header now h "X-Retry-After" second with
          | Some t => Some t
          | None => delta_header now h "Retry-After-Ms" millisecond
          end
      end
  end.

(** ** Classification of failures *)

Definition upstreamErrMsg (body : string) : string :=
  if body ==s "" then ""
  else let s := gjson_string body "error.message" in if s ==s "" then gjson_string body "message" else s.

Definition RuleKindOf (httpStatus : Z) : Kind := if httpStatus =? 0 then KindNetwork else Kind5xx.

Definition model_markers : list string :=
  ["model not found"; "model_not_found"; "unknown model"; "invalid model"; "model does not exist"; "no such model";
   "model unavailable"].

Definition route_markers : list string :=
  ["route not found"; "not found"; "unknown endpoint"; "unknown path"; "endpoint not found"; "endpoint does not exist";
   "endpoint doesn't exist"; "path not found"; "no route"; "no such endpoint"].

Definition capability_markers : list string :=
  ["not implemented"; "not supported"; "unsupported"; "not support"; "method not allowed"; "unknown endpoint";
   "unknown path"; "content-type"; "protocol"; "responses api"; "chat completions"; "messages api"; "invalid format";
   "format error"; "route not found"; "cannot decode"; "failed to decode"; "unmarshal"; "invalid character"].

Definition mentions (message : string) (markers : list string) : bool := existsb (Contains message) markers.

Definition isRouteNotFoundMessage (message : string) : bool := mentions (ToLower (TrimSpace message)) route_markers.

Definition failure_text (body : string) (callErr : option CallErr) : string :=
  match callErr with
  | Some e => (ToLower body +:+ " " +:+ ToLower (ce_text e))%stdpp
  | None => ToLower body
  end.

Definition isProtocolCapabilityError (code : Z) (body : string) (callErr : option CallErr) : bool :=
  if (code =? StatusMethodNotAllowed) || (code =? StatusUnsupportedMediaType) || (code =? StatusNotImplemented) then true
  else if code =? StatusNotFound then
    let message := failure_text body callErr in
    if mentions message model_markers then false
    else if TrimSpace message ==s "" then true
    else if negb (json_object message) then true
    else isRouteNotFoundMessage message
  else if (code =? StatusBadRequest) || (code =? StatusUnprocessableEntity) then
    mentions (failure_text body callErr) capability_markers
  else false.

End Retry.

Definition passthroughStatus (t : RuleThen) (upstream : Z) : Z :=
  match rt_ResponseCode t with
  | Some c => c
  | None => if upstream =? 0 then StatusBadGateway else upstream
  end.

(** The Retry-After header of the answer. *)
Definition applyPassthroughHeader (t : RuleThen) (hdr : option Header) (status : Z) : option string :=
  match rt_ResponseCode t with
  | Some _ => None
  | None =>
      let h := default ∅ hdr in
      if negb (Get h "Retry-After" ==s "") then Some (Get h "Retry-After")
      else if negb (Get h "X-Retry-After" ==s "") then Some (Get h "X-Retry-After")
      else if status =? StatusTooManyRequests then Some "1" else None
  end.

Definition containsAttempted (attempted : list Z) (id : Z) : bool := existsb (fun x => x =? id) attempted.

Definition excludeAttemptedExcept (attempted : list Z) (allowed : Z) : list Z :=
  fold_left (fun excluded x =>
    if negb (x =? allowed) && negb (containsAttempted excluded x) then (excluded ++ [x])%list else excluded) attempted [].

(** ** Answers *)

Inductive Answer :=
| AnsRaw (status : Z) (body : string)         (* the upstream's body *)
| AnsError (status : Z) (message : string)    (* an "upstream_error" envelope *)
| AnsLocal (status : Z) (message : string)    (* the gateway's own error envelope *)
| AnsFrame (message : string).                (* a websocket error event *)

Definition errNoPrice_msg : string := "no price configured for this model".

(** [httpSink] and [wsSink]; [ws] tells which one the request has. *)
Definition writeUpstreamRejection (ws : bool) (code : Z) (body : string) : Answer :=
  if ws then AnsFrame (if body ==s "" then "upstream rejected request" else body)
  else if negb (body ==s "") then AnsRaw code body else AnsError code "upstream rejected request".

Definition writePrecheckRejected (ws : bool) : Answer :=
  if ws then AnsFrame errNoPrice_msg else AnsLocal StatusPaymentRequired errNoPrice_msg.

(** Only the websocket sink's [writeExhausted] is reached from the loop. *)
Definition writeExhausted (msg : string) : Answer := AnsFrame (if msg ==s "" then "all upstream attempts failed" else msg).

(** ** Interfaces *)

(** What the pipeline asks of the scheduler; [None] is a panic. *)
Class SlotScheduler (St : Type) := {
  sched_select : St -> PickEnv -> Time -> Z -> string -> string -> option (St * (SelectionT + SelectError));
  sched_release : St -> SelectionT -> St * SelectionT;
  sched_classify : St -> SelectionT -> Event -> RuleThen * bool;
  sched_mark : St -> SelectionT -> Time -> Kind -> option Time -> Z -> string -> string -> St
}.

(** What the loop leaves behind. *)
Inductive Ev :=
| EvCall (target : Z) (route : option ProtocolConvert)
| EvHandled
| EvRejected (row : UsageLog) (msg : string)          (* [recordRejected] *)
| EvFinished (row : UsageLog) (msg : option string)   (* [finishAfterRelease] *)
| EvRecorded (row : UsageLog) (msg : option string)   (* [recordLog] *)
| EvAnswer (retryAfter : option string) (a : Answer).

(** [w_sels] is the table of selections, [w_prices] their [PrecheckedPrices]. *)
Record World (St : Type) := mkWorld {
  w_sched : St;
  w_sels : list SelectionT;
  w_prices : gmap nat ResolvedPrices;
  w_tick : nat;
  w_trace : list Ev
}.
Arguments mkWorld {St}.
Arguments w_sched {St}.
Arguments w_sels {St}.
Arguments w_prices {St}.
Arguments w_tick {St}.
Arguments w_trace {St}.

Record CallResult := mkCallResult {
  cr_code : Z; cr_body : string; cr_hdr : option Header; cr_handled : bool; cr_err : option CallErr
}.

(** [upstreamAttempt]: one attempt with the selection at a position, for a
    route format and the conversion its caller applies. *)
Class UpstreamAttempt (St : Type) := {
  attempt_call : World St -> nat -> RequestFormat -> option ProtocolConvert -> string -> World St * CallResult
}.

(** The clocks of a run, and whether the client is gone, by tick. *)
Record RunEnv := mkRunEnv {
  rv_pick : nat -> PickEnv; rv_now : nat -> Time; rv_at : nat -> CivilTime; rv_gone : nat -> bool
}.

(** What stays the same during a request. *)
Record Request := mkRequest {
  rq_group : Z; rq_format : RequestFormat; rq_model : string; rq_ws : bool; rq_precheck : bool;
  rq_attempts : Z; rq_meta : option reqMeta; rq_bill : option BillingHooks; rq_usageCapture : bool
}.

Record protocolFallback := mkFallback { fb_conversion : ProtocolConvert; fb_format : RequestFormat; fb_source : string }.

(** ** Protocol conversions *)

(** The switch of [convertedRoute], for one direction. *)
Definition convert_target (pc : ProtocolConvert) (client : RequestFormat) : option RequestFormat :=
  let for_ want target := if client ==s want then Some target else None in
  if pc ==s ProtocolConvertChatToResp then for_ FormatOpenAIChat FormatOpenAIResponses
  else if pc ==s ProtocolConvertMessToResp then for_ FormatAnthropic FormatOpenAIResponses
  else if pc ==s ProtocolConvertRespToMess then for_ FormatOpenAIResponses FormatAnthropic
  else if pc ==s ProtocolConvertChatToMess then for_ FormatOpenAIChat FormatAnthropic
  else if pc ==s AutoResponsesToChat then for_ FormatOpenAIResponses FormatOpenAIChat
  else if pc ==s AutoMessagesToChat then for_ FormatAnthropic FormatOpenAIChat
  else None.

Fixpoint convertedRoute (converts : list ProtocolConvert) (client : RequestFormat) : option (RequestFormat * ProtocolConvert) :=
  match converts with
  | [] => None
  | pc :: rest => match convert_target pc client with Some f => Some (f, pc) | None => convertedRoute rest client end
  end.

Definition is_auto (converts : list ProtocolConvert) : bool := existsb (fun pc => pc ==s ProtocolConvertAuto) converts.

Definition manual_converts (converts : list ProtocolConvert) : list ProtocolConvert :=
  List.filter (fun pc => negb ((pc ==s ProtocolConvertAuto) || (pc ==s AutoResponsesToChat) || (pc ==s AutoMessagesToChat))) converts.

Definition conversionCandidates (converts : list ProtocolConvert) (client : RequestFormat) : list ProtocolConvert :=
  if is_auto converts then
    if client ==s FormatOpenAIChat then [ProtocolConvertChatToResp; ProtocolConvertChatToMess]
    else if client ==s FormatAnthropic then [ProtocolConvertMessToResp; AutoMessagesToChat]
    else if client ==s FormatOpenAIResponses then [ProtocolConvertRespToMess; AutoResponsesToChat]
    else []
  else manual_converts converts.

(** The fallbacks of a request: the candidates that were not taken yet and for
    which there is a caller. *)
Fixpoint fallbacks_of (has_caller : ProtocolConvert -> bool) (client : RequestFormat) (taken : option ProtocolConvert)
    (body : string) (candidates : list ProtocolConvert) : list protocolFallback :=
  match candidates with
  | [] => []
  | conv :: rest =>
      let fbs := fallbacks_of has_caller client taken body rest in
      if conv ==s default "" taken then fbs
      else
        match convertedRoute [conv] client with
        | None => fbs
        | Some (target, _) => if has_caller conv then mkFallback conv target body :: fbs else fbs
        end
  end.

(** ** The loop *)

(** [Panic] is a run-time panic of the scheduler, [NoFuel] an exhausted bound. *)
Inductive Run (A : Type) := Panic | NoFuel | Ret (a : A).
Arguments Panic {A}.
Arguments NoFuel {A}.
Arguments Ret {A}.

Record LoopSt := mkLoopSt {
  ls_i : Z; ls_limit : Z;
  ls_sel : nat; ls_last : nat; ls_attempted : list Z;
  ls_code : Z; ls_msg : string; ls_hdr : option Header; ls_body : string;
  ls_fallbacks : list protocolFallback; ls_selectFormat : RequestFormat; ls_request : string;
  ls_routeFormat : RequestFormat; ls_route : option ProtocolConvert
}.

Definition no_usage : usageTuple := mkTuple 0 0 0 0 0 false false 0 0 0.

(** The columns settlement reads; the display columns are left out. *)
Definition applySelectionAttribution (l : UsageLog) (sel : SelectionT) (prices : option ResolvedPrices) : UsageLog :=
  let l := match prices with
           | Some p => mkLog (ul_owner l) (ul_usage l) (ul_prices l) (Some p) (ul_charge l) (ul_up l)
           | None => l
           end in
  if sel_UpstreamID sel <=? 0 then l
  else
    let up := ul_up l in
    with_up l (mkUpstreamPart (sel_UpstreamID sel) (Some (sel_UpstreamMultiplierBP sel)) (ul_UpstreamCost up)
                 (ul_GrossProfit up) (ul_ProfitMarginBP up)).

Section Loop.
Context {St : Type} `{SC : SlotScheduler St} `{AT : UpstreamAttempt St} `{L : TextLib}.
(** [protoconv.ConvertRequest]: the converted body, or an error. *)
Variable ConvertRequest : string -> ProtocolConvert -> string + string.
Variable env : RunEnv.
Variable q : Request.

Definition emit (w : World St) (e : Ev) : World St :=
  mkWorld (w_sched w) (w_sels w) (w_prices w) (w_tick w) (w_trace w ++ [e])%list.

Definition releaseRef (w : World St) (r : nat) : World St :=
  match w_sels w !! r with
  | None => w
  | Some sel =>
      let '(s, sel') := sched_release (w_sched w) sel in
      mkWorld s (<[r := sel']> (w_sels w)) (w_prices w) (w_tick w) (w_trace w)
  end.

(** A selection that excludes some targets: the position of the new one, or
    the scheduler's error. *)
Definition selectErr (w : World St) (format : RequestFormat) (excluded : list Z) : option (World St * (nat + SelectError)) :=
  let pe := rv_pick env (w_tick w) in
  match sched_select (w_sched w) (mkPickEnv (pe_now pe) (pe_wall pe) (pe_instances pe) (pe_view pe) excluded)
          (rv_now env (w_tick w)) (rq_group q) format (rq_model q) with
  | None => None
  | Some (s, inl sel) =>
      Some (mkWorld s (w_sels w ++ [sel])%list (w_prices w) (S (w_tick w)) (w_trace w), inl (length (w_sels w)))
  | Some (s, inr e) => Some (mkWorld s (w_sels w) (w_prices w) (S (w_tick w)) (w_trace w), inr e)
  end.

Definition selectRef (w : World St) (format : RequestFormat) (excluded : list Z) : option (World St * option nat) :=
  match selectErr w format excluded with
  | None => None
  | Some (w, inl r) => Some (w, Some r)
  | Some (w, inr _) => Some (w, None)
  end.

Definition attempt_row (sel : SelectionT) (status : Z) (et : ErrorType) : UsageLog :=
  logWithCtx (rq_meta q)
    (buildLog (rq_group q) (sel_AccountID sel) (rq_model q) (sel_Model sel) (rq_format q) status et no_usage).

Definition recordRejected (w : World St) (l : UsageLog) (msg : string) : World St :=
  if rq_usageCapture q then emit w (EvRejected l (TruncateErrMsg msg)) else w.

Definition recordLog (w : World St) (l : UsageLog) (msg : option string) : World St :=
  if rq_usageCapture q then emit w (EvRecorded l msg) else w.

Definition finishSelection (w : World St) (r : nat) (sel : SelectionT) (l : UsageLog) (msg : option string) : World St :=
  let l := applySelectionAttribution l sel (w_prices w !! r) in
  emit (releaseRef w r) (EvFinished l msg).

Definition some_msg (s : string) : option string := if s ==s "" then None else Some s.

(** The text of a deterministic rejection. *)
Definition rejection_text (res : CallResult) : string :=
  let em := TruncateErrMsg (cr_body res) in
  if em ==s "" then match cr_err res with Some e => TruncateErrMsg (ce_text e) | None => em end else em.

Definition classify (w : World St) (sel : SelectionT) (kind : Kind) (http : option Z) (msg : string) : RuleThen * bool :=
  sched_classify (w_sched w) sel (mkEvent (sel_AccountID sel) 0 None (sel_Model sel) kind http msg None 0).

Definition mark (w : World St) (sel : SelectionT) (kind : Kind) (resetAt : option Time) (http : Z) (msg : string) : World St :=
  mkWorld (sched_mark (w_sched w) sel (rv_now env (w_tick w)) kind resetAt http msg (sel_Model sel))
    (w_sels w) (w_prices w) (w_tick w) (w_trace w).

Inductive Turn :=
| TDone (w : World St)
| TBreak (w : World St) (st : LoopSt)
| TNext (w : World St) (st : LoopSt).

(** The price check of a turn: [None] rejects the request. *)
Definition precheck (w : World St) (r : nat) (sel : SelectionT) : option (World St) :=
  if rq_precheck q then
    let tier := match rq_meta q with Some rm => if rm_hasTier rm then Tier_String (rm_tier rm) else "" | None => "" end in
    let model := if sel_PricingModel sel ==s "" then sel_Model sel else sel_PricingModel sel in
    match precheckPrice (rq_bill q) (rq_format q) model tier (rv_at env (w_tick w)) with
    | None => None
    | Some rp =>
        Some (if UsageBilling.resolvedPricesUsable (rq_format q) rp
              then mkWorld (w_sched w) (w_sels w) (<[r := rp]> (w_prices w)) (w_tick w) (w_trace w) else w)
    end
  else Some w.

(** The end of a failed turn: the slot is given back; unless this was the last
    ordinary attempt, another target is selected. *)
Definition turn_tail (w : World St) (st : LoopSt) : option Turn :=
  let w := releaseRef w (ls_sel st) in
  if rq_attempts q <=? ls_i st + 1 then Some (TBreak w st)
  else
    match selectRef w (ls_selectFormat st) (ls_attempted st) with
    | None => None
    | Some (w, None) => Some (TBreak w st)
    | Some (w, Some r) =>
        match w_sels w !! r with
        | None => None
        | Some sel =>
            Some (TNext w (mkLoopSt (ls_i st + 1) (ls_limit st) r (ls_last st) (ls_attempted st ++ [sel_TargetID sel])%list
              (ls_code st) (ls_msg st) (ls_hdr st) (ls_body st) (ls_fallbacks st) (ls_selectFormat st) (ls_request st)
              (ls_routeFormat st) (ls_route st)))
        end
    end.

Definition with_msg (st : LoopSt) (msg : string) : LoopSt :=
  mkLoopSt (ls_i st) (ls_limit st) (ls_sel st) (ls_last st) (ls_attempted st) (ls_code st) msg (ls_hdr st) (ls_body st)
    (ls_fallbacks st) (ls_selectFormat st) (ls_request st) (ls_routeFormat st) (ls_route st).

(** 429. *)
Definition on_429 (w : World St) (st : LoopSt) (sel : SelectionT) (res : CallResult) : option Turn :=
  let msg := TruncateErrMsg (upstreamErrMsg (cr_body res)) in
  let msg := if (msg ==s "") && negb (cr_body res ==s "") then TruncateErrMsg (cr_body res) else msg in
  let '(_, punish) := classify w sel Kind429 (Some (cr_code res)) msg in
  let w := if punish
           then mark w sel Kind429 (retryAfterDeadline (rv_now env (w_tick w)) (cr_hdr res) (cr_err res)) (cr_code res) msg
           else w in
  turn_tail w (with_msg st msg).

(** 5xx and connection failures. *)
Definition failure_msg (res : CallResult) : string :=
  let msg := upstreamErrMsg (cr_body res) in
  match (if cr_code res =? 0 then cr_err res else None) with
  | Some e => TruncateErrMsg (ce_text e)
  | None =>
      if negb (msg ==s "") then TruncateErrMsg msg
      else if negb (cr_body res ==s "") then TruncateErrMsg (cr_body res) else msg
  end.

Definition on_failure (w : World St) (st : LoopSt) (sel : SelectionT) (res : CallResult) : option Turn :=
  if (cr_code res =? 0) && rv_gone env (w_tick w) then
    Some (TDone (finishSelection w (ls_sel st) sel (attempt_row sel statusClientClosedRequest ErrAbort)
                   (Some "client closed request before upstream response")))
  else
    let msg := failure_msg res in
    let kind := RuleKindOf (cr_code res) in
    let '(_, punish) := classify w sel kind (if 0 <? cr_code res then Some (cr_code res) else None) msg in
    let w := if punish then mark w sel kind None (cr_code res) msg else w in
    turn_tail w (with_msg st msg).

(** A deterministic rejection ends the request. *)
Definition reject (w : World St) (st : LoopSt) (sel : SelectionT) (res : CallResult) : World St :=
  let em := rejection_text res in
  let w := finishSelection w (ls_sel st) sel (attempt_row sel (cr_code res) Err4xx) (some_msg em) in
  let '(t, punish) := classify w sel Kind4xx (Some (cr_code res)) em in
  let status := passthroughStatus t (cr_code res) in
  let answer :=
    match UnifiedMessage t with
    | (msg, true) => if rq_ws q then writeUpstreamRejection true status msg else AnsError status msg
    | (_, false) => writeUpstreamRejection (rq_ws q) status (cr_body res)
    end in
  let w := emit w (EvAnswer (applyPassthroughHeader t (cr_hdr res) status) answer) in
  if punish then mark w sel Kind4xx None (cr_code res) em else w.

(** The next fallback whose body converts and that has a target: one that was
    not tried, else the failed one through the other protocol. *)
Fixpoint try_fallbacks (w : World St) (attempted : list Z) (failed : Z) (fbs : list protocolFallback)
    : option (World St * option (nat * protocolFallback * string * list protocolFallback)) :=
  match fbs with
  | [] => Some (w, None)
  | fb :: rest =>
      match ConvertRequest (fb_source fb) (fb_conversion fb) with
      | inr _ => try_fallbacks w attempted failed rest
      | inl body =>
          match selectRef w (fb_format fb) attempted with
          | None => None
          | Some (w, Some r) => Some (w, Some (r, fb, body, rest))
          | Some (w, None) =>
              match selectRef w (fb_format fb) (excludeAttemptedExcept attempted failed) with
              | None => None
              | Some (w, Some r) => Some (w, Some (r, fb, body, rest))
              | Some (w, None) => try_fallbacks w attempted failed rest
              end
          end
      end
  end.

(** The upstream does not speak the protocol: try the next one. *)
Definition negotiate (w : World St) (st : LoopSt) (sel : SelectionT) (res : CallResult) : option Turn :=
  let failure := applySelectionAttribution (attempt_row sel (cr_code res) (if 500 <=? cr_code res then Err5xx else Err4xx)) sel
                   (w_prices w !! ls_sel st) in
  let w := releaseRef w (ls_sel st) in
  match try_fallbacks w (ls_attempted st) (sel_TargetID sel) (ls_fallbacks st) with
  | None => None
  | Some (w, None) => Some (TDone (reject w st sel res))
  | Some (w, Some (r, fb, body, rest)) =>
      match w_sels w !! r with
      | None => None
      | Some next =>
          let attempted := if containsAttempted (ls_attempted st) (sel_TargetID next) then ls_attempted st
                           else (ls_attempted st ++ [sel_TargetID next])%list in
          let limit := if ls_limit st <=? ls_i st + 1 then ls_limit st + 1 else ls_limit st in
          Some (TNext (recordLog w failure (some_msg (rejection_text res)))
            (mkLoopSt (ls_i st + 1) limit r r attempted (ls_code st) (ls_msg st) (ls_hdr st) (ls_body st) rest
               (fb_format fb) body (fb_format fb) (Some (fb_conversion fb))))
      end
  end.

Definition is_empty {A} (l : list A) : bool := match l with [] => true | _ => false end.

Definition after_call (w : World St) (st : LoopSt) (sel : SelectionT) (res : CallResult) : option Turn :=
  let st := mkLoopSt (ls_i st) (ls_limit st) (ls_sel st) (ls_last st) (ls_attempted st) (cr_code res) (ls_msg st)
              (cr_hdr res) (cr_body res) (ls_fallbacks st) (ls_selectFormat st) (ls_request st) (ls_routeFormat st) (ls_route st) in
  let capability := negb (is_empty (ls_fallbacks st)) && isProtocolCapabilityError (cr_code res) (cr_body res) (cr_err res) in
  if cr_code res =? StatusTooManyRequests then on_429 w st sel res
  else if ((500 <=? cr_code res) || (cr_code res =? 0)) && negb capability then on_failure w st sel res
  else if capability then negotiate w st sel res
  else Some (TDone (reject w st sel res)).

Definition turn (w : World St) (st : LoopSt) : option Turn :=
  let r := ls_sel st in
  let st := mkLoopSt (ls_i st) (ls_limit st) r r (ls_attempted st) (ls_code st) (ls_msg st) (ls_hdr st) (ls_body st)
              (ls_fallbacks st) (ls_selectFormat st) (ls_request st) (ls_routeFormat st) (ls_route st) in
  match w_sels w !! r with
  | None => None
  | Some sel =>
      match precheck w r sel with
      | None =>
          let l := applySelectionAttribution (attempt_row sel StatusPaymentRequired ErrBilling) sel (w_prices w !! r) in
          Some (TDone (emit (recordRejected (releaseRef w r) l errNoPrice_msg) (EvAnswer None (writePrecheckRejected (rq_ws q)))))
      | Some w =>
          let w := emit w (EvCall (sel_TargetID sel) (ls_route st)) in
          let '(w, res) := attempt_call w r (ls_routeFormat st) (ls_route st) (ls_request st) in
          if cr_handled res then Some (TDone (emit w EvHandled)) else after_call w st sel res
      end
  end.

(** The turns; the answer is pending when the loop is left without one. *)
Fixpoint turns (fuel : nat) (w : World St) (st : LoopSt) : Run (World St * option LoopSt) :=
  match fuel with
  | O => NoFuel
  | S fuel =>
      if negb (ls_i st <? ls_limit st) then Ret (w, Some st)
      else
        match turn w st with
        | None => Panic
        | Some (TDone w) => Ret (w, None)
        | Some (TBreak w st) => Ret (w, Some st)
        | Some (TNext w st) => turns fuel w st
        end
  end.

(** Every attempt failed: the last result is recorded and answered. *)
Definition exhausted (w : World St) (st : LoopSt) : Run (World St) :=
  match w_sels w !! ls_last st with
  | None => Panic
  | Some sel =>
      let w := releaseRef w (ls_last st) in
      let code := ls_code st in
      let et := if code =? StatusTooManyRequests then Err429 else if code =? 0 then ErrNetwork else Err5xx in
      let kind := if code =? StatusTooManyRequests then Kind429
                  else if (400 <=? code) && (code <? 500) then Kind4xx else RuleKindOf code in
      let '(t, _) := classify w sel kind (if code =? 0 then None else Some code) (ls_msg st) in
      let status := passthroughStatus t code in
      let l := applySelectionAttribution (attempt_row sel code et) sel (w_prices w !! ls_last st) in
      let w := recordLog w l (some_msg (ls_msg st)) in
      let answer :=
        match UnifiedMessage t with
        | (msg, true) => if rq_ws q then writeExhausted msg else AnsError status msg
        | (_, false) =>
            if negb (ls_body st ==s "") then if rq_ws q then writeExhausted (ls_body st) else AnsRaw status (ls_body st)
            else if negb (ls_msg st ==s "") then if rq_ws q then writeExhausted (ls_msg st) else AnsError status (ls_msg st)
            else if rq_ws q then writeExhausted "all upstream attempts failed"
                 else AnsLocal status "all upstream attempts failed"
        end in
      Ret (emit w (EvAnswer (applyPassthroughHeader t (ls_hdr st) status) answer))
  end.

(** [failoverLoop], for a request whose first selection is at [sel]. *)
Definition failoverLoop (w : World St) (sel : nat) (selectFormat : RequestFormat) (route : option ProtocolConvert)
    (body : string) (fallbacks : list protocolFallback) : Run (World St) :=
  match w_sels w !! sel with
  | None => Panic
  | Some s =>
      match turns (S (Z.to_nat (rq_attempts q) + length fallbacks)) w
              (mkLoopSt 0 (rq_attempts q) sel sel [sel_TargetID s] 0 "" None "" fallbacks selectFormat body selectFormat route) with
      | Panic => Panic
      | NoFuel => NoFuel
      | Ret (w, None) => Ret w
      | Ret (w, Some st) => exhausted w st
      end
  end.

(** ** The first selection ([handleFormat]) *)

Definition convertible (e : SelectError) : bool := match e with ErrGroupNotFound => false | _ => true end.

Definition statusFor (e : SelectError) : Z := match e with ErrNoAvailable => StatusTooManyRequests | _ => StatusNotFound end.

Definition selectErrorMessage (e : SelectError) : string :=
  match e with
  | ErrFormatUnavailable => "no account supports this request format"
  | ErrNoAvailable => "no available account"
  | ErrGroupNotFound => "group not found"
  end.

Definition handleSelectError (w : World St) (e : SelectError) : World St :=
  let retry := match e with ErrNoAvailable => Some "1" | _ => None end in
  let w := emit w (EvAnswer retry (AnsLocal (statusFor e) (selectErrorMessage e))) in
  recordRejected w (logWithCtx (rq_meta q) (buildLog (rq_group q) 0 (rq_model q) "" (rq_format q) (statusFor e) ErrNoAccount no_usage))
    (selectErrorMessage e).

(** What comes of the conversions: a route; an answered request; nothing, with
    the error to report and the last conversion error. *)
Inductive Tried :=
| TrySelected (r : nat) (format : RequestFormat) (body : string) (conv : ProtocolConvert)
| TryAnswered
| TryNone (e : SelectError) (conversionErr : option string).

Definition conversion_answer (cerr : string) : Ev :=
  EvAnswer None (AnsLocal StatusBadRequest ("invalid request body: protocol conversion failed: " +:+ cerr)%stdpp).

Fixpoint try_conversions (auto : bool) (w : World St) (e : SelectError) (convErr : option string) (body : string)
    (candidates : list ProtocolConvert) : option (World St * Tried) :=
  match candidates with
  | [] => Some (w, TryNone e convErr)
  | conv :: rest =>
      match convertedRoute [conv] (rq_format q) with
      | None => try_conversions auto w e convErr body rest
      | Some (target, _) =>
          match selectErr w target [] with
          | None => None
          | Some (w, inr e2) => if negb auto then Some (w, TryNone e2 convErr) else try_conversions auto w e convErr body rest
          | Some (w, inl r) =>
              match ConvertRequest body conv with
              | inl converted => Some (w, TrySelected r target converted conv)
              | inr cerr =>
                  match w_sels w !! r with
                  | None => None
                  | Some sel =>
                      let l := applySelectionAttribution (attempt_row sel StatusBadRequest Err4xx) sel (w_prices w !! r) in
                      let w := releaseRef (recordRejected w l ("upstream not contacted: protocol conversion failed: " +:+ cerr)%stdpp) r in
                      if auto then try_conversions auto w e (Some cerr) body rest
                      else Some (emit w (conversion_answer cerr), TryAnswered)
                  end
              end
          end
      end
  end.

Variable converts : list ProtocolConvert.
Variable has_caller : ProtocolConvert -> bool.

Definition run_route (w : World St) (r : nat) (format : RequestFormat) (route : option ProtocolConvert) (body source : string)
    : Run (World St) :=
  failoverLoop w r format route body (fallbacks_of has_caller (rq_format q) route source (conversionCandidates converts (rq_format q))).

(** [handleFormat] from the selection on: the client's own protocol, else the
    first conversion that works, then the loop. *)
Definition forward (w : World St) (body : string) : Run (World St) :=
  match selectErr w (rq_format q) [] with
  | None => Panic
  | Some (w, inl r) => run_route w r (rq_format q) None body body
  | Some (w, inr e) =>
      if negb (convertible e) then Ret (handleSelectError w e)
      else
        match try_conversions (is_auto converts) w e None body (conversionCandidates converts (rq_format q)) with
        | None => Panic
        | Some (w, TrySelected r format converted conv) => run_route w r format (Some conv) converted body
        | Some (w, TryAnswered) => Ret w
        | Some (w, TryNone e convErr) =>
            match convErr with
            | Some cerr => if is_auto converts then Ret (emit w (conversion_answer cerr)) else Ret (handleSelectError w e)
            | None => Ret (handleSelectError w e)
            end
        end
  end.
End Loop.
