(* ===== verification/PipelineInv.v ===== *)
(** * Correctness of the failover loop ([internal/proxy/pipeline.go])

    The loop is proved against what it relies on: a scheduler that counts slots
    and an attempt that, when it handles the request, has given its slot back.
    Whatever the upstreams answer, the loop ends within its bound, gives back
    every slot, answers once and never repeats a call. *)

From Stdlib Require Import ZArith Lia List Bool String.
From stdpp Require Import base option list gmap strings.
From S2P Require Import Prelude GoString Domain UsageBilling GoTime RuleTypes RuleEngine SchedTypes AccountState Selection UpstreamPool Pipeline.
Import ListNotations.
Local Open Scope string_scope.
Local Open Scope Z_scope.

(** ** Traces *)

Definition calls (tr : list Ev) : list (Z * option ProtocolConvert) :=
  omap (fun e => match e with EvCall t r => Some (t, r) | _ => None end) tr.

(** What closes a request: a row that is settled (billed and deducted), and an
    answer to the client. *)
Inductive Closing := Settled (l : UsageLog) | Answered (a : Answer).
Definition closings (tr : list Ev) : list Closing :=
  omap (fun e => match e with EvFinished l _ => Some (Settled l) | EvAnswer _ a => Some (Answered a) | _ => None end) tr.

(** One settlement, one answer, or one of each. *)
Definition closed (cs : list Closing) : Prop :=
  match cs with [_] | [Settled _; Answered _] | [Answered _; Settled _] => True | _ => False end.

(** A request without an answer was taken over by its attempt, or its client is
    gone. *)
Definition ended (tr : list Ev) : Prop :=
  closed (closings tr) /\
  ((exists a, Answered a ∈ closings tr) \/ last tr = Some EvHandled \/
   exists l, last tr = Some (EvFinished l (Some "client closed request before upstream response"))).

(** ** What the loop relies on *)

(** Where a selection's slot is counted. *)
Inductive Slot := SlotAccount (l : Loc) | SlotMember (cell : Loc).
#[global] Instance Slot_eq_dec : EqDecision Slot.
Proof. solve_decision. Defined.

Definition slot_of (sel : SelectionT) : option Slot :=
  match sel_TargetKind sel with
  | TargetKindAccount => SlotAccount <$> sel_accountRef sel
  | TargetKindUpstreamMember => (fun item => SlotMember (up_concurrency item)) <$> sel_upstreamRef sel
  end.

(** A well-formed scheduler state and the slots in use. *)
Class SlotCount (St : Type) := { sc_ok : St -> Prop; slots_in : St -> Slot -> Z }.

Definition one_at (x y : Slot) : Z := if decide (y = x) then 1 else 0.

Class SlotLaws (St : Type) `{SC : SlotScheduler St} `{CT : SlotCount St} : Prop := {
  select_law (s s' : St) (env : PickEnv) (used : Time) (gid : Z) (format model : string) (res : SelectionT + SelectError) :
    sc_ok s -> 1 <= pe_instances env -> sched_select s env used gid format model = Some (s', res) ->
    sc_ok s' /\
    match res with
    | inl sel => sel_released sel = false /\ (sel_TargetID sel ∉ pe_excluded env) /\
        exists x, slot_of sel = Some x /\ forall y, slots_in s' y = slots_in s y + one_at x y
    | inr _ => forall y, slots_in s' y = slots_in s y
    end;
  release_law (s : St) (sel : SelectionT) (x : Slot) : sc_ok s -> slot_of sel = Some x ->
    let '(s', sel') := sched_release s sel in
    sc_ok s' /\ sel_released sel' = true /\ slot_of sel' = Some x /\
    forall y, slots_in s' y = if sel_released sel then slots_in s y else if 0 <? slots_in s x then slots_in s y - one_at x y else slots_in s y;
  mark_law (s : St) (sel : SelectionT) (now : Time) (kind : Kind) (resetAt : option Time) (http : Z) (msg model : string) :
    sc_ok s -> sc_ok (sched_mark s sel now kind resetAt http msg model) /\
    forall y, slots_in (sched_mark s sel now kind resetAt http msg model) y = slots_in s y
}.

(** What an attempt may leave in the trace. *)
Definition attempt_ev (e : Ev) : Prop := match e with EvCall _ _ | EvHandled => False | _ => True end.

(** [upstreamAttempt]'s contract: a request that was handled is finished, slot
    and all; one that was not is as it was. *)
Class AttemptLaws (St : Type) `{CT : SlotCount St} `{AT : UpstreamAttempt St} : Prop := {
  attempt_law (w w' : World St) (r : nat) (sel : SelectionT) (x : Slot) (format : RequestFormat) (route : option ProtocolConvert)
      (body : string) (res : CallResult) :
    sc_ok (w_sched w) -> w_sels w !! r = Some sel -> sel_released sel = false -> slot_of sel = Some x ->
    1 <= slots_in (w_sched w) x -> attempt_call w r format route body = (w', res) ->
    sc_ok (w_sched w') /\
    if cr_handled res
    then (exists sel', w_sels w' = <[r := sel']> (w_sels w) /\ sel_released sel' = true /\ slot_of sel' = Some x) /\
         (forall y, slots_in (w_sched w') y = slots_in (w_sched w) y - one_at x y) /\
         exists evs, w_trace w' = (w_trace w ++ evs)%list /\ Forall attempt_ev evs /\ closed (closings evs)
    else w_sels w' = w_sels w /\ (forall y, slots_in (w_sched w') y = slots_in (w_sched w) y) /\ w_trace w' = w_trace w
}.

Lemma calls_app (a b : list Ev) : calls (a ++ b) = (calls a ++ calls b)%list.
Proof. apply omap_app. Qed.

Lemma closings_app (a b : list Ev) : closings (a ++ b) = (closings a ++ closings b)%list.
Proof. apply omap_app. Qed.

(** The last event answers. *)
Lemma ended_answer (tr : list Ev) (retry : option string) (a : Answer) : closings tr = [] \/ (exists l, closings tr = [Settled l]) ->
  ended (tr ++ [EvAnswer retry a]).
Proof.
  intros H. unfold ended. rewrite closings_app. split; [destruct H as [->|[l ->]]; exact I|]. left. exists a. apply elem_of_app. right. left.
Qed.

Lemma calls_quiet (tr evs : list Ev) : calls evs = [] -> calls (tr ++ evs) = calls tr.
Proof. intros E. rewrite calls_app, E. apply app_nil_r. Qed.

Lemma attempt_no_calls (evs : list Ev) : Forall attempt_ev evs -> calls evs = [].
Proof. induction 1 as [|e evs He _ IH]; [reflexivity|]. unfold calls in *. cbn. rewrite IH. destruct e; (reflexivity || contradiction). Qed.

Section Loop.
Context {St : Type} `{SL : SlotLaws St} `{AT : UpstreamAttempt St} `{AL : !AttemptLaws St} `{L : TextLib}.
Variable ConvertRequest : string -> ProtocolConvert -> string + string.
Variable env : RunEnv.
Variable q : Request.
Hypothesis instances : forall n, 1 <= pe_instances (rv_pick env n).
(** The slots in use apart from the request's. *)
Variable base : Slot -> Z.
Hypothesis base_nonneg : forall y, 0 <= base y.

Definition others_released (w : World St) (r : option nat) : Prop :=
  forall k sel, Some k <> r -> w_sels w !! k = Some sel -> sel_released sel = true /\ is_Some (slot_of sel).

(** The request holds the slot of the selection at [r], and no other. *)
Definition held (w : World St) (r : nat) : Prop :=
  sc_ok (w_sched w) /\ others_released w (Some r) /\
  exists sel x, w_sels w !! r = Some sel /\ sel_released sel = false /\ slot_of sel = Some x /\
    forall y, slots_in (w_sched w) y = base y + one_at x y.

(** The request holds nothing. *)
Definition free (w : World St) : Prop :=
  sc_ok (w_sched w) /\ others_released w None /\ forall y, slots_in (w_sched w) y = base y.

Lemma held_core (w w' : World St) (r : nat) : w_sched w' = w_sched w -> w_sels w' = w_sels w -> held w r -> held w' r.
Proof. unfold held, others_released. intros -> ->. auto. Qed.

Lemma free_core (w w' : World St) : w_sched w' = w_sched w -> w_sels w' = w_sels w -> free w -> free w'.
Proof. unfold free, others_released. intros -> ->. auto. Qed.

Lemma one_at_self (x : Slot) : one_at x x = 1.
Proof. unfold one_at. rewrite decide_True by reflexivity. reflexivity. Qed.

Lemma release_held (w : World St) (r : nat) : held w r -> free (releaseRef w r).
Proof.
  intros (Hok & Hoth & sel & x & Hsel & Hrel & Hx & Hs). unfold releaseRef. rewrite Hsel.
  pose proof (release_law (w_sched w) sel x Hok Hx) as H. destruct (sched_release (w_sched w) sel) as [s' sel'].
  destruct H as (Hok' & Hrel' & Hx' & Hs'). rewrite Hrel in Hs'. split; [exact Hok'|]. split.
  - intros k sel2 _ Hk. cbn [w_sels] in Hk. destruct (decide (k = r)) as [->|Hne].
    + rewrite list_lookup_insert_eq in Hk by (apply lookup_lt_is_Some; eauto). injection Hk as <-. rewrite Hx'. eauto.
    + rewrite list_lookup_insert_ne in Hk by congruence. apply (Hoth k); [congruence|exact Hk].
  - intros y. cbn [w_sched]. rewrite Hs', Hs. specialize (base_nonneg x). rewrite Hs, one_at_self.
    destruct (Z.ltb_spec 0 (base x + 1)); lia.
Qed.

Lemma release_free (w : World St) (r : nat) : free w -> free (releaseRef w r).
Proof.
  intros (Hok & Hoth & Hs). unfold releaseRef. destruct (w_sels w !! r) as [sel|] eqn:Hsel; [|exact (conj Hok (conj Hoth Hs))].
  destruct (Hoth r sel ltac:(discriminate) Hsel) as [Hrel [x Hx]].
  pose proof (release_law (w_sched w) sel x Hok Hx) as H. destruct (sched_release (w_sched w) sel) as [s' sel'].
  destruct H as (Hok' & Hrel' & Hx' & Hs'). rewrite Hrel in Hs'. split; [exact Hok'|]. split.
  - intros k sel2 _ Hk. cbn [w_sels] in Hk. destruct (decide (k = r)) as [->|Hne].
    + rewrite list_lookup_insert_eq in Hk by (apply lookup_lt_is_Some; eauto). injection Hk as <-. rewrite Hx'. eauto.
    + rewrite list_lookup_insert_ne in Hk by congruence. apply (Hoth k); [congruence|exact Hk].
  - intros y. cbn [w_sched]. rewrite Hs'. apply Hs.
Qed.

Lemma release_trace (w : World St) (r : nat) : w_trace (releaseRef w r) = w_trace w.
Proof. unfold releaseRef. destruct (w_sels w !! r); [|reflexivity]. destruct (sched_release _ _). reflexivity. Qed.

Lemma release_lookup (w : World St) (r k : nat) : is_Some (w_sels w !! k) -> is_Some (w_sels (releaseRef w r) !! k).
Proof.
  intros H. unfold releaseRef. destruct (w_sels w !! r) as [sel|] eqn:E; [|exact H]. destruct (sched_release _ _) as [s' sel']. cbn [w_sels].
  apply lookup_lt_is_Some in H. apply lookup_lt_is_Some. rewrite length_insert. exact H.
Qed.

(** A selection takes one slot, of a target that was not excluded. *)
Lemma select_free (w w' : World St) (format : RequestFormat) (excluded : list Z) (o : option nat) : free w ->
  selectRef env q w format excluded = Some (w', o) -> w_trace w' = w_trace w /\
  (forall k, is_Some (w_sels w !! k) -> is_Some (w_sels w' !! k)) /\
  match o with
  | Some r => held w' r /\ exists sel, w_sels w' !! r = Some sel /\ (sel_TargetID sel ∉ excluded)
  | None => free w'
  end.
Proof.
  intros (Hok & Hoth & Hs). unfold selectRef, selectErr. destruct (sched_select _ _ _ _ _ _) as [[s [sel|e]]|] eqn:E; [| |discriminate].
  - eapply select_law in E as (Hok' & Hrel & Hex & x & Hx & Hs'); [|exact Hok|apply instances].
    intros [= <- <-]. split; [reflexivity|]. cbn [w_sels]. split; [intros k [y Hk]; exists y; apply lookup_app_l_Some, Hk|].
    assert ((w_sels w ++ [sel])%list !! length (w_sels w) = Some sel) as Hnew by apply list_lookup_middle, eq_refl.
    split; [|exists sel; auto]. split; [exact Hok'|]. split.
    + intros k sel2 Hne Hk. cbn [w_sels] in Hk. apply lookup_app_Some in Hk as [Hk|[Hge Hk]]; [apply (Hoth k); [discriminate|exact Hk]|].
      apply list_lookup_singleton_Some in Hk as [Hz _]. exfalso. apply Hne. f_equal. lia.
    + exists sel, x. split; [exact Hnew|]. split; [exact Hrel|]. split; [exact Hx|]. intros y. cbn [w_sched]. rewrite Hs', Hs. reflexivity.
  - eapply select_law in E as (Hok' & Hs'); [|exact Hok|apply instances].
    intros [= <- <-]. split; [reflexivity|]. split; [auto|]. split; [exact Hok'|]. split; [exact Hoth|].
    intros y. cbn [w_sched]. rewrite Hs'. apply Hs.
Qed.

Lemma mark_held (w : World St) (r : nat) (sel : SelectionT) (kind : Kind) (resetAt : option Time) (http : Z) (msg : string) :
  held w r -> held (mark env w sel kind resetAt http msg) r.
Proof.
  intros (Hok & Hoth & sel0 & x & H1 & H2 & H3 & H4). destruct (mark_law (w_sched w) sel (rv_now env (w_tick w)) kind resetAt http msg (sel_Model sel) Hok) as [Hok' Hs'].
  split; [exact Hok'|]. split; [exact Hoth|]. exists sel0, x. split_and!; try assumption. intros y. cbn [mark w_sched]. rewrite Hs'. apply H4.
Qed.

Lemma mark_free (w : World St) (sel : SelectionT) (kind : Kind) (resetAt : option Time) (http : Z) (msg : string) :
  free w -> free (mark env w sel kind resetAt http msg).
Proof.
  intros (Hok & Hoth & Hs). destruct (mark_law (w_sched w) sel (rv_now env (w_tick w)) kind resetAt http msg (sel_Model sel) Hok) as [Hok' Hs'].
  split; [exact Hok'|]. split; [exact Hoth|]. intros y. cbn [mark w_sched]. rewrite Hs'. apply Hs.
Qed.

(** ** One turn *)

(** What the trace says so far: no call was made twice, the targets called are
    on record, no remaining fallback was used, at most [k] calls were made and
    nothing was answered. *)
Record facts (tr : list Ev) (attempted : list Z) (route : option ProtocolConvert) (fbs : list protocolFallback) (k : Z) : Prop := mkFacts {
  fa_nodup : NoDup (calls tr);
  fa_known : forall p, p ∈ calls tr -> p.1 ∈ attempted;
  fa_routes : forall fb, fb ∈ fbs -> Some (fb_conversion fb) <> route /\ forall p, p ∈ calls tr -> p.2 <> Some (fb_conversion fb);
  fa_conv : NoDup (map fb_conversion fbs);
  fa_count : Z.of_nat (length (calls tr)) <= k;
  fa_quiet : closings tr = []
}.

Lemma facts_call (tr : list Ev) (att : list Z) (route : option ProtocolConvert) (fbs : list protocolFallback) (k t : Z) :
  facts tr att route fbs k -> (t, route) ∉ calls tr -> t ∈ att -> facts (tr ++ [EvCall t route]) att route fbs (k + 1).
Proof.
  intros [H1 H2 H3 H4 H5 H6] Hnew Ht. constructor; rewrite ?calls_app, ?closings_app; cbn [calls closings omap list_omap].
  - apply NoDup_app. split; [exact H1|]. split; [|apply NoDup_singleton]. intros p Hp Hq%list_elem_of_singleton. subst p. contradiction.
  - intros p [Hp|Hp%list_elem_of_singleton]%elem_of_app; [auto|subst p; exact Ht].
  - intros fb Hfb. destruct (H3 fb Hfb) as [Hr Hc]. split; [exact Hr|].
    intros p [Hp|Hp%list_elem_of_singleton]%elem_of_app; [auto|subst p; cbn; congruence].
  - exact H4.
  - rewrite length_app. cbn. lia.
  - rewrite H6. reflexivity.
Qed.

Lemma facts_more (tr : list Ev) (att att' : list Z) (route : option ProtocolConvert) (fbs : list protocolFallback) (k k' : Z) :
  facts tr att route fbs k -> (forall t, t ∈ att -> t ∈ att') -> k <= k' -> facts tr att' route fbs k'.
Proof. intros [H1 H2 H3 H4 H5 H6] Ha Hk. constructor; auto. lia. Qed.

(** Moving on to a fallback. *)
Lemma facts_switch (tr : list Ev) (att att' : list Z) (route : option ProtocolConvert) (skipped rest : list protocolFallback)
    (fb : protocolFallback) (k : Z) : facts tr att route (skipped ++ fb :: rest) k -> (forall t, t ∈ att -> t ∈ att') ->
  facts tr att' (Some (fb_conversion fb)) rest k /\ forall t, (t, Some (fb_conversion fb)) ∉ calls tr.
Proof.
  intros [H1 H2 H3 H4 H5 H6] Ha. rewrite map_app in H4. apply NoDup_app in H4 as (_ & _ & H4). cbn in H4. apply NoDup_cons in H4 as [Hn H4].
  split.
  - constructor; auto. intros f Hf. split.
    + intros [= E]. apply Hn. rewrite <- E. apply list_elem_of_In, in_map, list_elem_of_In, Hf.
    + intros p Hp. apply (H3 f); [apply elem_of_app; right; right; exact Hf|exact Hp].
  - intros t Ht. destruct (H3 fb ltac:(apply elem_of_app; right; left)) as [_ Hc]. exact (Hc _ Ht eq_refl).
Qed.

Lemma facts_trace (tr evs : list Ev) (att : list Z) (route : option ProtocolConvert) (fbs : list protocolFallback) (k : Z) :
  facts tr att route fbs k -> calls evs = [] -> closings evs = [] -> facts (tr ++ evs) att route fbs k.
Proof.
  intros [H1 H2 H3 H4 H5 H6] Hc Ha. constructor; rewrite ?calls_app, ?closings_app, ?Hc, ?Ha, ?app_nil_r; auto.
Qed.

(** How many more turns there can be. *)
Definition measure (st : LoopSt) : Z := ls_limit st - ls_i st + Z.of_nat (length (ls_fallbacks st)).

Definition inv (bound : Z) (w : World St) (st : LoopSt) : Prop :=
  held w (ls_sel st) /\
  (exists sel, w_sels w !! ls_sel st = Some sel /\ sel_TargetID sel ∈ ls_attempted st /\
     ((sel_TargetID sel, ls_route st) ∉ calls (w_trace w))) /\
  facts (w_trace w) (ls_attempted st) (ls_route st) (ls_fallbacks st) (ls_i st) /\
  rq_attempts q <= ls_limit st /\ ls_limit st + Z.of_nat (length (ls_fallbacks st)) <= bound.

(** The call of the turn was made and did not handle the request. *)
Definition called (bound : Z) (w : World St) (st : LoopSt) (sel : SelectionT) : Prop :=
  held w (ls_sel st) /\ w_sels w !! ls_sel st = Some sel /\ ls_last st = ls_sel st /\
  facts (w_trace w) (ls_attempted st) (ls_route st) (ls_fallbacks st) (ls_i st + 1) /\
  rq_attempts q <= ls_limit st /\ ls_limit st + Z.of_nat (length (ls_fallbacks st)) <= bound /\ ls_i st < ls_limit st.

Definition finished (bound : Z) (w : World St) : Prop :=
  free w /\ NoDup (calls (w_trace w)) /\ Z.of_nat (length (calls (w_trace w))) <= bound /\ ended (w_trace w).

Definition loop_pending (bound : Z) (w : World St) (st : LoopSt) : Prop :=
  (free w \/ held w (ls_last st)) /\ is_Some (w_sels w !! ls_last st) /\ NoDup (calls (w_trace w)) /\
  Z.of_nat (length (calls (w_trace w))) <= bound /\ closings (w_trace w) = [].

Definition good (bound m : Z) (t : Turn (St := St)) : Prop :=
  match t with
  | TDone w => finished bound w
  | TBreak w st => loop_pending bound w st
  | TNext w st => inv bound w st /\ measure st < m /\ ls_i st < ls_limit st
  end.

Lemma tail_good (bound : Z) (w : World St) (st : LoopSt) (sel : SelectionT) (t : Turn) : called bound w st sel ->
  turn_tail env q w st = Some t -> good bound (measure st) t.
Proof.
  intros (Hh & Hsel & Hlast & Hf & Hq & Hb & Hi). unfold turn_tail. pose proof (release_held w _ Hh) as Hfree.
  pose proof (release_trace w (ls_sel st)) as Htr. destruct Hf as [H1 H2 H3 H4 H5 H6].
  assert (is_Some (w_sels (releaseRef w (ls_sel st)) !! ls_last st)) as Hl by (apply release_lookup; rewrite Hlast; eauto).
  destruct (Z.leb_spec (rq_attempts q) (ls_i st + 1)).
  - intros [= <-]. split; [auto|]. rewrite Htr. split_and!; auto. lia.
  - destruct (selectRef env q _ _ _) as [[w' [r|]]|] eqn:E; [| |discriminate].
    + destruct (select_free _ _ _ _ _ Hfree E) as (Htr' & _ & Hheld & sel' & Hsel' & Hex). rewrite Hsel'. intros [= <-].
      split; [|unfold measure; cbn; lia]. split; [exact Hheld|]. cbn [ls_sel ls_attempted ls_route ls_fallbacks ls_i ls_limit].
      rewrite Htr', Htr. split; [|split; [|lia]].
      * exists sel'. split; [exact Hsel'|]. split; [apply elem_of_app; right; left|]. intros Hp. apply Hex, (H2 _ Hp).
      * constructor; auto. intros p Hp. apply elem_of_app. left. auto.
    + destruct (select_free _ _ _ _ _ Hfree E) as (Htr' & Hk & Hf'). intros [= <-]. split; [auto|]. rewrite Htr', Htr.
      split_and!; auto. lia.
Qed.

Lemma finish_free (w : World St) (r : nat) (sel : SelectionT) (l : UsageLog) (msg : option string) : free w \/ held w r ->
  free (finishSelection w r sel l msg) /\ w_trace (finishSelection w r sel l msg) =
    (w_trace w ++ [EvFinished (applySelectionAttribution l sel (w_prices w !! r)) msg])%list.
Proof.
  intros H. split; [|cbn; rewrite release_trace; reflexivity].
  unfold finishSelection. eapply free_core; [reflexivity..|]. destruct H as [H|H]; [apply release_free|apply release_held]; exact H.
Qed.

(** A rejection settles the request with one row and one answer. *)
Lemma reject_finished (bound : Z) (w : World St) (st : LoopSt) (sel : SelectionT) (res : CallResult) (k : Z) :
  free w \/ held w (ls_sel st) -> facts (w_trace w) (ls_attempted st) (ls_route st) (ls_fallbacks st) k -> k <= bound ->
  finished bound (reject env q w st sel res).
Proof.
  intros Hw [H1 H2 H3 H4 H5 H6] Hk. unfold reject.
  destruct (finish_free w (ls_sel st) sel (attempt_row q sel (cr_code res) Err4xx) (some_msg (rejection_text res)) Hw) as [Hfree Htr].
  set (w1 := finishSelection _ _ _ _ _) in *. destruct (classify w1 sel Kind4xx _ _) as [t punish]. cbv zeta.
  match goal with |- context [EvAnswer ?a ?b] => set (e := EvAnswer a b) end.
  assert (forall w2 : World St, free w2 -> w_trace w2 = (w_trace w1 ++ [e])%list -> finished bound w2) as Hfin.
  { intros w2 Hf2 Ht2. split; [exact Hf2|]. rewrite Ht2, Htr, !calls_quiet by reflexivity.
    split; [exact H1|]. split; [lia|]. apply ended_answer. right. rewrite closings_app, H6. eexists. reflexivity. }
  destruct punish; apply Hfin; [apply mark_free| |exact Hfree|reflexivity]; [|reflexivity]. exact Hfree.
Qed.

Lemma fallbacks_spec (attempted : list Z) (failed : Z) (fbs : list protocolFallback) : forall w w' o, free w ->
  try_fallbacks ConvertRequest env q w attempted failed fbs = Some (w', o) -> w_trace w' = w_trace w /\
  (forall k, is_Some (w_sels w !! k) -> is_Some (w_sels w' !! k)) /\
  match o with
  | None => free w'
  | Some (r, fb, body, rest) => held w' r /\ exists skipped, fbs = (skipped ++ fb :: rest)%list
  end.
Proof.
  induction fbs as [|fb fbs IH]; intros w w' o Hf; cbn [try_fallbacks]; [intros [= <- <-]; auto|].
  assert (forall w1, w_trace w1 = w_trace w -> (forall k, is_Some (w_sels w !! k) -> is_Some (w_sels w1 !! k)) -> free w1 ->
    try_fallbacks ConvertRequest env q w1 attempted failed fbs = Some (w', o) ->
    w_trace w' = w_trace w /\ (forall k, is_Some (w_sels w !! k) -> is_Some (w_sels w' !! k)) /\
    match o with None => free w' | Some (r, fb0, body, rest) => held w' r /\ exists skipped, fb :: fbs = (skipped ++ fb0 :: rest)%list end) as Hnext.
  { intros w1 Ht Hk Hf1 E. destruct (IH w1 w' o Hf1 E) as (Ht' & Hk' & Ho). split; [congruence|]. split; [auto|].
    destruct o as [[[[r f] bd] rest]|]; [|exact Ho]. destruct Ho as [Hh [skipped ->]]. split; [exact Hh|]. exists (fb :: skipped). reflexivity. }
  destruct (ConvertRequest _ _) as [body|err]; [|apply Hnext; auto].
  destruct (selectRef env q w (fb_format fb) attempted) as [[w1 [r|]]|] eqn:E1; [| |discriminate].
  - destruct (select_free _ _ _ _ _ Hf E1) as (Ht & Hk & Hh & _). intros [= <- <-]. split_and!; auto. exists []. reflexivity.
  - destruct (select_free _ _ _ _ _ Hf E1) as (Ht & Hk & Hf1).
    destruct (selectRef env q w1 (fb_format fb) _) as [[w2 [r|]]|] eqn:E2; [| |discriminate].
    + destruct (select_free _ _ _ _ _ Hf1 E2) as (Ht2 & Hk2 & Hh & _). intros [= <- <-]. split; [congruence|]. split; [auto|].
      split; [exact Hh|]. exists []. reflexivity.
    + destruct (select_free _ _ _ _ _ Hf1 E2) as (Ht2 & Hk2 & Hf2). apply Hnext; [congruence|auto|exact Hf2].
Qed.

Lemma containsAttempted_spec (l : list Z) (x : Z) : containsAttempted l x = true <-> x ∈ l.
Proof.
  unfold containsAttempted. rewrite existsb_exists, list_elem_of_In. split.
  - intros (y & Hy & E%Z.eqb_eq). subst y. exact Hy.
  - intros H. exists x. rewrite Z.eqb_refl. auto.
Qed.

Lemma negotiate_good (bound : Z) (w : World St) (st : LoopSt) (sel : SelectionT) (res : CallResult) (t : Turn) :
  called bound w st sel -> negotiate ConvertRequest env q w st sel res = Some t -> good bound (measure st) t.
Proof.
  intros (Hh & Hsel & Hlast & Hf & Hq & Hb & Hi). unfold negotiate. pose proof (release_held w _ Hh) as Hfree.
  pose proof (release_trace w (ls_sel st)) as Htr.
  destruct (try_fallbacks _ _ _ _ _ _ _) as [[w1 [[[[r fb] body] rest]|]]|] eqn:E; [| |discriminate].
  - destruct (fallbacks_spec _ _ _ _ _ _ Hfree E) as (Htr1 & _ & Hheld & skipped & Efb). pose proof Hheld as (_ & _ & next & x & Hnext & _).
    rewrite Hnext. intros [= <-]. rewrite Efb in Hf, Hb.
    set (att := if containsAttempted _ _ then _ else _).
    assert (forall z, z ∈ ls_attempted st -> z ∈ att) as Hatt
      by (intros z Hz; unfold att; destruct (containsAttempted _ _); [exact Hz|apply elem_of_app; left; exact Hz]).
    assert (sel_TargetID next ∈ att) as Hin.
    { unfold att. destruct (containsAttempted _ _) eqn:Ec; [apply containsAttempted_spec, Ec|apply elem_of_app; right; left]. }
    destruct (facts_switch _ _ att _ _ _ _ _ Hf Hatt) as [Hf' Hnew]. rewrite length_app in Hb. cbn [length] in Hb.
    assert (forall w2 : World St, w_sched w2 = w_sched w1 -> w_sels w2 = w_sels w1 ->
      (exists evs, w_trace w2 = (w_trace w ++ evs)%list /\ calls evs = [] /\ closings evs = []) ->
      good bound (measure st) (TNext w2 (mkLoopSt (ls_i st + 1) (if ls_limit st <=? ls_i st + 1 then ls_limit st + 1 else ls_limit st)
        r r att (ls_code st) (ls_msg st) (ls_hdr st) (ls_body st) rest (fb_format fb) body (fb_format fb) (Some (fb_conversion fb))))) as Hgood.
    { intros w2 Hs2 Hl2 (evs & Ht2 & Hc & Ha). split; [|split].
      - split; [eapply held_core; [exact Hs2|exact Hl2|exact Hheld]|]. cbn [ls_sel ls_attempted ls_route ls_fallbacks ls_i ls_limit].
        rewrite Ht2, Hl2. split; [|split; [apply facts_trace; assumption|]].
        + exists next. rewrite calls_app, Hc, app_nil_r. auto.
        + destruct (Z.leb_spec (ls_limit st) (ls_i st + 1)); lia.
      - unfold measure. cbn [ls_limit ls_i ls_fallbacks]. rewrite Efb, length_app. cbn [length].
        destruct (Z.leb_spec (ls_limit st) (ls_i st + 1)); lia.
      - cbn [ls_limit ls_i]. destruct (Z.leb_spec (ls_limit st) (ls_i st + 1)); lia. }
    unfold recordLog. destruct (rq_usageCapture q).
    + apply Hgood; [reflexivity|reflexivity|]. eexists [_]. cbn [emit w_trace]. rewrite Htr1, Htr. auto.
    + apply Hgood; [reflexivity|reflexivity|]. exists []. rewrite app_nil_r, Htr1, Htr. auto.
  - destruct (fallbacks_spec _ _ _ _ _ _ Hfree E) as (Htr1 & _ & Hf1). intros [= <-]. cbn [good].
    eapply reject_finished; [left; exact Hf1|rewrite Htr1, Htr; exact Hf|lia].
Qed.

Lemma called_mark (bound : Z) (w : World St) (st : LoopSt) (sel : SelectionT) (b : bool) (kind : Kind) (resetAt : option Time)
    (http : Z) (msg : string) : called bound w st sel ->
  called bound (if b then mark env w sel kind resetAt http msg else w) (with_msg st msg) sel.
Proof.
  intros (Hh & Hsel & Hlast & Hf & Hq & Hb & Hi). destruct b; split_and!; try assumption. apply mark_held, Hh.
Qed.

Lemma on_429_good (bound : Z) (w : World St) (st : LoopSt) (sel : SelectionT) (res : CallResult) (t : Turn) :
  called bound w st sel -> on_429 env q w st sel res = Some t -> good bound (measure st) t.
Proof.
  intros Hc. unfold on_429. cbv zeta. set (msg := if _ && _ then _ else _). destruct (classify w sel Kind429 _ msg) as [then_ punish].
  intros E. change (measure st) with (measure (with_msg st msg)). eapply tail_good; [|exact E]. apply called_mark, Hc.
Qed.

Lemma on_failure_good (bound : Z) (w : World St) (st : LoopSt) (sel : SelectionT) (res : CallResult) (t : Turn) :
  called bound w st sel -> on_failure env q w st sel res = Some t -> good bound (measure st) t.
Proof.
  intros Hc. unfold on_failure. destruct (_ && _).
  - intros [= <-]. destruct Hc as (Hh & Hsel & Hlast & [H1 H2 H3 H4 H5 H6] & Hq & Hb & Hi).
    destruct (finish_free w (ls_sel st) sel (attempt_row q sel statusClientClosedRequest ErrAbort)
      (Some "client closed request before upstream response") (or_intror Hh)) as [Hfree Htr].
    split; [exact Hfree|]. rewrite Htr, calls_quiet by reflexivity. split_and!; [exact H1|lia|].
    unfold ended. rewrite closings_app, H6. split; [exact I|]. right. right. eexists. apply last_snoc.
  - cbv zeta. destruct (classify w sel _ _ _) as [then_ punish]. intros E.
    change (measure st) with (measure (with_msg st (failure_msg res))). eapply tail_good; [|exact E]. apply called_mark, Hc.
Qed.

Lemma after_call_good (bound : Z) (w : World St) (st : LoopSt) (sel : SelectionT) (res : CallResult) (t : Turn) :
  called bound w st sel -> after_call ConvertRequest env q w st sel res = Some t -> good bound (measure st) t.
Proof.
  intros Hc. unfold after_call. set (st' := mkLoopSt _ _ _ _ _ _ _ _ _ _ _ _ _ _).
  assert (called bound w st' sel) as Hc' by exact Hc. change (measure st) with (measure st').
  destruct (_ =? StatusTooManyRequests); [apply on_429_good, Hc'|]. destruct (_ && _); [apply on_failure_good, Hc'|].
  destruct (_ && _); [apply negotiate_good, Hc'|]. intros [= <-]. destruct Hc' as (Hh & _ & _ & Hf & Hq & Hb & Hi).
  eapply reject_finished; [right; exact Hh|exact Hf|]. lia.
Qed.

Lemma precheck_core (w w' : World St) (r : nat) (sel : SelectionT) : precheck env q w r sel = Some w' ->
  w_sched w' = w_sched w /\ w_sels w' = w_sels w /\ w_trace w' = w_trace w.
Proof.
  unfold precheck. destruct (rq_precheck q); [|intros [= <-]; auto]. cbv zeta.
  destruct (precheckPrice _ _ _ _ _); [|discriminate]. intros [= <-]. destruct (UsageBilling.resolvedPricesUsable _ _); auto.
Qed.

(** The attempt of a turn, after the price check. *)
Lemma attempt_good (bound : Z) (w w1 w2 : World St) (st : LoopSt) (sel : SelectionT) (format : RequestFormat) (body : string) (res : CallResult) :
  inv bound w st -> ls_i st < ls_limit st -> w_sels w !! ls_sel st = Some sel -> precheck env q w (ls_sel st) sel = Some w1 ->
  attempt_call (emit w1 (EvCall (sel_TargetID sel) (ls_route st))) (ls_sel st) format (ls_route st) body = (w2, res) ->
  if cr_handled res then finished bound (emit w2 EvHandled)
  else called bound w2 (mkLoopSt (ls_i st) (ls_limit st) (ls_sel st) (ls_sel st) (ls_attempted st) (ls_code st) (ls_msg st) (ls_hdr st) (ls_body st)
    (ls_fallbacks st) (ls_selectFormat st) (ls_request st) (ls_routeFormat st) (ls_route st)) sel.
Proof.
  intros (Hh & (sel1 & Hsel & Ht & Hnew) & Hf & Hq & Hb) Hi Hsel1 Ep Ec. assert (sel1 = sel) as -> by congruence.
  destruct (precheck_core _ _ _ _ Ep) as (Es & El & Et).
  pose proof Hh as (Hok & Hoth & sel0 & x & Hsel0 & Hrel & Hx & Hs). assert (sel0 = sel) as -> by congruence.
  eapply attempt_law with (sel := sel) (x := x) in Ec as [Hok2 Hcase];
    [|cbn; rewrite Es; exact Hok|cbn; rewrite El; exact Hsel|exact Hrel|exact Hx|cbn; rewrite Es, Hs, one_at_self; specialize (base_nonneg x); lia].
  cbn [emit w_sched w_sels w_trace] in Hcase. rewrite Es, El, Et in Hcase.
  pose proof (facts_call _ _ _ _ _ _ Hf Hnew Ht) as Hf'. destruct (cr_handled res).
  - destruct Hcase as ((sel' & Hl2 & Hrel' & Hx') & Hs2 & evs & Htr2 & Hev & Hcl). destruct Hf' as [H1 H2 H3 H4 H5 H6].
    split.
    + split; [exact Hok2|]. split; [|intros y; cbn; rewrite Hs2, Hs; lia].
      intros k s2 _ Hk. cbn [emit w_sels] in Hk. rewrite Hl2 in Hk. destruct (decide (k = ls_sel st)) as [->|Hne].
      * rewrite list_lookup_insert_eq in Hk by (apply lookup_lt_is_Some; eauto). injection Hk as <-. rewrite Hx'. eauto.
      * rewrite list_lookup_insert_ne in Hk by congruence. apply (Hoth k); [congruence|exact Hk].
    + cbn [emit w_trace]. rewrite Htr2, calls_quiet, (calls_quiet _ evs) by (reflexivity || apply attempt_no_calls, Hev).
      split_and!; [exact H1|lia|]. split; [rewrite closings_app, closings_app, H6, app_nil_r; exact Hcl|right; left; apply last_snoc].
  - destruct Hcase as (Hl2 & Hs2 & Htr2). split_and!; [|cbn; rewrite Hl2; exact Hsel|reflexivity|rewrite Htr2; exact Hf'|exact Hq|exact Hb|exact Hi].
    split; [exact Hok2|]. split; [intros k s2 Hne Hk; rewrite Hl2 in Hk; eapply Hoth; eassumption|].
    exists sel, x. rewrite Hl2. split_and!; auto. intros y. rewrite Hs2. apply Hs.
Qed.

Lemma turn_good (bound : Z) (w : World St) (st : LoopSt) (t : Turn) : inv bound w st -> ls_i st < ls_limit st ->
  turn ConvertRequest env q w st = Some t -> good bound (measure st) t.
Proof.
  intros Hinv Hi. pose proof Hinv as (Hh & (sel & Hsel & Ht & Hnew) & Hf & Hq & Hb). unfold turn. rewrite Hsel.
  destruct (precheck env q w (ls_sel st) sel) as [w1|] eqn:Ep.
  - cbn [ls_routeFormat ls_route ls_request]. destruct (attempt_call _ _ _ _ _) as [w2 res] eqn:Ec.
    pose proof (attempt_good _ _ _ _ _ _ _ _ _ Hinv Hi Hsel Ep Ec) as H. destruct (cr_handled res); [intros [= <-]; exact H|].
    intros E. exact (after_call_good _ _ _ _ _ _ H E).
  - intros [= <-]. destruct Hf as [H1 H2 H3 H4 H5 H6]. pose proof (release_held w _ Hh) as Hfree. unfold recordRejected.
    assert (forall w2 : World St, free w2 -> calls (w_trace w2) = calls (w_trace w) -> closings (w_trace w2) = [] ->
      finished bound (emit w2 (EvAnswer None (writePrecheckRejected (rq_ws q))))) as Hfin.
    { intros w2 Hf2 Hc2 Ha2. split; [eapply free_core; [reflexivity..|exact Hf2]|]. cbn [emit w_trace]. rewrite calls_quiet, Hc2 by reflexivity.
      split_and!; [exact H1|lia|]. apply ended_answer. auto. }
    destruct (rq_usageCapture q); apply Hfin; try exact Hfree; cbn [emit w_trace];
      rewrite ?release_trace, ?calls_app, ?closings_app, ?H6, ?app_nil_r; reflexivity.
Qed.

(** ** The loop *)

Lemma turns_step (fuel : nat) (w : World St) (st : LoopSt) : turns ConvertRequest env q (S fuel) w st =
  if negb (ls_i st <? ls_limit st) then Ret (w, Some st)
  else match turn ConvertRequest env q w st with
       | None => Panic
       | Some (TDone w) => Ret (w, None)
       | Some (TBreak w st) => Ret (w, Some st)
       | Some (TNext w st) => turns ConvertRequest env q fuel w st
       end.
Proof. reflexivity. Qed.

(** The only panics are the scheduler's. *)
Definition scheduler_panics : Prop :=
  exists (s : St) pe used gid format model, sc_ok s /\ sched_select s pe used gid format model = None.

Lemma select_none (w : World St) (format : RequestFormat) (excluded : list Z) : free w ->
  selectRef env q w format excluded = None -> scheduler_panics.
Proof.
  intros (Hok & _). unfold selectRef, selectErr. destruct (sched_select _ _ _ _ _ _) as [[s [sel|e]]|] eqn:E; try discriminate.
  intros _. eexists _, _, _, _, _, _. eauto.
Qed.

Lemma tail_none (bound : Z) (w : World St) (st : LoopSt) (sel : SelectionT) : called bound w st sel ->
  turn_tail env q w st = None -> scheduler_panics.
Proof.
  intros (Hh & _). unfold turn_tail. pose proof (release_held w _ Hh) as Hfree. destruct (rq_attempts q <=? ls_i st + 1); [discriminate|].
  destruct (selectRef env q _ _ _) as [[w' [r|]]|] eqn:E; [|discriminate|intros _; eapply select_none; eassumption].
  destruct (select_free _ _ _ _ _ Hfree E) as (_ & _ & _ & sel' & Hsel' & _). rewrite Hsel'. discriminate.
Qed.

Lemma fallbacks_none (attempted : list Z) (failed : Z) (fbs : list protocolFallback) : forall w, free w ->
  try_fallbacks ConvertRequest env q w attempted failed fbs = None -> scheduler_panics.
Proof.
  induction fbs as [|fb fbs IH]; intros w Hf; cbn [try_fallbacks]; [discriminate|].
  destruct (ConvertRequest _ _); [|apply IH, Hf].
  destruct (selectRef env q w (fb_format fb) attempted) as [[w1 [r|]]|] eqn:E1; [discriminate| |intros _; eapply select_none; eassumption].
  destruct (select_free _ _ _ _ _ Hf E1) as (_ & _ & Hf1).
  destruct (selectRef env q w1 (fb_format fb) _) as [[w2 [r|]]|] eqn:E2; [discriminate| |intros _; eapply select_none; eassumption].
  destruct (select_free _ _ _ _ _ Hf1 E2) as (_ & _ & Hf2). apply IH, Hf2.
Qed.

Lemma after_call_none (bound : Z) (w : World St) (st : LoopSt) (sel : SelectionT) (res : CallResult) : called bound w st sel ->
  after_call ConvertRequest env q w st sel res = None -> scheduler_panics.
Proof.
  intros Hc. unfold after_call. set (st' := mkLoopSt _ _ _ _ _ _ _ _ _ _ _ _ _ _).
  assert (called bound w st' sel) as Hc' by exact Hc. destruct (_ =? StatusTooManyRequests).
  { unfold on_429. cbv zeta. set (msg := if _ && _ then _ else _). destruct (classify w sel Kind429 _ msg) as [then_ punish].
    eapply tail_none, called_mark, Hc'. }
  destruct (_ && _).
  { unfold on_failure. destruct (_ && _); [discriminate|]. cbv zeta. destruct (classify w sel _ _ _) as [then_ punish].
    eapply tail_none, called_mark, Hc'. }
  destruct (_ && _); [|discriminate]. unfold negotiate. destruct Hc' as (Hh & _). pose proof (release_held w _ Hh) as Hfree.
  destruct (try_fallbacks _ _ _ _ _ _ _) as [[w1 [[[[r fb] body] rest]|]]|] eqn:E; [|discriminate|intros _; eapply fallbacks_none; eassumption].
  destruct (fallbacks_spec _ _ _ _ _ _ Hfree E) as (_ & _ & (_ & _ & next & x & Hnext & _) & _). rewrite Hnext. discriminate.
Qed.

Lemma turn_none (bound : Z) (w : World St) (st : LoopSt) : inv bound w st -> ls_i st < ls_limit st ->
  turn ConvertRequest env q w st = None -> scheduler_panics.
Proof.
  intros Hinv Hi. pose proof Hinv as (_ & (sel & Hsel & _) & _). unfold turn. rewrite Hsel.
  destruct (precheck env q w (ls_sel st) sel) as [w1|] eqn:Ep; [|discriminate].
  cbn [ls_routeFormat ls_route ls_request]. destruct (attempt_call _ _ _ _ _) as [w2 res] eqn:Ec.
  pose proof (attempt_good _ _ _ _ _ _ _ _ _ Hinv Hi Hsel Ep Ec) as H. destruct (cr_handled res); [discriminate|].
  intros E. exact (after_call_none _ _ _ _ _ H E).
Qed.

Lemma turns_good (bound : Z) (fuel : nat) : forall w st, inv bound w st -> measure st <= Z.of_nat fuel ->
  ls_i st < ls_limit st ->
  match turns ConvertRequest env q fuel w st with
  | NoFuel => False
  | Panic => scheduler_panics
  | Ret (w', None) => finished bound w'
  | Ret (w', Some st') => loop_pending bound w' st'
  end.
Proof.
  induction fuel as [|fuel IH]; intros w st Hinv Hm Hi; [unfold measure in Hm; lia|].
  rewrite turns_step. destruct (Z.ltb_spec (ls_i st) (ls_limit st)); [|lia]. cbn [negb].
  destruct (turn ConvertRequest env q w st) as [t|] eqn:E; [|eapply turn_none; eassumption].
  pose proof (turn_good bound w st t Hinv Hi E) as Hg. destruct t as [w1|w1 st1|w1 st1]; cbn [good] in Hg; try exact Hg.
  destruct Hg as (Hinv1 & Hm1 & Hi1). apply IH; [exact Hinv1|lia|exact Hi1].
Qed.

Lemma exhausted_good (bound : Z) (w : World St) (st : LoopSt) : loop_pending bound w st ->
  exists w', exhausted q w st = Ret w' /\ finished bound w'.
Proof.
  intros (Hw & [sel Hsel] & Hn & Hc & Ha). unfold exhausted. rewrite Hsel.
  assert (free (releaseRef w (ls_last st))) as Hfree by (destruct Hw as [H|H]; [apply release_free|apply release_held]; exact H).
  set (w1 := releaseRef w (ls_last st)) in *. assert (w_trace w1 = w_trace w) as Htr by apply release_trace.
  cbv zeta. destruct (classify w1 sel _ _ _) as [t punish]. eexists. split; [reflexivity|].
  match goal with |- context [EvAnswer ?a ?b] => set (e := EvAnswer a b) end. unfold recordLog.
  assert (forall w2 : World St, free w2 -> calls (w_trace w2) = calls (w_trace w) -> closings (w_trace w2) = [] -> finished bound (emit w2 e)) as Hfin.
  { intros w2 Hf2 Hc2 Ha2. split; [eapply free_core; [reflexivity..|exact Hf2]|]. cbn [emit w_trace].
    rewrite calls_quiet, Hc2 by reflexivity. split_and!; [exact Hn|exact Hc|]. apply ended_answer. auto. }
  destruct (rq_usageCapture q); apply Hfin; try exact Hfree; cbn [emit w_trace]; rewrite ?calls_quiet, ?closings_app, ?Htr, ?Ha by reflexivity; reflexivity.
Qed.

(** A request that enters the loop with the slot of its first selection. *)
Definition enters (w : World St) (sel : nat) (route : option ProtocolConvert) (fallbacks : list protocolFallback) : Prop :=
  held w sel /\ calls (w_trace w) = [] /\ closings (w_trace w) = [] /\ NoDup (map fb_conversion fallbacks) /\
  forall fb, fb ∈ fallbacks -> Some (fb_conversion fb) <> route.

Lemma failover_total (w : World St) (sel : nat) (format : RequestFormat) (route : option ProtocolConvert) (body : string)
    (fallbacks : list protocolFallback) : enters w sel route fallbacks ->
  match failoverLoop ConvertRequest env q w sel format route body fallbacks with
  | Panic => scheduler_panics
  | NoFuel => False
  | Ret w' => finished (Z.max 0 (rq_attempts q) + Z.of_nat (length fallbacks)) w'
  end.
Proof.
  intros (Hh & Htr & Hans & Hn & Hr). pose proof Hh as (_ & _ & s & x & Hs & _). unfold failoverLoop. rewrite Hs.
  set (st := mkLoopSt _ _ _ _ _ _ _ _ _ _ _ _ _ _). set (bound := Z.max 0 _ + _).
  destruct (Z.ltb_spec 0 (rq_attempts q)) as [Hpos|Hneg].
  - assert (inv bound w st) as Hinv.
    { split; [exact Hh|]. cbn [st ls_sel ls_attempted ls_route ls_fallbacks ls_i ls_limit]. split; [|split; [|unfold bound; lia]].
      - exists s. split; [exact Hs|]. split; [left|rewrite Htr; apply not_elem_of_nil].
      - constructor; rewrite ?Htr; [constructor|intros p Hp; apply not_elem_of_nil in Hp; contradiction| |exact Hn|reflexivity|exact Hans].
        intros fb Hfb. split; [auto|]. intros p Hp. apply not_elem_of_nil in Hp. contradiction. }
    pose proof (turns_good bound (S (Z.to_nat (rq_attempts q) + length fallbacks)) w st Hinv) as H.
    destruct (turns _ _ _ _ w st) as [| |[w' [st'|]]].
    + apply H; unfold measure; cbn [st ls_limit ls_i ls_fallbacks]; lia.
    + apply H; unfold measure; cbn [st ls_limit ls_i ls_fallbacks]; lia.
    + destruct (exhausted_good bound w' st') as (w2 & -> & Hf); [|exact Hf]. apply H; unfold measure; cbn [st ls_limit ls_i ls_fallbacks]; lia.
    + apply H; unfold measure; cbn [st ls_limit ls_i ls_fallbacks]; lia.
  - rewrite turns_step. cbn [st ls_i ls_limit]. destruct (Z.ltb_spec 0 (rq_attempts q)); [lia|]. cbn [negb].
    destruct (exhausted_good bound w st) as (w2 & -> & Hf); [|exact Hf].
    split; [right; exact Hh|]. cbn [st ls_last]. rewrite Htr. split_and!; [eauto|constructor|unfold bound; cbn; lia|exact Hans].
Qed.

(** ** From the first selection *)

Lemma selectErr_ref (w : World St) (format : RequestFormat) (excluded : list Z) : selectRef env q w format excluded =
  match selectErr env q w format excluded with
  | None => None
  | Some (w, inl r) => Some (w, Some r)
  | Some (w, inr _) => Some (w, None)
  end.
Proof. reflexivity. Qed.

Lemma selectErr_free (w w' : World St) (format : RequestFormat) (o : nat + SelectError) : free w ->
  selectErr env q w format [] = Some (w', o) -> w_trace w' = w_trace w /\
  match o with inl r => held w' r | inr _ => free w' end.
Proof.
  intros Hf E. pose proof (selectErr_ref w format []) as R. rewrite E in R. destruct o as [r|e];
    destruct (select_free _ _ _ _ _ Hf R) as (H1 & _ & H2); [destruct H2 as [H2 _]|]; auto.
Qed.

Lemma selectErr_none (w : World St) (format : RequestFormat) : free w -> selectErr env q w format [] = None -> scheduler_panics.
Proof. intros Hf E. pose proof (selectErr_ref w format []) as R. rewrite E in R. exact (select_none _ _ _ Hf R). Qed.

(** No call was made and nothing answered yet. *)
Definition quiet (w : World St) : Prop := calls (w_trace w) = [] /\ closings (w_trace w) = [].

Lemma quiet_rejected (w : World St) (l : UsageLog) (msg : string) : quiet w -> quiet (recordRejected q w l msg).
Proof.
  intros [H1 H2]. unfold recordRejected. destruct (rq_usageCapture q); [|split; assumption].
  split; cbn [emit w_trace]; rewrite ?calls_quiet, ?closings_app, ?H1, ?H2; reflexivity.
Qed.

Lemma quiet_core (w w' : World St) : w_trace w' = w_trace w -> quiet w -> quiet w'.
Proof. unfold quiet. intros ->. auto. Qed.

Lemma answered (w : World St) (retry : option string) (a : Answer) (bound : Z) : free w -> quiet w -> 0 <= bound ->
  finished bound (emit w (EvAnswer retry a)).
Proof.
  intros Hf [H1 H2] Hb. split; [eapply free_core; [reflexivity..|exact Hf]|]. cbn [emit w_trace]. rewrite calls_quiet, H1 by reflexivity.
  split_and!; [constructor|cbn; lia|]. apply ended_answer. auto.
Qed.

Lemma record_finished (w : World St) (l : UsageLog) (msg : string) (retry : option string) (a : Answer) (bound : Z) : free w -> quiet w ->
  0 <= bound -> finished bound (recordRejected q (emit w (EvAnswer retry a)) l msg).
Proof.
  intros Hf Hq Hb. unfold recordRejected. destruct (rq_usageCapture q); [|apply answered; assumption].
  destruct Hq as [H1 H2]. split; [eapply free_core; [reflexivity..|exact Hf]|]. cbn [emit w_trace].
  rewrite !calls_quiet, H1 by reflexivity. split_and!; [constructor|cbn; lia|].
  unfold ended. rewrite !closings_app, H2. split; [exact I|]. left. eexists. left.
Qed.

Lemma conversions_spec (auto : bool) (body : string) (cs : list ProtocolConvert) : forall w e convErr, free w -> quiet w ->
  match try_conversions ConvertRequest env q auto w e convErr body cs with
  | None => scheduler_panics
  | Some (w', TrySelected r _ _ conv) => held w' r /\ quiet w' /\ conv ∈ cs
  | Some (w', TryAnswered) => forall bound, 0 <= bound -> finished bound w'
  | Some (w', TryNone _ _) => free w' /\ quiet w'
  end.
Proof.
  induction cs as [|conv cs IH]; intros w e convErr Hf Hq; cbn [try_conversions]; [auto|].
  assert (forall w1 e1 c1, free w1 -> quiet w1 -> match try_conversions ConvertRequest env q auto w1 e1 c1 body cs with
    | None => scheduler_panics
    | Some (w', TrySelected r _ _ conv') => held w' r /\ quiet w' /\ conv' ∈ conv :: cs
    | Some (w', TryAnswered) => forall bound, 0 <= bound -> finished bound w'
    | Some (w', TryNone _ _) => free w' /\ quiet w'
    end) as Hnext.
  { intros w1 e1 c1 Hf1 Hq1. specialize (IH w1 e1 c1 Hf1 Hq1). destruct (try_conversions _ _ _ _ _ _ _ _ _) as [[w' [r f b c| |e' c']]|]; try exact IH.
    destruct IH as (H1 & H2 & H3). split_and!; auto. right. exact H3. }
  destruct (convertedRoute [conv] (rq_format q)) as [[target pc]|]; [|apply Hnext; assumption].
  destruct (selectErr env q w target []) as [[w1 [r|e2]]|] eqn:E; [| |eapply selectErr_none; eassumption].
  - destruct (selectErr_free _ _ _ _ Hf E) as [Htr Hh]. pose proof (quiet_core _ _ Htr Hq) as Hq1.
    destruct (ConvertRequest body conv) as [converted|cerr]; [split_and!; [exact Hh|exact Hq1|left]|].
    pose proof Hh as (_ & _ & sel & x & Hsel & _). rewrite Hsel. cbv zeta.
    match goal with |- context [recordRejected q w1 ?l ?m] => set (w2 := recordRejected q w1 l m) end.
    assert (held w2 r) as Hh2 by (eapply held_core; [| |exact Hh]; unfold w2, recordRejected; destruct (rq_usageCapture q); reflexivity).
    assert (quiet (releaseRef w2 r)) as Hq2 by (eapply quiet_core; [apply release_trace|apply quiet_rejected, Hq1]).
    pose proof (release_held w2 r Hh2) as Hf2. destruct auto; [apply Hnext; assumption|].
    intros bound Hb. apply answered; assumption.
  - destruct (selectErr_free _ _ _ _ Hf E) as [Htr Hf1]. pose proof (quiet_core _ _ Htr Hq) as Hq1.
    destruct (negb auto); [auto|apply Hnext; assumption].
Qed.

Lemma fallbacks_conv (has_caller : ProtocolConvert -> bool) (client : RequestFormat) (taken : option ProtocolConvert) (body : string)
    (cs : list ProtocolConvert) (fb : protocolFallback) : fb ∈ fallbacks_of has_caller client taken body cs ->
  fb_conversion fb ∈ cs /\ fb_conversion fb <> default "" taken.
Proof.
  induction cs as [|conv cs IH]; cbn [fallbacks_of]; [intros H; apply not_elem_of_nil in H; contradiction|].
  assert (fb ∈ fallbacks_of has_caller client taken body cs -> fb_conversion fb ∈ conv :: cs /\ fb_conversion fb <> default "" taken) as Hrest
    by (intros H; destruct (IH H); split; [right|]; assumption).
  destruct (String.eqb_spec conv (default "" taken)) as [|Hne]; [exact Hrest|].
  destruct (convertedRoute [conv] client) as [[target pc]|]; [|exact Hrest]. destruct (has_caller conv); [|exact Hrest].
  intros [->|H]%elem_of_cons; [split; [left|exact Hne]|apply Hrest, H].
Qed.

Lemma fallbacks_nodup (has_caller : ProtocolConvert -> bool) (client : RequestFormat) (taken : option ProtocolConvert) (body : string)
    (cs : list ProtocolConvert) : NoDup cs -> NoDup (map fb_conversion (fallbacks_of has_caller client taken body cs)) /\
  (length (fallbacks_of has_caller client taken body cs) <= length cs)%nat.
Proof.
  induction cs as [|conv cs IH]; intros Hn; cbn [fallbacks_of]; [split; [constructor|cbn; lia]|].
  apply NoDup_cons in Hn as [Hni Hn]. destruct (IH Hn) as [H1 H2]. cbn [length].
  destruct (String.eqb_spec conv (default "" taken)); [split; [exact H1|lia]|].
  destruct (convertedRoute [conv] client) as [[target pc]|]; [|split; [exact H1|lia]]. destruct (has_caller conv); [|split; [exact H1|lia]].
  split; [|cbn; lia]. cbn. constructor; [|exact H1]. intros Hin. apply list_elem_of_In, in_map_iff in Hin as (fb & Efb & Hfb).
  apply list_elem_of_In, fallbacks_conv in Hfb as [Hc _]. apply Hni. rewrite <- Efb. exact Hc.
Qed.

Lemma candidates_nodup (converts : list ProtocolConvert) (client : RequestFormat) : NoDup converts ->
  NoDup (conversionCandidates converts client).
Proof.
  intros Hn. unfold conversionCandidates. destruct (is_auto converts).
  - destruct (_ ==s _); [|destruct (_ ==s _); [|destruct (_ ==s _)]]; [..|constructor];
      (constructor; [rewrite list_elem_of_singleton; discriminate|apply NoDup_singleton]).
  - unfold manual_converts. apply NoDup_ListNoDup, List.NoDup_filter, NoDup_ListNoDup, Hn.
Qed.

Lemma finished_mono (b b' : Z) (w : World St) : finished b w -> b <= b' -> finished b' w.
Proof. intros (H1 & H2 & H3 & H4) Hb. split_and!; auto. lia. Qed.

(** Whatever happens, a request that starts with nothing ends with nothing. *)
Lemma forward_total (converts : list ProtocolConvert) (has_caller : ProtocolConvert -> bool) (w : World St) (body : string) :
  free w -> quiet w -> NoDup converts ->
  match forward ConvertRequest env q converts has_caller w body with
  | Panic => scheduler_panics
  | NoFuel => False
  | Ret w' => finished (Z.max 0 (rq_attempts q) + Z.of_nat (length (conversionCandidates converts (rq_format q)))) w'
  end.
Proof.
  intros Hf Hq Hn. unfold forward. set (cs := conversionCandidates converts (rq_format q)).
  assert (NoDup cs) as Hcs by apply candidates_nodup, Hn. set (bound := Z.max 0 _ + _). assert (0 <= bound) as Hb by (unfold bound; lia).
  assert (forall w1 r f route b, held w1 r -> quiet w1 -> (route = None \/ exists c, route = Some c) ->
    match run_route ConvertRequest env q converts has_caller w1 r f route b body with
    | Panic => scheduler_panics | NoFuel => False | Ret w' => finished bound w' end) as Hrun.
  { intros w1 r f route b Hh [Q1 Q2] Hroute. unfold run_route. fold cs.
    destruct (fallbacks_nodup has_caller (rq_format q) route body cs Hcs) as [Hfn Hlen].
    pose proof (failover_total w1 r f route b (fallbacks_of has_caller (rq_format q) route body cs)) as H.
    destruct (failoverLoop _ _ _ _ _ _ _ _ _) as [| |w'].
    1-2: apply H. 3: eapply finished_mono; [apply H|unfold bound; lia].
    all: split; [exact Hh|]; split; [exact Q1|]; split; [exact Q2|]; split; [exact Hfn|]; intros fb Hfb Heq;
      destruct (fallbacks_conv _ _ _ _ _ _ Hfb) as [_ Hd]; destruct Hroute as [->|[c ->]]; [discriminate|]; injection Heq as Heq; exact (Hd Heq). }
  destruct (selectErr env q w (rq_format q) []) as [[w1 [r|e]]|] eqn:E; [| |eapply selectErr_none; eassumption].
  - destruct (selectErr_free _ _ _ _ Hf E) as [Htr Hh]. apply Hrun; [exact Hh|exact (quiet_core _ _ Htr Hq)|auto].
  - destruct (selectErr_free _ _ _ _ Hf E) as [Htr Hf1]. pose proof (quiet_core _ _ Htr Hq) as Hq1.
    destruct (negb (convertible e)); [apply record_finished; assumption|].
    pose proof (conversions_spec (is_auto converts) body cs w1 e None Hf1 Hq1) as H.
    destruct (try_conversions _ _ _ _ _ _ _ _ _) as [[w2 [r f b c| |e2 ce]]|]; [| | |exact H].
    + destruct H as (H1 & H2 & _). apply Hrun; eauto.
    + apply H, Hb.
    + destruct H as [H1 H2]. destruct ce as [cerr|]; [destruct (is_auto converts); [apply answered; assumption|]|]; apply record_finished; assumption.
Qed.

End Loop.

(** ** Retry-After *)

Lemma delay_range (n unit_ : Z) : second <= delay n unit_ <= max64.
Proof.
  unfold delay. cbv zeta. destruct (Z.ltb_spec (n [*] unit_) second); [unfold second; unfold_int; lia|].
  split; [assumption|]. pose proof (wrap64_range (n * unit_)) as R. unfold mul64. unfold_int. lia.
Qed.

Lemma delta_future (now : Time) (raw : string) (unit_ : Z) (t : Time) : delta now raw unit_ = Some t -> now + second <= t <= now + max64.
Proof.
  unfold delta. destruct (ParseInt raw) as [n|]; [|discriminate]. destruct (0 <=? n); [|discriminate]. intros [= <-].
  pose proof (delay_range n unit_). lia.
Qed.

(** A deadline is always in the future: a late, negative or overflowing header
    never unblocks a target at once. *)
Theorem retry_deadline_future `{L : TextLib} (now : Time) (hdr : option Header) (err : option CallErr) (t : Time) :
  retryAfterDeadline now hdr err = Some t -> now < t.
Proof.
  assert (0 < second) as Hs by (unfold second; lia).
  assert (forall raw u t, delta now raw u = Some t -> now < t) as Hd by (intros raw u t0 H; apply delta_future in H; lia).
  assert (forall h name u t, delta_header now h name u = Some t -> now < t) as Hh
    by (intros h name u t0; unfold delta_header; destruct (_ ==s _); [discriminate|apply Hd]).
  assert (forall h t, retry_after now h = Some t -> now < t) as Hr.
  { intros h t0. unfold retry_after. destruct (_ ==s _); [discriminate|]. destruct (delta now _ second) eqn:E; [intros [= <-]; eauto|].
    destruct (ParseTime _) as [at_|]; [|discriminate]. unfold After. destruct (Z.ltb_spec now at_); [intros [= <-]; assumption|discriminate]. }
  unfold retryAfterDeadline. destruct (match hdr with Some h => Some h | None => _ end) as [h|]; [|discriminate].
  destruct (retry_after now h) eqn:E1; [intros [= <-]; eauto|].
  destruct (delta_header now h "X-Retry-After" second) eqn:E2; [intros [= <-]; eauto|apply Hh].
Qed.

(** A header the int64 product cannot hold is honoured for one second only: the
    upstream asked for three centuries. *)
Theorem retry_after_overflow `{L : TextLib} (now : Time) :
  retryAfterDeadline now (Some {["Retry-After" := "9223372037"]}) None = Some (now + second) /\
  retryAfterDeadline now (Some {["Retry-After" := "9223372036"]}) None = Some (now + 9223372036 * second).
Proof. split; reflexivity. Qed.

(** A header of zero gives a deadline. *)
Theorem retry_after_zero `{L : TextLib} (now : Time) :
  retryAfterDeadline now (Some {["Retry-After" := "0"]}) None = Some (now + second).
Proof. reflexivity. Qed.
