(* ===== verification/JsonScan.v ===== *)
(** * The byte scanner ([internal/proxy/strip_scan.go])

    Requests and stream frames are not decoded: a scanner finds the values of
    top-level keys in the bytes.  Positions are indices into the body as in the
    source; [None] stands for the source's [-1].  Every loop carries fuel, one
    more than the length of the body; the unfolding lemmas show that it is never
    used up, since every turn advances. *)

From Stdlib Require Import ZArith Lia List Bool String Ascii.
From stdpp Require Import base option list.
From S2P Require Import Prelude GoString.
Import ListNotations.
Local Open Scope nat_scope.

(** ** Bytes *)

Definition bytes : Type := list ascii.
Definition bs (s : string) : bytes := list_ascii_of_string s.
Definition slice (b : bytes) (s e : nat) : bytes := take (e - s) (drop s b).

Definition quote : ascii := "034"%char.
Definition backslash : ascii := "092"%char.

#[global] Instance ascii_eq_dec : EqDecision ascii := Ascii.ascii_dec.

Definition beq (a b : bytes) : bool := bool_decide (a = b).

(** [bytes.Contains]. *)
Fixpoint is_prefix (p l : bytes) : bool :=
  match p, l with
  | [], _ => true
  | x :: p, y :: l => Ascii.eqb x y && is_prefix p l
  | _ :: _, [] => false
  end.

Fixpoint bytes_contains (l sub : bytes) : bool :=
  is_prefix sub l || match l with [] => false | _ :: l => bytes_contains l sub end.

Definition is_char (b : bytes) (i : nat) (c : ascii) : bool :=
  match b !! i with Some x => Ascii.eqb x c | None => false end.

(** ** Primitives *)

Definition isWS (c : ascii) : bool :=
  Ascii.eqb c " " || Ascii.eqb c "009" || Ascii.eqb c "010" || Ascii.eqb c "013".

Fixpoint count_ws (l : bytes) : nat := match l with c :: l => if isWS c then S (count_ws l) else 0 | [] => 0 end.
Definition skipSpace (b : bytes) (i : nat) : nat := i + count_ws (drop i b).

(** The rest of a string from inside: the position after the closing quote. *)
Fixpoint skip_string (l : bytes) (i : nat) : option nat :=
  match l with
  | [] => None
  | c :: l =>
      if Ascii.eqb c backslash then match l with [] => None | _ :: l => skip_string l (S (S i)) end
      else if Ascii.eqb c quote then Some (S i) else skip_string l (S i)
  end.

Definition skipJSONString (b : bytes) (i : nat) : option nat := skip_string (drop (S i) b) (S i).

Definition parseJSONString (b : bytes) (i : nat) : option (bytes * nat) :=
  match skipJSONString b i with Some e => Some (slice b (S i) (e - 1), e) | None => None end.

Definition opens (c : ascii) : bool := Ascii.eqb c "{" || Ascii.eqb c "[".
Definition closes (c : ascii) : bool := Ascii.eqb c "}" || Ascii.eqb c "]".

(** The bracket counter of [skipValue]. *)
Fixpoint skip_nested (fuel : nat) (b : bytes) (i depth : nat) : option nat :=
  match fuel with
  | O => None
  | S fuel =>
      match b !! i with
      | None => None
      | Some c =>
          if Ascii.eqb c quote then
            match skipJSONString b i with Some e => skip_nested fuel b e depth | None => None end
          else if opens c then skip_nested fuel b (S i) (S depth)
          else if closes c then
            match depth with
            | O | 1 => Some (S i)
            | S depth => skip_nested fuel b (S i) depth
            end
          else skip_nested fuel b (S i) depth
      end
  end.

Definition fuel_for (b : bytes) : nat := S (List.length b).

Definition ends_number (c : ascii) : bool := isWS c || Ascii.eqb c "," || Ascii.eqb c "}" || Ascii.eqb c "]".
Fixpoint count_number (l : bytes) : nat := match l with c :: l => if ends_number c then 0 else S (count_number l) | [] => 0 end.

Definition literal (b : bytes) (i : nat) (lit : bytes) : option nat :=
  if (i + List.length lit <=? List.length b) && beq (slice b i (i + List.length lit)) lit then Some (i + List.length lit) else None.

Definition skipValue (b : bytes) (i : nat) : option nat :=
  match b !! i with
  | None => None
  | Some c =>
      if Ascii.eqb c quote then skipJSONString b i
      else if opens c then skip_nested (fuel_for b) b (S i) 1
      else if Ascii.eqb c "t" then literal b i (bs "true")
      else if Ascii.eqb c "f" then literal b i (bs "false")
      else if Ascii.eqb c "n" then literal b i (bs "null")
      else Some (i + count_number (drop i b))
  end.

Definition skipElement (b : bytes) (i : nat) : option nat :=
  match skipValue b i with Some e => Some (skipSpace b e) | None => None end.

Fixpoint drop_ws (l : bytes) : bytes := match l with c :: l' => if isWS c then drop_ws l' else l | [] => [] end.
Definition trimWS (l : bytes) : bytes := rev (drop_ws (rev (drop_ws l))).

(** ** Keys of an object *)

(** A member whose key starts at [i]: the key, and where its value starts and
    ends. *)
Definition read_member (b : bytes) (i : nat) : option (bytes * nat * nat) :=
  match parseJSONString b i with
  | None => None
  | Some (key, next) =>
      let j := skipSpace b next in
      if negb (is_char b j ":") then None
      else
        let j := skipSpace b (S j) in
        if List.length b <=? j then None
        else match skipValue b j with Some e => Some (key, j, e) | None => None end
  end.

(** [topLevelRange]; a missing comma is [None]. *)
Record topLevelRange := mkRange {
  r_keyStart : nat; r_valStart : nat; r_valEnd : nat; r_commaBefore : option nat; r_commaAfter : option nat
}.

Definition delRange (r : topLevelRange) : nat * nat :=
  match r_commaBefore r with
  | Some c => (c, r_valEnd r)
  | None => (r_keyStart r, match r_commaAfter r with Some c => S c | None => r_valEnd r end)
  end.

Definition toolsKey : bytes := bs "tools".
Definition toolChoiceKey : bytes := bs "tool_choice".

(** The loop of [scanTopLevelKeys]: the last [tools] and [tool_choice]. *)
Fixpoint top_level (fuel : nat) (b : bytes) (i : nat) (comma : option nat) (tools choice : option topLevelRange)
    : option topLevelRange * option topLevelRange :=
  match fuel with
  | O => (tools, choice)
  | S fuel =>
      let i := skipSpace b i in
      match b !! i with
      | None => (tools, choice)
      | Some c =>
          if Ascii.eqb c "}" then (tools, choice)
          else if Ascii.eqb c "," then top_level fuel b (S i) (Some i) tools choice
          else if Ascii.eqb c quote then
            match read_member b i with
            | None => (tools, choice)
            | Some (key, vs, ve) =>
                let t := skipSpace b ve in
                let r := mkRange i vs ve comma (if is_char b t "," then Some t else None) in
                if beq key toolsKey then top_level fuel b ve None (Some r) choice
                else if beq key toolChoiceKey then top_level fuel b ve None tools (Some r)
                else top_level fuel b ve None tools choice
            end
          else (tools, choice)
      end
  end.

Definition scanTopLevelKeys (b : bytes) : option topLevelRange * option topLevelRange :=
  let i := skipSpace b 0 in
  if is_char b i "{" then top_level (fuel_for b) b (S i) None None None else (None, None).

(** The loop of [scanKeyValue]: the first value of a key. *)
Fixpoint find_key (fuel : nat) (b : bytes) (i : nat) (key : bytes) : option (nat * nat) :=
  match fuel with
  | O => None
  | S fuel =>
      let i := skipSpace b i in
      match b !! i with
      | None => None
      | Some c =>
          if Ascii.eqb c "}" then None
          else if Ascii.eqb c "," then find_key fuel b (S i) key
          else if Ascii.eqb c quote then
            match read_member b i with
            | None => None
            | Some (k, vs, ve) => if beq k key then Some (vs, ve) else find_key fuel b ve key
            end
          else None
      end
  end.

Definition scanKeyValue (b key : bytes) : option (nat * nat) :=
  let i := skipSpace b 0 in
  if is_char b i "{" then find_key (fuel_for b) b (S i) key else None.

(** One member of [scanKeys]: every key that is still missing and has this name
    takes the value; [true] when none is missing any more. *)
Fixpoint fill (keys : list bytes) (out : list (option bytes)) (missing : nat) (k v : bytes) : list (option bytes) * nat * bool :=
  match keys, out with
  | key :: keys, o :: out =>
      if match o with None => beq k key | Some _ => false end then
        let missing := missing - 1 in
        if missing =? 0 then (Some v :: out, missing, true)
        else let '(rest, m, done_) := fill keys out missing k v in (Some v :: rest, m, done_)
      else let '(rest, m, done_) := fill keys out missing k v in (o :: rest, m, done_)
  | _, out => (out, missing, false)
  end.

Fixpoint collect (fuel : nat) (b : bytes) (i : nat) (keys : list bytes) (out : list (option bytes)) (missing : nat)
    : list (option bytes) * bool :=
  match fuel with
  | O => (out, false)
  | S fuel =>
      let i := skipSpace b i in
      match b !! i with
      | None => (out, false)
      | Some c =>
          if Ascii.eqb c "}" then (out, true)
          else if Ascii.eqb c "," then collect fuel b (S i) keys out missing
          else if Ascii.eqb c quote then
            match read_member b i with
            | None => (out, false)
            | Some (k, vs, ve) =>
                let '(out, missing, done_) := fill keys out missing k (slice b vs ve) in
                if done_ then (out, true) else collect fuel b ve keys out missing
            end
          else (out, false)
      end
  end.

(** [scanKeys]: the first value of every key in one pass. *)
Definition scanKeys (b : bytes) (keys : list bytes) : list (option bytes) * bool :=
  let out := map (fun _ => None) keys in
  let i := skipSpace b 0 in
  if is_char b i "{" then collect (fuel_for b) b (S i) keys out (List.length keys) else (out, false).

(** ** Escapes *)

Definition is_hex (c : ascii) : bool :=
  let v := byte_val c in
  ((48 <=? v) && (v <=? 57) || (97 <=? v) && (v <=? 102) || (65 <=? v) && (v <=? 70))%Z.
Definition isHex4 (l : bytes) : bool := forallb is_hex l.

Definition hex_val (c : ascii) : Z :=
  let v := byte_val c in (if (48 <=? v) && (v <=? 57) then v - 48 else if (97 <=? v) && (v <=? 102) then v - 97 + 10 else v - 65 + 10)%Z.
Definition decodeHex4 (l : bytes) : Z := fold_left (fun r c => Z.shiftl r 4 + hex_val c)%Z l 0%Z.

Definition backslashU : bytes := backslash :: bs "u".

Fixpoint decode_escapes (fuel : nat) (v : bytes) : bytes :=
  match fuel with
  | O => []
  | S fuel =>
      match v with
      | [] => []
      | c :: rest =>
          if negb (Ascii.eqb c backslash) then c :: decode_escapes fuel rest
          else if is_char rest 0 backslash then backslash :: decode_escapes fuel (drop 2 v)
          else if is_char rest 0 "u" && (6 <=? List.length v) && isHex4 (slice v 2 6) then
            (bs (EncodeRune (decodeHex4 (slice v 2 6))) ++ decode_escapes fuel (drop 6 v))%list
          else c :: decode_escapes fuel rest
      end
  end.

Definition decodeUnicodeEscapes (v : bytes) : bytes :=
  if bytes_contains v backslashU then decode_escapes (fuel_for v) v else v.

(** The string in a value; [None] for a value of another type. *)
Definition parseStringValue (raw : option bytes) : option bytes :=
  match raw with
  | None | Some [] => Some []
  | Some ((c :: _) as raw) =>
      if Ascii.eqb c quote then
        if List.length raw <? 2 then None else Some (decodeUnicodeEscapes (slice raw 1 (List.length raw - 1)))
      else if Ascii.eqb c "n" && beq raw (bs "null") then Some [] else None
  end.

(** ** Elements of an array *)

Record ToolView := mkView {
  tv_Raw : bytes; tv_Type : bytes; tv_Name : bytes; tv_Namespace : bytes; tv_Result : bytes; tv_ID : bytes
}.

Definition raw_view (raw : bytes) : ToolView := mkView raw [] [] [] [] [].

Definition set_view (tv : ToolView) (key val : bytes) : ToolView :=
  if beq key (bs "type") then mkView (tv_Raw tv) val (tv_Name tv) (tv_Namespace tv) (tv_Result tv) (tv_ID tv)
  else if beq key (bs "name") then mkView (tv_Raw tv) (tv_Type tv) val (tv_Namespace tv) (tv_Result tv) (tv_ID tv)
  else if beq key (bs "namespace") then mkView (tv_Raw tv) (tv_Type tv) (tv_Name tv) val (tv_Result tv) (tv_ID tv)
  else if beq key (bs "id") then mkView (tv_Raw tv) (tv_Type tv) (tv_Name tv) (tv_Namespace tv) (tv_Result tv) val
  else if beq key (bs "result") then mkView (tv_Raw tv) (tv_Type tv) (tv_Name tv) (tv_Namespace tv) val (tv_ID tv)
  else tv.

Definition set_result (tv : ToolView) (key val : bytes) : ToolView :=
  if beq key (bs "result") then mkView (tv_Raw tv) (tv_Type tv) (tv_Name tv) (tv_Namespace tv) val (tv_ID tv) else tv.

Definition after_comma (b : bytes) (i : nat) : nat := let k := skipSpace b i in if is_char b k "," then S k else i.

(** The value of a member at [j]: a string is decoded, of the others only a
    result is kept. *)
Definition view_value (b : bytes) (tv : ToolView) (key : bytes) (j : nat) : option (ToolView * nat) :=
  if is_char b j quote then
    match parseJSONString b j with
    | None => None
    | Some (val, e) => Some (set_view tv key (decodeUnicodeEscapes val), e)
    end
  else
    match skipValue b j with
    | None => None
    | Some e => Some (set_result tv key (slice b j e), e)
    end.

Fixpoint extract_loop (fuel : nat) (b : bytes) (i : nat) (tv : ToolView) : ToolView :=
  match fuel with
  | O => tv
  | S fuel =>
      let i := skipSpace b i in
      if negb (is_char b i quote) then tv
      else
        match parseJSONString b i with
        | None => tv
        | Some (key, next) =>
            let j := skipSpace b next in
            if negb (is_char b j ":") then tv
            else
              let j := skipSpace b (S j) in
              if List.length b <=? j then tv
              else
                match view_value b tv key j with
                | None => tv
                | Some (tv, e) => extract_loop fuel b (after_comma b e) tv
                end
        end
  end.

Definition extractKeys (elem : bytes) (tv : ToolView) : ToolView :=
  let i := skipSpace elem 0 in
  if is_char elem i "{" then extract_loop (fuel_for elem) elem (S i) tv else tv.

Definition view_of (raw : bytes) : ToolView :=
  if bytes_contains raw (bs "image") || bytes_contains raw backslashU then extractKeys raw (raw_view raw) else raw_view raw.

(** The views [scanTools] yields; its consumers take them all. *)
Fixpoint tools_loop (fuel : nat) (raw : bytes) (i : nat) : list ToolView :=
  match fuel with
  | O => []
  | S fuel =>
      let i := skipSpace raw i in
      match raw !! i with
      | None => []
      | Some c =>
          if Ascii.eqb c "]" then []
          else
            match skipElement raw i with
            | None => []
            | Some j =>
                view_of (trimWS (slice raw i j)) ::
                (if negb (j <? List.length raw) || is_char raw j "]" then [] else tools_loop fuel raw (S j))
            end
      end
  end.

Definition scanTools (raw : bytes) : list ToolView :=
  let i := skipSpace raw 0 in
  if is_char raw i "[" then tools_loop (fuel_for raw) raw (S i) else [].
