(* ===== verification/JsonText.v ===== *)
(** * What the scanner finds ([internal/proxy/strip_scan.go])

    Texts of JSON values and objects, with any white space, and the scanner's
    behaviour on them: a value is skipped exactly, the members of an object are
    visited in order, a key finds its first value.  On arbitrary bytes the
    single-pass [scanKeys] agrees with one [scanKeyValue] per key. *)

From Stdlib Require Import ZArith Lia List Bool String Ascii.
From stdpp Require Import base option list.
From S2P Require Import Prelude GoString JsonScan.
Import ListNotations.
Local Open Scope nat_scope.
Local Open Scope list_scope.

(** ** Texts *)

(** The inside of a string: no bare quote, a backslash takes its successor. *)
Inductive str_body : bytes -> Prop :=
| sb_nil : str_body []
| sb_char c l : c <> quote -> c <> backslash -> str_body l -> str_body (c :: l)
| sb_esc c l : str_body l -> str_body (backslash :: c :: l).

(** Balanced text: brackets match up in number, strings are closed. *)
Inductive balanced : bytes -> Prop :=
| bal_nil : balanced []
| bal_char c l : c <> quote -> opens c = false -> closes c = false -> balanced l -> balanced (c :: l)
| bal_str s l : str_body s -> balanced l -> balanced (quote :: s ++ quote :: l)
| bal_nest o c l1 l2 : opens o = true -> closes c = true -> balanced l1 -> balanced l2 -> balanced (o :: l1 ++ c :: l2).

Definition num_char (c : ascii) : bool := is_digit c || existsb (Ascii.eqb c) (bs "+-.eE").

(** The text of a value; every JSON value has such a text. *)
Inductive value : bytes -> Prop :=
| v_lit l : l ∈ [bs "true"; bs "false"; bs "null"] -> value l
| v_num l : l <> [] -> Forall (fun c => num_char c = true) l -> value l
| v_str s : str_body s -> value (quote :: s ++ [quote])
| v_nest o c l : opens o = true -> closes c = true -> balanced l -> value (o :: l ++ [c]).

Definition ws (l : bytes) : Prop := Forall (fun c => isWS c = true) l.

(** A member of an object, with the white space around its parts. *)
Record Member := mkMember { m_w0 : bytes; m_key : bytes; m_w1 : bytes; m_w2 : bytes; m_val : bytes; m_w3 : bytes }.

Definition member_wf (m : Member) : Prop :=
  ws (m_w0 m) /\ str_body (m_key m) /\ ws (m_w1 m) /\ ws (m_w2 m) /\ value (m_val m) /\ ws (m_w3 m).

Definition key_text (m : Member) : bytes := quote :: m_key m ++ quote :: m_w1 m ++ ":"%char :: m_w2 m.
Definition m_text (m : Member) : bytes := m_w0 m ++ key_text m ++ m_val m ++ m_w3 m.

(** Members separated by commas. *)
Fixpoint members_text (ms : list Member) : bytes :=
  match ms with
  | [] => []
  | [m] => m_text m
  | m :: ms => m_text m ++ ","%char :: members_text ms
  end.

(** An object between [pre] and [post]; without members only space is inside. *)
Definition object_text (w : bytes) (ms : list Member) (inner post : bytes) : bytes :=
  w ++ "{"%char :: (match ms with [] => inner | _ => members_text ms end) ++ "}"%char :: post.

(** ** Positions *)

Lemma at_app (pre : bytes) (c : ascii) (post : bytes) : (pre ++ c :: post) !! List.length pre = Some c.
Proof. apply list_lookup_middle. reflexivity. Qed.

Lemma is_char_at (pre : bytes) (x c : ascii) (post : bytes) : is_char (pre ++ x :: post) (List.length pre) c = Ascii.eqb x c.
Proof. unfold is_char. rewrite at_app. reflexivity. Qed.

Lemma slice_app (pre v post : bytes) : slice (pre ++ v ++ post) (List.length pre) (List.length pre + List.length v) = v.
Proof.
  unfold slice. rewrite drop_app_length. replace (_ + _ - _) with (List.length v) by lia. apply take_app_length.
Qed.

Definition not_ws_head (l : bytes) : Prop := match l with c :: _ => isWS c = false | [] => True end.

Lemma count_ws_app (w post : bytes) : ws w -> not_ws_head post -> count_ws (w ++ post) = List.length w.
Proof.
  intros Hw Hp. induction Hw as [|c w Hc Hw IH]; cbn; [|rewrite Hc, IH; reflexivity].
  destruct post as [|c post]; [reflexivity|]. cbn in Hp |- *. rewrite Hp. reflexivity.
Qed.

Lemma skipSpace_app (pre w post : bytes) : ws w -> not_ws_head post ->
  skipSpace (pre ++ w ++ post) (List.length pre) = List.length pre + List.length w.
Proof. intros Hw Hp. unfold skipSpace. rewrite drop_app_length, count_ws_app by assumption. reflexivity. Qed.

Lemma skipSpace_here (pre post : bytes) : not_ws_head post -> skipSpace (pre ++ post) (List.length pre) = List.length pre.
Proof. intros Hp. pose proof (skipSpace_app pre [] post ltac:(constructor) Hp) as H. cbn in H. rewrite H. lia. Qed.

Lemma skipSpace_start (w post : bytes) : ws w -> not_ws_head post -> skipSpace (w ++ post) 0 = List.length w.
Proof. intros Hw Hp. exact (skipSpace_app [] w post Hw Hp). Qed.

(** ** Strings *)

Lemma skip_string_app (s : bytes) : str_body s -> forall i post, skip_string (s ++ quote :: post) i = Some (i + List.length s + 1).
Proof.
  induction 1 as [|c l Hq Hb _ IH|c l _ IH]; intros i post; cbn [app skip_string List.length].
  - cbn. f_equal. lia.
  - apply Ascii.eqb_neq in Hq, Hb. rewrite Hq, Hb, IH. f_equal. lia.
  - rewrite Ascii.eqb_refl. rewrite IH. f_equal. lia.
Qed.

Lemma skipJSONString_app (pre s post : bytes) : str_body s ->
  skipJSONString (pre ++ quote :: s ++ quote :: post) (List.length pre) = Some (List.length pre + List.length s + 2).
Proof.
  intros Hs. unfold skipJSONString. replace (S (List.length pre)) with (List.length (pre ++ [quote])) by (rewrite length_app; cbn; lia).
  replace (pre ++ quote :: s ++ quote :: post) with ((pre ++ [quote]) ++ s ++ quote :: post) by (rewrite <- app_assoc; reflexivity).
  rewrite drop_app_length, skip_string_app by exact Hs. rewrite length_app. cbn. f_equal. lia.
Qed.

Lemma parseJSONString_app (pre s post : bytes) : str_body s ->
  parseJSONString (pre ++ quote :: s ++ quote :: post) (List.length pre) = Some (s, List.length pre + List.length s + 2).
Proof.
  intros Hs. unfold parseJSONString. rewrite skipJSONString_app by exact Hs. f_equal. f_equal.
  replace (pre ++ quote :: s ++ quote :: post) with ((pre ++ [quote]) ++ s ++ (quote :: post)) by (rewrite <- app_assoc; reflexivity).
  pose proof (slice_app (pre ++ [quote]) s (quote :: post)) as H. rewrite length_app in H. cbn [List.length] in H.
  etransitivity; [|exact H]. f_equal; lia.
Qed.

(** A string never ends before it starts. *)
Lemma skip_string_range (l : bytes) : forall i e, skip_string l i = Some e -> i < e <= i + List.length l.
Proof.
  induction l as [l IH] using (induction_ltof1 _ (@List.length ascii)). unfold ltof in IH. intros i e.
  destruct l as [|c l]; cbn [skip_string]; [discriminate|]. destruct (Ascii.eqb c backslash).
  - destruct l as [|c' l]; [discriminate|]. intros H. apply IH in H; cbn in *; lia.
  - destruct (Ascii.eqb c quote); [intros [= <-]; cbn; lia|]. intros H. apply IH in H; cbn in *; lia.
Qed.

Lemma skipJSONString_range (b : bytes) (i e : nat) : skipJSONString b i = Some e -> S i < e <= List.length b.
Proof.
  unfold skipJSONString. intros H. apply skip_string_range in H. rewrite length_drop in H. lia.
Qed.

(** ** Brackets *)

(** Enough fuel is enough. *)
Lemma skip_nested_fuel (b : bytes) (f : nat) : forall g i d, List.length b - i < f -> List.length b - i < g ->
  skip_nested f b i d = skip_nested g b i d.
Proof.
  induction f as [|f IH]; intros g i d Hf Hg; [lia|]. destruct g as [|g]; [lia|]. cbn [skip_nested].
  destruct (b !! i) as [c|] eqn:E; [|reflexivity]. apply lookup_lt_Some in E.
  destruct (Ascii.eqb c quote).
  - destruct (skipJSONString b i) as [e|] eqn:Ee; [|reflexivity]. apply skipJSONString_range in Ee. apply IH; lia.
  - destruct (opens c); [apply IH; lia|]. destruct (closes c); [destruct d as [|[|d]]; [reflexivity..|apply IH; lia]|apply IH; lia].
Qed.

Lemma skip_nested_S (f : nat) (b : bytes) (i d : nat) : skip_nested (S f) b i d =
  match b !! i with
  | None => None
  | Some c =>
      if Ascii.eqb c quote then match skipJSONString b i with Some e => skip_nested f b e d | None => None end
      else if opens c then skip_nested f b (S i) (S d)
      else if closes c then match d with O | 1 => Some (S i) | S d => skip_nested f b (S i) d end
      else skip_nested f b (S i) d
  end.
Proof. reflexivity. Qed.

Definition nested (b : bytes) (i d : nat) : option nat := skip_nested (fuel_for b) b i d.

Lemma nested_step (b : bytes) (i d : nat) : nested b i d =
  match b !! i with
  | None => None
  | Some c =>
      if Ascii.eqb c quote then match skipJSONString b i with Some e => nested b e d | None => None end
      else if opens c then nested b (S i) (S d)
      else if closes c then match d with O | 1 => Some (S i) | S d => nested b (S i) d end
      else nested b (S i) d
  end.
Proof.
  unfold nested, fuel_for. rewrite skip_nested_S at 1. destruct (b !! i) as [c|] eqn:E; [|reflexivity]. apply lookup_lt_Some in E.
  destruct (Ascii.eqb c quote).
  - destruct (skipJSONString b i) as [e|] eqn:Ee; [|reflexivity]. apply skipJSONString_range in Ee. apply skip_nested_fuel; lia.
  - destruct (opens c); [apply skip_nested_fuel; lia|].
    destruct (closes c); [destruct d as [|[|d]]; [reflexivity..|apply skip_nested_fuel; lia]|apply skip_nested_fuel; lia].
Qed.

Lemma opens_not_quote (c : ascii) : opens c = true -> Ascii.eqb c quote = false.
Proof. unfold opens. destruct (Ascii.eqb_spec c "{") as [->|_]; [reflexivity|]. destruct (Ascii.eqb_spec c "[") as [->|_]; [reflexivity|discriminate]. Qed.

Lemma closes_shape (c : ascii) : closes c = true -> Ascii.eqb c quote = false /\ opens c = false.
Proof. unfold closes. destruct (Ascii.eqb_spec c "}") as [->|_]; [auto|]. destruct (Ascii.eqb_spec c "]") as [->|_]; [auto|discriminate]. Qed.

(** Balanced text leaves the depth as it was. *)
Lemma nested_balanced (l : bytes) : balanced l -> forall pre post d,
  nested (pre ++ l ++ post) (List.length pre) (S d) = nested (pre ++ l ++ post) (List.length pre + List.length l) (S d).
Proof.
  assert (forall (pre : bytes) c post, pre ++ c :: post = (pre ++ [c]) ++ post) as Hsnoc by (intros; rewrite <- app_assoc; reflexivity).
  induction 1 as [|c l Hq Ho Hc _ IH|s l Hs _ IH|o c l1 l2 Ho Hc _ IH1 _ IH2]; intros pre post d.
  - rewrite Nat.add_0_r. reflexivity.
  - rewrite nested_step. cbn [app]. rewrite at_app. apply Ascii.eqb_neq in Hq. rewrite Hq, Ho, Hc, Hsnoc.
    specialize (IH (pre ++ [c]) post d). rewrite length_app in IH. cbn [List.length] in IH |- *.
    replace (S (List.length pre)) with (List.length pre + 1) by lia. rewrite IH. f_equal. lia.
  - rewrite nested_step. cbn [app]. rewrite at_app, Ascii.eqb_refl. rewrite <- app_assoc. cbn [app].
    rewrite skipJSONString_app by exact Hs.
    replace (pre ++ quote :: s ++ quote :: l ++ post) with ((pre ++ quote :: s ++ [quote]) ++ l ++ post)
      by (rewrite <- !app_assoc; cbn; rewrite <- app_assoc; reflexivity).
    specialize (IH (pre ++ quote :: s ++ [quote]) post d).
    assert (List.length (pre ++ quote :: s ++ [quote]) = List.length pre + List.length s + 2) as E
      by (rewrite length_app; cbn; rewrite length_app; cbn; lia).
    rewrite E in IH. rewrite IH. f_equal. cbn. rewrite length_app. cbn. lia.
  - rewrite nested_step. cbn [app]. rewrite at_app, (opens_not_quote o Ho), Ho. rewrite <- app_assoc. cbn [app].
    rewrite Hsnoc. specialize (IH1 (pre ++ [o]) (c :: l2 ++ post) (S d)). rewrite length_app in IH1. cbn [List.length] in IH1.
    replace (S (List.length pre)) with (List.length pre + 1) by lia. rewrite IH1, nested_step.
    replace ((pre ++ [o]) ++ l1 ++ c :: l2 ++ post) with ((pre ++ o :: l1) ++ c :: l2 ++ post)
      by (rewrite <- !app_assoc; reflexivity).
    replace (List.length pre + 1 + List.length l1) with (List.length (pre ++ o :: l1)) by (rewrite length_app; cbn; lia).
    rewrite at_app. destruct (closes_shape c Hc) as [-> ->]. rewrite Hc, Hsnoc.
    specialize (IH2 ((pre ++ o :: l1) ++ [c]) post d). rewrite length_app in IH2. cbn [List.length] in IH2.
    replace (S (List.length (pre ++ o :: l1))) with (List.length (pre ++ o :: l1) + 1) by lia. rewrite IH2. f_equal.
    cbn. rewrite !length_app. cbn. lia.
Qed.

(** ** Values *)

Definition ends_value (l : bytes) : Prop := match l with c :: _ => ends_number c = true | [] => True end.

Lemma num_char_plain (c : ascii) : num_char c = true ->
  ends_number c = false /\ Ascii.eqb c quote = false /\ opens c = false /\ Ascii.eqb c "t" = false /\ Ascii.eqb c "f" = false /\
  Ascii.eqb c "n" = false.
Proof. destruct c as [[] [] [] [] [] [] [] []]; vm_compute; intros H; try discriminate H; auto 10. Qed.

Lemma count_number_app (l post : bytes) : Forall (fun c => num_char c = true) l -> ends_value post ->
  count_number (l ++ post) = List.length l.
Proof.
  intros Hl Hp. induction Hl as [|c l Hc _ IH]; cbn.
  - destruct post as [|c post]; [reflexivity|]. cbn in Hp |- *. rewrite Hp. reflexivity.
  - destruct (num_char_plain c Hc) as [-> _]. rewrite IH. reflexivity.
Qed.

Lemma literal_app (pre lit post : bytes) : literal (pre ++ lit ++ post) (List.length pre) lit = Some (List.length pre + List.length lit).
Proof.
  unfold literal. rewrite slice_app. unfold beq. rewrite bool_decide_eq_true_2 by reflexivity.
  rewrite (proj2 (Nat.leb_le _ _)) by (rewrite !length_app; lia). reflexivity.
Qed.

(** A value is skipped exactly. *)
Lemma skipValue_app (pre v post : bytes) : value v -> ends_value post ->
  skipValue (pre ++ v ++ post) (List.length pre) = Some (List.length pre + List.length v).
Proof.
  intros Hv Hp. unfold skipValue. destruct Hv as [l Hl|l Hne Hl|s Hs|o c l Ho Hc Hl].
  - rewrite !elem_of_cons in Hl.
    destruct Hl as [->|[->|[->|Hl]]]; [..|apply not_elem_of_nil in Hl; contradiction]; cbn [bs list_ascii_of_string app]; rewrite at_app; cbn [Ascii.eqb];
      exact (literal_app pre _ post).
  - destruct l as [|c l]; [contradiction|]. cbn [app]. rewrite at_app. apply Forall_cons in Hl as Hl'. destruct Hl' as [Hc _].
    destruct (num_char_plain c Hc) as (_ & -> & -> & -> & -> & ->). rewrite drop_app_length.
    change (c :: l ++ post) with ((c :: l) ++ post). rewrite count_number_app by assumption. reflexivity.
  - cbn [app]. rewrite at_app, Ascii.eqb_refl, <- app_assoc. cbn [app]. rewrite skipJSONString_app by exact Hs. f_equal.
    cbn. rewrite length_app. cbn. lia.
  - cbn [app]. rewrite at_app, (opens_not_quote o Ho), Ho, <- app_assoc. cbn [app].
    change (skip_nested (fuel_for ?b) ?b ?i ?d) with (nested b i d).
    replace (pre ++ o :: l ++ c :: post) with ((pre ++ [o]) ++ l ++ c :: post) by (rewrite <- app_assoc; reflexivity).
    replace (S (List.length pre)) with (List.length (pre ++ [o])) by (rewrite length_app; cbn; lia).
    rewrite nested_balanced by exact Hl. rewrite nested_step.
    replace ((pre ++ [o]) ++ l ++ c :: post) with ((pre ++ o :: l) ++ c :: post) by (rewrite <- !app_assoc; reflexivity).
    replace (List.length (pre ++ [o]) + List.length l) with (List.length (pre ++ o :: l)) by (rewrite !length_app; cbn; lia).
    rewrite at_app. destruct (closes_shape c Hc) as [-> ->]. rewrite Hc. f_equal. rewrite length_app. cbn. rewrite length_app. cbn. lia.
Qed.

(** ** The members a scan visits *)

(** A member as the scan sees it: where its key and value are, the comma in
    front. *)
Record Visit := mkVisit { vi_start : nat; vi_key : bytes; vi_vs : nat; vi_ve : nat; vi_comma : option nat }.

(** The walk all scans share, and whether it reached the closing brace. *)
Fixpoint walk (fuel : nat) (b : bytes) (i : nat) (comma : option nat) : list Visit * bool :=
  match fuel with
  | O => ([], false)
  | S fuel =>
      let i := skipSpace b i in
      match b !! i with
      | None => ([], false)
      | Some c =>
          if Ascii.eqb c "}" then ([], true)
          else if Ascii.eqb c "," then walk fuel b (S i) (Some i)
          else if Ascii.eqb c quote then
            match read_member b i with
            | None => ([], false)
            | Some (key, vs, ve) => let '(rest, ok) := walk fuel b ve None in (mkVisit i key vs ve comma :: rest, ok)
            end
          else ([], false)
      end
  end.

Definition visits (b : bytes) : list Visit :=
  let i := skipSpace b 0 in if is_char b i "{" then (walk (fuel_for b) b (S i) None).1 else [].

Fixpoint first_visit (vs : list Visit) (key : bytes) : option Visit :=
  match vs with [] => None | v :: vs => if beq (vi_key v) key then Some v else first_visit vs key end.

Lemma find_key_walk (key : bytes) (fuel : nat) : forall b i comma,
  find_key fuel b i key = (fun v => (vi_vs v, vi_ve v)) <$> first_visit (walk fuel b i comma).1 key.
Proof.
  induction fuel as [|fuel IH]; intros b i comma; cbn [find_key walk]; [reflexivity|]. cbv zeta.
  destruct (b !! skipSpace b i) as [c|]; [|reflexivity]. destruct (Ascii.eqb c "}"); [reflexivity|].
  destruct (Ascii.eqb c ","); [apply IH|]. destruct (Ascii.eqb c quote); [|reflexivity].
  destruct (read_member b _) as [[[k vs] ve]|]; [|reflexivity]. pose proof (IH b ve None) as H. destruct (walk fuel b ve None) as [rest ok].
  cbn in H |- *. destruct (beq k key); [reflexivity|exact H].
Qed.

(** The first value of a key. *)
Lemma scanKeyValue_visits (b key : bytes) : scanKeyValue b key = (fun v => (vi_vs v, vi_ve v)) <$> first_visit (visits b) key.
Proof. unfold scanKeyValue, visits. destruct (is_char _ _ _); [apply find_key_walk|reflexivity]. Qed.

(** ** One pass over many keys *)

Definition missing_in (out : list (option bytes)) : nat := List.length (List.filter (fun o => negb (isSome o)) out).

Definition or_else (o o' : option bytes) : option bytes := match o with Some v => Some v | None => o' end.

Lemma or_else_complete (out : list (option bytes)) (f : bytes -> option bytes) (keys : list bytes) : List.length keys = List.length out ->
  missing_in out = 0 -> zip_with (fun key o => or_else o (f key)) keys out = out.
Proof.
  revert keys. induction out as [|[v|] out IH]; intros [|key keys] Hl Hm; cbn in *; try discriminate; [reflexivity|].
  f_equal. apply IH; [congruence|exact Hm].
Qed.

Lemma fill_spec (k v : bytes) (keys : list bytes) : forall out missing before, List.length keys = List.length out ->
  missing = before + missing_in out ->
  let '(out', m, done_) := fill keys out missing k v in
  out' = zip_with (fun key o => or_else o (if beq k key then Some v else None)) keys out /\
  m = before + missing_in out' /\ (done_ = true -> m = 0).
Proof.
  induction keys as [|key keys IH]; intros [|o out] missing before Hl Hm; try discriminate;
    [split_and!; [reflexivity|exact Hm|discriminate]|].
  apply Nat.succ_inj in Hl. cbn [fill zip_with]. destruct o as [x|].
  - cbn [or_else]. specialize (IH out missing before Hl Hm). destruct (fill keys out missing k v) as [[rest m] done_].
    destruct IH as (-> & -> & Hd). auto.
  - cbn [missing_in List.filter negb isSome List.length] in Hm. fold (missing_in out) in Hm. cbn [or_else]. destruct (beq k key).
    + destruct (Nat.eqb_spec (missing - 1) 0) as [E|E].
      * assert (missing_in out = 0) as H0 by lia. rewrite or_else_complete by assumption. split; [reflexivity|].
        change (missing_in (Some v :: out)) with (missing_in out). lia.
      * specialize (IH out (missing - 1) before Hl ltac:(lia)). destruct (fill keys out (missing - 1) k v) as [[rest m] done_].
        destruct IH as (-> & -> & Hd). auto.
    + specialize (IH out missing (S before) Hl ltac:(lia)). destruct (fill keys out missing k v) as [[rest m] done_].
      destruct IH as (-> & -> & Hd). split; [reflexivity|]. split; [cbn; fold (missing_in (zip_with (fun key o => or_else o (if beq k key then Some v else None)) keys out)); lia|exact Hd].
Qed.

Definition value_of (b : bytes) (vs : list Visit) (key : bytes) : option bytes :=
  (fun v => slice b (vi_vs v) (vi_ve v)) <$> first_visit vs key.

Lemma collect_spec (keys : list bytes) (fuel : nat) : forall b i comma out, List.length keys = List.length out ->
  (collect fuel b i keys out (missing_in out)).1 =
  zip_with (fun key o => or_else o (value_of b (walk fuel b i comma).1 key)) keys out.
Proof.
  assert (forall out : list (option bytes), List.length keys = List.length out -> out = zip_with (fun key o => or_else o (None : option bytes)) keys out) as Hid.
  { clear. induction keys as [|key keys IH]; intros [|o out] Hl; try discriminate; [reflexivity|]. cbn. f_equal; [destruct o; reflexivity|].
    apply IH, Nat.succ_inj, Hl. }
  induction fuel as [|fuel IH]; intros b i comma out Hl; cbn [collect walk]; [apply Hid, Hl|]. cbv zeta.
  destruct (b !! skipSpace b i) as [c|]; [|apply Hid, Hl]. destruct (Ascii.eqb c "}"); [apply Hid, Hl|].
  destruct (Ascii.eqb c ","); [apply IH, Hl|]. destruct (Ascii.eqb c quote); [|apply Hid, Hl].
  destruct (read_member b _) as [[[k vs] ve]|]; [|apply Hid, Hl].
  pose proof (fill_spec k (slice b vs ve) keys out (missing_in out) 0 Hl eq_refl) as Hf.
  destruct (fill keys out (missing_in out) k (slice b vs ve)) as [[out' m] done_]. destruct Hf as (Eout & Em & Hd). cbn [Nat.add] in Em.
  assert (List.length keys = List.length out') as Hl' by (rewrite Eout, length_zip_with; lia).
  assert (forall rest, zip_with (fun key o => or_else o (value_of b (mkVisit (skipSpace b i) k vs ve comma :: rest) key)) keys out =
    zip_with (fun key o => or_else o (value_of b rest key)) keys out') as Hstep.
  { intros rest. rewrite Eout. clear. revert out. induction keys as [|key keys IH]; intros [|o out]; try reflexivity. cbn [zip_with]. f_equal; [|apply IH].
    unfold value_of. cbn [first_visit vi_key]. destruct o as [x|]; [reflexivity|]. cbn. destruct (beq k key); reflexivity. }
  pose proof (IH b ve None out' Hl') as Hrec. destruct (walk fuel b ve None) as [rest ok]. cbn [fst] in Hrec |- *. rewrite Hstep.
  destruct done_; [|rewrite Em; exact Hrec]. cbn. symmetry. apply or_else_complete; [exact Hl'|]. rewrite <- Em. auto.
Qed.

(** One pass is one scan per key. *)
Lemma scanKeys_map (b : bytes) (keys : list bytes) :
  (scanKeys b keys).1 = map (fun key => (fun '(s, e) => slice b s e) <$> scanKeyValue b key) keys.
Proof.
  assert (forall key, (fun '(s, e) => slice b s e) <$> scanKeyValue b key = value_of b (visits b) key) as E.
  { intros key. rewrite scanKeyValue_visits. unfold value_of. destruct (first_visit _ _); reflexivity. }
  rewrite (map_ext _ _ E). unfold scanKeys, visits. destruct (is_char b _ "{").
  - replace (List.length keys) with (missing_in (map (fun _ : bytes => (None : option bytes)) keys))
      by (unfold missing_in; clear; induction keys; cbn; congruence).
    rewrite (collect_spec keys _ _ _ None) by (rewrite length_map; reflexivity).
    generalize (value_of b (walk (fuel_for b) b (S (skipSpace b 0)) None).1). intros f. clear.
    induction keys as [|key keys IH]; [reflexivity|]. cbn. rewrite IH. reflexivity.
  - cbn. apply map_ext. reflexivity.
Qed.

(** The single pass of [scanKeys] finds for every key what a scan for that
    key alone finds, on any bytes, whatever the number and order of the keys: the
    early exit and the shared walk do not show. *)
Theorem scanKeys_each (b : bytes) (keys : list bytes) :
  (scanKeys b keys).1 = map (fun key => (fun '(s, e) => slice b s e) <$> scanKeyValue b key) keys.
Proof. exact (scanKeys_map b keys). Qed.

(** ** Objects *)

Lemma skip_nested_range (b : bytes) (f : nat) : forall i d e, skip_nested f b i d = Some e -> i < e.
Proof.
  induction f as [|f IH]; intros i d e; [discriminate|]. rewrite skip_nested_S. destruct (b !! i) as [c|]; [|discriminate].
  destruct (Ascii.eqb c quote).
  - destruct (skipJSONString b i) as [x|] eqn:E; [|discriminate]. apply skipJSONString_range in E. intros H. apply IH in H. lia.
  - destruct (opens c); [intros H; apply IH in H; lia|]. destruct (closes c); [|intros H; apply IH in H; lia].
    destruct d as [|[|d]]; [intros [= <-]; lia..|intros H; apply IH in H; lia].
Qed.

Lemma skipValue_range (b : bytes) (i e : nat) : skipValue b i = Some e -> i <= e.
Proof.
  unfold skipValue. destruct (b !! i) as [c|]; [|discriminate].
  destruct (Ascii.eqb c quote); [intros H; apply skipJSONString_range in H; lia|].
  destruct (opens c); [intros H; apply skip_nested_range in H; lia|]. unfold literal.
  destruct (Ascii.eqb c "t"); [destruct (_ && _); [intros [= <-]; lia|discriminate]|].
  destruct (Ascii.eqb c "f"); [destruct (_ && _); [intros [= <-]; lia|discriminate]|].
  destruct (Ascii.eqb c "n"); [destruct (_ && _); [intros [= <-]; lia|discriminate]|]. intros [= <-]. lia.
Qed.

Lemma skipSpace_le (b : bytes) (i : nat) : i <= skipSpace b i.
Proof. unfold skipSpace. lia. Qed.

Lemma read_member_range (b key : bytes) (i vs ve : nat) : read_member b i = Some (key, vs, ve) -> i < vs <= ve.
Proof.
  unfold read_member, parseJSONString. destruct (skipJSONString b i) as [e|] eqn:E; [|discriminate]. apply skipJSONString_range in E. cbv zeta.
  destruct (negb _); [discriminate|]. destruct (_ <=? _); [discriminate|]. destruct (skipValue _ _) as [x|] eqn:Ev; [|discriminate].
  intros [= _ <- <-]. apply skipValue_range in Ev. pose proof (skipSpace_le b e). pose proof (skipSpace_le b (S (skipSpace b e))). lia.
Qed.

Lemma walk_fuel (b : bytes) (f : nat) : forall g i comma, List.length b - i < f -> List.length b - i < g -> walk f b i comma = walk g b i comma.
Proof.
  induction f as [|f IH]; intros g i comma Hf Hg; [lia|]. destruct g as [|g]; [lia|]. cbn [walk]. cbv zeta.
  pose proof (skipSpace_le b i) as Hi. destruct (b !! skipSpace b i) as [c|] eqn:E; [|reflexivity]. apply lookup_lt_Some in E.
  destruct (Ascii.eqb c "}"); [reflexivity|]. destruct (Ascii.eqb c ","); [apply IH; lia|]. destruct (Ascii.eqb c quote); [|reflexivity].
  destruct (read_member b _) as [[[k vs] ve]|] eqn:Er; [|reflexivity]. apply read_member_range in Er. rewrite (IH g ve None) by lia. reflexivity.
Qed.

Definition walk_at (b : bytes) (i : nat) (comma : option nat) : list Visit * bool := walk (fuel_for b) b i comma.

Lemma walk_S (f : nat) (b : bytes) (i : nat) (comma : option nat) : walk (S f) b i comma =
  match b !! skipSpace b i with
  | None => ([], false)
  | Some c =>
      if Ascii.eqb c "}" then ([], true)
      else if Ascii.eqb c "," then walk f b (S (skipSpace b i)) (Some (skipSpace b i))
      else if Ascii.eqb c quote then
        match read_member b (skipSpace b i) with
        | None => ([], false)
        | Some (key, vs, ve) => let '(rest, ok) := walk f b ve None in (mkVisit (skipSpace b i) key vs ve comma :: rest, ok)
        end
      else ([], false)
  end.
Proof. reflexivity. Qed.

Lemma walk_step (b : bytes) (i : nat) (comma : option nat) : walk_at b i comma =
  match b !! skipSpace b i with
  | None => ([], false)
  | Some c =>
      if Ascii.eqb c "}" then ([], true)
      else if Ascii.eqb c "," then walk_at b (S (skipSpace b i)) (Some (skipSpace b i))
      else if Ascii.eqb c quote then
        match read_member b (skipSpace b i) with
        | None => ([], false)
        | Some (key, vs, ve) => let '(rest, ok) := walk_at b ve None in (mkVisit (skipSpace b i) key vs ve comma :: rest, ok)
        end
      else ([], false)
  end.
Proof.
  unfold walk_at, fuel_for. rewrite walk_S at 1. pose proof (skipSpace_le b i) as Hi.
  destruct (b !! skipSpace b i) as [c|] eqn:E; [|reflexivity]. apply lookup_lt_Some in E.
  destruct (Ascii.eqb c "}"); [reflexivity|]. destruct (Ascii.eqb c ","); [apply walk_fuel; lia|]. destruct (Ascii.eqb c quote); [|reflexivity].
  destruct (read_member b _) as [[[k vs] ve]|] eqn:Er; [|reflexivity]. apply read_member_range in Er.
  rewrite (walk_fuel b (List.length b) (S (List.length b)) ve None) by lia. reflexivity.
Qed.

Lemma value_nonempty (v : bytes) : value v -> exists c l, v = c :: l /\ isWS c = false.
Proof.
  destruct 1 as [l Hl|l Hne Hl|s Hs|o c l Ho Hc Hl].
  - rewrite !elem_of_cons in Hl. destruct Hl as [->|[->|[->|Hl]]]; [eexists _, _; split; reflexivity..|apply not_elem_of_nil in Hl; contradiction].
  - destruct l as [|c l]; [contradiction|]. apply Forall_cons in Hl as [Hc _]. exists c, l. split; [reflexivity|].
    destruct (num_char_plain c Hc) as [He _]. unfold ends_number in He. destruct (isWS c); [discriminate|reflexivity].
  - eexists _, _. split; reflexivity.
  - eexists _, _. split; [reflexivity|]. revert Ho. destruct o as [[] [] [] [] [] [] [] []]; vm_compute; congruence.
Qed.

Lemma not_ws_value (v post : bytes) : value v -> not_ws_head (v ++ post).
Proof. intros Hv. destruct (value_nonempty v Hv) as (c & l & -> & Hc). exact Hc. Qed.

Lemma ws_ends (w post : bytes) : ws w -> ends_value post -> ends_value (w ++ post).
Proof. destruct 1 as [|c w Hc _]; [auto|]. intros _. cbn. unfold ends_number. rewrite Hc. reflexivity. Qed.

(** A member is read exactly. *)
Lemma read_member_app (pre rest : bytes) (m : Member) : member_wf m -> ends_value rest ->
  let vs := List.length pre + List.length (key_text m) in
  read_member (pre ++ key_text m ++ m_val m ++ rest) (List.length pre) = Some (m_key m, vs, vs + List.length (m_val m)).
Proof.
  intros (_ & Hk & Hw1 & Hw2 & Hv & _) Hr. cbv zeta. unfold read_member. destruct (value_nonempty _ Hv) as (c & l & Ev & Hc).
  set (tail := m_val m ++ rest). assert (not_ws_head tail) as Ht by (apply not_ws_value, Hv).
  replace (pre ++ key_text m ++ tail) with (pre ++ quote :: m_key m ++ quote :: m_w1 m ++ ":"%char :: m_w2 m ++ tail)
    by (unfold key_text; cbn [app]; rewrite <- !app_assoc; cbn [app]; rewrite <- app_assoc; reflexivity).
  rewrite parseJSONString_app by exact Hk.
  set (p1 := pre ++ quote :: m_key m ++ [quote]).
  replace (pre ++ quote :: m_key m ++ quote :: m_w1 m ++ ":"%char :: m_w2 m ++ tail) with (p1 ++ m_w1 m ++ ":"%char :: m_w2 m ++ tail)
    by (unfold p1; rewrite <- !app_assoc; cbn; rewrite <- app_assoc; reflexivity).
  replace (List.length pre + List.length (m_key m) + 2) with (List.length p1) by (unfold p1; rewrite length_app; cbn; rewrite length_app; cbn; lia).
  rewrite skipSpace_app by (exact Hw1 || reflexivity). cbv zeta.
  set (p2 := p1 ++ m_w1 m).
  replace (p1 ++ m_w1 m ++ ":"%char :: m_w2 m ++ tail) with (p2 ++ ":"%char :: m_w2 m ++ tail) by (unfold p2; rewrite <- app_assoc; reflexivity).
  replace (List.length p1 + List.length (m_w1 m)) with (List.length p2) by (unfold p2; rewrite length_app; lia).
  rewrite is_char_at, Ascii.eqb_refl. cbn [negb].
  set (p3 := p2 ++ [":"%char]).
  replace (p2 ++ ":"%char :: m_w2 m ++ tail) with (p3 ++ m_w2 m ++ tail) by (unfold p3; rewrite <- app_assoc; reflexivity).
  replace (S (List.length p2)) with (List.length p3) by (unfold p3; rewrite length_app; cbn; lia).
  rewrite skipSpace_app by assumption. set (p4 := p3 ++ m_w2 m).
  replace (p3 ++ m_w2 m ++ tail) with (p4 ++ m_val m ++ rest) by (unfold p4, tail; rewrite <- app_assoc; reflexivity).
  replace (List.length p3 + List.length (m_w2 m)) with (List.length p4) by (unfold p4; rewrite length_app; lia).
  rewrite (proj2 (Nat.leb_gt _ _)) by (rewrite length_app, Ev; cbn; lia).
  rewrite skipValue_app by assumption. repeat f_equal.
  all: unfold p4, p3, p2, p1, key_text; rewrite ?length_app; cbn; rewrite ?length_app; cbn; rewrite ?length_app; cbn; lia.
Qed.

(** Where the members of an object are. *)
Definition visit_of (off : nat) (comma : option nat) (m : Member) : Visit :=
  let s := off + List.length (m_w0 m) in
  let vs := s + List.length (key_text m) in
  mkVisit s (m_key m) vs (vs + List.length (m_val m)) comma.

Fixpoint layout (off : nat) (comma : option nat) (ms : list Member) : list Visit :=
  match ms with
  | [] => []
  | m :: ms => let e := off + List.length (m_text m) in visit_of off comma m :: layout (S e) (Some e) ms
  end.

(** One member in front of a comma or the closing brace. *)
Lemma walk_member (pre post : bytes) (m : Member) (c : ascii) (comma : option nat) : member_wf m -> ends_number c = true -> isWS c = false ->
  walk_at (pre ++ m_text m ++ c :: post) (List.length pre) comma =
  (let '(rest, ok) := walk_at (pre ++ m_text m ++ c :: post) (vi_ve (visit_of (List.length pre) comma m)) None in
   (visit_of (List.length pre) comma m :: rest, ok)) /\
  skipSpace (pre ++ m_text m ++ c :: post) (vi_ve (visit_of (List.length pre) comma m)) = List.length pre + List.length (m_text m).
Proof.
  intros Hm Hc Hcw. pose proof Hm as (Hw0 & _ & _ & _ & Hv & Hw3).
  set (p := pre ++ m_w0 m). set (rest := m_w3 m ++ c :: post).
  assert (ends_value rest) as He by (apply ws_ends; [exact Hw3|exact Hc]).
  assert (pre ++ m_text m ++ c :: post = p ++ key_text m ++ m_val m ++ rest) as E
    by (unfold p, m_text, rest; rewrite <- !app_assoc; reflexivity).
  assert (List.length p = List.length pre + List.length (m_w0 m)) as Lp by (unfold p; apply length_app).
  assert (skipSpace (pre ++ m_text m ++ c :: post) (List.length pre) = List.length p) as Es.
  { rewrite E, Lp. unfold p. rewrite <- app_assoc. apply skipSpace_app; [exact Hw0|reflexivity]. }
  split.
  - rewrite walk_step, Es, E. change (key_text m ++ m_val m ++ rest) with (quote :: (m_key m ++ quote :: m_w1 m ++ ":"%char :: m_w2 m) ++ m_val m ++ rest).
    rewrite at_app. change (Ascii.eqb quote "}") with false. change (Ascii.eqb quote ",") with false. rewrite Ascii.eqb_refl. cbv iota.
    change (quote :: (m_key m ++ quote :: m_w1 m ++ ":"%char :: m_w2 m) ++ m_val m ++ rest) with (key_text m ++ m_val m ++ rest).
    rewrite read_member_app by assumption. unfold visit_of. cbv zeta. cbn [vi_ve]. rewrite Lp. reflexivity.
  - unfold visit_of. cbv zeta. cbn [vi_ve]. rewrite E. set (p2 := p ++ key_text m ++ m_val m).
    replace (p ++ key_text m ++ m_val m ++ rest) with (p2 ++ m_w3 m ++ c :: post) by (unfold p2, rest; rewrite <- !app_assoc; reflexivity).
    replace (List.length pre + List.length (m_w0 m) + List.length (key_text m) + List.length (m_val m)) with (List.length p2)
      by (unfold p2; rewrite !length_app, Lp; lia).
    rewrite skipSpace_app by (exact Hw3 || exact Hcw). unfold p2, m_text. rewrite !length_app, Lp. lia.
Qed.

Lemma walk_members (ms : list Member) : Forall member_wf ms -> ms <> [] -> forall pre post comma,
  walk_at (pre ++ members_text ms ++ "}"%char :: post) (List.length pre) comma = (layout (List.length pre) comma ms, true).
Proof.
  induction 1 as [|m ms Hm Hms IH]; intros Hne pre post comma; [contradiction|]. destruct ms as [|m2 ms].
  - cbn [members_text]. destruct (walk_member pre post m "}" comma Hm eq_refl eq_refl) as [-> Hs].
    rewrite walk_step, Hs. replace (List.length pre + List.length (m_text m)) with (List.length (pre ++ m_text m)) by apply length_app.
    rewrite app_assoc, at_app. reflexivity.
  - change (members_text (m :: m2 :: ms)) with (m_text m ++ ","%char :: members_text (m2 :: ms)).
    rewrite <- app_assoc. cbn [app].
    destruct (walk_member pre (members_text (m2 :: ms) ++ "}"%char :: post) m "," comma Hm eq_refl eq_refl) as [-> Hs].
    rewrite walk_step, Hs. assert (List.length pre + List.length (m_text m) = List.length (pre ++ m_text m)) as El by (symmetry; apply length_app).
    rewrite El, app_assoc, at_app. change (Ascii.eqb "," "}") with false. change (Ascii.eqb "," ",") with true. cbv iota.
    replace ((pre ++ m_text m) ++ ","%char :: members_text (m2 :: ms) ++ "}"%char :: post)
      with (((pre ++ m_text m) ++ [","%char]) ++ members_text (m2 :: ms) ++ "}"%char :: post) by (rewrite <- app_assoc; reflexivity).
    replace (S (List.length (pre ++ m_text m))) with (List.length ((pre ++ m_text m) ++ [","%char])) by (rewrite (length_app (pre ++ m_text m)); cbn; lia).
    rewrite IH by discriminate. cbn [layout]. rewrite (length_app (pre ++ m_text m)), <- El. cbn [List.length].
    replace (List.length pre + List.length (m_text m) + 1) with (S (List.length pre + List.length (m_text m))) by lia. reflexivity.
Qed.

(** A well-formed object is visited member by member. *)
Lemma visits_object (w inner post : bytes) (ms : list Member) : ws w -> Forall member_wf ms -> (ms = [] -> ws inner) ->
  visits (object_text w ms inner post) = layout (S (List.length w)) None ms.
Proof.
  intros Hw Hms Hin. unfold visits, object_text. rewrite skipSpace_start by (exact Hw || reflexivity).
  rewrite is_char_at. change (Ascii.eqb "{" "{") with true. cbv iota. fold (walk_at (w ++ "{"%char :: (match ms with [] => inner | _ => members_text ms end) ++ "}"%char :: post) (S (List.length w)) None).
  replace (w ++ "{"%char :: (match ms with [] => inner | _ => members_text ms end) ++ "}"%char :: post)
    with ((w ++ ["{"%char]) ++ (match ms with [] => inner | _ => members_text ms end) ++ "}"%char :: post) by (rewrite <- app_assoc; reflexivity).
  replace (S (List.length w)) with (List.length (w ++ ["{"%char])) by (rewrite length_app; cbn; lia).
  destruct ms as [|m ms]; [|rewrite walk_members by (assumption || discriminate); reflexivity].
  rewrite walk_step, skipSpace_app by (auto || reflexivity). rewrite app_assoc, <- length_app, at_app. reflexivity.
Qed.

Lemma visit_value (pre post : bytes) (m : Member) (comma : option nat) :
  let v := visit_of (List.length pre) comma m in slice (pre ++ m_text m ++ post) (vi_vs v) (vi_ve v) = m_val m.
Proof.
  unfold visit_of. cbv zeta. cbn [vi_vs vi_ve]. set (p := pre ++ m_w0 m ++ key_text m).
  replace (pre ++ m_text m ++ post) with (p ++ m_val m ++ m_w3 m ++ post) by (unfold p, m_text; rewrite <- !app_assoc; reflexivity).
  replace (List.length pre + List.length (m_w0 m) + List.length (key_text m)) with (List.length p) by (unfold p; rewrite !length_app; lia).
  apply slice_app.
Qed.

Lemma layout_values (ms : list Member) : forall pre post comma,
  map (fun v => (vi_key v, slice (pre ++ members_text ms ++ post) (vi_vs v) (vi_ve v))) (layout (List.length pre) comma ms) =
  map (fun m => (m_key m, m_val m)) ms.
Proof.
  induction ms as [|m ms IH]; intros pre post comma; [reflexivity|]. cbn [layout map]. destruct ms as [|m2 ms].
  - cbn [members_text]. rewrite visit_value. reflexivity.
  - change (members_text (m :: m2 :: ms)) with (m_text m ++ ","%char :: members_text (m2 :: ms)). rewrite <- app_assoc. rewrite visit_value. f_equal.
    replace (pre ++ m_text m ++ (","%char :: members_text (m2 :: ms)) ++ post)
      with ((pre ++ m_text m ++ [","%char]) ++ members_text (m2 :: ms) ++ post) by (rewrite <- !app_assoc; reflexivity).
    replace (S (List.length pre + List.length (m_text m))) with (List.length (pre ++ m_text m ++ [","%char])) by (rewrite !length_app; cbn; lia).
    apply IH.
Qed.

Fixpoint first_member (ms : list Member) (key : bytes) : option Member :=
  match ms with [] => None | m :: ms => if beq (m_key m) key then Some m else first_member ms key end.

(** A key finds the value of its first member. *)
Lemma first_member_found (w inner post key : bytes) (ms : list Member) :
  ws w -> Forall member_wf ms -> (ms = [] -> ws inner) ->
  let b := object_text w ms inner post in
  (fun '(s, e) => slice b s e) <$> scanKeyValue b key = m_val <$> first_member ms key.
Proof.
  intros Hw Hms Hin. cbv zeta. rewrite scanKeyValue_visits, visits_object by assumption.
  destruct ms as [|m0 ms0]; [reflexivity|]. set (ms := m0 :: ms0) in *. change (object_text w ms inner post) with (w ++ "{"%char :: members_text ms ++ "}"%char :: post).
  replace (w ++ "{"%char :: members_text ms ++ "}"%char :: post) with ((w ++ ["{"%char]) ++ members_text ms ++ "}"%char :: post)
    by (rewrite <- app_assoc; reflexivity).
  pose proof (layout_values ms (w ++ ["{"%char]) ("}"%char :: post) None) as H. rewrite length_app in H. cbn [List.length] in H.
  rewrite Nat.add_1_r in H. revert H. generalize (layout (S (List.length w)) None ms). generalize ((w ++ ["{"%char]) ++ members_text ms ++ "}"%char :: post).
  clear. intros b vs. revert vs. induction ms as [|m ms IH]; intros [|v vs] H; try discriminate; [reflexivity|]. cbn in H. injection H as Hk Hv H.
  cbn [first_visit first_member]. rewrite Hk. destruct (beq (m_key m) key); [cbn; congruence|]. apply IH, H.
Qed.

(** In a well-formed object, with any white space and whatever its values
    nest, a key finds exactly the bytes of the value of its first member, and
    nothing when there is no such member: names inside strings or inner objects
    are never taken for it. *)
Theorem scan_finds_first_member (w inner post key : bytes) (ms : list Member) :
  ws w -> Forall member_wf ms -> (ms = [] -> ws inner) ->
  let b := object_text w ms inner post in
  (fun '(s, e) => slice b s e) <$> scanKeyValue b key = m_val <$> first_member ms key.
Proof. exact (first_member_found w inner post key ms). Qed.

(** ** JSON documents *)

(** The syntax tree of a text: numbers are kept as text, strings and keys as what
    stands between their quotes, escapes included, and members in order, repeated
    keys included.  It is not what a decoding library hands to a program; that is
    [Decoded.decoded]. *)
Inductive json :=
| JNull | JTrue | JFalse
| JNum (text : bytes)
| JStr (body : bytes)
| JArr (items : list json)
| JObj (fields : list (bytes * json)).

Fixpoint json_ind' (P : json -> Prop) (Hn : P JNull) (Ht : P JTrue) (Hf : P JFalse) (Hnum : forall t, P (JNum t)) (Hs : forall s, P (JStr s))
    (Ha : forall l, Forall P l -> P (JArr l)) (Ho : forall l, Forall (fun kv => P kv.2) l -> P (JObj l)) (j : json) : P j :=
  match j with
  | JNull => Hn | JTrue => Ht | JFalse => Hf | JNum t => Hnum t | JStr s => Hs s
  | JArr l => Ha l ((fix go l := match l return Forall P l with
      | [] => List.Forall_nil _ | j :: l => List.Forall_cons _ _ _ (json_ind' P Hn Ht Hf Hnum Hs Ha Ho j) (go l) end) l)
  | JObj l => Ho l ((fix go l := match l return Forall (fun kv : bytes * json => P kv.2) l with
      | [] => List.Forall_nil _ | (k, j) :: l => List.Forall_cons _ (k, j) _ (json_ind' P Hn Ht Hf Hnum Hs Ha Ho j) (go l) end) l)
  end.

Fixpoint commas (l : list bytes) : bytes := match l with [] => [] | [x] => x | x :: l => x ++ ","%char :: commas l end.

(** The compact text of a document. *)
Fixpoint render (j : json) : bytes :=
  match j with
  | JNull => bs "null" | JTrue => bs "true" | JFalse => bs "false"
  | JNum t => t
  | JStr s => quote :: s ++ [quote]
  | JArr l => "["%char :: commas (map render l) ++ ["]"%char]
  | JObj l => "{"%char :: commas (map (fun '(k, j) => (quote :: k ++ quote :: ":"%char :: render j)) l) ++ ["}"%char]
  end.

Inductive json_ok : json -> Prop :=
| ok_null : json_ok JNull | ok_true : json_ok JTrue | ok_false : json_ok JFalse
| ok_num t : t <> [] -> Forall (fun c => num_char c = true) t -> json_ok (JNum t)
| ok_str s : str_body s -> json_ok (JStr s)
| ok_arr l : Forall json_ok l -> json_ok (JArr l)
| ok_obj l : Forall (fun kv => str_body kv.1 /\ json_ok kv.2) l -> json_ok (JObj l).

Lemma balanced_app (a b : bytes) : balanced a -> balanced b -> balanced (a ++ b).
Proof.
  induction 1 as [|c l Hq Ho Hc _ IH|s l Hs _ IH|o c l1 l2 Ho Hc H1 _ _ IH2]; intros Hb; cbn [app]; [exact Hb| | |].
  - apply bal_char; auto.
  - rewrite <- app_assoc. cbn [app]. apply bal_str; auto.
  - rewrite <- app_assoc. cbn [app]. apply bal_nest; auto.
Qed.

Lemma balanced_plain (l : bytes) : Forall (fun c => num_char c = true) l -> balanced l.
Proof.
  induction 1 as [|c l Hc _ IH]; [constructor|]. destruct (num_char_plain c Hc) as (He & Hq & Ho & _). constructor; [|exact Ho| |exact IH].
  - apply Ascii.eqb_neq, Hq.
  - unfold ends_number in He. unfold closes. destruct (Ascii.eqb c "}"), (Ascii.eqb c "]"); rewrite ?orb_true_r in He; (reflexivity || discriminate).
Qed.

Lemma value_balanced (v : bytes) : value v -> balanced v.
Proof.
  destruct 1 as [l Hl|l Hne Hl|s Hs|o c l Ho Hc Hl].
  - rewrite !elem_of_cons in Hl. destruct Hl as [->|[->|[->|Hl]]]; [..|apply not_elem_of_nil in Hl; contradiction];
      repeat (apply bal_char; [discriminate|reflexivity|reflexivity|]); constructor.
  - apply balanced_plain, Hl.
  - apply (bal_str s []); [exact Hs|constructor].
  - apply (bal_nest o c l []); [exact Ho|exact Hc|exact Hl|constructor].
Qed.

Lemma balanced_commas (l : list bytes) : Forall balanced l -> balanced (commas l).
Proof.
  induction 1 as [|x l Hx Hl IH]; [constructor|]. destruct l as [|y l]; [exact Hx|].
  change (commas (x :: y :: l)) with (x ++ ","%char :: commas (y :: l)). apply balanced_app; [exact Hx|].
  apply bal_char; [discriminate|reflexivity|reflexivity|exact IH].
Qed.

Fixpoint field (l : list (bytes * json)) (key : bytes) : option json :=
  match l with [] => None | (k, j) :: l => if beq k key then Some j else field l key end.

Definition member_of_field (kv : bytes * json) : Member := mkMember [] kv.1 [] [] (render kv.2) [].

Lemma render_object (l : list (bytes * json)) : render (JObj l) = object_text [] (map member_of_field l) [] [].
Proof.
  unfold object_text. cbn [render app]. f_equal.
  assert (commas (map (fun '(k, j) => quote :: k ++ quote :: ":"%char :: render j) l) = members_text (map member_of_field l)) as ->.
  { induction l as [|[k j] l IH]; [reflexivity|]. cbn [map].
    assert (m_text (member_of_field (k, j)) = quote :: k ++ quote :: ":"%char :: render j) as E.
    { unfold m_text, key_text, member_of_field. cbn. rewrite app_nil_r, <- app_assoc. reflexivity. }
    destruct l as [|[k2 j2] l]; [symmetry; exact E|].
    change (members_text (member_of_field (k, j) :: map member_of_field ((k2, j2) :: l)))
      with (m_text (member_of_field (k, j)) ++ ","%char :: members_text (map member_of_field ((k2, j2) :: l))).
    rewrite E, <- IH. reflexivity. }
  destruct l; reflexivity.
Qed.

(** ** Texts of a document *)

(** [raw] is a text of the document: white space anywhere between tokens. *)
Definition spaced (m : Member) : Prop := ws (m_w0 m) /\ str_body (m_key m) /\ ws (m_w1 m) /\ ws (m_w2 m) /\ ws (m_w3 m).

Fixpoint prints (j : json) (raw : bytes) : Prop :=
  match j with
  | JNull => raw = bs "null"
  | JTrue => raw = bs "true"
  | JFalse => raw = bs "false"
  | JNum t => raw = t /\ t <> [] /\ Forall (fun c => num_char c = true) t
  | JStr s => raw = (quote :: s ++ [quote]) /\ str_body s
  | JArr l => exists inner xs, raw = ("[" :: inner ++ commas xs ++ ["]"])%char /\ ws inner /\
      (fix items (l : list json) (xs : list bytes) : Prop :=
         match l, xs with
         | [], [] => True
         | j :: l, x :: xs => (exists w v w', x = (w ++ v ++ w') /\ ws w /\ ws w' /\ prints j v) /\ items l xs
         | _, _ => False
         end) l xs
  | JObj l => exists inner ms, raw = object_text [] ms inner [] /\ ws inner /\
      (fix members (l : list (bytes * json)) (ms : list Member) : Prop :=
         match l, ms with
         | [], [] => True
         | (k, j) :: l, m :: ms => m_key m = k /\ spaced m /\ prints j (m_val m) /\ members l ms
         | _, _ => False
         end) l ms
  end.

Lemma ws_balanced (w : bytes) : ws w -> balanced w.
Proof.
  induction 1 as [|c w Hc _ IH]; [constructor|]. constructor; [| | |exact IH]; revert Hc; clear;
    destruct c as [[] [] [] [] [] [] [] []]; intros H; (discriminate H || reflexivity || discriminate).
Qed.

Create HintDb text.
#[local] Hint Resolve ws_balanced balanced_app value_balanced : text.

Lemma m_text_balanced (m : Member) : spaced m -> value (m_val m) -> balanced (m_text m).
Proof.
  intros (H0 & Hk & H1 & H2 & H3) Hv. unfold m_text, key_text. apply balanced_app; [auto with text|]. cbn [app].
  rewrite <- app_assoc. cbn [app]. apply bal_str; [exact Hk|]. rewrite <- app_assoc. cbn [app]. apply balanced_app; [auto with text|].
  apply bal_char; [discriminate|reflexivity|reflexivity|]. auto with text.
Qed.

Lemma members_balanced (ms : list Member) : Forall (fun m => spaced m /\ value (m_val m)) ms -> balanced (members_text ms).
Proof.
  induction 1 as [|m ms [Hm Hv] Hms IH]; [constructor|]. pose proof (m_text_balanced m Hm Hv) as Hb. destruct ms as [|m2 ms]; [exact Hb|].
  change (members_text (m :: m2 :: ms)) with (m_text m ++ ","%char :: members_text (m2 :: ms)). apply balanced_app; [exact Hb|].
  apply bal_char; [discriminate|reflexivity|reflexivity|exact IH].
Qed.

(** A text of a document is the text of a value. *)
Lemma prints_value (j : json) : forall raw, prints j raw -> value raw.
Proof.
  induction j as [| | |t|s|l IH|l IH] using json_ind'; cbn [prints]; intros raw H.
  - subst. apply v_lit. right. right. left.
  - subst. apply v_lit. left.
  - subst. apply v_lit. right. left.
  - destruct H as (-> & Hne & Ht). apply v_num; assumption.
  - destruct H as [-> Hs]. apply v_str, Hs.
  - destruct H as (inner & xs & -> & Hin & H). rewrite app_assoc. apply v_nest; [reflexivity|reflexivity|]. apply balanced_app; [auto with text|].
    apply balanced_commas. clear Hin. revert xs H. induction IH as [|j l Hj _ IHl]; intros [|x xs] H; try contradiction; [constructor|].
    destruct H as [(w & v & w' & -> & Hw & Hw' & Hv) H]. constructor; [|exact (IHl xs H)]. auto 6 with text.
  - destruct H as (inner & ms & -> & Hin & H). apply v_nest; [reflexivity|reflexivity|].
    assert (balanced (members_text ms)) as Hb.
    { apply members_balanced. clear Hin. revert ms H. induction IH as [|[k j] l Hj _ IHl]; intros [|m ms] H; try contradiction; [constructor|].
      destruct H as (_ & Hs & Hv & H). constructor; [|exact (IHl ms H)]. auto. }
    destruct ms; [auto with text|exact Hb].
Qed.

(** A member's value is a text of the field's document. *)
Lemma prints_field (l : list (bytes * json)) (raw key : bytes) : prints (JObj l) raw ->
  option_Forall2 (fun v j => prints j v) ((fun '(s, e) => slice raw s e) <$> scanKeyValue raw key) (field l key).
Proof.
  cbn [prints]. intros (inner & ms & -> & Hin & H). assert (ws []) as Hw by constructor.
  rewrite first_member_found; [|exact Hw| |intros _; exact Hin].
  - clear Hin. revert ms H. induction l as [|[k j] l IH]; intros [|m ms] H; try contradiction; [constructor|].
    destruct H as (<- & _ & Hv & H). cbn [first_member field]. destruct (beq (m_key m) key); [constructor; exact Hv|exact (IH ms H)].
  - clear Hin. revert ms H. induction l as [|[k j] l IH]; intros [|m ms] H; try contradiction; [constructor|].
    destruct H as (_ & (H0 & Hk & H1 & H2 & H3) & Hv & H). constructor; [|exact (IH ms H)]. apply prints_value in Hv. unfold member_wf. auto 10.
Qed.

(** The compact text is one of them. *)
Lemma prints_render (j : json) : json_ok j -> prints j (render j).
Proof.
  assert (ws []) as Hw by constructor.
  induction j as [| | |t|s|l IH|l IH] using json_ind'; intros Hj; inversion Hj as [| | |t' Hne Ht|s' Hs|l' Hl|l' Hl]; subst; cbn [prints]; try reflexivity.
  - auto.
  - auto.
  - exists [], (map render l). split; [reflexivity|]. split; [exact Hw|]. clear Hj. induction IH as [|j l Hj _ IHl]; [exact I|].
    apply Forall_cons in Hl as [Hok Hl]. split; [|exact (IHl Hl)]. exists [], (render j), []. rewrite app_nil_r. auto.
  - exists [], (map member_of_field l). split; [apply render_object|]. split; [exact Hw|]. clear Hj. induction IH as [|[k j] l Hj _ IHl]; [exact I|].
    apply Forall_cons in Hl as [[Hk Hok] Hl]. split; [reflexivity|]. split; [|split; [exact (Hj Hok)|exact (IHl Hl)]]. unfold spaced. cbn. auto.
Qed.
