(* ===== verification/GoJson.v ===== *)
(** * [encoding/json] as the gateway uses it

    [json.Valid] decides whether a request body is JSON at all; [json.Unmarshal]
    into a structure with one string field is the slow path of the event names.
    The decoder here follows the grammar the package accepts (control characters,
    escapes, numbers, nesting depth) and returns the document of [JsonText]; a
    text it accepts is a text of that document, so what is proved of the byte
    scanner on texts holds for every body that passes the check. *)

From Stdlib Require Import ZArith Lia List Bool String Ascii.
From stdpp Require Import base option list.
From S2P Require Import Prelude GoString JsonScan JsonText.
Import ListNotations.
Local Open Scope nat_scope.
Local Open Scope list_scope.

(** ** Tokens *)

Fixpoint skip_ws (b : bytes) : bytes := match b with c :: l => if isWS c then skip_ws l else b | [] => [] end.

Definition simple_escape (c : ascii) : bool := existsb (Ascii.eqb c) (quote :: backslash :: bs "/bfnrt").

(** The inside of a string and what follows the closing quote. *)
Fixpoint string_token (b : bytes) : option (bytes * bytes) :=
  match b with
  | [] => None
  | c :: b =>
      if Ascii.eqb c quote then Some ([], b)
      else if Ascii.eqb c backslash then
        match b with
        | e :: b' =>
            if simple_escape e then '(s, r) ← string_token b'; Some (c :: e :: s, r)
            else if Ascii.eqb e "u" then
              match b' with
              | h1 :: h2 :: h3 :: h4 :: b'' =>
                  if isHex4 [h1; h2; h3; h4] then '(s, r) ← string_token b''; Some (c :: e :: h1 :: h2 :: h3 :: h4 :: s, r) else None
              | _ => None
              end
            else None
        | [] => None
        end
      else if (byte_val c <? 32)%Z then None
      else '(s, r) ← string_token b; Some (c :: s, r)
  end.

(** Digits at the head and the rest. *)
Fixpoint digits (b : bytes) : bytes * bytes :=
  match b with
  | c :: l => if is_digit c then let '(d, r) := digits l in (c :: d, r) else ([], b)
  | [] => ([], [])
  end.

Definition digits1 (b : bytes) : option (bytes * bytes) := match digits b with ([], _) => None | p => Some p end.

(** Fraction and exponent, each optional. *)
Definition fraction_token (b : bytes) : option (bytes * bytes) :=
  match b with
  | c :: l => if Ascii.eqb c "." then '(d, r) ← digits1 l; Some (c :: d, r) else Some ([], b)
  | [] => Some ([], [])
  end.

Definition is_exp (c : ascii) : bool := Ascii.eqb c "e" || Ascii.eqb c "E".
Definition is_sign (c : ascii) : bool := Ascii.eqb c "+" || Ascii.eqb c "-".

Definition exponent_token (b : bytes) : option (bytes * bytes) :=
  match b with
  | c :: l =>
      if is_exp c then
        match l with
        | s :: l' => if is_sign s then '(d, r) ← digits1 l'; Some (c :: s :: d, r) else '(d, r) ← digits1 l; Some (c :: d, r)
        | [] => None
        end
      else Some ([], b)
  | [] => Some ([], [])
  end.

(** A zero stands alone before fraction and exponent. *)
Definition integer_token (b : bytes) : option (bytes * bytes) :=
  match b with
  | c :: l => if Ascii.eqb c "0" then Some ([c], l) else digits1 b
  | [] => None
  end.

Definition number_token (b : bytes) : option (bytes * bytes) :=
  let '(sign, b) := match b with c :: l => if Ascii.eqb c "-" then ([c], l) else ([], b) | [] => ([], []) end in
  '(i, b) ← integer_token b;
  '(f, b) ← fraction_token b;
  '(e, b) ← exponent_token b;
  Some (sign ++ i ++ f ++ e, b).

Definition keyword (lit b : bytes) : option bytes := if is_prefix lit b then Some (drop (List.length lit) b) else None.

(** ** Values *)

(** [maxNestingDepth]. *)
Definition maxNestingDepth : Z := 10000.

Fixpoint parse_value (fuel : nat) (depth : Z) (b : bytes) : option (json * bytes) :=
  match fuel with
  | O => None
  | S fuel =>
      match skip_ws b with
      | [] => None
      | c :: b =>
          if Ascii.eqb c quote then '(s, r) ← string_token b; Some (JStr s, r)
          else if Ascii.eqb c "[" then
            if (maxNestingDepth <=? depth)%Z then None
            else match skip_ws b with
                 | c' :: r => if Ascii.eqb c' "]" then Some (JArr [], r) else '(l, r) ← parse_items fuel (depth + 1) b; Some (JArr l, r)
                 | [] => None
                 end
          else if Ascii.eqb c "{" then
            if (maxNestingDepth <=? depth)%Z then None
            else match skip_ws b with
                 | c' :: r => if Ascii.eqb c' "}" then Some (JObj [], r) else '(l, r) ← parse_members fuel (depth + 1) b; Some (JObj l, r)
                 | [] => None
                 end
          else if Ascii.eqb c "t" then r ← keyword (bs "true") (c :: b); Some (JTrue, r)
          else if Ascii.eqb c "f" then r ← keyword (bs "false") (c :: b); Some (JFalse, r)
          else if Ascii.eqb c "n" then r ← keyword (bs "null") (c :: b); Some (JNull, r)
          else '(t, r) ← number_token (c :: b); Some (JNum t, r)
      end
  end
with parse_items (fuel : nat) (depth : Z) (b : bytes) : option (list json * bytes) :=
  match fuel with
  | O => None
  | S fuel =>
      '(j, r) ← parse_value fuel depth b;
      match skip_ws r with
      | c :: r =>
          if Ascii.eqb c "," then '(l, r) ← parse_items fuel depth r; Some (j :: l, r)
          else if Ascii.eqb c "]" then Some ([j], r) else None
      | [] => None
      end
  end
with parse_members (fuel : nat) (depth : Z) (b : bytes) : option (list (bytes * json) * bytes) :=
  match fuel with
  | O => None
  | S fuel =>
      match skip_ws b with
      | c :: b =>
          if Ascii.eqb c quote then
            '(k, r) ← string_token b;
            match skip_ws r with
            | c :: r =>
                if Ascii.eqb c ":" then
                  '(j, r) ← parse_value fuel depth r;
                  match skip_ws r with
                  | c :: r =>
                      if Ascii.eqb c "," then '(l, r) ← parse_members fuel depth r; Some ((k, j) :: l, r)
                      else if Ascii.eqb c "}" then Some ([(k, j)], r) else None
                  | [] => None
                  end
                else None
            | [] => None
            end
          else None
      | [] => None
      end
  end.

Definition json_fuel (b : bytes) : nat := 2 * List.length b + 2.

(** The document of a body: one value, white space around it. *)
Definition decode (b : bytes) : option json :=
  '(j, r) ← parse_value (json_fuel b) 0 b;
  match skip_ws r with [] => Some j | _ => None end.

(** [json.Valid]. *)
Definition Valid (b : bytes) : bool := isSome (decode b).

(** ** What an accepted text is *)

Lemma skip_ws_split (b : bytes) : exists w, b = w ++ skip_ws b /\ ws w.
Proof.
  induction b as [|c b (w & E & Hw)]; cbn; [exists []; split; [reflexivity|constructor]|].
  destruct (isWS c) eqn:Hc; [|exists []; split; [reflexivity|constructor]].
  exists (c :: w). cbn. split; [f_equal; exact E|constructor; assumption].
Qed.

Ltac skip_space b w Hw := let E := fresh "E" in destruct (skip_ws_split b) as (w & E & Hw); rewrite E in *; clear E.

Lemma string_token_sound (b : bytes) : forall s r, string_token b = Some (s, r) -> b = s ++ quote :: r /\ str_body s.
Proof.
  induction b as [b IH] using (induction_ltof1 _ (@List.length ascii)). unfold ltof in IH. intros s r.
  destruct b as [|c b]; cbn [string_token]; [discriminate|]. destruct (Ascii.eqb_spec c quote) as [->|Hq].
  { intros [= <- <-]. split; [reflexivity|constructor]. }
  destruct (Ascii.eqb_spec c backslash) as [->|Hb].
  - destruct b as [|e b]; [discriminate|]. destruct (simple_escape e).
    + destruct (string_token b) as [[s' r']|] eqn:E; cbn; [|discriminate]. intros [= <- <-].
      apply IH in E as [-> Hs]; [|cbn; lia]. split; [reflexivity|apply sb_esc, Hs].
    + destruct (Ascii.eqb_spec e "u"%char) as [->|]; [|discriminate]. destruct b as [|h1 [|h2 [|h3 [|h4 b]]]]; try discriminate.
      destruct (isHex4 [h1; h2; h3; h4]) eqn:Hh; [|discriminate].
      destruct (string_token b) as [[s' r']|] eqn:E; cbn [mbind option_bind]; [|discriminate]. intros [= <- <-].
      apply IH in E as [-> Hs]; [|cbn; lia]. split; [reflexivity|]. apply sb_esc.
      cbn in Hh. repeat (apply andb_prop in Hh as [? Hh]).
      repeat (apply sb_char; [intros ->; discriminate|intros ->; discriminate|]). exact Hs.
  - destruct (byte_val c <? 32)%Z; [discriminate|]. destruct (string_token b) as [[s' r']|] eqn:E; cbn; [|discriminate].
    intros [= <- <-]. apply IH in E as [-> Hs]; [|cbn; lia]. split; [reflexivity|apply sb_char; assumption].
Qed.

Definition numeric (l : bytes) : Prop := Forall (fun c => num_char c = true) l.

Lemma digits_sound (b : bytes) : forall d r, digits b = (d, r) -> b = d ++ r /\ numeric d.
Proof.
  induction b as [|c b IH]; cbn; intros d r; [intros [= <- <-]; split; [reflexivity|constructor]|].
  destruct (is_digit c) eqn:Hc; [|intros [= <- <-]; split; [reflexivity|constructor]].
  destruct (digits b) as [d' r'] eqn:E. intros [= <- <-]. destruct (IH d' r' eq_refl) as [-> Hd].
  split; [reflexivity|]. constructor; [unfold num_char; rewrite Hc; reflexivity|exact Hd].
Qed.

Lemma digits1_sound (b d r : bytes) : digits1 b = Some (d, r) -> b = d ++ r /\ numeric d /\ d <> [].
Proof.
  unfold digits1. destruct (digits b) as [[|c d'] r'] eqn:E; [discriminate|]. intros [= <- <-].
  apply digits_sound in E as [-> Hd]. split; [reflexivity|split; [exact Hd|discriminate]].
Qed.

Ltac num_cons := first [constructor; [reflexivity|] | assumption | constructor].

Lemma fraction_sound (b f r : bytes) : fraction_token b = Some (f, r) -> b = f ++ r /\ numeric f.
Proof.
  unfold fraction_token. destruct b as [|c l]; [intros [= <- <-]; split; [reflexivity|constructor]|].
  destruct (Ascii.eqb_spec c "."%char) as [->|]; [|intros [= <- <-]; split; [reflexivity|constructor]].
  destruct (digits1 l) as [[d r']|] eqn:E; cbn; [|discriminate]. intros [= <- <-].
  apply digits1_sound in E as (-> & Hd & _). split; [reflexivity|repeat num_cons].
Qed.

Lemma exponent_sound (b e r : bytes) : exponent_token b = Some (e, r) -> b = e ++ r /\ numeric e.
Proof.
  unfold exponent_token. destruct b as [|c l]; [intros [= <- <-]; split; [reflexivity|constructor]|].
  destruct (is_exp c) eqn:Hc; [|intros [= <- <-]; split; [reflexivity|constructor]].
  assert (num_char c = true) as Hn by (unfold is_exp in Hc; apply orb_prop in Hc as [Hc|Hc]; apply Ascii.eqb_eq in Hc; subst; reflexivity).
  destruct l as [|s l]; [discriminate|]. destruct (is_sign s) eqn:Hs.
  - destruct (digits1 l) as [[d r']|] eqn:E; cbn; [|discriminate]. intros [= <- <-].
    apply digits1_sound in E as (-> & Hd & _). split; [reflexivity|]. constructor; [exact Hn|]. constructor; [|exact Hd].
    unfold is_sign in Hs. apply orb_prop in Hs as [Hs|Hs]; apply Ascii.eqb_eq in Hs; subst; reflexivity.
  - destruct (digits1 (s :: l)) as [[d r']|] eqn:E; cbn [mbind option_bind]; [|discriminate]. intros [= <- <-].
    apply digits1_sound in E as (-> & Hd & _). split; [reflexivity|]. constructor; assumption.
Qed.

Lemma integer_sound (b i r : bytes) : integer_token b = Some (i, r) -> b = i ++ r /\ numeric i /\ i <> [].
Proof.
  unfold integer_token. destruct b as [|c l]; [discriminate|]. destruct (Ascii.eqb_spec c "0"%char) as [->|].
  - intros [= <- <-]. split; [reflexivity|]. split; [repeat num_cons|discriminate].
  - apply digits1_sound.
Qed.

Lemma number_sound (b t r : bytes) : number_token b = Some (t, r) -> b = t ++ r /\ numeric t /\ t <> [].
Proof.
  unfold number_token. set (p := match b with c :: l => _ | [] => _ end).
  assert (b = p.1 ++ p.2 /\ numeric p.1) as [Eb Hs].
  { subst p. destruct b as [|c l]; [split; [reflexivity|constructor]|]. destruct (Ascii.eqb_spec c "-"%char) as [->|];
      (split; [reflexivity|repeat num_cons]). }
  destruct p as [sign b']. cbn in Eb, Hs. subst b.
  destruct (integer_token b') as [[i b1]|] eqn:Ei; cbn; [|discriminate]. apply integer_sound in Ei as (-> & Hi & Hne).
  destruct (fraction_token b1) as [[f b2]|] eqn:Ef; cbn; [|discriminate]. apply fraction_sound in Ef as (-> & Hf).
  destruct (exponent_token b2) as [[e b3]|] eqn:Ee; cbn; [|discriminate]. apply exponent_sound in Ee as (-> & He).
  intros [= <- <-]. split; [rewrite <- !app_assoc; reflexivity|]. unfold numeric in *.
  split; [repeat (apply Forall_app; split; [assumption|]); assumption|].
  destruct sign, i; (discriminate || congruence).
Qed.

Lemma keyword_sound (lit b r : bytes) : keyword lit b = Some r -> b = lit ++ r.
Proof.
  unfold keyword. destruct (is_prefix lit b) eqn:H; [|discriminate]. intros [= <-]. revert b H.
  induction lit as [|x lit IH]; intros b H; [reflexivity|]. destruct b as [|y b]; [discriminate|].
  cbn in H. apply andb_prop in H as [Hx H]. apply Ascii.eqb_eq in Hx as ->. cbn. f_equal. exact (IH b H).
Qed.

(** The items of an array and the members of an object, as in [prints]. *)
Fixpoint print_items (l : list json) (xs : list bytes) : Prop :=
  match l, xs with
  | [], [] => True
  | j :: l, x :: xs => (exists w v w', x = (w ++ v ++ w') /\ ws w /\ ws w' /\ prints j v) /\ print_items l xs
  | _, _ => False
  end.

Fixpoint print_members (l : list (bytes * json)) (ms : list Member) : Prop :=
  match l, ms with
  | [], [] => True
  | (k, j) :: l, m :: ms => m_key m = k /\ spaced m /\ prints j (m_val m) /\ print_members l ms
  | _, _ => False
  end.

Lemma prints_arr (l : list json) (inner : bytes) (xs : list bytes) : ws inner -> print_items l xs ->
  prints (JArr l) ("[" :: inner ++ commas xs ++ ["]"])%char.
Proof. intros Hw H. exists inner, xs. split; [reflexivity|]. split; [exact Hw|exact H]. Qed.

Lemma prints_obj (l : list (bytes * json)) (inner : bytes) (ms : list Member) : ws inner -> print_members l ms ->
  prints (JObj l) (object_text [] ms inner []).
Proof. intros Hw H. exists inner, ms. split; [reflexivity|]. split; [exact Hw|exact H]. Qed.

Lemma commas_cons (x : bytes) (xs : list bytes) : xs <> [] -> commas (x :: xs) = x ++ ","%char :: commas xs.
Proof. destruct xs; [contradiction|reflexivity]. Qed.

Lemma members_text_cons (m : Member) (ms : list Member) : ms <> [] -> members_text (m :: ms) = m_text m ++ ","%char :: members_text ms.
Proof. destruct ms; [contradiction|reflexivity]. Qed.

Definition value_ok (fuel : nat) : Prop := forall d b j r, parse_value fuel d b = Some (j, r) ->
  exists w raw, b = w ++ raw ++ r /\ ws w /\ prints j raw.
Definition items_ok (fuel : nat) : Prop := forall d b l r, parse_items fuel d b = Some (l, r) ->
  exists xs, xs <> [] /\ b = commas xs ++ "]"%char :: r /\ print_items l xs.
Definition members_ok (fuel : nat) : Prop := forall d b l r, parse_members fuel d b = Some (l, r) ->
  exists ms, ms <> [] /\ b = members_text ms ++ "}"%char :: r /\ print_members l ms.

Ltac flat := cbn [app]; repeat (rewrite <- app_assoc; cbn [app]).

Lemma items_step (fuel : nat) : value_ok fuel -> items_ok fuel -> items_ok (S fuel).
Proof.
  intros Hv Hi d b l r. cbn [parse_items]. destruct (parse_value fuel d b) as [[j r1]|] eqn:E; cbn; [|discriminate].
  apply Hv in E as (w & raw & -> & Hw & Hp). destruct (skip_ws_split r1) as (w1 & E1 & Hw1).
  destruct (skip_ws r1) as [|c r2]; [discriminate|]. destruct (Ascii.eqb_spec c ","%char) as [->|].
  - destruct (parse_items fuel d r2) as [[l' r3]|] eqn:E; cbn; [|discriminate]. intros [= <- <-].
    apply Hi in E as (xs & Hne & -> & Hx). exists ((w ++ raw ++ w1) :: xs). split; [discriminate|].
    rewrite commas_cons by exact Hne. rewrite E1. split; [flat; reflexivity|]. split; [exists w, raw, w1; auto|exact Hx].
  - destruct (Ascii.eqb_spec c "]"%char) as [->|]; [|discriminate]. intros [= <- <-].
    exists [w ++ raw ++ w1]. split; [discriminate|]. rewrite E1. split; [cbn; flat; reflexivity|]. split; [exists w, raw, w1; auto|exact I].
Qed.

Lemma members_step (fuel : nat) : value_ok fuel -> members_ok fuel -> members_ok (S fuel).
Proof.
  intros Hv Hm d b l r. cbn [parse_members]. destruct (skip_ws_split b) as (w0 & E0 & Hw0).
  destruct (skip_ws b) as [|c b1]; [discriminate|]. subst b. destruct (Ascii.eqb_spec c quote) as [->|]; [|discriminate].
  destruct (string_token b1) as [[k r1]|] eqn:Ek; cbn [mbind option_bind]; [|discriminate]. apply string_token_sound in Ek as [-> Hk].
  destruct (skip_ws_split r1) as (w1 & E1 & Hw1). destruct (skip_ws r1) as [|c r2]; [discriminate|].
  destruct (Ascii.eqb_spec c ":"%char) as [->|]; [|discriminate].
  destruct (parse_value fuel d r2) as [[j r3]|] eqn:E; cbn [mbind option_bind]; [|discriminate]. apply Hv in E as (w2 & raw & -> & Hw2 & Hp).
  destruct (skip_ws_split r3) as (w3 & E3 & Hw3). destruct (skip_ws r3) as [|c r4]; [discriminate|].
  pose (m := mkMember w0 k w1 w2 raw w3). assert (spaced m) as Hsp by (unfold spaced; cbn; auto).
  destruct (Ascii.eqb_spec c ","%char) as [->|].
  - destruct (parse_members fuel d r4) as [[l' r5]|] eqn:E; cbn [mbind option_bind]; [|discriminate]. intros [= <- <-].
    apply Hm in E as (ms & Hne & -> & Hx). exists (m :: ms). split; [discriminate|]. rewrite members_text_cons by exact Hne.
    rewrite E1, E3. split; [unfold m_text, key_text; cbn; flat; reflexivity|]. cbn. auto.
  - destruct (Ascii.eqb_spec c "}"%char) as [->|]; [|discriminate]. intros [= <- <-].
    exists [m]. split; [discriminate|]. rewrite E1, E3. split; [unfold m_text, key_text; cbn; unfold m_text, key_text; cbn; flat; reflexivity|]. cbn. auto.
Qed.

Lemma value_step (fuel : nat) : items_ok fuel -> members_ok fuel -> value_ok (S fuel).
Proof.
  intros Hi Hm d b j r. cbn [parse_value]. destruct (skip_ws_split b) as (w & E & Hw).
  destruct (skip_ws b) as [|c b1]; [discriminate|]. subst b. intros H. exists w.
  enough (exists raw, (c :: b1) = raw ++ r /\ prints j raw) as (raw & -> & Hp) by (exists raw; auto). revert H.
  destruct (Ascii.eqb_spec c quote) as [->|].
  { destruct (string_token b1) as [[s r1]|] eqn:E; cbn; [|discriminate]. intros [= <- <-]. apply string_token_sound in E as [-> Hs].
    exists (quote :: s ++ [quote]). split; [flat; reflexivity|split; [reflexivity|exact Hs]]. }
  destruct (Ascii.eqb_spec c "["%char) as [->|].
  { destruct (_ <=? d)%Z; [discriminate|]. destruct (skip_ws_split b1) as (w1 & E1 & Hw1). destruct (skip_ws b1) as [|c' r1]; [discriminate|].
    destruct (Ascii.eqb_spec c' "]"%char) as [->|].
    - intros [= <- <-]. eexists. split; [|exact (prints_arr [] w1 [] Hw1 I)]. rewrite E1. cbn. flat. reflexivity.
    - destruct (parse_items fuel (d + 1) b1) as [[l r2]|] eqn:E; cbn; [|discriminate]. intros [= <- <-].
      apply Hi in E as (xs & _ & -> & Hx). eexists. split; [|exact (prints_arr l [] xs ltac:(constructor) Hx)]. flat. reflexivity. }
  destruct (Ascii.eqb_spec c "{"%char) as [->|].
  { destruct (_ <=? d)%Z; [discriminate|]. destruct (skip_ws_split b1) as (w1 & E1 & Hw1). destruct (skip_ws b1) as [|c' r1]; [discriminate|].
    destruct (Ascii.eqb_spec c' "}"%char) as [->|].
    - intros [= <- <-]. eexists. split; [|exact (prints_obj [] w1 [] Hw1 I)]. rewrite E1. unfold object_text. flat. reflexivity.
    - destruct (parse_members fuel (d + 1) b1) as [[l r2]|] eqn:E; cbn; [|discriminate]. intros [= <- <-].
      apply Hm in E as (ms & Hne & -> & Hx). eexists. split; [|exact (prints_obj l [] ms ltac:(constructor) Hx)].
      unfold object_text. destruct ms; [contradiction|]. flat. reflexivity. }
  destruct (Ascii.eqb c "t"); [|destruct (Ascii.eqb c "f"); [|destruct (Ascii.eqb c "n")]].
  1-3: match goal with |- context [keyword ?l ?b] => destruct (keyword l b) as [r1|] eqn:E end; cbn [mbind option_bind]; [|discriminate];
    intros [= <- <-]; apply keyword_sound in E; eexists; (split; [exact E|reflexivity]).
  destruct (number_token (c :: b1)) as [[t r1]|] eqn:E; cbn [mbind option_bind]; [|discriminate]. intros [= <- <-].
  apply number_sound in E as (-> & Ht & Hne). exists t. split; [reflexivity|]. split; [reflexivity|auto].
Qed.

Lemma parse_sound (fuel : nat) : value_ok fuel /\ items_ok fuel /\ members_ok fuel.
Proof.
  induction fuel as [|fuel (Hv & Hi & Hm)]; [repeat split; intros d b ? r H; discriminate H|].
  split; [exact (value_step fuel Hi Hm)|]. split; [exact (items_step fuel Hv Hi)|exact (members_step fuel Hv Hm)].
Qed.

Lemma decode_sound (b : bytes) (j : json) : decode b = Some j -> exists w raw w', b = w ++ raw ++ w' /\ ws w /\ ws w' /\ prints j raw.
Proof.
  unfold decode. destruct (parse_value _ 0 b) as [[j' r]|] eqn:E; cbn; [|discriminate]. apply parse_sound in E as (w & raw & -> & Hw & Hp).
  destruct (skip_ws_split r) as (w' & Er & Hw'). destruct (skip_ws r); [|discriminate]. intros [= <-].
  rewrite app_nil_r in Er. subst r. exists w, raw, w'. auto.
Qed.

(** Enough fuel is enough: the loops never run out. *)
Lemma skip_ws_le (b : bytes) : List.length (skip_ws b) <= List.length b.
Proof. destruct (skip_ws_split b) as (w & E & _). rewrite E at 2. rewrite length_app. lia. Qed.

Lemma skip_ws_cons (b r : bytes) (c : ascii) : skip_ws b = c :: r -> List.length r < List.length b.
Proof. intros E. pose proof (skip_ws_le b) as H. rewrite E in H. cbn in H. lia. Qed.

Lemma parse_value_shorter (fuel : nat) (d : Z) (b r : bytes) (j : json) : parse_value fuel d b = Some (j, r) -> List.length r < List.length b.
Proof.
  intros H. apply parse_sound in H as (w & raw & -> & _ & Hp). apply prints_value, value_nonempty in Hp as (c & l & -> & _).
  rewrite !length_app. cbn. lia.
Qed.

Lemma string_token_shorter (b s r : bytes) : string_token b = Some (s, r) -> List.length r < List.length b.
Proof. intros H. apply string_token_sound in H as [-> _]. rewrite length_app. cbn. lia. Qed.

Lemma parse_fuel (f : nat) : forall g,
  (forall d b, 2 * List.length b < f -> 2 * List.length b < g -> parse_value f d b = parse_value g d b) /\
  (forall d b, 2 * List.length b + 1 < f -> 2 * List.length b + 1 < g -> parse_items f d b = parse_items g d b) /\
  (forall d b, 2 * List.length b + 1 < f -> 2 * List.length b + 1 < g -> parse_members f d b = parse_members g d b).
Proof.
  induction f as [|f IH]; intros [|g]; try (repeat split; intros; lia).
  destruct (IH g) as (Hv & Hi & Hm). split; [|split]; intros d b Hf Hg.
  - cbn [parse_value]. destruct (skip_ws b) as [|c b1] eqn:E; [reflexivity|]. apply skip_ws_cons in E.
    rewrite Hi, Hm by lia. reflexivity.
  - cbn [parse_items]. rewrite Hv by lia. destruct (parse_value g d b) as [[j r]|] eqn:E; [|reflexivity]. cbn [mbind option_bind].
    apply parse_value_shorter in E. destruct (skip_ws r) as [|c r1] eqn:E1; [reflexivity|]. apply skip_ws_cons in E1.
    rewrite Hi by lia. reflexivity.
  - cbn [parse_members]. destruct (skip_ws b) as [|c b1] eqn:E; [reflexivity|]. apply skip_ws_cons in E.
    destruct (Ascii.eqb c quote); [|reflexivity]. destruct (string_token b1) as [[k r]|] eqn:Ek; [|reflexivity]. cbn [mbind option_bind].
    apply string_token_shorter in Ek. destruct (skip_ws r) as [|c1 r1] eqn:E1; [reflexivity|]. apply skip_ws_cons in E1.
    destruct (Ascii.eqb c1 ":"); [|reflexivity]. rewrite Hv by lia. destruct (parse_value g d r1) as [[j r2]|] eqn:E2; [|reflexivity].
    cbn [mbind option_bind]. apply parse_value_shorter in E2. destruct (skip_ws r2) as [|c2 r3] eqn:E3; [reflexivity|]. apply skip_ws_cons in E3.
    rewrite Hm by lia. reflexivity.
Qed.

Lemma decode_fuel (f : nat) (b : bytes) : 2 * List.length b < f -> parse_value f 0 b = parse_value (json_fuel b) 0 b.
Proof. intros H. apply (parse_fuel f (json_fuel b)); unfold json_fuel; lia. Qed.

Example valid_examples :
  map (fun s => Valid (bs s)) ["{}"; " [1, -0.5e+3, true ] "; "{'a':1}"; "01"; "[1,]"; "1 2"; ""; "nul"]%string =
  [true; true; false; false; false; false; false; false].
Proof. vm_compute. reflexivity. Qed.

(** ** [json.Unmarshal] into a structure with the field [Type string] *)

Definition surrogate (r : Z) : bool := ((55296 <=? r) && (r <=? 57343))%Z.

(** [utf16.DecodeRune] of a pair. *)
Definition pair_rune (r1 r2 : Z) : option Z :=
  if ((55296 <=? r1) && (r1 <? 56320) && (56320 <=? r2) && (r2 <? 57344))%Z
  then Some ((r1 - 55296) * 1024 + (r2 - 56320) + 65536)%Z else None.

(** [getu4]: the rune of an escape at the head. *)
Definition escape4 (b : bytes) : option Z :=
  match b with
  | c :: u :: h1 :: h2 :: h3 :: h4 :: _ =>
      if Ascii.eqb c backslash && Ascii.eqb u "u" && isHex4 [h1; h2; h3; h4] then Some (decodeHex4 [h1; h2; h3; h4]) else None
  | _ => None
  end.

Definition simple_char (e : ascii) : ascii :=
  if Ascii.eqb e "b" then "008"%char else if Ascii.eqb e "f" then "012"%char else if Ascii.eqb e "n" then "010"%char
  else if Ascii.eqb e "r" then "013"%char else if Ascii.eqb e "t" then "009"%char else e.

(** The string a body stands for; ill-formed UTF-8 and lone surrogates become
    U+FFFD. *)
Fixpoint unquote (fuel : nat) (b : bytes) : bytes :=
  match fuel with
  | O => []
  | S fuel =>
      match b with
      | [] => []
      | c :: rest =>
          if Ascii.eqb c backslash then
            match escape4 b with
            | Some r =>
                match (if surrogate r then match escape4 (drop 6 b) with Some r2 => pair_rune r r2 | None => None end else None) with
                | Some p => bs (EncodeRune p) ++ unquote fuel (drop 12 b)
                | None => bs (EncodeRune r) ++ unquote fuel (drop 6 b)
                end
            | None => match rest with e :: rest => simple_char e :: unquote fuel rest | [] => [] end
            end
          else let '(r, w) := DecodeRune c (string_of_list_ascii rest) in bs (EncodeRune r) ++ unquote fuel (drop w b)
      end
  end.

Definition unquoted (b : bytes) : bytes := unquote (List.length b) b.

(** Field names match exactly or with ASCII letters folded; a later member
    overrides an earlier one, [null] changes nothing, another type is an error. *)
Definition is_type_key (k : bytes) : bool := String.eqb (ToLower (string_of_list_ascii (unquoted k))) "type".

Fixpoint type_field (l : list (bytes * json)) (acc : bytes) : option bytes :=
  match l with
  | [] => Some acc
  | (k, v) :: l =>
      if is_type_key k then match v with JStr s => type_field l (unquoted s) | JNull => type_field l acc | _ => None end
      else type_field l acc
  end.

Definition UnmarshalType (data : bytes) : option bytes :=
  match decode data with
  | Some (JObj l) => type_field l []
  | Some JNull => Some []
  | _ => None
  end.

Example unmarshal_examples :
  map (fun s => UnmarshalType (bs s)) ["{}"; "{\q\}"; "null"; "[]"]%string = [Some []; None; Some []; None] /\
  UnmarshalType (bs "{" ++ quote :: bs "Type" ++ quote :: bs ":" ++ quote :: bs "a\u0062\ud83d\ude00" ++ quote :: bs "}") =
    Some (bs "ab" ++ map byte_of [240; 159; 152; 128]%Z).
Proof. split; vm_compute; reflexivity. Qed.
