(* ===== verification/Decoded.v ===== *)
(** * Documents as a library decodes them ([encoding/json], the SDKs)

    [JsonText.json] keeps the text of strings and keys as it stands between the
    quotes, and all members of an object in order.  What a program that decodes
    the body works on is this: strings and keys without escapes, ill-formed
    characters replaced, and of the members with one key the last.  The scanners
    of the gateway compare raw keys and take the first, so the two readings agree
    on [plain] documents only; that every part of the condition is needed is shown
    where it is used ([UsageDecode], [RequestCheck]). *)

From Stdlib Require Import ZArith Lia List Bool String Ascii.
From stdpp Require Import base option list.
From S2P Require Import Prelude GoString JsonScan JsonText GoJson.
Import ListNotations.
Local Open Scope list_scope.

Inductive doc :=
| DNull | DTrue | DFalse
| DNum (text : bytes)
| DStr (s : bytes)
| DArr (items : list doc)
| DObj (fields : list (bytes * doc)).

Fixpoint decoded (j : json) : doc :=
  match j with
  | JNull => DNull | JTrue => DTrue | JFalse => DFalse
  | JNum t => DNum t
  | JStr s => DStr (unquoted s)
  | JArr l => DArr (map decoded l)
  | JObj l => DObj (map (fun kv => (unquoted kv.1, decoded kv.2)) l)
  end.

(** The last member with a key. *)
Fixpoint last_field (l : list (bytes * doc)) (key : bytes) : option doc :=
  match l with
  | [] => None
  | (k, d) :: l => match last_field l key with Some d' => Some d' | None => if beq k key then Some d else None end
  end.

Definition doc_get (d : doc) (key : bytes) : option doc := match d with DObj l => last_field l key | _ => None end.

(** Keys that are written as they are read, each once. *)
Fixpoint distinct (ks : list bytes) : bool := match ks with [] => true | k :: ks => negb (existsb (beq k) ks) && distinct ks end.
Definition plain_keys (l : list (bytes * json)) : bool :=
  forallb (fun kv => beq (unquoted kv.1) kv.1) l && distinct (map fst l).

(** Members of objects, at every depth. *)
Fixpoint plain_members (j : json) : bool :=
  match j with
  | JObj l => plain_keys l && forallb (fun kv => plain_members kv.2) l
  | _ => true
  end.

Lemma beq_true (a b : bytes) : beq a b = true -> a = b.
Proof. unfold beq. apply bool_decide_eq_true. Qed.

Lemma beq_self (a : bytes) : beq a a = true.
Proof. unfold beq. apply bool_decide_eq_true. reflexivity. Qed.

Lemma last_field_none (l : list (bytes * json)) (key : bytes) : existsb (beq key) (map fst l) = false ->
  forallb (fun kv => beq (unquoted kv.1) kv.1) l = true ->
  last_field (map (fun kv => (unquoted kv.1, decoded kv.2)) l) key = None.
Proof.
  induction l as [|[k j] l IH]; [reflexivity|]. cbn [map fst existsb forallb last_field snd]. intros H Hk. apply orb_false_iff in H as [H1 H2].
  apply andb_prop in Hk as [Hk1 Hk2]. apply beq_true in Hk1. rewrite IH by assumption. rewrite Hk1.
  destruct (beq k key) eqn:E; [|reflexivity]. apply beq_true in E. subst. rewrite beq_self in H1. discriminate.
Qed.

(** On plain members the first raw key is the last decoded one. *)
Lemma plain_field (l : list (bytes * json)) (key : bytes) : plain_keys l = true ->
  last_field (map (fun kv => (unquoted kv.1, decoded kv.2)) l) key = decoded <$> field l key.
Proof.
  unfold plain_keys. intros H. apply andb_prop in H as [Hk Hd]. revert Hk Hd. induction l as [|[k j] l IH]; [reflexivity|].
  cbn [map fst forallb distinct last_field field snd]. intros Hk Hd. apply andb_prop in Hk as [Hk1 Hk2], Hd as [Hd1 Hd2].
  apply beq_true in Hk1. rewrite Hk1. destruct (beq k key) eqn:E.
  - apply beq_true in E. subst k. rewrite last_field_none; [reflexivity| |exact Hk2]. apply negb_true_iff, Hd1.
  - rewrite IH by assumption. destruct (field l key); reflexivity.
Qed.

Lemma field_in (l : list (bytes * json)) (key : bytes) (j : json) : field l key = Some j -> exists k, In (k, j) l.
Proof.
  induction l as [|[k x] l IH]; [discriminate|]. cbn [field]. destruct (beq k key); [intros [= ->]; exists k; left; reflexivity|].
  intros H. destruct (IH H) as [k' Hk]. exists k'. right. exact Hk.
Qed.

Lemma plain_members_field (l : list (bytes * json)) (key : bytes) (j : json) : plain_members (JObj l) = true -> field l key = Some j ->
  plain_members j = true.
Proof.
  cbn [plain_members]. intros H Hf. apply andb_prop in H as [_ H]. rewrite forallb_forall in H. destruct (field_in _ _ _ Hf) as [k Hk].
  exact (H _ Hk).
Qed.
