(* ===== verification/UsageExtract.v ===== *)
(** * Metering stream frames ([internal/proxy/usage_extract.go])

    The token counters of a response are read from the bytes of its frames.  The
    extraction only asks three things of a document: the value of a key, whether
    a value is an object or array, and its integer.  It is written against that
    interface; the gateway runs it on bytes, and the theorems compare that with
    the same extraction on the decoded document. *)

From Stdlib Require Import ZArith Lia List Bool String Ascii.
From stdpp Require Import base option list.
From S2P Require Import Prelude GoString UsageBilling Pipeline JsonScan JsonText.
Import ListNotations.
Local Open Scope string_scope.
Local Open Scope Z_scope.

(** ** Views of a document *)

Class DocView (D : Type) := {
  dv_get : D -> bytes -> option D;      (* the value of a top-level key *)
  dv_nested : D -> bool;                (* an object or an array *)
  dv_int : D -> Z;                      (* the integer of a value, 0 without one *)
  dv_string : D -> option bytes         (* what is between the quotes of a string *)
}.

(** [scanIntValue]. *)
Definition scanIntValue (raw : bytes) : Z :=
  match raw with
  | [] => 0
  | c :: _ =>
      if Ascii.eqb c quote then
        match parseJSONString raw 0 with
        | None => 0
        | Some (val, _) => default 0 (ParseInt (string_of_list_ascii val))
        end
      else default 0 (ParseInt (string_of_list_ascii raw))
  end.

Definition nested_value (raw : bytes) : bool := match raw with c :: _ => opens c | [] => false end.

(** The test of [usageStreamEventName] and [isResponsesCompletedType]. *)
Definition quoted (raw : bytes) : option bytes :=
  let n := List.length raw in
  if (n <? 2)%nat || negb (is_char raw 0 quote) || negb (is_char raw (n - 1) quote) then None else Some (slice raw 1 (n - 1)).

#[global] Instance bytes_view : DocView bytes := {|
  dv_get raw key := match scanKeyValue raw key with Some (s, e) => Some (slice raw s e) | None => None end;
  dv_nested := nested_value;
  dv_int := scanIntValue;
  dv_string := quoted
|}.

(** ** Extraction *)

Section Extract.
Context {D : Type} `{V : DocView D}.

Definition scanFieldInt64 (raw : D) (key : string) : Z :=
  match dv_get raw (bs key) with Some v => dv_int v | None => 0 end.

Definition has_key (raw : D) (key : string) : bool := isSome (dv_get raw (bs key)).

Definition usageInterval (data : D) (key : string) : option D :=
  match dv_get data (bs key) with Some v => if dv_nested v then Some v else None | None => None end.

(** The first positive field of a list of spellings. *)
Fixpoint first_positive (raw : D) (keys : list string) : Z :=
  match keys with
  | [] => 0
  | key :: keys => let n := scanFieldInt64 raw key in if 0 <? n then n else first_positive raw keys
  end.

Definition deductCacheRead (it cr : Z) : Z := if cr <=? 0 then it else if it <=? cr then 0 else it [-] cr.

Definition cacheCreationTokensFromInterval (raw : D) : Z :=
  let flat := first_positive raw ["cache_creation_input_tokens"; "cache_write_input_tokens"; "cache_creation_tokens"] in
  match dv_get raw (bs "cache_creation") with
  | None => flat
  | Some cache =>
      let n := addUsageTokens (scanFieldInt64 cache "ephemeral_5m_input_tokens") (scanFieldInt64 cache "ephemeral_1h_input_tokens") in
      if 0 <? n then n
      else
        let n := first_positive cache ["cache_creation_input_tokens"; "cache_write_input_tokens"; "input_tokens"; "cache_creation_tokens"] in
        if 0 <? n then n
        else
          let n := if dv_nested cache then 0 else dv_int cache in
          if 0 <? n then n else flat
  end.

Definition no_flags (it ot tt cr cc : Z) : usageTuple := mkTuple it ot tt cr cc false false 0 0 0.

Definition usageFieldsFromInterval (raw : D) (itKey otKey crKey : string) : usageTuple :=
  let it := scanFieldInt64 raw itKey in
  let ot := scanFieldInt64 raw otKey in
  let tt := scanFieldInt64 raw "total_tokens" in
  let tt := if tt <=? 0 then addUsageTokens it ot else tt in
  let cr := match dv_get raw (bs crKey) with Some d => scanFieldInt64 d "cached_tokens" | None => 0 end in
  let cr := if cr <=? 0
            then let n := first_positive raw ["cache_read_input_tokens"; "cache_read_tokens"] in if 0 <? n then n else cr
            else cr in
  let cc := cacheCreationTokensFromInterval raw in
  no_flags (deductCacheRead it cr) ot tt cr cc.

Definition chatStreamUsage (data : D) : option usageTuple :=
  match usageInterval data "usage" with
  | None => None
  | Some raw => Some (usageFieldsFromInterval raw "prompt_tokens" "completion_tokens" "prompt_tokens_details")
  end.

(** A later spelling is read when the earlier one is not positive. *)
Definition or_field (n : Z) (raw : D) (key : string) : Z := if n <=? 0 then scanFieldInt64 raw key else n.

Definition anthropicSummaryUsageCompat (data : D) : option usageTuple :=
  match usageInterval data "usage" with
  | None => None
  | Some raw =>
      if negb (existsb (has_key raw) ["input_tokens"; "output_tokens"; "cache_read_input_tokens"; "cache_read_tokens";
                                      "cache_creation_input_tokens"; "cache_write_input_tokens"]) then None
      else
        let it := or_field (scanFieldInt64 raw "input_tokens") raw "prompt_tokens" in
        let ot := or_field (scanFieldInt64 raw "output_tokens") raw "completion_tokens" in
        let cr := or_field (scanFieldInt64 raw "cache_read_input_tokens") raw "cache_read_tokens" in
        let cc := or_field (scanFieldInt64 raw "cache_creation_input_tokens") raw "cache_write_input_tokens" in
        let tt := scanFieldInt64 raw "total_tokens" in
        Some (no_flags it ot (if tt <=? 0 then addUsageTokens it ot else tt) cr cc)
  end.

Definition start_fields (raw : D) : usageTuple :=
  no_flags (scanFieldInt64 raw "input_tokens") 0 0 (scanFieldInt64 raw "cache_read_input_tokens")
    (scanFieldInt64 raw "cache_creation_input_tokens").

Definition anthropicStartUsage (data : D) : option usageTuple :=
  match dv_get data (bs "message") with
  | None => None
  | Some message => match usageInterval message "usage" with Some raw => Some (start_fields raw) | None => None end
  end.

Definition anthropicStartUsageCompat (data : D) : option usageTuple :=
  match anthropicStartUsage data with
  | Some t => Some t
  | None =>
      match usageInterval data "usage" with
      | None => None
      | Some raw =>
          let t := start_fields raw in
          Some (no_flags (or_field (u_it t) raw "prompt_tokens") 0 0 (or_field (u_cr t) raw "cached_tokens")
                  (or_field (u_cc t) raw "cache_creation_input_tokens"))
      end
  end.

(** The counter [key] of a usage object, if it is there. *)
Definition delta_field (data : D) (key : string) : option Z :=
  match usageInterval data "usage" with
  | None => None
  | Some raw => if has_key raw key then Some (scanFieldInt64 raw key) else None
  end.

Definition anthropicDeltaUsage (data : D) : option Z := delta_field data "output_tokens".
Definition anthropicDeltaOutput (data : D) : Z := default 0 (anthropicDeltaUsage data).
Definition anthropicDeltaUsageCompat (data : D) : option Z :=
  match anthropicDeltaUsage data with Some n => Some n | None => delta_field data "completion_tokens" end.

Definition responses_fields (raw : D) : usageTuple :=
  usageFieldsFromInterval raw "input_tokens" "output_tokens" "input_tokens_details".

Definition response_usage (data : D) : option D :=
  match dv_get data (bs "response") with Some r => usageInterval r "usage" | None => None end.

Definition responsesCompletedUsage (data : D) : option usageTuple :=
  match response_usage data with Some raw => Some (responses_fields raw) | None => None end.
Definition responsesTopLevelUsage (data : D) : option usageTuple :=
  match usageInterval data "usage" with Some raw => Some (responses_fields raw) | None => None end.

Definition responseUsageHasExplicitTotal (data : D) : bool :=
  match response_usage data with Some raw => has_key raw "total_tokens" | None => false end.
Definition topLevelUsageHasExplicitTotal (data : D) : bool :=
  match usageInterval data "usage" with Some raw => has_key raw "total_tokens" | None => false end.

Definition or_value (n m : Z) : Z := if n <=? 0 then m else n.

Definition responsesStreamUsage (data : D) : option usageTuple :=
  match responsesCompletedUsage data, responsesTopLevelUsage data with
  | None, top => top
  | Some nested, None => Some nested
  | Some nested, Some top =>
      let it := or_value (u_it nested) (u_it top) in
      let ot := or_value (u_ot nested) (u_ot top) in
      let tt := if responseUsageHasExplicitTotal data then u_tt nested
                else if topLevelUsageHasExplicitTotal data then u_tt top else addUsageTokens it ot in
      Some (no_flags it ot tt (or_value (u_cr nested) (u_cr top)) (or_value (u_cc nested) (u_cc top)))
  end.

(** The top-level [type] of a frame. *)
Definition frame_type (data : D) : option bytes := match dv_get data (bs "type") with Some v => dv_string v | None => None end.

Definition isResponsesCompletedType (data : D) : bool :=
  match frame_type data with Some t => beq t (bs "response.completed") | None => false end.

Definition isResponsesCompletedEvent (eventName : bytes) (data : D) : bool :=
  beq eventName (bs "response.completed") || isResponsesCompletedType data.

Definition sniffResponsesCompletedTop (data : D) : option usageTuple :=
  if negb (isResponsesCompletedType data) then None
  else match usageInterval data "usage" with Some raw => Some (responses_fields raw) | None => Some no_usage end.

(** The SSE event name, else the type; [trim] is [bytes.TrimSpace]. *)
Definition usageStreamEventName (eventName : bytes) (data : D) : bytes :=
  let name := bs (TrimSpace (string_of_list_ascii eventName)) in
  match name with [] => default [] (frame_type data) | _ => name end.

Definition exclude_cache (t : usageTuple) : usageTuple :=
  mkTuple (u_it t) (u_ot t) (u_tt t) (u_cr t) (u_cc t) true (u_cacheReadIncludedInTotal t) (u_calls t) (u_ii t) (u_io t).

Definition chatStreamUsageEvent (eventName : bytes) (data : D) : option usageTuple :=
  let name := usageStreamEventName eventName data in
  let rest := match anthropicSummaryUsageCompat data with
              | Some summary => Some (exclude_cache summary)
              | None => chatStreamUsage data
              end in
  if beq name (bs "message_start") then
    match anthropicStartUsageCompat data with Some t => Some (exclude_cache t) | None => rest end
  else if beq name (bs "message_delta") then
    match anthropicDeltaUsageCompat data with
    | Some ot => Some (exclude_cache (no_flags 0 ot 0 0 0))
    | None => rest
    end
  else rest.
End Extract.

(** ** Usage of complete responses *)

(** What the provider SDKs decoded, and the raw text of the usage object. *)
Record SdkUsage := mkSdkUsage {
  su_raw : string; su_in : Z; su_out : Z; su_total : Z; su_cached : Z; su_cacheCreation : Z
}.

Section Sdk.
(** [gjson.Get(raw, path).Int()]; [None] when the path is missing or null. *)
Variable gjson_int : string -> string -> option Z.

Fixpoint rawUsageNumber (raw : string) (paths : list string) : Z :=
  match paths with
  | [] => 0
  | path :: paths =>
      match gjson_int raw path with
      | None => rawUsageNumber raw paths
      | Some n => if 0 <? n then n else rawUsageNumber raw paths
      end
  end.

Definition gjson_zero (raw path : string) : Z := default 0 (gjson_int raw path).

Fixpoint first_path (raw : string) (paths : list string) : Z :=
  match paths with
  | [] => 0
  | path :: paths => let n := gjson_zero raw path in if 0 <? n then n else first_path raw paths
  end.

Definition cacheCreationFromRaw (raw : string) : Z :=
  let cc := addUsageTokens (gjson_zero raw "cache_creation.ephemeral_5m_input_tokens")
              (gjson_zero raw "cache_creation.ephemeral_1h_input_tokens") in
  if 0 <? cc then cc
  else first_path raw ["cache_creation_input_tokens"; "cache_write_input_tokens"; "cache_creation.input_tokens"; "cache_creation.tokens";
                       "cache_creation_tokens"].

Definition or_raw (n : Z) (raw : string) (paths : list string) : Z := if n <=? 0 then rawUsageNumber raw paths else n.

Definition chatUsageFromResponse (u : SdkUsage) : usageTuple :=
  let raw := su_raw u in
  let it := or_raw (su_in u) raw ["prompt_tokens"; "input_tokens"] in
  let ot := or_raw (su_out u) raw ["completion_tokens"; "output_tokens"] in
  let tt := or_raw (su_total u) raw ["total_tokens"] in
  let cr := or_raw (su_cached u) raw
              ["prompt_tokens_details.cached_tokens"; "cache_read_input_tokens"; "cache_read_tokens"; "cached_tokens"] in
  let cc := or_raw (cacheCreationFromRaw raw) raw
              ["cache_creation_input_tokens"; "cache_write_input_tokens"; "cache_creation.input_tokens"] in
  let tt := if tt <=? 0 then addUsageTokens it ot else tt in
  no_flags (deductCacheRead it cr) ot tt cr cc.

Definition responsesUsageFromResponse (u : SdkUsage) : usageTuple :=
  let raw := su_raw u in
  let it := or_raw (su_in u) raw ["input_tokens"; "prompt_tokens"] in
  let ot := or_raw (su_out u) raw ["output_tokens"; "completion_tokens"] in
  let tt := or_raw (su_total u) raw ["total_tokens"] in
  let cr := or_raw (su_cached u) raw
              ["input_tokens_details.cached_tokens"; "cache_read_input_tokens"; "cache_read_tokens"; "cached_tokens"] in
  let cc := or_raw (cacheCreationFromRaw raw) raw
              ["cache_creation_input_tokens"; "cache_write_input_tokens"; "cache_creation.input_tokens"] in
  let tt := if tt <=? 0 then addUsageTokens it ot else tt in
  no_flags (deductCacheRead it cr) ot tt cr cc.

Definition anthropicUsageFromResponse (u : SdkUsage) : usageTuple :=
  let raw := su_raw u in
  let it := or_raw (su_in u) raw ["input_tokens"; "prompt_tokens"] in
  let ot := or_raw (su_out u) raw ["output_tokens"; "completion_tokens"] in
  let cr := or_raw (su_cached u) raw
              ["cache_read_input_tokens"; "cache_read_tokens"; "input_tokens_details.cached_tokens"; "cached_tokens"] in
  let cc := or_raw (su_cacheCreation u) raw
              ["cache_creation_input_tokens"; "cache_write_input_tokens"; "cache_creation.input_tokens"] in
  let tt := rawUsageNumber raw ["total_tokens"] in
  let tt := if tt <=? 0 then addUsageTokens it ot else tt in
  no_flags it ot tt cr cc.
End Sdk.

(** ** Images in a response *)

Definition imageResultNonEmpty (r : bytes) : bool :=
  match r with
  | [] => false
  | c :: rest =>
      if Ascii.eqb c "[" then negb ((List.length r =? 2)%nat && is_char r 1 "]")
      else negb (Ascii.eqb c "n" && beq r (bs "null"))
  end.

(** One item: the count and the identifiers seen, at most sixteen. *)
Definition count_item (st : Z * list bytes) (tv : ToolView) : Z * list bytes :=
  let '(count, ids) := st in
  if negb (beq (tv_Type tv) (bs "image_generation_call")) then st
  else if negb (imageResultNonEmpty (tv_Result tv)) then st
  else
    match tv_ID tv with
    | [] => (count [+] 1, ids)
    | id => if existsb (beq id) ids then st
            else (count [+] 1, if (List.length ids <? 16)%nat then (ids ++ [id])%list else ids)
    end.

Definition countImageItems (raw : bytes) : Z :=
  if is_char raw 0 "[" then (fold_left count_item (scanTools raw) (0, [])).1 else 0.

Definition respImageCountCompleted (data : bytes) : Z :=
  match dv_get data (bs "response") with
  | None => 0
  | Some sub => match dv_get sub (bs "output") with Some out => countImageItems out | None => 0 end
  end.

Definition respImageCountBody (data : bytes) : Z :=
  match dv_get data (bs "output") with Some out => countImageItems out | None => 0 end.
