(* ===== verification/UsageDecode.v ===== *)
(** * Metering on bytes is metering on documents ([internal/proxy/usage_extract.go])

    The counters are read by scanning bytes, without decoding a frame.  Here the
    extraction runs on the decoded document instead, and the two agree on frames
    whose keys are written without escapes and once per object and whose numeric
    strings have no escapes: the scanner's answers correspond to the document's,
    so every extraction written against the interface gives the same tuple.  The
    last section shows that no part of the condition can be left out. *)

From Stdlib Require Import ZArith Lia List Bool String Ascii.
From stdpp Require Import base option list.
From S2P Require Import Prelude GoString UsageBilling Pipeline JsonScan JsonText GoJson Decoded UsageExtract.
Import ListNotations.
Local Open Scope string_scope.
Local Open Scope Z_scope.

(** ** The lexed document

    Strings and keys as raw text, the first of several members with one key. *)

Definition json_get (j : json) (key : bytes) : option json := match j with JObj l => field l key | _ => None end.
Definition json_nested (j : json) : bool := match j with JArr _ | JObj _ => true | _ => false end.
Definition json_int (j : json) : Z :=
  match j with JNum t | JStr t => default 0 (ParseInt (string_of_list_ascii t)) | _ => 0 end.
Definition json_string (j : json) : option bytes := match j with JStr s => Some s | _ => None end.

#[global] Instance json_view : DocView json := {|
  dv_get := json_get; dv_nested := json_nested; dv_int := json_int; dv_string := json_string
|}.

(** ** Corresponding views *)

(** The strings the extraction tells apart. *)
Definition frame_names : list bytes := map bs ["message_start"; "message_delta"; "response.completed"].

Definition same_text (a b : option bytes) : Prop :=
  a = b \/ exists s t, a = Some s /\ b = Some t /\ (s ∉ frame_names) /\ (t ∉ frame_names).

(** [x] and [y] are views of one document: every question has the same answer. *)
Class ViewMorphism {D E : Type} `{DocView D} `{DocView E} (R : D -> E -> Prop) := {
  vm_get x y key : R x y -> option_Forall2 R (dv_get x key) (dv_get y key);
  vm_nested x y : R x y -> dv_nested x = dv_nested y;
  vm_int x y : R x y -> dv_int x = dv_int y;
  vm_string x y : R x y -> same_text (dv_string x) (dv_string y)
}.

(** *** The bytes of a document *)

(** The first byte tells what a value is. *)
Lemma num_head (c : ascii) (t : bytes) : Forall (fun c => num_char c = true) (c :: t) ->
  isWS c = false /\ Ascii.eqb c "{" = false /\ Ascii.eqb c quote = false /\ opens c = false.
Proof.
  intros H. apply Forall_cons in H as [Hc _]. destruct (num_char_plain c Hc) as (He & Hq & Ho & _). unfold ends_number in He. unfold opens in Ho |- *.
  rewrite !orb_false_iff in He. destruct He as (((Hw & _) & _) & _). destruct (Ascii.eqb c "{"); [discriminate Ho|]. now split_and!.
Qed.

Lemma scan_non_object (c : ascii) (raw key : bytes) : isWS c = false -> Ascii.eqb c "{" = false -> scanKeyValue (c :: raw) key = None.
Proof. intros Hw Hc. unfold scanKeyValue, skipSpace. cbn. rewrite Hw. unfold is_char. cbn. rewrite Hc. reflexivity. Qed.

Lemma bytes_get (j : json) (raw key : bytes) : prints j raw -> option_Forall2 (fun v j => prints j v) (dv_get raw key) (json_get j key).
Proof.
  intros H. change (dv_get raw key) with (match scanKeyValue raw key with Some (s, e) => Some (slice raw s e) | None => None end).
  destruct j as [| | |t|s|l|l]; cbn [json_get].
  - cbn in H. subst. constructor.
  - cbn in H. subst. constructor.
  - cbn in H. subst. constructor.
  - destruct H as (-> & Hne & Ht). destruct t as [|c t]; [contradiction|]. destruct (num_head c t Ht) as (Hw & Hc & _).
    rewrite scan_non_object by assumption. constructor.
  - destruct H as [-> _]. constructor.
  - destruct H as (inner & xs & -> & _). rewrite scan_non_object by reflexivity. constructor.
  - pose proof (prints_field l raw key H) as Hf. destruct (scanKeyValue raw key) as [[s e]|]; exact Hf.
Qed.

(** A text whose first byte is neither a digit nor a sign is no integer. *)
Lemma ParseInt_head (c : ascii) (l : bytes) : num_char c = false -> ParseInt (string_of_list_ascii (c :: l)) = None.
Proof. destruct c as [[] [] [] [] [] [] [] []]; intros H; (discriminate H || reflexivity). Qed.

Lemma scanIntValue_other (c : ascii) (l : bytes) : num_char c = false -> Ascii.eqb c quote = false -> scanIntValue (c :: l) = 0.
Proof. intros Hc Hq. unfold scanIntValue. rewrite Hq, ParseInt_head by exact Hc. reflexivity. Qed.

Lemma bytes_int (j : json) (raw : bytes) : prints j raw -> scanIntValue raw = json_int j.
Proof.
  intros H. destruct j as [| | |t|s|l|l]; cbn [prints json_int] in *; [subst; reflexivity..| | | |].
  - destruct H as (-> & Hne & Ht). destruct t as [|c t]; [contradiction|]. destruct (num_head c t Ht) as (_ & _ & Hq & _).
    unfold scanIntValue. rewrite Hq. reflexivity.
  - destruct H as [-> Hs]. unfold scanIntValue. rewrite Ascii.eqb_refl.
    pose proof (parseJSONString_app [] s [] Hs) as E. cbn [app List.length] in E. rewrite E. reflexivity.
  - destruct H as (inner & xs & -> & _). apply scanIntValue_other; reflexivity.
  - destruct H as (inner & ms & -> & _). apply scanIntValue_other; reflexivity.
Qed.

Lemma bytes_nested (j : json) (raw : bytes) : prints j raw -> nested_value raw = json_nested j.
Proof.
  intros H. destruct j as [| | |t|s|l|l]; cbn [prints json_nested] in *; [subst; reflexivity..| | | |].
  - destruct H as (-> & Hne & Ht). destruct t as [|c t]; [contradiction|]. apply num_head in Ht. apply Ht.
  - destruct H as [-> _]. reflexivity.
  - destruct H as (inner & xs & -> & _). reflexivity.
  - destruct H as (inner & ms & -> & _). reflexivity.
Qed.

Lemma quoted_other (c : ascii) (l : bytes) : Ascii.eqb c quote = false -> quoted (c :: l) = None.
Proof. intros Hc. unfold quoted. unfold is_char at 1. cbn [lookup list_lookup]. rewrite Hc. cbn [negb]. rewrite orb_true_r. reflexivity. Qed.

Lemma bytes_string (j : json) (raw : bytes) : prints j raw -> quoted raw = json_string j.
Proof.
  intros H. destruct j as [| | |t|s|l|l]; cbn [prints json_string] in *; [subst; reflexivity..| | | |].
  - destruct H as (-> & Hne & Ht). destruct t as [|c t]; [contradiction|]. apply quoted_other. apply num_head in Ht. apply Ht.
  - destruct H as [-> Hs]. unfold quoted. cbn [List.length]. rewrite length_app. cbn [List.length].
    replace (S (List.length s + 1)) with (List.length s + 2)%nat by lia.
    rewrite (proj2 (Nat.ltb_ge _ _)) by lia. replace (List.length s + 2 - 1)%nat with (List.length (quote :: s)) by (cbn; lia).
    change (quote :: s ++ [quote])%list with ((quote :: s) ++ [quote])%list at 2. rewrite is_char_at.
    change (is_char _ 0 quote) with true. change (Ascii.eqb quote quote) with true. cbn [negb orb]. f_equal. exact (slice_app [quote] s [quote]).
  - destruct H as (inner & xs & -> & _). apply quoted_other. reflexivity.
  - destruct H as (inner & ms & -> & _). apply quoted_other. reflexivity.
Qed.

Definition text_of (raw : bytes) (j : json) : Prop := prints j raw.

#[global] Instance text_morphism : ViewMorphism text_of.
Proof.
  split; unfold text_of; intros x y.
  - intros key. exact (bytes_get y x key).
  - exact (bytes_nested y x).
  - exact (bytes_int y x).
  - intros H. left. exact (bytes_string y x H).
Qed.

(** *** The decoded document *)

#[global] Instance doc_view : DocView doc := {|
  dv_get := doc_get;
  dv_nested d := match d with DArr _ | DObj _ => true | _ => false end;
  dv_int d := match d with DNum t | DStr t => default 0 (ParseInt (string_of_list_ascii t)) | _ => 0 end;
  dv_string d := match d with DStr s => Some s | _ => None end
|}.

Definition integer_text (s : bytes) : bool := isSome (ParseInt (string_of_list_ascii s)).
Definition frame_name (s : bytes) : bool := existsb (beq s) frame_names.

(** A string is written as it is read, or it is neither a number nor a name of a
    frame in either form. *)
Definition steady (s : bytes) : bool :=
  beq (unquoted s) s || negb (integer_text s || integer_text (unquoted s) || frame_name s || frame_name (unquoted s)).

Fixpoint steady_strings (j : json) : bool :=
  match j with
  | JStr s => steady s
  | JObj l => forallb (fun kv => steady_strings kv.2) l
  | _ => true
  end.

Definition plain_frame (j : json) : bool := plain_members j && steady_strings j.

Definition read_as (j : json) (d : doc) : Prop := plain_frame j = true /\ d = decoded j.

Lemma not_frame_name (s : bytes) : frame_name s = false -> s ∉ frame_names.
Proof.
  intros H Hin. apply not_true_iff_false in H. apply H. unfold frame_name. apply existsb_exists. exists s.
  split; [apply list_elem_of_In, Hin|apply beq_self].
Qed.

Lemma steady_cases (s : bytes) : steady s = true -> unquoted s = s \/
  (ParseInt (string_of_list_ascii s) = None /\ ParseInt (string_of_list_ascii (unquoted s)) = None /\ (s ∉ frame_names) /\ (unquoted s ∉ frame_names)).
Proof.
  unfold steady. intros H. apply orb_prop in H as [H|H]; [left; apply beq_true, H|right]. apply negb_true_iff in H.
  rewrite !orb_false_iff in H. destruct H as (((H1 & H2) & H3) & H4). unfold integer_text in H1, H2.
  destruct (ParseInt (string_of_list_ascii s)); [discriminate|]. destruct (ParseInt (string_of_list_ascii (unquoted s))); [discriminate|].
  auto using not_frame_name.
Qed.

#[global] Instance decoded_morphism : ViewMorphism read_as.
Proof.
  split; intros j d.
  - intros key [Hp ->]. unfold plain_frame in Hp. apply andb_prop in Hp as [Hm Hs].
    destruct j as [| | |t|s|l|l]; try constructor. cbn [dv_get json_view doc_view json_get decoded doc_get].
    pose proof Hm as Hk. cbn [plain_members] in Hk. apply andb_prop in Hk as [Hk _]. rewrite plain_field by exact Hk.
    destruct (field l key) as [x|] eqn:E; constructor. split; [|reflexivity]. unfold plain_frame.
    rewrite (plain_members_field l key x Hm E). cbn [steady_strings] in Hs. rewrite forallb_forall in Hs.
    destruct (field_in _ _ _ E) as [k Hin]. exact (Hs _ Hin).
  - intros [_ ->]. destruct j; reflexivity.
  - intros [Hp ->]. destruct j as [| | |t|s|l|l]; try reflexivity. cbn [dv_int json_view doc_view json_int decoded].
    unfold plain_frame in Hp. apply andb_prop in Hp as [_ Hs]. destruct (steady_cases s Hs) as [->|(-> & -> & _)]; reflexivity.
  - intros [Hp ->]. destruct j as [| | |t|s|l|l]; try (left; reflexivity). cbn [dv_string json_view doc_view json_string decoded].
    unfold plain_frame in Hp. apply andb_prop in Hp as [_ Hs]. destruct (steady_cases s Hs) as [->|(_ & _ & H1 & H2)]; [left; reflexivity|].
    right. eauto 10.
Qed.

(** ** Extraction respects correspondence *)

Section Morphism.
Context {D E : Type} `{VD : DocView D} `{VE : DocView E} {R : D -> E -> Prop} `{M : !ViewMorphism R}.

Lemma scanFieldInt64_morph x y key : R x y -> scanFieldInt64 x key = scanFieldInt64 y key.
Proof. intros H. unfold scanFieldInt64. destruct (vm_get x y (bs key) H) as [u v Huv|]; [exact (vm_int u v Huv)|reflexivity]. Qed.

Lemma has_key_morph x y key : R x y -> has_key x key = has_key y key.
Proof. intros H. unfold has_key. destruct (vm_get x y (bs key) H); reflexivity. Qed.

Lemma usageInterval_morph x y key : R x y -> option_Forall2 R (usageInterval x key) (usageInterval y key).
Proof.
  intros H. unfold usageInterval. destruct (vm_get x y (bs key) H) as [u v Huv|]; [|constructor].
  rewrite (vm_nested u v Huv). destruct (dv_nested v); constructor. exact Huv.
Qed.

Lemma first_positive_morph x y keys : R x y -> first_positive x keys = first_positive y keys.
Proof. intros H. induction keys as [|k keys IH]; cbn; [reflexivity|]. rewrite IH, (scanFieldInt64_morph x y k H). reflexivity. Qed.

Lemma or_field_morph n x y key : R x y -> or_field n x key = or_field n y key.
Proof. intros H. unfold or_field. rewrite (scanFieldInt64_morph x y key H). reflexivity. Qed.

(** One question after another is answered alike. *)
Ltac ask :=
  repeat match goal with
  | H : R ?x ?y |- context [scanFieldInt64 ?x ?k] => rewrite (scanFieldInt64_morph x y k H)
  | H : R ?x ?y |- context [has_key ?x ?k] => rewrite (has_key_morph x y k H)
  | H : R ?x ?y |- context [first_positive ?x ?k] => rewrite (first_positive_morph x y k H)
  | H : R ?x ?y |- context [or_field ?n ?x ?k] => rewrite (or_field_morph n x y k H)
  | H : R ?x ?y |- context [dv_nested ?x] => rewrite (vm_nested x y H)
  | H : R ?x ?y |- context [dv_int ?x] => rewrite (vm_int x y H)
  | H : R ?x ?y |- context [dv_get ?x ?k] =>
      let u := fresh "u" in let v := fresh "v" in let Huv := fresh "Huv" in destruct (vm_get x y k H) as [u v Huv|]
  | H : R ?x ?y |- context [usageInterval ?x ?k] =>
      let u := fresh "u" in let v := fresh "v" in let Huv := fresh "Huv" in destruct (usageInterval_morph x y k H) as [u v Huv|]
  end; try reflexivity.

Lemma cacheCreation_morph x y : R x y -> cacheCreationTokensFromInterval x = cacheCreationTokensFromInterval y.
Proof. intros H. unfold cacheCreationTokensFromInterval. ask. Qed.

Lemma usageFields_morph x y a b c : R x y -> usageFieldsFromInterval x a b c = usageFieldsFromInterval y a b c.
Proof. intros H. unfold usageFieldsFromInterval. rewrite (cacheCreation_morph x y H). ask. Qed.

Lemma responses_fields_morph x y : R x y -> responses_fields x = responses_fields y.
Proof. apply usageFields_morph. Qed.

Lemma chatStreamUsage_morph x y : R x y -> chatStreamUsage x = chatStreamUsage y.
Proof. intros H. unfold chatStreamUsage. ask. now rewrite (usageFields_morph u v) by assumption. Qed.

Lemma start_fields_morph x y : R x y -> start_fields x = start_fields y.
Proof. intros H. unfold start_fields. ask. Qed.

Lemma summary_morph x y : R x y -> anthropicSummaryUsageCompat x = anthropicSummaryUsageCompat y.
Proof. intros H. unfold anthropicSummaryUsageCompat. ask. cbn [existsb]. ask. Qed.

Lemma startUsage_morph x y : R x y -> anthropicStartUsage x = anthropicStartUsage y.
Proof. intros H. unfold anthropicStartUsage. ask. now rewrite (start_fields_morph _ _ Huv0). Qed.

Lemma startUsageCompat_morph x y : R x y -> anthropicStartUsageCompat x = anthropicStartUsageCompat y.
Proof.
  intros H. unfold anthropicStartUsageCompat. rewrite (startUsage_morph x y H). destruct (anthropicStartUsage y); [reflexivity|]. ask.
  rewrite (start_fields_morph _ _ Huv). ask.
Qed.

Lemma delta_field_morph x y key : R x y -> delta_field x key = delta_field y key.
Proof. intros H. unfold delta_field. ask. Qed.

Lemma deltaCompat_morph x y : R x y -> anthropicDeltaUsageCompat x = anthropicDeltaUsageCompat y.
Proof. intros H. unfold anthropicDeltaUsageCompat, anthropicDeltaUsage. now rewrite !(delta_field_morph x y) by exact H. Qed.

Lemma response_usage_morph x y : R x y -> option_Forall2 R (response_usage x) (response_usage y).
Proof. intros H. unfold response_usage. destruct (vm_get x y (bs "response") H); [apply usageInterval_morph; assumption|constructor]. Qed.

Lemma responsesStreamUsage_morph x y : R x y -> responsesStreamUsage x = responsesStreamUsage y.
Proof.
  intros H. unfold responsesStreamUsage, responsesCompletedUsage, responsesTopLevelUsage, responseUsageHasExplicitTotal,
    topLevelUsageHasExplicitTotal.
  destruct (response_usage_morph x y H) as [u v Huv|]; ask; now rewrite ?(responses_fields_morph _ _ Huv), ?(responses_fields_morph _ _ Huv0).
Qed.

Lemma frame_type_morph x y : R x y -> same_text (frame_type x) (frame_type y).
Proof. intros H. unfold frame_type. destruct (vm_get x y (bs "type") H) as [u v Huv|]; [exact (vm_string u v Huv)|left; reflexivity]. Qed.

(** Names of frames are told apart alike. *)
Lemma same_frame_name (a b : option bytes) (name : bytes) : same_text a b -> name ∈ frame_names ->
  match a with Some t => beq t name | None => false end = match b with Some t => beq t name | None => false end.
Proof.
  intros [->|(s & t & -> & -> & Hs & Ht)] Hn; [reflexivity|]. unfold beq. rewrite !bool_decide_eq_false_2; [reflexivity|intros ->; contradiction..].
Qed.

Lemma completedType_morph x y : R x y -> isResponsesCompletedType x = isResponsesCompletedType y.
Proof. intros H. unfold isResponsesCompletedType. apply same_frame_name; [exact (frame_type_morph x y H)|]. unfold frame_names. cbn [map]. rewrite !elem_of_cons. auto. Qed.

Lemma sniff_morph x y : R x y -> sniffResponsesCompletedTop x = sniffResponsesCompletedTop y.
Proof.
  intros H. unfold sniffResponsesCompletedTop. rewrite (completedType_morph x y H). destruct (negb _); [reflexivity|]. ask.
  now rewrite (responses_fields_morph _ _ Huv).
Qed.

Lemma event_name_morph e x y name : R x y -> name ∈ frame_names -> beq (usageStreamEventName e x) name = beq (usageStreamEventName e y) name.
Proof.
  intros H Hn. unfold usageStreamEventName. destruct (bs (TrimSpace _)); [|reflexivity]. pose proof (same_frame_name _ _ name (frame_type_morph x y H) Hn) as Hname.
  assert (beq [] name = false) as Hnil by (apply bool_decide_eq_false; intros <-; unfold frame_names in Hn; cbn [map] in Hn;
    rewrite !elem_of_cons, elem_of_nil in Hn; intuition discriminate).
  destruct (frame_type x), (frame_type y); cbn [default from_option]; rewrite ?Hnil; exact Hname.
Qed.

Lemma chatEvent_morph e x y : R x y -> chatStreamUsageEvent e x = chatStreamUsageEvent e y.
Proof.
  intros H. unfold chatStreamUsageEvent. cbv zeta.
  rewrite (event_name_morph e x y (bs "message_start") H), (event_name_morph e x y (bs "message_delta") H) by (unfold frame_names; cbn [map]; rewrite !elem_of_cons; auto).
  now rewrite (summary_morph x y H), (chatStreamUsage_morph x y H), (startUsageCompat_morph x y H), (deltaCompat_morph x y H).
Qed.
End Morphism.

(** C7: Metering reads what the document says.  On any text of a JSON document,
    whatever its white space, the usage tuples the gateway takes from a stream
    frame by scanning its bytes are those the same rules give on the decoded
    document: the Chat and Messages frames under any event name, the Responses
    frames, and the completed event with its type.  Strings that contain braces,
    quotes or the names of counters, and counters nested elsewhere, cannot change
    a bill.  The condition: keys are written without escapes and no object has one
    twice, and numbers in strings and names of frames are written without escapes. *)
Theorem metering_decoded (j : json) (raw event : bytes) : prints j raw -> plain_frame j = true ->
  chatStreamUsageEvent event raw = chatStreamUsageEvent event (decoded j) /\
  responsesStreamUsage raw = responsesStreamUsage (decoded j) /\
  sniffResponsesCompletedTop raw = sniffResponsesCompletedTop (decoded j).
Proof.
  intros H Hp. change (text_of raw j) in H. assert (read_as j (decoded j)) as Hd by (split; [exact Hp|reflexivity]). split_and!.
  - rewrite (chatEvent_morph event _ _ H). exact (chatEvent_morph event _ _ Hd).
  - rewrite (responsesStreamUsage_morph _ _ H). exact (responsesStreamUsage_morph _ _ Hd).
  - rewrite (sniff_morph _ _ H). exact (sniff_morph _ _ Hd).
Qed.

(** A frame whose identifier and text need escapes. *)
Definition frame_usage : json :=
  JObj [(bs "id", JStr (bs "chatcmpl-{usage}\n"));
        (bs "usage", JObj [(bs "prompt_tokens", JNum (bs "120")); (bs "completion_tokens", JStr (bs "30"));
                           (bs "prompt_tokens_details", JObj [(bs "cached_tokens", JNum (bs "100"))])])].

Lemma metering_decoded_witness :
  chatStreamUsageEvent [] (render frame_usage) = chatStreamUsageEvent [] (decoded frame_usage) /\
  responsesStreamUsage (render frame_usage) = responsesStreamUsage (decoded frame_usage) /\
  sniffResponsesCompletedTop (render frame_usage) = sniffResponsesCompletedTop (decoded frame_usage).
Proof.
  apply (metering_decoded frame_usage (render frame_usage) []); [|vm_compute; reflexivity]. apply prints_render. unfold frame_usage.
  repeat first [apply sb_esc | constructor | discriminate].
Defined.

(** ** What the condition excludes

    The frames below are texts of documents; what the scanner reads and what the
    decoded document says differ.  An escaped key is not found, of two members
    with one key the scanner takes the first, and a number in a string is not
    read when it is written with an escape. *)

Definition usage_of_member (members : list (bytes * json)) : json := JObj [(bs "usage", JObj members)].
Definition input_read {D} `{DocView D} (d : D) : option Z := u_it <$> chatStreamUsageEvent [] d.

Theorem escapes_and_duplicates_misread :
  let escaped := usage_of_member [(bs "prompt_token\u0073", JNum (bs "5")); (bs "completion_tokens", JNum (bs "1"))] in
  let twice := usage_of_member [(bs "prompt_tokens", JNum (bs "5")); (bs "prompt_tokens", JNum (bs "7"))] in
  let text := usage_of_member [(bs "prompt_tokens", JStr (bs "\u0035")); (bs "completion_tokens", JNum (bs "1"))] in
  (input_read (render escaped) = Some 0 /\ input_read (decoded escaped) = Some 5) /\
  (input_read (render twice) = Some 5 /\ input_read (decoded twice) = Some 7) /\
  (input_read (render text) = Some 0 /\ input_read (decoded text) = Some 5).
Proof. vm_compute. split_and!; reflexivity. Qed.

Example frame_usage_billed : chatStreamUsageEvent [] (render frame_usage) = Some (no_flags 20 30 150 100 0).
Proof. vm_compute. reflexivity. Qed.

(** ** What the cache deduction leaves *)

Lemma deductCacheRead_cases (it cr : Z) : int64 it -> int64 cr ->
  deductCacheRead it cr = if cr <=? 0 then it else Z.max 0 (it - cr).
Proof.
  intros Hi Hc. unfold deductCacheRead. destruct (Z.leb_spec cr 0); [reflexivity|]. destruct (Z.leb_spec it cr); [lia|].
  rewrite sub64_small by (unfold int64 in *; unfold_int; lia). lia.
Qed.

Lemma ParseInt_int64 (s : string) (n : Z) : ParseInt s = Some n -> int64 n.
Proof.
  unfold ParseInt. destruct (scan_sign s) as [sg s2]. destruct s2 as [|c s2]; [discriminate|]. destruct (is_digit c); [|discriminate].
  destruct (scan_digits 0 (String c s2)) as [v rest]. destruct rest; [|discriminate]. destruct (_ && _) eqn:E; [|discriminate]. intros [= <-].
  unfold int64. unfold_int. lia.
Qed.

Lemma scanIntValue_int64 (raw : bytes) : int64 (scanIntValue raw).
Proof.
  assert (forall s, int64 (default 0 (ParseInt s))) as H.
  { intros s. destruct (ParseInt s) as [n|] eqn:E; [exact (ParseInt_int64 s n E)|]. unfold int64. unfold_int. cbn. lia. }
  unfold scanIntValue. destruct raw as [|c raw]; [exact (H EmptyString)|]. destruct (Ascii.eqb c quote); [|apply H].
  destruct (parseJSONString _ _) as [[v e]|]; [apply H|exact (H EmptyString)].
Qed.

Lemma field_int64 (raw : bytes) (key : string) : int64 (scanFieldInt64 raw key).
Proof. unfold scanFieldInt64. destruct (dv_get raw (bs key)) as [v|]; [apply scanIntValue_int64|]. unfold int64. unfold_int. lia. Qed.

Lemma first_positive_int64 (raw : bytes) (keys : list string) : int64 (first_positive raw keys) /\ 0 <= first_positive raw keys.
Proof.
  induction keys as [|k keys IH]; cbn; [unfold int64; unfold_int; lia|]. destruct (Z.ltb_spec 0 (scanFieldInt64 raw k)); [|exact IH].
  split; [apply field_int64|lia].
Qed.

(** The deduction moves tokens between prices and invents none.  Whatever
    bytes a usage object has: with [it] and [cr] the input and cache counters
    read from it, the billable input and the cache reads together are the input
    when the counters are consistent (0 <= cr <= it), and never less than it; the
    billable input is not negative when the input is not; and the total is the
    provider's total, or input plus output before the deduction when there is
    none. *)
Theorem cache_deduction_conserves (raw : bytes) (itKey otKey crKey : string) :
  let it := scanFieldInt64 raw itKey in
  let u := usageFieldsFromInterval raw itKey otKey crKey in
  (0 <= u_cr u <= it -> u_it u + u_cr u = it) /\
  (0 <= u_cr u -> it <= u_it u + u_cr u) /\
  (0 <= it -> 0 <= u_it u <= it) /\
  u_tt u = (let tt := scanFieldInt64 raw "total_tokens" in if tt <=? 0 then addUsageTokens it (u_ot u) else tt).
Proof.
  unfold usageFieldsFromInterval. cbv zeta. cbn [no_flags u_it u_ot u_tt u_cr u_cc].
  set (cr := if _ <=? 0 then _ else _).
  assert (int64 cr) as Hcr.
  { unfold cr. destruct (first_positive_int64 raw ["cache_read_input_tokens"; "cache_read_tokens"]) as [Hf _].
    assert (int64 (match dv_get raw (bs crKey) with Some d => scanFieldInt64 d "cached_tokens" | None => 0 end)) as Hd
      by (destruct (dv_get raw (bs crKey)); [apply field_int64|unfold int64; unfold_int; lia]).
    destruct (_ <=? 0); [destruct (0 <? _)|]; assumption. }
  pose proof (deductCacheRead_cases (scanFieldInt64 raw itKey) cr (field_int64 raw itKey) Hcr) as ->.
  destruct (Z.leb_spec cr 0); split_and!; try reflexivity; lia.
Qed.

Lemma cache_deduction_conserves_witness :
  let raw := render (JObj [(bs "prompt_tokens", JNum (bs "120")); (bs "cache_read_tokens", JStr (bs "100"))]) in
  u_it (usageFieldsFromInterval raw "prompt_tokens" "completion_tokens" "prompt_tokens_details") + 100 = 120.
Proof.
  exact (proj1 (cache_deduction_conserves
    (render (JObj [(bs "prompt_tokens", JNum (bs "120")); (bs "cache_read_tokens", JStr (bs "100"))]))
    "prompt_tokens" "completion_tokens" "prompt_tokens_details") ltac:(vm_compute; split; discriminate)).
Defined.

(** *** Anthropic-shaped usage on a Chat response *)

Definition anthropic_shaped : json :=
  JObj [(bs "input_tokens", JNum (bs "100")); (bs "output_tokens", JNum (bs "10")); (bs "cache_read_input_tokens", JNum (bs "80"))].

(** [gjson.Get(raw, path).Int()] on that object: its fields are counters, so a
    dotted path leads nowhere. *)
Definition shaped_int (_ path : string) : option Z := json_int <$> json_get anthropic_shaped (bs path).

(** An Anthropic-shaped usage object, whose input does not contain the cache
    reads, is billed whole when the response is streamed and loses the cache
    reads when it comes in one piece. *)
Theorem anthropic_shape_diverges :
  let sdk := mkSdkUsage "usage" 0 0 0 0 0 in
  u_it (chatUsageFromResponse shaped_int sdk) = 20 /\
  (match chatStreamUsageEvent [] (render (JObj [(bs "usage", anthropic_shaped)])) with Some t => u_it t | None => 0 end) = 100.
Proof. split; vm_compute; reflexivity. Qed.

(** ** Images *)

Definition generated (tv : ToolView) : bool := beq (tv_Type tv) (bs "image_generation_call") && imageResultNonEmpty (tv_Result tv).

(** The generated images of an output, those without an identifier, and the
    identifiers of the others. *)
Definition images (raw : bytes) : list ToolView := List.filter generated (scanTools raw).
Definition anonymous (l : list ToolView) : list ToolView := List.filter (fun tv => beq (tv_ID tv) []) l.
Definition image_ids (l : list ToolView) : list bytes := List.filter (fun id => negb (beq id [])) (map tv_ID l).

(** The counter without machine arithmetic, on images only. *)
Fixpoint tally (l : list ToolView) (seen : list bytes) : nat :=
  match l with
  | [] => 0
  | tv :: l =>
      match tv_ID tv with
      | [] => S (tally l seen)
      | id => if existsb (beq id) seen then tally l seen
              else S (tally l (if (List.length seen <? 16)%nat then seen ++ [id] else seen)%list)
      end
  end.

Lemma count_item_tally (l : list ToolView) : forall c seen, 0 <= c -> c + Z.of_nat (List.length l) <= max64 ->
  (fold_left count_item l (c, seen)).1 = c + Z.of_nat (tally (List.filter generated l) seen).
Proof.
  induction l as [|tv l IH]; intros c seen Hc Hl; cbn [fold_left List.filter]; [cbn; lia|]. cbn [List.length] in Hl.
  unfold count_item at 2, generated at 1. cbv zeta beta iota. destruct (beq (tv_Type tv) _); cbn [negb andb]; [|apply IH; lia].
  destruct (imageResultNonEmpty _); cbn [negb]; [|apply IH; lia]. cbn [tally].
  assert (c [+] 1 = c + 1) as Ec by (apply add64_small; unfold int64, max64, min64 in *; lia).
  destruct (tv_ID tv) as [|x id]; [rewrite IH by (rewrite ?Ec; lia); rewrite Ec; lia|].
  destruct (existsb _ seen); [apply IH; lia|]. rewrite IH by (rewrite ?Ec; lia). rewrite Ec. lia.
Qed.

(** Identifiers not seen before, each once. *)
Definition fresh (seen ids : list bytes) : list bytes := remove_dups (base.filter (fun id => id ∉ seen) ids).

Lemma elem_of_fresh (seen ids : list bytes) (x : bytes) : x ∈ fresh seen ids <-> (x ∉ seen) /\ (x ∈ ids).
Proof. unfold fresh. rewrite elem_of_remove_dups, list_elem_of_filter. reflexivity. Qed.

Lemma fresh_NoDup (seen ids : list bytes) : NoDup (fresh seen ids).
Proof. apply NoDup_remove_dups. Qed.

Lemma fresh_new (seen ids : list bytes) (id : bytes) : id ∉ seen ->
  List.length (fresh seen (id :: ids)) = S (List.length (fresh (seen ++ [id]) ids)).
Proof.
  intros Hid. change (S (List.length (fresh (seen ++ [id]) ids))) with (List.length (id :: fresh (seen ++ [id]) ids)).
  apply Permutation_length, NoDup_Permutation; [apply fresh_NoDup| |].
  - apply NoDup_cons. split; [|apply fresh_NoDup]. rewrite elem_of_fresh, elem_of_app. intros [H _]. apply H. right. constructor.
  - intros x. rewrite elem_of_cons, !elem_of_fresh, elem_of_app, elem_of_cons, list_elem_of_singleton.
    destruct (decide (x = id)) as [->|Hne]; naive_solver.
Qed.

Lemma fresh_old (seen ids : list bytes) (id : bytes) : id ∈ seen -> fresh seen (id :: ids) = fresh seen ids.
Proof. intros Hid. unfold fresh. rewrite filter_cons_False by (intros H; exact (H Hid)). reflexivity. Qed.

Lemma fresh_more (seen ids : list bytes) (id : bytes) : (List.length (fresh (seen ++ [id]) ids) <= List.length (fresh seen ids))%nat.
Proof.
  apply submseteq_length, NoDup_submseteq; [apply fresh_NoDup|]. intros x. rewrite !elem_of_fresh, elem_of_app. naive_solver.
Qed.

Lemma tally_bounds (l : list ToolView) : forall seen,
  let distinct := List.length (fresh seen (image_ids l)) in
  (List.length (anonymous l) + distinct <= tally l seen <= List.length l)%nat /\
  ((List.length seen + distinct <= 16)%nat -> tally l seen = (List.length (anonymous l) + distinct)%nat).
Proof.
  induction l as [|tv l IH]; intros seen; cbv zeta; [cbn; lia|]. unfold image_ids, anonymous in *. cbn [tally List.filter map List.length].
  destruct (tv_ID tv) as [|x id].
  - change (beq [] []) with true. cbn [negb List.length]. specialize (IH seen). cbv zeta in IH. lia.
  - change (beq (x :: id) []) with false. cbn [negb]. set (i := x :: id). set (ids := List.filter _ (map tv_ID l)).
    destruct (existsb (beq i) seen) eqn:E.
    + apply existsb_exists in E as (y & Hy & Ey). unfold beq in Ey. apply bool_decide_eq_true in Ey. subst y.
      rewrite fresh_old by (apply list_elem_of_In, Hy). specialize (IH seen). cbv zeta in IH. fold ids in IH. lia.
    + assert (i ∉ seen) as Hi.
      { intros H. apply list_elem_of_In in H. enough (existsb (beq i) seen = true) by congruence. apply existsb_exists. exists i.
        split; [exact H|]. unfold beq. apply bool_decide_eq_true. reflexivity. }
      rewrite (fresh_new seen ids i Hi). pose proof (fresh_more seen ids i). destruct (Nat.ltb_spec (List.length seen) 16).
      * specialize (IH (seen ++ [i])%list). cbv zeta in IH. fold ids in IH. rewrite length_app in IH. cbn [List.length] in IH. unfold bytes in *. lia.
      * specialize (IH seen). cbv zeta in IH. fold ids in IH. lia.
Qed.

(** The image counter: with at most sixteen different identifiers it counts
    every identifier once and every image without one; with more it never counts
    fewer, and never more than the images in the output. *)
Theorem images_counted_once (raw : bytes) : is_char raw 0 "[" = true -> Z.of_nat (List.length (scanTools raw)) <= max64 ->
  let l := images raw in
  let distinct := List.length (remove_dups (image_ids l)) in
  Z.of_nat (List.length (anonymous l) + distinct) <= countImageItems raw <= Z.of_nat (List.length l) /\
  ((distinct <= 16)%nat -> countImageItems raw = Z.of_nat (List.length (anonymous l) + distinct)).
Proof.
  intros Hraw Hl. cbv zeta. unfold countImageItems. rewrite Hraw, count_item_tally by lia. fold (images raw).
  pose proof (tally_bounds (images raw) []) as H. cbv zeta in H.
  assert (fresh [] (image_ids (images raw)) = remove_dups (image_ids (images raw))) as E.
  { clear. unfold fresh. f_equal. induction (image_ids (images raw)) as [|x ids IH]; [reflexivity|].
    rewrite filter_cons, decide_True by apply not_elem_of_nil. f_equal. exact IH. }
  rewrite E in H. cbn [List.length] in H. lia.
Qed.

Definition two_images : bytes :=
  let item (id : string) := JObj [(bs "type", JStr (bs "image_generation_call")); (bs "id", JStr (bs id)); (bs "result", JStr (bs "aGk="))] in
  render (JArr [item "ig_1"; item "ig_2"; item "ig_1"; JObj [(bs "type", JStr (bs "message"))]]).

Lemma images_counted_once_witness : countImageItems two_images = 2.
Proof.
  rewrite (proj2 (images_counted_once two_images eq_refl ltac:(vm_compute; discriminate)) ltac:(vm_compute; lia)).
  vm_compute. reflexivity.
Defined.
