(* ===== verification/StripTools.v ===== *)
(** * Stripping image tools from a request ([internal/proxy/strip_image.go])

    The image tools are cut out of the bytes of a request: the value of [tools]
    is replaced or its member deleted, a [tool_choice] that points at a tool that
    is gone is deleted.  A slice of Go panics when its bounds are out of order, so
    the rewriting returns an option, with [None] for a panic. *)

From Stdlib Require Import ZArith Lia List Bool String Ascii Sorted.
From stdpp Require Import base option list.
From S2P Require Import Prelude GoString JsonScan JsonText.
Import ListNotations.
Local Open Scope nat_scope.
Local Open Scope list_scope.

(** ** The tools *)

Definition typeImageGenTool : bytes := bs "image_generation_tool".
Definition typeImageEdits : bytes := bs "image_edits".
Definition typeNamespace : bytes := bs "namespace".
Definition nameImageGen : bytes := bs "image_gen".

Definition isImageToolView (t : ToolView) : bool :=
  if beq (tv_Type t) typeImageGenTool || beq (tv_Type t) typeImageEdits then true
  else if beq (tv_Type t) typeNamespace then
    beq (match tv_Namespace t with [] => tv_Name t | ns => ns end) nameImageGen
  else false.

Definition nonempty (v : bytes) : list bytes := match v with [] => [] | _ => [v] end.

Definition collectToolIDs (t : ToolView) (ids : list bytes) : list bytes :=
  ids ++ nonempty (tv_Type t) ++ nonempty (tv_Name t) ++ nonempty (tv_Namespace t).

Definition toolChoiceDangles (tc : bytes) (ids : list bytes) : bool :=
  if negb (is_char tc 0 "{") then false
  else
    let tv := extractKeys tc (raw_view []) in
    existsb (fun v => negb (beq v []) && existsb (beq v) ids) [tv_Type tv; tv_Name tv; tv_Namespace tv].

(** One pass over the tools: the raw bytes of those kept, the identifiers of
    those stripped, and how many were stripped. *)
Definition sort_tool (st : list bytes * list bytes * nat) (t : ToolView) : list bytes * list bytes * nat :=
  let '(kept, ids, nStripped) := st in
  if isImageToolView t then (kept, collectToolIDs t ids, S nStripped) else (kept ++ [tv_Raw t], ids, nStripped).

(** ** Edits *)

Inductive editKind := editDelete | editReplaceTools.
Record bodyEdit := mkEdit { e_start : nat; e_end : nat; e_kind : editKind }.

(** [b[i:j]]. *)
Definition go_slice (b : bytes) (i j : nat) : option bytes := if (i <=? j) && (j <=? List.length b) then Some (slice b i j) else None.

(** The edit of a run of deleted members, from its first to its last. *)
Definition run_edit (first last : topLevelRange) : bodyEdit :=
  let start := match r_commaBefore first with Some c => c | None => r_keyStart first end in
  let end_ := match r_commaAfter last with
              | Some c => if start =? r_keyStart first then S c else r_valEnd last
              | None => r_valEnd last
              end in
  mkEdit start end_ editDelete.

(** Adjacent members share their comma and are deleted in one run. *)
Fixpoint run_edits (first last : topLevelRange) (dels : list topLevelRange) : list bodyEdit :=
  match dels with
  | [] => [run_edit first last]
  | d :: dels =>
      if bool_decide (r_commaBefore d = r_commaAfter last) then run_edits first d dels
      else run_edit first last :: run_edits d d dels
  end.

Definition delete_edits (dels : list topLevelRange) : list bodyEdit :=
  match dels with [] => [] | d :: dels => run_edits d d dels end.

(** The (at most two) keys to delete in the order of the body. *)
Definition order_dels (dels : list topLevelRange) : list topLevelRange :=
  match dels with [a; b] => if r_keyStart b <? r_keyStart a then [b; a] else [a; b] | _ => dels end.

(** The insertion sort of the edits by their start. *)
Fixpoint insert_edit (e : bodyEdit) (l : list bodyEdit) : list bodyEdit :=
  match l with [] => [e] | x :: l => if e_start e <? e_start x then e :: x :: l else x :: insert_edit e l end.
Definition sort_edits (l : list bodyEdit) : list bodyEdit := fold_left (fun acc e => insert_edit e acc) l [].

Definition tools_text (kept : list bytes) : bytes := "["%char :: commas kept ++ ["]"%char].

(** The output: what is between the edits, with the new tools in their place. *)
Fixpoint splice (body : bytes) (kept : list bytes) (prev : nat) (edits : list bodyEdit) : option bytes :=
  match edits with
  | [] => go_slice body prev (List.length body)
  | e :: edits =>
      pre ← go_slice body prev (e_start e);
      rest ← splice body kept (e_end e) edits;
      Some (pre ++ (match e_kind e with editReplaceTools => tools_text kept | editDelete => [] end) ++ rest)
  end.

(** The capacity of the output buffer. *)
Definition out_len (body : bytes) (kept : list bytes) (edits : list bodyEdit) : Z :=
  let cut := fold_left (fun n e => n - (Z.of_nat (e_end e) - Z.of_nat (e_start e)))%Z edits (Z.of_nat (List.length body)) in
  let sumLen := fold_left (fun n r => n + Z.of_nat (List.length r))%Z kept 0%Z in
  (if (0 <? List.length kept)%nat then cut + (2 + sumLen + Z.of_nat (List.length kept) - 1) else cut)%Z.

(** The edits for given ranges: tools replaced or deleted, a dangling choice
    deleted. *)
Definition strip_edits (tools : topLevelRange) (choice : option topLevelRange) (kept : list bytes) : list bodyEdit :=
  let dels := (match kept with [] => [tools] | _ => [] end) ++ (match choice with Some c => [c] | None => [] end) in
  let replace := match kept with [] => [] | _ => [mkEdit (r_valStart tools) (r_valEnd tools) editReplaceTools] end in
  sort_edits (delete_edits (order_dels dels) ++ replace).

(** [stripImageTools]; [None] is a panic. *)
Definition stripImageTools (body : bytes) : option bytes :=
  if negb (bytes_contains body (bs "image")) then Some body
  else
    match scanTopLevelKeys body with
    | (None, _) => Some body
    | (Some tools, toolChoice) =>
        toolsRaw ← go_slice body (r_valStart tools) (r_valEnd tools);
        if negb (is_char toolsRaw 0 "[") then Some body
        else
          let '(kept, ids, nStripped) := fold_left sort_tool (scanTools toolsRaw) ([], [], 0) in
          if nStripped =? 0 then Some body
          else
            choice ← match toolChoice with
                     | None => Some None
                     | Some r => tc ← go_slice body (r_valStart r) (r_valEnd r);
                                 Some (if toolChoiceDangles tc ids then Some r else None)
                     end;
            let edits := strip_edits tools choice kept in
            if (out_len body kept edits <? 0)%Z then None else splice body kept 0 edits
    end.

(** The known shapes. *)
Definition frame (tools rest : string) : bytes :=
  map (fun c => if Ascii.eqb c "'" then quote else c) (bs ("{'model':'m','tools':[" ++ tools ++ "]" ++ rest ++ "}")).

Example strip_all : stripImageTools (frame "{'type':'image_edits'}" ",'tool_choice':{'type':'image_edits'}") =
  Some (map (fun c => if Ascii.eqb c "'" then quote else c) (bs "{'model':'m'}")).
Proof. vm_compute. reflexivity. Qed.

Example strip_some : stripImageTools (frame "{'type':'namespace','name':'image_gen'}, {'type':'x'}" " ,'a':1") =
  Some (frame "{'type':'x'}" " ,'a':1").
Proof. vm_compute. reflexivity. Qed.

(** ** Ranges *)

Definition comma_after (b : bytes) (e : nat) : option nat := let t := skipSpace b e in if is_char b t "," then Some t else None.

Definition range_of (b : bytes) (v : Visit) : topLevelRange :=
  mkRange (vi_start v) (vi_vs v) (vi_ve v) (vi_comma v) (comma_after b (vi_ve v)).

(** The range of the last visit of a key. *)
Definition last_range (b key : bytes) (vs : list Visit) (init : option topLevelRange) : option topLevelRange :=
  fold_left (fun acc v => if beq (vi_key v) key then Some (range_of b v) else acc) vs init.

Lemma top_level_walk (b : bytes) (fuel : nat) : forall i comma T C,
  top_level fuel b i comma T C =
  (last_range b toolsKey (walk fuel b i comma).1 T, last_range b toolChoiceKey (walk fuel b i comma).1 C).
Proof.
  induction fuel as [|fuel IH]; intros i comma T C; cbn [top_level walk]; [reflexivity|]. cbv zeta.
  destruct (b !! skipSpace b i) as [c|]; [|reflexivity]. destruct (Ascii.eqb c "}"); [reflexivity|].
  destruct (Ascii.eqb c ","); [apply IH|]. destruct (Ascii.eqb c quote); [|reflexivity].
  destruct (read_member b _) as [[[k vs] ve]|]; [|reflexivity].
  pose proof (fun T C => IH ve None T C) as H. destruct (walk fuel b ve None) as [rest ok]. cbn [fst] in H |- *.
  unfold last_range in *. cbn [fold_left vi_key]. unfold range_of at 2 4. cbn [vi_start vi_vs vi_ve vi_comma]. unfold comma_after.
  destruct (beq k toolsKey) eqn:E1; [|destruct (beq k toolChoiceKey) eqn:E2; apply H].
  rewrite H. unfold beq in E1 |- *. apply bool_decide_eq_true in E1. subst k. reflexivity.
Qed.

Lemma last_range_in (b key : bytes) (vs : list Visit) (r : topLevelRange) : forall init, last_range b key vs init = Some r -> init = Some r \/
  exists v, v ∈ vs /\ vi_key v = key /\ r = range_of b v.
Proof.
  unfold last_range. induction vs as [|v vs IH]; intros init H; [left; exact H|]. cbn [fold_left] in H. apply IH in H as [H|(x & Hx & Hk & Hr)].
  - destruct (beq (vi_key v) key) eqn:E; [|left; exact H]. injection H as <-. right. exists v. split; [left|]. split; [|reflexivity].
    unfold beq in E. apply bool_decide_eq_true in E. exact E.
  - right. exists x. split; [right; exact Hx|]. auto.
Qed.

(** Ranges in a body of length [n], and one range in front of another. *)
Definition range_ok (n : nat) (r : topLevelRange) : Prop :=
  r_keyStart r < r_valStart r <= r_valEnd r /\ r_valEnd r <= n /\
  (forall c, r_commaBefore r = Some c -> c < r_keyStart r) /\ (forall t, r_commaAfter r = Some t -> r_valEnd r <= t < n).

Definition range_before (r1 r2 : topLevelRange) : Prop :=
  r_valEnd r1 <= r_keyStart r2 /\ (forall c, r_commaBefore r2 = Some c -> r_valEnd r1 <= c) /\
  (forall t, r_commaAfter r1 = Some t -> t < r_keyStart r2 /\ forall c, r_commaBefore r2 = Some c -> t <= c).

Lemma skip_nested_bound (b : bytes) (f : nat) : forall i d e, skip_nested f b i d = Some e -> e <= List.length b.
Proof.
  induction f as [|f IH]; intros i d e; [discriminate|]. rewrite skip_nested_S. destruct (b !! i) as [c|] eqn:E; [|discriminate].
  apply lookup_lt_Some in E. destruct (Ascii.eqb c quote).
  - destruct (skipJSONString b i) as [x|]; [|discriminate]. apply IH.
  - destruct (opens c); [apply IH|]. destruct (closes c); [|apply IH]. destruct d as [|[|d]]; [intros [= <-]; lia..|apply IH].
Qed.

Lemma count_number_le (l : bytes) : count_number l <= List.length l.
Proof. induction l as [|c l IH]; cbn; [lia|]. destruct (ends_number c); lia. Qed.

Lemma skipValue_bound (b : bytes) (i e : nat) : skipValue b i = Some e -> e <= List.length b.
Proof.
  unfold skipValue. destruct (b !! i) as [c|] eqn:E; [|discriminate]. apply lookup_lt_Some in E.
  destruct (Ascii.eqb c quote); [intros H; apply skipJSONString_range in H; lia|].
  destruct (opens c); [intros H; apply skip_nested_bound in H; lia|]. unfold literal.
  assert (forall n x y, (if (i + n <=? List.length b) && x then Some (i + n) else None) = Some y -> y <= List.length b) as Hlit.
  { intros n x y. destruct (Nat.leb_spec (i + n) (List.length b)); [|discriminate]. destruct x; [|discriminate]. intros [= <-]. lia. }
  destruct (Ascii.eqb c "t"); [apply Hlit|]. destruct (Ascii.eqb c "f"); [apply Hlit|]. destruct (Ascii.eqb c "n"); [apply Hlit|].
  intros [= <-]. pose proof (count_number_le (drop i b)) as H. rewrite length_drop in H. lia.
Qed.

Lemma read_member_bound (b key : bytes) (i vs ve : nat) : read_member b i = Some (key, vs, ve) -> ve <= List.length b.
Proof.
  unfold read_member. destruct (parseJSONString b i) as [[k e]|]; [|discriminate]. cbv zeta. destruct (negb _); [discriminate|].
  destruct (_ <=? _); [discriminate|]. destruct (skipValue _ _) as [x|] eqn:Ev; [|discriminate]. intros [= _ _ <-]. exact (skipValue_bound _ _ _ Ev).
Qed.

Lemma comma_after_range (b : bytes) (e t : nat) : comma_after b e = Some t -> e <= t < List.length b.
Proof.
  unfold comma_after, is_char. destruct (b !! skipSpace b e) as [c|] eqn:E; [|discriminate]. apply lookup_lt_Some in E.
  destruct (Ascii.eqb c ","); [|discriminate]. intros [= <-]. pose proof (skipSpace_le b e). lia.
Qed.

(** Where the visits of a walk are. *)
Lemma walk_from (b : bytes) (fuel : nat) : forall i comma, Forall (fun v => i <= vi_start v /\
  forall c, vi_comma v = Some c -> comma = Some c \/ i <= c) (walk fuel b i comma).1.
Proof.
  induction fuel as [|fuel IH]; intros i comma; [constructor|]. rewrite walk_S. pose proof (skipSpace_le b i) as Hi.
  destruct (b !! skipSpace b i) as [c|]; [|constructor]. destruct (Ascii.eqb c "}"); [constructor|]. destruct (Ascii.eqb c ",").
  - eapply Forall_impl; [apply IH|]. intros v [Hs Hc]. split; [lia|]. intros x Hx. apply Hc in Hx as [[= <-]|Hx]; right; lia.
  - destruct (Ascii.eqb c quote); [|constructor]. destruct (read_member b _) as [[[k vs] ve]|] eqn:Er; [|constructor].
    apply read_member_range in Er. pose proof (IH ve None) as H. destruct (walk fuel b ve None) as [rest ok]. cbn [fst] in H |- *.
    constructor; [cbn; auto|]. eapply Forall_impl; [exact H|]. intros v [Hs Hc]. split; [lia|]. intros x Hx. apply Hc in Hx as [|Hx]; [discriminate|].
    right. lia.
Qed.

Lemma walk_after_comma (b : bytes) (fuel e t : nat) : comma_after b e = Some t -> Forall (fun v => t < vi_start v /\
  forall c, vi_comma v = Some c -> t <= c) (walk fuel b e None).1.
Proof.
  unfold comma_after, is_char. destruct (b !! skipSpace b e) as [c|] eqn:E; [|discriminate]. destruct (Ascii.eqb c ",") eqn:Ec; [|discriminate].
  intros [= <-]. destruct fuel as [|fuel]; [constructor|]. rewrite walk_S, E, Ec. apply Ascii.eqb_eq in Ec. subst c.
  change (Ascii.eqb "," "}") with false. cbv iota. eapply Forall_impl; [apply walk_from|]. intros v [Hs Hc]. split; [lia|].
  intros x Hx. apply Hc in Hx as [[= <-]|Hx]; lia.
Qed.

Lemma walk_ranges (b : bytes) (fuel : nat) : forall i comma, (forall c, comma = Some c -> c < i) ->
  Forall (fun v => range_ok (List.length b) (range_of b v)) (walk fuel b i comma).1 /\
  StronglySorted (fun v1 v2 => range_before (range_of b v1) (range_of b v2)) (walk fuel b i comma).1.
Proof.
  induction fuel as [|fuel IH]; intros i comma Hcomma; [split; constructor|]. rewrite walk_S. pose proof (skipSpace_le b i) as Hi.
  destruct (b !! skipSpace b i) as [c|]; [|split; constructor]. destruct (Ascii.eqb c "}"); [split; constructor|]. destruct (Ascii.eqb c ",").
  - apply IH. intros x [= <-]. lia.
  - destruct (Ascii.eqb c quote); [|split; constructor]. destruct (read_member b _) as [[[k vs] ve]|] eqn:Er; [|split; constructor].
    pose proof (read_member_bound _ _ _ _ _ Er) as Hb. apply read_member_range in Er.
    destruct (IH ve None ltac:(discriminate)) as [IH1 IH2]. pose proof (walk_from b fuel ve None) as Hf.
    pose proof (walk_after_comma b fuel ve) as Ha. destruct (walk fuel b ve None) as [rest ok]. cbn [fst] in *.
    split.
    + constructor; [|exact IH1]. unfold range_ok, range_of. cbn. split_and!; try lia.
      * intros x Hx. apply Hcomma in Hx. lia.
      * intros t Ht. apply comma_after_range in Ht. lia.
    + constructor; [exact IH2|]. rewrite Forall_forall in Hf |- *. intros v Hv. specialize (Hf v Hv). destruct Hf as [Hs Hc].
      unfold range_before, range_of. cbn. split_and!; [exact Hs| |].
      * intros x Hx. apply Hc in Hx as [|Hx]; [discriminate|exact Hx].
      * intros t Ht. specialize (Ha t Ht). rewrite Forall_forall in Ha. exact (Ha v Hv).
Qed.

Lemma sorted_pair {A} (R : A -> A -> Prop) (l : list A) (x y : A) : StronglySorted R l -> x ∈ l -> y ∈ l -> x <> y -> R x y \/ R y x.
Proof.
  induction 1 as [|z l Hl IH Hz]; [intros H; apply elem_of_nil in H; contradiction|]. rewrite Forall_forall in Hz. rewrite !elem_of_cons.
  intros [->|Hx] [->|Hy] Hne; [contradiction|left; auto|right; auto|auto].
Qed.

(** The ranges of a body: in bounds, and not overlapping. *)
Lemma top_level_ranges (body : bytes) (tools choice : option topLevelRange) : scanTopLevelKeys body = (tools, choice) ->
  (forall r, tools = Some r -> range_ok (List.length body) r) /\ (forall r, choice = Some r -> range_ok (List.length body) r) /\
  (forall r1 r2, tools = Some r1 -> choice = Some r2 -> range_before r1 r2 \/ range_before r2 r1).
Proof.
  unfold scanTopLevelKeys. destruct (is_char body _ "{"); [|intros [= <- <-]; split_and!; discriminate]. rewrite top_level_walk.
  destruct (walk_ranges body (fuel_for body) (S (skipSpace body 0)) None ltac:(discriminate)) as [Hok Hs]. rewrite Forall_forall in Hok.
  intros [= <- <-]. split_and!.
  - intros r Hr. apply last_range_in in Hr as [|(v & Hv & _ & ->)]; [discriminate|auto].
  - intros r Hr. apply last_range_in in Hr as [|(v & Hv & _ & ->)]; [discriminate|auto].
  - intros r1 r2 H1 H2. apply last_range_in in H1 as [|(v1 & Hv1 & Hk1 & ->)]; [discriminate|].
    apply last_range_in in H2 as [|(v2 & Hv2 & Hk2 & ->)]; [discriminate|].
    apply (sorted_pair (fun v1 v2 => range_before (range_of body v1) (range_of body v2)) _ v1 v2 Hs Hv1 Hv2). intros ->. rewrite Hk1 in Hk2. discriminate Hk2.
Qed.

(** ** The rewriting does not panic *)

(** Edits in order, without overlap, in a body of length [n]. *)
Fixpoint edits_ok (n prev : nat) (edits : list bodyEdit) : Prop :=
  match edits with [] => prev <= n | e :: edits => prev <= e_start e <= e_end e /\ edits_ok n (e_end e) edits end.

Lemma edits_ok_le (n : nat) (edits : list bodyEdit) : forall prev, edits_ok n prev edits -> prev <= n.
Proof. induction edits as [|e edits IH]; intros prev; cbn; [auto|]. intros [H1 H2]. apply IH in H2. lia. Qed.

Lemma go_slice_ok (b : bytes) (i j : nat) : i <= j <= List.length b -> exists s, go_slice b i j = Some s /\ s = slice b i j /\ List.length s = j - i.
Proof.
  intros H. unfold go_slice. rewrite !(proj2 (Nat.leb_le _ _)) by lia. cbn [andb]. eexists. split; [reflexivity|]. split; [reflexivity|].
  unfold slice. rewrite length_take, length_drop. lia.
Qed.

Definition ins_len (kept : list bytes) (e : bodyEdit) : Z := match e_kind e with editReplaceTools => Z.of_nat (List.length (tools_text kept)) | editDelete => 0 end.

Lemma splice_total (body : bytes) (kept : list bytes) (edits : list bodyEdit) : forall prev, edits_ok (List.length body) prev edits ->
  exists out, splice body kept prev edits = Some out /\
  Z.of_nat (List.length out) = (fold_left (fun n e => n - (Z.of_nat (e_end e) - Z.of_nat (e_start e)) + ins_len kept e) edits
    (Z.of_nat (List.length body) - Z.of_nat prev))%Z.
Proof.
  assert (forall edits n d, fold_left (fun n e => n - (Z.of_nat (e_end e) - Z.of_nat (e_start e)) + ins_len kept e)%Z edits (n + d)%Z =
    (fold_left (fun n e => n - (Z.of_nat (e_end e) - Z.of_nat (e_start e)) + ins_len kept e) edits n + d)%Z) as Hshift.
  { clear. induction edits as [|e edits IH]; intros n d; cbn; [reflexivity|]. rewrite <- IH. f_equal. lia. }
  induction edits as [|e edits IH]; intros prev H; cbn [splice fold_left edits_ok] in *.
  - destruct (go_slice_ok body prev (List.length body)) as (s & -> & _ & Hs); [lia|]. exists s. split; [reflexivity|]. lia.
  - destruct H as [H1 H2]. pose proof (edits_ok_le _ _ _ H2) as Hle.
    destruct (go_slice_ok body prev (e_start e)) as (s & -> & _ & Hs); [lia|]. destruct (IH _ H2) as (out & Eo & Hlen). rewrite Eo. cbn.
    eexists. split; [reflexivity|]. rewrite !length_app, !Nat2Z.inj_add, Hlen, Hs.
    assert (Z.of_nat (List.length (match e_kind e with editReplaceTools => tools_text kept | editDelete => [] end)) = ins_len kept e) as ->
      by (unfold ins_len; destruct (e_kind e); reflexivity).
    replace (Z.of_nat (List.length body) - Z.of_nat prev - (Z.of_nat (e_end e) - Z.of_nat (e_start e)) + ins_len kept e)%Z
      with (Z.of_nat (List.length body) - Z.of_nat (e_end e) + (Z.of_nat (e_start e - prev) + ins_len kept e))%Z by lia.
    rewrite Hshift. lia.
Qed.

Lemma commas_len (kept : list bytes) : kept <> [] -> Z.of_nat (List.length (commas kept)) =
  (fold_left (fun n r => n + Z.of_nat (List.length r)) kept 0 + Z.of_nat (List.length kept) - 1)%Z.
Proof.
  assert (forall l d, fold_left (fun n r => n + Z.of_nat (List.length r))%Z l d = (fold_left (fun n (r : bytes) => n + Z.of_nat (List.length r)) l 0 + d)%Z) as Hs.
  { induction l as [|x l IH]; intros d; cbn [fold_left]; [lia|]. rewrite (IH (d + _)%Z), (IH (0 + _)%Z). lia. }
  induction kept as [|x l IH]; intros Hne; [contradiction|]. destruct l as [|y l]; [cbn; lia|].
  change (commas (x :: y :: l)) with (x ++ ","%char :: commas (y :: l)). rewrite length_app. cbn [List.length]. specialize (IH ltac:(discriminate)).
  cbn [fold_left] in IH |- *. rewrite Hs in IH. rewrite (Hs l (_ + _)%Z). cbn [List.length] in IH. lia.
Qed.

(** How many of the edits insert the tools. *)
Definition inserts (edits : list bodyEdit) : nat := List.length (List.filter (fun e => match e_kind e with editReplaceTools => true | _ => false end) edits).

Lemma out_len_exact (body : bytes) (kept : list bytes) (edits : list bodyEdit) :
  inserts edits = (match kept with [] => 0 | _ => 1 end) -> edits_ok (List.length body) 0 edits ->
  exists out, splice body kept 0 edits = Some out /\ Z.of_nat (List.length out) = out_len body kept edits.
Proof.
  intros Hi Hok. destruct (splice_total body kept edits 0 Hok) as (out & -> & Hlen). exists out. split; [reflexivity|]. rewrite Hlen. clear Hok Hlen.
  assert (forall n, fold_left (fun n e => n - (Z.of_nat (e_end e) - Z.of_nat (e_start e)) + ins_len kept e)%Z edits n =
    (fold_left (fun n e => n - (Z.of_nat (e_end e) - Z.of_nat (e_start e))) edits n + Z.of_nat (inserts edits) * Z.of_nat (List.length (tools_text kept)))%Z) as H.
  { assert (forall es n d, fold_left (fun n e => n - (Z.of_nat (e_end e) - Z.of_nat (e_start e)))%Z es (n + d)%Z =
      (fold_left (fun n e => n - (Z.of_nat (e_end e) - Z.of_nat (e_start e))) es n + d)%Z) as Hshift.
    { clear. induction es as [|e es IH]; intros n d; cbn; [reflexivity|]. rewrite <- IH. f_equal. lia. }
    clear Hi. unfold inserts. induction edits as [|e edits IH]; intros n; cbn [fold_left List.filter]; [cbn; lia|]. rewrite IH, Hshift.
    unfold ins_len. destruct (e_kind e); cbn [List.length]; lia. }
  rewrite H, Hi, Z.sub_0_r. unfold out_len. cbv zeta. destruct kept as [|x l]; [cbn [List.length Nat.ltb Nat.leb]; lia|].
  change (0 <? List.length (x :: l)) with true. cbv iota. unfold tools_text. cbn [List.length]. rewrite length_app.
  pose proof (commas_len (x :: l) ltac:(discriminate)) as Hc. cbn [List.length] in Hc |- *. cbv zeta. lia.
Qed.

Ltac range_facts :=
  repeat match goal with
  | H : forall c, Some ?x = Some c -> _ |- _ => specialize (H x eq_refl)
  | H : forall c, None = Some c -> _ |- _ => clear H
  | H : _ /\ _ |- _ => destruct H
  | H : bool_decide (_ = _) = true |- _ => apply bool_decide_eq_true in H
  | H : bool_decide (_ = _) = false |- _ => apply bool_decide_eq_false in H
  | H : Some _ = Some _ |- _ => injection H as H
  | H : Some ?a <> Some ?b |- _ => assert (a <> b) by congruence; clear H
  | |- context [?x =? ?y] => destruct (Nat.eqb_spec x y)
  | |- context [?x <? ?y] => destruct (Nat.ltb_spec x y)
  end.

(** The edits of one and of two deleted members. *)
Lemma delete_one_ok (n : nat) (r : topLevelRange) : range_ok n r -> edits_ok n 0 [run_edit r r].
Proof.
  destruct r as [ks vs ve cb ca]. unfold range_ok, run_edit. cbn. intros H. destruct cb, ca; range_facts; cbn; lia.
Qed.

Lemma delete_two_ok (n : nat) (r1 r2 : topLevelRange) : range_ok n r1 -> range_ok n r2 -> range_before r1 r2 ->
  edits_ok n 0 (delete_edits [r1; r2]) /\ inserts (delete_edits [r1; r2]) = 0.
Proof.
  destruct r1 as [ks1 vs1 ve1 cb1 ca1], r2 as [ks2 vs2 ve2 cb2 ca2]. unfold range_ok, range_before, delete_edits, run_edits, run_edit. cbn.
  intros H1 H2 H3. destruct (bool_decide (cb2 = ca1)) eqn:E; destruct cb1, ca1, cb2, ca2; range_facts; cbn; try discriminate; try lia.
Qed.

Lemma replace_delete_ok (n : nat) (t c : topLevelRange) : range_ok n t -> range_ok n c -> range_before t c \/ range_before c t -> r_valStart t < r_valEnd t ->
  let rep := mkEdit (r_valStart t) (r_valEnd t) editReplaceTools in
  edits_ok n 0 (sort_edits [run_edit c c; rep]) /\ inserts (sort_edits [run_edit c c; rep]) = 1.
Proof.
  destruct t as [ks1 vs1 ve1 cb1 ca1], c as [ks2 vs2 ve2 cb2 ca2]. unfold range_ok, range_before, sort_edits, run_edit. cbn -[Nat.ltb Nat.eqb].
  intros H1 H2 H3 H4. destruct H3 as [H3|H3]; destruct cb1, ca1, cb2, ca2; range_facts; cbn; split_and!; first [reflexivity | lia].
Qed.

Lemma delete_two_sorted (n : nat) (r1 r2 : topLevelRange) : edits_ok n 0 (delete_edits [r1; r2]) ->
  sort_edits (delete_edits [r1; r2]) = delete_edits [r1; r2].
Proof.
  unfold delete_edits, run_edits. destruct (bool_decide _); [reflexivity|]. unfold sort_edits. cbn [fold_left insert_edit edits_ok].
  destruct (Nat.ltb_spec (e_start (run_edit r2 r2)) (e_start (run_edit r1 r1))); [lia|reflexivity].
Qed.

(** The two members in the order of the body. *)
Lemma order_two (n : nat) (t c : topLevelRange) : range_ok n t -> range_ok n c -> range_before t c \/ range_before c t ->
  exists r1 r2, order_dels [t; c] = [r1; r2] /\ range_ok n r1 /\ range_ok n r2 /\ range_before r1 r2.
Proof.
  intros Ht Hc H. cbn [order_dels]. unfold range_ok, range_before in *. destruct (Nat.ltb_spec (r_keyStart c) (r_keyStart t)).
  - exists c, t. destruct H as [H|H]; [lia|auto].
  - exists t, c. destruct H as [H|H]; [auto|lia].
Qed.

Lemma strip_edits_ok (n : nat) (tools : topLevelRange) (choice : option topLevelRange) (kept : list bytes) :
  range_ok n tools -> (forall c, choice = Some c -> range_ok n c /\ (range_before tools c \/ range_before c tools)) -> r_valStart tools < r_valEnd tools ->
  edits_ok n 0 (strip_edits tools choice kept) /\ inserts (strip_edits tools choice kept) = match kept with [] => 0 | _ => 1 end.
Proof.
  intros Ht Hc Hne. unfold strip_edits. destruct choice as [c|], kept as [|x l]; cbn [app].
  - destruct (Hc c eq_refl) as [Hc1 Hc2]. destruct (order_two n tools c Ht Hc1 Hc2) as (r1 & r2 & -> & H1 & H2 & Hb).
    rewrite app_nil_r. pose proof (delete_two_ok n r1 r2 H1 H2 Hb) as H. rewrite (delete_two_sorted n) by apply H. exact H.
  - destruct (Hc c eq_refl) as [Hc1 Hc2]. exact (replace_delete_ok n tools c Ht Hc1 Hc2 Hne).
  - split; [exact (delete_one_ok n tools Ht)|reflexivity].
  - cbn. unfold range_ok in Ht. split; [|reflexivity]. lia.
Qed.

Lemma is_char_slice (b : bytes) (i j : nat) (c : ascii) : is_char (slice b i j) 0 c = true -> i < j.
Proof.
  unfold is_char, slice. destruct (Nat.lt_ge_cases i j) as [H|H]; [auto|]. replace (j - i) with 0 by lia. rewrite take_0. discriminate.
Qed.

(** The edits of a scanned body fit it, and so does the capacity. *)
Lemma strip_splices (body : bytes) (tools : topLevelRange) (choice ch : option topLevelRange) (kept : list bytes) :
  scanTopLevelKeys body = (Some tools, choice) -> (forall r, ch = Some r -> choice = Some r) -> r_valStart tools < r_valEnd tools ->
  exists out, splice body kept 0 (strip_edits tools ch kept) = Some out /\
    (out_len body kept (strip_edits tools ch kept) <? 0)%Z = false.
Proof.
  intros Es Hch Hne. destruct (top_level_ranges body (Some tools) choice Es) as (Ht & Hc & Hd).
  destruct (strip_edits_ok (List.length body) tools ch kept (Ht tools eq_refl)) as [Hok Hi]; [|exact Hne|].
  { intros r Hr. apply Hch in Hr. split; [exact (Hc r Hr)|exact (Hd tools r eq_refl Hr)]. }
  destruct (out_len_exact body kept _ Hi Hok) as (out & Eo & Hlen). exists out. split; [exact Eo|]. rewrite <- Hlen. apply Z.ltb_ge. lia.
Qed.

(** C38: The rewriting never panics: whatever the bytes of the request, JSON or
    not, every slice it takes is in bounds and the output buffer has a capacity.
    The ranges to cut out are in order and do not overlap, also when the deleted
    members are neighbours and share a comma. *)
Theorem strip_never_panics (body : bytes) : exists out, stripImageTools body = Some out.
Proof.
  unfold stripImageTools. destruct (negb _); [eauto|]. destruct (scanTopLevelKeys body) as [tools choice] eqn:Es.
  destruct (top_level_ranges body tools choice Es) as (Ht & Hc & Hd). destruct tools as [t|]; [|eauto].
  specialize (Ht t eq_refl). pose proof Ht as (H1 & H2 & _).
  destruct (go_slice_ok body (r_valStart t) (r_valEnd t)) as (s & -> & -> & _); [lia|]. cbn [mbind option_bind].
  destruct (is_char (slice body (r_valStart t) (r_valEnd t)) 0 "[") eqn:Ec; cbn [negb]; [|eauto]. apply is_char_slice in Ec.
  destruct (fold_left sort_tool _ _) as [[kept ids] nStripped]. destruct (nStripped =? 0); [eauto|].
  assert (exists ch, (match choice with
    | None => Some None
    | Some r => tc ← go_slice body (r_valStart r) (r_valEnd r); Some (if toolChoiceDangles tc ids then Some r else None)
    end) = Some ch /\ forall r, ch = Some r -> choice = Some r) as (ch & -> & Hch).
  { destruct choice as [r|]; [|eauto]. destruct (Hc r eq_refl) as (H3 & H4 & _).
    destruct (go_slice_ok body (r_valStart r) (r_valEnd r)) as (s & -> & _); [lia|]. cbn. eexists. split; [reflexivity|].
    destruct (toolChoiceDangles s ids); [auto|discriminate]. }
  cbn [mbind option_bind]. destruct (strip_splices body t choice ch kept Es Hch Ec) as (out & -> & ->). eauto.
Qed.
