(* ===== verification/StripExact.v ===== *)
(** * What stripping leaves ([internal/proxy/strip_image.go])

    On a well-formed request, the rewritten bytes are again a well-formed object
    whose members are those of the request, with the image tools gone from
    [tools] (or [tools] gone with them) and a dangling [tool_choice] gone. *)

From Stdlib Require Import ZArith Lia List Bool String Ascii.
From stdpp Require Import base option list.
From S2P Require Import Prelude GoString JsonScan JsonText StripTools.
Import ListNotations.
Local Open Scope nat_scope.
Local Open Scope list_scope.

(** ** The elements of an array *)

(** An element with the white space around it. *)
Record Item := mkItem { i_w : bytes; i_val : bytes; i_w' : bytes }.
Definition item_ok (x : Item) : Prop := ws (i_w x) /\ value (i_val x) /\ ws (i_w' x).
Definition item_text (x : Item) : bytes := i_w x ++ i_val x ++ i_w' x.

Definition array_text (inner : bytes) (items : list Item) : bytes :=
  "["%char :: (match items with [] => inner | _ => commas (map item_text items) end) ++ ["]"%char].

Lemma drop_ws_head (l : bytes) : not_ws_head l -> drop_ws l = l.
Proof. destruct l as [|c l]; [reflexivity|]. cbn. intros ->. reflexivity. Qed.

Lemma drop_ws_app (w l : bytes) : ws w -> not_ws_head l -> drop_ws (w ++ l) = l.
Proof. intros Hw Hl. induction Hw as [|c w Hc _ IH]; [exact (drop_ws_head l Hl)|]. cbn. rewrite Hc. exact IH. Qed.

Lemma value_last (v : bytes) : value v -> exists c l, v = l ++ [c] /\ isWS c = false.
Proof.
  destruct 1 as [l Hl|l Hne Hl|s Hs|o c l Ho Hc Hl].
  - rewrite !elem_of_cons in Hl. destruct Hl as [->|[->|[->|Hl]]]; [| | |apply not_elem_of_nil in Hl; contradiction].
    + exists "e"%char, (bs "tru"). split; reflexivity.
    + exists "e"%char, (bs "fals"). split; reflexivity.
    + exists "l"%char, (bs "nul"). split; reflexivity.
  - destruct (exists_last Hne) as (l' & c & ->). exists c, l'. split; [reflexivity|]. apply Forall_app in Hl as [_ Hc]. apply Forall_cons in Hc as [Hc _].
    destruct (num_char_plain c Hc) as [He _]. unfold ends_number in He. destruct (isWS c); [discriminate|reflexivity].
  - exists quote, (quote :: s). split; reflexivity.
  - exists c, (o :: l). split; [reflexivity|]. revert Hc. clear. destruct c as [[] [] [] [] [] [] [] []]; intros H; (discriminate H || reflexivity).
Qed.

Lemma trimWS_value (v w : bytes) : value v -> ws w -> trimWS (v ++ w) = v.
Proof.
  intros Hv Hw. unfold trimWS. rewrite (drop_ws_head (v ++ w)) by (apply not_ws_value, Hv). rewrite rev_app_distr.
  destruct (value_last v Hv) as (c & l & -> & Hc). rewrite drop_ws_app; [apply rev_involutive|apply Forall_rev, Hw|]. rewrite rev_app_distr. exact Hc.
Qed.

Lemma tools_loop_S (fuel : nat) (raw : bytes) (i : nat) : tools_loop (S fuel) raw i =
  match raw !! skipSpace raw i with
  | None => []
  | Some c =>
      if Ascii.eqb c "]" then []
      else match skipElement raw (skipSpace raw i) with
           | None => []
           | Some j => view_of (trimWS (slice raw (skipSpace raw i) j)) ::
               (if negb (j <? List.length raw) || is_char raw j "]" then [] else tools_loop fuel raw (S j))
           end
  end.
Proof. reflexivity. Qed.

Lemma value_not_close (v : bytes) : value v -> exists c l, v = c :: l /\ Ascii.eqb c "]" = false /\ isWS c = false.
Proof.
  intros Hv. destruct (value_nonempty v Hv) as (c & l & -> & Hw). exists c, l. split; [reflexivity|]. split; [|exact Hw].
  inversion Hv as [l' Hl|l' Hne Hl|s Hs|o c' l' Ho Hc Hl]; subst; [| |reflexivity|].
  - rewrite !elem_of_cons in Hl. destruct Hl as [E|[E|[E|Hl]]]; [injection E as -> ->; reflexivity..|apply not_elem_of_nil in Hl; contradiction].
  - apply Forall_cons in Hl as [Hc _]. destruct (num_char_plain c Hc) as [He _]. unfold ends_number in He. destruct (Ascii.eqb c "]"); [|reflexivity].
    rewrite !orb_true_r in He. discriminate He.
  - revert Ho. clear. destruct c as [[] [] [] [] [] [] [] []]; intros H; (discriminate H || reflexivity).
Qed.

(** One element in front of a comma or the closing bracket. *)
Lemma tools_step (pre post : bytes) (x : Item) (c : ascii) (fuel : nat) : item_ok x -> ends_number c = true -> isWS c = false ->
  tools_loop (S fuel) (pre ++ item_text x ++ c :: post) (List.length pre) =
  view_of (i_val x) :: (if Ascii.eqb c "]" then [] else tools_loop fuel (pre ++ item_text x ++ c :: post) (S (List.length (pre ++ item_text x)))).
Proof.
  intros (Hw & Hv & Hw') Hc Hcw. set (raw := pre ++ item_text x ++ c :: post). set (p := pre ++ i_w x).
  assert (raw = p ++ i_val x ++ i_w' x ++ c :: post) as E by (unfold raw, p, item_text; rewrite <- !app_assoc; reflexivity).
  assert (List.length p = List.length pre + List.length (i_w x)) as Lp by (unfold p; apply length_app).
  assert (skipSpace raw (List.length pre) = List.length p) as Es.
  { rewrite Lp. unfold raw, item_text. rewrite <- !app_assoc. apply skipSpace_app; [exact Hw|apply not_ws_value, Hv]. }
  rewrite tools_loop_S, Es. destruct (value_not_close _ Hv) as (d & l & Ev & Hd & _).
  assert ((raw : bytes) !! List.length p = Some d) as -> by (rewrite E, Ev; apply at_app). rewrite Hd.
  assert (skipElement raw (List.length p) = Some (List.length (pre ++ item_text x))) as ->.
  { unfold skipElement. rewrite E, skipValue_app by (exact Hv || (apply ws_ends; [exact Hw'|exact Hc])).
    rewrite app_assoc, <- (length_app p), skipSpace_app by (exact Hw' || exact Hcw). f_equal. unfold item_text, p. rewrite !length_app. lia. }
  assert (slice raw (List.length p) (List.length (pre ++ item_text x)) = i_val x ++ i_w' x) as ->.
  { rewrite E. rewrite (app_assoc (i_val x)). replace (List.length (pre ++ item_text x)) with (List.length p + List.length (i_val x ++ i_w' x))
      by (unfold item_text, p; rewrite !length_app; lia). apply slice_app. }
  rewrite trimWS_value by assumption. f_equal. unfold raw. rewrite app_assoc, is_char_at, (proj2 (Nat.ltb_lt _ _)) by (rewrite (length_app _ (c :: post)); cbn; lia).
  reflexivity.
Qed.

Lemma tools_items (items : list Item) : Forall item_ok items -> forall pre fuel, items <> [] -> List.length items <= fuel ->
  tools_loop fuel (pre ++ commas (map item_text items) ++ ["]"%char]) (List.length pre) = map (fun x => view_of (i_val x)) items.
Proof.
  induction 1 as [|x items Hx Hitems IH]; intros pre fuel Hne Hf; [contradiction|]. destruct fuel as [|fuel]; [cbn in Hf; lia|].
  destruct items as [|y items].
  - cbn [map commas]. rewrite tools_step by (exact Hx || reflexivity). reflexivity.
  - change (commas (map item_text (x :: y :: items))) with (item_text x ++ ","%char :: commas (map item_text (y :: items))). rewrite <- app_assoc.
    cbn [app]. rewrite tools_step by (exact Hx || reflexivity). change (Ascii.eqb "," "]") with false. cbv iota. cbn [map]. f_equal.
    change (item_text y :: map item_text items) with (map item_text (y :: items)).
    set (p := (pre ++ item_text x) ++ [","%char]).
    replace (pre ++ item_text x ++ ","%char :: commas (map item_text (y :: items)) ++ ["]"%char]) with (p ++ commas (map item_text (y :: items)) ++ ["]"%char])
      by (unfold p; rewrite <- !app_assoc; reflexivity).
    replace (S (List.length (pre ++ item_text x))) with (List.length p) by (unfold p; rewrite (length_app _ [_]); cbn; lia).
    apply IH; [discriminate|]. cbn [List.length] in Hf |- *. lia.
Qed.

Lemma commas_length (l : list bytes) : List.length l <= S (List.length (commas l)).
Proof.
  induction l as [|x l IH]; [cbn; lia|]. destruct l as [|y l]; [cbn; lia|].
  change (commas (x :: y :: l)) with (x ++ ","%char :: commas (y :: l)). rewrite length_app. cbn [List.length] in *. lia.
Qed.

(** The scan of an array yields its elements. *)
Lemma scanTools_items (inner : bytes) (items : list Item) : ws inner -> Forall item_ok items ->
  scanTools (array_text inner items) = map (fun x => view_of (i_val x)) items.
Proof.
  intros Hin Hit. unfold scanTools, array_text. set (raw := "["%char :: _).
  replace (skipSpace raw 0) with 0 by reflexivity. change (is_char raw 0 "[") with true. cbv iota. destruct items as [|x items].
  - unfold fuel_for. rewrite tools_loop_S. change raw with (["["%char] ++ inner ++ ["]"%char]).
    replace 1 with (List.length ["["%char]) by reflexivity. rewrite skipSpace_app by (exact Hin || reflexivity). rewrite app_assoc, <- length_app, at_app. reflexivity.
  - apply (tools_items (x :: items) Hit ["["%char]); [discriminate|]. unfold fuel_for, raw. rewrite <- (length_map item_text).
    pose proof (commas_length (map item_text (x :: items))). cbn [List.length] in *. rewrite length_app. cbn [List.length]. lia.
Qed.

(** ** Members in place *)

Definition kv (m : Member) : bytes * bytes := (m_key m, m_val m).

(** Members behind others, and members in front of another. *)
Definition back (ms : list Member) : bytes := concat (map (fun m => ","%char :: m_text m) ms).
Definition front (ms : list Member) : bytes := match ms with [] => [] | _ => members_text ms ++ [","%char] end.

Lemma mt_cons (m : Member) (ms : list Member) : members_text (m :: ms) = m_text m ++ back ms.
Proof.
  revert m. induction ms as [|m2 ms IH]; intros m; [unfold back; cbn; rewrite app_nil_r; reflexivity|].
  change (members_text (m :: m2 :: ms)) with (m_text m ++ ","%char :: members_text (m2 :: ms)). rewrite IH. reflexivity.
Qed.

Lemma back_app (X Y : list Member) : back (X ++ Y) = back X ++ back Y.
Proof. unfold back. rewrite map_app, concat_app. reflexivity. Qed.

Lemma back_cons (m : Member) (ms : list Member) : back (m :: ms) = ","%char :: members_text (m :: ms).
Proof. rewrite mt_cons. reflexivity. Qed.

Lemma mt_app (X Y : list Member) : X <> [] -> members_text (X ++ Y) = members_text X ++ back Y.
Proof. destruct X as [|x X]; [contradiction|]. intros _. cbn [app]. rewrite !mt_cons, back_app, app_assoc. reflexivity. Qed.

Lemma mt_mid (A : list Member) (m : Member) (B : list Member) : members_text (A ++ m :: B) = front A ++ m_text m ++ back B.
Proof.
  destruct A as [|a A]; [apply mt_cons|]. rewrite mt_app by discriminate. cbn [front]. rewrite back_cons, (mt_cons m B), <- app_assoc. reflexivity.
Qed.

(** White space added behind the last member, and in front of the first. *)
Fixpoint pad (ms : list Member) (w : bytes) : list Member :=
  match ms with
  | [] => []
  | [m] => [mkMember (m_w0 m) (m_key m) (m_w1 m) (m_w2 m) (m_val m) (m_w3 m ++ w)]
  | m :: ms => m :: pad ms w
  end.

Definition lead (w : bytes) (ms : list Member) : list Member :=
  match ms with [] => [] | m :: ms => mkMember (w ++ m_w0 m) (m_key m) (m_w1 m) (m_w2 m) (m_val m) (m_w3 m) :: ms end.

Lemma pad_not_nil (ms : list Member) (w : bytes) : ms <> [] -> pad ms w <> [].
Proof. destruct ms as [|m [|m2 ms]]; [contradiction|discriminate..]. Qed.

Lemma pad_text (ms : list Member) (w : bytes) : ms <> [] -> members_text (pad ms w) = members_text ms ++ w.
Proof.
  induction ms as [|m ms IH]; intros Hne; [contradiction|]. destruct ms as [|m2 ms].
  - cbn [pad members_text]. unfold m_text. cbn [m_w0 m_val m_w3]. rewrite <- !app_assoc. reflexivity.
  - specialize (IH ltac:(discriminate)). change (pad (m :: m2 :: ms) w) with (m :: pad (m2 :: ms) w).
    destruct (pad (m2 :: ms) w) as [|x l] eqn:E; [exfalso; revert E; apply pad_not_nil; discriminate|].
    rewrite mt_cons, back_cons, IH, (mt_cons m), back_cons. rewrite <- app_assoc. reflexivity.
Qed.

Lemma lead_text (w : bytes) (ms : list Member) : ms <> [] -> members_text (lead w ms) = w ++ members_text ms.
Proof.
  destruct ms as [|m ms]; [contradiction|]. intros _. cbn [lead]. rewrite !mt_cons. unfold m_text, key_text. cbn [m_w0 m_key m_w1 m_w2 m_val m_w3].
  rewrite <- !app_assoc. reflexivity.
Qed.

Lemma pad_back (ms : list Member) (w : bytes) : ms <> [] -> back (pad ms w) = back ms ++ w.
Proof.
  intros Hne. pose proof (pad_not_nil ms w Hne). pose proof (pad_text ms w Hne) as Ht. destruct (pad ms w) as [|x l]; [contradiction|].
  destruct ms as [|m ms]; [contradiction|]. rewrite !back_cons, Ht. reflexivity.
Qed.

Lemma pad_kv (ms : list Member) (w : bytes) : map kv (pad ms w) = map kv ms.
Proof.
  induction ms as [|m ms IH]; [reflexivity|]. destruct ms as [|m2 ms]; [reflexivity|].
  change (pad (m :: m2 :: ms) w) with (m :: pad (m2 :: ms) w). cbn [map] in *. rewrite IH. reflexivity.
Qed.

Lemma lead_kv (w : bytes) (ms : list Member) : map kv (lead w ms) = map kv ms.
Proof. destruct ms; reflexivity. Qed.

Lemma pad_ok (ms : list Member) (w : bytes) : ws w -> Forall member_wf ms -> Forall member_wf (pad ms w).
Proof.
  intros Hw. induction 1 as [|m ms (H0 & Hk & H1 & H2 & Hv & H3) Hms IH]; [constructor|]. destruct ms as [|m2 ms].
  - constructor; [|constructor]. unfold member_wf. cbn. split_and!; try assumption. apply Forall_app. auto.
  - change (pad (m :: m2 :: ms) w) with (m :: pad (m2 :: ms) w). constructor; [unfold member_wf; auto 10|exact IH].
Qed.

Lemma lead_ok (w : bytes) (ms : list Member) : ws w -> Forall member_wf ms -> Forall member_wf (lead w ms).
Proof.
  intros Hw. destruct 1 as [|m ms (H0 & Hk & H1 & H2 & Hv & H3) Hms]; [constructor|]. constructor; [|exact Hms].
  unfold member_wf. cbn. split_and!; try assumption. apply Forall_app. auto.
Qed.

(** ** Where the keys are *)

(** The range of a member behind [pre], with the commas around it. *)
Definition range_at (pre : bytes) (before : option nat) (m : Member) (after : option nat) : topLevelRange :=
  let ks := List.length pre + List.length (m_w0 m) in
  let vs := ks + List.length (key_text m) in
  mkRange ks vs (vs + List.length (m_val m)) before after.

Definition comma_before (P : bytes) (A : list Member) : option nat := match A with [] => None | _ => Some (List.length (P ++ members_text A)) end.
Definition comma_behind (pre : bytes) (m : Member) (B : list Member) : option nat :=
  match B with [] => None | _ => Some (List.length (pre ++ m_text m)) end.

Definition member_range (P : bytes) (A : list Member) (m : Member) (B : list Member) : topLevelRange :=
  range_at (P ++ front A) (comma_before P A) m (comma_behind (P ++ front A) m B).

Lemma layout_split (A : list Member) : forall (P : bytes) m B comma, layout (List.length P) comma (A ++ m :: B) =
  layout (List.length P) comma A ++
  visit_of (List.length (P ++ front A)) (match A with [] => comma | _ => Some (List.length (P ++ members_text A)) end) m ::
  layout (S (List.length (P ++ front A ++ m_text m))) (Some (List.length (P ++ front A ++ m_text m))) B.
Proof.
  induction A as [|a A IH]; intros P m B comma.
  - cbn [app layout front]. rewrite app_nil_r, length_app. reflexivity.
  - cbn [app layout]. f_equal. pose proof (IH ((P ++ m_text a) ++ [","%char]) m B (Some (List.length (P ++ m_text a)))) as H.
    assert (List.length ((P ++ m_text a) ++ [","%char]) = S (List.length P + List.length (m_text a))) as El
      by (rewrite (length_app (P ++ m_text a)), length_app; cbn; lia).
    rewrite El, <- length_app in H. rewrite <- length_app, H. f_equal.
    assert (((P ++ m_text a) ++ [","%char]) ++ front A = P ++ front (a :: A)) as Ef.
    { cbn [front]. rewrite mt_cons. destruct A as [|a2 A]; [unfold back; cbn; rewrite !app_nil_r, <- app_assoc; reflexivity|].
      cbn [front]. rewrite back_cons, <- !app_assoc. reflexivity. }
    rewrite !(app_assoc _ (front A)), Ef, <- !app_assoc. f_equal. f_equal.
    destruct A as [|a2 A]; [cbn [members_text]; reflexivity|]. rewrite (mt_cons a), back_cons. reflexivity.
Qed.

Lemma layout_keys (ms : list Member) : forall off comma, map vi_key (layout off comma ms) = map m_key ms.
Proof. induction ms as [|m ms IH]; intros off comma; [reflexivity|]. cbn [layout map]. rewrite IH. reflexivity. Qed.

Lemma last_range_absent (b key : bytes) (vs : list Visit) : key ∉ map vi_key vs -> forall init, last_range b key vs init = init.
Proof.
  unfold last_range. induction vs as [|v vs IH]; intros H init; [reflexivity|]. cbn [map] in H. rewrite not_elem_of_cons in H. destruct H as [H1 H2].
  cbn [fold_left]. unfold beq. rewrite bool_decide_eq_false_2 by congruence. apply IH, H2.
Qed.

Lemma range_in_place (P post : bytes) (A : list Member) (m : Member) (B : list Member) (comma : option nat) : member_wf m ->
  let b := P ++ members_text (A ++ m :: B) ++ "}"%char :: post in
  range_of b (visit_of (List.length (P ++ front A)) comma m) = range_at (P ++ front A) comma m (comma_behind (P ++ front A) m B).
Proof.
  intros Hm. cbv zeta. unfold range_of, range_at, visit_of. cbv zeta. cbn [vi_start vi_vs vi_ve vi_comma]. f_equal.
  rewrite mt_mid. set (pre := P ++ front A).
  assert (exists c rest, back B ++ "}"%char :: post = c :: rest /\ ends_number c = true /\ isWS c = false /\
    (if Ascii.eqb c "," then Some (List.length (pre ++ m_text m)) else None) = comma_behind pre m B) as (c & rest & Er & Hc & Hcw & Hcomma).
  { destruct B as [|m2 B]; [exists "}"%char, post; auto|]. rewrite back_cons. eexists _, _. split; [reflexivity|]. auto. }
  replace (P ++ (front A ++ m_text m ++ back B) ++ "}"%char :: post) with (pre ++ m_text m ++ c :: rest)
    by (rewrite <- Er; unfold pre; rewrite <- !app_assoc; reflexivity).
  destruct (walk_member pre rest m c None Hm Hc Hcw) as [_ Hs]. unfold visit_of in Hs. cbv zeta in Hs. cbn [vi_ve] in Hs.
  unfold comma_after. rewrite Hs, <- length_app, app_assoc, is_char_at. exact Hcomma.
Qed.

(** The range of a key that one member has. *)
Lemma last_range_member (P post key : bytes) (A : list Member) (m : Member) (B : list Member) : Forall member_wf (A ++ m :: B) ->
  m_key m = key -> key ∉ map m_key B ->
  last_range (P ++ members_text (A ++ m :: B) ++ "}"%char :: post) key (layout (List.length P) None (A ++ m :: B)) None = Some (member_range P A m B).
Proof.
  intros Hok Hk HB. assert (member_wf m) as Hm by (apply Forall_app in Hok as [_ Hok]; apply Forall_cons in Hok as [Hok _]; exact Hok).
  set (b := P ++ _). rewrite layout_split. unfold last_range. rewrite fold_left_app. cbn [fold_left vi_key visit_of].
  assert (beq (m_key m) key = true) as -> by (unfold beq; apply bool_decide_eq_true; exact Hk).
  change (last_range b key (layout (S (List.length (P ++ front A ++ m_text m))) (Some (List.length (P ++ front A ++ m_text m))) B)
    (Some (range_of b (visit_of (List.length (P ++ front A)) (comma_before P A) m))) = Some (member_range P A m B)).
  rewrite last_range_absent by (rewrite layout_keys; exact HB). f_equal. exact (range_in_place P post A m B (comma_before P A) Hm).
Qed.

(** ** Cutting *)

Definition inserted (kept : list bytes) (e : bodyEdit) : bytes := match e_kind e with editReplaceTools => tools_text kept | editDelete => [] end.

Lemma go_slice_mid (p x q : bytes) (i j : nat) : i = List.length p -> j = i + List.length x -> go_slice (p ++ x ++ q) i j = Some x.
Proof.
  intros -> ->. unfold go_slice. rewrite !(proj2 (Nat.leb_le _ _)) by (rewrite ?length_app; lia). cbn [andb]. f_equal. apply slice_app.
Qed.

Lemma splice_step (p x c q : bytes) (kept : list bytes) (prev : nat) (e : bodyEdit) (edits : list bodyEdit) (out : bytes) :
  prev = List.length p -> e_start e = prev + List.length x -> splice (p ++ x ++ c ++ q) kept (e_end e) edits = Some out ->
  splice (p ++ x ++ c ++ q) kept prev (e :: edits) = Some (x ++ inserted kept e ++ out).
Proof. intros Hp Hs Ho. cbn [splice]. rewrite (go_slice_mid p x (c ++ q)) by assumption. cbn. rewrite Ho. reflexivity. Qed.

Lemma splice_end (p q : bytes) (kept : list bytes) (prev : nat) : prev = List.length p -> splice (p ++ q) kept prev [] = Some q.
Proof.
  intros ->. cbn [splice]. rewrite <- (app_nil_r q) at 1. apply go_slice_mid; [reflexivity|]. rewrite !length_app. reflexivity.
Qed.

(** One cut. *)
Lemma splice_one (body p1 c1 p2 : bytes) (kept : list bytes) (e : bodyEdit) : body = p1 ++ c1 ++ p2 ->
  e_start e = List.length p1 -> e_end e = List.length p1 + List.length c1 -> splice body kept 0 [e] = Some (p1 ++ inserted kept e ++ p2).
Proof.
  intros -> Hs He. apply (splice_step [] p1 c1 p2); [reflexivity|exact Hs|]. cbn [app]. rewrite app_assoc. apply splice_end. rewrite length_app. exact He.
Qed.

(** Two cuts. *)
Lemma splice_two (body p1 c1 p2 c2 p3 : bytes) (kept : list bytes) (e1 e2 : bodyEdit) : body = p1 ++ c1 ++ p2 ++ c2 ++ p3 ->
  e_start e1 = List.length p1 -> e_end e1 = List.length p1 + List.length c1 ->
  e_start e2 = e_end e1 + List.length p2 -> e_end e2 = e_start e2 + List.length c2 ->
  splice body kept 0 [e1; e2] = Some (p1 ++ inserted kept e1 ++ p2 ++ inserted kept e2 ++ p3).
Proof.
  intros -> Hs He Hs2 He2. apply (splice_step [] p1 c1 (p2 ++ c2 ++ p3)); [reflexivity|exact Hs|]. cbn [app].
  replace (p1 ++ c1 ++ p2 ++ c2 ++ p3) with ((p1 ++ c1) ++ p2 ++ c2 ++ p3) by (rewrite <- app_assoc; reflexivity).
  apply splice_step; [rewrite length_app; exact He|exact Hs2|].
  replace ((p1 ++ c1) ++ p2 ++ c2 ++ p3) with ((p1 ++ c1 ++ p2 ++ c2) ++ p3) by (rewrite <- !app_assoc; reflexivity).
  apply splice_end. rewrite !length_app. lia.
Qed.

(** The object that is left. *)
Definition left_object (P post : bytes) (fields : list (bytes * bytes)) (out : bytes) : Prop :=
  exists ms inner, Forall member_wf ms /\ ws inner /\ map kv ms = fields /\
    out = P ++ (match ms with [] => inner | _ => members_text ms end) ++ "}"%char :: post.

Lemma left_members (P post : bytes) (ms : list Member) (fields : list (bytes * bytes)) (out : bytes) : ms <> [] -> Forall member_wf ms -> map kv ms = fields ->
  out = P ++ members_text ms ++ "}"%char :: post -> left_object P post fields out.
Proof. intros Hne Hok Hkv ->. exists ms, []. assert (ws []) by constructor. destruct ms; [contradiction|auto]. Qed.

Definition core (m : Member) : bytes := key_text m ++ m_val m.

Lemma m_text_core (m : Member) : m_text m = m_w0 m ++ core m ++ m_w3 m.
Proof. unfold m_text, core. rewrite <- app_assoc. reflexivity. Qed.

Ltac sizes := unfold run_edit, member_range, range_at, comma_before, comma_behind, core, m_text in *;
  cbn [r_keyStart r_valStart r_valEnd r_commaBefore r_commaAfter e_start e_end e_kind front app] in *; rewrite ?length_app in *; cbn [List.length] in *.

Lemma member_parts (m : Member) : member_wf m -> ws (m_w0 m) /\ ws (m_w3 m).
Proof. intros (H0 & _ & _ & _ & _ & H3). auto. Qed.

(** Deleting a run of neighbours: [w0] and [w3] are the white space around it. *)
Lemma delete_run (P post : bytes) (A R B : list Member) (w0 c w3 : bytes) (kept : list bytes) (e : bodyEdit) :
  R <> [] -> members_text R = w0 ++ c ++ w3 -> ws w0 -> ws w3 -> Forall member_wf A -> Forall member_wf B -> e_kind e = editDelete ->
  e_start e = List.length P + (match A with [] => List.length w0 | _ => List.length (members_text A) end) ->
  e_end e = List.length P + List.length (front A) + List.length w0 + List.length c +
    (match A, B with [], _ :: _ => S (List.length w3) | _, _ => 0 end) ->
  exists out, splice (P ++ members_text (A ++ R ++ B) ++ "}"%char :: post) kept 0 [e] = Some out /\ left_object P post (map kv (A ++ B)) out.
Proof.
  intros HR HT Hw0 Hw3 HA HB Hk Hs He. assert (inserted kept e = []) as Hins by (unfold inserted; rewrite Hk; reflexivity).
  destruct A as [|a A].
  - cbn [app front List.length] in *. rewrite mt_app, HT by exact HR. destruct B as [|b B].
    + erewrite (splice_one _ (P ++ w0) c (w3 ++ "}"%char :: post));
        [|unfold back; cbn; rewrite app_nil_r, <- !app_assoc; reflexivity|rewrite length_app; lia|rewrite length_app; lia].
      eexists. split; [reflexivity|]. exists [], (w0 ++ w3). rewrite Hins. split_and!; [constructor|apply Forall_app; auto|reflexivity|].
      cbn [app]. rewrite <- !app_assoc. reflexivity.
    + erewrite (splice_one _ (P ++ w0) (c ++ w3 ++ [","%char]) (members_text (b :: B) ++ "}"%char :: post));
        [|rewrite back_cons, <- !app_assoc; reflexivity|rewrite length_app; lia|rewrite !length_app; cbn [List.length]; lia].
      eexists. split; [reflexivity|]. rewrite Hins. apply (left_members P post (lead w0 (b :: B))); [discriminate|apply lead_ok; assumption|apply lead_kv|].
      rewrite lead_text by discriminate. cbn [app]. rewrite <- !app_assoc. reflexivity.
  - set (A' := a :: A) in *. assert (A' <> []) as HAne by discriminate. rewrite mt_app by exact HAne.
    assert (back (R ++ B) = ","%char :: w0 ++ c ++ w3 ++ back B) as Eb.
    { destruct R as [|r R]; [contradiction|]. rewrite back_app, back_cons, HT. cbn [app]. rewrite <- !app_assoc. reflexivity. }
    rewrite Eb. erewrite (splice_one _ (P ++ members_text A') (","%char :: w0 ++ c) (w3 ++ back B ++ "}"%char :: post));
      [|rewrite <- !app_assoc; cbn [app]; rewrite <- !app_assoc; reflexivity|rewrite length_app; exact Hs|].
    2:{ rewrite He. unfold front, A'. rewrite !length_app. cbn [List.length]. rewrite length_app. lia. }
    eexists. split; [reflexivity|]. rewrite Hins. apply (left_members P post (pad A' w3 ++ B)).
    + intros H. apply app_eq_nil in H as [H _]. revert H. apply pad_not_nil, HAne.
    + apply Forall_app. split; [apply pad_ok; assumption|exact HB].
    + rewrite !map_app, pad_kv. reflexivity.
    + rewrite mt_app, pad_text by (try apply pad_not_nil; exact HAne). cbn [app]. rewrite <- !app_assoc. reflexivity.
Qed.

(** The cut of a member behind others. *)
Lemma back_mid (M : list Member) (d : Member) (C : list Member) :
  back (M ++ d :: C) = back M ++ (","%char :: m_w0 d ++ core d) ++ m_w3 d ++ back C.
Proof. rewrite back_app, back_cons, mt_cons, m_text_core. cbn [app]. rewrite <- !app_assoc. reflexivity. Qed.

Ltac solve_app := repeat (progress (cbn [app]; rewrite <- ?app_assoc)); reflexivity.
Ltac solve_len := rewrite ?length_app; cbn [List.length]; rewrite ?length_app; lia.

(** Deleting two members with others between them. *)
Lemma delete_apart (P post : bytes) (A M C : list Member) (d1 d2 : Member) (kept : list bytes) (e1 e2 : bodyEdit) :
  M <> [] -> Forall member_wf (A ++ d1 :: M ++ d2 :: C) -> e_kind e1 = editDelete -> e_kind e2 = editDelete ->
  e_start e1 = List.length P + (match A with [] => List.length (m_w0 d1) | _ => List.length (members_text A) end) ->
  e_end e1 = List.length P + List.length (front A) + List.length (m_w0 d1) + List.length (core d1) + (match A with [] => S (List.length (m_w3 d1)) | _ => 0 end) ->
  e_start e2 = List.length P + List.length (front A) + List.length (m_text d1) + List.length (back M) ->
  e_end e2 = e_start e2 + S (List.length (m_w0 d2) + List.length (core d2)) ->
  exists out, splice (P ++ members_text (A ++ d1 :: M ++ d2 :: C) ++ "}"%char :: post) kept 0 [e1; e2] = Some out /\
    left_object P post (map kv (A ++ M ++ C)) out.
Proof.
  intros HM Hok Hk1 Hk2 Hs1 He1 Hs2 He2.
  assert (inserted kept e1 = []) as Hi1 by (unfold inserted; rewrite Hk1; reflexivity).
  assert (inserted kept e2 = []) as Hi2 by (unfold inserted; rewrite Hk2; reflexivity).
  apply Forall_app in Hok as [HA Hok]. apply Forall_cons in Hok as [Hd1 Hok]. apply Forall_app in Hok as [HMo Hok]. apply Forall_cons in Hok as [Hd2 HC].
  destruct (member_parts d1 Hd1) as [Hw0 Hw3]. destruct (member_parts d2 Hd2) as [_ Hw3'].
  assert (pad M (m_w3 d2) <> []) as HpM by (apply pad_not_nil, HM).
  rewrite (m_text_core d1) in Hs2. rewrite !length_app in Hs2. destruct A as [|a A].
  - cbn [app front List.length] in *. rewrite mt_cons, back_mid, m_text_core. destruct M as [|m0 M0] eqn:EM; [contradiction|]. rewrite <- EM in *.
    assert (back M = ","%char :: members_text M) as EbM by (rewrite EM; apply back_cons).
    erewrite (splice_two _ (P ++ m_w0 d1) (core d1 ++ m_w3 d1 ++ [","%char]) (members_text M) (","%char :: m_w0 d2 ++ core d2)
      (m_w3 d2 ++ back C ++ "}"%char :: post)); [|rewrite EbM; solve_app|solve_len|solve_len|rewrite Hs2, He1, EbM; solve_len|rewrite He2; solve_len].
    eexists. split; [reflexivity|]. rewrite Hi1, Hi2. apply (left_members P post (lead (m_w0 d1) (pad M (m_w3 d2) ++ C))).
    + destruct (pad M (m_w3 d2)); [contradiction|discriminate].
    + apply lead_ok; [exact Hw0|]. apply Forall_app. split; [apply pad_ok; assumption|exact HC].
    + rewrite lead_kv, !map_app, pad_kv. reflexivity.
    + rewrite lead_text by (destruct (pad M (m_w3 d2)); [contradiction|discriminate]). rewrite mt_app, pad_text by assumption. solve_app.
  - set (A' := a :: A) in *. assert (A' <> []) as HA' by discriminate. change (d1 :: M ++ d2 :: C) with ([d1] ++ M ++ d2 :: C).
    rewrite mt_app by exact HA'. rewrite back_app, back_mid. change (front A') with (members_text A' ++ [","%char]) in *.
    assert (back [d1] = (","%char :: m_w0 d1 ++ core d1) ++ m_w3 d1) as -> by (unfold back; cbn [map concat]; rewrite app_nil_r, m_text_core; solve_app).
    rewrite length_app in He1, Hs2. cbn [List.length] in He1, Hs2.
    erewrite (splice_two _ (P ++ members_text A') (","%char :: m_w0 d1 ++ core d1) (m_w3 d1 ++ back M) (","%char :: m_w0 d2 ++ core d2)
      (m_w3 d2 ++ back C ++ "}"%char :: post)); [|solve_app|rewrite length_app; exact Hs1|rewrite He1; unfold A'; solve_len|rewrite Hs2, He1; unfold A'; solve_len|rewrite He2; solve_len].
    eexists. split; [reflexivity|]. rewrite Hi1, Hi2. apply (left_members P post (pad A' (m_w3 d1) ++ pad M (m_w3 d2) ++ C)).
    + pose proof (pad_not_nil A' (m_w3 d1) HA'). destruct (pad A' (m_w3 d1)); [contradiction|discriminate].
    + rewrite !Forall_app. split_and!; [apply pad_ok; assumption|apply pad_ok; assumption|exact HC].
    + rewrite !map_app, !pad_kv. reflexivity.
    + rewrite mt_app, pad_text, back_app, pad_back by (assumption || apply pad_not_nil, HA'). solve_app.
Qed.

(** A member with another value. *)
Definition with_val (m : Member) (v : bytes) : Member := mkMember (m_w0 m) (m_key m) (m_w1 m) (m_w2 m) v (m_w3 m).

Lemma with_val_ok (m : Member) (v : bytes) : member_wf m -> value v -> member_wf (with_val m v).
Proof. intros (H0 & Hk & H1 & H2 & _ & H3) Hv. unfold member_wf. cbn. auto 10. Qed.

Lemma with_val_text (m : Member) (v : bytes) : m_text (with_val m v) = m_w0 m ++ key_text m ++ v ++ m_w3 m.
Proof. reflexivity. Qed.

(** Replacing a value. *)
Lemma replace_value (P post : bytes) (A B : list Member) (t : Member) (kept : list bytes) (e : bodyEdit) :
  Forall member_wf (A ++ t :: B) -> value (tools_text kept) -> e_kind e = editReplaceTools ->
  e_start e = List.length P + List.length (front A) + List.length (m_w0 t) + List.length (key_text t) -> e_end e = e_start e + List.length (m_val t) ->
  exists out, splice (P ++ members_text (A ++ t :: B) ++ "}"%char :: post) kept 0 [e] = Some out /\
    left_object P post (map kv (A ++ with_val t (tools_text kept) :: B)) out.
Proof.
  intros Hok Hv Hk Hs He. assert (inserted kept e = tools_text kept) as Hi by (unfold inserted; rewrite Hk; reflexivity).
  rewrite mt_mid. unfold m_text. erewrite (splice_one _ (P ++ front A ++ m_w0 t ++ key_text t) (m_val t) (m_w3 t ++ back B ++ "}"%char :: post));
    [|solve_app|rewrite Hs; solve_len|rewrite He, Hs; solve_len].
  eexists. split; [reflexivity|]. rewrite Hi. apply (left_members P post (A ++ with_val t (tools_text kept) :: B)).
  - destruct A; discriminate.
  - apply Forall_app in Hok as [HA Hok]. apply Forall_cons in Hok as [Ht HB]. apply Forall_app. split; [exact HA|]. constructor; [apply with_val_ok; assumption|exact HB].
  - reflexivity.
  - rewrite mt_mid, with_val_text. solve_app.
Qed.

(** Replacing a value, and deleting a later member. *)
Lemma replace_then_delete (P post : bytes) (A M C : list Member) (t d : Member) (kept : list bytes) (e1 e2 : bodyEdit) :
  Forall member_wf (A ++ t :: M ++ d :: C) -> value (tools_text kept) -> e_kind e1 = editReplaceTools -> e_kind e2 = editDelete ->
  e_start e1 = List.length P + List.length (front A) + List.length (m_w0 t) + List.length (key_text t) -> e_end e1 = e_start e1 + List.length (m_val t) ->
  e_start e2 = List.length P + List.length (front A) + List.length (m_text t) + List.length (back M) ->
  e_end e2 = e_start e2 + S (List.length (m_w0 d) + List.length (core d)) ->
  exists out, splice (P ++ members_text (A ++ t :: M ++ d :: C) ++ "}"%char :: post) kept 0 [e1; e2] = Some out /\
    left_object P post (map kv (A ++ with_val t (tools_text kept) :: M ++ C)) out.
Proof.
  intros Hok Hv Hk1 Hk2 Hs1 He1 Hs2 He2.
  assert (inserted kept e1 = tools_text kept) as Hi1 by (unfold inserted; rewrite Hk1; reflexivity).
  assert (inserted kept e2 = []) as Hi2 by (unfold inserted; rewrite Hk2; reflexivity).
  apply Forall_app in Hok as [HA Hok]. apply Forall_cons in Hok as [Ht Hok]. apply Forall_app in Hok as [HM Hok]. apply Forall_cons in Hok as [Hd HC].
  destruct (member_parts d Hd) as [_ Hw3]. rewrite mt_mid, back_mid. unfold m_text in *. rewrite !length_app in Hs2.
  erewrite (splice_two _ (P ++ front A ++ m_w0 t ++ key_text t) (m_val t) (m_w3 t ++ back M) (","%char :: m_w0 d ++ core d) (m_w3 d ++ back C ++ "}"%char :: post));
    [|solve_app|rewrite Hs1; solve_len|rewrite He1, Hs1; solve_len|rewrite Hs2, He1, Hs1; solve_len|rewrite He2; solve_len].
  eexists. split; [reflexivity|]. rewrite Hi1, Hi2. set (X := A ++ with_val t (tools_text kept) :: M). assert (X <> []) as HX by (unfold X; destruct A; discriminate).
  pose proof (pad_not_nil X (m_w3 d) HX) as HpX. apply (left_members P post (pad X (m_w3 d) ++ C)).
  - destruct (pad X (m_w3 d)); [contradiction|discriminate].
  - apply Forall_app. split; [|exact HC]. apply pad_ok; [exact Hw3|]. unfold X. apply Forall_app. split; [exact HA|].
    constructor; [apply with_val_ok; assumption|exact HM].
  - rewrite map_app, pad_kv. unfold X. rewrite !map_app. cbn [map]. rewrite !map_app. solve_app.
  - rewrite mt_app, pad_text by assumption. unfold X. rewrite mt_mid, with_val_text. solve_app.
Qed.

(** Deleting a member, and replacing a later value. *)
Lemma delete_then_replace (P post : bytes) (A M C : list Member) (d t : Member) (kept : list bytes) (e1 e2 : bodyEdit) :
  Forall member_wf (A ++ d :: M ++ t :: C) -> value (tools_text kept) -> e_kind e1 = editDelete -> e_kind e2 = editReplaceTools ->
  e_start e1 = List.length P + (match A with [] => List.length (m_w0 d) | _ => List.length (members_text A) end) ->
  e_end e1 = List.length P + List.length (front A) + List.length (m_w0 d) + List.length (core d) + (match A with [] => S (List.length (m_w3 d)) | _ => 0 end) ->
  e_start e2 = List.length P + List.length (front A) + List.length (m_text d) + S (List.length (front M)) + List.length (m_w0 t) + List.length (key_text t) ->
  e_end e2 = e_start e2 + List.length (m_val t) ->
  exists out, splice (P ++ members_text (A ++ d :: M ++ t :: C) ++ "}"%char :: post) kept 0 [e1; e2] = Some out /\
    left_object P post (map kv (A ++ M ++ with_val t (tools_text kept) :: C)) out.
Proof.
  intros Hok Hv Hk1 Hk2 Hs1 He1 Hs2 He2.
  assert (inserted kept e1 = []) as Hi1 by (unfold inserted; rewrite Hk1; reflexivity).
  assert (inserted kept e2 = tools_text kept) as Hi2 by (unfold inserted; rewrite Hk2; reflexivity).
  apply Forall_app in Hok as [HA Hok]. apply Forall_cons in Hok as [Hd Hok]. apply Forall_app in Hok as [HM Hok]. apply Forall_cons in Hok as [Ht HC].
  destruct (member_parts d Hd) as [Hw0 Hw3]. rewrite (m_text_core d), !length_app in Hs2.
  assert (Forall member_wf (M ++ with_val t (tools_text kept) :: C)) as HMC by (apply Forall_app; split; [exact HM|]; constructor; [apply with_val_ok; assumption|exact HC]).
  assert (back (M ++ t :: C) = ","%char :: front M ++ m_text t ++ back C) as Eb.
  { rewrite <- mt_mid. destruct M as [|m M]; [apply back_cons|]. cbn [app]. apply back_cons. }
  destruct A as [|a A].
  - cbn [app front List.length] in *. rewrite mt_cons, Eb, m_text_core. unfold m_text.
    erewrite (splice_two _ (P ++ m_w0 d) (core d ++ m_w3 d ++ [","%char]) (front M ++ m_w0 t ++ key_text t) (m_val t) (m_w3 t ++ back C ++ "}"%char :: post));
      [|solve_app|solve_len|solve_len|rewrite Hs2, He1; solve_len|rewrite He2; solve_len].
    eexists. split; [reflexivity|]. rewrite Hi1, Hi2. apply (left_members P post (lead (m_w0 d) (M ++ with_val t (tools_text kept) :: C))).
    + destruct M; discriminate.
    + apply lead_ok; assumption.
    + apply lead_kv.
    + rewrite lead_text by (destruct M; discriminate). rewrite mt_mid, with_val_text. solve_app.
  - set (A' := a :: A) in *. assert (A' <> []) as HA' by discriminate. change (d :: M ++ t :: C) with ([d] ++ M ++ t :: C). rewrite mt_app by exact HA'.
    rewrite back_app, Eb. change (front A') with (members_text A' ++ [","%char]) in *. rewrite (length_app (members_text A')) in He1, Hs2. cbn [List.length] in He1, Hs2.
    assert (back [d] = (","%char :: m_w0 d ++ core d) ++ m_w3 d) as -> by (unfold back; cbn [map concat]; rewrite app_nil_r, m_text_core; solve_app).
    unfold m_text. erewrite (splice_two _ (P ++ members_text A') (","%char :: m_w0 d ++ core d) (m_w3 d ++ ","%char :: front M ++ m_w0 t ++ key_text t) (m_val t)
      (m_w3 t ++ back C ++ "}"%char :: post)); [|solve_app|rewrite length_app; exact Hs1|rewrite He1; unfold A'; solve_len|rewrite Hs2, He1; unfold A'; solve_len|rewrite He2; solve_len].
    eexists. split; [reflexivity|]. rewrite Hi1, Hi2. apply (left_members P post (pad A' (m_w3 d) ++ M ++ with_val t (tools_text kept) :: C)).
    + pose proof (pad_not_nil A' (m_w3 d) HA'). destruct (pad A' (m_w3 d)); [contradiction|discriminate].
    + apply Forall_app. split; [apply pad_ok; assumption|exact HMC].
    + rewrite !map_app, pad_kv. reflexivity.
    + rewrite mt_app, pad_text by (assumption || apply pad_not_nil, HA').
      assert (back (M ++ with_val t (tools_text kept) :: C) = ","%char :: members_text (M ++ with_val t (tools_text kept) :: C)) as -> by (destruct M; apply back_cons).
      rewrite mt_mid, with_val_text. solve_app.
Qed.

(** ** The edits of a request *)

(** The edit of one member's deletion. *)
Lemma run_edit_spec (P : bytes) (A B1 B2 : list Member) (d1 d2 : Member) (Q : list Member) :
  let e := run_edit (member_range P A d1 B1) (member_range P Q d2 B2) in
  e_kind e = editDelete /\
  e_start e = List.length P + (match A with [] => List.length (m_w0 d1) | _ => List.length (members_text A) end) /\
  e_end e = List.length P + List.length (front Q) + List.length (m_w0 d2) + List.length (core d2) +
    (match A, B2 with [], _ :: _ => S (List.length (m_w3 d2)) | _, _ => 0 end).
Proof.
  unfold run_edit, member_range, range_at, comma_before, comma_behind, core. cbv zeta.
  cbn [r_keyStart r_valStart r_valEnd r_commaBefore r_commaAfter e_start e_end e_kind]. split; [reflexivity|]. destruct A as [|a A].
  - cbn [front app]. rewrite app_nil_r. split; [lia|]. rewrite Nat.eqb_refl. destruct B2; unfold m_text; rewrite ?length_app; lia.
  - split; [rewrite length_app; lia|]. unfold front at 2. rewrite (proj2 (Nat.eqb_neq _ _)) by (rewrite !length_app; cbn [List.length]; lia).
    destruct B2; rewrite ?length_app; lia.
Qed.

Lemma edit_replace_spec (P : bytes) (A B : list Member) (t : Member) :
  let r := member_range P A t B in
  r_valStart r = List.length P + List.length (front A) + List.length (m_w0 t) + List.length (key_text t) /\ r_valEnd r = r_valStart r + List.length (m_val t).
Proof. unfold member_range, range_at. cbn. rewrite length_app. lia. Qed.

Lemma front_mid (A M : list Member) (d : Member) : List.length (front (A ++ d :: M)) = List.length (front A) + List.length (m_text d) + List.length (back M) + 1.
Proof.
  assert (front (A ++ d :: M) = members_text (A ++ d :: M) ++ [","%char]) as -> by (destruct A; reflexivity).
  rewrite mt_mid, !length_app. cbn [List.length]. lia.
Qed.

(** Two members in order, whatever is between them. *)
Lemma delete_pair (P post : bytes) (A M C : list Member) (d1 d2 : Member) (kept : list bytes) :
  Forall member_wf (A ++ d1 :: M ++ d2 :: C) ->
  exists out, splice (P ++ members_text (A ++ d1 :: M ++ d2 :: C) ++ "}"%char :: post) kept 0
    (delete_edits [member_range P A d1 (M ++ d2 :: C); member_range P (A ++ d1 :: M) d2 C]) = Some out /\
    left_object P post (map kv (A ++ M ++ C)) out.
Proof.
  intros Hok. set (r1 := member_range P A d1 _). set (r2 := member_range P (A ++ d1 :: M) d2 C).
  assert (r_commaAfter r1 = Some (List.length P + List.length (front A) + List.length (m_text d1))) as E1.
  { unfold r1, member_range, range_at, comma_behind. cbn [r_commaAfter]. rewrite !length_app. destruct M; reflexivity. }
  assert (r_commaBefore r2 = Some (List.length P + List.length (front A) + List.length (m_text d1) + List.length (back M))) as E2.
  { unfold r2, member_range, range_at, comma_before. cbn [r_commaBefore].
    transitivity (Some (List.length (P ++ members_text (A ++ d1 :: M)))); [destruct A; reflexivity|]. rewrite mt_mid, !length_app. f_equal. lia. }
  unfold delete_edits, run_edits. rewrite E1, E2. destruct M as [|m M].
  - rewrite bool_decide_eq_true_2 by (f_equal; cbn; lia). cbn [app] in *.
    destruct (run_edit_spec P A (d2 :: C) C d1 d2 (A ++ [d1])) as (Hk & Hs & He).
    apply Forall_app in Hok as [HA Hok]. apply Forall_cons in Hok as [Hd1 Hok]. apply Forall_cons in Hok as [Hd2 HC].
    destruct (member_parts d1 Hd1) as [Hw0 _]. destruct (member_parts d2 Hd2) as [_ Hw3].
    apply (delete_run P post A [d1; d2] C (m_w0 d1) (core d1 ++ m_w3 d1 ++ ","%char :: m_w0 d2 ++ core d2) (m_w3 d2) kept
      (run_edit r1 r2)); try assumption; [discriminate| |].
    + rewrite mt_cons, m_text_core. unfold back. cbn [map concat]. rewrite app_nil_r, m_text_core. solve_app.
    + unfold r1, r2. cbn [app]. rewrite He, front_mid, m_text_core. cbn [back map concat List.length]. repeat (rewrite ?length_app; cbn [List.length]). lia.
  - assert (0 < List.length (back (m :: M))) as Hb by (rewrite back_cons; cbn [List.length]; lia).
    rewrite bool_decide_eq_false_2 by (revert Hb; generalize (List.length (back (m :: M))); intros n Hn [= H]; lia).
    destruct (run_edit_spec P A ((m :: M) ++ d2 :: C) ((m :: M) ++ d2 :: C) d1 d1 A) as (Hk & Hs & He).
    destruct (run_edit_spec P (A ++ d1 :: m :: M) C C d2 d2 (A ++ d1 :: m :: M)) as (Hk2 & Hs2 & He2).
    assert (exists a l, A ++ d1 :: m :: M = a :: l) as (a & l & Eq) by (destruct A; eexists _, _; reflexivity).
    assert (e_start (run_edit r2 r2) = List.length P + List.length (front A) + List.length (m_text d1) + List.length (back (m :: M))) as Hs2'.
    { unfold r2. rewrite Hs2. rewrite Eq. rewrite <- Eq, mt_mid, !length_app. lia. }
    apply (delete_apart P post A (m :: M) C d1 d2 kept (run_edit r1 r1) (run_edit r2 r2)); [discriminate|exact Hok|exact Hk|exact Hk2|exact Hs| |exact Hs2'|].
    + unfold r1. rewrite He. destruct A; reflexivity.
    + rewrite Hs2'. unfold r2. rewrite He2, front_mid. rewrite Eq. lia.
Qed.

Lemma front_back (M : list Member) : List.length (front M) = List.length (back M).
Proof. destruct M as [|m M]; [reflexivity|]. unfold front. rewrite back_cons, length_app. cbn [List.length]. lia. Qed.

Lemma key_start (P : bytes) (A B : list Member) (m : Member) : r_keyStart (member_range P A m B) = List.length P + List.length (front A) + List.length (m_w0 m).
Proof. unfold member_range, range_at. cbn [r_keyStart]. rewrite length_app. reflexivity. Qed.

Lemma later_key (P : bytes) (A M C : list Member) (d1 d2 : Member) :
  r_keyStart (member_range P A d1 (M ++ d2 :: C)) < r_keyStart (member_range P (A ++ d1 :: M) d2 C).
Proof. rewrite !key_start, front_mid, m_text_core, !length_app. lia. Qed.

(** What becomes of the tools. *)
Definition new_tools (t : Member) (kept : list bytes) : list Member := match kept with [] => [] | _ => [with_val t (tools_text kept)] end.

Section Arrangements.
Context (P post : bytes) (kept : list bytes) (Hkept : kept <> [] -> value (tools_text kept)).
Abbreviation body ms := (P ++ members_text ms ++ "}"%char :: post).

(** Only the tools change. *)
Lemma edits_tools (A B : list Member) (t : Member) : Forall member_wf (A ++ t :: B) ->
  exists out, splice (body (A ++ t :: B)) kept 0 (strip_edits (member_range P A t B) None kept) = Some out /\
    left_object P post (map kv (A ++ new_tools t kept ++ B)) out.
Proof.
  intros Hok. unfold strip_edits, new_tools. destruct kept as [|x l] eqn:Ek; rewrite <- Ek in *; cbn [app order_dels delete_edits run_edits].
  - destruct (run_edit_spec P A B B t t A) as (Hk & Hs & He). apply Forall_app in Hok as [HA Hok]. apply Forall_cons in Hok as [Ht HB].
    destruct (member_parts t Ht) as [Hw0 Hw3].
    apply (delete_run P post A [t] B (m_w0 t) (core t) (m_w3 t)); try assumption; [discriminate|apply m_text_core].
  - destruct (edit_replace_spec P A B t) as [Hs He]. apply replace_value; try assumption; [|reflexivity]. apply Hkept. rewrite Ek. discriminate.
Qed.

(** The tools change and a later choice goes. *)
Lemma edits_tools_choice (A M C : list Member) (t c : Member) : Forall member_wf (A ++ t :: M ++ c :: C) ->
  let rt := member_range P A t (M ++ c :: C) in
  let rc := member_range P (A ++ t :: M) c C in
  edits_ok (List.length (body (A ++ t :: M ++ c :: C))) 0 (delete_edits [rt; rc]) ->
  exists out, splice (body (A ++ t :: M ++ c :: C)) kept 0 (strip_edits rt (Some rc) kept) = Some out /\
    left_object P post (map kv (A ++ new_tools t kept ++ M ++ C)) out.
Proof.
  intros Hok rt rc Hed. pose proof (later_key P A M C t c) as Hlt. fold rt rc in Hlt.
  unfold strip_edits, new_tools. destruct kept as [|x l] eqn:Ek; rewrite <- Ek in *; cbn [app order_dels delete_edits run_edits].
  - rewrite (proj2 (Nat.ltb_ge _ _)) by lia. rewrite app_nil_r, (delete_two_sorted _ rt rc Hed). apply delete_pair, Hok.
  - destruct (run_edit_spec P (A ++ t :: M) C C c c (A ++ t :: M)) as (Hk & Hs & He). destruct (edit_replace_spec P A (M ++ c :: C) t) as [Hs' He'].
    fold rc in Hk, Hs, He. fold rt in Hs', He'.
    assert (e_start (run_edit rc rc) = List.length P + List.length (front A) + List.length (m_text t) + List.length (back M)) as Hs2.
    { rewrite Hs. transitivity (List.length P + List.length (members_text (A ++ t :: M))); [destruct A; reflexivity|]. rewrite mt_mid, !length_app. lia. }
    assert (0 < List.length (m_val t)) as Hv.
    { apply Forall_app in Hok as [_ Hok]. apply Forall_cons in Hok as [(_ & _ & _ & _ & Hv & _) _]. destruct (value_nonempty _ Hv) as (y & v & -> & _). cbn. lia. }
    unfold sort_edits. cbn [fold_left insert_edit e_start]. rewrite (proj2 (Nat.ltb_lt _ _)) by (rewrite Hs2, Hs'; unfold m_text; rewrite !length_app; lia).
    apply replace_then_delete; try assumption; try reflexivity; [apply Hkept; rewrite Ek; discriminate|].
    rewrite Hs2, He, front_mid. destruct A; cbn [app]; lia.
Qed.

(** A choice goes and the tools behind it change. *)
Lemma edits_choice_tools (A M C : list Member) (t c : Member) : Forall member_wf (A ++ c :: M ++ t :: C) ->
  let rc := member_range P A c (M ++ t :: C) in
  let rt := member_range P (A ++ c :: M) t C in
  edits_ok (List.length (body (A ++ c :: M ++ t :: C))) 0 (delete_edits [rc; rt]) ->
  exists out, splice (body (A ++ c :: M ++ t :: C)) kept 0 (strip_edits rt (Some rc) kept) = Some out /\
    left_object P post (map kv (A ++ M ++ new_tools t kept ++ C)) out.
Proof.
  intros Hok rc rt Hed. pose proof (later_key P A M C c t) as Hlt. fold rt rc in Hlt.
  unfold strip_edits, new_tools. destruct kept as [|x l] eqn:Ek; rewrite <- Ek in *; cbn [app order_dels delete_edits run_edits].
  - rewrite (proj2 (Nat.ltb_lt _ _)) by lia. rewrite app_nil_r, (delete_two_sorted _ rc rt Hed). apply delete_pair, Hok.
  - destruct (run_edit_spec P A (M ++ t :: C) (M ++ t :: C) c c A) as (Hk & Hs & He). destruct (edit_replace_spec P (A ++ c :: M) C t) as [Hs' He'].
    fold rc in Hk, Hs, He. fold rt in Hs', He'. rewrite front_mid, <- front_back in Hs'.
    unfold sort_edits. cbn [fold_left insert_edit e_start]. rewrite (proj2 (Nat.ltb_ge _ _)).
    2:{ rewrite Hs, Hs', (m_text_core c), !length_app. destruct A as [|a A]; [lia|]. unfold front at 1. rewrite length_app. cbn [List.length]. lia. }
    apply delete_then_replace; try assumption; try reflexivity; [apply Hkept; rewrite Ek; discriminate| |cbn [e_start]; lia].
    rewrite He. destruct A; [|reflexivity]. destruct M; reflexivity.
Qed.
End Arrangements.

(** ** Requests *)

Definition is_image (x : Item) : bool := isImageToolView (view_of (i_val x)).
Definition kept_tools (items : list Item) : list bytes := map i_val (List.filter (fun x => negb (is_image x)) items).
Definition stripped_ids (items : list Item) : list bytes := concat (map (fun x => collectToolIDs (view_of (i_val x)) []) (List.filter is_image items)).

Lemma set_view_raw (tv : ToolView) (key val : bytes) : tv_Raw (set_view tv key val) = tv_Raw tv.
Proof. unfold set_view. repeat (match goal with |- context [if ?b then _ else _] => destruct b end; [reflexivity|]). reflexivity. Qed.

Lemma extract_raw (b : bytes) (fuel : nat) : forall i tv, tv_Raw (extract_loop fuel b i tv) = tv_Raw tv.
Proof.
  induction fuel as [|fuel IH]; intros i tv; cbn [extract_loop]; [reflexivity|]. cbv zeta. destruct (negb _); [reflexivity|].
  destruct (parseJSONString b _) as [[key next]|]; [|reflexivity]. destruct (negb _); [reflexivity|]. destruct (_ <=? _); [reflexivity|].
  unfold view_value. destruct (is_char b _ quote).
  - destruct (parseJSONString b _) as [[val e]|]; [|reflexivity]. rewrite IH. apply set_view_raw.
  - destruct (skipValue b _) as [e|]; [|reflexivity]. rewrite IH. unfold set_result. destruct (beq key (bs "result")); reflexivity.
Qed.

Lemma view_raw (v : bytes) : tv_Raw (view_of v) = v.
Proof.
  unfold view_of. destruct (_ || _); [|reflexivity]. unfold extractKeys. destruct (is_char v _ "{"); [apply extract_raw|reflexivity].
Qed.

Lemma sort_tools (items : list Item) : forall kept ids n, fold_left sort_tool (map (fun x => view_of (i_val x)) items) (kept, ids, n) =
  (kept ++ kept_tools items, ids ++ stripped_ids items, n + List.length (List.filter is_image items)).
Proof.
  unfold kept_tools, stripped_ids. induction items as [|x items IH]; intros kept ids n; cbn [map fold_left List.filter concat List.length].
  - rewrite !app_nil_r, Nat.add_0_r. reflexivity.
  - unfold sort_tool at 2. change (isImageToolView (view_of (i_val x))) with (is_image x). destruct (is_image x); cbn [negb]; rewrite IH.
    + cbn [map concat List.length]. unfold collectToolIDs. cbn [app]. rewrite <- !app_assoc. rewrite Nat.add_succ_comm. reflexivity.
    + rewrite view_raw. cbn [map]. rewrite <- app_assoc. reflexivity.
Qed.

(** The fields after stripping. *)
Definition strip_fields (items : list Item) (fields : list (bytes * bytes)) : list (bytes * bytes) :=
  flat_map (fun '(k, v) =>
    if beq k toolsKey then match kept_tools items with [] => [] | kept => [(k, tools_text kept)] end
    else if beq k toolChoiceKey && toolChoiceDangles v (stripped_ids items) then []
    else [(k, v)]) fields.

Lemma strip_fields_app (items : list Item) (l1 l2 : list (bytes * bytes)) : strip_fields items (l1 ++ l2) = strip_fields items l1 ++ strip_fields items l2.
Proof. apply flat_map_app. Qed.

Lemma beq_neq (a b : bytes) : a <> b -> beq a b = false.
Proof. intros H. unfold beq. apply bool_decide_eq_false. exact H. Qed.

Lemma beq_refl (a : bytes) : beq a a = true.
Proof. unfold beq. apply bool_decide_eq_true. reflexivity. Qed.

(** Fields the edit does not touch. *)
Lemma strip_fields_other (items : list Item) (ms : list Member) :
  toolsKey ∉ map m_key ms -> (forall m, m ∈ ms -> m_key m = toolChoiceKey -> toolChoiceDangles (m_val m) (stripped_ids items) = false) ->
  strip_fields items (map kv ms) = map kv ms.
Proof.
  induction ms as [|m ms IH]; intros Hk Hc; [reflexivity|]. cbn [map] in Hk. rewrite not_elem_of_cons in Hk. destruct Hk as [Hk Hks].
  cbn [map strip_fields flat_map kv]. fold (strip_fields items (map kv ms)). rewrite IH; [|exact Hks|intros x Hx; apply Hc; right; exact Hx].
  rewrite beq_neq by congruence. destruct (beq (m_key m) toolChoiceKey) eqn:E; [|reflexivity]. unfold beq in E. apply bool_decide_eq_true in E.
  rewrite (Hc m ltac:(left) E). reflexivity.
Qed.

Lemma strip_fields_tools (items : list Item) (t : Member) (l : list (bytes * bytes)) : m_key t = toolsKey ->
  strip_fields items (kv t :: l) = map kv (new_tools t (kept_tools items)) ++ strip_fields items l.
Proof.
  intros Ht. cbn [strip_fields flat_map kv]. fold (strip_fields items l). rewrite Ht, beq_refl. unfold new_tools. destruct (kept_tools items); [reflexivity|].
  cbn [map app]. unfold kv, with_val. cbn [m_key m_val]. rewrite Ht. reflexivity.
Qed.

Lemma strip_fields_choice (items : list Item) (c : Member) (l : list (bytes * bytes)) : m_key c = toolChoiceKey ->
  toolChoiceDangles (m_val c) (stripped_ids items) = true -> strip_fields items (kv c :: l) = strip_fields items l.
Proof. intros Hc Hd. cbn [strip_fields flat_map kv]. fold (strip_fields items l). rewrite Hc, beq_refl, Hd. reflexivity. Qed.

Definition chosen (body : bytes) (choice : option topLevelRange) (ids : list bytes) : option (option topLevelRange) :=
  match choice with
  | None => Some None
  | Some r => tc ← go_slice body (r_valStart r) (r_valEnd r); Some (if toolChoiceDangles tc ids then Some r else None)
  end.

(** The rewriting of a request whose tools are an array with an image tool. *)
Lemma strip_apply (body inner : bytes) (rt : topLevelRange) (choice ch : option topLevelRange) (items : list Item) :
  bytes_contains body (bs "image") = true -> scanTopLevelKeys body = (Some rt, choice) ->
  go_slice body (r_valStart rt) (r_valEnd rt) = Some (array_text inner items) -> ws inner -> Forall item_ok items ->
  chosen body choice (stripped_ids items) = Some ch ->
  stripImageTools body = if existsb is_image items then splice body (kept_tools items) 0 (strip_edits rt ch (kept_tools items)) else Some body.
Proof.
  intros Hb Es Hraw Hin Hit Hch. unfold stripImageTools. rewrite Hb, Es, Hraw. cbn [negb mbind option_bind].
  change (is_char (array_text inner items) 0 "[") with true. cbn [negb]. rewrite scanTools_items, sort_tools by assumption. cbn [app Nat.add].
  assert ((List.length (List.filter is_image items) =? 0) = negb (existsb is_image items)) as ->.
  { clear. induction items as [|x items IH]; [reflexivity|]. cbn [List.filter existsb]. destruct (is_image x); [reflexivity|exact IH]. }
  destruct (existsb is_image items); cbn [negb]; [|reflexivity]. fold (chosen body choice (stripped_ids items)). rewrite Hch. cbn [mbind option_bind].
  assert (r_valStart rt < r_valEnd rt) as Hne.
  { unfold go_slice in Hraw. destruct (_ && _); [|discriminate]. injection Hraw as Hraw. apply (is_char_slice body _ _ "["). rewrite Hraw. reflexivity. }
  destruct (strip_splices body rt choice ch (kept_tools items) Es) as (out & _ & ->); [|exact Hne|reflexivity].
  intros r ->. unfold chosen in Hch. destruct choice as [r'|]; [|discriminate].
  destruct (go_slice body (r_valStart r') (r_valEnd r')) as [tc|]; [|discriminate]. cbn in Hch. destruct (toolChoiceDangles tc _); congruence.
Qed.

Lemma scan_keys_object (w post : bytes) (ms : list Member) : ws w -> Forall member_wf ms -> ms <> [] ->
  let P := w ++ ["{"%char] in let b := P ++ members_text ms ++ "}"%char :: post in
  scanTopLevelKeys b = (last_range b toolsKey (layout (List.length P) None ms) None, last_range b toolChoiceKey (layout (List.length P) None ms) None).
Proof.
  intros Hw Hok Hne P b. assert (b = object_text w ms [] post) as Eb.
  { unfold b, P, object_text. destruct ms; [contradiction|]. rewrite <- app_assoc. reflexivity. }
  assert (ws []) as Hnil by constructor. pose proof (visits_object w [] post ms Hw Hok (fun _ => Hnil)) as Hv. rewrite <- Eb in Hv.
  unfold P. rewrite length_app. cbn [List.length]. rewrite Nat.add_1_r, <- Hv. unfold scanTopLevelKeys, visits.
  destruct (is_char b _ "{"); [apply top_level_walk|reflexivity].
Qed.

Lemma value_in_place (P post : bytes) (A B : list Member) (m : Member) :
  let r := member_range P A m B in go_slice (P ++ members_text (A ++ m :: B) ++ "}"%char :: post) (r_valStart r) (r_valEnd r) = Some (m_val m).
Proof.
  cbv zeta. destruct (edit_replace_spec P A B m) as [Hs He]. rewrite mt_mid. unfold m_text.
  replace (P ++ (front A ++ (m_w0 m ++ key_text m ++ m_val m ++ m_w3 m) ++ back B) ++ "}"%char :: post)
    with ((P ++ front A ++ m_w0 m ++ key_text m) ++ m_val m ++ m_w3 m ++ back B ++ "}"%char :: post) by solve_app.
  apply go_slice_mid; [rewrite Hs; solve_len|exact He].
Qed.

Lemma find_key_member (key : bytes) (ms : list Member) : key ∉ map m_key ms \/ exists A c B, ms = A ++ c :: B /\ m_key c = key.
Proof.
  destruct (decide (key ∈ map m_key ms)) as [H|H]; [right|left; exact H]. apply list_elem_of_fmap in H as (c & -> & Hc).
  apply list_elem_of_split in Hc as (A & B & ->). eauto.
Qed.

Lemma kept_value (items : list Item) : Forall item_ok items -> value (tools_text (kept_tools items)).
Proof.
  intros H. unfold tools_text. apply v_nest; [reflexivity|reflexivity|]. apply balanced_commas, Forall_map. rewrite Forall_forall in H |- *.
  intros x Hx. apply list_elem_of_In, filter_In in Hx as [Hx _]. apply list_elem_of_In in Hx. apply value_balanced, (H x Hx).
Qed.

Section Requests.
Context (w post inner : bytes) (items : list Item) (Hw : ws w) (Hin : ws inner) (Hit : Forall item_ok items).
Let P : bytes := w ++ ["{"%char].
Abbreviation body ms := (P ++ members_text ms ++ "}"%char :: post).
Abbreviation dangles m := (toolChoiceDangles (m_val m) (stripped_ids items)).

(** The output for members [ms] is the object with their stripped fields. *)
Definition outcome (ms : list Member) : Prop := exists out, stripImageTools (body ms) = Some out /\
  left_object P post (if existsb is_image items then strip_fields items (map kv ms) else map kv ms) out.

Lemma outcome_intro (ms A B : list Member) (t : Member) (choice ch : option topLevelRange) :
  ms = A ++ t :: B -> Forall member_wf ms -> m_val t = array_text inner items -> bytes_contains (body ms) (bs "image") = true ->
  scanTopLevelKeys (body ms) = (Some (member_range P A t B), choice) -> chosen (body ms) choice (stripped_ids items) = Some ch ->
  (exists out, splice (body ms) (kept_tools items) 0 (strip_edits (member_range P A t B) ch (kept_tools items)) = Some out /\
    left_object P post (strip_fields items (map kv ms)) out) -> outcome ms.
Proof.
  intros Ems Hok Hval Himg Hscan Hch Hsp. unfold outcome.
  rewrite (strip_apply (body ms) inner (member_range P A t B) choice ch items Himg Hscan) by (assumption || (rewrite Ems, value_in_place, Hval; reflexivity)).
  destruct (existsb is_image items); [exact Hsp|]. eexists. split; [reflexivity|]. apply (left_members P post ms); try assumption; try reflexivity.
  rewrite Ems. destruct A; discriminate.
Qed.

(** No choice has to go. *)
Lemma outcome_tools (ms A B : list Member) (t : Member) (choice : option topLevelRange) :
  ms = A ++ t :: B -> Forall member_wf ms -> m_key t = toolsKey -> toolsKey ∉ map m_key A -> toolsKey ∉ map m_key B ->
  m_val t = array_text inner items -> bytes_contains (body ms) (bs "image") = true ->
  scanTopLevelKeys (body ms) = (Some (member_range P A t B), choice) -> chosen (body ms) choice (stripped_ids items) = Some None ->
  (forall m, m ∈ A ++ B -> m_key m = toolChoiceKey -> dangles m = false) -> outcome ms.
Proof.
  intros Ems Hok Hkt HA HB Hval Himg Hscan Hch Hd. eapply outcome_intro; try eassumption. rewrite Ems in *.
  destruct (edits_tools P post (kept_tools items) (fun _ => kept_value items Hit) A B t Hok) as (out & Eo & Hl). exists out. split; [exact Eo|].
  replace (strip_fields items (map kv (A ++ t :: B))) with (map kv (A ++ new_tools t (kept_tools items) ++ B)); [exact Hl|].
  rewrite (map_app kv A (t :: B)). cbn [map]. rewrite strip_fields_app, strip_fields_tools by exact Hkt.
  rewrite !strip_fields_other, !map_app by (try assumption; intros m Hm; apply Hd; apply elem_of_app; auto). reflexivity.
Qed.

(** The order of two members gives the order of their edits. *)
Lemma pair_edits_ok (A M C : list Member) (d1 d2 : Member) (r1 r2 : topLevelRange) :
  r1 = member_range P A d1 (M ++ d2 :: C) -> r2 = member_range P (A ++ d1 :: M) d2 C ->
  forall n, range_ok n r1 -> range_ok n r2 -> range_before r1 r2 \/ range_before r2 r1 -> edits_ok n 0 (delete_edits [r1; r2]).
Proof.
  intros -> -> n H1 H2 H. pose proof (later_key P A M C d1 d2) as Hlt.
  apply delete_two_ok; [exact H1|exact H2|]. destruct H as [H|H]; [exact H|]. unfold range_before, range_ok in *. lia.
Qed.

(** A choice behind the tools goes. *)
Lemma outcome_tools_choice (ms A M C : list Member) (t c : Member) :
  ms = A ++ t :: M ++ c :: C -> Forall member_wf ms -> m_key t = toolsKey -> m_key c = toolChoiceKey ->
  toolsKey ∉ map m_key (A ++ M ++ C) -> toolChoiceKey ∉ map m_key (A ++ M ++ C) ->
  m_val t = array_text inner items -> bytes_contains (body ms) (bs "image") = true ->
  scanTopLevelKeys (body ms) = (Some (member_range P A t (M ++ c :: C)), Some (member_range P (A ++ t :: M) c C)) -> dangles c = true -> outcome ms.
Proof.
  intros Ems Hok Hkt Hkc HT HC Hval Himg Hscan Hd.
  apply (outcome_intro ms A (M ++ c :: C) t _ (Some (member_range P (A ++ t :: M) c C)) Ems Hok Hval Himg Hscan).
  { cbn [chosen]. rewrite Ems. change (A ++ t :: M ++ c :: C) with (A ++ (t :: M) ++ c :: C). rewrite (app_assoc A), value_in_place. cbn. rewrite Hd. reflexivity. }
  destruct (top_level_ranges _ _ _ Hscan) as (Rt & Rc & Rd). rewrite Ems in *.
  destruct (edits_tools_choice P post (kept_tools items) (fun _ => kept_value items Hit) A M C t c Hok) as (out & Eo & Hl).
  { eapply pair_edits_ok; [reflexivity|reflexivity|exact (Rt _ eq_refl)|exact (Rc _ eq_refl)|exact (Rd _ _ eq_refl eq_refl)]. }
  exists out. split; [exact Eo|]. replace (strip_fields items (map kv (A ++ t :: M ++ c :: C))) with (map kv (A ++ new_tools t (kept_tools items) ++ M ++ C)); [exact Hl|].
  rewrite !map_app in HT, HC. rewrite !elem_of_app in HT, HC.
  assert (forall m X, toolChoiceKey ∉ map m_key X -> m ∈ X -> m_key m = toolChoiceKey -> dangles m = false) as Hno.
  { intros m X HX Hm Hk. exfalso. apply HX. rewrite <- Hk. apply list_elem_of_fmap. eauto. }
  rewrite (map_app kv A (t :: _)). cbn [map]. rewrite (map_app kv M (c :: _)). cbn [map].
  rewrite strip_fields_app, strip_fields_tools, strip_fields_app, strip_fields_choice by assumption.
  rewrite !strip_fields_other, !map_app by (try tauto; intros m; apply Hno; tauto). reflexivity.
Qed.

(** A choice in front of the tools goes. *)
Lemma outcome_choice_tools (ms A M C : list Member) (t c : Member) :
  ms = A ++ c :: M ++ t :: C -> Forall member_wf ms -> m_key t = toolsKey -> m_key c = toolChoiceKey ->
  toolsKey ∉ map m_key (A ++ M ++ C) -> toolChoiceKey ∉ map m_key (A ++ M ++ C) ->
  m_val t = array_text inner items -> bytes_contains (body ms) (bs "image") = true ->
  scanTopLevelKeys (body ms) = (Some (member_range P (A ++ c :: M) t C), Some (member_range P A c (M ++ t :: C))) -> dangles c = true -> outcome ms.
Proof.
  intros Ems Hok Hkt Hkc HT HC Hval Himg Hscan Hd.
  apply (outcome_intro ms (A ++ c :: M) C t (Some (member_range P A c (M ++ t :: C))) (Some (member_range P A c (M ++ t :: C)))); try assumption.
  { rewrite Ems, <- app_assoc. reflexivity. }
  { cbn [chosen]. rewrite Ems, value_in_place. cbn. rewrite Hd. reflexivity. }
  destruct (top_level_ranges _ _ _ Hscan) as (Rt & Rc & Rd). rewrite Ems in *.
  destruct (edits_choice_tools P post (kept_tools items) (fun _ => kept_value items Hit) A M C t c Hok) as (out & Eo & Hl).
  { eapply pair_edits_ok; [reflexivity|reflexivity|exact (Rc _ eq_refl)|exact (Rt _ eq_refl)|]. destruct (Rd _ _ eq_refl eq_refl); auto. }
  exists out. split; [exact Eo|]. replace (strip_fields items (map kv (A ++ c :: M ++ t :: C))) with (map kv (A ++ M ++ new_tools t (kept_tools items) ++ C)); [exact Hl|].
  rewrite !map_app in HT, HC. rewrite !elem_of_app in HT, HC.
  assert (forall m X, toolChoiceKey ∉ map m_key X -> m ∈ X -> m_key m = toolChoiceKey -> dangles m = false) as Hno.
  { intros m X HX Hm Hk. exfalso. apply HX. rewrite <- Hk. apply list_elem_of_fmap. eauto. }
  rewrite (map_app kv A (c :: _)). cbn [map]. rewrite (map_app kv M (t :: _)). cbn [map].
  rewrite strip_fields_app, strip_fields_choice, strip_fields_app, strip_fields_tools by assumption.
  rewrite !strip_fields_other, !map_app by (try tauto; intros m; apply Hno; tauto). reflexivity.
Qed.

(** Two members with different keys, in a list of distinct keys. *)
Lemma split_two (ms A M C : list Member) (m1 m2 : Member) (k1 k2 : bytes) : ms = A ++ m1 :: M ++ m2 :: C -> NoDup (map m_key ms) ->
  m_key m1 = k1 -> m_key m2 = k2 ->
  (k1 ∉ map m_key (A ++ M ++ C)) /\ (k2 ∉ map m_key (A ++ M ++ C)) /\ (k1 ∉ map m_key (M ++ m2 :: C)) /\ (k2 ∉ map m_key C) /\ (k2 ∉ map m_key (A ++ m1 :: M)).
Proof.
  intros -> Hnd <- <-. assert (NoDup (m_key m1 :: m_key m2 :: map m_key (A ++ M ++ C))) as H.
  { change (m_key m1 :: m_key m2 :: map m_key (A ++ M ++ C)) with (map m_key (m1 :: m2 :: A ++ M ++ C)).
    assert (A ++ m1 :: M ++ m2 :: C ≡ₚ m1 :: m2 :: A ++ M ++ C) as Hp by (rewrite <- Permutation_middle, !app_assoc, <- Permutation_middle; reflexivity).
    rewrite <- Hp. exact Hnd. }
  apply NoDup_cons in H as [H1 H]. apply NoDup_cons in H as [H2 _]. rewrite not_elem_of_cons in H1. destruct H1 as [Hne H1].
  rewrite !map_app in *. cbn [map]. rewrite !not_elem_of_app, !not_elem_of_cons in *. naive_solver.
Qed.

Lemma scan_two (ms A M C : list Member) (m1 m2 : Member) : ms = A ++ m1 :: M ++ m2 :: C -> Forall member_wf ms -> NoDup (map m_key ms) ->
  (m_key m1 = toolsKey -> m_key m2 = toolChoiceKey ->
   scanTopLevelKeys (body ms) = (Some (member_range P A m1 (M ++ m2 :: C)), Some (member_range P (A ++ m1 :: M) m2 C))) /\
  (m_key m1 = toolChoiceKey -> m_key m2 = toolsKey ->
   scanTopLevelKeys (body ms) = (Some (member_range P (A ++ m1 :: M) m2 C), Some (member_range P A m1 (M ++ m2 :: C)))).
Proof.
  intros Ems Hok Hnd. assert (ms <> []) as Hne by (rewrite Ems; destruct A; discriminate).
  assert (ms = (A ++ m1 :: M) ++ m2 :: C) as Ems2 by (rewrite Ems, <- app_assoc; reflexivity).
  split; intros Hk1 Hk2; destruct (split_two ms A M C m1 m2 _ _ Ems Hnd Hk1 Hk2) as (_ & _ & H1 & H2 & _).
  all: unfold P; rewrite (scan_keys_object w post ms Hw Hok Hne); fold P; f_equal; [|].
  all: first [rewrite Ems in *; apply last_range_member; assumption | rewrite Ems2 in *; apply last_range_member; assumption].
Qed.

Lemma outcome_object (ms : list Member) (t : Member) : Forall member_wf ms -> NoDup (map m_key ms) -> t ∈ ms -> m_key t = toolsKey ->
  m_val t = array_text inner items -> bytes_contains (body ms) (bs "image") = true -> outcome ms.
Proof.
  intros Hok Hnd Ht Hkt Hval Himg. destruct (find_key_member toolChoiceKey ms) as [Hnoc|(A & c & B & Ems & Hkc)].
  - apply list_elem_of_split in Ht as (A & B & Ems). assert (ms <> []) as Hne by (rewrite Ems; destruct A; discriminate).
    assert ((toolsKey ∉ map m_key A) /\ (toolsKey ∉ map m_key B)) as [HA HB].
    { rewrite Ems, map_app in Hnd. cbn [map] in Hnd. rewrite Hkt in Hnd. apply NoDup_app in Hnd as (_ & H1 & H2). apply NoDup_cons in H2 as [H2 _].
      split; [|exact H2]. intros H. apply (H1 _ H). left. }
    apply (outcome_tools ms A B t None); try assumption; try reflexivity.
    + unfold P. rewrite (scan_keys_object w post ms Hw Hok Hne). fold P. f_equal; [|apply last_range_absent; rewrite layout_keys; exact Hnoc].
      rewrite Ems in *. apply last_range_member; assumption.
    + intros m Hm Hk. exfalso. apply Hnoc. rewrite <- Hk, Ems. apply list_elem_of_fmap. exists m. split; [reflexivity|].
      rewrite elem_of_app, elem_of_cons in *. tauto.
  - rewrite Ems, elem_of_app, elem_of_cons in Ht. destruct Ht as [Ht|[->|Ht]]; [|rewrite Hkc in Hkt; discriminate Hkt|].
    + apply list_elem_of_split in Ht as (A1 & M & ->). rewrite <- app_assoc in Ems. cbn [app] in Ems.
      destruct (split_two ms A1 M B t c _ _ Ems Hnd Hkt Hkc) as (H1 & H2 & H3 & H4 & H5). pose proof (proj1 (scan_two ms A1 M B t c Ems Hok Hnd) Hkt Hkc) as Hscan.
      destruct (dangles c) eqn:Hd; [apply (outcome_tools_choice ms A1 M B t c); assumption|].
      apply (outcome_tools ms A1 (M ++ c :: B) t (Some (member_range P (A1 ++ t :: M) c B)) Ems Hok Hkt); [|exact H3|exact Hval|exact Himg|exact Hscan| |].
      * intros H. apply H1. rewrite map_app, elem_of_app. auto.
      * cbn [chosen]. rewrite Ems. change (A1 ++ t :: M ++ c :: B) with (A1 ++ (t :: M) ++ c :: B). rewrite (app_assoc A1), value_in_place. cbn. rewrite Hd. reflexivity.
      * intros m Hm Hk. rewrite !elem_of_app, elem_of_cons in Hm. assert (m = c \/ m ∈ A1 ++ M ++ B) as [->|Hm'] by (rewrite !elem_of_app; tauto);
          [exact Hd|]. exfalso. apply H2. rewrite <- Hk. apply list_elem_of_fmap. eauto.
    + apply list_elem_of_split in Ht as (M & C & ->). destruct (split_two ms A M C c t _ _ Ems Hnd Hkc Hkt) as (H1 & H2 & H3 & H4 & H5).
      pose proof (proj2 (scan_two ms A M C c t Ems Hok Hnd) Hkc Hkt) as Hscan.
      destruct (dangles c) eqn:Hd; [apply (outcome_choice_tools ms A M C t c); assumption|].
      apply (outcome_tools ms (A ++ c :: M) C t (Some (member_range P A c (M ++ t :: C)))); try assumption; [rewrite Ems, <- app_assoc; reflexivity| |].
      * cbn [chosen]. rewrite Ems, value_in_place. cbn. rewrite Hd. reflexivity.
      * intros m Hm Hk. rewrite !elem_of_app, elem_of_cons in Hm. assert (m = c \/ m ∈ A ++ M ++ C) as [->|Hm'] by (rewrite !elem_of_app; tauto);
          [exact Hd|]. exfalso. apply H1. rewrite <- Hk. apply list_elem_of_fmap. eauto.
Qed.
End Requests.

(** C24: Stripping is exact.  On a request that is a well-formed object with
    distinct keys, whose [tools] is an array and whose text contains the word
    [image] (a type that is written with an escape in it passes unread,
    [escaped_tool_passes]), the output is again a well-formed object.  When one of the tools is an image tool,
    its members are those of the request, in order and with their bytes, except
    that [tools] holds the bytes of the other tools (or is gone when there are
    none) and a [tool_choice] that names a stripped tool is gone; when none is,
    the members are those of the request. *)
Theorem strip_exact (w post inner : bytes) (ms : list Member) (t : Member) (items : list Item) :
  ws w -> Forall member_wf ms -> NoDup (map m_key ms) -> t ∈ ms -> m_key t = toolsKey ->
  m_val t = array_text inner items -> ws inner -> Forall item_ok items ->
  bytes_contains (object_text w ms [] post) (bs "image") = true ->
  exists ms' inner', Forall member_wf ms' /\ ws inner' /\
    stripImageTools (object_text w ms [] post) = Some (object_text w ms' inner' post) /\
    map kv ms' = if existsb is_image items then strip_fields items (map kv ms) else map kv ms.
Proof.
  intros Hw Hok Hnd Ht Hkt Hval Hin Hit Himg. assert (ms <> []) as Hne by (intros ->; apply elem_of_nil in Ht; exact Ht).
  assert (forall ms inner, ((w ++ ["{"%char]) ++ (match ms with [] => inner | _ => members_text ms end) ++ "}"%char :: post) = object_text w ms inner post) as Eb.
  { intros l i. unfold object_text. rewrite <- app_assoc. reflexivity. }
  assert ((w ++ ["{"%char]) ++ members_text ms ++ "}"%char :: post = object_text w ms [] post) as Eb' by (rewrite <- Eb; destruct ms; [contradiction|reflexivity]).
  rewrite <- Eb' in Himg. destruct (outcome_object w post inner items Hw Hin Hit ms t Hok Hnd Ht Hkt Hval Himg) as (out & Eo & ms' & inner' & H1 & H2 & H3 & ->).
  exists ms', inner'. rewrite Eb in Eo. rewrite Eb' in Eo. auto.
Qed.

Lemma array_value (inner : bytes) (items : list Item) : ws inner -> Forall item_ok items -> value (array_text inner items).
Proof.
  intros Hin Hit. apply v_nest; [reflexivity|reflexivity|]. assert (balanced (commas (map item_text items))) as Hb.
  { apply balanced_commas, Forall_map. eapply Forall_impl; [exact Hit|]. intros x (H1 & H2 & H3). unfold item_text.
    repeat apply balanced_app; [apply ws_balanced, H1|apply value_balanced, H2|apply ws_balanced, H3]. }
  destruct items; [apply ws_balanced, Hin|exact Hb].
Qed.

(** A request with an image tool, another tool and a choice of the first. *)
Definition tool_json (type : string) : json := JObj [(bs "type", JStr (bs type))].
Definition demo_items : list Item := [mkItem [] (render (tool_json "image_edits")) []; mkItem (bs " ") (render (tool_json "function")) []].
Definition demo_tools : Member := mkMember (bs " ") toolsKey [] (bs " ") (array_text [] demo_items) [].
Definition demo_request : list Member :=
  [mkMember [] (bs "model") [] [] (render (JStr (bs "m"))) []; demo_tools; mkMember [] toolChoiceKey [] [] (render (tool_json "image_edits")) []].

Lemma strip_exact_witness : exists ms' inner', Forall member_wf ms' /\ ws inner' /\
  stripImageTools (object_text [] demo_request [] []) = Some (object_text [] ms' inner' []) /\
  map kv ms' = [(bs "model", render (JStr (bs "m"))); (toolsKey, tools_text [render (tool_json "function")])].
Proof.
  assert (forall j, json_ok j -> value (render j)) as Hr by (intros j Hj; exact (prints_value j _ (prints_render j Hj))).
  assert (Forall item_ok demo_items) as Hit.
  { unfold demo_items. repeat (apply List.Forall_cons || apply List.Forall_nil); unfold item_ok; cbn [i_w i_val i_w']; split_and!;
      try (apply Hr; unfold tool_json); repeat (constructor || discriminate). }
  assert (value (array_text [] demo_items)) as Ha by (apply array_value; [constructor|exact Hit]).
  apply (strip_exact [] [] [] demo_request demo_tools demo_items); try reflexivity; try exact Hit.
  - constructor.
  - repeat (apply List.Forall_cons || apply List.Forall_nil); unfold member_wf; cbn [m_w0 m_key m_w1 m_w2 m_val m_w3]; split_and!; try exact Ha;
      try (apply Hr; unfold tool_json); repeat (constructor || discriminate).
  - apply (bool_decide_unpack _). vm_compute. exact I.
  - right. left.
  - constructor.
Defined.

(** The escaped spelling of an image tool is stripped when the request has the
    letters [image] elsewhere, and passes when it has not. *)
Theorem escaped_tool_passes :
  let tool := bs "{'type':'" ++ backslash :: bs "u0069mage_edits'}" in
  let request (rest : string) := map (fun c => if Ascii.eqb c "'" then quote else c) (bs "{'tools':[" ++ tool ++ bs ("]" ++ rest ++ "}")%string) in
  stripImageTools (request EmptyString) = Some (request EmptyString) /\
  stripImageTools (request ",'user':'image'"%string) = Some (map (fun c => if Ascii.eqb c "'" then quote else c) (bs "{'user':'image'}")).
Proof. split; vm_compute; reflexivity. Qed.
