(* ===== verification/RequestCheck.v ===== *)
(** * Checking the types of request fields ([internal/proxy/request_validation.go])

    Before an upstream slot is used, the known top-level fields of a request are
    checked for their JSON type, on the bytes.  A kind is a set of types as bits.
    The theorem compares the check with the same rules on the decoded document, for
    objects whose keys are written without escapes and once each; the last theorem
    shows what the check lets pass otherwise. *)

From Stdlib Require Import ZArith Lia List Bool String Ascii.
From stdpp Require Import base option list.
From S2P Require Import Prelude GoString Domain JsonScan JsonText GoJson Decoded.
Import ListNotations.
Local Open Scope string_scope.
Local Open Scope Z_scope.

(** ** Kinds and fields *)

Definition requestJSONKind : Type := Z.
Definition requestJSONNull : requestJSONKind := Z.shiftl 1 0.
Definition requestJSONString : requestJSONKind := Z.shiftl 1 1.
Definition requestJSONBool : requestJSONKind := Z.shiftl 1 2.
Definition requestJSONNumber : requestJSONKind := Z.shiftl 1 3.
Definition requestJSONInteger : requestJSONKind := Z.shiftl 1 4.
Definition requestJSONObject : requestJSONKind := Z.shiftl 1 5.
Definition requestJSONArray : requestJSONKind := Z.shiftl 1 6.

Record requestFieldSpec := mkSpec { fs_key : bytes; fs_kinds : requestJSONKind; fs_label : string }.
Record requestFieldSet := mkSet { set_specs : list requestFieldSpec; set_keys : list bytes }.

Definition newRequestFieldSet (specs : list requestFieldSpec) : requestFieldSet := mkSet specs (map fs_key specs).
Definition requestField (key label : string) (kinds : requestJSONKind) : requestFieldSpec := mkSpec (bs key) (Z.lor kinds requestJSONNull) label.

Definition chatRequestFields : requestFieldSet := newRequestFieldSet [
    requestField "messages" "an array" requestJSONArray;
    requestField "model" "a string" requestJSONString;
    requestField "frequency_penalty" "a number" requestJSONNumber;
    requestField "logprobs" "a boolean" requestJSONBool;
    requestField "max_completion_tokens" "an integer" requestJSONInteger;
    requestField "max_tokens" "an integer" requestJSONInteger;
    requestField "n" "an integer" requestJSONInteger;
    requestField "presence_penalty" "a number" requestJSONNumber;
    requestField "seed" "an integer" requestJSONInteger;
    requestField "store" "a boolean" requestJSONBool;
    requestField "temperature" "a number" requestJSONNumber;
    requestField "top_logprobs" "an integer" requestJSONInteger;
    requestField "top_p" "a number" requestJSONNumber;
    requestField "parallel_tool_calls" "a boolean" requestJSONBool;
    requestField "prompt_cache_key" "a string" requestJSONString;
    requestField "safety_identifier" "a string" requestJSONString;
    requestField "user" "a string" requestJSONString;
    requestField "audio" "an object" requestJSONObject;
    requestField "logit_bias" "an object" requestJSONObject;
    requestField "metadata" "an object" requestJSONObject;
    requestField "modalities" "an array" requestJSONArray;
    requestField "reasoning_effort" "a string" requestJSONString;
    requestField "service_tier" "a string" requestJSONString;
    requestField "stop" "a string or array" (Z.lor requestJSONString requestJSONArray);
    requestField "stream" "a boolean" requestJSONBool;
    requestField "stream_options" "an object" requestJSONObject;
    requestField "function_call" "a string or object" (Z.lor requestJSONString requestJSONObject);
    requestField "functions" "an array" requestJSONArray;
    requestField "prediction" "an object" requestJSONObject;
    requestField "response_format" "an object" requestJSONObject;
    requestField "tool_choice" "a string or object" (Z.lor requestJSONString requestJSONObject);
    requestField "tools" "an array" requestJSONArray;
    requestField "web_search_options" "an object" requestJSONObject].

Definition responsesRequestFields : requestFieldSet := newRequestFieldSet [
    requestField "background" "a boolean" requestJSONBool;
    requestField "instructions" "a string" requestJSONString;
    requestField "max_output_tokens" "an integer" requestJSONInteger;
    requestField "max_tool_calls" "an integer" requestJSONInteger;
    requestField "parallel_tool_calls" "a boolean" requestJSONBool;
    requestField "previous_response_id" "a string" requestJSONString;
    requestField "store" "a boolean" requestJSONBool;
    requestField "temperature" "a number" requestJSONNumber;
    requestField "top_logprobs" "an integer" requestJSONInteger;
    requestField "top_p" "a number" requestJSONNumber;
    requestField "prompt_cache_key" "a string" requestJSONString;
    requestField "safety_identifier" "a string" requestJSONString;
    requestField "include" "an array" requestJSONArray;
    requestField "metadata" "an object" requestJSONObject;
    requestField "prompt" "an object" requestJSONObject;
    requestField "service_tier" "a string" requestJSONString;
    requestField "truncation" "a string" requestJSONString;
    requestField "input" "a string or array" (Z.lor requestJSONString requestJSONArray);
    requestField "model" "a string" requestJSONString;
    requestField "reasoning" "an object" requestJSONObject;
    requestField "text" "an object" requestJSONObject;
    requestField "tool_choice" "a string or object" (Z.lor requestJSONString requestJSONObject);
    requestField "tools" "an array" requestJSONArray;
    requestField "stream" "a boolean" requestJSONBool].

Definition anthropicRequestFields : requestFieldSet := newRequestFieldSet [
    requestField "max_tokens" "an integer" requestJSONInteger;
    requestField "messages" "an array" requestJSONArray;
    requestField "model" "a string" requestJSONString;
    requestField "container" "a string" requestJSONString;
    requestField "inference_geo" "a string" requestJSONString;
    requestField "temperature" "a number" requestJSONNumber;
    requestField "top_k" "an integer" requestJSONInteger;
    requestField "top_p" "a number" requestJSONNumber;
    requestField "cache_control" "an object" requestJSONObject;
    requestField "metadata" "an object" requestJSONObject;
    requestField "output_config" "an object" requestJSONObject;
    requestField "service_tier" "a string" requestJSONString;
    requestField "stop_sequences" "an array" requestJSONArray;
    requestField "system" "a string or array" (Z.lor requestJSONString requestJSONArray);
    requestField "thinking" "an object" requestJSONObject;
    requestField "tool_choice" "an object" requestJSONObject;
    requestField "tools" "an array" requestJSONArray;
    requestField "stream" "a boolean" requestJSONBool].

Definition requestFieldsFor (format : RequestFormat) : requestFieldSet :=
  if format ==s FormatOpenAIChat then chatRequestFields
  else if format ==s FormatOpenAIResponses then responsesRequestFields
  else if format ==s FormatAnthropic then anthropicRequestFields
  else mkSet [] [].

(** ** The check *)

(** [bytes.TrimSpace]. *)
Definition trim_space (raw : bytes) : bytes := bs (TrimSpace (string_of_list_ascii raw)).

Definition requestJSONValueKind (raw : bytes) : requestJSONKind :=
  match trim_space raw with
  | [] => 0
  | c :: _ =>
      if Ascii.eqb c "n" then requestJSONNull
      else if Ascii.eqb c quote then requestJSONString
      else if Ascii.eqb c "t" || Ascii.eqb c "f" then requestJSONBool
      else if Ascii.eqb c "{" then requestJSONObject
      else if Ascii.eqb c "[" then requestJSONArray
      else requestJSONNumber
  end.

Definition isJSONInteger (raw : bytes) : bool :=
  let raw := trim_space raw in
  match raw with
  | [] => false
  | _ => if existsb (fun c => existsb (Ascii.eqb c) (bs ".eE")) raw then false else isSome (ParseInt (string_of_list_ascii raw))
  end.

Definition requestJSONKindMatches (kind allowed : requestJSONKind) (raw : bytes) : bool :=
  if kind =? requestJSONNumber then
    if negb (Z.land allowed requestJSONInteger =? 0) && isJSONInteger raw then true
    else negb (Z.land allowed requestJSONNumber =? 0)
  else negb (Z.land allowed kind =? 0).

(** The first byte above a blank is an opening brace. *)
Fixpoint isJSONObjectRoot (body : bytes) : bool :=
  match body with [] => false | c :: body => if 32 <? byte_val c then Ascii.eqb c "{" else isJSONObjectRoot body end.

Definition errBodyNotObject : string := "body must be a JSON object".

Definition type_error (spec : requestFieldSpec) : string := string_of_list_ascii (fs_key spec) ++ " must be " ++ fs_label spec.

(** The loop over the fields and their values; [None] is no error. *)
Fixpoint validate_fields (specs : list requestFieldSpec) (values : list (option bytes)) : option string :=
  match specs, values with
  | spec :: specs, v :: values =>
      match default [] v with
      | [] => validate_fields specs values
      | raw => if requestJSONKindMatches (requestJSONValueKind raw) (fs_kinds spec) raw then validate_fields specs values else Some (type_error spec)
      end
  | _, _ => None
  end.

Definition validateRequestParameterTypes (format : RequestFormat) (body : bytes) : option string :=
  let set := requestFieldsFor format in
  match set_specs set with
  | [] => None
  | _ =>
      if negb (isJSONObjectRoot body) then Some errBodyNotObject
      else validate_fields (set_specs set) (scanKeys body (set_keys set)).1
  end.

(** ** The same rules on a document *)

Definition allows (kinds : requestJSONKind) (kind : requestJSONKind) : bool := negb (Z.land kinds kind =? 0).

Definition fits (kinds : requestJSONKind) (d : doc) : bool :=
  match d with
  | DNull => allows kinds requestJSONNull
  | DTrue | DFalse => allows kinds requestJSONBool
  | DNum t => allows kinds requestJSONNumber || allows kinds requestJSONInteger && isSome (ParseInt (string_of_list_ascii t))
  | DStr _ => allows kinds requestJSONString
  | DArr _ => allows kinds requestJSONArray
  | DObj _ => allows kinds requestJSONObject
  end.

(** The first field with a value of the wrong type. *)
Fixpoint first_misfit (specs : list requestFieldSpec) (d : doc) : option string :=
  match specs with
  | [] => None
  | spec :: specs =>
      match doc_get d (fs_key spec) with
      | None => first_misfit specs d
      | Some v => if fits (fs_kinds spec) v then first_misfit specs d else Some (type_error spec)
      end
  end.

(** *** Blanks *)

Lemma trim_right_head (p : ascii -> bool) (c : ascii) (s : string) : p c = false -> exists s', trim_right p (String c s) = String c s'.
Proof. intros H. cbn. destruct (trim_right p s); [rewrite H|]; eauto. Qed.

Lemma trim_space_head (c : ascii) (l : bytes) : is_space c = false -> exists l', trim_space (c :: l) = c :: l'.
Proof.
  intros H. unfold trim_space, TrimSpace, trim_by. cbn [string_of_list_ascii]. rewrite trim_left_head by exact H.
  destruct (trim_right_head is_space c (string_of_list_ascii l) H) as [s' ->]. exists (bs s'). reflexivity.
Qed.

Lemma num_not_space (c : ascii) : num_char c = true -> is_space c = false.
Proof. destruct c as [[] [] [] [] [] [] [] []]; intros H; (discriminate H || reflexivity). Qed.

Lemma trim_space_num (t : bytes) : Forall (fun c => num_char c = true) t -> trim_space t = t.
Proof.
  intros H. unfold trim_space, TrimSpace. rewrite trim_by_none; [apply list_ascii_of_string_of_list_ascii|].
  induction H as [|c t Hc _ IH]; [reflexivity|]. cbn [string_of_list_ascii none_of]. rewrite (num_not_space c Hc). exact IH.
Qed.

(** *** Integers *)

(** What [ParseInt] reads to its end has digits only. *)
Lemma scan_digits_plain (s : string) (c : ascii) : forall v, existsb (Ascii.eqb c) (list_ascii_of_string s) = true -> is_digit c = false ->
  (scan_digits v s).2 <> EmptyString.
Proof.
  induction s as [|d s IH]; intros v; cbn; [discriminate|]. intros H Hc. destruct (is_digit d) eqn:Ed; [|discriminate].
  destruct (Ascii.eqb_spec c d) as [->|_]; [congruence|]. apply IH; assumption.
Qed.

Lemma scan_sign_rest (s : string) : (scan_sign s).2 = s \/ exists c, s = String c (scan_sign s).2 /\ (c = "+"%char \/ c = "-"%char).
Proof.
  unfold scan_sign. destruct s as [|c s]; [left; reflexivity|]. destruct c as [[] [] [] [] [] [] [] []]; cbn; auto; right; eexists; (split; [reflexivity|]); auto.
Qed.

Lemma ParseInt_plain (t : bytes) (c : ascii) : existsb (Ascii.eqb c) t = true -> is_digit c = false -> c <> "+"%char -> c <> "-"%char ->
  ParseInt (string_of_list_ascii t) = None.
Proof.
  intros H Hd Hp Hm. unfold ParseInt. pose proof (scan_sign_rest (string_of_list_ascii t)) as Hr. destruct (scan_sign _) as [sg s2]. cbn [snd] in Hr.
  assert (existsb (Ascii.eqb c) (list_ascii_of_string s2) = true) as Hs.
  { rewrite <- (list_ascii_of_string_of_list_ascii t) in H. destruct Hr as [->|(d & E & Hpm)]; [exact H|]. rewrite E in H. cbn in H.
    destruct (Ascii.eqb_spec c d) as [->|_]; [destruct Hpm; contradiction|exact H]. }
  destruct s2 as [|x s2]; [reflexivity|]. destruct (is_digit x); [|reflexivity]. pose proof (scan_digits_plain (String x s2) c 0 Hs Hd) as Hn.
  destruct (scan_digits 0 (String x s2)) as [v rest]. cbn [snd] in Hn. destruct rest; [contradiction|reflexivity].
Qed.

Lemma isJSONInteger_num (t : bytes) : t <> [] -> Forall (fun c => num_char c = true) t -> isJSONInteger t = isSome (ParseInt (string_of_list_ascii t)).
Proof.
  intros Hne Ht. unfold isJSONInteger. rewrite trim_space_num by exact Ht. destruct t as [|x t]; [contradiction|].
  destruct (existsb _ (x :: t)) eqn:E; [|reflexivity]. apply existsb_exists in E as (c & Hc & E). apply existsb_exists in E as (d & Hd & E).
  apply Ascii.eqb_eq in E. subst d. rewrite (ParseInt_plain (x :: t) c); [reflexivity| | | |].
  - apply existsb_exists. exists c. split; [exact Hc|apply Ascii.eqb_refl].
  - destruct Hd as [<-|[<-|[<-|[]]]]; reflexivity.
  - destruct Hd as [<-|[<-|[<-|[]]]]; discriminate.
  - destruct Hd as [<-|[<-|[<-|[]]]]; discriminate.
Qed.

(** *** A value *)

Lemma kind_head (c : ascii) (l : bytes) : is_space c = false -> requestJSONValueKind (c :: l) =
  (if Ascii.eqb c "n" then requestJSONNull else if Ascii.eqb c quote then requestJSONString else if Ascii.eqb c "t" || Ascii.eqb c "f" then requestJSONBool
   else if Ascii.eqb c "{" then requestJSONObject else if Ascii.eqb c "[" then requestJSONArray else requestJSONNumber).
Proof. intros H. unfold requestJSONValueKind. destruct (trim_space_head c l H) as [l' ->]. reflexivity. Qed.

Lemma kind_matches (j : json) (v : bytes) (kinds : requestJSONKind) : prints j v ->
  v <> [] /\ requestJSONKindMatches (requestJSONValueKind v) kinds v = fits kinds (decoded j).
Proof.
  intros H. destruct j as [| | |t|s|l|l]; cbn [prints fits decoded] in *.
  1-3: subst; split; [discriminate|reflexivity].
  - destruct H as (-> & Hne & Ht). split; [exact Hne|]. destruct t as [|c t]; [contradiction|]. pose proof Ht as Ht'. apply Forall_cons in Ht' as [Hc _].
    destruct (num_char_plain c Hc) as (_ & Hq & Ho & H1 & H2 & H3). unfold opens in Ho. apply orb_false_iff in Ho as [Ho1 Ho2].
    rewrite kind_head by (apply num_not_space, Hc). rewrite H1, H2, H3, Hq, Ho1, Ho2. cbn [orb]. unfold requestJSONKindMatches. rewrite Z.eqb_refl.
    rewrite isJSONInteger_num by assumption. unfold allows. destruct (negb (Z.land kinds requestJSONInteger =? 0)), (isSome _), (negb (Z.land kinds requestJSONNumber =? 0)); reflexivity.
  - destruct H as [-> _]. split; [discriminate|]. rewrite kind_head by reflexivity. reflexivity.
  - destruct H as (inner & xs & -> & _). split; [discriminate|]. rewrite kind_head by reflexivity. reflexivity.
  - destruct H as (inner & ms & -> & _). split; [discriminate|]. unfold object_text. cbn [app]. rewrite kind_head by reflexivity. reflexivity.
Qed.

(** C39: The byte-level type check rejects exactly what the rules on the decoded
    document reject, with the same message: on any text of a JSON object whose keys
    are written without escapes and once each, for every request format, the first
    known field (in the order of the table) whose value has a wrong type is
    reported, integers being what fits an [int64] without a fraction or exponent;
    fields that are absent, null or unknown pass.  Strings, nested objects and
    arrays are as they like, escapes and repeated keys included.  The fixed array
    of values has room for every table. *)
Theorem request_types_checked (format : RequestFormat) (l : list (bytes * json)) (raw : bytes) : prints (JObj l) raw -> plain_keys l = true ->
  validateRequestParameterTypes format raw = first_misfit (set_specs (requestFieldsFor format)) (decoded (JObj l)) /\
  (List.length (set_keys (requestFieldsFor format)) <= 40)%nat.
Proof.
  intros H Hp. split.
  2:{ unfold requestFieldsFor. repeat (match goal with |- context [if ?b then _ else _] => destruct b end); vm_compute; lia. }
  unfold validateRequestParameterTypes. assert (isJSONObjectRoot raw = true) as -> by (destruct H as (inner & ms & -> & _); reflexivity). cbn [negb].
  assert (set_keys (requestFieldsFor format) = map fs_key (set_specs (requestFieldsFor format))) as ->.
  { unfold requestFieldsFor. repeat (match goal with |- context [if ?b then _ else _] => destruct b end); reflexivity. }
  generalize (set_specs (requestFieldsFor format)). intros specs. transitivity (validate_fields specs (scanKeys raw (map fs_key specs)).1); [destruct specs; reflexivity|].
  rewrite scanKeys_map, map_map. induction specs as [|spec specs IH]; [reflexivity|]. cbn [map validate_fields first_misfit].
  cbn [doc_get decoded]. rewrite plain_field by exact Hp.
  destruct (prints_field l raw (fs_key spec) H) as [v j Hv|]; [|exact IH]. change (default [] (Some v)) with v. cbn [option_map fmap option_fmap].
  destruct (kind_matches j v (fs_kinds spec) Hv) as [Hne Hm]. destruct v as [|x v]; [contradiction|]. rewrite Hm, IH. reflexivity.
Qed.

Definition demo_body : list (bytes * json) :=
  [(bs "model", JStr (bs "gpt\u0034")); (bs "n", JNum (bs "1e3")); (bs "extra", JTrue)].

Lemma request_types_checked_witness :
  validateRequestParameterTypes FormatOpenAIChat (render (JObj demo_body)) = Some "n must be an integer" /\
  (List.length (set_keys (requestFieldsFor FormatOpenAIChat)) <= 40)%nat.
Proof.
  apply (request_types_checked FormatOpenAIChat demo_body (render (JObj demo_body))); [|vm_compute; reflexivity]. apply prints_render. unfold demo_body.
  repeat first [apply sb_esc | constructor | discriminate].
Defined.

(** What the check lets pass.  The scanner compares raw keys and takes the first
    of several: a model that is a number passes when its key is written with an
    escape, and a count that is a string passes behind a count that is a number,
    while the decoded documents, which the client's JSON library would produce,
    break the rules. *)
Theorem misfits_pass_unread :
  let escaped := [(bs "mod\u0065l", JNum (bs "5"))] in
  let twice := [(bs "n", JNum (bs "1")); (bs "n", JStr (bs "x"))] in
  let rules := set_specs (requestFieldsFor FormatOpenAIChat) in
  (validateRequestParameterTypes FormatOpenAIChat (render (JObj escaped)) = None /\
   first_misfit rules (decoded (JObj escaped)) = Some "model must be a string") /\
  (validateRequestParameterTypes FormatOpenAIChat (render (JObj twice)) = None /\
   first_misfit rules (decoded (JObj twice)) = Some "n must be an integer").
Proof. vm_compute. split_and!; reflexivity. Qed.
