(* ===== verification/Recorder.v ===== *)
(** * Persisting usage rows ([internal/usage/usage.go])

    Request handlers append rows to a pending list and add to per-key quota
    increments; a flush swaps the list out, inserts it in batches by several
    workers, and puts back what could not be inserted.  A batch that fails is
    bisected to find a single bad row.  A call that outlives its context keeps its
    rows pending, out of further flushes, until its result is known.

    The database is an environment that may answer anything at any call; what it
    committed, rejected and has not answered yet is recorded in the world. *)

From Stdlib Require Import ZArith Lia List Bool String Ascii Permutation.
From stdpp Require Import base option list gmap sets.
From S2P Require Import Prelude GoString Domain UsageBilling.
Import ListNotations.
Local Open Scope Z_scope.
Local Open Scope list_scope.

(** ** Rows *)

(** A row is a [*domain.UsageLog]: its address and its content. *)
Record Row := mkRow {
  row_ptr : nat; row_RequestID : string; row_LatencyMS : Z; row_TTFTMS : option Z; row_log : UsageLog
}.

Definition row_KeyID (l : Row) : Z := ul_KeyID (ul_owner (row_log l)).
Definition row_UserID (l : Row) : Z := ul_UserID (ul_owner (row_log l)).
Definition row_TotalTokens (l : Row) : Z := ul_TotalTokens (ul_usage (row_log l)).

Definition nonNegative (v : Z) : Z := if v <? 0 then 0 else v.

(** [normalizeUsageLog]. *)
Definition normalizeUsageLog (l : Row) : Row :=
  let u := ul_usage (row_log l) in
  let c := ul_charge (row_log l) in
  let u' := mkUsage (nonNegative (ul_InputTokens u)) (nonNegative (ul_OutputTokens u)) (nonNegative (ul_TotalTokens u))
              (nonNegative (ul_CacheReadTokens u)) (nonNegative (ul_CacheCreationTokens u)) (nonNegative (ul_CallCount u)) in
  let c' := mkCharge (nonNegative (ul_Cost c)) (nonNegative (ul_RawCost c)) (ul_BillingTier c) (ul_AboveHit c) (ul_Billed c) in
  mkRow (row_ptr l) (row_RequestID l) (nonNegative (row_LatencyMS l)) (nonNegative <$> row_TTFTMS l)
    (with_charge (with_usage (row_log l) u') c').

Definition saturatingAdd (a b : Z) : Z :=
  if b <=? 0 then a
  else
    let a := if a <? 0 then 0 else a in
    if a >? max64 [-] b then max64 else a [+] b.

(** ** State *)

Definition pendingWaterline : Z := 1000000.
Definition quotaBatchSize : nat := 500.

Record Recorder := mkRecorder {
  r_BatchSize : nat;
  r_workers : nat;
  r_quota : bool;                    (* a quota writer is injected *)
  r_pending : list Row;
  r_inflight : gset nat;
  r_quotaUsed : gmap Z Z;
  r_pendingN : Z;
  r_warned : bool;
  r_failCounts : list nat;
  r_closed : bool;
  r_closeWarned : bool;
  r_closeOnce : bool
}.

(** [New]. *)
Definition New (batchSize workers : Z) : Recorder :=
  let workers := if workers <=? 0 then 1 else workers in
  let batchSize := if batchSize <=? 0 then 1 else batchSize in
  mkRecorder (Z.to_nat batchSize) (Z.to_nat workers) false [] ∅ ∅ 0 false (replicate (Z.to_nat workers) O) false false false.

Definition SetQuotaWriter (r : Recorder) (on : bool) : Recorder :=
  mkRecorder (r_BatchSize r) (r_workers r) on (r_pending r) (r_inflight r) (r_quotaUsed r) (r_pendingN r) (r_warned r) (r_failCounts r)
    (r_closed r) (r_closeWarned r) (r_closeOnce r).

Definition set_pending (r : Recorder) (pending : list Row) (pendingN : Z) : Recorder :=
  mkRecorder (r_BatchSize r) (r_workers r) (r_quota r) pending (r_inflight r) (r_quotaUsed r) pendingN (r_warned r) (r_failCounts r)
    (r_closed r) (r_closeWarned r) (r_closeOnce r).
Definition set_inflight (r : Recorder) (s : gset nat) : Recorder :=
  mkRecorder (r_BatchSize r) (r_workers r) (r_quota r) (r_pending r) s (r_quotaUsed r) (r_pendingN r) (r_warned r) (r_failCounts r)
    (r_closed r) (r_closeWarned r) (r_closeOnce r).
Definition set_quotaUsed (r : Recorder) (q : gmap Z Z) : Recorder :=
  mkRecorder (r_BatchSize r) (r_workers r) (r_quota r) (r_pending r) (r_inflight r) q (r_pendingN r) (r_warned r) (r_failCounts r)
    (r_closed r) (r_closeWarned r) (r_closeOnce r).
Definition set_warned (r : Recorder) (b : bool) : Recorder :=
  mkRecorder (r_BatchSize r) (r_workers r) (r_quota r) (r_pending r) (r_inflight r) (r_quotaUsed r) (r_pendingN r) b (r_failCounts r)
    (r_closed r) (r_closeWarned r) (r_closeOnce r).
Definition set_failCounts (r : Recorder) (f : list nat) : Recorder :=
  mkRecorder (r_BatchSize r) (r_workers r) (r_quota r) (r_pending r) (r_inflight r) (r_quotaUsed r) (r_pendingN r) (r_warned r) f
    (r_closed r) (r_closeWarned r) (r_closeOnce r).
Definition set_closed (r : Recorder) (closed closeWarned closeOnce : bool) : Recorder :=
  mkRecorder (r_BatchSize r) (r_workers r) (r_quota r) (r_pending r) (r_inflight r) (r_quotaUsed r) (r_pendingN r) (r_warned r) (r_failCounts r)
    closed closeWarned closeOnce.

(** ** Recording *)

Definition quota_of (q : gmap Z Z) (k : Z) : Z := default 0 (q !! k).

Definition add_quota (r : Recorder) (k delta : Z) : Recorder :=
  set_quotaUsed r (<[k := saturatingAdd (quota_of (r_quotaUsed r) k) delta]> (r_quotaUsed r)).

(** [Record] on a non-nil row. *)
Definition RecordRow (r : Recorder) (l : Row) : Recorder :=
  let l := normalizeUsageLog l in
  let r := if r_closed r then set_closed r true true (r_closeOnce r) else r in
  let r := set_pending r (r_pending r ++ [l]) (r_pendingN r + 1) in
  let r := if 0 <? row_KeyID l then add_quota r (row_KeyID l) (row_TotalTokens l) else r in
  if r_pendingN r >? pendingWaterline then set_warned r true else r.

(** [AddQuota]. *)
Definition AddQuota (r : Recorder) (keyID delta : Z) : Recorder :=
  if (keyID <=? 0) || (delta <=? 0) then r else add_quota r keyID delta.

(** [refillLogs]. *)
Definition refillLogs (r : Recorder) (logs : list Row) : Recorder :=
  set_pending r (r_pending r ++ logs) (r_pendingN r + Z.of_nat (List.length logs)).

(** [retainInflight]. *)
Definition retainInflight (r : Recorder) (batch : list Row) : Recorder :=
  refillLogs (set_inflight r (r_inflight r ∪ list_to_set (map row_ptr batch))) batch.

(** [removeAfterInsert]: the result of a call that outlived its context. *)
Definition removeAfterInsert (r : Recorder) (batch : list Row) (ok : bool) : Recorder :=
  let r := set_inflight r (r_inflight r ∖ list_to_set (map row_ptr batch)) in
  if ok then
    let kept := List.filter (fun l => negb (bool_decide (row_ptr l ∈ map row_ptr batch))) (r_pending r) in
    let removed := Z.of_nat (List.length (r_pending r)) - Z.of_nat (List.length kept) in
    set_pending r kept (if 0 <? removed then r_pendingN r - removed else r_pendingN r)
  else r.

(** ** The database *)

Inductive Outcome := InsOk | InsErr | InsLate.

(** The answers of the environment at each call: of an insert (late: not before
    the context ended), of the context's error, of a quota write. *)
Record DbEnv := mkDbEnv {
  db_insert : nat -> list Row -> Outcome; db_expired : nat -> bool; db_quota : nat -> list (Z * Z) -> bool
}.

(** The recorder, and what happened around it: rows and quota the database took,
    batches it rejected, rows given up, calls without result, quota increments cut
    off at the shutdown budget; the rows and batches of a flush in progress. *)
Record World := mkWorld {
  w_rec : Recorder;
  w_time : nat;
  w_store : list Row;
  w_rejected : list (list Row);
  w_dropped : list Row;
  w_late : list (list Row);
  w_quotaDb : gmap Z Z;
  w_truncated : gmap Z Z
}.

Definition upd (w : World) (f : Recorder -> Recorder) : World :=
  mkWorld (f (w_rec w)) (w_time w) (w_store w) (w_rejected w) (w_dropped w) (w_late w) (w_quotaDb w) (w_truncated w).
Definition tick (w : World) : World :=
  mkWorld (w_rec w) (S (w_time w)) (w_store w) (w_rejected w) (w_dropped w) (w_late w) (w_quotaDb w) (w_truncated w).
Definition commit (w : World) (batch : list Row) : World :=
  mkWorld (w_rec w) (w_time w) (w_store w ++ batch) (w_rejected w) (w_dropped w) (w_late w) (w_quotaDb w) (w_truncated w).
Definition reject_batch (w : World) (batch : list Row) : World :=
  mkWorld (w_rec w) (w_time w) (w_store w) (w_rejected w ++ [batch]) (w_dropped w) (w_late w) (w_quotaDb w) (w_truncated w).
Definition give_up_row (w : World) (l : Row) : World :=
  mkWorld (w_rec w) (w_time w) (w_store w) (w_rejected w) (w_dropped w ++ [l]) (w_late w) (w_quotaDb w) (w_truncated w).
Definition set_late (w : World) (late : list (list Row)) : World :=
  mkWorld (w_rec w) (w_time w) (w_store w) (w_rejected w) (w_dropped w) late (w_quotaDb w) (w_truncated w).

Section Flush.
Variable env : DbEnv.

(** [ctx.Err() != nil]. *)
Definition expired (w : World) : bool * World := (db_expired env (w_time w), tick w).

(** [r.logs.InsertBatch], waiting for its result. *)
Definition InsertBatch (w : World) (batch : list Row) : bool * World :=
  match db_insert env (w_time w) batch with
  | InsOk => (true, commit (tick w) batch)
  | _ => (false, reject_batch (tick w) batch)
  end.

(** [insertBatch], with the escape at the end of the context; a call with the
    recorder's own context waits. *)
Definition insertBatch (base : bool) (w : World) (batch : list Row) : Outcome * World :=
  match db_insert env (w_time w) batch with
  | InsOk => (InsOk, commit (tick w) batch)
  | InsLate => if base then (InsErr, reject_batch (tick w) batch) else (InsLate, tick w)
  | InsErr => (InsErr, reject_batch (tick w) batch)
  end.

(** [poisonBisect]: the bad row, the rows to put back, and how many rows were
    inserted on the way.  The fuel is the length of the chunk, which at least
    halves. *)
Fixpoint poisonBisect (fuel : nat) (w : World) (chunk : list Row) : option Row * list Row * Z * World :=
  match fuel with
  | O => (None, chunk, 0, w)
  | S fuel =>
      match chunk with
      | [row] =>
          let '(ok, w) := InsertBatch w chunk in
          if ok then (None, [], 1, w) else (Some row, [], 0, w)
      | _ =>
          let mid := (List.length chunk / 2)%nat in
          let left := take mid chunk in
          let right := drop mid chunk in
          let '(ok, w) := InsertBatch w left in
          if ok then
            let '(p, rf, d, w) := poisonBisect fuel w right in (p, rf, d + Z.of_nat (List.length left), w)
          else
            let '(ok, w) := InsertBatch w right in
            if ok then
              let '(p, rf, d, w) := poisonBisect fuel w left in (p, rf, d + Z.of_nat (List.length right), w)
            else (None, chunk, 0, w)
      end
  end.

Definition reset_fail (r : Recorder) (si : nat) : Recorder :=
  if (0 <? default O (r_failCounts r !! si))%nat then set_failCounts r (<[si := O]> (r_failCounts r)) else r.

(** One turn of a worker on what is left of its shard: the rows still to do
    ([None]: it stops), the rows inserted, and the world. *)
Definition chunk_step (base : bool) (si : nat) (s : list Row) (w : World) : option (list Row) * Z * World :=
  let '(exp, w) := expired w in
  if exp then (None, 0, upd w (fun r => refillLogs r s))
  else
    let n := r_BatchSize (w_rec w) in
    let batch := take n s in
    let rest := drop n s in
    let '(res, w) := insertBatch base w batch in
    match res with
    | InsLate => (None, 0, upd (set_late w (w_late w ++ [batch])) (fun r => refillLogs (retainInflight r batch) rest))
    | InsErr =>
        if (List.length batch =? 1)%nat then (None, 0, upd w (fun r => refillLogs r s))
        else
          let '(poison, refill, n, w) := poisonBisect (List.length batch) w batch in
          let w := match poison with Some p => upd (give_up_row w p) (fun r => reset_fail r si) | None => w end in
          let w := match refill with [] => w | _ => upd w (fun r => refillLogs r refill) end in
          (None, n, upd w (fun r => refillLogs r rest))
    | InsOk => (Some rest, Z.of_nat (List.length batch), upd w (fun r => reset_fail r si))
    end.

(** A worker, to its end; every turn takes at least one row. *)
Fixpoint run_shard (fuel : nat) (base : bool) (si : nat) (s : list Row) (w : World) : Z * World :=
  match fuel with
  | O => (0, w)
  | S fuel =>
      match s with
      | [] => (0, w)
      | _ =>
          let '(rest, n, w) := chunk_step base si s w in
          match rest with
          | None => (n, w)
          | Some rest => let '(m, w) := run_shard fuel base si rest w in (n + m, w)
          end
      end
  end.

(** The rows of worker [si]: [uint64(l.UserID) % uint64(r.workers)]. *)
Definition shard_of (workers : nat) (l : Row) : nat := Z.to_nat ((row_UserID l mod two64) mod Z.of_nat workers).
Definition shard (workers : nat) (pend : list Row) (si : nat) : list Row := List.filter (fun l => (shard_of workers l =? si)%nat) pend.

(** The locked start of a flush: the rows to insert. *)
Definition begin_flush (r : Recorder) : list Row * Recorder :=
  match r_pending r with
  | [] => ([], r)
  | pend =>
      let blocked := List.filter (fun l => bool_decide (row_ptr l ∈ r_inflight r)) pend in
      let active := List.filter (fun l => negb (bool_decide (row_ptr l ∈ r_inflight r))) pend in
      let r := set_pending r blocked (r_pendingN r - Z.of_nat (List.length pend) + Z.of_nat (List.length blocked)) in
      (active, if r_pendingN r <? pendingWaterline then set_warned r false else r)
  end.

(** The workers one after the other. *)
Fixpoint run_shards (base : bool) (shards : list (nat * list Row)) (w : World) : Z * World :=
  match shards with
  | [] => (0, w)
  | (si, s) :: shards =>
      let '(n, w) := run_shard (List.length s) base si s w in
      let '(m, w) := run_shards base shards w in (n + m, w)
  end.

Definition shards_of (workers : nat) (pend : list Row) : list (nat * list Row) := map (fun si => (si, shard workers pend si)) (seq 0 workers).

(** [flushLogs]: the number of rows inserted. *)
Definition flushLogs (base : bool) (w : World) : Z * World :=
  match r_pending (w_rec w) with
  | [] => (0, w)
  | _ =>
      let '(pend, r) := begin_flush (w_rec w) in
      let w := upd w (fun _ => r) in
      let '(exp, w) := expired w in
      if exp then (0, upd w (fun r => refillLogs r pend))
      else run_shards base (shards_of (r_workers r) pend) w
  end.

(** ** Quota *)

(** A group that was not written is added to the current increments. *)
Definition refill_group (r : Recorder) (group : list (Z * Z)) : Recorder :=
  fold_left (fun r '(k, v) => set_quotaUsed r (<[k := quota_of (r_quotaUsed r) k [+] v]> (r_quotaUsed r))) group r.

Definition db_add (db : gmap Z Z) (group : list (Z * Z)) : gmap Z Z := fold_left (fun db '(k, v) => <[k := quota_of db k + v]> db) group db.

Definition flush_group (group : list (Z * Z)) (w : World) : World :=
  let '(exp, w) := expired w in
  if exp then mkWorld (w_rec w) (w_time w) (w_store w) (w_rejected w) (w_dropped w) (w_late w) (w_quotaDb w) (db_add (w_truncated w) group)
  else if db_quota env (w_time w) group then
    mkWorld (w_rec w) (S (w_time w)) (w_store w) (w_rejected w) (w_dropped w) (w_late w) (db_add (w_quotaDb w) group) (w_truncated w)
  else upd (tick w) (fun r => refill_group r group).

(** Groups of at most [quotaBatchSize] keys; the fuel is the number of keys. *)
Fixpoint groups (fuel : nat) (l : list (Z * Z)) : list (list (Z * Z)) :=
  match fuel with
  | O => []
  | S fuel => match l with [] => [] | _ => take quotaBatchSize l :: groups fuel (drop quotaBatchSize l) end
  end.

(** The locked start: the increments to write, in the order [keys] in which the
    map was ranged over. *)
Definition quota_batches (q : gmap Z Z) (keys : list Z) : list (list (Z * Z)) :=
  let l := map (fun k => (k, quota_of q k)) (List.filter (fun k => negb (quota_of q k =? 0)) keys) in groups (List.length l) l.

Definition flushQuota (keys : list Z) (w : World) : World :=
  let q := r_quotaUsed (w_rec w) in
  let w := upd w (fun r => set_quotaUsed r ∅) in
  if negb (r_quota (w_rec w)) then w
  else fold_left (fun w group => flush_group group w) (quota_batches q keys) w.

(** ** Close *)

(** The loop that drains the pending rows; [None] when the fuel is used up. *)
Fixpoint drain (fuel : nat) (w : World) : option World :=
  match fuel with
  | O => None
  | S fuel =>
      if 0 <? r_pendingN (w_rec w) then
        let '(exp, w) := expired w in
        if exp then Some w else let '(_, w) := flushLogs false w in drain fuel w
      else Some w
  end.

(** [Close] once the lock of the flushes was obtained. *)
Definition Close (fuel : nat) (keys : gmap Z Z -> list Z) (w : World) : option World :=
  if r_closeOnce (w_rec w) then Some w
  else
    let w := upd w (fun r => set_closed r (r_closed r) (r_closeWarned r) true) in
    w ← drain fuel w;
    let w := flushQuota (keys (r_quotaUsed (w_rec w))) w in
    Some (upd w (fun r => set_closed r true (r_closeWarned r) true)).

(** [Close] when the lock was not obtained in time: the flush in progress is
    abandoned. *)
Definition Close_abandoned (w : World) : World := upd w (fun r => set_closed r true (r_closeWarned r) true).
End Flush.
