(* ===== verification/RecorderInv.v ===== *)
(** * No row is lost, none is inserted twice ([internal/usage/usage.go])

    The accounting of the recorder over every interleaving of handlers, flush
    workers, late results, quota writes and shutdown, with a database that answers
    anything. *)

From Stdlib Require Import ZArith Lia List Bool String Ascii Permutation.
From stdpp Require Import base option list gmap sets.
From S2P Require Import Prelude GoString Domain UsageBilling Recorder.
Import ListNotations.
Local Open Scope Z_scope.
Local Open Scope list_scope.

Abbreviation len l := (Z.of_nat (List.length l)).

(** ** Lists *)

Lemma filter_perm {A} (f : A -> bool) (l1 l2 : list A) : l1 ≡ₚ l2 -> List.filter f l1 ≡ₚ List.filter f l2.
Proof.
  induction 1 as [|x l1 l2 _ IH|x y l|l1 l2 l3 _ IH1 _ IH2]; cbn; [reflexivity| | |etransitivity; eassumption].
  - destruct (f x); [constructor|]; exact IH.
  - destruct (f x), (f y); try reflexivity. apply perm_swap.
Qed.

Lemma filter_split {A} (f : A -> bool) (l : list A) : l ≡ₚ List.filter f l ++ List.filter (fun x => negb (f x)) l.
Proof.
  induction l as [|x l IH]; cbn; [reflexivity|]. destruct (f x); cbn; [constructor; exact IH|]. rewrite <- Permutation_middle. constructor. exact IH.
Qed.

Lemma filter_all {A} (f : A -> bool) (l : list A) : (forall x, x ∈ l -> f x = true) -> List.filter f l = l.
Proof.
  induction l as [|x l IH]; intros H; cbn; [reflexivity|]. rewrite (H x) by left. f_equal. apply IH. intros y Hy. apply H. right. exact Hy.
Qed.

Lemma filter_none {A} (f : A -> bool) (l : list A) : (forall x, x ∈ l -> f x = false) -> List.filter f l = [].
Proof.
  induction l as [|x l IH]; intros H; cbn; [reflexivity|]. rewrite (H x) by left. apply IH. intros y Hy. apply H. right. exact Hy.
Qed.

(** ** The account of a world *)

(** [R]: the rows recorded so far; [T]: those in the hands of the workers. *)
Record RowBooks (R T : list Row) (w : World) : Prop := {
  ac_rows : R ≡ₚ r_pending (w_rec w) ++ T ++ w_store w ++ w_dropped w;
  ac_distinct : NoDup (map row_ptr R);
  ac_late : exists rest, r_pending (w_rec w) ≡ₚ concat (w_late w) ++ rest;
  ac_inflight : r_inflight (w_rec w) = list_to_set (map row_ptr (concat (w_late w)));
  ac_count : r_pendingN (w_rec w) = len (r_pending (w_rec w));
  ac_alone : forall d, d ∈ w_dropped w -> [d] ∈ w_rejected w;
  ac_cfg : (0 < r_BatchSize (w_rec w))%nat /\ (0 < r_workers (w_rec w))%nat
}.

(** Steps that leave rows, late calls and counters alone. *)
Definition same_rows (w w' : World) : Prop :=
  r_pending (w_rec w') = r_pending (w_rec w) /\ r_inflight (w_rec w') = r_inflight (w_rec w) /\ r_pendingN (w_rec w') = r_pendingN (w_rec w) /\
  w_store w' = w_store w /\ w_dropped w' = w_dropped w /\ w_late w' = w_late w /\ w_rejected w' = w_rejected w /\
  r_BatchSize (w_rec w') = r_BatchSize (w_rec w) /\ r_workers (w_rec w') = r_workers (w_rec w).

Lemma books_same (R T : list Row) (w w' : World) : same_rows w w' -> RowBooks R T w -> RowBooks R T w'.
Proof. intros (E1 & E2 & E3 & E4 & E5 & E6 & E7 & E8 & E9) []. split; rewrite ?E1, ?E2, ?E3, ?E4, ?E5, ?E6, ?E7, ?E8, ?E9; assumption. Qed.

Lemma books_perm (R T T' : list Row) (w : World) : T ≡ₚ T' -> RowBooks R T w -> RowBooks R T' w.
Proof. intros HT []. split; try assumption. rewrite <- HT. assumption. Qed.

Lemma books_tick (R T : list Row) (w : World) : RowBooks R T w -> RowBooks R T (tick w).
Proof. apply books_same. unfold same_rows, tick. cbn. auto 10. Qed.

Lemma books_commit (R T batch : list Row) (w : World) : RowBooks R (batch ++ T) w -> RowBooks R T (commit w batch).
Proof. intros [H1 H2 H3 H4 H5 H6 H7]. split; try assumption. cbn. rewrite H1. apply Permutation_app_head. rewrite <- !app_assoc. solve_Permutation. Qed.

Lemma books_reject (R T batch : list Row) (w : World) : RowBooks R T w -> RowBooks R T (reject_batch w batch).
Proof. intros [H1 H2 H3 H4 H5 H6 H7]. split; try assumption. cbn. intros d Hd. apply elem_of_app. left. exact (H6 d Hd). Qed.

Lemma books_refill (R T logs : list Row) (w : World) : RowBooks R (logs ++ T) w -> RowBooks R T (upd w (fun r => refillLogs r logs)).
Proof.
  intros [H1 H2 [rest H3] H4 H5 H6 H7]. split; cbn; try assumption.
  - rewrite H1, <- !app_assoc. reflexivity.
  - exists (rest ++ logs). rewrite H3, <- app_assoc. reflexivity.
  - rewrite H5, length_app. lia.
Qed.

(** A row that failed alone is given up. *)
Lemma books_give_up (R T : list Row) (w : World) (p : Row) : [p] ∈ w_rejected w -> RowBooks R (p :: T) w -> RowBooks R T (give_up_row w p).
Proof.
  intros Hp [H1 H2 H3 H4 H5 H6 H7]. split; try assumption; cbn.
  - rewrite H1. apply Permutation_app_head. cbn. solve_Permutation.
  - intros d Hd. apply elem_of_app in Hd as [Hd|Hd]; [exact (H6 d Hd)|]. apply list_elem_of_singleton in Hd as ->. exact Hp.
Qed.

Definition same_recorder (r r' : Recorder) : Prop :=
  r_pending r' = r_pending r /\ r_inflight r' = r_inflight r /\ r_pendingN r' = r_pendingN r /\ r_BatchSize r' = r_BatchSize r /\ r_workers r' = r_workers r.

Lemma books_ext (R T : list Row) (w : World) (f : Recorder -> Recorder) : (forall r, same_recorder r (f r)) ->
  RowBooks R T w -> RowBooks R T (upd w f).
Proof. intros Hf. apply books_same. destruct (Hf (w_rec w)) as (H1 & H2 & H3 & H4 & H5). unfold same_rows. cbn. auto 10. Qed.

Lemma reset_fail_same (si : nat) (r : Recorder) : same_recorder r (reset_fail r si).
Proof. unfold same_recorder, reset_fail. destruct (_ <? _)%nat; auto. Qed.

(** ** One turn of a worker *)

Section Workers.
Variable env : DbEnv.

Lemma books_insert (R T batch : list Row) (w : World) (ok : bool) (w' : World) : InsertBatch env w batch = (ok, w') ->
  RowBooks R (batch ++ T) w ->
  w_rec w' = w_rec w /\ len (w_store w') = len (w_store w) + (if ok then len batch else 0) /\ (ok = false -> batch ∈ w_rejected w') /\
  RowBooks R (if ok then T else batch ++ T) w'.
Proof.
  unfold InsertBatch. intros H HA. destruct (db_insert env (w_time w) batch); injection H as <- <-.
  all: split_and!; [reflexivity|cbn; rewrite ?length_app; lia| |].
  1: discriminate. 2, 4: intros _; apply elem_of_app; right; left.
  - apply books_commit, books_tick, HA.
  - apply books_reject, books_tick, HA.
  - apply books_reject, books_tick, HA.
Qed.

Definition the_row (p : option Row) : list Row := match p with Some x => [x] | None => [] end.

Lemma bisect_account (fuel : nat) : forall R T chunk w p rf d w', poisonBisect env fuel w chunk = (p, rf, d, w') -> RowBooks R (chunk ++ T) w ->
  w_rec w' = w_rec w /\ len (w_store w') = len (w_store w) + d /\ (forall x, p = Some x -> [x] ∈ w_rejected w') /\ RowBooks R (the_row p ++ rf ++ T) w'.
Proof.
  induction fuel as [|fuel IH]; intros R T chunk w p rf d w' H HA.
  { cbn in H. injection H as <- <- <- <-. split_and!; [reflexivity|lia|discriminate|exact HA]. }
  assert (forall c, (let mid := (List.length c / 2)%nat in
    let '(ok, w) := InsertBatch env w (take mid c) in
    if ok then let '(p, rf, d, w) := poisonBisect env fuel w (drop mid c) in (p, rf, d + len (take mid c), w)
    else let '(ok, w) := InsertBatch env w (drop mid c) in
      if ok then let '(p, rf, d, w) := poisonBisect env fuel w (take mid c) in (p, rf, d + len (drop mid c), w) else (None, c, 0, w)) = (p, rf, d, w') ->
    RowBooks R (c ++ T) w ->
    w_rec w' = w_rec w /\ len (w_store w') = len (w_store w) + d /\ (forall x, p = Some x -> [x] ∈ w_rejected w') /\ RowBooks R (the_row p ++ rf ++ T) w') as Hsplit.
  { clear H HA chunk. intros chunk. cbv zeta. set (mid := (List.length chunk / 2)%nat). intros H HA.
    assert (chunk ++ T = take mid chunk ++ drop mid chunk ++ T) as Ec by (rewrite app_assoc, take_drop; reflexivity).
    rewrite Ec in HA. destruct (InsertBatch env w (take mid chunk)) as [ok1 w1] eqn:E1. destruct (books_insert _ _ _ _ _ _ E1 HA) as (Er1 & Es1 & _ & HA1).
    destruct ok1.
    - destruct (poisonBisect env fuel w1 (drop mid chunk)) as [[[p1 rf1] d1] w2] eqn:E2. injection H as <- <- <- <-.
      destruct (IH _ _ _ _ _ _ _ _ E2 HA1) as (Er2 & Es2 & Hp & HA2). split_and!; [congruence|lia|exact Hp|exact HA2].
    - assert (RowBooks R (drop mid chunk ++ take mid chunk ++ T) w1) as HA1' by (eapply books_perm; [|exact HA1]; solve_Permutation).
      destruct (InsertBatch env w1 (drop mid chunk)) as [ok2 w2] eqn:E2. destruct (books_insert _ _ _ _ _ _ E2 HA1') as (Er2 & Es2 & _ & HA2). destruct ok2.
      + destruct (poisonBisect env fuel w2 (take mid chunk)) as [[[p1 rf1] d1] w3] eqn:E3. injection H as <- <- <- <-.
        destruct (IH _ _ _ _ _ _ _ _ E3 HA2) as (Er3 & Es3 & Hp & HA3). split_and!; [congruence|lia|exact Hp|exact HA3].
      + injection H as <- <- <- <-. split_and!; [congruence|lia|discriminate|]. cbn [the_row app]. rewrite Ec. eapply books_perm; [|exact HA2]. solve_Permutation. }
  destruct chunk as [|x [|y chunk]]; [exact (Hsplit [] H HA)| |exact (Hsplit (x :: y :: chunk) H HA)]. clear Hsplit.
  cbn [poisonBisect] in H. destruct (InsertBatch env w [x]) as [ok w1] eqn:E. destruct (books_insert _ _ _ _ _ _ E HA) as (Er & Es & Hrej & HA1).
  destruct ok; injection H as <- <- <- <-.
  - split_and!; [exact Er|exact Es|discriminate|exact HA1].
  - split_and!; [exact Er|exact Es|intros z [= <-]; apply Hrej; reflexivity|exact HA1].
Qed.

(** A late call keeps its rows pending, out of the hands of the next flush. *)
Lemma books_retain (R T batch : list Row) (w : World) : RowBooks R (batch ++ T) w ->
  RowBooks R T (upd (set_late w (w_late w ++ [batch])) (fun r => retainInflight r batch)).
Proof.
  intros [H1 H2 [rest H3] H4 H5 H6 H7]. split; cbn; try assumption.
  - rewrite H1, <- !app_assoc. reflexivity.
  - exists rest. rewrite H3, concat_app. cbn. rewrite app_nil_r. solve_Permutation.
  - rewrite H4, concat_app, map_app, list_to_set_app_L. cbn. rewrite app_nil_r. reflexivity.
  - rewrite H5, length_app. lia.
Qed.

Lemma insertBatch_account (base : bool) (R T batch : list Row) (w : World) (res : Outcome) (w' : World) : insertBatch env base w batch = (res, w') ->
  RowBooks R (batch ++ T) w ->
  w_rec w' = w_rec w /\ len (w_store w') = len (w_store w) + match res with InsOk => len batch | _ => 0 end /\
  RowBooks R (match res with InsOk => T | _ => batch ++ T end) w'.
Proof.
  unfold insertBatch. intros H HA. destruct (db_insert env (w_time w) batch), base; injection H as <- <-; (split_and!; [reflexivity|cbn; rewrite ?length_app; lia|]).
  all: first [apply books_commit, books_tick, HA | apply books_reject, books_tick, HA | apply books_tick, HA].
Qed.

Lemma chunk_account (base : bool) (si : nat) (R T s : list Row) (w : World) (rest : option (list Row)) (n : Z) (w' : World) :
  chunk_step env base si s w = (rest, n, w') -> RowBooks R (s ++ T) w ->
  RowBooks R (default [] rest ++ T) w' /\ len (w_store w') = len (w_store w) + n.
Proof.
  unfold chunk_step, expired. intros H HA. apply books_tick in HA. destruct (db_expired env (w_time w)).
  { injection H as <- <- <-. split; [apply books_refill, HA|cbn; lia]. }
  set (k := r_BatchSize (w_rec (tick w))) in H. rewrite <- (take_drop k s), <- app_assoc in HA.
  destruct (insertBatch env base (tick w) (take k s)) as [res w1] eqn:E. destruct (insertBatch_account _ _ _ _ _ _ _ E HA) as (Er & Es & HA1). cbn [tick w_store] in Es.
  destruct res.
  - injection H as <- <- <-. split; [|cbn; lia]. apply books_ext; [intros r; apply reset_fail_same|exact HA1].
  - destruct (List.length (take k s) =? 1)%nat.
    { injection H as <- <- <-. split; [|cbn; lia]. apply books_refill. rewrite app_assoc, take_drop in HA1. exact HA1. }
    destruct (poisonBisect env (List.length (take k s)) w1 (take k s)) as [[[poison refill] m] w2] eqn:Eb.
    destruct (bisect_account _ _ _ _ _ _ _ _ _ Eb HA1) as (Er2 & Es2 & Hp & HA2). injection H as <- <- <-. split.
    + cbn [default]. apply books_refill. assert (RowBooks R (refill ++ drop k s ++ T)
        (match poison with Some p => upd (give_up_row w2 p) (fun r => reset_fail r si) | None => w2 end)) as HA3.
      { destruct poison as [p|]; [|exact HA2]. apply books_ext; [intros r; apply reset_fail_same|]. apply books_give_up; [apply Hp; reflexivity|exact HA2]. }
      destruct refill as [|x refill]; [exact HA3|]. apply books_refill, HA3.
    + destruct poison, refill; cbn; lia.
  - injection H as <- <- <-. split; [|cbn; lia]. cbn [default].
    change (upd (set_late w1 (w_late w1 ++ [take k s])) (fun r => refillLogs (retainInflight r (take k s)) (drop k s)))
      with (upd (upd (set_late w1 (w_late w1 ++ [take k s])) (fun r => retainInflight r (take k s))) (fun r => refillLogs r (drop k s))).
    apply books_refill, books_retain, HA1.
Qed.

Lemma shard_account (base : bool) (si : nat) (fuel : nat) : forall R T s w n w', run_shard env fuel base si s w = (n, w') -> (List.length s <= fuel)%nat ->
  RowBooks R (s ++ T) w -> RowBooks R T w' /\ len (w_store w') = len (w_store w) + n.
Proof.
  induction fuel as [|fuel IH]; intros R T s w n w' H Hf HA; cbn [run_shard] in H.
  { injection H as <- <-. destruct s; [|cbn in Hf; lia]. split; [exact HA|lia]. }
  destruct s as [|x s]; [injection H as <- <-; split; [exact HA|lia]|].
  destruct (chunk_step env base si (x :: s) w) as [[rest m] w1] eqn:E. destruct (chunk_account _ _ _ _ _ _ _ _ _ E HA) as [HA1 Es1].
  destruct rest as [rest|]; [|injection H as <- <-; split; [exact HA1|exact Es1]].
  destruct (run_shard env fuel base si rest w1) as [m2 w2] eqn:E2. injection H as <- <-.
  assert (rest = drop (r_BatchSize (w_rec w)) (x :: s)) as Er.
  { unfold chunk_step, expired in E. destruct (db_expired env (w_time w)); [discriminate|]. unfold insertBatch in E. cbn [tick w_time w_rec] in E.
    destruct (db_insert env _ _), base; try (destruct (_ =? _)%nat; [discriminate|]; destruct (poisonBisect _ _ _ _) as [[[? ?] ?] ?]; discriminate); try discriminate.
    all: injection E as <- <- <-; reflexivity. }
  pose proof (ac_cfg _ _ _ HA) as [Hb _]. destruct (IH R T rest w1 m2 w2 E2) as [HA2 Es2]; [|exact HA1|split; [exact HA2|lia]].
  rewrite Er, length_drop. cbn [List.length] in Hf |- *. lia.
Qed.
End Workers.

(** ** A flush *)

Lemma shards_all (f : Row -> nat) (idx : list nat) (pend : list Row) : NoDup idx -> (forall l, l ∈ pend -> f l ∈ idx) ->
  concat (map (fun i => List.filter (fun l => (f l =? i)%nat) pend) idx) ≡ₚ pend.
Proof.
  intros Hnd. induction pend as [|x pend IH]; intros Hin.
  { clear. induction idx as [|i idx IH]; [reflexivity|exact IH]. }
  transitivity (x :: concat (map (fun i => List.filter (fun l => (f l =? i)%nat) pend) idx)); [|constructor; apply IH; intros l Hl; apply Hin; right; exact Hl].
  assert (f x ∈ idx) as Hx by (apply Hin; left).
  apply list_elem_of_split in Hx as (A & B & E). rewrite E in Hnd. apply NoDup_app in Hnd as (_ & HA & HB). apply NoDup_cons in HB as [HB _].
  assert (forall idx, f x ∉ idx -> map (fun i => List.filter (fun l => (f l =? i)%nat) (x :: pend)) idx = map (fun i => List.filter (fun l => (f l =? i)%nat) pend) idx) as Hother.
  { intros js Hjs. apply map_ext_in. intros i Hi. cbn. destruct (Nat.eqb_spec (f x) i) as [Ei|_]; [|reflexivity]. exfalso. apply Hjs. rewrite Ei. apply list_elem_of_In, Hi. }
  rewrite E, !map_app, !concat_app. cbn [map concat]. rewrite (Hother A), (Hother B) by (try exact HB; intros H; apply (HA _ H); left).
  cbn [List.filter]. rewrite Nat.eqb_refl. cbn [app]. symmetry. apply Permutation_middle.
Qed.

Lemma shards_of_all (workers : nat) (pend : list Row) : (0 < workers)%nat -> concat (map snd (shards_of workers pend)) ≡ₚ pend.
Proof.
  intros Hw. unfold shards_of. rewrite map_map. cbn [snd]. apply (shards_all (shard_of workers)).
  - apply NoDup_seq.
  - intros l _. rewrite elem_of_seq. unfold shard_of. pose proof (Z.mod_pos_bound (row_UserID l mod two64) (Z.of_nat workers)). lia.
Qed.

Lemma distinct_pending (R T : list Row) (w : World) : RowBooks R T w -> NoDup (map row_ptr (r_pending (w_rec w))).
Proof.
  intros HA. pose proof (ac_distinct _ _ _ HA) as H. rewrite (ac_rows _ _ _ HA), map_app in H. apply NoDup_app in H. apply H.
Qed.

Lemma begin_account (R T : list Row) (w : World) (active : list Row) (r : Recorder) : begin_flush (w_rec w) = (active, r) -> RowBooks R T w ->
  RowBooks R (active ++ T) (upd w (fun _ => r)) /\ (forall l, l ∈ active -> row_ptr l ∉ r_inflight (w_rec w)) /\ r_workers r = r_workers (w_rec w).
Proof.
  unfold begin_flush. intros H HA. destruct (r_pending (w_rec w)) as [|x0 p0] eqn:Ep; [|rewrite <- Ep in H].
  { injection H as <- <-. split_and!; [|intros l Hl; apply elem_of_nil in Hl; contradiction|reflexivity]. apply (books_same _ _ w); [|exact HA].
    unfold same_rows. cbn. auto 10. }
  set (P := r_pending (w_rec w)) in *. set (b := fun l => bool_decide (row_ptr l ∈ r_inflight (w_rec w))) in *.
  injection H as <- <-. pose proof (filter_split b P) as Hsplit. destruct HA as [H1 H2 [rest H3] H4 H5 H6 H7]. fold P in H1, H3, H5.
  assert (R ≡ₚ List.filter b P ++ (List.filter (fun l => negb (b l)) P ++ T) ++ w_store w ++ w_dropped w) as Hrows
    by (rewrite H1, Hsplit at 1; rewrite <- !app_assoc; reflexivity).
  assert (exists rest, List.filter b P ≡ₚ concat (w_late w) ++ rest) as Hlate.
  { exists (List.filter b rest). rewrite (filter_perm b _ _ H3), List.filter_app, (filter_all b (concat (w_late w))); [reflexivity|].
    intros l Hl. unfold b. apply bool_decide_eq_true. rewrite H4. apply elem_of_list_to_set, list_elem_of_fmap. eauto. }
  assert (r_pendingN (w_rec w) - len P + len (List.filter b P) = len (List.filter b P)) as Hcount by (rewrite H5; lia).
  split_and!.
  - destruct (_ <? pendingWaterline); split;
      cbn [upd w_rec r_pending r_inflight r_pendingN set_warned set_pending w_late w_store w_dropped w_rejected r_BatchSize r_workers]; try assumption.
    all: first [exact Hrows|exact Hlate|exact Hcount].
  - intros l Hl. apply list_elem_of_In, filter_In in Hl as [_ Hl]. apply negb_true_iff, bool_decide_eq_false in Hl. exact Hl.
  - destruct (_ <? _); reflexivity.
Qed.

Section Flushes.
Variable env : DbEnv.

Lemma run_shards_account (base : bool) (shards : list (nat * list Row)) : forall R w n w', run_shards env base shards w = (n, w') ->
  RowBooks R (concat (map snd shards)) w -> RowBooks R [] w' /\ len (w_store w') = len (w_store w) + n.
Proof.
  induction shards as [|[si s] shards IH]; intros R w n w' H HA; cbn [run_shards] in H.
  { injection H as <- <-. split; [exact HA|lia]. }
  destruct (run_shard env (List.length s) base si s w) as [n1 w1] eqn:E1. destruct (run_shards env base shards w1) as [n2 w2] eqn:E2. injection H as <- <-.
  cbn [map concat snd] in HA. destruct (shard_account env base si _ _ _ _ _ _ _ E1 (le_n _) HA) as [HA1 Hs1].
  destruct (IH R w1 n2 w2 E2 HA1) as [HA2 Hs2]. split; [exact HA2|lia].
Qed.

Lemma flush_account (base : bool) (R : list Row) (w : World) (n : Z) (w' : World) : flushLogs env base w = (n, w') -> RowBooks R [] w ->
  RowBooks R [] w' /\ len (w_store w') = len (w_store w) + n.
Proof.
  unfold flushLogs, expired. intros H HA. destruct (r_pending (w_rec w)) as [|x0 p0] eqn:Ep; [injection H as <- <-; split; [exact HA|lia]|].
  destruct (begin_flush (w_rec w)) as [pend r] eqn:Eb. destruct (begin_account R [] w pend r Eb HA) as (HA1 & _ & Hw). rewrite app_nil_r in HA1.
  pose proof (books_tick _ _ _ HA1) as HA2. destruct (db_expired env _).
  - injection H as <- <-. split; [|cbn; lia]. apply books_refill. rewrite app_nil_r. exact HA2.
  - assert (RowBooks R (concat (map snd (shards_of (r_workers r) pend))) (tick (upd w (fun _ => r)))) as HA3.
    { eapply books_perm; [|exact HA2]. symmetry. apply shards_of_all. exact (proj2 (ac_cfg _ _ _ HA1)). }
    destruct (run_shards_account _ _ _ _ _ _ H HA3) as [HA4 Hs]. split; [exact HA4|exact Hs].
Qed.

(** Quota writes do not touch rows. *)
Lemma refill_group_same (group : list (Z * Z)) : forall r, same_recorder r (refill_group r group).
Proof.
  unfold refill_group. induction group as [|[k v] group IH]; intros r; cbn; [unfold same_recorder; auto|].
  destruct (IH (set_quotaUsed r (<[k := quota_of (r_quotaUsed r) k [+] v]> (r_quotaUsed r)))) as (H1 & H2 & H3 & H4 & H5). unfold same_recorder. auto.
Qed.

Lemma flush_group_account (R T : list Row) (group : list (Z * Z)) (w : World) : RowBooks R T w -> RowBooks R T (flush_group env group w).
Proof.
  intros HA. apply books_tick in HA. unfold flush_group, expired. destruct (db_expired env (w_time w)).
  - apply (books_same _ _ (tick w)); [|exact HA]. unfold same_rows. cbn. auto 10.
  - destruct (db_quota env _ group); [apply (books_same _ _ (tick w)); [|exact HA]; unfold same_rows; cbn; auto 10|].
    apply books_ext; [apply refill_group_same|]. apply books_tick, HA.
Qed.

Lemma flushQuota_account (R T : list Row) (keys : list Z) (w : World) : RowBooks R T w -> RowBooks R T (flushQuota env keys w).
Proof.
  intros HA. unfold flushQuota. cbv zeta. set (w0 := upd w (fun r => set_quotaUsed r ∅)).
  assert (RowBooks R T w0) as HA0 by (apply books_ext; [intros r; unfold same_recorder; auto|exact HA]).
  destruct (negb _); [exact HA0|]. generalize (quota_batches (r_quotaUsed (w_rec w)) keys). intros gs. revert HA0. generalize w0. clear.
  induction gs as [|g gs IH]; intros w HA; [exact HA|]. cbn. apply IH, flush_group_account, HA.
Qed.

Lemma drain_account (R : list Row) (fuel : nat) : forall w w', drain env fuel w = Some w' -> RowBooks R [] w -> RowBooks R [] w'.
Proof.
  induction fuel as [|fuel IH]; intros w w' H HA; [discriminate|]. cbn [drain] in H. destruct (0 <? _); [|injection H as <-; exact HA].
  unfold expired in H. apply books_tick in HA. destruct (db_expired env (w_time w)); [injection H as <-; exact HA|].
  destruct (flushLogs env false (tick w)) as [n w1] eqn:E. apply (IH w1 w' H). exact (proj1 (flush_account _ _ _ _ _ E HA)).
Qed.

Lemma close_account (R : list Row) (fuel : nat) (keys : gmap Z Z -> list Z) (w w' : World) : Close env fuel keys w = Some w' -> RowBooks R [] w -> RowBooks R [] w'.
Proof.
  unfold Close. intros H HA. destruct (r_closeOnce (w_rec w)); [injection H as <-; exact HA|].
  destruct (drain env fuel _) as [w1|] eqn:E; [|discriminate]. cbn in H. injection H as <-.
  assert (RowBooks R [] w1) as HA1 by (eapply drain_account; [exact E|]; apply books_ext; [intros r; unfold same_recorder; auto|exact HA]).
  apply books_ext; [intros r; unfold same_recorder; auto|]. apply flushQuota_account, HA1.
Qed.
End Flushes.

(** ** Handlers and late results *)

Lemma record_same (r : Recorder) (l : Row) : let r' := RecordRow r l in
  r_pending r' = r_pending r ++ [normalizeUsageLog l] /\ r_pendingN r' = r_pendingN r + 1 /\ r_inflight r' = r_inflight r /\ r_BatchSize r' = r_BatchSize r /\ r_workers r' = r_workers r.
Proof.
  unfold RecordRow. cbv zeta. destruct (r_closed r), (0 <? _), (_ >? _); cbn; auto.
Qed.

Lemma record_account (R T : list Row) (w : World) (l : Row) : row_ptr l ∉ map row_ptr R -> RowBooks R T w ->
  RowBooks (R ++ [normalizeUsageLog l]) T (upd w (fun r => RecordRow r l)).
Proof.
  intros Hl [H1 H2 [rest H3] H4 H5 H6 H7]. destruct (record_same (w_rec w) l) as (E1 & E2 & E3 & E4 & E5).
  split; cbn [upd w_rec w_late w_store w_dropped w_rejected]; rewrite ?E1, ?E2, ?E3, ?E4, ?E5; try assumption.
  - rewrite H1. solve_Permutation.
  - rewrite map_app. apply NoDup_app. split_and!; [exact H2| |apply NoDup_singleton]. intros p Hp. cbn. rewrite list_elem_of_singleton. intros ->. apply Hl, Hp.
  - exists (rest ++ [normalizeUsageLog l]). rewrite H3, <- app_assoc. reflexivity.
  - rewrite length_app. cbn. lia.
Qed.

Lemma add_quota_same (r : Recorder) (k d : Z) : same_recorder r (AddQuota r k d).
Proof. unfold same_recorder, AddQuota. destruct (_ || _); auto. Qed.

(** The world after the result of a late call. *)
Definition late_result (w : World) (others : list (list Row)) (batch : list Row) (ok : bool) : World :=
  let w := upd (set_late w others) (fun r => removeAfterInsert r batch ok) in
  if ok then commit w batch else reject_batch w batch.

Lemma late_account (R T : list Row) (w : World) (L1 L2 : list (list Row)) (batch : list Row) (ok : bool) : w_late w = L1 ++ batch :: L2 ->
  RowBooks R T w -> RowBooks R T (late_result w (L1 ++ L2) batch ok).
Proof.
  intros Hlate HA. pose proof (distinct_pending _ _ _ HA) as Hnd. destruct HA as [H1 H2 [rest H3] H4 H5 H6 H7].
  rewrite Hlate, concat_app in H3, H4. cbn [concat] in H3, H4. set (O := concat (L1 ++ L2)).
  assert (r_pending (w_rec w) ≡ₚ batch ++ O ++ rest) as Hp by (rewrite H3; unfold O; rewrite concat_app; solve_Permutation).
  assert (NoDup (map row_ptr (batch ++ O ++ rest))) as Hnd' by (rewrite <- Hp; exact Hnd). rewrite !map_app in Hnd'. apply NoDup_app in Hnd' as (Hb & Hbo & _).
  assert (r_inflight (w_rec w) ∖ list_to_set (map row_ptr batch) = list_to_set (map row_ptr O)) as Hinf.
  { rewrite H4. unfold O. rewrite concat_app, !map_app, !list_to_set_app_L. apply set_eq. intros p. rewrite elem_of_difference, !elem_of_union, !elem_of_list_to_set.
    split; [tauto|]. intros Hpo. split; [tauto|]. intros Hpb. apply (Hbo p Hpb). unfold O. rewrite concat_app, map_app, !elem_of_app. tauto. }
  assert (List.filter (fun l => negb (bool_decide (row_ptr l ∈ map row_ptr batch))) (r_pending (w_rec w)) ≡ₚ O ++ rest) as Hf.
  { rewrite (filter_perm _ _ _ Hp), List.filter_app, filter_none, filter_all; [reflexivity| |].
    - intros l Hl. apply negb_true_iff, bool_decide_eq_false. intros Hin. apply (Hbo _ Hin). rewrite <- map_app. apply list_elem_of_fmap. eauto.
    - intros l Hl. apply negb_false_iff, bool_decide_eq_true. apply list_elem_of_fmap. eauto. }
  unfold late_result, removeAfterInsert. cbv zeta. destruct ok.
  - apply books_commit. split; cbn [upd set_late w_rec set_pending set_inflight r_pending r_inflight r_pendingN w_late w_store w_dropped w_rejected r_BatchSize r_workers]; try assumption.
    + rewrite H1, Hf, Hp. solve_Permutation.
    + exists rest. exact Hf.
    + rewrite H5. apply Permutation_length in Hp. destruct (Z.ltb_spec 0 (len (r_pending (w_rec w)) - len (List.filter (fun l => negb (bool_decide (row_ptr l ∈ map row_ptr batch))) (r_pending (w_rec w))))); [lia|].
      apply Permutation_length in Hf. rewrite !length_app in *. lia.
  - apply books_reject. split; cbn [upd set_late w_rec set_inflight r_pending r_inflight r_pendingN w_late w_store w_dropped w_rejected r_BatchSize r_workers]; try assumption.
    exists (batch ++ rest). rewrite Hp. fold O. solve_Permutation.
Qed.

(** ** What flushing rows leaves alone: quota increments, and the clock runs on *)

Definition frame (w w' : World) : Prop :=
  r_quotaUsed (w_rec w') = r_quotaUsed (w_rec w) /\ r_quota (w_rec w') = r_quota (w_rec w) /\
  w_quotaDb w' = w_quotaDb w /\ w_truncated w' = w_truncated w /\ (w_time w <= w_time w')%nat.

#[export] Instance frame_refl : Reflexive frame.
Proof. intros w. unfold frame. auto 10. Qed.

#[export] Instance frame_trans : Transitive frame.
Proof. unfold frame. intros w1 w2 w3 (A1 & A2 & A3 & A4 & A5) (B1 & B2 & B3 & B4 & B5). rewrite B1, B2, B3, B4. split_and!; try assumption. lia. Qed.

Lemma frame_upd (w : World) (f : Recorder -> Recorder) : (forall r, r_quotaUsed (f r) = r_quotaUsed r /\ r_quota (f r) = r_quota r) -> frame w (upd w f).
Proof. intros H. destruct (H (w_rec w)). unfold frame. cbn. auto. Qed.

Lemma frame_reset (w : World) (si : nat) : frame w (upd w (fun r => reset_fail r si)).
Proof. apply frame_upd. intros r. unfold reset_fail. destruct (_ <? _)%nat; auto. Qed.

Lemma frame_refill (w : World) (l : list Row) : frame w (upd w (fun r => refillLogs r l)).
Proof. apply frame_upd. auto. Qed.

Section Frames.
Variable env : DbEnv.

Lemma frame_InsertBatch (w : World) (b : list Row) : frame w (InsertBatch env w b).2.
Proof. unfold InsertBatch. destruct (db_insert env (w_time w) b); unfold frame; cbn; auto 10. Qed.

Lemma frame_insertBatch (base : bool) (w : World) (b : list Row) : frame w (insertBatch env base w b).2.
Proof. unfold insertBatch. destruct (db_insert env (w_time w) b), base; unfold frame; cbn; auto 10. Qed.

Lemma frame_bisect (fuel : nat) : forall w chunk, frame w (poisonBisect env fuel w chunk).2.
Proof.
  induction fuel as [|fuel IH]; intros w chunk; [reflexivity|].
  assert (forall c mid, frame w (let '(ok, w) := InsertBatch env w (take mid c) in
    if ok then let '(p, rf, d, w) := poisonBisect env fuel w (drop mid c) in (p, rf, d + len (take mid c), w)
    else let '(ok, w) := InsertBatch env w (drop mid c) in
      if ok then let '(p, rf, d, w) := poisonBisect env fuel w (take mid c) in (p, rf, d + len (drop mid c), w) else (None, c, 0, w)).2) as Hs.
  { intros c mid. pose proof (frame_InsertBatch w (take mid c)) as F1. destruct (InsertBatch env w (take mid c)) as [ok w1]. cbn [snd] in F1. destruct ok.
    - pose proof (IH w1 (drop mid c)) as F2. destruct (poisonBisect env fuel w1 (drop mid c)) as [[[p rf] d] w2]. exact (transitivity F1 F2).
    - pose proof (frame_InsertBatch w1 (drop mid c)) as F2. destruct (InsertBatch env w1 (drop mid c)) as [ok w2]. cbn [snd] in F2. destruct ok; [|exact (transitivity F1 F2)].
      pose proof (IH w2 (take mid c)) as F3. destruct (poisonBisect env fuel w2 (take mid c)) as [[[p rf] d] w3]. exact (transitivity F1 (transitivity F2 F3)). }
  destruct chunk as [|x [|y chunk]]; [exact (Hs [] _)| |exact (Hs (x :: y :: chunk) _)]. cbn [poisonBisect].
  pose proof (frame_InsertBatch w [x]) as F. destruct (InsertBatch env w [x]) as [ok w1]. destruct ok; exact F.
Qed.

Lemma frame_chunk (base : bool) (si : nat) (s : list Row) (w : World) : frame (tick w) (chunk_step env base si s w).2.
Proof.
  unfold chunk_step, expired. destruct (db_expired env (w_time w)); [apply frame_refill|]. set (n := r_BatchSize _).
  pose proof (frame_insertBatch base (tick w) (take n s)) as F1. destruct (insertBatch env base (tick w) (take n s)) as [res w1]. cbn [snd] in F1. destruct res.
  - exact (transitivity F1 (frame_reset w1 si)).
  - destruct (_ =? _)%nat; [exact (transitivity F1 (frame_refill w1 s))|]. pose proof (frame_bisect (List.length (take n s)) w1 (take n s)) as F2.
    destruct (poisonBisect env _ w1 _) as [[[p rf] d] w2]. cbn [snd] in *. etransitivity; [exact F1|]. etransitivity; [exact F2|].
    etransitivity; [|apply frame_refill]. assert (frame w2 (match p with Some p => upd (give_up_row w2 p) (fun r => reset_fail r si) | None => w2 end)) as F3.
    { destruct p as [p|]; [|reflexivity]. etransitivity; [|apply frame_reset]. unfold frame. cbn. auto 10. }
    destruct rf; [exact F3|]. exact (transitivity F3 (frame_refill _ _)).
  - etransitivity; [exact F1|]. unfold frame. cbn. auto 10.
Qed.

Lemma frame_shard (base : bool) (si : nat) (fuel : nat) : forall s w, frame w (run_shard env fuel base si s w).2.
Proof.
  induction fuel as [|fuel IH]; intros s w; cbn [run_shard]; [reflexivity|]. destruct s as [|x s]; [reflexivity|].
  pose proof (frame_chunk base si (x :: s) w) as F1. assert (frame w (tick w)) as F0 by (unfold frame; cbn; auto 10).
  destruct (chunk_step env base si (x :: s) w) as [[rest n] w1]. cbn [snd] in F1. destruct rest as [rest|]; [|exact (transitivity F0 F1)].
  pose proof (IH rest w1) as F2. destruct (run_shard env fuel base si rest w1) as [m w2]. exact (transitivity F0 (transitivity F1 F2)).
Qed.

Lemma frame_shards (base : bool) (shards : list (nat * list Row)) : forall w, frame w (run_shards env base shards w).2.
Proof.
  induction shards as [|[si s] shards IH]; intros w; cbn [run_shards]; [reflexivity|]. pose proof (frame_shard base si (List.length s) s w) as F1.
  destruct (run_shard env (List.length s) base si s w) as [n w1]. pose proof (IH w1) as F2. destruct (run_shards env base shards w1) as [m w2]. exact (transitivity F1 F2).
Qed.

Lemma begin_frame (r : Recorder) : r_quotaUsed (begin_flush r).2 = r_quotaUsed r /\ r_quota (begin_flush r).2 = r_quota r.
Proof. unfold begin_flush. destruct (r_pending r); [auto|]. cbn [snd]. destruct (_ <? _); auto. Qed.

Lemma frame_flush (base : bool) (w : World) : frame w (flushLogs env base w).2.
Proof.
  unfold flushLogs, expired. destruct (r_pending (w_rec w)) as [|x0 p0]; [reflexivity|]. pose proof (begin_frame (w_rec w)) as Fb.
  destruct (begin_flush (w_rec w)) as [pend r]. cbn [snd] in Fb. set (w1 := tick (upd w (fun _ => r))).
  assert (frame w w1) as F1 by (destruct Fb; unfold frame, w1; cbn; auto 10). destruct (db_expired env _); [exact (transitivity F1 (frame_refill w1 pend))|].
  exact (transitivity F1 (frame_shards base (shards_of (r_workers r) pend) w1)).
Qed.

Lemma frame_drain (fuel : nat) : forall w w', drain env fuel w = Some w' -> frame w w'.
Proof.
  induction fuel as [|fuel IH]; intros w w' H; [discriminate|]. cbn [drain] in H. destruct (0 <? _); [|injection H as <-; reflexivity].
  unfold expired in H. assert (frame w (tick w)) as F0 by (unfold frame; cbn; auto 10). destruct (db_expired env (w_time w)); [injection H as <-; exact F0|].
  pose proof (frame_flush false (tick w)) as F1. destruct (flushLogs env false (tick w)) as [n w1]. cbn [snd] in F1.
  exact (transitivity F0 (transitivity F1 (IH w1 w' H))).
Qed.
End Frames.
