(* ===== verification/RecorderRuns.v ===== *)
(** * Runs of the usage recorder ([internal/usage/usage.go])

    Handlers, the flush workers, late results, quota writes and shutdown
    interleaved in any order, with a database that answers anything; and what the
    recorder does with a database that answers as it should. *)

From Stdlib Require Import ZArith Lia List Bool String Ascii Permutation.
From stdpp Require Import base option list gmap sets relations.
From S2P Require Import Prelude GoString Domain UsageBilling Recorder RecorderInv.
Import ListNotations.
Local Open Scope Z_scope.
Local Open Scope list_scope.

(** ** The system *)

(** The world, the shards the workers still hold, the quota groups still to
    write, and the history: all rows recorded, all quota added per key. *)
Record Sys := mkSys {
  s_w : World; s_tasks : list (nat * list Row); s_groups : list (list (Z * Z)); s_recorded : list Row; s_added : Z -> Z
}.

Definition start (batchSize workers : Z) : Sys :=
  mkSys (mkWorld (SetQuotaWriter (New batchSize workers) true) 0 [] [] [] [] ∅ ∅) [] [] [] (fun _ => 0).

Definition added (f : Z -> Z) (k d : Z) : Z -> Z := fun k' => if k' =? k then f k' + d else f k'.

(** [keys] is an order in which a map can be ranged over. *)
Definition ranges (keys : list Z) (q : gmap Z Z) : Prop := NoDup keys /\ forall k, is_Some (q !! k) -> k ∈ keys.

Section Runs.
Variable env : DbEnv.

Inductive step : Sys -> Sys -> Prop :=
| st_record w ts gs R f l : row_ptr l ∉ map row_ptr R ->
    let n := normalizeUsageLog l in
    step (mkSys w ts gs R f) (mkSys (upd w (fun r => RecordRow r l)) ts gs (R ++ [n])
      (if 0 <? row_KeyID n then added f (row_KeyID n) (row_TotalTokens n) else f))
| st_quota w ts gs R f k d : step (mkSys w ts gs R f)
    (mkSys (upd w (fun r => AddQuota r k d)) ts gs R (if (k <=? 0) || (d <=? 0) then f else added f k d))
| st_begin w R f pend r : begin_flush (w_rec w) = (pend, r) ->
    (* the flush lock is free; the context has not ended *)
    step (mkSys w [] [] R f) (mkSys (tick (upd w (fun _ => r))) (shards_of (r_workers r) pend) [] R f)
| st_begin_expired w R f pend r : begin_flush (w_rec w) = (pend, r) ->
    step (mkSys w [] [] R f) (mkSys (upd (tick (upd w (fun _ => r))) (fun r => refillLogs r pend)) [] [] R f)
| st_worker w t1 si s t2 gs R f base rest n w' : chunk_step env base si s w = (rest, n, w') ->
    step (mkSys w (t1 ++ (si, s) :: t2) gs R f) (mkSys w' (t1 ++ (si, default [] rest) :: t2) gs R f)
| st_worker_done w t1 si t2 gs R f : step (mkSys w (t1 ++ (si, []) :: t2) gs R f) (mkSys w (t1 ++ t2) gs R f)
| st_late w ts gs R f L1 batch L2 ok : w_late w = L1 ++ batch :: L2 ->
    step (mkSys w ts gs R f) (mkSys (late_result w (L1 ++ L2) batch ok) ts gs R f)
| st_quota_begin w R f keys : ranges keys (r_quotaUsed (w_rec w)) -> r_quota (w_rec w) = true ->
    step (mkSys w [] [] R f) (mkSys (upd w (fun r => set_quotaUsed r ∅)) [] (quota_batches (r_quotaUsed (w_rec w)) keys) R f)
| st_quota_group w ts g gs R f : step (mkSys w ts (g :: gs) R f) (mkSys (flush_group env g w) ts gs R f)
| st_close w R f fuel keys w' : (forall q, ranges (keys q) q) -> r_quota (w_rec w) = true -> Close env fuel keys w = Some w' ->
    step (mkSys w [] [] R f) (mkSys w' [] [] R f)
| st_abandon w ts gs R f : step (mkSys w ts gs R f) (mkSys (Close_abandoned w) ts gs R f).

Definition reachable (batchSize workers : Z) (s : Sys) : Prop := rtc step (start batchSize workers) s.

(** ** Rows *)

Definition held (s : Sys) : list Row := concat (map snd (s_tasks s)).

Lemma start_account (batchSize workers : Z) : RowBooks [] [] (s_w (start batchSize workers)).
Proof.
  unfold start. split; cbn.
  - reflexivity.
  - constructor.
  - exists []. reflexivity.
  - reflexivity.
  - reflexivity.
  - intros d Hd. apply elem_of_nil in Hd. contradiction.
  - destruct (Z.leb_spec batchSize 0), (Z.leb_spec workers 0); lia.
Qed.

Lemma step_account (s s' : Sys) : step s s' -> RowBooks (s_recorded s) (held s) (s_w s) -> RowBooks (s_recorded s') (held s') (s_w s').
Proof.
  unfold held. intros Hs HA. destruct Hs as [w ts gs R f l Hl n|w ts gs R f k d|w R f pend r Hb|w R f pend r Hb|w t1 si s t2 gs R f base rest n w' Hc
    |w t1 si t2 gs R f|w ts gs R f L1 batch L2 ok Hl|w R f keys Hk Hq|w ts g gs R f|w R f fuel keys w' Hk Hq Hc|w ts gs R f];
    cbn [s_w s_tasks s_recorded] in *.
  - apply record_account; assumption.
  - apply books_ext; [intros r; apply add_quota_same|exact HA].
  - destruct (begin_account _ _ _ _ _ Hb HA) as (HA1 & _ & _). eapply books_perm; [|apply books_tick, HA1]. cbn. rewrite app_nil_r. symmetry.
    apply shards_of_all. exact (proj2 (ac_cfg _ _ _ HA1)).
  - destruct (begin_account _ _ _ _ _ Hb HA) as (HA1 & _ & _). apply books_refill, books_tick, HA1.
  - rewrite map_app, concat_app in *. cbn [map concat snd] in *.
    apply (books_perm _ (default [] rest ++ concat (map snd t1) ++ concat (map snd t2))); [solve_Permutation|].
    eapply chunk_account; [exact Hc|]. eapply books_perm; [|exact HA]. solve_Permutation.
  - rewrite map_app, concat_app in *. exact HA.
  - apply late_account; assumption.
  - apply books_ext; [intros r; unfold same_recorder; auto|exact HA].
  - apply flush_group_account, HA.
  - exact (close_account env R fuel keys w w' Hc HA).
  - apply books_ext; [intros r; unfold same_recorder; auto|exact HA].
Qed.

Lemma reachable_account (batchSize workers : Z) (s : Sys) : reachable batchSize workers s -> RowBooks (s_recorded s) (held s) (s_w s).
Proof.
  intros H. assert (forall s0, rtc step s0 s -> RowBooks (s_recorded s0) (held s0) (s_w s0) -> RowBooks (s_recorded s) (held s) (s_w s)) as Hrun.
  { clear H. intros s0 H. induction H as [s0|s0 s1 s2 Hs _ IH]; [auto|]. intros HA. apply IH, (step_account _ _ Hs HA). }
  apply (Hrun _ H). apply start_account.
Qed.
End Runs.

(** C6: No row is lost and none is inserted twice.  However handlers, flush
    workers, late results and shutdown interleave, and whatever the database
    answers: the rows recorded are exactly those pending, those in the hands of
    the workers, those the database took and those given up; no row is in two of
    these places or twice in one, in particular the database never takes a row
    twice; a row is given up only after the database rejected it on its own; and
    the pending counter is the number of pending rows. *)
Theorem rows_accounted (env : DbEnv) (batchSize workers : Z) (s : Sys) : reachable env batchSize workers s ->
  let w := s_w s in
  s_recorded s ≡ₚ r_pending (w_rec w) ++ held s ++ w_store w ++ w_dropped w /\
  NoDup (map row_ptr (r_pending (w_rec w) ++ held s ++ w_store w ++ w_dropped w)) /\
  (forall d, d ∈ w_dropped w -> [d] ∈ w_rejected w) /\
  r_pendingN (w_rec w) = len (r_pending (w_rec w)).
Proof.
  intros H. pose proof (reachable_account _ _ _ _ H) as HA. cbv zeta. split_and!.
  - exact (ac_rows _ _ _ HA).
  - rewrite <- (ac_rows _ _ _ HA). exact (ac_distinct _ _ _ HA).
  - exact (ac_alone _ _ _ HA).
  - exact (ac_count _ _ _ HA).
Qed.

(** ** Quota *)

(** The sum for a key in a list of increments. *)
Fixpoint qsum (l : list (Z * Z)) (k : Z) : Z := match l with [] => 0 | (k', v) :: l => (if k' =? k then v else 0) + qsum l k end.

Lemma qsum_app (l1 l2 : list (Z * Z)) (k : Z) : qsum (l1 ++ l2) k = qsum l1 k + qsum l2 k.
Proof. induction l1 as [|[k' v] l1 IH]; cbn; [reflexivity|]. rewrite IH. lia. Qed.

Lemma quota_of_insert (q : gmap Z Z) (k k' v : Z) : quota_of (<[k := v]> q) k' = if k' =? k then v else quota_of q k'.
Proof.
  unfold quota_of. destruct (Z.eqb_spec k' k) as [->|Hne]; [rewrite lookup_insert_eq; reflexivity|]. rewrite lookup_insert_ne by congruence. reflexivity.
Qed.

Lemma db_add_sum (group : list (Z * Z)) : forall db k, quota_of (db_add db group) k = quota_of db k + qsum group k.
Proof.
  unfold db_add. induction group as [|[k' v] group IH]; intros db k; cbn; [lia|]. rewrite IH, quota_of_insert, Z.eqb_sym. destruct (Z.eqb_spec k' k) as [->|_]; lia.
Qed.

Definition nonneg (l : list (Z * Z)) : Prop := Forall (fun kv => 0 <= kv.2) l.

Lemma qsum_nonneg (l : list (Z * Z)) (k : Z) : nonneg l -> 0 <= qsum l k.
Proof. induction 1 as [|[k' v] l Hv _ IH]; cbn in *; [lia|]. destruct (k' =? k); lia. Qed.

Lemma refill_sum (group : list (Z * Z)) : nonneg group -> forall r, (forall k, 0 <= quota_of (r_quotaUsed r) k) ->
  (forall k, quota_of (r_quotaUsed r) k + qsum group k <= max64) ->
  forall k, quota_of (r_quotaUsed (refill_group r group)) k = quota_of (r_quotaUsed r) k + qsum group k.
Proof.
  unfold refill_group. induction 1 as [|[k' v] group Hv Hg IH]; intros r Hr Hmax k; cbn [fold_left qsum]; [lia|]. cbn [snd] in Hv.
  pose proof (qsum_nonneg group k' Hg) as Hn. pose proof (Hr k') as Hr'. pose proof (Hmax k') as Hm'. cbn [qsum] in Hm'. rewrite Z.eqb_refl in Hm'.
  assert (quota_of (r_quotaUsed r) k' [+] v = quota_of (r_quotaUsed r) k' + v) as Ea by (apply add64_small; unfold_int; lia).
  assert (forall j, quota_of (r_quotaUsed (set_quotaUsed r (<[k' := quota_of (r_quotaUsed r) k' [+] v]> (r_quotaUsed r)))) j =
    quota_of (r_quotaUsed r) j + (if k' =? j then v else 0)) as Eq.
  { intros j. cbn [set_quotaUsed r_quotaUsed]. rewrite quota_of_insert, Ea, Z.eqb_sym. destruct (Z.eqb_spec k' j) as [->|_]; lia. }
  rewrite IH.
  - rewrite Eq. lia.
  - intros j. rewrite Eq. pose proof (Hr j). destruct (k' =? j); lia.
  - intros j. rewrite Eq. pose proof (Hmax j) as Hj. cbn [qsum] in Hj. lia.
Qed.

Lemma groups_all (fuel : nat) : forall l, (List.length l <= fuel)%nat -> concat (groups fuel l) = l.
Proof.
  induction fuel as [|fuel IH]; intros l Hl; [destruct l; [reflexivity|cbn in Hl; lia]|]. cbn [groups]. destruct l as [|x l]; [reflexivity|].
  cbn [concat]. rewrite IH; [apply take_drop|]. rewrite length_drop. unfold quotaBatchSize. cbn [List.length] in *. lia.
Qed.

Lemma batches_sum (q : gmap Z Z) (keys : list Z) (k : Z) : ranges keys q -> qsum (concat (quota_batches q keys)) k = quota_of q k.
Proof.
  intros [Hnd Hall]. unfold quota_batches. rewrite groups_all by reflexivity. destruct (decide (is_Some (q !! k))) as [Hs|Hs].
  - apply Hall in Hs. clear Hall. induction keys as [|k0 keys IH]; [apply elem_of_nil in Hs; contradiction|]. apply NoDup_cons in Hnd as [Hk0 Hnd].
    assert (forall keys, k ∉ keys -> qsum (map (fun k => (k, quota_of q k)) (List.filter (fun k => negb (quota_of q k =? 0)) keys)) k = 0) as Hno.
    { clear. intros keys H. induction keys as [|j keys IH]; [reflexivity|]. apply not_elem_of_cons in H as [Hj H]. cbn [List.filter].
      destruct (negb _); [|exact (IH H)]. cbn [map qsum]. rewrite IH by exact H. destruct (Z.eqb_spec j k); [congruence|reflexivity]. }
    cbn [List.filter]. destruct (decide (k0 = k)) as [->|Hne].
    + destruct (Z.eqb_spec (quota_of q k) 0) as [E|E]; cbn [negb map qsum]; rewrite Hno by exact Hk0; [congruence|]. rewrite Z.eqb_refl. lia.
    + apply elem_of_cons in Hs as [->|Hs]; [contradiction|]. specialize (IH Hnd Hs). destruct (negb _); [|exact IH]. cbn [map qsum]. rewrite IH.
      destruct (Z.eqb_spec k0 k); [contradiction|reflexivity].
  - assert (quota_of q k = 0) as E by (unfold quota_of; destruct (q !! k); [exfalso; apply Hs; eauto|reflexivity]). rewrite E.
    clear Hnd Hall. induction keys as [|j keys IH]; [reflexivity|]. cbn [List.filter]. destruct (negb (quota_of q j =? 0)) eqn:Ej; [|exact IH].
    cbn [map qsum]. rewrite IH. destruct (Z.eqb_spec j k) as [->|_]; [|reflexivity]. rewrite E in Ej. discriminate Ej.
Qed.

Lemma batches_nonneg (q : gmap Z Z) (keys : list Z) : (forall k, 0 <= quota_of q k) -> Forall nonneg (quota_batches q keys).
Proof.
  intros H. apply Forall_concat. unfold quota_batches. rewrite groups_all by reflexivity. apply Forall_map, Forall_forall. intros k _. apply H.
Qed.

(** The increments of a key: not yet written, about to be written, written, cut
    off. *)
Record Quotas (w : World) (gs : list (list (Z * Z))) (f : Z -> Z) : Prop := {
  qa_sum : forall k, quota_of (r_quotaUsed (w_rec w)) k + qsum (concat gs) k + quota_of (w_quotaDb w) k + quota_of (w_truncated w) k = f k;
  qa_used : forall k, 0 <= quota_of (r_quotaUsed (w_rec w)) k;
  qa_groups : Forall nonneg gs;
  qa_db : forall k, 0 <= quota_of (w_quotaDb w) k;
  qa_cut : forall k, 0 <= quota_of (w_truncated w) k
}.

Lemma Quotas_frame (w w' : World) (gs : list (list (Z * Z))) (f : Z -> Z) : frame w w' -> Quotas w gs f -> Quotas w' gs f.
Proof. intros (E1 & _ & E2 & E3 & _) []. split; rewrite ?E1, ?E2, ?E3; assumption. Qed.

Lemma Quotas_group (env : DbEnv) (w : World) (g : list (Z * Z)) (gs : list (list (Z * Z))) (f : Z -> Z) : (forall k, f k <= max64) ->
  Quotas w (g :: gs) f -> Quotas (flush_group env g w) gs f.
Proof.
  intros Hmax [H1 H2 H3 H4 H5]. apply Forall_cons in H3 as [Hg H3].
  assert (forall k, quota_of (r_quotaUsed (w_rec w)) k + qsum g k + qsum (concat gs) k + quota_of (w_quotaDb w) k + quota_of (w_truncated w) k = f k) as H1'.
  { intros k. specialize (H1 k). cbn [concat] in H1. rewrite qsum_app in H1. lia. }
  pose proof (fun k => qsum_nonneg g k Hg) as Hgk. unfold flush_group, expired. destruct (db_expired env (w_time w)).
  - split; cbn; try assumption; intros k; rewrite db_add_sum; [specialize (H1' k)|specialize (Hgk k); specialize (H5 k)]; lia.
  - destruct (db_quota env _ g).
    + split; cbn; try assumption; intros k; rewrite db_add_sum; [specialize (H1' k)|specialize (Hgk k); specialize (H4 k)]; lia.
    + assert (forall k, quota_of (r_quotaUsed (w_rec w)) k + qsum g k <= max64) as Hm.
      { intros k. specialize (H1' k). specialize (Hmax k). specialize (H4 k). specialize (H5 k).
        pose proof (qsum_nonneg (concat gs) k ltac:(apply Forall_concat; exact H3)). lia. }
      pose proof (refill_sum g Hg (w_rec w) H2 Hm) as Hr.
      split; cbn [upd tick w_rec w_quotaDb w_truncated]; try assumption; intros k; rewrite Hr; [specialize (H1' k)|specialize (Hgk k); specialize (H2 k)]; lia.
Qed.

Lemma Quotas_swap (w : World) (keys : list Z) (f : Z -> Z) : ranges keys (r_quotaUsed (w_rec w)) -> Quotas w [] f ->
  Quotas (upd w (fun r => set_quotaUsed r ∅)) (quota_batches (r_quotaUsed (w_rec w)) keys) f.
Proof.
  intros Hk [H1 H2 H3 H4 H5].
  assert (forall k, quota_of ∅ k = 0) as He by (intros k; unfold quota_of; rewrite lookup_empty; reflexivity).
  split; cbn [upd w_rec set_quotaUsed r_quotaUsed w_quotaDb w_truncated]; try assumption.
  - intros k. rewrite He, (batches_sum _ _ _ Hk). specialize (H1 k). cbn in H1. lia.
  - intros k. rewrite He. lia.
  - apply batches_nonneg, H2.
Qed.

Lemma Quotas_flush (env : DbEnv) (w : World) (keys : list Z) (f : Z -> Z) : (forall k, f k <= max64) -> ranges keys (r_quotaUsed (w_rec w)) ->
  r_quota (w_rec w) = true -> Quotas w [] f -> Quotas (flushQuota env keys w) [] f.
Proof.
  intros Hmax Hk Hq HA. pose proof (Quotas_swap w keys f Hk HA) as H. unfold flushQuota. cbv zeta. cbn [upd w_rec set_quotaUsed r_quota]. rewrite Hq. cbn [negb].
  change (mkWorld _ _ _ _ _ _ _ _) with (upd w (fun r => set_quotaUsed r ∅)). revert H.
  generalize (quota_batches (r_quotaUsed (w_rec w)) keys), (upd w (fun r => set_quotaUsed r ∅)). clear -Hmax.
  induction l as [|g gs IH]; intros w H; [exact H|]. cbn. apply IH, Quotas_group; assumption.
Qed.

Lemma saturating_small (a b : Z) : 0 <= a -> 0 <= b -> a + b <= max64 -> saturatingAdd a b = a + b.
Proof.
  intros Ha Hb H. unfold saturatingAdd. destruct (Z.leb_spec b 0); [lia|]. replace (a <? 0) with false by lia. cbv zeta.
  rewrite sub64_small by (unfold_int; lia). destruct (Z.gtb_spec a (max64 - b)); [lia|]. apply add64_small. unfold_int. lia.
Qed.

Lemma Quotas_add (w : World) (r' : Recorder) (gs : list (list (Z * Z))) (f : Z -> Z) (k d : Z) : 0 <= d -> added f k d k <= max64 ->
  r_quotaUsed r' = <[k := saturatingAdd (quota_of (r_quotaUsed (w_rec w)) k) d]> (r_quotaUsed (w_rec w)) ->
  Quotas w gs f -> Quotas (upd w (fun _ => r')) gs (added f k d).
Proof.
  intros Hd Hmax Er [H1 H2 H3 H4 H5]. unfold added in *. rewrite Z.eqb_refl in Hmax.
  assert (saturatingAdd (quota_of (r_quotaUsed (w_rec w)) k) d = quota_of (r_quotaUsed (w_rec w)) k + d) as Es.
  { apply saturating_small; [apply H2|exact Hd|]. specialize (H1 k). specialize (H4 k). specialize (H5 k).
    pose proof (qsum_nonneg (concat gs) k ltac:(apply Forall_concat; exact H3)). lia. }
  rewrite Es in Er. split; cbn [upd w_rec w_quotaDb w_truncated]; rewrite ?Er; try assumption; intros j; rewrite quota_of_insert.
  - specialize (H1 j). destruct (Z.eqb_spec j k) as [->|_]; lia.
  - specialize (H2 j). destruct (Z.eqb_spec j k) as [->|_]; lia.
Qed.

Lemma record_quota (r : Recorder) (l : Row) : let n := normalizeUsageLog l in
  r_quotaUsed (RecordRow r l) = if 0 <? row_KeyID n then <[row_KeyID n := saturatingAdd (quota_of (r_quotaUsed r) (row_KeyID n)) (row_TotalTokens n)]> (r_quotaUsed r)
    else r_quotaUsed r.
Proof. cbv zeta. unfold RecordRow. cbv zeta. destruct (r_closed r), (0 <? _), (_ >? _); reflexivity. Qed.

Lemma total_nonneg (l : Row) : 0 <= row_TotalTokens (normalizeUsageLog l).
Proof. unfold row_TotalTokens, normalizeUsageLog, nonNegative. cbn. destruct (Z.ltb_spec (ul_TotalTokens (ul_usage (row_log l))) 0); lia. Qed.

Lemma late_frame (w : World) (L : list (list Row)) (batch : list Row) (ok : bool) : frame w (late_result w L batch ok).
Proof. unfold late_result, removeAfterInsert, frame. destruct ok; cbn; auto 10. Qed.

Section QuotaRuns.
Variable env : DbEnv.

(** The history only grows. *)
Lemma step_added (s s' : Sys) (k : Z) : step env s s' -> s_added s k <= s_added s' k.
Proof.
  destruct 1 as [w ts gs R f l Hl n|w ts gs R f k0 d| | | | | | | | | ]; cbn [s_added]; try lia.
  - destruct (0 <? row_KeyID n); [|lia]. unfold added. pose proof (total_nonneg l). fold n in H. destruct (k =? _); lia.
  - destruct (Z.leb_spec k0 0), (Z.leb_spec d 0); cbn [orb]; try lia. unfold added. destruct (k =? k0); lia.
Qed.

Lemma step_quotas (s s' : Sys) : step env s s' -> (forall k, s_added s' k <= max64) -> Quotas (s_w s) (s_groups s) (s_added s) -> Quotas (s_w s') (s_groups s') (s_added s').
Proof.
  intros Hs Hmax HQ. destruct Hs as [w ts gs R f l Hl n|w ts gs R f k d|w R f pend r Hb|w R f pend r Hb|w t1 si s t2 gs R f base rest n w' Hc
    |w t1 si t2 gs R f|w ts gs R f L1 batch L2 ok Hl|w R f keys Hk Hq|w ts g gs R f|w R f fuel keys w' Hk Hq Hc|w ts gs R f];
    cbn [s_w s_groups s_added] in *.
  - pose proof (record_quota (w_rec w) l) as Er. cbv zeta in Er. fold n in Er. destruct (0 <? row_KeyID n).
    + apply (Quotas_add w (RecordRow (w_rec w) l)); [apply total_nonneg|apply Hmax|exact Er|exact HQ].
    + destruct HQ as [H1 H2 H3 H4 H5]. split; cbn [upd w_rec w_quotaDb w_truncated]; rewrite ?Er; assumption.
  - unfold AddQuota. destruct (Z.leb_spec k 0), (Z.leb_spec d 0); cbn [orb] in *; try (apply (Quotas_frame w); [apply frame_upd; auto|exact HQ]).
    apply (Quotas_add w (add_quota (w_rec w) k d)); [lia|apply Hmax|reflexivity|exact HQ].
  - pose proof (begin_frame (w_rec w)) as [F1 F2]. rewrite Hb in F1, F2. cbn [snd] in F1, F2. apply (Quotas_frame w); [|exact HQ]. unfold frame. cbn. auto 10.
  - pose proof (begin_frame (w_rec w)) as [F1 F2]. rewrite Hb in F1, F2. cbn [snd] in F1, F2. apply (Quotas_frame w); [|exact HQ]. unfold frame. cbn. auto 10.
  - pose proof (frame_chunk env base si s w) as F. rewrite Hc in F. apply (Quotas_frame (tick w)); [exact F|]. apply (Quotas_frame w); [|exact HQ]. unfold frame. cbn. auto 10.
  - exact HQ.
  - exact (Quotas_frame _ _ _ _ (late_frame w (L1 ++ L2) batch ok) HQ).
  - apply Quotas_swap; assumption.
  - apply Quotas_group; assumption.
  - unfold Close in Hc. destruct (r_closeOnce (w_rec w)); [injection Hc as <-; exact HQ|].
    destruct (drain env fuel _) as [w1|] eqn:E; [|discriminate]. cbn in Hc. injection Hc as <-. apply frame_drain in E.
    apply (Quotas_frame (flushQuota env (keys (r_quotaUsed (w_rec w1))) w1)); [unfold frame; cbn; auto 10|].
    apply Quotas_flush; [exact Hmax|apply Hk|destruct E as (_ & -> & _); exact Hq|]. apply (Quotas_frame w); [|exact HQ]. etransitivity; [|exact E]. apply frame_upd. auto.
  - apply (Quotas_frame w); [apply frame_upd; auto|exact HQ].
Qed.
End QuotaRuns.

(** Quota increments are conserved.  However handlers, quota writes and
    shutdown interleave, and whatever the database answers: as long as the tokens
    of a key fit an [int64], what was added for the key is what is not yet
    written, about to be written, written, or cut off at the shutdown budget; no
    part is negative. *)
Theorem quota_accounted (env : DbEnv) (batchSize workers : Z) (s : Sys) : reachable env batchSize workers s -> (forall k, s_added s k <= max64) ->
  let w := s_w s in forall k,
  quota_of (r_quotaUsed (w_rec w)) k + qsum (concat (s_groups s)) k + quota_of (w_quotaDb w) k + quota_of (w_truncated w) k = s_added s k /\
  0 <= quota_of (r_quotaUsed (w_rec w)) k /\ 0 <= quota_of (w_quotaDb w) k.
Proof.
  intros H Hmax. cbv zeta. enough (Quotas (s_w s) (s_groups s) (s_added s)) as [H1 H2 H3 H4 H5] by auto.
  assert (forall s0, rtc (step env) s0 s -> Quotas (s_w s0) (s_groups s0) (s_added s0) -> Quotas (s_w s) (s_groups s) (s_added s)) as Hrun.
  { clear H. intros s0 H.
    induction H as [s0|s0 s1 s2 Hs Hr IH]; [auto|]. intros HQ. apply (IH Hmax). apply (step_quotas env s0 s1 Hs); [|exact HQ].
    intros k. assert (s_added s1 k <= s_added s2 k) as Hle; [|pose proof (Hmax k); lia]. clear -Hr.
    induction Hr as [s|s s1 s2 Hs _ IH]; [lia|]. pose proof (step_added env s s1 k Hs). lia. }
  apply (Hrun _ H). unfold start. split; cbn; intros; unfold quota_of; rewrite ?lookup_empty; cbn; try lia. constructor.
Qed.

(** ** One bad row *)

Section Poison.
Variable env : DbEnv.
Variable bad : Row -> bool.
(** The database rejects the batches that have a bad row, whenever it is asked. *)
Hypothesis rejects_bad : forall n b, db_insert env n b = if existsb bad b then InsErr else InsOk.

Definition good (l : list Row) : list Row := List.filter (fun x => negb (bad x)) l.

Lemma no_bad (l : list Row) : List.filter bad l = [] -> existsb bad l = false /\ good l = l.
Proof.
  unfold good. induction l as [|x l IH]; intros H; [auto|]. cbn in H |- *. destruct (bad x); [discriminate|]. cbn [negb orb]. destruct (IH H) as [-> ->]. auto.
Qed.

Lemma some_bad (l : list Row) : List.filter bad l <> [] -> existsb bad l = true.
Proof. induction l as [|x l IH]; cbn; [contradiction|]. destruct (bad x); [reflexivity|exact IH]. Qed.

Lemma bisect_isolates (fuel : nat) : forall w chunk, chunk <> [] -> (List.length chunk <= fuel)%nat -> (List.length (List.filter bad chunk) <= 1)%nat ->
  exists w', poisonBisect env fuel w chunk = (head (List.filter bad chunk), [], len (good chunk), w') /\
    w_rec w' = w_rec w /\ w_dropped w' = w_dropped w /\ w_late w' = w_late w /\ w_store w' ≡ₚ w_store w ++ good chunk.
Proof.
  induction fuel as [|fuel IH]; intros w chunk Hne Hf Hb; [destruct chunk; [contradiction|cbn in Hf; lia]|].
  destruct chunk as [|x [|y l]]; [contradiction| |].
  - cbn [poisonBisect List.filter good head]. unfold InsertBatch. rewrite rejects_bad. cbn [existsb]. destruct (bad x) eqn:Ex; cbn [orb negb].
    + eexists. split; [reflexivity|]. cbn. rewrite app_nil_r. auto.
    + eexists. split; [reflexivity|]. cbn. auto.
  - set (chunk := x :: y :: l) in *. set (mid := (List.length chunk / 2)%nat).
    assert (1 <= mid < List.length chunk)%nat as Hmid by (unfold mid, chunk; cbn [List.length]; split; [apply (Nat.div_le_lower_bound _ 2); lia|apply Nat.div_lt; lia]).
    assert (List.filter bad (take mid chunk) ++ List.filter bad (drop mid chunk) = List.filter bad chunk) as Eb by (rewrite <- List.filter_app, take_drop; reflexivity).
    assert (good (take mid chunk) ++ good (drop mid chunk) = good chunk) as Eg by (unfold good; rewrite <- List.filter_app, take_drop; reflexivity).
    assert (take mid chunk <> []) as Hl by (intros H; apply (f_equal (@List.length Row)) in H; rewrite length_take in H; cbn [List.length] in H; lia).
    assert (drop mid chunk <> []) as Hr by (intros H; apply (f_equal (@List.length Row)) in H; rewrite length_drop in H; cbn [List.length] in H; lia).
    change (poisonBisect env (S fuel) w chunk) with (let '(ok, w) := InsertBatch env w (take mid chunk) in
      if ok then let '(p, rf, d, w) := poisonBisect env fuel w (drop mid chunk) in (p, rf, d + len (take mid chunk), w)
      else let '(ok, w) := InsertBatch env w (drop mid chunk) in
        if ok then let '(p, rf, d, w) := poisonBisect env fuel w (take mid chunk) in (p, rf, d + len (drop mid chunk), w) else (None, chunk, 0, w)).
    rewrite <- Eb, length_app in Hb. unfold InsertBatch. rewrite rejects_bad. destruct (List.filter bad (take mid chunk)) as [|b1 bs1] eqn:E1.
    + destruct (no_bad _ E1) as [-> Eg1]. destruct (IH (commit (tick w) (take mid chunk)) (drop mid chunk) Hr) as (w' & -> & H1 & H2 & H3 & H4);
        [rewrite length_drop; lia|cbn [List.length Nat.add] in Hb; exact Hb|]. exists w'. rewrite <- Eb, <- Eg, Eg1, length_app. cbn [app].
      split; [repeat f_equal; lia|]. split_and!; [exact H1|exact H2|exact H3|]. rewrite H4. cbn. rewrite <- app_assoc. reflexivity.
    + rewrite (some_bad (take mid chunk)) by (rewrite E1; discriminate). cbn [List.length] in Hb.
      assert (List.filter bad (drop mid chunk) = []) as E2 by (destruct (List.filter bad (drop mid chunk)); [reflexivity|cbn in Hb; lia]).
      destruct (no_bad _ E2) as [Ee Eg2]. rewrite rejects_bad, Ee.
      destruct (IH (commit (tick (reject_batch (tick w) (take mid chunk))) (drop mid chunk)) (take mid chunk) Hl) as (w' & -> & H1 & H2 & H3 & H4);
        [rewrite length_take; lia|rewrite E1; cbn [List.length]; lia|]. exists w'. rewrite <- Eb, <- Eg, E1, E2, Eg2, length_app, app_nil_r.
      split; [repeat f_equal; lia|]. split_and!; [exact H1|exact H2|exact H3|]. rewrite H4. cbn. solve_Permutation.
Qed.
End Poison.

(** A bad row is isolated.  When the database rejects exactly the batches
    that contain one bad row, a worker whose batch fails because of it drops that
    row and only that row, has the database take every other row of the batch,
    puts the rest of its shard back, and reports the number of rows inserted. *)
Theorem poison_row_isolated (env : DbEnv) (bad : Row -> bool) (base : bool) (si : nat) (w : World) (A B rest : list Row) (x : Row) :
  (forall n b, db_insert env n b = if existsb bad b then InsErr else InsOk) -> db_expired env (w_time w) = false ->
  bad x = true -> existsb bad (A ++ B) = false -> A ++ B <> [] -> List.length (A ++ x :: B) = r_BatchSize (w_rec w) ->
  exists w', chunk_step env base si ((A ++ x :: B) ++ rest) w = (None, len (A ++ B), w') /\
    w_store w' ≡ₚ w_store w ++ A ++ B /\ w_dropped w' = w_dropped w ++ [x] /\ r_pending (w_rec w') = r_pending (w_rec w) ++ rest.
Proof.
  intros Hdb Hexp Hx Hab Hne Hlen. set (batch := A ++ x :: B).
  assert (List.filter bad A = [] /\ List.filter bad B = []) as [HA HB].
  { assert (forall l, existsb bad l = false -> List.filter bad l = []) as H.
    { induction l as [|y l IH]; [reflexivity|]. cbn. destruct (bad y); [discriminate|exact IH]. }
    rewrite existsb_app in Hab. apply orb_false_iff in Hab as [H1 H2]. auto. }
  assert (List.filter bad batch = [x]) as Eb by (unfold batch; rewrite List.filter_app; cbn; rewrite Hx, HA, HB; reflexivity).
  assert (good bad batch = A ++ B) as Eg.
  { unfold batch, good. rewrite List.filter_app. cbn. rewrite Hx. cbn. f_equal; apply no_bad; assumption. }
  unfold chunk_step, expired. rewrite Hexp. cbn [tick w_rec]. rewrite <- Hlen. fold batch. rewrite take_app_length, drop_app_length.
  unfold insertBatch. rewrite Hdb, (some_bad bad batch) by (rewrite Eb; discriminate). destruct (Nat.eqb_spec (List.length batch) 1) as [E|_].
  { exfalso. unfold batch in E. rewrite length_app in E. cbn in E. destruct A, B; cbn in *; [contradiction|lia..]. }
  destruct (bisect_isolates env bad Hdb (List.length batch) (reject_batch (tick (tick w)) batch) batch) as (w' & -> & H1 & H2 & H3 & H4);
    [unfold batch; destruct A; discriminate|reflexivity|rewrite Eb; cbn; lia|]. rewrite Eb, Eg in *. cbn [head]. eexists. split; [reflexivity|].
  cbn [upd give_up_row w_store w_dropped w_rec]. split_and!.
  - rewrite H4. reflexivity.
  - rewrite H2. reflexivity.
  - destruct (reset_fail_same si (w_rec w')) as (Er & _). cbn [refillLogs set_pending r_pending]. rewrite Er, H1. reflexivity.
Qed.

(** ** A database that takes everything *)

Section Healthy.
Variable env : DbEnv.
Hypothesis takes : forall n b, db_insert env n b = InsOk.
Hypothesis in_time : forall n, db_expired env n = false.

Lemma healthy_shard (base : bool) (si : nat) (fuel : nat) : forall s w, (List.length s <= fuel)%nat -> (0 < r_BatchSize (w_rec w))%nat ->
  let w' := (run_shard env fuel base si s w).2 in
  same_recorder (w_rec w) (w_rec w') /\ w_store w' = w_store w ++ s /\ w_late w' = w_late w.
Proof.
  induction fuel as [|fuel IH]; intros s w Hf Hb; cbv zeta; cbn [run_shard].
  { destruct s; [|cbn in Hf; lia]. rewrite app_nil_r. unfold same_recorder. auto 10. }
  destruct s as [|x s]; [rewrite app_nil_r; unfold same_recorder; auto 10|]. unfold chunk_step, expired. rewrite in_time. cbn [tick w_rec]. set (n := r_BatchSize (w_rec w)).
  unfold insertBatch. rewrite takes. set (w1 := upd (commit (tick (tick w)) (take n (x :: s))) (fun r => reset_fail r si)).
  assert (same_recorder (w_rec w) (w_rec w1)) as Hs1 by (unfold w1; cbn; apply reset_fail_same). destruct Hs1 as (S1 & S2 & S3 & S4 & S5).
  destruct (IH (drop n (x :: s)) w1) as ((T1 & T2 & T3 & T4 & T5) & T6 & T7); [rewrite length_drop; cbn [List.length] in *; unfold n; lia|congruence|].
  destruct (run_shard env fuel base si (drop n (x :: s)) w1) as [m w2]. cbn [snd] in *. split_and!; [unfold same_recorder; split_and!; congruence| |exact T7].
  rewrite T6. unfold w1. cbn [upd commit tick w_store]. rewrite <- app_assoc, take_drop. reflexivity.
Qed.

Lemma healthy_shards (base : bool) (shards : list (nat * list Row)) : forall w, (0 < r_BatchSize (w_rec w))%nat ->
  let w' := (run_shards env base shards w).2 in
  same_recorder (w_rec w) (w_rec w') /\ w_store w' = w_store w ++ concat (map snd shards) /\ w_late w' = w_late w.
Proof.
  induction shards as [|[si s] shards IH]; intros w Hb; cbv zeta; cbn [run_shards].
  { rewrite app_nil_r. unfold same_recorder. auto 10. }
  destruct (healthy_shard base si (List.length s) s w (le_n _) Hb) as ((S1 & S2 & S3 & S4 & S5) & S6 & S7).
  destruct (run_shard env (List.length s) base si s w) as [n w1]. cbn [snd] in *.
  destruct (IH w1) as ((T1 & T2 & T3 & T4 & T5) & T6 & T7); [congruence|]. destruct (run_shards env base shards w1) as [m w2]. cbn [snd] in *.
  split_and!; [unfold same_recorder; split_and!; congruence| |congruence]. rewrite T6, S6. cbn [map concat snd]. rewrite app_assoc. reflexivity.
Qed.

Lemma healthy_flush (base : bool) (R : list Row) (w : World) : RowBooks R [] w -> w_late w = [] ->
  let w' := (flushLogs env base w).2 in
  r_pending (w_rec w') = [] /\ w_store w' ≡ₚ w_store w ++ r_pending (w_rec w) /\ w_late w' = [].
Proof.
  intros HA Hl. cbv zeta. unfold flushLogs, expired. destruct (r_pending (w_rec w)) as [|x0 p0] eqn:Ep.
  { cbn [snd]. rewrite app_nil_r, Ep. auto. }
  rewrite <- Ep. assert (r_inflight (w_rec w) = ∅) as Ei by (rewrite (ac_inflight _ _ _ HA), Hl; reflexivity).
  assert (begin_flush (w_rec w) = ((begin_flush (w_rec w)).1, (begin_flush (w_rec w)).2)) as Eb by (destruct (begin_flush (w_rec w)); reflexivity).
  assert ((begin_flush (w_rec w)).1 = r_pending (w_rec w) /\ r_pending (begin_flush (w_rec w)).2 = []) as [E1 E2].
  { unfold begin_flush. rewrite Ep. cbn [fst snd]. rewrite Ei. split; [apply filter_all; intros l _; reflexivity|].
    rewrite (filter_none (fun l => bool_decide (row_ptr l ∈ ∅))) by (intros l _; reflexivity). destruct (_ <? _); reflexivity. }
  destruct (begin_account R [] w _ _ Eb HA) as (HA1 & _ & _). destruct (begin_flush (w_rec w)) as [pend r]. cbn [fst snd] in *. subst pend. rewrite in_time.
  destruct (healthy_shards base (shards_of (r_workers r) (r_pending (w_rec w))) (tick (upd w (fun _ => r)))) as ((S1 & _) & S6 & S7); [exact (proj1 (ac_cfg _ _ _ HA1))|].
  rewrite S1, S6, S7. cbn [tick upd w_rec w_store w_late]. split_and!; [exact E2| |exact Hl].
  rewrite (shards_of_all (r_workers r)); [reflexivity|exact (proj2 (ac_cfg _ _ _ HA1))].
Qed.
End Healthy.

(** Shutdown writes everything.  With a database that takes every batch and
    no call without result, closing the recorder ends after at most two rounds,
    whatever is pending, and leaves nothing pending: every row recorded is in the
    database or was given up before. *)
Theorem close_drains (env : DbEnv) (keys : gmap Z Z -> list Z) (R : list Row) (w : World) :
  (forall n b, db_insert env n b = InsOk) -> (forall n, db_expired env n = false) -> RowBooks R [] w -> w_late w = [] -> r_closeOnce (w_rec w) = false ->
  exists w', Close env 2 keys w = Some w' /\ r_pending (w_rec w') = [] /\ r_pendingN (w_rec w') = 0 /\ R ≡ₚ w_store w' ++ w_dropped w' /\ r_closed (w_rec w') = true.
Proof.
  intros Hok Hin HA Hl Hc. assert (exists w1, drain env 2 (upd w (fun r => set_closed r (r_closed r) (r_closeWarned r) true)) = Some w1 /\ r_pending (w_rec w1) = []) as (w1 & E1 & Hp).
  { set (w0 := upd w _). assert (RowBooks R [] w0) as HA0 by (apply books_ext; [intros r; unfold same_recorder; auto|exact HA]).
    cbn [drain]. pose proof (ac_count _ _ _ HA0) as Hn. destruct (Z.ltb_spec 0 (r_pendingN (w_rec w0))).
    - unfold expired. rewrite Hin. apply books_tick in HA0. destruct (healthy_flush env Hok Hin false R (tick w0) HA0 Hl) as (Hp & _).
      pose proof (flush_account env false R (tick w0)) as Hf. destruct (flushLogs env false (tick w0)) as [n w1]. cbn [snd] in Hp.
      destruct (Hf n w1 eq_refl HA0) as [HA1 _]. exists w1. pose proof (ac_count _ _ _ HA1) as Hn1. rewrite Hp in Hn1. rewrite Hn1. auto.
    - exists w0. split; [reflexivity|]. destruct (r_pending (w_rec w0)); [reflexivity|]. cbn [List.length] in Hn. lia. }
  assert (exists w', Close env 2 keys w = Some w' /\ r_pending (w_rec w') = [] /\ r_closed (w_rec w') = true) as (w' & E & Hp' & Hcl).
  { unfold Close. rewrite Hc, E1. cbn [mbind option_bind]. eexists. split; [reflexivity|]. split; [|reflexivity]. cbn [upd w_rec set_closed r_pending].
    assert (forall gs w, r_pending (w_rec (fold_left (fun w g => flush_group env g w) gs w)) = r_pending (w_rec w)) as Hgs.
    { clear. induction gs as [|g gs IH]; intros w; [reflexivity|]. cbn [fold_left]. rewrite IH. unfold flush_group, expired. destruct (db_expired env _); [reflexivity|].
      destruct (db_quota env _ g); [reflexivity|]. cbn. apply refill_group_same. }
    unfold flushQuota. cbv zeta. destruct (negb _); [|rewrite Hgs]; exact Hp. }
  exists w'. pose proof (close_account env R 2 keys w w' E HA) as HA'. pose proof (ac_rows _ _ _ HA') as Hr. pose proof (ac_count _ _ _ HA') as Hn. rewrite Hp' in Hr, Hn.
  split_and!; assumption.
Qed.

(** Shutdown ends by its deadline, whatever the database does: once the
    context has expired for good at some call, closing ends within that many
    rounds. *)
Theorem close_terminates (env : DbEnv) (keys : gmap Z Z -> list Z) (w : World) (deadline : nat) :
  (forall n, (deadline <= n)%nat -> db_expired env n = true) -> exists w', Close env (S (S deadline)) keys w = Some w'.
Proof.
  intros Hd. assert (forall fuel w, (deadline < w_time w + fuel)%nat -> exists w', drain env fuel w = Some w' \/ fuel = O) as Hdrain.
  { induction fuel as [|fuel IH]; intros w0 Hf; [exists w0; auto|]. cbn [drain]. destruct (0 <? _); [|eauto]. unfold expired.
    destruct (db_expired env (w_time w0)) eqn:E; [eauto|]. assert (w_time w0 < deadline)%nat as Hlt by (apply Nat.lt_nge; intros H; rewrite Hd in E by exact H; discriminate).
    pose proof (frame_flush env false (tick w0)) as (_ & _ & _ & _ & Ht). destruct (flushLogs env false (tick w0)) as [n w1]. cbn [snd tick w_time] in Ht.
    destruct (IH w1 ltac:(lia)) as (w' & [Hw|Hz]); [eauto|]. exfalso. lia. }
  unfold Close. destruct (r_closeOnce (w_rec w)); [eauto|].
  destruct (Hdrain (S (S deadline)) (upd w (fun r => set_closed r (r_closed r) (r_closeWarned r) true)) ltac:(lia)) as (w' & [Hw|Hz]); [rewrite Hw; cbn; eauto|discriminate Hz].
Qed.

(** ** Examples *)

Definition demo_row (ptr : nat) (user key tokens : Z) : Row :=
  mkRow ptr EmptyString 5 None
    (mkLog (mkOwner 1 1 user key EmptyString EmptyString FormatOpenAIChat 200 ErrNone) (mkUsage tokens 0 tokens 0 0 0) no_prices None no_charge no_upstream).

Definition row_a : Row := demo_row 1 7 3 100.
Definition row_b : Row := demo_row 2 7 3 50.

Definition healthy_env : DbEnv := mkDbEnv (fun _ _ => InsOk) (fun _ => false) (fun _ _ => true).

(** One row recorded, and a flush by its worker. *)
Definition demo_1 : Sys :=
  mkSys (upd (s_w (start 2 1)) (fun r => RecordRow r row_a)) [] [] ([] ++ [normalizeUsageLog row_a]) (added (fun _ => 0) 3 100).
Definition demo_2 : Sys :=
  let r := (begin_flush (w_rec (s_w demo_1))).2 in
  mkSys (tick (upd (s_w demo_1) (fun _ => r))) (shards_of (r_workers r) (begin_flush (w_rec (s_w demo_1))).1) [] (s_recorded demo_1) (s_added demo_1).
Definition demo_3 : Sys :=
  mkSys (chunk_step healthy_env true 0 [normalizeUsageLog row_a] (s_w demo_2)).2 [(0%nat, [])] [] (s_recorded demo_1) (s_added demo_1).

Lemma demo_reachable : reachable healthy_env 2 1 demo_3.
Proof.
  apply (rtc_l _ _ demo_1).
  { apply (st_record healthy_env (s_w (start 2 1)) [] [] [] (fun _ => 0) row_a). apply not_elem_of_nil. }
  apply (rtc_l _ _ demo_2).
  { apply (st_begin healthy_env (s_w demo_1) (s_recorded demo_1) (s_added demo_1)). destruct (begin_flush (w_rec (s_w demo_1))); reflexivity. }
  apply rtc_once. apply (st_worker healthy_env (s_w demo_2) [] 0 [normalizeUsageLog row_a] [] [] (s_recorded demo_1) (s_added demo_1) true (Some []) 1
    (chunk_step healthy_env true 0 [normalizeUsageLog row_a] (s_w demo_2)).2). vm_compute. reflexivity.
Qed.

Lemma rows_accounted_witness : s_recorded demo_3 ≡ₚ r_pending (w_rec (s_w demo_3)) ++ held demo_3 ++ w_store (s_w demo_3) ++ w_dropped (s_w demo_3) /\
  w_store (s_w demo_3) = [normalizeUsageLog row_a].
Proof.
  destruct (rows_accounted healthy_env 2 1 demo_3 demo_reachable) as (H & _). split; [exact H|vm_compute; reflexivity].
Defined.

Lemma quota_accounted_witness : quota_of (r_quotaUsed (w_rec (s_w demo_3))) 3 + qsum (concat (s_groups demo_3)) 3 + quota_of (w_quotaDb (s_w demo_3)) 3 +
  quota_of (w_truncated (s_w demo_3)) 3 = 100.
Proof.
  apply (quota_accounted healthy_env 2 1 demo_3 demo_reachable). intros k. cbn [s_added demo_3 demo_1]. unfold added. destruct (k =? 3); vm_compute; discriminate.
Defined.

Definition poison_env : DbEnv := mkDbEnv (fun _ b => if existsb (fun l => (row_ptr l =? 2)%nat) b then InsErr else InsOk) (fun _ => false) (fun _ _ => true).

Lemma poison_row_isolated_witness : exists w', chunk_step poison_env true 0 ([row_a; row_b] ++ []) (s_w (start 2 1)) = (None, 1, w') /\ w_dropped w' = [row_b].
Proof.
  destruct (poison_row_isolated poison_env (fun l => (row_ptr l =? 2)%nat) true 0 (s_w (start 2 1)) [row_a] [] [] row_b) as (w' & E & _ & Hd & _);
    try reflexivity; [discriminate|]. exists w'. split; [exact E|exact Hd].
Defined.

Lemma close_drains_witness : exists w', Close healthy_env 2 (fun _ => []) (s_w demo_1) = Some w' /\ r_pending (w_rec w') = [].
Proof.
  destruct (close_drains healthy_env (fun _ => []) (s_recorded demo_1) (s_w demo_1)) as (w' & E & Hp & _); try reflexivity; [|exists w'; split; [exact E|exact Hp]].
  apply record_account; [apply not_elem_of_nil|]. apply start_account.
Defined.

Definition dead_env : DbEnv := mkDbEnv (fun _ _ => InsErr) (fun n => (3 <=? n)%nat) (fun _ _ => false).

Lemma close_terminates_witness : exists w', Close dead_env 5 (fun _ => []) (s_w demo_1) = Some w'.
Proof. apply (close_terminates dead_env (fun _ => []) (s_w demo_1) 3). intros n Hn. apply Nat.leb_le, Hn. Defined.

(** ** Two rows in trouble *)

Definition two_rows : World := upd (upd (s_w (start 2 1)) (fun r => RecordRow r row_a)) (fun r => RecordRow r row_b).

(** Two calls fail, the first and the third: the second row is given up, although
    the database takes it at every other call. *)
Definition flaky_env : DbEnv := mkDbEnv (fun n _ => if (n =? 2)%nat || (n =? 4)%nat then InsErr else InsOk) (fun _ => false) (fun _ _ => true).

Theorem transient_failure_drops_row :
  w_dropped (flushLogs flaky_env true two_rows).2 = [normalizeUsageLog row_b] /\
  (forall n, (4 < n)%nat -> db_insert flaky_env n [normalizeUsageLog row_b] = InsOk).
Proof.
  split; [vm_compute; reflexivity|]. intros n Hn. cbn. destruct (Nat.eqb_spec n 2), (Nat.eqb_spec n 4); try lia. reflexivity.
Qed.

(** A group that could not be written is added back without saturation: tokens
    recorded meanwhile make the increment of the key negative. *)
Theorem quota_refill_wraps :
  quota_of (r_quotaUsed (refill_group (AddQuota (New 1 1) 3 10) [(3, max64)])) 3 = min64 + 9.
Proof. vm_compute. reflexivity. Qed.
