(* ===== verification/SseRelay.v ===== *)
(** * The SSE relay ([pkg/sserelay/relay.go])

    A stream is read line by line through an 8 KB buffer, collected into frames
    and written to the client through another 8 KB buffer, which is flushed by
    size, by a timer in a goroutine of its own and at the end.  An observer sees
    the frames for metering, a mapper may replace what is written.

    The parser ([take_chunk]) is separate from the writer, as the two share
    nothing: one turn of [run] ([turn]) reads a piece, parses it and writes at most
    one frame under the lock, and the timer runs between turns.  Writes to the
    client, the context and the clock are an environment that may do anything. *)

From Stdlib Require Import ZArith Lia List Bool String Ascii.
From stdpp Require Import base option list relations.
From S2P Require Import Prelude GoString JsonScan JsonText GoJson.
Import ListNotations.
Local Open Scope nat_scope.
Local Open Scope list_scope.

Definition nl : ascii := "010"%char.
Definition cr : ascii := "013"%char.

(** ** Reading ([bufio.Reader]) *)

Definition bufSize : nat := N.to_nat 8192.

#[global] Opaque bufSize.

Inductive ReadErr := EOF | ErrBufferFull | ErrRead (e : string).

(** What the provider sends until it ends or fails; a cancelled context ends it
    with its error ([ctxReader]). *)
Record Source := mkSource { src_rest : bytes; src_end : option string }.

Fixpoint index_of (c : ascii) (l : bytes) : option nat :=
  match l with [] => None | x :: l => if Ascii.eqb x c then Some 0 else S <$> index_of c l end.

(** [ReadSlice] up to a newline; a full buffer without one is handed out as a
    piece. *)
Definition ReadSlice (s : Source) : bytes * option ReadErr * Source :=
  let rest := src_rest s in
  match index_of nl (take bufSize rest) with
  | Some i => (take (S i) rest, None, mkSource (drop (S i) rest) (src_end s))
  | None =>
      if bufSize <=? List.length rest then (take bufSize rest, Some ErrBufferFull, mkSource (drop bufSize rest) (src_end s))
      else (rest, Some (match src_end s with None => EOF | Some e => ErrRead e end), mkSource [] (src_end s))
  end.

(** ** Parsing *)

Record Event := mkEvent { ev_Raw : bytes; ev_Event : bytes; ev_Data : bytes }.

(** The current frame. *)
Record Frame := mkFrame { f_raw : bytes; f_data : bytes; f_event : bytes; f_inLine : bool }.

Definition is_eol (c : ascii) : bool := Ascii.eqb c nl || Ascii.eqb c cr.

Fixpoint trim_eol (l : bytes) : bytes :=
  match l with [] => [] | c :: l => match trim_eol l with [] => if is_eol c then [] else [c] | r => c :: r end end.

Definition trim_one_space (l : bytes) : bytes := match l with c :: r => if Ascii.eqb c " " then r else l | [] => [] end.

(** [splitField]: no field in a comment or a line without colon. *)
Definition splitField (line : bytes) : bytes * bytes :=
  match index_of ":" line with
  | None | Some 0 => ([], [])
  | Some i => (take i line, trim_eol (trim_one_space (drop (S i) line)))
  end.

Definition is_blank (line : bytes) : bool := beq line [cr; nl] || beq line [nl].

Definition add_field (line data event : bytes) : bytes * bytes :=
  let '(field, value) := splitField line in
  if beq field (bs "event") then (data, value)
  else if beq field (bs "data") then ((match data with [] => [] | _ => data ++ [nl] end) ++ value, event)
  else (data, event).

(** A piece joins the frame; [true] when it ends the frame. *)
Definition take_chunk (f : Frame) (line : bytes) : Frame * bool :=
  match line with
  | [] => (f, false)
  | _ =>
      let raw := f_raw f ++ line in
      if f_inLine f then (mkFrame raw (f_data f ++ trim_eol line) (f_event f) true, false)
      else if is_blank line then (mkFrame raw (f_data f) (f_event f) false, true)
      else let '(data, event) := add_field line (f_data f) (f_event f) in (mkFrame raw data event false, false)
  end.

Definition new_frame : Frame := mkFrame [] [] [] false.
Definition set_inLine (f : Frame) (b : bool) : Frame := mkFrame (f_raw f) (f_data f) (f_event f) b.
Definition event_of (f : Frame) : Event := mkEvent (f_raw f) (f_event f) (f_data f).
Definition reset_frame (f : Frame) : Frame := mkFrame [] [] [] (f_inLine f).

(** ** Event names *)

Definition typeAnchorPrefix : bytes := bs "{" ++ quote :: bs "type" ++ quote :: bs ":" ++ [quote].

(** The anchored value: up to its closing quote, escapes passed over. *)
Fixpoint anchored (l : bytes) : option bytes :=
  match l with
  | [] => None
  | c :: l =>
      if Ascii.eqb c quote then Some []
      else if Ascii.eqb c backslash then match l with [] => None | e :: l => (fun r => c :: e :: r) <$> anchored l end
      else cons c <$> anchored l
  end.

Definition InferEventName (data : bytes) : bytes :=
  if is_prefix typeAnchorPrefix data then default [] (anchored (drop (List.length typeAnchorPrefix) data))
  else default [] (UnmarshalType data).

Definition EventName (e : Event) : bytes := match ev_Event e with [] => InferEventName (ev_Data e) | n => n end.

(** ** Writing ([bufio.Writer] over the client) *)

(** [w_out]: what the client's connection took; [w_pushed]: how much of it an
    HTTP flush has pushed out. *)
Record Writer := mkWriter { w_buf : bytes; w_err : option string; w_out : bytes; w_calls : nat; w_pushed : nat }.

(** A write fails after some bytes, or takes all of them; the context's error at
    each look; a flusher or none. *)
Record RelayEnv := mkRelayEnv {
  re_write : nat -> option (nat * string);
  re_ctx : nat -> option string;
  re_flusher : bool
}.

Inductive MapResult := Drop | Out (frame : bytes).

(** A mapper sees the frames before the current one. *)
Record Config := mkConfig { cfg_FlushBytes : Z; cfg_Mapper : option (list Event -> Event -> MapResult) }.

Definition flush_bytes (cfg : Config) : Z := (if cfg_FlushBytes cfg <=? 0 then 4096 else cfg_FlushBytes cfg)%Z.

Section Relay.
Variable env : RelayEnv.
Variable cfg : Config.

(** One write to the client: the writer and how much was taken. *)
Definition dst_write (w : Writer) (p : bytes) : Writer * nat * option string :=
  match re_write env (w_calls w) with
  | None => (mkWriter (w_buf w) (w_err w) (w_out w ++ p) (S (w_calls w)) (w_pushed w), List.length p, None)
  | Some (n, e) =>
      let n := Nat.min n (List.length p) in
      (mkWriter (w_buf w) (w_err w) (w_out w ++ take n p) (S (w_calls w)) (w_pushed w), n, Some e)
  end.

Definition set_buf (w : Writer) (b : bytes) (e : option string) : Writer := mkWriter b e (w_out w) (w_calls w) (w_pushed w).

(** [Writer.Flush]; an error sticks. *)
Definition bw_flush (w : Writer) : Writer * option string :=
  match w_err w with
  | Some e => (w, Some e)
  | None =>
      match w_buf w with
      | [] => (w, None)
      | buf =>
          let '(w, n, e) := dst_write w buf in
          match e with
          | Some e => (set_buf w (drop n buf) (Some e), Some e)
          | None => (set_buf w [] None, None)
          end
      end
  end.

(** A large write with an empty buffer goes straight to the client. *)
Definition bw_direct (w : Writer) (p : bytes) : Writer * option string :=
  let '(w, n, e) := dst_write w p in (set_buf w [] e, e).

(** [Writer.Write]: the loop turns at most twice, since after the first turn the
    buffer is empty. *)
Definition bw_write (w : Writer) (p : bytes) : Writer * option string :=
  match w_err w with
  | Some e => (w, Some e)
  | None =>
      let avail := bufSize - List.length (w_buf w) in
      if List.length p <=? avail then (set_buf w (w_buf w ++ p) None, None)
      else
        match w_buf w with
        | [] => bw_direct w p
        | buf =>
            let '(w, e) := bw_flush (set_buf w (buf ++ take avail p) None) in
            match e with
            | Some e => (w, Some e)
            | None =>
                let p := drop avail p in
                if List.length p <=? bufSize then (set_buf w p None, None) else bw_direct w p
            end
        end
  end.

(** [fl.Flush()]. *)
Definition push (w : Writer) : Writer :=
  if re_flusher env then mkWriter (w_buf w) (w_err w) (w_out w) (w_calls w) (List.length (w_out w)) else w.

(** The state under the lock; [r_ticked]: [lastTick] is set. *)
Record relay := mkRelay { r_w : Writer; r_pending : Z; r_ticked : bool; r_armed : bool }.

Definition new_relay : relay := mkRelay (mkWriter [] None [] 0 0) 0 false false.

Definition flushLocked (r : relay) : relay * option string :=
  if (r_pending r <=? 0)%Z then (r, None)
  else
    let '(w, e) := bw_flush (r_w r) in
    match e with
    | Some e => (mkRelay w (r_pending r) (r_ticked r) (r_armed r), Some e)
    | None => (mkRelay (push w) 0 (r_ticked r) (r_armed r), None)
    end.

Definition flushNoResetLocked (r : relay) : relay * option string :=
  let '(w, e) := bw_flush (r_w r) in
  match e with
  | Some e => (mkRelay w (r_pending r) (r_ticked r) (r_armed r), Some e)
  | None => (mkRelay (push w) (r_pending r) (r_ticked r) (r_armed r), None)
  end.

Definition armFlushTimerLocked (r : relay) : relay := mkRelay (r_w r) (r_pending r) (r_ticked r) true.

(** The end of [write], after the frame is in the buffer. *)
Definition after_write (r : relay) : relay * option string :=
  if (flush_bytes cfg <=? r_pending r)%Z then flushLocked r else (armFlushTimerLocked r, None).

Definition write (r : relay) (p : bytes) : relay * option string :=
  let '(w, e) := bw_write (r_w r) p in
  match e with
  | Some e => (mkRelay w (r_pending r) (r_ticked r) (r_armed r), Some e)
  | None =>
      let first := negb (r_ticked r) in
      let r := mkRelay w (r_pending r + Z.of_nat (List.length p)) true (r_armed r) in
      if first then
        let '(r, e) := flushNoResetLocked r in
        match e with Some e => (r, Some e) | None => after_write r end
      else after_write r
  end.

(** The timer goroutine: a turn when the timer has fired. *)
Definition timer_fire (r : relay) : relay :=
  let '(r, _) := flushLocked r in mkRelay (r_w r) (r_pending r) (r_ticked r) false.

(** ** The loop *)

(** [st_seen]: the frames the observer saw; [st_result]: set when [run] returned. *)
Record State := mkState {
  st_src : Source; st_frame : Frame; st_relay : relay; st_looks : nat; st_seen : list Event; st_result : option (option string)
}.

Definition out_of (before : list Event) (e : Event) : MapResult :=
  match cfg_Mapper cfg with None => Out (ev_Raw e) | Some f => f before e end.

(** [flushFrame]: map, write, observe, reset. *)
Definition flushFrame (st : State) : State * option string :=
  let e := event_of (st_frame st) in
  let '(r, err) := match out_of (st_seen st) e with Drop => (st_relay st, None) | Out p => write (st_relay st) p end in
  match err with
  | Some x => (mkState (st_src st) (st_frame st) r (st_looks st) (st_seen st) (st_result st), Some x)
  | None => (mkState (st_src st) (reset_frame (st_frame st)) r (st_looks st) (st_seen st ++ [e]) (st_result st), None)
  end.

Definition return_ (st : State) (e : option string) : State :=
  mkState (st_src st) (st_frame st) (st_relay st) (st_looks st) (st_seen st) (Some e).

Definition look (st : State) : option string * State :=
  (re_ctx env (st_looks st), mkState (st_src st) (st_frame st) (st_relay st) (S (st_looks st)) (st_seen st) (st_result st)).

Definition Canceled : string := "context canceled".

Definition normalize (st : State) (e : string) : State :=
  if String.eqb e Canceled then return_ st (Some Canceled)
  else let '(c, st) := look st in return_ st (Some (match c with Some c => c | None => e end)).

Definition set_frame (st : State) (src : Source) (f : Frame) : State :=
  mkState src f (st_relay st) (st_looks st) (st_seen st) (st_result st).

(** One turn of the loop of [run]. *)
Definition turn (st : State) : State :=
  let '(line, err, src) := ReadSlice (st_src st) in
  let '(f, blank) := take_chunk (st_frame st) line in
  let st := set_frame st src f in
  if blank then
    let '(st, e) := flushFrame st in match e with Some e => return_ st (Some e) | None => st end
  else
    match err with
    | Some EOF =>
        match f_raw f with
        | [] => return_ st None
        | _ => let '(st, e) := flushFrame st in return_ st e
        end
    | Some ErrBufferFull => set_frame st src (set_inLine f true)
    | Some (ErrRead e) => normalize st e
    | None =>
        let '(c, st) := look (set_frame st src (set_inLine f false)) in
        match c with Some c => return_ st (Some c) | None => st end
    end.

(** [Relay]: the two goroutines; the timer stops when [run] has returned. *)
Inductive step : State -> State -> Prop :=
| step_turn st : st_result st = None -> step st (turn st)
| step_timer st : st_result st = None -> r_armed (st_relay st) = true ->
    step st (mkState (st_src st) (st_frame st) (timer_fire (st_relay st)) (st_looks st) (st_seen st) (st_result st)).

Definition start (src : Source) : State := mkState src new_frame new_relay 0 [] None.
Definition reachable (src : Source) (st : State) : Prop := rtc step (start src) st.

(** The residue is flushed after the loop. *)
Definition finish (st : State) : relay :=
  match w_buf (r_w (st_relay st)) with [] => st_relay st | _ => fst (flushLocked (st_relay st)) end.

(** The loop alone. *)
Fixpoint run (fuel : nat) (st : State) : State :=
  match fuel with
  | O => st
  | S fuel => match st_result st with Some _ => st | None => run fuel (turn st) end
  end.

(** ** The writer *)

Lemma dst_write_spec (w w' : Writer) (p : bytes) (n : nat) (e : option string) : dst_write w p = (w', n, e) ->
  w_buf w' = w_buf w /\ w_err w' = w_err w /\ w_pushed w' = w_pushed w /\ w_out w' = w_out w ++ take n p /\
  (e = None -> n = List.length p).
Proof.
  unfold dst_write. destruct (re_write env (w_calls w)) as [[m x]|]; intros [= <- <- <-]; cbn.
  - repeat split. discriminate.
  - rewrite firstn_all. repeat split.
Qed.

(** A call on a sound writer that was to send [p] more. *)
Definition sends (w w' : Writer) (p : bytes) (e : option string) : Prop :=
  w_pushed w' = w_pushed w /\ w_out w `prefix_of` w_out w' /\ w_out w' `prefix_of` (w_out w ++ w_buf w ++ p) /\
  match e with
  | None => w_err w' = None /\ w_out w' ++ w_buf w' = w_out w ++ w_buf w ++ p
  | Some x => w_err w' = Some x
  end.

Lemma take_prefix (n : nat) (p q : bytes) : p ++ take n q `prefix_of` p ++ q.
Proof. apply prefix_app. exists (drop n q). symmetry. apply take_drop. Qed.

Lemma bw_flush_spec (w w' : Writer) (e : option string) : w_err w = None -> bw_flush w = (w', e) ->
  sends w w' [] e /\ (e = None -> w_buf w' = []).
Proof.
  intros He. unfold bw_flush, sends. rewrite He, app_nil_r. destruct (w_buf w) as [|c buf] eqn:Eb.
  { intros [= <- <-]. rewrite Eb, !app_nil_r. split; [|reflexivity]. split; [reflexivity|]. split; [reflexivity|]. split; [reflexivity|]. auto. }
  destruct (dst_write w (c :: buf)) as [[w1 n] e1] eqn:E. apply dst_write_spec in E as (_ & _ & Hp & Ho & Hn).
  destruct e1 as [x|]; intros [= <- <-]; cbn; rewrite Ho.
  - split; [|discriminate]. repeat split; [exact Hp|apply prefix_app_r; reflexivity|apply take_prefix].
  - rewrite (Hn eq_refl), firstn_all, app_nil_r. repeat split; [exact Hp|apply prefix_app_r; reflexivity|reflexivity].
Qed.

Lemma bw_direct_spec (w w' : Writer) (p : bytes) (e : option string) : w_err w = None -> w_buf w = [] -> bw_direct w p = (w', e) -> sends w w' p e.
Proof.
  intros He Hb. unfold bw_direct, sends. rewrite Hb. destruct (dst_write w p) as [[w1 n] e1] eqn:E.
  apply dst_write_spec in E as (_ & _ & Hp & Ho & Hn). intros [= <- <-]. cbn. rewrite Ho.
  split; [exact Hp|]. split; [apply prefix_app_r; reflexivity|]. split; [apply take_prefix|].
  destruct e1; [reflexivity|]. rewrite (Hn eq_refl), firstn_all, app_nil_r. auto.
Qed.

Lemma sends_trans (w w1 w2 : Writer) (p q : bytes) (e : option string) : sends w w1 p None -> sends w1 w2 q e -> sends w w2 (p ++ q) e.
Proof.
  intros (P1 & A1 & _ & _ & E1) (P2 & A2 & B2 & C2). rewrite app_assoc, E1, <- !app_assoc in B2.
  split; [congruence|]. split; [etransitivity; eassumption|]. split; [exact B2|].
  destruct e; [exact C2|]. destruct C2 as [C2 D2]. split; [exact C2|]. rewrite D2, app_assoc, E1, <- !app_assoc. reflexivity.
Qed.

Lemma set_buf_sends (w : Writer) (p : bytes) : sends w (set_buf w (w_buf w ++ p) None) p None.
Proof. unfold sends. cbn. repeat split; [reflexivity|apply prefix_app_r; reflexivity]. Qed.

Lemma bw_write_spec (w w' : Writer) (p : bytes) (e : option string) : w_err w = None -> bw_write w p = (w', e) -> sends w w' p e.
Proof.
  intros He. unfold bw_write. rewrite He. set (avail := bufSize - _).
  destruct (List.length p <=? avail); [intros [= <- <-]; apply set_buf_sends|].
  destruct (w_buf w) as [|c buf] eqn:Eb; [apply bw_direct_spec; assumption|].
  pose proof (set_buf_sends w (take avail p)) as S1. rewrite Eb in S1. set (w1 := set_buf w _ _) in *.
  destruct (bw_flush w1) as [w2 e2] eqn:E2. apply bw_flush_spec in E2 as [S2 Hb2]; [|reflexivity].
  pose proof (sends_trans _ _ _ _ _ _ S1 S2) as S12. rewrite app_nil_r in S12. rewrite <- (take_drop avail p) at 1.
  destruct e2 as [x|].
  - intros [= <- <-]. destruct S12 as (P & A & B & C). split; [exact P|]. split; [exact A|]. split; [|exact C].
    etransitivity; [exact B|]. rewrite app_assoc, (app_assoc _ _ (_ ++ _)), (app_assoc _ (take _ _)). apply prefix_app_r. reflexivity.
  - specialize (Hb2 eq_refl). assert (w_err w2 = None) as He2 by apply S12.
    destruct (_ <=? bufSize); intros H.
    + injection H as <- <-. pose proof (set_buf_sends w2 (drop avail p)) as S3. rewrite Hb2 in S3. exact (sends_trans _ _ _ _ _ _ S12 S3).
    + apply bw_direct_spec in H; [|exact He2|exact Hb2]. exact (sends_trans _ _ _ _ _ _ S12 H).
Qed.
(** ** The relay under the lock *)

Definition unpushed (w : Writer) : Z := (Z.of_nat (List.length (w_out w ++ w_buf w)) - Z.of_nat (w_pushed w))%Z.

(** [sent] is what the loop has handed over: it is in the client's connection or
    in the buffer; what is not pushed yet is within the flush threshold and the
    timer will push it. *)
Record relay_ok (r : relay) (sent : bytes) : Prop := mkRelayOk {
  ro_prefix : w_out (r_w r) `prefix_of` sent;
  ro_exact : w_err (r_w r) = None -> w_out (r_w r) ++ w_buf (r_w r) = sent;
  ro_buf : w_err (r_w r) = None -> (Z.of_nat (List.length (w_buf (r_w r))) <= r_pending r < flush_bytes cfg)%Z;
  ro_pushed : re_flusher env = true -> w_err (r_w r) = None ->
    (0 <= unpushed (r_w r) <= r_pending r)%Z /\ ((0 < unpushed (r_w r))%Z -> r_armed r = true)
}.

Lemma flush_bytes_pos : (0 < flush_bytes cfg)%Z.
Proof. unfold flush_bytes. destruct (_ <=? 0)%Z eqn:E; lia. Qed.

Lemma new_relay_ok : relay_ok new_relay [].
Proof. pose proof flush_bytes_pos. split; cbn; try reflexivity; unfold unpushed; cbn; intros; lia. Qed.

(** The state of the writer between a write and its flushes. *)
Record buffered (r : relay) (sent : bytes) : Prop := mkBuffered {
  bf_err : w_err (r_w r) = None;
  bf_exact : w_out (r_w r) ++ w_buf (r_w r) = sent;
  bf_buf : (Z.of_nat (List.length (w_buf (r_w r))) <= r_pending r)%Z;
  bf_pushed : re_flusher env = true -> (0 <= unpushed (r_w r) <= r_pending r)%Z
}.

Lemma push_same (w : Writer) : w_buf (push w) = w_buf w /\ w_err (push w) = w_err w /\ w_out (push w) = w_out w.
Proof. unfold push. destruct (re_flusher env); auto. Qed.

Lemma push_unpushed (w : Writer) : re_flusher env = true -> w_buf w = [] -> unpushed (push w) = 0%Z.
Proof. unfold push, unpushed. intros -> Hb. cbn. rewrite Hb, app_nil_r. lia. Qed.

(** What a failed call leaves behind. *)
Definition broken (r : relay) (sent : bytes) : Prop := w_err (r_w r) <> None /\ w_out (r_w r) `prefix_of` sent.

Lemma sends_broken (w w' : Writer) (p : bytes) (x : string) (n : Z) (t a : bool) : sends w w' p (Some x) ->
  broken (mkRelay w' n t a) (w_out w ++ w_buf w ++ p).
Proof. intros (_ & _ & B & C). split; cbn; [congruence|exact B]. Qed.

Lemma flush_buffered (r : relay) (sent : bytes) (w : Writer) (e : option string) : buffered r sent -> bw_flush (r_w r) = (w, e) ->
  match e with
  | None => w_err w = None /\ w_buf w = [] /\ w_out w = sent
  | Some _ => forall n t a, broken (mkRelay w n t a) sent
  end.
Proof.
  intros [He Hx _ _] E. apply bw_flush_spec in E as [S Hb]; [|exact He]. destruct e as [x|].
  - intros n t a. apply (sends_broken _ _ _ _ n t a) in S. rewrite app_nil_r, Hx in S. exact S.
  - specialize (Hb eq_refl). destruct S as (_ & _ & _ & Ee & Ex). rewrite Hb, !app_nil_r, Hx in Ex. auto.
Qed.

Lemma flushLocked_spec (r r' : relay) (sent : bytes) (e : option string) : buffered r sent -> flushLocked r = (r', e) ->
  match e with
  | None => buffered r' sent /\ (r_pending r' <= 0)%Z /\ r_armed r' = r_armed r
  | Some _ => broken r' sent
  end.
Proof.
  intros Hb. unfold flushLocked. destruct (r_pending r <=? 0)%Z eqn:Ep.
  { intros [= <- <-]. split; [exact Hb|]. split; [lia|reflexivity]. }
  destruct (bw_flush (r_w r)) as [w e1] eqn:E. pose proof (flush_buffered _ _ _ _ Hb E) as H. destruct e1 as [x|]; intros [= <- <-]; [apply H|].
  destruct H as (He & Hw & Ho). destruct (push_same w) as (P1 & P2 & P3). split; [|split; [cbn; lia|reflexivity]].
  split; cbn; rewrite ?P1, ?P2, ?P3, ?Hw, ?app_nil_r; [exact He|exact Ho|cbn; lia|]. intros Hf. rewrite push_unpushed by assumption. lia.
Qed.

Lemma flushNoReset_spec (r r' : relay) (sent : bytes) (e : option string) : buffered r sent -> (0 <= r_pending r)%Z -> flushNoResetLocked r = (r', e) ->
  match e with None => buffered r' sent | Some _ => broken r' sent end.
Proof.
  intros Hb Hp. unfold flushNoResetLocked. destruct (bw_flush (r_w r)) as [w e1] eqn:E. pose proof (flush_buffered _ _ _ _ Hb E) as H.
  destruct e1 as [x|]; intros [= <- <-]; [apply H|]. destruct H as (He & Hw & Ho). destruct (push_same w) as (P1 & P2 & P3).
  split; cbn; rewrite ?P1, ?P2, ?P3, ?Hw, ?app_nil_r; [exact He|exact Ho|cbn; lia|]. intros Hf. rewrite push_unpushed by assumption. lia.
Qed.

Lemma buffered_ok (r : relay) (sent : bytes) : buffered r sent -> (r_pending r < flush_bytes cfg)%Z -> ((0 < r_pending r)%Z -> r_armed r = true) -> relay_ok r sent.
Proof.
  intros [He Hx Hb Hp] Hf Ha. split.
  - rewrite <- Hx. apply prefix_app_r. reflexivity.
  - auto.
  - intros _. lia.
  - intros Hfl _. specialize (Hp Hfl). split; [exact Hp|]. intros Hu. apply Ha. lia.
Qed.

Lemma after_write_spec (r r' : relay) (sent : bytes) (e : option string) : buffered r sent -> after_write r = (r', e) ->
  match e with None => relay_ok r' sent | Some _ => broken r' sent end.
Proof.
  intros Hb. pose proof flush_bytes_pos as Hpos. unfold after_write. destruct (flush_bytes cfg <=? r_pending r)%Z eqn:E; intros H.
  - apply (flushLocked_spec _ _ _ _ Hb) in H. destruct e; [exact H|]. destruct H as (H & Hp & _). apply buffered_ok; [exact H|lia|lia].
  - injection H as <- <-. apply buffered_ok; [destruct Hb; split; assumption|cbn; lia|reflexivity].
Qed.

Lemma write_spec (r r' : relay) (sent p : bytes) (e : option string) : relay_ok r sent -> write r p = (r', e) ->
  match e with None => relay_ok r' (sent ++ p) | Some _ => broken r' (sent ++ p) end.
Proof.
  intros [H1 H2 H3 H4]. unfold write. destruct (w_err (r_w r)) as [x|] eqn:He.
  { unfold bw_write. rewrite He. intros [= <- <-]. split; cbn; [congruence|]. apply prefix_app_r, H1. }
  specialize (H2 eq_refl). specialize (H3 eq_refl). destruct (bw_write (r_w r) p) as [w e1] eqn:E. apply bw_write_spec in E; [|exact He].
  destruct e1 as [x|].
  { intros [= <- <-]. apply (sends_broken _ _ _ _ (r_pending r) (r_ticked r) (r_armed r)) in E. rewrite app_assoc, H2 in E. exact E. }
  destruct E as (Ep & Epre & _ & Ee & Ex). rewrite app_assoc, H2 in Ex. set (r1 := mkRelay w _ true _).
  assert (buffered r1 (sent ++ p)) as Hb.
  { pose proof (f_equal (@List.length ascii) Ex) as Hl. pose proof (prefix_length _ _ Epre) as Hle.
    rewrite <- H2, !length_app in Hl. split; cbn; [exact Ee|exact Ex|lia|].
    intros Hf. destruct (H4 Hf eq_refl) as [H5 _]. unfold unpushed in *. rewrite !length_app in *. rewrite Ep. lia. }
  assert (0 <= r_pending r1)%Z as Hp by (cbn; lia).
  destruct (negb (r_ticked r)); [|apply after_write_spec, Hb].
  destruct (flushNoResetLocked r1) as [r2 e2] eqn:E2. apply (flushNoReset_spec _ _ _ _ Hb Hp) in E2.
  destruct e2; [intros [= <- <-]; exact E2|apply after_write_spec, E2].
Qed.

Lemma flushLocked_none (r r' : relay) : w_err (r_w r) = None -> flushLocked r = (r', None) -> w_err (r_w r') = None.
Proof.
  intros He. unfold flushLocked. destruct (_ <=? 0)%Z; [intros [= <-]; exact He|]. destruct (bw_flush (r_w r)) as [w [x|]] eqn:E; [discriminate|].
  apply bw_flush_spec in E as [(_ & _ & _ & E & _) _]; [|exact He]. intros [= <-]. cbn. destruct (push_same w) as (_ & -> & _). exact E.
Qed.

Lemma write_none_err (r r' : relay) (p : bytes) : w_err (r_w r) = None -> write r p = (r', None) -> w_err (r_w r') = None.
Proof.
  intros He. unfold write. destruct (bw_write (r_w r) p) as [w [x|]] eqn:E; [discriminate|]. apply bw_write_spec in E as (_ & _ & _ & E & _); [|exact He].
  assert (forall r1 r2, w_err (r_w r1) = None -> after_write r1 = (r2, None) -> w_err (r_w r2) = None) as Ha.
  { intros r1 r2 H1. unfold after_write. destruct (_ <=? _)%Z; [apply flushLocked_none, H1|intros [= <-]; exact H1]. }
  destruct (negb (r_ticked r)); [|apply Ha; exact E]. unfold flushNoResetLocked. cbn [r_w].
  destruct (bw_flush w) as [w2 [x|]] eqn:E2; [discriminate|]. apply bw_flush_spec in E2 as [(_ & _ & _ & E2 & _) _]; [|exact E].
  apply Ha. cbn. destruct (push_same w2) as (_ & -> & _). exact E2.
Qed.

Lemma relay_ok_buffered (r : relay) (sent : bytes) : relay_ok r sent -> w_err (r_w r) = None -> buffered r sent.
Proof. intros [H1 H2 H3 H4] He. split; [exact He|exact (H2 He)|specialize (H3 He); lia|]. intros Hf. apply (H4 Hf He). Qed.

Lemma flushLocked_stuck (r : relay) : w_err (r_w r) <> None -> fst (flushLocked r) = r.
Proof.
  intros He. unfold flushLocked. destruct (_ <=? 0)%Z; [reflexivity|]. unfold bw_flush. destruct (w_err (r_w r)); [|contradiction]. destruct r; reflexivity.
Qed.

Lemma timer_spec (r : relay) (sent : bytes) : relay_ok r sent -> relay_ok (timer_fire r) sent.
Proof.
  intros H. unfold timer_fire. pose proof flush_bytes_pos as Hpos. destruct (w_err (r_w r)) as [x|] eqn:He.
  { pose proof (flushLocked_stuck r ltac:(congruence)) as E. destruct (flushLocked r) as [r1 e]. cbn in E. subst r1.
    destruct H as [H1 H2 H3 H4]. split; cbn; rewrite ?He; (exact H1 || discriminate). }
  pose proof (relay_ok_buffered _ _ H He) as Hb. destruct (flushLocked r) as [r1 e] eqn:E. apply (flushLocked_spec _ _ _ _ Hb) in E.
  destruct e as [x|].
  - destruct E as [Ee Ep]. split; cbn; [exact Ep|intros; contradiction..].
  - destruct E as ([B1 B2 B3 B4] & Hp & _). apply buffered_ok; [split; assumption|cbn; lia|cbn; lia].
Qed.
End Relay.
