(* ===== verification/SseStream.v ===== *)
(** * Relayed streams ([pkg/sserelay/relay.go])

    What the relay does with a whole stream, in every interleaving of the loop and
    the flush timer: the frames of a source are a function of its bytes ([events]),
    the observer sees them in order, the client gets a prefix of what was to be
    written, and everything at the end of a healthy run.  [SseText] says what
    the frames are. *)

From Stdlib Require Import ZArith Lia List Bool String Ascii.
From stdpp Require Import base option list relations.
From S2P Require Import Prelude GoString JsonScan JsonText GoJson SseRelay.
Import ListNotations.
Local Open Scope nat_scope.
Local Open Scope list_scope.

(** ** Reading *)

Lemma bufSize_big : 2 <= bufSize.
Proof. apply Nat.leb_le. vm_compute. reflexivity. Qed.

Lemma index_of_take (c : ascii) (n : nat) (l : bytes) (i : nat) : index_of c (take n l) = Some i -> index_of c l = Some i /\ S i <= List.length l /\ S i <= n.
Proof.
  revert n i. induction l as [|x l IH]; intros [|n] i; cbn; try discriminate. destruct (Ascii.eqb x c); [intros [= <-]; split; [reflexivity|lia]|].
  destruct (index_of c (take n l)) as [k|] eqn:E; [|discriminate]. intros [= <-]. apply IH in E as (-> & H1 & H2). split; [reflexivity|lia].
Qed.

Lemma ReadSlice_split (s s' : Source) (line : bytes) (err : option ReadErr) : ReadSlice s = (line, err, s') ->
  src_rest s = line ++ src_rest s' /\ src_end s' = src_end s /\
  match err with
  | None | Some ErrBufferFull => line <> []
  | Some EOF => src_rest s' = [] /\ src_end s = None
  | Some (ErrRead e) => src_rest s' = [] /\ src_end s = Some e
  end.
Proof.
  pose proof bufSize_big as Hbig. unfold ReadSlice. destruct (index_of nl (take bufSize (src_rest s))) as [i|] eqn:E.
  - intros [= <- <- <-]. cbn [src_rest src_end]. rewrite take_drop. apply index_of_take in E as (_ & H & _).
    repeat split. intros Hn. apply (f_equal (@List.length ascii)) in Hn. rewrite length_take in Hn. cbn [List.length] in Hn. lia.
  - destruct (bufSize <=? List.length (src_rest s)) eqn:Hl; intros [= <- <- <-]; cbn [src_rest src_end].
    + rewrite take_drop. repeat split. intros Hn. apply (f_equal (@List.length ascii)) in Hn. rewrite length_take in Hn. cbn [List.length] in Hn.
      apply Nat.leb_le in Hl. lia.
    + rewrite app_nil_r. destruct (src_end s); auto.
Qed.

(** The frames a source gives from a frame in progress. *)
Fixpoint frames_from (fuel : nat) (f : Frame) (s : Source) : list Event :=
  match fuel with
  | O => []
  | S fuel =>
      let '(line, err, s) := ReadSlice s in
      let '(f, blank) := take_chunk f line in
      if blank then event_of f :: frames_from fuel (reset_frame f) s
      else
        match err with
        | Some EOF => match f_raw f with [] => [] | _ => [event_of f] end
        | Some ErrBufferFull => frames_from fuel (set_inLine f true) s
        | Some (ErrRead _) => []
        | None => frames_from fuel (set_inLine f false) s
        end
  end.

Definition remaining (f : Frame) (s : Source) : list Event := frames_from (S (List.length (src_rest s))) f s.
Definition events (s : Source) : list Event := remaining new_frame s.

(** A frame ends with a line that is there. *)
Lemma take_chunk_blank (f f' : Frame) (line : bytes) : take_chunk f line = (f', true) -> line <> [].
Proof. destruct line; [discriminate|discriminate]. Qed.

(** A piece that ends a frame ends a line. *)
Lemma blank_no_error (s s' : Source) (line : bytes) (err : option ReadErr) (f f' : Frame) : ReadSlice s = (line, err, s') ->
  take_chunk f line = (f', true) -> err = None.
Proof.
  pose proof bufSize_big as Hbig. intros E H. unfold take_chunk in H. destruct line as [|c line]; [discriminate|].
  destruct (f_inLine f); [discriminate|]. destruct (is_blank (c :: line)) eqn:Hb.
  2: { destruct (add_field _ _ _). discriminate. }
  assert (exists i, index_of nl (c :: line) = Some i /\ List.length (c :: line) <= 2) as (i & Hi & Hl).
  { unfold is_blank, beq in Hb. apply orb_prop in Hb as [Hb|Hb]; apply bool_decide_eq_true in Hb; rewrite Hb; cbn; eauto. }
  clear H Hb f f'. unfold ReadSlice in E. destruct (index_of nl (take bufSize (src_rest s))) eqn:Ei; [injection E as _ <- _; reflexivity|].
  destruct (bufSize <=? List.length (src_rest s)); injection E as E _ _.
  - rewrite E in Ei. congruence.
  - rewrite E, take_ge in Ei by lia. congruence.
Qed.

Lemma frames_fuel (f : nat) : forall g fr s, List.length (src_rest s) < f -> List.length (src_rest s) < g -> frames_from f fr s = frames_from g fr s.
Proof.
  induction f as [|f IH]; intros [|g] fr s Hf Hg; try lia. cbn [frames_from].
  destruct (ReadSlice s) as [[line err] s'] eqn:E. pose proof (ReadSlice_split _ _ _ _ E) as (Es & _ & He).
  destruct (take_chunk fr line) as [fr' blank] eqn:Ec. rewrite Es, length_app in Hf, Hg. destruct blank.
  - apply take_chunk_blank in Ec. f_equal. destruct line; [contradiction|]. cbn in Hf, Hg. apply IH; lia.
  - destruct err as [[| |e]|]; try reflexivity; (destruct line; [contradiction|]); cbn in Hf, Hg; apply IH; lia.
Qed.

Lemma remaining_step (fr : Frame) (s s' : Source) (line : bytes) (err : option ReadErr) : ReadSlice s = (line, err, s') ->
  remaining fr s =
  (let '(f, blank) := take_chunk fr line in
   if blank then event_of f :: remaining (reset_frame f) s'
   else match err with
        | Some EOF => match f_raw f with [] => [] | _ => [event_of f] end
        | Some ErrBufferFull => remaining (set_inLine f true) s'
        | Some (ErrRead _) => []
        | None => remaining (set_inLine f false) s'
        end).
Proof.
  intros E. unfold remaining at 1. cbn [frames_from]. rewrite E. pose proof (ReadSlice_split _ _ _ _ E) as (Es & _ & He).
  destruct (take_chunk fr line) as [f blank] eqn:Ec. rewrite Es, length_app. destruct blank.
  - apply take_chunk_blank in Ec. f_equal. destruct line; [contradiction|]. unfold remaining. apply frames_fuel; cbn [List.length]; lia.
  - destruct err as [[| |e]|]; try reflexivity; (destruct line; [contradiction|]); unfold remaining; apply frames_fuel; cbn [List.length]; lia.
Qed.

(** ** The loop *)

Section Stream.
Variable env : RelayEnv.
Variable cfg : Config.

(** What the frames are written as. *)
Fixpoint outs_from (before l : list Event) : bytes :=
  match l with
  | [] => []
  | e :: l => match out_of cfg before e with Drop => [] | Out p => p end ++ outs_from (before ++ [e]) l
  end.
Definition outs (l : list Event) : bytes := outs_from [] l.

Lemma outs_from_snoc (l : list Event) : forall before e,
  outs_from before (l ++ [e]) = outs_from before l ++ match out_of cfg (before ++ l) e with Drop => [] | Out p => p end.
Proof.
  induction l as [|x l IH]; intros before e; cbn; [rewrite !app_nil_r; reflexivity|]. rewrite IH, <- !app_assoc. reflexivity.
Qed.

Lemma outs_snoc (l : list Event) (e : Event) : outs (l ++ [e]) = outs l ++ match out_of cfg l e with Drop => [] | Out p => p end.
Proof. apply outs_from_snoc. Qed.

Lemma outs_from_app (l l' : list Event) : forall before, outs_from before (l ++ l') = outs_from before l ++ outs_from (before ++ l) l'.
Proof.
  induction l as [|x l IH]; intros before; cbn; [rewrite app_nil_r; reflexivity|]. rewrite IH, <- !app_assoc. reflexivity.
Qed.

Lemma outs_prefix (l l' : list Event) : l `prefix_of` l' -> outs l `prefix_of` outs l'.
Proof. intros [k ->]. unfold outs. rewrite outs_from_app. apply prefix_app_r. reflexivity. Qed.

(** The state of a run whose source has the frames [all]. *)
Inductive run_ok (all : list Event) (st : State) : Prop :=
| running : st_result st = None -> relay_ok env cfg (st_relay st) (outs (st_seen st)) ->
    st_seen st ++ remaining (st_frame st) (st_src st) = all -> run_ok all st
| completed : st_result st = Some None -> relay_ok env cfg (st_relay st) (outs (st_seen st)) -> st_seen st = all ->
    src_end (st_src st) = None -> run_ok all st
| stopped e : st_result st = Some (Some e) -> relay_ok env cfg (st_relay st) (outs (st_seen st)) ->
    st_seen st `prefix_of` all -> run_ok all st
| cut e ev : st_result st = Some (Some e) -> broken (st_relay st) (outs (st_seen st ++ [ev])) ->
    (st_seen st ++ [ev]) `prefix_of` all -> run_ok all st.

Lemma flushFrame_spec (st st' : State) (e : option string) : relay_ok env cfg (st_relay st) (outs (st_seen st)) -> flushFrame env cfg st = (st', e) ->
  st_src st' = st_src st /\ st_result st' = st_result st /\
  match e with
  | None => st_seen st' = st_seen st ++ [event_of (st_frame st)] /\ st_frame st' = reset_frame (st_frame st) /\
      relay_ok env cfg (st_relay st') (outs (st_seen st'))
  | Some _ => st_seen st' = st_seen st /\ broken (st_relay st') (outs (st_seen st ++ [event_of (st_frame st)]))
  end.
Proof.
  intros H. unfold flushFrame. set (ev := event_of (st_frame st)).
  pose proof (outs_snoc (st_seen st) ev) as Eo. destruct (out_of cfg (st_seen st) ev) as [|p].
  { rewrite app_nil_r in Eo. intros [= <- <-]. cbn [st_src st_result st_seen st_frame st_relay]. rewrite Eo. auto. }
  destruct (write env cfg (st_relay st) p) as [r err] eqn:E. apply (write_spec env cfg _ _ _ _ _ H) in E.
  destruct err as [x|]; intros [= <- <-]; cbn [st_src st_result st_seen st_frame st_relay]; rewrite Eo; auto.
Qed.

Lemma turn_ok (all : list Event) (st : State) : run_ok all st -> st_result st = None -> run_ok all (turn env cfg st).
Proof.
  intros H Hr. assert (relay_ok env cfg (st_relay st) (outs (st_seen st)) /\ st_seen st ++ remaining (st_frame st) (st_src st) = all) as [Hk <-]
    by (destruct H; [auto|congruence..]).
  clear H. unfold turn. destruct (ReadSlice (st_src st)) as [[line err] src'] eqn:E. rewrite (remaining_step _ _ _ _ _ E).
  pose proof (ReadSlice_split _ _ _ _ E) as (_ & Eend & Hend). destruct (take_chunk (st_frame st) line) as [f blank] eqn:Ec.
  set (st1 := set_frame st src' f). assert (relay_ok env cfg (st_relay st1) (outs (st_seen st1))) as Hk1 by exact Hk. destruct blank.
  - destruct (flushFrame env cfg st1) as [st2 e] eqn:Ef. apply (flushFrame_spec _ _ _ Hk1) in Ef as (Es & Er & Hf). destruct e as [x|].
    + destruct Hf as [Hs Hb]. eapply (cut _ _ x (event_of f)); [reflexivity| |].
      * cbn. rewrite Hs. exact Hb.
      * cbn. rewrite Hs. apply prefix_app. eexists. reflexivity.
    + destruct Hf as (Hs & Hfr & Hk2). apply running; [rewrite Er; exact Hr|exact Hk2|]. rewrite Hs, Hfr, Es. cbn. rewrite <- app_assoc. reflexivity.
  - destruct err as [[| |x]|].
    + destruct Hend as [_ Hend]. destruct (f_raw f) as [|c raw] eqn:Ef.
      { apply completed; [reflexivity|exact Hk1|cbn; rewrite app_nil_r; reflexivity|cbn; congruence]. }
      destruct (flushFrame env cfg st1) as [st2 e] eqn:Eff. apply (flushFrame_spec _ _ _ Hk1) in Eff as (Es & Er & Hf). destruct e as [x|].
      * destruct Hf as [Hs Hb]. eapply (cut _ _ x (event_of f)); [reflexivity| |]; cbn; rewrite Hs; [exact Hb|reflexivity].
      * destruct Hf as (Hs & _ & Hk2). apply completed; [reflexivity|exact Hk2|exact Hs|]. cbn. rewrite Es. cbn. congruence.
    + apply running; [exact Hr|exact Hk|reflexivity].
    + rewrite app_nil_r. unfold normalize. destruct (String.eqb x Canceled); (eapply stopped; [reflexivity|exact Hk|reflexivity]).
    + cbn. destruct (re_ctx env (st_looks st)) as [c|].
      * eapply stopped; [reflexivity|exact Hk|]. cbn. apply prefix_app_r. reflexivity.
      * apply running; [exact Hr|exact Hk|reflexivity].
Qed.

Lemma step_ok (all : list Event) (st st' : State) : run_ok all st -> step env cfg st st' -> run_ok all st'.
Proof.
  intros H S. inversion S as [s Hr|s Hr Ha]; subst; [apply turn_ok; assumption|].
  destruct H as [_ Hk He| | |]; try congruence. apply running; [exact Hr|apply timer_spec, Hk|exact He].
Qed.

Lemma relay_reachable_ok (src : Source) (st : State) : reachable env cfg src st -> run_ok (events src) st.
Proof.
  unfold reachable. revert st. apply (rtc_ind_r (R := step env cfg) (fun st => run_ok (events src) st) (start src)).
  - apply running; [reflexivity|apply new_relay_ok|reflexivity].
  - intros y z _ S IH. exact (step_ok _ _ _ IH S).
Qed.

(** ** Healthy runs *)

Definition healthy : Prop := (forall n, re_write env n = None) /\ (forall n, re_ctx env n = None).

Lemma flush_when_healthy (w : Writer) : healthy -> w_err w = None -> (bw_flush env w).2 = None.
Proof. intros [Hw _] He. unfold bw_flush, dst_write. rewrite He, Hw. destruct (w_buf w); reflexivity. Qed.

Lemma healthy_direct (w : Writer) (p : bytes) : healthy -> (bw_direct env w p).2 = None.
Proof. intros [Hw _]. unfold bw_direct, dst_write. rewrite Hw. reflexivity. Qed.

Lemma healthy_bw_write (w : Writer) (p : bytes) : healthy -> w_err w = None -> (bw_write env w p).2 = None.
Proof.
  intros H He. unfold bw_write. rewrite He. destruct (_ <=? _); [reflexivity|]. destruct (w_buf w); [apply healthy_direct, H|].
  match goal with |- context [bw_flush env ?x] => pose proof (flush_when_healthy x H eq_refl) as Hf; destruct (bw_flush env x) as [w1 e1] end.
  cbn in Hf. subst e1. destruct (_ <=? _); [reflexivity|apply healthy_direct, H].
Qed.

Lemma healthy_flushLocked (r : relay) : healthy -> w_err (r_w r) = None -> (flushLocked env r).2 = None.
Proof.
  intros H He. unfold flushLocked. destruct (_ <=? 0)%Z; [reflexivity|]. pose proof (flush_when_healthy (r_w r) H He) as Hf.
  destruct (bw_flush env (r_w r)) as [w e]. cbn in Hf. subst e. reflexivity.
Qed.

Lemma healthy_write (r : relay) (sent p : bytes) : healthy -> relay_ok env cfg r sent -> w_err (r_w r) = None -> (write env cfg r p).2 = None.
Proof.
  intros H Hk He. unfold write. pose proof (healthy_bw_write (r_w r) p H He) as Hw. destruct (bw_write env (r_w r) p) as [w e] eqn:E.
  cbn in Hw. subst e. apply bw_write_spec in E as (_ & _ & _ & Ee & _); [|exact He]. set (r1 := mkRelay w _ _ _).
  assert (forall r2, w_err (r_w r2) = None -> (after_write env cfg r2).2 = None) as Ha.
  { intros r2 H2. unfold after_write. destruct (_ <=? _)%Z; [apply healthy_flushLocked; assumption|reflexivity]. }
  destruct (negb (r_ticked r)); [|apply Ha; exact Ee]. unfold flushNoResetLocked. pose proof (flush_when_healthy (r_w r1) H Ee) as Hf.
  destruct (bw_flush env (r_w r1)) as [w2 e2] eqn:E2. cbn in Hf. subst e2. apply bw_flush_spec in E2 as [(_ & _ & _ & Ee2 & _) _]; [|exact Ee].
  apply Ha. destruct (push_same env w2) as (_ & P & _). cbn. congruence.
Qed.

(** A healthy run does not fail by itself; the source may. *)
Definition sound (st : State) : Prop :=
  w_err (r_w (st_relay st)) = None /\ (src_end (st_src st) = None -> forall e, st_result st <> Some (Some e)).

Lemma healthy_flushFrame (st st' : State) (e : option string) : healthy -> relay_ok env cfg (st_relay st) (outs (st_seen st)) ->
  w_err (r_w (st_relay st)) = None -> flushFrame env cfg st = (st', e) -> e = None /\ w_err (r_w (st_relay st')) = None.
Proof.
  intros H Hk He. unfold flushFrame. destruct (out_of cfg (st_seen st) _) as [|p]; [intros [= <- <-]; auto|].
  pose proof (healthy_write _ _ p H Hk He) as Hw. destruct (write env cfg (st_relay st) p) as [r e1] eqn:E. cbn in Hw. subst e1.
  intros [= <- <-]. split; [reflexivity|]. cbn.
  pose proof (write_none_err env cfg (st_relay st) r p He E) as Hn. exact Hn.
Qed.

Lemma healthy_turn (st : State) : healthy -> relay_ok env cfg (st_relay st) (outs (st_seen st)) -> st_result st = None -> sound st -> sound (turn env cfg st).
Proof.
  intros H Hk Hr [He _]. unfold turn. destruct (ReadSlice (st_src st)) as [[line err] src'] eqn:E. apply ReadSlice_split in E as (_ & Ee & Hend).
  destruct (take_chunk (st_frame st) line) as [f blank]. set (st1 := set_frame st src' f).
  assert (forall st2 e, flushFrame env cfg st1 = (st2, e) -> e = None /\ w_err (r_w (st_relay st2)) = None) as Hff
    by (intros st2 e; apply healthy_flushFrame; [exact H|exact Hk|exact He]).
  assert (forall st2 e, flushFrame env cfg st1 = (st2, e) -> st_result st2 = None) as Hfr
    by (intros st2 e E2; apply (flushFrame_spec st1 st2 e Hk) in E2 as (_ & -> & _); exact Hr).
  destruct blank.
  - destruct (flushFrame env cfg st1) as [st2 e] eqn:E2. destruct (Hff _ _ eq_refl) as [-> Hw]. split; [exact Hw|]. intros _ x. rewrite (Hfr _ _ eq_refl). discriminate.
  - destruct err as [[| |x]|].
    + destruct (f_raw f); [split; [exact He|intros _ x; discriminate]|]. destruct (flushFrame env cfg st1) as [st2 e] eqn:E2.
      destruct (Hff _ _ eq_refl) as [-> Hw]. split; [exact Hw|intros _ x; discriminate].
    + split; [exact He|]. intros _ x. cbn. rewrite Hr. discriminate.
    + destruct Hend as [_ Hend]. assert (src_end src' <> None) as Hne by congruence. unfold normalize.
      destruct (String.eqb x Canceled); (split; [exact He|cbn; intros; contradiction]).
    + destruct H as [_ Hc]. cbn. rewrite Hc. split; [exact He|]. intros _ x. cbn. rewrite Hr. discriminate.
Qed.

Lemma healthy_timer (r : relay) : healthy -> w_err (r_w r) = None -> w_err (r_w (timer_fire env r)) = None.
Proof.
  intros H He. unfold timer_fire. pose proof (healthy_flushLocked r H He) as Hf. destruct (flushLocked env r) as [r1 e] eqn:E. cbn in Hf. subst e.
  exact (flushLocked_none env r r1 He E).
Qed.

Lemma run_relay (all : list Event) (st : State) : run_ok all st -> st_result st = None -> relay_ok env cfg (st_relay st) (outs (st_seen st)).
Proof. intros H Hr. destruct H; congruence || assumption. Qed.

Lemma healthy_reachable (src : Source) (st : State) : healthy -> reachable env cfg src st -> sound st.
Proof.
  intros H. unfold reachable. revert st. apply (rtc_ind_r (R := step env cfg) (fun st => sound st) (start src)).
  - split; [reflexivity|intros _ e; discriminate].
  - intros y z Hy S IH. apply relay_reachable_ok in Hy. inversion S as [s Hr|s Hr Ha]; subst.
    + apply healthy_turn; [exact H|exact (run_relay _ _ Hy Hr)|exact Hr|exact IH].
    + destruct IH as [He Hn]. split; [|exact Hn]. exact (healthy_timer _ H He).
Qed.

(** ** The bytes of the frames *)

Lemma take_chunk_raw (f f' : Frame) (line : bytes) (b : bool) : take_chunk f line = (f', b) -> f_raw f' = f_raw f ++ line.
Proof.
  unfold take_chunk. destruct line; [intros [= <- <-]; rewrite app_nil_r; reflexivity|]. destruct (f_inLine f); [intros [= <- <-]; reflexivity|].
  destruct (is_blank _); [intros [= <- <-]; reflexivity|]. destruct (add_field _ _ _). intros [= <- <-]. reflexivity.
Qed.

Definition raws (l : list Event) : bytes := concat (map ev_Raw l).

(** The frames of a source are its bytes; of a source that fails, a prefix. *)
Lemma raws_frames (n : nat) : forall f s, List.length (src_rest s) < n ->
  raws (frames_from n f s) `prefix_of` (f_raw f ++ src_rest s) /\
  (src_end s = None -> raws (frames_from n f s) = f_raw f ++ src_rest s).
Proof.
  induction n as [|n IH]; intros f s Hn; [lia|]. cbn [frames_from]. destruct (ReadSlice s) as [[line err] s'] eqn:E.
  pose proof (ReadSlice_split _ _ _ _ E) as (Es & Ee & Hend). destruct (take_chunk f line) as [f' blank] eqn:Ec.
  pose proof (take_chunk_raw _ _ _ _ Ec) as Er. rewrite Es, length_app in Hn. rewrite Es, app_assoc, <- Er, <- Ee. destruct blank.
  - apply take_chunk_blank in Ec. destruct line; [contradiction|]. cbn in Hn. destruct (IH (reset_frame f') s' ltac:(lia)) as [H1 H2].
    unfold raws in *. cbn [map concat ev_Raw event_of]. split; [apply prefix_app, H1|]. intros Hs. rewrite H2 by exact Hs. reflexivity.
  - destruct err as [[| |x]|].
    + destruct Hend as [-> Hs]. rewrite app_nil_r. destruct (f_raw f') eqn:Ef; unfold raws; cbn; rewrite ?Ef, ?app_nil_r; auto.
    + destruct line; [contradiction|]. cbn in Hn. apply (IH (set_inLine f' true) s'). lia.
    + destruct Hend as [_ Hs]. split; [apply prefix_nil|]. congruence.
    + destruct line; [contradiction|]. cbn in Hn. apply (IH (set_inLine f' false) s'). lia.
Qed.

Lemma raws_events (src : Source) : raws (events src) `prefix_of` src_rest src /\ (src_end src = None -> raws (events src) = src_rest src).
Proof. apply (raws_frames _ new_frame src). lia. Qed.

Lemma outs_plain (l : list Event) : cfg_Mapper cfg = None -> outs l = raws l.
Proof.
  intros Hm. unfold outs. generalize (@nil Event) as before. induction l as [|e l IH]; intros before; [reflexivity|]. cbn. unfold out_of. rewrite Hm, IH. reflexivity.
Qed.

(** ** Termination *)

Definition measure (st : State) : nat :=
  match st_result st with
  | Some _ => 0
  | None => 2 * List.length (src_rest (st_src st)) + (if r_armed (st_relay st) then 1 else 0) + 1
  end.

Lemma flushFrame_src (st st' : State) (e : option string) : flushFrame env cfg st = (st', e) -> st_src st' = st_src st.
Proof.
  unfold flushFrame. destruct (match out_of cfg (st_seen st) _ with Drop => _ | Out p => _ end) as [r [x|]]; intros [= <- <-]; reflexivity.
Qed.

Lemma turn_measure (st : State) : st_result st = None -> st_result (turn env cfg st) <> None \/
  List.length (src_rest (st_src (turn env cfg st))) < List.length (src_rest (st_src st)).
Proof.
  intros Hr. unfold turn. destruct (ReadSlice (st_src st)) as [[line err] src'] eqn:E. apply ReadSlice_split in E as (Es & _ & Hend).
  rewrite Es, length_app. destruct (take_chunk (st_frame st) line) as [f blank] eqn:Ec. set (st1 := set_frame st src' f). destruct blank.
  - apply take_chunk_blank in Ec. destruct (flushFrame env cfg st1) as [st2 e] eqn:E2. apply flushFrame_src in E2.
    destruct e; [left; discriminate|]. right. rewrite E2. cbn. destruct line; [contradiction|]. cbn. lia.
  - destruct err as [[| |x]|].
    + left. destruct (f_raw f); [discriminate|]. destruct (flushFrame env cfg st1). discriminate.
    + right. cbn. destruct line; [contradiction|]. cbn. lia.
    + left. unfold normalize. destruct (String.eqb x Canceled); discriminate.
    + cbn. destruct (re_ctx env (st_looks st)); [left; discriminate|]. right. cbn. destruct line; [contradiction|]. cbn. lia.
Qed.

Lemma step_measure (st st' : State) : step env cfg st st' -> measure st' < measure st.
Proof.
  intros S. inversion S as [s Hr|s Hr Ha]; subst; unfold measure; rewrite Hr.
  - destruct (turn_measure st Hr) as [H|H]; [destruct (st_result (turn env cfg st)); [lia|contradiction]|].
    destruct (st_result (turn env cfg st)); [lia|]. destruct (r_armed _), (r_armed (st_relay st)); lia.
  - cbn [st_result st_src st_relay]. rewrite Ha. unfold timer_fire. destruct (flushLocked env (st_relay st)). cbn. lia.
Qed.

Lemma turn_end (st : State) : src_end (st_src (turn env cfg st)) = src_end (st_src st).
Proof.
  unfold turn. destruct (ReadSlice (st_src st)) as [[line err] src'] eqn:E. apply ReadSlice_split in E as (_ & <- & _).
  destruct (take_chunk (st_frame st) line) as [f blank]. set (st1 := set_frame st src' f).
  assert (forall st2 e, flushFrame env cfg st1 = (st2, e) -> src_end (st_src st2) = src_end src') as Hf
    by (intros st2 e E2; apply flushFrame_src in E2; rewrite E2; reflexivity).
  destruct blank; [destruct (flushFrame env cfg st1) as [st2 [x|]] eqn:E2; exact (Hf _ _ eq_refl)|].
  destruct err as [[| |x]|].
  - destruct (f_raw f); [reflexivity|]. destruct (flushFrame env cfg st1) as [st2 e]. exact (Hf _ _ eq_refl).
  - reflexivity.
  - unfold normalize. destruct (String.eqb x Canceled); reflexivity.
  - cbn. destruct (re_ctx env (st_looks st)); reflexivity.
Qed.

Lemma reachable_end (src : Source) (st : State) : reachable env cfg src st -> src_end (st_src st) = src_end src.
Proof.
  unfold reachable. revert st. apply (rtc_ind_r (R := step env cfg) (fun st => src_end (st_src st) = src_end src) (start src)); [reflexivity|].
  intros y z _ S IH. inversion S; subst; [rewrite turn_end; exact IH|exact IH].
Qed.

Lemma run_measure (n : nat) (st st' : State) : nsteps (step env cfg) n st st' -> n <= measure st.
Proof. induction 1 as [|n x y z S _ IH]; [lia|]. apply step_measure in S. lia. Qed.
End Stream.

Lemma run_sent (env : RelayEnv) (cfg : Config) (all : list Event) (st : State) : run_ok env cfg all st ->
  relay_ok env cfg (st_relay st) (outs cfg (st_seen st)) \/
  (exists ev, broken (st_relay st) (outs cfg (st_seen st ++ [ev])) /\ (st_seen st ++ [ev]) `prefix_of` all).
Proof. destruct 1; eauto. Qed.

Lemma run_seen (env : RelayEnv) (cfg : Config) (all : list Event) (st : State) : run_ok env cfg all st -> st_seen st `prefix_of` all.
Proof.
  destruct 1 as [_ _ <-|_ _ -> _|e _ _ H|e ev _ _ H]; [apply prefix_app_r; reflexivity|reflexivity|exact H|].
  etransitivity; [|exact H]. apply prefix_app_r. reflexivity.
Qed.

Lemma finish_prefix (env : RelayEnv) (cfg : Config) (st : State) (sent : bytes) : relay_ok env cfg (st_relay st) sent ->
  w_out (r_w (finish env st)) `prefix_of` sent.
Proof.
  intros H. unfold finish. destruct (w_buf (r_w (st_relay st))); [apply (ro_prefix _ _ _ _ H)|].
  destruct (w_err (r_w (st_relay st))) eqn:He; [rewrite flushLocked_stuck by congruence; apply (ro_prefix _ _ _ _ H)|].
  pose proof (relay_ok_buffered _ _ _ _ H He) as Hb. destruct (flushLocked env (st_relay st)) as [r e] eqn:E. cbn.
  apply (flushLocked_spec env _ _ _ _ Hb) in E. destruct e as [x|]; [apply E|]. destruct E as ([_ Hx _ _] & _ & _). rewrite <- Hx.
  apply prefix_app_r. reflexivity.
Qed.

Lemma finish_broken (env : RelayEnv) (st : State) (sent : bytes) : broken (st_relay st) sent -> w_out (r_w (finish env st)) `prefix_of` sent.
Proof. intros [He Hp]. unfold finish. destruct (w_buf (r_w (st_relay st))); [exact Hp|]. rewrite flushLocked_stuck by exact He. exact Hp. Qed.

(** C9: In every interleaving of the loop and the flush timer, and whatever the
    client's connection and the context do, the observer has seen a prefix of the
    frames of the stream, what it saw was written unless the connection failed,
    and the client gets a prefix of the frames' output; without a mapper this is a
    prefix of the provider's bytes. *)
Theorem relay_never_corrupts (env : RelayEnv) (cfg : Config) (src : Source) (st : State) : reachable env cfg src st ->
  st_seen st `prefix_of` events src /\
  (w_err (r_w (st_relay st)) = None -> w_out (r_w (st_relay st)) ++ w_buf (r_w (st_relay st)) = outs cfg (st_seen st)) /\
  w_out (r_w (finish env st)) `prefix_of` outs cfg (events src) /\
  (cfg_Mapper cfg = None -> w_out (r_w (finish env st)) `prefix_of` src_rest src).
Proof.
  intros H. apply relay_reachable_ok in H. pose proof (run_seen _ _ _ _ H) as Hs.
  assert (w_out (r_w (finish env st)) `prefix_of` outs cfg (events src)) as Hp.
  { destruct (run_sent _ _ _ _ H) as [Hk|(ev & Hb & He)].
    - etransitivity; [exact (finish_prefix _ _ _ _ Hk)|apply outs_prefix, Hs].
    - etransitivity; [exact (finish_broken _ _ _ Hb)|apply outs_prefix, He]. }
  split; [exact Hs|]. split; [|split; [exact Hp|]].
  - intros He. destruct (run_sent _ _ _ _ H) as [Hk|(ev & [Hb _] & _)]; [exact (ro_exact _ _ _ _ Hk He)|contradiction].
  - intros Hm. rewrite (outs_plain _ _ Hm) in Hp. etransitivity; [exact Hp|apply raws_events].
Qed.

(** C13: With a client that takes every byte and a stream that ends, the relay
    returns without error, the observer has seen all frames, nothing is left in
    the buffer and the client has got exactly the provider's bytes (with a
    mapper, the mapped frames), in every interleaving with the flush timer. *)
Theorem relay_delivers (env : RelayEnv) (cfg : Config) (src : Source) (st : State) : healthy env -> src_end src = None ->
  reachable env cfg src st -> st_result st <> None ->
  st_result st = Some None /\ st_seen st = events src /\ w_buf (r_w (finish env st)) = [] /\
  w_out (r_w (finish env st)) = outs cfg (events src) /\ (cfg_Mapper cfg = None -> w_out (r_w (finish env st)) = src_rest src).
Proof.
  intros Hh Hend H Hr. pose proof (healthy_reachable env cfg src st Hh H) as [He Hn].
  assert (src_end (st_src st) = None) as Hst by (rewrite (reachable_end _ _ _ _ H); exact Hend).
  apply relay_reachable_ok in H. destruct H as [E|Er Hk Hs _|e E|e ev E]; [congruence| |destruct (Hn Hst e E)|destruct (Hn Hst e E)].
  assert (w_buf (r_w (finish env st)) = [] /\ w_out (r_w (finish env st)) = outs cfg (events src)) as [Hb Ho].
  { pose proof (relay_ok_buffered _ _ _ _ Hk He) as Hbf. rewrite Hs in *. unfold finish. destruct (w_buf (r_w (st_relay st))) eqn:Eb.
    - split; [exact Eb|]. destruct Hbf as [_ Hx _ _]. rewrite Eb, app_nil_r in Hx. exact Hx.
    - pose proof (healthy_flushLocked env (st_relay st) Hh He) as Hf. destruct (flushLocked env (st_relay st)) as [r x] eqn:E. cbn in Hf. subst x.
      pose proof (flushLocked_spec env _ _ _ _ Hbf E) as ([_ Hx Hp _] & Hz & _). cbn in Hx, Hp |- *.
      destruct (w_buf (r_w r)) as [|c l]; [|cbn in Hp; lia]. rewrite app_nil_r in Hx. auto. }
  split; [exact Er|]. split; [exact Hs|]. split; [exact Hb|]. split; [exact Ho|]. intros Hm. rewrite Ho, (outs_plain _ _ Hm). apply raws_events, Hend.
Qed.

(** C33: While the relay runs, fewer bytes than the flush threshold are waiting to
    be pushed to the client, and when any are, the timer that pushes them is
    armed. *)
Theorem relay_latency_bounded (env : RelayEnv) (cfg : Config) (src : Source) (st : State) : reachable env cfg src st -> st_result st = None ->
  re_flusher env = true -> w_err (r_w (st_relay st)) = None ->
  (0 <= unpushed (r_w (st_relay st)) < flush_bytes cfg)%Z /\ ((0 < unpushed (r_w (st_relay st)))%Z -> r_armed (st_relay st) = true).
Proof.
  intros H Hr Hf He. apply relay_reachable_ok in H. pose proof (run_relay _ _ _ _ H Hr) as [_ _ Hb Hp].
  specialize (Hb He). destruct (Hp Hf He) as [H1 H2]. split; [lia|exact H2].
Qed.

(** Every interleaving ends: a run over [n] bytes has at most [2n+1] steps, and
    as long as it has not returned there is a next one. *)
Theorem relay_terminates (env : RelayEnv) (cfg : Config) (src : Source) (n : nat) (st : State) : nsteps (step env cfg) n (start src) st ->
  n <= 2 * List.length (src_rest src) + 1 /\ (st_result st = None -> exists st', step env cfg st st').
Proof.
  intros H. split; [apply run_measure in H; unfold measure in H; cbn in H |- *; lia|]. intros Hr. exists (turn env cfg st). apply step_turn, Hr.
Qed.

(** ** Examples *)

Definition line (s : string) : bytes := bs s ++ [nl].
Definition demo_source : Source := mkSource (line "event: a" ++ line "data: {}" ++ [nl] ++ line ": ping" ++ line "data: x" ++ line "data: y") None.
Definition demo_env : RelayEnv := mkRelayEnv (fun _ => None) (fun _ => None) true.
Definition failing_env : RelayEnv := mkRelayEnv (fun n => if n =? 0 then Some (3, "broken pipe"%string) else None) (fun _ => None) true.
Definition demo_config : Config := mkConfig 0 None.

Definition turns (env : RelayEnv) (cfg : Config) (n : nat) (st : State) : State := Nat.iter n (turn env cfg) st.

(** The loop's steps as a run. *)
Lemma turns_steps (env : RelayEnv) (cfg : Config) (n : nat) (st : State) : (forall k, k < n -> st_result (turns env cfg k st) = None) ->
  nsteps (step env cfg) n st (turns env cfg n st).
Proof.
  unfold turns. generalize (step_turn env cfg) as Ht. generalize (turn env cfg) as f. intros f Ht. induction n as [|n IH]; intros H; [constructor|].
  cbn [Nat.iter]. apply nsteps_r with (y := Nat.iter n f st); [apply IH; intros k Hk; apply H; lia|]. apply Ht, H. lia.
Qed.

Lemma demo_run : nsteps (step demo_env demo_config) 7 (start demo_source) (turns demo_env demo_config 7 (start demo_source)).
Proof. apply turns_steps. intros k Hk. do 7 (destruct k as [|k]; [vm_compute; reflexivity|]). lia. Qed.

Lemma failing_run : nsteps (step failing_env demo_config) 3 (start demo_source) (turns failing_env demo_config 3 (start demo_source)).
Proof. apply turns_steps. intros k Hk. do 3 (destruct k as [|k]; [vm_compute; reflexivity|]). lia. Qed.

Lemma relay_delivers_witness : exists st, st_result st = Some None /\ st_seen st =
    [mkEvent (line "event: a" ++ line "data: {}" ++ [nl]) (bs "a") (bs "{}");
     mkEvent (line ": ping" ++ line "data: x" ++ line "data: y") [] (bs "x" ++ nl :: bs "y")] /\
  w_out (r_w (finish demo_env st)) = src_rest demo_source.
Proof.
  exists (turns demo_env demo_config 7 (start demo_source)).
  destruct (relay_delivers demo_env demo_config demo_source _ (conj (fun _ => eq_refl) (fun _ => eq_refl)) eq_refl
    (rtc_nsteps_2 _ _ _ demo_run) ltac:(vm_compute; discriminate)) as (H1 & H2 & _ & _ & H5).
  split; [exact H1|]. split; [rewrite H2; vm_compute; reflexivity|exact (H5 eq_refl)].
Defined.

Lemma relay_never_corrupts_witness : exists st, st_result st = Some (Some "broken pipe"%string) /\ w_out (r_w (finish failing_env st)) = bs "eve" /\
  bs "eve" `prefix_of` src_rest demo_source.
Proof.
  exists (turns failing_env demo_config 3 (start demo_source)).
  destruct (relay_never_corrupts failing_env demo_config demo_source _ (rtc_nsteps_2 _ _ _ failing_run)) as (_ & _ & _ & H4).
  split; [vm_compute; reflexivity|]. split; [vm_compute; reflexivity|exact (H4 eq_refl)].
Defined.

Lemma demo_second_frame : nsteps (step demo_env (mkConfig 30 None)) 5 (start demo_source) (turns demo_env (mkConfig 30 None) 5 (start demo_source)).
Proof. apply turns_steps. intros k Hk. do 5 (destruct k as [|k]; [vm_compute; reflexivity|]). lia. Qed.

Lemma relay_latency_bounded_witness : exists st, (0 <= unpushed (r_w (st_relay st)) < 30)%Z /\ r_armed (st_relay st) = true.
Proof.
  exists (turns demo_env (mkConfig 30 None) 5 (start demo_source)).
  destruct (relay_latency_bounded demo_env (mkConfig 30 None) demo_source _ (rtc_nsteps_2 _ _ _ demo_second_frame)
    ltac:(vm_compute; reflexivity) eq_refl ltac:(vm_compute; reflexivity)) as [H _].
  split; [exact H|vm_compute; reflexivity].
Defined.

Lemma relay_terminates_witness : 7 <= 2 * List.length (src_rest demo_source) + 1.
Proof. exact (proj1 (relay_terminates demo_env demo_config demo_source 7 _ demo_run)). Defined.
