(* ===== verification/SseText.v ===== *)
(** * Server-sent events as text

    The frames the relay observes, compared with a reading of the whole text:
    lines end with a newline, a frame ends with a blank line, a frame's name is its
    last [event] field and its data its [data] fields joined by newlines (leading
    empty ones dropped).  The relay reads lines longer than its buffer in pieces;
    the comparison covers long [data] lines too, and shows what a long line of
    another kind does. *)

From Stdlib Require Import ZArith Lia List Bool String Ascii.
From stdpp Require Import base option list relations.
From S2P Require Import Prelude GoString JsonScan JsonText GoJson SseRelay SseStream.
Import ListNotations.
Local Open Scope nat_scope.
Local Open Scope list_scope.

(** ** The reference *)

(** Lines with their terminators; the last one may have none. *)
Fixpoint split_lines (t : bytes) : list bytes :=
  match t with
  | [] => []
  | c :: t =>
      if Ascii.eqb c nl then [c] :: split_lines t
      else match split_lines t with [] => [[c]] | l :: ls => (c :: l) :: ls end
  end.

(** Lines up to a blank one; what is left at the end counts when the text is
    complete. *)
Fixpoint group (complete : bool) (cur ls : list bytes) : list (list bytes) :=
  match ls with
  | [] => match cur with [] => [] | _ => if complete then [cur] else [] end
  | l :: ls => if is_blank l then (cur ++ [l]) :: group complete [] ls else group complete (cur ++ [l]) ls
  end.

Definition field_values (name : string) (ls : list bytes) : list bytes :=
  omap (fun l => let '(f, v) := splitField l in if beq f (bs name) then Some v else None) ls.

Fixpoint drop_empty (vs : list bytes) : list bytes := match vs with [] :: vs => drop_empty vs | _ => vs end.

Definition join_data (vs : list bytes) : bytes :=
  match drop_empty vs with [] => [] | v :: vs => v ++ concat (map (cons nl) vs) end.

Definition sse_event (ls : list bytes) : Event :=
  mkEvent (concat ls) (default [] (list.last (field_values "event" ls))) (join_data (field_values "data" ls)).

Definition sse_events (complete : bool) (text : bytes) : list Event := map sse_event (group complete [] (split_lines text)).

(** A line the relay reads as the reference does: it fits the buffer, or it is a
    [data] line without carriage returns inside. *)
Definition plain (l : bytes) : Prop := Forall (fun c => is_eol c = false) l.
Definition readable (l : bytes) : Prop := List.length l <= bufSize \/ (is_prefix (bs "data:") l = true /\ plain (trim_eol l)).

(** ** Lines *)

Fixpoint cut_line (t : bytes) : bytes * bytes :=
  match t with
  | [] => ([], [])
  | c :: t => if Ascii.eqb c nl then ([c], t) else let '(l, r) := cut_line t in (c :: l, r)
  end.

Lemma split_cut (t : bytes) : t <> [] -> split_lines t = (cut_line t).1 :: split_lines (cut_line t).2.
Proof.
  induction t as [|c t IH]; [contradiction|]. intros _. cbn. destruct (Ascii.eqb c nl); [reflexivity|].
  destruct t as [|d t]; [reflexivity|]. rewrite (IH ltac:(discriminate)). destruct (cut_line (d :: t)). reflexivity.
Qed.

Lemma cut_app (t : bytes) : t = (cut_line t).1 ++ (cut_line t).2.
Proof. induction t as [|c t IH]; [reflexivity|]. cbn. destruct (Ascii.eqb c nl); [reflexivity|]. destruct (cut_line t). cbn in *. f_equal. exact IH. Qed.

(** A line is terminated, or it is the last one. *)
Lemma cut_shape (t : bytes) : (exists l0, (cut_line t).1 = l0 ++ [nl] /\ index_of nl ((cut_line t).1) = Some (List.length l0)) \/
  (index_of nl (cut_line t).1 = None /\ (cut_line t).2 = []).
Proof.
  induction t as [|c t IH]; [right; auto|]. cbn. destruct (Ascii.eqb_spec c nl) as [->|Hc].
  - left. exists []. split; reflexivity.
  - destruct (cut_line t) as [l r]. cbn in *. apply Ascii.eqb_neq in Hc. rewrite Hc. destruct IH as [(l0 & -> & ->)|[-> ->]].
    + left. exists (c :: l0). split; reflexivity.
    + right. auto.
Qed.

Lemma index_of_app (c : ascii) (a b : bytes) (i : nat) : index_of c a = Some i -> index_of c (a ++ b) = Some i.
Proof.
  revert i. induction a as [|x a IH]; intros i; cbn; [discriminate|]. destruct (Ascii.eqb x c); [auto|].
  destruct (index_of c a); [|discriminate]. intros [= <-]. rewrite (IH _ eq_refl). reflexivity.
Qed.

Lemma index_of_none (c : ascii) (n : nat) (l : bytes) : index_of c l = None -> index_of c (take n l) = None.
Proof.
  revert n. induction l as [|x l IH]; intros [|n]; cbn; auto. destruct (Ascii.eqb x c); [discriminate|].
  destruct (index_of c l) eqn:E; [discriminate|]. intros _. rewrite IH; reflexivity.
Qed.

Lemma index_of_short (c : ascii) (n : nat) (l : bytes) : index_of c l = Some n -> index_of c (take n l) = None.
Proof.
  revert n. induction l as [|x l IH]; intros n; cbn; [discriminate|]. destruct (Ascii.eqb x c) eqn:Ex; [intros [= <-]; reflexivity|].
  destruct (index_of c l) as [k|] eqn:E; [|discriminate]. intros [= <-]. cbn. rewrite Ex, (IH k eq_refl). reflexivity.
Qed.

(** What the buffered reader gives for the next line: the line, or a piece of the
    buffer's size, or the last line with the end. *)
Lemma ReadSlice_line (t : bytes) (e : option string) : let '(l, r) := cut_line t in
  ReadSlice (mkSource t e) = (l, None, mkSource r e) /\ l <> [] \/
  ReadSlice (mkSource t e) = (take bufSize l, Some ErrBufferFull, mkSource (drop bufSize l ++ r) e) /\ bufSize <= List.length l /\ (drop bufSize l = [] -> r = []) \/
  ReadSlice (mkSource t e) = (l, Some (match e with None => EOF | Some x => ErrRead x end), mkSource [] e) /\ r = [].
Proof.
  pose proof (cut_app t) as Et. pose proof (cut_shape t) as Hs. destruct (cut_line t) as [l r]. cbn in Et, Hs. unfold ReadSlice. cbn [src_rest src_end].
  destruct Hs as [(l0 & El & Hi)|[Hi ->]].
  - pose proof (f_equal (@List.length ascii) El) as Hl. rewrite length_app in Hl. cbn [List.length] in Hl.
    destruct (decide (List.length l <= bufSize)) as [Hle|Hgt].
    + left. split; [|intros ->; destruct l0; discriminate]. subst t. rewrite take_app_ge by lia. rewrite (index_of_app _ _ _ _ Hi).
      replace (S (List.length l0)) with (List.length l) by lia. rewrite take_app_length, drop_app_length. reflexivity.
    + right. left. assert (take bufSize t = take bufSize l) as -> by (subst t; apply take_app_le; lia).
      assert (index_of nl (take bufSize l) = None) as ->.
      { apply index_of_short in Hi. apply (index_of_none _ bufSize) in Hi. rewrite take_take in Hi. replace (bufSize `min` List.length l0) with bufSize in Hi by lia. exact Hi. }
      assert ((bufSize <=? List.length t) = true) as -> by (apply Nat.leb_le; subst t; rewrite length_app; lia).
      split; [|split; [lia|]].
      * subst t. rewrite drop_app_le by lia. reflexivity.
      * intros E. apply (f_equal (@List.length ascii)) in E. rewrite length_drop in E. cbn [List.length] in E. lia.
  - rewrite app_nil_r in Et. subst t. rewrite (index_of_none _ _ _ Hi). right. destruct (bufSize <=? List.length l) eqn:Hl.
    + left. apply Nat.leb_le in Hl. rewrite app_nil_r. auto.
    + right. auto.
Qed.

(** ** Trimming *)

Lemma trim_eol_app (a b : bytes) : trim_eol (a ++ b) = match trim_eol b with [] => trim_eol a | r => a ++ r end.
Proof.
  induction a as [|c a IH]; [cbn; destruct (trim_eol b); reflexivity|]. cbn [app trim_eol]. rewrite IH. destruct (trim_eol b) as [|x r]; [reflexivity|].
  destruct (a ++ x :: r) eqn:E; [destruct a; discriminate|reflexivity].
Qed.

Lemma trim_eol_plain (l : bytes) : plain l -> trim_eol l = l.
Proof. induction 1 as [|c l Hc _ IH]; [reflexivity|]. cbn. rewrite IH. destruct l; [rewrite Hc|]; reflexivity. Qed.

(** Pieces trimmed one by one make the trimmed whole. *)
Lemma trim_pieces (a b : bytes) : plain (trim_eol (a ++ b)) -> trim_eol a ++ trim_eol b = trim_eol (a ++ b) /\ plain (trim_eol b).
Proof.
  rewrite trim_eol_app. destruct (trim_eol b) as [|x r]; intros H; [rewrite app_nil_r; split; [reflexivity|constructor]|].
  apply Forall_app in H as [Ha Hr]. rewrite (trim_eol_plain a Ha). auto.
Qed.

(** ** Frames line by line *)

Definition line_step (f : Frame) (l : bytes) : Frame :=
  let '(data, event) := add_field l (f_data f) (f_event f) in mkFrame (f_raw f ++ l) data event false.

Definition at_end (e : option string) (f : Frame) : list Event :=
  match e with Some _ => [] | None => match f_raw f with [] => [] | _ => [event_of f] end end.

Fixpoint by_lines (e : option string) (f : Frame) (ls : list bytes) : list Event :=
  match ls with
  | [] => at_end e f
  | l :: ls => if is_blank l then event_of (mkFrame (f_raw f ++ l) (f_data f) (f_event f) false) :: by_lines e new_frame ls else by_lines e (line_step f l) ls
  end.

(** The frame after a piece of a line that goes on. *)
Definition piece_step (f : Frame) (p : bytes) : Frame := mkFrame (f_raw f ++ p) (f_data f ++ trim_eol p) (f_event f) false.

Lemma take_chunk_more (f : Frame) (p : bytes) : p <> [] -> take_chunk (set_inLine f true) p = (set_inLine (piece_step f p) true, false).
Proof. destruct p; [contradiction|reflexivity]. Qed.

Lemma take_chunk_start (f : Frame) (l : bytes) : l <> [] -> is_blank l = false -> take_chunk (set_inLine f false) l = (line_step f l, false).
Proof. intros Hl Hb. destruct l; [contradiction|]. unfold take_chunk, line_step. cbn [f_inLine set_inLine]. rewrite Hb. cbn. destruct (add_field _ _ _). reflexivity. Qed.

Lemma take_chunk_end (f : Frame) (l : bytes) : is_blank l = true ->
  take_chunk (set_inLine f false) l = (mkFrame (f_raw f ++ l) (f_data f) (f_event f) false, true).
Proof. intros Hb. destruct l; [discriminate|]. unfold take_chunk. cbn [f_inLine set_inLine]. rewrite Hb. reflexivity. Qed.

Lemma blank_short (l : bytes) : is_blank l = true -> List.length l <= 2.
Proof. unfold is_blank, beq. intros H. apply orb_prop in H as [H|H]; apply bool_decide_eq_true in H; subst; cbn; lia. Qed.

Lemma bufSize_data : 7 <= bufSize.
Proof. apply Nat.leb_le. vm_compute. reflexivity. Qed.

(** A long [data] line: its first piece carries the field, the rest is appended. *)
Lemma data_field (l data event : bytes) : is_prefix (bs "data:") l = true ->
  add_field l data event = ((match data with [] => [] | _ => data ++ [nl] end) ++ trim_eol (trim_one_space (drop 5 l)), event).
Proof.
  intros H. unfold bs in H. do 5 (destruct l as [|? l]; [discriminate|]; cbn [list_ascii_of_string is_prefix] in H; apply andb_prop in H as [E H]; apply Ascii.eqb_eq in E; subst).
  reflexivity.
Qed.

Lemma data_prefix_take (n : nat) (l : bytes) : 5 <= n -> is_prefix (bs "data:") l = true -> is_prefix (bs "data:") (take n l) = true.
Proof.
  intros Hn H. unfold bs in H. do 5 (destruct l as [|? l]; [discriminate|]; cbn [list_ascii_of_string is_prefix] in H; apply andb_prop in H as [E H]; apply Ascii.eqb_eq in E; subst; destruct n; [lia|]).
  reflexivity.
Qed.

Lemma long_data (f : Frame) (l : bytes) : bufSize <= List.length l -> is_prefix (bs "data:") l = true -> plain (trim_eol l) ->
  piece_step (line_step f (take bufSize l)) (drop bufSize l) = line_step f l /\ plain (trim_eol (drop bufSize l)).
Proof.
  intros Hl Hd Hp. pose proof bufSize_data as Hbig. unfold line_step. rewrite !data_field by (exact Hd || (apply data_prefix_take; [lia|exact Hd])).
  unfold piece_step. cbn [f_raw f_data f_event]. rewrite <- app_assoc, take_drop.
  pose proof (trim_pieces (take bufSize l) (drop bufSize l)) as Hpl. rewrite take_drop in Hpl. destruct (Hpl Hp) as [_ Hpd]. split; [|exact Hpd].
  f_equal. rewrite <- app_assoc. f_equal.
  assert (trim_one_space (drop 5 l) = trim_one_space (drop 5 (take bufSize l)) ++ drop bufSize l) as E.
  { rewrite <- (take_drop bufSize l) at 1. rewrite drop_app_le by (rewrite length_take; lia).
    assert (List.length (drop 5 (take bufSize l)) = bufSize - 5) as Hlen by (rewrite length_drop, length_take; lia).
    destruct (drop 5 (take bufSize l)) as [|c r]; [cbn in Hlen; lia|]. cbn. destruct (Ascii.eqb c " "); reflexivity. }
  rewrite E. apply trim_pieces. rewrite <- E. clear - Hp Hd.
  assert (exists k, l = k ++ trim_one_space (drop 5 l)) as [k Ek].
  { exists (take 5 l ++ match drop 5 l with c :: _ => if Ascii.eqb c " " then [c] else [] | [] => [] end). rewrite <- app_assoc.
    rewrite <- (take_drop 5 l) at 1. f_equal. destruct (drop 5 l) as [|c r]; [reflexivity|]. cbn. destruct (Ascii.eqb c " "); reflexivity. }
  rewrite Ek in Hp. exact (proj2 (trim_pieces _ _ Hp)).
Qed.

Lemma cut_drop (t l r : bytes) (k : nat) : cut_line t = (l, r) -> (drop k l = [] -> r = []) -> cut_line (drop k l ++ r) = (drop k l, r).
Proof.
  revert l r k. induction t as [|c t IH]; intros l r k; cbn [cut_line].
  { intros [= <- <-]. rewrite drop_nil. reflexivity. }
  destruct (Ascii.eqb c nl) eqn:Hc.
  - intros [= <- <-]. destruct k as [|k]; cbn [drop app]; [intros _; cbn [cut_line]; rewrite Hc; reflexivity|].
    rewrite drop_nil. intros ->; reflexivity.
  - destruct (cut_line t) as [l' r'] eqn:E. intros [= <- <-] Hr. destruct k as [|k].
    + cbn [drop app cut_line]. rewrite Hc. pose proof (cut_app t) as Ea. rewrite E in Ea. cbn in Ea. rewrite <- Ea, E. reflexivity.
    + cbn [drop] in *. exact (IH _ _ _ eq_refl Hr).
Qed.

(** From the middle of a line, and from its start. *)
Lemma lines_remaining (n : nat) : forall t e f, List.length t < n -> Forall readable (split_lines (cut_line t).2) ->
  (plain (trim_eol (cut_line t).1) -> remaining (set_inLine f true) (mkSource t e) = by_lines e (piece_step f (cut_line t).1) (split_lines (cut_line t).2)) /\
  (readable (cut_line t).1 -> remaining (set_inLine f false) (mkSource t e) = by_lines e (set_inLine f false) (split_lines t)).
Proof.
  pose proof bufSize_data as Hbig.
  induction n as [|n IH]; intros t e f Hn Hrest; [lia|]. destruct t as [|c0 t0].
  { cbn [cut_line fst snd] in *. rewrite !(remaining_step _ _ (mkSource [] e) [] (Some (match e with None => EOF | Some x => ErrRead x end))) by
      (unfold ReadSlice; cbn [src_rest src_end]; rewrite take_nil; cbn [index_of List.length]; destruct (bufSize <=? 0) eqn:H0; [apply Nat.leb_le in H0; lia|reflexivity]).
    cbn [take_chunk split_lines by_lines]. unfold piece_step. cbn [trim_eol]. rewrite !app_nil_r. destruct e; split; intros _; reflexivity. }
  set (t := c0 :: t0) in *. pose proof (split_cut t ltac:(discriminate)) as Hsplit. pose proof (cut_app t) as Happ.
  pose proof (ReadSlice_line t e) as Hread. destruct (cut_line t) as [l r] eqn:Ecut. cbn [fst snd] in *.
  assert (l <> []) as Hlne by (intros ->; unfold t in Ecut; cbn in Ecut; destruct (Ascii.eqb c0 nl); [discriminate|]; destruct (cut_line t0); discriminate).
  assert (forall r', List.length r' < List.length t -> r' = r -> forall f', remaining (set_inLine f' false) (mkSource r' e) = by_lines e (set_inLine f' false) (split_lines r')) as IHr.
  { intros r' Hr' -> f'. destruct r as [|c1 r1]; [|set (r := c1 :: r1) in *; pose proof (split_cut r ltac:(discriminate)) as Hs; rewrite Hs in Hrest; apply Forall_cons in Hrest as [Hr1 Hr2]];
      apply (IH _ e f'); try lia; try assumption; try constructor. cbn. lia. }
  assert (List.length t = List.length l + List.length r) as Hlen by (rewrite Happ at 1; apply length_app).
  assert (0 < List.length l) as Hlpos by (destruct l; [contradiction|cbn; lia]).
  destruct Hread as [[Er _]|[[Er Hlong]|[Er ->]]].
  - rewrite !(remaining_step _ _ _ _ _ Er). split.
    + intros _. rewrite take_chunk_more by exact Hlne. exact (IHr r ltac:(lia) eq_refl (piece_step f l)).
    + intros _. rewrite Hsplit. cbn [by_lines]. destruct (is_blank l) eqn:Hb.
      * rewrite take_chunk_end by exact Hb. f_equal. exact (IHr r ltac:(lia) eq_refl new_frame).
      * rewrite take_chunk_start by assumption. rewrite (IHr r ltac:(lia) eq_refl (line_step f l)). unfold line_step. cbn. destruct (add_field _ _ _). reflexivity.
  - destruct Hlong as [Hlong Hend]. pose proof (cut_drop t l r bufSize Ecut Hend) as Hcut.
    assert (List.length (drop bufSize l ++ r) < n) as Hshort by (rewrite length_app, length_drop; lia).
    assert (take bufSize l <> []) as Htne by (intros E; apply (f_equal (@List.length ascii)) in E; rewrite length_take in E; cbn [List.length] in E; lia).
    assert (forall f', plain (trim_eol (drop bufSize l)) -> remaining (set_inLine f' true) (mkSource (drop bufSize l ++ r) e) =
      by_lines e (piece_step f' (drop bufSize l)) (split_lines r)) as IHd.
    { intros f' Hp. specialize (IH (drop bufSize l ++ r) e f' Hshort). rewrite Hcut in IH. exact (proj1 (IH Hrest) Hp). }
    rewrite !(remaining_step _ _ _ _ _ Er). split.
    + intros Hp. rewrite take_chunk_more by exact Htne. pose proof (trim_pieces (take bufSize l) (drop bufSize l)) as Hpl. rewrite take_drop in Hpl.
      destruct (Hpl Hp) as [Et Hpd]. etransitivity; [exact (IHd (piece_step f (take bufSize l)) Hpd)|]. f_equal. unfold piece_step. cbn.
      rewrite <- !app_assoc, Et, take_drop. reflexivity.
    + intros Hrd. rewrite Hsplit. cbn [by_lines]. destruct (is_blank l) eqn:Hb; [apply blank_short in Hb; lia|].
      destruct (is_blank (take bufSize l)) eqn:Hbt; [apply blank_short in Hbt; rewrite length_take in Hbt; lia|].
      rewrite take_chunk_start by assumption. assert (piece_step (line_step f (take bufSize l)) (drop bufSize l) = line_step f l /\ plain (trim_eol (drop bufSize l))) as [Es Hpd].
      { destruct Hrd as [Hfit|[Hd Hp]]; [|apply long_data; assumption]. rewrite take_ge, drop_ge by lia. split; [|constructor].
        unfold piece_step, line_step. destruct (add_field _ _ _). cbn. rewrite !app_nil_r. reflexivity. }
      rewrite (IHd (line_step f (take bufSize l)) Hpd), Es. reflexivity.
  - rewrite !(remaining_step _ _ _ _ _ Er). split.
    + intros _. rewrite take_chunk_more by exact Hlne. destruct e; reflexivity.
    + intros _. rewrite Hsplit. cbn [by_lines split_lines]. destruct (is_blank l) eqn:Hb.
      * rewrite take_chunk_end by exact Hb. f_equal. exact (IHr [] ltac:(cbn; lia) eq_refl new_frame).
      * rewrite take_chunk_start by assumption. destruct e; reflexivity.
Qed.

Lemma events_by_lines (t : bytes) (e : option string) : Forall readable (split_lines t) -> events (mkSource t e) = by_lines e new_frame (split_lines t).
Proof.
  intros H. destruct t as [|c t].
  { destruct (lines_remaining 1 [] e new_frame ltac:(cbn; lia) ltac:(constructor)) as [_ Hb]. apply Hb. left. cbn. lia. }
  rewrite split_cut in H by discriminate. apply Forall_cons in H as [H1 H2].
  exact (proj2 (lines_remaining (S (List.length (c :: t))) (c :: t) e new_frame ltac:(lia) H2) H1).
Qed.

(** ** Fields *)

Lemma join_data_snoc (vs : list bytes) (v : bytes) :
  join_data (vs ++ [v]) = (match join_data vs with [] => [] | _ => join_data vs ++ [nl] end) ++ v.
Proof.
  unfold join_data. induction vs as [|x vs IH].
  { destruct v; [reflexivity|]. cbn. rewrite app_nil_r. reflexivity. }
  destruct x as [|c x]; [exact IH|]. cbn [drop_empty app]. rewrite map_app, concat_app. cbn. rewrite app_nil_r, <- !app_assoc. reflexivity.
Qed.

Lemma field_values_snoc (name : string) (ls : list bytes) (l : bytes) :
  field_values name (ls ++ [l]) = field_values name ls ++ (let '(f, v) := splitField l in if beq f (bs name) then [v] else []).
Proof.
  unfold field_values. rewrite omap_app. f_equal. cbn. destruct (splitField l) as [f v]. destruct (beq f (bs name)); reflexivity.
Qed.

(** The frame made of whole lines. *)
Definition frame_of (ls : list bytes) : Frame :=
  mkFrame (concat ls) (join_data (field_values "data" ls)) (default [] (list.last (field_values "event" ls))) false.

Lemma concat_snoc (ls : list bytes) (l : bytes) : concat (ls ++ [l]) = concat ls ++ l.
Proof. rewrite concat_app. cbn. rewrite app_nil_r. reflexivity. Qed.

Lemma frame_of_snoc (ls : list bytes) (l : bytes) : frame_of (ls ++ [l]) = line_step (frame_of ls) l.
Proof.
  unfold frame_of, line_step, add_field. rewrite !field_values_snoc, concat_snoc. cbn [f_data f_event f_raw].
  destruct (splitField l) as [f v]. unfold beq. destruct (bool_decide (f = bs "event")) eqn:Ee.
  - apply bool_decide_eq_true in Ee. subst f. cbn [bool_decide]. rewrite last_snoc. cbn. rewrite app_nil_r. reflexivity.
  - destruct (bool_decide (f = bs "data")); [rewrite join_data_snoc|]; rewrite ?app_nil_r; reflexivity.
Qed.

Lemma blank_fields (name : string) (ls : list bytes) (l : bytes) : is_blank l = true -> name <> ""%string -> field_values name (ls ++ [l]) = field_values name ls.
Proof.
  intros Hb Hn. rewrite field_values_snoc. assert (splitField l = ([], [])) as ->.
  { unfold is_blank, beq in Hb. apply orb_prop in Hb as [H|H]; apply bool_decide_eq_true in H; subst; reflexivity. }
  unfold beq. destruct name; [contradiction|]. cbn. apply app_nil_r.
Qed.

Lemma by_lines_group (e : option string) (ls : list bytes) : forall cur, concat cur = [] <-> cur = [] -> Forall (fun l => l <> []) ls ->
  by_lines e (frame_of cur) ls = map sse_event (group (match e with None => true | Some _ => false end) cur ls).
Proof.
  induction ls as [|l ls IH]; intros cur Hcur Hls; cbn [by_lines group].
  - unfold at_end. destruct e as [x|]; [destruct cur; reflexivity|]. cbn [f_raw frame_of]. destruct cur as [|l cur]; [reflexivity|].
    destruct (concat (l :: cur)) eqn:E; [discriminate (proj1 Hcur eq_refl)|]. unfold event_of, frame_of. cbn [f_raw f_event f_data map]. reflexivity.
  - apply Forall_cons in Hls as [Hl Hls]. destruct (is_blank l) eqn:Hb.
    + cbn [map]. f_equal.
      * unfold sse_event, event_of, frame_of. cbn [f_raw f_event f_data]. rewrite concat_snoc, !blank_fields by (exact Hb || discriminate). reflexivity.
      * exact (IH [] ltac:(split; reflexivity) Hls).
    + rewrite <- frame_of_snoc. apply IH; [|exact Hls]. rewrite concat_snoc. split; intros E; [apply app_eq_nil in E as [_ E]; contradiction|destruct cur; discriminate].
Qed.

Lemma split_nonempty (t : bytes) : Forall (fun l => l <> []) (split_lines t).
Proof.
  induction t as [|c t IH]; cbn; [constructor|]. destruct (Ascii.eqb c nl); [constructor; [discriminate|exact IH]|].
  destruct (split_lines t); [repeat constructor; discriminate|]. inversion IH. constructor; [discriminate|assumption].
Qed.

Lemma events_text (t : bytes) (e : option string) : Forall readable (split_lines t) ->
  events (mkSource t e) = sse_events (match e with None => true | Some _ => false end) t.
Proof.
  intros H. rewrite events_by_lines by exact H. apply (by_lines_group e (split_lines t) []); [split; reflexivity|apply split_nonempty].
Qed.

(** C14: On a text whose lines fit the 8 KB buffer, or are [data] lines without
    carriage returns inside however long, the frames the relay sees are those of
    the text: raw bytes, event name and joined data; a stream that fails gives the
    frames completed before. *)
Theorem relay_frames_text (t : bytes) (e : option string) : Forall readable (split_lines t) ->
  events (mkSource t e) = sse_events (match e with None => true | Some _ => false end) t.
Proof. exact (events_text t e). Qed.

(** A [data] line of 9000 bytes between short ones. *)
Definition long_text : bytes := bs "event: big" ++ nl :: bs "data: " ++ repeat "x"%char (N.to_nat 9000) ++ nl :: bs "data: y" ++ [cr; nl; nl].

Definition readable_b (l : bytes) : bool :=
  (List.length l <=? bufSize) || (is_prefix (bs "data:") l && forallb (fun c => negb (is_eol c)) (trim_eol l)).

Lemma readable_b_ok (l : bytes) : readable_b l = true -> readable l.
Proof.
  unfold readable_b, readable. intros H. apply orb_prop in H as [H|H]; [left; apply Nat.leb_le, H|right]. apply andb_prop in H as [H1 H2].
  split; [exact H1|]. unfold plain. rewrite forallb_forall in H2. apply List.Forall_forall. intros c Hc. apply H2 in Hc. destruct (is_eol c); [discriminate|reflexivity].
Qed.

Lemma readable_all (t : bytes) : forallb readable_b (split_lines t) = true -> Forall readable (split_lines t).
Proof. rewrite forallb_forall. intros H. apply List.Forall_forall. intros l Hl. apply readable_b_ok, H, Hl. Qed.

Lemma relay_frames_text_witness : map ev_Event (events (mkSource long_text None)) = [bs "big"] /\
  map (fun e => List.length (ev_Data e)) (events (mkSource long_text None)) = [N.to_nat 9002].
Proof.
  rewrite (relay_frames_text long_text None (readable_all long_text ltac:(vm_compute; reflexivity))). split; vm_compute; reflexivity.
Defined.

(** The source says that comment lines do not enter the data.  A comment longer
    than the buffer does: its later pieces are appended, here to an otherwise
    clean JSON payload, which is no JSON any more. *)
Definition commented : bytes := bs "data: {}" ++ nl :: bs ": " ++ repeat "x"%char (N.to_nat 8192) ++ [nl; nl].

Theorem long_comment_in_data :
  map ev_Data (events (mkSource commented None)) = [bs "{}xx"] /\ map ev_Data (sse_events true commented) = [bs "{}"] /\ Valid (bs "{}xx") = false.
Proof. split; [|split]; vm_compute; reflexivity. Qed.

(** ** Event names *)

Lemma string_token_anchored (b s r : bytes) : string_token b = Some (s, r) -> anchored b = Some s.
Proof.
  intros H. apply string_token_sound in H as [-> Hs]. induction Hs as [|c l Hq Hb _ IH|c l _ IH]; [reflexivity| |]; cbn [app anchored].
  - apply Ascii.eqb_neq in Hq, Hb. rewrite Hq, Hb, IH. reflexivity.
  - rewrite IH. reflexivity.
Qed.

Lemma prefix_split (p l : bytes) : is_prefix p l = true -> l = p ++ drop (List.length p) l.
Proof.
  revert l. induction p as [|x p IH]; intros [|y l] H; try reflexivity; try discriminate. cbn in H. apply andb_prop in H as [Hx H].
  apply Ascii.eqb_eq in Hx as ->. cbn. f_equal. exact (IH l H).
Qed.

Lemma parse_object (f : nat) (d : Z) (b : bytes) : (d < maxNestingDepth)%Z -> is_prefix [quote] b = true ->
  parse_value (S f) d ("{"%char :: b) = '(l, r) ← parse_members f (d + 1) b; Some (JObj l, r).
Proof.
  intros Hd Hq. destruct b as [|c b]; [discriminate|]. cbn [is_prefix] in Hq. apply andb_prop in Hq as [Hq _]. apply Ascii.eqb_eq in Hq. subst c.
  cbn [parse_value]. change (skip_ws ("{"%char :: quote :: b)) with ("{"%char :: quote :: b). cbv beta iota.
  change (Ascii.eqb "{" quote) with false. change (Ascii.eqb "{" "[") with false. change (Ascii.eqb "{" "{") with true. cbv beta iota.
  rewrite (proj2 (Z.leb_gt _ _)) by exact Hd. reflexivity.
Qed.

Lemma parse_member (f : nat) (d : Z) (b k r : bytes) : string_token b = Some (k, ":"%char :: r) ->
  parse_members (S f) d (quote :: b) =
  '(j, r) ← parse_value f d r;
  match skip_ws r with
  | c :: r =>
      if Ascii.eqb c "," then '(l, r) ← parse_members f d r; Some ((k, j) :: l, r)
      else if Ascii.eqb c "}" then Some ([(k, j)], r) else None
  | [] => None
  end.
Proof. intros E. cbn [parse_members]. change (skip_ws (quote :: b)) with (quote :: b). cbv beta iota. rewrite Ascii.eqb_refl, E. reflexivity. Qed.

Lemma parse_string (f : nat) (d : Z) (b : bytes) : parse_value (S f) d (quote :: b) = '(s, r) ← string_token b; Some (JStr s, r).
Proof. reflexivity. Qed.

(** A document that starts with the anchor starts with its type. *)
Lemma anchored_document (rest : bytes) (j : json) : decode (typeAnchorPrefix ++ rest) = Some j ->
  exists s l, j = JObj ((bs "type", JStr s) :: l) /\ anchored rest = Some s.
Proof.
  unfold decode. rewrite <- (decode_fuel (S (S (S (19 + 2 * List.length rest))))) by (rewrite length_app; cbn; lia).
  generalize (19 + 2 * List.length rest) as n. intros n.
  change (typeAnchorPrefix ++ rest) with ("{"%char :: quote :: bs "type" ++ quote :: ":"%char :: quote :: rest).
  rewrite parse_object by (reflexivity || (cbn; lia)).
  rewrite (parse_member _ _ _ (bs "type") (quote :: rest)) by reflexivity. rewrite parse_string.
  destruct (string_token rest) as [[s r]|] eqn:E; cbn [mbind option_bind]; [|discriminate]. apply string_token_anchored in E.
  destruct (skip_ws r) as [|c r1]; [discriminate|]. destruct (Ascii.eqb c ",").
  - destruct (parse_members (S n) (0 + 1) r1) as [[l r2]|]; cbn [mbind option_bind]; [|discriminate]. destruct (skip_ws r2); [|discriminate]. intros [= <-]. eauto.
  - destruct (Ascii.eqb c "}"); cbn [mbind option_bind]; [|discriminate]. destruct (skip_ws r1); [|discriminate]. intros [= <-]. eauto.
Qed.

Definition plain_ascii (s : bytes) : Prop := Forall (fun c => (byte_val c < 128)%Z /\ c <> backslash) s.

Lemma unquoted_plain (s : bytes) : plain_ascii s -> unquoted s = s.
Proof.
  unfold unquoted. induction 1 as [|c s [Hc Hb] _ IH]; [reflexivity|]. cbn [List.length unquote]. apply Ascii.eqb_neq in Hb. rewrite Hb.
  unfold DecodeRune. replace (byte_val c <? 128)%Z with true by lia. change (drop 1 (c :: s)) with s. rewrite IH.
  assert (EncodeRune (byte_val c) = String c EmptyString) as ->; [|reflexivity].
  unfold EncodeRune. assert (0 <= byte_val c)%Z by (unfold byte_val; lia). replace (_ || _ || _) with false by lia. cbn [orb].
  replace (byte_val c <? 128)%Z with true by lia. unfold byte_of, byte_val. rewrite N2Z.id, ascii_N_embedding. reflexivity.
Qed.

Lemma type_field_none (l : list (bytes * json)) (acc : bytes) : Forall (fun kv => is_type_key kv.1 = false) l -> type_field l acc = Some acc.
Proof. induction 1 as [|[k v] l Hk _ IH]; [reflexivity|]. cbn [fst] in Hk. cbn [type_field]. rewrite Hk. exact IH. Qed.

(** The anchored reading of a frame's type agrees with the full decoder, on the
    frames providers generate: one type, in plain ASCII. *)
Theorem event_name_fast_path (data : bytes) (j : json) : is_prefix typeAnchorPrefix data = true -> decode data = Some j ->
  exists s l, j = JObj ((bs "type", JStr s) :: l) /\ InferEventName data = s /\
  (Forall (fun kv => is_type_key kv.1 = false) l -> plain_ascii s -> UnmarshalType data = Some (InferEventName data)).
Proof.
  intros Hp Hd. pose proof (prefix_split _ _ Hp) as E. pose proof Hd as Hd'. rewrite E in Hd'. apply anchored_document in Hd' as (s & l & -> & Ha).
  exists s, l. assert (InferEventName data = s) as Hi by (unfold InferEventName; rewrite Hp, Ha; reflexivity).
  split; [reflexivity|]. split; [exact Hi|]. intros Hl Hs. unfold UnmarshalType. rewrite Hd, Hi. cbn [type_field].
  change (is_type_key (bs "type")) with true. cbv beta iota. rewrite unquoted_plain by exact Hs. apply type_field_none, Hl.
Qed.
