(* ===== verification/Metering.v ===== *)
(** * What the frames of a stream are charged ([internal/proxy]: usage_extract.go,
    the observers of caller_chat.go, caller_anthropic.go, caller_responses.go,
    caller_images.go, caller_converted.go, codex_responses_http.go, protocol_failure.go)

    Every caller hangs an observer into the relay that folds the frames into a
    usage tuple, by rules of its own.  The rules, what they come to per counter,
    and the failures that a stream announces in its frames. *)

From Stdlib Require Import ZArith Lia List Bool String Ascii Permutation.
From stdpp Require Import base option list strings.
From S2P Require Import JsonScan JsonText GoJson SseRelay.
From S2P Require Import Prelude GoString Domain UsageBilling Selection Pipeline UsageExtract.
Import ListNotations.
Local Open Scope Z_scope.
Local Open Scope list_scope.

(** A frame of a stream. *)
Abbreviation Frame_ := SseRelay.Event.

(** ** Merging *)

(** [mergeStreamUsage]: the measured fields of a later frame win; a frame that
    measures nothing is ignored. *)
Definition mergeStreamUsage (dst next : usageTuple) : usageTuple :=
  if (u_it next =? 0) && (u_ot next =? 0) && (u_tt next =? 0) && (u_cr next =? 0) && (u_cc next =? 0) then dst
  else
    let pos f := if 0 <? f next then f next else f dst in
    mkTuple (pos u_it) (pos u_ot) (pos u_tt) (pos u_cr) (pos u_cc)
      (u_cacheReadExcludedFromTotal next || u_cacheReadExcludedFromTotal dst)
      (u_cacheReadIncludedInTotal next || u_cacheReadIncludedInTotal dst) (u_calls dst) (u_ii dst) (u_io dst).

(** The usage of a stream: its frames merged, the total derived when no frame
    had one. *)
Definition stream_usage (frames : list usageTuple) : usageTuple :=
  let u := fold_left mergeStreamUsage frames no_usage in
  if u_tt u <=? 0 then
    mkTuple (u_it u) (u_ot u) (addUsageTokens (u_it u) (u_ot u)) (u_cr u) (u_cc u) (u_cacheReadExcludedFromTotal u)
      (u_cacheReadIncludedInTotal u) (u_calls u) (u_ii u) (u_io u)
  else u.

(** ** The observers *)

Definition usage_marker : bytes := quote :: bs "usage" ++ [quote].

(** Chat streams: frames that mention usage are read. *)
Definition chat_frame (ev : Frame_) : option usageTuple :=
  if bytes_contains (ev_Data ev) usage_marker then chatStreamUsageEvent (EventName ev) (ev_Data ev) else None.

Definition chat_observed (seen : list Frame_) : usageTuple := stream_usage (omap chat_frame seen).

(** Anthropic streams: the total is always derived. *)
Definition set_total (u : usageTuple) : usageTuple :=
  mkTuple (u_it u) (u_ot u) (addUsageTokens (u_it u) (u_ot u)) (u_cr u) (u_cc u) (u_cacheReadExcludedFromTotal u)
    (u_cacheReadIncludedInTotal u) (u_calls u) (u_ii u) (u_io u).

Definition anthropic_observed (seen : list Frame_) : usageTuple :=
  set_total (fold_left mergeStreamUsage (omap (fun ev => chatStreamUsageEvent (EventName ev) (ev_Data ev)) seen) no_usage).

(** [respImageDetectOn]. *)
Definition respImageDetectOn (sel : SelectionT) : bool :=
  if sel_StripImageTools sel then false
  else existsb (String.eqb (sel_CredentialType sel)) ["responses-special"; "codex-oauth"; "codex-pat"]%string.

(** Responses streams: the last completed frame counts, with its images. *)
Definition responses_frame (detect : bool) (u : usageTuple) (ev : Frame_) : usageTuple :=
  if isResponsesCompletedEvent (EventName ev) (ev_Data ev) then
    let u := match responsesStreamUsage (ev_Data ev) with
             | Some t => mkTuple (u_it t) (u_ot t) (u_tt t) (u_cr t) (u_cc t) false false (u_calls u) 0 0
             | None => u
             end in
    if detect then mkTuple (u_it u) (u_ot u) (u_tt u) (u_cr u) (u_cc u) false false (respImageCountCompleted (ev_Data ev)) 0 0 else u
  else u.

Definition responses_observed (detect : bool) (seen : list Frame_) : usageTuple := fold_left (responses_frame detect) seen no_usage.

(** Image streams: one image per completed frame, the usage of the last one.  A
    frame is completed when its text starts with the type. *)
Definition eventTypePrefix : bytes := bs "{" ++ [quote] ++ bs "type" ++ [quote] ++ bs ":" ++ [quote].
Definition eventTypeIs (data : bytes) (want : string) : bool := is_prefix (eventTypePrefix ++ bs want ++ [quote]) data.

Section Images.
(** [gjson.GetBytes(data, path).Int()]; [None] when the path is missing. *)
Variable gjson_int : string -> string -> option Z.

Definition ImageStreamEvent (data : bytes) : option (Z * Z) :=
  if eventTypeIs data "image_generation.completed" || eventTypeIs data "image_edit.completed" then
    let raw := string_of_list_ascii data in
    Some (gjson_zero gjson_int raw "usage.input_tokens_details.image_tokens", gjson_zero gjson_int raw "usage.output_tokens_details.image_tokens")
  else None.

Definition image_usage (ii io count : Z) : usageTuple := mkTuple 0 0 (addUsageTokens ii io) 0 0 false false count ii io.

Definition images_observed (seen : list Frame_) : usageTuple :=
  let done := omap (fun ev => ImageStreamEvent (ev_Data ev)) seen in
  let '(ii, io) := default (0, 0) (last done) in
  image_usage ii io (Z.of_nat (List.length done)).

Definition ImageUsageFromResponse (data : string) : usageTuple :=
  image_usage (gjson_zero gjson_int data "usage.input_tokens_details.image_tokens")
    (gjson_zero gjson_int data "usage.output_tokens_details.image_tokens") (gjson_zero gjson_int data "data.#").
End Images.

(** Codex streams are payloads without frames: the first completed one counts. *)
Definition codex_observed (detect : bool) (payloads : list bytes) : usageTuple :=
  match head (omap (fun p => (fun t => (t, p)) <$> sniffResponsesCompletedTop p) payloads) with
  | Some (t, p) => mkTuple (u_it t) (u_ot t) (u_tt t) (u_cr t) (u_cc t) false false (if detect then respImageCountCompleted p else 0) 0 0
  | None => no_usage
  end.

(** Converted streams, by the protocol of the upstream.  The flag that cache
    reads are outside the total sticks. *)
Definition keep (new old : Z) : Z := if 0 <? new then new else old.

Definition converted_chat (u : usageTuple) (ev : Frame_) : usageTuple :=
  match chat_frame ev with
  | None => u
  | Some t =>
      let split := beq (EventName ev) (bs "message_start") || beq (EventName ev) (bs "message_delta") in
      mkTuple (keep (u_it t) (u_it u)) (keep (u_ot t) (u_ot u)) (if split then u_tt u else keep (u_tt t) (u_tt u))
        (keep (u_cr t) (u_cr u)) (keep (u_cc t) (u_cc u)) (u_cacheReadExcludedFromTotal t || u_cacheReadExcludedFromTotal u) false 0 0 0
  end.

Definition converted_responses (u : usageTuple) (ev : Frame_) : usageTuple :=
  if isResponsesCompletedEvent (EventName ev) (ev_Data ev) then
    match responsesStreamUsage (ev_Data ev) with
    | Some t => mkTuple (u_it t) (u_ot t) (u_tt t) (u_cr t) (u_cc t) (u_cacheReadExcludedFromTotal u) false 0 0 0
    | None => u
    end
  else u.

Definition converted_anthropic (u : usageTuple) (ev : Frame_) : usageTuple :=
  match chatStreamUsageEvent (EventName ev) (ev_Data ev) with
  | None => u
  | Some t =>
      mkTuple (keep (u_it t) (u_it u)) (Z.max (u_ot u) (u_ot t)) (u_tt u) (keep (u_cr t) (u_cr u)) (keep (u_cc t) (u_cc u))
        (u_cacheReadExcludedFromTotal t || u_cacheReadExcludedFromTotal u) false 0 0 0
  end.

Definition convertedUsageTuple (target : RequestFormat) (u : usageTuple) : usageTuple :=
  let excluded := String.eqb target FormatAnthropic in
  mkTuple (u_it u) (u_ot u) (u_tt u) (u_cr u) (u_cc u) excluded (negb excluded) 0 0 0.

Definition convertedUsageTupleWithCache (target : RequestFormat) (u : usageTuple) : usageTuple :=
  let t := convertedUsageTuple target u in
  if u_cacheReadExcludedFromTotal u then mkTuple (u_it t) (u_ot t) (u_tt t) (u_cr t) (u_cc t) true false 0 0 0 else t.

(** A total that no frame reported is derived. *)
Definition derive_total (u : usageTuple) : usageTuple :=
  if u_tt u <=? 0 then
    mkTuple (u_it u) (u_ot u) (addUsageTokens (u_it u) (u_ot u)) (u_cr u) (u_cc u) (u_cacheReadExcludedFromTotal u)
      (u_cacheReadIncludedInTotal u) (u_calls u) (u_ii u) (u_io u)
  else u.

Definition converted_observed (target : RequestFormat) (seen : list Frame_) : usageTuple :=
  let step := if String.eqb target FormatOpenAIChat then converted_chat
              else if String.eqb target FormatOpenAIResponses then converted_responses
              else if String.eqb target FormatAnthropic then converted_anthropic else fun u _ => u in
  convertedUsageTupleWithCache target (derive_total (fold_left step seen no_usage)).

(** ** What a stream is charged *)

(** The last positive measurement of a field. *)
Definition last_measured (f : usageTuple -> Z) (frames : list usageTuple) : Z :=
  fold_left (fun acc t => if 0 <? f t then f t else acc) frames 0.

Lemma merge_field (f : usageTuple -> Z) (dst next : usageTuple) : f ∈ [u_it; u_ot; u_tt; u_cr; u_cc] ->
  f (mergeStreamUsage dst next) = if 0 <? f next then f next else f dst.
Proof.
  intros Hf. unfold mergeStreamUsage.
  destruct (Z.eqb_spec (u_it next) 0), (Z.eqb_spec (u_ot next) 0), (Z.eqb_spec (u_tt next) 0), (Z.eqb_spec (u_cr next) 0),
    (Z.eqb_spec (u_cc next) 0); cbn [andb]; rewrite !elem_of_cons in Hf;
  repeat (destruct Hf as [->|Hf]; [cbn; repeat match goal with H : ?x = 0 |- _ => rewrite H end; reflexivity|]);
  apply not_elem_of_nil in Hf; contradiction.
Qed.

Lemma merged_field (f : usageTuple -> Z) (frames : list usageTuple) : f ∈ [u_it; u_ot; u_tt; u_cr; u_cc] -> forall u,
  f (fold_left mergeStreamUsage frames u) = fold_left (fun acc t => if 0 <? f t then f t else acc) frames (f u).
Proof.
  intros Hf. induction frames as [|t frames IH]; intros u; cbn [fold_left]; [reflexivity|].
  rewrite IH, merge_field by exact Hf. reflexivity.
Qed.

(** A stream, whether it completes or breaks off, is charged for the last
    positive value of every counter its frames reported, and a missing total is
    the sum of input and output. *)
Theorem stream_usage_measured (frames : list usageTuple) :
  let u := stream_usage frames in
  u_it u = last_measured u_it frames /\ u_ot u = last_measured u_ot frames /\
  u_cr u = last_measured u_cr frames /\ u_cc u = last_measured u_cc frames /\
  u_tt u = (let t := last_measured u_tt frames in
            if t <=? 0 then addUsageTokens (last_measured u_it frames) (last_measured u_ot frames) else t).
Proof.
  unfold stream_usage. cbv zeta.
  pose proof (fun f H => merged_field f frames H no_usage) as M.
  assert (forall f, f ∈ [u_it; u_ot; u_tt; u_cr; u_cc] -> f (fold_left mergeStreamUsage frames no_usage) = last_measured f frames) as E.
  { intros f Hf. rewrite M by exact Hf. rewrite !elem_of_cons in Hf. unfold last_measured.
    repeat (destruct Hf as [->|Hf]; [reflexivity|]). apply not_elem_of_nil in Hf. contradiction. }
  rewrite <- (E u_it), <- (E u_ot), <- (E u_tt), <- (E u_cr), <- (E u_cc) by (rewrite !elem_of_cons; auto 10).
  destruct (u_tt (fold_left mergeStreamUsage frames no_usage) <=? 0) eqn:Et; cbn [u_it u_ot u_tt u_cr u_cc]; rewrite ?Et; split_and!; reflexivity.
Qed.

(** JSON with single quotes for double ones. *)
Definition jtext (s : string) : bytes := map (fun c => if Ascii.eqb c "'" then quote else c) (bs s).

(** ** Failures announced in a stream ([protocol_failure.go]) *)

Definition trim (b : bytes) : string := TrimSpace (string_of_list_ascii b).

(** [json.Unmarshal] into a [map[string]json.RawMessage]: an error, a nil map, or
    the members in order with their raw values. *)
Definition raw_members (data : bytes) : option (option (list (bytes * bytes))) :=
  match decode data with
  | Some (JObj _) => Some (Some (map (fun v => (unquoted (vi_key v), slice data (vi_vs v) (vi_ve v))) (visits data)))
  | Some JNull => Some None
  | _ => None
  end.

(** The map: of members with the same key the last remains. *)
Fixpoint last_wins (l : list (bytes * bytes)) : list (bytes * bytes) :=
  match l with [] => [] | (k, v) :: l => if existsb (fun kv => beq kv.1 k) l then last_wins l else (k, v) :: last_wins l end.

Definition raw_get (l : list (bytes * bytes)) (key : string) : option bytes :=
  snd <$> List.find (fun kv => beq kv.1 (bs key)) (last_wins l).

(** [json.Unmarshal] into a string. *)
Definition unmarshal_string (raw : bytes) : option string :=
  match decode raw with Some (JStr s) => Some (string_of_list_ascii (unquoted s)) | Some JNull => Some ""%string | _ => None end.

Definition jsonNull (raw : bytes) : bool := String.eqb (ToLower (trim raw)) "null".
Definition rawText (raw : option bytes) : string := match raw with None => ""%string | Some r => default ""%string (unmarshal_string r) end.

Definition failureStatus (status : string) : bool :=
  existsb (String.eqb (ToLower (TrimSpace status)))
    ["failed"; "failure"; "cancelled"; "canceled"; "error"; "errored"; "rejected"]%string.

(** The loop over the error object: the values in the order of the range. *)
Fixpoint payload_loop (values : list bytes) : bool :=
  match values with
  | [] => false
  | v :: values =>
      if jsonNull v then payload_loop values
      else
        match unmarshal_string v with
        | Some text => if negb (String.eqb (TrimSpace text) "") then true else payload_loop values
        | None => (0 <? Z.of_nat (List.length v)) && negb (String.eqb (trim v) "{}")
        end
  end.

Section Failure.
(** The order in which a map is ranged over; [gjson.GetBytes(data, path).String()]. *)
Variable range : list (bytes * bytes) -> list (bytes * bytes).
Variable gjson_string : bytes -> string -> string.

Definition hasJSONErrorPayload (raw : bytes) : bool :=
  match raw with
  | [] => false
  | _ =>
      if jsonNull raw then false
      else
        match raw_members raw with
        | Some (Some l) => payload_loop (map snd (range (last_wins l)))
        | Some None => false
        | None => negb (String.eqb (trim raw) "")
        end
  end.

Definition has_error (l : list (bytes * bytes)) : bool :=
  match raw_get l "error" with Some raw => hasJSONErrorPayload raw | None => false end.

Definition streamFailureEnvelope (data : bytes) : bool :=
  match raw_members data with
  | Some (Some root) =>
      has_error root || failureStatus (rawText (raw_get root "status")) || String.eqb (ToLower (rawText (raw_get root "type"))) "error"
      || match raw_get root "response" with
         | Some raw =>
             match raw_members raw with
             | Some (Some nested) => failureStatus (rawText (raw_get nested "status")) || has_error nested
             | _ => false
             end
         | None => false
         end
  | _ => false
  end.

Definition streamFailureMessage (data : bytes) : string :=
  default "upstream stream reported a terminal failure"%string
    (List.find (fun v => negb (String.eqb v ""))
       (map (fun path => TrimSpace (gjson_string data path)) ["error.message"; "response.error.message"; "message"; "response.message"]%string)).

Definition convertedStreamError (message : string) : string :=
  if String.eqb (TrimSpace message) "" then "upstream stream reported a failure"%string
  else ("upstream stream reported a failure: " +:+ message)%stdpp.

(** [convertedStreamFailure]: the error of a frame that ends the stream. *)
Definition convertedStreamFailure (ev : Frame_) : option string :=
  let name := ToLower (trim (EventName ev)) in
  let data := bs (trim (ev_Data ev)) in
  if beq data (bs "[DONE]") then None
  else if existsb (String.eqb name) ["response.failed"; "response.error"; "error"]%string || streamFailureEnvelope data
  then Some (convertedStreamError (streamFailureMessage data)) else None.
End Failure.

(** Error objects with texts and nulls only are judged alike in every order. *)
Lemma payload_texts (values : list bytes) : Forall (fun v => isSome (unmarshal_string v) = true) values ->
  payload_loop values = existsb (fun v => negb (jsonNull v) && match unmarshal_string v with Some t => negb (String.eqb (TrimSpace t) "") | None => false end) values.
Proof.
  induction 1 as [|v values Hv _ IH]; [reflexivity|]. cbn [payload_loop existsb]. destruct (jsonNull v); [exact IH|].
  destruct (unmarshal_string v) as [t|]; [|discriminate]. destruct (negb _); [reflexivity|exact IH].
Qed.

Theorem payload_order_irrelevant (values values' : list bytes) : values ≡ₚ values' -> Forall (fun v => isSome (unmarshal_string v) = true) values ->
  payload_loop values = payload_loop values'.
Proof.
  intros Hp Hv. assert (Forall (fun v => isSome (unmarshal_string v) = true) values') as Hv' by (rewrite <- Hp; exact Hv).
  rewrite !payload_texts by assumption. clear Hv Hv'. induction Hp as [|x l l' _ IH|x y l|l l' l'' _ IH1 _ IH2]; cbn [existsb]; [reflexivity|rewrite IH; reflexivity| |congruence].
  rewrite !orb_assoc. f_equal. apply orb_comm.
Qed.

(** An error object with an empty object in it and a message: a failure or not,
    depending on the order in which Go ranges over the map. *)
Theorem failure_depends_on_map_order : exists ev range1 range2,
  (forall l, range1 l ≡ₚ l) /\ (forall l, range2 l ≡ₚ l) /\
  convertedStreamFailure range1 (fun _ _ => ""%string) ev = None /\ isSome (convertedStreamFailure range2 (fun _ _ => ""%string) ev) = true.
Proof.
  exists (SseRelay.mkEvent [] [] (jtext "{'error':{'details':{},'message':'overloaded'}}")), (fun l => l), (fun l => rev l).
  split; [reflexivity|]. split; [intros l; symmetry; apply Permutation_rev|]. split; vm_compute; reflexivity.
Qed.
