(* ===== verification/Callers.v ===== *)
(** * The request callers ([internal/proxy]: caller.go, caller_chat.go,
    caller_anthropic.go, caller_responses.go, caller_images.go, caller_images_codex.go,
    caller_images_stream.go, caller_converted.go, codex_responses_http.go, forward.go)

    One attempt at an upstream: the caller of the route is chosen, it checks and
    rewrites the request, sends it, passes the answer on, reports the result and
    gives the slot back.  What the network answers is an argument, so are the
    third-party JSON and multipart libraries; every branch of every caller around
    them is here.  The attempt meets the contract of the failover loop
    ([PipelineInv.AttemptLaws]) whatever the network does. *)

From Stdlib Require Import ZArith Lia List Bool String Ascii.
From stdpp Require Import base option list gmap strings.
From S2P Require Import JsonScan JsonText GoJson SseRelay RequestCheck StripTools.
From S2P Require Import Prelude GoString Domain UsageBilling GoTime RuleTypes RuleEngine SchedTypes AccountState Selection UpstreamPool Pipeline PipelineInv UsageExtract Metering.
Import ListNotations.
Local Open Scope string_scope.
Local Open Scope Z_scope.

Definition str (b : bytes) : string := string_of_list_ascii b.

(** ** The network *)

(** How a relay that failed returned: the client left, or the upstream's status
    and the text of the error. *)
Record RelayErr := mkRelayErr { re_canceled : bool; re_code : Z; re_text : string }.

(** A streaming call: it failed ([statusOf], [upstreamBody]); it got a status that
    is not 200; it was relayed: the frames seen, the bytes written, the relay's
    error, and whether a write after its end fails. *)
Inductive StreamReply :=
| SrError (code : Z) (body : string) (err : CallErr)
| SrStatus (code : Z) (body : string) (hdr : option Header)
| SrRelayed (seen : list Frame_) (out : string) (ret : option RelayErr) (tail_err : option RelayErr).

(** A call of an SDK method: the usage of the answer, its raw text, and its JSON
    or the error of [json.Marshal]. *)
Inductive TypedReply :=
| TrError (code : Z) (body : string) (err : CallErr)
| TrAnswer (usage : option SdkUsage) (raw : string) (data : string + CallErr).

(** A call answered in one piece, which may fail while it is read. *)
Inductive RawReply :=
| RwError (code : Z) (body : string) (err : CallErr)
| RwStatus (code : Z) (body : string) (hdr : option Header)
| RwBody (data : string + CallErr).

(** The codex streams: the payloads handed over before the end, and the error;
    for Responses whether the final [DONE] can be written. *)
Inductive CodexStream := CodexPayloads (payloads : list bytes) (out : string) (err : option (Z * string * CallErr)) (done_written : bool).
Inductive ImageEv := ImgKeepalive | ImgCompleted (usage : option (Z * Z)) | ImgOther.
Inductive ImageStream := ImageEvents (evs : list ImageEv) (out : string) (err : option (Z * string * CallErr)).

Record Network (St : Type) := mkNetwork {
  net_stream : World St -> SelectionT -> RequestFormat -> string -> StreamReply;
  net_typed : World St -> SelectionT -> RequestFormat -> string -> TypedReply;
  net_images : World St -> SelectionT -> string -> RawReply;
  net_codex_image : World St -> SelectionT -> string -> RawReply;
  net_codex_image_stream : World St -> SelectionT -> string -> ImageStream;
  net_codex_responses : World St -> SelectionT -> string -> RawReply;
  net_codex_stream : World St -> SelectionT -> string -> CodexStream
}.
Arguments net_stream {St}.
Arguments net_typed {St}.
Arguments net_images {St}.
Arguments net_codex_image {St}.
Arguments net_codex_image_stream {St}.
Arguments net_codex_responses {St}.
Arguments net_codex_stream {St}.

(** What a request's callers are given besides: [attemptState.stream]; the model of
    the form if the body is one, and the form with another model; the error of
    [credentialFor], if the credential cannot be had; the network; [protoconv]'s
    answer in the client's protocol, and whether its stream mapper still has
    something to say at the end mark; the order in which Go ranges over a map; the
    codex adapter: whether it is there, accounts without their extension, the
    endpoint of a template, the parameters of an image request. *)
Record CallerEnv (St : Type) := mkCallerEnv {
  ca_stream : bool;
  ca_form : option string;
  ca_rewrite_form : string -> string -> option string;
  ca_credential_err : World St -> SelectionT -> option CallErr;
  ca_net : Network St;
  ca_ConvertResponse : string -> ProtocolConvert -> string + string;
  ca_mapper_tail : ProtocolConvert -> list Frame_ -> bool;
  ca_range : list (bytes * bytes) -> list (bytes * bytes);
  ca_codex_wired : bool;
  ca_ext_missing : SelectionT -> bool;
  ca_codex_endpoint_err : SelectionT -> option CallErr;
  ca_image_params : string -> string + string;
  ca_image_base_err : SelectionT -> option string
}.
Arguments ca_stream {St}.
Arguments ca_form {St}.
Arguments ca_rewrite_form {St}.
Arguments ca_credential_err {St}.
Arguments ca_net {St}.
Arguments ca_ConvertResponse {St}.
Arguments ca_mapper_tail {St}.
Arguments ca_range {St}.
Arguments ca_codex_wired {St}.
Arguments ca_ext_missing {St}.
Arguments ca_codex_endpoint_err {St}.
Arguments ca_image_params {St}.
Arguments ca_image_base_err {St}.

(** The same for a request that was read: whether it streams, and its form. *)
Definition for_request {St : Type} (ca : CallerEnv St) (stream : bool) (form : option string) : CallerEnv St :=
  mkCallerEnv St stream form (ca_rewrite_form ca) (ca_credential_err ca) (ca_net ca) (ca_ConvertResponse ca) (ca_mapper_tail ca) (ca_range ca)
    (ca_codex_wired ca) (ca_ext_missing ca) (ca_codex_endpoint_err ca) (ca_image_params ca) (ca_image_base_err ca).

(** ** Documents *)

(** gjson, sjson and the SDKs' parameter types (their model or the error). *)
Class BodyLib := {
  gjson_true : string -> string -> bool;
  gjson_number : string -> string -> option Z;
  sjson_string : string -> string -> string -> string + string;
  sjson_true : string -> string -> string + string;
  unmarshal_params : RequestFormat -> string -> string + string
}.

Section Rewrite.
Context `{L : TextLib} `{B : BodyLib}.

Definition setModel (body model : string) : string + string :=
  if gjson_string body "model" ==s model then inl body
  else if negb (isJSONObjectRoot (bs body)) then inr errBodyNotObject
  else sjson_string body "model" model.

Definition setStreamAndModel (body model : string) : string + string :=
  if gjson_true body "stream" && (gjson_string body "model" ==s model) then inl body
  else if negb (isJSONObjectRoot (bs body)) then inr errBodyNotObject
  else match sjson_true body "stream" with inr e => inr e | inl body => sjson_string body "model" model end.

Definition ensureChatStreamUsage (body : string) : string + string :=
  if gjson_true body "stream_options.include_usage" then inl body
  else if negb (isJSONObjectRoot (bs body)) then inr errBodyNotObject
  else sjson_true body "stream_options.include_usage".
End Rewrite.

(** ** Which caller *)

Inductive Caller := ChatCaller | ResponsesCaller | AnthropicCaller | ImagesCaller | ConvertedCaller (dir : ProtocolConvert).

(** The registries of [New]. *)
Definition callers (format : RequestFormat) : option Caller :=
  if format ==s FormatOpenAIChat then Some ChatCaller
  else if format ==s FormatOpenAIResponses then Some ResponsesCaller
  else if format ==s FormatAnthropic then Some AnthropicCaller
  else if format ==s FormatOpenAIImages then Some ImagesCaller
  else None.

Definition convCallers (dir : ProtocolConvert) : option Caller :=
  if existsb (String.eqb dir) [ProtocolConvertChatToResp; ProtocolConvertMessToResp; ProtocolConvertRespToMess; ProtocolConvertChatToMess;
                               AutoResponsesToChat; AutoMessagesToChat]
  then Some (ConvertedCaller dir) else None.

Definition clientAndTargetOf (dir : ProtocolConvert) : RequestFormat * RequestFormat :=
  if dir ==s ProtocolConvertChatToResp then (FormatOpenAIChat, FormatOpenAIResponses)
  else if dir ==s ProtocolConvertMessToResp then (FormatAnthropic, FormatOpenAIResponses)
  else if dir ==s ProtocolConvertRespToMess then (FormatOpenAIResponses, FormatAnthropic)
  else if dir ==s ProtocolConvertChatToMess then (FormatOpenAIChat, FormatAnthropic)
  else if dir ==s AutoResponsesToChat then (FormatOpenAIResponses, FormatOpenAIChat)
  else if dir ==s AutoMessagesToChat then (FormatAnthropic, FormatOpenAIChat)
  else ("", "").

Definition isCodexCredentialType (t : string) : bool := (t ==s "codex-oauth") || (t ==s "codex-pat").

Create HintDb closing.

Section Attempt.
Context {St : Type} `{SL : SlotLaws St} `{L : TextLib} `{B : BodyLib}.
Variable env : RunEnv.
Variable q : Request.
Variable ca : CallerEnv St.

Definition usage_row (sel : SelectionT) (model : string) (format : RequestFormat) (status : Z) (et : ErrorType) (u : usageTuple) : UsageLog :=
  logWithCtx (rq_meta q) (buildLog (rq_group q) (sel_AccountID sel) model (sel_Model sel) format status et u).

(** ** How a call ends *)

(** The upstream did not accept the request: the loop goes on. *)
Definition failed (w : World St) (code : Z) (body : string) (err : CallErr) : World St * CallResult :=
  (w, mkCallResult code body None false (Some err)).

Definition local_error (w : World St) (err : string) : World St * CallResult := failed w 0 "" (mkCallErr err None).

Definition bad_status (w : World St) (code : Z) (body : string) (hdr : option Header) : World St * CallResult :=
  failed w code body (mkCallErr "upstream response metadata" hdr).

Definition handled (w : World St) (code : Z) : World St * CallResult := (w, mkCallResult code "" None true None).

(** A request refused before anything was sent. *)
Definition rejectLocalRequest (w : World St) (r : nat) (sel : SelectionT) (format : RequestFormat) (body err : string) : World St * CallResult :=
  let l := applySelectionAttribution (usage_row sel (gjson_string body "model") format StatusBadRequest Err4xx no_usage) sel (w_prices w !! r) in
  let w := recordRejected q w l ("upstream not contacted: invalid request body: " +:+ err)%stdpp in
  let w := emit w (EvAnswer None (AnsLocal StatusBadRequest ("invalid request body: " +:+ err)%stdpp)) in
  handled (releaseRef w r) StatusBadRequest.

(** The codex callers refuse in another order, as a billing error. *)
Definition codex_refuse (w : World St) (r : nat) (sel : SelectionT) (model : string) (format : RequestFormat) (status : Z) (msg : string)
    : World St * CallResult :=
  let w := releaseRef w r in
  let l := applySelectionAttribution (usage_row sel model format status ErrBilling no_usage) sel (w_prices w !! r) in
  let w := recordRejected q w l msg in
  handled (emit w (EvAnswer None (AnsLocal status msg))) 0.

(** A complete answer: the result is reported, then the row is settled. *)
Definition completed (w : World St) (r : nat) (sel : SelectionT) (model : string) (format : RequestFormat) (u : usageTuple) (body : string)
    : World St * CallResult :=
  let w := emit w (EvAnswer None (AnsRaw 200 body)) in
  let w := mark env w sel KindOK None 200 "" in
  handled (finishSelection w r sel (usage_row sel model format 200 ErrNone u) None) 200.

(** The client left a stream: what was used is settled. *)
Definition client_left (w : World St) (r : nat) (sel : SelectionT) (model : string) (format : RequestFormat) (u : usageTuple) : World St * CallResult :=
  handled (finishSelection w r sel (usage_row sel model format 200 ErrAbort u) None) 0.

(** [recordStreamAbortForFormat] and the report: the upstream broke the stream off. *)
Definition stream_aborted (w : World St) (r : nat) (sel : SelectionT) (model : string) (format : RequestFormat) (u : usageTuple) (code : Z) (text : string)
    : World St * CallResult :=
  let w := finishSelection w r sel (usage_row sel model format 200 ErrAbort u) None in
  handled (mark env w sel (RuleKindOf code) None code text) 0.

(** An answer that announces or turns out to be a failure: charged, not retried. *)
Definition application_failure (w : World St) (r : nat) (sel : SelectionT) (model : string) (format : RequestFormat) (u : usageTuple) (msg : string) : World St :=
  let w := finishSelection w r sel (usage_row sel model format StatusBadGateway Err5xx u) (Some msg) in
  mark env w sel Kind5xx None StatusBadGateway msg.

(** The end of a stream in the upstream's own protocol; [recordStreamAbort]
    records the selection's format. *)
Definition stream_end (w : World St) (r : nat) (sel : SelectionT) (model : string) (format : RequestFormat) (u : usageTuple) (out : string)
    (ret : option RelayErr) : World St * CallResult :=
  match ret with
  | None => completed w r sel model format u out
  | Some e =>
      if re_canceled e then client_left w r sel model format u
      else stream_aborted w r sel model (sel_Format sel) u (re_code e) (re_text e)
  end.

(** A streaming call whose request is [sent]. *)
Definition streamed (w : World St) (r : nat) (sel : SelectionT) (model : string) (format : RequestFormat) (observed : list Frame_ -> usageTuple)
    (sent : string) : World St * CallResult :=
  match net_stream (ca_net ca) w sel format sent with
  | SrError code body err => failed w code body err
  | SrStatus code body hdr => bad_status w code body hdr
  | SrRelayed seen out ret _ => stream_end w r sel model format (observed seen) out ret
  end.

(** A call through an SDK. *)
Definition typed (w : World St) (r : nat) (sel : SelectionT) (format : RequestFormat) (usage : SdkUsage -> usageTuple) (calls : string -> Z) (body : string)
    : World St * CallResult :=
  match unmarshal_params format body with
  | inr err => rejectLocalRequest w r sel format body err
  | inl model =>
      match net_typed (ca_net ca) w sel format body with
      | TrError code b err => failed w code b err
      | TrAnswer _ _ (inr err) => failed w 0 "" err
      | TrAnswer u raw (inl data) =>
          let t := match u with Some u => usage u | None => no_usage end in
          completed w r sel model format
            (mkTuple (u_it t) (u_ot t) (u_tt t) (u_cr t) (u_cc t) (u_cacheReadExcludedFromTotal t) (u_cacheReadIncludedInTotal t) (calls raw) (u_ii t) (u_io t))
            data
      end
  end.

(** ** The callers *)

Definition no_calls (_ : string) : Z := 0.

Definition chatCaller_Call (w : World St) (r : nat) (sel : SelectionT) (body : string) : World St * CallResult :=
  match validateRequestParameterTypes FormatOpenAIChat (bs body) with
  | Some err => rejectLocalRequest w r sel FormatOpenAIChat body err
  | None =>
      if ca_stream ca then
        match setStreamAndModel body (sel_Model sel) with
        | inr err => local_error w err
        | inl sent =>
            match ensureChatStreamUsage sent with
            | inr err => local_error w err
            | inl sent => streamed w r sel (gjson_string body "model") FormatOpenAIChat chat_observed sent
            end
        end
      else typed w r sel FormatOpenAIChat (chatUsageFromResponse gjson_number) no_calls body
  end.

Definition anthropicCaller_Call (w : World St) (r : nat) (sel : SelectionT) (body : string) : World St * CallResult :=
  match validateRequestParameterTypes FormatAnthropic (bs body) with
  | Some err => rejectLocalRequest w r sel FormatAnthropic body err
  | None =>
      if ca_stream ca then
        match setModel body (sel_Model sel) with
        | inr err => local_error w err
        | inl sent => streamed w r sel (gjson_string body "model") FormatAnthropic anthropic_observed sent
        end
      else typed w r sel FormatAnthropic (anthropicUsageFromResponse gjson_number) no_calls body
  end.

(** *** Codex accounts *)

Definition nonstreamCodexResponses (w : World St) (r : nat) (sel : SelectionT) (model body : string) : World St * CallResult :=
  match setModel body (sel_Model sel) with
  | inr err => local_error w err
  | inl sent =>
      match net_codex_responses (ca_net ca) w sel sent with
      | RwError code b err => failed w code b err
      | RwStatus code b hdr => bad_status w code b hdr
      | RwBody (inr err) => failed w 0 "" err
      | RwBody (inl raw) =>
          let t := default no_usage (responsesTopLevelUsage (bs raw)) in
          let calls := if respImageDetectOn sel then respImageCountBody (bs raw) else 0 in
          completed w r sel model FormatOpenAIResponses (mkTuple (u_it t) (u_ot t) (u_tt t) (u_cr t) (u_cc t) false false calls 0 0) raw
      end
  end.

(** The status is sent with the first payload: a failure before it is the
    loop's.  The client may also leave before the end mark is written. *)
Definition streamCodexResponses (w : World St) (r : nat) (sel : SelectionT) (model body : string) : World St * CallResult :=
  match setModel body (sel_Model sel) with
  | inr err => local_error w err
  | inl sent =>
      let '(CodexPayloads payloads out err done_written) := net_codex_stream (ca_net ca) w sel sent in
      let u := codex_observed (respImageDetectOn sel) payloads in
      match err with
      | Some (code, b, e) =>
          if rv_gone env (w_tick w) then client_left w r sel model FormatOpenAIResponses u
          else if is_empty payloads then failed w code b e
          else stream_aborted w r sel model (sel_Format sel) u code (ce_text e)
      | None => if done_written then completed w r sel model FormatOpenAIResponses u out else client_left w r sel model FormatOpenAIResponses u
      end
  end.

Definition callCodexResponses (w : World St) (r : nat) (sel : SelectionT) (body : string) : World St * CallResult :=
  let model := gjson_string body "model" in
  if negb (ca_codex_wired ca) then
    codex_refuse w r sel model FormatOpenAIResponses StatusNotImplemented "codex responses unavailable (adapter not wired)"
  else if ca_ext_missing ca sel then local_error w "codex account missing account_ext snapshot (config error)"
  else
    match (if sel_BaseURL sel ==s "" then None else ca_codex_endpoint_err ca sel) with
    | Some e => failed w 0 "" e
    | None => if ca_stream ca then streamCodexResponses w r sel model body else nonstreamCodexResponses w r sel model body
    end.

Definition responsesCaller_Call (w : World St) (r : nat) (sel : SelectionT) (body : string) : World St * CallResult :=
  match validateRequestParameterTypes FormatOpenAIResponses (bs body) with
  | Some err => rejectLocalRequest w r sel FormatOpenAIResponses body err
  | None =>
      if isCodexCredentialType (sel_CredentialType sel) then callCodexResponses w r sel body
      else
        let body := if sel_StripImageTools sel then match stripImageTools (bs body) with Some b => str b | None => body end else body in
        if ca_stream ca then
          match setModel body (sel_Model sel) with
          | inr err => local_error w err
          | inl sent => streamed w r sel (gjson_string body "model") FormatOpenAIResponses (responses_observed (respImageDetectOn sel)) sent
          end
        else typed w r sel FormatOpenAIResponses (responsesUsageFromResponse gjson_number)
               (fun raw => if respImageDetectOn sel then respImageCountBody (bs raw) else 0) body
  end.

(** *** Images *)

Definition image_model (body : string) : string := default (gjson_string body "model") (ca_form ca).

Definition imagesCaller_Call (w : World St) (r : nat) (sel : SelectionT) (body : string) : World St * CallResult :=
  let model := image_model body in
  let sent := match ca_form ca with
              | Some _ => default body (ca_rewrite_form ca body (sel_Model sel))
              | None => match setModel body (sel_Model sel) with inl b => b | inr _ => body end
              end in
  if ca_stream ca then streamed w r sel model FormatOpenAIImages (images_observed gjson_number) sent
  else
    match net_images (ca_net ca) w sel sent with
    | RwError code b err => failed w code b err
    | RwStatus code b hdr => bad_status w code b hdr
    | RwBody (inr err) => failed w 0 "" err
    | RwBody (inl data) => completed w r sel model FormatOpenAIImages (ImageUsageFromResponse gjson_number data) data
    end.

Definition image_usages (evs : list ImageEv) : list (Z * Z) := omap (fun e => match e with ImgCompleted u => u | _ => None end) evs.
Definition image_count (evs : list ImageEv) : Z :=
  Z.of_nat (List.length (List.filter (fun e => match e with ImgCompleted _ => true | _ => false end) evs)).
Definition headers_sent (evs : list ImageEv) : bool := existsb (fun e => match e with ImgOther => false | _ => true end) evs.

Definition streamImageGeneration (w : World St) (r : nat) (sel : SelectionT) (model sent : string) : World St * CallResult :=
  let '(ImageEvents evs out err) := net_codex_image_stream (ca_net ca) w sel sent in
  let '(ii, io) := default (0, 0) (last (image_usages evs)) in
  let u := image_usage ii io (image_count evs) in
  match err with
  | Some (code, b, e) =>
      if negb (headers_sent evs) then failed w code b e
      else if rv_gone env (w_tick w) then client_left w r sel model (sel_Format sel) u
      else stream_aborted w r sel model (sel_Format sel) u code (ce_text e)
  | None => completed w r sel model (sel_Format sel) u out
  end.

Definition codexImagesCaller_Call (w : World St) (r : nat) (sel : SelectionT) (body : string) : World St * CallResult :=
  if negb (ca_codex_wired ca) then
    codex_refuse w r sel (image_model body) FormatOpenAIImages StatusNotImplemented "codex image generation unavailable (adapter not wired)"
  else
    match ca_image_params ca body with
    | inr err => codex_refuse w r sel (image_model body) FormatOpenAIImages StatusBadRequest err
    | inl model =>
        match ca_image_base_err ca sel with
        | Some err => codex_refuse w r sel model FormatOpenAIImages StatusBadRequest err
        | None =>
            if ca_stream ca then streamImageGeneration w r sel model body
            else
              match net_codex_image (ca_net ca) w sel body with
              | RwError code b err => failed w code b err
              | RwStatus code b hdr => bad_status w code b hdr
              | RwBody (inr err) => failed w 0 "" err
              | RwBody (inl wire) => completed w r sel model FormatOpenAIImages (ImageUsageFromResponse gjson_number wire) wire
              end
        end
    end.

(** *** Converted requests *)

(** The first failure announced in the frames. *)
Definition stream_failure (seen : list Frame_) : option string :=
  head (omap (convertedStreamFailure (ca_range ca) (fun data path => gjson_string (str data) path)) seen).

Definition converted_stream (w : World St) (r : nat) (sel : SelectionT) (dir : ProtocolConvert) (model : string) (client target : RequestFormat)
    (seen : list Frame_) (out : string) (ret tail_err : option RelayErr) : World St * CallResult :=
  let u := converted_observed target seen in
  match stream_failure seen with
  | Some msg =>
      let w := match ret with None => emit w (EvAnswer None (AnsRaw 200 out)) | Some _ => w end in
      handled (application_failure w r sel model client u (TruncateErrMsg msg)) StatusBadGateway
  | None =>
      match (match ret with
             | Some e => Some e
             | None => if (target ==s FormatOpenAIChat) && ca_mapper_tail ca dir seen then tail_err else None
             end) with
      | None => completed w r sel model client u out
      | Some e =>
          if re_canceled e then client_left w r sel model client u
          else stream_aborted w r sel model client u (re_code e) (re_text e)
      end
  end.

Definition usage_of (target : RequestFormat) (u : SdkUsage) : usageTuple :=
  if target ==s FormatOpenAIChat then chatUsageFromResponse gjson_number u
  else if target ==s FormatOpenAIResponses then responsesUsageFromResponse gjson_number u
  else anthropicUsageFromResponse gjson_number u.

(** An answer that cannot be converted is charged and answered by a 502. *)
Definition converted_answer (w : World St) (r : nat) (sel : SelectionT) (dir : ProtocolConvert) (model : string) (client target : RequestFormat)
    (usage : option SdkUsage) (data : string) : World St * CallResult :=
  let u := convertedUsageTuple target (match usage with Some u => usage_of target u | None => no_usage end) in
  match ca_ConvertResponse ca data dir with
  | inr err =>
      let msg := TruncateErrMsg ("protocol response conversion failed: " +:+ err)%stdpp in
      let w := application_failure w r sel model client u msg in
      handled (emit w (EvAnswer None (AnsError StatusBadGateway msg))) StatusBadGateway
  | inl conv => completed w r sel model client u conv
  end.

Definition convertedCaller_Call (dir : ProtocolConvert) (w : World St) (r : nat) (sel : SelectionT) (body : string) : World St * CallResult :=
  let '(client, target) := clientAndTargetOf dir in
  let model := gjson_string body "model" in
  match validateRequestParameterTypes target (bs body) with
  | Some err => rejectLocalRequest w r sel client body err
  | None =>
      if ca_stream ca then
        match setModel body (sel_Model sel) with
        | inr err => local_error w err
        | inl sent =>
            match (if target ==s FormatOpenAIChat then ensureChatStreamUsage sent else inl sent) with
            | inr err => local_error w err
            | inl sent =>
                match net_stream (ca_net ca) w sel target sent with
                | SrError code b err => failed w code b err
                | SrStatus code b hdr => bad_status w code b hdr
                | SrRelayed seen out ret tail_err => converted_stream w r sel dir model client target seen out ret tail_err
                end
            end
        end
      else
        match unmarshal_params target body with
        | inr err => rejectLocalRequest w r sel client body err
        | inl _ =>
            match net_typed (ca_net ca) w sel target body with
            | TrError code b err => failed w code b err
            | TrAnswer _ _ (inr err) => failed w 0 "" err
            | TrAnswer u _ (inl data) => converted_answer w r sel dir model client target u data
            end
        end
  end.

(** ** The attempt *)

Definition Call (c : Caller) : World St -> nat -> SelectionT -> string -> World St * CallResult :=
  match c with
  | ChatCaller => chatCaller_Call
  | ResponsesCaller => responsesCaller_Call
  | AnthropicCaller => anthropicCaller_Call
  | ImagesCaller => imagesCaller_Call
  | ConvertedCaller dir => convertedCaller_Call dir
  end.

(** [attemptState.caller]: of the conversion if there is one, else of the client's
    format. *)
Definition route_caller (route : option ProtocolConvert) : option Caller :=
  match route with Some dir => convCallers dir | None => callers (rq_format q) end.

(** [chatAttempt.call]: image requests of codex accounts have a caller of their
    own, and codex accounts need no credential; without one nothing is sent; a
    refusal of the SDK itself ends the request; the headers of a failure come with
    its error. *)
Definition chatAttempt_call (w : World St) (r : nat) (format : RequestFormat) (route : option ProtocolConvert) (body : string)
    : World St * CallResult :=
  match w_sels w !! r, route_caller route with
  | Some sel, Some c =>
      let codex := isCodexCredentialType (sel_CredentialType sel) in
      match (if codex then None else ca_credential_err ca w sel) with
      | Some e => failed w 0 "" e
      | None =>
          let '(w, res) := (if codex && (format ==s FormatOpenAIImages) then codexImagesCaller_Call else Call c) w r sel body in
          match (if (cr_code res =? 0) && negb (rv_gone env (w_tick w)) then cr_err res else None) with
          | Some e =>
              if Contains (ce_text e) "streaming is required" then
                let w := finishSelection w r sel (usage_row sel (rq_model q) (rq_format q) StatusBadRequest Err4xx no_usage)
                           (Some (TruncateErrMsg (ce_text e))) in
                (emit w (EvAnswer None (AnsError StatusBadRequest (ce_text e))), mkCallResult 0 "" None true None)
              else (w, mkCallResult (cr_code res) (cr_body res) (ce_headers e) (cr_handled res) (cr_err res))
          | None => (w, mkCallResult (cr_code res) (cr_body res) (cr_err res ≫= ce_headers) (cr_handled res) (cr_err res))
          end
      end
  | _, _ => (w, mkCallResult 0 "" None false None)
  end.

#[local] Instance chat_attempt : UpstreamAttempt St := {| attempt_call := chatAttempt_call |}.

(** The events an attempt appended, and what they close. *)
Definition appended (w w' : World St) (cs : list Closing) : Prop :=
  exists evs, w_trace w' = (w_trace w ++ evs)%list /\ Forall attempt_ev evs /\ closings evs = cs.

Lemma appended_trans (a b c : World St) (cs1 cs2 : list Closing) : appended a b cs1 -> appended b c cs2 -> appended a c (cs1 ++ cs2).
Proof.
  intros (e1 & H1 & H2 & H3) (e2 & K1 & K2 & K3). exists (e1 ++ e2)%list. rewrite K1, H1, app_assoc, closings_app, H3, K3.
  split; [reflexivity|]. split; [apply Forall_app; auto|reflexivity].
Qed.

Lemma appended_none (w w' : World St) : w_trace w' = w_trace w -> appended w w' [].
Proof. intros E. exists []. rewrite E, app_nil_r. auto. Qed.

(** Reports, rows and answers leave the slots alone. *)
Definition keeps_slots (w w' : World St) (cs : list Closing) : Prop :=
  sc_ok (w_sched w') /\ w_sels w' = w_sels w /\ (forall y, slots_in (w_sched w') y = slots_in (w_sched w) y) /\ appended w w' cs.

(** What a handled call leaves behind: its slot is given back. *)
Definition slot_settled (w w' : World St) (r : nat) (x : Slot) (cs : list Closing) : Prop :=
  sc_ok (w_sched w') /\
  (exists sel', w_sels w' = <[r := sel']> (w_sels w) /\ sel_released sel' = true /\ slot_of sel' = Some x) /\
  (forall y, slots_in (w_sched w') y = slots_in (w_sched w) y - one_at x y) /\ appended w w' cs.

Lemma keeps_emit (w : World St) (e : Ev) : sc_ok (w_sched w) -> attempt_ev e -> keeps_slots w (emit w e) (closings [e]).
Proof. intros Hok He. split; [exact Hok|]. split; [reflexivity|]. split; [reflexivity|]. exists [e]. auto. Qed.

Lemma keeps_rejected (w : World St) (l : UsageLog) (msg : string) : sc_ok (w_sched w) -> keeps_slots w (recordRejected q w l msg) [].
Proof.
  intros Hok. unfold recordRejected. destruct (rq_usageCapture q); [exact (keeps_emit w (EvRejected _ _) Hok I)|].
  split; [exact Hok|]. split; [reflexivity|]. split; [reflexivity|]. apply appended_none. reflexivity.
Qed.

Lemma keeps_mark (w : World St) (sel : SelectionT) (kind : Kind) (resetAt : option Time) (http : Z) (msg : string) :
  sc_ok (w_sched w) -> keeps_slots w (mark env w sel kind resetAt http msg) [].
Proof.
  intros Hok. destruct (mark_law (w_sched w) sel (rv_now env (w_tick w)) kind resetAt http msg (sel_Model sel) Hok) as [H1 H2].
  split; [exact H1|]. split; [reflexivity|]. split; [exact H2|]. apply appended_none. reflexivity.
Qed.

Lemma keeps_trans (a b c : World St) (cs1 cs2 : list Closing) : keeps_slots a b cs1 -> keeps_slots b c cs2 -> keeps_slots a c (cs1 ++ cs2).
Proof.
  intros (_ & H2 & H3 & H4) (K1 & K2 & K3 & K4). split; [exact K1|]. split; [congruence|].
  split; [intros y; rewrite K3, H3; reflexivity|eapply appended_trans; eassumption].
Qed.

Lemma settled_before (a b c : World St) (r : nat) (x : Slot) (cs1 cs2 : list Closing) : keeps_slots a b cs1 -> slot_settled b c r x cs2 ->
  slot_settled a c r x (cs1 ++ cs2).
Proof.
  intros (_ & H2 & H3 & H4) (K1 & K2 & K3 & K4). split; [exact K1|]. split; [rewrite <- H2; exact K2|].
  split; [intros y; rewrite K3, H3; reflexivity|eapply appended_trans; eassumption].
Qed.

Lemma settled_after (a b c : World St) (r : nat) (x : Slot) (cs1 cs2 : list Closing) : slot_settled a b r x cs1 -> keeps_slots b c cs2 ->
  slot_settled a c r x (cs1 ++ cs2).
Proof.
  intros (_ & H2 & H3 & H4) (K1 & K2 & K3 & K4). split; [exact K1|]. split; [rewrite K2; exact H2|].
  split; [intros y; rewrite K3, H3; reflexivity|eapply appended_trans; eassumption].
Qed.

(** The request holds the slot [x] through the selection at [r]. *)
Definition holds (w : World St) (r : nat) (sel : SelectionT) (x : Slot) : Prop :=
  sc_ok (w_sched w) /\ w_sels w !! r = Some sel /\ sel_released sel = false /\ slot_of sel = Some x /\ 1 <= slots_in (w_sched w) x.

Lemma holds_keeps (w w' : World St) (r : nat) (sel : SelectionT) (x : Slot) (cs : list Closing) : holds w r sel x ->
  keeps_slots w w' cs -> holds w' r sel x.
Proof. intros (_ & H2 & H3 & H4 & H5) (K1 & K2 & K3 & _). unfold holds. rewrite K2, K3. auto. Qed.

Lemma settled_release (w : World St) (r : nat) (sel : SelectionT) (x : Slot) : holds w r sel x -> slot_settled w (releaseRef w r) r x [].
Proof.
  intros (Hok & Hsel & Hrel & Hx & Hs). unfold releaseRef. rewrite Hsel. pose proof (release_law (w_sched w) sel x Hok Hx) as H.
  destruct (sched_release (w_sched w) sel) as [s' sel']. destruct H as (H1 & H2 & H3 & H4). rewrite Hrel in H4.
  split; [exact H1|]. split; [exists sel'; auto|]. split; [intros y; cbn; rewrite H4; destruct (Z.ltb_spec 0 (slots_in (w_sched w) x)); lia|].
  apply appended_none. reflexivity.
Qed.

Lemma settled_finish (w : World St) (r : nat) (sel : SelectionT) (x : Slot) (l : UsageLog) (msg : option string) :
  holds w r sel x -> exists row, slot_settled w (finishSelection w r sel l msg) r x [Settled row].
Proof.
  intros H. pose proof (settled_release w r sel x H) as Hs. unfold finishSelection. eexists.
  exact (settled_after _ _ _ _ _ _ _ Hs (keeps_emit _ (EvFinished _ _) (proj1 Hs) I)).
Qed.

(** What a caller does: it closes the request, slot and all, or leaves it to the
    loop. *)
Definition closes (w : World St) (r : nat) (x : Slot) (p : World St * CallResult) : Prop :=
  if cr_handled p.2 then cr_err p.2 = None /\ exists cs, slot_settled w p.1 r x cs /\ closed cs else p.1 = w.

Lemma failed_closes (w : World St) (r : nat) (x : Slot) (code : Z) (body : string) (err : CallErr) : closes w r x (failed w code body err).
Proof. reflexivity. Qed.

Lemma closes_handled (w w' : World St) (r : nat) (x : Slot) (code : Z) (cs : list Closing) : slot_settled w w' r x cs -> closed cs ->
  closes w r x (handled w' code).
Proof. intros H Hc. split; [reflexivity|]. eauto. Qed.

Section Holding.
Context (w : World St) (r : nat) (sel : SelectionT) (x : Slot).
Hypothesis H : holds w r sel x.

Lemma reject_closes (format : RequestFormat) (body err : string) : closes w r x (rejectLocalRequest w r sel format body err).
Proof.
  pose proof H as (Hok & _). unfold rejectLocalRequest.
  set (a := AnsLocal StatusBadRequest ("invalid request body: " +:+ err)%stdpp).
  match goal with |- context [recordRejected q w ?l ?m] => pose proof (keeps_rejected w l m Hok) as K end.
  pose proof (keeps_trans _ _ _ _ _ K (keeps_emit _ (EvAnswer None a) (proj1 K) I)) as K2.
  eapply closes_handled; [exact (settled_before _ _ _ _ _ _ _ K2 (settled_release _ _ _ _ (holds_keeps _ _ _ _ _ _ H K2)))|exact I].
Qed.

Lemma codex_refuse_closes (model : string) (format : RequestFormat) (status : Z) (msg : string) :
  closes w r x (codex_refuse w r sel model format status msg).
Proof.
  unfold codex_refuse. pose proof (settled_release w r sel x H) as Hs.
  match goal with |- context [recordRejected q ?w' ?l ?m] => pose proof (keeps_rejected w' l m (proj1 Hs)) as K end.
  eapply closes_handled; [exact (settled_after _ _ _ _ _ _ _ Hs (keeps_trans _ _ _ _ _ K (keeps_emit _ (EvAnswer None (AnsLocal status msg)) (proj1 K) I)))|exact I].
Qed.

Lemma completed_closes (model : string) (format : RequestFormat) (u : usageTuple) (body : string) :
  closes w r x (completed w r sel model format u body).
Proof.
  pose proof H as (Hok & _). pose proof (keeps_emit w (EvAnswer None (AnsRaw 200 body)) Hok I) as K1.
  pose proof (keeps_trans _ _ _ _ _ K1 (keeps_mark _ sel KindOK None 200 "" (proj1 K1))) as K2.
  destruct (settled_finish _ r sel x (usage_row sel model format 200 ErrNone u) None (holds_keeps _ _ _ _ _ _ H K2)) as [row Hs].
  eapply closes_handled; [exact (settled_before _ _ _ _ _ _ _ K2 Hs)|exact I].
Qed.

Lemma left_closes (model : string) (format : RequestFormat) (u : usageTuple) : closes w r x (client_left w r sel model format u).
Proof.
  destruct (settled_finish w r sel x (usage_row sel model format 200 ErrAbort u) None H) as [row Hs].
  exact (closes_handled _ _ _ _ _ _ Hs I).
Qed.

Lemma aborted_closes (model : string) (format : RequestFormat) (u : usageTuple) (code : Z) (text : string) :
  closes w r x (stream_aborted w r sel model format u code text).
Proof.
  destruct (settled_finish w r sel x (usage_row sel model format 200 ErrAbort u) None H) as [row Hs].
  eapply closes_handled; [exact (settled_after _ _ _ _ _ _ _ Hs (keeps_mark _ _ _ _ _ _ (proj1 Hs)))|exact I].
Qed.

Lemma failure_settled (model : string) (format : RequestFormat) (u : usageTuple) (msg : string) :
  exists row, slot_settled w (application_failure w r sel model format u msg) r x [Settled row].
Proof.
  destruct (settled_finish w r sel x (usage_row sel model format StatusBadGateway Err5xx u) (Some msg) H) as [row Hs].
  exists row. exact (settled_after _ _ _ _ _ _ _ Hs (keeps_mark _ _ _ _ _ _ (proj1 Hs))).
Qed.
End Holding.

#[local] Hint Resolve failed_closes reject_closes codex_refuse_closes completed_closes left_closes aborted_closes : closing.

(** A caller is a tree of decisions whose leaves are the endings above. *)
Ltac decide_closes := unfold local_error, bad_status; repeat (case_match; eauto with closing).

Lemma streamed_closes (w : World St) (r : nat) (sel : SelectionT) (x : Slot) (model : string) (format : RequestFormat)
    (observed : list Frame_ -> usageTuple) (sent : string) : holds w r sel x -> closes w r x (streamed w r sel model format observed sent).
Proof. intros H. unfold streamed, stream_end. decide_closes. Qed.

Lemma typed_closes (w : World St) (r : nat) (sel : SelectionT) (x : Slot) (format : RequestFormat) (usage : SdkUsage -> usageTuple)
    (calls : string -> Z) (body : string) : holds w r sel x -> closes w r x (typed w r sel format usage calls body).
Proof. intros H. unfold typed. decide_closes. Qed.

#[local] Hint Resolve streamed_closes typed_closes : closing.

Lemma chat_closes (w : World St) (r : nat) (sel : SelectionT) (x : Slot) (body : string) : holds w r sel x ->
  closes w r x (chatCaller_Call w r sel body).
Proof. intros H. unfold chatCaller_Call. decide_closes. Qed.

Lemma anthropic_closes (w : World St) (r : nat) (sel : SelectionT) (x : Slot) (body : string) : holds w r sel x ->
  closes w r x (anthropicCaller_Call w r sel body).
Proof. intros H. unfold anthropicCaller_Call. decide_closes. Qed.

Lemma codex_responses_closes (w : World St) (r : nat) (sel : SelectionT) (x : Slot) (body : string) : holds w r sel x ->
  closes w r x (callCodexResponses w r sel body).
Proof. intros H. unfold callCodexResponses, streamCodexResponses, nonstreamCodexResponses. decide_closes. Qed.

Lemma responses_closes (w : World St) (r : nat) (sel : SelectionT) (x : Slot) (body : string) : holds w r sel x ->
  closes w r x (responsesCaller_Call w r sel body).
Proof.
  intros H. unfold responsesCaller_Call. destruct (validateRequestParameterTypes _ _); [auto with closing|].
  destruct (isCodexCredentialType _); [exact (codex_responses_closes w r sel x body H)|]. cbv zeta. decide_closes.
Qed.

Lemma images_closes (w : World St) (r : nat) (sel : SelectionT) (x : Slot) (body : string) : holds w r sel x ->
  closes w r x (imagesCaller_Call w r sel body).
Proof. intros H. unfold imagesCaller_Call. cbv zeta. destruct (ca_stream ca); [auto with closing|]. decide_closes. Qed.

Lemma codex_images_closes (w : World St) (r : nat) (sel : SelectionT) (x : Slot) (body : string) : holds w r sel x ->
  closes w r x (codexImagesCaller_Call w r sel body).
Proof. intros H. unfold codexImagesCaller_Call, streamImageGeneration. decide_closes. Qed.

(** A converted stream that announced a failure was delivered as it came. *)
Lemma announced_closes (w : World St) (r : nat) (sel : SelectionT) (x : Slot) (model : string) (format : RequestFormat) (u : usageTuple)
    (msg out : string) : holds w r sel x ->
  closes w r x (handled (application_failure (emit w (EvAnswer None (AnsRaw 200 out))) r sel model format u msg) StatusBadGateway).
Proof.
  intros H. pose proof (keeps_emit w (EvAnswer None (AnsRaw 200 out)) (proj1 H) I) as K.
  destruct (failure_settled _ r sel x (holds_keeps _ _ _ _ _ _ H K) model format u msg) as [row Hs].
  eapply closes_handled; [exact (settled_before _ _ _ _ _ _ _ K Hs)|exact I].
Qed.

Lemma converted_stream_closes (w : World St) (r : nat) (sel : SelectionT) (x : Slot) (dir : ProtocolConvert) (model : string)
    (client target : RequestFormat) (seen : list Frame_) (out : string) (ret tail_err : option RelayErr) : holds w r sel x ->
  closes w r x (converted_stream w r sel dir model client target seen out ret tail_err).
Proof.
  intros H. unfold converted_stream. destruct (stream_failure seen) as [msg|]; [destruct ret; [|exact (announced_closes w r sel x _ _ _ _ _ H)]|].
  - destruct (failure_settled w r sel x H model client (converted_observed target seen) (TruncateErrMsg msg)) as [row Hs].
    exact (closes_handled _ _ _ _ _ _ Hs I).
  - decide_closes.
Qed.

Lemma converted_answer_closes (w : World St) (r : nat) (sel : SelectionT) (x : Slot) (dir : ProtocolConvert) (model : string)
    (client target : RequestFormat) (usage : option SdkUsage) (data : string) : holds w r sel x ->
  closes w r x (converted_answer w r sel dir model client target usage data).
Proof.
  intros H. unfold converted_answer. destruct (ca_ConvertResponse ca data dir) as [conv|err]; [auto with closing|]. cbv zeta.
  match goal with |- context [application_failure w r sel model client ?u ?m] => destruct (failure_settled w r sel x H model client u m) as [row Hs] end.
  eapply closes_handled; [exact (settled_after _ _ _ _ _ _ _ Hs (keeps_emit _ (EvAnswer None (AnsError StatusBadGateway _)) (proj1 Hs) I))|exact I].
Qed.

#[local] Hint Resolve converted_stream_closes converted_answer_closes : closing.

Lemma converted_closes (dir : ProtocolConvert) (w : World St) (r : nat) (sel : SelectionT) (x : Slot) (body : string) : holds w r sel x ->
  closes w r x (convertedCaller_Call dir w r sel body).
Proof. intros H. unfold convertedCaller_Call. destruct (clientAndTargetOf dir) as [client target]. decide_closes. Qed.

Lemma call_closes (c : Caller) (w : World St) (r : nat) (sel : SelectionT) (x : Slot) (body : string) : holds w r sel x ->
  closes w r x (Call c w r sel body).
Proof.
  intros H. destruct c; cbn [Call].
  - exact (chat_closes w r sel x body H).
  - exact (responses_closes w r sel x body H).
  - exact (anthropic_closes w r sel x body H).
  - exact (images_closes w r sel x body H).
  - exact (converted_closes dir w r sel x body H).
Qed.

Lemma route_closes (codex_image : bool) (c : Caller) (w : World St) (r : nat) (sel : SelectionT) (x : Slot) (body : string) : holds w r sel x ->
  closes w r x ((if codex_image then codexImagesCaller_Call else Call c) w r sel body).
Proof. intros H. destruct codex_image; [exact (codex_images_closes w r sel x body H)|exact (call_closes c w r sel x body H)]. Qed.

#[global] Instance chat_attempt_laws : AttemptLaws St.
Proof.
  constructor. intros w w' r sel x format route body res Hok Hsel Hrel Hx Hs. cbn [attempt_call chat_attempt]. unfold chatAttempt_call.
  rewrite Hsel. destruct (route_caller route) as [c|]; [|intros [= <- <-]; cbn [cr_handled]; auto].
  destruct (if isCodexCredentialType _ then _ else _) as [e|]; [intros [= <- <-]; cbn [cr_handled]; auto|].
  assert (holds w r sel x) as H by (split_and!; assumption). cbv zeta.
  pose proof (route_closes (isCodexCredentialType (sel_CredentialType sel) && (format ==s FormatOpenAIImages)) c w r sel x body H) as Hc.
  destruct ((if _ : bool then codexImagesCaller_Call else Call c) w r sel body) as [w1 res1].
  unfold closes in Hc. cbn [fst snd] in Hc. destruct (cr_handled res1) eqn:Eh.
  - destruct Hc as (Ee & cs & (H1 & H2 & H3 & evs & H4 & H5 & H6) & Hcl). rewrite Ee. destruct (_ && _); intros [= <- <-]; cbn [cr_handled];
      split_and!; auto; exists evs; split_and!; auto; rewrite H6; exact Hcl.
  - subst w1. destruct (if _ && _ then _ else _) as [err|]; [destruct (Contains _ _)|]; intros [= <- <-]; cbn [cr_handled]; [|rewrite ?Eh; auto..].
    destruct (settled_finish w r sel x (usage_row sel (rq_model q) (rq_format q) StatusBadRequest Err4xx no_usage) (Some (TruncateErrMsg (ce_text err))) H)
      as [row Hf].
    destruct (settled_after _ _ _ _ _ _ _ Hf (keeps_emit _ (EvAnswer None (AnsError StatusBadRequest (ce_text err))) (proj1 Hf) I))
      as (H1 & H2 & H3 & evs & H4 & H5 & H6).
    split_and!; auto. exists evs. split_and!; auto. rewrite H6. exact I.
Qed.
End Attempt.

(** Every route the loop takes has a caller: the conversions of [convertedRoute]
    and the formats of [handleFormat]. *)
Lemma converted_has_caller (dir : ProtocolConvert) (client target : RequestFormat) : convert_target dir client = Some target ->
  convCallers dir = Some (ConvertedCaller dir) /\ clientAndTargetOf dir = (client, target).
Proof.
  unfold convert_target. cbv zeta.
  repeat match goal with
  | |- context [dir ==s ?f] => destruct (String.eqb_spec dir f) as [E|?]; [subst dir|]
  end; try discriminate.
  all: match goal with |- (if ?c ==s ?f then _ else _) = _ -> _ => destruct (String.eqb_spec c f) as [E|]; [subst c|discriminate] end.
  all: intros [= <-]; split; reflexivity.
Qed.
