(* ===== verification/Forwarding.v ===== *)
(** * Requests end to end ([internal/proxy]: pipeline.go, caller.go; [internal/scheduler])

    The failover loop on the scheduler's store: the store discharges the slot
    laws, the callers ([Callers]) the attempt law, and a request from its first
    selection to its answer leaves every slot counter as it found it. *)

From Stdlib Require Import ZArith Lia List Bool String.
From stdpp Require Import base option list gmap strings sorting relations.
From S2P Require Import JsonScan JsonText.
From S2P Require Import Prelude GoString Domain UsageBilling GoTime RuleTypes RuleEngine SchedTypes WeightedSeq Routes ModelNames AccountState Selection UpstreamPool Endpoints Snapshots StoreInv GroupReload Scheduler Pipeline PipelineInv UsageExtract Metering Callers.
Import ListNotations.
Local Open Scope string_scope.
Local Open Scope Z_scope.

(** ** The scheduler behind the interface *)

Record SchedState := mkSched { sd_store : Store; sd_engine : RuleEngine }.

(** [MarkSelectionResult]. *)
Definition MarkSelectionResult (st : SchedState) (sel : SelectionT) (now : Time) (kind : Kind) (resetAt : option Time)
    (http : Z) (msg model : string) : SchedState :=
  let s := sd_store st in
  match sel_TargetKind sel with
  | TargetKindAccount =>
      match sr_byID s !! sel_AccountID sel with
      | None => st
      | Some l =>
          match sr_heap s !! l with
          | None => st
          | Some a =>
              let '(a', ev) := markResult (NeedsOKEvents (sd_engine st)) now a (sel_GroupID sel) kind resetAt http msg model in
              mkSched (update_account s l a') (match ev with Some e => (Enqueue e (sd_engine st)).1 | None => sd_engine st end)
          end
      end
  | TargetKindUpstreamMember =>
      match (match sel_upstreamRef sel with Some item => Some item | None => sr_upstreams s !! sel_TargetID sel end) with
      | None => st
      | Some item =>
          mkSched (mkStore (sr_heap s) (sr_next s) (mark_upstream_result (sr_up s) item kind resetAt msg now).1
                     (sr_groups s) (sr_byID s) (sr_upstreams s)) (sd_engine st)
      end
  end.

(** [classify]: the event is completed from the account's snapshot. *)
Definition classify_account (st : SchedState) (ev : Event) (requestGroupID : Z) : RuleThen * bool :=
  match sr_byID (sd_store st) !! ev_AccountID ev ≫= static_of (sr_heap (sd_store st)) with
  | None => (zero_Then, false)
  | Some av =>
      Classify (sd_engine st)
        (mkEvent (ev_AccountID ev) (acc_TemplateID (ss_acc av))
           (groupIDPtr (if 0 <? requestGroupID then requestGroupID else ss_gid av)) (ev_Model ev) (ev_Kind ev)
           (ev_HTTPStatus ev) (ev_ErrorMessage ev) (ev_ResetAt ev) (ev_OccurredAt ev))
  end.

(** [ClassifySelection]. *)
Definition ClassifySelection (st : SchedState) (sel : SelectionT) (ev : Event) : RuleThen * bool :=
  match sel_TargetKind sel with
  | TargetKindAccount => classify_account st ev (sel_GroupID sel)
  | TargetKindUpstreamMember =>
      (zero_Then, (ev_Kind ev =? Kind429) || (ev_Kind ev =? Kind5xx) || (ev_Kind ev =? KindNetwork))
  end.

#[global] Instance store_scheduler : SlotScheduler SchedState := {|
  sched_select st env used gid format model :=
    match SelectExcluding env used (sd_store st) gid format model with
    | None => None
    | Some (s, res) => Some (mkSched s (sd_engine st), res)
    end;
  sched_release st sel := let '(s, sel') := release (sd_store st) sel in (mkSched s (sd_engine st), sel');
  sched_classify := ClassifySelection;
  sched_mark := MarkSelectionResult
|}.

(** ** Its slots *)

Definition store_slots (s : Store) (x : Slot) : Z :=
  match x with
  | SlotAccount l => match sr_heap s !! l with Some a => as_concurrency a | None => 0 end
  | SlotMember c => default 0 (uh_conc (sr_up s) !! c)
  end.

(** Counters of upstream cells are counts, limits of members are int64. *)
Definition cells_ok (h : UpHeap) : Prop := forall c v, uh_conc h !! c = Some v -> 0 <= v <= max64.
Definition member_limits_ok (s : Store) : Prop :=
  forall gid g k rt item, sr_groups s !! gid = Some g -> gs_upstreamRoutes g !! k = Some rt ->
    item ∈ members (route_levels rt) -> gu_MaxConcurrency (up_member item) <= max64.

Definition sched_ok (st : SchedState) : Prop :=
  store_ok (sd_store st) /\ cells_ok (sr_up (sd_store st)) /\ member_limits_ok (sd_store st).

#[global] Instance store_slot_count : SlotCount SchedState := {| sc_ok := sched_ok; slots_in st := store_slots (sd_store st) |}.

Lemma cell_range (h : UpHeap) (c : Loc) : cells_ok h -> 0 <= default 0 (uh_conc h !! c) <= max64.
Proof. intros H. destruct (uh_conc h !! c) as [v|] eqn:E; [exact (H c v E)|cbn; unfold_int; lia]. Qed.

Lemma cells_set (h : UpHeap) (c : Loc) (v : Z) : cells_ok h -> 0 <= v <= max64 -> cells_ok (set_conc h c v).
Proof.
  intros H Hv k x Hk. cbn in Hk. destruct (decide (k = c)) as [->|Hne]; [rewrite lookup_insert_eq in Hk; injection Hk as <-; exact Hv|].
  rewrite lookup_insert_ne in Hk by congruence. exact (H k x Hk).
Qed.

Lemma cell_lookup (h : UpHeap) (c k : Loc) (v : Z) : default 0 (uh_conc (set_conc h c v) !! k) =
  if decide (k = c) then v else default 0 (uh_conc h !! k).
Proof.
  cbn. destruct (decide (k = c)) as [->|Hne]; [rewrite lookup_insert_eq; reflexivity|rewrite lookup_insert_ne by congruence; reflexivity].
Qed.

Lemma selectUpstream_took (h h' : UpHeap) (gs gs' : upstreamGroup) (now : Time) (groupID : Z)
    (format model requestedModel : string) (excluded : list Z) (res : SelectionT + SelectError) :
  selectUpstream no_race h gs now groupID format model requestedModel excluded = Some (h', gs', res) ->
  (forall k rt', ug_upstreamRoutes gs' !! k = Some rt' ->
     exists rt, ug_upstreamRoutes gs !! k = Some rt /\ members (route_levels rt') = members (route_levels rt)) /\
  match res with
  | inl sel => exists k rt item, ug_upstreamRoutes gs !! k = Some rt /\ item ∈ members (route_levels rt) /\
      sel = upstream_selection item groupID format (canonicalModelID model) requestedModel /\
      member_ok h now excluded item = true /\ h' = set_conc h (up_concurrency item) (conc_of h item [+] 1)
  | inr _ => h' = h
  end.
Proof.
  unfold selectUpstream. set (k := upstream_route_key _ _ _).
  assert (forall k rt', ug_upstreamRoutes gs !! k = Some rt' ->
    exists rt, ug_upstreamRoutes gs !! k = Some rt /\ members (route_levels rt') = members (route_levels rt)) as Hsame by eauto.
  destruct (ug_upstreamRoutes gs !! k) as [rt|] eqn:Ert; [|intros [= <- <- <-]; auto].
  destruct (ur_seq rt) as [[[|x xs] c]|] eqn:Eseq; [intros [= <- <- <-]; auto| |intros [= <- <- <-]; auto].
  destruct (scan_levels _ _ _) as [[levels r]|] eqn:El; [|discriminate]. pose proof (scan_levels_seq _ _ _ _ _ El) as Hm.
  assert (forall k' rt', <[k := with_levels rt levels]> (ug_upstreamRoutes gs) !! k' = Some rt' ->
    exists rt, ug_upstreamRoutes gs !! k' = Some rt /\ members (route_levels rt') = members (route_levels rt)) as Hins.
  { intros k' rt' H. destruct (decide (k' = k)) as [->|Hne]; [|rewrite lookup_insert_ne in H by congruence; eauto].
    rewrite lookup_insert_eq in H. injection H as <-. exists rt. split; [exact Ert|].
    rewrite with_levels_levels by (exact Hm || rewrite Eseq; reflexivity). unfold members. rewrite Hm. reflexivity. }
  destruct r as [item|]; intros [= <- <- <-]; (split; [exact Hins|]); [|reflexivity].
  destruct (scan_levels_taken _ _ _ _ _ El) as [Hin Hi]. exists k, rt, item. auto.
Qed.

Lemma not_excluded (id : Z) (excluded : list Z) : accountExcluded id excluded = false -> id ∉ excluded.
Proof.
  intros H Hin. apply not_true_iff_false in H. apply H. unfold accountExcluded. apply existsb_exists. exists id.
  rewrite Z.eqb_refl. split; [apply list_elem_of_In, Hin|reflexivity].
Qed.

Lemma limits_group (s : Store) (up : UpHeap) (heap : gmap nat accountSnapshot) (gid : Z) (gs gs' : groupSnapshot) : member_limits_ok s ->
  sr_groups s !! gid = Some gs ->
  (forall k rt', gs_upstreamRoutes gs' !! k = Some rt' ->
     exists rt, gs_upstreamRoutes gs !! k = Some rt /\ members (route_levels rt') = members (route_levels rt)) ->
  member_limits_ok (mkStore heap (sr_next s) up (<[gid := gs']> (sr_groups s)) (sr_byID s) (sr_upstreams s)).
Proof.
  intros H Hg Hr gid2 g k rt item Hg2 Hk Hin. cbn in Hg2. destruct (decide (gid2 = gid)) as [->|Hne].
  - rewrite lookup_insert_eq in Hg2. injection Hg2 as <-. destruct (Hr k rt Hk) as (rt0 & Hk0 & E). rewrite E in Hin. eapply H; eassumption.
  - rewrite lookup_insert_ne in Hg2 by congruence. eapply H; eassumption.
Qed.

(** A selection takes exactly one slot, of a target that was not excluded. *)
Definition one_slot_taken (s s' : Store) (excluded : list Z) (res : SelectionT + SelectError) : Prop :=
  match res with
  | inl sel => sel_released sel = false /\ (sel_TargetID sel ∉ excluded) /\
      exists x, slot_of sel = Some x /\ forall y, store_slots s' y = store_slots s y + one_at x y
  | inr _ => forall y, store_slots s' y = store_slots s y
  end.

Lemma upstream_slots (st : SchedState) (env : PickEnv) (gid : Z) (gs : groupSnapshot) (up : UpHeap) (ug : upstreamGroup)
    (format model : string) (res : SelectionT + SelectError) :
  let s := sd_store st in
  let gs' := mkGroupSnap (gs_accounts gs) (gs_routes gs) (gs_routingMode gs) (gs_allowedModels gs) (gs_upstreams gs)
               (ug_upstreamRoutes ug) (gs_modelAliases gs) in
  let s' := mkStore (sr_heap s) (sr_next s) up (<[gid := gs']> (sr_groups s)) (sr_byID s) (sr_upstreams s) in
  sched_ok st -> store_ok s' -> sr_groups s !! gid = Some gs ->
  select_upstream_group (sr_up s) (upstream_view gs) (pe_now env) gid format model (pe_excluded env) = Some (up, ug, res) ->
  sched_ok (mkSched s' (sd_engine st)) /\ one_slot_taken s s' (pe_excluded env) res.
Proof.
  intros s gs' s' (Hs & Hc & Hl) Hs' Eg Es. subst s. unfold select_upstream_group in Es.
  destruct (selectUpstream_took _ _ _ _ _ _ _ _ _ _ _ Es) as [Hr Hcase].
  assert (member_limits_ok s') as Hl' by (eapply limits_group; [exact Hl|exact Eg|exact Hr]).
  destruct res as [sel|e]; [|subst up; split; [exact (conj Hs' (conj Hc Hl'))|intros [l|c]; reflexivity]].
  destruct Hcase as (k & rt & item & Hk & Hin & -> & Hok & ->). pose proof (Hl gid gs k rt item Eg Hk Hin) as Hmax.
  unfold member_ok in Hok. destruct (_ || _) eqn:Eex; [discriminate|]. apply orb_false_elim in Eex as [_ Eex].
  destruct (up_cooling _ _); [discriminate|]. apply negb_true_iff, Z.leb_gt in Hok.
  pose proof (cell_range _ (up_concurrency item) Hc) as Hr0. fold (conc_of (sr_up (sd_store st)) item) in Hr0.
  assert (conc_of (sr_up (sd_store st)) item < max64) as Hlt
    by (unfold member_limit in Hok; destruct (Z.ltb_spec (gu_MaxConcurrency (up_member item)) 1); unfold_int; lia).
  subst s'. rewrite add64_small in * by (unfold_int; lia).
  split; [split; [exact Hs'|split; [cbn; apply cells_set; [exact Hc|lia]|exact Hl']]|].
  split; [reflexivity|]. split; [apply not_excluded, Eex|]. exists (SlotMember (up_concurrency item)). split; [reflexivity|].
  intros [l|c]; unfold one_at; cbn [store_slots sr_heap sr_up]; [rewrite decide_False by discriminate; lia|].
  rewrite cell_lookup. destruct (decide (c = up_concurrency item)) as [->|Hne].
  - rewrite decide_True by reflexivity. reflexivity.
  - rewrite decide_False by congruence. lia.
Qed.

Lemma account_slots (st : SchedState) (env : PickEnv) (used : Time) (gid : Z) (gs : groupSnapshot) (heap : gmap nat accountSnapshot)
    (ag : accountGroup) (format model : string) (res : SelectionT + SelectError) :
  let s := sd_store st in
  let gs' := mkGroupSnap (gs_accounts gs) (ag_routes ag) (gs_routingMode gs) (gs_allowedModels gs) (gs_upstreams gs)
               (gs_upstreamRoutes gs) (gs_modelAliases gs) in
  let s' := mkStore heap (sr_next s) (sr_up s) (<[gid := gs']> (sr_groups s)) (sr_byID s) (sr_upstreams s) in
  sched_ok st -> store_ok s' -> 1 <= pe_instances env -> sr_groups s !! gid = Some gs ->
  select_account env used (sr_heap s) (account_view gs) gid format model = Some (heap, ag, res) ->
  sched_ok (mkSched s' (sd_engine st)) /\ one_slot_taken s s' (pe_excluded env) res.
Proof.
  intros s gs' s' (Hs & Hc & Hl) Hs' Hn Eg Es. subst s. destruct (so_groups _ Hs gid gs Eg) as (_ & _ & G3 & _).
  assert (member_limits_ok s') as Hl' by (eapply limits_group; [exact Hl|exact Eg|eauto]).
  split; [exact (conj Hs' (conj Hc Hl'))|].
  pose proof (select_account_took _ _ _ _ _ _ _ _ _ _ Es) as Ht. cbv zeta in Ht. cbn [account_view ag_routes] in Ht.
  destruct (gs_routes gs !! route_key _ _ _) as [rt|] eqn:Ert; [|destruct Ht as (-> & -> & _); intros y; reflexivity].
  destruct Ht as [_ Ht]. destruct res as [sel|err]; cbn [took] in Ht; [|subst heap; intros [l|c]; reflexivity].
  destruct Ht as (l & a & Hin & Ha & Hok & -> & ->).
  assert (slots_ok a) as [Ha1 Ha2].
  { destruct (route_key _ _ _) as [f m]. destruct (G3 f m rt Ert) as [Hacc _]. destruct (Hacc l Hin) as (x & Hx & Hxs).
    congruence. }
  destruct (candidate_ok_spec env a Ha1 Hn ltac:(lia) Hok) as (Hex & _). destruct (take_slot_counts used a Ha1) as (Et & _).
  split; [reflexivity|]. split; [exact Hex|]. exists (SlotAccount l). split; [reflexivity|].
  intros [k|c]; unfold one_at, s'; cbn [store_slots sr_heap sr_up]; [|rewrite decide_False by discriminate; lia].
  destruct (decide (k = l)) as [->|Hne].
  - rewrite decide_True by reflexivity. rewrite lookup_insert_eq, Ha, Et. reflexivity.
  - rewrite decide_False by congruence. rewrite lookup_insert_ne by congruence. lia.
Qed.

Lemma select_slots (st : SchedState) (s' : Store) (env : PickEnv) (used : Time) (gid : Z) (format model : string)
    (res : SelectionT + SelectError) : sched_ok st -> 1 <= pe_instances env ->
  SelectExcluding env used (sd_store st) gid format model = Some (s', res) ->
  sched_ok (mkSched s' (sd_engine st)) /\ one_slot_taken (sd_store st) s' (pe_excluded env) res.
Proof.
  intros Hok Hn E. pose proof (select_ok env used _ s' gid format model res (proj1 Hok) Hn E) as Hs'. revert E. unfold SelectExcluding.
  destruct (sr_groups (sd_store st) !! gid) as [gs|] eqn:Eg; [|intros [= <- <-]; split; [exact Hok|intros y; reflexivity]].
  destruct (gs_routingMode gs ==s GroupRoutingModeUpstreams).
  - destruct (select_upstream_group _ _ _ _ _ _ _) as [[[up ug] r]|] eqn:Es; [|discriminate]. intros [= <- <-].
    exact (upstream_slots st env gid gs up ug format model r Hok Hs' Eg Es).
  - destruct (select_account _ _ _ _ _ _ _) as [[[heap ag] r]|] eqn:Es; [|discriminate]. intros [= <- <-].
    exact (account_slots st env used gid gs heap ag format model r Hok Hs' Hn Eg Es).
Qed.

Lemma decrement_range (c : Z) : 0 <= c <= max64 -> decrementSlot c = (if 0 <? c then c - 1 else c) /\ 0 <= decrementSlot c <= max64.
Proof.
  intros H. unfold decrementSlot. destruct (Z.leb_spec c 0), (Z.ltb_spec 0 c); try lia.
  rewrite sub64_small by (unfold_int; lia). lia.
Qed.

(** A release gives exactly the selection's slot back, once. *)
Lemma release_slots (st : SchedState) (sel : SelectionT) (x : Slot) : sched_ok st -> slot_of sel = Some x ->
  let '(s', sel') := release (sd_store st) sel in
  sched_ok (mkSched s' (sd_engine st)) /\ sel_released sel' = true /\ slot_of sel' = Some x /\
  forall y, store_slots s' y = if sel_released sel then store_slots (sd_store st) y
    else if 0 <? store_slots (sd_store st) x then store_slots (sd_store st) y - one_at x y else store_slots (sd_store st) y.
Proof.
  intros (Hs & Hc & Hl) Hx. destruct (release (sd_store st) sel) as [s' sel'] eqn:E.
  pose proof (release_ok _ _ _ _ Hs E) as Hs'. revert E. unfold release, ReleaseSelection, release_account. unfold slot_of in Hx.
  destruct (sel_TargetKind sel) eqn:Ek; destruct (sel_released sel) eqn:Er.
  - intros [= <- <-]. split; [exact (conj Hs' (conj Hc Hl))|]. split; [exact Er|]. unfold slot_of. rewrite Ek. auto.
  - destruct (sel_accountRef sel) as [l|] eqn:El; [|discriminate]. cbn in Hx. injection Hx as <-. intros [= <- <-].
    split; [split; [exact Hs'|split; [exact Hc|exact Hl]]|]. split; [reflexivity|]. unfold slot_of. cbn [mark_released sel_TargetKind sel_accountRef].
    rewrite Ek, El. split; [reflexivity|]. intros [k|c]; unfold one_at; cbn [store_slots sr_heap sr_up];
      [|rewrite decide_False by discriminate; destruct (0 <? _); lia].
    unfold release_slot. destruct (sr_heap (sd_store st) !! l) as [a|] eqn:Ha.
    + destruct (decide (SlotAccount k = SlotAccount l)) as [[= ->]|Hne].
      * rewrite lookup_insert_eq, Ha. cbn [set_concurrency as_concurrency]. pose proof (so_counters _ Hs l a Ha) as Hr.
        destruct (decrement_range (as_concurrency a)) as [-> _]; [lia|]. reflexivity.
      * rewrite lookup_insert_ne by congruence. destruct (0 <? _); lia.
    + reflexivity.
  - intros [= <- <-]. split; [exact (conj Hs' (conj Hc Hl))|]. split; [exact Er|]. unfold slot_of. rewrite Ek. auto.
  - destruct (sel_upstreamRef sel) as [item|] eqn:Ei; [|discriminate]. cbn in Hx. injection Hx as <-. intros [= <- <-].
    pose proof (cell_range _ (up_concurrency item) Hc) as Hr. destruct (decrement_range _ Hr) as [Ed Hd].
    split; [split; [exact Hs'|split; [apply cells_set; [exact Hc|exact Hd]|exact Hl]]|]. split; [reflexivity|]. unfold slot_of.
    cbn [mark_released sel_TargetKind sel_upstreamRef]. rewrite Ek, Ei. split; [reflexivity|].
    intros [k|c]; unfold one_at; cbn [store_slots sr_heap sr_up]; [rewrite decide_False by discriminate; destruct (0 <? _); lia|].
    unfold release_conc. rewrite cell_lookup, Ed. destruct (decide (c = up_concurrency item)) as [->|Hne].
    + rewrite decide_True by reflexivity. destruct (0 <? _); lia.
    + rewrite decide_False by congruence. destruct (0 <? _); lia.
Qed.

(** Reporting a result takes or gives no slot. *)
Lemma mark_slots (st : SchedState) (sel : SelectionT) (now : Time) (kind : Kind) (resetAt : option Time) (http : Z) (msg model : string) :
  sched_ok st -> sched_ok (MarkSelectionResult st sel now kind resetAt http msg model) /\
  forall y, store_slots (sd_store (MarkSelectionResult st sel now kind resetAt http msg model)) y = store_slots (sd_store st) y.
Proof.
  intros (Hs & Hc & Hl). assert (sched_ok st) as Hok by (split; auto). unfold MarkSelectionResult. destruct (sel_TargetKind sel).
  - destruct (sr_byID (sd_store st) !! sel_AccountID sel) as [l|]; [|auto]. destruct (sr_heap (sd_store st) !! l) as [a|] eqn:Ha; [|auto].
    pose proof (markResult_same (NeedsOKEvents (sd_engine st)) now a (sel_GroupID sel) kind resetAt http msg model) as [E1 E2].
    destruct (markResult _ _ _ _ _ _ _ _ _) as [a' ev]. cbn [fst] in E1, E2. cbn [sd_store]. split.
    + split; [exact (update_same_ok _ l a a' Hs Ha (same_static a a' E1) E2)|]. split; assumption.
    + intros [k|c]; cbn; [|reflexivity]. destruct (decide (k = l)) as [->|Hne]; [rewrite lookup_insert_eq, Ha; exact E2|].
      rewrite lookup_insert_ne by congruence. reflexivity.
  - destruct (match sel_upstreamRef sel with Some item => _ | None => _ end) as [item|]; [|auto]. unfold mark_upstream_result.
    destruct (breaker_next _ _ _ _ _); (split; [split; [exact (store_ok_up _ _ Hs)|split; [exact Hc|exact Hl]]|intros [k|c]; reflexivity]).
Qed.

#[global] Instance store_slot_laws : SlotLaws SchedState.
Proof.
  constructor.
  - intros st st' env used gid format model res Hok Hn. cbn [sched_select store_scheduler].
    destruct (SelectExcluding _ _ _ _ _ _) as [[s r]|] eqn:E; [|discriminate]. intros [= <- <-]. exact (select_slots st s env used gid format model r Hok Hn E).
  - intros st sel x Hok Hx. pose proof (release_slots st sel x Hok Hx) as H. cbn [sched_release store_scheduler].
    destruct (release (sd_store st) sel) as [s' sel']. exact H.
  - intros st sel now kind resetAt http msg model Hok. exact (mark_slots st sel now kind resetAt http msg model Hok).
Qed.

(** ** A request, end to end *)

Section Serve.
Context `{L : TextLib} `{B : BodyLib}.
Variable ConvertRequest : string -> ProtocolConvert -> string + string.
Variable env : RunEnv.
Variable q : Request.
(** The parameters of the callers ([Callers]). *)
Variable ca : CallerEnv SchedState.
Variable converts : list ProtocolConvert.

Definition start (st : SchedState) : World SchedState := mkWorld st [] ∅ 0%nat [].

Definition has_caller (conv : ProtocolConvert) : bool := isSome (convCallers conv).

(** [handleFormat] after the body was read. *)
Definition serve_request (st : SchedState) (body : string) : Run (World SchedState) :=
  forward (AT := chat_attempt env q ca) ConvertRequest env q converts has_caller (start st) body.

Hypothesis instances : forall n, 1 <= pe_instances (rv_pick env n).
Hypothesis distinct : NoDup converts.

Lemma store_slots_nonneg (st : SchedState) (x : Slot) : sched_ok st -> 0 <= store_slots (sd_store st) x.
Proof.
  intros (Hs & Hc & _). destruct x as [l|c]; cbn.
  - destruct (sr_heap (sd_store st) !! l) as [a|] eqn:E; [pose proof (so_counters _ Hs l a E)|]; lia.
  - pose proof (cell_range _ c Hc). lia.
Qed.

(** The scheduler panics, on a well-formed state. *)
Definition selection_panics : Prop :=
  exists (st : SchedState) pe used gid format model, sched_ok st /\ SelectExcluding pe used (sd_store st) gid format model = None.

(** A request starts with no selection, no call and nothing closed. *)
Lemma start_free (st : SchedState) : sched_ok st -> free (store_slots (sd_store st)) (start st) /\ quiet (start st).
Proof.
  intros Hok. split; [|split; reflexivity]. split; [exact Hok|]. split; [|reflexivity].
  intros k sel _ Hk. cbn in Hk. rewrite lookup_nil in Hk. discriminate.
Qed.

Lemma serve_spec (st : SchedState) (body : string) : sched_ok st ->
  match serve_request st body with
  | Panic => selection_panics
  | NoFuel => False
  | Ret w' => finished (store_slots (sd_store st))
      (Z.max 0 (rq_attempts q) + Z.of_nat (length (conversionCandidates converts (rq_format q)))) w'
  end.
Proof.
  intros Hok. destruct (start_free st Hok) as [Hf Hq]. unfold serve_request.
  pose proof (forward_total (AT := chat_attempt env q ca) (AL := chat_attempt_laws env q ca) ConvertRequest env q instances
    (store_slots (sd_store st)) (fun y => store_slots_nonneg st y Hok) converts has_caller (start st) body Hf Hq distinct) as H.
  destruct (forward _ _ _ _ _ _ _) as [| |w']; [|exact H|exact H].
  destruct H as (st' & pe & used & gid & format & model & H1 & H2). exists st', pe, used, gid, format, model. split; [exact H1|].
  cbn in H2. destruct (SelectExcluding _ _ _ _ _ _) as [[s r]|]; [discriminate|reflexivity].
Qed.


(** A request never repeats a call: no target is called twice over the same
    protocol, and there are at most as many calls as configured attempts plus
    one per alternate protocol. *)
Theorem request_calls_bounded (st : SchedState) (body : string) (w' : World SchedState) : sched_ok st -> serve_request st body = Ret w' ->
  NoDup (calls (w_trace w')) /\
  Z.of_nat (length (calls (w_trace w'))) <= Z.max 0 (rq_attempts q) + Z.of_nat (length (conversionCandidates converts (rq_format q))).
Proof. intros Hok E. pose proof (serve_spec st body Hok) as H. rewrite E in H. destruct H as (_ & H1 & H2 & _). auto. Qed.

End Serve.

(** ** Examples *)

(** Two accounts; the first is down, the second answers. *)
Definition demo_typed (_ : World SchedState) (sel : SelectionT) (_ : RequestFormat) (_ : string) : TypedReply :=
  if sel_TargetID sel =? 10 then TrError 503 "down" (mkCallErr "503" None)
  else TrAnswer (Some (mkSdkUsage "" 3 4 7 0 0)) "" (inl "ok").
Definition no_stream (_ : World SchedState) (_ : SelectionT) (_ : RequestFormat) (_ : string) : StreamReply := SrError 503 "" (mkCallErr "503" None).
Definition no_raw (_ : World SchedState) (_ : SelectionT) (_ : string) : RawReply := RwError 503 "" (mkCallErr "503" None).
Definition no_images (_ : World SchedState) (_ : SelectionT) (_ : string) : ImageStream := ImageEvents [] "" (Some (503, "", mkCallErr "503" None)).
Definition no_codex (_ : World SchedState) (_ : SelectionT) (_ : string) : CodexStream := CodexPayloads [] "" (Some (503, "", mkCallErr "503" None)) true.
Definition demo_net (typed : World SchedState -> SelectionT -> RequestFormat -> string -> TypedReply) : Network SchedState :=
  mkNetwork SchedState no_stream typed no_raw no_raw no_images no_raw no_codex.
Definition demo_callers (typed : World SchedState -> SelectionT -> RequestFormat -> string -> TypedReply) : CallerEnv SchedState :=
  mkCallerEnv SchedState false None (fun _ _ => None) (fun _ _ => None) (demo_net typed) (fun body _ => inl body) (fun _ _ => false) (fun l => l)
    false (fun _ => false) (fun _ => None) (fun _ => inr "no image") (fun _ => None).
#[local] Instance demo_body : BodyLib := {| gjson_true := fun _ _ => false; gjson_number := fun _ _ => None;
  sjson_string := fun body _ _ => inl body; sjson_true := fun body _ => inl body; unmarshal_params := fun _ _ => inl "gpt" |}.
#[local] Instance demo_text : TextLib :=
  {| ParseTime := fun _ => None; gjson_string := fun _ _ => ""; json_object := fun _ => false |}.
Definition request_env : RunEnv := mkRunEnv (fun _ => demo_pick) (fun n => 1001 + Z.of_nat n) (fun _ => mkCivilTime 0 0 0) (fun _ => false).
Definition demo_request : Request := mkRequest 2 FormatOpenAIChat "gpt" false false 3 None None true.
Definition demo_convert (body : string) (_ : ProtocolConvert) : string + string := inl body.
Definition demo_sched : SchedState := mkSched demo_store (New 8).
Definition demo_serve : Run (World SchedState) :=
  serve_request demo_convert request_env demo_request (demo_callers demo_typed) [ProtocolConvertChatToResp] demo_sched "{}".

Lemma demo_sched_ok : sched_ok demo_sched.
Proof.
  split; [exact demo_store_ok|]. split.
  - intros c v H. replace (uh_conc (sr_up (sd_store demo_sched))) with (∅ : gmap nat Z) in H by (vm_compute; reflexivity).
    rewrite lookup_empty in H. discriminate.
  - assert (map_Forall (fun _ g => size (gs_upstreamRoutes g) = 0%nat) (sr_groups demo_store)) as Hall
      by (apply (bool_decide_unpack (map_Forall (fun _ g => size (gs_upstreamRoutes g) = 0%nat) (sr_groups demo_store))); vm_compute; exact I).
    intros gid g k rt item Hg Hk _. apply Hall, map_size_empty_inv in Hg. rewrite Hg, lookup_empty in Hk. discriminate.
Qed.

Lemma demo_instances (n : nat) : 1 <= pe_instances (rv_pick request_env n).
Proof. cbn. lia. Qed.

Lemma demo_returns : exists w', demo_serve = Ret w' /\ calls (w_trace w') = [(10, None); (11, None)] /\
  map (fun c => match c with Settled _ => None | Answered a => Some a end) (closings (w_trace w')) = [Some (AnsRaw 200 "ok"); None].
Proof.
  assert (match demo_serve with
    | Ret w' => Some (calls (w_trace w'), map (fun c => match c with Settled _ => None | Answered a => Some a end) (closings (w_trace w')))
    | _ => None end = Some ([(10, None); (11, None)], [Some (AnsRaw 200 "ok"); None])) as H by (vm_compute; reflexivity).
  destruct demo_serve as [| |w']; [discriminate|discriminate|]. injection H as H1 H2. exists w'. auto.
Qed.


Lemma request_calls_bounded_witness : exists w', demo_serve = Ret w' /\ calls (w_trace w') = [(10, None); (11, None)] /\
  NoDup (calls (w_trace w')) /\ Z.of_nat (length (calls (w_trace w'))) <= 4.
Proof.
  destruct demo_returns as (w' & E & Hc & _). unfold demo_serve in E.
  destruct (request_calls_bounded demo_convert request_env demo_request (demo_callers demo_typed) [ProtocolConvertChatToResp] demo_instances
    (NoDup_singleton _) demo_sched "{}" w' demo_sched_ok E) as [H1 H2].
  exists w'. split; [exact E|]. split; [exact Hc|]. split; [exact H1|exact H2].
Defined.


(** Every account answers 501. *)
Definition lacking (_ : World SchedState) (_ : SelectionT) (_ : RequestFormat) (_ : string) : TypedReply :=
  TrError 501 "no such endpoint" (mkCallErr "501" None).

(** The calls of a request and the status and error type of its settled rows. *)
Definition summary (o : Run (World SchedState)) : option (list (Z * option ProtocolConvert) * list (Z * ErrorType)) :=
  match o with
  | Ret w => Some (calls (w_trace w), omap (fun c => match c with
      | Settled l => Some (ul_StatusCode (ul_owner l), ul_ErrorType (ul_owner l)) | Answered _ => None end) (closings (w_trace w)))
  | _ => None
  end.

(** A 501 is an upstream failure that moves on to the next account, unless an
    alternate protocol is configured that no account offers: then the request
    ends at the first account and its row says 4xx. *)
Theorem unavailable_alternate_ends_request :
  summary (serve_request demo_convert request_env demo_request (demo_callers lacking) [] demo_sched "{}") =
    Some ([(10, None); (11, None)], []) /\
  summary (serve_request demo_convert request_env demo_request (demo_callers lacking) [ProtocolConvertChatToResp] demo_sched "{}") =
    Some ([(10, None)], [(501, Err4xx)]).
Proof. split; vm_compute; reflexivity. Qed.
