(* ===== verification/StreamMeter.v ===== *)
(** * Metering of relayed streams ([caller_chat.go], [caller_anthropic.go],
    [caller_responses.go])

    What a stream is charged for: the relay ([SseStream]), the reading of frames
    as text ([SseText]), the observers ([Metering]) and the callers ([Callers]) put
    together. *)

From Stdlib Require Import ZArith Lia List Bool String Ascii.
From stdpp Require Import base option list relations strings.
From S2P Require Import Prelude GoString Domain UsageBilling Selection Pipeline UsageExtract Metering Callers.
From S2P Require Import JsonScan JsonText GoJson SseRelay SseStream SseText.
Import ListNotations.
Local Open Scope Z_scope.
Local Open Scope list_scope.

(** ** The reply a relayed stream is *)

(** What the callers make of the relay's return; an error of the relay has no HTTP
    status. *)
Definition relay_reply (env : RelayEnv) (st : State) : option StreamReply :=
  match st_result st with
  | None => None
  | Some ret =>
      Some (SrRelayed (st_seen st) (string_of_list_ascii (w_out (r_w (finish env st))))
              ((fun e => mkRelayErr (String.eqb e Canceled) 0 e) <$> ret) None)
  end.

(** ** What a Responses stream is charged *)

Definition completed_usages (frames : list Event) : list usageTuple :=
  omap (fun ev => if isResponsesCompletedEvent (EventName ev) (ev_Data ev) then responsesStreamUsage (ev_Data ev) else None) frames.
Definition completed_frames (frames : list Event) : list Event :=
  List.filter (fun ev => isResponsesCompletedEvent (EventName ev) (ev_Data ev)) frames.

Definition five (u : usageTuple) : Z * Z * Z * Z * Z := (u_it u, u_ot u, u_tt u, u_cr u, u_cc u).

(** The last completed frame that reports usage gives the counters, the last
    completed frame the images. *)
Lemma responses_observed_last (detect : bool) (frames : list Event) :
  let u := responses_observed detect frames in
  five u = match last (completed_usages frames) with Some t => five t | None => (0, 0, 0, 0, 0) end /\
  u_calls u = (if detect then match last (completed_frames frames) with Some ev => respImageCountCompleted (ev_Data ev) | None => 0 end else 0).
Proof.
  unfold responses_observed, completed_usages, completed_frames. cbv zeta. induction frames as [|ev frames IH] using rev_ind; [destruct detect; split; reflexivity|].
  rewrite fold_left_app, omap_app, List.filter_app. cbn [fold_left omap list_omap List.filter]. unfold responses_frame at 1 3.
  destruct (isResponsesCompletedEvent _ _); [|rewrite !app_nil_r; exact IH]. destruct IH as [I1 I2].
  destruct (responsesStreamUsage (ev_Data ev)) as [t|].
  - rewrite !last_snoc. destruct detect; split; try reflexivity. exact I2.
  - rewrite app_nil_r, last_snoc. destruct detect; (split; [exact I1|]); [reflexivity|exact I2].
Qed.

(** The last positive value of each counter, and their sum. *)
Lemma anthropic_observed_last (frames : list Event) :
  let u := anthropic_observed frames in
  let reports := omap (fun ev => chatStreamUsageEvent (EventName ev) (ev_Data ev)) frames in
  (forall f, f ∈ [u_it; u_ot; u_cr; u_cc] -> f u = last_measured f reports) /\
  u_tt u = addUsageTokens (last_measured u_it reports) (last_measured u_ot reports).
Proof.
  cbv zeta. unfold anthropic_observed. set (reports := omap _ _).
  assert (forall f, f ∈ [u_it; u_ot; u_tt; u_cr; u_cc] -> f (fold_left mergeStreamUsage reports no_usage) = last_measured f reports) as E.
  { intros f Hf. rewrite merged_field by exact Hf. rewrite !elem_of_cons in Hf. unfold last_measured.
    repeat (destruct Hf as [->|Hf]; [reflexivity|]). apply not_elem_of_nil in Hf. contradiction. }
  split; [|unfold set_total; cbn [u_tt]; rewrite !E by (rewrite !elem_of_cons; auto 10); reflexivity].
  intros f Hf. rewrite <- E by (revert Hf; rewrite !elem_of_cons; tauto). rewrite !elem_of_cons in Hf.
  repeat (destruct Hf as [->|Hf]; [reflexivity|]). apply not_elem_of_nil in Hf. contradiction.
Qed.

(** ** Metering is a function of the text *)

Definition complete (e : option string) : bool := match e with None => true | Some _ => false end.

Lemma seen_prefix (env : RelayEnv) (cfg : Config) (t : bytes) (e : option string) (st : State) : Forall readable (split_lines t) ->
  reachable env cfg (mkSource t e) st ->
  exists k, st_seen st = take k (sse_events (complete e) t) /\ (st_result st = Some None -> st_seen st = sse_events (complete e) t).
Proof.
  intros Ht H. apply relay_reachable_ok in H. rewrite (events_text t e Ht) in H. change (match e with None => true | Some _ => false end) with (complete e) in H.
  pose proof (run_seen _ _ _ _ H) as [rest E]. exists (List.length (st_seen st)). rewrite E, take_app_length. split; [reflexivity|].
  intros Hr. rewrite <- E. destruct H as [Hx|_ _ Hs _|x Hx|x ev Hx]; congruence.
Qed.

(** What a prefix of the frames of a text comes to, for each caller: per counter a
    chat or Messages stream is charged the last positive value the frames report
    (a missing chat total and every Messages total is the sum of input and output);
    a Responses stream the counters of its last completed frame with usage, and the
    images of its last completed frame if they are counted. *)
Definition charged_for (detect : bool) (seen frames : list Event) : Prop :=
  let chat := chat_observed seen in
  let messages := anthropic_observed seen in
  let responses := responses_observed detect seen in
  let chat_reports := omap chat_frame frames in
  let reports := omap (fun ev => chatStreamUsageEvent (EventName ev) (ev_Data ev)) frames in
  (forall f, f ∈ [u_it; u_ot; u_cr; u_cc] -> f chat = last_measured f chat_reports) /\
  u_tt chat = (let t := last_measured u_tt chat_reports in
               if t <=? 0 then addUsageTokens (last_measured u_it chat_reports) (last_measured u_ot chat_reports) else t) /\
  (forall f, f ∈ [u_it; u_ot; u_cr; u_cc] -> f messages = last_measured f reports) /\
  u_tt messages = addUsageTokens (last_measured u_it reports) (last_measured u_ot reports) /\
  five responses = match last (completed_usages frames) with Some t => five t | None => (0, 0, 0, 0, 0) end /\
  u_calls responses = (if detect then match last (completed_frames frames) with Some ev => respImageCountCompleted (ev_Data ev) | None => 0 end else 0).

Lemma charged_self (detect : bool) (frames : list Event) : charged_for detect frames frames.
Proof.
  unfold charged_for. cbv zeta. destruct (stream_usage_measured (omap chat_frame frames)) as (H1 & H2 & H3 & H4 & H5).
  split; [|split; [exact H5|]].
  - intros f Hf. unfold chat_observed. rewrite !elem_of_cons in Hf. destruct Hf as [->|[->|[->|[->|Hf]]]]; [exact H1|exact H2|exact H3|exact H4|].
    apply not_elem_of_nil in Hf. contradiction.
  - destruct (anthropic_observed_last frames) as [A1 A2]. destruct (responses_observed_last detect frames) as [R1 R2]. auto.
Qed.


Definition chat_text : bytes :=
  line "data: {}" ++ [nl] ++ (bs "data: " ++ jtext "{'usage':{'prompt_tokens':9,'completion_tokens':2}}" ++ [nl; nl]) ++
  (bs "data: " ++ jtext "{'usage':{'prompt_tokens':9,'completion_tokens':7}}" ++ [nl; nl]) ++ line "data: [DONE]" ++ [nl].

Lemma chat_run : reachable demo_env demo_config (mkSource chat_text None) (turns demo_env demo_config 9 (start (mkSource chat_text None))).
Proof.
  apply (rtc_nsteps_2 9), turns_steps. intros k Hk. do 9 (destruct k as [|k]; [vm_compute; reflexivity|]). lia.
Qed.


