(* ===== verification/Admission.v ===== *)
(** * Admission and reading of a request ([internal/proxy/auth.go], [pipeline.go],
    [caller.go])

    The key of a request is looked up in the authentication snapshot, then quota,
    balance, concurrency and rate are checked in this order ([guardPipeline]); the
    body of an admitted request is read and its model, stream flag and tier
    extracted ([read_request]); the request is forwarded, and the slots of the gate
    are given back on every path ([handleFormat]). *)

From Stdlib Require Import ZArith Lia List Bool String Ascii Permutation.
From stdpp Require Import base option list gmap strings.
From S2P Require Import Prelude GoString Domain Cost Balances UsageBilling SchedTypes Selection Snapshots Scheduler Pipeline PipelineInv Callers Forwarding.
From S2P Require Import JsonScan JsonText GoJson Gate.
Import ListNotations.
Local Open Scope string_scope.
Local Open Scope Z_scope.
Local Open Scope list_scope.

(** ** The key of a request *)

(** [strings.Fields]. *)
Fixpoint fields_from (s : string) (cur : string) : list string :=
  match s with
  | EmptyString => if cur ==s "" then [] else [cur]
  | String c s => if is_space c then (if cur ==s "" then [] else [cur]) ++ fields_from s "" else fields_from s (cur +:+ String c EmptyString)%stdpp
  end.
Definition Fields (s : string) : list string := fields_from s "".

Definition EqualFold (s t : string) : bool := ToLower s ==s ToLower t.

Definition gatewayKeyFromRequest (h : Header) : string :=
  let bearer :=
    match Fields (TrimSpace (Get h "Authorization")) with
    | [scheme; key] => if EqualFold scheme "Bearer" then TrimSpace key else ""
    | _ => ""
    end in
  if bearer ==s "" then TrimSpace (Get h "X-Api-Key") else bearer.

(** ** The authentication snapshot *)

Record UserSnapshot := mkUserSnapshot { us_Status : string; us_Role : string; us_TokenVersion : Z }.

Record Auth := mkAuth { au_keys : gmap string KeyMeta; au_states : gmap Z UserSnapshot; au_gate : Gate }.

Definition NewAuth : Auth := mkAuth ∅ ∅ (mkGate ∅ ∅ ∅ None None).

Definition set_gate (a : Auth) (g : Gate) : Auth := mkAuth (au_keys a) (au_states a) g.

Section Snapshot.
(** The order in which the map of keys is ranged over. *)
Variable range : gmap string KeyMeta -> list KeyMeta.

(** [Reload]: both queries, or nothing changes. *)
Definition auth_Reload (keys : option (gmap string KeyMeta)) (users : option (gmap Z UserSnapshot)) (a : Auth) : Auth * bool :=
  match keys, users with
  | Some m, Some u => (mkAuth m u (reload (range m) (au_gate a)), true)
  | _, _ => (a, false)
  end.

Definition auth_SetInstancesProvider (n : option Z) (a : Auth) : Auth :=
  let g := au_gate a in
  set_gate a (reload (range (au_keys a)) (mkGate (g_users g) (g_keys g) (g_quotas g) (g_cluster g) n)).
End Snapshot.

Definition auth_Upsert (raw : string) (meta : KeyMeta) (a : Auth) : Auth :=
  mkAuth (<[raw := meta]> (au_keys a)) (au_states a) (upsert meta (au_gate a)).

Definition auth_Delete (raw : string) (a : Auth) : Auth :=
  mkAuth (delete raw (au_keys a)) (au_states a)
    (match au_keys a !! raw with Some meta => delete_key (km_KeyID meta) (au_gate a) | None => au_gate a end).

Definition UpsertUser (userID : Z) (u : UserSnapshot) (a : Auth) : Auth := mkAuth (au_keys a) (<[userID := u]> (au_states a)) (au_gate a).
Definition RemoveUser (userID : Z) (a : Auth) : Auth := mkAuth (au_keys a) (delete userID (au_states a)) (au_gate a).
Definition GetUserSnapshot (userID : Z) (a : Auth) : option UserSnapshot := au_states a !! userID.

Definition Authenticate (h : Header) (a : Auth) : option KeyMeta :=
  let raw := gatewayKeyFromRequest h in
  if raw ==s "" then None
  else
    match au_keys a !! raw with
    | None => None
    | Some meta => if negb (km_KeyStatus meta ==s KeyStatusActive) || negb (km_UserStatus meta ==s UserStatusActive) then None else Some meta
    end.

(** ** Admission *)

Record ProxyCfg := mkProxyCfg {
  pc_BillingCapture : bool; pc_UsageCapture : bool; pc_rpm : Z; pc_MaxBodySize : Z; pc_FailoverAttempts : Z
}.

Record Proxy := mkProxy { px_auth : Auth; px_win : gmap Z windowState; px_instances : option Z; px_inflight : Z }.

Definition set_auth_gate (p : Proxy) (g : Gate) : Proxy := mkProxy (set_gate (px_auth p) g) (px_win p) (px_instances p) (px_inflight p).
Definition add_inflight (p : Proxy) (d : Z) : Proxy := mkProxy (px_auth p) (px_win p) (px_instances p) (px_inflight p [+] d).

(** The clocks and the database read of the checks. *)
Record GuardEnv := mkGuardEnv { ge_db : QuotaRead; ge_quotaAt : Time; ge_acquireAt : Time; ge_limitAt : Time }.

Record formatError := mkFormatError { fe_status : Z; fe_msg : string }.
Definition errInvalidKey := mkFormatError 401 "invalid gateway key".
Definition errConcurrency := mkFormatError 429 "concurrency limit exceeded".
Definition errQuotaExhausted := mkFormatError 429 "key quota exhausted".
Definition errRateLimit := mkFormatError 429 "group rate limited".
Definition errBody := mkFormatError 413 "request body too large".
Definition errInsufficientBalance := mkFormatError 402 "insufficient balance".
Definition errBillingUnavailable := mkFormatError 503 "billing temporarily unavailable".
Definition errServiceTierRejected := mkFormatError 400 "service_tier rejected by gateway policy".

Definition writeErr (e : formatError) : Ev := EvAnswer None (AnsLocal (fe_status e) (fe_msg e)).

Definition ErrAuth : ErrorType := "auth".

Section Guard.
Variable cfg : ProxyCfg.
Variable bill : option BillingHooks.
Variable format : RequestFormat.

(** The row of a refused request; nobody is its owner before authentication. *)
Definition refused_row (owner : option KeyMeta) (model : string) (rm : reqMeta) (status : Z) (et : ErrorType) : UsageLog :=
  logWithCtx (Some rm) (buildLog (match owner with Some m => km_GroupID m | None => 0 end) 0 model "" format status et no_usage).

Definition record_refused (owner : option KeyMeta) (model : string) (rm : reqMeta) (e : formatError) (et : ErrorType) : list Ev :=
  if pc_UsageCapture cfg then [EvRejected (refused_row owner model rm (fe_status e) et) (TruncateErrMsg (fe_msg e))] else [].

Definition meta_of (m : option KeyMeta) : reqMeta :=
  mkReqMeta (match m with Some m => km_UserID m | None => 0 end) (match m with Some m => km_KeyID m | None => 0 end)
    TierAuto false 0 (pc_BillingCapture cfg).

Definition refuse (p : Proxy) (owner : option KeyMeta) (e : formatError) (et : ErrorType) : Proxy * list Ev * option (reqMeta * KeyMeta * Z) :=
  (add_inflight p (-1), writeErr e :: record_refused owner "" (meta_of owner) e et, None).

(** The balance check; [None] is a pass. *)
Definition balance_refusal (meta : KeyMeta) (precheck : bool) : option formatError :=
  if pc_BillingCapture cfg then
    match bill with
    | Some (mkHooks (Some _) (Some b)) =>
        if precheck then
          let '(bal, ok) := BalanceOf b (km_UserID meta) in
          if (negb ok || (bal <? 0)) && negb (EffectiveMultiplier b (km_UserID meta) (km_GroupID meta) =? 0)
          then Some errInsufficientBalance else None
        else None
    | _ => Some errBillingUnavailable
    end
  else None.

Definition guardPipeline (env : GuardEnv) (h : Header) (precheckBalance : bool) (p : Proxy) : Proxy * list Ev * option (reqMeta * KeyMeta * Z) :=
  let p := add_inflight p 1 in
  match Authenticate h (px_auth p) with
  | None => refuse p None errInvalidKey ErrAuth
  | Some meta =>
      let '(g, exhausted) := quotaExhausted (ge_quotaAt env) (ge_db env) meta (au_gate (px_auth p)) in
      let p := set_auth_gate p g in
      if exhausted then refuse p (Some meta) errQuotaExhausted Err429
      else
        match balance_refusal meta precheckBalance with
        | Some e => refuse p (Some meta) e ErrBilling
        | None =>
            let '(g, (level, ok)) := acquire (ge_acquireAt env) meta (au_gate (px_auth p)) in
            let p := set_auth_gate p g in
            if negb ok then refuse p (Some meta) errConcurrency Err429
            else
              let '(win, allowed) := Allow (pc_rpm cfg) (px_instances p) (km_GroupID meta) (ge_limitAt env) (px_win p) in
              let p := mkProxy (px_auth p) win (px_instances p) (px_inflight p) in
              if negb allowed then
                refuse (set_auth_gate p (release meta level (au_gate (px_auth p)))) (Some meta) errRateLimit Err429
              else (p, [], Some (meta_of (Some meta), meta, level))
        end
  end.
End Guard.

(** ** Reading *)

Inductive TierPolicyMode := TierPolicyPassthrough | TierPolicyStrip | TierPolicyReject.

(** The request as it arrives: its headers, its body as far as it could be read,
    and the model of a multipart form ([mime/multipart]). *)
Record HttpRequest := mkHttpRequest { hr_header : Header; hr_body : bytes; hr_readError : bool; hr_multipart : option string }.

(** Only image requests may be forms. *)
Definition form_of (format : RequestFormat) (r : HttpRequest) : option string := if format ==s FormatOpenAIImages then hr_multipart r else None.

(** What the body says. *)
Record ReadRequest := mkRead { rr_meta : reqMeta; rr_model : string; rr_stream : bool; rr_body : bytes }.

Definition invalid_body (why : string) : Ev := EvAnswer None (AnsLocal 400 ("invalid request body: " +:+ why)%stdpp).


Section Read.
Variable cfg : ProxyCfg.
(** [p.bill != nil], and its policy for service tiers. *)
Variable billing : bool.
Variable policy : option (Tier -> TierPolicyMode).
(** [stripServiceTier], through a third-party library. *)
Variable stripServiceTier : bytes -> bytes + string.
Variable format : RequestFormat.

Definition set_estimate (rm : reqMeta) (n : Z) : reqMeta :=
  mkReqMeta (rm_UserID rm) (rm_KeyID rm) (rm_tier rm) (rm_hasTier rm) n (rm_billingEnabled rm).
Definition set_rm_tier (rm : reqMeta) (t : Tier) : reqMeta :=
  mkReqMeta (rm_UserID rm) (rm_KeyID rm) t true (rm_estimatedInputTokens rm) (rm_billingEnabled rm).

(** [stream]: absent, null and false are no stream; anything but a boolean is an
    error. *)
Definition stream_flag (raw : option bytes) : option bool :=
  match raw with
  | None => Some false
  | Some r => if beq r (bs "false") || beq r (bs "null") then Some false else if beq r (bs "true") then Some true else None
  end.

Definition special_tier (t : Tier) : bool := match t with TierPriority | TierFlex | TierFast => true | TierAuto => false end.

(** The tier's policy: pass, strip or refuse. *)
Definition apply_tier (meta : KeyMeta) (rm : reqMeta) (model : string) (stream : bool) (tier : Tier) (body : bytes) : ReadRequest + list Ev :=
  if negb billing then inl (mkRead rm model stream body)
  else
    let rm := set_rm_tier rm tier in
    match (if special_tier tier then policy else None) with
    | None => inl (mkRead rm model stream body)
    | Some mode =>
        match mode tier with
        | TierPolicyPassthrough => inl (mkRead rm model stream body)
        | TierPolicyStrip =>
            match stripServiceTier body with
            | inl body => inl (mkRead rm model stream body)
            | inr e => inr [invalid_body e]
            end
        | TierPolicyReject => inr (writeErr errServiceTierRejected :: record_refused cfg format (Some meta) model rm errServiceTierRejected ErrBilling)
        end
    end.

Definition read_json (meta : KeyMeta) (rm : reqMeta) (body : bytes) : ReadRequest + list Ev :=
  if negb (Valid body) then inr [invalid_body "invalid JSON"]
  else
    match (scanKeys body [bs "stream"; bs "model"; bs "service_tier"]).1 with
    | [streamRaw; modelRaw; tierRaw] =>
        match stream_flag streamRaw with
        | None => inr [invalid_body "stream must be a boolean"]
        | Some stream =>
            match parseStringValue modelRaw with
            | None => inr [invalid_body "model must be a string"]
            | Some model =>
                match parseStringValue tierRaw with
                | None => inr [invalid_body "service_tier must be a string"]
                | Some tier => apply_tier meta rm (str model) stream (NormalizeTier (str tier)) body
                end
            end
        end
    | _ => inr []
    end.

Definition estimated (rm : reqMeta) (body : bytes) : reqMeta :=
  if rm_billingEnabled rm && negb (format ==s FormatOpenAIImages) && negb (format ==s FormatOpenAISearch)
  then set_estimate rm (estimateRequestTokens (Z.of_nat (String.length (TrimSpace (str body))))) else rm.

Definition read_request (meta : KeyMeta) (rm : reqMeta) (r : HttpRequest) : ReadRequest + list Ev :=
  if hr_readError r || (pc_MaxBodySize cfg <? Z.of_nat (List.length (hr_body r))) then inr [writeErr errBody]
  else
    let rm := estimated rm (hr_body r) in
    match form_of format r with
    | Some model => inl (mkRead rm model false (hr_body r))
    | None => read_json meta rm (hr_body r)
    end.
End Read.

(** ** The handler *)

Section Handler.
Context `{L : TextLib} `{B : BodyLib}.
Variable cfg : ProxyCfg.
Variable bill : option BillingHooks.
Variable policy : option (Tier -> TierPolicyMode).
Variable stripServiceTier : bytes -> bytes + string.
(** [KeyMeta.ProtocolConverts]. *)
Variable converts_of : KeyMeta -> list ProtocolConvert.
(** The parameters of the forwarding part. *)
Variable ConvertRequest : string -> ProtocolConvert -> string + string.
Variable run_env : RunEnv.
Variable ca : Request -> CallerEnv SchedState.

Definition request_of (format : RequestFormat) (meta : KeyMeta) (rr : ReadRequest) : Request :=
  mkRequest (km_GroupID meta) format (rr_model rr) false true (pc_FailoverAttempts cfg) (Some (rr_meta rr)) bill (pc_UsageCapture cfg).

(** The two deferred calls. *)
Definition leave (p : Proxy) (meta : KeyMeta) (level : Z) : Proxy :=
  add_inflight (set_auth_gate p (release meta level (au_gate (px_auth p)))) (-1).

(** The states after a request and what it left behind; [None] in the second
    place when the scheduler panicked. *)
Definition handleFormat (env : GuardEnv) (format : RequestFormat) (r : HttpRequest) (p : Proxy) (st : SchedState) : Proxy * option SchedState * list Ev :=
  let '(p, evs, admitted) := guardPipeline cfg bill format env (hr_header r) true p in
  match admitted with
  | None => (p, Some st, evs)
  | Some (rm, meta, level) =>
      match read_request cfg (match bill with Some _ => true | None => false end) policy stripServiceTier format meta rm r with
      | inr answer => (leave p meta level, Some st, evs ++ answer)
      | inl rr =>
          let q := request_of format meta rr in
          match serve_request ConvertRequest run_env q (for_request (ca q) (rr_stream rr) (form_of format r)) (converts_of meta) st (str (rr_body rr)) with
          | Ret w => (leave p meta level, Some (w_sched w), evs ++ w_trace w)
          | _ => (leave p meta level, None, evs)
          end
      end
  end.
End Handler.

(** ** Admission: lemmas *)

(** The part of the gate that counts requests. *)
Definition same_counts (p p' : Proxy) : Prop :=
  g_users (au_gate (px_auth p')) = g_users (au_gate (px_auth p)) /\ g_keys (au_gate (px_auth p')) = g_keys (au_gate (px_auth p)) /\
  px_inflight p' = px_inflight p.

Lemma quota_counts (now : Time) (db : QuotaRead) (meta : KeyMeta) (g g' : Gate) (b : bool) : quotaExhausted now db meta g = (g', b) ->
  g_users g' = g_users g /\ g_keys g' = g_keys g /\ g_cluster g' = g_cluster g /\ g_instances g' = g_instances g.
Proof.
  unfold quotaExhausted. destruct (negb _); [intros [= <- <-]; auto|]. destruct (_ || _); [intros [= <- <-]; auto|].
  destruct (g_quotas g !! km_KeyID meta) as [q|]; [|intros [= <- <-]; auto]. destruct (exhausted q); [intros [= <- <-]; auto|].
  destruct (_ <? _); [intros [= <- <-]; auto|]. destruct (reclaim _ _ _ _ _) as [q' ok]. intros [= <- <-]. auto.
Qed.

(** The working range of the counters. *)
Record proxy_ok (p : Proxy) : Prop := mkProxyOk {
  po_users : counters_ok (g_users (au_gate (px_auth p)));
  po_keys : counters_ok (g_keys (au_gate (px_auth p)));
  po_view : view_ok (g_cluster (au_gate (px_auth p)));
  po_limits : map_Forall (fun _ m => limits_ok m) (au_keys (px_auth p));
  po_inflight : 0 <= px_inflight p < max64
}.

Lemma inflight_back (n : Z) : 0 <= n < max64 -> n [+] 1 [+] (-1) = n.
Proof. intros H. rewrite (add64_small n 1) by (unfold_int; lia). rewrite add64_small by (unfold_int; lia). lia. Qed.

Lemma Authenticate_known (h : Header) (a : Auth) (meta : KeyMeta) : Authenticate h a = Some meta ->
  au_keys a !! gatewayKeyFromRequest h = Some meta /\ gatewayKeyFromRequest h <> "" /\
  km_KeyStatus meta = KeyStatusActive /\ km_UserStatus meta = UserStatusActive.
Proof.
  unfold Authenticate. destruct (String.eqb_spec (gatewayKeyFromRequest h) ""); [discriminate|]. destruct (au_keys a !! _) as [m|]; [|discriminate].
  destruct (String.eqb_spec (km_KeyStatus m) KeyStatusActive); [|discriminate]. destruct (String.eqb_spec (km_UserStatus m) UserStatusActive); [|discriminate].
  intros [= <-]. auto.
Qed.

(** An admitted request counts once: its user, its key if that is limited, and
    the requests in flight. *)
Definition counts_once (meta : KeyMeta) (p p' : Proxy) : Prop :=
  g_users (au_gate (px_auth p')) = alter (fun c => c + 1) (km_UserID meta) (g_users (au_gate (px_auth p))) /\
  g_keys (au_gate (px_auth p')) =
    (if 0 <? km_KeyMaxConc meta then alter (fun c => c + 1) (km_KeyID meta) (g_keys (au_gate (px_auth p))) else g_keys (au_gate (px_auth p))) /\
  px_inflight p' = px_inflight p + 1.

Lemma alter_some (m : gmap Z Z) (k c : Z) : m !! k = Some c -> alter (fun c => c + 1) k m = <[k := c + 1]> m.
Proof.
  intros H. apply map_eq. intros i. destruct (decide (i = k)) as [->|Hne].
  - rewrite lookup_alter_eq, lookup_insert_eq, H. reflexivity.
  - rewrite lookup_alter_ne, lookup_insert_ne by congruence. reflexivity.
Qed.

Lemma alter_none (m : gmap Z Z) (k : Z) : m !! k = None -> alter (fun c => c + 1) k m = m.
Proof. intros H. apply alter_id. congruence. Qed.

Lemma acquire_counts (now : Time) (meta : KeyMeta) (g g' : Gate) (level : Z) : counters_ok (g_users g) -> counters_ok (g_keys g) ->
  limits_ok meta -> acquire now meta g = (g', (level, true)) ->
  g_users g' = alter (fun c => c + 1) (km_UserID meta) (g_users g) /\
  g_keys g' = (if 0 <? km_KeyMaxConc meta then alter (fun c => c + 1) (km_KeyID meta) (g_keys g) else g_keys g).
Proof.
  intros Hu Hk [L1 L2]. unfold acquire. cbv zeta. pose proof (acquire_user_spec now meta g Hu) as U.
  destruct (acquire_user now meta g) as [[g1 user] ok]. destruct ok; cbn [negb]; [|discriminate]. destruct U as [_ U]. specialize (U eq_refl).
  assert (g_users g1 = alter (fun c => c + 1) (km_UserID meta) (g_users g) /\ g_keys g1 = g_keys g) as [E1 E2].
  { destruct U as [(_ & -> & N)|(_ & c & Ec & -> & _)]; [rewrite alter_none by exact N; auto|]. split; [symmetry; exact (alter_some _ _ _ Ec)|reflexivity]. }
  destruct (Z.gtb_spec (km_KeyMaxConc meta) 0) as [Hp|Hp].
  2: { replace (0 <? km_KeyMaxConc meta) with false by (symmetry; apply Z.ltb_ge; lia). intros [= <- _]. auto. }
  replace (0 <? km_KeyMaxConc meta) with true by (symmetry; apply Z.ltb_lt; lia). rewrite E2.
  destruct (g_keys g !! km_KeyID meta) as [c|] eqn:Ec; [|intros [= <- _]; rewrite (alter_none (g_keys g)) by exact Ec; auto].
  destruct (take_key now meta g c) as [c'|] eqn:Et; [|discriminate]. pose proof (counters_range _ _ _ Hk Ec).
  apply take_key_spec in Et as [-> _]; [|lia..]. intros [= <- _]. split; [exact E1|]. symmetry. exact (alter_some _ _ _ Ec).
Qed.

Section GuardSpec.
Variable cfg : ProxyCfg.
Variable bill : option BillingHooks.
Variable format : RequestFormat.

(** A refusal: one answer, one row when rows are captured. *)
Definition refusal_events (evs : list Ev) : Prop :=
  exists e owner et, evs = writeErr e :: record_refused cfg format owner "" (meta_of cfg owner) e et.

(** The checks of an admission, in order. *)
Definition passes (env : GuardEnv) (h : Header) (precheck : bool) (p : Proxy) (meta : KeyMeta) : Prop :=
  let g := au_gate (px_auth p) in
  let g1 := (quotaExhausted (ge_quotaAt env) (ge_db env) meta g).1 in
  Authenticate h (px_auth p) = Some meta /\ (quotaExhausted (ge_quotaAt env) (ge_db env) meta g).2 = false /\
  balance_refusal cfg bill meta precheck = None /\ (acquire (ge_acquireAt env) meta g1).2.2 = true /\
  (Allow (pc_rpm cfg) (px_instances p) (km_GroupID meta) (ge_limitAt env) (px_win p)).2 = true.

Lemma refuse_counts (p p' p0 : Proxy) (owner : option KeyMeta) (e : formatError) (et : ErrorType) (evs : list Ev) adm :
  refuse cfg format p owner e et = (p', evs, adm) -> px_inflight p = px_inflight p0 [+] 1 -> 0 <= px_inflight p0 < max64 ->
  g_users (au_gate (px_auth p)) = g_users (au_gate (px_auth p0)) -> g_keys (au_gate (px_auth p)) = g_keys (au_gate (px_auth p0)) ->
  adm = None /\ same_counts p0 p' /\ refusal_events evs.
Proof.
  unfold refuse. intros [= <- <- <-] Hi Hr Hu Hk. split; [reflexivity|]. split; [|eexists _, _, _; reflexivity].
  split; [exact Hu|]. split; [exact Hk|]. cbn. rewrite Hi. apply inflight_back, Hr.
Qed.

Lemma guard_spec (env : GuardEnv) (h : Header) (precheck : bool) (p : Proxy) : proxy_ok p ->
  let '(p', evs, adm) := guardPipeline cfg bill format env h precheck p in
  match adm with
  | None => same_counts p p' /\ refusal_events evs /\ forall meta, ~ passes env h precheck p meta
  | Some (rm, meta, level) => evs = [] /\ passes env h precheck p meta /\ rm = meta_of cfg (Some meta) /\
      counts_once meta p p' /\ same_counts p (leave p' meta level) /\
      (forall c, g_users (au_gate (px_auth p)) !! km_UserID meta = Some c -> 0 < km_UserMaxConc meta -> c + 1 <= km_UserMaxConc meta) /\
      (0 < km_KeyMaxConc meta -> forall c, g_keys (au_gate (px_auth p')) !! km_KeyID meta = Some c -> c <= km_KeyMaxConc meta)
  end.
Proof.
  intros [Hu Hk Hv Hl Hi]. unfold guardPipeline. change (px_auth (add_inflight p 1)) with (px_auth p).
  destruct (Authenticate h (px_auth p)) as [meta|] eqn:Ea.
  2: { destruct (refuse cfg format _ _ _ _) as [[p' evs] adm] eqn:E. eapply refuse_counts in E as (-> & Hs & He); try reflexivity; [|exact Hi].
       split; [exact Hs|]. split; [exact He|]. intros meta (Hx & _). congruence. }
  assert (forall m, passes env h precheck p m -> m = meta) as Honly by (intros m (Hm & _); congruence).
  assert (limits_ok meta) as Hlim by (apply Authenticate_known in Ea as (Ek & _); exact (map_Forall_lookup_1 _ _ _ _ Hl Ek)).
  destruct (quotaExhausted (ge_quotaAt env) (ge_db env) meta (au_gate (px_auth p))) as [g1 ex] eqn:Eq.
  pose proof (quota_counts _ _ _ _ _ _ Eq) as (Gu & Gk & Gc & _). destruct ex.
  { destruct (refuse cfg format _ _ _ _) as [[p' evs] adm] eqn:E. eapply refuse_counts in E as (-> & Hs & He); try reflexivity; [|exact Hi|exact Gu|exact Gk].
    split; [exact Hs|]. split; [exact He|]. intros m Hm. pose proof (Honly m Hm) as ->. destruct Hm as (_ & Hx & _). rewrite Eq in Hx. discriminate. }
  destruct (balance_refusal cfg bill meta precheck) as [e|] eqn:Eb.
  { destruct (refuse cfg format _ _ _ _) as [[p' evs] adm] eqn:E. eapply refuse_counts in E as (-> & Hs & He); try reflexivity; [|exact Hi|exact Gu|exact Gk].
    split; [exact Hs|]. split; [exact He|]. intros m Hm. pose proof (Honly m Hm) as ->. destruct Hm as (_ & _ & Hx & _). congruence. }
  cbn [set_auth_gate set_gate px_auth au_gate px_instances px_win px_inflight add_inflight].
  pose proof (acquire_spec (ge_acquireAt env) meta g1 ltac:(rewrite Gu; exact Hu) ltac:(rewrite Gk; exact Hk) ltac:(rewrite Gc; exact Hv) Hlim) as Hac.
  destruct (acquire (ge_acquireAt env) meta g1) as [g2 [level ok]] eqn:Eac. destruct Hac as [Hno Hyes]. destruct ok; cbn [negb].
  2: { destruct (Hno eq_refl) as [-> _]. destruct (refuse cfg format _ _ _ _) as [[p' evs] adm] eqn:E.
       eapply refuse_counts in E as (-> & Hs & He); try reflexivity; [|exact Hi|exact Gu|exact Gk].
       split; [exact Hs|]. split; [exact He|]. intros m Hm. pose proof (Honly m Hm) as ->. destruct Hm as (_ & _ & _ & Hx & _). rewrite Eq in Hx. cbn in Hx. rewrite Eac in Hx. discriminate. }
  destruct (Hyes eq_refl) as (Hub & Hrel & Hkb). destruct (Allow _ _ _ _ _) as [win allowed] eqn:Eal. destruct allowed; cbn [negb].
  2: { destruct (refuse cfg format _ _ _ _) as [[p' evs] adm] eqn:E.
       eapply refuse_counts in E as (-> & Hs & He); try reflexivity; [|exact Hi|cbn; rewrite Hrel; exact Gu|cbn; rewrite Hrel; exact Gk].
       split; [exact Hs|]. split; [exact He|]. intros m Hm. pose proof (Honly m Hm) as ->. destruct Hm as (_ & _ & _ & _ & Hx). rewrite Eal in Hx. discriminate. }
  split; [reflexivity|]. split; [unfold passes; rewrite Eq; cbn; rewrite Eac, Eal; auto|]. split; [reflexivity|]. split; [|split].
  - destruct (acquire_counts _ _ _ _ _ ltac:(rewrite Gu; exact Hu) ltac:(rewrite Gk; exact Hk) Hlim Eac) as [C1 C2]. rewrite Gu in C1. rewrite Gk in C2.
    split; [exact C1|]. split; [exact C2|]. cbn. apply add64_small. unfold_int; lia.
  - unfold leave, same_counts. cbn. rewrite Hrel. split; [exact Gu|]. split; [exact Gk|]. apply inflight_back, Hi.
  - split; [|exact Hkb]. intros c Hc. apply Hub. rewrite Gu. exact Hc.
Qed.
End GuardSpec.

(** ** Reading: lemmas *)

Lemma refused_closings (cfg : ProxyCfg) (format : RequestFormat) (owner : option KeyMeta) (model : string) (rm : reqMeta) (e e' : formatError) (et : ErrorType) :
  closings (writeErr e :: record_refused cfg format owner model rm e' et) = [Answered (AnsLocal (fe_status e) (fe_msg e))].
Proof. unfold record_refused. destruct (pc_UsageCapture cfg); reflexivity. Qed.

Lemma ended_one_answer (evs : list Ev) (a : Answer) : closings evs = [Answered a] -> ended evs.
Proof. intros E. unfold ended. rewrite E. split; [exact I|]. left. exists a. left. Qed.

Lemma refusal_ended (cfg : ProxyCfg) (format : RequestFormat) (evs : list Ev) : refusal_events cfg format evs -> ended evs.
Proof. intros (e & owner & et & ->). eapply ended_one_answer, refused_closings. Qed.

Ltac one_answer := intros [= <-]; eapply ended_one_answer; reflexivity.

Lemma read_ended (cfg : ProxyCfg) (billing : bool) (policy : option (Tier -> TierPolicyMode)) (strip : bytes -> bytes + string) (format : RequestFormat)
    (meta : KeyMeta) (rm : reqMeta) (r : HttpRequest) (evs : list Ev) : read_request cfg billing policy strip format meta rm r = inr evs -> ended evs.
Proof.
  unfold read_request. destruct (_ || _); [one_answer|]. destruct (form_of format r); [discriminate|].
  unfold read_json. destruct (negb _); [one_answer|]. rewrite scanKeys_map. cbn [map].
  destruct (stream_flag _); [|one_answer].
  destruct (parseStringValue _); [|one_answer].
  destruct (parseStringValue _); [|one_answer].
  unfold apply_tier. destruct (negb billing); [discriminate|]. match goal with |- context [if special_tier ?t then policy else None] => destruct (if special_tier t then policy else None) as [mode|] end; [|discriminate].
  destruct (mode _); [discriminate| |intros [= <-]; eapply ended_one_answer, refused_closings].
  destruct (strip _); [discriminate|]. one_answer.
Qed.

(** ** Properties *)

(** C11: A request is admitted exactly when its key is known and active, its quota
    is not exhausted, its balance suffices, a slot of its user and of its key is
    free and its group is within its rate.  An admitted request raises the counter
    of its user, of its key if that is limited, and of the requests in flight by
    exactly one, within the limits, and leaving restores them; a refused one leaves
    every counter as it was and gets one answer. *)
Theorem admission_exact (cfg : ProxyCfg) (bill : option BillingHooks) (format : RequestFormat) (env : GuardEnv) (h : Header) (precheck : bool) (p : Proxy) :
  proxy_ok p ->
  let '(p', evs, adm) := guardPipeline cfg bill format env h precheck p in
  match adm with
  | None => same_counts p p' /\ refusal_events cfg format evs /\ forall meta, ~ passes cfg bill env h precheck p meta
  | Some (rm, meta, level) => evs = [] /\ passes cfg bill env h precheck p meta /\ rm = meta_of cfg (Some meta) /\
      counts_once meta p p' /\ same_counts p (leave p' meta level) /\
      (forall c, g_users (au_gate (px_auth p)) !! km_UserID meta = Some c -> 0 < km_UserMaxConc meta -> c + 1 <= km_UserMaxConc meta) /\
      (0 < km_KeyMaxConc meta -> forall c, g_keys (au_gate (px_auth p')) !! km_KeyID meta = Some c -> c <= km_KeyMaxConc meta)
  end.
Proof. exact (guard_spec cfg bill format env h precheck p). Qed.

Definition demo_meta : KeyMeta := mkKeyMeta 7 3 2 "active" 3 "active" 5 false 0 0.
Definition demo_proxy : Proxy := mkProxy (mkAuth {["sk-1" := demo_meta]} ∅ (mkGate {[3 := 1]} {[7 := 1]} ∅ None None)) ∅ None 4.
Definition demo_cfg : ProxyCfg := mkProxyCfg false true 10 1000 3.
Definition demo_headers : Header := {["Authorization" := "bearer  sk-1 "]}.
Definition demo_guard : GuardEnv := mkGuardEnv NoReader 5 6 7.

Lemma demo_proxy_ok : proxy_ok demo_proxy.
Proof.
  split; cbn.
  - apply map_Forall_singleton. lia.
  - apply map_Forall_singleton. lia.
  - exact I.
  - apply map_Forall_singleton. split; cbn; unfold_int; lia.
  - unfold_int; lia.
Qed.

Lemma admission_exact_witness : exists p' level, guardPipeline demo_cfg None FormatOpenAIChat demo_guard demo_headers true demo_proxy =
    (p', [], Some (meta_of demo_cfg (Some demo_meta), demo_meta, level)) /\
  px_inflight p' = 5 /\ g_users (au_gate (px_auth p')) = {[3 := 2]} /\ g_keys (au_gate (px_auth p')) = {[7 := 2]} /\
  same_counts demo_proxy (leave p' demo_meta level).
Proof.
  pose proof (admission_exact demo_cfg None FormatOpenAIChat demo_guard demo_headers true demo_proxy demo_proxy_ok) as H.
  destruct (guardPipeline demo_cfg None FormatOpenAIChat demo_guard demo_headers true demo_proxy) as [[p' evs] adm] eqn:E.
  assert (exists level, (p', evs, adm) = (p', [], Some (meta_of demo_cfg (Some demo_meta), demo_meta, level)) /\ px_inflight p' = 5) as (level & E1 & E2).
  { vm_compute in E. injection E as <- <- <-. exists 3. split; vm_compute; reflexivity. }
  injection E1 as -> ->. exists p', level. destruct H as (_ & _ & _ & (Hu & Hk & _) & H & _). split; [reflexivity|]. split; [exact E2|].
  split; [rewrite Hu; reflexivity|]. split; [rewrite Hk; reflexivity|exact H].
Defined.

Section Whole.
Context `{L : TextLib} `{B : BodyLib}.
Variable cfg : ProxyCfg.
Variable bill : option BillingHooks.
Variable policy : option (Tier -> TierPolicyMode).
Variable stripServiceTier : bytes -> bytes + string.
Variable converts_of : KeyMeta -> list ProtocolConvert.
Variable ConvertRequest : string -> ProtocolConvert -> string + string.
Variable run_env : RunEnv.
Variable ca : Request -> CallerEnv SchedState.

End Whole.

Definition model_body : bytes := bs "{" ++ quote :: bs "model" ++ quote :: bs ":" ++ quote :: bs "gpt" ++ quote :: bs "}".

Definition demo_handle : Proxy * option SchedState * list Ev :=
  handleFormat (L := demo_text) (B := demo_body) demo_cfg None None (fun b => inl b) (fun _ => []) demo_convert request_env
    (fun _ => demo_callers demo_typed) demo_guard FormatOpenAIChat (mkHttpRequest demo_headers model_body false None) demo_proxy demo_sched.


(** ** Reading is decoding *)

Definition doc_field (j : json) (key : string) : option json := match j with JObj l => field l (bs key) | _ => None end.

Definition doc_flag (j : option json) : option bool :=
  match j with None | Some JNull | Some JFalse => Some false | Some JTrue => Some true | _ => None end.
Definition doc_text (j : option json) : option bytes :=
  match j with None | Some JNull => Some [] | Some (JStr s) => Some (decodeUnicodeEscapes s) | _ => None end.

Lemma doc_value (b : bytes) (j : json) (key : string) : decode b = Some j ->
  option_Forall2 (fun v j => prints j v) ((fun '(s, e) => slice b s e) <$> scanKeyValue b (bs key)) (doc_field j key).
Proof.
  intros H. apply decode_sound in H as (w & raw & w' & -> & Hw & Hw' & Hp). destruct j as [| | |t|s|l|l]; cbn [doc_field].
  7: { destruct Hp as (inner & ms & -> & Hin & Hm).
       replace (w ++ object_text [] ms inner [] ++ w') with (object_text w ms inner w').
       2: { unfold object_text. cbn [app]. rewrite <- app_assoc. reflexivity. }
       assert (Forall member_wf ms) as Hwf.
       { clear -Hm. revert ms Hm. induction l as [|[k j] l IH]; intros [|m ms] Hm; try contradiction; constructor.
         - destruct Hm as (_ & (H0 & Hk & H1 & H2 & H3) & Hv & _). apply prints_value in Hv. unfold member_wf. auto 10.
         - apply IH. apply Hm. }
       rewrite first_member_found; [|exact Hw|exact Hwf|intros _; exact Hin]. clear -Hm. revert ms Hm.
       induction l as [|[k j] l IH]; intros [|m ms] Hm; try contradiction; [constructor|].
       destruct Hm as (<- & _ & Hv & Hm). cbn [first_member field]. destruct (beq (m_key m) (bs key)); [constructor; exact Hv|exact (IH ms Hm)]. }
  all: assert (scanKeyValue (w ++ raw ++ w') (bs key) = None) as ->; [|constructor].
  all: pose proof (prints_value _ _ Hp) as Hv; destruct (value_nonempty raw Hv) as (c & r & -> & Hc).
  all: rewrite scanKeyValue_visits; unfold visits; cbn [app]; rewrite skipSpace_start by (exact Hw || exact Hc); rewrite is_char_at.
  all: assert (Ascii.eqb c "{" = false) as ->; [|reflexivity].
  all: cbn [prints] in Hp.
  - injection Hp as -> _. reflexivity.
  - injection Hp as -> _. reflexivity.
  - injection Hp as -> _. reflexivity.
  - destruct Hp as (<- & _ & Hn). apply Forall_cons in Hn as [Hn _]. apply Ascii.eqb_neq. intros ->. discriminate.
  - destruct Hp as [[= -> _] _]. reflexivity.
  - destruct Hp as (inner & xs & [= -> _] & _). reflexivity.
Qed.

Lemma beq_false (a b : bytes) : a <> b -> beq a b = false.
Proof. intros H. unfold beq. apply bool_decide_eq_false, H. Qed.

Lemma flag_prints (j : json) (v : bytes) : prints j v -> stream_flag (Some v) = doc_flag (Some j).
Proof.
  intros H. destruct j as [| | |t|s|l|l]; cbn [prints] in H; try (subst v; reflexivity).
  - destruct H as (-> & Hne & Hn). unfold stream_flag. destruct t as [|c t]; [contradiction|]. apply Forall_cons in Hn as [Hn _].
    rewrite !beq_false by (intros Hx; cbn in Hx; injection Hx as -> _; discriminate Hn). reflexivity.
  - destruct H as [-> _]. unfold stream_flag. rewrite !beq_false by discriminate. reflexivity.
  - destruct H as (inner & xs & -> & _). unfold stream_flag. rewrite !beq_false by discriminate. reflexivity.
  - destruct H as (inner & ms & -> & _). unfold stream_flag, object_text. cbn [app]. rewrite !beq_false by discriminate. reflexivity.
Qed.

Lemma text_prints (j : json) (v : bytes) : prints j v -> parseStringValue (Some v) = doc_text (Some j).
Proof.
  intros H. destruct j as [| | |t|s|l|l]; cbn [prints] in H; try (subst v; reflexivity).
  - destruct H as (-> & Hne & Hn). destruct t as [|c t]; [contradiction|]. apply Forall_cons in Hn as [Hn _]. cbn [parseStringValue].
    assert (Ascii.eqb c quote = false) as -> by (apply Ascii.eqb_neq; intros ->; discriminate).
    assert (Ascii.eqb c "n" = false) as -> by (apply Ascii.eqb_neq; intros ->; discriminate). reflexivity.
  - destruct H as [-> Hs]. cbn [parseStringValue]. rewrite Ascii.eqb_refl. cbn [List.length]. rewrite length_app. cbn [List.length].
    replace (S (List.length s + 1) <? 2)%nat with false by (symmetry; apply Nat.ltb_ge; lia). cbn [doc_text]. do 2 f_equal.
    unfold slice. cbn [drop skipn]. replace (S (List.length s + 1) - 1 - 1)%nat with (List.length s) by lia. apply take_app_length.
  - destruct H as (inner & xs & -> & _). reflexivity.
  - destruct H as (inner & ms & -> & _). reflexivity.
Qed.

Section Reading.
Variable cfg : ProxyCfg.
Variable billing : bool.
Variable policy : option (Tier -> TierPolicyMode).
Variable stripServiceTier : bytes -> bytes + string.
Variable format : RequestFormat.

(** The reading of the syntax tree of the body: raw keys, and of several members with
    one key the first. *)
Definition read_document (meta : KeyMeta) (rm : reqMeta) (j : json) (body : bytes) : ReadRequest + list Ev :=
  match doc_flag (doc_field j "stream"), doc_text (doc_field j "model"), doc_text (doc_field j "service_tier") with
  | None, _, _ => inr [invalid_body "stream must be a boolean"]
  | _, None, _ => inr [invalid_body "model must be a string"]
  | _, _, None => inr [invalid_body "service_tier must be a string"]
  | Some stream, Some model, Some tier => apply_tier cfg billing policy stripServiceTier format meta rm (str model) stream (NormalizeTier (str tier)) body
  end.

(** The handler's reading of a body by a byte scan is the reading of its syntax
    tree: a body that is no JSON is refused, and otherwise the stream flag,
    the model and the service tier are those of the first members with these
    names (written without escapes), refused when one has another type. *)
Theorem body_read_as_parsed (meta : KeyMeta) (rm : reqMeta) (body : bytes) :
  read_json cfg billing policy stripServiceTier format meta rm body =
  match decode body with
  | None => inr [invalid_body "invalid JSON"]
  | Some j => read_document meta rm j body
  end.
Proof.
  unfold read_json, Valid. destruct (decode body) as [j|] eqn:E; [|reflexivity]. cbn [isSome negb]. rewrite scanKeys_map. cbn [map].
  unfold read_document. pose proof (doc_value body j "stream" E) as H1. pose proof (doc_value body j "model" E) as H2.
  pose proof (doc_value body j "service_tier" E) as H3.
  assert (forall o o', option_Forall2 (fun v j => prints j v) o o' -> parseStringValue o = doc_text o') as Ht
    by (intros o o' H; destruct H; [apply text_prints; assumption|reflexivity]).
  rewrite (Ht _ _ H2), (Ht _ _ H3).
  assert (forall o o', option_Forall2 (fun v j => prints j v) o o' -> stream_flag o = doc_flag o') as Hf
    by (intros o o' H; destruct H; [apply flag_prints; assumption|reflexivity]).
  rewrite (Hf _ _ H1).
  destruct (doc_flag _); [|reflexivity]. destruct (doc_text (doc_field j "model")); [|reflexivity]. reflexivity.
Qed.
End Reading.

(** The comment says that the reading is equivalent to the decoding library's.
    Only unicode escapes are decoded: a model name with an escaped slash, as PHP's
    encoder writes it, keeps its backslash and matches no route. *)
Definition slash_body : bytes := bs "{" ++ quote :: bs "model" ++ quote :: bs ":" ++ quote :: bs "openai\/gpt" ++ quote :: bs "}".

Theorem escaped_slash_in_model :
  match read_json demo_cfg false None (fun b => inl b) FormatOpenAIChat demo_meta (meta_of demo_cfg None) slash_body with
  | inl rr => rr_model rr = "openai\/gpt"
  | inr _ => False
  end /\ (doc_field <$> decode slash_body) ≫= (fun get => get "model") = Some (JStr (bs "openai\/gpt")) /\ unquoted (bs "openai\/gpt") = bs "openai/gpt".
Proof. split; [|split]; vm_compute; reflexivity. Qed.
