(* ===== verification/ErrLog.v ===== *)
(** * The error log ([internal/usage/errlog.go])

    Rows of failed and of refused requests go into two bounded queues, without
    blocking the request: a full queue drops the row and counts it.  A worker takes
    batches, rows of failed requests first, and inserts them; when an insert fails
    the former go back into their queue and the latter are dropped.  Closing drains
    both queues within a budget.

    Producers, the worker's receives, insert results and requeueing are separate
    steps; the drain of [Close] is one step, since nobody else takes from the queues
    once the worker is gone (the case where [Close] stops waiting for the worker is
    kept apart).  The rows are abstract, and an insert that fails has inserted
    nothing. *)

From Stdlib Require Import ZArith Lia List Bool Permutation.
From stdpp Require Import base option list relations.
From S2P Require Import Prelude.
Import ListNotations.
Local Open Scope Z_scope.
Local Open Scope list_scope.

Section ErrLog.
Context {Row : Type}.

(** ** The worker *)

Record ErrLogConfig := mkErrLogConfig { QueueSize : Z; ExemptQueueSize : Z; BatchSize : Z }.

Definition or_default (n d : Z) : Z := if n <=? 0 then d else n.

(** The defaults of [NewErrLogWorker]. *)
Definition with_defaults (c : ErrLogConfig) : ErrLogConfig :=
  mkErrLogConfig (or_default (QueueSize c) 4096) (or_default (ExemptQueueSize c) 1024) (or_default (BatchSize c) 500).

Definition errlogDropWarnThreshold : Z := 10000.

(** The two classes of rows: of failed requests ([exemptQ]), of refused ones
    ([rejectQ]). *)
Inductive Class_ := Exempt | Reject.

#[export] Instance Class_eq_dec : EqDecision Class_.
Proof. solve_decision. Defined.

Record ErrLogWorker := mkWorker {
  ew_closed : bool; ew_exemptQ : list Row; ew_rejectQ : list Row;
  ew_droppedReject : Z; ew_droppedExempt : Z; ew_inserted : Z; ew_warnReject : bool; ew_warnExempt : bool
}.

Definition NewErrLogWorker : ErrLogWorker := mkWorker false [] [] 0 0 0 false false.

Variable conf : ErrLogConfig.
Definition cfg : ErrLogConfig := with_defaults conf.

Definition queue (k : Class_) (w : ErrLogWorker) : list Row := match k with Exempt => ew_exemptQ w | Reject => ew_rejectQ w end.
Definition capacity (k : Class_) : Z := match k with Exempt => ExemptQueueSize cfg | Reject => QueueSize cfg end.
Definition threshold (k : Class_) : Z := match k with Exempt => 1 | Reject => errlogDropWarnThreshold end.

Definition set_queue (k : Class_) (q : list Row) (w : ErrLogWorker) : ErrLogWorker :=
  match k with
  | Exempt => mkWorker (ew_closed w) q (ew_rejectQ w) (ew_droppedReject w) (ew_droppedExempt w) (ew_inserted w) (ew_warnReject w) (ew_warnExempt w)
  | Reject => mkWorker (ew_closed w) (ew_exemptQ w) q (ew_droppedReject w) (ew_droppedExempt w) (ew_inserted w) (ew_warnReject w) (ew_warnExempt w)
  end.

(** [dropped.Add(n)]. *)
Definition add_dropped (k : Class_) (n : Z) (w : ErrLogWorker) : ErrLogWorker :=
  match k with
  | Exempt => mkWorker (ew_closed w) (ew_exemptQ w) (ew_rejectQ w) (ew_droppedReject w) (ew_droppedExempt w [+] n) (ew_inserted w) (ew_warnReject w) (ew_warnExempt w)
  | Reject => mkWorker (ew_closed w) (ew_exemptQ w) (ew_rejectQ w) (ew_droppedReject w [+] n) (ew_droppedExempt w) (ew_inserted w) (ew_warnReject w) (ew_warnExempt w)
  end.

Definition dropped (k : Class_) (w : ErrLogWorker) : Z := match k with Exempt => ew_droppedExempt w | Reject => ew_droppedReject w end.

(** The warning edge of a class. *)
Definition warn (k : Class_) (w : ErrLogWorker) : ErrLogWorker :=
  if threshold k <=? dropped k w then
    match k with
    | Exempt => mkWorker (ew_closed w) (ew_exemptQ w) (ew_rejectQ w) (ew_droppedReject w) (ew_droppedExempt w) (ew_inserted w) (ew_warnReject w) true
    | Reject => mkWorker (ew_closed w) (ew_exemptQ w) (ew_rejectQ w) (ew_droppedReject w) (ew_droppedExempt w) (ew_inserted w) true (ew_warnExempt w)
    end
  else w.

(** [enqueue]: [true] when the row is in the queue, [false] when it was dropped. *)
Definition enqueue (k : Class_) (l : Row) (w : ErrLogWorker) : ErrLogWorker * bool :=
  if ew_closed w then (add_dropped k 1 w, false)
  else if Z.of_nat (length (queue k w)) <? capacity k then (set_queue k (queue k w ++ [l]) w, true)
  else (warn k (add_dropped k 1 w), false).

Definition EnqueueRejected (l : Row) (w : ErrLogWorker) : ErrLogWorker := (enqueue Reject l w).1.
Definition EnqueueError (l : Row) (w : ErrLogWorker) : ErrLogWorker := (enqueue Exempt l w).1.

Definition dropBatch (exempts rejects : list Row) (w : ErrLogWorker) : ErrLogWorker :=
  add_dropped Reject (Z.of_nat (length rejects)) (add_dropped Exempt (Z.of_nat (length exempts)) w).

Definition add_inserted (n : Z) (w : ErrLogWorker) : ErrLogWorker :=
  mkWorker (ew_closed w) (ew_exemptQ w) (ew_rejectQ w) (ew_droppedReject w) (ew_droppedExempt w) (ew_inserted w [+] n) (ew_warnReject w) (ew_warnExempt w).

(** The edges fall back when both queues are empty. *)
Definition reset_warnings (w : ErrLogWorker) : ErrLogWorker :=
  match ew_exemptQ w, ew_rejectQ w with
  | [], [] => mkWorker (ew_closed w) [] [] (ew_droppedReject w) (ew_droppedExempt w) (ew_inserted w) false false
  | _, _ => w
  end.

Definition batch_n : nat := Z.to_nat (BatchSize cfg).

(** [takeBatch] without interference. *)
Definition takeBatch (w : ErrLogWorker) : list Row * list Row * ErrLogWorker :=
  let ex := take batch_n (ew_exemptQ w) in
  let n := (batch_n - length ex)%nat in
  let rj := take n (ew_rejectQ w) in
  (ex, rj, set_queue Reject (drop n (ew_rejectQ w)) (set_queue Exempt (drop batch_n (ew_exemptQ w)) w)).

Definition Queued (w : ErrLogWorker) : Z := Z.of_nat (length (ew_rejectQ w)) + Z.of_nat (length (ew_exemptQ w)).

(** [refillExempt]; the rows that found no room. *)
Fixpoint refillExempt (exempts : list Row) (w : ErrLogWorker) : ErrLogWorker * list Row :=
  match exempts with
  | [] => (w, [])
  | l :: exempts =>
      let '(w, ok) := enqueue Exempt l w in
      let '(w, lost) := refillExempt exempts w in
      (w, if ok then lost else l :: lost)
  end.

(** [flush] without interference; [ok] is the result of the insert. *)
Definition flush (ok : bool) (w : ErrLogWorker) : ErrLogWorker :=
  let '(ex, rj, w) := takeBatch w in
  match ex, rj with
  | [], [] => w
  | _, _ =>
      let w := if ok then add_inserted (Z.of_nat (length (ex ++ rj))) w else dropBatch [] rj (refillExempt ex w).1 in
      reset_warnings w
  end.

(** ** Closing *)

(** What the drain meets in each turn: the budget is over, the batch is inserted,
    the retry of the exempt rows is. *)
Record Budget := mkBudget { bg_over : nat -> bool; bg_insert : nat -> bool; bg_retry : nat -> bool }.

(** Rows with the class they were offered in. *)
Definition tag (k : Class_) (l : list Row) : list (Class_ * Row) := map (pair k) l.

(** History, not state of the program: the rows in the database and the rows
    dropped so far. *)
Record Ledger := mkLedger { lg_stored : list (Class_ * Row); lg_lost : list (Class_ * Row) }.

Definition store (l : list (Class_ * Row)) (g : Ledger) : Ledger := mkLedger (lg_stored g ++ l) (lg_lost g).
Definition lose (l : list (Class_ * Row)) (g : Ledger) : Ledger := mkLedger (lg_stored g) (lg_lost g ++ l).

Definition batch_rows (ex rj : list Row) : list (Class_ * Row) := tag Exempt ex ++ tag Reject rj.

(** A failed batch of the drain: the exempt rows are tried once more, the others
    dropped. *)
Definition drain_failed (retry : bool) (ex rj : list Row) (w : ErrLogWorker) (g : Ledger) : ErrLogWorker * Ledger :=
  let '(w, g) :=
    match ex with
    | [] => (w, g)
    | _ =>
        if retry then (add_inserted (Z.of_nat (length ex)) w, store (tag Exempt ex) g)
        else (dropBatch ex [] w, lose (tag Exempt ex) g)
    end in
  (dropBatch [] rj w, lose (tag Reject rj) g).

(** The budget is over: this batch and what is still queued count as dropped. *)
Definition truncate (ex rj : list Row) (w : ErrLogWorker) (g : Ledger) : ErrLogWorker * Ledger :=
  let w1 := dropBatch ex rj w in
  let w2 := add_dropped Exempt (Z.of_nat (length (ew_exemptQ w1))) w1 in
  (add_dropped Reject (Z.of_nat (length (ew_rejectQ w2))) w2,
   lose (batch_rows (ew_exemptQ w) (ew_rejectQ w)) (lose (batch_rows ex rj) g)).

Fixpoint drain (fuel n : nat) (b : Budget) (w : ErrLogWorker) (g : Ledger) : option (ErrLogWorker * Ledger) :=
  match fuel with
  | O => None
  | S fuel =>
      let '(ex, rj, w) := takeBatch w in
      match ex, rj with
      | [], [] => Some (w, g)
      | _, _ =>
          if bg_over b n then Some (truncate ex rj w g)
          else if bg_insert b n then
            drain fuel (S n) b (add_inserted (Z.of_nat (length (ex ++ rj))) w) (store (batch_rows ex rj) g)
          else let '(w, g) := drain_failed (bg_retry b n) ex rj w g in drain fuel (S n) b w g
      end
  end.

Definition set_closed (w : ErrLogWorker) : ErrLogWorker :=
  mkWorker true (ew_exemptQ w) (ew_rejectQ w) (ew_droppedReject w) (ew_droppedExempt w) (ew_inserted w) (ew_warnReject w) (ew_warnExempt w).

Definition drain_fuel (w : ErrLogWorker) : nat := S (length (ew_exemptQ w) + length (ew_rejectQ w)).

(** [Close] once the worker's loop has ended. *)
Definition Close (b : Budget) (w : ErrLogWorker) (g : Ledger) : option (ErrLogWorker * Ledger) :=
  drain (drain_fuel w) 0 b (set_closed w) g.

(** ** The system *)

(** Where the worker is: waiting for its tick, receiving exempt rows, receiving
    rejected ones, inserting, requeueing after a failed insert, looking at the
    queues, gone. *)
Inductive Phase :=
| Idle
| TakeE (ex : list Row)
| TakeR (ex rj : list Row)
| Inserting (ex rj : list Row)
| Refill (todo rj : list Row)
| Edges
| Exited.

(** The rows the worker holds. *)
Definition held (p : Phase) : list (Class_ * Row) :=
  match p with
  | TakeE ex => batch_rows ex []
  | TakeR ex rj | Inserting ex rj | Refill ex rj => batch_rows ex rj
  | Idle | Edges | Exited => []
  end.

(** [Close]: not called, waiting for the loop, over. *)
Inductive Shut := Open | Closing | Closed.

Record Sys := mkSys { y_w : ErrLogWorker; y_phase : Phase; y_shut : Shut; y_offered : list (Class_ * Row); y_log : Ledger }.

Definition begin : Sys := mkSys NewErrLogWorker Idle Open [] (mkLedger [] []).

(** [patient]: [Close] has seen the loop end before it drains; otherwise its
    context may end first. *)
Inductive step (patient : bool) : Sys -> Sys -> Prop :=
| st_offer w p c O g k l w' ok : enqueue k l w = (w', ok) ->
    step patient (mkSys w p c O g) (mkSys w' p c (O ++ [(k, l)]) (if ok then g else lose [(k, l)] g))
| st_tick w c O g : step patient (mkSys w Idle c O g) (mkSys w (TakeE []) c O g)
| st_takeE w c O g ex l q : ew_exemptQ w = l :: q -> (length ex < batch_n)%nat ->
    step patient (mkSys w (TakeE ex) c O g) (mkSys (set_queue Exempt q w) (TakeE (ex ++ [l])) c O g)
| st_takeE_end w c O g ex : ew_exemptQ w = [] \/ length ex = batch_n ->
    step patient (mkSys w (TakeE ex) c O g) (mkSys w (TakeR ex []) c O g)
| st_takeR w c O g ex rj l q : ew_rejectQ w = l :: q -> (length ex + length rj < batch_n)%nat ->
    step patient (mkSys w (TakeR ex rj) c O g) (mkSys (set_queue Reject q w) (TakeR ex (rj ++ [l])) c O g)
| st_takeR_end w c O g ex rj : ew_rejectQ w = [] \/ (length ex + length rj)%nat = batch_n -> ex ++ rj <> [] ->
    step patient (mkSys w (TakeR ex rj) c O g) (mkSys w (Inserting ex rj) c O g)
| st_nothing w c O g : ew_rejectQ w = [] ->
    step patient (mkSys w (TakeR [] []) c O g) (mkSys w Idle c O g)
| st_inserted w c O g ex rj :
    step patient (mkSys w (Inserting ex rj) c O g)
      (mkSys (add_inserted (Z.of_nat (length (ex ++ rj))) w) Edges c O (store (batch_rows ex rj) g))
| st_insert_failed w c O g ex rj :
    step patient (mkSys w (Inserting ex rj) c O g) (mkSys w (Refill ex rj) c O g)
| st_refill w c O g l ex rj w' ok : enqueue Exempt l w = (w', ok) ->
    step patient (mkSys w (Refill (l :: ex) rj) c O g) (mkSys w' (Refill ex rj) c O (if ok then g else lose [(Exempt, l)] g))
| st_refill_end w c O g rj :
    step patient (mkSys w (Refill [] rj) c O g) (mkSys (dropBatch [] rj w) Edges c O (lose (tag Reject rj) g))
| st_edges w c O g : step patient (mkSys w Edges c O g) (mkSys (reset_warnings w) Idle c O g)
| st_exit w c O g : step patient (mkSys w Idle c O g) (mkSys w Exited c O g)
| st_close w p O g : step patient (mkSys w p Open O g) (mkSys (set_closed w) p Closing O g)
| st_drain w O g b w' g' : Close b w g = Some (w', g') ->
    step patient (mkSys w Exited Closing O g) (mkSys w' Exited Closed O g')
| st_late w p O g b w' g' : patient = false -> bg_over b 0 = true -> Close b w g = Some (w', g') ->
    step patient (mkSys w p Closing O g) (mkSys w' p Closed O g').

Definition reachable (patient : bool) (s : Sys) : Prop := rtc (step patient) begin s.

(** ** Counters *)

Definition of_class (k : Class_) (l : list (Class_ * Row)) : list (Class_ * Row) := filter (fun r => r.1 = k) l.
Arguments of_class : simpl never.

(** The counters are the sizes of the history. *)
Record Counts (w : ErrLogWorker) (g : Ledger) : Prop := mkCounts {
  ct_inserted : ew_inserted w = wrap64 (Z.of_nat (length (lg_stored g)));
  ct_dropped k : dropped k w = wrap64 (Z.of_nat (length (of_class k (lg_lost g))))
}.

Lemma add64_wrap (a b : Z) : wrap64 a [+] b = wrap64 (a + b).
Proof.
  unfold add64, wrap64. f_equal.
  replace ((a - min64) mod two64 + min64 + b - min64) with ((a - min64) mod two64 + b) by lia.
  rewrite Zplus_mod_idemp_l. f_equal. lia.
Qed.

Lemma add64_wrap_wrap (a b : Z) : wrap64 a [+] wrap64 b = wrap64 (a + b).
Proof. unfold add64 at 1. rewrite Z.add_comm. fold (wrap64 b [+] wrap64 a). rewrite add64_wrap, Z.add_comm. fold (wrap64 a [+] b). rewrite add64_wrap. reflexivity. Qed.

Lemma of_class_tag (k k' : Class_) (l : list Row) : of_class k (tag k' l) = if decide (k' = k) then tag k' l else [].
Proof.
  induction l as [|x l IH]; [destruct (decide (k' = k)); reflexivity|]. unfold of_class, tag in *. cbn [map]. rewrite filter_cons, IH. cbn.
  destruct (decide (k' = k)); reflexivity.
Qed.

Lemma tag_app (k : Class_) (l1 l2 : list Row) : tag k (l1 ++ l2) = tag k l1 ++ tag k l2.
Proof. apply map_app. Qed.

Lemma length_tag (k : Class_) (l : list Row) : length (tag k l) = length l.
Proof. apply length_map. Qed.

Lemma length_batch (ex rj : list Row) : length (batch_rows ex rj) = length (ex ++ rj).
Proof. unfold batch_rows. rewrite !length_app, !length_tag. reflexivity. Qed.

Lemma counts_store (l : list (Class_ * Row)) (n : Z) (w : ErrLogWorker) (g : Ledger) :
  n = Z.of_nat (length l) -> Counts w g -> Counts (add_inserted n w) (store l g).
Proof.
  intros -> [H1 H2]. split; [|exact H2]. cbn. rewrite H1, add64_wrap, length_app. f_equal. lia.
Qed.

Lemma counts_lose (k : Class_) (l : list Row) (n : Z) (w : ErrLogWorker) (g : Ledger) :
  n = Z.of_nat (length l) -> Counts w g -> Counts (add_dropped k n w) (lose (tag k l) g).
Proof.
  intros -> [H1 H2]. split; [destruct k; exact H1|]. intros k'. cbn. unfold of_class. rewrite filter_app, length_app.
  fold (of_class k' (lg_lost g)) (of_class k' (tag k l)). rewrite of_class_tag. specialize (H2 k').
  case_decide; subst; destruct k'; try destruct k; try congruence; cbn in *; rewrite H2, ?add64_wrap, ?length_tag; cbn; f_equal; lia.
Qed.

Lemma lose_nil (g : Ledger) : lose [] g = g.
Proof. destruct g. unfold lose. cbn. rewrite app_nil_r. reflexivity. Qed.

Lemma lose_lose (l1 l2 : list (Class_ * Row)) (g : Ledger) : lose l2 (lose l1 g) = lose (l1 ++ l2) g.
Proof. unfold lose. cbn. rewrite app_assoc. reflexivity. Qed.

Lemma counts_dropBatch (ex rj : list Row) (w : ErrLogWorker) (g : Ledger) :
  Counts w g -> Counts (dropBatch ex rj w) (lose (batch_rows ex rj) g).
Proof. intros H. unfold dropBatch, batch_rows. rewrite <- lose_lose. repeat (apply counts_lose; [reflexivity|]). exact H. Qed.

(** Only the counters matter. *)
Lemma counts_same (w w' : ErrLogWorker) (g : Ledger) :
  ew_inserted w' = ew_inserted w -> (forall k, dropped k w' = dropped k w) -> Counts w g -> Counts w' g.
Proof. intros E1 E2 [H1 H2]. split; [congruence|]. intros k. rewrite E2. apply H2. Qed.

Lemma warn_same (k : Class_) (w : ErrLogWorker) :
  ew_inserted (warn k w) = ew_inserted w /\ (forall k', dropped k' (warn k w) = dropped k' w) /\
  (forall k', queue k' (warn k w) = queue k' w) /\ ew_closed (warn k w) = ew_closed w.
Proof. unfold warn. destruct (_ <=? _); destruct k; repeat split; intros []; reflexivity. Qed.

(** What [enqueue] does: the row is at the end of its queue, or it is counted as
    dropped. *)
Lemma enqueue_spec (k : Class_) (l : Row) (w w' : ErrLogWorker) (ok : bool) :
  enqueue k l w = (w', ok) ->
  ew_closed w' = ew_closed w /\
  (forall k', queue k' w' = queue k' w ++ (if ok && bool_decide (k' = k) then [l] else [])) /\
  (ok = true <-> ew_closed w = false /\ Z.of_nat (length (queue k w)) < capacity k) /\
  (forall g, Counts w g -> Counts w' (if ok then g else lose (tag k [l]) g)).
Proof.
  unfold enqueue. intros H. destruct (ew_closed w) eqn:Ec; [|destruct (Z.ltb_spec (Z.of_nat (length (queue k w))) (capacity k))]; injection H as <- <-.
  - split_and!; [destruct k; exact Ec|intros k'; destruct k, k'; cbn; rewrite app_nil_r; reflexivity|split; [discriminate|intros [? ?]; discriminate]|].
    intros g Hg. apply counts_lose; [reflexivity|exact Hg].
  - split_and!; [destruct k; exact Ec|intros k'; destruct k, k'; cbn; rewrite ?app_nil_r; reflexivity|split; [tauto|reflexivity]|].
    intros g Hg. apply (counts_same w); [destruct k; reflexivity|intros []; destruct k; reflexivity|exact Hg].
  - destruct (warn_same k (add_dropped k 1 w)) as (E1 & E2 & E3 & E4).
    split_and!; [rewrite E4; destruct k; exact Ec|intros k'; rewrite E3; destruct k, k'; cbn; rewrite app_nil_r; reflexivity|split; [discriminate|intros [_ ?]; lia]|].
    intros g Hg. apply (counts_same (add_dropped k 1 w)); [exact E1|exact E2|]. apply counts_lose; [reflexivity|exact Hg].
Qed.

(** ** Draining *)

Definition queued (w : ErrLogWorker) : list (Class_ * Row) := batch_rows (ew_exemptQ w) (ew_rejectQ w).

Lemma batch_n_pos : (0 < batch_n)%nat.
Proof. unfold batch_n, cfg, with_defaults, or_default. cbn. destruct (Z.leb_spec (BatchSize conf) 0); lia. Qed.

Lemma takeBatch_spec (w w' : ErrLogWorker) (ex rj : list Row) :
  takeBatch w = (ex, rj, w') ->
  ew_exemptQ w = ex ++ ew_exemptQ w' /\ ew_rejectQ w = rj ++ ew_rejectQ w' /\
  (length ex + length rj <= batch_n)%nat /\
  (ex = [] -> rj = [] -> ew_exemptQ w = [] /\ ew_rejectQ w = []) /\
  ew_closed w' = ew_closed w /\ (forall g, Counts w g -> Counts w' g).
Proof.
  unfold takeBatch. intros H. injection H as <- <- <-. cbn. rewrite !take_drop, !length_take.
  split_and!; [reflexivity|reflexivity|lia| |reflexivity|intros g; apply counts_same; [reflexivity|intros []; reflexivity]].
  pose proof batch_n_pos. destruct (ew_exemptQ w) as [|x q].
  - intros _. cbn [length]. rewrite Nat.min_0_r, Nat.sub_0_r. destruct (ew_rejectQ w); [tauto|]. destruct batch_n; [lia|discriminate].
  - destruct batch_n; [lia|discriminate].
Qed.

Lemma drain_failed_spec (r : bool) (ex rj : list Row) (w w' : ErrLogWorker) (g g' : Ledger) :
  drain_failed r ex rj w g = (w', g') ->
  queued w' = queued w /\ ew_closed w' = ew_closed w /\
  lg_stored g' ++ lg_lost g' ≡ₚ batch_rows ex rj ++ lg_stored g ++ lg_lost g /\ (Counts w g -> Counts w' g').
Proof.
  intros H. assert (exists w1 g1, w' = dropBatch [] rj w1 /\ g' = lose (tag Reject rj) g1 /\ queued w1 = queued w /\ ew_closed w1 = ew_closed w /\
    (Counts w g -> Counts w1 g1) /\ lg_stored g1 ++ lg_lost g1 ≡ₚ tag Exempt ex ++ lg_stored g ++ lg_lost g) as (w1 & g1 & -> & -> & H1 & H2 & H3 & H4).
  { unfold drain_failed in H. destruct ex as [|x ex]; [|destruct r]; injection H as <- <-; do 2 eexists; split_and!; try reflexivity; try tauto.
    - apply counts_store. symmetry. f_equal. apply (length_tag Exempt (x :: ex)).
    - cbn. solve_Permutation.
    - pose proof (counts_dropBatch (x :: ex) [] w g) as Hc. unfold batch_rows in Hc at 1. cbn [tag map] in Hc. rewrite app_nil_r in Hc. exact Hc.
    - cbn. solve_Permutation. }
  split_and!; [exact H1|exact H2| |].
  - unfold batch_rows. cbn. rewrite app_assoc, H4. solve_Permutation.
  - intros Hc. apply (counts_dropBatch [] rj). tauto.
Qed.

(** The worker in which the batch is counted as inserted. *)
Lemma inserted_same (n : Z) (w : ErrLogWorker) : queued (add_inserted n w) = queued w /\ ew_closed (add_inserted n w) = ew_closed w.
Proof. split; reflexivity. Qed.

Lemma truncate_spec (ex rj : list Row) (w : ErrLogWorker) (g : Ledger) :
  ew_closed (truncate ex rj w g).1 = ew_closed w /\ queued (truncate ex rj w g).1 = queued w /\
  (truncate ex rj w g).2 = lose (batch_rows ex rj ++ queued w) g /\
  (Counts w g -> Counts (truncate ex rj w g).1 (truncate ex rj w g).2).
Proof.
  split_and!; [reflexivity|reflexivity|apply lose_lose|]. intros H. unfold truncate, fst, snd, batch_rows at 1. rewrite <- lose_lose.
  repeat (apply counts_lose; [reflexivity|]). apply counts_dropBatch, H.
Qed.

(** One turn of the drain. *)
Lemma drain_turn (fuel n : nat) (b : Budget) (w : ErrLogWorker) (g : Ledger) :
  exists ex rj w1, takeBatch w = (ex, rj, w1) /\
  drain (S fuel) n b w g =
    if bool_decide (ex ++ rj = []) then Some (w1, g)
    else if bg_over b n then Some (truncate ex rj w1 g)
    else if bg_insert b n then
      drain fuel (S n) b (add_inserted (Z.of_nat (length (ex ++ rj))) w1) (store (batch_rows ex rj) g)
    else drain fuel (S n) b (drain_failed (bg_retry b n) ex rj w1 g).1 (drain_failed (bg_retry b n) ex rj w1 g).2.
Proof.
  destruct (takeBatch w) as [[ex rj] w1] eqn:E. exists ex, rj, w1. split; [reflexivity|]. cbn [drain]. rewrite E.
  destruct ex as [|x ex], rj as [|y rj]; [reflexivity| | |]; (rewrite bool_decide_eq_false_2 by (cbn; discriminate)); destruct (drain_failed _ _ _ _ _); reflexivity.
Qed.

Lemma queued_take (w w1 : ErrLogWorker) (ex rj : list Row) :
  takeBatch w = (ex, rj, w1) -> queued w ≡ₚ batch_rows ex rj ++ queued w1.
Proof. intros E. apply takeBatch_spec in E as (E1 & E2 & _). unfold queued, batch_rows. rewrite E1, E2, !tag_app. solve_Permutation. Qed.

Lemma length_queued (w : ErrLogWorker) : length (queued w) = (length (ew_exemptQ w) + length (ew_rejectQ w))%nat.
Proof. unfold queued. rewrite length_batch, length_app. reflexivity. Qed.

Lemma batch_progress (ex rj : list Row) : ex ++ rj <> [] -> (0 < length (batch_rows ex rj))%nat.
Proof. rewrite length_batch. destruct (ex ++ rj); [tauto|cbn; lia]. Qed.

(** Everything queued is stored or lost, and counted. *)
Lemma drain_spec (fuel : nat) : forall (n : nat) (b : Budget) (w w' : ErrLogWorker) (g g' : Ledger),
  drain fuel n b w g = Some (w', g') ->
  lg_stored g' ++ lg_lost g' ≡ₚ queued w ++ lg_stored g ++ lg_lost g /\ (Counts w g -> Counts w' g') /\
  ew_closed w' = ew_closed w /\ (forall k, (length (queue k w') <= length (queue k w))%nat).
Proof.
  induction fuel as [|fuel IH]; [discriminate|]. intros n b w w' g g' H.
  destruct (drain_turn fuel n b w g) as (ex & rj & w1 & Et & E). rewrite E in H. clear E. pose proof (queued_take _ _ _ _ Et) as Hq.
  apply takeBatch_spec in Et as (E1 & E2 & _ & E3 & E4 & E5).
  assert (forall k, (length (queue k w1) <= length (queue k w))%nat) as Hl by (intros []; cbn; rewrite ?E1, ?E2, length_app; lia).
  destruct (bool_decide_reflect (ex ++ rj = [])) as [En|En]; [|destruct (bg_over b n); [|destruct (bg_insert b n)]].
  - injection H as <- <-. apply app_nil in En as [-> ->]. rewrite Hq. destruct (E3 eq_refl eq_refl) as [F1 F2].
    unfold queued. destruct (ew_exemptQ w1), (ew_rejectQ w1); try (rewrite F1 in E1; discriminate); try (rewrite F2 in E2; discriminate).
    split_and!; [reflexivity|apply E5|exact E4|exact Hl].
  - destruct (truncate_spec ex rj w1 g) as (T1 & T2 & T3 & T4). destruct (truncate ex rj w1 g) as [w2 g2] eqn:Eq. cbn [fst snd] in *. injection H as <- <-.
    split_and!; [rewrite T3, Hq; cbn; solve_Permutation|auto|congruence|]. unfold truncate in Eq. injection Eq as <- _. intros []; [apply (Hl Exempt)|apply (Hl Reject)].
  - apply IH in H as (I1 & I2 & I3 & I4). split_and!; [|intros Hc; apply I2, counts_store; [rewrite length_batch; reflexivity|auto]|rewrite I3; exact E4|].
    + rewrite I1, Hq. cbn. change (queued (add_inserted (Z.of_nat (length (ex ++ rj))) w1)) with (queued w1). solve_Permutation.
    + intros k. specialize (I4 k). specialize (Hl k). destruct k; cbn in *; lia.
  - destruct (drain_failed (bg_retry b n) ex rj w1 g) as [w2 g2] eqn:Ef. cbn [fst snd] in H.
    destruct (drain_failed_spec _ _ _ _ _ _ _ Ef) as (F1 & F2 & F3 & F4). apply IH in H as (I1 & I2 & I3 & I4).
    split_and!; [rewrite I1, F3, F1, Hq; solve_Permutation|auto|congruence|].
    assert (forall k, queue k w2 = queue k w1) as Hqq by (unfold drain_failed in Ef; destruct ex; [|destruct (bg_retry b n)]; injection Ef as <- _; intros []; reflexivity).
    intros k. specialize (I4 k). specialize (Hl k). rewrite Hqq in I4. lia.
Qed.

Lemma drain_fuel_enough (fuel : nat) : forall (n : nat) (b : Budget) (w : ErrLogWorker) (g : Ledger),
  (length (queued w) < fuel)%nat -> is_Some (drain fuel n b w g).
Proof.
  induction fuel as [|fuel IH]; [lia|]. intros n b w g H.
  destruct (drain_turn fuel n b w g) as (ex & rj & w1 & Et & ->). apply queued_take in Et. apply Permutation_length in Et. rewrite length_app in Et.
  destruct (bool_decide_reflect (ex ++ rj = [])) as [|En]; [eauto|]. apply batch_progress in En.
  destruct (bg_over b n); [eauto|]. destruct (bg_insert b n); [apply IH; change (queued (add_inserted _ w1)) with (queued w1); lia|].
  destruct (drain_failed (bg_retry b n) ex rj w1 g) as [w2 g2] eqn:Ef. apply drain_failed_spec in Ef as (Ef & _). apply IH. cbn. rewrite Ef. lia.
Qed.

(** In time, and with every exempt batch inserted or inserted on the second try, no
    exempt row is lost and the queues are empty. *)
Lemma drain_keeps_exempt (fuel : nat) : forall (n : nat) (b : Budget) (w w' : ErrLogWorker) (g g' : Ledger),
  (forall i, bg_over b i = false) -> (forall i, bg_insert b i = true \/ bg_retry b i = true) ->
  drain fuel n b w g = Some (w', g') ->
  of_class Exempt (lg_lost g') = of_class Exempt (lg_lost g) /\ queued w' = [] /\
  ((forall i, bg_insert b i = true) -> lg_lost g' = lg_lost g).
Proof.
  induction fuel as [|fuel IH]; [discriminate|]. intros n b w w' g g' Ho Hi H.
  destruct (drain_turn fuel n b w g) as (ex & rj & w1 & Et & E). rewrite E in H. clear E. apply takeBatch_spec in Et as (E1 & E2 & _ & E3 & _).
  destruct (bool_decide_reflect (ex ++ rj = [])) as [En|En].
  - injection H as <- <-. apply app_nil in En as [-> ->]. destruct (E3 eq_refl eq_refl) as [F1 F2]. unfold queued. cbn in E1, E2. rewrite <- E1, <- E2, F1, F2.
    split_and!; reflexivity.
  - rewrite Ho in H. destruct (bg_insert b n) eqn:Eb.
    + apply IH in H as (I1 & I2 & I3); [split_and!; assumption|assumption|assumption].
    + destruct (Hi n) as [Hr|Hr]; [congruence|]. rewrite Hr in H. apply IH in H as (I1 & I2 & _); [|assumption|assumption].
      split_and!; [|exact I2|intros Ha; rewrite Ha in Eb; discriminate]. rewrite I1. unfold drain_failed.
      destruct ex; cbn; unfold of_class; rewrite filter_app; fold (of_class Exempt (tag Reject rj)); rewrite of_class_tag; cbn; apply app_nil_r.
Qed.

(** ** The invariant *)

(** The rows the queues answer for; after [Close] they are in the ledger. *)
Definition live (s : Sys) : list (Class_ * Row) := match y_shut s with Closed => [] | _ => queued (y_w s) end.

Record Inv (s : Sys) : Prop := mkInv {
  iv_rows : y_offered s ≡ₚ live s ++ held (y_phase s) ++ lg_stored (y_log s) ++ lg_lost (y_log s);
  iv_counts : Counts (y_w s) (y_log s);
  iv_closed : ew_closed (y_w s) = false <-> y_shut s = Open;
  iv_exited : y_shut s = Closed -> y_phase s = Exited;
  iv_bound k : Z.of_nat (length (queue k (y_w s))) <= capacity k;
  iv_batch : (length (held (y_phase s)) <= batch_n)%nat
}.

Lemma capacity_pos (k : Class_) : 0 < capacity k.
Proof.
  destruct k; unfold capacity, cfg, with_defaults, or_default; cbn;
    [destruct (Z.leb_spec (ExemptQueueSize conf) 0)|destruct (Z.leb_spec (QueueSize conf) 0)]; lia.
Qed.

Lemma begin_inv : Inv begin.
Proof.
  split; cbn; [reflexivity|split; [reflexivity|intros []; reflexivity]|tauto|discriminate| |lia].
  intros k. pose proof (capacity_pos k). destruct k; cbn in *; lia.
Qed.

Lemma enqueue_rows (k : Class_) (l : Row) (w w' : ErrLogWorker) (ok : bool) :
  enqueue k l w = (w', ok) -> queued w' ++ (if ok then [] else [(k, l)]) ≡ₚ queued w ++ [(k, l)].
Proof.
  intros H. apply enqueue_spec in H as (_ & H & _). pose proof (H Exempt) as H1. pose proof (H Reject) as H2. cbn in H1, H2.
  unfold queued, batch_rows. rewrite H1, H2. destruct k, ok; cbn; rewrite ?app_nil_r, ?tag_app; solve_Permutation.
Qed.

Lemma enqueue_bound (k : Class_) (l : Row) (w w' : ErrLogWorker) (ok : bool) :
  enqueue k l w = (w', ok) -> (forall k, Z.of_nat (length (queue k w)) <= capacity k) ->
  forall k, Z.of_nat (length (queue k w')) <= capacity k.
Proof.
  intros H Hb k'. apply enqueue_spec in H as (_ & H & Hok & _). rewrite H, length_app. specialize (Hb k').
  destruct ok; [|cbn; lia]. destruct (proj1 Hok eq_refl) as [_ Hc]. destruct (bool_decide_reflect (k' = k)) as [->|]; cbn; lia.
Qed.

Lemma lose_if (ok : bool) (l : list (Class_ * Row)) (g : Ledger) :
  lg_stored (if ok then g else lose l g) = lg_stored g /\ lg_lost (if ok then g else lose l g) = lg_lost g ++ (if ok then [] else l).
Proof. destruct ok; cbn; rewrite ?app_nil_r; split; reflexivity. Qed.

Lemma offer_inv (w w' : ErrLogWorker) (p : Phase) (c : Shut) (O : list (Class_ * Row)) (g : Ledger) (k : Class_) (l : Row) (ok : bool) :
  enqueue k l w = (w', ok) -> Inv (mkSys w p c O g) -> Inv (mkSys w' p c (O ++ [(k, l)]) (if ok then g else lose [(k, l)] g)).
Proof.
  intros H [H1 H2 H3 H4 H5 H6]. pose proof (enqueue_rows _ _ _ _ _ H) as Hr. pose proof (enqueue_bound _ _ _ _ _ H H5) as Hb.
  destruct (enqueue_spec _ _ _ _ _ H) as (E1 & _ & E3 & E4). destruct (lose_if ok [(k, l)] g) as [L1 L2].
  split; unfold live in *; cbn in *; [|apply (E4 g H2)|rewrite E1; exact H3|exact H4|exact Hb|exact H6]. rewrite L1, L2, H1. destruct c.
  3:{ destruct ok; [|cbn; solve_Permutation]. destruct (proj1 E3 eq_refl) as [Hc _]. apply H3 in Hc. discriminate. }
  all: transitivity ((queued w ++ [(k, l)]) ++ held p ++ lg_stored g ++ lg_lost g); [solve_Permutation|rewrite <- Hr; solve_Permutation].
Qed.

Lemma refill_inv (w w' : ErrLogWorker) (c : Shut) (O : list (Class_ * Row)) (g : Ledger) (l : Row) (ex rj : list Row) (ok : bool) :
  enqueue Exempt l w = (w', ok) -> Inv (mkSys w (Refill (l :: ex) rj) c O g) ->
  Inv (mkSys w' (Refill ex rj) c O (if ok then g else lose [(Exempt, l)] g)).
Proof.
  intros H [H1 H2 H3 H4 H5 H6]. pose proof (enqueue_rows _ _ _ _ _ H) as Hr. pose proof (enqueue_bound _ _ _ _ _ H H5) as Hb.
  destruct (enqueue_spec _ _ _ _ _ H) as (E1 & _ & _ & E4). destruct (lose_if ok [(Exempt, l)] g) as [L1 L2].
  assert (length (batch_rows ex rj) <= batch_n)%nat as Hl.
  { change (length (batch_rows (l :: ex) rj) <= batch_n)%nat in H6. rewrite length_batch, length_app in *. cbn in H6. lia. }
  split; unfold live in *; cbn in *; [|apply (E4 g H2)|rewrite E1; exact H3|intros Hc; discriminate (H4 Hc)|exact Hb|exact Hl]. rewrite L1, L2, H1. destruct c.
  3:{ discriminate (H4 eq_refl). }
  all: transitivity ((queued w ++ [(Exempt, l)]) ++ batch_rows ex rj ++ lg_stored g ++ lg_lost g); [unfold batch_rows; solve_Permutation|rewrite <- Hr; solve_Permutation].
Qed.

Lemma close_inv (w w' : ErrLogWorker) (O : list (Class_ * Row)) (g g' : Ledger) (b : Budget) :
  Close b w g = Some (w', g') -> Inv (mkSys w Exited Closing O g) -> Inv (mkSys w' Exited Closed O g').
Proof.
  intros H [H1 H2 H3 H4 H5 H6]. apply drain_spec in H as (D1 & D2 & D3 & D4). split; unfold live in *; cbn in *.
  - rewrite D1. exact H1.
  - apply D2. apply (counts_same w); [reflexivity|intros []; reflexivity|exact H2].
  - rewrite D3. split; discriminate.
  - reflexivity.
  - intros k. specialize (H5 k). specialize (D4 k). destruct k; cbn in *; lia.
  - lia.
Qed.

(** A step that only moves rows between the queues, the worker and the ledger. *)
Lemma moves_inv (w w' : ErrLogWorker) (p p' : Phase) (c : Shut) (O : list (Class_ * Row)) (g g' : Ledger) :
  p <> Exited -> Inv (mkSys w p c O g) ->
  queued w' ++ held p' ++ lg_stored g' ++ lg_lost g' ≡ₚ queued w ++ held p ++ lg_stored g ++ lg_lost g ->
  (Counts w g -> Counts w' g') -> ew_closed w' = ew_closed w ->
  (forall k, (length (queue k w') <= length (queue k w))%nat) -> (length (held p') <= batch_n)%nat ->
  Inv (mkSys w' p' c O g').
Proof.
  intros Hp [H1 H2 H3 H4 H5 H6] Hr Hc He Hq Hb.
  assert (c <> Closed) as Hn by (intros ->; exact (Hp (H4 eq_refl))).
  split; unfold live in *; cbn in *; [|auto|rewrite He; exact H3|tauto| |exact Hb].
  - destruct c; [rewrite H1, Hr; reflexivity|rewrite H1, Hr; reflexivity|tauto].
  - intros k. specialize (H5 k). specialize (Hq k). lia.
Qed.

Lemma set_queue_same (k : Class_) (q : list Row) (w : ErrLogWorker) (g : Ledger) : Counts w g -> Counts (set_queue k q w) g.
Proof. apply counts_same; [destruct k; reflexivity|intros []; destruct k; reflexivity]. Qed.

Lemma reset_same (w : ErrLogWorker) :
  queued (reset_warnings w) = queued w /\ (forall g, Counts w g -> Counts (reset_warnings w) g) /\
  ew_closed (reset_warnings w) = ew_closed w /\ forall k, queue k (reset_warnings w) = queue k w.
Proof.
  unfold queued, reset_warnings. destruct (ew_exemptQ w) eqn:E1, (ew_rejectQ w) eqn:E2; cbn; rewrite ?E1, ?E2; try tauto.
  split_and!; [reflexivity|intros g; apply counts_same; [reflexivity|intros []; reflexivity]|reflexivity|intros []; cbn; congruence].
Qed.

Lemma pop_length (k k' : Class_) (l : Row) (q : list Row) (w : ErrLogWorker) :
  queue k w = l :: q -> (length (queue k' (set_queue k q w)) <= length (queue k' w))%nat.
Proof. intros E. destruct k, k'; cbn in *; rewrite ?E; cbn; lia. Qed.

Lemma log_step_inv (s s' : Sys) : step true s s' -> Inv s -> Inv s'.
Proof.
  intros H I. pose proof (iv_batch _ I) as Hl.
  destruct H; [eapply offer_inv; eassumption| | | | | | | | |eapply refill_inv; eassumption| | | | |eapply close_inv; eassumption|discriminate].
  all: try (eapply moves_inv; [|exact I| | | | |]; [discriminate|..]; try reflexivity; try exact Hl; try tauto; try (intros []; reflexivity); try apply Nat.le_0_l; try apply set_queue_same).
  - unfold queued, held, batch_rows. rewrite H, tag_app. cbn. solve_Permutation.
  - intros k. apply (pop_length Exempt k l q). exact H.
  - cbn in *. rewrite length_batch, !length_app in *. cbn in *. lia.
  - unfold queued, held, batch_rows. rewrite H, tag_app. cbn. solve_Permutation.
  - intros k. apply (pop_length Reject k l q). exact H.
  - cbn in *. rewrite length_batch, !length_app in *. cbn in *. lia.
  - cbn. unfold queued. cbn. solve_Permutation.
  - apply counts_store. rewrite length_batch. reflexivity.
  - cbn. unfold queued. cbn. unfold batch_rows. cbn. solve_Permutation.
  - apply (counts_dropBatch [] rj).
  - rewrite (proj1 (reset_same w)). reflexivity.
  - apply reset_same.
  - apply reset_same.
  - intros k. destruct (reset_same w) as (_ & _ & _ & E). rewrite E. reflexivity.
  - destruct I as [I1 I2 I3 I4 I5 I6]. split; unfold live in *; cbn in *; [exact I1| |split; discriminate|discriminate| |exact I6].
    + apply (counts_same w); [reflexivity|intros []; reflexivity|exact I2].
    + intros k. specialize (I5 k). destruct k; exact I5.
Qed.

Lemma log_reachable_inv (s : Sys) : reachable true s -> Inv s.
Proof. unfold reachable. revert s. apply (rtc_ind_r (R := step true)); [apply begin_inv|]. intros s s' _ H IH. exact (log_step_inv _ _ H IH). Qed.

(** ** Exempt rows *)

Lemma of_class_app (k : Class_) (l1 l2 : list (Class_ * Row)) : of_class k (l1 ++ l2) = of_class k l1 ++ of_class k l2.
Proof. apply filter_app. Qed.

Lemma exempts_batch (ex rj : list Row) : of_class Exempt (batch_rows ex rj) = tag Exempt ex.
Proof. unfold batch_rows. rewrite of_class_app, !of_class_tag. cbn. apply app_nil_r. Qed.

(** The exempt rows are somewhere. *)
Lemma exempts_somewhere (s : Sys) : Inv s -> y_shut s <> Closed ->
  of_class Exempt (y_offered s) ≡ₚ
  tag Exempt (ew_exemptQ (y_w s)) ++ of_class Exempt (held (y_phase s)) ++ of_class Exempt (lg_stored (y_log s)) ++ of_class Exempt (lg_lost (y_log s)).
Proof.
  intros [H _ _ _ _ _] Hs. unfold of_class at 1. rewrite H. fold (of_class Exempt (live s ++ held (y_phase s) ++ lg_stored (y_log s) ++ lg_lost (y_log s))).
  rewrite !of_class_app. unfold live. destruct (y_shut s); [| |tauto]; unfold queued; rewrite exempts_batch; reflexivity.
Qed.

(** A queue with room does not drop. *)
Lemma enqueue_room (l : Row) (w w' : ErrLogWorker) (ok : bool) :
  enqueue Exempt l w = (w', ok) -> ew_closed w = false -> Z.of_nat (length (ew_exemptQ w)) < capacity Exempt -> ok = true.
Proof. intros H Hc Hl. apply enqueue_spec in H as (_ & _ & [_ H] & _). apply H. split; assumption. Qed.

(** No exempt row is lost while at most [ExemptQueueSize] of them were offered. *)
Definition kept (s : Sys) : Prop :=
  y_shut s = Open -> Z.of_nat (length (of_class Exempt (y_offered s))) <= capacity Exempt -> of_class Exempt (lg_lost (y_log s)) = [].

Lemma offer_kept (w w' : ErrLogWorker) (p : Phase) (c : Shut) (O : list (Class_ * Row)) (g : Ledger) (k : Class_) (l : Row) (ok : bool) :
  enqueue k l w = (w', ok) -> Inv (mkSys w p c O g) -> kept (mkSys w p c O g) ->
  kept (mkSys w' p c (O ++ [(k, l)]) (if ok then g else lose [(k, l)] g)).
Proof.
  intros H I K Ho Hn. cbn [y_shut y_offered y_log] in Ho, Hn |- *. subst c. rewrite of_class_app, length_app in Hn. destruct (lose_if ok [(k, l)] g) as [_ ->].
  rewrite of_class_app, K; [|reflexivity|cbn [y_offered]; lia]. destruct ok, k; try reflexivity.
  pose proof (exempts_somewhere _ I ltac:(discriminate)) as He. apply Permutation_length in He. rewrite !length_app, length_tag in He. cbn in He.
  change (length (of_class Exempt [(Exempt, l)])) with 1%nat in Hn.
  apply enqueue_room in H; [discriminate|apply (iv_closed _ I); reflexivity|lia].
Qed.

Lemma refill_kept (w w' : ErrLogWorker) (c : Shut) (O : list (Class_ * Row)) (g : Ledger) (l : Row) (ex rj : list Row) (ok : bool) :
  enqueue Exempt l w = (w', ok) -> Inv (mkSys w (Refill (l :: ex) rj) c O g) -> kept (mkSys w (Refill (l :: ex) rj) c O g) ->
  kept (mkSys w' (Refill ex rj) c O (if ok then g else lose [(Exempt, l)] g)).
Proof.
  intros H I K Ho Hn. cbn [y_shut y_offered y_log] in Ho, Hn |- *. subst c. destruct (lose_if ok [(Exempt, l)] g) as [_ ->].
  rewrite of_class_app, K; [|reflexivity|exact Hn]. destruct ok; [reflexivity|].
  pose proof (exempts_somewhere _ I ltac:(discriminate)) as He. apply Permutation_length in He. cbn [y_phase held y_w y_offered y_log] in He.
  rewrite exempts_batch, !length_app, !length_tag in He. cbn [length] in He.
  apply enqueue_room in H; [discriminate|apply (iv_closed _ I); reflexivity|lia].
Qed.

Lemma step_kept (s s' : Sys) : step true s s' -> Inv s -> kept s -> kept s'.
Proof.
  intros H I K. destruct H; [eapply offer_kept; eassumption| | | | | | | | |eapply refill_kept; eassumption| | | | | |discriminate].
  all: try exact K; try (intros Ho; discriminate).
  intros Ho Hn. specialize (K Ho Hn). cbn in K |- *. rewrite of_class_app, of_class_tag, K. reflexivity.
Qed.

Lemma reachable_kept (s : Sys) : reachable true s -> kept s.
Proof.
  intros H. apply (rtc_ind_r (R := step true) (fun s => reachable true s /\ kept s) begin) in H; [exact (proj2 H)|split; [constructor|]|].
  - intros _ _. reflexivity.
  - intros x y Hx Hs [_ K]. split; [eapply rtc_r; eassumption|]. apply (step_kept x); [exact Hs|apply log_reachable_inv, Hx|exact K].
Qed.

(** ** What the log promises *)

(** C12: In every interleaving of request handlers, the worker and a [Close] whose
    wait for the loop succeeded (the loop had ended before the drain; a [Close] that
    gives up waiting can count rows twice, [truncated_rows_counted_twice]), every row ever offered is in a queue, held
    by the worker, in the database or counted as dropped, and in one of these only;
    the counters are the sizes of the last two, per class; the queues never exceed
    their capacities, whatever the load, and no insert has more rows than the batch
    size. *)
Theorem errlog_accounts (s : Sys) : reachable true s ->
  y_offered s ≡ₚ live s ++ held (y_phase s) ++ lg_stored (y_log s) ++ lg_lost (y_log s) /\
  Counts (y_w s) (y_log s) /\
  Queued (y_w s) <= QueueSize cfg + ExemptQueueSize cfg /\
  (length (held (y_phase s)) <= batch_n)%nat.
Proof.
  intros H. destruct (log_reachable_inv s H) as [H1 H2 _ _ H5 H6]. split_and!; [exact H1|exact H2| |exact H6].
  pose proof (H5 Exempt). pose proof (H5 Reject). unfold Queued. cbn in *. lia.
Qed.

Lemma classes_length (l : list (Class_ * Row)) : (length (of_class Exempt l) + length (of_class Reject l))%nat = length l.
Proof. induction l as [|[[] x] l IH]; [reflexivity| |]; unfold of_class in *; rewrite !filter_cons; repeat case_decide; cbn in *; try discriminate; try tauto; lia. Qed.

(** After [Close] the counters reconcile, for any budget and any database:
    the rows inserted and the rows dropped of both classes add up to the rows
    offered (as 64-bit sums). *)
Theorem errlog_reconciles (s : Sys) : reachable true s -> y_shut s = Closed ->
  ew_inserted (y_w s) [+] ew_droppedExempt (y_w s) [+] ew_droppedReject (y_w s) = wrap64 (Z.of_nat (length (y_offered s))).
Proof.
  intros H Hc. destruct (log_reachable_inv s H) as [H1 [C1 C2] _ H4 _ _]. unfold live in H1. rewrite Hc, (H4 Hc) in H1. cbn in H1.
  pose proof (C2 Exempt) as CE. pose proof (C2 Reject) as CR. cbn in CE, CR. apply Permutation_length in H1. rewrite length_app in H1.
  pose proof (classes_length (lg_lost (y_log s))). rewrite C1, CE, CR, !add64_wrap_wrap. f_equal. lia.
Qed.

(** No storm of refused requests and no run of failing inserts costs a row of
    a failed request: while at most [ExemptQueueSize] of these were offered, none
    is dropped before shutdown, and a [Close] that finds the loop ended, its budget
    kept and each of their batches inserted at the first or the second try leaves
    all of them in the database. *)
Theorem errlog_exempt_kept (s : Sys) (b : Budget) :
  reachable true s -> y_shut s = Open -> Z.of_nat (length (of_class Exempt (y_offered s))) <= ExemptQueueSize cfg ->
  y_phase s = Exited -> (forall i, bg_over b i = false) -> (forall i, bg_insert b i = true \/ bg_retry b i = true) ->
  of_class Exempt (lg_lost (y_log s)) = [] /\
  exists w' g', Close b (y_w s) (y_log s) = Some (w', g') /\ of_class Exempt (lg_stored g') ≡ₚ of_class Exempt (y_offered s) /\ Queued w' = 0.
Proof.
  intros H Ho Hn Hp Hb Hi. pose proof (reachable_kept s H Ho Hn) as K. split; [exact K|].
  destruct (drain_fuel_enough (drain_fuel (y_w s)) 0 b (set_closed (y_w s)) (y_log s)) as [[w' g'] E].
  { rewrite length_queued. unfold drain_fuel. cbn. lia. }
  exists w', g'. split; [exact E|]. destruct (drain_keeps_exempt _ _ _ _ _ _ _ Hb Hi E) as (D1 & D2 & _).
  apply drain_spec in E as (E & _). rewrite K in D1. split.
  - pose proof (exempts_somewhere s (log_reachable_inv s H)) as He. rewrite Ho, Hp, K in He. specialize (He ltac:(discriminate)). cbn [held] in He.
    rewrite He. assert (of_class Exempt (lg_stored g' ++ lg_lost g') ≡ₚ of_class Exempt (queued (set_closed (y_w s)) ++ lg_stored (y_log s) ++ lg_lost (y_log s))) as E'
      by (unfold of_class; rewrite E; reflexivity).
    rewrite !of_class_app, D1, K, !app_nil_r in E'. rewrite E'. unfold queued. rewrite exempts_batch. cbn. rewrite app_nil_r. reflexivity.
  - apply (f_equal length) in D2. rewrite length_queued in D2. unfold Queued. cbn in D2. lia.
Qed.

(** [Close] ends: whatever the budget and the database do, the drain takes at
    most one turn per queued row. *)
Theorem errlog_close_terminates (b : Budget) (w : ErrLogWorker) (g : Ledger) : is_Some (Close b w g).
Proof. apply drain_fuel_enough. rewrite length_queued. unfold drain_fuel. cbn. lia. Qed.
End ErrLog.

(** ** Runs *)

Definition demo_conf : ErrLogConfig := mkErrLogConfig 1 2 1.

#[local] Tactic Notation "go" uconstr(c) := eapply rtc_l; [eapply c; cbn; try reflexivity; try lia; try (left; reflexivity); try (right; reflexivity); try discriminate|]; cbn.

(** Two rows of failed requests and two of refused ones; the second refused one
    finds the queue full, the first insert fails and its row is queued again. *)
Definition demo_errlog (w : ErrLogWorker) (c : Shut) (g : Ledger) : Sys (Row := nat) :=
  mkSys w Exited c [(Exempt, 1%nat); (Reject, 3%nat); (Reject, 4%nat); (Exempt, 2%nat)] g.

Definition demo_errlog_open : Sys := demo_errlog (mkWorker false [2%nat; 1%nat] [3%nat] 1 0 0 false false) Open (mkLedger [] [(Reject, 4%nat)]).

Definition demo_errlog_closed : Sys :=
  demo_errlog (mkWorker true [] [] 1 0 3 false false) Closed (mkLedger [(Exempt, 2%nat); (Exempt, 1%nat); (Reject, 3%nat)] [(Reject, 4%nat)]).

Lemma demo_errlog_run : reachable demo_conf true demo_errlog_open.
Proof.
  unfold reachable, begin, NewErrLogWorker.
  go (st_offer demo_conf true _ _ _ _ _ Exempt 1%nat). go (st_offer demo_conf true _ _ _ _ _ Reject 3%nat). go (st_offer demo_conf true _ _ _ _ _ Reject 4%nat).
  go (st_offer demo_conf true _ _ _ _ _ Exempt 2%nat). go (st_tick (Row := nat) demo_conf true). go (st_takeE (Row := nat) demo_conf true).
  go (st_takeE_end (Row := nat) demo_conf true). go (st_takeR_end (Row := nat) demo_conf true). go (st_insert_failed (Row := nat) demo_conf true).
  go (st_refill (Row := nat) demo_conf true). go (st_refill_end (Row := nat) demo_conf true). go (st_edges (Row := nat) demo_conf true).
  go (st_exit (Row := nat) demo_conf true). apply rtc_refl.
Defined.

Lemma demo_errlog_close : reachable demo_conf true demo_errlog_closed.
Proof.
  apply (rtc_r (R := step demo_conf true) _ (demo_errlog (mkWorker true [2%nat; 1%nat] [3%nat] 1 0 0 false false) Closing (mkLedger [] [(Reject, 4%nat)]))).
  - eapply rtc_r; [exact demo_errlog_run|]. apply st_close.
  - apply (st_drain demo_conf true _ _ _ (mkBudget (fun _ => false) (fun _ => true) (fun _ => false))). reflexivity.
Defined.

Lemma errlog_accounts_witness :
  reachable demo_conf true demo_errlog_open /\ Counts (y_w demo_errlog_open) (y_log demo_errlog_open) /\ Queued (y_w demo_errlog_open) = 3.
Proof. split; [exact demo_errlog_run|split; [exact (proj1 (proj2 (errlog_accounts demo_conf _ demo_errlog_run)))|reflexivity]]. Defined.

Lemma errlog_reconciles_witness : reachable demo_conf true demo_errlog_closed /\ 3 [+] 0 [+] 1 = wrap64 4.
Proof. split; [exact demo_errlog_close|exact (errlog_reconciles demo_conf _ demo_errlog_close eq_refl)]. Defined.

Lemma errlog_exempt_kept_witness : exists w' g',
  Close demo_conf (mkBudget (fun _ => false) (fun _ => false) (fun _ => true)) (y_w demo_errlog_open) (y_log demo_errlog_open) = Some (w', g') /\
  of_class Exempt (lg_stored g') ≡ₚ [(Exempt, 1%nat); (Exempt, 2%nat)] /\ Queued w' = 0.
Proof.
  apply (errlog_exempt_kept demo_conf demo_errlog_open); [exact demo_errlog_run|reflexivity|vm_compute; discriminate|reflexivity|reflexivity|].
  intros i. right. reflexivity.
Defined.

(** When [Close] stops waiting for the loop, rows still queued are counted as
    dropped although the loop can still insert them: two rows were offered, one is
    in the database, and the counters add up to three. *)
Theorem truncated_rows_counted_twice : exists s : @Sys nat, reachable demo_conf false s /\ y_shut s = Closed /\
  length (y_offered s) = 2%nat /\ ew_inserted (y_w s) [+] ew_droppedExempt (y_w s) [+] ew_droppedReject (y_w s) = 3.
Proof.
  eexists. split.
  - unfold reachable, begin, NewErrLogWorker.
    go (st_offer demo_conf false _ _ _ _ _ Exempt 1%nat). go (st_offer demo_conf false _ _ _ _ _ Exempt 2%nat). go (st_close (Row := nat) demo_conf false).
    go (st_late demo_conf false _ _ _ _ (mkBudget (fun _ => true) (fun _ => false) (fun _ => false))).
    go (st_tick (Row := nat) demo_conf false). go (st_takeE (Row := nat) demo_conf false). go (st_takeE_end (Row := nat) demo_conf false).
    go (st_takeR_end (Row := nat) demo_conf false). go (st_inserted (Row := nat) demo_conf false). apply rtc_refl.
  - repeat split; reflexivity.
Qed.
