(* ===== verification/Invalidate.v ===== *)
(** * Debounced invalidation ([internal/invalidate/invalidate.go])

    Administrative changes mark what they made stale; marks are merged into one
    dirty state by compare-and-swap, and a single goroutine reloads the union once
    the window that the first mark opened is over, again and again until nothing is
    dirty.

    Marks (load, compare-and-swap, wake-up) and the goroutine (wake-up, timer, swap,
    each reload, re-check) are interleaved step by step.  A reload is the event that
    the snapshot is read anew; whether the read succeeds is the business of the
    component that owns the snapshot. *)

From Stdlib Require Import ZArith Lia List Bool.
From stdpp Require Import base option list gmap sets relations.
From S2P Require Import Prelude.
Import ListNotations.
Local Open Scope Z_scope.
Local Open Scope list_scope.

(** ** Data *)

(** [Kind]: bits of a [uint8]. *)
Definition Kind := Z.
Definition KindUsers : Kind := 1.
Definition KindTemplates : Kind := 2.
Definition KindClients : Kind := 4.
Definition KindMultipliers : Kind := 8.
Definition KindKeys : Kind := 16.
Definition KindSettings : Kind := 32.
Definition KindRules : Kind := 64.

Definition has (k bit : Kind) : bool := negb (Z.land k bit =? 0).

Record State := mkState { Kinds : Kind; Groups : gset Z }.

(** Which optional reloaders are wired. *)
Record Config := mkConfig { c_Balances : bool; c_Settings : bool; c_Rules : bool }.

(** The calls of [reloadAll]. *)
Inductive Reload :=
| AuthReload
| BalancesReload
| SchedAll
| SchedGroup (g : Z)
| ClientsAll
| MultipliersReload
| SettingsReload
| RulesReload.

#[export] Instance Reload_eq_dec : EqDecision Reload.
Proof. solve_decision. Defined.

(** A call of [mark]. *)
Record Mark := mkMark { m_kind : Kind; m_groups : list Z }.

(** The new dirty state of a [mark] that found [old]. *)
Definition merge (m : Mark) (old : option State) : State :=
  match old with
  | None => mkState (m_kind m) (list_to_set (m_groups m))
  | Some o => mkState (Z.lor (m_kind m) (Kinds o)) (Groups o ∪ list_to_set (m_groups m))
  end.

(** The operations of the debouncer, as the marks they make one after another. *)
Definition Users : list Mark := [mkMark KindUsers []].
Definition Templates : list Mark := [mkMark (Z.lor KindTemplates KindClients) []].
Definition Clients : list Mark := [mkMark KindClients []].
Definition Multipliers : list Mark := [mkMark KindMultipliers []].
Definition Keys : list Mark := [mkMark KindKeys []].
Definition Settings : list Mark := [mkMark KindSettings []].
Definition Rules : list Mark := [mkMark KindRules []].
Definition Accounts (gids : list Z) (keyChanged : bool) : list Mark :=
  match gids, keyChanged with
  | [], false => []
  | _, _ => mkMark 0 gids :: (if keyChanged then [mkMark KindClients []] else [])
  end.
Definition GroupsChanged (gids : list Z) : list Mark := match gids with [] => [] | _ => [mkMark 0 gids] end.

Section Debouncer.
Variable cfg : Config.

(** [reloadAll]; [gids] is the order in which the groups are ranged over. *)
Definition reloadAll (kinds : Kind) (gids : list Z) : list Reload :=
  (if has kinds KindUsers then AuthReload :: (if c_Balances cfg then [BalancesReload] else []) else []) ++
  (if has kinds KindTemplates then [SchedAll] else []) ++
  (if has kinds KindTemplates then [] else map SchedGroup gids) ++
  (if has kinds (Z.lor KindTemplates KindClients) then [ClientsAll] else []) ++
  (if has kinds KindMultipliers && c_Balances cfg then [MultipliersReload] else []) ++
  (if has kinds KindKeys then [AuthReload] else []) ++
  (if has kinds KindSettings && c_Settings cfg then [SettingsReload] else []) ++
  (if has kinds KindRules && c_Rules cfg then [RulesReload] else []).

(** ** The wiring matrix, as a specification *)

(** What a change of some kinds and groups makes stale. *)
Definition stale (kinds : Kind) (groups : Z -> Prop) (r : Reload) : Prop :=
  match r with
  | AuthReload => has kinds KindUsers = true \/ has kinds KindKeys = true
  | BalancesReload => has kinds KindUsers = true /\ c_Balances cfg = true
  | SchedAll => has kinds KindTemplates = true
  | SchedGroup g => groups g
  | ClientsAll => has kinds KindTemplates = true \/ has kinds KindClients = true
  | MultipliersReload => has kinds KindMultipliers = true /\ c_Balances cfg = true
  | SettingsReload => has kinds KindSettings = true /\ c_Settings cfg = true
  | RulesReload => has kinds KindRules = true /\ c_Rules cfg = true
  end.

(** A full reload of the scheduler refreshes every group. *)
Definition refreshes (r stale : Reload) : Prop := r = stale \/ (r = SchedAll /\ exists g, stale = SchedGroup g).

#[export] Instance refreshes_dec (r x : Reload) : Decision (refreshes r x).
Proof.
  unfold refreshes. destruct (decide (r = x)) as [E|E]; [left; tauto|]. destruct (decide (r = SchedAll)) as [F|F]; [|right; tauto].
  destruct x; try (right; intros [?|[_ [? ?]]]; congruence). left. eauto.
Defined.

Definition covered (rs : list Reload) (r : Reload) : Prop := exists x, x ∈ rs /\ refreshes x r.

(** ** The system *)

(** The cell [d.state]: a pointer and what it points to. *)
Definition Cell := option (nat * State).

(** A caller: about to load, about to compare-and-swap, about to wake the
    goroutine. *)
Inductive Caller :=
| Ready (todo : list Mark)
| Loaded (m : Mark) (old : Cell) (todo : list Mark)
| Waking (todo : list Mark).

(** The goroutine: in its [select] with or without a timer, entering [flush], with
    the rest of a [reloadAll], about to swap after it saw a dirty state, ended. *)
Inductive Phase :=
| Select (timer : bool)
| Flush
| Reloading (rest : list Reload)
| Again
| Ended.

(** [s_due], [s_marks] and [s_rounds] are history: what is stale and not reloaded
    since, the marks that took effect, the calls of [reloadAll]. *)
Record Sys := mkSys {
  s_cell : Cell; s_fresh : nat; s_wake : bool; s_callers : list Caller; s_phase : Phase;
  s_due : Reload -> Prop; s_marks : nat; s_rounds : nat
}.

Definition initial : Sys := mkSys None 0 false [] (Select false) (fun _ => False) 0 0.

Definition same_pointer (a b : Cell) : bool := bool_decide (fst <$> a = fst <$> b).

(** The goroutine's own steps. *)
Inductive loop_step : Sys -> Sys -> Prop :=
| lp_wake_empty n cs t D a b : loop_step (mkSys None n true cs (Select t) D a b) (mkSys None n false cs (Select t) D a b)
| lp_wake p n cs t D a b : loop_step (mkSys (Some p) n true cs (Select t) D a b) (mkSys (Some p) n false cs (Select true) D a b)
| lp_timer c n w cs D a b : loop_step (mkSys c n w cs (Select true) D a b) (mkSys c n w cs Flush D a b)
| lp_flush_empty n w cs D a b : loop_step (mkSys None n w cs Flush D a b) (mkSys None n w cs (Select false) D a b)
| lp_swap x st n w cs ph gids D a b : ph = Flush \/ ph = Again -> gids ≡ₚ elements (Groups st) ->
    loop_step (mkSys (Some (x, st)) n w cs ph D a b) (mkSys None n w cs (Reloading (reloadAll (Kinds st) gids)) D a (S b))
| lp_reload c n w cs r rest D a b :
    loop_step (mkSys c n w cs (Reloading (r :: rest)) D a b) (mkSys c n w cs (Reloading rest) (fun x => D x /\ ~ refreshes r x) a b)
| lp_clean n w cs D a b : loop_step (mkSys None n w cs (Reloading []) D a b) (mkSys None n w cs (Select false) D a b)
| lp_dirty p n w cs D a b : loop_step (mkSys (Some p) n w cs (Reloading []) D a b) (mkSys (Some p) n w cs Again D a b).

Inductive step : Sys -> Sys -> Prop :=
| st_call c n w cs ph D a b ms : step (mkSys c n w cs ph D a b) (mkSys c n w (cs ++ [Ready ms]) ph D a b)
| st_load c n w c1 m ms c2 ph D a b :
    step (mkSys c n w (c1 ++ Ready (m :: ms) :: c2) ph D a b) (mkSys c n w (c1 ++ Loaded m c ms :: c2) ph D a b)
| st_cas c n w c1 m old ms c2 ph D a b : same_pointer c old = true ->
    step (mkSys c n w (c1 ++ Loaded m old ms :: c2) ph D a b)
      (mkSys (Some (n, merge m (snd <$> old))) (S n) w (c1 ++ (match old with None => Waking ms | Some _ => Ready ms end) :: c2) ph
         (fun x => D x \/ stale (m_kind m) (fun g => g ∈ m_groups m) x) (S a) b)
| st_cas_lost c n w c1 m old ms c2 ph D a b : same_pointer c old = false ->
    step (mkSys c n w (c1 ++ Loaded m old ms :: c2) ph D a b) (mkSys c n w (c1 ++ Ready (m :: ms) :: c2) ph D a b)
| st_wake c n w c1 ms c2 ph D a b :
    step (mkSys c n w (c1 ++ Waking ms :: c2) ph D a b) (mkSys c n true (c1 ++ Ready ms :: c2) ph D a b)
| st_loop s s' : loop_step s s' -> step s s'
| st_cancel c n w cs t D a b : step (mkSys c n w cs (Select t) D a b) (mkSys c n w cs Ended D a b).

Definition reachable (s : Sys) : Prop := rtc step initial s.

(** ** Kinds *)

Lemma has_lor (a b bit : Kind) : has (Z.lor a b) bit = has a bit || has b bit.
Proof.
  unfold has. rewrite Z.land_lor_distr_l. destruct (Z.eqb_spec (Z.lor (Z.land a bit) (Z.land b bit)) 0) as [E|E].
  - apply Z.lor_eq_0_iff in E as [-> ->]. reflexivity.
  - destruct (Z.eqb_spec (Z.land a bit) 0) as [Ea|], (Z.eqb_spec (Z.land b bit) 0) as [Eb|]; try reflexivity. rewrite Ea, Eb in E. destruct (E eq_refl).
Qed.

Lemma has_either (k a b : Kind) : has k (Z.lor a b) = has k a || has k b.
Proof. unfold has. rewrite !(Z.land_comm k). apply (has_lor a b k). Qed.

Lemma stale_mono (k k' : Kind) (g g' : Z -> Prop) (x : Reload) :
  (forall bit, has k bit = true -> has k' bit = true) -> (forall i, g i -> g' i) -> stale k g x -> stale k' g' x.
Proof. intros Hk Hg. destruct x; cbn; intuition. Qed.

Definition dirty (c : Cell) (x : Reload) : Prop :=
  match c with None => False | Some (_, st) => stale (Kinds st) (fun g => g ∈ Groups st) x end.

(** A mark adds its own kinds and groups and keeps those found. *)
Lemma merge_new (m : Mark) (old : option State) (x : Reload) :
  stale (m_kind m) (fun g => g ∈ m_groups m) x -> stale (Kinds (merge m old)) (fun g => g ∈ Groups (merge m old)) x.
Proof.
  destruct old as [o|]; cbn; apply stale_mono; try tauto.
  - intros bit H. rewrite has_lor, H. reflexivity.
  - intros g H. apply elem_of_union_r, elem_of_list_to_set, H.
  - intros g H. apply elem_of_list_to_set, H.
Qed.

Lemma merge_old (m : Mark) (o : State) (x : Reload) :
  stale (Kinds o) (fun g => g ∈ Groups o) x -> stale (Kinds (merge m (Some o))) (fun g => g ∈ Groups (merge m (Some o))) x.
Proof.
  apply stale_mono; cbn.
  - intros bit H. rewrite has_lor, H. apply orb_true_r.
  - intros g H. apply elem_of_union_l, H.
Qed.

(** [reloadAll] does what the matrix asks for. *)
Lemma reloadAll_covers (st : State) (gids : list Z) (x : Reload) :
  gids ≡ₚ elements (Groups st) -> stale (Kinds st) (fun g => g ∈ Groups st) x -> covered (reloadAll (Kinds st) gids) x.
Proof.
  intros Hg Hx. unfold covered, reloadAll. rewrite has_either.
  destruct x; cbn in Hx;
    [exists AuthReload|exists BalancesReload|exists SchedAll|destruct (has (Kinds st) KindTemplates) eqn:Et; [exists SchedAll|exists (SchedGroup g)]
    |exists ClientsAll|exists MultipliersReload|exists SettingsReload|exists RulesReload];
    (split; [|unfold refreshes; eauto]); rewrite !elem_of_app.
  - destruct Hx as [-> | ->]; [left|do 5 right; left]; apply elem_of_cons; tauto.
  - destruct Hx as [-> ->]. left. rewrite !elem_of_cons. tauto.
  - rewrite Hx. right. left. apply elem_of_cons. tauto.
  - right. left. apply elem_of_cons. tauto.
  - right. right. left. apply list_elem_of_fmap. exists g. split; [reflexivity|]. rewrite Hg. apply elem_of_elements, Hx.
  - do 3 right. left. destruct Hx as [-> | ->]; rewrite ?orb_true_r; apply elem_of_cons; tauto.
  - destruct Hx as [-> ->]. do 4 right. left. apply elem_of_cons. tauto.
  - destruct Hx as [-> ->]. do 6 right. left. apply elem_of_cons. tauto.
  - destruct Hx as [-> ->]. do 7 right. apply elem_of_cons. tauto.
Qed.

(** ** The invariant *)

Definition rest_of (ph : Phase) : list Reload := match ph with Reloading rest => rest | _ => [] end.

(** Pointers are fresh, and a pointer loaded earlier still points to the same
    state. *)
Definition pointers_ok (c : Cell) (n : nat) (cs : list Caller) : Prop :=
  (forall x st, c = Some (x, st) -> (x < n)%nat) /\
  (forall m x st ms, Loaded m (Some (x, st)) ms ∈ cs -> (x < n)%nat /\ forall st', c = Some (x, st') -> st' = st).

Record Inv (s : Sys) : Prop := mkInv {
  iv_due x : s_due s x -> dirty (s_cell s) x \/ covered (rest_of (s_phase s)) x;
  iv_wake : s_cell s <> None -> s_phase s <> Select false \/ s_wake s = true \/ exists ms, Waking ms ∈ s_callers s;
  iv_again : s_phase s = Again -> s_cell s <> None;
  iv_pointers : pointers_ok (s_cell s) (s_fresh s) (s_callers s);
  iv_rounds : (s_rounds s + (match s_cell s with None => 0 | Some _ => 1 end) <= s_marks s)%nat
}.

Lemma initial_inv : Inv initial.
Proof.
  split; cbn; [tauto|tauto|discriminate| |lia]. split; [discriminate|]. intros m x st ms H. apply not_elem_of_nil in H. destruct H.
Qed.

Lemma pointers_weaken (c : Cell) (n : nat) (cs cs' : list Caller) :
  (forall m x st ms, Loaded m (Some (x, st)) ms ∈ cs' -> Loaded m (Some (x, st)) ms ∈ cs) -> pointers_ok c n cs -> pointers_ok c n cs'.
Proof. intros H [H1 H2]. split; [exact H1|]. intros m x st ms Hm. exact (H2 m x st ms (H _ _ _ _ Hm)). Qed.

Lemma pointers_none (c : Cell) (n : nat) (cs : list Caller) : pointers_ok c n cs -> pointers_ok None n cs.
Proof. intros [_ H]. split; [discriminate|]. intros m x st ms Hm. split; [exact (proj1 (H _ _ _ _ Hm))|discriminate]. Qed.

Lemma loop_inv (s s' : Sys) : loop_step s s' -> Inv s -> Inv s'.
Proof.
  intros H [H1 H2 H3 H4 H5]. destruct H as [|p|c n w cs D a b| |x st n w cs ph gids D a b Hph Hg|c n w cs r rest D a b| |p]; cbn in *; split; cbn;
    try exact H4; try discriminate; try tauto; try lia; try (intros; left; discriminate); try exact H2; try exact H5.
  - intros x0 Hx. right. apply reloadAll_covers; [exact Hg|]. destruct (H1 x0 Hx) as [Hd|Hc]; [exact Hd|].
    destruct Hph as [-> | ->]; destruct Hc as (y & Hy & _); apply not_elem_of_nil in Hy; destruct Hy.
  - apply (pointers_none _ _ _ H4).
  - intros x [Hx Hr]. destruct (H1 x Hx) as [Hd|(y & Hy & Hry)]; [tauto|]. right. apply elem_of_cons in Hy as [->|Hy]; [tauto|]. exists y. tauto.
Qed.

Lemma same_pointer_state (c old : Cell) (n : nat) (cs : list Caller) (m : Mark) (ms : list Mark) :
  pointers_ok c n cs -> Loaded m old ms ∈ cs -> same_pointer c old = true -> snd <$> old = snd <$> c.
Proof.
  intros [_ H] Hm Hs. unfold same_pointer in Hs. apply bool_decide_eq_true in Hs. destruct c as [[x st]|], old as [[y st']|]; cbn in *; try discriminate; [|reflexivity].
  injection Hs as <-. destruct (H m x st' ms Hm) as [_ E]. rewrite (E st eq_refl). reflexivity.
Qed.

Lemma cas_inv (c old : Cell) (n : nat) (w : bool) (c1 c2 : list Caller) (m : Mark) (ms : list Mark) (ph : Phase) (D : Reload -> Prop) (a b : nat) :
  same_pointer c old = true -> Inv (mkSys c n w (c1 ++ Loaded m old ms :: c2) ph D a b) ->
  Inv (mkSys (Some (n, merge m (snd <$> old))) (S n) w (c1 ++ (match old with None => Waking ms | Some _ => Ready ms end) :: c2) ph
         (fun x => D x \/ stale (m_kind m) (fun g => g ∈ m_groups m) x) (S a) b).
Proof.
  intros Hs [H1 H2 H3 H4 H5]. cbn in *.
  assert (snd <$> old = snd <$> c) as E by (apply (same_pointer_state c old n _ m ms H4); [apply elem_of_app; right; left|exact Hs]).
  split; cbn.
  - intros x [Hx|Hx]; [|left; apply merge_new, Hx]. destruct (H1 x Hx) as [Hd|Hc]; [|tauto]. left. rewrite E. destruct c as [[y st]|]; [|destruct Hd]. apply merge_old, Hd.
  - intros _. destruct old as [[y st]|].
    + destruct c as [[z st']|]; [|discriminate]. destruct H2 as [H2|[H2|(ms' & H2)]]; [discriminate|tauto|tauto|]. right. right. exists ms'.
      rewrite elem_of_app, elem_of_cons in *. destruct H2 as [H2|[H2|H2]]; [tauto|discriminate|tauto].
    + right. right. exists ms. apply elem_of_app. right. left.
  - discriminate.
  - split; [intros x st [= <- _]; lia|]. intros m' x st ms' Hm. rewrite elem_of_app, elem_of_cons in Hm.
    assert (Loaded m' (Some (x, st)) ms' ∈ c1 ++ Loaded m old ms :: c2) as Hm' by (rewrite elem_of_app, elem_of_cons; destruct Hm as [Hm|[Hm|Hm]]; [tauto|destruct old; discriminate|tauto]).
    destruct H4 as [_ H4]. apply H4 in Hm' as [Hlt _]. split; [lia|]. intros st' [= Hx _]. lia.
  - destruct c; lia.
Qed.

(** A caller's step that does not change the cell. *)
Lemma caller_inv (c : Cell) (n : nat) (w w' : bool) (cs cs' : list Caller) (ph : Phase) (D : Reload -> Prop) (a b : nat) :
  Inv (mkSys c n w cs ph D a b) -> (w = true -> w' = true) ->
  (forall ms, Waking ms ∈ cs -> w' = true \/ Waking ms ∈ cs') ->
  (forall m x st ms, Loaded m (Some (x, st)) ms ∈ cs' -> Loaded m (Some (x, st)) ms ∈ cs \/ c = Some (x, st)) ->
  Inv (mkSys c n w' cs' ph D a b).
Proof.
  intros [H1 H2 H3 [H4 H4'] H5] Hw Hk Hl. split; cbn in *; try assumption.
  - intros Hc. destruct (H2 Hc) as [?|[?|(ms & Hms)]]; [tauto|tauto|]. destruct (Hk ms Hms); [tauto|]. right. right. eauto.
  - split; [exact H4|]. intros m x st ms Hm. destruct (Hl m x st ms Hm) as [Ho| ->]; [exact (H4' m x st ms Ho)|].
    split; [exact (H4 x st eq_refl)|]. intros st' [= ->]. reflexivity.
Qed.

Lemma replace_waking (c1 c2 : list Caller) (x y : Caller) (ms : list Mark) :
  Waking ms ∈ c1 ++ x :: c2 -> x = Waking ms \/ Waking ms ∈ c1 ++ y :: c2.
Proof. rewrite !elem_of_app, !elem_of_cons. intros [?|[<-|?]]; tauto. Qed.

Lemma replace_loaded (c1 c2 : list Caller) (x y : Caller) (m : Mark) (old : Cell) (ms : list Mark) :
  Loaded m old ms ∈ c1 ++ y :: c2 -> y = Loaded m old ms \/ Loaded m old ms ∈ c1 ++ x :: c2.
Proof. rewrite !elem_of_app, !elem_of_cons. intros [?|[<-|?]]; tauto. Qed.

Lemma debounce_step_inv (s s' : Sys) : step s s' -> Inv s -> Inv s'.
Proof.
  intros H I. destruct H as [c n w cs ph D a b ms|c n w c1 m ms c2 ph D a b|c n w c1 m old ms c2 ph D a b Hs|c n w c1 m old ms c2 ph D a b Hs|c n w c1 ms c2 ph D a b|s s' Hl|c n w cs t D a b].
  - apply (caller_inv _ _ w _ cs); [exact I|tauto|intros; right; apply elem_of_app; tauto|].
    intros m x st ms' Hm. apply elem_of_app in Hm as [Hm|Hm]; [tauto|]. apply list_elem_of_singleton in Hm. discriminate.
  - apply (caller_inv _ _ w _ (c1 ++ Ready (m :: ms) :: c2)); [exact I|tauto| |].
    + intros ms' Hm. destruct (replace_waking _ _ _ (Loaded m c ms) _ Hm); [discriminate|tauto].
    + intros m' x st ms' Hm. destruct (replace_loaded _ _ (Ready (m :: ms)) _ _ _ _ Hm) as [[= _ -> _]|?]; tauto.
  - eapply cas_inv; eassumption.
  - apply (caller_inv _ _ w _ (c1 ++ Loaded m old ms :: c2)); [exact I|tauto| |].
    + intros ms' Hm. destruct (replace_waking _ _ _ (Ready (m :: ms)) _ Hm); [discriminate|tauto].
    + intros m' x st ms' Hm. destruct (replace_loaded _ _ (Loaded m old ms) _ _ _ _ Hm) as [?|?]; [discriminate|tauto].
  - apply (caller_inv _ _ w _ (c1 ++ Waking ms :: c2)); [exact I|tauto|tauto|].
    intros m' x st ms' Hm. destruct (replace_loaded _ _ (Waking ms) _ _ _ _ Hm) as [?|?]; [discriminate|tauto].
  - exact (loop_inv _ _ Hl I).
  - destruct I as [H1 H2 H3 H4 H5]. split; cbn in *; [exact H1|intros _; left; discriminate|discriminate|exact H4|exact H5].
Qed.

Lemma debounce_reachable_inv (s : Sys) : reachable s -> Inv s.
Proof. unfold reachable. revert s. apply (rtc_ind_r (R := step)); [apply initial_inv|]. intros s s' _ H IH. exact (debounce_step_inv _ _ H IH). Qed.

(** ** Progress *)

Lemma reloadAll_length (k : Kind) (l l' : list Z) : length l = length l' -> length (reloadAll k l) = length (reloadAll k l').
Proof. intros E. unfold reloadAll. rewrite !length_app. destruct (has k KindTemplates); rewrite ?length_map, ?E; reflexivity. Qed.

(** What the goroutine has before it. *)
Definition phase_work (ph : Phase) : nat :=
  match ph with Select false | Ended => 0 | Select true => 5 | Flush => 4 | Reloading rest => 3 + length rest | Again => 2 end.

Definition cell_work (c : Cell) : nat :=
  match c with None => 0 | Some (_, st) => 6 + length (reloadAll (Kinds st) (elements (Groups st))) end.

Definition work (s : Sys) : nat := (if s_wake s then 6 else 0) + cell_work (s_cell s) + phase_work (s_phase s).

Lemma loop_work (s s' : Sys) : loop_step s s' -> (work s' < work s)%nat.
Proof.
  intros H. destruct H as [|p| | |x st n w cs ph gids D a b Hph Hg|c n w cs r rest D a b| |p]; unfold work; cbn [s_wake s_cell s_phase phase_work cell_work length];
    try (destruct w); try (destruct t); try lia; destruct Hph as [-> | ->]; cbn [phase_work];
    pose proof (reloadAll_length (Kinds st) gids (elements (Groups st)) (Permutation_length Hg)); lia.
Qed.

(** The goroutine waits only when nothing woke it and no timer runs. *)
Lemma loop_progress (s : Sys) : (s_phase s = Again -> s_cell s <> None) -> s_phase s <> Ended ->
  (exists s', loop_step s s') \/ (s_phase s = Select false /\ s_wake s = false).
Proof.
  destruct s as [c n w cs ph D a b]. cbn. intros Ha He. destruct ph as [t| |[|r rest]| |]; [| | | | |tauto].
  - destruct w; [left; destruct c; eexists; constructor|]. destruct t; [left; eexists; constructor|tauto].
  - left. destruct c as [[x st]|]; eexists; [eapply (lp_swap x st); [tauto|reflexivity]|constructor].
  - left. destruct c; eexists; constructor.
  - left. eexists. constructor.
  - left. destruct c as [[x st]|]; [|destruct (Ha eq_refl eq_refl)]. eexists. eapply (lp_swap x st); [tauto|reflexivity].
Qed.

Lemma loop_not_ended (s s' : Sys) : loop_step s s' -> s_phase s' <> Ended /\ s_callers s' = s_callers s.
Proof. destruct 1; split; (discriminate || reflexivity). Qed.

(** The goroutine alone. *)
Lemma loop_runs (n : nat) : forall s s' : Sys, nsteps loop_step n s s' -> Inv s -> s_phase s <> Ended ->
  (n + work s' <= work s)%nat /\ Inv s' /\ s_phase s' <> Ended /\ s_callers s' = s_callers s.
Proof.
  induction n as [|n IH]; intros s s' H I He; inversion H as [|? ? t ? H1 H2]; subst; [split_and!; [lia|assumption|assumption|reflexivity]|].
  pose proof (loop_work _ _ H1). destruct (loop_not_ended _ _ H1) as [He' Hc].
  destruct (IH t s' H2 (loop_inv _ _ H1 I) He') as (Hw & I' & Hp & Hc'). split_and!; [lia|exact I'|exact Hp|congruence].
Qed.

(** ** What the debouncer promises *)

(** C36: In every interleaving of marks, wake-ups, the timer and reloads: whatever a
    mark made stale and no reload refreshed since is in the dirty state or still
    to come in the reload under way; a dirty state is never left without a wake-up,
    a timer or a running flush (no lost wake-up); a reload never starts on an empty
    state; and there are at most as many reloads as marks. *)
Theorem no_invalidation_lost (s : Sys) : reachable s ->
  (forall x, s_due s x -> dirty (s_cell s) x \/ covered (rest_of (s_phase s)) x) /\
  (s_cell s <> None -> s_phase s <> Select false \/ s_wake s = true \/ exists ms, Waking ms ∈ s_callers s) /\
  (s_phase s = Again -> s_cell s <> None) /\
  (s_rounds s <= s_marks s)%nat.
Proof. intros H. destruct (debounce_reachable_inv s H) as [H1 H2 H3 _ H5]. split_and!; [exact H1|exact H2|exact H3|destruct (s_cell s); lia]. Qed.

(** C37: Once the callers are done, the goroutine comes to rest within a bounded
    number of its own steps, whatever order it takes them in, and then every
    change has been reloaded. *)
Theorem invalidation_settles (s s' : Sys) (n : nat) : reachable s -> s_phase s <> Ended -> (forall c, c ∈ s_callers s -> c = Ready []) ->
  nsteps loop_step n s s' ->
  (n <= work s)%nat /\ ((exists s'', loop_step s' s'') \/ (s_cell s' = None /\ s_phase s' = Select false /\ forall x, ~ s_due s' x)).
Proof.
  intros H He Hc Hn. destruct (loop_runs n s s' Hn (debounce_reachable_inv s H) He) as (Hw & I & He' & Hcs). split; [lia|].
  destruct (loop_progress s' (iv_again _ I) He') as [?|[Hs Hk]]; [tauto|]. right.
  assert (s_cell s' = None) as Hn'.
  { destruct (s_cell s') eqn:E; [|reflexivity]. destruct (iv_wake _ I) as [Hx|[Hx|(ms & Hx)]]; [congruence|congruence|congruence|].
    rewrite Hcs in Hx. apply Hc in Hx. discriminate. }
  split_and!; [exact Hn'|exact Hs|]. intros x Hx. destruct (iv_due _ I x Hx) as [Hd|(y & Hy & _)]; [rewrite Hn' in Hd; exact Hd|].
  rewrite Hs in Hy. apply not_elem_of_nil in Hy. exact Hy.
Qed.
End Debouncer.

(** ** A run *)

Definition demo_matrix : Config := mkConfig true false true.

(** An account of group 7 changed its key: two marks, the second merged into the
    first. *)
Definition demo_dirty : Sys :=
  mkSys (Some (1%nat, mkState 4 {[7]})) 2 true [Ready []] (Select false)
    (fun x => (False \/ stale demo_matrix 0 (fun g => g ∈ [7]) x) \/ stale demo_matrix 4 (fun g => g ∈ []) x) 2 0.

#[local] Tactic Notation "go" uconstr(c) := eapply rtc_l; [eapply c|]; cbn.

Lemma demo_dirty_reachable : reachable demo_matrix demo_dirty.
Proof.
  unfold reachable, initial. go (st_call demo_matrix _ _ _ _ _ _ _ _ (Accounts [7] true)).
  go (st_load demo_matrix _ _ _ []). eapply rtc_l; [eapply (st_cas demo_matrix _ _ _ []); reflexivity|]; cbn.
  go (st_wake demo_matrix _ _ _ []). go (st_load demo_matrix _ _ _ []). eapply rtc_l; [eapply (st_cas demo_matrix _ _ _ []); reflexivity|]. apply rtc_refl.
Qed.

Definition demo_settled (D : Reload -> Prop) : Sys := mkSys None 2 false [Ready []] (Select false) D 2 1.

Lemma demo_settling : exists D, nsteps (loop_step demo_matrix) 6 demo_dirty (demo_settled D).
Proof.
  eexists. eapply nsteps_l; [apply lp_wake|]. eapply nsteps_l; [apply lp_timer|].
  eapply nsteps_l; [apply (lp_swap demo_matrix 1 (mkState 4 {[7]}) _ _ _ _ [7]); [left; reflexivity|vm_compute; reflexivity]|].
  vm_compute reloadAll. eapply nsteps_l; [apply lp_reload|]. eapply nsteps_l; [apply lp_reload|]. eapply nsteps_l; [apply lp_clean|]. apply nsteps_O.
Qed.

Lemma no_invalidation_lost_witness : reachable demo_matrix demo_dirty /\ (s_rounds demo_dirty <= s_marks demo_dirty)%nat /\
  (forall x, s_due demo_dirty x -> dirty demo_matrix (s_cell demo_dirty) x \/ covered [] x).
Proof.
  destruct (no_invalidation_lost demo_matrix demo_dirty demo_dirty_reachable) as (H1 & _ & _ & H4).
  split; [exact demo_dirty_reachable|split; [exact H4|exact H1]].
Defined.

Lemma invalidation_settles_witness : s_due demo_dirty (SchedGroup 7) /\ exists D, nsteps (loop_step demo_matrix) 6 demo_dirty (demo_settled D) /\ forall x, ~ D x.
Proof.
  split; [left; right; left|]. destruct demo_settling as [D Hn]. exists D. split; [exact Hn|].
  destruct (invalidation_settles demo_matrix demo_dirty (demo_settled D) 6 demo_dirty_reachable ltac:(discriminate)
    (fun c Hc => proj1 (list_elem_of_singleton _ _) Hc) Hn) as [_ [[s'' Hs]|(_ & _ & H)]]; [inversion Hs|exact H].
Defined.
