(* ===== verification/StatsAgg.v ===== *)
(** * Statistics ([internal/usage/stats_agg.go], [internal/repository/stat_repo.go],
    [stat_entity_agg.go])

    Hourly statistics are rebuilt from the two log tables by a worker: it reads a
    window of the logs up to a lag behind the clock, recomputes all hours the window
    touches and replaces them in one transaction that also moves the watermark.

    Tables are lists of rows (the logs) and finite maps on their unique index (the
    statistics).  The SQL statements are given by what they compute; [GROUP BY] has
    one result row per key.  Statements may fail, and rows may arrive between the
    queries of one cycle. *)

From Stdlib Require Import ZArith Lia List Bool String.
From stdpp Require Import base option list gmap sets relations.
From stdpp Require Import strings.
From S2P Require Import Prelude GoString Domain GoTime.
Import ListNotations.
Local Open Scope Z_scope.
Local Open Scope list_scope.

(** ** Tables *)

(** The columns of [usage_logs] and [err_logs] the statements use.  [ttft_ms] is a
    duration since the start of the request. *)
Record UsageRow := mkUsageRow {
  ul_created_at : Time; ul_group_id : option Z; ul_account_id : option Z; ul_user_id : option Z; ul_key_id : option Z;
  ul_model : string; ul_error_type : string; ul_input_tokens : Z; ul_output_tokens : Z; ul_total_tokens : Z;
  ul_cache_read_tokens : Z; ul_cache_creation_tokens : Z; ul_cost : Z; ul_raw_cost : option Z; ul_call_count : Z; ul_ttft_ms : option N
}.

Record ErrRow := mkErrRow {
  el_created_at : Time; el_group_id : option Z; el_account_id : option Z; el_user_id : option Z; el_key_id : option Z;
  el_model : string; el_error_type : string
}.

Record Logs := mkLogs { usage_logs : list UsageRow; err_logs : list ErrRow }.

(** The measured columns of a bucket; entity buckets have no histogram. *)
Record Measures := mkMeasures {
  RequestCount : Z; ErrorCount : Z; InputTokens : Z; OutputTokens : Z; TotalTokens : Z; CacheReadTokens : Z;
  CacheCreationTokens : Z; CostSum : Z; RawCost : Z; CallCount : Z; TTFTTotalMS : Z; TTFTCount : Z; TTFTMaxMS : Z; TTFTHist : list Z
}.

Definition Hour : Duration := 3600000000000.
Definition hour_of (t : Time) : Time := Truncate t Hour.

(** [aggRowKey], [entityAggKey]: the unique indexes. *)
Definition CubeKey : Type := Time * Z * string.
Definition EntityKey : Type := Time * string * Z * string.

Record Db := mkDb {
  db_logs : Logs; usage_stats : gmap CubeKey Measures; usage_entity_stats : gmap EntityKey Measures; db_watermark : option Time
}.

(** ** The queries *)

Definition ttftHistBounds : list Z := [0; 50; 100; 200; 400; 800; 1600; 3200; 6400; 12800].

(** The bands of [aggHistExpr]. *)
Definition bands : list (Z * option Z) :=
  [(0, Some 50); (50, Some 100); (100, Some 200); (200, Some 400); (400, Some 800); (800, Some 1600); (1600, Some 3200);
   (3200, Some 6400); (6400, Some 12800); (12800, None)].

Definition in_band (b : Z * option Z) (ms : Z) : bool := (b.1 <=? ms) && (match b.2 with Some hi => ms <? hi | None => true end).

(** The first band has no lower bound in the statement. *)
Definition band_count (b : Z * option Z) (r : UsageRow) : Z :=
  match ul_ttft_ms r with Some ms => if in_band b (Z.of_N ms) then 1 else 0 | None => 0 end.

Definition ec_of (error_type : string) : Z := if String.eqb error_type "none" then 0 else 1.

(** What one row adds to the aggregates of its group. *)
Definition usage_measures (hist : bool) (r : UsageRow) : Measures :=
  mkMeasures 1 (ec_of (ul_error_type r)) (ul_input_tokens r) (ul_output_tokens r) (ul_total_tokens r) (ul_cache_read_tokens r)
    (ul_cache_creation_tokens r) (ul_cost r) (default 0 (ul_raw_cost r)) (ul_call_count r)
    (match ul_ttft_ms r with Some ms => Z.of_N ms | None => 0 end) (match ul_ttft_ms r with Some _ => 1 | None => 0 end)
    (match ul_ttft_ms r with Some ms => Z.of_N ms | None => 0 end) (if hist then map (fun b => band_count b r) bands else []).

Definition zero_hist (hist : bool) : list Z := if hist then map (fun _ => 0) bands else [].

Definition no_measures (hist : bool) : Measures := mkMeasures 0 0 0 0 0 0 0 0 0 0 0 0 0 (zero_hist hist).

Definition err_measures (hist : bool) (r : ErrRow) : Measures :=
  mkMeasures 1 (ec_of (el_error_type r)) 0 0 0 0 0 0 0 0 0 0 0 (zero_hist hist).

(** [count], [sum], [max] and the filtered counts, exactly. *)
Definition combine (a b : Measures) : Measures :=
  mkMeasures (RequestCount a + RequestCount b) (ErrorCount a + ErrorCount b) (InputTokens a + InputTokens b) (OutputTokens a + OutputTokens b)
    (TotalTokens a + TotalTokens b) (CacheReadTokens a + CacheReadTokens b) (CacheCreationTokens a + CacheCreationTokens b) (CostSum a + CostSum b)
    (RawCost a + RawCost b) (CallCount a + CallCount b) (TTFTTotalMS a + TTFTTotalMS b) (TTFTCount a + TTFTCount b)
    (Z.max (TTFTMaxMS a) (TTFTMaxMS b)) (zip_with Z.add (TTFTHist a) (TTFTHist b)).

Definition in_range (from to t : Time) : bool := (from <=? t) && (t <? to).

(** [GROUP BY]; rows without a key are filtered out by the [WHERE] clause. *)
Fixpoint group_by {R K : Type} `{Countable K} (zero : Measures) (key : R -> option K) (val : R -> Measures) (rows : list R) : gmap K Measures :=
  match rows with
  | [] => ∅
  | r :: rows =>
      let m := group_by zero key val rows in
      match key r with
      | None => m
      | Some k => <[k := combine (val r) (default zero (m !! k))]> m
      end
  end.

Definition released (error_type : string) : bool := String.eqb error_type "none" || String.eqb error_type "abort".

(** [aggUsageSQL], [aggErrLogSQL]. *)
Definition cube_usage_key (r : UsageRow) : option CubeKey :=
  if released (ul_error_type r) then Some (hour_of (ul_created_at r), default 0 (ul_group_id r), ul_model r) else None.
Definition cube_err_key (r : ErrRow) : option CubeKey :=
  if String.eqb (el_error_type r) "abort" then None else Some (hour_of (el_created_at r), default 0 (el_group_id r), el_model r).

Definition aggUsageSQL (from to : Time) (l : Logs) : gmap CubeKey Measures :=
  group_by (no_measures true) cube_usage_key (usage_measures true) (List.filter (fun r => in_range from to (ul_created_at r)) (usage_logs l)).
Definition aggErrLogSQL (from to : Time) (l : Logs) : gmap CubeKey Measures :=
  group_by (no_measures true) cube_err_key (err_measures true) (List.filter (fun r => in_range from to (el_created_at r)) (err_logs l)).

(** [statEntityCols]: the owner columns. *)
Inductive Entity := EAccount | EUser | EKey.
Definition entity_name (e : Entity) : string := match e with EAccount => "account" | EUser => "user" | EKey => "key" end.
Definition usage_owner (e : Entity) (r : UsageRow) : option Z := match e with EAccount => ul_account_id r | EUser => ul_user_id r | EKey => ul_key_id r end.
Definition err_owner (e : Entity) (r : ErrRow) : option Z := match e with EAccount => el_account_id r | EUser => el_user_id r | EKey => el_key_id r end.

Definition entity_usage_key (e : Entity) (r : UsageRow) : option EntityKey :=
  if released (ul_error_type r) then (fun i => (hour_of (ul_created_at r), entity_name e, i, ul_model r)) <$> usage_owner e r else None.
Definition entity_err_key (e : Entity) (r : ErrRow) : option EntityKey :=
  if String.eqb (el_error_type r) "abort" then None else (fun i => (hour_of (el_created_at r), entity_name e, i, el_model r)) <$> err_owner e r.

Definition aggEntityUsageSQL (e : Entity) (from to : Time) (l : Logs) : gmap EntityKey Measures :=
  group_by (no_measures false) (entity_usage_key e) (usage_measures false) (List.filter (fun r => in_range from to (ul_created_at r)) (usage_logs l)).
Definition aggEntityErrLogSQL (e : Entity) (from to : Time) (l : Logs) : gmap EntityKey Measures :=
  group_by (no_measures false) (entity_err_key e) (err_measures false) (List.filter (fun r => in_range from to (el_created_at r)) (err_logs l)).

(** ** Merging the sources *)

(** [mergeHist]. *)
Fixpoint mergeHist (dst src : list Z) : list Z :=
  match dst, src with
  | d :: dst, s :: src => (d [+] s) :: mergeHist dst src
  | dst, _ => dst
  end.

(** [mergeAggRow], [mergeEntityRow]: 64-bit additions. *)
Definition mergeAggRow (dst src : Measures) : Measures :=
  mkMeasures (RequestCount dst [+] RequestCount src) (ErrorCount dst [+] ErrorCount src) (InputTokens dst [+] InputTokens src)
    (OutputTokens dst [+] OutputTokens src) (TotalTokens dst [+] TotalTokens src) (CacheReadTokens dst [+] CacheReadTokens src)
    (CacheCreationTokens dst [+] CacheCreationTokens src) (CostSum dst [+] CostSum src) (RawCost dst [+] RawCost src) (CallCount dst [+] CallCount src)
    (TTFTTotalMS dst [+] TTFTTotalMS src) (TTFTCount dst [+] TTFTCount src)
    (if TTFTMaxMS dst <? TTFTMaxMS src then TTFTMaxMS src else TTFTMaxMS dst) (mergeHist (TTFTHist dst) (TTFTHist src)).

(** What [Scan] accepts: sums are numerics, the targets are 64-bit. *)
Definition fields (m : Measures) : list Z :=
  [RequestCount m; ErrorCount m; InputTokens m; OutputTokens m; TotalTokens m; CacheReadTokens m; CacheCreationTokens m; CostSum m; RawCost m;
   CallCount m; TTFTTotalMS m; TTFTCount m; TTFTMaxMS m] ++ TTFTHist m.
Definition fits (m : Measures) : Prop := Forall int64 (fields m).

#[export] Instance int64_dec (z : Z) : Decision (int64 z).
Proof. unfold int64. apply _. Defined.

#[export] Instance fits_dec (m : Measures) : Decision (fits m).
Proof. unfold fits. apply _. Defined.

(** One row of a result into the map of buckets. *)
Definition upsert {K : Type} `{Countable K} (merged : gmap K Measures) (row : K * Measures) : gmap K Measures :=
  match merged !! row.1 with
  | Some d => <[row.1 := mergeAggRow d row.2]> merged
  | None => <[row.1 := row.2]> merged
  end.

(** A query: it fails, or every row is scanned, in some order, and merged. *)
Definition scan_rows {K : Type} `{Countable K} (ok : bool) (q : gmap K Measures) (merged : gmap K Measures) : option (gmap K Measures) :=
  if ok && bool_decide (map_Forall (fun _ m => fits m) q) then Some (fold_left upsert (map_to_list q) merged) else None.

(** The database during a cycle: the lock ([None]: an error), whether each
    statement succeeds, and the logs as the [i]-th query sees them. *)
Record CycleEnv := mkCycleEnv {
  cy_lock : option bool; cy_loadWm : bool; cy_initWm : bool; cy_reloadWm : bool; cy_query : nat -> bool; cy_logs : nat -> Logs; cy_write : bool
}.

Section Cycle.
Variable env : CycleEnv.

Definition load_cube (from to : Time) : option (gmap CubeKey Measures) :=
  m ← scan_rows (cy_query env 0) (aggUsageSQL from to (cy_logs env 0)) ∅;
  scan_rows (cy_query env 1) (aggErrLogSQL from to (cy_logs env 1)) m.

Definition load_entity (n : nat) (e : Entity) (from to : Time) (m : gmap EntityKey Measures) : option (gmap EntityKey Measures) :=
  m ← scan_rows (cy_query env n) (aggEntityUsageSQL e from to (cy_logs env n)) m;
  scan_rows (cy_query env (S n)) (aggEntityErrLogSQL e from to (cy_logs env (S n))) m.

(** [loadEntityAggRange]. *)
Definition loadEntityAggRange (from to : Time) : option (gmap EntityKey Measures) :=
  m ← load_entity 2 EAccount from to ∅;
  m ← load_entity 4 EUser from to m;
  load_entity 6 EKey from to m.

(** [detailRows]: the requests counted by the two cube queries. *)
Definition sum_requests (q : gmap CubeKey Measures) : Z := foldr (fun r n => RequestCount r.2 [+] n) 0 (map_to_list q).

(** [LoadAggRange]; the sorting of the buckets only fixes the order of insertion. *)
Definition LoadAggRange (from to : Time) : option (gmap CubeKey Measures * gmap EntityKey Measures * Z) :=
  cube ← load_cube from to;
  entity ← loadEntityAggRange from to;
  Some (cube, entity, sum_requests (aggUsageSQL from to (cy_logs env 0)) [+] sum_requests (aggErrLogSQL from to (cy_logs env 1))).

(** Timestamps have microseconds in the database. *)
Definition pg_time (t : Time) : Time := t - t mod 1000.

Definition key_hour (k : CubeKey) : Time := k.1.1.
Definition entity_hour (k : EntityKey) : Time := k.1.1.1.

(** [DELETE ... WHERE bucket_time >= $1 AND bucket_time < $2] and the insertion of
    buckets, which a key already present would make fail. *)
Definition replace_range {K : Type} `{Countable K} (hour : K -> Time) (from to : Time) (new table : gmap K Measures) : option (gmap K Measures) :=
  let kept := filter (fun kv => in_range from to (hour kv.1) = false) table in
  if bool_decide ((dom new : gset K) ## dom kept) then Some (new ∪ kept) else None.

(** [AggregateRange]: all of it or nothing. *)
Definition AggregateRange (delFrom delTo wmTo : Time) (cube : gmap CubeKey Measures) (entity : gmap EntityKey Measures) (db : Db) : option Db :=
  if negb (cy_write env) then None
  else
    s ← replace_range key_hour delFrom delTo cube (usage_stats db);
    e ← replace_range entity_hour delFrom delTo entity (usage_entity_stats db);
    Some (mkDb (db_logs db) s e (Some (pg_time wmTo))).

(** [InitStatsAggWatermark]: [ON CONFLICT DO NOTHING]. *)
Definition InitStatsAggWatermark (t : Time) (db : Db) : Db :=
  match db_watermark db with
  | Some _ => db
  | None => mkDb (db_logs db) (usage_stats db) (usage_entity_stats db) (Some (pg_time t))
  end.

Definition statsAggCatchUpLimit : Duration := Hour.
Definition defaultStatsAggLag : Duration := 5000000000.

(** [NewStatsAgg]'s default. *)
Definition lag_of (lag : Duration) : Duration := if lag <=? 0 then defaultStatsAggLag else lag.

(** What the worker reports. *)
Record Observed := mkObserved { lastWatermark : Z; lastBuckets : Z; lastRows : Z }.

Definition UnixMilli (t : Time) : Z := (t - 62135596800000000000) / 1000000.

Definition len_of {K : Type} `{Countable K} (m : gmap K Measures) : Z := Z.of_nat (size m).

(** The read window's end: the clock less the lag, at most an hour ahead. *)
Definition window_end (now wm : Time) (lag : Duration) : Time :=
  let t := now - lag in
  if statsAggCatchUpLimit <? Sub t wm then wm + statsAggCatchUpLimit else t.

(** The cycle from the watermark on. *)
Definition aggregate_from (lag : Duration) (now wm : Time) (o : Observed) (db : Db) : Observed * Db :=
  let t := window_end now wm lag in
  if negb (After t wm) then (mkObserved (UnixMilli wm) (lastBuckets o) (lastRows o), db)
  else
    let r0 := Truncate wm Hour in
    let r1 := Truncate t Hour + Hour in
    match LoadAggRange r0 r1 with
    | None => (o, db)
    | Some (cube, entity, detailRows) =>
        match AggregateRange r0 r1 t cube entity db with
        | None => (o, db)
        | Some db => (mkObserved (UnixMilli t) (len_of cube + len_of entity) detailRows, db)
        end
    end.

(** [runOnce]. *)
Definition runOnce (lag : Duration) (now : Time) (o : Observed) (db : Db) : Observed * Db :=
  match cy_lock env with
  | None | Some false => (o, db)
  | Some true =>
      if negb (cy_loadWm env) then (o, db)
      else
        match db_watermark db with
        | Some wm => aggregate_from lag now wm o db
        | None =>
            if negb (cy_initWm env) then (o, db)
            else
              let db := InitStatsAggWatermark (now - lag) db in
              if negb (cy_reloadWm env) then (o, db)
              else match db_watermark db with Some wm => aggregate_from lag now wm o db | None => (o, db) end
        end
  end.
End Cycle.

(** ** Reference: counting *)

Definition zsum {A : Type} (f : A -> Z) (l : list A) : Z := foldr (fun x n => f x + n) 0 l.
Definition zmax {A : Type} (f : A -> Z) (l : list A) : Z := foldr (fun x n => Z.max (f x) n) 0 l.
Definition ttft_or_0 (r : UsageRow) : Z := match ul_ttft_ms r with Some ms => Z.of_N ms | None => 0 end.
Definition has_ttft (r : UsageRow) : Z := match ul_ttft_ms r with Some _ => 1 | None => 0 end.

(** The rows of a bucket. *)
Definition rows_at {R K : Type} `{Countable K} (key : R -> option K) (k : K) (rows : list R) : list R := List.filter (fun r => bool_decide (key r = Some k)) rows.

(** The bucket of some released rows and some error rows, counted directly. *)
Definition counted (hist : bool) (us : list UsageRow) (es : list ErrRow) : option Measures :=
  match us, es with
  | [], [] => None
  | _, _ =>
      Some (mkMeasures (wrap64 (Z.of_nat (length us + length es)))
        (wrap64 (zsum (fun r => ec_of (ul_error_type r)) us + zsum (fun r => ec_of (el_error_type r)) es))
        (zsum ul_input_tokens us) (zsum ul_output_tokens us) (zsum ul_total_tokens us) (zsum ul_cache_read_tokens us)
        (zsum ul_cache_creation_tokens us) (zsum ul_cost us) (zsum (fun r => default 0 (ul_raw_cost r)) us) (zsum ul_call_count us)
        (zsum ttft_or_0 us) (zsum has_ttft us) (zmax ttft_or_0 us)
        (if hist then map (fun b => zsum (band_count b) us) bands else []))
  end.

Definition cube_spec (l : Logs) (k : CubeKey) : option Measures :=
  counted true (rows_at cube_usage_key k (usage_logs l)) (rows_at cube_err_key k (err_logs l)).

Definition entity_of (k : EntityKey) : option Entity :=
  if String.eqb k.1.1.2 "account" then Some EAccount else if String.eqb k.1.1.2 "user" then Some EUser else if String.eqb k.1.1.2 "key" then Some EKey else None.

Definition entity_spec (l : Logs) (k : EntityKey) : option Measures :=
  match entity_of k with
  | Some e => counted false (rows_at (entity_usage_key e) k (usage_logs l)) (rows_at (entity_err_key e) k (err_logs l))
  | None => None
  end.

(** ** The system *)

(** [wo_first] is history: the hour of the first watermark. *)
Record World := mkWorld { wo_now : Time; wo_db : Db; wo_seen : Observed; wo_first : option Time }.

Definition set_logs (l : Logs) (db : Db) : Db := mkDb l (usage_stats db) (usage_entity_stats db) (db_watermark db).

Section System.
Variable lag : Duration.

(** [l'] is [l] with rows that arrived after [now], none older than the lag. *)
Definition arrivals (now : Time) (l l' : Logs) : Prop :=
  exists us es, usage_logs l' = usage_logs l ++ us /\ err_logs l' = err_logs l ++ es /\
    Forall (fun r => now - lag <= ul_created_at r) us /\ Forall (fun r => now - lag <= el_created_at r) es.

Definition note_first (now : Time) (first : option Time) (db : Db) : option Time :=
  match first, db_watermark db with
  | None, Some _ => Some (hour_of (pg_time (now - lag)))
  | _, _ => first
  end.

Inductive step : World -> World -> Prop :=
| st_tick now now' db o f : now <= now' -> step (mkWorld now db o f) (mkWorld now' db o f)
| st_arrive now db o f l : arrivals now (db_logs db) l -> step (mkWorld now db o f) (mkWorld now (set_logs l db) o f)
| st_cycle now db o f env o' db' : (forall i, arrivals now (db_logs db) (cy_logs env i)) -> runOnce env lag now o db = (o', db') ->
    step (mkWorld now db o f) (mkWorld now db' o' (note_first now f db')).
End System.

(** ** Grouping *)

(** There is no group without rows. *)
Definition if_any {A : Type} (f : list A -> Measures) (l : list A) : option Measures := match l with [] => None | _ => Some (f l) end.

Section Group.
Context {R K : Type} `{Countable K}.

Definition total (zero : Measures) (val : R -> Measures) (rows : list R) : Measures := foldr (fun r a => combine (val r) a) zero rows.

Lemma rows_at_cons (key : R -> option K) (k : K) (r : R) (rows : list R) :
  rows_at key k (r :: rows) = if bool_decide (key r = Some k) then r :: rows_at key k rows else rows_at key k rows.
Proof. reflexivity. Qed.

Lemma rows_at_app (key : R -> option K) (k : K) (l1 l2 : list R) : rows_at key k (l1 ++ l2) = rows_at key k l1 ++ rows_at key k l2.
Proof. apply List.filter_app. Qed.

Lemma rows_at_none (key : R -> option K) (k : K) (rows : list R) : Forall (fun r => key r <> Some k) rows -> rows_at key k rows = [].
Proof. induction 1 as [|r rows Hr _ IH]; [reflexivity|]. rewrite rows_at_cons, bool_decide_eq_false_2 by exact Hr. exact IH. Qed.

(** A group has the rows with its key, and there is no empty group. *)
Lemma group_by_lookup (zero : Measures) (key : R -> option K) (val : R -> Measures) (rows : list R) (k : K) :
  group_by zero key val rows !! k = if_any (total zero val) (rows_at key k rows).
Proof.
  induction rows as [|r rows IH]; [apply lookup_empty|]. rewrite rows_at_cons. cbn [group_by]. destruct (key r) as [k'|] eqn:E.
  - destruct (decide (k' = k)) as [->|Hk].
    + rewrite lookup_insert_eq, bool_decide_eq_true_2 by reflexivity. rewrite IH. cbn. destruct (rows_at key k rows); reflexivity.
    + rewrite lookup_insert_ne, bool_decide_eq_false_2 by congruence. exact IH.
  - rewrite bool_decide_eq_false_2 by discriminate. exact IH.
Qed.

(** A [WHERE] clause that all rows of a group satisfy does not change the group. *)
Lemma rows_at_filter (key : R -> option K) (k : K) (p : R -> bool) (rows : list R) :
  (forall r, key r = Some k -> p r = true) -> rows_at key k (List.filter p rows) = rows_at key k rows.
Proof.
  intros Hp. induction rows as [|r rows IH]; [reflexivity|]. cbn [List.filter]. destruct (p r) eqn:E; rewrite !rows_at_cons, IH; [reflexivity|].
  rewrite bool_decide_eq_false_2; [reflexivity|]. intros Hk. rewrite (Hp r Hk) in E. discriminate.
Qed.

Lemma rows_at_filter_none (key : R -> option K) (k : K) (p : R -> bool) (rows : list R) :
  (forall r, key r = Some k -> p r = false) -> rows_at key k (List.filter p rows) = [].
Proof.
  intros Hp. apply rows_at_none, Forall_forall. intros r Hr Hk. apply list_elem_of_In, List.filter_In in Hr as [_ Hr]. rewrite (Hp r Hk) in Hr. discriminate.
Qed.
End Group.

Section Merge.
Context {K : Type} `{Countable K}.

Definition merged_at (d s : option Measures) : option Measures :=
  match d, s with
  | Some d, Some s => Some (mergeAggRow d s)
  | Some d, None => Some d
  | None, s => s
  end.

Lemma upsert_lookup (m : gmap K Measures) (k k' : K) (b : Measures) :
  upsert m (k', b) !! k = if decide (k' = k) then merged_at (m !! k) (Some b) else m !! k.
Proof.
  unfold upsert. cbn. case_decide as E; [subst k'|].
  - destruct (m !! k); rewrite lookup_insert_eq; reflexivity.
  - destruct (m !! k'); rewrite lookup_insert_ne by exact E; reflexivity.
Qed.

Lemma upserts_lookup (l : list (K * Measures)) : forall (m : gmap K Measures) (k : K), NoDup l.*1 ->
  fold_left upsert l m !! k = merged_at (m !! k) ((list_to_map l : gmap K Measures) !! k).
Proof.
  induction l as [|[k' b] l IH]; intros m k Hn; cbn [fold_left].
  - cbn. rewrite lookup_empty. destruct (m !! k); reflexivity.
  - cbn in Hn. apply NoDup_cons in Hn as [Hk Hn]. rewrite IH by exact Hn. rewrite upsert_lookup. cbn [list_to_map foldr uncurry fst snd].
    change ((list_to_map ((k', b) :: l) : gmap K Measures) !! k) with (<[k' := b]> (list_to_map l : gmap K Measures) !! k).
    case_decide as E; [subst k'|rewrite lookup_insert_ne by exact E; reflexivity].
    rewrite lookup_insert_eq. apply not_elem_of_list_to_map_1 in Hk. rewrite Hk. destruct (m !! k); reflexivity.
Qed.

Lemma scan_rows_spec (ok : bool) (q m m' : gmap K Measures) : scan_rows ok q m = Some m' ->
  (forall k b, q !! k = Some b -> fits b) /\ forall k, m' !! k = merged_at (m !! k) (q !! k).
Proof.
  unfold scan_rows. destruct ok; [|discriminate]. cbn [andb]. destruct (bool_decide_reflect (map_Forall (fun _ m => fits m) q)) as [Hf|]; [|discriminate].
  intros [= <-]. split; [exact Hf|]. intros k. rewrite upserts_lookup by apply NoDup_fst_map_to_list. rewrite list_to_map_to_list. reflexivity.
Qed.
End Merge.

(** ** Aggregates are counts *)

Lemma zip_add_map {A : Type} (f g : A -> Z) (l : list A) : zip_with Z.add (map f l) (map g l) = map (fun x => f x + g x) l.
Proof. induction l as [|x l IH]; cbn; [reflexivity|f_equal; exact IH]. Qed.

Definition usage_count (hist : bool) (us : list UsageRow) : Measures :=
  mkMeasures (Z.of_nat (length us)) (zsum (fun r => ec_of (ul_error_type r)) us)
    (zsum ul_input_tokens us) (zsum ul_output_tokens us) (zsum ul_total_tokens us) (zsum ul_cache_read_tokens us)
    (zsum ul_cache_creation_tokens us) (zsum ul_cost us) (zsum (fun r => default 0 (ul_raw_cost r)) us) (zsum ul_call_count us)
    (zsum ttft_or_0 us) (zsum has_ttft us) (zmax ttft_or_0 us) (if hist then map (fun b => zsum (band_count b) us) bands else []).

Definition err_count (hist : bool) (es : list ErrRow) : Measures :=
  mkMeasures (Z.of_nat (length es)) (zsum (fun r => ec_of (el_error_type r)) es) 0 0 0 0 0 0 0 0 0 0 0 (zero_hist hist).

Lemma usage_total (hist : bool) (us : list UsageRow) : total (no_measures hist) (usage_measures hist) us = usage_count hist us.
Proof.
  induction us as [|r us IH]; [destruct hist; reflexivity|]. cbn [total foldr]. fold (total (no_measures hist) (usage_measures hist) us). rewrite IH.
  unfold combine, usage_count, usage_measures. cbn [RequestCount ErrorCount InputTokens OutputTokens TotalTokens CacheReadTokens CacheCreationTokens CostSum RawCost CallCount TTFTTotalMS TTFTCount TTFTMaxMS TTFTHist].
  f_equal; try reflexivity; [cbn [length]; lia|]. destruct hist; [apply zip_add_map|reflexivity].
Qed.

Lemma err_total (hist : bool) (es : list ErrRow) : total (no_measures hist) (err_measures hist) es = err_count hist es.
Proof.
  induction es as [|r es IH]; [reflexivity|]. cbn [total foldr]. fold (total (no_measures hist) (err_measures hist) es). rewrite IH.
  unfold combine, err_count, err_measures. cbn [RequestCount ErrorCount InputTokens OutputTokens TotalTokens CacheReadTokens CacheCreationTokens CostSum RawCost CallCount TTFTTotalMS TTFTCount TTFTMaxMS TTFTHist].
  f_equal; try reflexivity; [cbn [length]; lia|]. destruct hist; reflexivity.
Qed.

Lemma zmax_nonneg (us : list UsageRow) : 0 <= zmax ttft_or_0 us.
Proof. induction us as [|r us IH]; cbn; [lia|]. fold (zmax ttft_or_0 us). lia. Qed.

Lemma merge_zeros (l : list Z) : Forall int64 l -> forall z : list Z, Forall (fun x => x = 0) z -> mergeHist l z = l.
Proof.
  induction 1 as [|x l Hx _ IH]; intros z Hz; destruct z as [|y z]; try reflexivity. apply Forall_cons in Hz as [-> Hz]. cbn.
  rewrite add64_small by (rewrite Z.add_0_r; exact Hx). rewrite Z.add_0_r, IH by exact Hz. reflexivity.
Qed.

Lemma zero_hist_zero (hist : bool) : Forall (fun x => x = 0) (zero_hist hist).
Proof. destruct hist; repeat constructor. Qed.

Ltac keep_sum := rewrite add64_small; rewrite Z.add_0_r; [reflexivity|assumption].

(** The buckets of both sources, merged, are the direct count. *)
Lemma merged_counted (hist : bool) (us : list UsageRow) (es : list ErrRow) :
  (us <> [] -> fits (usage_count hist us)) -> (es <> [] -> fits (err_count hist es)) ->
  merged_at (if_any (usage_count hist) us) (if_any (err_count hist) es) = counted hist us es.
Proof.
  intros Hu He. destruct us as [|u us]; [destruct es as [|e es]; [reflexivity|]|].
  - specialize (He ltac:(discriminate)). unfold merged_at, if_any, counted. f_equal. unfold fits, fields in He. rewrite Forall_app, !Forall_cons in He.
    destruct He as [(H1 & H2 & _) _]. unfold err_count. f_equal; try reflexivity; [symmetry; exact (wrap64_small _ H1)|symmetry; exact (wrap64_small _ H2)].
  - specialize (Hu ltac:(discriminate)). cbn [if_any]. unfold fits, fields in Hu. rewrite Forall_app, !Forall_cons in Hu. set (U := u :: us) in *.
    destruct Hu as [(H1 & H2 & H3 & H4 & H5 & H6 & H7 & H8 & H9 & H10 & H11 & H12 & H13 & _) H14].
    destruct es as [|e es]; cbn [merged_at if_any].
    + unfold counted. subst U. f_equal. set (U := u :: us) in *. unfold usage_count at 1. cbn [length]. rewrite Nat.add_0_r.
      change (zsum (fun r : ErrRow => ec_of (el_error_type r)) []) with 0. rewrite Z.add_0_r. cbn [RequestCount ErrorCount usage_count] in H1, H2.
      rewrite (wrap64_small _ H1), (wrap64_small _ H2). reflexivity.
    + unfold counted. subst U. f_equal. set (U := u :: us) in *. set (E := e :: es) in *. unfold mergeAggRow, err_count.
      cbn [RequestCount ErrorCount InputTokens OutputTokens TotalTokens CacheReadTokens CacheCreationTokens CostSum RawCost CallCount TTFTTotalMS TTFTCount TTFTMaxMS TTFTHist usage_count] in *.
      pose proof (zmax_nonneg U). f_equal; try keep_sum; [unfold add64; f_equal; lia|destruct (Z.ltb_spec (zmax ttft_or_0 U) 0); [lia|reflexivity]|].
      apply merge_zeros; [exact H14|apply zero_hist_zero].
Qed.

(** ** Hours *)

Definition aligned (h : Time) : Prop := hour_of h = h.

Ltac hours := unfold aligned, hour_of, Truncate, pg_time, Hour in *; cbn [Z.leb Z.compare] in *; Z.to_euclidean_division_equations; lia.

Lemma hour_bounds (t : Time) : hour_of t <= t < hour_of t + Hour.
Proof. hours. Qed.

Lemma hour_aligned (t : Time) : aligned (hour_of t).
Proof. hours. Qed.

Lemma aligned_next (h : Time) : aligned h -> aligned (h + Hour).
Proof. hours. Qed.

(** An instant is in a range of hours exactly when its hour is. *)
Lemma in_range_hour (from to t : Time) : aligned from -> aligned to -> in_range from to t = in_range from to (hour_of t).
Proof.
  intros Hf Ht. unfold in_range. assert ((from <=? t) = (from <=? hour_of t)) as -> by (destruct (Z.leb_spec from t), (Z.leb_spec from (hour_of t)); try reflexivity; exfalso; hours).
  assert ((t <? to) = (hour_of t <? to)) as -> by (destruct (Z.ltb_spec t to), (Z.ltb_spec (hour_of t) to); try reflexivity; exfalso; hours). reflexivity.
Qed.

(** ** Queries *)

Section Query.
Context {R K : Type} `{Countable K}.
Variable hour : K -> Time.
Variable created : R -> Time.
Variable key : R -> option K.
Hypothesis key_hour_of : forall r k, key r = Some k -> hour k = hour_of (created r).

(** Rows that arrive after an hour is over are not in it. *)
Lemma rows_at_arrivals (k : K) (bound : Time) (rows new : list R) :
  Forall (fun r => bound <= created r) new -> hour k + Hour <= bound -> rows_at key k (rows ++ new) = rows_at key k rows.
Proof.
  intros Hn Hb. rewrite rows_at_app, (rows_at_none key k new), app_nil_r; [reflexivity|]. eapply Forall_impl; [exact Hn|]. cbn. intros r Hr Hk.
  apply key_hour_of in Hk. pose proof (hour_bounds (created r)). lia.
Qed.

Lemma query_at (zero : Measures) (val : R -> Measures) (from to : Time) (rows : list R) (k : K) : aligned from -> aligned to ->
  group_by zero key val (List.filter (fun r => in_range from to (created r)) rows) !! k =
  if in_range from to (hour k) then if_any (total zero val) (rows_at key k rows) else None.
Proof.
  intros Hf Ht. rewrite group_by_lookup. destruct (in_range from to (hour k)) eqn:E.
  - rewrite rows_at_filter; [reflexivity|]. intros r Hk. rewrite in_range_hour, <- (key_hour_of r k Hk) by assumption. exact E.
  - rewrite rows_at_filter_none; [reflexivity|]. intros r Hk. rewrite in_range_hour, <- (key_hour_of r k Hk) by assumption. exact E.
Qed.
End Query.

Lemma cube_usage_hour (r : UsageRow) (k : CubeKey) : cube_usage_key r = Some k -> key_hour k = hour_of (ul_created_at r).
Proof. unfold cube_usage_key. destruct (released _); [|discriminate]. intros [= <-]. reflexivity. Qed.

Lemma cube_err_hour (r : ErrRow) (k : CubeKey) : cube_err_key r = Some k -> key_hour k = hour_of (el_created_at r).
Proof. unfold cube_err_key. destruct (String.eqb _ _); [discriminate|]. intros [= <-]. reflexivity. Qed.

Lemma entity_usage_hour (e : Entity) (r : UsageRow) (k : EntityKey) : entity_usage_key e r = Some k -> entity_hour k = hour_of (ul_created_at r).
Proof. unfold entity_usage_key. destruct (released _); [|discriminate]. destruct (usage_owner e r); [|discriminate]. intros [= <-]. reflexivity. Qed.

Lemma entity_err_hour (e : Entity) (r : ErrRow) (k : EntityKey) : entity_err_key e r = Some k -> entity_hour k = hour_of (el_created_at r).
Proof. unfold entity_err_key. destruct (String.eqb _ _); [discriminate|]. destruct (err_owner e r); [|discriminate]. intros [= <-]. reflexivity. Qed.

Lemma entity_usage_name (e : Entity) (r : UsageRow) (k : EntityKey) : entity_usage_key e r = Some k -> entity_of k = Some e.
Proof. unfold entity_usage_key. destruct (released _); [|discriminate]. destruct (usage_owner e r); [|discriminate]. intros [= <-]. destruct e; reflexivity. Qed.

Lemma entity_err_name (e : Entity) (r : ErrRow) (k : EntityKey) : entity_err_key e r = Some k -> entity_of k = Some e.
Proof. unfold entity_err_key. destruct (String.eqb _ _); [discriminate|]. destruct (err_owner e r); [|discriminate]. intros [= <-]. destruct e; reflexivity. Qed.

(** Two scans of the two sources make the bucket counted directly. *)
Lemma two_scans {K : Type} `{Countable K} (hist b1 b2 : bool) (qu qe m m1 m2 : gmap K Measures) (k : K) (us : list UsageRow) (es : list ErrRow) :
  qu !! k = if_any (total (no_measures hist) (usage_measures hist)) us ->
  qe !! k = if_any (total (no_measures hist) (err_measures hist)) es ->
  m !! k = None -> scan_rows b1 qu m = Some m1 -> scan_rows b2 qe m1 = Some m2 -> m2 !! k = counted hist us es.
Proof.
  intros Hu He Hm S1 S2. apply scan_rows_spec in S1 as [F1 E1]. apply scan_rows_spec in S2 as [F2 E2].
  assert (if_any (total (no_measures hist) (usage_measures hist)) us = if_any (usage_count hist) us) as Tu by (destruct us; [reflexivity|]; cbn [if_any]; rewrite usage_total; reflexivity).
  assert (if_any (total (no_measures hist) (err_measures hist)) es = if_any (err_count hist) es) as Te by (destruct es; [reflexivity|]; cbn [if_any]; rewrite err_total; reflexivity).
  rewrite Tu in Hu. rewrite Te in He. rewrite E2, E1, Hm. cbn [merged_at]. rewrite Hu, He. apply merged_counted.
  - intros Hn. apply (F1 k). rewrite Hu. destruct us; [tauto|reflexivity].
  - intros Hn. apply (F2 k). rewrite He. destruct es; [tauto|reflexivity].
Qed.

Section Load.
Variable env : CycleEnv.
Variables lag now from to : Z.
Variable l : Logs.
Hypothesis Harr : forall i, arrivals lag now l (cy_logs env i).
Hypothesis Hfrom : aligned from.
Hypothesis Hto : aligned to.

(** The released rows and the error rows of a bucket whose hour is over are the
    same in all queries of the cycle. *)
Lemma usage_settled {K : Type} `{Countable K} (hour : K -> Time) (key : UsageRow -> option K) (k : K) (i : nat) :
  (forall r k, key r = Some k -> hour k = hour_of (ul_created_at r)) -> hour k + Hour <= now - lag ->
  rows_at key k (usage_logs (cy_logs env i)) = rows_at key k (usage_logs l).
Proof. intros Hk Hh. destruct (Harr i) as (us & es & -> & _ & Hu & _). exact (rows_at_arrivals hour ul_created_at key Hk k _ _ _ Hu Hh). Qed.

Lemma err_settled {K : Type} `{Countable K} (hour : K -> Time) (key : ErrRow -> option K) (k : K) (i : nat) :
  (forall r k, key r = Some k -> hour k = hour_of (el_created_at r)) -> hour k + Hour <= now - lag ->
  rows_at key k (err_logs (cy_logs env i)) = rows_at key k (err_logs l).
Proof. intros Hk Hh. destruct (Harr i) as (us & es & _ & -> & _ & He). exact (rows_at_arrivals hour el_created_at key Hk k _ _ _ He Hh). Qed.

Lemma load_cube_at (m : gmap CubeKey Measures) (k : CubeKey) : load_cube env from to = Some m -> key_hour k + Hour <= now - lag ->
  m !! k = if in_range from to (key_hour k) then cube_spec l k else None.
Proof.
  unfold load_cube. intros Hl Hk. apply bind_Some in Hl as (m1 & S1 & S2).
  pose proof (query_at key_hour ul_created_at cube_usage_key cube_usage_hour (no_measures true) (usage_measures true) from to (usage_logs (cy_logs env 0)) k Hfrom Hto) as Qu.
  pose proof (query_at key_hour el_created_at cube_err_key cube_err_hour (no_measures true) (err_measures true) from to (err_logs (cy_logs env 1)) k Hfrom Hto) as Qe.
  rewrite (usage_settled key_hour cube_usage_key k 0 cube_usage_hour Hk) in Qu. rewrite (err_settled key_hour cube_err_key k 1 cube_err_hour Hk) in Qe.
  destruct (in_range from to (key_hour k)).
  - exact (two_scans true _ _ _ _ _ _ _ k _ _ Qu Qe (lookup_empty k) S1 S2).
  - exact (two_scans true _ _ _ _ _ _ _ k [] [] Qu Qe (lookup_empty k) S1 S2).
Qed.

(** Nothing outside the range, whatever the rows. *)
Lemma load_cube_range (m : gmap CubeKey Measures) (k : CubeKey) : load_cube env from to = Some m -> in_range from to (key_hour k) = false -> m !! k = None.
Proof.
  unfold load_cube. intros Hl Hk. apply bind_Some in Hl as (m1 & S1 & S2).
  pose proof (query_at key_hour ul_created_at cube_usage_key cube_usage_hour (no_measures true) (usage_measures true) from to (usage_logs (cy_logs env 0)) k Hfrom Hto) as Qu.
  pose proof (query_at key_hour el_created_at cube_err_key cube_err_hour (no_measures true) (err_measures true) from to (err_logs (cy_logs env 1)) k Hfrom Hto) as Qe.
  rewrite Hk in Qu, Qe. exact (two_scans true _ _ _ _ _ _ _ k [] [] Qu Qe (lookup_empty k) S1 S2).
Qed.

(** The two queries of one kind of entity leave the others alone. *)
Lemma load_entity_other (n : nat) (e : Entity) (m m' : gmap EntityKey Measures) (k : EntityKey) :
  load_entity env n e from to m = Some m' -> entity_of k <> Some e -> m' !! k = m !! k.
Proof.
  unfold load_entity. intros Hl Hk. apply bind_Some in Hl as (m1 & S1 & S2). apply scan_rows_spec in S1 as [_ E1]. apply scan_rows_spec in S2 as [_ E2].
  rewrite E2, E1. unfold aggEntityUsageSQL, aggEntityErrLogSQL. rewrite !group_by_lookup.
  rewrite (rows_at_none (entity_usage_key e)), (rows_at_none (entity_err_key e)); [destruct (m !! k); reflexivity| |].
  - apply Forall_forall. intros r _ Hr. exact (Hk (entity_err_name e r k Hr)).
  - apply Forall_forall. intros r _ Hr. exact (Hk (entity_usage_name e r k Hr)).
Qed.

Lemma load_entity_range (n : nat) (e : Entity) (m m' : gmap EntityKey Measures) (k : EntityKey) :
  load_entity env n e from to m = Some m' -> m !! k = None -> in_range from to (entity_hour k) = false -> m' !! k = None.
Proof.
  unfold load_entity. intros Hl Hm Hr. apply bind_Some in Hl as (m1 & S1 & S2).
  pose proof (query_at entity_hour ul_created_at (entity_usage_key e) (entity_usage_hour e) (no_measures false) (usage_measures false) from to (usage_logs (cy_logs env n)) k Hfrom Hto) as Qu.
  pose proof (query_at entity_hour el_created_at (entity_err_key e) (entity_err_hour e) (no_measures false) (err_measures false) from to (err_logs (cy_logs env (S n))) k Hfrom Hto) as Qe.
  rewrite Hr in Qu, Qe. exact (two_scans false _ _ _ _ _ _ _ k [] [] Qu Qe Hm S1 S2).
Qed.

Lemma load_entity_at (n : nat) (e : Entity) (m m' : gmap EntityKey Measures) (k : EntityKey) :
  load_entity env n e from to m = Some m' -> entity_of k = Some e -> m !! k = None ->
  entity_hour k + Hour <= now - lag -> in_range from to (entity_hour k) = true -> m' !! k = entity_spec l k.
Proof.
  unfold load_entity, entity_spec. intros Hl Hn Hm Hk Hr. rewrite Hn. apply bind_Some in Hl as (m1 & S1 & S2).
  pose proof (query_at entity_hour ul_created_at (entity_usage_key e) (entity_usage_hour e) (no_measures false) (usage_measures false) from to (usage_logs (cy_logs env n)) k Hfrom Hto) as Qu.
  pose proof (query_at entity_hour el_created_at (entity_err_key e) (entity_err_hour e) (no_measures false) (err_measures false) from to (err_logs (cy_logs env (S n))) k Hfrom Hto) as Qe.
  rewrite Hr in Qu, Qe. rewrite (usage_settled entity_hour _ k n (entity_usage_hour e) Hk) in Qu. rewrite (err_settled entity_hour _ k (S n) (entity_err_hour e) Hk) in Qe.
  exact (two_scans false _ _ _ _ _ _ _ k _ _ Qu Qe Hm S1 S2).
Qed.

Lemma load_entities_range (m : gmap EntityKey Measures) (k : EntityKey) :
  loadEntityAggRange env from to = Some m -> in_range from to (entity_hour k) = false -> m !! k = None.
Proof.
  unfold loadEntityAggRange. intros Hl Hr. apply bind_Some in Hl as (m1 & L1 & Hl). apply bind_Some in Hl as (m2 & L2 & L3).
  repeat (eapply load_entity_range; [eassumption| |exact Hr]). apply lookup_empty.
Qed.

Lemma load_entities (m : gmap EntityKey Measures) (k : EntityKey) : loadEntityAggRange env from to = Some m ->
  entity_hour k + Hour <= now - lag -> in_range from to (entity_hour k) = true -> m !! k = entity_spec l k.
Proof.
  unfold loadEntityAggRange. intros Hl. apply bind_Some in Hl as (m1 & L1 & Hl). apply bind_Some in Hl as (m2 & L2 & L3).
  pose proof (load_entity_other _ _ _ _ k L1) as O1. pose proof (load_entity_other _ _ _ _ k L2) as O2. pose proof (load_entity_other _ _ _ _ k L3) as O3.
  rewrite lookup_empty in O1. destruct (entity_of k) as [[]|] eqn:En.
  - rewrite O3, O2 by discriminate. exact (load_entity_at _ _ _ _ k L1 En (lookup_empty k)).
  - rewrite O3 by discriminate. exact (load_entity_at _ _ _ _ k L2 En (O1 ltac:(discriminate))).
  - rewrite O1 in O2 by discriminate. exact (load_entity_at _ _ _ _ k L3 En (O2 ltac:(discriminate))).
  - rewrite O3, O2, O1 by discriminate. intros _ _. unfold entity_spec. rewrite En. reflexivity.
Qed.
End Load.

(** ** Replacing hours *)

Section Replace.
Context {K : Type} `{Countable K}.
Variable hour : K -> Time.
Variables from to : Time.
Variable new : gmap K Measures.
Hypothesis Hnew : forall k, in_range from to (hour k) = false -> new !! k = None.

Lemma replace_range_lookup (table table' : gmap K Measures) (k : K) : replace_range hour from to new table = Some table' ->
  table' !! k = if in_range from to (hour k) then new !! k else table !! k.
Proof.
  unfold replace_range. destruct (bool_decide _); [|discriminate]. intros [= <-]. rewrite lookup_union, map_lookup_filter. destruct (in_range from to (hour k)) eqn:E.
  - destruct (table !! k); cbn; rewrite ?E; destruct (new !! k); reflexivity.
  - rewrite (Hnew k E). destruct (table !! k) as [x|]; cbn; rewrite ?E; reflexivity.
Qed.

(** The insertion never meets a bucket that is already there. *)
Lemma replace_range_total (table : gmap K Measures) : is_Some (replace_range hour from to new table).
Proof.
  unfold replace_range. rewrite bool_decide_eq_true_2; [eauto|]. apply elem_of_disjoint. intros k Hk Hk'. apply elem_of_dom in Hk as [x Hx]. apply elem_of_dom in Hk' as [y Hy].
  apply map_lookup_filter_Some in Hy as [_ Hy]. cbn in Hy. rewrite (Hnew k Hy) in Hx. discriminate.
Qed.
End Replace.

(** ** Cycles *)

Lemma window_bounds (now wm : Time) (lag : Duration) : wm < window_end now wm lag -> window_end now wm lag <= now - lag /\ window_end now wm lag <= wm + Hour.
Proof.
  unfold window_end, statsAggCatchUpLimit, Sub. destruct (Z.ltb_spec Hour (Z.max min64 (Z.min max64 (now - lag - wm)))) as [Hl|Hl]; unfold Hour in *; unfold_int; lia.
Qed.

Definition r_from (wm : Time) : Time := Truncate wm Hour.
Definition r_to (t : Time) : Time := Truncate t Hour + Hour.

Lemma range_aligned (wm t : Time) : aligned (r_from wm) /\ aligned (r_to t).
Proof. split; [apply hour_aligned|apply aligned_next, hour_aligned]. Qed.

(** A cycle leaves the database alone or replaces the hours from the watermark to
    the end of the window. *)
Lemma aggregate_cases (env : CycleEnv) (lag : Duration) (now wm : Time) (o o' : Observed) (db db' : Db) :
  aggregate_from env lag now wm o db = (o', db') ->
  db' = db \/
  exists cube entity s e, let t := window_end now wm lag in
    wm < t /\ load_cube env (r_from wm) (r_to t) = Some cube /\ loadEntityAggRange env (r_from wm) (r_to t) = Some entity /\
    replace_range key_hour (r_from wm) (r_to t) cube (usage_stats db) = Some s /\
    replace_range entity_hour (r_from wm) (r_to t) entity (usage_entity_stats db) = Some e /\ db' = mkDb (db_logs db) s e (Some (pg_time t)).
Proof.
  unfold aggregate_from, After. cbv zeta. destruct (Z.ltb_spec wm (window_end now wm lag)) as [Ht|Ht]; cbn [negb]; [|intros [= _ <-]; tauto].
  fold (r_from wm) (r_to (window_end now wm lag)). destruct (LoadAggRange _ _ _) as [[[cube entity] n]|] eqn:El; [|intros [= _ <-]; tauto].
  destruct (AggregateRange _ _ _ _ _ _ _) as [d|] eqn:Ea; [|intros [= _ <-]; tauto]. intros [= _ <-]. right.
  unfold LoadAggRange in El. apply bind_Some in El as (c & Hc & El). apply bind_Some in El as (x & Hx & El). injection El as -> -> _.
  unfold AggregateRange in Ea. destruct (negb (cy_write env)); [discriminate|]. apply bind_Some in Ea as (s & Hs & Ea). apply bind_Some in Ea as (e & He & Ea). injection Ea as <-.
  exists cube, entity, s, e. split_and!; tauto || reflexivity.
Qed.

(** The statistics of the hours from [first] that were over at [wm]. *)
Definition exact_upto (first wm : Time) (l : Logs) (s : gmap CubeKey Measures) (e : gmap EntityKey Measures) : Prop :=
  (forall k, aligned (key_hour k) -> first <= key_hour k -> key_hour k + Hour <= wm -> s !! k = cube_spec l k) /\
  (forall k, aligned (entity_hour k) -> first <= entity_hour k -> entity_hour k + Hour <= wm -> e !! k = entity_spec l k).

Lemma spec_arrivals (lag now wm : Time) (l l' : Logs) : arrivals lag now l l' -> wm <= now - lag ->
  (forall k, key_hour k + Hour <= wm -> cube_spec l' k = cube_spec l k) /\ (forall k, entity_hour k + Hour <= wm -> entity_spec l' k = entity_spec l k).
Proof.
  intros (us & es & E1 & E2 & Hu & He) Hw. split.
  - intros k Hk. unfold cube_spec. rewrite E1, E2.
    rewrite (rows_at_arrivals key_hour ul_created_at _ cube_usage_hour k _ _ _ Hu), (rows_at_arrivals key_hour el_created_at _ cube_err_hour k _ _ _ He) by lia. reflexivity.
  - intros k Hk. unfold entity_spec. destruct (entity_of k) as [e|]; [|reflexivity]. rewrite E1, E2.
    rewrite (rows_at_arrivals entity_hour ul_created_at _ (entity_usage_hour e) k _ _ _ Hu), (rows_at_arrivals entity_hour el_created_at _ (entity_err_hour e) k _ _ _ He) by lia. reflexivity.
Qed.

(** Where the recomputed hours lie. *)
Lemma range_split (wm t h : Time) : aligned h -> wm < t -> h + Hour <= t ->
  (in_range (r_from wm) (r_to t) h = true) \/ (in_range (r_from wm) (r_to t) h = false /\ h + Hour <= wm).
Proof.
  intros Ha Hw Hh. unfold in_range, r_from, r_to. fold (hour_of wm) (hour_of t).
  destruct (Z.leb_spec (hour_of wm) h); [left|right; split; [reflexivity|hours]]. cbn. apply Z.ltb_lt. pose proof (hour_bounds t). hours.
Qed.

Lemma pg_time_le (t : Time) : pg_time t <= t.
Proof. unfold pg_time. pose proof (Z.mod_pos_bound t 1000). lia. Qed.

Lemma aggregate_exact (env : CycleEnv) (lag : Duration) (now wm first : Time) (o o' : Observed) (db db' : Db) :
  (forall i, arrivals lag now (db_logs db) (cy_logs env i)) -> db_watermark db = Some wm -> wm <= now - lag ->
  exact_upto first wm (db_logs db) (usage_stats db) (usage_entity_stats db) -> aggregate_from env lag now wm o db = (o', db') ->
  exists wm', db_watermark db' = Some wm' /\ wm' <= now - lag /\ db_logs db' = db_logs db /\
    exact_upto first wm' (db_logs db') (usage_stats db') (usage_entity_stats db').
Proof.
  intros Harr Hwm Hle [Hc He] H. apply aggregate_cases in H as [->|(cube & entity & s & e & Ht & Lc & Le & Rs & Re & ->)]; [exists wm; split; [exact Hwm|split; [exact Hle|split; [reflexivity|split; assumption]]]|].
  set (t := window_end now wm lag) in *. destruct (window_bounds now wm lag Ht) as [Hb _]. fold t in Hb. destruct (range_aligned wm t) as [A1 A2]. pose proof (pg_time_le t).
  exists (pg_time t). cbn [db_watermark db_logs usage_stats usage_entity_stats]. split; [reflexivity|]. split; [lia|]. split; [reflexivity|]. split.
  - intros k Ha Hf Hk. rewrite (replace_range_lookup key_hour _ _ _ (fun k => load_cube_range env _ _ A1 A2 cube k Lc) _ _ k Rs).
    destruct (range_split wm t (key_hour k) Ha Ht ltac:(lia)) as [E|[E Hk']]; rewrite E; [|apply Hc; assumption].
    rewrite (load_cube_at env lag now _ _ _ Harr A1 A2 cube k Lc) by lia. rewrite E. reflexivity.
  - intros k Ha Hf Hk. rewrite (replace_range_lookup entity_hour _ _ _ (fun k => load_entities_range env _ _ A1 A2 entity k Le) _ _ k Re).
    destruct (range_split wm t (entity_hour k) Ha Ht ltac:(lia)) as [E|[E Hk']]; rewrite E; [|apply He; assumption].
    exact (load_entities env lag now _ _ _ Harr A1 A2 entity k Le ltac:(lia) E).
Qed.

(** ** Runs *)

Definition Inv (lag : Duration) (w : World) : Prop :=
  match db_watermark (wo_db w), wo_first w with
  | None, None => True
  | Some wm, Some f => wm <= wo_now w - lag /\ exact_upto f wm (db_logs (wo_db w)) (usage_stats (wo_db w)) (usage_entity_stats (wo_db w))
  | _, _ => False
  end.

(** At its start a watermark claims nothing. *)
Lemma exact_start (wm : Time) (l : Logs) (s : gmap CubeKey Measures) (e : gmap EntityKey Measures) : exact_upto (hour_of wm) wm l s e.
Proof. pose proof (hour_bounds wm). split; intros k _ Hf Hk; lia. Qed.

Lemma cycle_inv (lag now : Z) (env : CycleEnv) (o o' : Observed) (f : option Time) (db db' : Db) :
  (forall i, arrivals lag now (db_logs db) (cy_logs env i)) -> runOnce env lag now o db = (o', db') ->
  Inv lag (mkWorld now db o f) -> Inv lag (mkWorld now db' o' (note_first lag now f db')).
Proof.
  intros Harr H I. unfold runOnce in H. destruct (cy_lock env) as [[]|].
  2,3: injection H as <- <-; unfold Inv, note_first in *; cbn in *; destruct (db_watermark db), f; tauto.
  destruct (negb (cy_loadWm env)); [injection H as <- <-; unfold Inv, note_first in *; cbn in *; destruct (db_watermark db), f; tauto|].
  destruct (db_watermark db) as [wm|] eqn:Ew.
  - unfold Inv in I. cbn in I. rewrite Ew in I. destruct f as [f|]; [|destruct I]. destruct I as [Hle He].
    destruct (aggregate_exact env lag now wm f o o' db db' Harr Ew Hle He H) as (wm' & E1 & E2 & E3 & E4). unfold Inv, note_first. cbn. rewrite E1. split; assumption.
  - unfold Inv in I. cbn in I. rewrite Ew in I. destruct f as [f|]; [destruct I|].
    destruct (negb (cy_initWm env)); [injection H as <- <-; unfold Inv, note_first; cbn; rewrite Ew; exact Logic.I|]. cbv zeta in H.
    pose proof (pg_time_le (now - lag)). set (db1 := InitStatsAggWatermark (now - lag) db) in *.
    assert (db_watermark db1 = Some (pg_time (now - lag))) as E1 by (subst db1; unfold InitStatsAggWatermark; rewrite Ew; reflexivity).
    assert (db_logs db1 = db_logs db) as E2 by (subst db1; unfold InitStatsAggWatermark; rewrite Ew; reflexivity).
    destruct (negb (cy_reloadWm env)).
    + injection H as <- <-. unfold Inv, note_first. cbn. rewrite E1. split; [lia|apply exact_start].
    + rewrite E1 in H. rewrite <- E2 in Harr.
      destruct (aggregate_exact env lag now _ (hour_of (pg_time (now - lag))) o o' db1 db' Harr E1 ltac:(lia) (exact_start _ _ _ _) H) as (wm' & F1 & F2 & F3 & F4).
      unfold Inv, note_first. cbn. rewrite F1. split; assumption.
Qed.

Lemma world_step_inv (lag : Z) (w w' : World) : step lag w w' -> Inv lag w -> Inv lag w'.
Proof.
  intros H I. destruct H as [now now' db o f Hn|now db o f l Ha|now db o f env o' db' Ha Hr].
  - unfold Inv in *. cbn in *. destruct (db_watermark db), f; try tauto. destruct I. split; [lia|assumption].
  - unfold Inv in *. cbn in *. destruct (db_watermark db) as [wm|], f as [f|]; try tauto. destruct I as [Hle [Hc He]]. split; [exact Hle|].
    destruct (spec_arrivals lag now wm _ _ Ha Hle) as [S1 S2]. split; intros k Hk Hf Hw; [rewrite S1 by exact Hw; apply Hc|rewrite S2 by exact Hw; apply He]; assumption.
  - exact (cycle_inv _ _ _ _ _ _ _ _ Ha Hr I).
Qed.

Lemma runs_inv (lag : Z) (w w' : World) : rtc (step lag) w w' -> Inv lag w -> Inv lag w'.
Proof. induction 1 as [|x y z H _ IH]; [tauto|]. intros I. apply IH. exact (world_step_inv _ _ _ H I). Qed.

(** Before the first cycle, or at a watermark set by hand. *)
Definition fresh_start (lag : Duration) (w : World) : Prop :=
  match db_watermark (wo_db w) with
  | None => wo_first w = None
  | Some wm => wm <= wo_now w - lag /\ wo_first w = Some (hour_of wm)
  end.

(** C15: In every run of arrivals and cycles, with any statements failing, any
    instance holding the lock and rows arriving between the queries of a cycle, as
    long as no row arrives later than the lag: every bucket of both tables for an
    hour that is over at the watermark holds exactly the count of the logs (rows,
    errors, tokens, costs, calls, latency sum, maximum and histogram), and buckets
    without rows do not exist. *)
Theorem stats_exact (lag : Duration) (w w' : World) (wm first : Time) :
  fresh_start lag w -> rtc (step lag) w w' -> db_watermark (wo_db w') = Some wm -> wo_first w' = Some first ->
  (forall k, aligned (key_hour k) -> first <= key_hour k -> key_hour k + Hour <= wm -> usage_stats (wo_db w') !! k = cube_spec (db_logs (wo_db w')) k) /\
  (forall k, aligned (entity_hour k) -> first <= entity_hour k -> entity_hour k + Hour <= wm -> usage_entity_stats (wo_db w') !! k = entity_spec (db_logs (wo_db w')) k).
Proof.
  intros Hs H Hw Hf. assert (Inv lag w) as I.
  { unfold fresh_start in Hs. unfold Inv. destruct (db_watermark (wo_db w)); [destruct Hs as [? ->]; split; [assumption|apply exact_start]|rewrite Hs; exact Logic.I]. }
  pose proof (runs_inv _ _ _ H I) as I'. unfold Inv in I'. rewrite Hw, Hf in I'. exact (proj2 I').
Qed.

(** ** Catching up *)

(** A cycle nothing goes wrong in: the lock is free, statements succeed and the
    sums fit 64 bits. *)
Record healthy (env : CycleEnv) : Prop := mkHealthy {
  hl_lock : cy_lock env = Some true; hl_load : cy_loadWm env = true; hl_write : cy_write env = true;
  hl_fits from to : is_Some (load_cube env from to) /\ is_Some (loadEntityAggRange env from to)
}.

Definition cycles (lag : Duration) (l : list (CycleEnv * Time)) (s : Observed * Db) : Observed * Db :=
  fold_left (fun s c => runOnce c.1 lag c.2 s.1 s.2) l s.

(** Watermarks are stored times. *)
Definition stored (t : Time) : Prop := t mod 1000 = 0.

Lemma pg_stored (t : Time) : stored (pg_time t).
Proof. unfold stored, pg_time. Z.to_euclidean_division_equations; lia. Qed.

Lemma window_advances (now wm : Time) (lag : Duration) : stored wm -> wm < now - lag ->
  wm < window_end now wm lag /\ Z.min (pg_time (now - lag)) (wm + Hour) <= pg_time (window_end now wm lag).
Proof.
  intros Hs Hn. unfold window_end, statsAggCatchUpLimit. unfold Sub. destruct (Z.ltb_spec Hour (Z.max min64 (Z.min max64 (now - lag - wm)))) as [Hl|Hl].
  - split; [unfold Hour; lia|]. transitivity (wm + Hour); [lia|]. unfold stored, pg_time, Hour in *. Z.to_euclidean_division_equations; lia.
  - split; [lia|]. apply Z.le_min_l.
Qed.

Lemma healthy_cycle (env : CycleEnv) (lag : Duration) (now wm : Time) (o : Observed) (db : Db) :
  healthy env -> db_watermark db = Some wm -> stored wm ->
  exists wm', db_watermark (runOnce env lag now o db).2 = Some wm' /\ stored wm' /\ wm <= wm' /\ Z.min (pg_time (now - lag)) (wm + Hour) <= wm'.
Proof.
  intros [H1 H2 H3 H4] Hw Hs. unfold runOnce. rewrite H1, H2, Hw. cbn [negb]. unfold aggregate_from. cbv zeta. unfold After.
  destruct (Z.ltb_spec wm (window_end now wm lag)) as [Ht|Ht]; cbn [negb].
  - destruct (window_bounds now wm lag Ht) as [Hb _]. destruct (window_advances now wm lag Hs ltac:(lia)) as [_ Ha].
    set (t := window_end now wm lag) in *. fold (r_from wm) (r_to t). destruct (range_aligned wm t) as [A1 A2].
    destruct (H4 (r_from wm) (r_to t)) as [[cube Hc] [entity He]]. unfold LoadAggRange. rewrite Hc, He. cbn [mbind option_bind]. unfold AggregateRange. rewrite H3. cbn [negb].
    destruct (replace_range_total key_hour _ _ _ (fun k => load_cube_range env _ _ A1 A2 cube k Hc) (usage_stats db)) as [s ->].
    destruct (replace_range_total entity_hour _ _ _ (fun k => load_entities_range env _ _ A1 A2 entity k He) (usage_entity_stats db)) as [e ->].
    exists (pg_time t). cbn. split_and!; [reflexivity|apply pg_stored| |exact Ha]. unfold stored, pg_time in *. Z.to_euclidean_division_equations; lia.
  - exists wm. split_and!; [exact Hw|exact Hs|lia|]. destruct (Z.le_gt_cases (now - lag) wm) as [Hle|Hgt]; [pose proof (pg_time_le (now - lag)); lia|].
    destruct (window_advances now wm lag Hs ltac:(lia)). lia.
Qed.

(** Catching up: after a standstill, [n] cycles without failures bring the
    watermark to the clock less the lag or [n] hours ahead, whichever is less; a
    cycle never meets a bucket it did not delete. *)
Theorem stats_catch_up (lag : Duration) (l : list (CycleEnv * Time)) : forall (now wm : Time) (o : Observed) (db : Db),
  db_watermark db = Some wm -> stored wm -> (forall c, c ∈ l -> healthy c.1 /\ now <= c.2) ->
  exists wm', db_watermark (cycles lag l (o, db)).2 = Some wm' /\ stored wm' /\ wm <= wm' /\
    Z.min (pg_time (now - lag)) (wm + Z.of_nat (length l) * Hour) <= wm'.
Proof.
  induction l as [|[env t] l IH]; intros now wm o db Hw Hs Hl.
  - exists wm. cbn. split_and!; [exact Hw|exact Hs|lia|lia].
  - destruct (Hl (env, t)) as [He Ht]; [left|]. cbn in He, Ht. destruct (healthy_cycle env lag t wm o db He Hw Hs) as (w1 & E1 & S1 & M1 & A1).
    destruct (runOnce env lag t o db) as [o1 db1] eqn:Er. cbn in E1.
    destruct (IH now w1 o1 db1 E1 S1) as (w2 & E2 & S2 & M2 & A2); [intros c Hc; apply Hl; right; exact Hc|].
    exists w2. unfold cycles in *. cbn [fold_left fst snd]. rewrite Er. split_and!; [exact E2|exact S2|lia|].
    assert (pg_time (now - lag) <= pg_time (t - lag)) by (unfold pg_time; Z.to_euclidean_division_equations; lia). cbn [length]. unfold Hour in *. lia.
Qed.

(** ** Rows that come too late *)

(** Cycles do not touch hours that are over at the watermark. *)
Lemma closed_hours_frozen (env : CycleEnv) (lag : Duration) (now wm : Time) (o : Observed) (db : Db) (k : CubeKey) :
  db_watermark db = Some wm -> stored wm -> aligned (key_hour k) -> key_hour k + Hour <= wm ->
  exists wm', db_watermark (runOnce env lag now o db).2 = Some wm' /\ stored wm' /\ wm <= wm' /\
    usage_stats (runOnce env lag now o db).2 !! k = usage_stats db !! k /\ db_logs (runOnce env lag now o db).2 = db_logs db.
Proof.
  intros Hw Hs Ha Hk. unfold runOnce. destruct (cy_lock env) as [[]|]; [|exists wm; split_and!; (assumption || lia || reflexivity)..].
  destruct (negb (cy_loadWm env)); [exists wm; split_and!; (assumption || lia || reflexivity)|]. rewrite Hw.
  destruct (aggregate_from env lag now wm o db) as [o' db'] eqn:E. cbn [snd].
  apply aggregate_cases in E as [->|(cube & entity & s & e & Ht & Lc & Le & Rs & Re & ->)]; [exists wm; split_and!; (assumption || lia || reflexivity)|].
  destruct (range_aligned wm (window_end now wm lag)) as [A1 A2]. exists (pg_time (window_end now wm lag)). cbn. split_and!; [reflexivity|apply pg_stored| | |reflexivity].
  - unfold stored, pg_time in *. Z.to_euclidean_division_equations; lia.
  - rewrite (replace_range_lookup key_hour _ _ _ (fun k => load_cube_range env _ _ A1 A2 cube k Lc) _ _ k Rs).
    assert (in_range (r_from wm) (r_to (window_end now wm lag)) (key_hour k) = false) as ->; [|reflexivity].
    unfold in_range, r_from. fold (hour_of wm). destruct (Z.leb_spec (hour_of wm) (key_hour k)); [|reflexivity]. pose proof (hour_bounds wm). exfalso. lia.
Qed.

(** A row that is inserted after its hour was over at the watermark (a failed batch
    that is tried again for longer than the lag) is in no statistics, whatever
    cycles follow. *)
Theorem late_row_never_counted (lag : Duration) (l : list (CycleEnv * Time)) (o : Observed) (db : Db) (wm : Time) (r : UsageRow) (k : CubeKey) :
  db_watermark db = Some wm -> stored wm -> cube_usage_key r = Some k -> key_hour k + Hour <= wm -> usage_stats db !! k = None ->
  let late := set_logs (mkLogs (usage_logs (db_logs db) ++ [r]) (err_logs (db_logs db))) db in
  usage_stats (cycles lag l (o, late)).2 !! k = None /\ is_Some (cube_spec (db_logs (cycles lag l (o, late)).2) k).
Proof.
  intros Hw Hs Hk Hh Hn late. assert (db_watermark late = Some wm) as Hw' by exact Hw.
  assert (usage_stats late !! k = None /\ is_Some (cube_spec (db_logs late) k)) as Hl.
  { split; [exact Hn|]. unfold cube_spec, late. cbn [db_logs set_logs usage_logs err_logs]. rewrite rows_at_app, rows_at_cons, bool_decide_eq_true_2 by exact Hk.
    destruct (rows_at cube_usage_key k (usage_logs (db_logs db))); cbn; eauto. }
  assert (aligned (key_hour k)) as Ha by (rewrite (cube_usage_hour r k Hk); apply hour_aligned).
  clearbody late. clear Hn Hk Hw. revert wm o late Hw' Hs Hh Hl. induction l as [|[env t] l IH]; intros wm o late Hw Hs Hh Hl; [exact Hl|].
  unfold cycles in *. cbn [fold_left fst snd]. destruct (closed_hours_frozen env lag t wm o late k Hw Hs Ha Hh) as (wm' & E1 & E2 & E3 & E4 & E5).
  destruct (runOnce env lag t o late) as [o1 db1]. cbn [snd] in *. apply (IH wm'); [exact E1|exact E2|lia|]. rewrite E4, E5. exact Hl.
Qed.

(** ** A run *)

Definition demo_hour : Time := 1000 * Hour.
Definition demo_stat_logs : Logs :=
  mkLogs [mkUsageRow (demo_hour + 60000000000) (Some 3) (Some 8) (Some 4) None "m" "none" 10 5 15 0 0 7 (Some 9) 0 (Some 60%N);
          mkUsageRow (demo_hour + 61000000000) (Some 3) (Some 8) (Some 4) None "m" "abort" 10 0 10 0 0 2 None 0 None]
         [mkErrRow (demo_hour + 62000000000) (Some 3) None (Some 4) None "m" "429"].
Definition demo_cycle : CycleEnv := mkCycleEnv (Some true) true true true (fun _ => true) (fun _ => demo_stat_logs) true.
Definition demo_lag : Duration := lag_of 0.
Definition demo_stats_start : World :=
  mkWorld (demo_hour + 2 * Hour) (mkDb demo_stat_logs ∅ ∅ (Some demo_hour)) (mkObserved 0 0 0) (Some demo_hour).
Definition demo_stats_end : World :=
  let r := runOnce demo_cycle demo_lag (wo_now demo_stats_start) (wo_seen demo_stats_start) (wo_db demo_stats_start) in
  mkWorld (wo_now demo_stats_start) r.2 r.1 (Some demo_hour).

Lemma demo_arrivals (now : Time) : arrivals demo_lag now demo_stat_logs demo_stat_logs.
Proof. exists [], []. rewrite !app_nil_r. split_and!; (reflexivity || constructor). Qed.

Lemma demo_stats_step : step demo_lag demo_stats_start demo_stats_end.
Proof.
  exact (st_cycle demo_lag (wo_now demo_stats_start) (wo_db demo_stats_start) (wo_seen demo_stats_start) (Some demo_hour) demo_cycle
    _ _ (fun i => demo_arrivals _) (surjective_pairing _)).
Qed.

Lemma stats_exact_witness :
  db_watermark (wo_db demo_stats_end) = Some (demo_hour + Hour) /\
  usage_stats (wo_db demo_stats_end) !! (demo_hour, 3, "m"%string) = Some (mkMeasures 3 2 20 5 25 0 0 9 9 0 60 1 60 [0; 1; 0; 0; 0; 0; 0; 0; 0; 0]) /\
  usage_entity_stats (wo_db demo_stats_end) !! (demo_hour, "key"%string, 4, "m"%string) = None.
Proof.
  assert (db_watermark (wo_db demo_stats_end) = Some (demo_hour + Hour)) as Hw by (vm_compute; reflexivity). split; [exact Hw|].
  destruct (stats_exact demo_lag demo_stats_start demo_stats_end (demo_hour + Hour) demo_hour) as [Hc He];
    [split; [vm_compute; discriminate|reflexivity]|apply rtc_once, demo_stats_step|exact Hw|reflexivity|].
  split; [refine (eq_trans (Hc (demo_hour, 3, "m"%string) _ _ _) _)|refine (eq_trans (He (demo_hour, "key"%string, 4, "m"%string) _ _ _) _)];
    vm_compute; (reflexivity || discriminate).
Defined.

(** Two cycles bring a watermark two hours back to the clock. *)
Definition idle_cycle : CycleEnv := mkCycleEnv (Some true) true true true (fun _ => true) (fun _ => mkLogs [] []) true.
Definition idle_cycles : list (CycleEnv * Time) := [(idle_cycle, demo_hour + 2 * Hour); (idle_cycle, demo_hour + 2 * Hour)].
Definition idle_end : Observed * Db := cycles demo_lag idle_cycles (mkObserved 0 0 0, mkDb (mkLogs [] []) ∅ ∅ (Some demo_hour)).

Lemma idle_healthy : healthy idle_cycle.
Proof. split; try reflexivity. intros from to. split; eexists; vm_compute; reflexivity. Qed.

Lemma stats_catch_up_witness : exists wm', db_watermark (idle_end.2) = Some wm' /\ demo_hour + 2 * Hour - 5000000000 <= wm'.
Proof.
  destruct (stats_catch_up demo_lag idle_cycles (demo_hour + 2 * Hour) demo_hour (mkObserved 0 0 0) (mkDb (mkLogs [] []) ∅ ∅ (Some demo_hour))) as (wm' & E & _ & _ & Ha);
    [reflexivity|vm_compute; reflexivity| |exists wm'; split; [exact E|]].
  - intros c Hc. unfold idle_cycles in Hc. rewrite !elem_of_cons in Hc. destruct Hc as [-> |[-> |Hc]]; [split; [exact idle_healthy|vm_compute; discriminate]..|].
    apply not_elem_of_nil in Hc. destruct Hc.
  - etransitivity; [|exact Ha]. vm_compute. discriminate.
Defined.
