(* ===== verification/ProtoJson.v ===== *)
(** * Values of the protocol converters

    [internal/protoconv] reads bodies and stream events with [encoding/json] into
    [map[string]any] and writes the converted ones with [json.Marshal].  Here are
    the values of that type, the reading of numbers as [float64], the accessors of
    [protoconv.go], the writing of values and of server-sent frames, and the
    string writer of [jsraw.go].  The one part of the writer that is not defined
    is the text of a [float64] ([strconv]), an argument of [Marshal]. *)

From Stdlib Require Import ZArith Lia List Bool String Ascii.
From Stdlib Require Import Floats.SpecFloat.
From stdpp Require Import base option list strings.
From S2P Require Import Prelude GoString JsonScan JsonText GoJson SseRelay.
Import ListNotations.
Local Open Scope nat_scope.
Local Open Scope list_scope.

(** ** Values *)

(** What an [any] of the converters holds: [ANum] is a decoded number, [AInt] an
    integer the code puts into a converted value. *)
Inductive any :=
| ANil
| ABool (b : bool)
| ANum (f : spec_float)
| AInt (n : Z)
| AStr (s : string)
| AArr (l : list any)
| AObj (m : list (string * any)).

(** [map[string]any]: one entry per key, the order is not observable. *)
Definition gomap : Type := list (string * any).

Fixpoint get (m : gomap) (k : string) : option any :=
  match m with
  | [] => None
  | (k', v) :: m => if String.eqb k k' then Some v else get m k
  end.

Fixpoint mset (k : string) (v : any) (m : gomap) : gomap :=
  match m with
  | [] => [(k, v)]
  | (k', v') :: m => if String.eqb k k' then (k, v) :: m else (k', v') :: mset k v m
  end.

Definition to_string (b : bytes) : string := string_of_list_ascii b.

(** ** Numbers *)

(** [strconv.ParseFloat] of a number token: sign, digits, decimal exponent, and
    the nearest [float64], ties to even. *)
Definition digits_value (d : bytes) : Z := fold_left (fun n c => n * 10 + digit_val c)%Z d 0%Z.

Definition exponent_value (e : bytes) : Z :=
  match e with
  | _ :: s :: d => if Ascii.eqb s "-" then (- digits_value d)%Z else if Ascii.eqb s "+" then digits_value d else digits_value (s :: d)
  | _ => 0%Z
  end.

Definition number_parts (t : bytes) : option (bool * Z * Z) :=
  let '(neg, t) := match t with c :: l => if Ascii.eqb c "-" then (true, l) else (false, t) | [] => (false, []) end in
  '(i, t) ← integer_token t;
  '(f, t) ← fraction_token t;
  '(e, _) ← exponent_token t;
  let frac := drop 1 f in
  Some (neg, digits_value (i ++ frac), exponent_value e - Z.of_nat (List.length frac))%Z.

Definition float64_of (neg : bool) (mant exp10 : Z) : spec_float :=
  match mant with
  | Zpos m =>
      if (0 <=? exp10)%Z then binary_round 53 1024 neg (Z.to_pos (Zpos m * 10 ^ exp10)) 0
      else SFdiv 53 1024 (S754_finite neg m 0) (S754_finite false (Z.to_pos (10 ^ (- exp10))) 0)
  | _ => S754_zero neg
  end.

(** A number too large for a [float64] is an error. *)
Definition convertNumber (t : bytes) : option spec_float :=
  '(neg, m, e) ← number_parts t;
  match float64_of neg m e with
  | S754_infinity _ | S754_nan => None
  | f => Some f
  end.

(** ** [json.Unmarshal] into [any] *)

Fixpoint to_any (j : json) : option any :=
  match j with
  | JNull => Some ANil
  | JTrue => Some (ABool true)
  | JFalse => Some (ABool false)
  | JNum t => ANum <$> convertNumber t
  | JStr s => Some (AStr (to_string (unquoted s)))
  | JArr l => AArr <$> (fix items (l : list json) : option (list any) :=
                match l with [] => Some [] | j :: l => v ← to_any j; vs ← items l; Some (v :: vs) end) l
  | JObj l => AObj <$> (fix members (m : gomap) (l : list (bytes * json)) : option gomap :=
                match l with [] => Some m | (k, j) :: l => v ← to_any j; members (mset (to_string (unquoted k)) v m) l end) [] l
  end.

Definition Unmarshal (b : bytes) : option any := j ← decode b; to_any j.

(** [decodeObj]: [null] leaves the map nil, which reads as an empty one. *)
Definition decodeObj (body : bytes) : option gomap :=
  match Unmarshal body with
  | Some (AObj m) => Some m
  | Some ANil => Some []
  | _ => None
  end.

(** ** Accessors *)

(** The type assertions [v.(string)], [v.([]any)], [v.(map[string]any)] on what a
    key holds; a missing key is a nil [any] and fails them all. *)
Definition str (m : gomap) (key : string) : option string := match get m key with Some (AStr s) => Some s | _ => None end.
Definition arr (m : gomap) (key : string) : option (list any) := match get m key with Some (AArr l) => Some l | _ => None end.
Definition obj (m : gomap) (key : string) : option gomap := match get m key with Some (AObj o) => Some o | _ => None end.
Definition num (m : gomap) (key : string) : option spec_float := match get m key with Some (ANum f) => Some f | _ => None end.
Definition as_obj (v : any) : option gomap := match v with AObj m => Some m | _ => None end.

(** [s, _ := str(m, key)]. *)
Definition str0 (m : gomap) (key : string) : string := default ""%string (str m key).

(** [m[key] == lit]. *)
Definition is_str (m : gomap) (key lit : string) : bool := match str m key with Some s => String.eqb s lit | None => false end.

(** Integer part of a non-negative finite [float64]. *)
Definition float_trunc (m : positive) (e : Z) : Z := if (0 <=? e)%Z then (Zpos m * 2 ^ e)%Z else (Zpos m / 2 ^ (- e))%Z.

Definition intOr0 (m : gomap) (key : string) : Z :=
  match num m key with
  | Some (S754_finite false p e) => let n := float_trunc p e in if (2 ^ 63 <=? n)%Z then 0%Z else n
  | _ => 0%Z
  end.

Definition sumTokens (a b : Z) : Z :=
  let a := if (a <? 0)%Z then 0%Z else a in
  let b := if (b <? 0)%Z then 0%Z else b in
  if (max64 - b <? a)%Z then max64 else (a + b)%Z.

Definition pass (dst src : gomap) (keys : list string) : gomap :=
  fold_left (fun dst k => match get src k with Some ANil | None => dst | Some v => mset k v dst end) keys dst.

Fixpoint joinStrings (parts : list string) (sep : string) : string :=
  match parts with
  | [] => ""
  | [p] => p
  | p :: parts => (p +:+ sep +:+ joinStrings parts sep)%stdpp
  end.

(** [blockText]; the content is nil when its key is missing. *)
Definition blockText (content : option any) : option string :=
  match content with
  | Some (AStr s) => Some s
  | Some (AArr l) =>
      match omap (fun p => pm ← as_obj p; if is_str pm "type" "text" then str pm "text" else None) l with
      | [] => None
      | parts => Some (joinStrings parts (String nl EmptyString))
      end
  | _ => None
  end.

Definition toolCallID (im : gomap) : string :=
  match str im "call_id" with
  | Some id => if String.eqb id "" then str0 im "id" else id
  | None => str0 im "id"
  end.

Definition parseJSON (v : option any) : any :=
  match v with
  | Some (AStr s) => if String.eqb s "" then AObj [] else default (AObj []) (Unmarshal (bs s))
  | _ => AObj []
  end.

Lemma intOr0_range (m : gomap) (key : string) : (0 <= intOr0 m key < 2 ^ 63)%Z.
Proof.
  unfold intOr0. destruct (num m key) as [[[]|[]| |[|] p e]|]; try lia. cbv zeta. destruct (Z.leb_spec (2 ^ 63) (float_trunc p e)); [lia|].
  split; [|assumption]. unfold float_trunc. destruct (Z.leb_spec 0 e); [apply Z.mul_nonneg_nonneg; [lia|apply Z.pow_nonneg; lia]|].
  apply Z.div_pos; [lia|apply Z.pow_pos_nonneg; lia].
Qed.

(** ** Writing *)

Definition hexDigit (b : Z) : ascii := if (b <? 10)%Z then byte_of (48 + b) else byte_of (97 + b - 10).

Definition escape_u (c : ascii) : bytes := bs "\u00" ++ [hexDigit (byte_val c / 16); hexDigit (byte_val c mod 16)].

(** The text of one ASCII character inside a string. *)
Definition escape_char (c : ascii) : bytes :=
  if Ascii.eqb c quote then [backslash; quote]
  else if Ascii.eqb c backslash then [backslash; backslash]
  else if (byte_val c <? 32)%Z then
    if Ascii.eqb c "010" then bs "\n" else if Ascii.eqb c "013" then bs "\r" else if Ascii.eqb c "009" then bs "\t"
    else if Ascii.eqb c "008" then bs "\b" else if Ascii.eqb c "012" then bs "\f" else escape_u c
  else if Ascii.eqb c "&" then bs "\u0026"
  else if Ascii.eqb c "<" then bs "\u003c"
  else if Ascii.eqb c ">" then bs "\u003e"
  else [c].

(** The inside of a string.  [lines] is the difference between [json.Marshal],
    which also escapes the line separators U+2028 and U+2029, and the gateway's
    own [appendJSONString], which does not. *)
Fixpoint escape (lines : bool) (fuel : nat) (s : bytes) : bytes :=
  match fuel, s with
  | S fuel, c :: rest =>
      if (byte_val c <? 128)%Z then escape_char c ++ escape lines fuel rest
      else
        let '(r, w) := DecodeRune c (to_string rest) in
        if (r =? RuneError)%Z && (w =? 1) then bs "\ufffd" ++ escape lines fuel rest
        else if lines && ((r =? 8232) || (r =? 8233))%Z then bs "\u202" ++ hexDigit (r mod 16) :: escape lines fuel (drop w s)
        else take w s ++ escape lines fuel (drop w s)
  | _, _ => []
  end.

Definition quoted_string (lines : bool) (s : string) : bytes := quote :: escape lines (List.length (bs s)) (bs s) ++ [quote].

Definition appendJSONString (out : bytes) (s : string) : bytes := out ++ quoted_string false s.

Fixpoint insert_key {A : Type} (k : string) (t : A) (l : list (string * A)) : list (string * A) :=
  match l with
  | [] => [(k, t)]
  | (k', t') :: l => if String.ltb k' k then (k', t') :: insert_key k t l else (k, t) :: (k', t') :: l
  end.

(** [json.Marshal]: the members of a map in the order of their keys. *)
Section Marshal.
Context (format_float : spec_float -> bytes).

Fixpoint Marshal (v : any) : bytes :=
  match v with
  | ANil => bs "null"
  | ABool b => if b then bs "true" else bs "false"
  | ANum f => format_float f
  | AInt n => bs (FormatInt n)
  | AStr s => quoted_string true s
  | AArr l => "["%char :: commas (map Marshal l) ++ ["]"%char]
  | AObj m =>
      let texts := (fix texts (m : gomap) : list (string * bytes) :=
        match m with [] => [] | (k, v) :: m => insert_key k (Marshal v) (texts m) end) m in
      "{"%char :: commas (map (fun kt => quoted_string true kt.1 ++ ":"%char :: kt.2) texts) ++ ["}"%char]
  end.

Definition marshalAny (v : any) : string := to_string (Marshal v).

(** ** Frames *)

Definition EncodeFrame (name : string) (data : any) : bytes :=
  (if String.eqb name "" then [] else bs "event: " ++ bs name ++ [nl]) ++ bs "data: " ++ Marshal data ++ [nl; nl].
End Marshal.

(** [encodeDataFrame]: one [data] line per line of the payload. *)
Fixpoint data_lines (fuel : nat) (data : bytes) : bytes :=
  match fuel, data with
  | S fuel, _ :: _ =>
      bs "data: " ++
      match index_of nl data with
      | None => data
      | Some i => take i data ++ nl :: data_lines fuel (drop (i + 1) data)
      end
  | _, _ => []
  end.

Definition encodeDataFrame (data : bytes) : bytes := data_lines (List.length data) data ++ [nl; nl].

(** ** Examples *)

Definition jt (s : string) : bytes := map (fun c => if Ascii.eqb c "'" then quote else c) (bs s).
Definition no_float (f : spec_float) : bytes := [].

Example unmarshal_any : Unmarshal (jt "{'a':[1.5e1,-0,true,null],'b':{},'a':'x\u003c'}") =
  Some (AObj [("a", AStr "x<"); ("b", AObj [])]%string).
Proof. vm_compute. reflexivity. Qed.

Example int_readings : map (fun t => match Unmarshal (jt "{'n':" ++ jt t ++ jt "}") with Some (AObj m) => Some (intOr0 m "n") | _ => None end)
  ["15"; "1.5e1"; "2.9"; "-3"; "9007199254740993"; "9223372036854775807"; "1e400"; "'7'"; "123456789012345678"]%string =
  [Some 15; Some 15; Some 2; Some 0; Some 9007199254740992; Some 0; None; Some 0; Some 123456789012345680]%Z.
Proof. vm_compute. reflexivity. Qed.

Example marshal_text : Marshal no_float (AObj [("b", AStr (to_string [quote; "<"%char; nl])); ("a", AArr [AInt (-3); ANil])]%string) =
  jt "{'a':[-3,null],'b':'\" ++ [quote] ++ jt "\u003c\n'}".
Proof. vm_compute. reflexivity. Qed.
