(* ===== verification/StreamMapper.v ===== *)
(** * The state of a stream mapper

    [StreamMapper] of [protoconv.go]: what the conversion of one event stream
    remembers from one event to the next.  The structure's fields are grouped by
    the directions that use them; the buffers of the byte-level direction are not
    part of it.  Maps to [bool] only ever hold [true] and are sets. *)

From Stdlib Require Import ZArith List String.
From stdpp Require Import base option list gmap strings.
From S2P Require Import Prelude ProtoJson.
Import ListNotations.
Local Open Scope Z_scope.
Local Open Scope list_scope.

(** [started] .. [reason]. *)
Record Head := mkHead {
  m_started : bool; m_done : bool; m_id : string; m_model : string;
  m_it : Z; m_ot : Z; m_cached : Z; m_reason : string
}.

(** [blockStarted], [blockStopped], [blockOrder]. *)
Record Blocks := mkBlocks { blockStarted : gset Z; blockStopped : gset Z; blockOrder : list Z }.

(** What is known of each content block. *)
Record Items := mkItems {
  textByIndex : gmap Z string; argsByIndex : gmap Z string;
  fcNames : gmap Z string; fcIDs : gmap Z string; reasoningByIndex : gmap Z string
}.

(** Block indexes of a Responses stream. *)
Record RespAlloc := mkRespAlloc { reasoningIndexes : gmap Z Z; occupiedBlocks : gset Z; textBlockIndex : Z; textBlockSet : bool }.

(** Block indexes of a Chat stream. *)
Record ChatAlloc := mkChatAlloc {
  chatTextIndex : Z; chatTextSet : bool; chatToolIndexes : gmap Z Z;
  chatReasoningSet : bool; chatReasoningIndex : Z; nextChatBlock : Z
}.

Record StreamMapper := mkMapper { m_head : Head; m_blocks : Blocks; m_items : Items; m_resp : RespAlloc; m_chat : ChatAlloc }.

Definition NewStreamMapper : StreamMapper :=
  mkMapper (mkHead false false "" "" 0 0 0 "") (mkBlocks ∅ ∅ []) (mkItems ∅ ∅ ∅ ∅ ∅) (mkRespAlloc ∅ ∅ 0 false)
    (mkChatAlloc 0 false ∅ false 0 0).

(** ** Assignments *)

Definition with_head (f : Head -> Head) (m : StreamMapper) : StreamMapper := mkMapper (f (m_head m)) (m_blocks m) (m_items m) (m_resp m) (m_chat m).
Definition with_blocks (f : Blocks -> Blocks) (m : StreamMapper) : StreamMapper := mkMapper (m_head m) (f (m_blocks m)) (m_items m) (m_resp m) (m_chat m).
Definition with_items (f : Items -> Items) (m : StreamMapper) : StreamMapper := mkMapper (m_head m) (m_blocks m) (f (m_items m)) (m_resp m) (m_chat m).
Definition with_resp (f : RespAlloc -> RespAlloc) (m : StreamMapper) : StreamMapper := mkMapper (m_head m) (m_blocks m) (m_items m) (f (m_resp m)) (m_chat m).
Definition with_chat (f : ChatAlloc -> ChatAlloc) (m : StreamMapper) : StreamMapper := mkMapper (m_head m) (m_blocks m) (m_items m) (m_resp m) (f (m_chat m)).

Definition set_started : StreamMapper -> StreamMapper :=
  with_head (fun h => mkHead true (m_done h) (m_id h) (m_model h) (m_it h) (m_ot h) (m_cached h) (m_reason h)).
Definition set_done : StreamMapper -> StreamMapper :=
  with_head (fun h => mkHead (m_started h) true (m_id h) (m_model h) (m_it h) (m_ot h) (m_cached h) (m_reason h)).
Definition set_id (id : string) : StreamMapper -> StreamMapper :=
  with_head (fun h => mkHead (m_started h) (m_done h) id (m_model h) (m_it h) (m_ot h) (m_cached h) (m_reason h)).
Definition set_model (model : string) : StreamMapper -> StreamMapper :=
  with_head (fun h => mkHead (m_started h) (m_done h) (m_id h) model (m_it h) (m_ot h) (m_cached h) (m_reason h)).
Definition set_it (n : Z) : StreamMapper -> StreamMapper :=
  with_head (fun h => mkHead (m_started h) (m_done h) (m_id h) (m_model h) n (m_ot h) (m_cached h) (m_reason h)).
Definition set_ot (n : Z) : StreamMapper -> StreamMapper :=
  with_head (fun h => mkHead (m_started h) (m_done h) (m_id h) (m_model h) (m_it h) n (m_cached h) (m_reason h)).
Definition set_cached (n : Z) : StreamMapper -> StreamMapper :=
  with_head (fun h => mkHead (m_started h) (m_done h) (m_id h) (m_model h) (m_it h) (m_ot h) n (m_reason h)).
Definition set_reason (s : string) : StreamMapper -> StreamMapper :=
  with_head (fun h => mkHead (m_started h) (m_done h) (m_id h) (m_model h) (m_it h) (m_ot h) (m_cached h) s).

Definition start_block (i : Z) : StreamMapper -> StreamMapper :=
  with_blocks (fun b => mkBlocks ({[i]} ∪ blockStarted b) (blockStopped b) (blockOrder b)).
Definition stop_block (i : Z) : StreamMapper -> StreamMapper :=
  with_blocks (fun b => mkBlocks (blockStarted b) ({[i]} ∪ blockStopped b) (blockOrder b)).
Definition order_block (i : Z) : StreamMapper -> StreamMapper :=
  with_blocks (fun b => mkBlocks (blockStarted b) (blockStopped b) (blockOrder b ++ [i])).

Definition set_text (i : Z) (s : string) : StreamMapper -> StreamMapper :=
  with_items (fun t => mkItems (<[i := s]> (textByIndex t)) (argsByIndex t) (fcNames t) (fcIDs t) (reasoningByIndex t)).
Definition set_args (i : Z) (s : string) : StreamMapper -> StreamMapper :=
  with_items (fun t => mkItems (textByIndex t) (<[i := s]> (argsByIndex t)) (fcNames t) (fcIDs t) (reasoningByIndex t)).
Definition set_name (i : Z) (s : string) : StreamMapper -> StreamMapper :=
  with_items (fun t => mkItems (textByIndex t) (argsByIndex t) (<[i := s]> (fcNames t)) (fcIDs t) (reasoningByIndex t)).
Definition set_fcid (i : Z) (s : string) : StreamMapper -> StreamMapper :=
  with_items (fun t => mkItems (textByIndex t) (argsByIndex t) (fcNames t) (<[i := s]> (fcIDs t)) (reasoningByIndex t)).
Definition set_reasoning (i : Z) (s : string) : StreamMapper -> StreamMapper :=
  with_items (fun t => mkItems (textByIndex t) (argsByIndex t) (fcNames t) (fcIDs t) (<[i := s]> (reasoningByIndex t))).

(** ** Reads *)

(** A missing key of a [map[int64]string] reads as the empty string. *)
Definition at0 (t : gmap Z string) (i : Z) : string := default ""%string (t !! i).

Definition started (m : StreamMapper) (i : Z) : bool := bool_decide (i ∈ blockStarted (m_blocks m)).
Definition stopped (m : StreamMapper) (i : Z) : bool := bool_decide (i ∈ blockStopped (m_blocks m)).
