(* ===== verification/ChatStream.v ===== *)
(** * Chat streams as Messages streams

    [chat_target.go]: the chunks of a Chat Completions stream become the events of
    a Messages stream.  A client of the Messages protocol is modelled beside it:
    what it accepts and what it has received.  The theorems say that every event
    the mapper emits is acceptable, that the mapper's end leaves no block open,
    and that the client has then received exactly the text, the reasoning and the
    tool arguments of the chunks. *)

From Stdlib Require Import ZArith Lia List Bool String Ascii.
From Stdlib Require Import Floats.SpecFloat.
From stdpp Require Import base option list gmap strings.
From S2P Require Import Prelude GoString JsonScan JsonText GoJson SseRelay ProtoJson StreamMapper.
Import ListNotations.
Local Open Scope Z_scope.
Local Open Scope list_scope.
Local Open Scope string_scope.

(** ** The mapper *)

(** [chatStreamEvent]. *)
Definition chatStreamEvent : Type := string * gomap.

(** A Go function that changes the mapper. *)
Definition M (A : Type) : Type := StreamMapper -> A * StreamMapper.

Definition block_start (i : Z) (block : gomap) : chatStreamEvent :=
  ("content_block_start", [("type", AStr "content_block_start"); ("index", AInt i); ("content_block", AObj block)]).
Definition block_delta (i : Z) (delta : gomap) : chatStreamEvent :=
  ("content_block_delta", [("type", AStr "content_block_delta"); ("index", AInt i); ("delta", AObj delta)]).
Definition block_stop (i : Z) : chatStreamEvent := ("content_block_stop", [("type", AStr "content_block_stop"); ("index", AInt i)]).

Definition thinking_block : gomap := [("type", AStr "thinking"); ("thinking", AStr "")].
Definition text_block : gomap := [("type", AStr "text"); ("text", AStr "")].
Definition tool_block (id name : string) : gomap := [("type", AStr "tool_use"); ("id", AStr id); ("name", AStr name); ("input", AObj [])].
Definition thinking_delta (s : string) : gomap := [("type", AStr "thinking_delta"); ("thinking", AStr s)].
Definition text_delta (s : string) : gomap := [("type", AStr "text_delta"); ("text", AStr s)].
Definition json_delta (s : string) : gomap := [("type", AStr "input_json_delta"); ("partial_json", AStr s)].

Definition firstChatReasoning (delta : gomap) : option string :=
  match omap (fun key => s ← str delta key; if String.eqb s "" then None else Some s) ["reasoning_content"; "reasoning"; "reasoning_text"] with
  | s :: _ => Some s
  | [] => None
  end.

Definition firstNonEmptyChatFragment (current fragment : string) : string := if String.eqb current "" then fragment else current.

Definition mergeChatFragment (current fragment : string) : string :=
  if String.eqb fragment "" then current
  else if String.eqb current "" || String.eqb current fragment then firstNonEmptyChatFragment current fragment
  else if HasPrefix fragment current then fragment
  else if HasPrefix current fragment then current
  else (current +:+ fragment)%stdpp.

Definition take_block (m : StreamMapper) : Z * StreamMapper :=
  let i := nextChatBlock (m_chat m) in
  (i, with_chat (fun c => mkChatAlloc (chatTextIndex c) (chatTextSet c) (chatToolIndexes c) (chatReasoningSet c) (chatReasoningIndex c) (i + 1)) m).

Definition chatTextBlock (m : StreamMapper) : Z * StreamMapper :=
  if chatTextSet (m_chat m) then (chatTextIndex (m_chat m), m)
  else
    let '(i, m) := take_block m in
    (i, order_block i (with_chat (fun c => mkChatAlloc i true (chatToolIndexes c) (chatReasoningSet c) (chatReasoningIndex c) (nextChatBlock c)) m)).

Definition chatReasoningBlock (m : StreamMapper) : Z * StreamMapper :=
  if chatReasoningSet (m_chat m) then (chatReasoningIndex (m_chat m), m)
  else
    let '(i, m) := take_block m in
    (i, order_block i (with_chat (fun c => mkChatAlloc (chatTextIndex c) (chatTextSet c) (chatToolIndexes c) true i (nextChatBlock c)) m)).

Definition chatToolBlock (chatIndex : Z) (m : StreamMapper) : Z * StreamMapper :=
  match chatToolIndexes (m_chat m) !! chatIndex with
  | Some i => (i, m)
  | None =>
      let '(i, m) := take_block m in
      (i, order_block i (with_chat (fun c => mkChatAlloc (chatTextIndex c) (chatTextSet c) (<[chatIndex := i]> (chatToolIndexes c))
                                               (chatReasoningSet c) (chatReasoningIndex c) (nextChatBlock c)) m))
  end.

Definition startChatToolBlock (index : Z) : M (list chatStreamEvent) := fun m =>
  if started m index then ([], m)
  else
    let m := start_block index m in
    let '(id, m) :=
      let id := at0 (fcIDs (m_items m)) index in
      if String.eqb id "" then
        let id := ("call_" +:+ m_id (m_head m) +:+ "_" +:+ FormatInt index)%stdpp in (id, set_fcid index id m)
      else (id, m) in
    let head := block_start index (tool_block id (at0 (fcNames (m_items m)) index)) in
    let arguments := at0 (argsByIndex (m_items m)) index in
    if String.eqb arguments "" then ([head], m)
    else ([head; block_delta index (json_delta arguments)], set_args index "" m).

(** A text or reasoning fragment: the block starts with its first fragment. *)
Definition open_with (i : Z) (block : gomap) : M (list chatStreamEvent) := fun m =>
  if started m i then ([], m) else ([block_start i block], start_block i m).

Definition reasoning_events (delta : gomap) : M (list chatStreamEvent) := fun m =>
  match firstChatReasoning delta with
  | Some reasoning =>
      if String.eqb reasoning "" then ([], m)
      else
        let '(i, m) := chatReasoningBlock m in
        let '(out, m) := open_with i thinking_block m in
        (out ++ [block_delta i (thinking_delta reasoning)], m)%list
  | None => ([], m)
  end.

Definition text_events (delta : gomap) : M (list chatStreamEvent) := fun m =>
  match str delta "content" with
  | Some text =>
      if String.eqb text "" then ([], m)
      else
        let '(i, m) := chatTextBlock m in
        let '(out, m) := open_with i text_block m in
        (out ++ [block_delta i (text_delta text)], m)%list
  | None => ([], m)
  end.

(** One entry of [tool_calls]: identifier and name are merged, the block starts
    with the first argument fragment once both are known. *)
Definition merge_id (i : Z) (call : gomap) (m : StreamMapper) : StreamMapper :=
  match str call "id" with
  | Some id => if String.eqb id "" then m else set_fcid i (mergeChatFragment (at0 (fcIDs (m_items m)) i) id) m
  | None => m
  end.

Definition merge_name (i : Z) (function : gomap) (m : StreamMapper) : StreamMapper :=
  match str function "name" with
  | Some name => if String.eqb name "" then m else set_name i (mergeChatFragment (at0 (fcNames (m_items m)) i) name) m
  | None => m
  end.

Definition tool_event (call : gomap) : M (list chatStreamEvent) := fun m =>
  let '(i, m) := chatToolBlock (intOr0 call "index") m in
  let m := merge_id i call m in
  let '(arguments, m) := match obj call "function" with Some f => (str0 f "arguments", merge_name i f m) | None => ("", m) end in
  if started m i then
    if String.eqb arguments "" then ([], m) else ([block_delta i (json_delta arguments)], m)
  else
    let m := set_args i (at0 (argsByIndex (m_items m)) i +:+ arguments)%stdpp m in
    if negb (String.eqb (at0 (fcIDs (m_items m)) i) "") && negb (String.eqb (at0 (fcNames (m_items m)) i) "") && negb (String.eqb arguments "")
    then startChatToolBlock i m else ([], m).

Fixpoint tool_events (calls : list any) : M (list chatStreamEvent) := fun m =>
  match calls with
  | [] => ([], m)
  | raw :: calls =>
      match raw with
      | AObj call =>
          let '(out, m) := tool_event call m in
          let '(out', m) := tool_events calls m in (out ++ out', m)%list
      | _ => tool_events calls m
      end
  end.

Definition chatDeltaToMessEvents (delta : gomap) : M (list chatStreamEvent) := fun m =>
  let '(out1, m) := reasoning_events delta m in
  let '(out2, m) := text_events delta m in
  let '(out3, m) := match arr delta "tool_calls" with Some calls => tool_events calls m | None => ([], m) end in
  (out1 ++ out2 ++ out3, m)%list.

Definition chatFinishToMess (reason : string) : string :=
  if String.eqb reason "tool_calls" || String.eqb reason "function_call" then "tool_use"
  else if String.eqb reason "length" then "max_tokens" else "end_turn".

(** Input and output fall back to the names of the other protocols. *)
Definition first_count (usage : gomap) (key other : string) : Z := if (intOr0 usage key =? 0)%Z then intOr0 usage other else intOr0 usage key.

Definition captureChatUsage (event : gomap) (m : StreamMapper) : StreamMapper :=
  match obj event "usage" with
  | None => m
  | Some usage =>
      let m := set_it (first_count usage "prompt_tokens" "input_tokens") m in
      let m := set_ot (first_count usage "completion_tokens" "output_tokens") m in
      match obj usage "prompt_tokens_details" with Some details => set_cached (intOr0 details "cached_tokens") m | None => m end
  end.

Definition message_start (m : StreamMapper) (usage : gomap) : chatStreamEvent :=
  ("message_start", [("type", AStr "message_start"); ("message", AObj
    [("id", AStr (m_id (m_head m))); ("type", AStr "message"); ("role", AStr "assistant"); ("model", AStr (m_model (m_head m)));
     ("content", AArr []); ("stop_reason", ANil); ("stop_sequence", ANil); ("usage", AObj usage)])]).

(** The first choice whose index is zero or missing. *)
Definition index_zero (choice : gomap) : bool := match num choice "index" with Some (S754_zero _) | None => true | Some _ => false end.

Fixpoint first_choice (choices : list any) : option gomap :=
  match choices with
  | [] => None
  | AObj choice :: choices => if index_zero choice then Some choice else first_choice choices
  | _ :: choices => first_choice choices
  end.

Definition choice_events (choice : gomap) : M (list chatStreamEvent) := fun m =>
  let '(out, m) := match obj choice "delta" with Some delta => chatDeltaToMessEvents delta m | None => ([], m) end in
  (out, match str choice "finish_reason" with Some r => if String.eqb r "" then m else set_reason (chatFinishToMess r) m | None => m end).

(** The blocks whose head was held back, then the end of every open block. *)
Fixpoint start_held (order : list Z) : M (list chatStreamEvent) := fun m =>
  match order with
  | [] => ([], m)
  | i :: order =>
      let '(out, m) := if negb (started m i) && (negb (chatTextSet (m_chat m)) || negb (i =? chatTextIndex (m_chat m))%Z)
                       then startChatToolBlock i m else ([], m) in
      let '(out', m) := start_held order m in (out ++ out', m)%list
  end.

Fixpoint stop_open (order : list Z) : M (list chatStreamEvent) := fun m =>
  match order with
  | [] => ([], m)
  | i :: order =>
      let '(out, m) := if started m i && negb (stopped m i) then ([block_stop i], stop_block i m) else ([], m) in
      let '(out', m) := stop_open order m in (out ++ out', m)%list
  end.

Definition message_delta (reason : string) (ot : Z) : chatStreamEvent :=
  ("message_delta", [("type", AStr "message_delta"); ("delta", AObj [("stop_reason", AStr reason); ("stop_sequence", ANil)]);
                     ("usage", AObj [("output_tokens", AInt ot)])]).
Definition message_stop : chatStreamEvent := ("message_stop", [("type", AStr "message_stop")]).

Definition start_message (usage : StreamMapper -> gomap) : M (list chatStreamEvent) := fun m =>
  if m_started (m_head m) then ([], m) else let m := set_started m in ([message_start m (usage m)], m).

Definition finishChatStream : M (list chatStreamEvent) := fun m =>
  if m_done (m_head m) then ([], m)
  else
    let m := set_done m in
    let '(out1, m) := start_message (fun m => [("input_tokens", AInt (m_it (m_head m))); ("output_tokens", AInt 0)]) m in
    let '(out2, m) := start_held (blockOrder (m_blocks m)) m in
    let '(out3, m) := stop_open (blockOrder (m_blocks m)) m in
    let reason := if String.eqb (m_reason (m_head m)) "" then "end_turn" else m_reason (m_head m) in
    (out1 ++ out2 ++ out3 ++ [message_delta reason (m_ot (m_head m)); message_stop], m)%list.

Definition error_event (upstreamError : gomap) : chatStreamEvent :=
  let typ := if String.eqb (str0 upstreamError "type") "" then "api_error" else str0 upstreamError "type" in
  ("error", [("type", AStr "error"); ("error", AObj [("type", AStr typ); ("message", AStr (str0 upstreamError "message"))])]).

Definition is_done_marker (data : bytes) : bool := String.eqb (TrimSpace (to_string data)) "[DONE]".

(** A chunk that is an object and not an error. *)
Definition identify (event : gomap) (m : StreamMapper) : StreamMapper :=
  let m := match str event "id" with Some id => if String.eqb id "" then m else set_id id m | None => m end in
  match str event "model" with Some model => if String.eqb model "" then m else set_model model m | None => m end.

Definition chunk_events (event : gomap) : M (list chatStreamEvent) := fun m =>
  let m := captureChatUsage event (identify event m) in
  let '(out1, m) := start_message (fun m =>
    [("input_tokens", AInt (m_it (m_head m))); ("output_tokens", AInt 0);
     ("cache_creation_input_tokens", AInt 0); ("cache_read_input_tokens", AInt (m_cached (m_head m)))]) m in
  match arr event "choices" with
  | None => (out1, m)
  | Some choices =>
      match first_choice choices with
      | Some choice => let '(out2, m) := choice_events choice m in (out1 ++ out2, m)%list
      | None => (out1, m)
      end
  end.

Definition chatToMessEvents (data : bytes) : M (list chatStreamEvent) := fun m =>
  if m_done (m_head m) then ([], m)
  else if is_done_marker data then finishChatStream m
  else
    match decodeObj data with
    | None => ([], m)
    | Some event =>
        match obj event "error" with
        | Some upstreamError => ([error_event upstreamError], set_done m)
        | None => chunk_events event m
        end
    end.

(** [mapChatToMess]; no bytes means the event is dropped. *)
Definition mapChatToMess (format_float : spec_float -> bytes) (data : bytes) : M (option bytes) := fun m =>
  let '(events, m) := chatToMessEvents data m in
  (match events with [] => None | _ => Some (concat (map (fun e => EncodeFrame format_float e.1 (AObj e.2)) events)) end, m).

(** A whole stream. *)
Fixpoint run_chat (chunks : list bytes) : M (list chatStreamEvent) := fun m =>
  match chunks with
  | [] => ([], m)
  | data :: chunks =>
      let '(out, m) := chatToMessEvents data m in
      let '(out', m) := run_chat chunks m in (out ++ out', m)%list
  end.

(** ** A client of the Messages protocol *)

Inductive kind := KThinking | KText | KTool.

#[global] Instance kind_eq_dec : EqDecision kind.
Proof. solve_decision. Defined.

Inductive MsgEvent :=
| MsgStart
| MsgBlock (i : Z) (k : kind)
| MsgDelta (i : Z) (k : kind) (s : string)
| MsgBlockStop (i : Z)
| MsgEnd
| MsgStop
| MsgError.

Definition index_of_event (data : gomap) : option Z := match get data "index" with Some (AInt i) => Some i | _ => None end.

Definition block_kind (block : gomap) : option kind :=
  if is_str block "type" "thinking" then Some KThinking else if is_str block "type" "text" then Some KText
  else if is_str block "type" "tool_use" then Some KTool else None.

Definition delta_text (delta : gomap) : option (kind * string) :=
  if is_str delta "type" "thinking_delta" then pair KThinking <$> str delta "thinking"
  else if is_str delta "type" "text_delta" then pair KText <$> str delta "text"
  else if is_str delta "type" "input_json_delta" then pair KTool <$> str delta "partial_json" else None.

(** What a client makes of an event. *)
Definition read_event (e : chatStreamEvent) : option MsgEvent :=
  let '(name, data) := e in
  if String.eqb name "message_start" then Some MsgStart
  else if String.eqb name "content_block_start" then i ← index_of_event data; b ← obj data "content_block"; k ← block_kind b; Some (MsgBlock i k)
  else if String.eqb name "content_block_delta" then i ← index_of_event data; d ← obj data "delta"; '(k, s) ← delta_text d; Some (MsgDelta i k s)
  else if String.eqb name "content_block_stop" then i ← index_of_event data; Some (MsgBlockStop i)
  else if String.eqb name "message_delta" then Some MsgEnd
  else if String.eqb name "message_stop" then Some MsgStop
  else if String.eqb name "error" then Some MsgError
  else None.

Record Block := mkBlock { b_kind : kind; b_text : string; b_open : bool }.
Record Client := mkClient { c_started : bool; c_blocks : gmap Z Block; c_ended : bool; c_closed : bool }.

Definition new_client : Client := mkClient false ∅ false false.

Definition block_closed (b : Block) : bool := negb (b_open b).

(** An event the protocol allows here, and the state after it: the message starts
    once, a block starts once under a new index, fragments go to an open block of
    their kind, the end comes when every block is closed, and nothing follows the
    stop or an error. *)
Definition accept (c : Client) (e : MsgEvent) : option Client :=
  if c_closed c then None
  else
    match e with
    | MsgStart => if c_started c then None else Some (mkClient true (c_blocks c) false false)
    | MsgBlock i k =>
        if c_started c && negb (c_ended c) && (0 <=? i)%Z && negb (isSome (c_blocks c !! i))
        then Some (mkClient true (<[i := mkBlock k "" true]> (c_blocks c)) false false) else None
    | MsgDelta i k s =>
        if c_ended c then None
        else match c_blocks c !! i with
             | Some (mkBlock k' t true) =>
                 if decide (k = k') then Some (mkClient (c_started c) (<[i := mkBlock k (t +:+ s)%stdpp true]> (c_blocks c)) false false) else None
             | _ => None
             end
    | MsgBlockStop i =>
        if c_ended c then None
        else match c_blocks c !! i with
             | Some (mkBlock k t true) => Some (mkClient (c_started c) (<[i := mkBlock k t false]> (c_blocks c)) false false)
             | _ => None
             end
    | MsgEnd =>
        if c_started c && negb (c_ended c) && bool_decide (map_Forall (fun _ b => block_closed b = true) (c_blocks c))
        then Some (mkClient true (c_blocks c) true false) else None
    | MsgStop => if c_ended c then Some (mkClient (c_started c) (c_blocks c) true true) else None
    | MsgError => Some (mkClient (c_started c) (c_blocks c) (c_ended c) true)
    end.

Fixpoint receive (es : list chatStreamEvent) (c : Client) : option Client :=
  match es with
  | [] => Some c
  | e :: es => ev ← read_event e; c ← accept c ev; receive es c
  end.

(** ** What the chunks carry *)

Record Content := mkContent { u_text : string; u_thinking : string; u_args : gmap Z string }.

Definition no_content : Content := mkContent "" "" ∅.

Definition call_args (call : gomap) : string := match obj call "function" with Some f => str0 f "arguments" | None => "" end.

Definition add_call (args : gmap Z string) (raw : any) : gmap Z string :=
  match raw with
  | AObj call => let k := intOr0 call "index" in <[k := (at0 args k +:+ call_args call)%stdpp]> args
  | _ => args
  end.

Definition add_delta (u : Content) (delta : gomap) : Content :=
  mkContent (u_text u +:+ str0 delta "content")%stdpp (u_thinking u +:+ default "" (firstChatReasoning delta))%stdpp
    (fold_left add_call (default [] (arr delta "tool_calls")) (u_args u)).

Definition add_chunk (u : Content) (data : bytes) : Content :=
  match decodeObj data with
  | Some event =>
      match choices ← arr event "choices"; choice ← first_choice choices; obj choice "delta" with
      | Some delta => add_delta u delta
      | None => u
      end
  | None => u
  end.

(** Neither the end of the stream nor an error. *)
Definition ordinary (data : bytes) : bool :=
  negb (is_done_marker data) && match decodeObj data with Some event => negb (isSome (obj event "error")) | None => true end.

(** ** Where a piece of content is *)

Inductive Slot := SText | SThinking | STool (k : Z).

#[global] Instance slot_eq_dec : EqDecision Slot.
Proof. solve_decision. Defined.

Definition kind_of (s : Slot) : kind := match s with SText => KText | SThinking => KThinking | STool _ => KTool end.

Definition slot_place (m : StreamMapper) (s : Slot) : option Z :=
  match s with
  | SText => if chatTextSet (m_chat m) then Some (chatTextIndex (m_chat m)) else None
  | SThinking => if chatReasoningSet (m_chat m) then Some (chatReasoningIndex (m_chat m)) else None
  | STool k => chatToolIndexes (m_chat m) !! k
  end.

(** The text of a slot, if the chunks have anything for it. *)
Definition content (u : Content) (s : Slot) : option string :=
  match s with
  | SText => if String.eqb (u_text u) "" then None else Some (u_text u)
  | SThinking => if String.eqb (u_thinking u) "" then None else Some (u_thinking u)
  | STool k => u_args u !! k
  end.

Definition text_of (u : Content) (s : Slot) : string :=
  match s with SText => u_text u | SThinking => u_thinking u | STool k => at0 (u_args u) k end.

(** Slots, indexes, started blocks, held arguments and the client's blocks belong
    together: every index below [next] belongs to one slot; a started block is
    open at the client with the slot's text; a block that has not started is
    unknown to the client and its arguments are held. *)
Record Core (pl : Slot -> option Z) (next : Z) (st : gset Z) (held : Z -> string) (blocks : gmap Z Block) (txt : Slot -> string) : Prop := mkCore {
  core_inj : forall s s' i, pl s = Some i -> pl s' = Some i -> s = s';
  core_range : forall s i, pl s = Some i -> 0 <= i < next;
  core_onto : forall i, 0 <= i < next -> exists s, pl s = Some i;
  core_open : forall s i, pl s = Some i -> i ∈ st -> blocks !! i = Some (mkBlock (kind_of s) (txt s) true);
  core_held : forall s i, pl s = Some i -> i ∉ st -> txt s = match s with STool _ => held i | _ => "" end;
  core_free : forall s, pl s = None -> txt s = "";
  core_started : forall i, i ∈ st -> 0 <= i < next;
  core_blocks : forall i, i ∉ st -> blocks !! i = None;
  core_fresh : forall i, next <= i -> held i = "";
  core_next : 0 <= next
}.

Lemma core_alloc pl pl' next st held blocks txt s : Core pl next st held blocks txt -> pl s = None ->
  (forall s', pl' s' = if decide (s' = s) then Some next else pl s') -> Core pl' (next + 1) st held blocks txt.
Proof.
  intros H Hs Hp. pose proof (core_next _ _ _ _ _ _ H) as Hn. constructor.
  - intros s1 s2 i. rewrite !Hp. repeat case_decide; intros E1 E2; simplify_eq; try reflexivity.
    + apply (core_range _ _ _ _ _ _ H) in E2. lia.
    + apply (core_range _ _ _ _ _ _ H) in E1. lia.
    + exact (core_inj _ _ _ _ _ _ H _ _ _ E1 E2).
  - intros s1 i. rewrite Hp. case_decide; intros E; simplify_eq; [lia|]. apply (core_range _ _ _ _ _ _ H) in E. lia.
  - intros i Hi. destruct (decide (i = next)) as [->|Hne]; [exists s; rewrite Hp, decide_True by reflexivity; reflexivity|].
    destruct (core_onto _ _ _ _ _ _ H i) as [s1 E]; [lia|]. exists s1. rewrite Hp, decide_False; [exact E|]. intros ->. congruence.
  - intros s1 i. rewrite Hp. case_decide; intros E Hi; simplify_eq; [apply (core_started _ _ _ _ _ _ H) in Hi; lia|].
    exact (core_open _ _ _ _ _ _ H _ _ E Hi).
  - intros s1 i. rewrite Hp. case_decide as D; intros E Hi; simplify_eq; [|exact (core_held _ _ _ _ _ _ H _ _ E Hi)].
    rewrite (core_free _ _ _ _ _ _ H _ Hs). destruct s; try reflexivity. symmetry. apply (core_fresh _ _ _ _ _ _ H). lia.
  - intros s1. rewrite Hp. case_decide; [discriminate|]. apply (core_free _ _ _ _ _ _ H).
  - intros i Hi. apply (core_started _ _ _ _ _ _ H) in Hi. lia.
  - exact (core_blocks _ _ _ _ _ _ H).
  - intros i Hi. apply (core_fresh _ _ _ _ _ _ H). lia.
  - lia.
Qed.

(** A slot's block starts, receives a fragment, or both. *)
Lemma core_set pl next st st' held held' blocks blocks' txt txt' s i : Core pl next st held blocks txt -> pl s = Some i ->
  st' = {[i]} ∪ st -> blocks' = <[i := mkBlock (kind_of s) (txt' s) true]> blocks ->
  (forall s', s' <> s -> txt' s' = txt s') -> (forall j, j <> i -> held' j = held j) -> Core pl next st' held' blocks' txt'.
Proof.
  intros H Hs -> -> Ht Hh. pose proof (core_range _ _ _ _ _ _ H _ _ Hs) as Hi. constructor; try solve [apply H | exact (core_next _ _ _ _ _ _ H)].
  - intros s' j Hj Hst. destruct (decide (j = i)) as [->|Hne].
    + rewrite (core_inj _ _ _ _ _ _ H _ _ _ Hj Hs). apply lookup_insert_eq.
    + rewrite lookup_insert_ne by congruence. rewrite Ht by (intros ->; congruence). apply (core_open _ _ _ _ _ _ H _ _ Hj). set_solver.
  - intros s' j Hj Hst. rewrite Ht, Hh by (try intros ->; set_solver). apply (core_held _ _ _ _ _ _ H _ _ Hj). set_solver.
  - intros s' Hn. rewrite Ht by (intros ->; congruence). exact (core_free _ _ _ _ _ _ H _ Hn).
  - intros j Hj. apply elem_of_union in Hj as [Hj|Hj]; [apply elem_of_singleton in Hj as ->; exact Hi|exact (core_started _ _ _ _ _ _ H _ Hj)].
  - intros j Hj. rewrite lookup_insert_ne by set_solver. apply (core_blocks _ _ _ _ _ _ H). set_solver.
  - intros j Hj. rewrite Hh by lia. exact (core_fresh _ _ _ _ _ _ H _ Hj).
Qed.

(** Arguments are held for a tool whose block has not started. *)
Lemma core_hold pl next st held held' blocks txt txt' k i : Core pl next st held blocks txt -> pl (STool k) = Some i -> i ∉ st ->
  txt' (STool k) = held' i -> (forall s, s <> STool k -> txt' s = txt s) -> (forall j, j <> i -> held' j = held j) -> Core pl next st held' blocks txt'.
Proof.
  intros H Hs Hi Hk Ht Hh. pose proof (core_range _ _ _ _ _ _ H _ _ Hs) as Hr. constructor; try solve [apply H | exact (core_next _ _ _ _ _ _ H)].
  - intros s j Hj Hst. rewrite Ht by (intros ->; congruence). exact (core_open _ _ _ _ _ _ H _ _ Hj Hst).
  - intros s j Hj Hst. destruct (decide (s = STool k)) as [->|Hne]; [replace j with i by congruence; exact Hk|].
    rewrite Ht, Hh; [exact (core_held _ _ _ _ _ _ H _ _ Hj Hst)| |exact Hne]. intros ->. exact (Hne (core_inj _ _ _ _ _ _ H _ _ _ Hj Hs)).
  - intros s Hn. rewrite Ht by (intros ->; congruence). exact (core_free _ _ _ _ _ _ H _ Hn).
  - intros j Hj. rewrite Hh by lia. exact (core_fresh _ _ _ _ _ _ H _ Hj).
Qed.

(** ** The invariant of an unfinished stream *)

Definition core_of (m : StreamMapper) (c : Client) (txt : Slot -> string) : Prop :=
  Core (slot_place m) (nextChatBlock (m_chat m)) (blockStarted (m_blocks m)) (at0 (argsByIndex (m_items m))) (c_blocks c) txt.

Definition is_tool (s : Slot) : bool := match s with STool _ => true | _ => false end.

Record Inv (m : StreamMapper) (c : Client) (u : Content) : Prop := mkInv {
  inv_core : core_of m c (text_of u);
  inv_order : blockOrder (m_blocks m) = seqZ 0 (nextChatBlock (m_chat m));
  inv_stopped : blockStopped (m_blocks m) = ∅;
  inv_head : c_started c = m_started (m_head m);
  inv_live : c_ended c = false /\ c_closed c = false;
  inv_content : forall s, is_Some (slot_place m s) <-> is_Some (content u s);
  inv_plain : forall s i, slot_place m s = Some i -> is_tool s = false -> i ∈ blockStarted (m_blocks m)
}.

Lemma receive_app (a b : list chatStreamEvent) (c : Client) : receive (a ++ b) c = c' ← receive a c; receive b c'.
Proof.
  revert c. induction a as [|e a IH]; intros c; cbn; [reflexivity|]. destruct (read_event e); cbn; [|reflexivity].
  destruct (accept c _); cbn; [apply IH|reflexivity].
Qed.

Lemma accept_block (c : Client) (i : Z) (k : kind) : c_started c = true -> c_ended c = false -> c_closed c = false -> 0 <= i ->
  c_blocks c !! i = None -> accept c (MsgBlock i k) = Some (mkClient true (<[i := mkBlock k "" true]> (c_blocks c)) false false).
Proof. intros H1 H2 H3 Hi H4. unfold accept. rewrite H1, H2, H3, H4, (proj2 (Z.leb_le 0 i) Hi). reflexivity. Qed.

Lemma accept_delta (c : Client) (i : Z) (k : kind) (t s : string) : c_ended c = false -> c_closed c = false ->
  c_blocks c !! i = Some (mkBlock k t true) ->
  accept c (MsgDelta i k s) = Some (mkClient (c_started c) (<[i := mkBlock k (t +:+ s)%stdpp true]> (c_blocks c)) false false).
Proof. intros H2 H3 H4. unfold accept. rewrite H2, H3, H4, decide_True by reflexivity. reflexivity. Qed.

Definition head_of (k : kind) (i : Z) (block : gomap) : Prop := read_event (block_start i block) = Some (MsgBlock i k).
Definition fragment_of (k : kind) (i : Z) (delta : gomap) (s : string) : Prop := read_event (block_delta i delta) = Some (MsgDelta i k s).

(** The head of a block and perhaps a fragment. *)
Lemma receive_head (c : Client) (i : Z) (k : kind) (block : gomap) : head_of k i block -> c_started c = true -> c_ended c = false -> c_closed c = false ->
  0 <= i -> c_blocks c !! i = None -> receive [block_start i block] c = Some (mkClient true (<[i := mkBlock k "" true]> (c_blocks c)) false false).
Proof. intros Hb H1 H2 H3 Hi H4. cbn [receive]. rewrite Hb. cbn [mbind option_bind]. rewrite (accept_block c i k) by assumption. reflexivity. Qed.

Lemma receive_fragment (c : Client) (i : Z) (k : kind) (delta : gomap) (t s : string) : fragment_of k i delta s -> c_ended c = false -> c_closed c = false ->
  c_blocks c !! i = Some (mkBlock k t true) ->
  receive [block_delta i delta] c = Some (mkClient (c_started c) (<[i := mkBlock k (t +:+ s)%stdpp true]> (c_blocks c)) false false).
Proof. intros Hd H2 H3 H4. cbn [receive]. rewrite Hd. cbn [mbind option_bind]. rewrite (accept_delta c i k t) by assumption. reflexivity. Qed.

Lemma receive_opening (c : Client) (i : Z) (k : kind) (block delta : gomap) (s : string) : head_of k i block -> fragment_of k i delta s ->
  c_started c = true -> c_ended c = false -> c_closed c = false -> 0 <= i -> c_blocks c !! i = None ->
  receive [block_start i block; block_delta i delta] c = Some (mkClient true (<[i := mkBlock k s true]> (c_blocks c)) false false).
Proof.
  intros Hb Hd H1 H2 H3 Hi H4. change [block_start i block; block_delta i delta] with ([block_start i block] ++ [block_delta i delta])%list.
  rewrite receive_app, (receive_head c i k) by assumption. cbn [mbind option_bind].
  rewrite (receive_fragment _ i k _ "" s Hd) by (try reflexivity; cbn; apply lookup_insert_eq). cbn. rewrite insert_insert_eq. reflexivity.
Qed.

(** ** Allocation *)

Record Alloc (s : Slot) (m : StreamMapper) (i : Z) (m1 : StreamMapper) : Prop := mkAlloc {
  al_place : slot_place m1 s = Some i;
  al_other : forall s', s' <> s -> slot_place m1 s' = slot_place m s';
  al_head : m_head m1 = m_head m;
  al_items : m_items m1 = m_items m;
  al_started : blockStarted (m_blocks m1) = blockStarted (m_blocks m);
  al_stopped : blockStopped (m_blocks m1) = blockStopped (m_blocks m);
  al_core : forall c txt, core_of m c txt -> core_of m1 c txt;
  al_order : blockOrder (m_blocks m) = seqZ 0 (nextChatBlock (m_chat m)) -> blockOrder (m_blocks m1) = seqZ 0 (nextChatBlock (m_chat m1))
}.

Lemma alloc_same (s : Slot) (m : StreamMapper) (i : Z) : slot_place m s = Some i -> Alloc s m i m.
Proof. intros H. constructor; auto. Qed.

(** A new index for a slot without one. *)
Lemma alloc_new (s : Slot) (m m1 : StreamMapper) : 0 <= nextChatBlock (m_chat m) -> slot_place m s = None ->
  (forall s', slot_place m1 s' = if decide (s' = s) then Some (nextChatBlock (m_chat m)) else slot_place m s') ->
  m_head m1 = m_head m -> m_items m1 = m_items m -> m_blocks m1 = m_blocks (order_block (nextChatBlock (m_chat m)) m) ->
  nextChatBlock (m_chat m1) = nextChatBlock (m_chat m) + 1 -> Alloc s m (nextChatBlock (m_chat m)) m1.
Proof.
  intros Hn Hs Hp Hh Hi Hb Hx. constructor; try assumption; try (rewrite Hb; reflexivity).
  - rewrite Hp, decide_True; reflexivity.
  - intros s' Hne. rewrite Hp, decide_False by exact Hne. reflexivity.
  - intros c txt H. unfold core_of. rewrite Hi, Hx, Hb. exact (core_alloc _ _ _ _ _ _ _ _ H Hs Hp).
  - intros Ho. rewrite Hb, Hx. cbn. rewrite Ho, seqZ_app by lia. f_equal. 
Qed.

Ltac slots := intros []; cbn [slot_place order_block with_blocks with_chat take_block m_chat chatTextSet chatTextIndex chatReasoningSet chatReasoningIndex chatToolIndexes];
  repeat case_decide; simplify_eq; try reflexivity.

Lemma alloc_text (m : StreamMapper) : 0 <= nextChatBlock (m_chat m) -> Alloc SText m (chatTextBlock m).1 (chatTextBlock m).2.
Proof.
  intros Hn. unfold chatTextBlock. destruct (chatTextSet (m_chat m)) eqn:E; cbn [fst snd].
  - apply alloc_same. cbn. rewrite E. reflexivity.
  - apply alloc_new; try reflexivity; [exact Hn|cbn; rewrite E; reflexivity|slots].
Qed.

Lemma alloc_reasoning (m : StreamMapper) : 0 <= nextChatBlock (m_chat m) -> Alloc SThinking m (chatReasoningBlock m).1 (chatReasoningBlock m).2.
Proof.
  intros Hn. unfold chatReasoningBlock. destruct (chatReasoningSet (m_chat m)) eqn:E; cbn [fst snd].
  - apply alloc_same. cbn. rewrite E. reflexivity.
  - apply alloc_new; try reflexivity; [exact Hn|cbn; rewrite E; reflexivity|slots].
Qed.

Lemma alloc_tool (k : Z) (m : StreamMapper) : 0 <= nextChatBlock (m_chat m) -> Alloc (STool k) m (chatToolBlock k m).1 (chatToolBlock k m).2.
Proof.
  intros Hn. unfold chatToolBlock. destruct (chatToolIndexes (m_chat m) !! k) as [i|] eqn:E; cbn [fst snd].
  - apply alloc_same, E.
  - apply alloc_new; try reflexivity; [exact Hn|exact E|]. slots; [apply lookup_insert_eq|apply lookup_insert_ne; congruence].
Qed.

(** ** Fragments *)

(** [u'] is [u] with [x] appended to one slot. *)
Record Appends (u u' : Content) (s : Slot) (x : string) : Prop := mkAppends {
  ap_slot : text_of u' s = (text_of u s +:+ x)%stdpp;
  ap_some : is_Some (content u' s);
  ap_text : forall s', s' <> s -> text_of u' s' = text_of u s';
  ap_content : forall s', s' <> s -> content u' s' = content u s'
}.

(** What one operation of the mapper does: its events are accepted and the
    invariant holds for the new content. *)
Definition ok (op : M (list chatStreamEvent)) (m : StreamMapper) (c : Client) (u' : Content) : Prop :=
  exists c', receive (op m).1 c = Some c' /\ Inv (op m).2 c' u' /\ m_head (op m).2 = m_head m.

Lemma set_inv (s : Slot) (m m1 m2 : StreamMapper) (i : Z) (x : string) (c c' : Client) (u u' : Content) : Inv m c u -> Alloc s m i m1 ->
  Appends u u' s x -> (forall s', slot_place m2 s' = slot_place m1 s') -> nextChatBlock (m_chat m2) = nextChatBlock (m_chat m1) ->
  m_blocks m2 = m_blocks (start_block i m1) -> m_head m2 = m_head m1 ->
  (forall j, j <> i -> at0 (argsByIndex (m_items m2)) j = at0 (argsByIndex (m_items m1)) j) ->
  c' = mkClient (c_started c) (<[i := mkBlock (kind_of s) (text_of u' s) true]> (c_blocks c)) false false -> Inv m2 c' u'.
Proof.
  intros H Ha Hu Hp Hn Hb Hh Hargs ->. pose proof (al_core _ _ _ _ Ha _ _ (inv_core _ _ _ H)) as Hc. constructor.
  - unfold core_of. rewrite Hn, Hb.
    pose proof (core_set _ _ _ _ _ (at0 (argsByIndex (m_items m2))) _ _ _ (text_of u') s i Hc (al_place _ _ _ _ Ha) eq_refl eq_refl (ap_text _ _ _ _ Hu) Hargs) as Hs.
    destruct Hs. constructor; try assumption; intros *; rewrite ?Hp; eauto. intros Hi. destruct (core_onto0 _ Hi) as [s0 E].
    exists s0. rewrite Hp. exact E.
  - rewrite Hn, Hb. cbn. exact (al_order _ _ _ _ Ha (inv_order _ _ _ H)).
  - rewrite Hb. cbn. rewrite (al_stopped _ _ _ _ Ha). exact (inv_stopped _ _ _ H).
  - cbn. rewrite Hh, (al_head _ _ _ _ Ha). exact (inv_head _ _ _ H).
  - auto.
  - intros s'. rewrite Hp. destruct (decide (s' = s)) as [->|Hne].
    + rewrite (al_place _ _ _ _ Ha). split; [intros _; exact (ap_some _ _ _ _ Hu)|eauto].
    + rewrite (al_other _ _ _ _ Ha), (ap_content _ _ _ _ Hu) by exact Hne. apply (inv_content _ _ _ H).
  - intros s' j. rewrite Hp, Hb. cbn. intros Hj Ht. destruct (decide (s' = s)) as [->|Hne].
    + rewrite (al_place _ _ _ _ Ha) in Hj. set_solver.
    + rewrite (al_other _ _ _ _ Ha) in Hj by exact Hne. rewrite (al_started _ _ _ _ Ha). apply elem_of_union. right.
      exact (inv_plain _ _ _ H _ _ Hj Ht).
Qed.

Lemma fragment_ok (s : Slot) (m m1 : StreamMapper) (i : Z) (x : string) (c : Client) (u u' : Content) (block delta : gomap) :
  Inv m c u -> m_started (m_head m) = true -> is_tool s = false -> Alloc s m i m1 -> Appends u u' s x ->
  head_of (kind_of s) i block -> fragment_of (kind_of s) i delta x ->
  exists c', receive ((open_with i block m1).1 ++ [block_delta i delta]) c = Some c' /\ Inv (open_with i block m1).2 c' u' /\
    m_head (open_with i block m1).2 = m_head m.
Proof.
  intros H Hst Ht Ha Hu Hb Hd. pose proof (al_core _ _ _ _ Ha _ _ (inv_core _ _ _ H)) as Hc. pose proof (al_place _ _ _ _ Ha) as Hp.
  destruct (inv_live _ _ _ H) as [He Hcl]. pose proof (core_range _ _ _ _ _ _ Hc _ _ Hp) as Hr. unfold open_with, started.
  exists (mkClient (c_started c) (<[i := mkBlock (kind_of s) (text_of u' s) true]> (c_blocks c)) false false).
  case_bool_decide as Hi; cbn [fst snd app].
  - rewrite (receive_fragment c i (kind_of s) delta (text_of u s) x Hd He Hcl (core_open _ _ _ _ _ _ Hc _ _ Hp Hi)), (ap_slot _ _ _ _ Hu).
    split; [reflexivity|]. split; [|exact (al_head _ _ _ _ Ha)]. rewrite <- (ap_slot _ _ _ _ Hu).
    apply (set_inv s m m1 m1 i x c _ u u' H Ha Hu); auto. cbn. destruct (m_blocks m1); cbn in *. f_equal. set_solver.
  - assert (c_started c = true) as Hcs by (rewrite (inv_head _ _ _ H); exact Hst).
    rewrite (receive_opening c i (kind_of s) block delta x Hb Hd Hcs He Hcl (proj1 Hr) (core_blocks _ _ _ _ _ _ Hc _ Hi)).
    assert (text_of u s = "") as Ez by (rewrite (core_held _ _ _ _ _ _ Hc _ _ Hp Hi); destruct s; (reflexivity || discriminate)).
    rewrite (ap_slot _ _ _ _ Hu), Ez, Hcs. split; [reflexivity|]. split; [|exact (al_head _ _ _ _ Ha)].
    apply (set_inv s m m1 _ i x c _ u u' H Ha Hu); try reflexivity. rewrite (ap_slot _ _ _ _ Hu), Ez, Hcs. reflexivity.
Qed.

Lemma app_empty (a b : string) : (a +:+ b)%stdpp = "" -> b = "".
Proof. destruct a; [auto|discriminate]. Qed.

Lemma string_app_nil (a : string) : (a +:+ "")%stdpp = a.
Proof. induction a as [|c a IH]; [reflexivity|]. change (String c (a +:+ "")%stdpp = String c a). f_equal. exact IH. Qed.

Lemma string_app_assoc (a b c : string) : (a +:+ b +:+ c)%stdpp = ((a +:+ b) +:+ c)%stdpp.
Proof. induction a as [|x a IH]; [reflexivity|]. change (String x (a +:+ b +:+ c)%stdpp = String x ((a +:+ b) +:+ c)%stdpp). f_equal. exact IH. Qed.

Definition with_thinking (u : Content) (x : string) : Content := mkContent (u_text u) (u_thinking u +:+ x)%stdpp (u_args u).
Definition with_text (u : Content) (x : string) : Content := mkContent (u_text u +:+ x)%stdpp (u_thinking u) (u_args u).

Lemma appends_thinking (u : Content) (x : string) : x <> "" -> Appends u (with_thinking u x) SThinking x.
Proof.
  intros Hx. constructor; try reflexivity; try (intros []; [reflexivity|contradiction|reflexivity]). cbn.
  destruct (String.eqb_spec (u_thinking u +:+ x)%stdpp "") as [E|]; [apply app_empty in E; contradiction|eauto].
Qed.

Lemma appends_text (u : Content) (x : string) : x <> "" -> Appends u (with_text u x) SText x.
Proof.
  intros Hx. constructor; try reflexivity; try (intros []; [contradiction|reflexivity..]). cbn.
  destruct (String.eqb_spec (u_text u +:+ x)%stdpp "") as [E|]; [apply app_empty in E; contradiction|eauto].
Qed.

Lemma inv_next (m : StreamMapper) (c : Client) (u : Content) : Inv m c u -> 0 <= nextChatBlock (m_chat m).
Proof. intros H. exact (core_next _ _ _ _ _ _ (inv_core _ _ _ H)). Qed.

Lemma reasoning_ok (delta : gomap) (m : StreamMapper) (c : Client) (u : Content) : Inv m c u -> m_started (m_head m) = true ->
  ok (reasoning_events delta) m c (with_thinking u (default "" (firstChatReasoning delta))).
Proof.
  intros H Hst. unfold ok, reasoning_events.
  assert (with_thinking u "" = u) as Eu by (destruct u; unfold with_thinking; cbn; rewrite string_app_nil; reflexivity).
  destruct (firstChatReasoning delta) as [x|]; [|exists c; cbn; rewrite Eu; auto]. cbn [default].
  destruct (String.eqb_spec x "") as [->|Hx]; [exists c; cbn; rewrite Eu; auto|].
  pose proof (alloc_reasoning m (inv_next _ _ _ H)) as Ha. destruct (chatReasoningBlock m) as [i m1]. cbn [fst snd] in Ha.
  pose proof (fragment_ok SThinking m m1 i x c u _ thinking_block (thinking_delta x) H Hst eq_refl Ha (appends_thinking u x Hx) eq_refl eq_refl) as Hf.
  destruct (open_with i thinking_block m1) as [out m2]. exact Hf.
Qed.

Lemma text_ok (delta : gomap) (m : StreamMapper) (c : Client) (u : Content) : Inv m c u -> m_started (m_head m) = true ->
  ok (text_events delta) m c (with_text u (str0 delta "content")).
Proof.
  intros H Hst. unfold ok, text_events, str0.
  assert (with_text u "" = u) as Eu by (destruct u; unfold with_text; cbn; rewrite string_app_nil; reflexivity).
  destruct (str delta "content") as [x|]; [|exists c; cbn; rewrite Eu; auto]. cbn [default].
  destruct (String.eqb_spec x "") as [->|Hx]; [exists c; cbn; rewrite Eu; auto|].
  pose proof (alloc_text m (inv_next _ _ _ H)) as Ha. destruct (chatTextBlock m) as [i m1]. cbn [fst snd] in Ha.
  pose proof (fragment_ok SText m m1 i x c u _ text_block (text_delta x) H Hst eq_refl Ha (appends_text u x Hx) eq_refl eq_refl) as Hf.
  destruct (open_with i text_block m1) as [out m2]. exact Hf.
Qed.

(** ** Tools *)

Lemma at0_insert (t : gmap Z string) (i : Z) (s : string) : at0 (<[i := s]> t) i = s.
Proof. unfold at0. rewrite lookup_insert_eq. reflexivity. Qed.

Lemma at0_insert_ne (t : gmap Z string) (i j : Z) (s : string) : j <> i -> at0 (<[i := s]> t) j = at0 t j.
Proof. intros H. unfold at0. rewrite lookup_insert_ne by congruence. reflexivity. Qed.

Definition with_call (u : Content) (call : gomap) : Content := mkContent (u_text u) (u_thinking u) (add_call (u_args u) (AObj call)).

Lemma appends_call (u : Content) (call : gomap) : Appends u (with_call u call) (STool (intOr0 call "index")) (call_args call).
Proof.
  constructor; cbn.
  - rewrite at0_insert. reflexivity.
  - rewrite lookup_insert_eq. eauto.
  - intros [| |k] Hk; try reflexivity. cbn. rewrite at0_insert_ne by congruence. reflexivity.
  - intros [| |k] Hk; try reflexivity. cbn. rewrite lookup_insert_ne by congruence. reflexivity.
Qed.

Lemma appends_nothing (u : Content) (s : Slot) : is_Some (content u s) -> Appends u u s "".
Proof. intros H. constructor; auto. rewrite string_app_nil. reflexivity. Qed.

(** Only identifiers and names of tools differ. *)
Definition same_content (m m' : StreamMapper) : Prop :=
  m_head m' = m_head m /\ m_blocks m' = m_blocks m /\ m_chat m' = m_chat m /\ argsByIndex (m_items m') = argsByIndex (m_items m).

Lemma same_refl (m : StreamMapper) : same_content m m.
Proof. repeat split. Qed.

Lemma same_id (i : Z) (call : gomap) (m m' : StreamMapper) : same_content m m' -> same_content m (merge_id i call m').
Proof. intros H. unfold merge_id. destruct (str call "id") as [id|]; [destruct (String.eqb id "")|]; exact H. Qed.

Lemma same_name (i : Z) (f : gomap) (m m' : StreamMapper) : same_content m m' -> same_content m (merge_name i f m').
Proof. intros H. unfold merge_name. destruct (str f "name") as [id|]; [destruct (String.eqb id "")|]; exact H. Qed.

Lemma same_place (m m' : StreamMapper) (s : Slot) : same_content m m' -> slot_place m' s = slot_place m s.
Proof. intros (_ & _ & E & _). unfold slot_place. rewrite E. reflexivity. Qed.

Lemma same_alloc (s : Slot) (m m1 m2 : StreamMapper) (i : Z) : Alloc s m i m1 -> same_content m1 m2 -> m_items m2 = m_items m1 -> Alloc s m i m2.
Proof.
  intros [] Hs Hi. pose proof (fun s => same_place _ _ s Hs) as Hp. destruct Hs as (Eh & Eb & Ec & Ea).
  constructor; rewrite ?Hp, ?Eh, ?Hi, ?Eb, ?Ec; auto.
  - intros s'. rewrite Hp. auto.
  - intros c txt H. apply al_core0 in H. unfold core_of in *. rewrite Eb, Ec, Ea. destruct H. constructor; auto; intros *; rewrite ?Hp; eauto.
    intros H. destruct (core_onto0 _ H) as [s0 E]. exists s0. rewrite Hp. exact E.
Qed.

Lemma tool_head (i : Z) (id name : string) : head_of KTool i (tool_block id name).
Proof. reflexivity. Qed.

Lemma tool_fragment (i : Z) (s : string) : fragment_of KTool i (json_delta s) s.
Proof. reflexivity. Qed.

(** A held block starts with the arguments it holds. *)
Lemma start_tool_ok (k i : Z) (m : StreamMapper) (c : Client) (u : Content) : Inv m c u -> m_started (m_head m) = true ->
  slot_place m (STool k) = Some i -> i ∉ blockStarted (m_blocks m) -> ok (startChatToolBlock i) m c u.
Proof.
  intros H Hst Hp Hi. pose proof (inv_core _ _ _ H) as Hc. destruct (inv_live _ _ _ H) as [He Hcl].
  assert (c_started c = true) as Hcs by (rewrite (inv_head _ _ _ H); exact Hst).
  pose proof (core_range _ _ _ _ _ _ Hc _ _ Hp) as Hr. pose proof (core_held _ _ _ _ _ _ Hc _ _ Hp Hi) as Ht. cbn in Ht.
  assert (is_Some (content u (STool k))) as Hs by (apply (inv_content _ _ _ H); rewrite Hp; eauto).
  pose proof (appends_nothing _ _ Hs) as Hu. pose proof (alloc_same _ _ _ Hp) as Ha.
  unfold ok, startChatToolBlock, started. rewrite bool_decide_false by exact Hi.
  set (p := if String.eqb (at0 (fcIDs (m_items (start_block i m))) i) "" then _ else _).
  assert (exists id m2, p = (id, m2) /\ same_content (start_block i m) m2) as (id & m2 & Ep & Es) by (subst p; destruct (String.eqb _ ""); eexists _, _; repeat split).
  rewrite Ep. destruct Es as (Eh & Eb & Ec & Ea). rewrite Ea. cbn [start_block with_blocks m_items].
  exists (mkClient (c_started c) (<[i := mkBlock KTool (text_of u (STool k)) true]> (c_blocks c)) false false).
  destruct (String.eqb_spec (at0 (argsByIndex (m_items m)) i) "") as [E|E]; cbn [fst snd].
  - rewrite (receive_head c i KTool _ (tool_head _ _ _) Hcs He Hcl (proj1 Hr) (core_blocks _ _ _ _ _ _ Hc _ Hi)), Hcs. cbn [text_of]. rewrite Ht, E.
    split; [reflexivity|]. split; [|exact Eh]. apply (set_inv (STool k) m m _ i "" c _ u u H Ha Hu); try assumption.
    + intros s'. unfold slot_place. rewrite Ec. reflexivity.
    + rewrite Ec. reflexivity.
    + intros j Hj. rewrite Ea. reflexivity.
    + cbn. rewrite Ht, E, Hcs. reflexivity.
  - rewrite (receive_opening c i KTool _ _ _ (tool_head _ _ _) (tool_fragment _ _) Hcs He Hcl (proj1 Hr) (core_blocks _ _ _ _ _ _ Hc _ Hi)), Hcs. cbn [text_of]. rewrite Ht.
    split; [reflexivity|]. split; [|exact Eh]. apply (set_inv (STool k) m m _ i "" c _ u u H Ha Hu); try assumption.
    + intros s'. unfold slot_place. cbn. rewrite Ec. reflexivity.
    + cbn. rewrite Ec. reflexivity.
    + intros j Hj. cbn. rewrite Ea, at0_insert_ne by exact Hj. reflexivity.
    + cbn. rewrite Ht, Hcs. reflexivity.
Qed.

Lemma same_trans (m1 m2 m3 : StreamMapper) : same_content m1 m2 -> same_content m2 m3 -> same_content m1 m3.
Proof. intros (A & B & C & D) (A' & B' & C' & D'). repeat split; congruence. Qed.

(** A fragment for a tool whose block is open. *)
Lemma tool_open_ok (k i : Z) (m m1 m2 : StreamMapper) (c : Client) (u u' : Content) (x : string) : Inv m c u -> m_started (m_head m) = true ->
  Alloc (STool k) m i m1 -> same_content m1 m2 -> Appends u u' (STool k) x -> i ∈ blockStarted (m_blocks m1) ->
  exists c', receive (if String.eqb x "" then [] else [block_delta i (json_delta x)]) c = Some c' /\ Inv m2 c' u' /\ m_head m2 = m_head m.
Proof.
  intros H Hst Ha Hs Hu Hi. pose proof (al_core _ _ _ _ Ha _ _ (inv_core _ _ _ H)) as Hc. pose proof (al_place _ _ _ _ Ha) as Hp.
  destruct (inv_live _ _ _ H) as [He Hcl]. pose proof (core_open _ _ _ _ _ _ Hc _ _ Hp Hi) as Hb.
  assert (m_head m2 = m_head m) as Eh by (rewrite (proj1 Hs); exact (al_head _ _ _ _ Ha)).
  assert (forall c', c' = mkClient (c_started c) (<[i := mkBlock KTool (text_of u' (STool k)) true]> (c_blocks c)) false false -> Inv m2 c' u') as Hinv.
  { destruct Hs as (E1 & E2 & E3 & E4). intros c' Ec. apply (set_inv (STool k) m m1 m2 i x c c' u u' H Ha Hu); auto.
    - intros s'. unfold slot_place. rewrite E3. reflexivity.
    - rewrite E3. reflexivity.
    - rewrite E2. unfold start_block, with_blocks. cbn. destruct (m_blocks m1) as [bs1 bs2 bo]. cbn in *. f_equal. set_solver.
    - intros j _. rewrite E4. reflexivity. }
  destruct (String.eqb_spec x "") as [->|Hx].
  - exists c. split; [reflexivity|]. split; [|exact Eh]. apply Hinv. rewrite (ap_slot _ _ _ _ Hu), string_app_nil, insert_id by exact Hb.
    destruct c. cbn in *. subst. reflexivity.
  - eexists. rewrite (receive_fragment c i KTool _ _ x (tool_fragment _ _) He Hcl Hb). split; [reflexivity|]. split; [|exact Eh].
    apply Hinv. rewrite (ap_slot _ _ _ _ Hu). reflexivity.
Qed.

(** The arguments of a tool whose block has not started are held. *)
Lemma tool_hold_ok (k i : Z) (m m1 m2 : StreamMapper) (c : Client) (u u' : Content) (x : string) : Inv m c u ->
  Alloc (STool k) m i m1 -> same_content m1 m2 -> Appends u u' (STool k) x -> i ∉ blockStarted (m_blocks m1) ->
  Inv (set_args i (at0 (argsByIndex (m_items m2)) i +:+ x)%stdpp m2) c u'.
Proof.
  intros H Ha (E1 & E2 & E3 & E4) Hu Hi. pose proof (al_core _ _ _ _ Ha _ _ (inv_core _ _ _ H)) as Hc. pose proof (al_place _ _ _ _ Ha) as Hp.
  set (m3 := set_args _ _ m2). assert (forall s, slot_place m3 s = slot_place m1 s) as Hpl by (intros s; unfold slot_place; cbn; rewrite E3; reflexivity).
  constructor; cbn; rewrite ?E1, ?E2, ?E3.
  - unfold core_of. cbn. rewrite E2, E3.
    assert (Core (slot_place m1) (nextChatBlock (m_chat m1)) (blockStarted (m_blocks m1)) (at0 (argsByIndex (m_items m3))) (c_blocks c) (text_of u')) as Hcore.
    { apply (core_hold _ _ _ (at0 (argsByIndex (m_items m1))) _ _ (text_of u) _ k i Hc Hp Hi).
      - rewrite (ap_slot _ _ _ _ Hu), (core_held _ _ _ _ _ _ Hc _ _ Hp Hi). subst m3. cbn. rewrite at0_insert, E4. reflexivity.
      - exact (ap_text _ _ _ _ Hu).
      - intros j Hj. subst m3. cbn. rewrite at0_insert_ne, E4 by exact Hj. reflexivity. }
    destruct Hcore. constructor; auto; intros *; rewrite ?Hpl; eauto. intros Hj. destruct (core_onto0 _ Hj) as [s0 E]. exists s0. rewrite Hpl. exact E.
  - exact (al_order _ _ _ _ Ha (inv_order _ _ _ H)).
  - rewrite (al_stopped _ _ _ _ Ha). exact (inv_stopped _ _ _ H).
  - rewrite (al_head _ _ _ _ Ha). exact (inv_head _ _ _ H).
  - exact (inv_live _ _ _ H).
  - intros s'. rewrite Hpl. destruct (decide (s' = STool k)) as [->|Hne].
    + rewrite Hp. split; [intros _; exact (ap_some _ _ _ _ Hu)|eauto].
    + rewrite (al_other _ _ _ _ Ha), (ap_content _ _ _ _ Hu) by exact Hne. apply (inv_content _ _ _ H).
  - intros s' j. rewrite Hpl. intros Hj Ht. assert (s' <> STool k) as Hne by (intros ->; discriminate).
    rewrite (al_other _ _ _ _ Ha) in Hj by exact Hne. rewrite (al_started _ _ _ _ Ha). exact (inv_plain _ _ _ H _ _ Hj Ht).
Qed.

Lemma tool_event_ok (call : gomap) (m : StreamMapper) (c : Client) (u : Content) : Inv m c u -> m_started (m_head m) = true ->
  ok (tool_event call) m c (with_call u call).
Proof.
  intros H Hst. unfold ok, tool_event. set (k := intOr0 call "index"). pose proof (appends_call u call) as Hu. fold k in Hu.
  pose proof (alloc_tool k m (inv_next _ _ _ H)) as Ha. destruct (chatToolBlock k m) as [i m1]. cbn [fst snd] in Ha.
  set (p := match obj call "function" with Some f => _ | None => _ end).
  assert (exists m2, p = (call_args call, m2) /\ same_content m1 m2) as (m2 & Ep & Es).
  { subst p. unfold call_args. destruct (obj call "function") as [f|]; eexists; (split; [reflexivity|]); [apply same_name|]; apply same_id, same_refl. }
  rewrite Ep. unfold started. rewrite (proj1 (proj2 Es)). case_bool_decide as Hi; cbn [negb].
  - pose proof (tool_open_ok k i m m1 m2 c u _ _ H Hst Ha Es Hu Hi) as Hok. destruct (String.eqb (call_args call) ""); exact Hok.
  - pose proof (tool_hold_ok k i m m1 m2 c u _ _ H Ha Es Hu Hi) as Hinv. set (m3 := set_args _ _ m2) in *.
    assert (m_head m3 = m_head m) as Eh by (subst m3; cbn; rewrite (proj1 Es); exact (al_head _ _ _ _ Ha)).
    destruct (negb _ && negb _ && negb _); [|exists c; auto]. unfold ok in *.
    destruct (start_tool_ok k i m3 c (with_call u call) Hinv) as (c' & R & I & E); [rewrite Eh; exact Hst| | |].
    + unfold slot_place. subst m3. cbn. rewrite (proj1 (proj2 (proj2 Es))). exact (al_place _ _ _ _ Ha).
    + subst m3. cbn. rewrite (proj1 (proj2 Es)). exact Hi.
    + exists c'. split; [exact R|]. split; [exact I|congruence].
Qed.

(** Two operations one after the other. *)
Lemma ok_bind (f g : M (list chatStreamEvent)) (m : StreamMapper) (c : Client) (u1 u2 : Content) :
  ok f m c u1 -> (forall c1, Inv (f m).2 c1 u1 -> m_head (f m).2 = m_head m -> ok g (f m).2 c1 u2) ->
  ok (fun m => let '(o, m) := f m in let '(o', m) := g m in (o ++ o', m)%list) m c u2.
Proof.
  intros (c1 & R1 & I1 & E1) H. destruct (H c1 I1 E1) as (c2 & R2 & I2 & E2). unfold ok.
  destruct (f m) as [o m1]. cbn in *. destruct (g m1) as [o' m2]. cbn in *. exists c2. rewrite receive_app, R1. split; [exact R2|].
  split; [exact I2|congruence].
Qed.

Lemma tool_events_ok (calls : list any) (m : StreamMapper) (c : Client) (u : Content) : Inv m c u -> m_started (m_head m) = true ->
  ok (tool_events calls) m c (mkContent (u_text u) (u_thinking u) (fold_left add_call calls (u_args u))).
Proof.
  revert m c u. induction calls as [|raw calls IH]; intros m c u H Hst.
  - exists c. cbn. destruct u. auto.
  - destruct raw as [| | | | | |call]; try exact (IH m c u H Hst).
    apply (ok_bind (tool_event call) (tool_events calls) m c (with_call u call)); [apply tool_event_ok; assumption|].
    intros c1 H1 E1. apply (IH _ c1 (with_call u call) H1). rewrite E1. exact Hst.
Qed.

Lemma delta_ok (delta : gomap) (m : StreamMapper) (c : Client) (u : Content) : Inv m c u -> m_started (m_head m) = true ->
  ok (chatDeltaToMessEvents delta) m c (add_delta u delta).
Proof.
  intros H Hst. pose (tools := fun m => match arr delta "tool_calls" with Some calls => tool_events calls m | None => ([], m) end).
  pose (rest := fun m => let '(o, m) := text_events delta m in let '(o', m) := tools m in (o ++ o', m)%list).
  set (u1 := with_thinking u (default "" (firstChatReasoning delta))). set (u2 := with_text u1 (str0 delta "content")).
  assert (ok (fun m => let '(o, m) := reasoning_events delta m in let '(o', m) := rest m in (o ++ o', m)%list) m c (add_delta u delta)) as Hok.
  { apply (ok_bind _ rest m c u1); [apply reasoning_ok; assumption|]. intros c1 H1 E1. rewrite <- E1 in Hst. set (m1 := (reasoning_events delta m).2) in *.
    apply (ok_bind (text_events delta) tools m1 c1 u2); [apply text_ok; assumption|]. intros c2 H2 E2. rewrite <- E2 in Hst.
    unfold tools, add_delta. destruct (arr delta "tool_calls") as [calls|]; cbn [default].
    - exact (tool_events_ok calls _ _ u2 H2 Hst).
    - exists c2. auto. }
  unfold ok, chatDeltaToMessEvents in *. subst rest tools. cbn beta in Hok. destruct (reasoning_events delta m) as [o1 m1].
  destruct (text_events delta m1) as [o2 m2]. destruct (match arr delta "tool_calls" with Some _ => _ | None => _ end) as [o3 m3]. exact Hok.
Qed.

(** ** Chunks *)

Definition same_blocks (m m' : StreamMapper) : Prop := m_blocks m' = m_blocks m /\ m_items m' = m_items m /\ m_chat m' = m_chat m.

Lemma inv_rehead (m m' : StreamMapper) (c c' : Client) (u : Content) : Inv m c u -> same_blocks m m' -> c_started c' = m_started (m_head m') ->
  c_blocks c' = c_blocks c -> c_ended c' = false /\ c_closed c' = false -> Inv m' c' u.
Proof.
  intros [] (E1 & E2 & E3) Hs Hb Hl. assert (forall s, slot_place m' s = slot_place m s) as Hp by (intros s; unfold slot_place; rewrite E3; reflexivity).
  constructor; rewrite ?E1, ?E3; auto.
  - unfold core_of in *. rewrite E1, E2, E3, Hb. destruct inv_core0. constructor; auto; intros *; rewrite ?Hp; eauto.
    intros H. destruct (core_onto0 _ H) as [s E]. exists s. rewrite Hp. exact E.
  - intros s. rewrite Hp. apply inv_content0.
  - intros s i. rewrite Hp. apply inv_plain0.
Qed.

(** The message has begun and the mapper is not done. *)
Definition live (m : StreamMapper) : Prop := m_started (m_head m) = true /\ m_done (m_head m) = false.

Lemma start_message_ok (usage : StreamMapper -> gomap) (m : StreamMapper) (c : Client) (u : Content) : Inv m c u ->
  exists c', receive (start_message usage m).1 c = Some c' /\ Inv (start_message usage m).2 c' u /\
    m_started (m_head (start_message usage m).2) = true /\ m_done (m_head (start_message usage m).2) = m_done (m_head m) /\
    m_chat (start_message usage m).2 = m_chat m.
Proof.
  intros H. unfold start_message. destruct (m_started (m_head m)) eqn:E; cbn [fst snd]; [exists c; auto|].
  destruct (inv_live _ _ _ H) as [He Hcl]. exists (mkClient true (c_blocks c) false false).
  cbn. unfold accept. rewrite (inv_head _ _ _ H), Hcl, E. split; [reflexivity|]. split; [|auto].
  apply (inv_rehead m _ c _ u H); repeat split.
Qed.

Lemma identify_same (event : gomap) (m : StreamMapper) : same_blocks m (identify event m) /\
  m_started (m_head (identify event m)) = m_started (m_head m) /\ m_done (m_head (identify event m)) = m_done (m_head m).
Proof.
  unfold identify. destruct (str event "id") as [id|]; [destruct (String.eqb id "")|]; cbn;
    (destruct (str event "model") as [md|]; [destruct (String.eqb md "")|]); repeat split.
Qed.

Lemma capture_same (event : gomap) (m : StreamMapper) : same_blocks m (captureChatUsage event m) /\
  m_started (m_head (captureChatUsage event m)) = m_started (m_head m) /\ m_done (m_head (captureChatUsage event m)) = m_done (m_head m).
Proof. unfold captureChatUsage. destruct (obj event "usage") as [us|]; [destruct (obj us "prompt_tokens_details")|]; repeat split. Qed.

Lemma choice_ok (choice : gomap) (m : StreamMapper) (c : Client) (u : Content) : Inv m c u -> live m ->
  exists c', receive (choice_events choice m).1 c = Some c' /\
    Inv (choice_events choice m).2 c' (match obj choice "delta" with Some delta => add_delta u delta | None => u end) /\ live (choice_events choice m).2.
Proof.
  intros H [Hst Hd]. unfold choice_events.
  assert (exists c', receive (match obj choice "delta" with Some delta => chatDeltaToMessEvents delta m | None => ([], m) end).1 c = Some c' /\
    Inv (match obj choice "delta" with Some delta => chatDeltaToMessEvents delta m | None => ([], m) end).2 c'
      (match obj choice "delta" with Some delta => add_delta u delta | None => u end) /\
    m_head (match obj choice "delta" with Some delta => chatDeltaToMessEvents delta m | None => ([], m) end).2 = m_head m) as (c' & R & I & E).
  { destruct (obj choice "delta") as [delta|]; [apply delta_ok; assumption|exists c; auto]. }
  destruct (match obj choice "delta" with Some delta => chatDeltaToMessEvents delta m | None => ([], m) end) as [out m1].
  cbn [fst snd] in *. exists c'. split; [exact R|]. unfold live. rewrite <- E in Hst, Hd.
  destruct (str choice "finish_reason") as [r|]; [destruct (String.eqb r "")|]; auto.
  split; [|auto]. apply (inv_rehead m1 _ c' c' _ I); [repeat split|exact (inv_head _ _ _ I)|reflexivity|exact (inv_live _ _ _ I)].
Qed.

Lemma chunk_ok (event : gomap) (data : bytes) (m : StreamMapper) (c : Client) (u : Content) : Inv m c u -> m_done (m_head m) = false ->
  decodeObj data = Some event -> exists c', receive (chunk_events event m).1 c = Some c' /\ Inv (chunk_events event m).2 c' (add_chunk u data) /\
    m_done (m_head (chunk_events event m).2) = false.
Proof.
  intros H Hd Ed. unfold chunk_events, add_chunk. rewrite Ed.
  destruct (identify_same event m) as (S1 & E1 & D1). set (m1 := identify event m) in *.
  destruct (capture_same event m1) as (S2 & E2 & D2). set (m2 := captureChatUsage event m1) in *.
  assert (Inv m2 c u) as H2.
  { apply (inv_rehead m m2 c c u H); [|rewrite E2, E1; exact (inv_head _ _ _ H)|reflexivity|exact (inv_live _ _ _ H)].
    destruct S1 as (? & ? & ?), S2 as (? & ? & ?). repeat split; congruence. }
  set (usage := fun m => [("input_tokens", _)%string; _; _; _]).
  destruct (start_message_ok usage m2 c u H2) as (c1 & R1 & I1 & St & Dn & Hc1). destruct (start_message usage m2) as [o1 m3]. cbn [fst snd] in *.
  assert (live m3) as Hl by (split; congruence).
  destruct (arr event "choices") as [choices|]; cbn [mbind option_bind]; [|exists c1; exact (conj R1 (conj I1 (proj2 Hl)))].
  destruct (first_choice choices) as [choice|]; cbn [mbind option_bind]; [|exists c1; exact (conj R1 (conj I1 (proj2 Hl)))].
  destruct (choice_ok choice m3 c1 u I1 Hl) as (c2 & R2 & I2 & Hl2). destruct (choice_events choice m3) as [o2 m4]. cbn [fst snd] in *.
  exists c2. rewrite receive_app, R1. split; [exact R2|]. split; [|exact (proj2 Hl2)]. destruct (obj choice "delta"); exact I2.
Qed.

(** ** The end of the stream *)

Definition inside (m : StreamMapper) (i : Z) : Prop := 0 <= i < nextChatBlock (m_chat m).

Lemma start_tool_places (i : Z) (m : StreamMapper) : m_chat (startChatToolBlock i m).2 = m_chat m /\
  blockStarted (m_blocks m) ⊆ blockStarted (m_blocks (startChatToolBlock i m).2) /\ i ∈ blockStarted (m_blocks (startChatToolBlock i m).2).
Proof.
  unfold startChatToolBlock, started. case_bool_decide as Hi; [auto|].
  destruct (String.eqb (at0 (fcIDs (m_items (start_block i m))) i) "");
    destruct (String.eqb (at0 (argsByIndex _) i) ""); cbn; (split; [reflexivity|set_solver]).
Qed.

Lemma held_tool (i : Z) (m : StreamMapper) (c : Client) (u : Content) : Inv m c u -> inside m i -> i ∉ blockStarted (m_blocks m) ->
  exists k, slot_place m (STool k) = Some i.
Proof.
  intros H Hr Hi. destruct (core_onto _ _ _ _ _ _ (inv_core _ _ _ H) i Hr) as [s Hs].
  destruct s as [| |k]; [destruct (Hi (inv_plain _ _ _ H _ _ Hs eq_refl))..|exists k; exact Hs].
Qed.

Lemma start_held_ok (order : list Z) : forall m c u, Inv m c u -> m_started (m_head m) = true -> Forall (inside m) order ->
  ok (start_held order) m c u /\ m_chat (start_held order m).2 = m_chat m /\
  (forall i, i ∈ blockStarted (m_blocks m) \/ i ∈ order -> i ∈ blockStarted (m_blocks (start_held order m).2)).
Proof.
  induction order as [|i order IH]; intros m c u H Hst Ho.
  - cbn. split; [exists c; auto|]. split; [reflexivity|]. intros i [Hi|Hi]; [exact Hi|]. inversion Hi.
  - apply Forall_cons in Ho as [Hi Ho].
    pose (op := fun m => if negb (started m i) && (negb (chatTextSet (m_chat m)) || negb (i =? chatTextIndex (m_chat m))%Z) then startChatToolBlock i m else ([], m)).
    assert (ok op m c u /\ m_chat (op m).2 = m_chat m /\ blockStarted (m_blocks m) ⊆ blockStarted (m_blocks (op m).2) /\ i ∈ blockStarted (m_blocks (op m).2)) as (Hok & Hch & Hsub & Hin).
    { subst op. unfold ok. cbn beta. unfold started. case_bool_decide as Hs; cbn [negb andb].
      - split; [exists c; auto|auto].
      - destruct (held_tool i m c u H Hi Hs) as [k Hk].
        assert (negb (chatTextSet (m_chat m)) || negb (i =? chatTextIndex (m_chat m))%Z = true) as ->.
        { destruct (chatTextSet (m_chat m)) eqn:Et; [|reflexivity]. cbn. destruct (Z.eqb_spec i (chatTextIndex (m_chat m))) as [->|]; [|reflexivity].
          assert (slot_place m SText = Some (chatTextIndex (m_chat m))) as Hp by (cbn; rewrite Et; reflexivity).
          discriminate (core_inj _ _ _ _ _ _ (inv_core _ _ _ H) _ _ _ Hp Hk). }
        split; [exact (start_tool_ok k i m c u H Hst Hk Hs)|]. apply start_tool_places. }
    assert (start_held (i :: order) m = let '(o, m) := op m in let '(o', m) := start_held order m in (o ++ o', m)%list) as E by reflexivity.
    assert (forall c1, Inv (op m).2 c1 u -> m_head (op m).2 = m_head m -> ok (start_held order) (op m).2 c1 u /\ m_chat (start_held order (op m).2).2 = m_chat (op m).2 /\
      (forall j, j ∈ blockStarted (m_blocks (op m).2) \/ j ∈ order -> j ∈ blockStarted (m_blocks (start_held order (op m).2).2))) as Hrest.
    { intros c1 I1 E1. apply IH; [exact I1|rewrite E1; exact Hst|]. eapply Forall_impl; [exact Ho|]. intros j. unfold inside. rewrite Hch. auto. }
    split; [|].
    + unfold ok. rewrite E. apply (ok_bind op (start_held order) m c u u Hok). intros c1 I1 E1. apply Hrest; assumption.
    + destruct Hok as (c1 & _ & I1 & E1). destruct (Hrest c1 I1 E1) as (_ & Hc & Hs). rewrite E.
      destruct (op m) as [o m1]. cbn [fst snd] in *. destruct (start_held order m1) as [o' m2]. cbn [fst snd] in *. split; [congruence|].
      intros j [Hj|Hj]; apply Hs; [left; set_solver|]. apply elem_of_cons in Hj as [->|Hj]; [left; exact Hin|right; exact Hj].
Qed.

Definition close (b : Block) : Block := mkBlock (b_kind b) (b_text b) false.

Lemma stop_open_ok (order : list Z) : forall m c, NoDup order -> c_ended c = false -> c_closed c = false ->
  (forall i, i ∈ order -> (i ∈ blockStarted (m_blocks m)) /\ (i ∉ blockStopped (m_blocks m)) /\ (exists k t, c_blocks c !! i = Some (mkBlock k t true))) ->
  exists c', receive (stop_open order m).1 c = Some c' /\ c_started c' = c_started c /\ c_ended c' = false /\ c_closed c' = false /\
    (forall i, c_blocks c' !! i = if decide (i ∈ order) then close <$> c_blocks c !! i else c_blocks c !! i) /\ m_head (stop_open order m).2 = m_head m.
Proof.
  induction order as [|i order IH]; intros m c Hnd He Hcl Ho.
  - exists c. cbn. repeat split; auto.
  - apply NoDup_cons in Hnd as [Hni Hnd]. destruct (Ho i ltac:(left)) as (H1 & H2 & k & t & Hb). cbn [stop_open]. unfold started, stopped.
    rewrite bool_decide_true, bool_decide_false by assumption. cbn [andb negb].
    destruct (IH (stop_block i m) (mkClient (c_started c) (<[i := mkBlock k t false]> (c_blocks c)) false false)) as (c' & R & Es & E2 & E3 & Hbl & Hh); try assumption; try reflexivity.
    { intros j Hj. destruct (Ho j ltac:(right; exact Hj)) as (A & B & Hk). assert (j <> i) by (intros ->; contradiction).
      cbn. split; [exact A|]. split; [set_solver|]. rewrite lookup_insert_ne by congruence. exact Hk. }
    destruct (stop_open order (stop_block i m)) as [o' m2]. cbn [fst snd] in *. exists c'.
    split; [|split; [exact Es|split; [exact E2|split; [exact E3|split; [|exact Hh]]]]].
    + cbn [receive app]. cbn [mbind option_bind read_event block_stop index_of_event get String.eqb]. change (accept c (MsgBlockStop i) ≫= receive o' = Some c').
      unfold accept. rewrite Hcl, He, Hb. exact R.
    + intros j. rewrite Hbl. cbn [c_blocks]. destruct (decide (j = i)) as [->|Hne].
      * rewrite decide_False by exact Hni. rewrite decide_True by left. rewrite lookup_insert_eq, Hb. reflexivity.
      * rewrite lookup_insert_ne by congruence. destruct (decide (j ∈ order)) as [Hj|Hj]; [rewrite decide_True by (right; exact Hj); reflexivity|].
        rewrite decide_False; [reflexivity|]. intros Hx. apply elem_of_cons in Hx as [?|?]; contradiction.
Qed.

(** What a client that has seen the whole stream holds: one closed block per piece
    of content, with the text of the chunks, under the indexes from zero on. *)
Definition delivered (c : Client) (u : Content) : Prop :=
  c_ended c = true /\ c_closed c = true /\
  exists pl : Slot -> option Z,
    (forall s s' i, pl s = Some i -> pl s' = Some i -> s = s') /\
    (forall s x, content u s = Some x -> exists i, pl s = Some i /\ c_blocks c !! i = Some (mkBlock (kind_of s) x false)) /\
    (forall i b, c_blocks c !! i = Some b -> exists s, pl s = Some i /\ is_Some (content u s)) /\
    exists n, forall i, is_Some (c_blocks c !! i) <-> 0 <= i < n.

Lemma content_text (u : Content) (s : Slot) (x : string) : content u s = Some x -> text_of u s = x.
Proof.
  destruct s as [| |k]; cbn.
  - destruct (String.eqb (u_text u) ""); congruence.
  - destruct (String.eqb (u_thinking u) ""); congruence.
  - unfold at0. intros ->. reflexivity.
Qed.

Lemma delivered_of (m : StreamMapper) (c c' : Client) (u : Content) : Inv m c u -> (forall i, inside m i -> i ∈ blockStarted (m_blocks m)) ->
  c_ended c' = true -> c_closed c' = true -> (forall i, c_blocks c' !! i = close <$> c_blocks c !! i) -> delivered c' u.
Proof.
  intros H Hst He Hcl Hb. pose proof (inv_core _ _ _ H) as Hc.
  assert (forall i, is_Some (c_blocks c !! i) -> inside m i) as Hin.
  { intros i Hi. apply (core_started _ _ _ _ _ _ Hc). destruct (decide (i ∈ blockStarted (m_blocks m))) as [|Hn]; [assumption|].
    rewrite (core_blocks _ _ _ _ _ _ Hc i Hn) in Hi. destruct Hi; discriminate. }
  split; [exact He|]. split; [exact Hcl|]. exists (slot_place m). split; [exact (core_inj _ _ _ _ _ _ Hc)|]. split; [|split].
  - intros s x Hx. destruct (proj2 (inv_content _ _ _ H s) (mk_is_Some _ _ Hx)) as [i Hi]. exists i. split; [exact Hi|].
    rewrite Hb, (core_open _ _ _ _ _ _ Hc s i Hi) by (apply Hst, (core_range _ _ _ _ _ _ Hc _ _ Hi)).
    rewrite (content_text _ _ _ Hx). reflexivity.
  - intros i b Hi. rewrite Hb in Hi. destruct (c_blocks c !! i) eqn:Ei; [|discriminate].
    destruct (core_onto _ _ _ _ _ _ Hc i) as [s Hs]; [apply Hin; rewrite Ei; eauto|]. exists s. split; [exact Hs|].
    apply (inv_content _ _ _ H). rewrite Hs. eauto.
  - exists (nextChatBlock (m_chat m)). intros i. rewrite Hb, fmap_is_Some. split; [apply Hin|].
    intros Hr. destruct (core_onto _ _ _ _ _ _ Hc i Hr) as [s Hs]. rewrite (core_open _ _ _ _ _ _ Hc s i Hs (Hst i Hr)). eauto.
Qed.

Lemma finish_ok (m : StreamMapper) (c : Client) (u : Content) : Inv m c u -> m_done (m_head m) = false ->
  exists c', receive (finishChatStream m).1 c = Some c' /\ delivered c' u /\ m_done (m_head (finishChatStream m).2) = true /\
    forall i, is_Some (c_blocks c' !! i) -> 0 <= i < nextChatBlock (m_chat m).
Proof.
  intros H Hd. unfold finishChatStream. rewrite Hd.
  assert (Inv (set_done m) c u) as H0 by (apply (inv_rehead m _ c c u H); [repeat split|exact (inv_head _ _ _ H)|reflexivity|exact (inv_live _ _ _ H)]).
  set (usage := fun m => [("input_tokens", _)%string; _]).
  destruct (start_message_ok usage (set_done m) c u H0) as (c1 & R1 & I1 & St & Dn & Hc1). destruct (start_message usage (set_done m)) as [o1 m1]. cbn [fst snd] in *.
  assert (Forall (inside m1) (blockOrder (m_blocks m1))) as Hord.
  { rewrite (inv_order _ _ _ I1). apply Forall_forall. intros i Hi. apply elem_of_seqZ in Hi. unfold inside. lia. }
  destruct (start_held_ok _ m1 c1 u I1 St Hord) as ((c2 & R2 & I2 & E2) & Hch & Hall).
  destruct (start_held (blockOrder (m_blocks m1)) m1) as [o2 m2]. cbn [fst snd] in *. pose proof (inv_core _ _ _ I2) as Hc2.
  destruct (inv_live _ _ _ I2) as [He2 Hcl2].
  assert (forall i, inside m2 i -> i ∈ blockStarted (m_blocks m2)) as Hst2.
  { intros i Hi. apply Hall. right. rewrite (inv_order _ _ _ I1). apply elem_of_seqZ. unfold inside in Hi. rewrite Hch in Hi. lia. }
  destruct (stop_open_ok (blockOrder (m_blocks m2)) m2 c2) as (c3 & R3 & E3 & He3 & Hcl3 & Hb3 & Eh3); try assumption.
  { rewrite (inv_order _ _ _ I2). apply NoDup_seqZ. }
  { intros i Hi. rewrite (inv_order _ _ _ I2), elem_of_seqZ in Hi. assert (inside m2 i) as Hr by (unfold inside; lia).
    split; [exact (Hst2 i Hr)|]. split; [rewrite (inv_stopped _ _ _ I2); set_solver|].
    destruct (core_onto _ _ _ _ _ _ Hc2 i Hr) as [s Hs]. eexists _, _. exact (core_open _ _ _ _ _ _ Hc2 _ _ Hs (Hst2 i Hr)). }
  destruct (stop_open (blockOrder (m_blocks m2)) m2) as [o3 m3]. cbn [fst snd] in *.
  assert (forall i, c_blocks c3 !! i = close <$> c_blocks c2 !! i) as Hb.
  { intros i. rewrite Hb3. destruct (decide (i ∈ _)) as [Hi|Hi]; [reflexivity|]. rewrite (core_blocks _ _ _ _ _ _ Hc2 i); [reflexivity|].
    intros Hx. apply Hi. rewrite (inv_order _ _ _ I2). apply elem_of_seqZ. apply (core_started _ _ _ _ _ _ Hc2) in Hx. lia. }
  set (reason := if String.eqb (m_reason (m_head m3)) "" then _ else _).
  assert (receive [message_delta reason (m_ot (m_head m3)); message_stop] c3 = Some (mkClient true (c_blocks c3) true true)) as R4.
  { change ((c ← accept c3 MsgEnd; accept c MsgStop ≫= Some) = Some (mkClient true (c_blocks c3) true true)). unfold accept. rewrite Hcl3, He3, E3, (inv_head _ _ _ I2), E2, St.
    cbn [andb negb]. rewrite bool_decide_true; [reflexivity|]. intros i b Hi. rewrite Hb in Hi. destruct (c_blocks c2 !! i); [|discriminate].
    injection Hi as <-. reflexivity. }
  exists (mkClient true (c_blocks c3) true true). split; [|split; [|]].
  - rewrite !receive_app, R1. cbn [mbind option_bind]. rewrite receive_app, R2. cbn [mbind option_bind]. rewrite receive_app, R3. exact R4.
  - apply (delivered_of m2 c2 _ u I2 Hst2); [reflexivity|reflexivity|exact Hb].
  - split; [cbn; rewrite Eh3, E2, Dn; reflexivity|]. cbn [c_blocks]. intros i [b Hi]. rewrite Hb in Hi. destruct (c_blocks c2 !! i) eqn:Ei; [|discriminate].
    assert (inside m2 i) as Hin.
    { apply (core_started _ _ _ _ _ _ Hc2). destruct (decide (i ∈ blockStarted (m_blocks m2))) as [|Hn]; [assumption|].
      rewrite (core_blocks _ _ _ _ _ _ Hc2 i Hn) in Ei. discriminate. }
    unfold inside in Hin. rewrite Hch, Hc1 in Hin. exact Hin.
Qed.

(** ** Streams *)

Lemma start_inv : Inv NewStreamMapper new_client no_content.
Proof.
  constructor; cbn; auto; try set_solver.
  - constructor; cbn; auto; try set_solver; try lia; try (intros []; (reflexivity || discriminate)); intros [] *; discriminate.
  - intros []; cbn; (split; intros [? ?]; discriminate).
  - intros [] i; discriminate.
Qed.

Lemma run_done (chunks : list bytes) (m : StreamMapper) : m_done (m_head m) = true -> run_chat chunks m = ([], m).
Proof.
  intros H. induction chunks as [|d chunks IH]; [reflexivity|]. cbn [run_chat]. unfold chatToMessEvents. rewrite H, IH. reflexivity.
Qed.

Lemma chunk_step_ok (data : bytes) (m : StreamMapper) (c : Client) (u : Content) : Inv m c u -> m_done (m_head m) = false -> ordinary data = true ->
  exists c', receive (chatToMessEvents data m).1 c = Some c' /\ Inv (chatToMessEvents data m).2 c' (add_chunk u data) /\
    m_done (m_head (chatToMessEvents data m).2) = false.
Proof.
  intros H Hd Ho. unfold ordinary in Ho. apply andb_prop in Ho as [Hn He]. apply negb_true_iff in Hn.
  unfold chatToMessEvents. rewrite Hd, Hn. destruct (decodeObj data) as [event|] eqn:Ed.
  - destruct (obj event "error"); [discriminate|]. exact (chunk_ok event data m c u H Hd Ed).
  - exists c. unfold add_chunk. rewrite Ed. auto.
Qed.

Lemma run_cons (data : bytes) (chunks : list bytes) (m : StreamMapper) (c c1 : Client) : receive (chatToMessEvents data m).1 c = Some c1 ->
  receive (run_chat (data :: chunks) m).1 c = receive (run_chat chunks (chatToMessEvents data m).2).1 c1.
Proof.
  intros R. cbn [run_chat]. destruct (chatToMessEvents data m) as [o m1]. cbn [fst snd] in *. destruct (run_chat chunks m1) as [o' m2].
  cbn [fst]. rewrite receive_app, R. reflexivity.
Qed.

Lemma run_ok (chunks rest : list bytes) : forall m c u, Inv m c u -> m_done (m_head m) = false -> forallb ordinary chunks = true ->
  exists c', receive (run_chat (chunks ++ rest) m).1 c = receive (run_chat rest (run_chat chunks m).2).1 c' /\
    Inv (run_chat chunks m).2 c' (fold_left add_chunk chunks u) /\ m_done (m_head (run_chat chunks m).2) = false.
Proof.
  induction chunks as [|data chunks IH]; intros m c u H Hd Ho; [exists c; auto|].
  cbn [forallb] in Ho. apply andb_prop in Ho as [Ho1 Ho2]. destruct (chunk_step_ok data m c u H Hd Ho1) as (c1 & R & I1 & D1).
  destruct (IH _ c1 _ I1 D1 Ho2) as (c' & E & I' & D'). assert ((run_chat (data :: chunks) m).2 = (run_chat chunks (chatToMessEvents data m).2).2) as ->.
  { cbn [run_chat]. destruct (chatToMessEvents data m) as [o m1]. cbn [snd]. destruct (run_chat chunks m1). reflexivity. }
  exists c'. split; [|auto]. cbn [app]. rewrite (run_cons _ _ _ _ c1 R). exact E.
Qed.

Lemma done_marker : is_done_marker (bs "[DONE]") = true.
Proof. reflexivity. Qed.

(** C34: Whatever the chunks of a Chat stream contain, and wherever it stops, every
    event the mapper emits is one that a client of the Messages protocol accepts:
    one start, blocks opened once and only then written to, no event after the end. *)
Theorem chat_stream_accepted (chunks : list bytes) : isSome (receive (run_chat chunks NewStreamMapper).1 new_client) = true.
Proof.
  assert (forall m c u, Inv m c u -> m_done (m_head m) = false -> isSome (receive (run_chat chunks m).1 c) = true) as Hall;
    [|exact (Hall _ _ _ start_inv eq_refl)].
  induction chunks as [|data chunks IH]; intros m c u H Hd; [reflexivity|]. destruct (ordinary data) eqn:Ho.
  - destruct (chunk_step_ok data m c u H Hd Ho) as (c1 & R & I1 & D1). rewrite (run_cons _ _ _ _ c1 R). exact (IH _ c1 _ I1 D1).
  - assert (exists c1, receive (chatToMessEvents data m).1 c = Some c1 /\ m_done (m_head (chatToMessEvents data m).2) = true) as (c1 & R & D).
    { unfold chatToMessEvents, ordinary in *. rewrite Hd. destruct (is_done_marker data).
      - destruct (finish_ok m c u H Hd) as (c1 & R & _ & D & _). eauto.
      - destruct (decodeObj data) as [event|]; [|discriminate]. destruct (obj event "error"); [|discriminate].
        eexists. split; [|reflexivity]. cbn. unfold accept. rewrite (proj2 (inv_live _ _ _ H)). reflexivity. }
    rewrite (run_cons _ _ _ _ c1 R), run_done by exact D. reflexivity.
Qed.

(** C17: After the end mark of a Chat stream without errors the client of the
    Messages stream has one closed block for the text, one for the reasoning and one
    per tool call of the chunks, under the indexes from zero on, each with exactly
    the text the chunks hold for it. *)
Theorem chat_stream_delivered (chunks later : list bytes) : forallb ordinary chunks = true ->
  exists c, receive (run_chat (chunks ++ bs "[DONE]" :: later) NewStreamMapper).1 new_client = Some c /\ delivered c (fold_left add_chunk chunks no_content).
Proof.
  intros Ho. destruct (run_ok chunks (bs "[DONE]" :: later) _ _ _ start_inv eq_refl Ho) as (c & E & I1 & D1).
  set (m := (run_chat chunks NewStreamMapper).2) in *.
  destruct (finish_ok m c _ I1 D1) as (c' & R & Hdel & Hdone & _). exists c'. split; [|exact Hdel]. rewrite E.
  assert (chatToMessEvents (bs "[DONE]") m = finishChatStream m) as Ef by (unfold chatToMessEvents; rewrite D1, done_marker; reflexivity).
  rewrite (run_cons _ _ _ _ c') by (rewrite Ef; exact R). rewrite Ef, run_done by exact Hdone. reflexivity.
Qed.

(** A stream with text, reasoning and a tool call whose name arrives late. *)
Definition demo_chunks : list bytes := map jt
  ["{'id':'c1','model':'m','choices':[{'index':0,'delta':{'role':'assistant','content':''}}]}";
   "{'choices':[{'delta':{'reasoning_content':'hm'}}]}";
   "{'choices':[{'index':1,'delta':{'content':'no'}},{'index':0,'delta':{'content':'He','tool_calls':[{'index':0,'id':'t','function':{'arguments':'{'}}]}}]}";
   "{'choices':[{'delta':{'content':'y','tool_calls':[{'index':0,'function':{'name':'f','arguments':'}'}}]},'finish_reason':'tool_calls'}],'usage':{'prompt_tokens':3,'completion_tokens':4}}"].

Lemma chat_stream_delivered_witness : fold_left add_chunk demo_chunks no_content = mkContent "Hey" "hm" {[0 := "{}"]} /\
  exists c, receive (run_chat (demo_chunks ++ [bs "[DONE]"]) NewStreamMapper).1 new_client = Some c /\
    delivered c (fold_left add_chunk demo_chunks no_content).
Proof. split; [vm_compute; reflexivity|]. apply (chat_stream_delivered demo_chunks []). vm_compute. reflexivity. Defined.

Example demo_events : map (fun e => e.1) (run_chat (demo_chunks ++ [bs "[DONE]"]) NewStreamMapper).1 =
  ["message_start"; "content_block_start"; "content_block_delta"; "content_block_start"; "content_block_delta"; "content_block_delta";
   "content_block_start"; "content_block_delta"; "content_block_stop"; "content_block_stop"; "content_block_stop"; "message_delta"; "message_stop"].
Proof. vm_compute. reflexivity. Qed.
