(* ===== verification/RespStream.v ===== *)
(** * Responses streams as Messages streams

    [mapRespToMess] of [mess_resp.go]: the events of a Responses stream become the
    events of a Messages stream, with a block index per piece of output.  An
    automaton says which Responses streams give every piece one life (fragments,
    then its end) and end with none open; the theorem is that the mapper turns
    such a stream into one the Messages client of [ChatStream] accepts, block for
    block.  Streams outside it, which providers do send, are the findings. *)

From Stdlib Require Import ZArith Lia List Bool String Ascii.
From Stdlib Require Import Floats.SpecFloat.
From stdpp Require Import base option list gmap strings.
From S2P Require Import Prelude GoString JsonScan JsonText GoJson SseRelay ProtoJson StreamMapper ChatStream.
Import ListNotations.
Local Open Scope Z_scope.
Local Open Scope list_scope.
Local Open Scope string_scope.

(** ** Block indexes *)

(** The smallest free index from [next] on; one of [size occupied + 1] candidates
    is free. *)
Fixpoint first_free (fuel : nat) (occupied : gset Z) (next : Z) : Z :=
  match fuel with
  | O => next
  | S fuel => if decide (next ∈ occupied) then first_free fuel occupied (next + 1) else next
  end.

Definition free_index (preferred : Z) (occupied : gset Z) : Z :=
  if decide (preferred ∈ occupied) then first_free (size occupied) occupied 0 else preferred.

Definition respBlockIndex (preferred : Z) (m : StreamMapper) : Z * StreamMapper :=
  let i := free_index preferred (occupiedBlocks (m_resp m)) in
  (i, with_resp (fun r => mkRespAlloc (reasoningIndexes r) ({[i]} ∪ occupiedBlocks r) (textBlockIndex r) (textBlockSet r)) m).

Definition keyed_block (key preferred : Z) (m : StreamMapper) : Z * StreamMapper :=
  match reasoningIndexes (m_resp m) !! key with
  | Some i => (i, m)
  | None =>
      let '(i, m) := respBlockIndex preferred m in
      (i, order_block i (with_resp (fun r => mkRespAlloc (<[key := i]> (reasoningIndexes r)) (occupiedBlocks r) (textBlockIndex r) (textBlockSet r)) m))
  end.

Definition respReasoningBlock (summary : Z) (m : StreamMapper) : Z * StreamMapper := keyed_block summary 0 m.
Definition respToolBlock (output : Z) (m : StreamMapper) : Z * StreamMapper := keyed_block (- output - 1) output m.

Definition respTextBlock (m : StreamMapper) : Z * StreamMapper :=
  if textBlockSet (m_resp m) then (textBlockIndex (m_resp m), m)
  else
    let '(i, m) := respBlockIndex 0 m in
    (i, order_block i (with_resp (fun r => mkRespAlloc (reasoningIndexes r) (occupiedBlocks r) i true) m)).

(** ** The mapper *)

(** The end of a block that is open. *)
Definition stop_events (i : Z) : M (list chatStreamEvent) := fun m =>
  if started m i && negb (stopped m i) then ([block_stop i], stop_block i m) else ([], m).

Definition respToMessStopReason (r : gomap) : string :=
  if String.eqb (str0 r "status") "incomplete" then "max_tokens"
  else if existsb (fun item => match item with AObj im => is_str im "type" "function_call" | _ => false end) (default [] (arr r "output"))
       then "tool_use" else "end_turn".

Definition resp_start (ev : gomap) : chatStreamEvent :=
  let '(id, model) := match obj ev "response" with Some resp => (str0 resp "id", str0 resp "model") | None => ("", "") end in
  ("message_start", [("type", AStr "message_start"); ("message", AObj
    [("id", AStr id); ("type", AStr "message"); ("role", AStr "assistant"); ("model", AStr model);
     ("content", AArr []); ("stop_reason", ANil); ("stop_sequence", ANil); ("usage", AObj [("input_tokens", AInt 0); ("output_tokens", AInt 0)])])]).

Definition on_reasoning_delta (ev : gomap) : M (list chatStreamEvent) := fun m =>
  let delta := str0 ev "delta" in
  if String.eqb delta "" then ([], m)
  else
    let '(i, m) := respReasoningBlock (intOr0 ev "summary_index") m in
    let m := set_reasoning i (at0 (reasoningByIndex (m_items m)) i +:+ delta)%stdpp m in
    let '(out, m) := open_with i thinking_block m in
    (out ++ [block_delta i (thinking_delta delta)], m)%list.

Definition on_reasoning_done (ev : gomap) : M (list chatStreamEvent) := fun m =>
  let '(i, m) := respReasoningBlock (intOr0 ev "summary_index") m in stop_events i m.

Definition on_text_delta (ev : gomap) : M (list chatStreamEvent) := fun m =>
  let '(i, m) := respTextBlock m in
  let '(out, m) := open_with i text_block m in
  (out ++ [block_delta i (text_delta (str0 ev "delta"))], m)%list.

Definition on_text_done : M (list chatStreamEvent) := fun m => let '(i, m) := respTextBlock m in stop_events i m.

Definition on_item_added (ev : gomap) : M (list chatStreamEvent) := fun m =>
  match obj ev "item" with
  | None => ([], m)
  | Some item =>
      if is_str item "type" "reasoning" then
        let '(i, m) := respReasoningBlock (intOr0 ev "summary_index") m in open_with i thinking_block m
      else if is_str item "type" "function_call" then
        let '(i, m) := respToolBlock (intOr0 ev "output_index") m in open_with i (tool_block (toolCallID item) (str0 item "name")) m
      else ([], m)
  end.

Definition on_args_delta (ev : gomap) : M (list chatStreamEvent) := fun m =>
  let '(i, m) := respToolBlock (intOr0 ev "output_index") m in ([block_delta i (json_delta (str0 ev "delta"))], m).

Definition on_args_done (ev : gomap) : M (list chatStreamEvent) := fun m =>
  let '(i, m) := respToolBlock (intOr0 ev "output_index") m in stop_events i m.

Definition on_completed (ev : gomap) : M (list chatStreamEvent) := fun m =>
  if m_done (m_head m) then ([], m)
  else
    let '(ot, reason) := match obj ev "response" with
      | Some resp => (match obj resp "usage" with Some u => intOr0 u "output_tokens" | None => 0 end, respToMessStopReason resp)
      | None => (0, "") end in
    ([message_delta reason ot; message_stop], set_done m).

Definition on_failed (ev : gomap) : M (list chatStreamEvent) := fun m =>
  if m_done (m_head m) then ([], m)
  else
    (match resp ← obj ev "response"; obj resp "error" with
     | Some e => [("error", [("type", AStr "error"); ("error", AObj [("type", AStr "api_error"); ("message", AStr (str0 e "message"))])])]
     | None => []
     end, set_done m).

Definition one_of (name : string) (names : list string) : bool := existsb (String.eqb name) names.

Definition mapRespToMess (name : string) (data : bytes) : M (list chatStreamEvent) := fun m =>
  match decodeObj data with
  | None => ([], m)
  | Some ev =>
      if String.eqb name "response.created" then if m_started (m_head m) then ([], m) else ([resp_start ev], set_started m)
      else if one_of name ["response.reasoning_summary_text.delta"; "response.reasoning_text.delta"] then on_reasoning_delta ev m
      else if one_of name ["response.reasoning_summary_text.done"; "response.reasoning_text.done"] then on_reasoning_done ev m
      else if String.eqb name "response.output_text.delta" then on_text_delta ev m
      else if String.eqb name "response.output_text.done" then on_text_done m
      else if String.eqb name "response.output_item.added" then on_item_added ev m
      else if String.eqb name "response.function_call_arguments.delta" then on_args_delta ev m
      else if String.eqb name "response.function_call_arguments.done" then on_args_done ev m
      else if String.eqb name "response.completed" then on_completed ev m
      else if String.eqb name "response.failed" then on_failed ev m
      else ([], m)
  end.

Fixpoint run_resp (es : list (string * bytes)) : M (list chatStreamEvent) := fun m =>
  match es with
  | [] => ([], m)
  | (name, data) :: es =>
      let '(out, m) := mapRespToMess name data m in
      let '(out', m) := run_resp es m in (out ++ out', m)%list
  end.

Example free_indexes : free_index 2 {[0; 1; 2]} = 3 /\ free_index 0 {[0; 2]} = 1 /\ free_index 5 {[0; 2]} = 5.
Proof. vm_compute. auto. Qed.

(** ** Orderly Responses streams *)

Inductive RSlot := RText | RThinking (summary : Z) | RTool (output : Z).

#[global] Instance rslot_eq_dec : EqDecision RSlot.
Proof. solve_decision. Defined.

Definition rkind (s : RSlot) : kind := match s with RText => KText | RThinking _ => KThinking | RTool _ => KTool end.

Inductive RespEvent :=
| RCreated
| RBegin (s : RSlot)
| RDelta (s : RSlot) (x : string)
| REnd (s : RSlot)
| RCompleted
| RFailed (error : bool)
| ROther.

(** What an event of the stream says. *)
Definition read_resp (name : string) (data : bytes) : RespEvent :=
  match decodeObj data with
  | None => ROther
  | Some ev =>
      if String.eqb name "response.created" then RCreated
      else if one_of name ["response.reasoning_summary_text.delta"; "response.reasoning_text.delta"] then
        if String.eqb (str0 ev "delta") "" then ROther else RDelta (RThinking (intOr0 ev "summary_index")) (str0 ev "delta")
      else if one_of name ["response.reasoning_summary_text.done"; "response.reasoning_text.done"] then REnd (RThinking (intOr0 ev "summary_index"))
      else if String.eqb name "response.output_text.delta" then RDelta RText (str0 ev "delta")
      else if String.eqb name "response.output_text.done" then REnd RText
      else if String.eqb name "response.output_item.added" then
        match obj ev "item" with
        | Some item => if is_str item "type" "reasoning" then RBegin (RThinking (intOr0 ev "summary_index"))
                       else if is_str item "type" "function_call" then RBegin (RTool (intOr0 ev "output_index")) else ROther
        | None => ROther
        end
      else if String.eqb name "response.function_call_arguments.delta" then RDelta (RTool (intOr0 ev "output_index")) (str0 ev "delta")
      else if String.eqb name "response.function_call_arguments.done" then REnd (RTool (intOr0 ev "output_index"))
      else if String.eqb name "response.completed" then RCompleted
      else if String.eqb name "response.failed" then RFailed (isSome (resp ← obj ev "response"; obj resp "error"))
      else ROther
  end.

(** A piece of output: its text so far and whether it can still grow. *)
Definition Pieces : Type := list (RSlot * (string * bool)).

Fixpoint piece (ps : Pieces) (s : RSlot) : option (string * bool) :=
  match ps with [] => None | (s', p) :: ps => if decide (s = s') then Some p else piece ps s end.

(** [r_over]: completed or failed; [r_completed]: completed. *)
Record RState := mkRState { r_started : bool; r_over : bool; r_completed : bool; r_pieces : Pieces }.

Definition all_closed (ps : Pieces) : bool := forallb (fun e => match piece ps e.1 with Some (_, true) => false | _ => true end) ps.

(** The stream is created first, a tool is announced before its arguments, nothing
    grows after its end, and the response completes when nothing is open. *)
Definition orderly (r : RState) (e : RespEvent) : option RState :=
  match e with
  | ROther => Some r
  | RCreated => if r_over r then None else Some (mkRState true false false (r_pieces r))
  | RCompleted => if r_over r then Some r else if r_started r && all_closed (r_pieces r) then Some (mkRState true true true (r_pieces r)) else None
  | RFailed _ => Some (mkRState (r_started r) true (r_completed r) (r_pieces r))
  | RBegin s | RDelta s _ | REnd s =>
      if negb (r_started r) || r_over r then None
      else
        match e, piece (r_pieces r) s with
        | RBegin _, None => Some (mkRState true false false ((s, ("", true)) :: r_pieces r))
        | RDelta _ x, None => match s with RTool _ => None | _ => Some (mkRState true false false ((s, (x, true)) :: r_pieces r)) end
        | RDelta _ x, Some (t, true) => Some (mkRState true false false ((s, ((t +:+ x)%stdpp, true)) :: r_pieces r))
        | RDelta _ x, Some (t, false) => None
        | REnd _, Some (t, true) => Some (mkRState true false false ((s, (t, false)) :: r_pieces r))
        | _, _ => Some r
        end
  end.

Fixpoint orderly_run (es : list (string * bytes)) (r : RState) : option RState :=
  match es with
  | [] => Some r
  | (name, data) :: es => r ← orderly r (read_resp name data); orderly_run es r
  end.

Definition new_rstate : RState := mkRState false false false [].

(** ** Where the pieces are *)

Definition rplace (m : StreamMapper) (s : RSlot) : option Z :=
  match s with
  | RText => if textBlockSet (m_resp m) then Some (textBlockIndex (m_resp m)) else None
  | RThinking n => reasoningIndexes (m_resp m) !! n
  | RTool o => reasoningIndexes (m_resp m) !! (- o - 1)
  end.

(** Indexes the stream can name. *)
Definition named (s : RSlot) : Prop := match s with RText => True | RThinking n | RTool n => 0 <= n end.

(** A piece is a block of the client under its index; a piece that has not begun
    has no block. *)
Record Placed (pl : RSlot -> option Z) (occ st sp : gset Z) (ps : Pieces) (blocks : gmap Z Block) : Prop := mkPlaced {
  pl_inj : forall s s' i, named s -> named s' -> pl s = Some i -> pl s' = Some i -> s = s';
  pl_occ : forall s i, named s -> pl s = Some i -> 0 <= i /\ i ∈ occ;
  pl_piece : forall s t o, piece ps s = Some (t, o) -> named s /\ (exists i, pl s = Some i /\ (i ∈ st) /\ (i ∈ sp <-> o = false) /\ blocks !! i = Some (mkBlock (rkind s) t o));
  pl_fresh : forall s i, named s -> pl s = Some i -> piece ps s = None -> (i ∉ st) /\ (i ∉ sp);
  pl_block : forall i b, blocks !! i = Some b -> exists s, pl s = Some i /\ is_Some (piece ps s);
  pl_used : forall i, i ∈ st \/ i ∈ sp -> i ∈ occ;
  pl_nonneg : forall i, i ∈ occ -> 0 <= i
}.

(** ** Free indexes *)

Lemma first_free_taken (fuel : nat) (occ : gset Z) : forall next, first_free fuel occ next ∈ occ ->
  forall j, next <= j <= next + Z.of_nat fuel -> j ∈ occ.
Proof.
  induction fuel as [|fuel IH]; intros next H j Hj; cbn in H; [replace j with next by lia; exact H|].
  destruct (decide (next ∈ occ)) as [Hn|Hn]; [|contradiction]. destruct (decide (j = next)) as [->|]; [exact Hn|].
  apply (IH (next + 1) H). lia.
Qed.

Lemma first_free_ge (fuel : nat) (occ : gset Z) : forall next, next <= first_free fuel occ next.
Proof. induction fuel as [|fuel IH]; intros next; cbn; [lia|]. destruct (decide _); [specialize (IH (next + 1)); lia|lia]. Qed.

Lemma free_index_free (preferred : Z) (occ : gset Z) : free_index preferred occ ∉ occ.
Proof.
  unfold free_index. destruct (decide (preferred ∈ occ)) as [_|H]; [|exact H]. intros H.
  pose proof (first_free_taken _ _ _ H) as Hall.
  assert (list_to_set (seqZ 0 (Z.of_nat (size occ) + 1)) ⊆ occ) as Hsub.
  { intros j Hj. apply elem_of_list_to_set, elem_of_seqZ in Hj. apply Hall. lia. }
  apply subseteq_size in Hsub. rewrite size_list_to_set in Hsub by apply NoDup_seqZ. rewrite length_seqZ in Hsub. lia.
Qed.

Lemma free_index_nonneg (preferred : Z) (occ : gset Z) : 0 <= preferred -> 0 <= free_index preferred occ.
Proof. intros H. unfold free_index. destruct (decide _); [apply first_free_ge|exact H]. Qed.

(** ** Allocation *)

Definition placed (m : StreamMapper) (ps : Pieces) (blocks : gmap Z Block) : Prop :=
  Placed (rplace m) (occupiedBlocks (m_resp m)) (blockStarted (m_blocks m)) (blockStopped (m_blocks m)) ps blocks.

(** The index of a slot, allocated if it had none. *)
Record RAlloc (s : RSlot) (m : StreamMapper) (i : Z) (m1 : StreamMapper) : Prop := mkRAlloc {
  ra_place : rplace m1 s = Some i;
  ra_head : m_head m1 = m_head m;
  ra_placed : forall ps blocks, placed m ps blocks -> placed m1 ps blocks
}.

Lemma ralloc_new (s : RSlot) (m m1 : StreamMapper) (preferred : Z) : named s -> 0 <= preferred -> rplace m s = None ->
  (forall s', named s' -> rplace m1 s' = if decide (s' = s) then Some (free_index preferred (occupiedBlocks (m_resp m))) else rplace m s') ->
  (forall s' i, ~ named s' -> rplace m s' = Some i -> rplace m1 s' = Some i) ->
  m_head m1 = m_head m -> blockStarted (m_blocks m1) = blockStarted (m_blocks m) -> blockStopped (m_blocks m1) = blockStopped (m_blocks m) ->
  occupiedBlocks (m_resp m1) = {[free_index preferred (occupiedBlocks (m_resp m))]} ∪ occupiedBlocks (m_resp m) ->
  RAlloc s m (free_index preferred (occupiedBlocks (m_resp m))) m1.
Proof.
  intros Hn Hpr Hs Hp Hun Hh Hst Hsp Hocc. set (i := free_index preferred _) in *.
  pose proof (free_index_free preferred (occupiedBlocks (m_resp m)) : i ∉ _) as Hfree. pose proof (free_index_nonneg preferred (occupiedBlocks (m_resp m)) Hpr : 0 <= i) as Hge.
  constructor; [rewrite Hp, decide_True by auto; reflexivity|exact Hh|]. intros ps blocks H. unfold placed. rewrite Hst, Hsp, Hocc. constructor.
  - intros s1 s2 j N1 N2. rewrite !Hp by assumption. repeat case_decide; intros E1 E2; simplify_eq; try reflexivity.
    + destruct (Hfree (proj2 (pl_occ _ _ _ _ _ _ H _ _ N2 E2))).
    + destruct (Hfree (proj2 (pl_occ _ _ _ _ _ _ H _ _ N1 E1))).
    + exact (pl_inj _ _ _ _ _ _ H _ _ _ N1 N2 E1 E2).
  - intros s1 j N1. rewrite Hp by exact N1. case_decide; intros E; simplify_eq; [split; [exact Hge|set_solver]|].
    apply (pl_occ _ _ _ _ _ _ H) in E as [? ?]; [split; [assumption|set_solver]|exact N1].
  - intros s1 t o E. destruct (pl_piece _ _ _ _ _ _ H _ _ _ E) as (N1 & j & Ej & R). split; [exact N1|]. exists j.
    rewrite Hp by exact N1. case_decide; simplify_eq. auto.
  - intros s1 j N1. rewrite Hp by exact N1. case_decide as D; intros E Hnone; simplify_eq.
    + split; intros Hx; apply Hfree, (pl_used _ _ _ _ _ _ H); auto.
    + exact (pl_fresh _ _ _ _ _ _ H _ _ N1 E Hnone).
  - intros j b Hj. destruct (pl_block _ _ _ _ _ _ H _ _ Hj) as (s1 & E & [[t o] Hps]). exists s1. split; [|eauto].
    destruct (pl_piece _ _ _ _ _ _ H _ _ _ Hps) as (N1 & _). rewrite Hp by exact N1. case_decide; simplify_eq. exact E.
  - intros j Hj. apply (pl_used _ _ _ _ _ _ H) in Hj. set_solver.
  - intros j Hj. apply elem_of_union in Hj as [Hj|Hj]; [apply elem_of_singleton in Hj as ->; exact Hge|exact (pl_nonneg _ _ _ _ _ _ H _ Hj)].
Qed.

Lemma ralloc_same (s : RSlot) (m : StreamMapper) (i : Z) : rplace m s = Some i -> RAlloc s m i m.
Proof. intros H. constructor; auto. Qed.

Lemma ralloc_text (m : StreamMapper) : RAlloc RText m (respTextBlock m).1 (respTextBlock m).2.
Proof.
  unfold respTextBlock. destruct (textBlockSet (m_resp m)) eqn:E; cbn [fst snd].
  - apply ralloc_same. cbn. rewrite E. reflexivity.
  - apply ralloc_new; try reflexivity; try lia; [cbn; rewrite E; reflexivity| |].
    + intros [|n|n] _; cbn; case_decide; simplify_eq; reflexivity.
    + intros [|n|n] i Hn; cbn; auto; [destruct (Hn I)].
Qed.

Definition key_of (s : RSlot) : Z := match s with RText => 0 | RThinking n => n | RTool o => - o - 1 end.

Lemma ralloc_keyed (s : RSlot) (m : StreamMapper) (preferred : Z) : named s -> s <> RText -> 0 <= preferred ->
  RAlloc s m (keyed_block (key_of s) preferred m).1 (keyed_block (key_of s) preferred m).2.
Proof.
  intros Hn Ht Hp. assert (rplace m s = reasoningIndexes (m_resp m) !! key_of s) as Er by (destruct s; [contradiction|reflexivity..]).
  unfold keyed_block. destruct (reasoningIndexes (m_resp m) !! key_of s) as [i|] eqn:E; cbn [fst snd]; [apply ralloc_same; congruence|].
  apply ralloc_new; try reflexivity; try assumption.
  - intros s' Hn'. case_decide as D; [subst s'; destruct s; [contradiction|cbn; apply lookup_insert_eq..]|].
    destruct s' as [|n|n]; cbn; [reflexivity|apply lookup_insert_ne..];
      destruct s as [|k|k]; cbn in *; try contradiction; intros Ek; first [lia | apply D; f_equal; lia].
  - intros [|n|n] i Hun Hi; cbn in *; [auto|rewrite lookup_insert_ne; [exact Hi|congruence]..].
Qed.

(** ** Steps *)

Lemma piece_cons (ps : Pieces) (s s' : RSlot) (p : string * bool) : piece ((s, p) :: ps) s' = if decide (s' = s) then Some p else piece ps s'.
Proof. reflexivity. Qed.

(** A slot's block takes its new text and state. *)
Lemma placed_set (m m' : StreamMapper) (ps : Pieces) (blocks : gmap Z Block) (s : RSlot) (i : Z) (t : string) (o : bool) :
  placed m ps blocks -> named s -> rplace m s = Some i -> m_resp m' = m_resp m ->
  blockStarted (m_blocks m') = {[i]} ∪ blockStarted (m_blocks m) ->
  (forall j, j ∈ blockStopped (m_blocks m') <-> (j = i /\ o = false) \/ (j <> i /\ j ∈ blockStopped (m_blocks m))) ->
  placed m' ((s, (t, o)) :: ps) (<[i := mkBlock (rkind s) t o]> blocks).
Proof.
  intros H Hn Hs Er Est Esp. assert (forall s', rplace m' s' = rplace m s') as Hp by (intros s'; unfold rplace; rewrite Er; reflexivity).
  unfold placed. rewrite Er, Est. constructor.
  - intros s1 s2 j. rewrite !Hp. apply (pl_inj _ _ _ _ _ _ H).
  - intros s1 j. rewrite Hp. apply (pl_occ _ _ _ _ _ _ H).
  - intros s1 t1 o1. rewrite piece_cons. case_decide as D.
    + intros [= <- <-]. subst s1. split; [exact Hn|]. exists i. rewrite Hp, Esp. split; [exact Hs|]. split; [set_solver|]. split; [naive_solver|apply lookup_insert_eq].
    + intros E. destruct (pl_piece _ _ _ _ _ _ H _ _ _ E) as (N1 & j & Ej & A & B & C). split; [exact N1|]. exists j. rewrite Hp, Esp.
      assert (j <> i) as Hne by (intros ->; exact (D (pl_inj _ _ _ _ _ _ H _ _ _ N1 Hn Ej Hs))).
      split; [exact Ej|]. split; [set_solver|]. split; [naive_solver|]. rewrite lookup_insert_ne by congruence. exact C.
  - intros s1 j N1. rewrite Hp, piece_cons, Esp. case_decide as D; [discriminate|]. intros Ej E. destruct (pl_fresh _ _ _ _ _ _ H _ _ N1 Ej E) as [A B].
    assert (j <> i) as Hne by (intros ->; exact (D (pl_inj _ _ _ _ _ _ H _ _ _ N1 Hn Ej Hs))). split; [set_solver|naive_solver].
  - intros j b. destruct (decide (j = i)) as [->|Hne].
    + intros _. exists s. rewrite Hp, piece_cons, decide_True by reflexivity. eauto.
    + rewrite lookup_insert_ne by congruence. intros Hj. destruct (pl_block _ _ _ _ _ _ H _ _ Hj) as (s1 & E & [p Hps]). exists s1.
      rewrite Hp, piece_cons. case_decide; eauto.
  - intros j Hj. pose proof (pl_occ _ _ _ _ _ _ H _ _ Hn Hs). pose proof (pl_used _ _ _ _ _ _ H j). rewrite Esp in Hj. set_solver.
  - exact (pl_nonneg _ _ _ _ _ _ H).
Qed.

Record Live (m : StreamMapper) (c : Client) (r : RState) : Prop := mkLive {
  lv_placed : placed m (r_pieces r) (c_blocks c);
  lv_client : c_started c = r_started r;
  lv_mapper : m_started (m_head m) = r_started r;
  lv_done : m_done (m_head m) = false;
  lv_open : c_ended c = false /\ c_closed c = false;
  lv_state : r_over r = false /\ r_completed r = false
}.

(** One operation keeps mapper, client and stream together. *)
Definition keeps (op : M (list chatStreamEvent)) (m : StreamMapper) (c : Client) (r' : RState) : Prop :=
  exists c', receive (op m).1 c = Some c' /\ Live (op m).2 c' r'.

Lemma live_set (m m1 m2 : StreamMapper) (c : Client) (r : RState) (s : RSlot) (i : Z) (t : string) (o : bool) :
  Live m c r -> r_started r = true -> named s -> RAlloc s m i m1 -> m_head m2 = m_head m1 -> m_resp m2 = m_resp m1 ->
  blockStarted (m_blocks m2) = {[i]} ∪ blockStarted (m_blocks m1) ->
  (forall j, j ∈ blockStopped (m_blocks m2) <-> (j = i /\ o = false) \/ (j <> i /\ j ∈ blockStopped (m_blocks m1))) ->
  Live m2 (mkClient true (<[i := mkBlock (rkind s) t o]> (c_blocks c)) false false) (mkRState true false false ((s, (t, o)) :: r_pieces r)).
Proof.
  intros H Hst Hn Ha Eh Er Es Ep. constructor; cbn; auto; rewrite ?Eh, ?(ra_head _ _ _ _ Ha).
  - exact (placed_set m1 m2 _ _ s i t o (ra_placed _ _ _ _ Ha _ _ (lv_placed _ _ _ H)) Hn (ra_place _ _ _ _ Ha) Er Es Ep).
  - rewrite (lv_mapper _ _ _ H). exact Hst.
  - exact (lv_done _ _ _ H).
Qed.

Lemma live_alloc (s : RSlot) (m m1 : StreamMapper) (i : Z) (c : Client) (r : RState) : Live m c r -> RAlloc s m i m1 -> Live m1 c r.
Proof. intros [] []. constructor; auto; congruence. Qed.

Lemma piece_found (m m1 : StreamMapper) (c : Client) (r : RState) (s : RSlot) (i : Z) (t : string) (o : bool) : Live m c r -> RAlloc s m i m1 ->
  piece (r_pieces r) s = Some (t, o) -> (i ∈ blockStarted (m_blocks m1)) /\ (i ∈ blockStopped (m_blocks m1) <-> o = false) /\
    c_blocks c !! i = Some (mkBlock (rkind s) t o).
Proof.
  intros H Ha E. destruct (pl_piece _ _ _ _ _ _ (ra_placed _ _ _ _ Ha _ _ (lv_placed _ _ _ H)) _ _ _ E) as (_ & j & Ej & R).
  rewrite (ra_place _ _ _ _ Ha) in Ej. injection Ej as <-. exact R.
Qed.

Lemma piece_missing (m m1 : StreamMapper) (c : Client) (r : RState) (s : RSlot) (i : Z) : Live m c r -> RAlloc s m i m1 -> named s ->
  piece (r_pieces r) s = None -> (i ∉ blockStarted (m_blocks m1)) /\ (i ∉ blockStopped (m_blocks m1)) /\ c_blocks c !! i = None /\ 0 <= i.
Proof.
  intros H Ha Hn E. pose proof (ra_placed _ _ _ _ Ha _ _ (lv_placed _ _ _ H)) as Hp. pose proof (ra_place _ _ _ _ Ha) as Hi.
  destruct (pl_fresh _ _ _ _ _ _ Hp _ _ Hn Hi E) as [A B]. split; [exact A|]. split; [exact B|]. split; [|exact (proj1 (pl_occ _ _ _ _ _ _ Hp _ _ Hn Hi))].
  destruct (c_blocks c !! i) as [b|] eqn:Eb; [|reflexivity]. destruct (pl_block _ _ _ _ _ _ Hp _ _ Eb) as (s1 & E1 & [[t o] P1]).
  destruct (pl_piece _ _ _ _ _ _ Hp _ _ _ P1) as (N1 & _). rewrite (pl_inj _ _ _ _ _ _ Hp _ _ _ N1 Hn E1 Hi) in P1. congruence.
Qed.

(** A stream that is running. *)
Ltac running H Ho := let E := fresh in cbn [orderly] in Ho; rewrite (proj1 (lv_state _ _ _ H)) in Ho;
  destruct (r_started _) eqn:E in Ho; cbn [negb orb] in Ho; [|discriminate].

Lemma begin_keeps (s : RSlot) (m m1 : StreamMapper) (i : Z) (block : gomap) (c : Client) (r r' : RState) : Live m c r -> named s -> RAlloc s m i m1 ->
  head_of (rkind s) i block -> orderly r (RBegin s) = Some r' -> keeps (fun _ => open_with i block m1) m c r'.
Proof.
  intros H Hn Ha Hb Ho. running H Ho. destruct (lv_open _ _ _ H) as [He Hcl]. unfold keeps, open_with, started.
  destruct (piece (r_pieces r) s) as [[t o]|] eqn:Ep.
  - injection Ho as <-. destruct (piece_found m m1 c r s i t o H Ha Ep) as (A & _). rewrite bool_decide_true by exact A.
    exists c. split; [reflexivity|]. exact (live_alloc s m m1 i c r H Ha).
  - injection Ho as <-. destruct (piece_missing m m1 c r s i H Ha Hn Ep) as (A & B & C & D). rewrite bool_decide_false by exact A.
    cbn [fst snd]. rewrite (receive_head c i (rkind s) block Hb) by (try assumption; rewrite (lv_client _ _ _ H); assumption).
    eexists. split; [reflexivity|]. apply (live_set m m1 _ c r s i "" true H); try assumption; try reflexivity. cbn. intros j. set_solver.
Qed.

Lemma delta_keeps (s : RSlot) (m m1 : StreamMapper) (i : Z) (block delta : gomap) (x : string) (c : Client) (r r' : RState) : Live m c r -> named s ->
  RAlloc s m i m1 -> head_of (rkind s) i block -> fragment_of (rkind s) i delta x -> (forall o, s <> RTool o) -> orderly r (RDelta s x) = Some r' ->
  keeps (fun _ => let '(out, m2) := open_with i block m1 in (out ++ [block_delta i delta], m2)%list) m c r'.
Proof.
  intros H Hn Ha Hb Hd Hs Ho. running H Ho. destruct (lv_open _ _ _ H) as [He Hcl]. unfold keeps, open_with, started.
  assert (c_started c = true) as Hcs by (rewrite (lv_client _ _ _ H); assumption).
  destruct (piece (r_pieces r) s) as [[t [|]]|] eqn:Ep; [|discriminate|].
  - injection Ho as <-. destruct (piece_found m m1 c r s i t true H Ha Ep) as (A & B & C). rewrite bool_decide_true by exact A. cbn [fst snd app].
    rewrite (receive_fragment c i (rkind s) delta t x Hd He Hcl C), Hcs. eexists. split; [reflexivity|].
    apply (live_set m m1 m1 c r s i _ true H); try assumption; try reflexivity; [set_solver|]. intros j. destruct (decide (j = i)); naive_solver.
  - assert (Some (mkRState true false false ((s, (x, true)) :: r_pieces r)) = Some r') as Ho' by (destruct s; [exact Ho..|destruct (Hs output eq_refl)]).
    injection Ho' as <-. destruct (piece_missing m m1 c r s i H Ha Hn Ep) as (A & B & C & D). rewrite bool_decide_false by exact A. cbn [fst snd app].
    rewrite (receive_opening c i (rkind s) block delta x Hb Hd Hcs He Hcl D C). eexists. split; [reflexivity|].
    apply (live_set m m1 _ c r s i x true H); try assumption; try reflexivity. cbn. intros j. set_solver.
Qed.

Lemma args_keeps (o : Z) (m m1 : StreamMapper) (i : Z) (x : string) (c : Client) (r r' : RState) : Live m c r -> 0 <= o ->
  RAlloc (RTool o) m i m1 -> orderly r (RDelta (RTool o) x) = Some r' -> keeps (fun _ => ([block_delta i (json_delta x)], m1)) m c r'.
Proof.
  intros H Hn Ha Ho. running H Ho. destruct (lv_open _ _ _ H) as [He Hcl]. unfold keeps. cbn [fst snd].
  destruct (piece (r_pieces r) (RTool o)) as [[t [|]]|] eqn:Ep; [|discriminate..]. injection Ho as <-.
  destruct (piece_found m m1 c r _ i t true H Ha Ep) as (A & B & C).
  assert (c_started c = true) as Hcs by (rewrite (lv_client _ _ _ H); assumption).
  rewrite (receive_fragment c i KTool _ t x (tool_fragment i x) He Hcl C), Hcs. eexists. split; [reflexivity|].
  apply (live_set m m1 m1 c r (RTool o) i _ true H); try assumption; try reflexivity; [set_solver|]. intros j. destruct (decide (j = i)); naive_solver.
Qed.

Lemma end_keeps (s : RSlot) (m m1 : StreamMapper) (i : Z) (c : Client) (r r' : RState) : Live m c r -> named s -> RAlloc s m i m1 ->
  orderly r (REnd s) = Some r' -> keeps (fun _ => stop_events i m1) m c r'.
Proof.
  intros H Hn Ha Ho. running H Ho. destruct (lv_open _ _ _ H) as [He Hcl]. unfold keeps, stop_events, started, stopped.
  destruct (piece (r_pieces r) s) as [[t [|]]|] eqn:Ep; injection Ho as <-.
  - destruct (piece_found m m1 c r s i t true H Ha Ep) as (A & B & C). rewrite bool_decide_true by exact A.
    rewrite bool_decide_false by (intros Hx; apply B in Hx; discriminate). cbn [andb negb fst snd].
    exists (mkClient true (<[i := mkBlock (rkind s) t false]> (c_blocks c)) false false). split.
    + change (receive [block_stop i] c) with (accept c (MsgBlockStop i) ≫= Some). unfold accept.
      rewrite Hcl, He, C, (lv_client _ _ _ H). match goal with E : r_started r = true |- _ => rewrite E end. reflexivity.
    + apply (live_set m m1 _ c r s i t false H); try assumption; try reflexivity; cbn; [set_solver|]. intros j. destruct (decide (j = i)); set_solver.
  - destruct (piece_found m m1 c r s i t false H Ha Ep) as (A & B & C). rewrite (bool_decide_true (i ∈ blockStopped _)) by (apply B; reflexivity).
    rewrite andb_false_r. exists c. split; [reflexivity|]. exact (live_alloc s m m1 i c r H Ha).
  - destruct (piece_missing m m1 c r s i H Ha Hn Ep) as (A & _). rewrite bool_decide_false by exact A.
    exists c. split; [reflexivity|]. exact (live_alloc s m m1 i c r H Ha).
Qed.

(** ** Streams *)

(** The client holds the pieces: one block each, with the same text and state. *)
Definition mirrors (c : Client) (ps : Pieces) : Prop := exists pl : RSlot -> option Z,
  (forall s s' i, is_Some (piece ps s) -> is_Some (piece ps s') -> pl s = Some i -> pl s' = Some i -> s = s') /\
  (forall s t o, piece ps s = Some (t, o) -> exists i, pl s = Some i /\ c_blocks c !! i = Some (mkBlock (rkind s) t o)) /\
  (forall i b, c_blocks c !! i = Some b -> exists s, pl s = Some i /\ is_Some (piece ps s)).

Lemma placed_mirrors (m : StreamMapper) (c : Client) (ps : Pieces) : placed m ps (c_blocks c) -> mirrors c ps.
Proof.
  intros H. exists (rplace m). split; [|split].
  - intros s s' i [[t o] Hs] [[t' o'] Hs'] E E'. apply (pl_inj _ _ _ _ _ _ H s s' i); try assumption; eapply (pl_piece _ _ _ _ _ _ H); eassumption.
  - intros s t o Hs. destruct (pl_piece _ _ _ _ _ _ H _ _ _ Hs) as (_ & i & E & _ & _ & Hb). eauto.
  - exact (pl_block _ _ _ _ _ _ H).
Qed.

Lemma all_closed_piece (ps : Pieces) (s : RSlot) (t : string) (o : bool) : all_closed ps = true -> piece ps s = Some (t, o) -> o = false.
Proof.
  intros Hall Hs. assert (exists p, In (s, p) ps) as [p Hin].
  { clear Hall. induction ps as [|[s' p'] ps IH]; [discriminate|]. cbn in Hs. case_decide as D; [subst; exists p'; left; reflexivity|].
    destruct (IH Hs) as [p Hp]. exists p. right. exact Hp. }
  unfold all_closed in Hall. rewrite forallb_forall in Hall. specialize (Hall _ Hin). cbn in Hall. rewrite Hs in Hall. destruct o; [discriminate|reflexivity].
Qed.

(** The stream is over: nothing more is emitted. *)
Record Over (m : StreamMapper) (c : Client) (r : RState) : Prop := mkOver {
  ov_done : m_done (m_head m) = true;
  ov_over : r_over r = true;
  ov_ended : c_ended c = r_completed r;
  ov_blocks : mirrors c (r_pieces r)
}.

Definition Sim (m : StreamMapper) (c : Client) (r : RState) : Prop := Live m c r \/ Over m c r.

Definition advances (op : M (list chatStreamEvent)) (m : StreamMapper) (c : Client) (r' : RState) : Prop :=
  exists c', receive (op m).1 c = Some c' /\ Sim (op m).2 c' r'.

Lemma keeps_advances (op : M (list chatStreamEvent)) (m : StreamMapper) (c : Client) (r' : RState) : keeps op m c r' -> advances op m c r'.
Proof. intros (c' & R & L). exists c'. split; [exact R|left; exact L]. Qed.

Lemma silent (op : M (list chatStreamEvent)) (m : StreamMapper) (c : Client) (r' : RState) : op m = ([], m) -> Sim m c r' -> advances op m c r'.
Proof. intros E H. exists c. rewrite E. auto. Qed.

Lemma completed_advances (ev : gomap) (m : StreamMapper) (c : Client) (r r' : RState) : Sim m c r -> orderly r RCompleted = Some r' ->
  advances (on_completed ev) m c r'.
Proof.
  intros [H|H] Ho; cbn [orderly] in Ho.
  - rewrite (proj1 (lv_state _ _ _ H)) in Ho. destruct (r_started r && all_closed (r_pieces r)) eqn:E; [|discriminate]. injection Ho as <-.
    apply andb_prop in E as [Est Hall]. unfold advances, on_completed. rewrite (lv_done _ _ _ H). set (p := match obj ev "response" with Some _ => _ | None => _ end).
    destruct p as [ot reason]. cbn [fst snd]. exists (mkClient true (c_blocks c) true true). split.
    + change ((c ← accept c MsgEnd; accept c MsgStop ≫= Some) = Some (mkClient true (c_blocks c) true true)). unfold accept.
      destruct (lv_open _ _ _ H) as [He Hcl]. rewrite Hcl, He, (lv_client _ _ _ H), Est. cbn [andb negb]. rewrite bool_decide_true; [reflexivity|].
      intros i b Hi. destruct (pl_block _ _ _ _ _ _ (lv_placed _ _ _ H) _ _ Hi) as (s & Es & [[t o] Hs]).
      destruct (pl_piece _ _ _ _ _ _ (lv_placed _ _ _ H) _ _ _ Hs) as (_ & j & Ej & _ & _ & Hb). replace j with i in Hb by congruence.
      rewrite Hi in Hb. injection Hb as ->. unfold block_closed. cbn. rewrite (all_closed_piece _ _ _ _ Hall Hs). reflexivity.
    + right. constructor; try reflexivity. exact (placed_mirrors m _ _ (lv_placed _ _ _ H)).
  - rewrite (ov_over _ _ _ H) in Ho. injection Ho as <-. apply silent; [|right; exact H]. unfold on_completed. rewrite (ov_done _ _ _ H). reflexivity.
Qed.

Lemma failed_advances (ev : gomap) (m : StreamMapper) (c : Client) (r r' : RState) (e : bool) : Sim m c r -> orderly r (RFailed e) = Some r' ->
  advances (on_failed ev) m c r'.
Proof.
  intros H Ho. cbn in Ho. injection Ho as <-. unfold advances, on_failed. destruct H as [H|H].
  - rewrite (lv_done _ _ _ H). destruct (lv_open _ _ _ H) as [He Hcl].
    assert (forall c', c_blocks c' = c_blocks c -> c_ended c' = false -> Sim (set_done m) c' (mkRState (r_started r) true (r_completed r) (r_pieces r))) as Hs.
    { intros c' Eb Ee. right. constructor; try reflexivity; [rewrite Ee, (proj2 (lv_state _ _ _ H)); reflexivity|].
      apply (placed_mirrors m). cbn. rewrite Eb. exact (lv_placed _ _ _ H). }
    destruct (resp ← obj ev "response"; obj resp "error") as [x|]; cbn [fst snd].
    + exists (mkClient (c_started c) (c_blocks c) (c_ended c) true). split; [|apply Hs; [reflexivity|exact He]].
      change (accept c MsgError ≫= Some = Some (mkClient (c_started c) (c_blocks c) (c_ended c) true)). unfold accept. rewrite Hcl. reflexivity.
    + exists c. split; [reflexivity|]. apply Hs; [reflexivity|exact He].
  - rewrite (ov_done _ _ _ H). exists c. split; [reflexivity|]. right. destruct H. constructor; auto.
Qed.

Lemma slot_live (m : StreamMapper) (c : Client) (r r' : RState) (e : RespEvent) : Sim m c r -> orderly r e = Some r' ->
  match e with RBegin _ | RDelta _ _ | REnd _ | RCreated => True | _ => False end -> Live m c r.
Proof.
  intros [H|H] Ho He; [exact H|]. destruct e; try contradiction; cbn in Ho; rewrite (ov_over _ _ _ H), ?orb_true_r in Ho; discriminate.
Qed.

Lemma ralloc_items (s : RSlot) (m m1 : StreamMapper) (i : Z) (f : Items -> Items) : RAlloc s m i m1 -> RAlloc s m i (with_items f m1).
Proof. intros []. constructor; assumption. Qed.

(** The slots an event names, and their allocation. *)
Definition thinking_slot (ev : gomap) : RSlot := RThinking (intOr0 ev "summary_index").
Definition tool_slot (ev : gomap) : RSlot := RTool (intOr0 ev "output_index").

Lemma alloc_thinking (ev : gomap) (m : StreamMapper) : RAlloc (thinking_slot ev) m (respReasoningBlock (intOr0 ev "summary_index") m).1 (respReasoningBlock (intOr0 ev "summary_index") m).2.
Proof. apply (ralloc_keyed (thinking_slot ev) m 0); [apply intOr0_range|discriminate|lia]. Qed.

Lemma alloc_call (ev : gomap) (m : StreamMapper) : RAlloc (tool_slot ev) m (respToolBlock (intOr0 ev "output_index") m).1 (respToolBlock (intOr0 ev "output_index") m).2.
Proof. apply (ralloc_keyed (tool_slot ev) m (intOr0 ev "output_index")); [apply intOr0_range|discriminate|apply intOr0_range]. Qed.

Lemma named_thinking (ev : gomap) : named (thinking_slot ev).
Proof. apply intOr0_range. Qed.

Lemma named_tool (ev : gomap) : named (tool_slot ev).
Proof. apply intOr0_range. Qed.

Section Handlers.
Context (ev : gomap) (m : StreamMapper) (c : Client) (r r' : RState) (L : Live m c r).

Lemma created_keeps : orderly r RCreated = Some r' -> keeps (fun m => if m_started (m_head m) then ([], m) else ([resp_start ev], set_started m)) m c r'.
Proof.
  cbn. rewrite (proj1 (lv_state _ _ _ L)). intros [= <-]. unfold keeps. destruct (lv_open _ _ _ L) as [He Hcl]. pose proof (lv_mapper _ _ _ L) as Er.
  destruct (m_started (m_head m)) eqn:Em.
  - exists c. split; [reflexivity|]. destruct L. constructor; auto; cbn; congruence.
  - exists (mkClient true (c_blocks c) false false). split; [|destruct L; constructor; auto].
    cbn. unfold resp_start. destruct (obj ev "response"); cbn; unfold accept; rewrite Hcl, (lv_client _ _ _ L), <- Er; reflexivity.
Qed.

Lemma reasoning_delta_keeps : String.eqb (str0 ev "delta") "" = false -> orderly r (RDelta (thinking_slot ev) (str0 ev "delta")) = Some r' ->
  keeps (on_reasoning_delta ev) m c r'.
Proof.
  intros Ed Ho. unfold keeps, on_reasoning_delta. rewrite Ed. pose proof (alloc_thinking ev m) as Ha.
  destruct (respReasoningBlock (intOr0 ev "summary_index") m) as [i m1]. cbn [fst snd] in Ha.
  pose proof (ralloc_items _ _ _ _ (fun t => mkItems (textByIndex t) (argsByIndex t) (fcNames t) (fcIDs t)
    (<[i := (at0 (reasoningByIndex (m_items m1)) i +:+ str0 ev "delta")%stdpp]> (reasoningByIndex t))) Ha) as Hi.
  exact (delta_keeps _ _ _ i thinking_block (thinking_delta (str0 ev "delta")) _ c r r' L (named_thinking ev) Hi eq_refl eq_refl ltac:(discriminate) Ho).
Qed.

Lemma reasoning_done_keeps : orderly r (REnd (thinking_slot ev)) = Some r' -> keeps (on_reasoning_done ev) m c r'.
Proof.
  intros Ho. unfold keeps, on_reasoning_done. pose proof (alloc_thinking ev m) as Ha.
  destruct (respReasoningBlock (intOr0 ev "summary_index") m) as [i m1]. exact (end_keeps _ m m1 i c r r' L (named_thinking ev) Ha Ho).
Qed.

Lemma text_delta_keeps : orderly r (RDelta RText (str0 ev "delta")) = Some r' -> keeps (on_text_delta ev) m c r'.
Proof.
  intros Ho. unfold keeps, on_text_delta. pose proof (ralloc_text m) as Ha. destruct (respTextBlock m) as [i m1].
  exact (delta_keeps RText m m1 i text_block (text_delta (str0 ev "delta")) _ c r r' L I Ha eq_refl eq_refl ltac:(discriminate) Ho).
Qed.

Lemma text_done_keeps : orderly r (REnd RText) = Some r' -> keeps on_text_done m c r'.
Proof.
  intros Ho. unfold keeps, on_text_done. pose proof (ralloc_text m) as Ha. destruct (respTextBlock m) as [i m1].
  exact (end_keeps RText m m1 i c r r' L I Ha Ho).
Qed.

Lemma reasoning_added_keeps (item : gomap) : obj ev "item" = Some item -> is_str item "type" "reasoning" = true ->
  orderly r (RBegin (thinking_slot ev)) = Some r' -> keeps (on_item_added ev) m c r'.
Proof.
  intros Ei Et Ho. unfold keeps, on_item_added. rewrite Ei, Et. pose proof (alloc_thinking ev m) as Ha.
  destruct (respReasoningBlock (intOr0 ev "summary_index") m) as [i m1].
  exact (begin_keeps _ m m1 i thinking_block c r r' L (named_thinking ev) Ha eq_refl Ho).
Qed.

Lemma tool_added_keeps (item : gomap) : obj ev "item" = Some item -> is_str item "type" "reasoning" = false -> is_str item "type" "function_call" = true ->
  orderly r (RBegin (tool_slot ev)) = Some r' -> keeps (on_item_added ev) m c r'.
Proof.
  intros Ei Et Ef Ho. unfold keeps, on_item_added. rewrite Ei, Et, Ef. pose proof (alloc_call ev m) as Ha.
  destruct (respToolBlock (intOr0 ev "output_index") m) as [i m1].
  exact (begin_keeps _ m m1 i (tool_block (toolCallID item) (str0 item "name")) c r r' L (named_tool ev) Ha eq_refl Ho).
Qed.

Lemma args_delta_keeps : orderly r (RDelta (tool_slot ev) (str0 ev "delta")) = Some r' -> keeps (on_args_delta ev) m c r'.
Proof.
  intros Ho. unfold keeps, on_args_delta. pose proof (alloc_call ev m) as Ha. destruct (respToolBlock (intOr0 ev "output_index") m) as [i m1].
  exact (args_keeps _ m m1 i _ c r r' L (named_tool ev) Ha Ho).
Qed.

Lemma args_done_keeps : orderly r (REnd (tool_slot ev)) = Some r' -> keeps (on_args_done ev) m c r'.
Proof.
  intros Ho. unfold keeps, on_args_done. pose proof (alloc_call ev m) as Ha. destruct (respToolBlock (intOr0 ev "output_index") m) as [i m1].
  exact (end_keeps _ m m1 i c r r' L (named_tool ev) Ha Ho).
Qed.
End Handlers.

(** One event. *)
Lemma step_advances (name : string) (data : bytes) (m : StreamMapper) (c : Client) (r r' : RState) : Sim m c r ->
  orderly r (read_resp name data) = Some r' -> advances (mapRespToMess name data) m c r'.
Proof.
  intros H. unfold read_resp, advances, mapRespToMess.
  assert (forall r', Some r = Some r' -> exists c', receive [] c = Some c' /\ Sim m c' r') as Hq by (intros ? [= <-]; exists c; auto).
  destruct (decodeObj data) as [ev|]; [|exact (Hq r')].
  destruct (String.eqb name "response.created"); [intros Ho; pose proof (slot_live _ _ _ _ _ H Ho I) as L; exact (keeps_advances _ _ _ _ (created_keeps ev m c r r' L Ho))|].
  destruct (one_of name ["response.reasoning_summary_text.delta"; _]).
  { destruct (String.eqb (str0 ev "delta") "") eqn:Ed; [unfold on_reasoning_delta; rewrite Ed; exact (Hq r')|].
    intros Ho; pose proof (slot_live _ _ _ _ _ H Ho I) as L; exact (keeps_advances _ _ _ _ (reasoning_delta_keeps ev m c r r' L Ed Ho)). }
  destruct (one_of name ["response.reasoning_summary_text.done"; _]); [intros Ho; pose proof (slot_live _ _ _ _ _ H Ho I) as L; exact (keeps_advances _ _ _ _ (reasoning_done_keeps ev m c r r' L Ho))|].
  destruct (String.eqb name "response.output_text.delta"); [intros Ho; pose proof (slot_live _ _ _ _ _ H Ho I) as L; exact (keeps_advances _ _ _ _ (text_delta_keeps ev m c r r' L Ho))|].
  destruct (String.eqb name "response.output_text.done"); [intros Ho; pose proof (slot_live _ _ _ _ _ H Ho I) as L; exact (keeps_advances _ _ _ _ (text_done_keeps m c r r' L Ho))|].
  destruct (String.eqb name "response.output_item.added").
  { destruct (obj ev "item") as [item|] eqn:Ei; [|unfold on_item_added; rewrite Ei; exact (Hq r')].
    destruct (is_str item "type" "reasoning") eqn:Et; [intros Ho; pose proof (slot_live _ _ _ _ _ H Ho I) as L; exact (keeps_advances _ _ _ _ (reasoning_added_keeps ev m c r r' L item Ei Et Ho))|].
    destruct (is_str item "type" "function_call") eqn:Ef; [intros Ho; pose proof (slot_live _ _ _ _ _ H Ho I) as L; exact (keeps_advances _ _ _ _ (tool_added_keeps ev m c r r' L item Ei Et Ef Ho))|].
    unfold on_item_added. rewrite Ei, Et, Ef. exact (Hq r'). }
  destruct (String.eqb name "response.function_call_arguments.delta"); [intros Ho; pose proof (slot_live _ _ _ _ _ H Ho I) as L; exact (keeps_advances _ _ _ _ (args_delta_keeps ev m c r r' L Ho))|].
  destruct (String.eqb name "response.function_call_arguments.done"); [intros Ho; pose proof (slot_live _ _ _ _ _ H Ho I) as L; exact (keeps_advances _ _ _ _ (args_done_keeps ev m c r r' L Ho))|].
  destruct (String.eqb name "response.completed"); [exact (completed_advances ev m c r r' H)|].
  destruct (String.eqb name "response.failed"); [exact (failed_advances ev m c r r' _ H)|]. exact (Hq r').
Qed.
Lemma run_resp_ok (es : list (string * bytes)) : forall m c r r', Sim m c r -> orderly_run es r = Some r' ->
  exists c', receive (run_resp es m).1 c = Some c' /\ Sim (run_resp es m).2 c' r'.
Proof.
  induction es as [|[name data] es IH]; intros m c r r' H Ho; cbn [orderly_run] in Ho; [injection Ho as <-; exists c; auto|].
  destruct (orderly r (read_resp name data)) as [r1|] eqn:E1; cbn [mbind option_bind] in Ho; [|discriminate].
  destruct (step_advances name data m c r r1 H E1) as (c1 & R1 & S1). cbn [run_resp]. destruct (mapRespToMess name data m) as [o1 m1]. cbn [fst snd] in *.
  destruct (IH m1 c1 r1 r' S1 Ho) as (c2 & R2 & S2). destruct (run_resp es m1) as [o2 m2]. cbn [fst snd] in *.
  exists c2. rewrite receive_app, R1. auto.
Qed.

Lemma new_live : Live NewStreamMapper new_client new_rstate.
Proof.
  constructor; cbn; auto. constructor; cbn; try set_solver; try discriminate; intros [] *; cbn; try discriminate; intros *; try discriminate; set_solver.
Qed.

(** C18: For every orderly Responses stream, whatever indexes it uses, the client of
    the Messages protocol accepts all events and holds one block per piece of
    output, with its text so far and open exactly while the piece can still grow. *)
Theorem resp_stream_delivered (es : list (string * bytes)) (r : RState) : orderly_run es new_rstate = Some r ->
  exists c, receive (run_resp es NewStreamMapper).1 new_client = Some c /\ mirrors c (r_pieces r) /\ c_ended c = r_completed r.
Proof.
  intros Ho. destruct (run_resp_ok es _ _ _ _ (or_introl new_live) Ho) as (c & R & [L|O]); exists c; (split; [exact R|]).
  - split; [exact (placed_mirrors _ _ _ (lv_placed _ _ _ L))|]. destruct (lv_open _ _ _ L) as [-> _]. destruct (lv_state _ _ _ L) as [_ ->]. reflexivity.
  - split; [exact (ov_blocks _ _ _ O)|exact (ov_ended _ _ _ O)].
Qed.

(** Reasoning, text and a tool whose output index is taken by the text. *)
Definition demo_resp : list (string * bytes) := map (fun e => (e.1, jt e.2))
  [("response.created", "{'response':{'id':'r','model':'m'}}"); ("response.output_item.added", "{'item':{'type':'reasoning'},'output_index':0}");
   ("response.reasoning_summary_text.delta", "{'summary_index':0,'delta':'hm'}"); ("response.reasoning_summary_text.done", "{'summary_index':0}");
   ("response.output_text.delta", "{'output_index':1,'delta':'a'}"); ("response.output_item.added", "{'item':{'type':'function_call','call_id':'k','name':'f'},'output_index':1}");
   ("response.function_call_arguments.delta", "{'output_index':1,'delta':'{}'}"); ("response.output_text.delta", "{'delta':'b'}");
   ("response.output_text.done", "{}"); ("response.function_call_arguments.done", "{'output_index':1}"); ("response.completed", "{'response':{'status':'completed'}}")].

Definition demo_rstate : RState := default new_rstate (orderly_run demo_resp new_rstate).

Lemma resp_stream_delivered_witness : r_completed demo_rstate = true /\ piece (r_pieces demo_rstate) RText = Some ("ab", false) /\
  exists c, receive (run_resp demo_resp NewStreamMapper).1 new_client = Some c /\ mirrors c (r_pieces demo_rstate) /\ c_ended c = true.
Proof.
  split; [vm_compute; reflexivity|]. split; [vm_compute; reflexivity|]. apply (resp_stream_delivered demo_resp demo_rstate). vm_compute. reflexivity.
Defined.

(** Two text parts, as a Responses stream with an annotation break or a second
    message item sends them: the second part is written to the closed block. *)
Definition two_parts : list (string * bytes) := map (fun e => (e.1, jt e.2))
  [("response.created", "{'response':{'id':'r'}}"); ("response.output_text.delta", "{'content_index':0,'delta':'a'}");
   ("response.output_text.done", "{'content_index':0}"); ("response.output_text.delta", "{'content_index':1,'delta':'b'}");
   ("response.output_text.done", "{'content_index':1}"); ("response.completed", "{'response':{}}")].

(** A reasoning item without a summary: its block is never closed. *)
Definition empty_reasoning : list (string * bytes) := map (fun e => (e.1, jt e.2))
  [("response.created", "{'response':{'id':'r'}}"); ("response.output_item.added", "{'item':{'type':'reasoning','summary':[]}}");
   ("response.output_text.delta", "{'delta':'a'}"); ("response.output_text.done", "{}"); ("response.completed", "{'response':{}}")].

(** A second text part is written to the block of the first, which is closed. *)
Theorem second_text_part_breaks_stream : receive (run_resp two_parts NewStreamMapper).1 new_client = None.
Proof. vm_compute. reflexivity. Qed.

(** The message ends while the block of the reasoning item is open. *)
Theorem empty_reasoning_left_open : receive (run_resp empty_reasoning NewStreamMapper).1 new_client = None.
Proof. vm_compute. reflexivity. Qed.
