(* ===== verification/MarshalText.v ===== *)
(** * What a written value reads as

    [json.Unmarshal] of the text of [json.Marshal]: strings come back with
    ill-formed UTF-8 replaced, integers as the [float64] they round to, objects
    with the same value under every key.  The same holds for the strings the
    gateway writes itself ([appendJSONString]).  A converter that writes a value
    and reads it again (the composed stream mapper, tool arguments) relies on it. *)

From Stdlib Require Import ZArith Lia List Bool String Ascii.
From Stdlib Require Import Floats.SpecFloat.
From stdpp Require Import base option list strings.
From S2P Require Import Prelude GoString JsonScan JsonText GoJson SseRelay ProtoJson.
Import ListNotations.
Local Open Scope nat_scope.
Local Open Scope list_scope.

(** ** UTF-8 *)

(** [strings.ToValidUTF8] with U+FFFD for every ill-formed byte. *)
Fixpoint utf8 (fuel : nat) (s : bytes) : bytes :=
  match fuel, s with
  | S fuel, c :: rest => let '(r, w) := DecodeRune c (to_string rest) in bs (EncodeRune r) ++ utf8 fuel (drop w s)
  | _, _ => []
  end.

Definition valid (s : string) : string := to_string (utf8 (List.length (bs s)) (bs s)).

Lemma byte_of_val (c : ascii) : byte_of (byte_val c) = c.
Proof. unfold byte_of, byte_val. rewrite N2Z.id. apply ascii_N_embedding. Qed.

Lemma land_mod (b k : Z) : (0 <= k)%Z -> Z.land b (Z.ones k) = (b mod 2 ^ k)%Z.
Proof. apply Z.land_ones. Qed.

Definition high (c : ascii) : Prop := (128 <= byte_val c)%Z.

(** A well-formed sequence: its bytes, and that what follows does not matter. *)
Record Seq (c : ascii) (rest : bytes) (r : Z) (w : nat) : Prop := mkSeq {
  sq_bytes : bs (EncodeRune r) = take w (c :: rest);
  sq_width : 1 < w <= List.length (c :: rest);
  sq_high : Forall high (take w (c :: rest));
  sq_next : forall t, DecodeRune c (to_string (take (w - 1) rest ++ t)) = (r, w)
}.

Ltac byte_facts := repeat match goal with
  | H : in_range _ _ _ = true |- _ => unfold in_range in H; apply andb_prop in H as [?%Z.leb_le ?%Z.leb_le]
  | H : is_cont _ = true |- _ => unfold is_cont in H
  | H : andb _ _ = true |- _ => apply andb_prop in H as [? ?]
  end.

Ltac rune_bytes := unfold low6; change 63%Z with (Z.ones 6); change 31%Z with (Z.ones 5); change 15%Z with (Z.ones 4); change 7%Z with (Z.ones 3);
  rewrite !land_mod by lia.

Lemma two_bytes (b c1 : Z) : (194 <= b <= 223 -> 128 <= c1 <= 191 -> let r := b mod 2 ^ 5 * 64 + c1 mod 2 ^ 6 in
  128 <= r < 2048 /\ 192 + r / 64 = b /\ 128 + r mod 64 = c1)%Z.
Proof. intros H1 H2; intros; subst r. change (2 ^ 5)%Z with 32%Z. change (2 ^ 6)%Z with 64%Z. Z.to_euclidean_division_equations. lia. Qed.

Lemma three_bytes (b c1 c2 : Z) : (224 <= b <= 239 -> 128 <= c1 <= 191 -> 128 <= c2 <= 191 -> (b = 224 -> 160 <= c1) -> (b = 237 -> c1 <= 159) ->
  let r := (b mod 2 ^ 4 * 64 + c1 mod 2 ^ 6) * 64 + c2 mod 2 ^ 6 in
  2048 <= r < 65536 /\ ~ 55296 <= r <= 57343 /\ 224 + r / 4096 = b /\ 128 + (r / 64) mod 64 = c1 /\ 128 + r mod 64 = c2)%Z.
Proof. intros H1 H2; intros; subst r. change (2 ^ 4)%Z with 16%Z. change (2 ^ 6)%Z with 64%Z. Z.to_euclidean_division_equations. lia. Qed.

Lemma four_bytes (b c1 c2 c3 : Z) : (240 <= b <= 244 -> 128 <= c1 <= 191 -> 128 <= c2 <= 191 -> 128 <= c3 <= 191 -> (b = 240 -> 144 <= c1) -> (b = 244 -> c1 <= 143) ->
  let r := ((b mod 2 ^ 3 * 64 + c1 mod 2 ^ 6) * 64 + c2 mod 2 ^ 6) * 64 + c3 mod 2 ^ 6 in
  65536 <= r <= 1114111 /\ 240 + r / 262144 = b /\ 128 + (r / 4096) mod 64 = c1 /\ 128 + (r / 64) mod 64 = c2 /\ 128 + r mod 64 = c3)%Z.
Proof. intros H1 H2; intros; subst r. change (2 ^ 3)%Z with 8%Z. change (2 ^ 6)%Z with 64%Z. Z.to_euclidean_division_equations. lia. Qed.

Lemma lead_cases (b lo hi : Z) (n : nat) : lead b = Some (n, lo, hi) ->
  ((n = 2%nat /\ 194 <= b <= 223 /\ lo = 128 /\ hi = 191) \/
   (n = 3%nat /\ 224 <= b <= 239 /\ 128 <= lo /\ hi <= 191 /\ (b = 224 -> lo = 160) /\ (b = 237 -> hi = 159)) \/
   (n = 4%nat /\ 240 <= b <= 244 /\ 128 <= lo /\ hi <= 191 /\ (b = 240 -> lo = 144) /\ (b = 244 -> hi = 143)))%Z.
Proof.
  unfold lead. intros H.
  repeat match type of H with context [if ?x then _ else _] => destruct x eqn:? end; try discriminate; injection H as <- <- <-;
    repeat match goal with
           | H : (_ && _)%bool = true |- _ => apply andb_prop in H as [?%Z.leb_le ?%Z.leb_le]
           | H : (_ =? _)%Z = true |- _ => apply Z.eqb_eq in H
           | H : (_ =? _)%Z = false |- _ => apply Z.eqb_neq in H
           end; lia.
Qed.

Lemma encode_two (r : Z) : (128 <= r < 2048)%Z -> EncodeRune r = String (byte_of (192 + r / 64)) (String (byte_of (128 + r mod 64)) EmptyString).
Proof.
  intros H. unfold EncodeRune. replace ((r <? 0) || (1114111 <? r) || ((55296 <=? r) && (r <=? 57343)))%Z with false by (symmetry; bcases; lia).
  rewrite (proj2 (Z.ltb_ge r 128)), (proj2 (Z.ltb_lt r 2048)) by lia. reflexivity.
Qed.

Lemma encode_three (r : Z) : (2048 <= r < 65536 -> ~ 55296 <= r <= 57343 -> EncodeRune r =
  String (byte_of (224 + r / 4096)) (String (byte_of (128 + (r / 64) mod 64)) (String (byte_of (128 + r mod 64)) EmptyString)))%Z.
Proof.
  intros H H'. unfold EncodeRune. replace ((r <? 0) || (1114111 <? r) || ((55296 <=? r) && (r <=? 57343)))%Z with false by (symmetry; bcases; lia).
  rewrite (proj2 (Z.ltb_ge r 128)), (proj2 (Z.ltb_ge r 2048)), (proj2 (Z.ltb_lt r 65536)) by lia. reflexivity.
Qed.

Lemma encode_four (r : Z) : (65536 <= r <= 1114111 -> EncodeRune r =
  String (byte_of (240 + r / 262144)) (String (byte_of (128 + (r / 4096) mod 64)) (String (byte_of (128 + (r / 64) mod 64)) (String (byte_of (128 + r mod 64)) EmptyString))))%Z.
Proof.
  intros H. unfold EncodeRune. replace ((r <? 0) || (1114111 <? r) || ((55296 <=? r) && (r <=? 57343)))%Z with false by (symmetry; bcases; lia).
  rewrite (proj2 (Z.ltb_ge r 128)), (proj2 (Z.ltb_ge r 2048)), (proj2 (Z.ltb_ge r 65536)) by lia. reflexivity.
Qed.

Lemma decode_seq (c : ascii) (rest : bytes) (r : Z) (w : nat) : high c -> DecodeRune c (to_string rest) = (r, w) ->
  (r =? RuneError)%Z && (w =? 1) = false -> Seq c rest r w.
Proof.
  intros Hc. unfold high in Hc. unfold DecodeRune. pose proof (proj2 (Z.ltb_ge (byte_val c) 128) Hc) as Hlt. rewrite Hlt.
  assert (forall x : Z * nat, (RuneError, 1) = x -> (x.1 =? RuneError)%Z && (x.2 =? 1) = false -> False) as Hbad by (intros ? <-; discriminate).
  destruct (lead (byte_val c)) as [[[n lo] hi]|] eqn:El; [|intros E N; destruct (Hbad _ E N)].
  destruct (lead_cases _ _ _ _ El) as [(-> & Hb & -> & ->)|[(-> & Hb & H1 & H2 & H3 & H4)|(-> & Hb & H1 & H2 & H3 & H4)]].
  - destruct rest as [|c1 rest]; [intros E N; destruct (Hbad _ E N)|]. change (to_string (c1 :: rest)) with (String c1 (to_string rest)).
    cbv iota beta. destruct (in_range 128 191 c1) eqn:R; [|intros E N; destruct (Hbad _ E N)]. intros [= <- <-] _. pose proof R as R1. revert R. byte_facts. intros R.
    destruct (two_bytes (byte_val c) (byte_val c1)) as (B & E1 & E2); [lia..|]. constructor.
    + rune_bytes. rewrite encode_two, E1, E2, !byte_of_val by exact B. reflexivity.
    + cbn. lia.
    + repeat constructor; unfold high; lia.
    + intros t. change (to_string (take (2 - 1) (c1 :: rest) ++ t)) with (String c1 (to_string t)). unfold DecodeRune. rewrite Hlt, El, R. reflexivity.
  - destruct rest as [|c1 [|c2 rest]]; [intros E N; destruct (Hbad _ E N)..|]. change (to_string (c1 :: c2 :: rest)) with (String c1 (String c2 (to_string rest))).
    cbv iota beta. destruct (in_range lo hi c1 && is_cont c2) eqn:R; [|intros E N; destruct (Hbad _ E N)]. intros [= <- <-] _. pose proof R as R1. revert R. byte_facts. intros R.
    destruct (three_bytes (byte_val c) (byte_val c1) (byte_val c2)) as (B & B' & E1 & E2 & E3); [lia..|]. constructor.
    + rune_bytes. rewrite encode_three, E1, E2, E3, !byte_of_val by assumption. reflexivity.
    + cbn. lia.
    + repeat constructor; unfold high; lia.
    + intros t. change (to_string (take (3 - 1) (c1 :: c2 :: rest) ++ t)) with (String c1 (String c2 (to_string t))). unfold DecodeRune. rewrite Hlt, El, R. reflexivity.
  - destruct rest as [|c1 [|c2 [|c3 rest]]]; [intros E N; destruct (Hbad _ E N)..|].
    change (to_string (c1 :: c2 :: c3 :: rest)) with (String c1 (String c2 (String c3 (to_string rest)))).
    cbv iota beta. destruct (in_range lo hi c1 && is_cont c2 && is_cont c3) eqn:R; [|intros E N; destruct (Hbad _ E N)]. intros [= <- <-] _. pose proof R as R1. revert R. byte_facts. intros R.
    destruct (four_bytes (byte_val c) (byte_val c1) (byte_val c2) (byte_val c3)) as (B & E1 & E2 & E3 & E4); [lia..|]. constructor.
    + rune_bytes. rewrite encode_four, E1, E2, E3, E4, !byte_of_val by assumption. reflexivity.
    + cbn. lia.
    + repeat constructor; unfold high; lia.
    + intros t. change (to_string (take (4 - 1) (c1 :: c2 :: c3 :: rest) ++ t)) with (String c1 (String c2 (String c3 (to_string t)))).
      unfold DecodeRune. rewrite Hlt, El, R. reflexivity.
Qed.

(** ** Strings *)

Lemma token_high (p t : bytes) : Forall high p -> string_token (p ++ t) = '(s, r) ← string_token t; Some (p ++ s, r).
Proof.
  induction 1 as [|c p Hc _ IH]; cbn [app]; [destruct (string_token t) as [[? ?]|]; reflexivity|]. cbn [string_token].
  destruct (Ascii.eqb_spec c quote) as [->|_]; [destruct (Hc eq_refl)|].
  destruct (Ascii.eqb_spec c backslash) as [->|_]; [destruct (Hc eq_refl)|].
  unfold high in Hc. rewrite (proj2 (Z.ltb_ge (byte_val c) 32)), IH by lia. destruct (string_token t) as [[? ?]|]; reflexivity.
Qed.

Ltac each_char c := destruct c as [[] [] [] [] [] [] [] []]; try (intros H; exfalso; vm_compute in H; discriminate); intros _.

Ltac eval_escape := repeat match goal with |- context [escape_char ?c] => let e := eval vm_compute in (escape_char c) in change (escape_char c) with e end.

Lemma token_ascii (c : ascii) (t : bytes) : (byte_val c <? 128)%Z = true -> string_token (escape_char c ++ t) = '(s, r) ← string_token t; Some (escape_char c ++ s, r).
Proof.
  each_char c; eval_escape; cbn [app string_token Ascii.eqb Bool.eqb quote backslash simple_escape existsb bs list_ascii_of_string isHex4 forallb];
    repeat match goal with |- context [(byte_val ?c <? 32)%Z] => let e := eval vm_compute in (byte_val c <? 32)%Z in change (byte_val c <? 32)%Z with e end;
    destruct (string_token t) as [[? ?]|] eqn:E; reflexivity.
Qed.

Lemma escape4_simple (u : ascii) (t : bytes) : Ascii.eqb u "u" = false -> escape4 (backslash :: u :: t) = None.
Proof. intros H. destruct t as [|h1 [|h2 [|h3 [|h4 t]]]]; try reflexivity. cbn. rewrite H. reflexivity. Qed.

Lemma unquote_ascii (c : ascii) (t : bytes) (g : nat) : (byte_val c <? 128)%Z = true -> unquote (S g) (escape_char c ++ t) = bs (EncodeRune (byte_val c)) ++ unquote g t.
Proof.
  each_char c; cbn [unquote]; (reflexivity ||
    (eval_escape; cbn [app];
     rewrite escape4_simple by reflexivity; reflexivity)).
Qed.

Lemma token_escape4 (h1 h2 h3 h4 : ascii) (t : bytes) : isHex4 [h1; h2; h3; h4] = true ->
  string_token (backslash :: "u"%char :: h1 :: h2 :: h3 :: h4 :: t) = '(s, r) ← string_token t; Some (backslash :: "u"%char :: h1 :: h2 :: h3 :: h4 :: s, r).
Proof.
  intros H. change (string_token (backslash :: "u"%char :: h1 :: h2 :: h3 :: h4 :: t)) with
    (if isHex4 [h1; h2; h3; h4] then '(s, r) ← string_token t; Some (backslash :: "u"%char :: h1 :: h2 :: h3 :: h4 :: s, r) else None).
  rewrite H. reflexivity.
Qed.

Lemma unquote_escape4 (h1 h2 h3 h4 : ascii) (t : bytes) (g : nat) : isHex4 [h1; h2; h3; h4] = true -> surrogate (decodeHex4 [h1; h2; h3; h4]) = false ->
  unquote (S g) (backslash :: "u"%char :: h1 :: h2 :: h3 :: h4 :: t) = bs (EncodeRune (decodeHex4 [h1; h2; h3; h4])) ++ unquote g t.
Proof.
  intros H Hs. change (unquote (S g) (backslash :: "u"%char :: h1 :: h2 :: h3 :: h4 :: t)) with
    (match (if isHex4 [h1; h2; h3; h4] then Some (decodeHex4 [h1; h2; h3; h4]) else None) with
     | Some r => match (if surrogate r then match escape4 t with Some r2 => pair_rune r r2 | None => None end else None) with
                 | Some p => bs (EncodeRune p) ++ unquote g (drop 6 t)
                 | None => bs (EncodeRune r) ++ unquote g t end
     | None => simple_char "u"%char :: unquote g (h1 :: h2 :: h3 :: h4 :: t) end).
  rewrite H, Hs. reflexivity.
Qed.

(** A unit of the escaped text: a token piece that stands for one rune. *)
Definition stands_for (p : bytes) (r : Z) : Prop := p <> [] /\
  (forall t, string_token (p ++ t) = '(s, r) ← string_token t; Some (p ++ s, r)) /\
  (forall t g, unquote (S g) (p ++ t) = bs (EncodeRune r) ++ unquote g t).

Lemma stands_ascii (c : ascii) : (byte_val c <? 128)%Z = true -> stands_for (escape_char c) (byte_val c).
Proof.
  intros H. split; [|split; intros; [apply token_ascii|apply unquote_ascii]; exact H]. revert H. each_char c; discriminate.
Qed.

Lemma stands_seq (c : ascii) (rest : bytes) (r : Z) (w : nat) : high c -> Seq c rest r w -> stands_for (take w (c :: rest)) r.
Proof.
  intros Hc [Hb Hw Hh Hn]. split; [|split].
  - destruct w; [lia|discriminate].
  - intros t. apply token_high, Hh.
  - intros t g. rewrite Hb. destruct w as [|w]; [lia|]. cbn [take app unquote].
    destruct (Ascii.eqb_spec c backslash) as [->|_]; [destruct (Hc eq_refl)|]. fold (to_string (take w rest ++ t)).
    specialize (Hn t). replace (S w - 1) with w in Hn by lia. rewrite Hn, Hb. cbn [take app]. f_equal. f_equal.
    assert (List.length (take w rest) = w) as El by (rewrite length_take; cbn in Hw; lia).
    cbn [drop]. rewrite drop_app_le by lia. rewrite <- El at 1. rewrite drop_all. reflexivity.
Qed.

Lemma stands_escape4 (h1 h2 h3 h4 : ascii) : isHex4 [h1; h2; h3; h4] = true -> surrogate (decodeHex4 [h1; h2; h3; h4]) = false ->
  stands_for (backslash :: "u"%char :: [h1; h2; h3; h4]) (decodeHex4 [h1; h2; h3; h4]).
Proof. intros H Hs. split; [discriminate|]. split; intros; [apply token_escape4, H|apply unquote_escape4; assumption]. Qed.

(** The escaped text is the units of the string's runes. *)
Inductive Units : bytes -> bytes -> Prop :=
| units_nil : Units [] []
| units_cons p r e u : stands_for p r -> Units e u -> Units (p ++ e) (bs (EncodeRune r) ++ u).

Lemma escape_units (lines : bool) (fuel : nat) : forall s, Units (escape lines fuel s) (utf8 fuel s).
Proof.
  induction fuel as [|fuel IH]; intros s; [destruct s; constructor|]. destruct s as [|c rest]; [constructor|]. cbn [escape utf8].
  destruct (byte_val c <? 128)%Z eqn:Hc.
  - assert (DecodeRune c (to_string rest) = (byte_val c, 1)) as -> by (unfold DecodeRune; rewrite Hc; reflexivity).
    constructor; [apply stands_ascii, Hc|apply IH].
  - apply Z.ltb_ge in Hc. destruct (DecodeRune c (to_string rest)) as [r w] eqn:Ed. destruct ((r =? RuneError)%Z && (w =? 1)) eqn:Ebad.
    + apply andb_prop in Ebad as [E1%Z.eqb_eq E2%Nat.eqb_eq]. subst r w. constructor; [|apply IH]. apply (stands_escape4 "f" "f" "f" "d"); reflexivity.
    + pose proof (decode_seq c rest r w Hc Ed Ebad) as Hs. destruct (lines && ((r =? 8232) || (r =? 8233))%Z) eqn:El.
      * apply andb_prop in El as [_ El]. apply orb_prop in El as [El%Z.eqb_eq|El%Z.eqb_eq]; subst r.
        -- change (bs "\u202" ++ hexDigit (8232 mod 16) :: escape lines fuel (drop w (c :: rest))) with ((backslash :: "u"%char :: ["2"; "0"; "2"; "8"]%char) ++ escape lines fuel (drop w (c :: rest))).
           constructor; [apply (stands_escape4 "2" "0" "2" "8"); reflexivity|apply IH].
        -- change (bs "\u202" ++ hexDigit (8233 mod 16) :: escape lines fuel (drop w (c :: rest))) with ((backslash :: "u"%char :: ["2"; "0"; "2"; "9"]%char) ++ escape lines fuel (drop w (c :: rest))).
           constructor; [apply (stands_escape4 "2" "0" "2" "9"); reflexivity|apply IH].
      * constructor; [apply stands_seq; assumption|apply IH].
Qed.

Lemma units_token (e u r : bytes) : Units e u -> string_token (e ++ quote :: r) = Some (e, r).
Proof. induction 1 as [|p x e u (_ & Ht & _) _ IH]; [reflexivity|]. rewrite <- app_assoc, Ht, IH. reflexivity. Qed.

Lemma units_unquote (e u : bytes) : Units e u -> forall g, List.length e <= g -> unquote g e = u.
Proof.
  induction 1 as [|p x e u (Hne & _ & Hu) _ IH]; intros g Hg; [destruct g; reflexivity|]. rewrite length_app in Hg.
  destruct p as [|c p]; [contradiction|]. destruct g as [|g]; [cbn in Hg; lia|]. rewrite Hu, IH by (cbn in Hg; lia). reflexivity.
Qed.

(** The inside of a written string reads as the string, made valid. *)
Lemma quoted_reads (lines : bool) (s : string) : unquoted (escape lines (List.length (bs s)) (bs s)) = bs (valid s).
Proof.
  unfold unquoted, valid. rewrite (units_unquote _ _ (escape_units lines _ (bs s)) _ (Nat.le_refl _)). unfold bs, to_string.
  rewrite list_ascii_of_string_of_list_ascii. reflexivity.
Qed.

(** ** Integers *)

Definition digit_list (ds : bytes) : Prop := Forall (fun c => is_digit c = true) ds.

(** The digits of a number: its value, and no leading zero. *)
Definition digits_of (n : Z) (ds : bytes) : Prop :=
  digit_list ds /\ digits_value ds = n /\ exists c rest, ds = c :: rest /\ ((c = "0"%char /\ rest = []) \/ c <> "0"%char).

Lemma digits_value_snoc (ds : bytes) (c : ascii) : digits_value (ds ++ [c]) = (digits_value ds * 10 + digit_val c)%Z.
Proof. unfold digits_value. rewrite fold_left_app. reflexivity. Qed.

Lemma print_digits_of (fuel : nat) : forall n acc, (0 <= n < 10 ^ Z.of_nat fuel)%Z -> 0 < fuel ->
  exists ds, bs (print_digits fuel n acc) = ds ++ bs acc /\ digits_of n ds.
Proof.
  induction fuel as [|fuel IH]; intros n acc Hn Hf; [lia|]. cbn [print_digits].
  pose proof (Z.div_mod n 10 ltac:(lia)) as E. pose proof (Z.mod_pos_bound n 10 ltac:(lia)) as M. set (d := byte_of (48 + n mod 10)).
  assert (is_digit d = true) as Hd by (apply is_digit_byte_of; lia). assert (digit_val d = n mod 10)%Z as Hv by (apply digit_val_byte_of; lia).
  destruct (Z.eqb_spec (n / 10) 0) as [Q|Q].
  - exists [d]. split; [reflexivity|]. split; [repeat constructor; exact Hd|]. split; [cbn; rewrite Hv; lia|]. exists d, []. split; [reflexivity|].
    destruct (Ascii.eqb_spec d "0"%char) as [E0|N0]; auto.
  - assert (0 <= n / 10 < 10 ^ Z.of_nat fuel)%Z as B.
    { rewrite Nat2Z.inj_succ, Z.pow_succ_r in Hn by lia. split; [apply Z.div_pos; lia|apply Z.div_lt_upper_bound; lia]. }
    destruct (IH (n / 10)%Z (String d acc) B) as (ds & Eds & Hds & Hval & c & rest & -> & Hc); [destruct fuel; [cbn in B; lia|lia]|].
    exists ((c :: rest) ++ [d]). split; [rewrite Eds, <- app_assoc; reflexivity|]. split; [apply Forall_app; split; [exact Hds|repeat constructor; exact Hd]|].
    split; [rewrite digits_value_snoc, Hval, Hv; lia|]. exists c, (rest ++ [d]). split; [reflexivity|]. destruct Hc as [[-> ->]|Hc]; [|right; exact Hc].
    assert (digits_value ["0"%char] = 0%Z) as E0 by reflexivity. lia.
Qed.

Lemma FormatInt_digits (n : Z) : (0 <= n <= max64)%Z -> digits_of n (bs (FormatInt n)).
Proof.
  intros H. unfold FormatInt. rewrite (proj2 (Z.ltb_ge n 0)) by lia.
  destruct (print_digits_of 20 n EmptyString) as (ds & E & Hd); [unfold_int; cbn; lia|lia|]. rewrite E. unfold bs. cbn. rewrite app_nil_r. exact Hd.
Qed.

(** What may follow a number: a comma, a closing bracket or the end. *)
Definition stop (r : bytes) : bool := match r with [] => true | c :: _ => existsb (Ascii.eqb c) ["," ; "]"; "}"]%char end.

Lemma digits_app (ds r : bytes) : digit_list ds -> match r with c :: _ => is_digit c = false | [] => True end -> digits (ds ++ r) = (ds, r).
Proof.
  intros H Hr. induction H as [|c ds Hc _ IH]; cbn [app digits]; [destruct r as [|c r]; [reflexivity|cbn; rewrite Hr; reflexivity]|].
  rewrite Hc, IH. reflexivity.
Qed.

Lemma stop_cases (r : bytes) : stop r = true -> r = [] \/ (exists r', r = ","%char :: r') \/ (exists r', r = "]"%char :: r') \/ (exists r', r = "}"%char :: r').
Proof.
  destruct r as [|c r]; [auto|]. cbn. rewrite orb_false_r. intros H. right.
  repeat (apply orb_prop in H as [H|H]); apply Ascii.eqb_eq in H; subst; eauto.
Qed.

Lemma digit_char (c d : ascii) : is_digit c = true -> is_digit d = false -> Ascii.eqb c d = false.
Proof. intros H H'. destruct (Ascii.eqb_spec c d); congruence. Qed.

Lemma integer_reads (n : Z) (ds r : bytes) : digits_of n ds -> stop r = true ->
  number_token (ds ++ r) = Some (ds, r) /\ number_parts ds = Some (false, n, 0%Z).
Proof.
  intros (Hd & Hv & c & rest & -> & Hc) Hr. pose proof (Forall_inv Hd) as Hc0. cbn beta in Hc0.
  assert (forall r, stop r = true -> integer_token ((c :: rest) ++ r) = Some (c :: rest, r)) as Hi.
  { intros r' Hr'. cbn [app integer_token]. destruct Hc as [[-> ->]|Hne]; [reflexivity|].
    destruct (Ascii.eqb_spec c "0"%char); [contradiction|]. unfold digits1. change (c :: rest ++ r') with ((c :: rest) ++ r').
    rewrite digits_app; [reflexivity|exact Hd|]. apply stop_cases in Hr' as [->|[[x ->]|[[x ->]|[x ->]]]]; (exact I || reflexivity). }
  assert (forall r, stop r = true -> fraction_token r = Some ([], r) /\ exponent_token r = Some ([], r)) as Hfe.
  { intros r' Hr'. apply stop_cases in Hr' as [->|[[x ->]|[[x ->]|[x ->]]]]; split; reflexivity. }
  destruct (Hfe r Hr) as [Ef Ee]. destruct (Hfe [] eq_refl) as [Ef0 Ee0]. split.
  - unfold number_token. cbn [app]. rewrite (digit_char c "-" Hc0) by reflexivity. change (c :: rest ++ r) with ((c :: rest) ++ r).
    rewrite Hi by exact Hr. cbn [mbind option_bind]. rewrite Ef. cbn [mbind option_bind]. rewrite Ee. cbn [mbind option_bind app]. rewrite !app_nil_r. reflexivity.
  - unfold number_parts. rewrite (digit_char c "-" Hc0) by reflexivity. pose proof (Hi [] eq_refl) as Hi0. rewrite app_nil_r in Hi0. rewrite Hi0.
    cbn [mbind option_bind]. rewrite Ef0. cbn [mbind option_bind]. rewrite Ee0. cbn [mbind option_bind drop]. rewrite app_nil_r, Hv. reflexivity.
Qed.

(** An integer below 2^53 is a [float64]. *)
Lemma digits2_iter (k p : positive) : digits2_pos (Pos.iter xO p k) = (digits2_pos p + k)%positive.
Proof.
  induction k as [|k IH] using Pos.peano_ind; [cbn; lia|]. rewrite Pos.iter_succ. cbn [digits2_pos]. rewrite IH. lia.
Qed.

Lemma iter_value (k p : positive) : Zpos (Pos.iter xO p k) = (Zpos p * 2 ^ Zpos k)%Z.
Proof.
  induction k as [|k IH] using Pos.peano_ind; [cbn; lia|]. rewrite Pos.iter_succ, Pos2Z.inj_succ, Z.pow_succ_r, Pos2Z.inj_xO, IH by lia. lia.
Qed.

Lemma digits2_bound (p : positive) : (2 ^ (Zpos (digits2_pos p) - 1) <= Zpos p)%Z.
Proof.
  induction p as [p IH|p IH|]; cbn [digits2_pos]; [| |cbn; lia].
  - rewrite Pos2Z.inj_succ. replace (Z.succ (Zpos (digits2_pos p)) - 1)%Z with (Z.succ (Zpos (digits2_pos p) - 1)) by lia.
    rewrite Z.pow_succ_r by lia. lia.
  - rewrite Pos2Z.inj_succ. replace (Z.succ (Zpos (digits2_pos p)) - 1)%Z with (Z.succ (Zpos (digits2_pos p) - 1)) by lia.
    rewrite Z.pow_succ_r by lia. lia.
Qed.

Lemma digits2_upper (p : positive) : (Zpos p < 2 ^ Zpos (digits2_pos p))%Z.
Proof. induction p as [p IH|p IH|]; cbn [digits2_pos]; [..|cbn; lia]; rewrite Pos2Z.inj_succ, Z.pow_succ_r by lia; lia. Qed.

Lemma round_53 (m : positive) (e : Z) : Zpos (digits2_pos m) = 53%Z -> (-1074 <= e <= 971)%Z -> binary_round_aux 53 1024 false (Zpos m) e loc_Exact = S754_finite false m e.
Proof.
  intros Hd He. assert (shr_fexp 53 1024 (Zpos m) e loc_Exact = (Build_shr_record (Zpos m) false false, e)) as Es.
  { unfold shr_fexp. cbn [Zdigits2 shr_record_of_loc]. rewrite Hd. replace (fexp 53 1024 (53 + e) - e)%Z with 0%Z by (unfold fexp, emin; lia). reflexivity. }
  unfold binary_round_aux. rewrite Es. cbn [shr_m loc_of_shr_record round_nearest_even]. rewrite Es. cbn [shr_m].
  rewrite (proj2 (Z.leb_le e (1024 - 53))) by lia. reflexivity.
Qed.

Lemma int_float (p : positive) : (Zpos p < 2 ^ 53)%Z -> exists m e, float64_of false (Zpos p) 0 = S754_finite false m e /\ float_trunc m e = Zpos p.
Proof.
  intros Hp. unfold float64_of. cbn [Z.leb Z.compare]. rewrite Z.pow_0_r, Z.mul_1_r. cbn [Z.to_pos]. unfold binary_round.
  pose proof (digits2_bound p) as Hb. set (d := digits2_pos p) in *.
  assert (Zpos d <= 53)%Z as Hd. { destruct (Z.le_gt_cases (Zpos d) 53) as [|Hgt]; [assumption|]. pose proof (Z.pow_le_mono_r 2 53 (Zpos d - 1) ltac:(lia) ltac:(lia)). lia. }
  replace (fexp 53 1024 (Zpos d + 0)) with (Zpos d - 53)%Z by (unfold fexp, emin; lia). unfold shl_align. rewrite Z.sub_0_r.
  destruct (Zpos d - 53)%Z as [|k|k] eqn:Ek; [|lia|].
  - rewrite round_53; [|fold d; lia|lia]. exists p, 0%Z. split; [reflexivity|]. unfold float_trunc. cbn. lia.
  - rewrite round_53; [|rewrite digits2_iter; fold d; lia|lia]. eexists _, _. split; [reflexivity|]. unfold float_trunc. cbn [Z.leb Z.compare Z.opp].
    rewrite iter_value. apply Z.div_mul. lia.
Qed.

(** Every integer of 64 bits has a finite nearest [float64]. *)
Lemma shr_1_range (x : shr_record) (b : Z) : (0 <= shr_m x <= b -> 0 <= shr_m (shr_1 x) <= b)%Z.
Proof. destruct x as [[|[p|p|]|[p|p|]] r s]; cbn; lia. Qed.

Lemma iter_range (p : positive) (b : Z) : forall x, (0 <= shr_m x <= b -> 0 <= shr_m (@SpecFloat.iter_pos shr_record shr_1 p x) <= b)%Z.
Proof. induction p as [p IH|p IH|]; intros x H; cbn [SpecFloat.iter_pos]; [apply IH, IH, shr_1_range, H|apply IH, IH, H|apply shr_1_range, H]. Qed.

Lemma digits2_le (p : positive) (k : Z) : (0 <= k -> Zpos p < 2 ^ k -> Zpos (digits2_pos p) <= k)%Z.
Proof.
  intros Hk Hp. pose proof (digits2_bound p). destruct (Z.le_gt_cases (Zpos (digits2_pos p)) k) as [|Hgt]; [assumption|].
  pose proof (Z.pow_le_mono_r 2 k (Zpos (digits2_pos p) - 1) ltac:(lia) ltac:(lia)). lia.
Qed.

Lemma shr_fexp_range (m e k : Z) : (0 <= m < 2 ^ k -> 0 <= k -> -1074 <= e ->
  0 <= shr_m (shr_fexp 53 1024 m e loc_Exact).1 <= m /\ e <= (shr_fexp 53 1024 m e loc_Exact).2 <= Z.max e (k + e - 53))%Z.
Proof.
  intros Hm Hk He. unfold shr_fexp. cbn [shr_record_of_loc]. assert (Zdigits2 m <= k)%Z as Hd by (destruct m as [|p|p]; cbn [Zdigits2]; [lia|apply digits2_le; lia|lia]).
  unfold shr. destruct (fexp 53 1024 (Zdigits2 m + e) - e)%Z as [|p|p] eqn:E; cbn [fst snd shr_m]; [lia| |lia].
  split; [apply iter_range; cbn; lia|]. assert (fexp 53 1024 (Zdigits2 m + e) = Z.max (Zdigits2 m + e - 53) (-1074))%Z as Ef by reflexivity. lia.
Qed.

Lemma int_finite (n : Z) : (0 <= n <= max64)%Z -> exists f, float64_of false n 0 = f /\ match f with S754_infinity _ | S754_nan => False | _ => True end.
Proof.
  intros Hn. eexists. split; [reflexivity|]. destruct n as [|p|p]; [exact I| |lia].
  destruct (Z.lt_ge_cases (Zpos p) (2 ^ 53)) as [H|H]; [destruct (int_float p H) as (m & e & -> & _); exact I|].
  assert (Zpos p < 2 ^ 63)%Z as H63 by (unfold_int; lia). unfold float64_of. cbn [Z.leb Z.compare]. rewrite Z.pow_0_r, Z.mul_1_r. cbn [Z.to_pos]. unfold binary_round.
  assert (54 <= Zpos (digits2_pos p))%Z as Hd.
  { destruct (Z.le_gt_cases 54 (Zpos (digits2_pos p))) as [|Hlt]; [assumption|]. pose proof (digits2_upper p). pose proof (Z.pow_le_mono_r 2 (Zpos (digits2_pos p)) 53 ltac:(lia) ltac:(lia)). lia. }
  unfold shl_align. replace (fexp 53 1024 (Zpos (digits2_pos p) + 0) - 0)%Z with (Zpos (digits2_pos p) - 53)%Z by (unfold fexp, emin; lia).
  destruct (Zpos (digits2_pos p) - 53)%Z as [|k|k] eqn:Ek; [lia| |lia]. unfold binary_round_aux.
  destruct (shr_fexp_range (Zpos p) 0 63 ltac:(lia) ltac:(lia) ltac:(lia)) as [R1 R2]. destruct (shr_fexp 53 1024 (Zpos p) 0 loc_Exact) as [x e1]. cbn [fst snd] in *.
  assert (0 <= round_nearest_even (shr_m x) (loc_of_shr_record x) <= Zpos p + 1)%Z as R3.
  { unfold round_nearest_even. destruct (loc_of_shr_record x) as [|[]]; [lia|destruct (Z.even (shr_m x)); lia|lia|lia]. }
  destruct (shr_fexp_range (round_nearest_even (shr_m x) (loc_of_shr_record x)) e1 64 ltac:(lia) ltac:(lia) ltac:(lia)) as [R4 R5].
  destruct (shr_fexp 53 1024 (round_nearest_even (shr_m x) (loc_of_shr_record x)) e1 loc_Exact) as [y e2]. cbn [fst snd] in *.
  destruct (shr_m y) as [|m|m]; [exact I| |lia]. rewrite (proj2 (Z.leb_le e2 (1024 - 53))) by lia. exact I.
Qed.

(** ** Values *)

Fixpoint any_ind' (P : any -> Prop) (Hn : P ANil) (Hb : forall b, P (ABool b)) (Hf : forall f, P (ANum f)) (Hi : forall n, P (AInt n)) (Hs : forall s, P (AStr s))
    (Ha : forall l, Forall P l -> P (AArr l)) (Ho : forall m, Forall (fun kv => P kv.2) m -> P (AObj m)) (v : any) : P v :=
  match v with
  | ANil => Hn | ABool b => Hb b | ANum f => Hf f | AInt n => Hi n | AStr s => Hs s
  | AArr l => Ha l ((fix go l := match l return Forall P l with
      | [] => List.Forall_nil _ | v :: l => List.Forall_cons _ _ _ (any_ind' P Hn Hb Hf Hi Hs Ha Ho v) (go l) end) l)
  | AObj m => Ho m ((fix go m := match m return Forall (fun kv : string * any => P kv.2) m with
      | [] => List.Forall_nil _ | (k, v) :: m => List.Forall_cons _ (k, v) _ (any_ind' P Hn Hb Hf Hi Hs Ha Ho v) (go m) end) m)
  end.

(** Members in the order of their keys, with [f] applied to the values. *)
Definition by_key {A : Type} (f : any -> A) : gomap -> list (string * A) :=
  fix go m := match m with [] => [] | (k, v) :: m => insert_key k (f v) (go m) end.

Definition sorted_members : gomap -> gomap := by_key (fun v => v).

Lemma insert_map {A B : Type} (f : A -> B) (k : string) (a : A) (l : list (string * A)) :
  insert_key k (f a) (map (fun kv => (kv.1, f kv.2)) l) = map (fun kv => (kv.1, f kv.2)) (insert_key k a l).
Proof. induction l as [|[k' a'] l IH]; cbn; [reflexivity|]. destruct (String.ltb k' k); cbn; [rewrite IH|]; reflexivity. Qed.

Lemma by_key_map {A : Type} (f : any -> A) (m : gomap) : by_key f m = map (fun kv => (kv.1, f kv.2)) (sorted_members m).
Proof.
  unfold sorted_members. induction m as [|[k v] m IH]; [reflexivity|]. change (by_key f ((k, v) :: m)) with (insert_key k (f v) (by_key f m)).
  rewrite IH, insert_map. reflexivity.
Qed.

(** What a written value reads as. *)
Fixpoint reread (v : any) : any :=
  match v with
  | AInt n => ANum (float64_of false n 0)
  | AStr s => AStr (valid s)
  | AArr l => AArr (map reread l)
  | AObj m => AObj (by_key reread m)
  | v => v
  end.

Definition esc (s : string) : bytes := escape true (List.length (bs s)) (bs s).

Lemma esc_token (s : string) (r : bytes) : string_token (esc s ++ quote :: r) = Some (esc s, r).
Proof. exact (units_token _ _ r (escape_units true _ (bs s))). Qed.

Section Reading.
Context (format_float : spec_float -> bytes).

(** The text of a [float64] reads as the [float64]: what [strconv] promises. *)
Definition float_reads (f : spec_float) : Prop := convertNumber (format_float f) = Some f /\
  (exists c rest, format_float f = c :: rest /\ num_char c = true) /\
  forall r, stop r = true -> number_token (format_float f ++ r) = Some (format_float f, r).

(** Values the converters write: nesting below the reader's limit, integers of 64
    bits, one member per key. *)
Inductive Writable : nat -> any -> Prop :=
| W_nil d : Writable d ANil
| W_bool d b : Writable d (ABool b)
| W_num d f : float_reads f -> Writable d (ANum f)
| W_int d n : (0 <= n <= max64)%Z -> Writable d (AInt n)
| W_str d s : Writable d (AStr s)
| W_arr d l : Forall (Writable d) l -> Writable (S d) (AArr l)
| W_obj d m : NoDup (map fst m) -> Forall (fun kv => valid kv.1 = kv.1) m -> Forall (fun kv => Writable d kv.2) m -> Writable (S d) (AObj m).

Fixpoint json_of (v : any) : json :=
  match v with
  | ANil => JNull
  | ABool b => if b then JTrue else JFalse
  | ANum f => JNum (format_float f)
  | AInt n => JNum (bs (FormatInt n))
  | AStr s => JStr (esc s)
  | AArr l => JArr (map json_of l)
  | AObj m => JObj (map (fun kj => (esc kj.1, kj.2)) (by_key json_of m))
  end.

Definition reads (d : nat) (v : any) : Prop := exists N, forall fuel depth r, N <= fuel -> stop r = true ->
  (depth + Z.of_nat d <= maxNestingDepth)%Z -> parse_value fuel depth (Marshal format_float v ++ r) = Some (json_of v, r).

Lemma marshal_obj (m : gomap) : Marshal format_float (AObj m) = "{"%char :: commas (map (fun kv => quoted_string true kv.1 ++ ":"%char :: Marshal format_float kv.2) (sorted_members m)) ++ ["}"%char].
Proof.
  change (Marshal format_float (AObj m)) with ("{"%char :: commas (map (fun kt => quoted_string true kt.1 ++ ":"%char :: kt.2) (by_key (Marshal format_float) m)) ++ ["}"%char]).
  rewrite by_key_map, map_map. reflexivity.
Qed.

Lemma json_of_obj (m : gomap) : json_of (AObj m) = JObj (map (fun kv => (esc kv.1, json_of kv.2)) (sorted_members m)).
Proof. cbn [json_of]. rewrite by_key_map, map_map. reflexivity. Qed.

Lemma reads_string (s : string) (fuel : nat) (depth : Z) (r : bytes) : parse_value (S fuel) depth (quoted_string true s ++ r) = Some (JStr (esc s), r).
Proof.
  change (quoted_string true s ++ r) with (quote :: (esc s ++ [quote]) ++ r). rewrite <- app_assoc. cbn [app].
  change (parse_value (S fuel) depth (quote :: esc s ++ quote :: r)) with ('(x, r) ← string_token (esc s ++ quote :: r); Some (JStr x, r)).
  rewrite esc_token. reflexivity.
Qed.

(** A written value begins with no white space and with none of the marks that end a list. *)
Lemma marshal_head (d : nat) (v : any) : Writable d v -> exists c t, Marshal format_float v = c :: t /\ isWS c = false /\ c <> "]"%char.
Proof.
  destruct 1 as [d|d []|d f (_ & (c & t & E & Hc) & _)|d n Hn|d s|d l _|d m _ _ _]; try (eexists _, _; split; [reflexivity|]; split; [reflexivity|discriminate]).
  - exists c, t. split; [exact E|]. split; [|intros ->; discriminate]. destruct (isWS c) eqn:W; [|reflexivity]. exfalso.
    unfold num_char in Hc. destruct c as [[] [] [] [] [] [] [] []]; vm_compute in W, Hc; discriminate.
  - destruct (FormatInt_digits n Hn) as (Hd & _ & c & t & E & _). exists c, t. cbn [Marshal]. split; [exact E|]. rewrite E in Hd. apply Forall_inv in Hd.
    cbn beta in Hd. split; [|intros ->; discriminate]. destruct (isWS c) eqn:W; [|reflexivity]. exfalso.
    destruct c as [[] [] [] [] [] [] [] []]; vm_compute in W, Hd; discriminate.
Qed.

Lemma skip_head (c : ascii) (t : bytes) : isWS c = false -> skip_ws (c :: t) = c :: t.
Proof. intros H. cbn. rewrite H. reflexivity. Qed.

Definition item_reads (d : nat) (v : any) : Prop := Writable d v /\ reads d v.

Lemma reads_items (d : nat) (l : list any) : l <> [] -> Forall (item_reads d) l -> exists N, forall fuel depth r, N <= fuel ->
  (depth + Z.of_nat d <= maxNestingDepth)%Z -> parse_items fuel depth (commas (map (Marshal format_float) l) ++ "]"%char :: r) = Some (map json_of l, r).
Proof.
  induction l as [|v l IH]; intros Hne H; [contradiction|]. apply Forall_cons in H as [[_ (N & Hv)] H]. destruct l as [|v' l].
  - exists (S N). intros fuel depth r Hf Hd. destruct fuel as [|fuel]; [lia|]. cbn [map commas parse_items].
    rewrite Hv by (try exact Hd; (reflexivity || lia)). reflexivity.
  - destruct (IH ltac:(discriminate) H) as (N' & Hl). exists (S (max N N')). intros fuel depth r Hf Hd. destruct fuel as [|fuel]; [lia|].
    rewrite !map_cons, commas_cons by discriminate. rewrite <- map_cons. rewrite <- app_assoc. cbn [app parse_items].
    rewrite Hv by (try exact Hd; (reflexivity || lia)). cbn [mbind option_bind]. rewrite skip_head by reflexivity. cbn [Ascii.eqb Bool.eqb].
    rewrite Hl by (try exact Hd; lia). reflexivity.
Qed.

(** One member: its key, the colon, its value. *)
Definition member_text (kv : string * any) : bytes := quoted_string true kv.1 ++ ":"%char :: Marshal format_float kv.2.

Lemma reads_member (d : nat) (k : string) (v : any) : reads d v -> exists N, forall fuel depth r, N <= fuel -> stop r = true ->
  (depth + Z.of_nat d <= maxNestingDepth)%Z -> parse_members (S fuel) depth (member_text (k, v) ++ r) =
    match skip_ws r with
    | c :: r => if Ascii.eqb c "," then '(l, r) ← parse_members fuel depth r; Some ((esc k, json_of v) :: l, r)
                else if Ascii.eqb c "}" then Some ([(esc k, json_of v)], r) else None
    | [] => None
    end.
Proof.
  intros (N & Hv). exists N. intros fuel depth r Hf Hr Hd. unfold member_text. cbn [fst snd].
  change (quoted_string true k) with (quote :: esc k ++ [quote]). cbn [app]. rewrite <- !app_assoc. cbn [app parse_members].
  rewrite skip_head by reflexivity. rewrite Ascii.eqb_refl, esc_token. cbn [mbind option_bind]. rewrite skip_head by reflexivity.
  rewrite Ascii.eqb_refl, Hv by assumption. reflexivity.
Qed.

Lemma reads_members (d : nat) (m : gomap) : m <> [] -> Forall (fun kv => reads d kv.2) m -> exists N, forall fuel depth r, N <= fuel ->
  (depth + Z.of_nat d <= maxNestingDepth)%Z ->
  parse_members fuel depth (commas (map member_text m) ++ "}"%char :: r) = Some (map (fun kv => (esc kv.1, json_of kv.2)) m, r).
Proof.
  induction m as [|[k v] m IH]; intros Hne H; [contradiction|]. apply Forall_cons in H as [Hv H]. destruct (reads_member d k v Hv) as (N & Hm). destruct m as [|kv m].
  - exists (S N). intros fuel depth r Hf Hd. destruct fuel as [|fuel]; [lia|]. cbn [map commas].
    rewrite Hm by (try exact Hd; (reflexivity || lia)). reflexivity.
  - destruct (IH ltac:(discriminate) H) as (N' & Hl). exists (S (max N N')). intros fuel depth r Hf Hd. destruct fuel as [|fuel]; [lia|].
    rewrite !map_cons, commas_cons by discriminate. rewrite <- map_cons, <- app_assoc. cbn [app].
    rewrite Hm by (try exact Hd; (reflexivity || lia)). rewrite skip_head by reflexivity. rewrite Ascii.eqb_refl, Hl by (try exact Hd; lia). reflexivity.
Qed.

Lemma insert_perm {A : Type} (k : string) (a : A) (l : list (string * A)) : insert_key k a l ≡ₚ (k, a) :: l.
Proof. induction l as [|[k' a'] l IH]; cbn; [reflexivity|]. destruct (String.ltb k' k); [rewrite IH; apply Permutation_swap|reflexivity]. Qed.

Lemma sorted_perm (m : gomap) : sorted_members m ≡ₚ m.
Proof. unfold sorted_members. induction m as [|[k v] m IH]; [reflexivity|]. cbn. rewrite insert_perm. constructor. exact IH. Qed.

Lemma num_ne (c x : ascii) : num_char c = true -> num_char x = false -> Ascii.eqb c x = false.
Proof. intros H H'. destruct (Ascii.eqb_spec c x); congruence. Qed.

Lemma num_not_ws (c : ascii) : num_char c = true -> isWS c = false.
Proof. destruct (isWS c) eqn:W; [|reflexivity]. intros H. destruct c as [[] [] [] [] [] [] [] []]; vm_compute in W, H; discriminate. Qed.

Lemma reads_number (t r : bytes) (c : ascii) (rest : bytes) (fuel : nat) (depth : Z) : t = c :: rest -> num_char c = true ->
  number_token (t ++ r) = Some (t, r) -> parse_value (S fuel) depth (t ++ r) = Some (JNum t, r).
Proof.
  intros -> Hc Ht. cbn [app parse_value]. rewrite skip_head by exact (num_not_ws c Hc).
  rewrite !(fun x => num_ne c x Hc) by reflexivity. cbn [app] in Ht. rewrite Ht. reflexivity.
Qed.

Lemma digit_num (c : ascii) : is_digit c = true -> num_char c = true.
Proof. intros H. unfold num_char. rewrite H. reflexivity. Qed.

Lemma int_reads (n : Z) (d : nat) : (0 <= n <= max64)%Z -> reads d (AInt n).
Proof.
  intros Hn. pose proof (FormatInt_digits n Hn) as Hd. exists 1. intros fuel depth r Hf Hr _. destruct fuel as [|fuel]; [lia|].
  destruct Hd as (Hl & Hv & c & rest & E & Hc). cbn [Marshal json_of].
  apply (reads_number _ _ c rest); [exact E|apply digit_num; rewrite E in Hl; exact (Forall_inv Hl)|].
  exact (proj1 (integer_reads n (bs (FormatInt n)) r (FormatInt_digits n Hn) Hr)).
Qed.

Lemma arr_reads (d : nat) (l : list any) : Forall (item_reads d) l -> reads (S d) (AArr l).
Proof.
  intros H. destruct l as [|v l].
  - exists 1. intros fuel depth r Hf _ Hd. destruct fuel as [|fuel]; [lia|]. cbn [Marshal map commas app parse_value].
    rewrite skip_head by reflexivity. cbn [Ascii.eqb Bool.eqb quote]. rewrite (proj2 (Z.leb_gt maxNestingDepth depth)) by lia.
    rewrite skip_head by reflexivity. reflexivity.
  - destruct (reads_items d (v :: l) ltac:(discriminate) H) as (N & Hl). apply Forall_cons in H as [[Hw _] _].
    destruct (marshal_head d v Hw) as (c & t & E & Hws & Hne). exists (S N). intros fuel depth r Hf _ Hd. destruct fuel as [|fuel]; [lia|].
    cbn [Marshal]. rewrite <- app_comm_cons, <- app_assoc. cbn [app parse_value]. rewrite skip_head by reflexivity. cbn [Ascii.eqb Bool.eqb quote].
    rewrite (proj2 (Z.leb_gt maxNestingDepth depth)) by lia.
    assert (exists t', commas (map (Marshal format_float) (v :: l)) ++ "]"%char :: r = c :: t') as [t' Et].
    { cbn [map]. destruct (map (Marshal format_float) l) as [|x xs]; cbn [commas]; rewrite E; eexists; reflexivity. }
    rewrite Et at 1. rewrite skip_head by exact Hws. destruct (Ascii.eqb_spec c "]"%char); [contradiction|].
    rewrite Hl by lia. reflexivity.
Qed.

Lemma obj_reads (d : nat) (m : gomap) : Forall (fun kv => reads d kv.2) m -> reads (S d) (AObj m).
Proof.
  intros H. unfold reads. rewrite json_of_obj, marshal_obj. fold member_text.
  assert (Forall (fun kv => reads d kv.2) (sorted_members m)) as Hs by (rewrite sorted_perm; exact H).
  destruct (sorted_members m) as [|[k v] l].
  - exists 1. intros fuel depth r Hf _ Hd. destruct fuel as [|fuel]; [lia|]. cbn [map commas app parse_value].
    rewrite skip_head by reflexivity. cbn [Ascii.eqb Bool.eqb quote]. rewrite (proj2 (Z.leb_gt maxNestingDepth depth)) by lia.
    rewrite skip_head by reflexivity. reflexivity.
  - destruct (reads_members d ((k, v) :: l) ltac:(discriminate) Hs) as (N & Hl). exists (S N). intros fuel depth r Hf _ Hd. destruct fuel as [|fuel]; [lia|].
    rewrite <- app_comm_cons, <- app_assoc. cbn [app parse_value]. rewrite skip_head by reflexivity. cbn [Ascii.eqb Bool.eqb quote].
    rewrite (proj2 (Z.leb_gt maxNestingDepth depth)) by lia.
    assert (exists t', commas (map member_text ((k, v) :: l)) ++ "}"%char :: r = quote :: t') as [t' Et].
    { cbn [map]. destruct (map member_text l) as [|x xs]; cbn [commas]; eexists; reflexivity. }
    match goal with |- context [skip_ws ?b] => change b with (commas (map member_text ((k, v) :: l)) ++ "}"%char :: r) end.
    rewrite Et at 1. rewrite skip_head by reflexivity. cbn [Ascii.eqb Bool.eqb quote].
    match goal with |- context [parse_members ?f ?d ?b] => change b with (commas (map member_text ((k, v) :: l)) ++ "}"%char :: r) end.
    rewrite Hl by lia. reflexivity.
Qed.

Lemma writable_reads (v : any) : forall d, Writable d v -> reads d v.
Proof.
  induction v as [| | | | |l IH|m IH] using any_ind'; intros d H.
  - exists 1. intros [|fuel] depth r Hf _ _; [lia|reflexivity].
  - exists 1. intros [|fuel] depth r Hf _ _; [lia|destruct b; reflexivity].
  - inversion H as [| |? ? (_ & (c & t & E & Hc) & Ht)| | | |]; subst. exists 1. intros [|fuel] depth r Hf Hr _; [lia|].
    exact (reads_number _ r c t fuel depth E Hc (Ht r Hr)).
  - inversion H; subst. apply int_reads. assumption.
  - exists 1. intros [|fuel] depth r Hf _ _; [lia|]. apply reads_string.
  - inversion H as [| | | | |d' ? Hl|]; subst. apply arr_reads. rewrite Forall_forall in *. intros v Hv. split; [auto|]. apply IH; auto.
  - inversion H as [| | | | | |d' ? _ _ Hm]; subst. apply obj_reads. rewrite Forall_forall in *. intros kv Hkv. apply IH; auto.
Qed.

(** ** Reading the document *)

Lemma mset_new (k : string) (v : any) (m : gomap) : k ∉ map fst m -> mset k v m = m ++ [(k, v)].
Proof.
  induction m as [|[k' v'] m IH]; intros H; [reflexivity|]. cbn. destruct (String.eqb_spec k k') as [->|]; [destruct H; left|].
  rewrite IH; [reflexivity|]. intros Hk. apply H. right. exact Hk.
Qed.

Lemma key_reads (k : string) : valid k = k -> to_string (unquoted (esc k)) = k.
Proof. intros H. unfold esc. rewrite quoted_reads, H. apply string_of_list_ascii_of_string. Qed.

Definition to_members : gomap -> list (bytes * json) -> option gomap :=
  fix members (m : gomap) (l : list (bytes * json)) : option gomap :=
    match l with [] => Some m | (k, j) :: l => v ← to_any j; members (mset (to_string (unquoted k)) v m) l end.

Lemma to_members_ok (l : gomap) : forall m, NoDup (map fst (m ++ l)) -> Forall (fun kv => valid kv.1 = kv.1 /\ to_any (json_of kv.2) = Some (reread kv.2)) l ->
  to_members m (map (fun kv => (esc kv.1, json_of kv.2)) l) = Some (m ++ map (fun kv => (kv.1, reread kv.2)) l).
Proof.
  induction l as [|[k v] l IH]; intros m Hnd H; [cbn; rewrite app_nil_r; reflexivity|]. apply Forall_cons in H as [[Hk Hv] H].
  cbn [map to_members fst snd] in *. rewrite Hv. cbn [mbind option_bind]. rewrite key_reads by exact Hk. rewrite map_app in Hnd. cbn [map fst] in Hnd.
  rewrite mset_new by (apply NoDup_app in Hnd as (_ & Hx & _); intros Hin; apply (Hx k Hin); left).
  fold to_members. rewrite IH; [rewrite <- app_assoc; reflexivity| |exact H]. rewrite !map_app, <- app_assoc. exact Hnd.
Qed.

Lemma int_to_any (n : Z) : (0 <= n <= max64)%Z -> to_any (JNum (bs (FormatInt n))) = Some (ANum (float64_of false n 0)).
Proof.
  intros Hn. cbn [to_any]. unfold convertNumber. rewrite (proj2 (integer_reads n _ [] (FormatInt_digits n Hn) eq_refl)).
  cbn [mbind option_bind]. destruct (int_finite n Hn) as (f & -> & Hf). destruct f; (reflexivity || destruct Hf).
Qed.

Lemma reread_ok (v : any) : forall d, Writable d v -> to_any (json_of v) = Some (reread v).
Proof.
  induction v as [| | | | |l IH|m IH] using any_ind'; intros d H.
  - reflexivity.
  - destruct b; reflexivity.
  - inversion H as [| |? ? (Hf & _)| | | |]; subst. cbn [json_of to_any]. rewrite Hf. reflexivity.
  - inversion H; subst. apply int_to_any. assumption.
  - cbn [json_of to_any reread]. unfold esc. rewrite quoted_reads. unfold to_string, bs. rewrite string_of_list_ascii_of_string. reflexivity.
  - inversion H as [| | | | |d' ? Hl|]; subst. cbn [json_of to_any reread].
    set (items := fix items (l : list json) : option (list any) := match l with [] => Some [] | j :: l => v ← to_any j; vs ← items l; Some (v :: vs) end).
    assert (items (map json_of l) = Some (map reread l)) as ->; [|reflexivity]. clear H.
    induction l as [|v l IHl]; [reflexivity|]. apply Forall_cons in IH as [Hv IH], Hl as [Hw Hl]. cbn [map items]. rewrite (Hv d' Hw). cbn [mbind option_bind].
    fold items. rewrite IHl by assumption. reflexivity.
  - inversion H as [| | | | | |d' ? Hnd Hk Hm]; subst. rewrite json_of_obj. change (AObj <$> to_members [] (map (fun kv => (esc kv.1, json_of kv.2)) (sorted_members m)) = Some (reread (AObj m))).
    rewrite to_members_ok; [cbn [reread fmap option_fmap option_map app]; rewrite by_key_map; reflexivity|cbn [app]; rewrite (sorted_perm m); exact Hnd|].
    rewrite (sorted_perm m). rewrite Forall_forall in *. intros kv Hkv. split; [exact (Hk kv Hkv)|]. exact (IH kv Hkv d' (Hm kv Hkv)).
Qed.

Theorem marshal_unmarshal (v : any) (d : nat) : Writable d v -> (Z.of_nat d <= maxNestingDepth)%Z -> Unmarshal (Marshal format_float v) = Some (reread v).
Proof.
  intros Hw Hd. destruct (writable_reads v d Hw) as (N & HN). set (t := Marshal format_float v) in *.
  pose proof (HN (max N (2 * List.length t + 1)) 0%Z [] ltac:(lia) eq_refl ltac:(lia)) as Hp. rewrite app_nil_r in Hp.
  rewrite (decode_fuel _ t) in Hp by lia. unfold Unmarshal, decode. rewrite Hp. cbn [mbind option_bind skip_ws]. exact (reread_ok v d Hw).
Qed.
End Reading.

(** ** Accessors of a value that was written and read *)

Lemma get_elem (m : gomap) (k : string) (v : any) : NoDup (map fst m) -> get m k = Some v <-> (k, v) ∈ m.
Proof.
  induction m as [|[k' v'] m IH]; cbn [map fst get]; intros Hnd; [split; [discriminate|intros H; inversion H]|]. apply NoDup_cons in Hnd as [Hn Hnd].
  rewrite elem_of_cons. destruct (String.eqb_spec k k') as [->|Hne].
  - split; [intros [= <-]; auto|]. intros [[= <-]|Hin]; [reflexivity|]. destruct Hn. apply list_elem_of_In in Hin. apply list_elem_of_In, in_map_iff. exists (k', v). auto.
  - rewrite IH by exact Hnd. split; [auto|]. intros [[= <- _]|Hin]; [contradiction|exact Hin].
Qed.

Lemma get_perm (m m' : gomap) (k : string) : NoDup (map fst m) -> m ≡ₚ m' -> get m' k = get m k.
Proof.
  intros Hnd Hp. assert (NoDup (map fst m')) as Hnd' by (rewrite <- Hp; exact Hnd).
  destruct (get m k) as [v|] eqn:E; [apply get_elem in E; [|exact Hnd]; apply get_elem; [exact Hnd'|rewrite <- Hp; exact E]|].
  destruct (get m' k) as [v|] eqn:E'; [|reflexivity]. apply get_elem in E'; [|exact Hnd']. rewrite <- Hp in E'. apply get_elem in E'; [congruence|exact Hnd].
Qed.

Lemma get_map (f : any -> any) (m : gomap) (k : string) : get (map (fun kv => (kv.1, f kv.2)) m) k = f <$> get m k.
Proof. induction m as [|[k' v'] m IH]; [reflexivity|]. cbn. destruct (String.eqb k k'); [reflexivity|exact IH]. Qed.

Lemma get_reread (m : gomap) (k : string) : NoDup (map fst m) -> get (by_key reread m) k = reread <$> get m k.
Proof. intros H. rewrite by_key_map, get_map, (get_perm m (sorted_members m) k H) by (symmetry; apply sorted_perm). reflexivity. Qed.

Lemma str_reread (m : gomap) (k : string) : NoDup (map fst m) -> str (by_key reread m) k = valid <$> str m k.
Proof. intros H. unfold str. rewrite get_reread by exact H. destruct (get m k) as [[]|]; reflexivity. Qed.

Lemma obj_reread (m : gomap) (k : string) : NoDup (map fst m) -> obj (by_key reread m) k = by_key reread <$> obj m k.
Proof. intros H. unfold obj. rewrite get_reread by exact H. destruct (get m k) as [[]|]; reflexivity. Qed.

Lemma int_reread (m : gomap) (k : string) (n : Z) : NoDup (map fst m) -> get m k = Some (AInt n) -> (0 <= n < 2 ^ 53)%Z -> intOr0 (by_key reread m) k = n.
Proof.
  intros H E Hn. unfold intOr0, num. rewrite get_reread, E by exact H. cbn [fmap option_fmap option_map reread]. destruct n as [|p|p]; [reflexivity| |lia].
  destruct (int_float p) as (x & e & -> & Ht); [lia|]. cbv zeta. rewrite Ht, (proj2 (Z.leb_gt (2 ^ 63) (Zpos p))) by lia. reflexivity.
Qed.

(** ** What the converters rely on *)

(** The keys of a literal object: distinct, and valid texts. *)
Ltac keys := first [apply NoDup_singleton | apply NoDup_nil_2 | apply (bool_decide_eq_true_1 _); vm_compute; reflexivity].
Ltac lits := repeat (apply List.Forall_cons; [vm_compute; reflexivity|]); apply List.Forall_nil.

(** A value the converters write as JSON text is the value they read back from
    it, with numbers as decoded numbers and strings made valid UTF-8. *)
Theorem tool_arguments_roundtrip (format_float : spec_float -> bytes) (v : any) (d : nat) : Writable format_float d v -> (Z.of_nat d <= maxNestingDepth)%Z ->
  parseJSON (Some (AStr (marshalAny format_float v))) = reread v.
Proof.
  intros Hw Hd. cbn [parseJSON]. unfold marshalAny. pose proof (marshal_unmarshal format_float v d Hw Hd) as Hu.
  destruct (marshal_head format_float d v Hw) as (c & t & E & _). destruct (String.eqb_spec (to_string (Marshal format_float v)) "") as [E0|_].
  { rewrite E in E0. discriminate. }
  unfold bs, to_string. rewrite list_ascii_of_string_of_list_ascii, Hu. reflexivity.
Qed.

Theorem appendJSONString_reads (s : string) (out rest : bytes) : exists body, appendJSONString out s ++ rest = out ++ quote :: body ++ quote :: rest /\
  string_token (body ++ quote :: rest) = Some (body, rest) /\ to_string (unquoted body) = valid s.
Proof.
  exists (escape false (List.length (bs s)) (bs s)). split; [|split].
  - unfold appendJSONString, quoted_string. rewrite <- !app_assoc. cbn [app]. rewrite <- app_assoc. reflexivity.
  - exact (units_token _ _ rest (escape_units false _ (bs s))).
  - rewrite quoted_reads. apply string_of_list_ascii_of_string.
Qed.

(** The comment on [appendJSONString] says it writes what [json.Marshal] writes,
    byte for byte; the line separators differ. *)
Theorem line_separator_not_escaped : let s := EncodeRune 8232 in
  appendJSONString [] s <> Marshal no_float (AStr s) /\ Marshal no_float (AStr s) = jt "'\u2028'" /\ valid s = s.
Proof. split; [intros H; vm_compute in H; discriminate|split; vm_compute; reflexivity]. Qed.

(** A tool input: nested, with an ill-formed byte, an integer and a float whose
    text is given. *)
Definition half : spec_float := S754_finite false 4503599627370496 (-53).
Definition half_text (f : spec_float) : bytes := bs "0.5".

Definition demo_input : any := AObj [("q", AArr [AStr (to_string [byte_of 255; "<"%char]); ANum half; ANil]); ("n", AInt 7)]%string.

Lemma half_reads : float_reads half_text half.
Proof.
  split; [vm_compute; reflexivity|]. split; [exists "0"%char, (bs ".5"); split; reflexivity|].
  intros r Hr. apply stop_cases in Hr as [->|[[x ->]|[[x ->]|[x ->]]]]; reflexivity.
Qed.

Lemma tool_arguments_roundtrip_witness : Writable half_text 2 demo_input /\
  parseJSON (Some (AStr (marshalAny half_text demo_input))) = reread demo_input.
Proof.
  assert (Writable half_text 2 demo_input) as H.
  { apply W_obj; [apply NoDup_cons; split; [intros H; repeat (apply elem_of_cons in H as [H|H]; [discriminate|]); inversion H|apply NoDup_singleton]| |].
    - repeat constructor; vm_compute; reflexivity.
    - apply List.Forall_cons; [|apply List.Forall_cons; [|apply List.Forall_nil]].
      + apply W_arr. apply List.Forall_cons; [apply W_str|]. apply List.Forall_cons; [apply W_num, half_reads|]. apply List.Forall_cons; [apply W_nil|apply List.Forall_nil].
      + apply W_int. vm_compute. split; discriminate. }
  split; [exact H|]. apply (tool_arguments_roundtrip half_text demo_input 2 H). vm_compute. discriminate.
Defined.
