(* ===== verification/Utf8Text.v ===== *)
(** * Decoded strings are well-formed UTF-8

    [encoding/json] replaces ill-formed bytes and lone surrogates, so every string
    of a decoded value is unchanged by writing and reading it once more. *)

From Stdlib Require Import ZArith Lia List Bool String Ascii.
From Stdlib Require Import Floats.SpecFloat.
From stdpp Require Import base option list strings.
From S2P Require Import Prelude GoString JsonScan JsonText GoJson SseRelay ProtoJson MarshalText.
Import ListNotations.
Local Open Scope nat_scope.
Local Open Scope list_scope.

(** The text of a list of runes. *)
Definition text_of_runes (l : list Z) : bytes := flat_map (fun r => bs (EncodeRune r)) l.

(** [EncodeRune] writes U+FFFD for what is not a code point. *)
Definition norm (r : Z) : Z := (if (r <? 0) || (1114111 <? r) || ((55296 <=? r) && (r <=? 57343)) then RuneError else r)%Z.

Lemma norm_range (r : Z) : (0 <= norm r <= 1114111 /\ ~ 55296 <= norm r <= 57343)%Z.
Proof. unfold norm. destruct ((r <? 0) || (1114111 <? r) || ((55296 <=? r) && (r <=? 57343)))%Z eqn:E; [unfold RuneError; lia|]. lia. Qed.

Lemma norm_id (r : Z) : (0 <= r <= 1114111 -> ~ 55296 <= r <= 57343 -> norm r = r)%Z.
Proof. intros H H'. unfold norm. replace ((r <? 0) || (1114111 <? r) || ((55296 <=? r) && (r <=? 57343)))%Z with false by (symmetry; bcases; lia). reflexivity. Qed.

Lemma encode_norm (r : Z) : EncodeRune (norm r) = EncodeRune r.
Proof.
  pose proof (norm_range r) as [H H']. unfold EncodeRune at 1. fold (norm (norm r)). rewrite (norm_id (norm r) H H'). reflexivity.
Qed.

Lemma lead_two (b : Z) : (194 <= b <= 223)%Z -> lead b = Some (2, 128%Z, 191%Z).
Proof. intros H. unfold lead. replace ((194 <=? b) && (b <=? 223))%Z with true by (symmetry; bcases; lia). reflexivity. Qed.

Lemma lead_three (b : Z) : (224 <= b <= 239)%Z -> lead b = Some (3, (if b =? 224 then 160 else 128)%Z, (if b =? 237 then 159 else 191)%Z).
Proof.
  intros H. unfold lead. replace ((194 <=? b) && (b <=? 223))%Z with false by (symmetry; bcases; lia).
  destruct (Z.eqb_spec b 224) as [->|]; [reflexivity|]. destruct (Z.eqb_spec b 237) as [->|]; [reflexivity|].
  replace ((225 <=? b) && (b <=? 239))%Z with true by (symmetry; bcases; lia). reflexivity.
Qed.

Lemma lead_four (b : Z) : (240 <= b <= 244)%Z -> lead b = Some (4, (if b =? 240 then 144 else 128)%Z, (if b =? 244 then 143 else 191)%Z).
Proof.
  intros H. unfold lead. replace ((194 <=? b) && (b <=? 223))%Z with false by (symmetry; bcases; lia).
  rewrite (proj2 (Z.eqb_neq b 224)), (proj2 (Z.eqb_neq b 237)) by lia. replace ((225 <=? b) && (b <=? 239))%Z with false by (symmetry; bcases; lia).
  destruct (Z.eqb_spec b 240) as [->|]; [reflexivity|]. destruct (Z.eqb_spec b 244) as [->|]; [reflexivity|].
  replace ((241 <=? b) && (b <=? 243))%Z with true by (symmetry; bcases; lia). reflexivity.
Qed.

Lemma in_range_of (lo hi z : Z) : (0 <= z < 256 -> lo <= z <= hi -> in_range lo hi (byte_of z) = true)%Z.
Proof. intros H H'. unfold in_range. rewrite byte_val_of by lia. bcases; lia. Qed.

Lemma cont_of (z : Z) : (128 <= z <= 191 -> is_cont (byte_of z) = true)%Z.
Proof. intros H. apply in_range_of; lia. Qed.

Lemma low6_of (z : Z) : (128 <= z <= 191 -> low6 (byte_of z) = z - 128)%Z.
Proof. intros H. unfold low6. rewrite byte_val_of by lia. change 63%Z with (Z.ones 6). rewrite land_mod by lia. change (2 ^ 6)%Z with 64%Z. Z.to_euclidean_division_equations. lia. Qed.

(** What [EncodeRune] writes decodes to the rune, whatever follows. *)
Lemma decode_encode (r : Z) (t : bytes) : exists c rest, bs (EncodeRune r) ++ t = c :: rest /\
  DecodeRune c (to_string rest) = (norm r, List.length (bs (EncodeRune r))).
Proof.
  rewrite <- encode_norm. pose proof (norm_range r) as [H H']. set (n := norm r) in *. clearbody n.
  destruct (Z.lt_ge_cases n 128) as [H1|H1]; [|destruct (Z.lt_ge_cases n 2048) as [H2|H2]; [|destruct (Z.lt_ge_cases n 65536) as [H3|H3]]].
  - exists (byte_of n), t. assert (EncodeRune n = String (byte_of n) EmptyString) as ->.
    { unfold EncodeRune. fold (norm n). rewrite norm_id by lia. rewrite (proj2 (Z.ltb_lt n 128)) by lia. reflexivity. }
    split; [reflexivity|]. unfold DecodeRune. rewrite byte_val_of by lia. rewrite (proj2 (Z.ltb_lt n 128)) by lia. reflexivity.
  - rewrite encode_two by lia. eexists _, _. split; [reflexivity|]. unfold DecodeRune.
    assert (2 <= n / 64 < 32 /\ 0 <= n mod 64 < 64 /\ n = n / 64 * 64 + n mod 64)%Z as (B1 & B2 & E) by (Z.to_euclidean_division_equations; lia).
    rewrite byte_val_of by lia. rewrite (proj2 (Z.ltb_ge (192 + n / 64) 128)) by lia. rewrite lead_two by lia.
    change (to_string (byte_of (128 + n mod 64) :: t)) with (String (byte_of (128 + n mod 64)) (to_string t)). cbv iota beta.
    rewrite in_range_of by lia. rewrite low6_of by lia. change 31%Z with (Z.ones 5). rewrite land_mod by lia. f_equal. change (2 ^ 5)%Z with 32%Z.
    rewrite <- (Z.mod_unique (192 + n / 64) 32 6 (n / 64)) by lia. lia.
  - rewrite encode_three by lia. eexists _, _. split; [reflexivity|]. unfold DecodeRune.
    assert (0 <= n / 4096 < 16 /\ 0 <= (n / 64) mod 64 < 64 /\ 0 <= n mod 64 < 64 /\ n = (n / 4096 * 64 + (n / 64) mod 64) * 64 + n mod 64)%Z as (B1 & B2 & B3 & E) by (Z.to_euclidean_division_equations; lia).
    rewrite byte_val_of by lia. rewrite (proj2 (Z.ltb_ge (224 + n / 4096) 128)) by lia. rewrite lead_three by lia.
    match goal with |- context [to_string (?a :: ?b :: t)] => change (to_string (a :: b :: t)) with (String a (String b (to_string t))) end. cbv iota beta.
    rewrite in_range_of, cont_of; [| |lia|]; [|lia|destruct (Z.eqb_spec (224 + n / 4096) 224), (Z.eqb_spec (224 + n / 4096) 237); lia].
    cbn [andb]. rewrite !low6_of by lia. change 15%Z with (Z.ones 4). rewrite land_mod by lia. f_equal. change (2 ^ 4)%Z with 16%Z.
    rewrite <- (Z.mod_unique (224 + n / 4096) 16 14 (n / 4096)) by lia. lia.
  - rewrite encode_four by lia. eexists _, _. split; [reflexivity|]. unfold DecodeRune.
    assert (0 <= n / 262144 < 5 /\ 0 <= (n / 4096) mod 64 < 64 /\ 0 <= (n / 64) mod 64 < 64 /\ 0 <= n mod 64 < 64 /\
      n = ((n / 262144 * 64 + (n / 4096) mod 64) * 64 + (n / 64) mod 64) * 64 + n mod 64)%Z as (B1 & B2 & B3 & B4 & E) by (Z.to_euclidean_division_equations; lia).
    rewrite byte_val_of by lia. rewrite (proj2 (Z.ltb_ge (240 + n / 262144) 128)) by lia. rewrite lead_four by lia.
    match goal with |- context [to_string (?a :: ?b :: ?d :: t)] => change (to_string (a :: b :: d :: t)) with (String a (String b (String d (to_string t)))) end. cbv iota beta.
    rewrite in_range_of, !cont_of; [| |lia|lia|]; [|lia|destruct (Z.eqb_spec (240 + n / 262144) 240), (Z.eqb_spec (240 + n / 262144) 244); lia].
    cbn [andb]. rewrite !low6_of by lia. change 7%Z with (Z.ones 3). rewrite land_mod by lia. f_equal. change (2 ^ 3)%Z with 8%Z.
    rewrite <- (Z.mod_unique (240 + n / 262144) 8 30 (n / 262144)) by lia. lia.
Qed.

(** ** Well-formed texts *)

Definition Wf (b : bytes) : Prop := exists l, b = text_of_runes l.

Lemma wf_app (a b : bytes) : Wf a -> Wf b -> Wf (a ++ b).
Proof. intros [l ->] [l' ->]. exists (l ++ l'). unfold text_of_runes. rewrite flat_map_app. reflexivity. Qed.

Lemma wf_rune (r : Z) : Wf (bs (EncodeRune r)).
Proof. exists [r]. cbn. rewrite app_nil_r. reflexivity. Qed.

Lemma wf_nil : Wf [].
Proof. exists []. reflexivity. Qed.

Lemma encode_nonempty (r : Z) : 0 < List.length (bs (EncodeRune r)).
Proof.
  unfold EncodeRune. fold (norm r). destruct (norm r <? 128)%Z; [cbn; lia|]. destruct (norm r <? 2048)%Z; [cbn; lia|].
  destruct (norm r <? 65536)%Z; cbn; lia.
Qed.

Lemma utf8_text (l : list Z) : forall fuel, List.length (text_of_runes l) <= fuel -> utf8 fuel (text_of_runes l) = text_of_runes l.
Proof.
  induction l as [|r l IH]; intros fuel Hf; [destruct fuel; reflexivity|]. cbn [text_of_runes flat_map] in *. fold (text_of_runes l) in *.
  rewrite length_app in Hf. pose proof (encode_nonempty r) as Hp. destruct (decode_encode r (text_of_runes l)) as (c & rest & E & D).
  destruct fuel as [|fuel]; [lia|]. rewrite E. cbn [utf8]. rewrite D, <- E, encode_norm, drop_app_length. rewrite IH by lia. reflexivity.
Qed.

Lemma valid_wf (s : string) : Wf (bs s) -> valid s = s.
Proof.
  intros [l E]. unfold valid. rewrite E, utf8_text by lia. rewrite <- E. unfold to_string, bs. apply string_of_list_ascii_of_string.
Qed.

Lemma utf8_wf (fuel : nat) : forall s, Wf (utf8 fuel s).
Proof.
  induction fuel as [|fuel IH]; intros s; [exact wf_nil|]. destruct s as [|c rest]; [exact wf_nil|]. cbn [utf8].
  destruct (DecodeRune c (to_string rest)) as [r w]. apply wf_app; [apply wf_rune|apply IH].
Qed.

Lemma valid_bytes (s : string) : valid s = s -> Wf (bs s).
Proof. intros H. rewrite <- H. unfold valid, bs, to_string. rewrite list_ascii_of_string_of_list_ascii. apply utf8_wf. Qed.

Lemma valid_app (a b : string) : valid a = a -> valid b = b -> valid (a +:+ b)%stdpp = (a +:+ b)%stdpp.
Proof.
  intros Ha Hb. apply valid_wf. assert (bs (a +:+ b)%stdpp = bs a ++ bs b) as ->; [|apply wf_app; apply valid_bytes; assumption].
  clear. induction a as [|c a IH]; [reflexivity|]. change (c :: bs (a +:+ b)%stdpp = c :: (bs a ++ bs b)). f_equal. exact IH.
Qed.

Lemma wf_ascii (c : ascii) : (byte_val c <? 128)%Z = true -> Wf [c].
Proof. intros H. exists [byte_val c]. revert H. each_char c; reflexivity. Qed.

(** ** String bodies *)

Inductive TokBody : bytes -> Prop :=
| tb_nil : TokBody []
| tb_esc e s : simple_escape e = true -> TokBody s -> TokBody (backslash :: e :: s)
| tb_hex h1 h2 h3 h4 s : isHex4 [h1; h2; h3; h4] = true -> TokBody s -> TokBody (backslash :: "u"%char :: h1 :: h2 :: h3 :: h4 :: s)
| tb_char c s : c <> quote -> c <> backslash -> TokBody s -> TokBody (c :: s).

Lemma token_body (b : bytes) : forall s r, string_token b = Some (s, r) -> TokBody s.
Proof.
  induction b as [b IH] using (induction_ltof1 _ (@List.length ascii)). unfold ltof in IH. intros s r.
  destruct b as [|c b]; cbn [string_token]; [discriminate|]. destruct (Ascii.eqb_spec c quote) as [->|Hq]; [intros [= <- <-]; constructor|].
  destruct (Ascii.eqb_spec c backslash) as [->|Hb].
  - destruct b as [|e b]; [discriminate|]. destruct (simple_escape e) eqn:Es.
    + destruct (string_token b) as [[s' r']|] eqn:E; cbn; [|discriminate]. intros [= <- <-]. constructor; [exact Es|]. apply (IH b) in E; [exact E|cbn; lia].
    + destruct (Ascii.eqb_spec e "u"%char) as [->|]; [|discriminate]. destruct b as [|h1 [|h2 [|h3 [|h4 b]]]]; try discriminate.
      destruct (isHex4 [h1; h2; h3; h4]) eqn:Hh; [|discriminate]. destruct (string_token b) as [[s' r']|] eqn:E; cbn [mbind option_bind]; [|discriminate].
      intros [= <- <-]. constructor; [exact Hh|]. apply (IH b) in E; [exact E|cbn; lia].
  - destruct (byte_val c <? 32)%Z; [discriminate|]. destruct (string_token b) as [[s' r']|] eqn:E; cbn; [|discriminate].
    intros [= <- <-]. constructor; [exact Hq|exact Hb|]. apply (IH b) in E; [exact E|cbn; lia].
Qed.

Lemma tok_drop_high (p s : bytes) : Forall high p -> TokBody (p ++ s) -> TokBody s.
Proof.
  induction 1 as [|c p Hc _ IH]; cbn [app]; [auto|]. intros H. inversion H as [|? ? ? ?|? ? ? ? ? ? ?|? ? ? ? H']; subst; [destruct (Hc eq_refl)..|exact (IH H')].
Qed.

Lemma simple_wf (e : ascii) : simple_escape e = true -> Wf [simple_char e] /\ Ascii.eqb e "u" = false.
Proof.
  intros H. unfold simple_escape in H. apply existsb_exists in H as (x & Hx & E). apply Ascii.eqb_eq in E as ->. cbn in Hx.
  repeat (destruct Hx as [<-|Hx]; [split; [apply wf_ascii; reflexivity|reflexivity]|]). destruct Hx.
Qed.

Lemma decode_width (c : ascii) (rest : bytes) (r : Z) (w : nat) : DecodeRune c (to_string rest) = (r, w) ->
  w = 1 \/ (high c /\ Seq c rest r w).
Proof.
  intros E. destruct (Z.lt_ge_cases (byte_val c) 128) as [H|H].
  - left. unfold DecodeRune in E. rewrite (proj2 (Z.ltb_lt (byte_val c) 128) H) in E. congruence.
  - destruct ((r =? RuneError)%Z && (w =? 1)) eqn:Eb; [apply andb_prop in Eb as [_ Eb]; apply Nat.eqb_eq in Eb; auto|].
    right. split; [exact H|exact (decode_seq c rest r w H E Eb)].
Qed.

Lemma unquote_wf (n : nat) : forall s g, List.length s <= n -> TokBody s -> Wf (unquote g s).
Proof.
  induction n as [|n IH]; intros s g Hn H; [destruct s; [destruct g; exact wf_nil|cbn in Hn; lia]|]. destruct g as [|g]; [exact wf_nil|].
  destruct H as [|e s He Hs|h1 h2 h3 h4 s Hh Hs|c s Hq Hb Hs]; cbn [List.length] in Hn.
  - exact wf_nil.
  - destruct (simple_wf e He) as [Hw Hu]. cbn [unquote]. rewrite Ascii.eqb_refl, (escape4_simple e s Hu).
    apply (wf_app [_]); [exact Hw|apply IH; [lia|exact Hs]].
  - change (unquote (S g) (backslash :: "u"%char :: h1 :: h2 :: h3 :: h4 :: s)) with
      (match (if isHex4 [h1; h2; h3; h4] then Some (decodeHex4 [h1; h2; h3; h4]) else None) with
       | Some r => match (if surrogate r then match escape4 s with Some r2 => pair_rune r r2 | None => None end else None) with
                   | Some p => bs (EncodeRune p) ++ unquote g (drop 6 s)
                   | None => bs (EncodeRune r) ++ unquote g s end
       | None => simple_char "u"%char :: unquote g (h1 :: h2 :: h3 :: h4 :: s) end).
    rewrite Hh. destruct (surrogate (decodeHex4 [h1; h2; h3; h4])); [|apply wf_app; [apply wf_rune|apply IH; [lia|exact Hs]]].
    destruct (escape4 s) as [r2|] eqn:E4; [|apply wf_app; [apply wf_rune|apply IH; [lia|exact Hs]]].
    destruct (pair_rune _ r2); [|apply wf_app; [apply wf_rune|apply IH; [lia|exact Hs]]]. apply wf_app; [apply wf_rune|].
    destruct Hs as [|e s' He Hs'|k1 k2 k3 k4 s' Hk Hs'|c s' Hq Hb Hs'].
    + destruct g; exact wf_nil.
    + destruct (simple_wf e He) as [_ Hu]. rewrite (escape4_simple e s' Hu) in E4. discriminate.
    + change (drop 6 (backslash :: "u"%char :: k1 :: k2 :: k3 :: k4 :: s')) with s'. apply IH; [cbn [List.length] in Hn; lia|exact Hs'].

    + exfalso. destruct s' as [|u [|k1 [|k2 [|k3 [|k4 s']]]]]; try discriminate. cbn in E4. destruct (Ascii.eqb_spec c backslash); [contradiction|discriminate].
  - cbn [unquote]. destruct (Ascii.eqb_spec c backslash) as [|_]; [contradiction|]. destruct (DecodeRune c (string_of_list_ascii s)) as [r w] eqn:E.
    apply wf_app; [apply wf_rune|]. destruct (decode_width c s r w E) as [->|[Hc [_ Hw Hh _]]]; [change (drop 1 (c :: s)) with s; apply IH; [lia|exact Hs]|].
    apply IH; [rewrite length_drop; cbn [List.length]; lia|]. apply (tok_drop_high (take w (c :: s))); [exact Hh|]. rewrite take_drop. constructor; assumption.
Qed.

Lemma unquoted_valid (s : bytes) : TokBody s -> valid (to_string (unquoted s)) = to_string (unquoted s).
Proof.
  intros H. apply valid_wf. unfold to_string, bs. rewrite list_ascii_of_string_of_list_ascii. exact (unquote_wf (List.length s) s _ (Nat.le_refl _) H).
Qed.

(** ** Decoded values *)

Inductive Tokens : json -> Prop :=
| tk_null : Tokens JNull | tk_true : Tokens JTrue | tk_false : Tokens JFalse
| tk_num t : Tokens (JNum t)
| tk_str s : TokBody s -> Tokens (JStr s)
| tk_arr l : Forall Tokens l -> Tokens (JArr l)
| tk_obj l : Forall (fun kv => TokBody kv.1 /\ Tokens kv.2) l -> Tokens (JObj l).

Lemma parse_tokens (fuel : nat) :
  (forall d b j r, parse_value fuel d b = Some (j, r) -> Tokens j) /\
  (forall d b l r, parse_items fuel d b = Some (l, r) -> Forall Tokens l) /\
  (forall d b l r, parse_members fuel d b = Some (l, r) -> Forall (fun kv => TokBody kv.1 /\ Tokens kv.2) l).
Proof.
  induction fuel as [|fuel (Hv & Hi & Hm)]; [repeat split; discriminate|]. split; [|split]; intros d b.
  - intros j r. cbn [parse_value]. destruct (skip_ws b) as [|c b1]; [discriminate|].
    destruct (Ascii.eqb c quote).
    { destruct (string_token b1) as [[s r1]|] eqn:E; cbn; [|discriminate]. intros [= <- <-]. constructor. exact (token_body _ _ _ E). }
    destruct (Ascii.eqb c "[").
    { destruct (maxNestingDepth <=? d)%Z; [discriminate|]. destruct (skip_ws b1) as [|c' r1]; [discriminate|].
      destruct (Ascii.eqb c' "]"); [intros [= <- <-]; constructor; constructor|].
      destruct (parse_items fuel (d + 1) b1) as [[l r2]|] eqn:E; cbn; [|discriminate]. intros [= <- <-]. constructor. exact (Hi _ _ _ _ E). }
    destruct (Ascii.eqb c "{").
    { destruct (maxNestingDepth <=? d)%Z; [discriminate|]. destruct (skip_ws b1) as [|c' r1]; [discriminate|].
      destruct (Ascii.eqb c' "}"); [intros [= <- <-]; constructor; constructor|].
      destruct (parse_members fuel (d + 1) b1) as [[l r2]|] eqn:E; cbn; [|discriminate]. intros [= <- <-]. constructor. exact (Hm _ _ _ _ E). }
    destruct (Ascii.eqb c "t"); [destruct (keyword _ _); cbn; [intros [= <- <-]; constructor|discriminate]|].
    destruct (Ascii.eqb c "f"); [destruct (keyword _ _); cbn; [intros [= <- <-]; constructor|discriminate]|].
    destruct (Ascii.eqb c "n"); [destruct (keyword _ _); cbn; [intros [= <- <-]; constructor|discriminate]|].
    destruct (number_token (c :: b1)) as [[t r1]|]; cbn; [intros [= <- <-]; constructor|discriminate].
  - intros l r. cbn [parse_items]. destruct (parse_value fuel d b) as [[j r1]|] eqn:E; cbn [mbind option_bind]; [|discriminate]. apply Hv in E.
    destruct (skip_ws r1) as [|c r2]; [discriminate|]. destruct (Ascii.eqb c ",").
    + destruct (parse_items fuel d r2) as [[l2 r3]|] eqn:E2; cbn [mbind option_bind]; [|discriminate]. intros [= <- <-]. constructor; [exact E|exact (Hi _ _ _ _ E2)].
    + destruct (Ascii.eqb c "]"); [|discriminate]. intros [= <- <-]. repeat constructor. exact E.
  - intros l r. cbn [parse_members]. destruct (skip_ws b) as [|c b1]; [discriminate|]. destruct (Ascii.eqb c quote); [|discriminate].
    destruct (string_token b1) as [[k r1]|] eqn:Ek; cbn [mbind option_bind]; [|discriminate]. apply token_body in Ek.
    destruct (skip_ws r1) as [|c1 r2]; [discriminate|]. destruct (Ascii.eqb c1 ":"); [|discriminate].
    destruct (parse_value fuel d r2) as [[j r3]|] eqn:E; cbn [mbind option_bind]; [|discriminate]. apply Hv in E.
    destruct (skip_ws r3) as [|c2 r4]; [discriminate|]. destruct (Ascii.eqb c2 ",").
    + destruct (parse_members fuel d r4) as [[l2 r5]|] eqn:E2; cbn [mbind option_bind]; [|discriminate]. intros [= <- <-]. constructor; [split; assumption|exact (Hm _ _ _ _ E2)].
    + destruct (Ascii.eqb c2 "}"); [|discriminate]. intros [= <- <-]. constructor; [split; assumption|constructor].
Qed.

Lemma decode_tokens (b : bytes) (j : json) : decode b = Some j -> Tokens j.
Proof.
  unfold decode. destruct (parse_value (json_fuel b) 0 b) as [[j' r]|] eqn:E; cbn; [|discriminate]. destruct (skip_ws r); [|discriminate].
  intros [= <-]. exact (proj1 (parse_tokens _) _ _ _ _ E).
Qed.

(** Every string of the value is well-formed. *)
Inductive Strings : any -> Prop :=
| st_nil : Strings ANil
| st_bool b : Strings (ABool b)
| st_num f : Strings (ANum f)
| st_int n : Strings (AInt n)
| st_str s : valid s = s -> Strings (AStr s)
| st_arr l : Forall Strings l -> Strings (AArr l)
| st_obj m : Forall (fun kv => Strings kv.2) m -> Strings (AObj m).

Lemma mset_strings (k : string) (v : any) (m : gomap) : Strings v -> Forall (fun kv => Strings kv.2) m -> Forall (fun kv => Strings kv.2) (mset k v m).
Proof.
  intros Hv. induction 1 as [|[k' v'] m Hk Hm IH]; cbn; [repeat constructor; exact Hv|]. destruct (String.eqb k k'); constructor; auto.
Qed.

Lemma to_any_strings (j : json) : forall v, Tokens j -> to_any j = Some v -> Strings v.
Proof.
  induction j as [| | |t|s|l IH|l IH] using json_ind'; intros v Ht; cbn [to_any].
  1-3: intros [= <-]; constructor.
  - destruct (convertNumber t); [intros [= <-]; constructor|discriminate].
  - intros [= <-]. inversion Ht; subst. constructor. apply unquoted_valid. assumption.
  - inversion Ht as [| | | | |? Hl|]; subst. set (items := fix items (l : list json) : option (list any) := match l with [] => Some [] | j :: l => v ← to_any j; vs ← items l; Some (v :: vs) end).
    destruct (items l) as [vs|] eqn:E; [|discriminate]. intros [= <-]. constructor. clear Ht. revert vs E.
    induction l as [|j l IHl]; cbn [items]; intros vs E; [injection E as <-; constructor|]. apply Forall_cons in IH as [Hj IH], Hl as [Tj Hl].
    destruct (to_any j) as [x|] eqn:Ej; cbn [mbind option_bind] in E; [|discriminate]. fold items in E. destruct (items l) as [xs|] eqn:El; cbn [mbind option_bind] in E; [|discriminate].
    injection E as <-. constructor; [exact (Hj _ Tj eq_refl)|]. exact (IHl IH Hl xs eq_refl).
  - inversion Ht as [| | | | | |? Hl]; subst. change (AObj <$> to_members [] l = Some v -> Strings v). intros E.
    assert (forall m m', Forall (fun kv => Strings kv.2) m -> to_members m l = Some m' -> Forall (fun kv => Strings kv.2) m') as Hm.
    { clear Ht E v. induction l as [|[k j] l IHl]; intros m m' Hs; cbn [to_members]; [intros [= <-]; exact Hs|]. fold to_members.
      apply Forall_cons in IH as [Hj IH], Hl as [[_ Tj] Hl]. destruct (to_any j) as [x|] eqn:Ej; cbn [mbind option_bind]; [|discriminate].
      apply IHl; [exact IH|exact Hl|]. apply mset_strings; [exact (Hj _ Tj Ej)|exact Hs]. }
    destruct (to_members [] l) as [m|] eqn:Em; [|discriminate]. injection E as <-. constructor. exact (Hm [] m (List.Forall_nil _) Em).
Qed.

Definition StringsIn (m : gomap) : Prop := Forall (fun kv => Strings kv.2) m.

Lemma decodeObj_strings (b : bytes) (m : gomap) : decodeObj b = Some m -> StringsIn m.
Proof.
  unfold decodeObj, Unmarshal. destruct (decode b) as [j|] eqn:E; cbn [mbind option_bind]; [|discriminate]. apply decode_tokens in E.
  destruct (to_any j) as [v|] eqn:Ev; [|discriminate]. apply (to_any_strings j v E) in Ev. destruct v; try discriminate; intros [= <-]; [constructor|].
  inversion Ev; assumption.
Qed.

Lemma get_strings (m : gomap) (k : string) (v : any) : StringsIn m -> get m k = Some v -> Strings v.
Proof.
  induction 1 as [|[k' v'] m Hv Hm IH]; cbn; [discriminate|]. destruct (String.eqb k k'); [intros [= <-]; exact Hv|exact IH].
Qed.

Lemma str_valid (m : gomap) (k s : string) : StringsIn m -> str m k = Some s -> valid s = s.
Proof.
  intros H E. unfold str in E. destruct (get m k) as [v|] eqn:G; [|discriminate]. apply get_strings in G; [|exact H]. destruct v; try discriminate.
  injection E as ->. inversion G; assumption.
Qed.

Lemma str0_valid (m : gomap) (k : string) : StringsIn m -> valid (str0 m k) = str0 m k.
Proof. intros H. unfold str0. destruct (str m k) as [s|] eqn:E; [exact (str_valid m k s H E)|reflexivity]. Qed.

Lemma obj_strings (m o : gomap) (k : string) : StringsIn m -> obj m k = Some o -> StringsIn o.
Proof.
  intros H E. unfold obj in E. destruct (get m k) as [v|] eqn:G; [|discriminate]. apply get_strings in G; [|exact H]. destruct v; try discriminate.
  injection E as ->. inversion G; assumption.
Qed.

Lemma arr_strings (m : gomap) (l : list any) (k : string) : StringsIn m -> arr m k = Some l -> Forall Strings l.
Proof.
  intros H E. unfold arr in E. destruct (get m k) as [v|] eqn:G; [|discriminate]. apply get_strings in G; [|exact H]. destruct v; try discriminate.
  injection E as ->. inversion G; assumption.
Qed.
