(* ===== verification/MessStream.v ===== *)
(** * Messages streams as Responses streams and as Chat streams

    [mapMessToResp] of [resp_mess.go] and [mapMessToChat] of [chat_mess.go].  A
    Responses client receives the text of every output item in fragments and once
    more, whole, in [response.completed]; the theorem is that for every Messages
    stream its client accepts, both are the text of the stream's blocks, in the
    order in which the blocks began. *)

From Stdlib Require Import ZArith Lia List Bool String Ascii.
From Stdlib Require Import Floats.SpecFloat.
From stdpp Require Import base option list gmap strings.
From S2P Require Import Prelude GoString JsonScan JsonText GoJson SseRelay ProtoJson StreamMapper ChatStream.
Import ListNotations.
Local Open Scope Z_scope.
Local Open Scope list_scope.
Local Open Scope string_scope.

(** ** To a Responses stream *)

Definition itemID (m : StreamMapper) (index : Z) : string := ("msg_" +:+ m_id (m_head m) +:+ "_" +:+ FormatInt index)%stdpp.

Definition item_added (index : Z) (item : gomap) : chatStreamEvent :=
  ("response.output_item.added", [("type", AStr "response.output_item.added"); ("output_index", AInt index); ("item", AObj item)]).

Definition reasoning_delta (m : StreamMapper) (index : Z) (delta : string) : chatStreamEvent :=
  ("response.reasoning_summary_text.delta",
    [("type", AStr "response.reasoning_summary_text.delta"); ("item_id", AStr (itemID m index));
     ("output_index", AInt index); ("summary_index", AInt 0); ("delta", AStr delta)]).

Definition output_text (text : string) : any := AObj [("type", AStr "output_text"); ("text", AStr text); ("annotations", AArr [])].
Definition summary_text (text : string) : any := AObj [("type", AStr "summary_text"); ("text", AStr text)].

Definition reasoning_item (m : StreamMapper) (index : Z) (status text : string) : gomap :=
  [("id", AStr (itemID m index)); ("type", AStr "reasoning"); ("status", AStr status); ("summary", AArr [summary_text text])].
Definition message_item (m : StreamMapper) (index : Z) (status text : string) : gomap :=
  [("id", AStr (itemID m index)); ("type", AStr "message"); ("status", AStr status); ("role", AStr "assistant"); ("content", AArr [output_text text])].
Definition function_item (id name arguments status : string) : gomap :=
  [("id", AStr ("fc_" +:+ id)%stdpp); ("type", AStr "function_call"); ("call_id", AStr id);
   ("name", AStr name); ("arguments", AStr arguments); ("status", AStr status)].

Definition messOutputItems (m : StreamMapper) : list any :=
  let t := m_items m in
  map (fun index =>
    match reasoningByIndex t !! index with
    | Some text => AObj (reasoning_item m index "completed" text)
    | None =>
        match fcNames t !! index with
        | Some name => AObj (function_item (at0 (fcIDs t) index) name (at0 (argsByIndex t) index) "completed")
        | None => AObj (message_item m index "completed" (at0 (textByIndex t) index))
        end
    end) (blockOrder (m_blocks m)).

Definition on_message_start (ev : gomap) : M (list chatStreamEvent) := fun m =>
  if m_started (m_head m) then ([], m)
  else
    let m := set_started m in
    let m := match obj ev "message" with
             | Some msg =>
                 let m := set_model (str0 msg "model") (set_id (str0 msg "id") m) in
                 match obj msg "usage" with
                 | Some u => set_cached (intOr0 u "cache_read_input_tokens") (set_it (intOr0 u "input_tokens") m)
                 | None => m
                 end
             | None => m
             end in
    ([("response.created", [("type", AStr "response.created"); ("response", AObj
       [("id", AStr (m_id (m_head m))); ("object", AStr "response"); ("created_at", AInt 0); ("status", AStr "in_progress");
        ("model", AStr (m_model (m_head m))); ("output", AArr []); ("parallel_tool_calls", ABool true); ("usage", ANil)])])], m).

Definition on_block_start (ev : gomap) : M (list chatStreamEvent) := fun m =>
  let index := intOr0 ev "index" in
  match obj ev "content_block" with
  | None => ([], m)
  | Some block =>
      if is_str block "type" "thinking" then
        if started m index then ([], m)
        else
          let thinking := str0 block "thinking" in
          let m := set_reasoning index thinking (order_block index (start_block index m)) in
          (item_added index (reasoning_item m index "in_progress" "") ::
             (if String.eqb thinking "" then [] else [reasoning_delta m index thinking]), m)
      else if is_str block "type" "text" then
        if started m index then ([], m)
        else
          let m := order_block index (start_block index m) in
          ([item_added index (message_item m index "in_progress" "")], m)
      else if is_str block "type" "tool_use" then
        if started m index then ([], m)
        else
          let id := str0 block "id" in
          let name := str0 block "name" in
          let m := set_name index name (set_fcid index id (order_block index (start_block index m))) in
          ([item_added index (function_item id name "" "in_progress")], m)
      else ([], m)
  end.

Definition on_block_delta (ev : gomap) : M (list chatStreamEvent) := fun m =>
  let index := intOr0 ev "index" in
  match obj ev "delta" with
  | None => ([], m)
  | Some delta =>
      if is_str delta "type" "thinking_delta" then
        let thinking := str0 delta "thinking" in
        let m := set_reasoning index (at0 (reasoningByIndex (m_items m)) index +:+ thinking)%stdpp m in
        ([reasoning_delta m index thinking], m)
      else if is_str delta "type" "text_delta" then
        let text := str0 delta "text" in
        let m := set_text index (at0 (textByIndex (m_items m)) index +:+ text)%stdpp m in
        ([("response.output_text.delta", [("type", AStr "response.output_text.delta"); ("item_id", AStr (itemID m index));
           ("output_index", AInt index); ("content_index", AInt 0); ("delta", AStr text)])], m)
      else if is_str delta "type" "input_json_delta" then
        let partial := str0 delta "partial_json" in
        let m := set_args index (at0 (argsByIndex (m_items m)) index +:+ partial)%stdpp m in
        ([("response.function_call_arguments.delta", [("type", AStr "response.function_call_arguments.delta");
           ("item_id", AStr ("fc_" +:+ at0 (fcIDs (m_items m)) index)%stdpp); ("output_index", AInt index); ("delta", AStr partial)])], m)
      else ([], m)
  end.

Definition on_block_stop (ev : gomap) : M (list chatStreamEvent) := fun m =>
  let index := intOr0 ev "index" in
  match reasoningByIndex (m_items m) !! index with
  | Some text =>
      if started m index && negb (stopped m index) then
        let m := stop_block index m in
        ([("response.reasoning_summary_text.done", [("type", AStr "response.reasoning_summary_text.done"); ("item_id", AStr (itemID m index));
           ("output_index", AInt index); ("summary_index", AInt 0); ("text", AStr text)])], m)
      else ([], m)
  | None => ([], m)
  end.

Definition on_message_delta (ev : gomap) : M (list chatStreamEvent) := fun m =>
  let m := match obj ev "usage" with Some u => set_ot (intOr0 u "output_tokens") m | None => m end in
  ([], match obj ev "delta" with Some d => set_reason (str0 d "stop_reason") m | None => m end).

Definition usage_object (m : StreamMapper) : gomap :=
  let h := m_head m in
  [("input_tokens", AInt (m_it h)); ("output_tokens", AInt (m_ot h)); ("total_tokens", AInt (sumTokens (m_it h) (m_ot h)));
   ("input_tokens_details", AObj [("cached_tokens", AInt (m_cached h))])].

Definition completed_event (m : StreamMapper) : chatStreamEvent :=
  ("response.completed", [("type", AStr "response.completed"); ("response", AObj
    [("id", AStr (m_id (m_head m))); ("object", AStr "response"); ("created_at", AInt 0); ("status", AStr "completed");
     ("model", AStr (m_model (m_head m))); ("output", AArr (messOutputItems m)); ("parallel_tool_calls", ABool true);
     ("usage", AObj (usage_object m))])]).

Definition on_message_stop : M (list chatStreamEvent) := fun m =>
  if m_done (m_head m) then ([], m) else let m := set_done m in ([completed_event m], m).

Definition on_error (ev : gomap) : M (list chatStreamEvent) := fun m =>
  match obj ev "error" with
  | Some e => ([("error", [("code", AStr (str0 e "type")); ("message", AStr (str0 e "message"))])], m)
  | None => ([], m)
  end.

(** [mapMessToResp], after the decoding of the event. *)
Definition mess_to_resp (name : string) (ev : gomap) : M (list chatStreamEvent) := fun m =>
  if String.eqb name "message_start" then on_message_start ev m
  else if String.eqb name "content_block_start" then on_block_start ev m
  else if String.eqb name "content_block_delta" then on_block_delta ev m
  else if String.eqb name "content_block_stop" then on_block_stop ev m
  else if String.eqb name "message_delta" then on_message_delta ev m
  else if String.eqb name "message_stop" then on_message_stop m
  else if String.eqb name "error" then on_error ev m
  else ([], m).

Definition mapMessToResp (name : string) (data : bytes) : M (list chatStreamEvent) := fun m =>
  match decodeObj data with Some ev => mess_to_resp name ev m | None => ([], m) end.

Fixpoint run_mess (es : list (string * bytes)) : M (list chatStreamEvent) := fun m =>
  match es with
  | [] => ([], m)
  | (name, data) :: es =>
      let '(out, m) := mapMessToResp name data m in
      let '(out', m) := run_mess es m in (out ++ out', m)%list
  end.

(** ** To a Chat stream *)

(** A chunk, or the end mark. *)
Inductive ChatOut := OChunk (c : gomap) | OError (e : gomap) | ODone.

(** [chatFrame]: a chunk with one choice. *)
Definition chatFrame (m : StreamMapper) (delta : gomap) (finish : any) (usage : option gomap) : ChatOut :=
  OChunk ([("id", AStr (m_id (m_head m))); ("object", AStr "chat.completion.chunk"); ("created", AInt 0); ("model", AStr (m_model (m_head m)));
           ("choices", AArr [AObj [("index", AInt 0); ("delta", AObj delta); ("finish_reason", finish)]])] ++
          match usage with Some u => [("usage", AObj u)] | None => [] end)%list.

Definition one_call (fields : gomap) : gomap := [("tool_calls", AArr [AObj fields])].

Definition chat_start (ev : gomap) (m : StreamMapper) : list ChatOut * StreamMapper :=
  let m := (on_message_start ev m).2 in ([chatFrame m [("role", AStr "assistant"); ("content", AStr "")] ANil None], m).

Definition chat_block (ev : gomap) (m : StreamMapper) : list ChatOut :=
  match obj ev "content_block" with
  | None => []
  | Some block =>
      if is_str block "type" "thinking" then
        if String.eqb (str0 block "thinking") "" then [] else [chatFrame m [("reasoning_content", AStr (str0 block "thinking"))] ANil None]
      else if is_str block "type" "tool_use" then
        [chatFrame m (one_call [("index", AInt (intOr0 ev "index")); ("id", AStr (str0 block "id")); ("type", AStr "function");
                                ("function", AObj [("name", AStr (str0 block "name")); ("arguments", AStr "")])]) ANil None]
      else []
  end.

Definition chat_delta (ev : gomap) (m : StreamMapper) : list ChatOut :=
  match obj ev "delta" with
  | None => []
  | Some delta =>
      if is_str delta "type" "thinking_delta" then [chatFrame m [("reasoning_content", AStr (str0 delta "thinking"))] ANil None]
      else if is_str delta "type" "text_delta" then [chatFrame m [("content", AStr (str0 delta "text"))] ANil None]
      else if is_str delta "type" "input_json_delta" then
        [chatFrame m (one_call [("index", AInt (intOr0 ev "index")); ("function", AObj [("arguments", AStr (str0 delta "partial_json"))])]) ANil None]
      else []
  end.

Definition chat_reason (ev : gomap) : string :=
  match obj ev "delta" with
  | Some d => if String.eqb (str0 d "stop_reason") "tool_use" then "tool_calls"
              else if String.eqb (str0 d "stop_reason") "max_tokens" then "length" else "stop"
  | None => "stop"
  end.

Definition chat_end (ev : gomap) (m : StreamMapper) : list ChatOut * StreamMapper :=
  if m_done (m_head m) then ([], m)
  else
    let m := set_ot (match obj ev "usage" with Some u => intOr0 u "output_tokens" | None => 0 end) (set_done m) in
    let h := m_head m in
    let usage := ([("prompt_tokens", AInt (m_it h)); ("completion_tokens", AInt (m_ot h)); ("total_tokens", AInt (sumTokens (m_it h) (m_ot h)))] ++
                  (if (0 <? m_cached h)%Z then [("prompt_tokens_details", AObj [("cached_tokens", AInt (m_cached h))])] else []))%list in
    ([chatFrame m [] (AStr (chat_reason ev)) (Some usage); ODone], m).

Definition mess_to_chat (name : string) (ev : gomap) (m : StreamMapper) : list ChatOut * StreamMapper :=
  if String.eqb name "message_start" then if m_started (m_head m) then ([], m) else chat_start ev m
  else if String.eqb name "content_block_start" then (chat_block ev m, m)
  else if String.eqb name "content_block_delta" then (chat_delta ev m, m)
  else if String.eqb name "message_delta" then chat_end ev m
  else if String.eqb name "error" then
    (match obj ev "error" with Some e => [OError [("error", AObj [("message", AStr (str0 e "message"))])]] | None => [] end, m)
  else ([], m).

Definition mapMessToChat (name : string) (data : bytes) (m : StreamMapper) : list ChatOut * StreamMapper :=
  match decodeObj data with Some ev => mess_to_chat name ev m | None => ([], m) end.

(** The bytes of what is emitted. *)
Definition chat_bytes (format_float : spec_float -> bytes) (o : ChatOut) : bytes :=
  match o with
  | OChunk c => EncodeFrame format_float "" (AObj c)
  | OError e => EncodeFrame format_float "" (AObj e)
  | ODone => (bs "data: [DONE]" ++ [nl; nl])%list
  end.

(** ** What a Messages stream says *)

(** The events of the protocol in one event of the wire: a thinking block may
    begin with text; events of other kinds say nothing. *)
Definition read_mess (name : string) (ev : gomap) : list MsgEvent :=
  let i := intOr0 ev "index" in
  if String.eqb name "message_start" then [MsgStart]
  else if String.eqb name "content_block_start" then
    match obj ev "content_block" with
    | Some block =>
        if is_str block "type" "thinking" then
          MsgBlock i KThinking :: (if String.eqb (str0 block "thinking") "" then [] else [MsgDelta i KThinking (str0 block "thinking")])
        else if is_str block "type" "text" then [MsgBlock i KText]
        else if is_str block "type" "tool_use" then [MsgBlock i KTool] else []
    | None => []
    end
  else if String.eqb name "content_block_delta" then
    match obj ev "delta" with
    | Some delta =>
        if is_str delta "type" "thinking_delta" then [MsgDelta i KThinking (str0 delta "thinking")]
        else if is_str delta "type" "text_delta" then [MsgDelta i KText (str0 delta "text")]
        else if is_str delta "type" "input_json_delta" then [MsgDelta i KTool (str0 delta "partial_json")] else []
    | None => []
    end
  else if String.eqb name "content_block_stop" then [MsgBlockStop i]
  else if String.eqb name "message_delta" then [MsgEnd]
  else if String.eqb name "message_stop" then [MsgStop]
  else if String.eqb name "error" then match obj ev "error" with Some _ => [MsgError] | None => [] end
  else [].

Fixpoint accept_all (es : list MsgEvent) (c : Client) : option Client :=
  match es with [] => Some c | e :: es => c ← accept c e; accept_all es c end.

Fixpoint block_starts (es : list MsgEvent) : list Z :=
  match es with [] => [] | MsgBlock i _ :: es => i :: block_starts es | _ :: es => block_starts es end.

(** The protocol events of a stream of wire events; what does not decode says
    nothing. *)
Definition said (es : list (string * bytes)) : list MsgEvent :=
  flat_map (fun e => match decodeObj e.2 with Some ev => read_mess e.1 ev | None => [] end) es.

(** ** What a Responses client has received *)

(** The fragments sent for an output index. *)
Definition fragment (i : Z) (e : chatStreamEvent) : string :=
  match get e.2 "output_index", str e.2 "delta" with
  | Some (AInt j), Some x => if (j =? i)%Z then x else ""
  | _, _ => ""
  end.

Definition fragments (i : Z) (es : list chatStreamEvent) : string := fold_right (fun e s => (fragment i e +:+ s)%stdpp) "" es.

Definition first_text (l : list any) : option string := match l with [AObj part] => str part "text" | _ => None end.

(** Kind and text of an output item. *)
Definition read_item (v : any) : option (kind * string) :=
  item ← as_obj v;
  if is_str item "type" "reasoning" then l ← arr item "summary"; pair KThinking <$> first_text l
  else if is_str item "type" "message" then l ← arr item "content"; pair KText <$> first_text l
  else if is_str item "type" "function_call" then pair KTool <$> str item "arguments" else None.

Definition completed_output (data : gomap) : option (list (option (kind * string))) :=
  resp ← obj data "response"; output ← arr resp "output"; Some (map read_item output).

(** Kind and text of a block. *)
Definition block_view (c : Client) (i : Z) : option (kind * string) := b ← c_blocks c !! i; Some (b_kind b, b_text b).

(** ** The invariant *)

(** What the mapper knows of a block is what the stream said of it. *)
Definition known (t : Items) (i : Z) (b : option Block) : Prop :=
  match b with
  | None => reasoningByIndex t !! i = None /\ fcNames t !! i = None /\ at0 (textByIndex t) i = "" /\ at0 (argsByIndex t) i = ""
  | Some (mkBlock KThinking x _) => reasoningByIndex t !! i = Some x
  | Some (mkBlock KText x _) => reasoningByIndex t !! i = None /\ fcNames t !! i = None /\ at0 (textByIndex t) i = x
  | Some (mkBlock KTool x _) => reasoningByIndex t !! i = None /\ is_Some (fcNames t !! i) /\ at0 (argsByIndex t) i = x
  end.

Record MInv (m : StreamMapper) (c : Client) (sent : Z -> string) : Prop := mkMInv {
  mi_order : forall i, i ∈ blockOrder (m_blocks m) <-> is_Some (c_blocks c !! i);
  mi_nodup : NoDup (blockOrder (m_blocks m));
  mi_started : forall i, i ∈ blockStarted (m_blocks m) <-> is_Some (c_blocks c !! i);
  mi_known : forall i, known (m_items m) i (c_blocks c !! i);
  mi_sent : forall i, sent i = default "" (b_text <$> c_blocks c !! i);
  mi_done : c_closed c = false -> m_done (m_head m) = false;
  mi_head : c_started c = m_started (m_head m)
}.

Definition sends (sent : Z -> string) (out : list chatStreamEvent) (i : Z) : string := (sent i +:+ fragments i out)%stdpp.

(** One event: the mapper stays in step with the stream, and the blocks that
    began are the ones it put in its order. *)
Definition in_step (op : M (list chatStreamEvent)) (m : StreamMapper) (c' : Client) (sent : Z -> string) (starts : list Z) : Prop :=
  MInv (op m).2 c' (sends sent (op m).1) /\ blockOrder (m_blocks (op m).2) = (blockOrder (m_blocks m) ++ starts)%list.

Lemma known_other (t t' : Items) (i : Z) (b : option Block) : reasoningByIndex t' !! i = reasoningByIndex t !! i -> fcNames t' !! i = fcNames t !! i ->
  textByIndex t' !! i = textByIndex t !! i -> argsByIndex t' !! i = argsByIndex t !! i -> known t i b -> known t' i b.
Proof. intros E1 E2 E3 E4. unfold known, at0. destruct b as [[[] x o]|]; rewrite ?E1, ?E2, ?E3, ?E4; auto. Qed.

Lemma sends_nil (sent : Z -> string) (i : Z) : sends sent [] i = sent i.
Proof. apply string_app_nil. Qed.

Lemma accept_block_inv (c c' : Client) (i : Z) (k : kind) : accept c (MsgBlock i k) = Some c' ->
  c' = mkClient true (<[i := mkBlock k "" true]> (c_blocks c)) false false /\ c_started c = true /\ c_closed c = false /\ c_blocks c !! i = None.
Proof.
  unfold accept. destruct (c_closed c); [discriminate|]. destruct (c_started c); [|discriminate]. destruct (c_ended c); [discriminate|]. cbn.
  destruct (0 <=? i)%Z; [|discriminate]. cbn. destruct (c_blocks c !! i) eqn:E; cbn; [discriminate|]. intros [= <-]. auto.
Qed.

Lemma accept_delta_inv (c c' : Client) (i : Z) (k : kind) (x : string) : accept c (MsgDelta i k x) = Some c' -> exists t,
  c_blocks c !! i = Some (mkBlock k t true) /\ c_closed c = false /\
  c' = mkClient (c_started c) (<[i := mkBlock k (t +:+ x)%stdpp true]> (c_blocks c)) false false.
Proof.
  unfold accept. destruct (c_closed c); [discriminate|]. destruct (c_ended c); [discriminate|]. destruct (c_blocks c !! i) as [[k' t []]|]; try discriminate.
  case_decide; [|discriminate]. intros [= <-]. subst. eauto.
Qed.

(** A block begins. *)
Lemma begin_step (m m' : StreamMapper) (c c' : Client) (sent : Z -> string) (i : Z) (k : kind) (out : list chatStreamEvent) : MInv m c sent ->
  accept c (MsgBlock i k) = Some c' -> m_head m' = m_head m -> m_blocks m' = m_blocks (order_block i (start_block i m)) ->
  (forall j, j <> i -> known (m_items m') j (c_blocks c !! j)) -> known (m_items m') i (Some (mkBlock k "" true)) ->
  (forall j, fragments j out = "") -> MInv m' c' (sends sent out) /\ blockOrder (m_blocks m') = (blockOrder (m_blocks m) ++ [i])%list.
Proof.
  intros H Ha Eh Eb Ho Hi Hf. apply accept_block_inv in Ha as (-> & Hs & Hc & Hn). split; [|rewrite Eb; reflexivity].
  assert (forall j, is_Some (<[i := mkBlock k "" true]> (c_blocks c) !! j) <-> j = i \/ is_Some (c_blocks c !! j)) as Hsome.
  { intros j. destruct (decide (j = i)) as [->|Hne]; [rewrite lookup_insert_eq; split; eauto|]. rewrite lookup_insert_ne by congruence. split; [auto|intros [?|?]; [contradiction|assumption]]. }
  constructor; cbn [c_blocks c_started c_closed]; rewrite ?Eb, ?Eh.
  - intros j. rewrite Hsome. cbn. rewrite elem_of_app, (mi_order _ _ _ H), list_elem_of_singleton. tauto.
  - cbn. apply NoDup_app. split; [exact (mi_nodup _ _ _ H)|]. split; [|apply NoDup_singleton]. intros j Hj Hx. apply list_elem_of_singleton in Hx as ->.
    apply (mi_order _ _ _ H) in Hj. rewrite Hn in Hj. destruct Hj; discriminate.
  - intros j. rewrite Hsome. cbn. rewrite elem_of_union, elem_of_singleton, (mi_started _ _ _ H). tauto.
  - intros j. destruct (decide (j = i)) as [->|Hne]; [rewrite lookup_insert_eq; exact Hi|rewrite lookup_insert_ne by congruence; exact (Ho j Hne)].
  - intros j. unfold sends. rewrite Hf, string_app_nil, (mi_sent _ _ _ H). destruct (decide (j = i)) as [->|Hne]; [rewrite lookup_insert_eq, Hn; reflexivity|].
    rewrite lookup_insert_ne by congruence. reflexivity.
  - intros _. exact (mi_done _ _ _ H Hc).
  - rewrite <- (mi_head _ _ _ H), Hs. reflexivity.
Qed.

(** A block grows. *)
Lemma grow_step (m m' : StreamMapper) (c c' : Client) (sent : Z -> string) (i : Z) (k : kind) (x t : string) (e : chatStreamEvent) : MInv m c sent ->
  c_blocks c !! i = Some (mkBlock k t true) -> c_closed c = false ->
  c' = mkClient (c_started c) (<[i := mkBlock k (t +:+ x)%stdpp true]> (c_blocks c)) false false -> m_head m' = m_head m -> m_blocks m' = m_blocks m ->
  (forall j, j <> i -> known (m_items m') j (c_blocks c !! j)) -> known (m_items m') i (Some (mkBlock k (t +:+ x)%stdpp true)) ->
  (forall j, fragment j e = if (j =? i)%Z then x else "") -> MInv m' c' (sends sent [e]) /\ blockOrder (m_blocks m') = (blockOrder (m_blocks m) ++ [])%list.
Proof.
  intros H Hb Hcl -> Eh Eb Ho Hi He. split; [|rewrite Eb, List.app_nil_r; reflexivity].
  assert (forall j, is_Some (<[i := mkBlock k (t +:+ x)%stdpp true]> (c_blocks c) !! j) <-> is_Some (c_blocks c !! j)) as Hsome.
  { intros j. destruct (decide (j = i)) as [->|Hne]; [rewrite lookup_insert_eq, Hb; split; eauto|]. rewrite lookup_insert_ne by congruence. reflexivity. }
  constructor; cbn [c_blocks c_started c_closed]; rewrite ?Eb, ?Eh.
  - intros j. rewrite Hsome. apply (mi_order _ _ _ H).
  - exact (mi_nodup _ _ _ H).
  - intros j. rewrite Hsome. apply (mi_started _ _ _ H).
  - intros j. destruct (decide (j = i)) as [->|Hne]; [rewrite lookup_insert_eq; exact Hi|rewrite lookup_insert_ne by congruence; exact (Ho j Hne)].
  - intros j. unfold sends, fragments. cbn [fold_right]. rewrite He, string_app_nil, (mi_sent _ _ _ H). destruct (Z.eqb_spec j i) as [->|Hne].
    + rewrite lookup_insert_eq, Hb. reflexivity.
    + rewrite lookup_insert_ne by congruence. apply string_app_nil.
  - intros _. exact (mi_done _ _ _ H Hcl).
  - exact (mi_head _ _ _ H).
Qed.

Ltac elsewhere H := let j := fresh "j" in let Hj := fresh "Hj" in intros j Hj; eapply known_other; [..|apply (mi_known _ _ _ H)]; cbn;
  rewrite ?lookup_insert_ne by congruence; reflexivity.

Lemma known_none (m : StreamMapper) (c : Client) (sent : Z -> string) (i : Z) : MInv m c sent -> c_blocks c !! i = None -> known (m_items m) i None.
Proof. intros H E. rewrite <- E. apply (mi_known _ _ _ H). Qed.

Lemma not_started (m : StreamMapper) (c : Client) (sent : Z -> string) (i : Z) : MInv m c sent -> c_blocks c !! i = None -> started m i = false.
Proof. intros H E. unfold started. apply bool_decide_false. intros Hi. apply (mi_started _ _ _ H) in Hi. rewrite E in Hi. destruct Hi; discriminate. Qed.

Lemma thinking_fragment (m : StreamMapper) (i j : Z) (x : string) : fragment j (reasoning_delta m i x) = if (j =? i)%Z then x else "".
Proof. unfold fragment. cbn. rewrite Z.eqb_sym. reflexivity. Qed.

Lemma in_step_sent (m : StreamMapper) (c : Client) (sent sent' : Z -> string) : (forall i, sent' i = sent i) -> MInv m c sent -> MInv m c sent'.
Proof. intros E []. constructor; auto. intros i. rewrite E. auto. Qed.

Lemma sends_app (sent : Z -> string) (a b : list chatStreamEvent) (i : Z) : sends (sends sent a) b i = sends sent (a ++ b) i.
Proof.
  unfold sends. assert (fragments i (a ++ b) = (fragments i a +:+ fragments i b)%stdpp) as ->.
  { induction a as [|e a IH]; [reflexivity|]. unfold fragments in *. cbn [fold_right app]. rewrite IH. apply string_app_assoc. }
  symmetry. apply string_app_assoc.
Qed.

Section Handlers.
Context (ev : gomap) (m : StreamMapper) (c : Client) (sent : Z -> string) (H : MInv m c sent).

Lemma start_step (c' : Client) : accept_all [MsgStart] c = Some c' -> in_step (on_message_start ev) m c' sent [].
Proof.
  cbn. unfold accept. destruct (c_closed c) eqn:Hcl; [discriminate|]. destruct (c_started c) eqn:Hs; [discriminate|]. intros [= <-].
  unfold in_step, on_message_start. rewrite <- (mi_head _ _ _ H), Hs. set (m1 := match obj ev "message" with Some _ => _ | None => _ end).
  assert (m_blocks m1 = m_blocks m /\ m_items m1 = m_items m /\ m_done (m_head m1) = m_done (m_head m) /\ m_started (m_head m1) = true) as (Eb & Ei & Ed & Es).
  { subst m1. destruct (obj ev "message") as [msg|]; [destruct (obj msg "usage")|]; repeat split. }
  cbn [fst snd]. split; [|rewrite Eb, List.app_nil_r; reflexivity]. destruct H. constructor; cbn [c_blocks c_started c_closed]; rewrite ?Eb, ?Ei, ?Ed, ?Es; auto.
  intros i. unfold sends. cbn. rewrite string_app_nil. auto.
Qed.

Lemma text_start_step (c' : Client) (block : gomap) : obj ev "content_block" = Some block -> is_str block "type" "thinking" = false -> is_str block "type" "text" = true ->
  accept_all [MsgBlock (intOr0 ev "index") KText] c = Some c' -> in_step (on_block_start ev) m c' sent [intOr0 ev "index"].
Proof.
  intros Eo E1 E2 Ha. cbn [accept_all] in Ha. destruct (accept c _) as [c1|] eqn:E; [|discriminate]. injection Ha as ->.
  destruct (accept_block_inv _ _ _ _ E) as (_ & _ & _ & Hn). unfold in_step, on_block_start. rewrite Eo, E1, E2, (not_started m c sent _ H Hn).
  apply (begin_step m _ c c' sent _ KText _ H E); try reflexivity; [elsewhere H|]. pose proof (known_none m c sent _ H Hn) as K. cbn in *. tauto.
Qed.

Lemma tool_start_step (c' : Client) (block : gomap) : obj ev "content_block" = Some block -> is_str block "type" "thinking" = false -> is_str block "type" "text" = false ->
  is_str block "type" "tool_use" = true -> accept_all [MsgBlock (intOr0 ev "index") KTool] c = Some c' -> in_step (on_block_start ev) m c' sent [intOr0 ev "index"].
Proof.
  intros Eo E1 E2 E3 Ha. cbn [accept_all] in Ha. destruct (accept c _) as [c1|] eqn:E; [|discriminate]. injection Ha as ->.
  destruct (accept_block_inv _ _ _ _ E) as (_ & _ & _ & Hn). unfold in_step, on_block_start. rewrite Eo, E1, E2, E3, (not_started m c sent _ H Hn).
  apply (begin_step m _ c c' sent _ KTool _ H E); try reflexivity; [elsewhere H|]. pose proof (known_none m c sent _ H Hn) as K. cbn in *.
  rewrite lookup_insert_eq. split; [tauto|]. split; [eauto|tauto].
Qed.

Lemma thinking_start_step (c' : Client) (block : gomap) : obj ev "content_block" = Some block -> is_str block "type" "thinking" = true ->
  accept_all (MsgBlock (intOr0 ev "index") KThinking :: (if String.eqb (str0 block "thinking") "" then [] else [MsgDelta (intOr0 ev "index") KThinking (str0 block "thinking")])) c = Some c' ->
  in_step (on_block_start ev) m c' sent [intOr0 ev "index"].
Proof.
  intros Eo E1 Ha. set (i := intOr0 ev "index") in *. set (x := str0 block "thinking") in *. cbn [accept_all] in Ha. destruct (accept c _) as [c1|] eqn:E; [|discriminate].
  cbn [mbind option_bind] in Ha. destruct (accept_block_inv _ _ _ _ E) as (Ec1 & Hst & Hcl & Hn). unfold in_step, on_block_start. fold i. rewrite Eo, E1, (not_started m c sent i H Hn). fold x.
  set (m1 := order_block i (start_block i m)).
  assert (MInv (set_reasoning i "" m1) c1 (sends sent [item_added i (reasoning_item (set_reasoning i x m1) i "in_progress" "")]) /\
    blockOrder (m_blocks (set_reasoning i "" m1)) = (blockOrder (m_blocks m) ++ [i])%list) as [H1 Ho].
  { apply (begin_step m _ c c1 sent i KThinking _ H E); try reflexivity; [elsewhere H|]. cbn. apply lookup_insert_eq. }
  destruct (String.eqb_spec x "") as [Ex|Ex]; cbn [fst snd].
  - cbn [accept_all] in Ha. injection Ha as <-. rewrite Ex in *. split; assumption.
  - cbn [accept_all] in Ha. destruct (accept c1 _) as [c2|] eqn:E2; [|discriminate]. injection Ha as ->. apply accept_delta_inv in E2 as (t & Hb & Hc1 & ->).
    assert (t = "") as -> by (rewrite Ec1 in Hb; cbn in Hb; rewrite lookup_insert_eq in Hb; congruence).
    destruct (grow_step (set_reasoning i "" m1) (set_reasoning i x m1) c1 _ (sends sent [item_added i (reasoning_item (set_reasoning i x m1) i "in_progress" "")])
      i KThinking x "" (reasoning_delta (set_reasoning i x m1) i x) H1 Hb Hc1 eq_refl eq_refl eq_refl) as [H2 _].
    + intros j Hj. eapply known_other; [..|apply (mi_known _ _ _ H1)]; cbn; rewrite ?lookup_insert_ne by congruence; reflexivity.
    + cbn. rewrite lookup_insert_eq. reflexivity.
    + intros j. apply thinking_fragment.
    + split; [|exact Ho]. eapply in_step_sent; [|exact H2]. intros j. rewrite sends_app. reflexivity.
Qed.

Lemma delta_step (c' : Client) (delta : gomap) : obj ev "delta" = Some delta ->
  (is_str delta "type" "thinking_delta" = true -> accept_all [MsgDelta (intOr0 ev "index") KThinking (str0 delta "thinking")] c = Some c' ->
    in_step (on_block_delta ev) m c' sent []) /\
  (is_str delta "type" "thinking_delta" = false -> is_str delta "type" "text_delta" = true ->
    accept_all [MsgDelta (intOr0 ev "index") KText (str0 delta "text")] c = Some c' -> in_step (on_block_delta ev) m c' sent []) /\
  (is_str delta "type" "thinking_delta" = false -> is_str delta "type" "text_delta" = false -> is_str delta "type" "input_json_delta" = true ->
    accept_all [MsgDelta (intOr0 ev "index") KTool (str0 delta "partial_json")] c = Some c' -> in_step (on_block_delta ev) m c' sent []).
Proof.
  intros Eo. set (i := intOr0 ev "index"). unfold in_step, on_block_delta. rewrite Eo. fold i. cbn [accept_all].
  split; [|split]; [intros E1 Ha|intros E1 E2 Ha|intros E1 E2 E3 Ha]; rewrite E1, ?E2, ?E3; (destruct (accept c _) as [c1|] eqn:E; [|discriminate]); injection Ha as ->;
    apply accept_delta_inv in E as (t & Hb & Hcl & Ec); pose proof (mi_known _ _ _ H i) as K; rewrite Hb in K; cbn in K;
    eapply (grow_step m _ c c' sent i _ _ t); try eassumption; try reflexivity; try solve [elsewhere H].
  - cbn. unfold at0. rewrite K, lookup_insert_eq. reflexivity.
  - intros j. apply thinking_fragment.
  - destruct K as (K1 & K2 & K3). cbn. rewrite at0_insert, K3. auto.
  - intros j. unfold fragment. cbn. rewrite Z.eqb_sym. reflexivity.
  - destruct K as (K1 & K2 & K3). cbn. rewrite at0_insert, K3. auto.
  - intros j. unfold fragment. cbn. rewrite Z.eqb_sym. reflexivity.
Qed.

(** An event that changes no block's text. *)
Lemma quiet_step (c' : Client) (m' : StreamMapper) (out : list chatStreamEvent) : m_items m' = m_items m -> blockOrder (m_blocks m') = blockOrder (m_blocks m) ->
  blockStarted (m_blocks m') = blockStarted (m_blocks m) -> m_started (m_head m') = m_started (m_head m) -> c_started c' = c_started c ->
  (c_closed c' = false -> m_done (m_head m') = false) -> (forall i, fragments i out = "") ->
  (forall i, (fun b => (b_kind b, b_text b)) <$> c_blocks c' !! i = (fun b => (b_kind b, b_text b)) <$> c_blocks c !! i) ->
  MInv m' c' (sends sent out) /\ blockOrder (m_blocks m') = (blockOrder (m_blocks m) ++ [])%list.
Proof.
  intros Ei Eo Es Eh Ec Hd Hf Hb. split; [|rewrite Eo, List.app_nil_r; reflexivity].
  assert (forall i, is_Some (c_blocks c' !! i) <-> is_Some (c_blocks c !! i)) as Hsome by (intros i; rewrite <- (fmap_is_Some (fun b => (b_kind b, b_text b)) (c_blocks c' !! i)), Hb; apply fmap_is_Some).
  constructor; rewrite ?Ei, ?Eo, ?Es, ?Eh; try assumption.
  - intros i. rewrite Hsome. apply (mi_order _ _ _ H).
  - exact (mi_nodup _ _ _ H).
  - intros i. rewrite Hsome. apply (mi_started _ _ _ H).
  - intros i. pose proof (mi_known _ _ _ H i) as K. specialize (Hb i). destruct (c_blocks c !! i) as [[k t o]|], (c_blocks c' !! i) as [[k' t' o']|]; cbn in Hb; try discriminate; [|exact K].
    injection Hb as -> ->. destruct k; exact K.
  - intros i. unfold sends. rewrite Hf, string_app_nil, (mi_sent _ _ _ H). specialize (Hb i).
    destruct (c_blocks c !! i) as [[k t o]|], (c_blocks c' !! i) as [[k' t' o']|]; cbn in *; try discriminate; [congruence|reflexivity].
  - rewrite Ec. exact (mi_head _ _ _ H).
Qed.

Lemma stop_step (c' : Client) : accept_all [MsgBlockStop (intOr0 ev "index")] c = Some c' -> in_step (on_block_stop ev) m c' sent [].
Proof.
  cbn. set (i := intOr0 ev "index"). unfold accept. destruct (c_closed c) eqn:Hcl; [discriminate|]. destruct (c_ended c); [discriminate|].
  destruct (c_blocks c !! i) as [[k t []]|] eqn:Eb; try discriminate. intros [= <-].
  assert (forall j, (fun b => (b_kind b, b_text b)) <$> <[i := mkBlock k t false]> (c_blocks c) !! j = (fun b => (b_kind b, b_text b)) <$> c_blocks c !! j) as Hb.
  { intros j. destruct (decide (j = i)) as [->|]; [rewrite lookup_insert_eq, Eb; reflexivity|rewrite lookup_insert_ne by congruence; reflexivity]. }
  unfold in_step, on_block_stop. fold i. destruct (reasoningByIndex (m_items m) !! i) as [x|]; [destruct (started m i && negb (stopped m i))|];
    apply quiet_step; auto; intros _; exact (mi_done _ _ _ H Hcl).
Qed.

Lemma end_step (c' : Client) : accept_all [MsgEnd] c = Some c' -> in_step (on_message_delta ev) m c' sent [].
Proof.
  cbn. unfold accept. destruct (c_closed c) eqn:Hcl; [discriminate|]. destruct (c_started c) eqn:Hs; [|discriminate]. cbn.
  destruct (negb (c_ended c) && _); [|discriminate]. intros [= <-]. unfold in_step, on_message_delta.
  destruct (obj ev "usage"), (obj ev "delta"); apply quiet_step; auto; intros _; exact (mi_done _ _ _ H Hcl).
Qed.

Lemma error_step (c' : Client) : accept_all (match obj ev "error" with Some _ => [MsgError] | None => [] end) c = Some c' -> in_step (on_error ev) m c' sent [].
Proof.
  unfold in_step, on_error. destruct (obj ev "error") as [e|]; cbn.
  - unfold accept. destruct (c_closed c) eqn:Hcl; [discriminate|]. intros [= <-]. apply quiet_step; auto. intros. exact (mi_done _ _ _ H Hcl).
  - intros [= <-]. apply quiet_step; auto. exact (mi_done _ _ _ H).
Qed.

Lemma message_stop_step (c' : Client) : accept_all [MsgStop] c = Some c' -> in_step on_message_stop m c' sent [].
Proof.
  cbn. unfold accept. destruct (c_closed c) eqn:Hcl; [discriminate|]. destruct (c_ended c); [|discriminate]. intros [= <-].
  unfold in_step, on_message_stop. rewrite (mi_done _ _ _ H Hcl). apply quiet_step; auto.
Qed.

Lemma ignored_step (c' : Client) : Some c = Some c' -> in_step (fun m => ([], m)) m c' sent [].
Proof. intros [= <-]. apply quiet_step; auto. exact (mi_done _ _ _ H). Qed.
End Handlers.

(** ** Streams *)

Lemma event_step (name : string) (ev : gomap) (m : StreamMapper) (c c' : Client) (sent : Z -> string) : MInv m c sent -> accept_all (read_mess name ev) c = Some c' ->
  in_step (mess_to_resp name ev) m c' sent (block_starts (read_mess name ev)).
Proof.
  intros H. unfold read_mess, in_step, mess_to_resp.
  destruct (String.eqb name "message_start"); [exact (start_step ev m c sent H c')|].
  destruct (String.eqb name "content_block_start").
  { destruct (obj ev "content_block") as [block|] eqn:Eo; [|intros Ha; unfold on_block_start; rewrite Eo; exact (ignored_step m c sent H c' Ha)].
    destruct (is_str block "type" "thinking") eqn:E1.
    { intros Ha. pose proof (thinking_start_step ev m c sent H c' block Eo E1 Ha) as Hs. destruct (String.eqb (str0 block "thinking") ""); exact Hs. }
    destruct (is_str block "type" "text") eqn:E2; [exact (text_start_step ev m c sent H c' block Eo E1 E2)|].
    destruct (is_str block "type" "tool_use") eqn:E3; [exact (tool_start_step ev m c sent H c' block Eo E1 E2 E3)|].
    intros Ha. unfold on_block_start. rewrite Eo, E1, E2, E3. exact (ignored_step m c sent H c' Ha). }
  destruct (String.eqb name "content_block_delta").
  { destruct (obj ev "delta") as [delta|] eqn:Eo; [|intros Ha; unfold on_block_delta; rewrite Eo; exact (ignored_step m c sent H c' Ha)].
    destruct (delta_step ev m c sent H c' delta Eo) as (D1 & D2 & D3). destruct (is_str delta "type" "thinking_delta") eqn:E1; [exact (D1 eq_refl)|].
    destruct (is_str delta "type" "text_delta") eqn:E2; [exact (D2 eq_refl eq_refl)|].
    destruct (is_str delta "type" "input_json_delta") eqn:E3; [exact (D3 eq_refl eq_refl eq_refl)|].
    intros Ha. unfold on_block_delta. rewrite Eo, E1, E2, E3. exact (ignored_step m c sent H c' Ha). }
  destruct (String.eqb name "content_block_stop"); [exact (stop_step ev m c sent H c')|].
  destruct (String.eqb name "message_delta"); [exact (end_step ev m c sent H c')|].
  destruct (String.eqb name "message_stop"); [exact (message_stop_step m c sent H c')|].
  destruct (String.eqb name "error"); [|exact (ignored_step m c sent H c')].
  intros Ha. pose proof (error_step ev m c sent H c' Ha) as Hs. destruct (obj ev "error"); exact Hs.
Qed.

Lemma block_starts_app (a b : list MsgEvent) : block_starts (a ++ b) = (block_starts a ++ block_starts b)%list.
Proof. induction a as [|[] a IH]; cbn; rewrite ?IH; reflexivity. Qed.

Lemma accept_app (a b : list MsgEvent) (c : Client) : accept_all (a ++ b) c = c' ← accept_all a c; accept_all b c'.
Proof. revert c. induction a as [|e a IH]; intros c; cbn; [reflexivity|]. destruct (accept c e); cbn; [apply IH|reflexivity]. Qed.

Lemma run_mess_step (es : list (string * bytes)) : forall m c c' sent, MInv m c sent -> accept_all (said es) c = Some c' -> in_step (run_mess es) m c' sent (block_starts (said es)).
Proof.
  induction es as [|[name data] es IH]; intros m c c' sent H Ha; [exact (ignored_step m c sent H c' Ha)|].
  cbn [said flat_map fst snd] in *. fold (said es) in *. rewrite accept_app in Ha. set (now := match decodeObj data with Some _ => _ | None => _ end) in *.
  destruct (accept_all now c) as [c1|] eqn:E1; [|discriminate]. cbn [mbind option_bind] in Ha.
  assert (in_step (mapMessToResp name data) m c1 sent (block_starts now)) as [H1 O1].
  { subst now. unfold in_step, mapMessToResp. destruct (decodeObj data) as [ev|]; [exact (event_step name ev m c c1 sent H E1)|exact (ignored_step m c sent H c1 E1)]. }
  unfold in_step. cbn [run_mess]. destruct (mapMessToResp name data m) as [o1 m1]. cbn [fst snd] in *.
  destruct (IH m1 c1 c' _ H1 Ha) as [H2 O2]. destruct (run_mess es m1) as [o2 m2]. cbn [fst snd] in *. split.
  - eapply in_step_sent; [|exact H2]. intros i. rewrite sends_app. reflexivity.
  - rewrite O2, O1, block_starts_app, app_assoc. reflexivity.
Qed.

Lemma mess_start : MInv NewStreamMapper new_client (fun _ => "").
Proof.
  constructor; cbn; auto; try (intros i; rewrite lookup_empty; split; [set_solver|intros []; discriminate]); try apply NoDup_nil_2.
  intros i. rewrite lookup_empty. repeat split.
Qed.

(** The items of the final event are the blocks. *)
Lemma output_views (m : StreamMapper) (c : Client) (sent : Z -> string) : MInv m c sent ->
  map read_item (messOutputItems m) = map (block_view c) (blockOrder (m_blocks m)).
Proof.
  intros H. unfold messOutputItems. rewrite map_map. apply map_ext_in. intros i Hi. apply list_elem_of_In, (mi_order _ _ _ H) in Hi as [b Hb].
  pose proof (mi_known _ _ _ H i) as K. unfold block_view. rewrite Hb in *. destruct b as [[] x o]; cbn in K |- *.
  - rewrite K. reflexivity.
  - destruct K as (-> & -> & ->). reflexivity.
  - destruct K as (-> & [name ->] & ->). reflexivity.
Qed.

Lemma run_mess_app (es rest : list (string * bytes)) : forall m, run_mess (es ++ rest) m =
  let '(o, m) := run_mess es m in let '(o', m) := run_mess rest m in (o ++ o', m)%list.
Proof.
  induction es as [|[n d] es IH]; intros m; [cbn; destruct (run_mess rest m); reflexivity|]. cbn [app run_mess].
  destruct (mapMessToResp n d m) as [o1 m1]. rewrite IH. destruct (run_mess es m1) as [o2 m2]. destruct (run_mess rest m2) as [o3 m3]. rewrite app_assoc. reflexivity.
Qed.

(** From any point of a stream to its end. *)
Lemma run_completed (es : list (string * bytes)) (stop_data : bytes) (m : StreamMapper) (c c' : Client) (sent : Z -> string) : MInv m c sent ->
  accept_all (said es) c = Some c' -> c_closed c' = false -> isSome (decodeObj stop_data) = true ->
  exists out data, (run_mess (es ++ [("message_stop", stop_data)]) m).1 = (out ++ [("response.completed", data)])%list /\
    completed_output data = Some (map (block_view c') (blockOrder (m_blocks m) ++ block_starts (said es))) /\
    NoDup (blockOrder (m_blocks m) ++ block_starts (said es)) /\
    (forall i, i ∈ (blockOrder (m_blocks m) ++ block_starts (said es))%list <-> is_Some (c_blocks c' !! i)) /\
    forall i b, c_blocks c' !! i = Some b -> sends sent out i = b_text b.
Proof.
  intros H0 Ha Hcl Hd. destruct (run_mess_step es _ _ _ _ H0 Ha) as [H Ho]. rewrite run_mess_app.
  destruct (run_mess es m) as [out m1] eqn:Er. cbn [fst snd] in H, Ho. cbn [run_mess]. unfold mapMessToResp.
  destruct (decodeObj stop_data) as [ev|]; [|discriminate]. unfold mess_to_resp. cbn [String.eqb Ascii.eqb Bool.eqb]. unfold on_message_stop.
  rewrite (mi_done _ _ _ H Hcl). cbn [fst app]. exists out. eexists. split; [reflexivity|]. rewrite <- Ho. split.
  { pose proof (output_views m1 c' _ H) as Hv. rewrite <- Hv. reflexivity. }
  split; [exact (mi_nodup _ _ _ H)|]. split; [exact (mi_order _ _ _ H)|]. intros i b Hb.
  pose proof (mi_sent _ _ _ H i) as Hs. rewrite Hb in Hs. exact Hs.
Qed.

(** C19: For a Messages stream its protocol accepts, the last event of the Responses
    stream is [response.completed]; its output lists each block once, in the order
    of their starts, with the kind and the whole text of the block, and the
    fragments sent before for an index are that text. *)
Theorem mess_stream_completed (es : list (string * bytes)) (stop_data : bytes) (c : Client) : accept_all (said es) new_client = Some c ->
  c_closed c = false -> isSome (decodeObj stop_data) = true ->
  exists out data, (run_mess (es ++ [("message_stop", stop_data)]) NewStreamMapper).1 = (out ++ [("response.completed", data)])%list /\
    completed_output data = Some (map (block_view c) (block_starts (said es))) /\
    NoDup (block_starts (said es)) /\
    (forall i, i ∈ block_starts (said es) <-> is_Some (c_blocks c !! i)) /\ forall i b, c_blocks c !! i = Some b -> fragments i out = b_text b.
Proof. intros Ha Hcl Hd. exact (run_completed es stop_data NewStreamMapper new_client c _ mess_start Ha Hcl Hd). Qed.

(** Thinking, text and a tool call. *)
Definition demo_mess : list (string * bytes) := map (fun e => (e.1, jt e.2))
  [("message_start", "{'message':{'id':'x','model':'m','usage':{'input_tokens':5}}}");
   ("content_block_start", "{'index':0,'content_block':{'type':'thinking','thinking':'h'}}");
   ("content_block_delta", "{'index':0,'delta':{'type':'thinking_delta','thinking':'m'}}");
   ("content_block_delta", "{'index':0,'delta':{'type':'signature_delta','signature':'s'}}"); ("content_block_stop", "{'index':0}"); ("ping", "{}");
   ("content_block_start", "{'index':1,'content_block':{'type':'text','text':''}}");
   ("content_block_delta", "{'index':1,'delta':{'type':'text_delta','text':'He'}}");
   ("content_block_delta", "{'index':1,'delta':{'type':'text_delta','text':'y'}}"); ("content_block_stop", "{'index':1}");
   ("content_block_start", "{'index':2,'content_block':{'type':'tool_use','id':'t','name':'f'}}");
   ("content_block_delta", "{'index':2,'delta':{'type':'input_json_delta','partial_json':'{}'}}"); ("content_block_stop", "{'index':2}");
   ("message_delta", "{'delta':{'stop_reason':'tool_use'},'usage':{'output_tokens':7}}")].

Definition demo_client : Client := default new_client (accept_all (said demo_mess) new_client).

Lemma mess_stream_completed_witness : map (block_view demo_client) (block_starts (said demo_mess)) = [Some (KThinking, "hm"); Some (KText, "Hey"); Some (KTool, "{}")] /\
  exists out data, (run_mess (demo_mess ++ [("message_stop", jt "{}")]) NewStreamMapper).1 = (out ++ [("response.completed", data)])%list /\
    completed_output data = Some (map (block_view demo_client) (block_starts (said demo_mess))) /\ NoDup (block_starts (said demo_mess)) /\
    (forall i, i ∈ block_starts (said demo_mess) <-> is_Some (c_blocks demo_client !! i)) /\
    forall i b, c_blocks demo_client !! i = Some b -> fragments i out = b_text b.
Proof. split; [vm_compute; reflexivity|]. apply (mess_stream_completed demo_mess (jt "{}") demo_client); vm_compute; reflexivity. Defined.
