(* ===== verification/ChatResponses.v ===== *)
(** * Chat streams as Responses streams

    [mapChatToResp] of [chat_target.go] composes two mappers: the chunks of a Chat
    stream become Messages events, each is written as JSON, and a second mapper
    reads it and emits Responses events.  The theorem is end to end: after the end
    of an ordinary stream the last event is [response.completed], and its output,
    like the fragments sent before it, is the text, the reasoning and the tool
    arguments of the chunks. *)

From Stdlib Require Import ZArith Lia List Bool String Ascii.
From Stdlib Require Import Floats.SpecFloat.
From stdpp Require Import base option list gmap strings.
From S2P Require Import Prelude GoString JsonScan JsonText GoJson SseRelay ProtoJson MarshalText Utf8Text StreamMapper ChatStream MessStream.
Import ListNotations.
Local Open Scope Z_scope.
Local Open Scope list_scope.
Local Open Scope string_scope.

Section Composed.
Context (format_float : spec_float -> bytes).

(** What the inner mapper is given: the event's name and its JSON. *)
Definition wire (e : chatStreamEvent) : string * bytes := (e.1, Marshal format_float (AObj e.2)).

(** The inner mapper takes the counters of the outer one. *)
Definition with_counters (m inner : StreamMapper) : StreamMapper :=
  set_cached (m_cached (m_head m)) (set_ot (m_ot (m_head m)) (set_it (m_it (m_head m)) inner)).

Definition mapChatToResp (data : bytes) (s : StreamMapper * StreamMapper) : list chatStreamEvent * (StreamMapper * StreamMapper) :=
  let '(events, m) := chatToMessEvents data s.1 in
  match events with
  | [] => ([], (m, s.2))
  | _ => let '(out, inner) := run_mess (map wire events) (with_counters m s.2) in (out, (m, inner))
  end.

Fixpoint run_both (chunks : list bytes) (s : StreamMapper * StreamMapper) : list chatStreamEvent * (StreamMapper * StreamMapper) :=
  match chunks with
  | [] => ([], s)
  | data :: chunks =>
      let '(out, s) := mapChatToResp data s in
      let '(out', s) := run_both chunks s in ((out ++ out')%list, s)
  end.
End Composed.

(** ** Events as the inner mapper reads them *)

Definition nice (s : string) : Prop := valid s = s.
Definition counter (n : Z) : Prop := 0 <= n <= max64.

(** The events of the outer mapper, with well-formed strings and 64-bit counters. *)
Inductive clean : chatStreamEvent -> MsgEvent -> Prop :=
| cl_start m usage : nice (m_id (m_head m)) -> nice (m_model (m_head m)) -> (forall fmt, Writable fmt 1 (AObj usage)) -> clean (message_start m usage) MsgStart
| cl_thinking i : clean (block_start i thinking_block) (MsgBlock i KThinking)
| cl_text i : clean (block_start i text_block) (MsgBlock i KText)
| cl_tool i id name : nice id -> nice name -> clean (block_start i (tool_block id name)) (MsgBlock i KTool)
| cl_thinking_delta i s : nice s -> clean (block_delta i (thinking_delta s)) (MsgDelta i KThinking s)
| cl_text_delta i s : nice s -> clean (block_delta i (text_delta s)) (MsgDelta i KText s)
| cl_json_delta i s : nice s -> clean (block_delta i (json_delta s)) (MsgDelta i KTool s)
| cl_stop i : clean (block_stop i) (MsgBlockStop i)
| cl_end reason ot : counter ot -> clean (message_delta reason ot) MsgEnd
| cl_message_stop : clean message_stop MsgStop
| cl_error e : clean (error_event e) MsgError.

(** The index of an event fits a [float64]. *)
Definition exact_index (e : chatStreamEvent) : Prop := forall i, index_of_event e.2 = Some i -> 0 <= i < 2 ^ 53.

Ltac written := repeat first
  [ apply W_nil | apply W_bool | apply W_str | apply W_int; unfold_int; lia | assumption
  | apply W_arr; apply List.Forall_nil
  | apply W_arr; repeat apply List.Forall_cons; try apply List.Forall_nil
  | apply W_obj; [keys|lits|repeat (apply List.Forall_cons; [cbn [snd]|]); try apply List.Forall_nil] ].

Lemma clean_writable (fmt : spec_float -> bytes) (e : chatStreamEvent) (ev : MsgEvent) : clean e ev -> exact_index e -> Writable fmt 3 (AObj e.2) /\ NoDup (map fst e.2).
Proof.
  intros Hc Hx. assert (forall i, index_of_event e.2 = Some i -> counter i) as Hi by (intros i Ei; specialize (Hx i Ei); unfold counter; unfold_int; lia).
  unfold counter in Hi. destruct Hc; (split; [|keys]); try specialize (Hi i eq_refl); try specialize (H1 fmt); unfold counter in *;
    cbn [snd message_start block_start block_delta block_stop message_delta message_stop error_event]; written.
Qed.

Lemma is_str_reread (m : gomap) (k s lit : string) : NoDup (map fst m) -> str m k = Some s -> nice s -> is_str (by_key reread m) k lit = String.eqb s lit.
Proof. intros Hm E Hs. unfold is_str. rewrite str_reread, E by exact Hm. cbn. rewrite Hs. reflexivity. Qed.

Lemma str0_reread (m : gomap) (k s : string) : NoDup (map fst m) -> str m k = Some s -> nice s -> str0 (by_key reread m) k = s.
Proof. intros Hm E Hs. unfold str0. rewrite str_reread, E by exact Hm. cbn. exact Hs. Qed.

Ltac type_is m t := rewrite !(fun lit => is_str_reread m "type" t lit ltac:(keys) eq_refl ltac:(vm_compute; reflexivity)).

Lemma clean_read (e : chatStreamEvent) (ev : MsgEvent) : clean e ev -> exact_index e -> read_mess e.1 (by_key reread e.2) = [ev].
Proof.
  intros Hc Hx. assert (forall i, NoDup (map fst e.2) -> get e.2 "index" = Some (AInt i) -> intOr0 (by_key reread e.2) "index" = i) as Hi.
  { intros i Hnd Hg. apply int_reread; [exact Hnd|exact Hg|]. apply Hx. unfold index_of_event. rewrite Hg. reflexivity. }
  unfold read_mess. destruct Hc; try specialize (Hi i ltac:(keys) eq_refl); try rewrite Hi;
    cbn [fst message_start block_start block_delta block_stop message_delta message_stop error_event String.eqb Ascii.eqb Bool.eqb]; try reflexivity.
  - rewrite obj_reread by keys. assert (obj (block_delta i (thinking_delta s)).2 "delta" = Some (thinking_delta s)) as E by reflexivity. rewrite E. clear E. cbn [fmap option_fmap option_map].
    type_is (thinking_delta s) "thinking_delta". match goal with Hs : nice s |- _ => rewrite (str0_reread (thinking_delta s) "thinking" s ltac:(keys) eq_refl Hs) end. reflexivity.
  - rewrite obj_reread by keys. assert (obj (block_delta i (text_delta s)).2 "delta" = Some (text_delta s)) as E by reflexivity. rewrite E. clear E. cbn [fmap option_fmap option_map].
    type_is (text_delta s) "text_delta". match goal with Hs : nice s |- _ => rewrite (str0_reread (text_delta s) "text" s ltac:(keys) eq_refl Hs) end. reflexivity.
  - rewrite obj_reread by keys. assert (obj (block_delta i (json_delta s)).2 "delta" = Some (json_delta s)) as E by reflexivity. rewrite E. clear E. cbn [fmap option_fmap option_map].
    type_is (json_delta s) "input_json_delta". match goal with Hs : nice s |- _ => rewrite (str0_reread (json_delta s) "partial_json" s ltac:(keys) eq_refl Hs) end. reflexivity.
Qed.

Lemma clean_wire (fmt : spec_float -> bytes) (e : chatStreamEvent) (ev : MsgEvent) : clean e ev -> exact_index e -> said [wire fmt e] = [ev].
Proof.
  intros Hc Hx. destruct (clean_writable fmt e ev Hc Hx) as [Hw _]. cbn [said flat_map wire fst snd]. unfold decodeObj.
  rewrite (marshal_unmarshal fmt (AObj e.2) 3 Hw) by (vm_compute; discriminate). cbn [reread]. rewrite (clean_read e ev Hc Hx). reflexivity.
Qed.

Lemma clean_event (e : chatStreamEvent) (ev : MsgEvent) : clean e ev -> read_event e = Some ev.
Proof. destruct 1; reflexivity. Qed.

(** ** The outer mapper emits such events *)

Record Clean (m : StreamMapper) : Prop := mkClean {
  cn_id : nice (m_id (m_head m)); cn_model : nice (m_model (m_head m));
  cn_it : counter (m_it (m_head m)); cn_ot : counter (m_ot (m_head m)); cn_cached : counter (m_cached (m_head m));
  cn_args : forall i, nice (at0 (argsByIndex (m_items m)) i);
  cn_ids : forall i, nice (at0 (fcIDs (m_items m)) i);
  cn_names : forall i, nice (at0 (fcNames (m_items m)) i)
}.

Definition neat (e : chatStreamEvent) : Prop := exists ev, clean e ev.

Definition tidy (op : M (list chatStreamEvent)) (m : StreamMapper) : Prop := Forall neat (op m).1 /\ Clean (op m).2.

Lemma nice_empty : nice "".
Proof. reflexivity. Qed.

Lemma nice_app (a b : string) : nice a -> nice b -> nice (a +:+ b)%stdpp.
Proof. apply valid_app. Qed.

Lemma nice_set (t : gmap Z string) (i : Z) (s : string) : nice s -> (forall j, nice (at0 t j)) -> forall j, nice (at0 (<[i := s]> t) j).
Proof. intros Hs Ht j. destruct (decide (j = i)) as [->|Hne]; [rewrite at0_insert; exact Hs|rewrite at0_insert_ne by exact Hne; apply Ht]. Qed.

Lemma int_counter (m : gomap) (k : string) : counter (intOr0 m k).
Proof. pose proof (intOr0_range m k). unfold counter. unfold_int. lia. Qed.

Lemma nice_number (n : Z) : nice (FormatInt n).
Proof.
  apply valid_wf. unfold FormatInt. assert (forall fuel n acc, Wf (bs acc) -> Wf (bs (print_digits fuel n acc))) as Hp.
  { induction fuel as [|fuel IH]; intros k acc H; [exact H|]. cbn [print_digits].
    assert (Wf (bs (String (byte_of (48 + k mod 10)) acc))) as H'.
    { apply (wf_app [_] (bs acc)); [|exact H]. apply wf_ascii. pose proof (Z.mod_pos_bound k 10 ltac:(lia)). rewrite byte_val_of by lia. lia. }
    destruct (k / 10 =? 0)%Z; [exact H'|apply IH, H']. }
  destruct (n <? 0)%Z; [|apply Hp, wf_nil]. apply (wf_app ["-"%char] (bs (print_digits 20 (- n) ""))); [apply wf_ascii; reflexivity|apply Hp, wf_nil].
Qed.

(** The fields other than strings and counters do not matter. *)
Lemma clean_same (m m' : StreamMapper) : m_head m' = m_head m -> m_items m' = m_items m -> Clean m -> Clean m'.
Proof. intros Eh Ei []. constructor; rewrite ?Eh, ?Ei; assumption. Qed.

Lemma tidy_nothing (m : StreamMapper) : Clean m -> Forall neat [] /\ Clean m.
Proof. split; [constructor|assumption]. Qed.

Lemma open_tidy (i : Z) (block : gomap) (m : StreamMapper) : Clean m -> neat (block_start i block) -> tidy (open_with i block) m.
Proof. intros H Hb. unfold tidy, open_with. destruct (started m i); (split; [repeat constructor; assumption|eapply clean_same; [..|exact H]; reflexivity]). Qed.

Lemma first_reasoning_nice (delta : gomap) (s : string) : StringsIn delta -> firstChatReasoning delta = Some s -> nice s.
Proof.
  intros H. unfold firstChatReasoning. cbn [omap list_omap]. intros E.
  repeat match type of E with context [str delta ?k] => let G := fresh "G" in destruct (str delta k) as [?|] eqn:G; [apply (str_valid delta k _ H) in G|] end;
    cbn [mbind option_bind] in E; repeat match type of E with context [String.eqb ?x ""] => destruct (String.eqb x "") end; congruence.
Qed.

Lemma reasoning_tidy (delta : gomap) (m : StreamMapper) : Clean m -> StringsIn delta -> tidy (reasoning_events delta) m.
Proof.
  intros H Hd. unfold tidy, reasoning_events. destruct (firstChatReasoning delta) as [s|] eqn:E; [|apply tidy_nothing, H].
  destruct (String.eqb s ""); [apply tidy_nothing, H|]. apply first_reasoning_nice in E; [|exact Hd].
  assert (Clean (chatReasoningBlock m).2) as H1 by (unfold chatReasoningBlock; destruct (chatReasoningSet _); [exact H|eapply clean_same; [..|exact H]; reflexivity]).
  destruct (chatReasoningBlock m) as [i m1]. cbn [snd] in H1. destruct (open_tidy i thinking_block m1 H1) as [F C]; [eexists; constructor|].
  destruct (open_with i thinking_block m1) as [out m2]. cbn [fst snd] in *. split; [|exact C]. apply Forall_app. split; [exact F|].
  repeat constructor. eexists. constructor. exact E.
Qed.

Lemma text_tidy (delta : gomap) (m : StreamMapper) : Clean m -> StringsIn delta -> tidy (text_events delta) m.
Proof.
  intros H Hd. unfold tidy, text_events. destruct (str delta "content") as [s|] eqn:E; [|apply tidy_nothing, H].
  destruct (String.eqb s ""); [apply tidy_nothing, H|]. apply (str_valid delta _ s Hd) in E.
  assert (Clean (chatTextBlock m).2) as H1 by (unfold chatTextBlock; destruct (chatTextSet _); [exact H|eapply clean_same; [..|exact H]; reflexivity]).
  destruct (chatTextBlock m) as [i m1]. cbn [snd] in H1. destruct (open_tidy i text_block m1 H1) as [F C]; [eexists; constructor|].
  destruct (open_with i text_block m1) as [out m2]. cbn [fst snd] in *. split; [|exact C]. apply Forall_app. split; [exact F|].
  repeat constructor. eexists. constructor. exact E.
Qed.

Lemma merge_nice (a b : string) : nice a -> nice b -> nice (mergeChatFragment a b).
Proof.
  intros Ha Hb. unfold mergeChatFragment, firstNonEmptyChatFragment. destruct (String.eqb b ""); [exact Ha|].
  destruct (String.eqb a "" || String.eqb a b); [destruct (String.eqb a ""); assumption|]. destruct (HasPrefix b a); [exact Hb|].
  destruct (HasPrefix a b); [exact Ha|apply nice_app; assumption].
Qed.

Lemma clean_fcid (i : Z) (s : string) (m : StreamMapper) : Clean m -> nice s -> Clean (set_fcid i s m).
Proof. intros [] Hs. constructor; try assumption. cbn. apply nice_set; assumption. Qed.

Lemma clean_name (i : Z) (s : string) (m : StreamMapper) : Clean m -> nice s -> Clean (set_name i s m).
Proof. intros [] Hs. constructor; try assumption. cbn. apply nice_set; assumption. Qed.

Lemma clean_args (i : Z) (s : string) (m : StreamMapper) : Clean m -> nice s -> Clean (set_args i s m).
Proof. intros [] Hs. constructor; try assumption. cbn. apply nice_set; assumption. Qed.

Lemma start_tool_tidy (i : Z) (m : StreamMapper) : Clean m -> tidy (startChatToolBlock i) m.
Proof.
  intros H. unfold tidy, startChatToolBlock. destruct (started m i); [apply tidy_nothing, H|].
  assert (Clean (start_block i m)) as H1 by (eapply clean_same; [..|exact H]; reflexivity).
  set (p := if String.eqb (at0 (fcIDs (m_items (start_block i m))) i) "" then _ else _).
  assert (exists id m2, p = (id, m2) /\ nice id /\ Clean m2) as (id & m2 & Ep & Hid & H2).
  { subst p. destruct (String.eqb _ ""); eexists _, _; (split; [reflexivity|]).
    - assert (nice ("call_" +:+ m_id (m_head (start_block i m)) +:+ "_" +:+ FormatInt i)%stdpp) as Hn.
      { apply nice_app; [vm_compute; reflexivity|]. apply nice_app; [apply (cn_id _ H1)|]. apply nice_app; [vm_compute; reflexivity|apply nice_number]. }
      split; [exact Hn|apply clean_fcid; assumption].
    - split; [apply (cn_ids _ H1)|exact H1]. }
  rewrite Ep. assert (neat (block_start i (tool_block id (at0 (fcNames (m_items m2)) i)))) as Hh by (eexists; constructor; [exact Hid|apply (cn_names _ H2)]).
  destruct (String.eqb (at0 (argsByIndex (m_items m2)) i) ""); cbn [fst snd]; (split; [|]).
  - repeat constructor. exact Hh.
  - exact H2.
  - repeat constructor; [exact Hh|]. eexists. constructor. apply (cn_args _ H2).
  - apply clean_args; [exact H2|exact nice_empty].
Qed.

Lemma tool_tidy (call : gomap) (m : StreamMapper) : Clean m -> StringsIn call -> tidy (tool_event call) m.
Proof.
  intros H Hc. unfold tidy, tool_event.
  assert (Clean (chatToolBlock (intOr0 call "index") m).2) as H1 by (unfold chatToolBlock; destruct (_ !! _); [exact H|eapply clean_same; [..|exact H]; reflexivity]).
  destruct (chatToolBlock (intOr0 call "index") m) as [i m1]. cbn [snd] in H1.
  assert (Clean (merge_id i call m1)) as H2.
  { unfold merge_id. destruct (str call "id") as [id|] eqn:E; [|exact H1]. destruct (String.eqb id ""); [exact H1|].
    apply clean_fcid; [exact H1|]. apply merge_nice; [apply (cn_ids _ H1)|exact (str_valid _ _ _ Hc E)]. }
  set (m2 := merge_id i call m1) in *. set (p := match obj call "function" with Some f => _ | None => _ end).
  assert (exists x m3, p = (x, m3) /\ nice x /\ Clean m3) as (x & m3 & Ep & Hx & H3).
  { subst p. destruct (obj call "function") as [f|] eqn:E; eexists _, _; (split; [reflexivity|]); [|split; [exact nice_empty|exact H2]].
    pose proof (obj_strings _ _ _ Hc E) as Hf. split; [apply str0_valid, Hf|]. unfold merge_name. destruct (str f "name") as [nm|] eqn:En; [|exact H2].
    destruct (String.eqb nm ""); [exact H2|]. apply clean_name; [exact H2|]. apply merge_nice; [apply (cn_names _ H2)|exact (str_valid _ _ _ Hf En)]. }
  rewrite Ep. destruct (started m3 i).
  - destruct (String.eqb x ""); [apply tidy_nothing, H3|]. split; [|exact H3]. repeat constructor. eexists. constructor. exact Hx.
  - assert (Clean (set_args i (at0 (argsByIndex (m_items m3)) i +:+ x)%stdpp m3)) as H4 by (apply clean_args; [exact H3|apply nice_app; [apply (cn_args _ H3)|exact Hx]]).
    destruct (negb _ && negb _ && negb _); [apply start_tool_tidy, H4|apply tidy_nothing, H4].
Qed.

Lemma tidy_bind (f g : M (list chatStreamEvent)) (m : StreamMapper) : tidy f m -> tidy g (f m).2 ->
  tidy (fun m => let '(o, m) := f m in let '(o', m) := g m in (o ++ o', m)%list) m.
Proof.
  unfold tidy. destruct (f m) as [o m1]. cbn [fst snd]. intros [F1 C1]. destruct (g m1) as [o' m2]. cbn [fst snd]. intros [F2 C2].
  split; [apply Forall_app; auto|exact C2].
Qed.

Lemma tools_tidy (calls : list any) : forall m, Clean m -> Forall Strings calls -> tidy (tool_events calls) m.
Proof.
  induction calls as [|raw calls IH]; intros m H Hs; [apply tidy_nothing, H|]. apply Forall_cons in Hs as [Hr Hs].
  destruct raw as [| | | | | |call]; try exact (IH m H Hs). assert (StringsIn call) as Hc by (inversion Hr; assumption).
  pose proof (tool_tidy call m H Hc) as Ht. apply (tidy_bind (tool_event call) (tool_events calls) m Ht). apply IH; [exact (proj2 Ht)|exact Hs].
Qed.

Lemma delta_tidy (delta : gomap) (m : StreamMapper) : Clean m -> StringsIn delta -> tidy (chatDeltaToMessEvents delta) m.
Proof.
  intros H Hd. unfold tidy, chatDeltaToMessEvents. destruct (reasoning_tidy delta m H Hd) as [F1 C1]. destruct (reasoning_events delta m) as [o1 m1]. cbn [fst snd] in *.
  destruct (text_tidy delta m1 C1 Hd) as [F2 C2]. destruct (text_events delta m1) as [o2 m2]. cbn [fst snd] in *.
  assert (Forall neat (match arr delta "tool_calls" with Some calls => tool_events calls m2 | None => ([], m2) end).1 /\
    Clean (match arr delta "tool_calls" with Some calls => tool_events calls m2 | None => ([], m2) end).2) as [F3 C3].
  { destruct (arr delta "tool_calls") as [calls|] eqn:E; [exact (tools_tidy calls m2 C2 (arr_strings _ _ _ Hd E))|apply tidy_nothing, C2]. }
  destruct (match arr delta "tool_calls" with Some _ => _ | None => _ end) as [o3 m3]. cbn [fst snd] in *. split; [|exact C3]. rewrite !Forall_app. auto.
Qed.

(** A change of the head that keeps it clean. *)
Lemma clean_head (m m' : StreamMapper) : Clean m -> m_items m' = m_items m -> nice (m_id (m_head m')) -> nice (m_model (m_head m')) ->
  counter (m_it (m_head m')) -> counter (m_ot (m_head m')) -> counter (m_cached (m_head m')) -> Clean m'.
Proof. intros [] Ei. constructor; rewrite ?Ei; assumption. Qed.

Lemma identify_clean (event : gomap) (m : StreamMapper) : Clean m -> StringsIn event -> Clean (identify event m).
Proof.
  intros H He. unfold identify. set (m1 := match str event "id" with Some id => _ | None => m end).
  assert (Clean m1) as H1.
  { subst m1. destruct (str event "id") as [id|] eqn:E; [|exact H]. destruct (String.eqb id ""); [exact H|]. apply (clean_head m); try apply H; [reflexivity|exact (str_valid _ _ _ He E)]. }
  destruct (str event "model") as [md|] eqn:E; [|exact H1]. destruct (String.eqb md ""); [exact H1|]. apply (clean_head m1); try apply H1; [reflexivity|exact (str_valid _ _ _ He E)].
Qed.

Lemma capture_clean (event : gomap) (m : StreamMapper) : Clean m -> Clean (captureChatUsage event m).
Proof.
  intros H. unfold captureChatUsage. destruct (obj event "usage") as [us|]; [|exact H].
  assert (forall k k', counter (first_count us k k')) as Hf by (intros k k'; unfold first_count; destruct (_ =? 0)%Z; apply int_counter).
  destruct (obj us "prompt_tokens_details"); (apply (clean_head m); try apply H; try apply Hf; try apply int_counter; reflexivity).
Qed.

Lemma start_tidy (usage : StreamMapper -> gomap) (m : StreamMapper) : Clean m -> (forall m fmt, Clean m -> Writable fmt 1 (AObj (usage m))) -> tidy (start_message usage) m.
Proof.
  intros H Hu. unfold tidy, start_message. destruct (m_started (m_head m)); [apply tidy_nothing, H|].
  assert (Clean (set_started m)) as H1 by (apply (clean_head m); try apply H; reflexivity). split; [|exact H1].
  repeat constructor. eexists. constructor; [apply (cn_id _ H1)|apply (cn_model _ H1)|]. intros fmt. apply Hu, H1.
Qed.

Lemma choice_tidy (choice : gomap) (m : StreamMapper) : Clean m -> StringsIn choice -> tidy (choice_events choice) m.
Proof.
  intros H Hc. unfold tidy, choice_events.
  assert (Forall neat (match obj choice "delta" with Some delta => chatDeltaToMessEvents delta m | None => ([], m) end).1 /\
    Clean (match obj choice "delta" with Some delta => chatDeltaToMessEvents delta m | None => ([], m) end).2) as [F C].
  { destruct (obj choice "delta") as [delta|] eqn:E; [exact (delta_tidy delta m H (obj_strings _ _ _ Hc E))|apply tidy_nothing, H]. }
  destruct (match obj choice "delta" with Some _ => _ | None => _ end) as [o m1]. cbn [fst snd] in *. split; [exact F|].
  destruct (str choice "finish_reason") as [r|]; [destruct (String.eqb r "")|]; try exact C. apply (clean_head m1); try apply C; reflexivity.
Qed.

Lemma first_choice_strings (choices : list any) (choice : gomap) : Forall Strings choices -> first_choice choices = Some choice -> StringsIn choice.
Proof.
  induction 1 as [|v l Hv Hl IH]; cbn; [discriminate|]. destruct v as [| | | | | |m]; try exact IH. destruct (index_zero m); [intros [= <-]; inversion Hv; assumption|exact IH].
Qed.

Lemma chunk_tidy (event : gomap) (m : StreamMapper) : Clean m -> StringsIn event -> tidy (chunk_events event) m.
Proof.
  intros H He. unfold tidy, chunk_events. pose proof (capture_clean event _ (identify_clean event m H He)) as H1. set (m1 := captureChatUsage event (identify event m)) in *.
  set (usage := fun m => [("input_tokens", _)%string; _; _; _]).
  destruct (start_tidy usage m1 H1) as [F1 C1].
  { intros m0 fmt C. pose proof (cn_it _ C) as A. pose proof (cn_cached _ C) as B. unfold counter in *. subst usage. cbn beta. written. }
  destruct (start_message usage m1) as [o1 m2]. cbn [fst snd] in *. destruct (arr event "choices") as [choices|] eqn:E; [|auto].
  destruct (first_choice choices) as [choice|] eqn:Ec; [|auto]. pose proof (first_choice_strings _ _ (arr_strings _ _ _ He E) Ec) as Hc.
  destruct (choice_tidy choice m2 C1 Hc) as [F2 C2]. destruct (choice_events choice m2) as [o2 m3]. cbn [fst snd] in *. split; [apply Forall_app; auto|exact C2].
Qed.

Lemma held_tidy (order : list Z) : forall m, Clean m -> tidy (start_held order) m.
Proof.
  induction order as [|i order IH]; intros m H; [apply tidy_nothing, H|].
  pose (op := fun m => if negb (started m i) && (negb (chatTextSet (m_chat m)) || negb (i =? chatTextIndex (m_chat m))%Z) then startChatToolBlock i m else ([], m)).
  assert (tidy op m) as Ht by (unfold tidy, op; destruct (_ && _); [apply start_tool_tidy, H|apply tidy_nothing, H]).
  apply (tidy_bind op (start_held order) m Ht). apply IH, (proj2 Ht).
Qed.

Lemma stop_tidy (order : list Z) : forall m, Clean m -> tidy (stop_open order) m.
Proof.
  induction order as [|i order IH]; intros m H; [apply tidy_nothing, H|].
  pose (op := fun m => if started m i && negb (stopped m i) then ([block_stop i], stop_block i m) else ([], m)).
  assert (tidy op m) as Ht.
  { unfold tidy, op. destruct (_ && _); [|apply tidy_nothing, H]. split; [repeat constructor; eexists; constructor|eapply clean_same; [..|exact H]; reflexivity]. }
  apply (tidy_bind op (stop_open order) m Ht). apply IH, (proj2 Ht).
Qed.

Lemma finish_tidy (m : StreamMapper) : Clean m -> tidy finishChatStream m.
Proof.
  intros H. unfold tidy, finishChatStream. destruct (m_done (m_head m)); [apply tidy_nothing, H|].
  assert (Clean (set_done m)) as H1 by (apply (clean_head m); try apply H; reflexivity). set (usage := fun m => [("input_tokens", _)%string; _]).
  destruct (start_tidy usage (set_done m) H1) as [F1 C1].
  { intros m0 fmt C. pose proof (cn_it _ C) as A. unfold counter in *. subst usage. cbn beta. written. }
  destruct (start_message usage (set_done m)) as [o1 m1]. cbn [fst snd] in *.
  destruct (held_tidy (blockOrder (m_blocks m1)) m1 C1) as [F2 C2]. destruct (start_held (blockOrder (m_blocks m1)) m1) as [o2 m2]. cbn [fst snd] in *.
  destruct (stop_tidy (blockOrder (m_blocks m2)) m2 C2) as [F3 C3]. destruct (stop_open (blockOrder (m_blocks m2)) m2) as [o3 m3]. cbn [fst snd] in *.
  split; [|exact C3]. rewrite !Forall_app. split; [exact F1|]. split; [exact F2|]. split; [exact F3|].
  repeat constructor; eexists; constructor. apply (cn_ot _ C3).
Qed.

Lemma step_tidy (data : bytes) (m : StreamMapper) : Clean m -> tidy (chatToMessEvents data) m.
Proof.
  intros H. unfold tidy, chatToMessEvents. destruct (m_done (m_head m)); [apply tidy_nothing, H|]. destruct (is_done_marker data); [apply finish_tidy, H|].
  destruct (decodeObj data) as [event|] eqn:E; [|apply tidy_nothing, H]. apply decodeObj_strings in E.
  destruct (obj event "error"); [|apply chunk_tidy; assumption]. split; [repeat constructor; eexists; constructor|apply (clean_head m); try apply H; reflexivity].
Qed.

Lemma new_clean : Clean NewStreamMapper.
Proof. constructor; cbn; try exact nice_empty; try (unfold counter; unfold_int; lia); intros i; unfold at0; rewrite lookup_empty; exact nice_empty. Qed.

(** ** The two mappers together *)

Lemma accept_dom (c c' : Client) (ev : MsgEvent) (i : Z) : accept c ev = Some c' -> is_Some (c_blocks c !! i) -> is_Some (c_blocks c' !! i).
Proof.
  intros H Hi. unfold accept in H. destruct (c_closed c); [discriminate|]. destruct ev as [|j k|j k x|j| | |].
  - destruct (c_started c); [discriminate|]. injection H as <-. exact Hi.
  - destruct (_ && _); [|discriminate]. injection H as <-. cbn. rewrite lookup_insert. case_decide; eauto.
  - destruct (c_ended c); [discriminate|]. destruct (c_blocks c !! j) as [[k' t []]|]; try discriminate. case_decide; [|discriminate].
    injection H as <-. cbn. rewrite lookup_insert. case_decide; eauto.
  - destruct (c_ended c); [discriminate|]. destruct (c_blocks c !! j) as [[k' t []]|]; try discriminate. injection H as <-. cbn. rewrite lookup_insert. case_decide; eauto.
  - destruct (_ && _); [|discriminate]. injection H as <-. exact Hi.
  - destruct (c_ended c); [|discriminate]. injection H as <-. exact Hi.
  - injection H as <-. exact Hi.
Qed.

Lemma accept_index (c c' : Client) (e : chatStreamEvent) (ev : MsgEvent) (i : Z) : clean e ev -> accept c ev = Some c' -> index_of_event e.2 = Some i -> is_Some (c_blocks c' !! i).
Proof.
  intros Hc H Hi.
  assert (forall j k x, accept c (MsgDelta j k x) = Some c' -> is_Some (c_blocks c' !! j)) as Hd.
  { intros j k x E. apply accept_delta_inv in E as (t & _ & _ & ->). cbn. rewrite lookup_insert_eq. eauto. }
  assert (forall j k, accept c (MsgBlock j k) = Some c' -> is_Some (c_blocks c' !! j)) as Hb.
  { intros j k E. apply accept_block_inv in E as (-> & _). cbn. rewrite lookup_insert_eq. eauto. }
  assert (forall j, accept c (MsgBlockStop j) = Some c' -> is_Some (c_blocks c' !! j)) as Hs.
  { intros j E. unfold accept in E. destruct (c_closed c), (c_ended c); try discriminate. destruct (c_blocks c !! j) as [[k' t []]|]; try discriminate.
    injection E as <-. cbn. rewrite lookup_insert_eq. eauto. }
  destruct Hc; try discriminate Hi; injection Hi as <-; eauto.
Qed.

Lemma receive_dom (es : list chatStreamEvent) : forall c c' i, receive es c = Some c' -> is_Some (c_blocks c !! i) -> is_Some (c_blocks c' !! i).
Proof.
  induction es as [|e es IH]; intros c c' i R Hi; cbn in R; [injection R as <-; exact Hi|]. destruct (read_event e) as [ev|]; [|discriminate]. cbn in R.
  destruct (accept c ev) as [c1|] eqn:E; [|discriminate]. exact (IH _ _ _ R (accept_dom _ _ _ _ E Hi)).
Qed.

(** The events as read, and their indexes. *)
Lemma receive_wire (fmt : spec_float -> bytes) (es : list chatStreamEvent) : forall c c', Forall neat es -> receive es c = Some c' ->
  (forall i, is_Some (c_blocks c' !! i) -> 0 <= i < 2 ^ 53) -> accept_all (said (map (wire fmt) es)) c = Some c'.
Proof.
  induction es as [|e es IH]; intros c c' Hn R Hb; cbn in R; [exact R|]. apply Forall_cons in Hn as [[ev Hc] Hn].
  rewrite (clean_event e ev Hc) in R. cbn [mbind option_bind] in R. destruct (accept c ev) as [c1|] eqn:E; [|discriminate]. cbn [mbind option_bind] in R.
  assert (exact_index e) as Hx by (intros i Hi; apply Hb, (receive_dom es c1 c' i R), (accept_index c c1 e ev i Hc E Hi)).
  change (said (map (wire fmt) (e :: es))) with (said ([wire fmt e] ++ map (wire fmt) es)). unfold said. rewrite flat_map_app. fold (said [wire fmt e]). fold (said (map (wire fmt) es)).
  rewrite (clean_wire fmt e ev Hc Hx). cbn [app accept_all]. rewrite E. exact (IH c1 c' Hn R Hb).
Qed.

Section Streams.
Context (fmt : spec_float -> bytes).

Lemma counters_inv (m inner : StreamMapper) (c : Client) (sent : Z -> string) : MInv inner c sent -> MInv (with_counters m inner) c sent.
Proof. intros []. constructor; assumption. Qed.

(** One chunk through both mappers. *)
Lemma both_step (data : bytes) (m inner : StreamMapper) (c c1 : Client) (sent : Z -> string) : Clean m -> MInv inner c sent ->
  receive (chatToMessEvents data m).1 c = Some c1 -> (forall i, is_Some (c_blocks c1 !! i) -> 0 <= i < 2 ^ 53) ->
  (mapChatToResp fmt data (m, inner)).2.1 = (chatToMessEvents data m).2 /\
  MInv (mapChatToResp fmt data (m, inner)).2.2 c1 (sends sent (mapChatToResp fmt data (m, inner)).1).
Proof.
  intros Hc Hi R Hb. pose proof (proj1 (step_tidy data m Hc)) as Hn. pose proof (receive_wire fmt _ c c1 Hn R Hb) as Ha.
  unfold mapChatToResp. cbn [fst snd]. destruct (chatToMessEvents data m) as [events m1]. cbn [fst snd] in *. destruct events as [|e events].
  - cbn in R. injection R as <-. cbn [fst snd]. split; [reflexivity|]. eapply in_step_sent; [|exact Hi]. intros i. apply sends_nil.
  - destruct (run_mess_step _ _ _ _ _ (counters_inv m1 inner c sent Hi) Ha) as [H _]. destruct (run_mess _ _) as [out inner1]. cbn [fst snd] in *. auto.
Qed.

Lemma both_done (chunks : list bytes) (m inner : StreamMapper) : m_done (m_head m) = true -> run_both fmt chunks (m, inner) = ([], (m, inner)).
Proof.
  intros H. induction chunks as [|d chunks IH]; [reflexivity|]. cbn [run_both]. unfold mapChatToResp, chatToMessEvents. cbn [fst snd]. rewrite H, IH. reflexivity.
Qed.

Lemma finish_last (m : StreamMapper) : m_done (m_head m) = false -> exists pre, (finishChatStream m).1 = (pre ++ [message_stop])%list.
Proof.
  intros H. unfold finishChatStream. rewrite H. destruct (start_message _ _) as [o1 m1]. destruct (start_held _ _) as [o2 m2]. destruct (stop_open _ _) as [o3 m3].
  cbn [fst]. eexists. rewrite !app_assoc.
  match goal with |- (?a ++ [?x; ?y])%list = _ => change [x; y] with ([x] ++ [y])%list; rewrite app_assoc end. reflexivity.
Qed.

(** Any run of chunks. *)
Lemma both_run (chunks : list bytes) : forall m inner c c' sent, Clean m -> MInv inner c sent ->
  receive (run_chat chunks m).1 c = Some c' -> (forall i, is_Some (c_blocks c' !! i) -> 0 <= i < 2 ^ 53) ->
  (run_both fmt chunks (m, inner)).2.1 = (run_chat chunks m).2 /\ Clean (run_chat chunks m).2 /\
  MInv (run_both fmt chunks (m, inner)).2.2 c' (sends sent (run_both fmt chunks (m, inner)).1).
Proof.
  induction chunks as [|data chunks IH]; intros m inner c c' sent Hc Hi R Hb.
  - cbn in R. injection R as <-. split; [reflexivity|]. split; [exact Hc|]. eapply in_step_sent; [|exact Hi]. intros i. apply sends_nil.
  - cbn [run_chat run_both] in *. pose proof (step_tidy data m Hc) as [_ Hc1].
    destruct (receive (chatToMessEvents data m).1 c) as [c1|] eqn:R1.
    + assert (receive (run_chat chunks (chatToMessEvents data m).2).1 c1 = Some c') as R2.
      { rewrite <- R. symmetry. apply (run_cons data chunks m c c1 R1). }
      destruct (both_step data m inner c c1 sent Hc Hi R1) as [E1 I1].
      { intros i Hx. apply Hb, (receive_dom _ c1 c' i R2 Hx). }
      destruct (mapChatToResp fmt data (m, inner)) as [o1 [m1 inner1]]. cbn [fst snd] in E1, I1.
      destruct (chatToMessEvents data m) as [ev m1']. cbn [fst snd] in *. subst m1.
      destruct (IH m1' inner1 c1 c' _ Hc1 I1 R2 Hb) as (E2 & C2 & I2). destruct (run_chat chunks m1') as [ev' m2].
      destruct (run_both fmt chunks (m1', inner1)) as [o2 s2]. cbn [fst snd] in *. split; [exact E2|]. split; [exact C2|].
      eapply in_step_sent; [|exact I2]. intros i. rewrite sends_app. reflexivity.
    + destruct (chatToMessEvents data m) as [ev m1]. destruct (run_chat chunks m1) as [ev' m2]. cbn [fst] in R, R1. rewrite receive_app, R1 in R. discriminate.
Qed.

Lemma both_app (chunks rest : list bytes) : forall s, (run_both fmt (chunks ++ rest) s).1 =
  ((run_both fmt chunks s).1 ++ (run_both fmt rest (run_both fmt chunks s).2).1)%list.
Proof.
  induction chunks as [|data chunks IH]; intros s; [reflexivity|]. cbn [app run_both]. destruct (mapChatToResp fmt data s) as [o s1].
  specialize (IH s1). destruct (run_both fmt (chunks ++ rest) s1) as [o' s2]. destruct (run_both fmt chunks s1) as [o1 s3]. cbn [fst snd] in *.
  rewrite IH, app_assoc. reflexivity.
Qed.
End Streams.

(** The end of the stream, from any point of it. *)
Lemma both_finish (fmt : spec_float -> bytes) (later : list bytes) (m inner : StreamMapper) (c c' : Client) (sent : Z -> string) :
  Clean m -> MInv inner c sent -> m_done (m_head m) = false -> receive (finishChatStream m).1 c = Some c' -> m_done (m_head (finishChatStream m).2) = true ->
  (forall i, is_Some (c_blocks c' !! i) -> 0 <= i < 2 ^ 53) ->
  exists out data order, (run_both fmt (bs "[DONE]" :: later) (m, inner)).1 = (out ++ [("response.completed", data)])%list /\
    completed_output data = Some (map (block_view c') order) /\ NoDup order /\ (forall i, i ∈ order <-> is_Some (c_blocks c' !! i)) /\
    forall i b, c_blocks c' !! i = Some b -> sends sent out i = b_text b.
Proof.
  intros Hc Hi Hd R Hdone Hb. pose proof (proj1 (finish_tidy m Hc)) as Hn. destruct (finish_last m Hd) as [pre Ep].
  assert (chatToMessEvents (bs "[DONE]") m = finishChatStream m) as Ef by (unfold chatToMessEvents; rewrite Hd, done_marker; reflexivity).
  cbn [run_both]. unfold mapChatToResp. cbn [fst snd]. rewrite Ef. destruct (finishChatStream m) as [evs m1]. cbn [fst snd] in *. subst evs.
  rewrite receive_app in R. destruct (receive pre c) as [c2|] eqn:R2; [|discriminate]. cbn in R. unfold accept in R.
  destruct (c_closed c2) eqn:Hcl; [discriminate|]. destruct (c_ended c2); [|discriminate]. injection R as <-. cbn [c_blocks] in *.
  apply Forall_app in Hn as [Hn _]. pose proof (receive_wire fmt pre c c2 Hn R2 Hb) as Ha.
  destruct (run_completed (map (wire fmt) pre) (Marshal fmt (AObj message_stop.2)) (with_counters m1 inner) c c2 sent (counters_inv m1 inner c sent Hi) Ha Hcl)
    as (out & data & Eo & Hout & Hnd & Hin & Hs); [vm_compute; reflexivity|].
  destruct (pre ++ [message_stop])%list as [|e l] eqn:El; [destruct pre; discriminate|]. rewrite <- El, map_app. change (map (wire fmt) [message_stop]) with [("message_stop", Marshal fmt (AObj message_stop.2))].
  destruct (run_mess _ _) as [o inner1]. cbn [fst] in Eo. subst o. rewrite both_done by exact Hdone. cbn [fst]. rewrite app_nil_r.
  exists out, data. eexists. split; [reflexivity|]. split; [exact Hout|]. split; [exact Hnd|]. split; [exact Hin|exact Hs].
Qed.

(** ** The composed stream *)

(** C16: After the end mark of a Chat stream without errors the last event of the
    composed Responses stream is [response.completed]; its output lists exactly the
    text, the reasoning and the tool calls of the chunks, each once, and the
    fragments sent before for an index are the text of its item. *)
Theorem chat_to_responses_delivered (fmt : spec_float -> bytes) (chunks later : list bytes) : forallb ordinary chunks = true ->
  nextChatBlock (m_chat (run_chat chunks NewStreamMapper).2) < 2 ^ 53 ->
  exists out data c order, (run_both fmt (chunks ++ bs "[DONE]" :: later) (NewStreamMapper, NewStreamMapper)).1 = (out ++ [("response.completed", data)])%list /\
    delivered c (fold_left add_chunk chunks no_content) /\
    completed_output data = Some (map (block_view c) order) /\ NoDup order /\ (forall i, i ∈ order <-> is_Some (c_blocks c !! i)) /\
    forall i b, c_blocks c !! i = Some b -> fragments i out = b_text b.
Proof.
  intros Ho Hlim. destruct (run_ok chunks [] _ _ _ start_inv eq_refl Ho) as (c & E & I1 & D1). rewrite app_nil_r in E. cbn [run_chat fst receive] in E.
  destruct (finish_ok _ c _ I1 D1) as (c' & R & Hdel & Hdone & Hb).
  assert (forall i, is_Some (c_blocks c' !! i) -> 0 <= i < 2 ^ 53) as Hb' by (intros i Hi; apply Hb in Hi; lia).
  destruct (both_run fmt chunks NewStreamMapper NewStreamMapper new_client c (fun _ => "") new_clean mess_start E) as (Em & Hc & Hi).
  { intros i Hx. apply Hb', (receive_dom _ c c' i R Hx). }
  rewrite both_app. destruct (run_both fmt chunks (NewStreamMapper, NewStreamMapper)) as [out1 [m1 inner]]. cbn [fst snd] in *. subst m1.
  destruct (both_finish fmt later _ inner c c' _ Hc Hi D1 R Hdone Hb') as (out & data & order & Eo & Hout & Hnd & Hin & Hs). rewrite Eo, app_assoc.
  exists (out1 ++ out)%list, data, c', order. split; [reflexivity|]. split; [exact Hdel|]. split; [exact Hout|]. split; [exact Hnd|]. split; [exact Hin|].
  intros i b Hx. rewrite <- (Hs i b Hx), sends_app. reflexivity.
Qed.

Lemma chat_to_responses_delivered_witness : fold_left add_chunk demo_chunks no_content = mkContent "Hey" "hm" {[0 := "{}"]} /\
  exists out data c order, (run_both no_float (demo_chunks ++ [bs "[DONE]"]) (NewStreamMapper, NewStreamMapper)).1 = (out ++ [("response.completed", data)])%list /\
    delivered c (fold_left add_chunk demo_chunks no_content) /\
    completed_output data = Some (map (block_view c) order) /\ NoDup order /\ (forall i, i ∈ order <-> is_Some (c_blocks c !! i)) /\
    forall i b, c_blocks c !! i = Some b -> fragments i out = b_text b.
Proof. split; [vm_compute; reflexivity|]. apply (chat_to_responses_delivered no_float demo_chunks []); vm_compute; reflexivity. Defined.
