(* ===== verification/BodyRequest.v ===== *)
(** * Conversion of request bodies

    [mess_resp.go], [resp_mess.go], [chat_mess.go], [chat_target.go] and
    [reasoning.go]: the request converters that work on decoded documents.  Each
    converter is a function on values; the bytes are decoded before and written
    after it.  Images of Chat messages are in [Images]. *)

From Stdlib Require Import ZArith Lia List Bool String Ascii.
From Stdlib Require Import Floats.SpecFloat.
From stdpp Require Import base option list strings.
From S2P Require Import Prelude GoString JsonScan JsonText GoJson SseRelay ProtoJson ChatStream.
Import ListNotations.
Local Open Scope Z_scope.
Local Open Scope list_scope.
Local Open Scope string_scope.

(** ** Shared pieces *)

Definition newline : string := String nl EmptyString.

(** A slice declared without a value: nil until something is appended, and nil is
    written as [null]. *)
Definition slice_value (l : list any) : any := match l with [] => ANil | _ => AArr l end.

(** [if ok { out[k] = v }]. *)
Definition put (k : string) (v : option any) (out : gomap) : gomap := match v with Some v => mset k v out | None => out end.

(** [joinStrings(parts, "\n"), true], or [false] without parts. *)
Definition joined (parts : list string) : option string := match parts with [] => None | _ => Some (joinStrings parts newline) end.

Definition text_value (type text : string) : any := AObj [("type", AStr type); ("text", AStr text)].
Definition thinking_value (text : string) : any := AObj [("type", AStr "thinking"); ("thinking", AStr text)].
Definition tool_use_value (id name : string) (input : any) : any :=
  AObj [("type", AStr "tool_use"); ("id", AStr id); ("name", AStr name); ("input", input)].
Definition tool_result_value (id text : string) : any := AObj [("type", AStr "tool_result"); ("tool_use_id", AStr id); ("content", AStr text)].
Definition message_value (role : string) (content : any) : gomap := [("role", AStr role); ("content", content)].

(** [contentText]. *)
Definition contentText (content : option any) : option string :=
  match content with
  | Some (AStr c) => Some c
  | Some (AArr c) => joined (omap (fun p => pm ← as_obj p; if is_str pm "type" "text" then str pm "text" else None) c)
  | _ => None
  end.

(** ** Reasoning effort *)

Section Reasoning.
(** What the conversion of a [float64] outside the range of an [int] yields; the
    language leaves it to the implementation. *)
Context (wide : spec_float -> Z).

Definition int_of_float (f : spec_float) : Z :=
  match f with
  | S754_zero _ => 0
  | S754_finite s p e => let n := if s then - float_trunc p e else float_trunc p e in if (min64 <=? n)%Z && (n <=? max64)%Z then n else wide f
  | _ => wide f
  end.

Definition reasoningBudget (value : option any) : option Z :=
  match value with Some (AInt n) => Some n | Some (ANum f) => Some (int_of_float f) | _ => None end.

Definition thinkingToReasoning (value : any) : option gomap :=
  match value with
  | AObj m =>
      if String.eqb (str0 m "type") "disabled" then None
      else
        let effort := match reasoningBudget (get m "budget_tokens") with
                      | Some budget => if (budget <=? 1024)%Z then "low" else if (4096 <=? budget)%Z then "high" else "medium"
                      | None => "medium" end in
        Some [("effort", AStr effort); ("summary", AStr "auto")]
  | _ => None
  end.
End Reasoning.

Definition reasoningEffortBudget (effort : string) : Z :=
  if String.eqb effort "low" then 1024 else if String.eqb effort "high" then 4096 else 2048.

Definition thinking_enabled (budget : Z) : gomap := [("type", AStr "enabled"); ("budget_tokens", AInt budget)].

Definition reasoningToThinking (value : any) : option gomap :=
  match value with
  | AObj m =>
      if negb (String.eqb (str0 m "effort") "") then
        Some (thinking_enabled (if String.eqb (str0 m "effort") "low" then 1024 else if String.eqb (str0 m "effort") "high" then 4096 else 2048))
      else if String.eqb (str0 m "type") "enabled" then Some (thinking_enabled 2048) else None
  | _ => None
  end.

(** ** Messages to Responses *)

Definition anthropicSystem (req : gomap) : option string :=
  match get req "system" with
  | Some (AStr s) => Some s
  | Some (AArr s) => joined (omap (fun p => match p with AStr pt => Some pt | AObj pt => str pt "text" | _ => None end) s)
  | _ => None
  end.

Definition call_output_value (id text : string) : any := AObj [("type", AStr "function_call_output"); ("call_id", AStr id); ("output", AStr text)].

(** The blocks of a user message: [textParts] and [toolResults]. *)
Fixpoint user_blocks (cs : list any) : list any * list any :=
  match cs with
  | [] => ([], [])
  | blk :: cs =>
      let '(texts, results) := user_blocks cs in
      match blk with
      | AObj bm =>
          if is_str bm "type" "text" then match str bm "text" with Some t => (text_value "input_text" t :: texts, results) | None => (texts, results) end
          else if is_str bm "type" "tool_result" then
            (texts, call_output_value (str0 bm "tool_use_id") (default "" (blockText (get bm "content"))) :: results)
          else (texts, results)
      | _ => (texts, results)
      end
  end.

(** A message of [items], when there is content for it. *)
Definition message_items (role : string) (content : list any) : list any :=
  match content with [] => [] | _ => [AObj [("type", AStr "message"); ("role", AStr role); ("content", AArr content)]] end.

Definition user_items (mm : gomap) : list any :=
  let '(texts, results) := match get mm "content" with
    | Some (AStr c) => ([text_value "input_text" c], [])
    | Some (AArr cs) => user_blocks cs
    | _ => ([], []) end in
  message_items "user" texts ++ results.

Section Messages.
Context (format_float : spec_float -> bytes) (wide : spec_float -> Z).

Definition call_value (bm : gomap) : any :=
  AObj [("type", AStr "function_call"); ("id", AStr (str0 bm "id")); ("call_id", AStr (str0 bm "id")); ("name", AStr (str0 bm "name"));
        ("arguments", AStr (marshalAny format_float (default ANil (get bm "input"))))].

Definition reasoning_value (text : string) : any := AObj [("type", AStr "reasoning"); ("summary", AArr [text_value "summary_text" text])].

(** The blocks of an assistant message: [textParts], [reasoning] and [fcs]. *)
Fixpoint assistant_blocks (cs : list any) : list any * list any * list any :=
  match cs with
  | [] => ([], [], [])
  | blk :: cs =>
      let '(texts, reasoning, fcs) := assistant_blocks cs in
      match blk with
      | AObj bm =>
          if is_str bm "type" "text" then match str bm "text" with Some t => (text_value "output_text" t :: texts, reasoning, fcs) | None => (texts, reasoning, fcs) end
          else if is_str bm "type" "thinking" then match str bm "thinking" with Some t => (texts, reasoning_value t :: reasoning, fcs) | None => (texts, reasoning, fcs) end
          else if is_str bm "type" "tool_use" then (texts, reasoning, call_value bm :: fcs)
          else (texts, reasoning, fcs)
      | _ => (texts, reasoning, fcs)
      end
  end.

Definition assistant_items (mm : gomap) : list any :=
  let '(texts, reasoning, fcs) := match arr mm "content" with Some cs => assistant_blocks cs | None => ([], [], []) end in
  message_items "assistant" texts ++ reasoning ++ fcs.

Definition message_to_items (m : any) : list any :=
  match m with
  | AObj mm =>
      if String.eqb (str0 mm "role") "user" then user_items mm
      else if String.eqb (str0 mm "role") "assistant" then assistant_items mm else []
  | _ => []
  end.

Definition messMessagesToInput (req : gomap) : option (list any) :=
  msgs ← arr req "messages"; Some (flat_map message_to_items msgs).

Definition named (tm : gomap) (schema_from schema_to : string) (tool : gomap) : gomap :=
  put schema_to (AObj <$> obj tm schema_from) (put "description" (AStr <$> str tm "description") (put "name" (AStr <$> str tm "name") tool)).

Definition messToolsToResp (tools : list any) : list any :=
  omap (fun t => tm ← as_obj t; Some (AObj (named tm "input_schema" "parameters" [("type", AStr "function")]))) tools.

Definition messToolChoice (req : gomap) : option any :=
  match get req "tool_choice" with
  | Some (AStr s) => Some (AStr (if String.eqb s "any" then "required" else s))
  | Some (AObj m) =>
      let t := str0 m "type" in
      if String.eqb t "tool" then name ← str m "name"; Some (AObj [("type", AStr "function"); ("name", AStr name)])
      else if String.eqb t "any" then Some (AStr "required")
      else if String.eqb t "auto" || String.eqb t "none" then Some (AStr t)
      else None
  | _ => None
  end.

Definition passed : list string := ["model"; "temperature"; "top_p"; "stream"; "metadata"].

Definition mess_to_resp_request (req : gomap) : gomap :=
  let out := put "instructions" (AStr <$> anthropicSystem req) [] in
  let out := put "input" (slice_value <$> messMessagesToInput req) out in
  let out := pass out req passed in
  let out := put "max_output_tokens" (get req "max_tokens") out in
  let out := put "tools" (tools ← arr req "tools"; Some (AArr (messToolsToResp tools))) out in
  let out := put "tool_choice" (messToolChoice req) out in
  put "reasoning" (thinking ← get req "thinking"; AObj <$> thinkingToReasoning wide thinking) out.

Definition messToRespRequest (body : bytes) : option bytes := req ← decodeObj body; Some (Marshal format_float (AObj (mess_to_resp_request req))).
End Messages.

(** ** Responses to Messages *)

Definition inputItemText (im : gomap) : option string :=
  match get im "content" with
  | Some (AStr content) => Some content
  | Some (AArr content) => joined (omap (fun part => pm ← as_obj part; str pm "text") content)
  | _ => None
  end.

Definition respInstructions (req : gomap) : option string :=
  joined (match str req "instructions" with Some ins => if String.eqb ins "" then [] else [ins] | None => [] end ++
          omap (fun item => im ← as_obj item;
            if String.eqb (str0 im "role") "system" || String.eqb (str0 im "role") "developer" then inputItemText im else None)
            (default [] (arr req "input")))%list.

(** A part of the content of a message item. *)
Definition part_block (part : any) : option any :=
  pm ← as_obj part;
  if is_str pm "type" "input_text" || is_str pm "type" "output_text" then t ← str pm "text"; Some (text_value "text" t)
  else if is_str pm "type" "reasoning" then t ← str pm "text"; Some (thinking_value t)
  else None.

Definition item_blocks (im : gomap) : list any :=
  match get im "content" with
  | Some (AStr content) => [text_value "text" content]
  | Some (AArr content) => omap part_block content
  | _ => []
  end.

(** The messages so far and the index of the assistant message that takes calls. *)
Definition Messages : Type := list gomap * option nat.

(** [lastAssistant], with a new message when there is none. *)
Definition with_assistant (st : Messages) : list gomap * nat :=
  match st with
  | (msgs, Some i) => (msgs, i)
  | (msgs, None) => ((msgs ++ [message_value "assistant" (AArr [])])%list, List.length msgs)
  end.

(** [am["content"] = append(content, blocks...)]. *)
Definition append_blocks (blocks : list any) (st : Messages) : Messages :=
  let '(msgs, i) := with_assistant st in
  (alter (fun am => mset "content" (AArr (default [] (arr am "content") ++ blocks)) am) i msgs, Some i).

Definition input_step (st : Messages) (item : any) : Messages :=
  match item with
  | AObj im =>
      let '(msgs, lastAssistant) := st in
      if is_str im "type" "message" then
        let role := str0 im "role" in
        if negb (String.eqb role "user") && negb (String.eqb role "assistant") then st
        else
          match item_blocks im with
          | [] => st
          | blocks => ((msgs ++ [message_value role (AArr blocks)])%list, if String.eqb role "assistant" then Some (List.length msgs) else None)
          end
      else if is_str im "type" "function_call" then
        append_blocks [tool_use_value (toolCallID im) (str0 im "name") (parseJSON (get im "arguments"))] st
      else if is_str im "type" "reasoning" then
        append_blocks (omap (fun raw => sm ← as_obj raw; t ← str sm "text"; Some (thinking_value t)) (default [] (arr im "summary"))) st
      else if is_str im "type" "function_call_output" then
        ((msgs ++ [message_value "user" (AArr [tool_result_value (str0 im "call_id") (default "" (blockText (get im "output")))])])%list, None)
      else st
  | _ => st
  end.

Definition respInputToMessMessages (req : gomap) : option (list any) :=
  input ← arr req "input"; Some (map AObj (fold_left input_step input ([], None)).1).

Definition respToolsToMess (tools : list any) : list any :=
  omap (fun t => tm ← as_obj t; if is_str tm "type" "function" then Some (AObj (named tm "parameters" "input_schema" [])) else None) tools.

Definition respToolChoice (req : gomap) : option any :=
  match get req "tool_choice" with
  | Some (AStr s) => Some (AStr (if String.eqb s "required" then "any" else s))
  | Some (AObj m) => if is_str m "type" "function" then name ← str m "name"; Some (AObj [("type", AStr "tool"); ("name", AStr name)]) else None
  | _ => None
  end.

Definition resp_to_mess_request (req : gomap) : gomap :=
  let out := put "system" (AStr <$> respInstructions req) [] in
  let out := match respInputToMessMessages req with
             | Some msgs => mset "messages" (slice_value msgs) out
             | None => put "messages" (s ← str req "input"; Some (AArr [AObj (message_value "user" (AStr s))])) out
             end in
  let out := pass out req passed in
  let out := put "max_tokens" (get req "max_output_tokens") out in
  let out := put "tools" (tools ← arr req "tools"; Some (AArr (respToolsToMess tools))) out in
  let out := put "tool_choice" (respToolChoice req) out in
  put "thinking" (reasoning ← get req "reasoning"; AObj <$> reasoningToThinking reasoning) out.

Definition respToMessRequest (format_float : spec_float -> bytes) (body : bytes) : option bytes :=
  req ← decodeObj body; Some (Marshal format_float (AObj (resp_to_mess_request req))).

(** ** Messages to Chat *)

Section Chat.
Context (format_float : spec_float -> bytes).

(** The blocks of a user message: the texts and the tool results. *)
Fixpoint user_parts (blocks : list any) : list string * list any :=
  match blocks with
  | [] => ([], [])
  | raw :: blocks =>
      let '(text, results) := user_parts blocks in
      match raw with
      | AObj block =>
          if is_str block "type" "text" then match str block "text" with Some v => (v :: text, results) | None => (text, results) end
          else if is_str block "type" "tool_result" then
            (text, AObj [("role", AStr "tool"); ("tool_call_id", AStr (str0 block "tool_use_id")); ("content", AStr (default "" (blockText (get block "content"))))] :: results)
          else (text, results)
      | _ => (text, results)
      end
  end.

Definition messUserContentToChat (content : option any) : string * list any :=
  match content with
  | Some (AStr text) => (text, [])
  | Some (AArr blocks) => let '(text, results) := user_parts blocks in (joinStrings text newline, results)
  | _ => ("", [])
  end.

Definition chat_call (block : gomap) : any :=
  AObj [("id", AStr (str0 block "id")); ("type", AStr "function");
        ("function", AObj [("name", AStr (str0 block "name")); ("arguments", AStr (marshalAny format_float (default ANil (get block "input"))))])].

(** The blocks of an assistant message: texts, calls and reasoning. *)
Fixpoint assistant_parts (blocks : list any) : list string * list any * list string :=
  match blocks with
  | [] => ([], [], [])
  | raw :: blocks =>
      let '(text, calls, reasoning) := assistant_parts blocks in
      match raw with
      | AObj block =>
          if is_str block "type" "text" then match str block "text" with Some v => (v :: text, calls, reasoning) | None => (text, calls, reasoning) end
          else if is_str block "type" "tool_use" then (text, chat_call block :: calls, reasoning)
          else if is_str block "type" "thinking" then match str block "thinking" with Some v => (text, calls, v :: reasoning) | None => (text, calls, reasoning) end
          else (text, calls, reasoning)
      | _ => (text, calls, reasoning)
      end
  end.

Definition messAssistantContentToChat (content : option any) : string * list any * string :=
  match content with
  | Some (AStr text) => (text, [], "")
  | Some (AArr blocks) => let '(text, calls, reasoning) := assistant_parts blocks in (joinStrings text "", calls, joinStrings reasoning "")
  | _ => ("", [], "")
  end.

Definition chat_user (message : gomap) : list any :=
  let '(text, results) := messUserContentToChat (get message "content") in
  results ++ (if String.eqb text "" then [] else [AObj (message_value "user" (AStr text))]).

Definition chat_assistant (message : gomap) : list any :=
  let '(text, calls, reasoning) := messAssistantContentToChat (get message "content") in
  if String.eqb text "" && (List.length calls =? 0)%nat && String.eqb reasoning "" then []
  else [AObj (message_value "assistant" (AStr text) ++
              (match calls with [] => [] | _ => [("tool_calls", AArr calls)] end) ++
              (if String.eqb reasoning "" then [] else [("reasoning_content", AStr reasoning)]))%list].

Definition message_to_chat (raw : any) : list any :=
  match raw with
  | AObj message =>
      if String.eqb (str0 message "role") "user" then chat_user message
      else if String.eqb (str0 message "role") "assistant" then chat_assistant message else []
  | _ => []
  end.

Definition messMessagesToChat (req : gomap) : option (list any) :=
  messages ← arr req "messages"; Some (flat_map message_to_chat messages).

(** [if v, ok := m[k]; ok && v != nil]. *)
Definition non_nil (v : option any) : option any := match v with Some ANil => None | v => v end.

Definition messToolsToChat (tools : list any) : list any :=
  omap (fun raw => tool ← as_obj raw;
    Some (AObj [("type", AStr "function"); ("function", AObj (put "parameters" (non_nil (get tool "input_schema")) (pass [] tool ["name"; "description"])))])) tools.

(** The choice and [parallel_tool_calls]. *)
Definition messToolChoiceToChat (req : gomap) : option (any * option bool) :=
  match get req "tool_choice" with
  | Some (AStr v) => Some (AStr (if String.eqb v "any" then "required" else v), None)
  | Some (AObj choice) =>
      let parallel := match get choice "disable_parallel_tool_use" with Some (ABool disabled) => Some (negb disabled) | _ => None end in
      let typ := str0 choice "type" in
      if String.eqb typ "tool" then name ← str choice "name"; Some (AObj [("type", AStr "function"); ("function", AObj [("name", AStr name)])], parallel)
      else if String.eqb typ "any" then Some (AStr "required", parallel)
      else if String.eqb typ "auto" || String.eqb typ "none" then Some (AStr typ, parallel)
      else None
  | _ => None
  end.

Definition mess_to_chat_request (req : gomap) : gomap :=
  let out := pass [] req passed in
  let out := put "max_tokens" (non_nil (get req "max_tokens")) out in
  let out := put "stop" (non_nil (get req "stop_sequences")) out in
  let messages := ((match anthropicSystem req with Some system => [AObj (message_value "system" (AStr system))] | None => [] end) ++
                   default [] (messMessagesToChat req))%list in
  let out := match messages with [] => out | _ => mset "messages" (AArr messages) out end in
  let out := put "tools" (tools ← arr req "tools"; Some (AArr (messToolsToChat tools))) out in
  match messToolChoiceToChat req with
  | Some (choice, parallel) => put "parallel_tool_calls" (ABool <$> parallel) (mset "tool_choice" choice out)
  | None => out
  end.

Definition messToChatRequest (body : bytes) : option bytes := req ← decodeObj body; Some (Marshal format_float (AObj (mess_to_chat_request req))).

(** [respToChatRequest]: through a Messages request, written and read again. *)
Definition respToChatRequest (body : bytes) : option bytes := messagesBody ← respToMessRequest format_float body; messToChatRequest messagesBody.
End Chat.

(** ** Keys of a converted request *)

Lemma get_mset (k : string) (v : any) (m : gomap) (j : string) : get (mset k v m) j = if String.eqb j k then Some v else get m j.
Proof.
  induction m as [|[k' v'] m IH]; cbn; [reflexivity|]. destruct (String.eqb_spec k k') as [->|Hk]; cbn; [destruct (String.eqb j k'); reflexivity|].
  rewrite IH. destruct (String.eqb_spec j k') as [->|]; [|reflexivity]. destruct (String.eqb_spec k' k); [congruence|reflexivity].
Qed.

Lemma get_put (k : string) (v : option any) (m : gomap) : get (put k v m) k = match v with Some v => Some v | None => get m k end.
Proof. destruct v; [|reflexivity]. cbn [put]. rewrite get_mset, String.eqb_refl. reflexivity. Qed.

Lemma get_put_other (k : string) (v : option any) (m : gomap) (j : string) : String.eqb j k = false -> get (put k v m) j = get m j.
Proof. intros H. destruct v; [|reflexivity]. cbn [put]. rewrite get_mset, H. reflexivity. Qed.

Lemma get_pass (src : gomap) (keys : list string) : forall dst j, existsb (String.eqb j) keys = false -> get (pass dst src keys) j = get dst j.
Proof.
  unfold pass. induction keys as [|k keys IH]; intros dst j Hj; [reflexivity|]. cbn in Hj. apply orb_false_elim in Hj as [Hk Hj]. cbn [fold_left]. rewrite IH by exact Hj.
  destruct (get src k) as [[]|]; rewrite ?get_mset, ?Hk; reflexivity.
Qed.
