(* ===== verification/Images.v ===== *)
(** * Requests of Chat clients to Messages providers

    [chat_mess.go]: the request converter from Chat to Messages, with the images
    of Chat messages.  Base64 and the percent escapes of data URLs are modelled;
    [url.Parse] is the class [UrlLib] of [Endpoints]. *)

From Stdlib Require Import ZArith Lia List Bool String Ascii.
From Stdlib Require Import Floats.SpecFloat.
From stdpp Require Import base option list strings.
From S2P Require Import Prelude GoString Endpoints JsonScan JsonText GoJson SseRelay ProtoJson MarshalText ChatStream BodyRequest.
Import ListNotations.
Local Open Scope Z_scope.
Local Open Scope list_scope.
Local Open Scope string_scope.

(** ** Base64 ([encoding/base64]) *)

Definition b64_char (v : Z) : ascii :=
  (if v <? 26 then byte_of (65 + v) else if v <? 52 then byte_of (71 + v) else if v <? 62 then byte_of (v - 4)
   else if v =? 62 then "+"%char else "/"%char)%Z.

Definition b64_val (c : ascii) : option Z :=
  (let b := byte_val c in
   if (65 <=? b) && (b <=? 90) then Some (b - 65)
   else if (97 <=? b) && (b <=? 122) then Some (b - 71)
   else if (48 <=? b) && (b <=? 57) then Some (b + 4)
   else if b =? 43 then Some 62 else if b =? 47 then Some 63 else None)%Z.

Definition byte_at (v shift : Z) : ascii := byte_of (Z.land (Z.shiftr v shift) 255).
Definition sextet (v shift : Z) : ascii := b64_char (Z.land (Z.shiftr v shift) 63).

(** [EncodeToString]; [pad] is the padding of [StdEncoding]. *)
Fixpoint b64_encode (pad : bool) (b : bytes) : bytes :=
  match b with
  | [] => []
  | [x] => let v := Z.shiftl (byte_val x) 16 in [sextet v 18; sextet v 12] ++ (if pad then ["="; "="]%char else [])
  | [x; y] => let v := Z.lor (Z.shiftl (byte_val x) 16) (Z.shiftl (byte_val y) 8) in
              [sextet v 18; sextet v 12; sextet v 6] ++ (if pad then ["="]%char else [])
  | x :: y :: z :: b =>
      let v := Z.lor (Z.lor (Z.shiftl (byte_val x) 16) (Z.shiftl (byte_val y) 8)) (byte_val z) in
      sextet v 18 :: sextet v 12 :: sextet v 6 :: sextet v 0 :: b64_encode pad b
  end%list.

Definition join6 (a b c d : Z) : Z := Z.lor (Z.lor (Z.shiftl a 18) (Z.shiftl b 12)) (Z.lor (Z.shiftl c 6) d).

(** The quanta of four digits; the last one may be padded, or short without
    padding.  Bits that belong to no byte are ignored. *)
Fixpoint b64_quanta (pad : bool) (s : bytes) : option bytes :=
  match s with
  | [] => Some []
  | [a; b] => if pad then None else a ← b64_val a; b ← b64_val b; Some [byte_at (join6 a b 0 0) 16]
  | [a; b; c] => if pad then None else a ← b64_val a; b ← b64_val b; c ← b64_val c; Some [byte_at (join6 a b c 0) 16; byte_at (join6 a b c 0) 8]
  | a :: b :: c :: d :: s =>
      a ← b64_val a; b ← b64_val b;
      match b64_val c, b64_val d with
      | Some c, Some d => r ← b64_quanta pad s; let v := join6 a b c d in Some (byte_at v 16 :: byte_at v 8 :: byte_at v 0 :: r)
      | Some c, None =>
          if pad && Ascii.eqb d "=" && (List.length s =? 0)%nat then Some [byte_at (join6 a b c 0) 16; byte_at (join6 a b c 0) 8] else None
      | None, _ => if pad && Ascii.eqb c "=" && Ascii.eqb d "=" && (List.length s =? 0)%nat then Some [byte_at (join6 a b 0 0) 16] else None
      end
  | _ => None
  end.

(** [DecodeString]: line breaks are skipped. *)
Definition b64_decode (pad : bool) (s : bytes) : option bytes :=
  b64_quanta pad (List.filter (fun c => negb (Ascii.eqb c "010") && negb (Ascii.eqb c "013")) s).

(** ** Data URLs *)

(** [url.PathUnescape]. *)
Fixpoint PathUnescape (s : bytes) : option bytes :=
  match s with
  | [] => Some []
  | c :: s =>
      if Ascii.eqb c "%" then
        match s with
        | h :: l :: s => if isHex4 ["0"; "0"; h; l]%char then r ← PathUnescape s; Some (byte_of (decodeHex4 ["0"; "0"; h; l]%char) :: r) else None
        | _ => None
        end
      else r ← PathUnescape s; Some (c :: r)
  end.

(** [strings.Split(s, ";")]. *)
Fixpoint split_on (sep : ascii) (s : bytes) : list bytes :=
  match s with
  | [] => [[]]
  | c :: s => if Ascii.eqb c sep then [] :: split_on sep s else match split_on sep s with p :: ps => (c :: p) :: ps | [] => [[c]] end
  end.

Inductive ImageError :=
| NotAString | EmptyURL | InvalidURL | UnsupportedScheme (scheme : string)
| MalformedDataURL | NoPayload | UnsupportedMediaType (media : string) | InvalidEscaping | InvalidBase64 | InvalidPayload | EmptyPayload.

Definition normalizeMessImageMediaType (value : string) : string :=
  let v := ToLower (TrimSpace value) in
  if String.eqb v "image/jpeg" || String.eqb v "image/jpg" then "image/jpeg"
  else if String.eqb v "image/png" then "image/png"
  else if String.eqb v "image/gif" then "image/gif"
  else if String.eqb v "image/webp" then "image/webp"
  else "".

Definition image_value (source : gomap) : any := AObj [("type", AStr "image"); ("source", AObj source)].

(** The payload as canonical base64. *)
Definition canonical_payload (isBase64 : bool) (payload : bytes) : bytes + ImageError :=
  if isBase64 then
    match PathUnescape payload with
    | None => inr InvalidEscaping
    | Some p => match b64_decode true p with
                | Some d => inl (b64_encode true d)
                | None => match b64_decode false p with Some d => inl (b64_encode true d) | None => inr InvalidBase64 end
                end
    end
  else match PathUnescape payload with None => inr InvalidPayload | Some d => inl (b64_encode true d) end.

Definition dataURLToMessImage (raw : string) : any + ImageError :=
  if negb (HasPrefix (ToLower raw) "data:") then inr MalformedDataURL
  else
    let rest := drop 5 (bs raw) in
    match index_of "," rest with
    | None => inr NoPayload
    | Some comma =>
        match split_on ";" (take comma rest) with
        | [] => inr MalformedDataURL
        | media :: params =>
            let mediaType := normalizeMessImageMediaType (to_string media) in
            if String.eqb mediaType "" then inr (UnsupportedMediaType (TrimSpace (to_string media)))
            else
              let isBase64 := existsb (fun part => String.eqb (ToLower (TrimSpace (to_string part))) "base64") params in
              match canonical_payload isBase64 (drop (comma + 1) rest) with
              | inr e => inr e
              | inl [] => inr EmptyPayload
              | inl encoded => inl (image_value [("type", AStr "base64"); ("media_type", AStr mediaType); ("data", AStr (to_string encoded))])
              end
        end
    end.

Section Requests.
Context `{UrlLib}.

Definition chatImageURLToMessBlock (value : option any) : any + ImageError :=
  match match value with Some (AStr v) => Some v | Some (AObj v) => Some (str0 v "url") | _ => None end with
  | None => inr NotAString
  | Some raw =>
      let raw := TrimSpace raw in
      if String.eqb raw "" then inr EmptyURL
      else
        match url_Parse raw with
        | None => inr InvalidURL
        | Some u =>
            let scheme := ToLower (url_Scheme u) in
            if String.eqb (url_Scheme u) "" then inr InvalidURL
            else if String.eqb scheme "http" || String.eqb scheme "https" then
              if String.eqb (url_Host u) "" then inr InvalidURL else inl (image_value [("type", AStr "url"); ("url", AStr raw)])
            else if String.eqb scheme "data" then dataURLToMessImage raw
            else inr (UnsupportedScheme (url_Scheme u))
        end
  end.

(** The parts of a message, until the first image that is not accepted. *)
Fixpoint part_blocks (cs : list any) : list any + ImageError :=
  match cs with
  | [] => inl []
  | p :: cs =>
      let more (blocks : list any) := match part_blocks cs with inl r => inl (blocks ++ r)%list | inr e => inr e end in
      match p with
      | AObj pm =>
          if is_str pm "type" "text" then more (match str pm "text" with Some t => [text_value "text" t] | None => [] end)
          else if is_str pm "type" "reasoning_content" || is_str pm "type" "reasoning" then
            more (match str pm "text" with Some t => [thinking_value t] | None => [] end)
          else if is_str pm "type" "image_url" then
            match chatImageURLToMessBlock (get pm "image_url") with inl block => more [block] | inr e => inr e end
          else more []
      | _ => more []
      end
  end.

Definition chatPartsToMessBlocks (content : option any) : list any + ImageError :=
  match content with Some (AArr cs) => part_blocks cs | _ => inl [] end.

Definition chatSystem (req : gomap) : option string :=
  msgs ← arr req "messages";
  joined (omap (fun m => mm ← as_obj m; if String.eqb (str0 mm "role") "system" then contentText (get mm "content") else None) msgs).

Definition chat_tool_use (tc : any) : option any :=
  tcm ← as_obj tc; fn ← obj tcm "function"; Some (tool_use_value (str0 tcm "id") (str0 fn "name") (parseJSON (get fn "arguments"))).

Definition assistant_message (mm : gomap) : list any + ImageError :=
  match chatPartsToMessBlocks (get mm "content") with
  | inr e => inr e
  | inl blocks =>
      let blocks := match str mm "content" with Some s => if String.eqb s "" then blocks else (blocks ++ [text_value "text" s])%list | None => blocks end in
      let blocks := match firstChatReasoning mm with Some r => thinking_value r :: blocks | None => blocks end in
      let blocks := (blocks ++ omap chat_tool_use (default [] (arr mm "tool_calls")))%list in
      inl (match blocks with [] => [] | _ => [AObj (message_value "assistant" (AArr blocks))] end)
  end.

Definition result_message (mm : gomap) (id_key : string) : list any :=
  match contentText (get mm "content") with
  | Some text => [AObj (message_value "user" (AArr [tool_result_value (str0 mm id_key) text]))]
  | None => []
  end.

Definition chat_to_messages (m : any) : list any + ImageError :=
  match m with
  | AObj mm =>
      let role := str0 mm "role" in
      if String.eqb role "user" then
        match get mm "content" with
        | Some (AStr s) => inl [AObj (message_value "user" (AStr s))]
        | content =>
            match chatPartsToMessBlocks content with
            | inr e => inr e
            | inl [] => inl []
            | inl blocks => inl [AObj (message_value "user" (AArr blocks))]
            end
        end
      else if String.eqb role "assistant" then assistant_message mm
      else if String.eqb role "tool" then inl (result_message mm "tool_call_id")
      else if String.eqb role "function" then inl (result_message mm "name")
      else inl []
  | _ => inl []
  end.

Fixpoint all_messages (msgs : list any) : list any + ImageError :=
  match msgs with
  | [] => inl []
  | m :: msgs =>
      match chat_to_messages m with
      | inr e => inr e
      | inl out => match all_messages msgs with inl r => inl (out ++ r)%list | inr e => inr e end
      end
  end.

Definition chatMessagesToMess (req : gomap) : option (list any) + ImageError :=
  match arr req "messages" with
  | None => inl None
  | Some msgs => match all_messages msgs with inl out => inl (Some out) | inr e => inr e end
  end.

Definition chatStop (req : gomap) : option any :=
  match get req "stop" with Some (AStr s) => Some (AArr [AStr s]) | Some (AArr s) => Some (AArr s) | _ => None end.

Definition chatToolsToMess (tools : list any) : list any :=
  omap (fun t => tm ← as_obj t; fn ← obj tm "function"; Some (AObj (named fn "parameters" "input_schema" []))) tools.

Definition chatToolChoiceMess (req : gomap) : option any :=
  match get req "tool_choice" with
  | Some (AStr s) => Some (AStr (if String.eqb s "required" then "any" else s))
  | Some (AObj m) =>
      if is_str m "type" "function" then fn ← obj m "function"; name ← str fn "name"; Some (AObj [("type", AStr "tool"); ("name", AStr name)]) else None
  | _ => None
  end.

Definition chat_to_mess_request (req : gomap) : gomap + ImageError :=
  let out := put "system" (AStr <$> chatSystem req) [] in
  match chatMessagesToMess req with
  | inr e => inr e
  | inl msgs =>
      let out := put "messages" (slice_value <$> msgs) out in
      let out := pass out req passed in
      let out := put "max_tokens" (match get req "max_completion_tokens" with Some v => Some v | None => get req "max_tokens" end) out in
      let out := put "stop_sequences" (chatStop req) out in
      let out := put "tools" (tools ← arr req "tools"; Some (AArr (chatToolsToMess tools))) out in
      let out := put "tool_choice" (chatToolChoiceMess req) out in
      inl (put "thinking" (effort ← str req "reasoning_effort"; if String.eqb effort "" then None else Some (AObj (thinking_enabled (reasoningEffortBudget effort)))) out)
  end.

(** [None] for a body that is not an object. *)
Definition chatToMessRequest (format_float : spec_float -> bytes) (body : bytes) : option (bytes + ImageError) :=
  req ← decodeObj body;
  Some (match chat_to_mess_request req with inl out => inl (Marshal format_float (AObj out)) | inr e => inr e end).
End Requests.

Example b64_examples : map (fun s => (to_string (b64_encode true (bs s)), option_map to_string (b64_decode true (b64_encode true (bs s))))) [""; "M"; "Ma"; "Man"; "Many"]
  = [("", Some ""); ("TQ==", Some "M"); ("TWE=", Some "Ma"); ("TWFu", Some "Man"); ("TWFueQ==", Some "Many")].
Proof. vm_compute. reflexivity. Qed.

Example data_image : dataURLToMessImage "data:image/JPG;x=1; Base64,TWE" = inl (image_value [("type", AStr "base64"); ("media_type", AStr "image/jpeg"); ("data", AStr "TWE=")]).
Proof. vm_compute. reflexivity. Qed.

(** ** Decoding gives back what was encoded *)

Lemma ones6 (v s n : Z) : (0 <= s)%Z -> Z.testbit (Z.land (Z.shiftr v s) 63) n = ((0 <=? n) && (n <? 6))%Z && Z.testbit v (n + s).
Proof.
  intros Hs. destruct (Z.leb_spec 0 n) as [H|H]; [|apply Z.testbit_neg_r; exact H]. cbn [andb]. rewrite Z.land_spec, Z.shiftr_spec by exact H.
  change 63%Z with (Z.ones 6). rewrite Bool.andb_comm. f_equal. destruct (Z.ltb_spec n 6); [apply Z.ones_spec_low; lia|apply Z.ones_spec_high; lia].
Qed.

Lemma join_sextets (v : Z) : (0 <= v < 2 ^ 24)%Z -> join6 (Z.land (Z.shiftr v 18) 63) (Z.land (Z.shiftr v 12) 63) (Z.land (Z.shiftr v 6) 63) (Z.land (Z.shiftr v 0) 63) = v.
Proof.
  intros Hv. apply Z.bits_inj'. intros n Hn. unfold join6. rewrite !Z.lor_spec, !Z.shiftl_spec, !ones6 by lia.
  assert ((24 <= n)%Z -> Z.testbit v n = false) as Hhigh by (intros H; destruct (Z.eq_dec v 0) as [->|]; [apply Z.testbit_0_l|]; apply Z.bits_above_log2; [lia|]; apply Z.lt_le_trans with 24%Z; [apply Z.log2_lt_pow2; lia|exact H]).
  replace (n - 18 + 18)%Z with n by lia. replace (n - 12 + 12)%Z with n by lia. replace (n - 6 + 6)%Z with n by lia. replace (n + 0)%Z with n by lia.
  destruct (Z.leb_spec 0 (n - 18)), (Z.ltb_spec (n - 18) 6), (Z.leb_spec 0 (n - 12)), (Z.ltb_spec (n - 12) 6), (Z.leb_spec 0 (n - 6)), (Z.ltb_spec (n - 6) 6), (Z.leb_spec 0 n), (Z.ltb_spec n 6);
    try lia; cbn [andb orb]; rewrite ?Bool.orb_false_r; try reflexivity. symmetry. apply Hhigh. lia.
Qed.

Lemma digit_value (v : Z) : (0 <= v < 64)%Z -> b64_val (b64_char v) = Some v.
Proof.
  intros Hv. assert (forallb (fun n => match b64_val (b64_char (Z.of_nat n)) with Some w => Z.eqb w (Z.of_nat n) | None => false end) (seq 0 64) = true) as H by (vm_compute; reflexivity).
  rewrite forallb_forall in H. specialize (H (Z.to_nat v) ltac:(apply in_seq; lia)). rewrite Z2Nat.id in H by lia. destruct (b64_val (b64_char v)) as [w|]; [|discriminate]. apply Z.eqb_eq in H as ->. reflexivity.
Qed.

Lemma sextet_value (v s : Z) : b64_val (sextet v s) = Some (Z.land (Z.shiftr v s) 63).
Proof. apply digit_value. change 63%Z with (Z.ones 6). rewrite Z.land_ones by lia. apply Z.mod_pos_bound. reflexivity. Qed.

(** Three bytes in one number. *)
Definition join8 (x y z : Z) : Z := Z.lor (Z.lor (Z.shiftl x 16) (Z.shiftl y 8)) z.

Lemma byte_high (x n : Z) : (0 <= x < 256)%Z -> (8 <= n)%Z -> Z.testbit x n = false.
Proof.
  intros Hx Hn. destruct (Z.eq_dec x 0) as [->|]; [apply Z.testbit_0_l|]. apply Z.bits_above_log2; [lia|]. apply Z.lt_le_trans with 8%Z; [apply Z.log2_lt_pow2; lia|exact Hn].
Qed.

Lemma join8_bytes (x y z : Z) : (0 <= x < 256)%Z -> (0 <= y < 256)%Z -> (0 <= z < 256)%Z ->
  Z.land (Z.shiftr (join8 x y z) 16) 255 = x /\ Z.land (Z.shiftr (join8 x y z) 8) 255 = y /\ Z.land (Z.shiftr (join8 x y z) 0) 255 = z /\ (0 <= join8 x y z < 2 ^ 24)%Z.
Proof.
  intros Hx Hy Hz. assert (join8 x y z = x * 2 ^ 16 + y * 2 ^ 8 + z)%Z as ->.
  { unfold join8. rewrite !Z.shiftl_mul_pow2 by lia.
    assert (forall a b k, (0 <= k)%Z -> (0 <= b < 2 ^ k)%Z -> Z.lor (a * 2 ^ k) b = (a * 2 ^ k + b)%Z) as Hor.
    { intros a b k Hk Hb. rewrite <- Z.add_lor_land. assert (Z.land (a * 2 ^ k) b = 0)%Z as ->; [|lia]. apply Z.bits_inj'. intros n Hn. rewrite Z.land_spec, Z.testbit_0_l.
      destruct (Z.lt_ge_cases n k); [rewrite Z.mul_pow2_bits_low by lia; reflexivity|].
      replace b with (b mod 2 ^ k)%Z by (apply Z.mod_small; exact Hb). rewrite Z.mod_pow2_bits_high by lia. apply Bool.andb_false_r. }
    rewrite <- Z.lor_assoc, (Hor y z 8)%Z by lia. rewrite <- Z.add_assoc. apply Hor; lia. }
  change 255%Z with (Z.ones 8). rewrite !Z.land_ones, !Z.shiftr_div_pow2 by lia. repeat split; try lia.
  - rewrite <- (Z.div_unique (x * 2 ^ 16 + y * 2 ^ 8 + z) (2 ^ 16) x (y * 2 ^ 8 + z)) by lia. apply Z.mod_small. lia.
  - rewrite <- (Z.div_unique (x * 2 ^ 16 + y * 2 ^ 8 + z) (2 ^ 8) (x * 2 ^ 8 + y) z) by lia. symmetry. apply (Z.mod_unique _ _ x); lia.
  - rewrite Z.pow_0_r, Z.div_1_r. symmetry. apply (Z.mod_unique _ _ (x * 2 ^ 8 + y)); lia.
Qed.

Lemma bytes_of (x y z : ascii) : let v := join8 (byte_val x) (byte_val y) (byte_val z) in byte_at v 16 = x /\ byte_at v 8 = y /\ byte_at v 0 = z /\ (0 <= v < 2 ^ 24)%Z.
Proof.
  cbv zeta. destruct (join8_bytes _ _ _ (byte_val_range x) (byte_val_range y) (byte_val_range z)) as (H1 & H2 & H3 & H4). unfold byte_at. rewrite H1, H2, H3, !byte_of_val. auto.
Qed.

(** Low bits that belong to no byte are zero. *)
Lemma low_sextet (a k s : Z) : (0 <= s)%Z -> (s + 6 <= k)%Z -> Z.land (Z.shiftr (Z.shiftl a k) s) 63 = 0%Z.
Proof.
  intros Hs Hk. apply Z.bits_inj'. intros n Hn. rewrite ones6, Z.testbit_0_l by exact Hs. destruct (Z.ltb_spec n 6); [|rewrite Bool.andb_false_r; reflexivity].
  rewrite Z.shiftl_spec_low by lia. apply Bool.andb_false_r.
Qed.

(** Induction three bytes at a time. *)
Lemma triples_ind (P : bytes -> Prop) : P [] -> (forall x, P [x]) -> (forall x y, P [x; y]) -> (forall x y z b, P b -> P (x :: y :: z :: b)) -> forall b, P b.
Proof. intros H0 H1 H2 H3. fix IH 1. intros [|x [|y [|z b]]]; [exact H0|exact (H1 x)|exact (H2 x y)|exact (H3 x y z b (IH b))]. Qed.

Lemma quanta_encode (pad : bool) (b : bytes) : b64_quanta pad (b64_encode pad b) = Some b.
Proof.
  induction b as [|x|x y|x y z b IH] using triples_ind; [reflexivity| | |].
  - cbn [b64_encode]. pose proof (bytes_of x "000" "000") as (H1 & _ & _ & Hv). change (join8 _ _ _) with (Z.lor (Z.lor (Z.shiftl (byte_val x) 16) 0) 0) in *. rewrite !Z.lor_0_r in *.
    pose proof (join_sextets _ Hv) as Hj. rewrite (low_sextet (byte_val x) 16 6), (low_sextet (byte_val x) 16 0) in Hj by lia. set (v := Z.shiftl (byte_val x) 16) in *.
    destruct pad; cbn [app b64_quanta]; rewrite !sextet_value; cbn [mbind option_bind]; cbn [b64_val byte_val]; rewrite ?Hj, ?H1; reflexivity.
  - cbn [b64_encode]. pose proof (bytes_of x y "000") as (H1 & H2 & _ & Hv). change (join8 _ _ _) with (Z.lor (Z.lor (Z.shiftl (byte_val x) 16) (Z.shiftl (byte_val y) 8)) 0) in *. rewrite !Z.lor_0_r in *.
    pose proof (join_sextets _ Hv) as Hj. set (v := Z.lor _ _) in *.
    assert (Z.land (Z.shiftr v 0) 63 = 0)%Z as E.
    { unfold v. rewrite Z.shiftr_lor, Z.land_lor_distr_l, (low_sextet (byte_val x) 16 0), (low_sextet (byte_val y) 8 0) by lia. reflexivity. }
    rewrite E in Hj. destruct pad; cbn [app b64_quanta]; rewrite !sextet_value; cbn [mbind option_bind]; rewrite ?Hj, ?H1, ?H2; reflexivity.
  - cbn [b64_encode]. pose proof (bytes_of x y z) as (H1 & H2 & H3 & Hv). pose proof (join_sextets _ Hv) as Hj. unfold join8 in *. set (v := Z.lor _ (byte_val z)) in *.
    cbn [b64_quanta]. rewrite !sextet_value. cbn [mbind option_bind]. rewrite IH. cbn [mbind option_bind]. cbv zeta. rewrite Hj, H1, H2, H3. reflexivity.
Qed.

(** No digit is a separator, an escape or a line break. *)
Definition digit_char (c : ascii) : bool := isSome (b64_val c) || Ascii.eqb c "=".

Lemma encode_digits (pad : bool) (b : bytes) : Forall (fun c => digit_char c = true) (b64_encode pad b).
Proof.
  assert (forall v s, digit_char (sextet v s) = true) as H by (intros v s; unfold digit_char; rewrite sextet_value; reflexivity).
  induction b as [|x|x y|x y z b IH] using triples_ind; cbn [b64_encode app]; repeat constructor; try apply H; try (destruct pad; repeat constructor); exact IH.
Qed.

Lemma no_breaks (s : bytes) : Forall (fun c => digit_char c = true) s -> List.filter (fun c => negb (Ascii.eqb c "010") && negb (Ascii.eqb c "013")) s = s.
Proof.
  induction 1 as [|c s Hc Hs IH]; [reflexivity|]. cbn [List.filter]. rewrite IH. revert Hc. each_char c; reflexivity.
Qed.

Lemma b64_decode_encode (pad : bool) (b : bytes) : b64_decode pad (b64_encode pad b) = Some b.
Proof. unfold b64_decode. rewrite no_breaks by apply encode_digits. apply quanta_encode. Qed.

(** Text without padding is complete or not standard base64. *)
Lemma unpadded_decode (b : bytes) : b64_decode true (b64_encode false b) = Some b \/ b64_decode true (b64_encode false b) = None.
Proof.
  unfold b64_decode. rewrite no_breaks by apply encode_digits. pose proof (quanta_encode true) as Hq. induction b as [|x|x y|x y z b IH] using triples_ind; [left; reflexivity|right; reflexivity|right; reflexivity|].
  specialize (Hq (x :: y :: z :: b)). cbn [b64_encode b64_quanta] in *. rewrite !sextet_value in *. cbn [mbind option_bind] in *. rewrite quanta_encode in Hq. cbn [mbind option_bind] in Hq. injection Hq as E1 E2 E3.
  cbv zeta in E1, E2, E3. destruct IH as [-> | ->]; cbn [mbind option_bind]; [left|right; reflexivity]. cbv zeta. rewrite E1, E2, E3. reflexivity.
Qed.

Lemma unescape_digits (s : bytes) : Forall (fun c => digit_char c = true) s -> PathUnescape s = Some s.
Proof.
  induction 1 as [|c s Hc Hs IH]; [reflexivity|]. cbn [PathUnescape]. rewrite IH. destruct (Ascii.eqb_spec c "%") as [->|]; [discriminate|reflexivity].
Qed.

Lemma payload_canonical (pad : bool) (b : bytes) : canonical_payload true (b64_encode pad b) = inl (b64_encode true b).
Proof.
  unfold canonical_payload. rewrite unescape_digits by apply encode_digits. destruct pad; [rewrite b64_decode_encode; reflexivity|].
  destruct (unpadded_decode b) as [-> | ->]; [reflexivity|]. rewrite b64_decode_encode. reflexivity.
Qed.

Definition accepted_media : list string := ["image/jpeg"; "image/png"; "image/gif"; "image/webp"].

(** What the client writes, and what the provider is to get. *)
Definition data_url (media : string) (pad : bool) (image : bytes) : string :=
  to_string (bs ("data:" +:+ media +:+ ";base64,")%stdpp ++ b64_encode pad image)%list.

Definition base64_image (media data : string) : any :=
  image_value [("type", AStr "base64"); ("media_type", AStr media); ("data", AStr data)].

Lemma data_url_image (media : string) (pad : bool) (image : bytes) : In media accepted_media -> image <> [] ->
  dataURLToMessImage (data_url media pad image) = inl (base64_image media (to_string (b64_encode true image))).
Proof.
  intros Hm Hi.
  assert (forall x y, canonical_payload true (b64_encode pad image) = inl x -> x <> [] -> match canonical_payload true (b64_encode pad image) with
    | inr e => inr e | inl [] => inr EmptyPayload | inl encoded => inl (base64_image y (to_string encoded)) end =
    (inl (base64_image y (to_string x)) : any + ImageError)) as Hc.
  { intros x y -> Hx. destruct x; [contradiction|reflexivity]. }
  specialize (Hc _ media (payload_canonical pad image) ltac:(destruct image as [|x [|y [|z b]]]; [contradiction|discriminate..])).
  unfold dataURLToMessImage, data_url. set (enc := b64_encode pad image) in *. clearbody enc.
  destruct Hm as [<-|[<-|[<-|[<-|[]]]]]; cbn [bs list_ascii_of_string app to_string string_of_list_ascii];
    unfold bs, to_string; cbn [list_ascii_of_string string_of_list_ascii]; rewrite list_ascii_of_string_of_list_ascii; exact Hc.
Qed.

(** Nothing is trimmed from such an URL. *)
Lemma digits_no_space (s : bytes) : Forall (fun c => digit_char c = true) s -> none_of is_space (to_string s) = true.
Proof.
  induction 1 as [|c s Hc _ IH]; [reflexivity|]. unfold to_string in *. cbn [string_of_list_ascii none_of]. rewrite IH, Bool.andb_true_r.
  revert Hc. destruct c as [[] [] [] [] [] [] [] []]; intros H; (discriminate H || reflexivity).
Qed.

Lemma data_url_trimmed (media : string) (pad : bool) (image : bytes) : In media accepted_media ->
  TrimSpace (data_url media pad image) = data_url media pad image /\ String.eqb (data_url media pad image) "" = false.
Proof.
  intros Hm. pose proof (digits_no_space _ (encode_digits pad image)) as Hd. unfold TrimSpace, data_url. set (enc := b64_encode pad image) in *. clearbody enc.
  destruct Hm as [<-|[<-|[<-|[<-|[]]]]]; (split; [|reflexivity]); apply trim_by_none; exact Hd.
Qed.

(** A content part that names an image, in either of the two forms. *)
Definition names_image (pm : gomap) (url : string) : Prop :=
  is_str pm "type" "image_url" = true /\
  (get pm "image_url" = Some (AStr url) \/ exists m, get pm "image_url" = Some (AObj m) /\ str m "url" = Some url).

Section Roundtrip.
Context `{UrlLib}.

Lemma image_part_block (pm : gomap) (media : string) (pad : bool) (image : bytes) (u : URL) : In media accepted_media -> image <> [] ->
  names_image pm (data_url media pad image) -> url_Parse (data_url media pad image) = Some u -> url_Scheme u = "data" ->
  chatImageURLToMessBlock (get pm "image_url") = inl (base64_image media (to_string (b64_encode true image))).
Proof.
  intros Hm Hi [_ Hv] Hu Hs. destruct (data_url_trimmed media pad image Hm) as [Ht Hne].
  pose proof (data_url_image media pad image Hm Hi) as Hd. set (url := data_url media pad image) in *. clearbody url.
  unfold chatImageURLToMessBlock. destruct Hv as [->|(m & -> & Hstr)]; cbv zeta; [|unfold str0; rewrite Hstr; cbn [default from_option id]];
    rewrite Ht, Hne, Hu, Hs; exact Hd.
Qed.

Lemma part_blocks_image (pm : gomap) (block : any) (cs1 cs2 b1 b2 : list any) : is_str pm "type" "image_url" = true ->
  chatImageURLToMessBlock (get pm "image_url") = inl block -> part_blocks cs1 = inl b1 -> part_blocks cs2 = inl b2 ->
  part_blocks (cs1 ++ AObj pm :: cs2)%list = inl (b1 ++ block :: b2)%list.
Proof.
  intros Ht Hb H1 H2. revert b1 H1. induction cs1 as [|c cs1 IH]; intros b1 H1.
  - injection H1 as <-. cbn [app part_blocks]. unfold is_str in *. destruct (str pm "type") as [t|]; [|discriminate]. apply String.eqb_eq in Ht as ->.
    cbn [String.eqb Ascii.eqb Bool.eqb orb]. rewrite Hb, H2. reflexivity.
  - cbn [app part_blocks] in *. assert (forall bs1, match part_blocks cs1 with inl r => inl (bs1 ++ r)%list | inr e => inr e end = inl b1 ->
      match part_blocks (cs1 ++ AObj pm :: cs2)%list with inl r => inl (bs1 ++ r)%list | inr e => inr e end = (inl (b1 ++ block :: b2)%list : list any + ImageError)) as Hmore.
    { intros bs1 E. destruct (part_blocks cs1) as [r|]; [|discriminate]. injection E as <-. rewrite (IH r eq_refl), <- app_assoc. reflexivity. }
    destruct c; try (exact (Hmore [] H1)).
    repeat match type of H1 with (if ?b then _ else _) = _ => destruct b end; try first [exact (Hmore _ H1) | exact (Hmore [] H1)].
    destruct (chatImageURLToMessBlock (get m "image_url")) as [x|]; [exact (Hmore [x] H1)|discriminate H1].
Qed.

Lemma all_messages_app (m : any) (msgs1 msgs2 o1 o o2 : list any) : all_messages msgs1 = inl o1 -> chat_to_messages m = inl o -> all_messages msgs2 = inl o2 ->
  all_messages (msgs1 ++ m :: msgs2)%list = inl (o1 ++ o ++ o2)%list.
Proof.
  intros H1 Hm H2. revert o1 H1. induction msgs1 as [|x msgs1 IH]; intros o1 H1; cbn [app all_messages] in *.
  - injection H1 as <-. rewrite Hm, H2. reflexivity.
  - destruct (chat_to_messages x) as [ox|]; [|discriminate]. destruct (all_messages msgs1) as [r|]; [|discriminate]. injection H1 as <-.
    rewrite (IH r eq_refl), <- app_assoc. reflexivity.
Qed.

Lemma request_messages (req : gomap) (msgs out : list any) : arr req "messages" = Some msgs -> all_messages msgs = inl out -> out <> [] ->
  exists o, chat_to_mess_request req = inl o /\ arr o "messages" = Some out.
Proof.
  intros Ha Hm Hne. unfold chat_to_mess_request, chatMessagesToMess. rewrite Ha, Hm. eexists. split; [reflexivity|]. unfold arr.
  repeat first [rewrite get_put_other by reflexivity | rewrite get_pass by reflexivity]. rewrite get_put. cbn [fmap option_fmap option_map].
  destruct out; [contradiction|reflexivity].
Qed.

(** C35: An image that a Chat client sends in a user message as a base64 data URL,
    with or without padding, reaches the Messages provider.  The media type is one
    of the four Anthropic accepts (image/jpeg, image/png, image/gif, image/webp),
    and the rest of the request translates.  Then the whole request translates,
    and its messages hold the image in its place: a base64 block with the media
    type, whose data decodes to the bytes the client encoded.  Of [url.Parse] it
    is used that a data URL parses with the scheme "data". *)
Theorem data_image_roundtrip (format_float : spec_float -> bytes) (body : bytes) (req mm pm : gomap) (u : URL)
    (media : string) (pad : bool) (image : bytes) (msgs1 msgs2 cs1 cs2 o1 o2 b1 b2 : list any) :
  In media accepted_media -> image <> [] ->
  url_Parse (data_url media pad image) = Some u -> url_Scheme u = "data" ->
  decodeObj body = Some req -> arr req "messages" = Some (msgs1 ++ AObj mm :: msgs2)%list ->
  str mm "role" = Some "user" -> arr mm "content" = Some (cs1 ++ AObj pm :: cs2)%list -> names_image pm (data_url media pad image) ->
  all_messages msgs1 = inl o1 -> all_messages msgs2 = inl o2 -> part_blocks cs1 = inl b1 -> part_blocks cs2 = inl b2 ->
  exists out data, chatToMessRequest format_float body = Some (inl (Marshal format_float (AObj out))) /\
    arr out "messages" = Some (o1 ++ AObj (message_value "user" (AArr (b1 ++ base64_image media data :: b2))) :: o2)%list /\
    b64_decode true (bs data) = Some image.
Proof.
  intros Hm Hi Hu Hs Hd Ha Hrole Hc Hn H1 H2 Hb1 Hb2. set (block := base64_image media (to_string (b64_encode true image))).
  pose proof (image_part_block pm media pad image u Hm Hi Hn Hu Hs) as Hblock. fold block in Hblock.
  pose proof (part_blocks_image pm block cs1 cs2 b1 b2 (proj1 Hn) Hblock Hb1 Hb2) as Hp.
  assert (chat_to_messages (AObj mm) = inl [AObj (message_value "user" (AArr (b1 ++ block :: b2)%list))]) as Hmsg.
  { unfold chat_to_messages, str0. rewrite Hrole. cbn [default from_option id String.eqb Ascii.eqb Bool.eqb].
    unfold arr in Hc. destruct (get mm "content") as [[]|] eqn:E; try discriminate. injection Hc as ->.
    unfold chatPartsToMessBlocks. rewrite Hp. destruct b1; reflexivity. }
  destruct (request_messages req _ _ Ha (all_messages_app _ _ _ _ _ _ H1 Hmsg H2)) as (out & Ho & Hget); [destruct o1; discriminate|].
  exists out, (to_string (b64_encode true image)). split_and!.
  - unfold chatToMessRequest. rewrite Hd. cbn [mbind option_bind]. rewrite Ho. reflexivity.
  - exact Hget.
  - unfold bs, to_string. rewrite list_ascii_of_string_of_list_ascii. apply b64_decode_encode.
Qed.
End Roundtrip.

(** A parser for the example: what stands before the colon is the scheme. *)
Definition scheme_url : UrlLib := {|
  URL := string; url_Parse s := fst <$> Cut s ":"; url_Scheme u := u; url_Host u := u; url_Path _ := "";
  url_with_Path u _ := u; url_String u := u |}.

Definition image_body : string :=
  "{'model':'m','messages':[{'role':'system','content':'s'},{'role':'user','content':[{'type':'text','text':'what is this?'},{'type':'image_url','image_url':{'url':'data:image/png;base64,TWE'}}]}]}".

Lemma data_image_roundtrip_witness : exists out data,
    @chatToMessRequest scheme_url (fun _ => []) (jt image_body) = Some (inl (Marshal (fun _ => []) (AObj out))) /\
    arr out "messages" = Some [AObj (message_value "user" (AArr [text_value "text" "what is this?"; base64_image "image/png" data]))] /\
    b64_decode true (bs data) = Some (bs "Ma").
Proof.
  pose (pm := [("type", AStr "image_url"); ("image_url", AObj [("url", AStr "data:image/png;base64,TWE")])]).
  pose (cs1 := [AObj [("type", AStr "text"); ("text", AStr "what is this?")]]).
  pose (mm := [("role", AStr "user"); ("content", AArr (cs1 ++ [AObj pm]))]).
  pose (m1 := [AObj [("role", AStr "system"); ("content", AStr "s")]]).
  pose (req := [("model", AStr "m"); ("messages", AArr (m1 ++ [AObj mm]))]).
  apply (@data_image_roundtrip scheme_url (fun _ => []) _ req mm pm "data" "image/png" false (bs "Ma") m1 [] cs1 [] [] [] [text_value "text" "what is this?"] []);
    try (vm_compute; reflexivity); [right; left; reflexivity|discriminate|].
  split; [reflexivity|]. right. exists [("url", AStr "data:image/png;base64,TWE")]. split; reflexivity.
Defined.
