(* ===== verification/BodyResponse.v ===== *)
(** * Conversion of response bodies

    The response converters of [resp_mess.go], [mess_resp.go], [chat_mess.go] and
    [chat_target.go] that work on decoded documents, and the detection of failures
    that arrive with a successful status ([protoconv.go]). *)

From Stdlib Require Import ZArith Lia List Bool String Ascii.
From Stdlib Require Import Floats.SpecFloat.
From stdpp Require Import base option list strings.
From S2P Require Import Prelude GoString Endpoints JsonScan JsonText GoJson SseRelay Metering ProtoJson ChatStream RespStream BodyRequest.
Import ListNotations.
Local Open Scope Z_scope.
Local Open Scope list_scope.
Local Open Scope string_scope.

Section Responses.
Context (format_float : spec_float -> bytes).

(** ** Messages to Responses *)

Definition usage_of (m : gomap) (key : string) : Z := match obj m "usage" with Some u => intOr0 u key | None => 0 end.

Definition messUsageToResp (msg : gomap) (it ot : Z) : gomap :=
  [("input_tokens", AInt it); ("output_tokens", AInt ot); ("total_tokens", AInt (sumTokens it ot));
   ("input_tokens_details", AObj [("cached_tokens", AInt (usage_of msg "cache_read_input_tokens"))])].

Definition summary_item (msgID : string) (n : nat) (t : string) : any :=
  AObj [("id", AStr ("rs_" +:+ msgID +:+ "_" +:+ FormatInt (Z.of_nat n))%stdpp); ("type", AStr "reasoning"); ("status", AStr "completed");
        ("summary", AArr [text_value "summary_text" t])].

Definition output_part (t : string) : any := AObj [("type", AStr "output_text"); ("text", AStr t); ("annotations", AArr [])].

Definition output_call (bm : gomap) : any :=
  AObj [("type", AStr "function_call"); ("id", AStr (str0 bm "id")); ("call_id", AStr (str0 bm "id")); ("name", AStr (str0 bm "name"));
        ("arguments", AStr (marshalAny format_float (default ANil (get bm "input")))); ("status", AStr "completed")].

(** The loop over the content: [n] reasoning items are in [output] already. *)
Fixpoint content_output (msgID : string) (n : nat) (content : list any) : list any * list any * list any :=
  match content with
  | [] => ([], [], [])
  | AObj bm :: content =>
      if is_str bm "type" "thinking" then
        match str bm "thinking" with
        | Some t => let '(output, texts, fcs) := content_output msgID (S n) content in (summary_item msgID n t :: output, texts, fcs)
        | None => content_output msgID n content
        end
      else
        let '(output, texts, fcs) := content_output msgID n content in
        if is_str bm "type" "text" then (output, match str bm "text" with Some t => output_part t :: texts | None => texts end, fcs)
        else if is_str bm "type" "tool_use" then (output, texts, output_call bm :: fcs)
        else (output, texts, fcs)
  | _ :: content => content_output msgID n content
  end.

Definition messContentToRespOutput (msg : gomap) : list any * Z * Z :=
  let '(output, texts, fcs) := content_output (str0 msg "id") 0 (default [] (arr msg "content")) in
  let message := match texts with
    | [] => []
    | _ => [AObj [("id", AStr (str0 msg "id")); ("type", AStr "message"); ("status", AStr "completed"); ("role", AStr "assistant"); ("content", AArr texts)]]
    end in
  ((output ++ message ++ fcs)%list, usage_of msg "input_tokens", usage_of msg "output_tokens").

Definition mess_to_resp_response (msg : gomap) : gomap :=
  let '(output, it, ot) := messContentToRespOutput msg in
  [("id", AStr (str0 msg "id")); ("object", AStr "response"); ("created_at", AInt 0); ("status", AStr "completed"); ("model", AStr (str0 msg "model"));
   ("output", AArr output); ("parallel_tool_calls", ABool true); ("usage", AObj (messUsageToResp msg it ot))].

Definition messToRespResponse (body : bytes) : option bytes := msg ← decodeObj body; Some (Marshal format_float (AObj (mess_to_resp_response msg))).

(** ** Responses to Messages *)

(** The [text] members of a list of parts. *)
Definition part_texts (parts : option (list any)) : list string := omap (fun raw => sm ← as_obj raw; str sm "text") (default [] parts).

Definition output_blocks (item : any) : list any :=
  match item with
  | AObj im =>
      if is_str im "type" "reasoning" then map thinking_value (part_texts (arr im "summary"))
      else if is_str im "type" "message" then map (text_value "text") (part_texts (arr im "content"))
      else if is_str im "type" "function_call" then [tool_use_value (toolCallID im) (str0 im "name") (parseJSON (get im "arguments"))]
      else []
  | _ => []
  end.

Definition respOutputToMessBlocks (r : gomap) : list any := flat_map output_blocks (default [] (arr r "output")).

Definition respUsageToMess (r : gomap) : gomap :=
  [("input_tokens", AInt (usage_of r "input_tokens")); ("output_tokens", AInt (usage_of r "output_tokens"));
   ("cache_creation_input_tokens", AInt 0);
   ("cache_read_input_tokens", AInt (match u ← obj r "usage"; obj u "input_tokens_details" with Some d => intOr0 d "cached_tokens" | None => 0 end))].

Definition message_object (id model : string) (content : list any) (stop : string) (usage : gomap) : gomap :=
  [("id", AStr id); ("type", AStr "message"); ("role", AStr "assistant"); ("model", AStr model); ("content", AArr content);
   ("stop_reason", AStr stop); ("stop_sequence", ANil); ("usage", AObj usage)].

Definition resp_to_mess_response (r : gomap) : gomap :=
  message_object (str0 r "id") (str0 r "model") (respOutputToMessBlocks r) (respToMessStopReason r) (respUsageToMess r).

Definition respToMessResponse (body : bytes) : option bytes := r ← decodeObj body; Some (Marshal format_float (AObj (resp_to_mess_response r))).

(** ** Messages to Chat *)

Fixpoint chat_content (content : list any) : list string * list any :=
  match content with
  | [] => ([], [])
  | AObj bm :: content =>
      let '(text, tcs) := chat_content content in
      if is_str bm "type" "text" then (match str bm "text" with Some t => t :: text | None => text end, tcs)
      else if is_str bm "type" "tool_use" then (text, chat_call format_float bm :: tcs)
      else (text, tcs)
  | _ :: content => chat_content content
  end.

Definition messToChatMessage (msg : gomap) : gomap :=
  let '(text, tcs) := chat_content (default [] (arr msg "content")) in
  ([("role", AStr "assistant"); ("content", AStr (joinStrings text ""))] ++ match tcs with [] => [] | _ => [("tool_calls", AArr tcs)] end)%list.

Definition messToChatFinishReason (msg : gomap) : string :=
  let reason := str0 msg "stop_reason" in
  if String.eqb reason "tool_use" then "tool_calls" else if String.eqb reason "max_tokens" then "length" else "stop".

Definition messUsageToChat (msg : gomap) : option gomap :=
  u ← obj msg "usage";
  let it := intOr0 u "input_tokens" in
  let ot := intOr0 u "output_tokens" in
  let c := intOr0 u "cache_read_input_tokens" in
  Some ([("prompt_tokens", AInt it); ("completion_tokens", AInt ot); ("total_tokens", AInt (sumTokens it ot))] ++
        (if (0 <? c)%Z then [("prompt_tokens_details", AObj [("cached_tokens", AInt c)])] else []))%list.

Definition mess_to_chat_response (msg : gomap) : gomap :=
  ([("id", AStr (str0 msg "id")); ("object", AStr "chat.completion"); ("created", AInt 0); ("model", AStr (str0 msg "model"));
    ("choices", AArr [AObj [("index", AInt 0); ("message", AObj (messToChatMessage msg)); ("finish_reason", AStr (messToChatFinishReason msg))]])] ++
   match messUsageToChat msg with Some u => [("usage", AObj u)] | None => [] end)%list.

Definition messToChatResponse (body : bytes) : option bytes := msg ← decodeObj body; Some (Marshal format_float (AObj (mess_to_chat_response msg))).

(** ** Chat to Messages, and on to Responses *)

Definition chatMessageToMessBlocks (message : gomap) : list any :=
  let texts := match get message "content" with
    | Some (AStr content) => if String.eqb content "" then [] else [text_value "text" content]
    | Some (AArr parts) => omap (fun raw => part ← as_obj raw; if is_str part "type" "text" then text_value "text" <$> str part "text" else None) parts
    | _ => [] end in
  let blocks := match firstChatReasoning message with Some r => thinking_value r :: texts | None => texts end in
  (blocks ++ omap (fun raw => call ← as_obj raw; function ← obj call "function";
     Some (tool_use_value (str0 call "id") (str0 function "name") (parseJSON (get function "arguments")))) (default [] (arr message "tool_calls")))%list.

Definition chatUsageToMess (response : gomap) : gomap :=
  let '(input, output, cached) := match obj response "usage" with
    | Some usage =>
        (first_count usage "prompt_tokens" "input_tokens", first_count usage "completion_tokens" "output_tokens",
         match obj usage "prompt_tokens_details" with Some details => intOr0 details "cached_tokens" | None => 0 end)
    | None => (0, 0, 0) end in
  [("input_tokens", AInt input); ("output_tokens", AInt output); ("cache_creation_input_tokens", AInt 0); ("cache_read_input_tokens", AInt cached)].

(** The message and the finish reason of the first choice. *)
Definition chat_choice (response : gomap) : gomap * string :=
  match arr response "choices" with
  | Some (AObj choice :: _) => (default [] (obj choice "message"), str0 choice "finish_reason")
  | _ => ([], "")
  end.

Definition chat_to_mess_response (response : gomap) : gomap :=
  let '(message, finishReason) := chat_choice response in
  message_object (str0 response "id") (str0 response "model") (chatMessageToMessBlocks message) (chatFinishToMess finishReason) (chatUsageToMess response).

Definition chatToMessResponse (body : bytes) : option bytes := response ← decodeObj body; Some (Marshal format_float (AObj (chat_to_mess_response response))).

Definition chatToRespResponse (body : bytes) : option bytes := messagesBody ← chatToMessResponse body; messToRespResponse messagesBody.
End Responses.

(** ** Failures with a successful status *)

(** [UpstreamResponseError]. *)
Record Failure := mkFailure { f_status : string; f_code : string; f_message : string }.

Definition Raw : Type := list (bytes * bytes).

(** [StatusCode] and [Error]. *)
Definition failure_status_code : Z := 502.

Definition failure_error (e : Failure) : string :=
  let msg := TrimSpace (f_message e) in
  let msg := if String.eqb msg "" then "upstream response reported a failure" else msg in
  let code := TrimSpace (f_code e) in
  let msg := if String.eqb code "" then msg else (code +:+ ": " +:+ msg)%stdpp in
  let status := TrimSpace (f_status e) in
  let msg := if String.eqb status "" then msg else ("status " +:+ status +:+ ": " +:+ msg)%stdpp in
  ("upstream response failed: " +:+ msg)%stdpp.

Definition upstreamResponseIsFailureStatus (status : string) : bool :=
  one_of (ToLower (TrimSpace status)) ["failed"; "failure"; "cancelled"; "canceled"; "error"; "errored"; "rejected"].

Definition upstreamResponseIsFailureType (value : string) : bool :=
  let typ := ToLower (TrimSpace value) in
  one_of typ ["error"; "failed"; "cancelled"; "canceled"] || existsb (HasSuffix typ) [".error"; ".failed"; ".cancelled"; ".canceled"].

Definition has_key (root : Raw) (key : string) : bool := isSome (raw_get root key).

Definition upstreamResponseLooksCanonical (value : Raw) : bool :=
  existsb (has_key value) ["choices"; "output"; "content"] ||
  one_of (ToLower (TrimSpace (rawText (raw_get value "object")))) ["chat.completion"; "completion"; "text_completion"; "response"; "message"; "image"; "image_generation"] ||
  (let typ := ToLower (TrimSpace (rawText (raw_get value "type"))) in
   one_of typ ["response"; "message"; "chat.completion"; "completion"] ||
   existsb (HasPrefix typ) ["response."; "message."; "message_"; "content_block_"]).

(** The first of the keys with a text. *)
Fixpoint first_text_of (obj : Raw) (keys : list string) : string :=
  match keys with
  | [] => ""
  | k :: keys => let t := rawText (raw_get obj k) in if String.eqb t "" then first_text_of obj keys else t
  end.

(** [upstreamResponseErrorDetails]: code and message. *)
Definition upstreamResponseErrorDetails (raw : option bytes) : string * string :=
  match raw with
  | None | Some [] => ("", "")
  | Some r =>
      if jsonNull r then ("", "")
      else
        match raw_members r with
        | Some (Some obj) => (first_text_of obj ["code"; "type"; "name"], first_text_of obj ["message"; "detail"; "reason"])
        | _ => ("", rawText raw)
        end
  end.

Definition failure_of (status : string) (root : Raw) : Failure :=
  let '(code, message) := upstreamResponseErrorDetails (raw_get root "error") in
  mkFailure status code (if String.eqb message "" then rawText (raw_get root "message") else message).

(** [json.Unmarshal] into a [bool]; null leaves it false. *)
Definition unmarshal_bool (raw : bytes) : option bool :=
  match decode raw with Some JTrue => Some true | Some JFalse | Some JNull => Some false | _ => None end.

Definition wrapper_keys : list string := ["response"; "data"; "result"; "payload"; "body"].

Section Detect.
(** The order in which a map is ranged over. *)
Context (range : list (bytes * bytes) -> list (bytes * bytes)).

(** [upstreamResponseHasErrorPayload] is [hasJSONErrorPayload] of
    [protocol_failure.go] word for word. *)
Definition upstreamResponseHasErrorPayload (raw : bytes) : bool := hasJSONErrorPayload range raw.

(** The checks of one object before its wrappers, and the one after them. *)
Definition own_failure (root : Raw) : option Failure :=
  if match raw_get root "error" with Some raw => upstreamResponseHasErrorPayload raw | None => false end
  then Some (failure_of (rawText (raw_get root "status")) root)
  else if upstreamResponseIsFailureStatus (rawText (raw_get root "status")) || upstreamResponseIsFailureType (rawText (raw_get root "type"))
  then Some (failure_of (rawText (raw_get root "status")) root)
  else None.

Definition flag_failure (root : Raw) : option Failure :=
  if existsb (fun key => match raw ← raw_get root key; unmarshal_bool raw with Some false => true | _ => false end) ["success"; "ok"]
  then Some (mkFailure (rawText (raw_get root "status")) ""
               (let message := rawText (raw_get root "message") in if String.eqb message "" then "upstream reported an unsuccessful response" else message))
  else None.

(** The object under a wrapper key that is inspected. *)
Definition wrapped (root : Raw) (key : string) : option Raw :=
  nested ← raw_get root key;
  if negb (String.eqb key "response") && upstreamResponseLooksCanonical root then None
  else match raw_members nested with Some (Some obj) => Some obj | _ => None end.

(** The number of levels below: [upstreamResponseFailureMaxDepth] is 3, so four
    levels are looked at. *)
Fixpoint detect (levels : nat) (root : Raw) : option Failure :=
  match levels with
  | O => None
  | S levels =>
      match own_failure root with
      | Some f => Some f
      | None =>
          let below := (fix below (keys : list string) : option Failure :=
            match keys with
            | [] => None
            | key :: keys => match obj ← wrapped root key; detect levels obj with Some f => Some f | None => below keys end
            end) wrapper_keys in
          match below with Some f => Some f | None => flag_failure root end
      end
  end.

Definition detectUpstreamResponseFailure (body : bytes) : option Failure :=
  match raw_members body with Some (Some root) => detect 4 root | _ => None end.
End Detect.
