(* ===== verification/Dialogue.v ===== *)
(** * Conversations

    What a request says, in each protocol: its texts, thoughts, tool calls and tool
    results in order.  The theorems say that the request converters of
    [BodyRequest] keep it: what a Responses request says is what the converted
    Messages request says; a Messages request reaches a Responses or a Chat
    provider with the pieces of each message grouped by their kind. *)

From Stdlib Require Import ZArith Lia List Bool String Ascii.
From Stdlib Require Import Floats.SpecFloat.
From stdpp Require Import base option list strings.
From S2P Require Import Prelude GoString JsonScan JsonText GoJson SseRelay ProtoJson MarshalText Utf8Text ChatStream BodyRequest.
Import ListNotations.
Local Open Scope Z_scope.
Local Open Scope list_scope.
Local Open Scope string_scope.

(** ** Pieces *)

Inductive Piece :=
| PText (role text : string)
| PThinking (text : string)
| PCall (id name : string) (input : any)
| PResult (id text : string).

Definition speaks (role : string) : bool := String.eqb role "user" || String.eqb role "assistant".

(** The blocks of a Messages message. *)
Definition mess_block (role : string) (b : any) : list Piece :=
  match b with
  | AObj bm =>
      if is_str bm "type" "text" then match str bm "text" with Some t => [PText role t] | None => [] end
      else if is_str bm "type" "thinking" then match str bm "thinking" with Some t => [PThinking t] | None => [] end
      else if is_str bm "type" "tool_use" then [PCall (str0 bm "id") (str0 bm "name") (default ANil (get bm "input"))]
      else if is_str bm "type" "tool_result" then [PResult (str0 bm "tool_use_id") (default "" (blockText (get bm "content")))]
      else []
  | _ => []
  end.

Definition mess_content (role : string) (content : option any) : list Piece :=
  match content with Some (AStr s) => [PText role s] | Some (AArr cs) => flat_map (mess_block role) cs | _ => [] end.

Definition mess_message (mm : gomap) : list Piece := if speaks (str0 mm "role") then mess_content (str0 mm "role") (get mm "content") else [].

(** The objects of an array. *)
Definition objects (l : list any) : list gomap := omap as_obj l.

Definition mess_messages (req : gomap) : list gomap := objects (default [] (arr req "messages")).
Definition mess_pieces (req : gomap) : list Piece := flat_map mess_message (mess_messages req).

(** The items of a Responses request. *)
Definition resp_part (role : string) (part : any) : list Piece :=
  match part with
  | AObj pm =>
      match str pm "text" with
      | Some t => if is_str pm "type" "input_text" || is_str pm "type" "output_text" then [PText role t]
                  else if is_str pm "type" "reasoning" then [PThinking t] else []
      | None => []
      end
  | _ => []
  end.

Definition resp_content (im : gomap) : list Piece :=
  match get im "content" with
  | Some (AStr c) => [PText (str0 im "role") c]
  | Some (AArr c) => flat_map (resp_part (str0 im "role")) c
  | _ => []
  end.

(** A message may leave its type out. *)
Definition typed (im : gomap) : bool := isSome (get im "type").

Definition resp_item (im : gomap) : list Piece :=
  if is_str im "type" "message" || negb (typed im) then if speaks (str0 im "role") then resp_content im else []
  else if is_str im "type" "function_call" then [PCall (toolCallID im) (str0 im "name") (parseJSON (get im "arguments"))]
  else if is_str im "type" "reasoning" then map PThinking (omap (fun raw => sm ← as_obj raw; str sm "text") (default [] (arr im "summary")))
  else if is_str im "type" "function_call_output" then [PResult (str0 im "call_id") (default "" (blockText (get im "output")))]
  else [].

Definition resp_pieces (req : gomap) : list Piece :=
  match get req "input" with
  | Some (AStr s) => [PText "user" s]
  | Some (AArr items) => flat_map resp_item (objects items)
  | _ => []
  end.

(** The messages of a Chat request. *)
Definition chat_call_piece (raw : any) : option Piece :=
  call ← as_obj raw; function ← obj call "function"; Some (PCall (str0 call "id") (str0 function "name") (parseJSON (get function "arguments"))).

Definition non_empty (f : string -> Piece) (s : string) : list Piece := if String.eqb s "" then [] else [f s].

Definition chat_message (mm : gomap) : list Piece :=
  let role := str0 mm "role" in
  if String.eqb role "user" then non_empty (PText role) (str0 mm "content")
  else if String.eqb role "assistant" then
    non_empty PThinking (str0 mm "reasoning_content") ++ non_empty (PText role) (str0 mm "content") ++
    omap chat_call_piece (default [] (arr mm "tool_calls"))
  else if String.eqb role "tool" then [PResult (str0 mm "tool_call_id") (str0 mm "content")]
  else [].

Definition chat_pieces (req : gomap) : list Piece := flat_map chat_message (objects (default [] (arr req "messages"))).

(** ** Kinds of pieces *)

Definition text_of_piece (role : string) (p : Piece) : option string :=
  match p with PText r t => if String.eqb r role then Some t else None | _ => None end.
Definition thinking_of_piece (p : Piece) : option string := match p with PThinking t => Some t | _ => None end.

Definition is_text (p : Piece) : bool := match p with PText _ _ => true | _ => false end.
Definition is_thinking (p : Piece) : bool := match p with PThinking _ => true | _ => false end.
Definition is_call (p : Piece) : bool := match p with PCall _ _ _ => true | _ => false end.
Definition is_result (p : Piece) : bool := match p with PResult _ _ => true | _ => false end.

Definition texts (role : string) (ps : list Piece) : list string := omap (text_of_piece role) ps.
Definition thoughts (ps : list Piece) : list string := omap thinking_of_piece ps.
Definition only (f : Piece -> bool) (ps : list Piece) : list Piece := List.filter f ps.

(** The input of a call, written and read. *)
Definition reread_piece (p : Piece) : Piece := match p with PCall id name v => PCall id name (reread v) | p => p end.

(** A message for a Responses provider: pieces by kind. *)
Definition by_kind (role : string) (ps : list Piece) : list Piece :=
  if String.eqb role "user" then only is_text ps ++ only is_result ps
  else only is_text ps ++ only is_thinking ps ++ only is_call ps.

(** A message for a Chat provider: results first, texts joined. *)
Definition merged (role : string) (ps : list Piece) : list Piece :=
  if String.eqb role "user" then only is_result ps ++ non_empty (PText role) (joinStrings (texts role ps) newline)
  else non_empty PThinking (joinStrings (thoughts ps) "") ++ non_empty (PText role) (joinStrings (texts role ps) "") ++ only is_call ps.

Definition retold_message (mm : gomap) : list Piece := if speaks (str0 mm "role") then merged (str0 mm "role") (mess_message mm) else [].

(** ** Maps *)

(** Lookups in a converted request. *)
Ltac lookup := repeat first [rewrite get_put_other by reflexivity | rewrite get_pass by reflexivity | rewrite get_put | rewrite get_mset; cbn [String.eqb Ascii.eqb Bool.eqb]].

(** ** Responses to Messages *)

(** The messages in progress: the message that takes calls is the last one. *)
Definition open_last (st : Messages) : Prop := forall i, st.2 = Some i -> exists init l, st.1 = (init ++ [message_value "assistant" (AArr l)])%list /\ i = List.length init.

Section Folding.
Context {A : Type} (F : gomap -> list A).
(** A reading of messages that reads the blocks of an assistant one by one. *)
Context (additive : forall l blocks, F (message_value "assistant" (AArr (l ++ blocks))) =
  (F (message_value "assistant" (AArr l)) ++ F (message_value "assistant" (AArr blocks)))%list).

Lemma empty_reads : F (message_value "assistant" (AArr [])) = [].
Proof. pose proof (additive [] []) as H. apply (f_equal (@List.length A)) in H. rewrite length_app in H. cbn [app] in H. destruct (F _); [reflexivity|cbn in H; lia]. Qed.

Lemma append_reads (blocks : list any) (st : Messages) : open_last st ->
  open_last (append_blocks blocks st) /\ flat_map F (append_blocks blocks st).1 = (flat_map F st.1 ++ F (message_value "assistant" (AArr blocks)))%list.
Proof.
  intros H. destruct st as [msgs last]. assert (exists init l, with_assistant (msgs, last) = ((init ++ [message_value "assistant" (AArr l)])%list, List.length init) /\
    (flat_map F init ++ F (message_value "assistant" (AArr l)))%list = flat_map F msgs) as (init & l & Ew & Ef).
  { destruct last as [i|]; cbn [with_assistant].
    - destruct (H i eq_refl) as (init & l & E & ->). cbn in E. subst msgs. exists init, l. split; [reflexivity|]. rewrite flat_map_app. cbn. rewrite app_nil_r. reflexivity.
    - exists msgs, []. split; [reflexivity|]. rewrite empty_reads, app_nil_r. reflexivity. }
  unfold append_blocks. rewrite Ew. assert (forall (f : gomap -> gomap) m, alter f (List.length init) (init ++ [m])%list = (init ++ [f m])%list) as Ha.
  { intros f m. clear. induction init as [|x init IH]; [reflexivity|]. cbn. f_equal. exact IH. }
  rewrite Ha. change (mset "content" (AArr (default [] (arr (message_value "assistant" (AArr l)) "content") ++ blocks)) (message_value "assistant" (AArr l)))
    with (message_value "assistant" (AArr (l ++ blocks))). split.
  - intros i [= <-]. exists init, (l ++ blocks)%list. auto.
  - cbn [fst]. rewrite flat_map_app. cbn [flat_map]. rewrite app_nil_r, additive, app_assoc, Ef. reflexivity.
Qed.

Lemma input_step_reads (st : Messages) (item : any) : open_last st ->
  open_last (input_step st item) /\ flat_map F (input_step st item).1 = (flat_map F st.1 ++ flat_map F (input_step ([], None) item).1)%list.
Proof.
  intros H. assert (open_last ([], None)) as H0 by (intros i; discriminate).
  assert (forall blocks, open_last (append_blocks blocks st) /\ flat_map F (append_blocks blocks st).1 = (flat_map F st.1 ++ flat_map F (append_blocks blocks ([], None)).1)%list) as Hap.
  { intros blocks. destruct (append_reads blocks st H) as [H1 ->]. destruct (append_reads blocks _ H0) as [_ ->]. auto. }
  assert (forall x l, flat_map F ((st.1 ++ [x]) : list gomap) = (flat_map F st.1 ++ flat_map F [x])%list /\ (l = None -> open_last ((st.1 ++ [x])%list, l))) as Hsn.
  { intros x l. split; [apply flat_map_app|]. intros -> i; discriminate. }
  destruct item as [| | | | | |im]; cbn [input_step]; try (split; [exact H|rewrite app_nil_r; reflexivity]). destruct st as [msgs last]. cbn [fst] in *.
  destruct (is_str im "type" "message").
  - destruct (negb _ && negb _) eqn:Er; [split; [exact H|rewrite app_nil_r; reflexivity]|]. destruct (item_blocks im) as [|b blocks] eqn:Eb; [split; [exact H|rewrite app_nil_r; reflexivity]|].
    split; [|apply Hsn; exact None]. intros i Hi. cbn [snd] in Hi. destruct (String.eqb_spec (str0 im "role") "assistant") as [->|]; [|discriminate].
    injection Hi as <-. exists msgs, (b :: blocks). auto.
  - destruct (is_str im "type" "function_call"); [apply Hap|]. destruct (is_str im "type" "reasoning"); [apply Hap|].
    destruct (is_str im "type" "function_call_output"); [split; [apply Hsn; reflexivity|apply Hsn; exact None]|split; [exact H|rewrite app_nil_r; reflexivity]].
Qed.

Lemma input_reads (input : list any) : forall st, open_last st ->
  flat_map F (fold_left input_step input st).1 = (flat_map F st.1 ++ flat_map (fun item => flat_map F (input_step ([], None) item).1) input)%list.
Proof.
  induction input as [|item input IH]; intros st H; cbn [fold_left flat_map]; [rewrite app_nil_r; reflexivity|].
  destruct (input_step_reads st item H) as [H1 E]. rewrite (IH _ H1), E, app_assoc. reflexivity.
Qed.
End Folding.

Lemma mess_message_value (role : string) (content : any) : mess_message (message_value role content) = if speaks role then mess_content role (Some content) else [].
Proof. reflexivity. Qed.

Lemma mess_additive (l blocks : list any) : mess_message (message_value "assistant" (AArr (l ++ blocks))) =
  (mess_message (message_value "assistant" (AArr l)) ++ mess_message (message_value "assistant" (AArr blocks)))%list.
Proof. rewrite !mess_message_value. apply flat_map_app. Qed.

Lemma part_pieces (role : string) (c : list any) : flat_map (mess_block role) (omap part_block c) = flat_map (resp_part role) c.
Proof.
  induction c as [|p c IH]; [reflexivity|]. cbn [flat_map omap list_omap]. rewrite <- IH. destruct p as [| | | | | |pm]; try reflexivity.
  unfold part_block, resp_part. cbn [as_obj mbind option_bind]. destruct (is_str pm "type" "input_text" || is_str pm "type" "output_text"), (str pm "text"); cbn [mbind option_bind];
    try reflexivity; destruct (is_str pm "type" "reasoning"); reflexivity.
Qed.

Lemma item_blocks_pieces (im : gomap) : flat_map (mess_block (str0 im "role")) (item_blocks im) = resp_content im.
Proof. unfold item_blocks, resp_content. destruct (get im "content") as [[]|]; try reflexivity. apply part_pieces. Qed.

(** A reading of objects, on any value. *)
Definition on_objects {A : Type} (f : gomap -> list A) (v : any) : list A := match v with AObj m => f m | _ => [] end.

Lemma objects_map {A : Type} (f : gomap -> list A) (l : list any) : flat_map f (objects l) = flat_map (on_objects f) l.
Proof. unfold objects. induction l as [|[] l IH]; cbn; rewrite ?IH; reflexivity. Qed.

Lemma speaks_cases (role : string) : negb (String.eqb role "user") && negb (String.eqb role "assistant") = negb (speaks role).
Proof. unfold speaks. rewrite negb_orb. reflexivity. Qed.

Lemma item_pieces (item : any) : forallb typed (objects [item]) = true -> flat_map mess_message (input_step ([], None) item).1 = on_objects resp_item item.
Proof.
  intros Ht. destruct item as [| | | | | |im]; try reflexivity. cbn in Ht. rewrite andb_true_r in Ht. cbn [input_step on_objects]. unfold resp_item. rewrite Ht, orb_false_r.
  destruct (is_str im "type" "message").
  - rewrite speaks_cases. destruct (speaks (str0 im "role")) eqn:Es; [|reflexivity]. rewrite <- item_blocks_pieces. cbn [negb].
    destruct (item_blocks im) as [|b bl]; [reflexivity|]. cbn [fst app flat_map]. rewrite mess_message_value, Es, app_nil_r. reflexivity.
  - destruct (is_str im "type" "function_call"); [reflexivity|]. destruct (is_str im "type" "reasoning"); [|destruct (is_str im "type" "function_call_output"); reflexivity].
    cbn [append_blocks with_assistant fst app length alter list_alter flat_map]. 
    assert (forall l, flat_map (mess_block "assistant") (omap (fun raw => sm ← as_obj raw; t ← str sm "text"; Some (thinking_value t)) l) =
      map PThinking (omap (fun raw => sm ← as_obj raw; str sm "text") l)) as Hs.
    { induction l as [|v l IH]; [reflexivity|]. destruct v as [| | | | | |sm]; cbn; try exact IH. destruct (str sm "text"); cbn; rewrite <- ?IH; reflexivity. }
    rewrite app_nil_r. exact (Hs _).
Qed.

(** The objects of converted messages. *)
Lemma messages_of_put (msgs : list any) (v : any) : v = slice_value msgs -> objects (default [] (match v with AArr l => Some l | _ => None end)) = objects msgs.
Proof. intros ->. destruct msgs; reflexivity. Qed.

Lemma arr_get (m : gomap) (k : string) : arr m k = match get m k with Some (AArr l) => Some l | _ => None end.
Proof. reflexivity. Qed.

Lemma converted_messages (req : gomap) : get (resp_to_mess_request req) "messages" =
  match get req "input" with
  | Some (AArr input) => Some (slice_value (map AObj (fold_left input_step input ([], None)).1))
  | Some (AStr s) => Some (AArr [AObj (message_value "user" (AStr s))])
  | _ => None
  end.
Proof.
  unfold resp_to_mess_request, respInputToMessMessages, str. lookup. rewrite arr_get.
  destruct (get req "input") as [[]|]; cbn [mbind option_bind]; lookup; try reflexivity.
Qed.

(** The items of a request and the messages made of them. *)
Definition resp_items (req : gomap) : list gomap := objects (default [] (arr req "input")).

Lemma objects_of_maps (l : list gomap) : objects (map AObj l) = l.
Proof. unfold objects. induction l as [|m l IH]; [reflexivity|]. cbn. f_equal. exact IH. Qed.

Lemma messages_converted (req : gomap) : mess_messages (resp_to_mess_request req) =
  match get req "input" with
  | Some (AArr input) => (fold_left input_step input ([], None)).1
  | Some (AStr s) => [message_value "user" (AStr s)]
  | _ => []
  end.
Proof.
  unfold mess_messages. rewrite arr_get, converted_messages. destruct (get req "input") as [[]|]; try reflexivity.
  rewrite <- (objects_of_maps (fold_left _ _ _).1) at 2. destruct (map AObj _); reflexivity.
Qed.

Lemma typed_items (item : any) (input : list any) : forallb typed (objects (item :: input)) = forallb typed (objects [item]) && forallb typed (objects input).
Proof. destruct item; try reflexivity. cbn. rewrite andb_true_r. reflexivity. Qed.

(** What a Responses request says, piece by piece and in order, is what the
    Messages request made of it says, whenever its items name their type. *)
Theorem resp_to_mess_dialogue (req : gomap) : forallb typed (resp_items req) = true -> mess_pieces (resp_to_mess_request req) = resp_pieces req.
Proof.
  unfold resp_items, mess_pieces, resp_pieces. rewrite messages_converted, arr_get. destruct (get req "input") as [[]|]; try reflexivity. intros Ht. change (forallb typed (objects l) = true) in Ht.
  rewrite (input_reads mess_message mess_additive) by (intros i; discriminate). rewrite objects_map. cbn [fst].
  change (flat_map (fun item => flat_map mess_message (input_step ([], None) item).1) l = flat_map (on_objects resp_item) l).
  induction l as [|item l IH]; [reflexivity|]. rewrite typed_items in Ht. apply andb_prop in Ht as [H1 H2]. cbn [flat_map]. rewrite item_pieces, IH by assumption. reflexivity.
Qed.

(** An item without a type is a message in the Responses protocol and is dropped;
    instructions given this way are kept. *)
Definition untyped_request (role : string) : gomap := [("input", AArr [AObj [("role", AStr role); ("content", AStr "hi")]])].

Theorem untyped_message_dropped : resp_pieces (untyped_request "user") = [PText "user" "hi"] /\ mess_pieces (resp_to_mess_request (untyped_request "user")) = [] /\
  get (resp_to_mess_request (untyped_request "user")) "messages" = Some ANil /\ get (resp_to_mess_request (untyped_request "system")) "system" = Some (AStr "hi").
Proof. vm_compute. auto. Qed.

(** ** Messages to Responses *)

Lemma only_app (f : Piece -> bool) (a b : list Piece) : only f (a ++ b) = (only f a ++ only f b)%list.
Proof. apply List.filter_app. Qed.

Lemma only_fixed (f : Piece -> bool) (ps : list Piece) : (forall p, f p = true -> reread_piece p = p) -> map reread_piece (only f ps) = only f ps.
Proof. intros H. unfold only. induction ps as [|p ps IH]; [reflexivity|]. cbn. destruct (f p) eqn:E; cbn; [rewrite (H p E)|]; congruence. Qed.

Lemma texts_fixed (ps : list Piece) : map reread_piece (only is_text ps) = only is_text ps.
Proof. apply only_fixed. intros []; (reflexivity || discriminate). Qed.
Lemma thoughts_fixed (ps : list Piece) : map reread_piece (only is_thinking ps) = only is_thinking ps.
Proof. apply only_fixed. intros []; (reflexivity || discriminate). Qed.
Lemma results_fixed (ps : list Piece) : map reread_piece (only is_result ps) = only is_result ps.
Proof. apply only_fixed. intros []; (reflexivity || discriminate). Qed.

Lemma user_blocks_read (cs : list any) :
  flat_map (resp_part "user") (user_blocks cs).1 = only is_text (flat_map (mess_block "user") cs) /\
  flat_map (on_objects resp_item) (user_blocks cs).2 = only is_result (flat_map (mess_block "user") cs).
Proof.
  induction cs as [|b cs [IH1 IH2]]; [split; reflexivity|]. cbn [user_blocks flat_map]. destruct (user_blocks cs) as [ts rs]. cbn [fst snd] in *. rewrite !only_app, <- IH1, <- IH2.
  destruct b as [| | | | | |bm]; try (split; reflexivity). cbn [mess_block]. destruct (is_str bm "type" "text") eqn:E1; [destruct (str bm "text"); split; reflexivity|].
  destruct (is_str bm "type" "thinking") eqn:E2; [|destruct (is_str bm "type" "tool_use") eqn:E3; [|destruct (is_str bm "type" "tool_result"); split; reflexivity]].
  all: unfold is_str in *; destruct (str bm "type") as [ty|]; [|discriminate];
    match goal with H : String.eqb ty _ = true |- _ => apply String.eqb_eq in H; subst ty end; cbn; destruct (str bm "thinking"); split; reflexivity.
Qed.

Section Written.
Context (fmt : spec_float -> bytes) (wide : spec_float -> Z).

(** The inputs of the calls are values that can be written and read back. *)
Definition call_fits (p : Piece) : Prop := match p with PCall _ _ v => exists d, Writable fmt d v /\ (Z.of_nat d <= maxNestingDepth)%Z | _ => True end.

Lemma arguments_of (id name : string) (v : any) : call_fits (PCall id name v) -> parseJSON (Some (AStr (marshalAny fmt v))) = reread v.
Proof. intros (d & Hw & Hd). exact (tool_arguments_roundtrip fmt v d Hw Hd). Qed.

(** A block is one of the kinds the converters know, or nothing. *)
Lemma block_cases (role : string) (bm : gomap) (P : list Piece -> Prop) :
  (forall t, is_str bm "type" "text" = true -> str bm "text" = Some t -> P [PText role t]) ->
  (forall t, is_str bm "type" "text" = false -> is_str bm "type" "tool_use" = false -> is_str bm "type" "thinking" = true -> str bm "thinking" = Some t -> P [PThinking t]) ->
  (is_str bm "type" "text" = false -> is_str bm "type" "thinking" = false -> is_str bm "type" "tool_use" = true ->
     P [PCall (str0 bm "id") (str0 bm "name") (default ANil (get bm "input"))]) ->
  (is_str bm "type" "text" = false -> is_str bm "type" "thinking" = false -> is_str bm "type" "tool_use" = false -> is_str bm "type" "tool_result" = true ->
     P [PResult (str0 bm "tool_use_id") (default "" (blockText (get bm "content")))]) ->
  ((is_str bm "type" "text" = true -> str bm "text" = None) -> (is_str bm "type" "thinking" = true -> str bm "thinking" = None) ->
     is_str bm "type" "tool_use" = false -> is_str bm "type" "tool_result" = false -> P []) ->
  P (mess_block role (AObj bm)).
Proof.
  intros H1 H2 H3 H4 H5. cbn [mess_block]. assert (forall a b, String.eqb a b = false -> is_str bm "type" a = true -> is_str bm "type" b = false) as Hx.
  { intros a b Hab Ha. unfold is_str in *. destruct (str bm "type") as [ty|]; [|reflexivity]. apply String.eqb_eq in Ha. subst. exact Hab. }
  destruct (is_str bm "type" "text") eqn:E1.
  - destruct (str bm "text") eqn:Et; [auto|]. apply H5; auto; try (apply (Hx "text"); [reflexivity|exact E1]). intros E. pose proof (Hx "text" "thinking" eq_refl E1). congruence.
  - destruct (is_str bm "type" "thinking") eqn:E2.
    + destruct (str bm "thinking") eqn:Et; [apply H2; auto; apply (Hx "thinking"); [reflexivity|exact E2]|].
      apply H5; auto; try discriminate; apply (Hx "thinking"); (reflexivity || exact E2).
    + destruct (is_str bm "type" "tool_use") eqn:E3; [apply H3; auto|]. destruct (is_str bm "type" "tool_result") eqn:E4; [apply H4; auto|apply H5; auto; discriminate].
Qed.

Lemma call_value_reads (bm : gomap) : resp_item (match call_value fmt bm with AObj m => m | _ => [] end) =
  [PCall (str0 bm "id") (str0 bm "name") (parseJSON (Some (AStr (marshalAny fmt (default ANil (get bm "input"))))))].
Proof.
  assert (forall (name : string) arguments id, toolCallID [("type", AStr "function_call"); ("id", AStr id); ("call_id", AStr id); ("name", AStr name); ("arguments", arguments)] = id) as Hid.
  { intros name arguments id. change ((if String.eqb id "" then id else id) = id). destruct (String.eqb id ""); reflexivity. }
  cbn [call_value]. unfold resp_item. change (is_str _ "type" "message" || negb (typed _)) with false. cbv iota. change (is_str _ "type" "function_call") with true. cbv iota.
  rewrite Hid. reflexivity.
Qed.

Lemma assistant_blocks_read (cs : list any) : Forall call_fits (flat_map (mess_block "assistant") cs) ->
  flat_map (resp_part "assistant") (assistant_blocks fmt cs).1.1 = only is_text (flat_map (mess_block "assistant") cs) /\
  flat_map (on_objects resp_item) (assistant_blocks fmt cs).1.2 = only is_thinking (flat_map (mess_block "assistant") cs) /\
  flat_map (on_objects resp_item) (assistant_blocks fmt cs).2 = map reread_piece (only is_call (flat_map (mess_block "assistant") cs)).
Proof.
  induction cs as [|b cs IH]; intros Hf; [repeat split|]. cbn [assistant_blocks flat_map] in *. apply Forall_app in Hf as [Hb Hf]. specialize (IH Hf).
  destruct (assistant_blocks fmt cs) as [[ts ths] fcs]. cbn [fst snd] in *. destruct IH as (IH1 & IH2 & IH3). rewrite !only_app, map_app, <- IH1, <- IH2, <- IH3.
  destruct b as [| | | | | |bm]; try (repeat split; reflexivity). revert Hb. apply (block_cases "assistant" bm).
  - intros t -> ->. repeat split.
  - intros t -> _ -> ->. repeat split.
  - intros -> -> ->. intros Hb. apply Forall_cons in Hb as [Hb _]. pose proof (arguments_of _ _ _ Hb) as Ha. split; [reflexivity|]. split; [reflexivity|].
    cbn [snd only List.filter is_call map reread_piece flat_map]. rewrite <- Ha, <- call_value_reads. reflexivity.
  - intros -> -> -> _. repeat split.
  - intros H1 H2 -> _ _. destruct (is_str bm "type" "text"); [rewrite H1 by reflexivity; repeat split|].
    destruct (is_str bm "type" "thinking"); [rewrite H2 by reflexivity|]; repeat split.
Qed.

Lemma message_items_read (role : string) (content : list any) : speaks role = true ->
  flat_map (on_objects resp_item) (message_items role content) = flat_map (resp_part role) content.
Proof.
  intros Hs. destruct content as [|c content]; [reflexivity|]. cbn [message_items flat_map on_objects]. rewrite app_nil_r.
  unfold resp_item. change (is_str _ "type" "message" || _) with true. cbv iota. change (str0 _ "role") with role. rewrite Hs. reflexivity.
Qed.

(** The content of an assistant message is a list of blocks. *)
Definition in_blocks (mm : gomap) : bool := negb (String.eqb (str0 mm "role") "assistant" && isSome (str mm "content")).

Lemma message_to_items_read (mm : gomap) : in_blocks mm = true -> Forall call_fits (mess_message mm) ->
  flat_map (on_objects resp_item) (message_to_items fmt (AObj mm)) = map reread_piece (by_kind (str0 mm "role") (mess_message mm)).
Proof.
  intros Hb Hf. cbn [message_to_items]. unfold in_blocks in Hb. unfold mess_message, by_kind, speaks in *. destruct (String.eqb_spec (str0 mm "role") "user") as [->|_].
  - cbn [String.eqb Ascii.eqb Bool.eqb orb] in *. rewrite map_app, texts_fixed, results_fixed. unfold user_items.
    destruct (get mm "content") as [[| | | |c|cs|]|]; try reflexivity. cbn [mess_content]. destruct (user_blocks_read cs) as [<- <-]. destruct (user_blocks cs) as [ts rs].
    rewrite flat_map_app, message_items_read by reflexivity. reflexivity.
  - destruct (String.eqb_spec (str0 mm "role") "assistant") as [->|_]; [|reflexivity]. cbn [String.eqb Ascii.eqb Bool.eqb orb andb negb] in *. unfold str in Hb.
    rewrite !map_app, texts_fixed, thoughts_fixed. unfold assistant_items. rewrite arr_get. destruct (get mm "content") as [[| | | |c|cs|]|]; try reflexivity; try discriminate.
    cbn [mess_content] in *. destruct (assistant_blocks_read cs Hf) as (<- & <- & <-). destruct (assistant_blocks fmt cs) as [[ts ths] fcs].
    rewrite !flat_map_app, message_items_read by reflexivity. reflexivity.
Qed.

Lemma items_of_messages (msgs : list any) : forallb in_blocks (objects msgs) = true -> Forall call_fits (flat_map mess_message (objects msgs)) ->
  flat_map (on_objects resp_item) (flat_map (message_to_items fmt) msgs) = map reread_piece (flat_map (fun mm => by_kind (str0 mm "role") (mess_message mm)) (objects msgs)).
Proof.
  induction msgs as [|m msgs IH]; [reflexivity|]. destruct m as [| | | | | |mm]; try exact IH. change (objects (AObj mm :: msgs)) with (mm :: objects msgs). cbn [forallb flat_map].
  intros Hb Hf. apply andb_prop in Hb as [Hb1 Hb2]. apply Forall_app in Hf as [Hf1 Hf2]. rewrite flat_map_app, map_app, message_to_items_read, IH by assumption. reflexivity.
Qed.

(** C22: What a Messages request says reaches a Responses provider, when the
    assistant's messages have their content in blocks (content that is a string is
    dropped, [assistant_string_dropped]) and the inputs of the calls can be written
    as JSON: message by message
    the same texts, thoughts, calls and results, grouped by kind within a message,
    with the inputs of the calls as written and read. *)
Theorem mess_to_resp_dialogue (req : gomap) : forallb in_blocks (mess_messages req) = true -> Forall call_fits (mess_pieces req) ->
  resp_pieces (mess_to_resp_request fmt wide req) = map reread_piece (flat_map (fun mm => by_kind (str0 mm "role") (mess_message mm)) (mess_messages req)).
Proof.
  unfold mess_pieces, mess_messages, resp_pieces. intros Hb Hf.
  assert (get (mess_to_resp_request fmt wide req) "input" = (slice_value <$> messMessagesToInput fmt req)) as ->.
  { unfold mess_to_resp_request. lookup. destruct (messMessagesToInput fmt req); reflexivity. }
  unfold messMessagesToInput. destruct (arr req "messages") as [msgs|]; [|reflexivity]. cbn [mbind option_bind fmap option_fmap option_map default from_option id] in *.
  rewrite <- items_of_messages by assumption. destruct (flat_map (message_to_items fmt) msgs); [reflexivity|]. apply objects_map.
Qed.

(** An assistant message whose content is a string does not reach it. *)
Theorem assistant_string_dropped : let req := [("messages", AArr [AObj (message_value "assistant" (AStr "hi"))])] in
  mess_pieces req = [PText "assistant" "hi"] /\ resp_pieces (mess_to_resp_request fmt wide req) = [].
Proof. split; reflexivity. Qed.

(** ** Messages to Chat *)

Lemma objects_app (a b : list any) : objects (a ++ b) = (objects a ++ objects b)%list.
Proof. unfold objects. induction a as [|[] a IH]; cbn; rewrite ?IH; reflexivity. Qed.

Lemma user_parts_read (cs : list any) :
  (user_parts cs).1 = texts "user" (flat_map (mess_block "user") cs) /\
  flat_map (on_objects chat_message) (user_parts cs).2 = only is_result (flat_map (mess_block "user") cs).
Proof.
  induction cs as [|b cs [IH1 IH2]]; [split; reflexivity|]. cbn [user_parts flat_map]. destruct (user_parts cs) as [ts rs]. cbn [fst snd] in *. unfold texts in *. rewrite only_app, omap_app, <- IH1, <- IH2.
  destruct b as [| | | | | |bm]; try (split; reflexivity). apply (block_cases "user" bm).
  - intros t -> ->. split; reflexivity.
  - intros t -> _ E _. assert (is_str bm "type" "tool_result" = false) as ->; [|split; reflexivity].
    unfold is_str in *. destruct (str bm "type"); [|reflexivity]. apply String.eqb_eq in E as ->. reflexivity.
  - intros -> _ E. assert (is_str bm "type" "tool_result" = false) as ->; [|split; reflexivity].
    unfold is_str in *. destruct (str bm "type"); [|reflexivity]. apply String.eqb_eq in E as ->. reflexivity.
  - intros -> _ _ ->. split; reflexivity.
  - intros H1 _ _ ->. destruct (is_str bm "type" "text"); [rewrite H1 by reflexivity|]; split; reflexivity.
Qed.

Lemma assistant_parts_read (cs : list any) : Forall call_fits (flat_map (mess_block "assistant") cs) ->
  (assistant_parts fmt cs).1.1 = texts "assistant" (flat_map (mess_block "assistant") cs) /\
  omap chat_call_piece (assistant_parts fmt cs).1.2 = map reread_piece (only is_call (flat_map (mess_block "assistant") cs)) /\
  (assistant_parts fmt cs).2 = thoughts (flat_map (mess_block "assistant") cs).
Proof.
  induction cs as [|b cs IH]; intros Hf; [repeat split|]. cbn [assistant_parts flat_map] in *. apply Forall_app in Hf as [Hb Hf]. specialize (IH Hf).
  destruct (assistant_parts fmt cs) as [[ts calls] ths]. cbn [fst snd] in *. destruct IH as (IH1 & IH2 & IH3). unfold texts, thoughts in *. rewrite only_app, map_app, !omap_app, <- IH1, <- IH2, <- IH3.
  destruct b as [| | | | | |bm]; try (repeat split; reflexivity). revert Hb. apply (block_cases "assistant" bm).
  - intros t -> ->. repeat split.
  - intros t -> -> -> ->. repeat split.
  - intros -> _ ->. intros Hb. apply Forall_cons in Hb as [Hb _]. pose proof (arguments_of _ _ _ Hb) as Ha. split; [reflexivity|]. split; [|reflexivity].
    cbn [only List.filter is_call map reread_piece]. rewrite <- Ha. reflexivity.
  - intros -> -> -> _. repeat split.
  - intros H1 H2 -> _ _. destruct (is_str bm "type" "text"); [rewrite H1 by reflexivity; repeat split|].
    destruct (is_str bm "type" "thinking"); [rewrite H2 by reflexivity|]; repeat split.
Qed.

Lemma chat_user_read (mm : gomap) : str0 mm "role" = "user" ->
  flat_map (on_objects chat_message) (chat_user mm) = map reread_piece (merged "user" (mess_content "user" (get mm "content"))).
Proof.
  intros Hr. unfold chat_user, messUserContentToChat, merged. cbn [String.eqb Ascii.eqb Bool.eqb].
  assert (forall t, flat_map (on_objects chat_message) (if String.eqb t "" then [] else [AObj (message_value "user" (AStr t))]) = non_empty (PText "user") t) as Ht.
  { intros t. unfold non_empty. destruct (String.eqb_spec t "") as [->|Hn]; [reflexivity|]. cbn. unfold chat_message, non_empty. cbn. destruct (String.eqb_spec t ""); [contradiction|reflexivity]. }
  assert (forall t, map reread_piece (non_empty (PText "user") t) = non_empty (PText "user") t) as Hn by (intros t; unfold non_empty; destruct (String.eqb t ""); reflexivity).
  rewrite map_app, results_fixed, Hn. destruct (get mm "content") as [[| | | |c|cs|]|]; try reflexivity; cbn [mess_content].
  - rewrite flat_map_app, Ht. reflexivity.
  - destruct (user_parts_read cs) as [<- <-]. destruct (user_parts cs) as [ts rs]. rewrite flat_map_app, Ht. reflexivity.
Qed.

Lemma chat_assistant_value (text reasoning : string) (calls : list any) :
  chat_message (message_value "assistant" (AStr text) ++ (match calls with [] => [] | _ => [("tool_calls", AArr calls)] end) ++
    (if String.eqb reasoning "" then [] else [("reasoning_content", AStr reasoning)]))%list =
  (non_empty PThinking reasoning ++ non_empty (PText "assistant") text ++ omap chat_call_piece calls)%list.
Proof.
  unfold non_empty at 1. destruct (String.eqb_spec reasoning "") as [->|Hn]; destruct calls as [|c calls]; try reflexivity; unfold chat_message; cbn;
    unfold non_empty at 1; cbn; (destruct (String.eqb_spec reasoning ""); [contradiction|reflexivity]).
Qed.

Lemma chat_assistant_read (mm : gomap) : Forall call_fits (mess_content "assistant" (get mm "content")) ->
  flat_map (on_objects chat_message) (chat_assistant fmt mm) = map reread_piece (merged "assistant" (mess_content "assistant" (get mm "content"))).
Proof.
  intros Hf. unfold chat_assistant. assert (exists text calls reasoning, messAssistantContentToChat fmt (get mm "content") = (text, calls, reasoning) /\
    text = joinStrings (texts "assistant" (mess_content "assistant" (get mm "content"))) "" /\
    reasoning = joinStrings (thoughts (mess_content "assistant" (get mm "content"))) "" /\
    omap chat_call_piece calls = map reread_piece (only is_call (mess_content "assistant" (get mm "content"))) /\
    (calls = [] -> only is_call (mess_content "assistant" (get mm "content")) = [])) as (text & calls & reasoning & -> & -> & -> & Hc & Hn).
  { destruct (get mm "content") as [[| | | |c|cs|]|]; try (eexists _, _, _; repeat split; reflexivity). cbn [mess_content messAssistantContentToChat] in *.
    destruct (assistant_parts_read cs Hf) as (<- & E2 & <-). destruct (assistant_parts fmt cs) as [[ts calls] ths]. eexists _, _, _. split; [reflexivity|]. repeat split; [exact E2|].
    intros ->. destruct (only is_call _); [reflexivity|discriminate]. }
  unfold merged. cbn [String.eqb Ascii.eqb Bool.eqb]. set (t := joinStrings (texts _ _) ""). set (r := joinStrings (thoughts _) "").
  assert (forall (f : string -> Piece) s, (forall s, reread_piece (f s) = f s) -> map reread_piece (non_empty f s) = non_empty f s) as Hm.
  { intros f s Hfix. unfold non_empty. destruct (String.eqb s ""); cbn; [|rewrite Hfix]; reflexivity. }
  rewrite !map_app, !Hm, <- Hc by reflexivity. destruct (String.eqb t "" && _ && _) eqn:E.
  - apply andb_prop in E as [E E3]. apply andb_prop in E as [E1 E2]. apply Nat.eqb_eq, length_zero_iff_nil in E2. subst calls. unfold non_empty. rewrite E1, E3. reflexivity.
  - cbn [flat_map on_objects]. rewrite app_nil_r. apply chat_assistant_value.
Qed.

Lemma message_to_chat_read (mm : gomap) : Forall call_fits (mess_message mm) ->
  flat_map (on_objects chat_message) (message_to_chat fmt (AObj mm)) = map reread_piece (retold_message mm).
Proof.
  unfold retold_message, mess_message, speaks. cbn [message_to_chat]. intros Hf. destruct (String.eqb_spec (str0 mm "role") "user") as [Hr|_].
  - rewrite Hr in *. exact (chat_user_read mm Hr).
  - destruct (String.eqb_spec (str0 mm "role") "assistant") as [Hr|_]; [|reflexivity]. rewrite Hr in *. exact (chat_assistant_read mm Hf).
Qed.

(** What a Chat provider is told of the messages of a Messages request. *)
Definition retold (req : gomap) : list Piece := flat_map retold_message (mess_messages req).

Lemma chat_of_messages (msgs : list any) : Forall call_fits (flat_map mess_message (objects msgs)) ->
  flat_map (on_objects chat_message) (flat_map (message_to_chat fmt) msgs) =
  map reread_piece (flat_map retold_message (objects msgs)).
Proof.
  induction msgs as [|m msgs IH]; [reflexivity|]. destruct m as [| | | | | |mm]; try exact IH. change (objects (AObj mm :: msgs)) with (mm :: objects msgs). cbn [flat_map].
  intros Hf. apply Forall_app in Hf as [Hf1 Hf2]. rewrite flat_map_app, map_app, message_to_chat_read, IH by assumption. reflexivity.
Qed.

Lemma chat_request_messages (req : gomap) : get (mess_to_chat_request fmt req) "messages" =
  match ((match anthropicSystem req with Some system => [AObj (message_value "system" (AStr system))] | None => [] end) ++ default [] (messMessagesToChat fmt req))%list with
  | [] => None | messages => Some (AArr messages) end.
Proof.
  unfold mess_to_chat_request. set (ms := (_ ++ default [] _)%list). destruct (messToolChoiceToChat req) as [[choice parallel]|]; lookup; destruct ms; lookup; reflexivity.
Qed.

Theorem mess_to_chat_dialogue (req : gomap) : Forall call_fits (mess_pieces req) -> chat_pieces (mess_to_chat_request fmt req) = map reread_piece (retold req).
Proof.
  unfold mess_pieces, mess_messages, chat_pieces, retold. intros Hf. rewrite arr_get, chat_request_messages.
  unfold messMessagesToChat, mess_messages in *. destruct (arr req "messages") as [msgs|]; cbn [mbind option_bind default from_option id] in *.
  - rewrite <- chat_of_messages by exact Hf. rewrite <- objects_map. set (chat := flat_map (message_to_chat fmt) msgs).
    destruct (anthropicSystem req) as [system|]; cbn [app]; [|destruct chat; reflexivity]. reflexivity.
  - destruct (anthropicSystem req) as [system|]; reflexivity.
Qed.
End Written.

Definition demo_messages : gomap := [("messages", AArr [
  AObj (message_value "user" (AStr "hi"));
  AObj (message_value "assistant" (AArr [thinking_value "hm"; text_value "text" "a"; tool_use_value "c1" "f" (AObj [("x", AArr [])])]));
  AObj (message_value "user" (AArr [tool_result_value "c1" "ok"; text_value "text" "b"]))])].

Lemma mess_to_resp_dialogue_witness : resp_pieces (mess_to_resp_request no_float (fun _ => 0%Z) demo_messages) =
  [PText "user" "hi"; PText "assistant" "a"; PThinking "hm"; PCall "c1" "f" (AObj [("x", AArr [])]); PText "user" "b"; PResult "c1" "ok"].
Proof.
  refine (eq_trans (mess_to_resp_dialogue no_float (fun _ => 0%Z) demo_messages _ _) _); [reflexivity| |vm_compute; reflexivity].
  repeat (apply List.Forall_cons; [try exact I|]); try apply List.Forall_nil.
  exists 2%nat. split; [|vm_compute; discriminate]. apply W_obj; [keys|lits|]. repeat (apply List.Forall_cons; [cbn [snd]|]); try apply List.Forall_nil. apply W_arr, List.Forall_nil.
Defined.
