(* ===== verification/Documents.v ===== *)
(** * Documents that pass through two converters

    A converted request is written and read again before the second converter sees
    it.  Here: what is written is valid UTF-8, reading twice is reading once, and a
    reading of the re-read document is that of the document. *)

From Stdlib Require Import ZArith Lia List Bool String Ascii.
From Stdlib Require Import Floats.SpecFloat.
From stdpp Require Import base option list strings sorting.
From S2P Require Import Prelude GoString JsonScan JsonText GoJson SseRelay ProtoJson MarshalText Utf8Text ChatStream BodyRequest Dialogue.
Import ListNotations.
Local Open Scope string_scope.
Local Open Scope list_scope.

(** ** Written text is valid UTF-8 *)

Lemma ascii_wf (b : bytes) : forallb (fun c => (byte_val c <? 128)%Z) b = true -> Wf b.
Proof.
  induction b as [|c b IH]; [intros _; exact wf_nil|]. cbn. intros H. apply andb_prop in H as [Hc Hb]. apply (wf_app [c]); [exact (wf_ascii c Hc)|exact (IH Hb)].
Qed.

Lemma escape_char_wf (c : ascii) : (byte_val c <? 128)%Z = true -> Wf (escape_char c).
Proof. intros H. apply ascii_wf. revert H. each_char c; reflexivity. Qed.

Lemma escape_wf (fuel : nat) : forall s, Wf (escape true fuel s).
Proof.
  induction fuel as [|fuel IH]; intros s; [exact wf_nil|]. destruct s as [|c rest]; [exact wf_nil|]. cbn [escape]. destruct (byte_val c <? 128)%Z eqn:Hc.
  { apply wf_app; [exact (escape_char_wf c Hc)|apply IH]. }
  destruct (DecodeRune c (to_string rest)) as [r w] eqn:Ed. destruct ((r =? RuneError)%Z && (w =? 1)%nat) eqn:Eb; [apply wf_app; [apply ascii_wf; reflexivity|apply IH]|].
  destruct (true && _) eqn:El.
  - cbn [andb] in El. apply (wf_app (bs "\u202" ++ [_])); [|apply IH]. apply orb_prop in El as [El|El]; apply Z.eqb_eq in El as ->; apply ascii_wf; reflexivity.
  - apply wf_app; [|apply IH]. rewrite <- (sq_bytes c rest r w (decode_seq c rest r w (proj1 (Z.ltb_ge _ _) Hc) Ed Eb)). apply wf_rune.
Qed.

Lemma wf_cons (c : ascii) (b : bytes) : (byte_val c <? 128)%Z = true -> Wf b -> Wf (c :: b).
Proof. intros Hc Hb. exact (wf_app [c] b (wf_ascii c Hc) Hb). Qed.

Lemma quoted_wf (s : string) : Wf (quoted_string true s).
Proof. apply wf_cons; [reflexivity|]. apply wf_app; [apply escape_wf|apply ascii_wf; reflexivity]. Qed.

Lemma commas_wf (xs : list bytes) : Forall Wf xs -> Wf (commas xs).
Proof.
  induction 1 as [|x xs Hx Hxs IH]; [exact wf_nil|]. destruct xs as [|y xs]; [cbn; rewrite ?app_nil_r; exact Hx|].
  rewrite commas_cons by discriminate. apply wf_app; [exact Hx|]. apply wf_cons; [reflexivity|exact IH].
Qed.

Lemma num_ascii (c : ascii) : num_char c = true -> (byte_val c <? 128)%Z = true.
Proof. each_char c; reflexivity. Qed.

Lemma digits_ascii (b : bytes) : digit_list b -> Wf b.
Proof.
  intros H. apply ascii_wf, forallb_forall. intros c Hc. unfold digit_list in H. rewrite List.Forall_forall in H. apply num_ascii, digit_num, (H c Hc).
Qed.

Section Fits.
Context (fmt : spec_float -> bytes).

Lemma number_wf (f : spec_float) : float_reads fmt f -> Wf (fmt f).
Proof.
  intros (_ & _ & Hn). specialize (Hn [] eq_refl). rewrite app_nil_r in Hn. apply number_sound in Hn as (_ & Hn & _).
  apply ascii_wf, forallb_forall. intros c Hc. apply num_ascii. unfold numeric in Hn. rewrite List.Forall_forall in Hn. exact (Hn c Hc).
Qed.

Lemma marshal_wf (d : nat) : forall v, Writable fmt d v -> Wf (Marshal fmt v).
Proof.
  intros v. revert d. induction v as [|b|f|n|s|l IH|m IH] using any_ind'; intros d Hw; inversion Hw; subst; try (apply ascii_wf; reflexivity).
  - destruct b; apply ascii_wf; reflexivity.
  - apply number_wf. assumption.
  - apply digits_ascii, (FormatInt_digits n). assumption.
  - apply quoted_wf.
  - cbn [Marshal]. apply wf_cons; [reflexivity|]. apply wf_app; [|apply ascii_wf; reflexivity]. apply commas_wf, Forall_fmap. unfold compose.
    eapply Forall_impl; [|intros x Hx; exact Hx]. rewrite Forall_forall in *. intros x Hx. eapply IH; eauto.
  - rewrite marshal_obj. apply wf_cons; [reflexivity|]. apply wf_app; [|apply ascii_wf; reflexivity]. apply commas_wf, Forall_fmap. unfold compose.
    rewrite sorted_perm. rewrite Forall_forall in *. intros [k v] Hx. apply wf_app; [apply quoted_wf|]. apply wf_cons; [reflexivity|].
    eapply (IH (k, v)); [exact Hx|]. match goal with H : Forall (fun kv => Writable fmt _ _) _ |- _ => exact (proj1 (Forall_forall _ _) H (k, v) Hx) | H : forall x, x ∈ _ -> Writable fmt _ _ |- _ => exact (H (k, v) Hx) end.
Qed.

Lemma arguments_valid (d : nat) (v : any) : Writable fmt d v -> valid (marshalAny fmt v) = marshalAny fmt v.
Proof. intros H. apply valid_wf. unfold marshalAny, bs, to_string. rewrite list_ascii_of_string_of_list_ascii. exact (marshal_wf d v H). Qed.
End Fits.

(** ** Reading twice *)

Lemma ltb_asym (a b : string) : String.ltb a b = true -> String.ltb b a = false.
Proof. unfold String.ltb. rewrite String.compare_antisym. destruct (String.compare b a); (reflexivity || discriminate). Qed.

(** Keys in order. *)
Definition in_order (x y : string * any) : Prop := String.ltb y.1 x.1 = false.

Lemma insert_sorted (k : string) (v : any) (m : gomap) : Sorted in_order m -> Sorted in_order (insert_key k v m).
Proof.
  induction 1 as [|[k' v'] m Hs IH Hd]; [repeat constructor|]. cbn [insert_key]. destruct (String.ltb k' k) eqn:E; [|constructor; [constructor; assumption|constructor; exact E]].
  constructor; [exact IH|]. destruct m as [|[k2 v2] m]; cbn [insert_key].
  - constructor. exact (ltb_asym _ _ E).
  - inversion Hd; subst. destruct (String.ltb k2 k); constructor; [assumption|exact (ltb_asym _ _ E)].
Qed.

Lemma members_sorted (f : any -> any) (m : gomap) : Sorted in_order (by_key f m).
Proof. induction m as [|[k v] m IH]; [constructor|]. apply insert_sorted, IH. Qed.

Lemma sorted_fixed (m : gomap) : Sorted in_order m -> sorted_members m = m.
Proof.
  induction 1 as [|[k v] m Hs IH Hd]; [reflexivity|]. unfold sorted_members in *. cbn [by_key]. rewrite IH. destruct m as [|[k' v'] m]; [reflexivity|].
  inversion Hd as [|? ? E]; subst. unfold in_order in E. cbn [fst] in E. cbn [insert_key]. rewrite E. reflexivity.
Qed.

Lemma valid_twice (s : string) : valid (valid s) = valid s.
Proof. apply valid_wf. unfold valid, bs, to_string. rewrite list_ascii_of_string_of_list_ascii. apply utf8_wf. Qed.

Lemma reread_twice (v : any) : reread (reread v) = reread v.
Proof.
  induction v as [|b|f|n|s|l IH|m IH] using any_ind'; try reflexivity; cbn [reread].
  - rewrite valid_twice. reflexivity.
  - f_equal. rewrite map_map. apply List.map_ext_Forall. exact IH.
  - f_equal. rewrite (by_key_map reread (by_key reread m)), sorted_fixed by apply members_sorted. rewrite (by_key_map reread m), map_map.
    apply List.map_ext_Forall. cbn [fst snd]. rewrite sorted_perm. eapply Forall_impl; [exact IH|]. intros [k v] E. cbn in *. rewrite E. reflexivity.
Qed.

(** ** Readings of a re-read document *)

(** One member per key and well-formed strings. *)
Inductive Tidy : any -> Prop :=
| ti_nil : Tidy ANil
| ti_bool b : Tidy (ABool b)
| ti_num f : Tidy (ANum f)
| ti_int n : Tidy (AInt n)
| ti_str s : valid s = s -> Tidy (AStr s)
| ti_arr l : Forall Tidy l -> Tidy (AArr l)
| ti_obj m : NoDup (map fst m) -> Forall (fun kv => Tidy kv.2) m -> Tidy (AObj m).

Lemma written_tidy (fmt : spec_float -> bytes) (v : any) : forall d, Writable fmt d v -> Strings v -> Tidy v.
Proof.
  induction v as [|b|f|n|s|l IH|m IH] using any_ind'; intros d Hw Hs; inversion Hw; inversion Hs; subst; constructor; auto.
  - rewrite Forall_forall in *. intros x Hx. eapply IH; eauto.
  - rewrite Forall_forall in *. intros x Hx. eapply IH; eauto.
Qed.

Section Lookups.
Context (m : gomap) (tidy : Tidy (AObj m)).

Lemma tidy_keys : NoDup (map fst m).
Proof. inversion tidy. assumption. Qed.

Lemma tidy_get (k : string) (v : any) : get m k = Some v -> Tidy v.
Proof.
  inversion tidy as [| | | | | |? _ H]; subst. clear tidy. induction H as [|[k' v'] m' Hv Hm IH]; cbn; [discriminate|]. destruct (String.eqb k k'); [intros [= <-]; exact Hv|exact IH].
Qed.

Lemma get_again (k : string) : get (by_key reread m) k = reread <$> get m k.
Proof. apply get_reread, tidy_keys. Qed.

Lemma str_again (k : string) : str (by_key reread m) k = str m k.
Proof.
  rewrite str_reread by exact tidy_keys. destruct (str m k) as [s|] eqn:E; [|reflexivity]. unfold str in E. destruct (get m k) as [[]|] eqn:G; try discriminate. injection E as ->.
  apply tidy_get in G. inversion G; subst. cbn. congruence.
Qed.

Lemma str0_again (k : string) : str0 (by_key reread m) k = str0 m k.
Proof. unfold str0. rewrite str_again. reflexivity. Qed.

Lemma is_str_again (k lit : string) : is_str (by_key reread m) k lit = is_str m k lit.
Proof. unfold is_str. rewrite str_again. reflexivity. Qed.

Lemma arr_again (k : string) : arr (by_key reread m) k = map reread <$> arr m k.
Proof. unfold arr. rewrite get_again. destruct (get m k) as [[]|]; reflexivity. Qed.

Lemma obj_again (k : string) : obj (by_key reread m) k = by_key reread <$> obj m k.
Proof. apply obj_reread, tidy_keys. Qed.

Lemma tidy_arr (k : string) (l : list any) : arr m k = Some l -> Forall Tidy l.
Proof. unfold arr. intros E. destruct (get m k) as [[]|] eqn:G; try discriminate. injection E as ->. apply tidy_get in G. inversion G. assumption. Qed.

Lemma tidy_obj (k : string) (o : gomap) : obj m k = Some o -> Tidy (AObj o).
Proof. unfold obj. intros E. destruct (get m k) as [[]|] eqn:G; try discriminate. injection E as ->. exact (tidy_get k _ G). Qed.

Lemma tidy_str (k s : string) : str m k = Some s -> valid s = s.
Proof. unfold str. intros E. destruct (get m k) as [[]|] eqn:G; try discriminate. injection E as ->. apply tidy_get in G. inversion G. assumption. Qed.

Lemma tidy_str0 (k : string) : valid (str0 m k) = str0 m k.
Proof. unfold str0. destruct (str m k) as [s|] eqn:E; [exact (tidy_str k s E)|reflexivity]. Qed.
End Lookups.

Lemma objects_again (l : list any) : objects (map reread l) = map (by_key reread) (objects l).
Proof. unfold objects. induction l as [|[] l IH]; cbn; rewrite ?IH; reflexivity. Qed.

Lemma tidy_objects (l : list any) : Forall Tidy l -> Forall (fun m => Tidy (AObj m)) (objects l).
Proof. unfold objects. induction 1 as [|v l Hv Hl IH]; cbn; [constructor|]. destruct v; cbn; try exact IH. constructor; assumption. Qed.

Lemma omap_again {A : Type} (f : any -> option A) (l : list any) : (forall v, Tidy v -> f (reread v) = f v) -> Forall Tidy l -> omap f (map reread l) = omap f l.
Proof. intros Hf. induction 1 as [|v l Hv Hl IH]; [reflexivity|]. cbn. rewrite (Hf v Hv), IH. reflexivity. Qed.

Lemma block_text_again (o : option any) : match o with Some v => Tidy v | None => True end -> blockText (reread <$> o) = blockText o.
Proof.
  destruct o as [[| | | |s|l|m]|]; cbn; intros H; try reflexivity; inversion H; subst; [congruence|]. rewrite omap_again; [reflexivity| |assumption].
  intros [] Hv; try reflexivity. cbn. rewrite is_str_again, str_again by exact Hv. reflexivity.
Qed.

Lemma block_again (role : string) (b : any) : Tidy b -> mess_block role (reread b) = map reread_piece (mess_block role b).
Proof.
  intros H. destruct b as [| | | | | |bm]; try reflexivity. cbn [reread mess_block]. rewrite !(is_str_again bm H), !(str_again bm H), !(str0_again bm H), !(get_again bm H).
  rewrite block_text_again by (destruct (get bm "content") as [v|] eqn:G; [exact (tidy_get bm H _ v G)|exact I]).
  destruct (is_str bm "type" "text"); [destruct (str bm "text"); reflexivity|]. destruct (is_str bm "type" "thinking"); [destruct (str bm "thinking"); reflexivity|].
  destruct (is_str bm "type" "tool_use"); [destruct (get bm "input"); reflexivity|]. destruct (is_str bm "type" "tool_result"); reflexivity.
Qed.

Lemma flat_map_again {A B : Type} (r : A -> A) (f : A -> list B) (g : B -> B) (P : A -> Prop) (l : list A) : (forall v, P v -> f (r v) = map g (f v)) -> Forall P l ->
  flat_map f (map r l) = map g (flat_map f l).
Proof. intros Hf. induction 1 as [|v l Hv Hl IH]; [reflexivity|]. cbn. rewrite (Hf v Hv), IH, map_app. reflexivity. Qed.

Lemma message_again (mm : gomap) : Tidy (AObj mm) -> str0 (by_key reread mm) "role" = str0 mm "role" /\ mess_message (by_key reread mm) = map reread_piece (mess_message mm).
Proof.
  intros H. split; [exact (str0_again mm H "role")|]. unfold mess_message. rewrite (str0_again mm H), (get_again mm H). destruct (speaks _); [|reflexivity].
  destruct (get mm "content") as [v|] eqn:G; [|reflexivity]. apply (tidy_get mm H) in G. destruct v as [| | | |s|l|]; try reflexivity.
  { inversion G as [| | | |? Es| |]; subst. cbn. rewrite Es. reflexivity. }
  inversion G; subst. apply (flat_map_again reread (mess_block _) reread_piece Tidy); [apply block_again|assumption].
Qed.

Lemma messages_again (m : gomap) : Tidy (AObj m) -> mess_messages (by_key reread m) = map (by_key reread) (mess_messages m) /\ Forall (fun mm => Tidy (AObj mm)) (mess_messages m).
Proof.
  intros H. unfold mess_messages. rewrite (arr_again m H). destruct (arr m "messages") as [l|] eqn:E; [|split; [reflexivity|constructor]]. cbn.
  split; [apply objects_again|apply tidy_objects, (tidy_arr m H _ _ E)].
Qed.

Lemma only_again (f : Piece -> bool) (ps : list Piece) : (forall p, f (reread_piece p) = f p) -> only f (map reread_piece ps) = map reread_piece (only f ps).
Proof. intros Hf. unfold only. induction ps as [|p ps IH]; [reflexivity|]. cbn. rewrite Hf. destruct (f p); cbn; rewrite IH; reflexivity. Qed.

Lemma texts_again (role : string) (ps : list Piece) : texts role (map reread_piece ps) = texts role ps.
Proof. unfold texts. induction ps as [|[] ps IH]; cbn; rewrite ?IH; reflexivity. Qed.

Lemma thoughts_again (ps : list Piece) : thoughts (map reread_piece ps) = thoughts ps.
Proof. unfold thoughts. induction ps as [|[] ps IH]; cbn; rewrite ?IH; reflexivity. Qed.

Lemma non_empty_again (f : string -> Piece) (s : string) : (forall s, reread_piece (f s) = f s) -> map reread_piece (non_empty f s) = non_empty f s.
Proof. intros Hf. unfold non_empty. destruct (String.eqb s ""); cbn; rewrite ?Hf; reflexivity. Qed.

Lemma merged_again (role : string) (ps : list Piece) : merged role (map reread_piece ps) = map reread_piece (merged role ps).
Proof.
  unfold merged. rewrite texts_again, thoughts_again, !only_again by (intros []; reflexivity).
  destruct (String.eqb role "user"); rewrite !map_app, !non_empty_again by reflexivity; reflexivity.
Qed.

Lemma retold_again (m : gomap) : Tidy (AObj m) -> retold (by_key reread m) = map reread_piece (retold m).
Proof.
  intros H. unfold retold. destruct (messages_again m H) as [-> Hm]. apply (flat_map_again (by_key reread) _ reread_piece (fun mm => Tidy (AObj mm))); [|exact Hm].
  intros mm Hmm. unfold retold_message. destruct (message_again mm Hmm) as [-> ->]. rewrite merged_again. destruct (speaks _); reflexivity.
Qed.

Lemma chat_call_again (raw : any) : Tidy raw -> chat_call_piece (reread raw) = chat_call_piece raw.
Proof.
  intros H. destruct raw as [| | | | | |call]; try reflexivity. unfold chat_call_piece. cbn [reread as_obj mbind option_bind]. rewrite (obj_again call H), (str0_again call H).
  destruct (obj call "function") as [function|] eqn:E; [|reflexivity]. apply (tidy_obj call H) in E. cbn. rewrite (str0_again function E), (get_again function E).
  destruct (get function "arguments") as [v|] eqn:G; [|reflexivity]. apply (tidy_get function E) in G. destruct v as [| | | |s| |]; try reflexivity. inversion G as [| | | |? Es| |]; subst. cbn [fmap option_fmap option_map reread]. rewrite Es. reflexivity.
Qed.

Lemma chat_message_again (mm : gomap) : Tidy (AObj mm) -> chat_message (by_key reread mm) = chat_message mm.
Proof.
  intros H. unfold chat_message. rewrite !(str0_again mm H), (arr_again mm H). destruct (arr mm "tool_calls") as [l|] eqn:E; [|reflexivity].
  cbn [fmap option_fmap option_map default from_option id]. rewrite omap_again; [reflexivity|apply chat_call_again|exact (tidy_arr mm H _ _ E)].
Qed.

Lemma chat_pieces_again (m : gomap) : Tidy (AObj m) -> chat_pieces (by_key reread m) = chat_pieces m.
Proof.
  intros H. unfold chat_pieces. rewrite (arr_again m H). destruct (arr m "messages") as [l|] eqn:E; [|reflexivity]. cbn [fmap option_fmap option_map default from_option].
  unfold id. rewrite objects_again. apply (tidy_arr m H) in E. apply tidy_objects in E. induction E as [|mm l' Hmm Hl IH]; [reflexivity|]. cbn. rewrite chat_message_again, IH by exact Hmm. reflexivity.
Qed.
