(* ===== verification/RespChat.v ===== *)
(** * Responses requests at Chat providers

    [respToChatRequest] of [chat_target.go] makes a Messages request of a Responses
    request, writes it, reads it again and makes a Chat request of it.  The theorem
    is end to end on the bytes: the Chat request can be read, and it says what the
    Responses request says. *)

From Stdlib Require Import ZArith Lia List Bool String Ascii.
From Stdlib Require Import Floats.SpecFloat.
From stdpp Require Import base option list sets strings.
From S2P Require Import Prelude GoString JsonScan JsonText GoJson SseRelay ProtoJson MarshalText Utf8Text ChatStream BodyRequest Dialogue Documents.
Import ListNotations.
Local Open Scope string_scope.
Local Open Scope list_scope.

(** ** Decoded values hold no integers of the converters *)

Inductive Plain : any -> Prop :=
| pl_nil : Plain ANil
| pl_bool b : Plain (ABool b)
| pl_num f : Plain (ANum f)
| pl_str s : Plain (AStr s)
| pl_arr l : Forall Plain l -> Plain (AArr l)
| pl_obj m : Forall (fun kv => Plain kv.2) m -> Plain (AObj m).

Lemma mset_forall (P : any -> Prop) (k : string) (v : any) (m : gomap) : P v -> Forall (fun kv => P kv.2) m -> Forall (fun kv => P kv.2) (mset k v m).
Proof. intros Hv. induction 1 as [|[k' v'] m Hk Hm IH]; cbn; [repeat constructor; exact Hv|]. destruct (String.eqb k k'); constructor; auto. Qed.

Lemma to_any_plain (j : json) : forall v, to_any j = Some v -> Plain v.
Proof.
  induction j as [| | |t|s|l IH|l IH] using json_ind'; intros v; cbn [to_any]; try (intros [= <-]; constructor).
  - destruct (convertNumber t); [intros [= <-]; constructor|discriminate].
  - set (items := fix items (l : list json) : option (list any) := match l with [] => Some [] | j :: l => v ← to_any j; vs ← items l; Some (v :: vs) end).
    destruct (items l) as [vs|] eqn:E; [|discriminate]. intros [= <-]. constructor. revert vs E.
    induction IH as [|j l Hj Hl IHl]; cbn [items]; intros vs E; [injection E as <-; constructor|].
    destruct (to_any j) as [x|] eqn:Ej; cbn [mbind option_bind] in E; [|discriminate]. fold items in E. destruct (items l) as [xs|] eqn:El; cbn [mbind option_bind] in E; [|discriminate].
    injection E as <-. constructor; [exact (Hj _ eq_refl)|exact (IHl xs eq_refl)].
  - change (AObj <$> to_members [] l = Some v -> Plain v). intros E.
    assert (forall m m', Forall (fun kv => Plain kv.2) m -> to_members m l = Some m' -> Forall (fun kv => Plain kv.2) m') as Hm.
    { clear E v. induction IH as [|[k j] l Hj Hl IHl]; intros m m' Hs; cbn [to_members]; [intros [= <-]; exact Hs|]. fold to_members.
      destruct (to_any j) as [x|] eqn:Ej; cbn [mbind option_bind]; [|discriminate]. apply IHl, mset_forall; [exact (Hj _ Ej)|exact Hs]. }
    destruct (to_members [] l) as [m|] eqn:Em; [|discriminate]. injection E as <-. constructor. exact (Hm [] m (List.Forall_nil _) Em).
Qed.

Lemma unmarshal_plain (b : bytes) (v : any) : Unmarshal b = Some v -> Plain v.
Proof. unfold Unmarshal. destruct (decode b) as [j|]; cbn; [apply to_any_plain|discriminate]. Qed.

Lemma unmarshal_strings (b : bytes) (v : any) : Unmarshal b = Some v -> Strings v.
Proof. unfold Unmarshal. destruct (decode b) as [j|] eqn:E; cbn; [|discriminate]. apply decode_tokens in E. exact (to_any_strings j v E). Qed.

Lemma parsed (o : option any) : Plain (parseJSON o) /\ Strings (parseJSON o).
Proof.
  destruct o as [[]|]; cbn [parseJSON]; try (split; repeat constructor; fail). destruct (String.eqb s ""); [split; repeat constructor|].
  destruct (Unmarshal (bs s)) eqn:E; cbn; [split; [exact (unmarshal_plain _ _ E)|exact (unmarshal_strings _ _ E)]|split; repeat constructor].
Qed.

Lemma reread_strings (v : any) : Strings (reread v).
Proof.
  induction v as [|b|f|n|s|l IH|m IH] using any_ind'; cbn [reread]; constructor.
  - apply valid_twice.
  - apply Forall_fmap. exact IH.
  - rewrite by_key_map. apply Forall_fmap. unfold compose. cbn [snd]. rewrite sorted_perm. exact IH.
Qed.

Lemma reread_plain (v : any) : Plain (reread v).
Proof.
  induction v as [|b|f|n|s|l IH|m IH] using any_ind'; cbn [reread]; constructor.
  - apply Forall_fmap. exact IH.
  - rewrite by_key_map. apply Forall_fmap. unfold compose. cbn [snd]. rewrite sorted_perm. exact IH.
Qed.

Section Fits.
Context (fmt : spec_float -> bytes).

Lemma writable_mono (v : any) : forall d d', (d <= d')%nat -> Writable fmt d v -> Writable fmt d' v.
Proof.
  induction v as [|b|f|n|s|l IH|m IH] using any_ind'; intros d d' Hd Hw; inversion Hw; subst; try (constructor; assumption).
  - destruct d' as [|d']; [lia|]. constructor. rewrite Forall_forall in *. intros x Hx. apply (IH x Hx d0); [lia|auto].
  - destruct d' as [|d']; [lia|]. constructor; try assumption. rewrite Forall_forall in *. intros x Hx. apply (IH x Hx d0); [lia|auto].
Qed.

Lemma keys_again (m : gomap) : map fst (by_key reread m) ≡ₚ map fst m.
Proof. rewrite by_key_map, map_map. cbn [fst]. rewrite sorted_perm. reflexivity. Qed.

Lemma writable_again (v : any) : forall d, Plain v -> Writable fmt d v -> Writable fmt d (reread v).
Proof.
  induction v as [|b|f|n|s|l IH|m IH] using any_ind'; intros d Hp Hw; inversion Hw; inversion Hp; subst; try (constructor; assumption); cbn [reread].
  - constructor. apply Forall_fmap. rewrite Forall_forall in *. intros x Hx. apply IH; auto.
  - constructor; [rewrite keys_again; assumption| |]; rewrite by_key_map; apply Forall_fmap; unfold compose; cbn [fst snd]; rewrite sorted_perm; [assumption|].
    rewrite Forall_forall in *. intros x Hx. apply IH; auto.
Qed.

(** A decoded value that can be written [d] levels above the limit. *)
Record Fits (d : nat) (v : any) : Prop := mkFits { ft_written : Writable fmt d v; ft_strings : Strings v; ft_plain : Plain v }.

Lemma fits_again (d : nat) (v : any) : Fits d v -> Fits d (reread v).
Proof. intros [Hw Hs Hp]. constructor; [exact (writable_again v d Hp Hw)|apply reread_strings|apply reread_plain]. Qed.

Lemma fits_tidy (d : nat) (v : any) : Fits d v -> Tidy v.
Proof. intros [Hw Hs _]. exact (written_tidy fmt v d Hw Hs). Qed.

Lemma fits_mono (d d' : nat) (v : any) : (d <= d')%nat -> Fits d v -> Fits d' v.
Proof. intros Hd [Hw Hs Hp]. constructor; [exact (writable_mono v d d' Hd Hw)|exact Hs|exact Hp]. Qed.

Lemma fits_str (d : nat) (s : string) : valid s = s -> Fits d (AStr s).
Proof. intros H. repeat constructor. exact H. Qed.
Lemma fits_bool (d : nat) (b : bool) : Fits d (ABool b).
Proof. repeat constructor. Qed.
Lemma fits_nil (d : nat) : Fits d ANil.
Proof. repeat constructor. Qed.

Lemma fits_arr (d : nat) (l : list any) : Forall (Fits d) l <-> Fits (S d) (AArr l).
Proof.
  split.
  - intros H. constructor; constructor; (eapply Forall_impl; [exact H|]); intros v []; assumption.
  - intros [Hw Hs Hp]. inversion Hw; inversion Hs; inversion Hp; subst. rewrite Forall_forall in *. intros v Hv. constructor; auto.
Qed.

(** The members of a document. *)
Record FitsIn (d : nat) (m : gomap) : Prop := mkFitsIn {
  fi_nodup : NoDup (map fst m); fi_keys : Forall (fun kv => valid kv.1 = kv.1) m; fi_values : Forall (fun kv => Fits d kv.2) m }.

Lemma fits_obj (d : nat) (m : gomap) : FitsIn d m <-> Fits (S d) (AObj m).
Proof.
  split.
  - intros [Hn Hk Hv]. constructor; constructor; try assumption; (eapply Forall_impl; [exact Hv|]); intros kv []; assumption.
  - intros [Hw Hs Hp]. inversion Hw; inversion Hs; inversion Hp; subst. constructor; try assumption. rewrite Forall_forall in *. intros v Hv. constructor; auto.
Qed.

Lemma fits_in_nil (d : nat) : FitsIn d [].
Proof. constructor; constructor. Qed.

Lemma mset_keys (k : string) (v : any) (m : gomap) (j : string) : j ∈ map fst (mset k v m) <-> j = k \/ j ∈ map fst m.
Proof.
  induction m as [|[k' v'] m IH]; cbn; [set_solver|]. destruct (String.eqb_spec k k') as [->|]; cbn; rewrite ?elem_of_cons; [set_solver|]. rewrite IH. set_solver.
Qed.

Lemma mset_nodup (k : string) (v : any) (m : gomap) : NoDup (map fst m) -> NoDup (map fst (mset k v m)).
Proof.
  intros Hn. induction m as [|[k' v'] m IH]; cbn; [repeat constructor; set_solver|]. cbn in Hn. apply NoDup_cons in Hn as [H1 H2].
  destruct (String.eqb_spec k k') as [->|]; cbn; constructor; auto. rewrite mset_keys. intros [->|]; contradiction.
Qed.

Lemma mset_valid (k : string) (v : any) (m : gomap) : valid k = k -> Forall (fun kv => valid kv.1 = kv.1) m -> Forall (fun kv => valid kv.1 = kv.1) (mset k v m).
Proof. intros Hk. induction 1 as [|[k' v'] m H1 H2 IH]; cbn; [repeat constructor; exact Hk|]. destruct (String.eqb k k'); constructor; auto. Qed.

Lemma fits_in_mset (d : nat) (k : string) (v : any) (m : gomap) : FitsIn d m -> Fits d v -> valid k = k -> FitsIn d (mset k v m).
Proof. intros [Hn Hk Hv] Hf Hkv. constructor; [apply mset_nodup|apply mset_valid|apply mset_forall]; assumption. Qed.

Lemma written_mset (d : nat) (k : string) (v : any) (m : gomap) : Writable fmt (S d) (AObj m) -> Writable fmt d v -> valid k = k -> Writable fmt (S d) (AObj (mset k v m)).
Proof. intros H Hv Hk. inversion H; subst. constructor; [apply mset_nodup|apply mset_valid|apply mset_forall]; assumption. Qed.

Lemma fits_in_put (d : nat) (k : string) (v : option any) (m : gomap) : FitsIn d m -> (forall x, v = Some x -> Fits d x) -> valid k = k -> FitsIn d (put k v m).
Proof. intros Hm Hv Hk. destruct v as [x|]; [apply fits_in_mset; auto|exact Hm]. Qed.

Lemma fits_in_pass (d : nat) (src : gomap) (keys : list string) : (forall k v, k ∈ keys -> get src k = Some v -> Fits d v) -> Forall (fun k => valid k = k) keys ->
  forall m, FitsIn d m -> FitsIn d (pass m src keys).
Proof.
  intros Hs Hk. unfold pass. induction Hk as [|k keys H1 H2 IH]; intros m Hm; [exact Hm|]. cbn [fold_left]. apply IH; [intros j v Hj; apply Hs; set_solver|].
  destruct (get src k) as [v|] eqn:G; [|exact Hm]. pose proof (Hs k v ltac:(set_solver) G) as Hv. destruct v; try exact Hm; apply fits_in_mset; assumption.
Qed.

Lemma fits_get (d : nat) (m : gomap) (k : string) (v : any) : FitsIn d m -> get m k = Some v -> Fits d v.
Proof.
  intros [_ _ H]. induction H as [|[k' v'] m Hv Hm IH]; cbn; [discriminate|]. destruct (String.eqb k k'); [intros [= <-]; exact Hv|exact IH].
Qed.
End Fits.

(** ** Texts of the converters are valid *)

Definition V (s : string) : Prop := valid s = s.

Lemma V_join (sep : string) (l : list string) : V sep -> Forall V l -> V (joinStrings l sep).
Proof.
  intros Hs. induction 1 as [|s l H1 Hl IH]; [reflexivity|]. destruct l as [|t l]; [exact H1|].
  change (joinStrings (s :: t :: l) sep) with (s +:+ sep +:+ joinStrings (t :: l) sep)%stdpp. apply valid_app; [exact H1|]. apply valid_app; assumption.
Qed.

Lemma V_joined (l : list string) (s : string) : Forall V l -> joined l = Some s -> V s.
Proof. destruct l as [|x l]; [discriminate|]. intros H [= <-]. exact (V_join newline (x :: l) eq_refl H). Qed.

Lemma omap_forall {A B : Type} (P : A -> Prop) (Q : B -> Prop) (f : A -> option B) (l : list A) : (forall a b, P a -> f a = Some b -> Q b) -> Forall P l -> Forall Q (omap f l).
Proof. intros Hf. induction 1 as [|a l Ha Hl IH]; cbn; [constructor|]. destruct (f a) eqn:E; [constructor; [exact (Hf _ _ Ha E)|exact IH]|exact IH]. Qed.

Lemma V_block_text (o : option any) (s : string) : (forall v, o = Some v -> Tidy v) -> blockText o = Some s -> V s.
Proof.
  intros H E. destruct o as [v|]; [|discriminate]. specialize (H v eq_refl). destruct v as [| | | |t|l|]; try discriminate; inversion H; subst.
  - injection E as <-. assumption.
  - assert (blockText (Some (AArr l)) = joined (omap (fun p => pm ← as_obj p; if is_str pm "type" "text" then str pm "text" else None) l)) as Hj
      by (cbn; unfold joined; destruct (omap _ l); reflexivity). rewrite Hj in E.
    eapply V_joined; [|exact E]. eapply omap_forall; [|eassumption]. intros v y Hp; destruct v as [| | | | | |m]; try discriminate. cbn. destruct (is_str m "type" "text"); [|discriminate]. apply tidy_str, Hp.
Qed.

Lemma V_block_text0 (m : gomap) (k : string) : Tidy (AObj m) -> V (default "" (blockText (get m k))).
Proof.
  intros H. destruct (blockText (get m k)) as [s|] eqn:E; [|reflexivity]. cbn. eapply V_block_text; [|exact E]. intros v G. exact (tidy_get m H k v G).
Qed.

Lemma V_call_id (m : gomap) : Tidy (AObj m) -> V (toolCallID m).
Proof.
  intros H. unfold toolCallID. destruct (str m "call_id") as [id|] eqn:E; [|exact (tidy_str0 m H "id")]. destruct (String.eqb id ""); [exact (tidy_str0 m H "id")|exact (tidy_str m H _ _ E)].
Qed.

(** A literal object of valid texts. *)
Ltac fit := repeat first
  [ assumption | apply fits_nil | apply fits_bool | apply fits_str
  | apply fits_arr; repeat apply List.Forall_cons; try apply List.Forall_nil
  | apply fits_obj; constructor; [keys|lits|repeat (apply List.Forall_cons; [cbn [snd]|]); try apply List.Forall_nil] ].

Section Messages.
Context (fmt : spec_float -> bytes) (e : nat).

Lemma text_fits (type t : string) : V type -> V t -> Fits fmt (S e) (text_value type t).
Proof. intros H1 H2. fit. Qed.
Lemma thinking_fits (t : string) : V t -> Fits fmt (S e) (thinking_value t).
Proof. intros H. unfold thinking_value. fit; reflexivity. Qed.
Lemma tool_use_fits (id name : string) (input : any) : V id -> V name -> Fits fmt e input -> Fits fmt (S e) (tool_use_value id name input).
Proof. intros H1 H2 H3. unfold tool_use_value. fit. reflexivity. Qed.
Lemma tool_result_fits (id t : string) : V id -> V t -> Fits fmt (S e) (tool_result_value id t).
Proof. intros H1 H2. unfold tool_result_value. fit. reflexivity. Qed.

(** A message with a list of blocks. *)
Definition block_message (m : gomap) : Prop := exists role l, m = message_value role (AArr l) /\ V role /\ Forall (Fits fmt (S e)) l.

Lemma block_message_fits (m : gomap) : block_message m -> Fits fmt (S (S (S e))) (AObj m).
Proof. intros (role & l & -> & Hr & Hl). unfold message_value. fit. Qed.

(** The arguments of a call can be written. *)
Definition call_written (p : Piece) : Prop := match p with PCall _ _ v => Writable fmt e v | _ => True end.

Lemma append_fits (blocks : list any) (st : Messages) : Forall block_message st.1 -> Forall (Fits fmt (S e)) blocks -> open_last st -> Forall block_message (append_blocks blocks st).1.
Proof.
  intros Hs Hb Ho. destruct st as [msgs last]. unfold append_blocks. destruct (with_assistant (msgs, last)) as [msgs' i] eqn:Ew. cbn [fst] in *.
  assert (Forall block_message msgs') as Hm.
  { destruct last as [j|]; cbn in Ew; injection Ew as <- <-; [exact Hs|]. apply Forall_app. split; [exact Hs|]. repeat constructor.
    exists "assistant", []. repeat split; constructor. }
  apply Forall_alter; [exact Hm|]. intros x Hx _. rewrite Forall_forall in Hm. apply list_elem_of_lookup_2 in Hx. destruct (Hm x Hx) as (role & l & -> & Hr & Hl).
  exists role, (l ++ blocks). split; [reflexivity|]. split; [exact Hr|]. apply Forall_app. auto.
Qed.

Lemma item_fits (st : Messages) (item : any) : Forall block_message st.1 -> open_last st -> Tidy item -> Forall call_written (on_objects resp_item item) ->
  Forall block_message (input_step st item).1.
Proof.
  intros Hs Ho Ht Hc. destruct item as [| | | | | |im]; try exact Hs. cbn [input_step on_objects] in *. destruct st as [msgs last]. cbn [fst] in *.
  assert (forall role l, V role -> Forall (Fits fmt (S e)) l -> Forall block_message (msgs ++ [message_value role (AArr l)])) as Happ.
  { intros role l Hr Hl. apply Forall_app. split; [exact Hs|]. repeat constructor. exists role, l. auto. }
  unfold resp_item in Hc. destruct (is_str im "type" "message") eqn:E1.
  - destruct (negb _ && negb _); [exact Hs|]. assert (Forall (Fits fmt (S e)) (item_blocks im)) as Hb.
    { unfold item_blocks. destruct (get im "content") as [v|] eqn:G; [|constructor]. apply (tidy_get im Ht) in G. destruct v; try constructor; inversion G; subst; [apply text_fits; (reflexivity || assumption)|constructor|].
      eapply omap_forall; [|eassumption]. intros v y Hp; destruct v as [| | | | | |m]; try discriminate. unfold part_block. cbn [as_obj mbind option_bind].
      destruct (is_str m "type" "input_text" || is_str m "type" "output_text")%bool; [destruct (str m "text") eqn:Es; cbn [mbind option_bind]; [|discriminate]; intros [= <-]; apply text_fits; [reflexivity|exact (tidy_str m Hp _ _ Es)]|].
      destruct (is_str m "type" "reasoning"); [|discriminate]. destruct (str m "text") eqn:Es; cbn [mbind option_bind]; [|discriminate]. intros [= <-]. apply thinking_fits, (tidy_str m Hp _ _ Es). }
    destruct (item_blocks im) as [|b blocks]; [exact Hs|]. cbn [fst]. apply Happ; [exact (tidy_str0 im Ht "role")|exact Hb].
  - destruct (is_str im "type" "function_call") eqn:E2.
    + destruct (negb (typed im)) eqn:Et. { unfold is_str, str, typed in *. destruct (get im "type"); discriminate. } cbn [orb] in Hc. apply Forall_cons in Hc as [Hc _].
      apply append_fits; [exact Hs| |exact Ho]. apply List.Forall_cons; [|apply List.Forall_nil].
      destruct (parsed (get im "arguments")). apply tool_use_fits; [apply V_call_id, Ht|exact (tidy_str0 im Ht "name")|constructor; assumption].
    + destruct (is_str im "type" "reasoning") eqn:E3; [apply append_fits; [exact Hs| |exact Ho]|destruct (is_str im "type" "function_call_output")].
      * destruct (arr im "summary") as [l|] eqn:Ea; [|constructor]. eapply omap_forall; [|exact (tidy_arr im Ht _ _ Ea)]. intros v y Hp; destruct v as [| | | | | |m]; try discriminate. cbn.
        destruct (str m "text") eqn:Es; cbn [mbind option_bind]; [|discriminate]. intros [= <-]. apply thinking_fits, (tidy_str m Hp _ _ Es).
      * cbn [fst]. apply Happ; [reflexivity|]. apply List.Forall_cons; [|apply List.Forall_nil].
        apply tool_result_fits; [exact (tidy_str0 im Ht "call_id")|exact (V_block_text0 im "output" Ht)].
      * exact Hs.
Qed.
End Messages.

Section Requests.
Context (fmt : spec_float -> bytes) (e : nat).

Lemma folded_fits (input : list any) : forall st, Forall (block_message fmt e) st.1 -> open_last st -> Forall Tidy input ->
  Forall (call_written fmt e) (flat_map (on_objects resp_item) input) -> Forall (block_message fmt e) (fold_left input_step input st).1.
Proof.
  induction input as [|item input IH]; intros st Hs Ho Ht Hc; [exact Hs|]. apply Forall_cons in Ht as [H1 H2]. cbn [flat_map] in Hc. apply Forall_app in Hc as [C1 C2].
  cbn [fold_left]. apply IH; [exact (item_fits fmt e st item Hs Ho H1 C1)|exact (proj1 (input_step_reads mess_message mess_additive st item Ho))|exact H2|exact C2].
Qed.

Lemma named_fits (tm tool : gomap) (from to : string) (d : nat) : FitsIn fmt d tm -> FitsIn fmt d tool -> V to -> FitsIn fmt d (named tm from to tool).
Proof.
  intros Hm Ht Hto. pose proof (fits_tidy fmt _ _ (proj1 (fits_obj fmt d tm) Hm)) as Hty. unfold named.
  apply fits_in_put; [apply fits_in_put; [apply fits_in_put; [exact Ht| |reflexivity]| |reflexivity]| |exact Hto]; intros x E.
  - destruct (str tm "name") eqn:Es; [|discriminate]. injection E as <-. apply fits_str, (tidy_str tm Hty _ _ Es).
  - destruct (str tm "description") eqn:Es; [|discriminate]. injection E as <-. apply fits_str, (tidy_str tm Hty _ _ Es).
  - unfold obj in E. destruct (get tm from) as [[]|] eqn:G; try discriminate. injection E as <-. exact (fits_get fmt d tm _ _ Hm G).
Qed.

Lemma fits_in_mono (d d' : nat) (m : gomap) : (d <= d')%nat -> FitsIn fmt d m -> FitsIn fmt d' m.
Proof. intros Hd [H1 H2 H3]. constructor; try assumption. eapply Forall_impl; [exact H3|]. intros kv. apply fits_mono, Hd. Qed.

Lemma members_fit (d : nat) (v : any) (m : gomap) : Fits fmt d v -> v = AObj m -> exists d', d = S d' /\ FitsIn fmt d' m.
Proof. intros Hf ->. destruct d as [|d']; [destruct Hf as [Hw _ _]; inversion Hw|]. exists d'. split; [reflexivity|]. apply fits_obj, Hf. Qed.

Lemma elements_fit (d : nat) (l : list any) : Fits fmt d (AArr l) -> exists d', d = S d' /\ Forall (Fits fmt d') l.
Proof. intros Hf. destruct d as [|d']; [destruct Hf as [Hw _ _]; inversion Hw|]. exists d'. split; [reflexivity|]. apply fits_arr, Hf. Qed.

Lemma resp_tools_fit (d : nat) (tools : list any) : Fits fmt d (AArr tools) -> Fits fmt d (AArr (respToolsToMess tools)).
Proof.
  intros H. apply elements_fit in H as (d' & -> & H). apply fits_arr. eapply omap_forall; [|exact H]. intros v y Hv; destruct v as [| | | | | |m]; try discriminate.
  cbn [as_obj mbind option_bind]. destruct (is_str m "type" "function"); [|discriminate]. intros [= <-]. destruct (members_fit _ _ _ Hv eq_refl) as (d2 & -> & Hm).
  apply fits_obj. apply named_fits; [exact Hm|apply fits_in_nil|reflexivity].
Qed.

Lemma V_parts (f : gomap -> option string) (l : list any) : (forall m s, Tidy (AObj m) -> f m = Some s -> V s) -> Forall Tidy l -> Forall V (omap (fun p => pm ← as_obj p; f pm) l).
Proof. intros Hf. apply omap_forall. intros v y Hp; destruct v as [| | | | | |m]; try discriminate. exact (Hf m y Hp). Qed.

Lemma instructions_valid (req : gomap) (s : string) : Tidy (AObj req) -> respInstructions req = Some s -> V s.
Proof.
  intros H E. eapply V_joined; [|exact E]. apply Forall_app. split.
  - destruct (str req "instructions") as [ins|] eqn:Es; [|constructor]. destruct (String.eqb ins ""); [constructor|]. repeat constructor. exact (tidy_str req H _ _ Es).
  - destruct (arr req "input") as [l|] eqn:Ea; [|constructor]. cbn [default from_option]. apply V_parts; [|exact (tidy_arr req H _ _ Ea)]. intros im s' Him.
    destruct (_ || _)%bool; [|discriminate]. unfold inputItemText. destruct (get im "content") as [v|] eqn:G; [|discriminate]. apply (tidy_get im Him) in G.
    destruct v as [| | | |c|c|]; try discriminate; inversion G; subst; [intros [= <-]; assumption|]. intros Ej. eapply V_joined; [|exact Ej].
    apply V_parts; [|assumption]. intros m t Hm. apply tidy_str, Hm.
Qed.

Lemma choice_fits (req : gomap) (v : any) (d : nat) : Tidy (AObj req) -> respToolChoice req = Some v -> Fits fmt (S d) v.
Proof.
  intros H. unfold respToolChoice. destruct (get req "tool_choice") as [c|] eqn:G; [|discriminate]. apply (tidy_get req H) in G. destruct c as [| | | |s| |m]; try discriminate.
  - intros [= <-]. apply fits_str. destruct (String.eqb s "required"); [reflexivity|]. inversion G; assumption.
  - destruct (is_str m "type" "function"); [|discriminate]. destruct (str m "name") as [name|] eqn:Es; cbn [mbind option_bind]; [|discriminate]. intros [= <-].
    apply (tidy_str m G) in Es. fit. reflexivity.
Qed.

(** The Messages request: everything but the integers of [thinking] is decoded. *)
Lemma converted_fits (req : gomap) : FitsIn fmt e req -> Forall (call_written fmt e) (resp_pieces req) ->
  exists m thinking, resp_to_mess_request req = put "thinking" thinking m /\ FitsIn fmt (4 + e) m /\ (thinking = None \/ exists b, thinking = Some (AObj (thinking_enabled b)) /\ (0 <= b <= max64)%Z).
Proof.
  intros Hq Hc. pose proof (fits_tidy fmt _ _ (proj1 (fits_obj fmt e req) Hq)) as Ht.
  assert (forall k v, get req k = Some v -> Fits fmt (4 + e) v) as Hg by (intros k v G; apply (fits_mono fmt e); [lia|exact (fits_get fmt e req k v Hq G)]).
  eexists _, _. split; [reflexivity|]. split.
  - apply fits_in_put; [|intros v E; exact (choice_fits req v _ Ht E)|reflexivity]. apply fits_in_put; [| |reflexivity].
    2:{ intros v E. unfold arr in E. destruct (get req "tools") as [[]|] eqn:G; try discriminate. injection E as <-. apply resp_tools_fit, (Hg "tools"), G. }
    apply fits_in_put; [|intros v E; exact (Hg _ _ E)|reflexivity]. apply fits_in_pass; [intros k v _; apply Hg|repeat constructor|].
    assert (FitsIn fmt (4 + e) (put "system" (AStr <$> respInstructions req) [])) as Hsys.
    { apply fits_in_put; [apply fits_in_nil| |reflexivity]. intros v E. destruct (respInstructions req) as [s|] eqn:Es; [|discriminate]. injection E as <-. apply fits_str, (instructions_valid req s Ht Es). }
    unfold respInputToMessMessages, resp_pieces in *. rewrite arr_get. destruct (get req "input") as [v|] eqn:G.
    + pose proof (tidy_get req Ht _ _ G) as Hv. destruct v as [| | | |s|input|]; cbn [mbind option_bind]; unfold str; try rewrite G; try exact Hsys.
      * apply fits_in_put; [exact Hsys| |reflexivity]. intros v [= <-]. inversion Hv; subst. change (4 + e)%nat with (S (S (S (S e)))). unfold message_value. fit. reflexivity.
      * apply fits_in_mset; [exact Hsys| |reflexivity]. rewrite objects_map in Hc. inversion Hv; subst.
        pose proof (folded_fits input ([], None) (List.Forall_nil _) ltac:(intros i; discriminate) ltac:(assumption) Hc) as Hf.
        destruct (fold_left input_step input ([], None)).1 as [|m ms]; [apply fits_nil|]. change (4 + e)%nat with (S (S (S (S e)))). apply fits_arr. apply (proj2 (Forall_fmap _ _ _)). eapply Forall_impl; [exact Hf|]. apply block_message_fits.
    + cbn [mbind option_bind]. unfold str. rewrite G. exact Hsys.
  - destruct (get req "reasoning") as [v|]; [|left; reflexivity]. cbn [mbind option_bind]. unfold reasoningToThinking. destruct v; try (left; reflexivity).
    destruct (negb _); [right; eexists; split; [reflexivity|]; destruct (String.eqb _ "low"); [unfold_int; lia|]; destruct (String.eqb _ "high"); unfold_int; lia|].
    destruct (String.eqb _ "enabled"); [right; eexists; split; [reflexivity|unfold_int; lia]|left; reflexivity].
Qed.
End Requests.

(** ** The Chat request can be written *)

Section ToChat.
Context (fmt : spec_float -> bytes).

Lemma user_parts_fit (l : list any) : Forall Tidy l -> Forall V (user_parts l).1 /\ Forall (Fits fmt 1) (user_parts l).2.
Proof.
  induction 1 as [|raw l Hv Hl [IH1 IH2]]; [split; constructor|]. cbn [user_parts]. destruct (user_parts l) as [text results]. cbn [fst snd] in *.
  destruct raw as [| | | | | |block]; try (split; assumption). destruct (is_str block "type" "text").
  - destruct (str block "text") as [t|] eqn:Es; [|split; assumption]. split; [|assumption]. constructor; [exact (tidy_str block Hv _ _ Es)|assumption].
  - destruct (is_str block "type" "tool_result"); [|split; assumption]. split; [assumption|]. constructor; [|assumption].
    fit; [reflexivity|exact (tidy_str0 block Hv "tool_use_id")|exact (V_block_text0 block "content" Hv)].
Qed.

Lemma chat_call_fits (d : nat) (block : gomap) : FitsIn fmt d block -> Fits fmt 2 (chat_call fmt block).
Proof.
  intros H. pose proof (fits_tidy fmt _ _ (proj1 (fits_obj fmt d block) H)) as Ht.
  assert (V (marshalAny fmt (default ANil (get block "input")))) as Ha.
  { destruct (get block "input") as [v|] eqn:G; [|reflexivity]. exact (arguments_valid fmt d v (ft_written fmt d v (fits_get fmt d block _ v H G))). }
  unfold chat_call. fit; [exact (tidy_str0 block Ht "id")|reflexivity|exact (tidy_str0 block Ht "name")].
Qed.

Lemma assistant_parts_fit (d : nat) (l : list any) : Forall (Fits fmt d) l ->
  Forall V (assistant_parts fmt l).1.1 /\ Forall (Fits fmt 2) (assistant_parts fmt l).1.2 /\ Forall V (assistant_parts fmt l).2.
Proof.
  induction 1 as [|raw l Hv Hl (IH1 & IH2 & IH3)]; [repeat split; constructor|]. cbn [assistant_parts]. destruct (assistant_parts fmt l) as [[text calls] reasoning]. cbn [fst snd] in *.
  destruct raw as [| | | | | |block]; try (repeat split; assumption). pose proof (fits_tidy fmt _ _ Hv) as Ht. destruct (is_str block "type" "text").
  - destruct (str block "text") as [t|] eqn:Es; [|repeat split; assumption]. repeat split; try assumption. constructor; [exact (tidy_str block Ht _ _ Es)|assumption].
  - destruct (is_str block "type" "tool_use").
    + repeat split; try assumption. constructor; [|assumption]. destruct (members_fit fmt _ _ _ Hv eq_refl) as (d' & -> & Hm). exact (chat_call_fits d' block Hm).
    + destruct (is_str block "type" "thinking"); [|repeat split; assumption]. destruct (str block "thinking") as [t|] eqn:Es; [|repeat split; assumption].
      repeat split; try assumption. constructor; [exact (tidy_str block Ht _ _ Es)|assumption].
Qed.

Lemma user_chat_fits (d : nat) (m : gomap) : FitsIn fmt d m -> Forall (Fits fmt 4) (chat_user m).
Proof.
  intros H. pose proof (fits_tidy fmt _ _ (proj1 (fits_obj fmt d m) H)) as Ht. unfold chat_user, messUserContentToChat.
  assert (forall t, V t -> Forall (Fits fmt 4) (if String.eqb t "" then [] else [AObj (message_value "user" (AStr t))])) as Hu.
  { intros t Hv. destruct (String.eqb t ""); [constructor|]. apply List.Forall_cons; [|constructor]. unfold message_value. fit. reflexivity. }
  destruct (get m "content") as [v|] eqn:G; [|constructor]. apply (tidy_get m Ht) in G. destruct v as [| | | |t|l|]; try constructor; inversion G; subst; [apply Hu; assumption|].
  destruct (user_parts_fit l ltac:(assumption)) as [P1 P2]. destruct (user_parts l) as [text results]. apply Forall_app. split; [|apply Hu, V_join; [reflexivity|exact P1]].
  eapply Forall_impl; [exact P2|]. intros x. apply fits_mono. lia.
Qed.

Lemma assistant_chat_fits (d : nat) (m : gomap) : FitsIn fmt d m -> Forall (Fits fmt 4) (chat_assistant fmt m).
Proof.
  intros H. pose proof (fits_tidy fmt _ _ (proj1 (fits_obj fmt d m) H)) as Ht. unfold chat_assistant.
  assert (exists text calls reasoning, messAssistantContentToChat fmt (get m "content") = (text, calls, reasoning) /\ V text /\ Forall (Fits fmt 2) calls /\ V reasoning)
    as (text & calls & reasoning & -> & H1 & H2 & H3).
  { unfold messAssistantContentToChat. destruct (get m "content") as [v|] eqn:G; [|eexists _, _, _; repeat split; constructor].
    pose proof (tidy_get m Ht _ _ G) as Hv. destruct v as [| | | |t|l|]; try (eexists _, _, _; repeat split; constructor).
    - inversion Hv; subst. eexists _, _, _. repeat split; [assumption|constructor].
    - apply (fits_get fmt d m _ _ H) in G. apply elements_fit in G as (d' & -> & G). destruct (assistant_parts_fit d' l G) as (P1 & P2 & P3). destruct (assistant_parts fmt l) as [[ts calls] ths].
      eexists _, _, _. split; [reflexivity|]. split; [apply V_join; [reflexivity|exact P1]|]. split; [exact P2|apply V_join; [reflexivity|exact P3]]. }
  destruct (_ && _ && _)%bool; [constructor|]. apply List.Forall_cons; [|constructor]. assert (Fits fmt 3 (AArr calls)) as Hc by (apply fits_arr, H2).
  unfold message_value. destruct calls as [|c calls]; destruct (String.eqb reasoning ""); cbn [app]; fit; reflexivity.
Qed.

Lemma message_chat_fits (d : nat) (raw : any) : Fits fmt d raw -> Forall (Fits fmt 4) (message_to_chat fmt raw).
Proof.
  intros H. destruct raw as [| | | | | |m]; try constructor. destruct (members_fit fmt _ _ _ H eq_refl) as (d' & -> & Hm). cbn [message_to_chat].
  destruct (String.eqb (str0 m "role") "user"); [exact (user_chat_fits d' m Hm)|]. destruct (String.eqb (str0 m "role") "assistant"); [exact (assistant_chat_fits d' m Hm)|constructor].
Qed.

Lemma chat_tools_fit (d : nat) (tools : list any) : Fits fmt d (AArr tools) -> Fits fmt (S d) (AArr (messToolsToChat tools)).
Proof.
  intros H. apply elements_fit in H as (d' & -> & H). apply fits_arr. eapply omap_forall; [|exact H]. intros v y Hv; destruct v as [| | | | | |m]; try discriminate.
  cbn [as_obj mbind option_bind]. intros [= <-]. destruct (members_fit fmt _ _ _ Hv eq_refl) as (d2 & -> & Hm). apply fits_obj. constructor; [keys|lits|].
  apply List.Forall_cons; [cbn [snd]; apply fits_str; reflexivity|]. apply List.Forall_cons; [cbn [snd]|constructor]. apply fits_obj.
  apply (fits_in_put fmt d2 "parameters" _ (pass [] m ["name"; "description"])); [|intros v E|reflexivity].
  - apply (fits_in_pass fmt d2 m ["name"; "description"]); [intros k v _; apply (fits_get fmt d2 m k v Hm)|repeat constructor|apply fits_in_nil].
  - unfold non_nil in E. destruct (get m "input_schema") as [x|] eqn:G; [|discriminate]. pose proof (fits_get fmt d2 m _ _ Hm G) as Hx. destruct x; try discriminate; injection E as <-; exact Hx.
Qed.

Lemma system_valid (m : gomap) (s : string) : Tidy (AObj m) -> anthropicSystem m = Some s -> V s.
Proof.
  intros H. unfold anthropicSystem. destruct (get m "system") as [v|] eqn:G; [|discriminate]. apply (tidy_get m H) in G. destruct v as [| | | |t|l|]; try discriminate; inversion G; subst; [intros [= <-]; assumption|].
  intros E. eapply V_joined; [|exact E]. eapply omap_forall; [|eassumption]. intros p y Hp; destruct p as [| | | |t| |pt]; try discriminate; [intros [= <-]; inversion Hp; assumption|]. apply tidy_str, Hp.
Qed.

Lemma chat_choice_fits (m : gomap) (choice : any) (parallel : option bool) (d : nat) : Tidy (AObj m) -> messToolChoiceToChat m = Some (choice, parallel) -> Fits fmt (S (S d)) choice.
Proof.
  intros H. unfold messToolChoiceToChat. destruct (get m "tool_choice") as [c|] eqn:G; [|discriminate]. apply (tidy_get m H) in G. destruct c as [| | | |s| |o]; try discriminate.
  - intros [= <- _]. apply fits_str. destruct (String.eqb s "any"); [reflexivity|]. inversion G; assumption.
  - destruct (String.eqb (str0 o "type") "tool").
    + destruct (str o "name") as [name|] eqn:Es; cbn [mbind option_bind]; [|discriminate]. intros [= <- _]. apply (tidy_str o G) in Es. fit; reflexivity.
    + destruct (String.eqb (str0 o "type") "any"); [intros [= <- _]; apply fits_str; reflexivity|]. destruct (_ || _)%bool; [|discriminate].
      intros [= <- _]. apply fits_str, (tidy_str0 o G "type").
Qed.

Lemma chat_fits (d : nat) (m : gomap) : Tidy (AObj m) -> (forall k v, String.eqb k "thinking" = false -> get m k = Some v -> Fits fmt (4 + d) v) ->
  FitsIn fmt (5 + d) (mess_to_chat_request fmt m).
Proof.
  intros Ht Hg. assert (forall k v, String.eqb k "thinking" = false -> get m k = Some v -> Fits fmt (5 + d) v) as Hg5 by (intros k v Hk G; apply (fits_mono fmt (4 + d)); [lia|exact (Hg k v Hk G)]).
  assert (forall k v, String.eqb k "thinking" = false -> non_nil (get m k) = Some v -> Fits fmt (5 + d) v) as Hn.
  { intros k v Hk E. unfold non_nil in E. destruct (get m k) as [x|] eqn:G; [|discriminate]. pose proof (Hg5 k x Hk G) as Hx. destruct x; try discriminate; injection E as <-; exact Hx. }
  unfold mess_to_chat_request. set (ms := (_ ++ default [] _)).
  assert (Forall (Fits fmt 4) ms) as Hms.
  { apply Forall_app. split.
    - destruct (anthropicSystem m) as [s|] eqn:Es; [|constructor]. apply (system_valid m s Ht) in Es. apply List.Forall_cons; [|constructor]. unfold message_value. fit. reflexivity.
    - unfold messMessagesToChat. destruct (arr m "messages") as [l|] eqn:Ea; [|constructor]. cbn [mbind option_bind default from_option]. unfold id.
      unfold arr in Ea. destruct (get m "messages") as [[]|] eqn:G; try discriminate. injection Ea as ->. apply Hg in G; [|reflexivity]. apply elements_fit in G as (d' & _ & G).
      induction G as [|raw l Hraw Hl IH]; [constructor|]. cbn. apply Forall_app. split; [exact (message_chat_fits d' raw Hraw)|exact IH]. }
  assert (forall b, FitsIn fmt (5 + d) b -> FitsIn fmt (5 + d) (match messToolChoiceToChat m with
      | Some (choice, parallel) => put "parallel_tool_calls" (ABool <$> parallel) (mset "tool_choice" choice b) | None => b end)) as Hc.
  { intros b Hb. destruct (messToolChoiceToChat m) as [[choice parallel]|] eqn:Ec; [|exact Hb]. apply fits_in_put; [apply fits_in_mset; [exact Hb|exact (chat_choice_fits m choice parallel _ Ht Ec)|reflexivity]| |reflexivity].
    intros v E. destruct parallel; [|discriminate]. injection E as <-. apply fits_bool. }
  apply Hc. apply fits_in_put; [| |reflexivity].
  2:{ intros v E. unfold arr in E. destruct (get m "tools") as [[]|] eqn:G; try discriminate. injection E as <-. apply chat_tools_fit, (Hg "tools"); [reflexivity|exact G]. }
  assert (FitsIn fmt (5 + d) (put "stop" (non_nil (get m "stop_sequences")) (put "max_tokens" (non_nil (get m "max_tokens")) (pass [] m passed)))) as Hb.
  { apply fits_in_put; [apply fits_in_put|intros v; apply Hn; reflexivity|reflexivity]; [|intros v; apply Hn; reflexivity|reflexivity].
    apply fits_in_pass; [|repeat constructor|apply fits_in_nil]. intros k v Hk. apply Hg5. unfold passed in Hk. rewrite !elem_of_cons in Hk.
    destruct Hk as [->|[->|[->|[->|[->|Hk]]]]]; try reflexivity. inversion Hk. }
  destruct ms as [|x ms]; [exact Hb|]. apply fits_in_mset; [exact Hb| |reflexivity]. change (5 + d)%nat with (S (4 + d)). apply fits_arr. eapply Forall_impl; [exact Hms|]. intros y. apply fits_mono. lia.
Qed.
End ToChat.

(** ** What arrives *)

Definition is_tool (p : Piece) : bool := (is_call p || is_result p)%bool.
Definition concat_text (l : list string) : string := joinStrings l "".
Definition some_text (s : string) : list string := if String.eqb s "" then [] else [s].

(** The texts of the user: one per message, its parts on lines of their own. *)
Definition user_texts (req : gomap) : list string :=
  match get req "input" with
  | Some (AStr s) => some_text s
  | _ => flat_map (fun im => some_text (joinStrings (texts "user" (resp_item im)) newline)) (resp_items req)
  end.

Lemma concat_app (a b : list string) : concat_text (a ++ b) = (concat_text a +:+ concat_text b)%stdpp.
Proof.
  unfold concat_text. assert (forall x l, joinStrings (x :: l) "" = (x +:+ joinStrings l "")%stdpp) as Hc.
  { intros x [|y l]; [symmetry; apply string_app_nil|reflexivity]. }
  induction a as [|x a IH]; [reflexivity|]. cbn [app]. rewrite !Hc, IH, string_app_assoc. reflexivity.
Qed.

Lemma texts_app (role : string) (a b : list Piece) : texts role (a ++ b) = texts role a ++ texts role b.
Proof. apply omap_app. Qed.

Lemma texts_only (role : string) (f : Piece -> bool) (ps : list Piece) : (forall p, f p = true -> is_text p = false) -> texts role (only f ps) = [].
Proof. intros Hf. unfold texts, only. induction ps as [|p ps IH]; [reflexivity|]. cbn. destruct (f p) eqn:E; [|exact IH]. specialize (Hf p E). destruct p; try discriminate; exact IH. Qed.

Lemma texts_non_empty (role r s : string) : texts role (non_empty (PText r) s) = if String.eqb r role then some_text s else [].
Proof. unfold non_empty, some_text. destruct (String.eqb s ""); cbn; destruct (String.eqb r role); reflexivity. Qed.

Lemma texts_thought (role s : string) : texts role (non_empty PThinking s) = [].
Proof. unfold non_empty. destruct (String.eqb s ""); reflexivity. Qed.

Lemma tools_non_empty (f : string -> Piece) (s : string) : (forall s, is_tool (f s) = false) -> only is_tool (non_empty f s) = [].
Proof. intros Hf. unfold non_empty, only. destruct (String.eqb s ""); cbn; [|rewrite Hf]; reflexivity. Qed.

Lemma only_only (f g : Piece -> bool) (ps : list Piece) : (forall p, f p = true -> g p = true) -> only g (only f ps) = only f ps.
Proof. intros H. unfold only. induction ps as [|p ps IH]; [reflexivity|]. cbn. destruct (f p) eqn:E; [|exact IH]. cbn. rewrite (H p E), IH. reflexivity. Qed.

Lemma concat_some (s : string) : concat_text (some_text s) = s.
Proof. unfold some_text. destruct (String.eqb_spec s "") as [->|]; reflexivity. Qed.

(** The three readings of a message as it is retold. *)
Lemma retold_tools (role : string) (ps : list Piece) : only is_tool (merged role ps) = if String.eqb role "user" then only is_result ps else only is_call ps.
Proof.
  unfold merged. destruct (String.eqb role "user"); rewrite !only_app, !tools_non_empty by reflexivity; cbn [app]; rewrite ?app_nil_r; apply only_only; intros []; (reflexivity || discriminate).
Qed.

Lemma retold_texts (role who : string) (ps : list Piece) : texts who (merged role ps) =
  if String.eqb role who then some_text (joinStrings (texts role ps) (if String.eqb role "user" then newline else "")) else [].
Proof.
  unfold merged. destruct (String.eqb role "user"); rewrite !texts_app, ?texts_thought, texts_non_empty, texts_only by (intros []; (reflexivity || discriminate));
    destruct (String.eqb role who); rewrite ?app_nil_r; reflexivity.
Qed.

(** The message an item goes to. *)
Definition item_role (im : gomap) : string :=
  if is_str im "type" "message" then str0 im "role" else if is_str im "type" "function_call_output" then "user" else "assistant".

Definition retold_item (im : gomap) : list Piece := merged (item_role im) (resp_item im).

(** The pieces of an item, by where it goes. *)
Definition fits_role (role : string) (p : Piece) : Prop :=
  match p with PText r _ => r = role | PThinking _ => True | PCall _ _ _ => role = "assistant" | PResult _ _ => role = "user" end.

Lemma item_pieces_role (im : gomap) : typed im = true -> Forall (fits_role (item_role im)) (resp_item im).
Proof.
  intros Ht. unfold item_role, resp_item. rewrite Ht, orb_false_r. destruct (is_str im "type" "message") eqn:E1.
  - destruct (speaks _); [|constructor]. unfold resp_content. destruct (get im "content") as [[| | | |c|c|]|]; try constructor; [reflexivity|constructor|].
    induction c as [|p c IH]; [constructor|]. cbn [flat_map]. apply Forall_app. split; [|exact IH]. destruct p as [| | | | | |pm]; try constructor. cbn [resp_part].
    destruct (str pm "text"); [|constructor]. destruct (_ || _)%bool; [repeat constructor|]. destruct (is_str pm "type" "reasoning"); repeat constructor.
  - destruct (is_str im "type" "function_call") eqn:E2.
    + unfold is_str in *. destruct (str im "type"); [|discriminate]. apply String.eqb_eq in E2 as ->. repeat constructor.
    + destruct (is_str im "type" "reasoning").
      * apply (proj2 (Forall_fmap _ _ _)), Forall_forall. intros x _. exact I.
      * destruct (is_str im "type" "function_call_output"); repeat constructor.
Qed.

Lemma item_retold (item : any) : forallb typed (objects [item]) = true -> flat_map retold_message (input_step ([], None) item).1 = on_objects retold_item item.
Proof.
  intros Ht. pose proof (item_pieces item Ht) as Hp. destruct item as [| | | | | |im]; try reflexivity. cbn in Ht. rewrite andb_true_r in Ht. cbn [on_objects] in *. unfold retold_item, item_role.
  assert (forall role blocks, speaks role = true -> flat_map mess_message [message_value role (AArr blocks)] = resp_item im ->
    flat_map retold_message [message_value role (AArr blocks)] = merged role (resp_item im)) as Hone.
  { intros role blocks Hs <-. cbn [flat_map]. rewrite !app_nil_r. unfold retold_message. change (str0 (message_value role (AArr blocks)) "role") with role. rewrite Hs. reflexivity. }
  assert (forall role, merged role [] = []) as Hnil by (intros role; unfold merged; destruct (String.eqb role "user"); reflexivity).
  cbn [input_step] in *. destruct (is_str im "type" "message") eqn:E1.
  - rewrite speaks_cases in *. destruct (speaks (str0 im "role")) eqn:Es; cbn [negb] in *; [|rewrite <- Hp; symmetry; apply Hnil].
    destruct (item_blocks im) as [|b bl]; [rewrite <- Hp; symmetry; apply Hnil|]. exact (Hone _ _ Es Hp).
  - assert (forall a b, String.eqb a b = false -> is_str im "type" a = true -> is_str im "type" b = false) as Hx.
    { intros a b Hab Ha. unfold is_str in *. destruct (str im "type"); [|reflexivity]. apply String.eqb_eq in Ha. subst. exact Hab. }
    destruct (is_str im "type" "function_call") eqn:E2; [rewrite (Hx "function_call" "function_call_output" eq_refl E2); exact (Hone "assistant" _ eq_refl Hp)|].
    destruct (is_str im "type" "reasoning") eqn:E3; [rewrite (Hx "reasoning" "function_call_output" eq_refl E3); exact (Hone "assistant" _ eq_refl Hp)|].
    destruct (is_str im "type" "function_call_output"); [exact (Hone "user" _ eq_refl Hp)|]. rewrite <- Hp. symmetry. apply Hnil.
Qed.

(** A reading of what is retold that is a sum over the items. *)
Section Sum.
Context {A : Type} (F : list Piece -> list A).
Context (F_app : forall a b, F (a ++ b) = F a ++ F b).
Context (F_assistant : forall a b, F (merged "assistant" (a ++ b)) = F (merged "assistant" a) ++ F (merged "assistant" b)).

Lemma F_nil : F [] = [].
Proof. pose proof (F_app [] []) as H. apply (f_equal (@List.length A)) in H. rewrite length_app in H. cbn [app] in H. destruct (F []); [reflexivity|cbn in H; lia]. Qed.

Lemma F_flat {B : Type} (f : B -> list Piece) (l : list B) : F (flat_map f l) = flat_map (fun b => F (f b)) l.
Proof. induction l as [|b l IH]; [exact F_nil|]. cbn. rewrite F_app, IH. reflexivity. Qed.

Lemma retold_sum (input : list any) : forallb typed (objects input) = true ->
  F (flat_map retold_message (fold_left input_step input ([], None)).1) = flat_map (fun im => F (retold_item im)) (objects input).
Proof.
  intros Ht. rewrite F_flat, (input_reads (fun mm => F (retold_message mm))).
  - cbn [fst flat_map app]. change (flat_map _ []) with (@nil A). cbn [app]. rewrite objects_map. induction input as [|item input IH]; [reflexivity|].
    rewrite typed_items in Ht. apply andb_prop in Ht as [H1 H2]. cbn [flat_map]. rewrite IH by exact H2. f_equal. rewrite <- F_flat, item_retold by exact H1.
    destruct item; try exact F_nil. reflexivity.
  - intros l blocks. unfold retold_message. change (str0 (message_value "assistant" _) "role") with "assistant". change (speaks "assistant") with true. cbv iota. rewrite mess_additive. apply F_assistant.
  - intros i; discriminate.
Qed.
End Sum.

Lemma only_same (f g : Piece -> bool) (ps : list Piece) : Forall (fun p => f p = g p) ps -> only f ps = only g ps.
Proof. unfold only. induction 1 as [|p ps E _ IH]; [reflexivity|]. cbn. rewrite E, IH. reflexivity. Qed.

Lemma texts_none (role who : string) (ps : list Piece) : role <> who -> Forall (fits_role role) ps -> texts who ps = [].
Proof.
  intros Hne. unfold texts. induction 1 as [|p ps Hp _ IH]; [reflexivity|]. cbn. destruct p as [r t|t|id name v|id t]; cbn; try exact IH. cbn in Hp. subst r.
  destruct (String.eqb_spec role who); [contradiction|exact IH].
Qed.

Lemma item_tools (im : gomap) : typed im = true -> only is_tool (retold_item im) = only is_tool (resp_item im).
Proof.
  intros Ht. pose proof (item_pieces_role im Ht) as Hr. unfold retold_item. rewrite retold_tools. destruct (String.eqb_spec (item_role im) "user") as [E|Hne]; apply only_same;
    (eapply Forall_impl; [exact Hr|]); intros [r t|t|id name v|id t]; cbn; try reflexivity; congruence.
Qed.

Lemma item_texts (who : string) (im : gomap) : typed im = true ->
  texts who (retold_item im) = some_text (joinStrings (texts who (resp_item im)) (if String.eqb who "user" then newline else "")).
Proof.
  intros Ht. unfold retold_item. rewrite retold_texts. destruct (String.eqb_spec (item_role im) who) as [->|Hne]; [reflexivity|].
  rewrite (texts_none _ _ _ Hne (item_pieces_role im Ht)). reflexivity.
Qed.

Lemma thoughts_app (a b : list Piece) : thoughts (a ++ b) = thoughts a ++ thoughts b.
Proof. apply omap_app. Qed.

Lemma retold_thoughts (role : string) (ps : list Piece) : thoughts (merged role ps) = if String.eqb role "user" then [] else some_text (concat_text (thoughts ps)).
Proof.
  assert (forall f ps, (forall p, f p = true -> is_thinking p = false) -> thoughts (only f ps) = []) as Ho.
  { intros f l Hf. unfold thoughts, only. induction l as [|p l IH]; [reflexivity|]. cbn. destruct (f p) eqn:E; [|exact IH]. specialize (Hf p E). destruct p; try discriminate; exact IH. }
  assert (forall r s, thoughts (non_empty (PText r) s) = []) as Ht by (intros r s; unfold non_empty; destruct (String.eqb s ""); reflexivity).
  unfold merged. destruct (String.eqb role "user"); rewrite !thoughts_app, Ht, Ho by (intros []; (reflexivity || discriminate)); [reflexivity|].
  rewrite app_nil_r. unfold non_empty, some_text, concat_text. destruct (String.eqb _ ""); reflexivity.
Qed.

(** The thoughts of the assistant. *)
Definition assistant_thoughts (req : gomap) : list string :=
  flat_map (fun im => if String.eqb (item_role im) "user" then [] else thoughts (resp_item im)) (resp_items req).

Lemma bs_app (a b : string) : bs (a +:+ b)%stdpp = bs a ++ bs b.
Proof. induction a as [|c a IH]; [reflexivity|]. change (c :: bs (a +:+ b)%stdpp = c :: (bs a ++ bs b)). f_equal. exact IH. Qed.

Lemma bs_inj (a b : string) : bs a = bs b -> a = b.
Proof. intros H. rewrite <- (string_of_list_ascii_of_string a), <- (string_of_list_ascii_of_string b). unfold bs in H. congruence. Qed.

Definition chars (l : list string) : bytes := bs (concat_text l).

Lemma chars_app (a b : list string) : chars (a ++ b) = chars a ++ chars b.
Proof. unfold chars. rewrite concat_app, bs_app. reflexivity. Qed.

Lemma chars_flat {B : Type} (f : B -> list string) (l : list B) : chars (flat_map f l) = flat_map (fun b => chars (f b)) l.
Proof. induction l as [|b l IH]; [reflexivity|]. cbn [flat_map]. rewrite chars_app, IH. reflexivity. Qed.

Lemma chars_some (s : string) : chars (some_text s) = bs s.
Proof. unfold chars. rewrite concat_some. reflexivity. Qed.

Lemma flat_map_ext_in {A B : Type} (f g : A -> list B) (P : A -> bool) (l : list A) : (forall a, P a = true -> f a = g a) -> forallb P l = true -> flat_map f l = flat_map g l.
Proof. intros H. induction l as [|a l IH]; [reflexivity|]. cbn. intros Hp. apply andb_prop in Hp as [Ha Hl]. rewrite (H a Ha), IH by exact Hl. reflexivity. Qed.

Lemma retold_converted (req : gomap) : forallb typed (resp_items req) = true ->
  only is_tool (retold (resp_to_mess_request req)) = only is_tool (resp_pieces req) /\
  texts "user" (retold (resp_to_mess_request req)) = user_texts req /\
  chars (texts "assistant" (retold (resp_to_mess_request req))) = chars (texts "assistant" (resp_pieces req)) /\
  chars (thoughts (retold (resp_to_mess_request req))) = chars (assistant_thoughts req).
Proof.
  unfold retold, resp_pieces, user_texts, assistant_thoughts, resp_items. rewrite messages_converted, arr_get. destruct (get req "input") as [[| | | |s|input|]|]; intros Ht; try (repeat split; reflexivity).
  { cbn [flat_map default from_option app]. rewrite app_nil_r. change (retold_message _) with (merged "user" [PText "user" s]). rewrite retold_tools, !retold_texts, retold_thoughts. repeat split. }
  change (forallb typed (objects input) = true) in Ht. change (objects (default [] (Some input))) with (objects input). repeat split.
  - rewrite (retold_sum (only is_tool)); [|apply only_app|intros a b; rewrite !retold_tools; apply only_app|exact Ht]. rewrite (flat_map_ext_in _ _ _ _ item_tools Ht).
    symmetry. apply F_flat, only_app.
  - rewrite (retold_sum (texts "user")); [|apply texts_app|intros a b; rewrite !retold_texts; reflexivity|exact Ht]. apply (flat_map_ext_in _ _ typed); [|exact Ht]. intros im Hi. exact (item_texts "user" im Hi).
  - rewrite (retold_sum (fun ps => chars (texts "assistant" ps))); [|intros a b; rewrite texts_app; apply chars_app| |exact Ht].
    + rewrite (F_flat (fun ps => chars (texts "assistant" ps))) by (intros a b; rewrite texts_app; apply chars_app).
      apply (flat_map_ext_in _ _ typed); [|exact Ht]. intros im Hi. rewrite (item_texts "assistant" im Hi). apply chars_some.
    + intros a b. rewrite !retold_texts. change (String.eqb "assistant" "assistant") with true. cbv iota. change (String.eqb "assistant" "user") with false. cbv iota.
      rewrite !chars_some, <- bs_app, texts_app. f_equal. apply concat_app.
  - rewrite (retold_sum (fun ps => chars (thoughts ps))); [|intros a b; rewrite thoughts_app; apply chars_app| |exact Ht].
    + rewrite chars_flat. apply (flat_map_ext_in _ _ typed); [|exact Ht]. intros im Hi. unfold retold_item. rewrite retold_thoughts. destruct (String.eqb (item_role im) "user"); [reflexivity|apply chars_some].
    + intros a b. rewrite !retold_thoughts. change (String.eqb "assistant" "user") with false. cbv iota. rewrite !chars_some, <- bs_app, thoughts_app. f_equal. apply concat_app.
Qed.

(** ** End to end *)

Lemma tidy_again (v : any) : Tidy v -> Tidy (reread v).
Proof.
  induction v as [|b|f|n|s|l IH|m IH] using any_ind'; intros H; inversion H; subst; cbn [reread]; constructor.
  - apply valid_twice.
  - apply Forall_fmap. rewrite Forall_forall in *. intros x Hx. apply IH; auto.
  - rewrite keys_again. assumption.
  - rewrite by_key_map. apply Forall_fmap. unfold compose. cbn [snd]. rewrite sorted_perm. rewrite Forall_forall in *. intros x Hx. apply IH; auto.
Qed.

Lemma pieces_again (m : gomap) : Tidy (AObj m) -> mess_pieces (by_key reread m) = map reread_piece (mess_pieces m).
Proof.
  intros H. unfold mess_pieces. destruct (messages_again m H) as [-> Hm]. apply (flat_map_again (by_key reread) _ reread_piece (fun mm => Tidy (AObj mm))); [|exact Hm].
  intros mm Hmm. apply (message_again mm Hmm).
Qed.

Lemma reread_pieces (ps : list Piece) : map reread_piece (map reread_piece ps) = map reread_piece ps.
Proof. rewrite map_map. apply map_ext. intros []; cbn; rewrite ?reread_twice; reflexivity. Qed.

Lemma get_pass_in (src : gomap) (keys : list string) (k : string) : forall dst, get (pass dst src keys) k =
  if existsb (String.eqb k) keys then match non_nil (get src k) with Some v => Some v | None => get dst k end else get dst k.
Proof.
  unfold pass. induction keys as [|j keys IH]; intros dst; [reflexivity|]. cbn [fold_left existsb]. rewrite IH.
  assert (get (match get src j with Some ANil | None => dst | Some v => mset j v dst end) k = if String.eqb k j then match non_nil (get src k) with Some v => Some v | None => get dst k end else get dst k) as ->.
  { destruct (String.eqb_spec k j) as [->|Hne]; [destruct (get src j) as [[]|]; cbn [non_nil]; rewrite ?get_mset, ?String.eqb_refl; reflexivity|].
    destruct (get src j) as [[]|]; rewrite ?get_mset; try reflexivity; (destruct (String.eqb_spec k j); [contradiction|reflexivity]). }
  destruct (String.eqb k j); cbn [orb]; [|reflexivity]. destruct (existsb (String.eqb k) keys), (non_nil (get src k)); reflexivity.
Qed.

Lemma non_nil_again (o : option any) : non_nil (reread <$> o) = reread <$> non_nil o.
Proof. destruct o as [[]|]; reflexivity. Qed.

Lemma non_nil_twice (o : option any) : non_nil (non_nil o) = non_nil o.
Proof. destruct o as [[]|]; reflexivity. Qed.

Lemma mess_passed (req : gomap) (k : string) : existsb (String.eqb k) passed = true -> get (resp_to_mess_request req) k = non_nil (get req k).
Proof.
  intros Hk. assert (k ∈ passed) as Hin by (apply existsb_exists in Hk as (x & Hx & E); apply String.eqb_eq in E as ->; apply list_elem_of_In; exact Hx).
  unfold passed in Hin. rewrite !elem_of_cons in Hin. unfold resp_to_mess_request.
  assert (forall j, String.eqb k j = false -> forall o, get (match respInputToMessMessages req with Some msgs => mset "messages" (slice_value msgs) (put j o []) | None =>
    put "messages" (s ← str req "input"; Some (AArr [AObj (message_value "user" (AStr s))])) (put j o []) end) k = None) as Hnone.
  { intros j Hj o. assert (String.eqb k "messages" = false) as Hm by (destruct Hin as [->|[->|[->|[->|[->|Hin]]]]]; try reflexivity; inversion Hin).
    destruct (respInputToMessMessages req); rewrite ?get_mset, ?Hm, ?get_put_other by assumption; reflexivity. }
  destruct Hin as [->|[->|[->|[->|[->|Hin]]]]]; try (rewrite !get_put_other by reflexivity; rewrite get_pass_in; cbn [passed existsb String.eqb Ascii.eqb Bool.eqb orb];
    rewrite (Hnone "system") by reflexivity; destruct (non_nil _); reflexivity). inversion Hin.
Qed.

Lemma chat_passed (fmt : spec_float -> bytes) (req : gomap) (k : string) : existsb (String.eqb k) passed = true -> get (mess_to_chat_request fmt req) k = non_nil (get req k).
Proof.
  intros Hk. assert (k ∈ passed) as Hin by (apply existsb_exists in Hk as (x & Hx & E); apply String.eqb_eq in E as ->; apply list_elem_of_In; exact Hx).
  unfold passed in Hin. rewrite !elem_of_cons in Hin. unfold mess_to_chat_request. set (ms := _ ++ _).
  destruct Hin as [->|[->|[->|[->|[->|Hin]]]]]; try (destruct (messToolChoiceToChat req) as [[choice parallel]|], ms; lookup; rewrite get_pass_in;
    cbn [passed existsb String.eqb Ascii.eqb Bool.eqb orb get]; destruct (non_nil _); reflexivity). inversion Hin.
Qed.

Lemma decoded_fits (fmt : spec_float -> bytes) (body : bytes) (req : gomap) (e : nat) : decodeObj body = Some req -> Writable fmt (S e) (AObj req) -> FitsIn fmt e req.
Proof.
  intros Hd Hw. apply fits_obj. constructor; [exact Hw|constructor; exact (decodeObj_strings body req Hd)|]. unfold decodeObj in Hd.
  destruct (Unmarshal body) as [v|] eqn:E; [|discriminate]. apply unmarshal_plain in E. destruct v; try discriminate; injection Hd as <-; [repeat constructor|exact E].
Qed.

Lemma calls_plain (req : gomap) : Forall (fun p => match p with PCall _ _ v => Plain v | _ => True end) (resp_pieces req).
Proof.
  assert (forall role part, Forall (fun p => match p with PCall _ _ v => Plain v | _ => True end) (resp_part role part)) as Hp.
  { intros role [| | | | | |pm]; try constructor. cbn [resp_part]. destruct (str pm "text"); [|constructor]. destruct (_ || _)%bool; [repeat constructor|]. destruct (is_str pm "type" "reasoning"); repeat constructor. }
  assert (forall {X} (f : X -> list Piece) (l : list X), (forall x, Forall (fun p => match p with PCall _ _ v => Plain v | _ => True end) (f x)) ->
    Forall (fun p => match p with PCall _ _ v => Plain v | _ => True end) (flat_map f l)) as Hf.
  { intros X f l H. induction l as [|x l IH]; [constructor|]. cbn. apply Forall_app. split; [apply H|exact IH]. }
  unfold resp_pieces. destruct (get req "input") as [[| | | |s|items|]|]; repeat constructor. apply Hf. intros im. unfold resp_item. destruct (_ || _)%bool.
  - destruct (speaks _); [|constructor]. unfold resp_content. destruct (get im "content") as [[| | | |c|c|]|]; repeat constructor. apply Hf, Hp.
  - destruct (is_str im "type" "function_call"); [constructor; [exact (proj1 (parsed _))|constructor]|]. destruct (is_str im "type" "reasoning").
    + apply (proj2 (Forall_fmap _ _ _)), Forall_forall. intros x _. exact I.
    + destruct (is_str im "type" "function_call_output"); repeat constructor.
Qed.

(** The Messages request in between, as the second converter reads it. *)
Lemma middle_request (fmt : spec_float -> bytes) (body : bytes) (req : gomap) (e : nat) : decodeObj body = Some req -> Writable fmt (S e) (AObj req) ->
  Forall (call_written fmt e) (resp_pieces req) -> (Z.of_nat e + 6 <= maxNestingDepth)%Z ->
  exists m, decodeObj (Marshal fmt (AObj (resp_to_mess_request req))) = Some m /\ m = by_key reread (resp_to_mess_request req) /\
    Tidy (AObj (resp_to_mess_request req)) /\ Tidy (AObj m) /\ forall k v, String.eqb k "thinking" = false -> get m k = Some v -> Fits fmt (4 + e) v.
Proof.
  intros Hd Hw Hc Hlim. destruct (converted_fits fmt e req (decoded_fits fmt body req e Hd Hw) Hc) as (m0 & thinking & Em & Hm0 & Hth).
  pose proof (proj1 (fits_obj fmt _ m0) Hm0) as [W0 S0 _]. assert (Strings (AObj (put "thinking" thinking m0)) /\ Writable fmt (5 + e) (AObj (put "thinking" thinking m0))) as [Hs Hwr].
  { destruct Hth as [->|(b & -> & Hb)]; [split; assumption|]. cbn [put]. inversion S0; subst. split; [constructor; apply mset_strings; [|assumption]|].
    - constructor. repeat (apply List.Forall_cons; [cbn [snd]; constructor; reflexivity|]). constructor.
    - apply written_mset; [exact W0| |reflexivity]. change (4 + e)%nat with (S (3 + e)). constructor; [keys|lits|].
      apply List.Forall_cons; [constructor|]. apply List.Forall_cons; [constructor; exact Hb|constructor]. }
  assert (Tidy (AObj (resp_to_mess_request req))) as Ht by (rewrite Em; exact (written_tidy fmt _ _ Hwr Hs)).
  exists (by_key reread (resp_to_mess_request req)). split; [|split; [reflexivity|split; [exact Ht|split; [exact (tidy_again _ Ht)|]]]].
  - unfold decodeObj. rewrite (marshal_unmarshal fmt (AObj (resp_to_mess_request req)) (5 + e)) by (first [lia | rewrite Em; exact Hwr]). reflexivity.
  - intros k v Hk G. rewrite (get_again _ Ht), Em, get_put_other in G by exact Hk. destruct (get m0 k) as [x|] eqn:G0; [|discriminate]. injection G as <-.
    exact (fits_again fmt _ _ (fits_get fmt _ _ _ _ Hm0 G0)).
Qed.

(** C20: A Responses request reaches a Chat provider through two converters.  Every
    item of the input has a type (a message without one is dropped,
    [untyped_message_dropped]) and the request and the arguments of its calls can
    be written as JSON within the nesting limit.  Then the request on the wire can be read; it makes the same tool calls and reports the
    same results, with the same identifiers and in the same order, has one message
    for every message of the user, and the texts and the thoughts of the assistant;
    model, stream and sampling parameters are those of the client. *)
Theorem resp_to_chat_dialogue (fmt : spec_float -> bytes) (body : bytes) (req : gomap) (e : nat) :
  decodeObj body = Some req -> Writable fmt (S e) (AObj req) -> forallb typed (resp_items req) = true ->
  Forall (call_written fmt e) (resp_pieces req) -> (Z.of_nat e + 6 <= maxNestingDepth)%Z ->
  exists out chat, respToChatRequest fmt body = Some out /\ decodeObj out = Some chat /\
    only is_tool (chat_pieces chat) = map reread_piece (only is_tool (resp_pieces req)) /\
    texts "user" (chat_pieces chat) = user_texts req /\
    chars (texts "assistant" (chat_pieces chat)) = chars (texts "assistant" (resp_pieces req)) /\
    chars (thoughts (chat_pieces chat)) = chars (assistant_thoughts req) /\
    forall k, existsb (String.eqb k) passed = true -> get chat k = reread <$> non_nil (get req k).
Proof.
  intros Hd Hw Hty Hc Hlim. destruct (middle_request fmt body req e Hd Hw Hc Hlim) as (m & Dm & Em & Ht & Htm & Hg).
  pose proof (chat_fits fmt e m Htm Hg) as HC. pose proof (proj1 (fits_obj fmt _ _) HC) as HF. pose proof (fits_tidy fmt _ _ HF) as HT. set (C := mess_to_chat_request fmt m) in *.
  exists (Marshal fmt (AObj C)), (by_key reread C). split; [unfold respToChatRequest, respToMessRequest, messToChatRequest; rewrite Hd; cbn [mbind option_bind]; rewrite Dm; reflexivity|].
  split; [unfold decodeObj; rewrite (marshal_unmarshal fmt (AObj C) (6 + e)) by (first [lia | exact (ft_written _ _ _ HF)]); reflexivity|].
  assert (chat_pieces (by_key reread C) = map reread_piece (retold (resp_to_mess_request req))) as Ep.
  { rewrite chat_pieces_again by exact HT. unfold C. rewrite mess_to_chat_dialogue.
    - rewrite Em, retold_again by exact Ht. apply reread_pieces.
    - rewrite Em, pieces_again, (resp_to_mess_dialogue req Hty) by exact Ht. apply (proj2 (Forall_fmap _ _ _)). pose proof (calls_plain req) as Hp. rewrite Forall_forall in *. intros p Hin. specialize (Hp p Hin). specialize (Hc p Hin).
      destruct p; try exact I. exists e. split; [exact (writable_again fmt _ e Hp Hc)|lia]. }
  rewrite Ep. destruct (retold_converted req Hty) as (H1 & H2 & H3 & H4).
  split; [rewrite only_again, H1 by (intros []; reflexivity); reflexivity|]. rewrite !texts_again, thoughts_again. split; [exact H2|]. split; [exact H3|]. split; [exact H4|].
  intros k Hk. rewrite (get_again C HT). unfold C. rewrite chat_passed, Em, (get_again _ Ht), mess_passed, non_nil_again, non_nil_twice by exact Hk.
  destruct (non_nil (get req k)) as [v|]; [|reflexivity]. cbn. rewrite reread_twice. reflexivity.
Qed.

Definition demo_body : bytes := jt
  "{'model':'m','stream':true,'instructions':'be brief','input':[{'type':'message','role':'user','content':[{'type':'input_text','text':'a'},{'type':'input_text','text':'b'}]},
    {'type':'reasoning','summary':[{'text':'hm'}]},{'type':'function_call','call_id':'c1','id':'fc','name':'f','arguments':'{\'y\':[],\'x\':{}}'},
    {'type':'function_call_output','call_id':'c1','output':'ok'},{'type':'message','role':'assistant','content':'done'}]}".

Definition demo_request : gomap := default [] (decodeObj demo_body).

Lemma resp_to_chat_dialogue_witness : user_texts demo_request = [("a" +:+ newline +:+ "b")%stdpp] /\
  exists out chat, respToChatRequest no_float demo_body = Some out /\ decodeObj out = Some chat /\
    only is_tool (chat_pieces chat) = map reread_piece (only is_tool (resp_pieces demo_request)) /\
    texts "user" (chat_pieces chat) = user_texts demo_request /\
    chars (texts "assistant" (chat_pieces chat)) = chars (texts "assistant" (resp_pieces demo_request)) /\
    chars (thoughts (chat_pieces chat)) = chars (assistant_thoughts demo_request) /\
    forall k, existsb (String.eqb k) passed = true -> get chat k = reread <$> non_nil (get demo_request k).
Proof.
  split; [vm_compute; reflexivity|]. apply (resp_to_chat_dialogue no_float demo_body demo_request 5).
  - vm_compute. reflexivity.
  - let r := eval vm_compute in demo_request in change demo_request with r.
    repeat first [ apply W_nil | apply W_bool | apply W_str | apply W_arr; repeat apply List.Forall_cons; try apply List.Forall_nil
      | apply W_obj; [keys|lits|repeat (apply List.Forall_cons; [cbn [snd]|]); try apply List.Forall_nil] ].
  - vm_compute. reflexivity.
  - let r := eval vm_compute in (resp_pieces demo_request) in change (resp_pieces demo_request) with r.
    repeat (apply List.Forall_cons; [cbn [call_written]; try exact I|]); try apply List.Forall_nil.
    repeat first [ apply W_nil | apply W_arr; repeat apply List.Forall_cons; try apply List.Forall_nil
      | apply W_obj; [keys|lits|repeat (apply List.Forall_cons; [cbn [snd]|]); try apply List.Forall_nil] ].
  - vm_compute. discriminate.
Defined.

Example demo_chat : option_map to_string (respToChatRequest no_float demo_body) = Some (to_string (jt (
  "{'messages':[{'content':'be brief','role':'system'},{'content':'a\nb','role':'user'}," ++
  "{'content':'','reasoning_content':'hm','role':'assistant','tool_calls':[{'function':{'arguments':'{\'x\':{},\'y\':[]}','name':'f'},'id':'c1','type':'function'}]}," ++
  "{'content':'ok','role':'tool','tool_call_id':'c1'},{'content':'done','role':'assistant'}],'model':'m','stream':true}")%string)).
Proof. vm_compute. reflexivity. Qed.
