(* ===== verification/Answers.v ===== *)
(** * Chat answers for Responses clients, and failures

    [chatToRespResponse] of [chat_target.go] makes a Messages answer of a Chat
    answer, writes it, reads it again and makes a Responses answer of it: end to
    end on the bytes, what the Chat answer says is what the client is told.  And
    the detection of failures that arrive as successes ([protoconv.go]) is compared
    with a specification of what it looks at. *)

From Stdlib Require Import ZArith Lia List Bool String Ascii.
From Stdlib Require Import Floats.SpecFloat.
From stdpp Require Import base option list sets strings.
From S2P Require Import Prelude GoString JsonScan JsonText GoJson SseRelay Metering ProtoJson MarshalText Utf8Text ChatStream RespStream BodyRequest BodyResponse Dialogue Documents ChatResponses RespChat.
Import ListNotations.
Local Open Scope string_scope.
Local Open Scope list_scope.

(** ** What an answer says *)

(** The message of the first choice of a Chat answer. *)
Definition chat_texts (message : gomap) : list string :=
  match get message "content" with
  | Some (AStr content) => some_text content
  | Some (AArr parts) => omap (fun raw => part ← as_obj raw; if is_str part "type" "text" then str part "text" else None) parts
  | _ => []
  end.

Definition chat_answer (response : gomap) : list Piece :=
  let message := (chat_choice response).1 in
  match firstChatReasoning message with Some r => [PThinking r] | None => [] end ++ map (PText "assistant") (chat_texts message) ++
  omap chat_call_piece (default [] (arr message "tool_calls")).

(** The output of a Responses answer, read as items. *)
Definition output_pieces (response : gomap) : list Piece := flat_map resp_item (objects (default [] (arr response "output"))).

(** ** Chat to Messages *)

Lemma answer_blocks (response : gomap) : flat_map (mess_block "assistant") (chatMessageToMessBlocks (chat_choice response).1) = chat_answer response.
Proof.
  set (message := (chat_choice response).1). unfold chat_answer, chatMessageToMessBlocks. fold message.
  assert (forall ts, flat_map (mess_block "assistant") (map (text_value "text") ts) = map (PText "assistant") ts) as Ht by (induction ts as [|t ts IH]; [reflexivity|]; cbn; rewrite IH; reflexivity).
  assert (match get message "content" with
    | Some (AStr content) => if String.eqb content "" then [] else [text_value "text" content]
    | Some (AArr parts) => omap (fun raw => part ← as_obj raw; if is_str part "type" "text" then text_value "text" <$> str part "text" else None) parts
    | _ => [] end = map (text_value "text") (chat_texts message)) as ->.
  { unfold chat_texts, some_text. destruct (get message "content") as [[| | | |c|parts|]|]; try reflexivity; [destruct (String.eqb c ""); reflexivity|].
    induction parts as [|p parts IH]; [reflexivity|]. cbn. destruct p as [| | | | | |part]; cbn; try exact IH. destruct (is_str part "type" "text"); cbn; [|exact IH]. destruct (str part "text"); cbn; rewrite IH; reflexivity. }
  rewrite flat_map_app, app_assoc. f_equal.
  - destruct (firstChatReasoning message); cbn [flat_map app mess_block]; [|apply Ht]. f_equal. apply Ht.
  - induction (default [] (arr message "tool_calls")) as [|raw l IH]; [reflexivity|]. cbn. destruct raw as [| | | | | |call]; cbn; try exact IH. unfold chat_call_piece at 1. cbn.
    destruct (obj call "function"); cbn; [f_equal; exact IH|exact IH].
Qed.

(** ** Messages to Responses *)

Section Output.
Context (fmt : spec_float -> bytes).

Lemma output_call_read (bm : gomap) : resp_item (match output_call fmt bm with AObj m => m | _ => [] end) =
  [PCall (str0 bm "id") (str0 bm "name") (parseJSON (Some (AStr (marshalAny fmt (default ANil (get bm "input"))))))].
Proof.
  unfold output_call, resp_item.
  set (m := [("type", AStr "function_call"); _; _; _; _; _]).
  change (is_str m "type" "message" || negb (typed m))%bool with false. cbv iota. change (is_str m "type" "function_call") with true. cbv iota.
  change (str0 m "name") with (str0 bm "name"). change (get m "arguments") with (Some (AStr (marshalAny fmt (default ANil (get bm "input"))))).
  assert (toolCallID m = str0 bm "id") as ->; [|reflexivity].
  change ((if String.eqb (str0 bm "id") "" then str0 bm "id" else str0 bm "id") = str0 bm "id"). destruct (String.eqb _ _); reflexivity.
Qed.

Lemma content_output_read (id : string) (content : list any) : forall n, Forall (call_fits fmt) (flat_map (mess_block "assistant") content) ->
  flat_map (on_objects resp_item) (content_output fmt id n content).1.1 = only is_thinking (flat_map (mess_block "assistant") content) /\
  flat_map (resp_part "assistant") (content_output fmt id n content).1.2 = only is_text (flat_map (mess_block "assistant") content) /\
  flat_map (on_objects resp_item) (content_output fmt id n content).2 = map reread_piece (only is_call (flat_map (mess_block "assistant") content)).
Proof.
  induction content as [|b content IH]; intros n Hf; [repeat split|]. cbn [flat_map] in Hf. apply Forall_app in Hf as [Hb Hf].
  destruct b as [| | | | | |bm]; try exact (IH n Hf). cbn [content_output flat_map]. rewrite !only_app, map_app. revert Hb.
  pose proof (IH n Hf) as IH0. pose proof (IH (S n) Hf) as IH1. destruct (content_output fmt id n content) as [[out0 ts0] fcs0], (content_output fmt id (S n) content) as [[out1 ts1] fcs1].
  cbn [fst snd] in IH0, IH1. destruct IH0 as (A1 & A2 & A3), IH1 as (B1 & B2 & B3).
  assert (is_str bm "type" "text" = true -> is_str bm "type" "thinking" = false) as Hx.
  { unfold is_str. destruct (str bm "type"); [|discriminate]. intros E. apply String.eqb_eq in E as ->. reflexivity. }
  apply (block_cases "assistant" bm).
  - intros t Et Es _. rewrite (Hx Et), Et, Es. rewrite <- A1, <- A2, <- A3. repeat split.
  - intros t _ _ -> -> _. rewrite <- B1, <- B2, <- B3. repeat split.
  - intros -> -> ->. intros Hb. apply Forall_cons in Hb as [Hb _]. pose proof (arguments_of fmt _ _ _ Hb) as Ha. rewrite <- A1, <- A2, <- A3.
    split; [reflexivity|]. split; [reflexivity|]. cbn [snd only List.filter is_call map reread_piece flat_map on_objects]. rewrite <- Ha. f_equal.
    exact (output_call_read bm).
  - intros -> -> -> _ _. rewrite <- A1, <- A2, <- A3. repeat split.
  - intros H1 H2 -> _ _. rewrite <- A1, <- A2, <- A3. destruct (is_str bm "type" "thinking") eqn:E2.
    + rewrite H2 by reflexivity. cbn [fst snd]. rewrite A1, A2, A3. repeat split.
    + destruct (is_str bm "type" "text"); [rewrite H1 by reflexivity|]; repeat split.
Qed.

(** The pieces of a Messages answer as a Responses answer has them. *)
Lemma output_read (msg : gomap) : Forall (call_fits fmt) (flat_map (mess_block "assistant") (default [] (arr msg "content"))) ->
  output_pieces (mess_to_resp_response fmt msg) = let ps := flat_map (mess_block "assistant") (default [] (arr msg "content")) in
    only is_thinking ps ++ only is_text ps ++ map reread_piece (only is_call ps).
Proof.
  intros Hf. destruct (content_output_read (str0 msg "id") _ 0 Hf) as (H1 & H2 & H3). unfold output_pieces, mess_to_resp_response, messContentToRespOutput.
  destruct (content_output fmt (str0 msg "id") 0 (default [] (arr msg "content"))) as [[out ts] fcs]. cbn [fst snd] in *.
  change (objects (default [] (arr _ "output"))) with (objects (out ++ match ts with [] => [] | _ => [AObj [("id", AStr (str0 msg "id")); ("type", AStr "message"); ("status", AStr "completed");
    ("role", AStr "assistant"); ("content", AArr ts)]] end ++ fcs)).
  rewrite objects_map, !flat_map_app, H1, H3. cbv zeta. f_equal. f_equal. rewrite <- H2. destruct ts; [reflexivity|]. cbn [flat_map on_objects]. rewrite app_nil_r. reflexivity.
Qed.
End Output.

(** ** What was decoded is tidy *)

Lemma to_any_tidy (j : json) : forall v, to_any j = Some v -> Strings v -> Tidy v.
Proof.
  induction j as [| | |t|s|l IH|l IH] using json_ind'; intros v; cbn [to_any]; try (intros [= <-] _; constructor; fail).
  - destruct (convertNumber t); [intros [= <-] _; constructor|discriminate].
  - intros [= <-] H. inversion H; subst. constructor. assumption.
  - set (items := fix items (l : list json) : option (list any) := match l with [] => Some [] | j :: l => v ← to_any j; vs ← items l; Some (v :: vs) end).
    destruct (items l) as [vs|] eqn:E; [|discriminate]. intros [= <-] H. inversion H as [| | | | |? Hs|]; subst. constructor. clear H. revert vs E Hs.
    induction IH as [|j l Hj Hl IHl]; cbn [items]; intros vs E Hs; [injection E as <-; constructor|].
    destruct (to_any j) as [x|] eqn:Ej; cbn [mbind option_bind] in E; [|discriminate]. fold items in E. destruct (items l) as [xs|] eqn:El; cbn [mbind option_bind] in E; [|discriminate].
    injection E as <-. apply Forall_cons in Hs as [H1 H2]. constructor; [exact (Hj _ eq_refl H1)|exact (IHl xs eq_refl H2)].
  - change (AObj <$> to_members [] l = Some v -> Strings v -> Tidy v). intros E H.
    assert (forall m m', NoDup (map fst m) -> Forall (fun kv => Strings kv.2 -> Tidy kv.2) m -> to_members m l = Some m' ->
      NoDup (map fst m') /\ Forall (fun kv => Strings kv.2 -> Tidy kv.2) m') as Hm.
    { clear E H v. induction IH as [|[k j] l Hj Hl IHl]; intros m m' Hn Hs; cbn [to_members]; [intros [= <-]; auto|]. fold to_members.
      destruct (to_any j) as [x|] eqn:Ej; cbn [mbind option_bind]; [|discriminate]. apply IHl; [apply mset_nodup, Hn|].
      apply (mset_forall (fun x => Strings x -> Tidy x)); [exact (Hj _ Ej)|exact Hs]. }
    destruct (to_members [] l) as [m|] eqn:Em; [|discriminate]. injection E as <-. inversion H as [| | | | | |? Hs]; subst.
    destruct (Hm [] m (NoDup_nil_2) (List.Forall_nil _) Em) as [H1 H2]. constructor; [exact H1|]. rewrite Forall_forall in *. intros kv Hin. exact (H2 kv Hin (Hs kv Hin)).
Qed.

Lemma decoded_tidy (b : bytes) (m : gomap) : decodeObj b = Some m -> Tidy (AObj m).
Proof.
  intros H. pose proof (decodeObj_strings b m H) as Hs. unfold decodeObj, Unmarshal in H. destruct (decode b) as [j|]; [|discriminate]. cbn [mbind option_bind] in H.
  destruct (to_any j) as [v|] eqn:E; [|discriminate]. apply to_any_tidy in E; [|destruct v; try discriminate; injection H as <-; constructor; exact Hs].
  destruct v; try discriminate; injection H as <-; [constructor; [apply NoDup_nil_2|constructor]|exact E].
Qed.

(** ** The answers can be written *)

Section Chain.
Context (fmt : spec_float -> bytes) (e : nat).

Lemma reasoning_valid (m : gomap) (s : string) : Tidy (AObj m) -> firstChatReasoning m = Some s -> V s.
Proof.
  intros H. unfold firstChatReasoning. assert (Forall V (omap (fun key => s ← str m key; if String.eqb s "" then None else Some s) ["reasoning_content"; "reasoning"; "reasoning_text"])) as Hv.
  { apply (omap_forall (fun _ => True)); [|repeat constructor]. intros k t _. destruct (str m k) as [u|] eqn:E; [|discriminate]. cbn. destruct (String.eqb u ""); [discriminate|].
    intros [= <-]. exact (tidy_str m H _ _ E). }
  destruct (omap _ _) as [|t l]; [discriminate|]. intros [= <-]. inversion Hv; assumption.
Qed.

(** The blocks of the Messages answer. *)
Lemma blocks_fit (m : gomap) : Tidy (AObj m) -> Forall (call_written fmt e) (omap chat_call_piece (default [] (arr m "tool_calls"))) ->
  Forall (Fits fmt (S e)) (chatMessageToMessBlocks m).
Proof.
  intros H Hc. unfold chatMessageToMessBlocks. apply Forall_app. split.
  - set (texts := match get m "content" with Some (AStr _) => _ | _ => _ end). assert (Forall (Fits fmt (S e)) texts) as Ht.
    { unfold texts. destruct (get m "content") as [v|] eqn:G; [|constructor]. apply (tidy_get m H) in G. destruct v as [| | | |c|parts|]; try constructor; inversion G; subst.
      - destruct (String.eqb c ""); [constructor|]. constructor; [apply text_fits; (reflexivity || assumption)|constructor].
      - eapply omap_forall; [|eassumption]. intros v y Hp; destruct v as [| | | | | |pm]; try discriminate. cbn [as_obj mbind option_bind]. destruct (is_str pm "type" "text"); [|discriminate].
        destruct (str pm "text") as [t|] eqn:Es; cbn; [|discriminate]. intros [= <-]. apply text_fits; [reflexivity|exact (tidy_str pm Hp _ _ Es)]. }
    destruct (firstChatReasoning m) as [r|] eqn:Er; [|exact Ht]. constructor; [apply thinking_fits, (reasoning_valid m r H Er)|exact Ht].
  - destruct (arr m "tool_calls") as [calls|] eqn:Ea; [|constructor]. apply (tidy_arr m H) in Ea. cbn [default from_option id] in *. unfold id in *.
    induction Ea as [|raw calls Hr Hl IH]; [constructor|]. cbn [omap list_omap] in *. destruct raw as [| | | | | |call]; cbn [chat_call_piece as_obj mbind option_bind] in *; try exact (IH Hc).
    destruct (obj call "function") as [f|] eqn:Ef; cbn in *; [|exact (IH Hc)]. apply Forall_cons in Hc as [Hc Hcs]. constructor; [|exact (IH Hcs)].
    apply (tidy_obj call Hr) in Ef. destruct (parsed (get f "arguments")). apply tool_use_fits; [exact (tidy_str0 call Hr "id")|exact (tidy_str0 f Ef "name")|constructor; assumption].
Qed.

Lemma first_choice_tidy (response : gomap) : Tidy (AObj response) -> Tidy (AObj (chat_choice response).1).
Proof.
  intros H. assert (Tidy (AObj [])) as H0 by (constructor; [apply NoDup_nil_2|constructor]). unfold chat_choice.
  destruct (arr response "choices") as [l|] eqn:E; [|exact H0]. apply (tidy_arr response H) in E. destruct E as [|v l Hv Hl]; [exact H0|]. destruct v as [| | | | | |choice]; try exact H0.
  cbn. destruct (obj choice "message") as [m|] eqn:Em; [exact (tidy_obj choice Hv _ _ Em)|exact H0].
Qed.

(** A literal document that can be written. *)
Ltac sound := repeat first
  [ assumption | apply W_nil | apply W_bool | apply W_str | apply W_int; unfold_int; lia
  | apply W_arr; repeat apply List.Forall_cons; try apply List.Forall_nil
  | apply W_obj; [keys|lits|repeat (apply List.Forall_cons; [cbn [snd]|]); try apply List.Forall_nil] ].

Ltac valid_strings := repeat first
  [ assumption | apply st_nil | apply st_bool | apply st_int | apply st_str
  | apply st_arr; repeat apply List.Forall_cons; try apply List.Forall_nil
  | apply st_obj; repeat (apply List.Forall_cons; [cbn [snd]|]); try apply List.Forall_nil ].

Lemma counts_range (m : gomap) (k : string) : (0 <= intOr0 m k <= max64)%Z.
Proof. pose proof (intOr0_range m k). unfold max64. lia. Qed.

Lemma chat_counts (response : gomap) : exists i o c, chatUsageToMess response =
    [("input_tokens", AInt i); ("output_tokens", AInt o); ("cache_creation_input_tokens", AInt 0); ("cache_read_input_tokens", AInt c)] /\
  (0 <= i <= max64)%Z /\ (0 <= o <= max64)%Z /\ (0 <= c <= max64)%Z.
Proof.
  unfold chatUsageToMess. assert (0 <= 0 <= max64)%Z as H0 by (unfold max64; lia). destruct (obj response "usage") as [u|]; [|exists 0%Z, 0%Z, 0%Z; auto].
  eexists _, _, _. split; [reflexivity|]. unfold first_count. repeat match goal with |- context [if ?b then _ else _] => destruct b end; destruct (obj u _); auto using counts_range.
Qed.

Lemma answer_blocks_fit (response : gomap) : Tidy (AObj response) -> Forall (call_written fmt e) (chat_answer response) ->
  Forall (Fits fmt (S e)) (chatMessageToMessBlocks (chat_choice response).1).
Proof. intros H Hc. apply blocks_fit; [exact (first_choice_tidy response H)|]. unfold chat_answer in Hc. cbv zeta in Hc. rewrite !Forall_app in Hc. apply Hc. Qed.

Lemma answer_written (response : gomap) : Tidy (AObj response) -> Forall (call_written fmt e) (chat_answer response) ->
  Writable fmt (3 + e) (AObj (chat_to_mess_response response)) /\ Strings (AObj (chat_to_mess_response response)).
Proof.
  intros H Hc. pose proof (answer_blocks_fit response H Hc) as Hb.
  pose proof (proj1 (fits_arr fmt (S e) _) Hb) as [Hw Hs _]. pose proof (tidy_str0 response H "id") as Hi. pose proof (tidy_str0 response H "model") as Hm.
  unfold chat_to_mess_response, message_object. destruct (chat_choice response) as [message finish]. cbn [fst] in *.
  destruct (chat_counts response) as (i & o & c & -> & Ri & Ro & Rc). change (3 + e)%nat with (S (S (S e))). split; [sound|valid_strings; try reflexivity].
  unfold chatFinishToMess. repeat match goal with |- context [if ?b then _ else _] => destruct b end; reflexivity.
Qed.

Lemma summary_fits (id t : string) (n : nat) : V id -> V t -> Fits fmt 3 (summary_item id n t).
Proof.
  intros Hi Ht. unfold summary_item. assert (V ("rs_" +:+ id +:+ "_" +:+ FormatInt (Z.of_nat n))%stdpp).
  { apply valid_app; [reflexivity|]. apply valid_app; [exact Hi|]. apply valid_app; [reflexivity|exact (nice_number _)]. }
  fit; reflexivity.
Qed.

Lemma output_part_fits (t : string) : V t -> Fits fmt 2 (output_part t).
Proof. intros H. unfold output_part. fit. reflexivity. Qed.

Lemma output_call_fits (d : nat) (bm : gomap) : FitsIn fmt d bm -> Fits fmt 1 (output_call fmt bm).
Proof.
  intros H. pose proof (fits_tidy fmt _ _ (proj1 (fits_obj fmt d bm) H)) as Ht. assert (V (marshalAny fmt (default ANil (get bm "input")))).
  { destruct (get bm "input") as [v|] eqn:G; [|reflexivity]. exact (arguments_valid fmt d v (ft_written fmt d v (fits_get fmt d bm _ v H G))). }
  unfold output_call. fit; first [reflexivity | exact (tidy_str0 bm Ht _)].
Qed.

Lemma content_fits (d : nat) (id : string) (content : list any) : V id -> Forall (Fits fmt d) content -> forall n,
  Forall (Fits fmt 4) (content_output fmt id n content).1.1 /\ Forall (Fits fmt 2) (content_output fmt id n content).1.2 /\ Forall (Fits fmt 4) (content_output fmt id n content).2.
Proof.
  intros Hi. induction 1 as [|b content Hb Hc IH]; intros n; [repeat split; constructor|]. destruct b as [| | | | | |bm]; try exact (IH n). cbn [content_output].
  pose proof (fits_tidy fmt _ _ Hb) as Ht. destruct (is_str bm "type" "thinking").
  - destruct (str bm "thinking") as [t|] eqn:Es; [|exact (IH n)]. destruct (IH (S n)) as (H1 & H2 & H3). destruct (content_output fmt id (S n) content) as [[out ts] fcs].
    repeat split; [|exact H2|exact H3]. constructor; [|exact H1]. apply (fits_mono fmt 3); [lia|]. exact (summary_fits id t n Hi (tidy_str bm Ht _ _ Es)).
  - destruct (IH n) as (H1 & H2 & H3). destruct (content_output fmt id n content) as [[out ts] fcs]. destruct (is_str bm "type" "text").
    + destruct (str bm "text") as [t|] eqn:Es; (repeat split; [exact H1| |exact H3]); [|exact H2]. constructor; [exact (output_part_fits t (tidy_str bm Ht _ _ Es))|exact H2].
    + destruct (is_str bm "type" "tool_use"); [|repeat split; assumption]. repeat split; [exact H1|exact H2|]. constructor; [|exact H3]. apply (fits_mono fmt 1); [lia|].
      destruct (members_fit fmt _ _ _ Hb eq_refl) as (d' & -> & Hm). exact (output_call_fits d' bm Hm).
Qed.

(** The Responses answer made of a Messages answer can be written. *)
Lemma output_written (d : nat) (msg : gomap) : Tidy (AObj msg) -> Forall (Fits fmt d) (default [] (arr msg "content")) ->
  Writable fmt 6 (AObj (mess_to_resp_response fmt msg)) /\ Strings (AObj (mess_to_resp_response fmt msg)).
Proof.
  intros H Hc. pose proof (tidy_str0 msg H "id") as Hi. pose proof (tidy_str0 msg H "model") as Hm. destruct (content_fits d _ _ Hi Hc 0) as (H1 & H2 & H3).
  unfold mess_to_resp_response, messContentToRespOutput. destruct (content_output fmt (str0 msg "id") 0 _) as [[out ts] fcs]. cbn [fst snd] in *.
  set (message := match ts with [] => _ | _ => _ end). assert (Fits fmt 5 (AArr (out ++ message ++ fcs))) as [Hw Hs _].
  { apply fits_arr. rewrite !Forall_app. split; [exact H1|]. split; [|exact H3]. unfold message. destruct ts as [|t ts]; [constructor|]. constructor; [|constructor].
    assert (Fits fmt 3 (AArr (t :: ts))) by (apply fits_arr, H2). fit; reflexivity. }
  unfold messUsageToResp. assert (forall k, 0 <= usage_of msg k <= max64)%Z as Hu.
  { intros k. unfold usage_of. destruct (obj msg "usage"); [apply counts_range|unfold max64; lia]. }
  pose proof (Hu "input_tokens"). pose proof (Hu "output_tokens"). pose proof (Hu "cache_read_input_tokens").
  assert (0 <= sumTokens (usage_of msg "input_tokens") (usage_of msg "output_tokens") <= max64)%Z.
  { unfold sumTokens. repeat match goal with |- context [if ?b then _ else _] => destruct b eqn:?E end; unfold_int; lia. }
  split; [sound|valid_strings; reflexivity].
Qed.

(** Items of a Responses answer that is written and read. *)
Lemma part_again (role : string) (p : any) : Tidy p -> resp_part role (reread p) = resp_part role p.
Proof.
  intros H. destruct p as [| | | | | |pm]; try reflexivity. unfold resp_part. cbn [reread]. rewrite (str_again pm H). destruct (str pm "text"); [|reflexivity]. rewrite !(is_str_again pm H). reflexivity.
Qed.

Lemma item_again (im : gomap) : Tidy (AObj im) -> resp_item (by_key reread im) = resp_item im.
Proof.
  intros H. unfold resp_item. assert (typed (by_key reread im) = typed im) as -> by (unfold typed; rewrite (get_again im H); destruct (get im "type"); reflexivity).
  unfold toolCallID. rewrite !(is_str_again im H), !(str0_again im H), (str_again im H), !(get_again im H).
  destruct (_ || _)%bool; [|destruct (is_str im "type" "function_call"); [|destruct (is_str im "type" "reasoning")]].
  - destruct (speaks _); [|reflexivity]. unfold resp_content. rewrite (get_again im H), (str0_again im H). destruct (get im "content") as [v|] eqn:G; [|reflexivity].
    apply (tidy_get im H) in G. destruct v as [| | | |c|c|]; try reflexivity; inversion G as [| | | |? Hc|? Hc|]; subst; cbn [fmap option_fmap option_map reread]; [rewrite Hc; reflexivity|].
    induction Hc as [|p c Hp Hl IH]; [reflexivity|]. cbn [map flat_map]. rewrite part_again by exact Hp. f_equal. apply IH. constructor. exact Hl.
  - destruct (get im "arguments") as [v|] eqn:G; [|reflexivity]. apply (tidy_get im H) in G. destruct v as [| | | |s| |]; try reflexivity. inversion G as [| | | |? Es| |]; subst.
    cbn [fmap option_fmap option_map reread]. rewrite Es. reflexivity.
  - rewrite (arr_again im H). destruct (arr im "summary") as [l|] eqn:E; [|reflexivity]. apply (tidy_arr im H) in E. cbn [fmap option_fmap option_map default from_option]. f_equal.
    apply omap_again; [|exact E]. intros v Hv. destruct v as [| | | | | |m]; try reflexivity. cbn. exact (str_again m Hv "text").
  - destruct (is_str im "type" "function_call_output"); [|reflexivity]. rewrite block_text_again; [reflexivity|]. destruct (get im "output") eqn:G; [exact (tidy_get im H _ _ G)|exact I].
Qed.

Lemma output_again (m : gomap) : Tidy (AObj m) -> output_pieces (by_key reread m) = output_pieces m.
Proof.
  intros H. unfold output_pieces. rewrite (arr_again m H). destruct (arr m "output") as [l|] eqn:E; [|reflexivity]. cbn [fmap option_fmap option_map default from_option]. unfold id.
  rewrite objects_again. apply (tidy_arr m H), tidy_objects in E. induction E as [|im l' Him Hl IH]; [reflexivity|]. cbn. rewrite item_again, IH by exact Him. reflexivity.
Qed.
End Chain.

(** ** End to end *)

(** The counters of a Chat answer, and of a Responses answer. *)
Definition chat_count (response : gomap) (key other : string) : Z := match obj response "usage" with Some u => first_count u key other | None => 0 end.
Definition cached_count (response : gomap) (details : string) : Z := match u ← obj response "usage"; obj u details with Some d => intOr0 d "cached_tokens" | None => 0 end.

Lemma chat_usage_counts (response : gomap) : chatUsageToMess response =
  [("input_tokens", AInt (chat_count response "prompt_tokens" "input_tokens")); ("output_tokens", AInt (chat_count response "completion_tokens" "output_tokens"));
   ("cache_creation_input_tokens", AInt 0); ("cache_read_input_tokens", AInt (cached_count response "prompt_tokens_details"))].
Proof. unfold chatUsageToMess, chat_count, cached_count. destruct (obj response "usage"); reflexivity. Qed.

(** A counter of the usage of a document that was written and read. *)
Lemma usage_reread (m u : gomap) (k : string) (n : Z) : Tidy (AObj m) -> obj m "usage" = Some u -> get u k = Some (AInt n) -> (0 <= n < 2 ^ 53)%Z -> usage_of (by_key reread m) k = n.
Proof.
  intros H Eu Ek Hn. unfold usage_of. rewrite (obj_again m H), Eu. cbn. apply (tidy_obj m H) in Eu. apply int_reread; [inversion Eu; assumption|exact Ek|exact Hn].
Qed.

Lemma only_all (f : Piece -> bool) (b : bool) (ps : list Piece) : Forall (fun p => f p = b) ps -> only f ps = if b then ps else [].
Proof. induction 1 as [|p ps Hp Hps IH]; [destruct b; reflexivity|]. cbn. rewrite Hp. fold (only f ps). rewrite IH. destruct b; reflexivity. Qed.

Lemma answer_kinds (response : gomap) : only is_thinking (chat_answer response) ++ only is_text (chat_answer response) ++ only is_call (chat_answer response) = chat_answer response.
Proof.
  unfold chat_answer. cbv zeta. set (message := (chat_choice response).1). set (a := match firstChatReasoning message with Some _ => _ | None => _ end). set (b := map _ _). set (c := omap _ _).
  assert (exists l, a = map PThinking l) as [l1 E1] by (subst a; destruct (firstChatReasoning message) as [r|]; [exists [r]|exists []]; reflexivity).
  assert (exists l, c = map (fun x : string * string * any => PCall x.1.1 x.1.2 x.2) l) as [l3 E3].
  { subst c. induction (default [] (arr message "tool_calls")) as [|raw l [l3 E]]; [exists []; reflexivity|]. cbn. destruct raw as [| | | | | |call]; cbn; try (exists l3; exact E).
    destruct (obj call "function") as [f|]; cbn; [|exists l3; exact E]. rewrite E. eexists (_ :: l3). cbn. f_equal. instantiate (1 := (_, _, _)). reflexivity. }
  subst b. rewrite E1, E3, !only_app.
  assert (forall X f bb (g : X -> Piece) l, (forall x, f (g x) = bb) -> only f (map g l) = if bb then map g l else []) as H.
  { intros X f bb g l Hg. apply only_all, (proj2 (Forall_fmap _ _ _)), Forall_forall. intros x _. apply Hg. }
  set (call := fun x : string * string * any => PCall x.1.1 x.1.2 x.2).
  rewrite (H _ is_thinking true PThinking), (H _ is_thinking false (PText "assistant")), (H _ is_thinking false call) by reflexivity.
  rewrite (H _ is_text false PThinking), (H _ is_text true (PText "assistant")), (H _ is_text false call) by reflexivity.
  rewrite (H _ is_call false PThinking), (H _ is_call false (PText "assistant")), (H _ is_call true call) by reflexivity.
  rewrite !app_nil_r. reflexivity.
Qed.

Lemma content_again (l : list any) : Forall Tidy l -> flat_map (mess_block "assistant") (map reread l) = map reread_piece (flat_map (mess_block "assistant") l).
Proof. intros H. rewrite !flat_map_concat_map, map_map. induction H as [|v l Hv Hl IH]; [reflexivity|]. cbn. rewrite block_again, map_app by exact Hv. f_equal. exact IH. Qed.

(** The Messages answer in between, as the second converter reads it. *)
Lemma middle_answer (fmt : spec_float -> bytes) (response : gomap) (e : nat) : Tidy (AObj response) -> Forall (call_written fmt e) (chat_answer response) -> (Z.of_nat e + 3 <= maxNestingDepth)%Z ->
  let M := chat_to_mess_response response in let m := by_key reread M in
  Tidy (AObj M) /\ decodeObj (Marshal fmt (AObj M)) = Some m /\ Forall (Fits fmt (S e)) (default [] (arr m "content")) /\
  flat_map (mess_block "assistant") (default [] (arr m "content")) = map reread_piece (chat_answer response) /\
  str0 m "id" = str0 response "id" /\ str0 m "model" = str0 response "model" /\ obj M "usage" = Some (chatUsageToMess response).
Proof.
  intros Ht Hc Hlim. cbv zeta. destruct (answer_written fmt e response Ht Hc) as [W1 S1]. set (M := chat_to_mess_response response) in *. pose proof (written_tidy fmt _ _ W1 S1) as TM.
  split; [exact TM|]. split; [unfold decodeObj; rewrite (marshal_unmarshal fmt (AObj M) (3 + e)) by (first [lia | exact W1]); reflexivity|].
  pose proof (answer_blocks_fit fmt e response Ht Hc) as FB. rewrite (arr_again M TM), !(str0_again M TM). pose proof (answer_blocks response) as EB. revert FB EB.
  unfold M, chat_to_mess_response. destruct (chat_choice response) as [message finish]. cbn [fst]. set (blocks := chatMessageToMessBlocks message). intros FB EB.
  change (default [] (map reread <$> arr _ "content")) with (map reread blocks).
  split; [apply (proj2 (Forall_fmap _ _ _)); eapply Forall_impl; [exact FB|intros v; apply fits_again]|].
  split; [rewrite content_again, EB; [reflexivity|]; eapply Forall_impl; [exact FB|intros v; apply fits_tidy]|]. repeat split.
Qed.

Lemma calls_fit (fmt : spec_float -> bytes) (response : gomap) (e : nat) : Forall (call_written fmt e) (chat_answer response) -> (Z.of_nat e <= maxNestingDepth)%Z ->
  Forall (call_fits fmt) (map reread_piece (chat_answer response)).
Proof.
  intros H He. apply (proj2 (Forall_fmap _ _ _)). unfold chat_answer in *. cbv zeta in *. rewrite !Forall_app in *. destruct H as (_ & _ & H). split; [destruct (firstChatReasoning _); repeat constructor|].
  split; [apply (proj2 (Forall_fmap _ _ _)), Forall_forall; intros t _; exact I|].
  induction (default [] (arr (chat_choice response).1 "tool_calls")) as [|raw l IH]; [constructor|]. cbn [omap list_omap] in *. destruct raw as [| | | | | |call]; try exact (IH H).
  cbn [chat_call_piece as_obj mbind option_bind] in *. destruct (obj call "function") as [f|]; [|exact (IH H)]. cbn [mbind option_bind] in *. apply Forall_cons in H as [H1 H]. constructor; [|exact (IH H)].
  exists e. split; [|exact He]. destruct (parsed (get f "arguments")). apply writable_again; assumption.
Qed.

Lemma message_usage (fmt : spec_float -> bytes) (m : gomap) : exists u, obj (mess_to_resp_response fmt m) "usage" = Some u /\ u = messUsageToResp m (usage_of m "input_tokens") (usage_of m "output_tokens").
Proof.
  eexists. split; [|reflexivity]. unfold mess_to_resp_response, messContentToRespOutput. destruct (content_output _ _ _ _) as [[? ?] ?]. reflexivity.
Qed.

Lemma message_names (fmt : spec_float -> bytes) (m : gomap) : str0 (mess_to_resp_response fmt m) "id" = str0 m "id" /\ str0 (mess_to_resp_response fmt m) "model" = str0 m "model".
Proof. unfold mess_to_resp_response. destruct (messContentToRespOutput fmt m) as [[? ?] ?]. split; reflexivity. Qed.

Lemma chat_count_range (response : gomap) (k o : string) : (0 <= chat_count response k o)%Z.
Proof. unfold chat_count. destruct (obj response "usage") as [u|]; [|lia]. unfold first_count. destruct (_ =? _)%Z; apply intOr0_range. Qed.

Lemma cached_range (response : gomap) (k : string) : (0 <= cached_count response k)%Z.
Proof. unfold cached_count. destruct (u ← obj response "usage"; obj u k); [apply intOr0_range|lia]. Qed.

(** The counters of the two documents. *)
Lemma counters_kept (fmt : spec_float -> bytes) (response M : gomap) (i o c : Z) : let m := by_key reread M in let R := mess_to_resp_response fmt m in
  Tidy (AObj M) -> Tidy (AObj R) -> obj M "usage" = Some (chatUsageToMess response) ->
  i = chat_count response "prompt_tokens" "input_tokens" -> o = chat_count response "completion_tokens" "output_tokens" ->
  c = cached_count response "prompt_tokens_details" -> (i + o < 2 ^ 53)%Z -> (c < 2 ^ 53)%Z ->
  usage_of (by_key reread R) "input_tokens" = i /\ usage_of (by_key reread R) "output_tokens" = o /\ usage_of (by_key reread R) "total_tokens" = (i + o)%Z /\
  cached_count (by_key reread R) "input_tokens_details" = c.
Proof.
  cbv zeta. intros TM TR Gu Ei Eo Ec Hio Hc. rewrite chat_usage_counts, <- Ei, <- Eo, <- Ec in Gu.
  assert (0 <= i)%Z by (rewrite Ei; apply chat_count_range). assert (0 <= o)%Z by (rewrite Eo; apply chat_count_range). assert (0 <= c)%Z by (rewrite Ec; apply cached_range).
  set (R := mess_to_resp_response fmt (by_key reread M)) in *. destruct (message_usage fmt (by_key reread M)) as (u & Hu & Eu). fold R in Hu.
  rewrite (usage_reread M _ "input_tokens" i TM Gu) in Eu by (first [reflexivity | lia]). rewrite (usage_reread M _ "output_tokens" o TM Gu) in Eu by (first [reflexivity | lia]).
  unfold messUsageToResp in Eu. rewrite (usage_reread M _ "cache_read_input_tokens" c TM Gu) in Eu by (first [reflexivity | lia]).
  assert (sumTokens i o = i + o)%Z as Es. { unfold sumTokens. rewrite (proj2 (Z.ltb_ge i 0)), (proj2 (Z.ltb_ge o 0)), (proj2 (Z.ltb_ge _ i)) by (unfold max64; lia). reflexivity. }
  rewrite Es in Eu. subst u. split; [|split; [|split]]; try (apply (usage_reread R _ _ _ TR Hu); [reflexivity|lia]).
  pose proof (tidy_obj R TR _ _ Hu) as TU. unfold cached_count. rewrite (obj_again R TR), Hu. cbn [fmap option_fmap option_map mbind option_bind]. rewrite (obj_again _ TU).
  cbn [obj get String.eqb Ascii.eqb Bool.eqb fmap option_fmap option_map]. apply int_reread; [keys|reflexivity|lia].
Qed.

(** C21: A Chat answer reaches a Responses client through two converters: what is
    written can be read; its items are the thinking, the texts and the tool calls of
    the Chat answer, with the same identifiers and arguments; identifier and model
    are those of the answer; and the counters of the usage are the provider's as
    long as they fit a [float64] exactly. *)
Theorem chat_to_resp_answer (fmt : spec_float -> bytes) (body : bytes) (response : gomap) (e : nat) :
  decodeObj body = Some response -> Forall (call_written fmt e) (chat_answer response) -> (Z.of_nat e + 3 <= maxNestingDepth)%Z ->
  exists out answer, chatToRespResponse fmt body = Some out /\ decodeObj out = Some answer /\
    output_pieces answer = map reread_piece (chat_answer response) /\
    str0 answer "id" = str0 response "id" /\ str0 answer "model" = str0 response "model" /\
    forall i o c, i = chat_count response "prompt_tokens" "input_tokens" -> o = chat_count response "completion_tokens" "output_tokens" ->
      c = cached_count response "prompt_tokens_details" -> (i + o < 2 ^ 53)%Z -> (c < 2 ^ 53)%Z ->
      usage_of answer "input_tokens" = i /\ usage_of answer "output_tokens" = o /\ usage_of answer "total_tokens" = (i + o)%Z /\
      cached_count answer "input_tokens_details" = c.
Proof.
  intros Hd Hc Hlim. destruct (middle_answer fmt response e (decoded_tidy body response Hd) Hc Hlim) as (TM & D1 & FB & EB & Hi & Hm & Gu). set (M := chat_to_mess_response response) in *.
  destruct (output_written fmt (S e) (by_key reread M) (tidy_again _ TM) FB) as [W2 S2]. destruct (message_names fmt (by_key reread M)) as [Ni Nm]. pose proof (written_tidy fmt _ _ W2 S2) as TR.
  pose proof (fun i o c => counters_kept fmt response M i o c TM TR Gu) as HU. set (R := mess_to_resp_response fmt (by_key reread M)) in *.
  exists (Marshal fmt (AObj R)), (by_key reread R). split; [unfold chatToRespResponse, chatToMessResponse, messToRespResponse; rewrite Hd; cbn [mbind option_bind]; fold M; rewrite D1; reflexivity|].
  split; [unfold decodeObj; rewrite (marshal_unmarshal fmt (AObj R) 6) by (first [exact W2 | vm_compute; discriminate]); reflexivity|].
  rewrite !(str0_again R TR), Ni, Nm, Hi, Hm. split; [|split; [reflexivity|split; [reflexivity|exact HU]]].
  rewrite (output_again R TR). unfold R. rewrite (output_read fmt), EB; [|rewrite EB; apply (calls_fit fmt response e Hc); lia]. cbv zeta.
  rewrite !only_again by (intros []; reflexivity). rewrite reread_pieces, <- !map_app, answer_kinds. reflexivity.
Qed.

Definition demo_answer_body : bytes := jt
  "{'id':'r1','model':'m','choices':[{'message':{'role':'assistant','reasoning_content':'hm','content':[{'type':'text','text':'a'},{'type':'image'},{'type':'text','text':'b'}],
    'tool_calls':[{'id':'c1','type':'function','function':{'name':'f','arguments':'{\'y\':[],\'x\':{}}'}}]},'finish_reason':'tool_calls'}],'usage':{'prompt_tokens':7,'completion_tokens':5,
    'prompt_tokens_details':{'cached_tokens':3}}}".

Definition demo_answer : gomap := default [] (decodeObj demo_answer_body).

Lemma chat_to_resp_answer_witness : chat_answer demo_answer = [PThinking "hm"; PText "assistant" "a"; PText "assistant" "b"; PCall "c1" "f" (AObj [("y", AArr []); ("x", AObj [])])] /\
  exists out answer, chatToRespResponse no_float demo_answer_body = Some out /\ decodeObj out = Some answer /\
    output_pieces answer = map reread_piece (chat_answer demo_answer) /\ usage_of answer "total_tokens" = 12%Z.
Proof.
  split; [vm_compute; reflexivity|]. destruct (chat_to_resp_answer no_float demo_answer_body demo_answer 2) as (out & answer & H1 & H2 & H3 & _ & _ & H6).
  - vm_compute. reflexivity.
  - let r := eval vm_compute in (chat_answer demo_answer) in change (chat_answer demo_answer) with r.
    repeat (apply List.Forall_cons; [cbn [call_written]; try exact I|]); try apply List.Forall_nil.
    apply W_obj; [keys|lits|repeat (apply List.Forall_cons; [cbn [snd]|]); try apply List.Forall_nil].
    + apply W_arr, List.Forall_nil.
    + apply W_obj; [keys|lits|apply List.Forall_nil].
  - vm_compute. discriminate.
  - exists out, answer. split; [exact H1|]. split; [exact H2|]. split; [exact H3|]. destruct (H6 7%Z 5%Z 3%Z) as (_ & _ & H & _); try (vm_compute; reflexivity). exact H.
Defined.

(** A truncated answer: [messToRespResponse] always says "completed", so what
    [respToMessStopReason] reads as "max_tokens" is never written. *)
Theorem truncation_lost (fmt : spec_float -> bytes) (msg : gomap) : str0 (mess_to_resp_response fmt msg) "status" = "completed" /\
  respToMessStopReason (mess_to_resp_response fmt msg) <> "max_tokens".
Proof.
  unfold mess_to_resp_response. destruct (messContentToRespOutput fmt msg) as [[output it] ot]. split; [reflexivity|]. unfold respToMessStopReason.
  change (String.eqb (str0 _ "status") "incomplete") with false. cbv iota. destruct (existsb _ _); discriminate.
Qed.

(** ** Failures *)

Section Failures.
Context (range : list (bytes * bytes) -> list (bytes * bytes)).

(** The objects of a body that are looked at, [levels] deep. *)
Inductive reaches : nat -> Raw -> Raw -> Prop :=
| re_here n root : reaches (S n) root root
| re_below n root key obj r : In key wrapper_keys -> wrapped root key = Some obj -> reaches n obj r -> reaches (S n) root r.

(** What an object says of itself: an error payload, a status or a type that names
    a failure, or a flag that denies success. *)
Definition says_failure (r : Raw) : Prop :=
  (exists raw, raw_get r "error" = Some raw /\ hasJSONErrorPayload range raw = true) \/
  upstreamResponseIsFailureStatus (rawText (raw_get r "status")) = true \/ upstreamResponseIsFailureType (rawText (raw_get r "type")) = true \/
  exists key raw, In key ["success"; "ok"] /\ raw_get r key = Some raw /\ unmarshal_bool raw = Some false.

Lemma own_or_flag (r : Raw) : is_Some (own_failure range r) \/ is_Some (flag_failure r) <-> says_failure r.
Proof.
  unfold own_failure, flag_failure, says_failure.
  assert (is_Some (if existsb (fun key => match raw ← raw_get r key; unmarshal_bool raw with Some false => true | _ => false end) ["success"; "ok"] then
    Some (mkFailure (rawText (raw_get r "status")) "" (let message := rawText (raw_get r "message") in if String.eqb message "" then "upstream reported an unsuccessful response" else message)) else None) <->
    exists key raw, In key ["success"; "ok"] /\ raw_get r key = Some raw /\ unmarshal_bool raw = Some false) as Hf.
  { destruct (existsb _ _) eqn:E.
    - apply existsb_exists in E as (key & Hin & E). split; [intros _|intros _; eexists; reflexivity]. exists key. destruct (raw_get r key) as [raw|]; [|discriminate]. cbn in E.
      exists raw. split; [exact Hin|]. split; [reflexivity|]. destruct (unmarshal_bool raw) as [[]|]; (reflexivity || discriminate).
    - split; [intros [? [=]]|]. intros (key & raw & Hin & Hr & Hb). apply not_true_iff_false in E. exfalso. apply E, existsb_exists. exists key. rewrite Hr. cbn. rewrite Hb. auto. }
  rewrite Hf. clear Hf. unfold upstreamResponseHasErrorPayload.
  assert (match raw_get r "error" with Some raw => hasJSONErrorPayload range raw | None => false end = true <-> exists raw, raw_get r "error" = Some raw /\ hasJSONErrorPayload range raw = true) as He.
  { destruct (raw_get r "error") as [raw|]; [split; [eauto|intros (? & [= <-] & H); exact H]|split; [discriminate|intros (? & [=] & _)]]. }
  rewrite <- He. generalize (exists key raw, In key ["success"; "ok"] /\ raw_get r key = Some raw /\ unmarshal_bool raw = Some false). intros Q.
  destruct (match raw_get r "error" with Some _ => _ | None => _ end), (upstreamResponseIsFailureStatus _), (upstreamResponseIsFailureType _); cbn [orb]; clear; unfold is_Some;
    (split; [intros [[? [=]]|H]|intros H]; first [left; eexists; reflexivity | tauto | destruct H as [[=]|[[=]|[[=]|H]]]; right; exact H]).
Qed.

Lemma below_some (levels : nat) (root : Raw) (keys : list string) :
  is_Some ((fix below (keys : list string) : option Failure :=
    match keys with [] => None | key :: keys => match obj ← wrapped root key; detect range levels obj with Some f => Some f | None => below keys end end) keys) <->
  exists key obj, In key keys /\ wrapped root key = Some obj /\ is_Some (detect range levels obj).
Proof.
  induction keys as [|key keys IH]; [split; [intros [? [=]]|intros (? & ? & [] & _)]|].
  destruct (wrapped root key) as [obj|] eqn:Ew; cbn [mbind option_bind].
  - destruct (detect range levels obj) as [f|] eqn:Ed.
    + split; [intros _; exists key, obj; split; [left; reflexivity|]; split; [exact Ew|eexists; exact Ed]|intros _; eexists; reflexivity].
    + rewrite IH. split; [intros (k & o & Hin & H); exists k, o; split; [right; exact Hin|exact H]|]. intros (k & o & [<-|Hin] & Hw & Hs); [|exists k, o; auto].
      rewrite Ew in Hw. injection Hw as <-. rewrite Ed in Hs. destruct Hs as [? [=]].
  - rewrite IH. split; [intros (k & o & Hin & H); exists k, o; split; [right; exact Hin|exact H]|]. intros (k & o & [<-|Hin] & Hw & Hs); [congruence|exists k, o; auto].
Qed.


(** A flag that is null denies success like a flag that is false. *)
Theorem null_flag_is_failure : is_Some (detectUpstreamResponseFailure range (jt "{'ok':null,'choices':[]}")) /\ is_Some (detectUpstreamResponseFailure range (jt "{'ok':false,'choices':[]}")) /\
  detectUpstreamResponseFailure range (jt "{'ok':0,'choices':[]}") = None.
Proof. split; [eexists; vm_compute; reflexivity|]. split; [eexists; vm_compute; reflexivity|vm_compute; reflexivity]. Qed.
End Failures.

